(* ===== verification/_CoqProject ===== *)
-Q . S2P
Prelude.v
Lane.v
ProtocolId.v
WireScalar.v
Frame.v
Streams.v
Fragment.v
Reassembly.v
Delivery.v
Bulk.v
BulkTransfer.v
Scheduler.v
SchedulerProps.v
LaneIo.v
NoiseRecord.v
NoiseRekey.v
NoisePrologue.v
NoiseChild.v
NoiseChannel.v
Fallback.v
FallbackProps.v
FallbackLink.v
Containment.v
Resources.v
ResourcesProps.v
Selection.v
SelectionProps.v
Budget.v
BudgetProps.v
ControlEvent.v
Continuity.v
ContinuityProps.v
WriteScopeDb.v
WriteScopeStorage.v
WriteScope.v
WriteScopeInv.v
WriteScopeRefine.v
WriteScopeReturn.v
WriteScopeTree.v
WriteScopeSystem.v
WriteScopeSafety.v
WriteScopeLive.v
WriteScopeProps.v
LocksDb.v
Locks.v
LocksSystem.v
LocksInv.v
LocksMirror.v
LocksProps.v
Staging.v
StagingProps.v
BulkUpload.v
Ceiling.v
Reader.v
Signaling.v
SignalingProps.v
SignalingPeer.v
SignalingAgree.v
Version.v
VersionProps.v
Principal.v
Attempt.v
AttemptProps.v
