(* ===== verification/Prelude.v ===== *)
(** * FlyCockpit: remote admission and transport, Noise channel, selection, continuity, bulk
      staging, resources, budgets, write-scope authority, file locks

    A verification development for the core logic of FlyCockpit's Rust workspace
    ([src/crates/]).  FlyCockpit runs a coding-agent daemon on one machine and drives
    it from clients on others.  What a client and a daemon say to each other passes
    through three layers, over transports a selection reducer starts and routes between;
    a session's authority and its outbox survive the connections that carry it.  Before any of
    that a connection is admitted: the two ends negotiate a protocol tuple, exchange signed
    records, and the daemon turns a verified grant into a principal.
    The daemon runs agents whose tool calls share pools of resources and whose delegates
    share a spend budget, delegates parts of a workspace to them for writing, locks the
    files they read and write, and keeps
    the processes it starts under durable containment records.  These are the parts modelled here.

    ** The program's parts and how they interact

    - The _remote transport_ ([cockpit-proto/src/remote_transport/]) carries frames on
      three lanes (control, interactive, bulk).  A frame is encoded ([frame.rs]), split
      into carrier fragments ([fragment.rs]), queued and scheduled per lane
      ([scheduler.rs]), written to a carrier ([lane_io.rs]), and on the other side
      reassembled, checked against its stream's sequence ([frame.rs],
      [fragment.rs]) and dispatched.  Bulk transfers ([bulk.rs]) are a protocol of
      begin, chunk, complete and abort messages on top of the bulk lane.
    - The _Noise channel_ ([cockpit-noise/src/]) encrypts the records the carriers move:
      prologue and handshake framing ([prologue.rs], [frame.rs]), the child connection
      with its authorization gate ([core.rs]), the plaintext record ([record.rs]), the
      per-direction rekey reducer ([rekey.rs]).
    - The _relay fallback_ ([cockpit-noise/src/fallback.rs]) makes the channel reliable
      over an unreliable relay: outer records, receive and send windows, retries.
    - _Transport selection_ ([cockpit-proto/src/remote_transport_selection.rs],
      [cockpit-core/src/daemon/transport_selection.rs]) decides which transports (WebRTC,
      WebSocket) an attachment may use, starts, retries, replaces and cancels the child
      connections, tracks their health and routes deliveries among them.
    - _Session continuity_ ([cockpit-proto/src/remote_session_continuity.rs],
      [cockpit-core/src/daemon/session_continuity.rs]) keeps an attachment alive across
      its children: control events and their cursor, the connection lease, reattachment
      and outbox replay, the barrier that orders operations and revocations.
    - _Admission_ decides who a remote client is.  The signaling records
      ([cockpit-proto/src/remote_signaling_attempt_store.rs], written by the clients with
      [packages/cockpit-protocol/src/remote-signaling-payloads.ts]) carry the daemon's offer,
      the client's proof and both endpoints' final proofs; version negotiation
      ([remote_version.rs]) selects a tuple and fixes its transcript; the attempt grant
      ([cockpit-core/src/daemon/remote_attempt.rs], over [es256.rs] and
      [capability_ceiling.rs]) authorizes one attempt with a permission ceiling; the gate of
      the same file checks the final proofs, and the principal ([daemon/principal.rs]) is
      built from grant and gate.
    - _Bulk staging_ ([cockpit-core/src/daemon/bulk_staging.rs]) holds the bytes of large
      messages and exports between requests; the handlers of [server/dispatch.rs] fill and
      drain it, and the client loop of [daemon/bulk_upload.rs] uploads a long user message.
    - The _resource scheduler_ ([cockpit-core/src/engine/resource_scheduler.rs]) hands
      permits of named pools to tool calls, all of a request's pools at once, and queues
      what does not fit.
    - _Delegation budgets_ ([cockpit-config/src/config/delegation_budget.rs],
      [cockpit-core/src/engine/delegation_budget.rs]) resolve spend ceilings from their
      configuration layers and book the rounds, tokens and cost of a tree of agents.
    - _Process containment_ ([cockpit-core/src/process_containment/]) is the reducer
      that decides when a session's process tree counts as empty.
    - _Write-scope authority_ ([cockpit-core/src/write_scope/], with its tables in
      [cockpit-db/src/db/write_scope_leases.rs] and their SQL triggers) decides who may
      write where: leases form a tree, a transfer moves a sub-scope from a lease to a
      child it creates, the return barrier moves it back once the containment of the
      child's process is proven empty, and recovery finishes what a crash interrupted.
    - _File locks_ ([cockpit-core/src/locks/], with their rows in
      [cockpit-db/src/db/locks.rs]) arbitrate single files among agents: exclusive holds
      with waiting, deadlock detection and idle expiry, read records that a write must
      still match, and their suspension with an agent or a session.

    ** Files

    - [Prelude]: results with a panic outcome, machine integers as [Z] with their
      checked, saturating and plain operations, byte strings, big-endian codecs, slices
      and indexing that panic out of range, sums over finite maps, tactics for running
      monadic code backwards ([ok_inv], [no_panic1]) and for reading wire fields
      ([read_field], [read_byte]), the [bytes] rewrite database.
    - [Lane]: lanes, transport errors and their redaction-safe rendering, the channel
      table, the observability record ([lane.rs], [channel.rs], [observability.rs]).
    - [ProtocolId], [WireScalar]: 16-byte identifiers and the digest interface [Sha256];
      canonical decimal [u64] strings ([remote_protocol_id.rs], [wire_scalar.rs]).
    - [Frame]: the frame codec.  [Streams]: per-stream sequencing and retirement, with
      its specification [Spec] (a stream is fresh, open at a number, or closed).
    - [Fragment]: the fragment codec and the splitter.  [Reassembly]: the reassembler.
      [Delivery]: splitting composed with reassembly, in any arrival order.
    - [Bulk]: bulk message codecs.  [BulkTransfer]: the transfer state machine.
    - [Scheduler], [SchedulerProps]: the lane scheduler and what it guarantees.
    - [LaneIo]: carriers behind the typeclasses [RemoteLaneWriter] and
      [RemoteLaneReader] with their laws, discharged by the endpoint of the source, and
      the end-to-end theorem proved against the interface.
    - [NoiseRecord], [NoiseRekey], [NoisePrologue], [NoiseChild]: the Noise crate, one
      file per source file ([NoisePrologue] holds [prologue.rs] and [frame.rs]).  The
      [snow] library is the typeclass [Snow] with [SnowLaws]; a child's methods are
      functions in a state-and-error monad whose state survives an error.
    - [NoiseChannel]: two children linked through any lawful Noise library.
    - [Fallback], [FallbackProps]: the fallback windows and what they guarantee.
      [FallbackLink]: a sending and a receiving window joined by a relay that loses, repeats and
      reorders records, and the recovery of every gap of such a link.
    - [Containment]: the containment reducer.
    - [Resources], [ResourcesProps]: the resource scheduler with its tickets, leases and
      wait loop; [World] is the scheduler with all live handles.
    - [Selection], [SelectionProps]: the selection reducer and what its runs guarantee.
    - [Budget], [BudgetProps]: budget resolution, the ledger heap and its handles, the
      lane accumulator; [World] is the heap with all live handles.

    - [WriteScopeDb]: the durable rows, their operations and triggers.
      [WriteScopeStorage]: what the tables guarantee whoever calls them.  [WriteScope]:
      scopes, permits, the backend and barrier interfaces, the coordinator.
      [WriteScopeInv]: the program logic [wp], the invariant of tables and tokens, the
      abstract specification [astep].  [WriteScopeRefine] and [WriteScopeReturn]: every
      method is a sequence of abstract steps.  [WriteScopeTree]: the lease tree.
      [WriteScopeSystem]: calls, deaths and restarts as a step relation.
      [WriteScopeSafety], [WriteScopeLive], [WriteScopeProps]: invariants, progress, and
      the resulting theorems with closed runs.

    - [LocksDb], [Locks]: the lock rows and the lock manager.  [LocksSystem]: its calls
      interleaved, the abstract lock machine, and that each call does only its owner's
      actions.  [LocksInv]: what holds under every interleaving.  [LocksMirror]:
      undisturbed calls and startup; the rows name a path by [LocksDb.path_string], which is
      exact for UTF-8 text only.  [LocksProps]: the theorems and concrete runs.

    - [Staging], [StagingProps]: the staging store, its operations as a step relation and
      what every run guarantees.  [BulkUpload]: the daemon's bulk handlers and the client's
      upload loop, composed.

    - [Ceiling]: permission ceilings and their codec.  [Reader]: readers at a moving offset
      and how they compose.  [Signaling]: the signaling records.  [SignalingProps]: no input
      makes them panic, and the event codecs are exact.  [SignalingPeer]: the TypeScript
      encoders.  [SignalingAgree]: the two implementations agree.
    - [Version], [VersionProps]: negotiation, for any registry.
    - [Principal]: principals and their authority.  [Attempt]: the ES256 verifier, the grant,
      the gate, the principal's construction.  [AttemptProps]: what admission guarantees,
      with a concrete admission.

    - [ControlEvent]: the control-event codec.  [Continuity], [ContinuityProps]: the
      lease and reattach wire types with their checks, the attachment state, and what
      its runs guarantee.

    Each definition that models code is preceded by a comment naming the source file,
    its lines and the symbol.  Definitions keep the source's names where they are free
    in the library; a prefix ([frame_], [rekey_], [nc_], ...) marks the type whose
    method or field they are.

    ** How code is modelled

    A function that returns [Result<A, E>] is a function into [result E A], which has a
    third outcome [Panic] for what aborts a checked build: an index or slice out of
    range, an [expect] on [None], plain unsigned arithmetic that overflows.  (The
    release profile of the workspace does not check overflow; there the same operation
    wraps.)  Methods on [&mut self] take and return the state; when the source mutates
    before it fails, the returned state keeps the mutation.  Integers are [Z] with the
    bounds of their type as explicit conditions; [usize] is 64 bits.  A [HashMap] or
    [BTreeMap] is a [gmap]; where the source iterates, the order is the sorted key order
    for a [BTreeMap] and an arbitrary order, quantified over, for a [HashMap]
    ([HashOrder] in [Reassembly]).  Time is an argument: a function [now] where a call
    reads the clock more than once.  Random identifiers are arguments.  Objects shared
    through [Arc<Mutex<_>>] live in a heap and handles are locations ([Budget]); a method
    that holds its lock throughout is one atomic step, and one that releases it in
    between, or awaits, is several ([ResourceTicket::wait], [BudgetPool::extend_rounds]).

    The write-scope coordinator runs against tables that outlive its process: every
    database access and every call of an interface takes a tick, at which the host may
    let the access fail or let the process die; a death is [Panic] and keeps what was
    written.  A storage operation is [Db -> option (Db * A)], with the triggers and
    foreign keys as checks that abort it.

    The methods of the lock manager hold their mutex for short sections and await the
    database in between; they are programs ([Locks.Prog]) of sections, statements and
    waits, and other calls, failures and drops of a call come between any two.  The wait
    loop is one program per turn.  [Notify] is a counter of notifications: a wait
    registered at a count is woken by any later one.

    Loops that are not structural take fuel that is provably enough: the number of
    closed ordinals for the retire cursor ([Streams.absorb]), the number of pending
    records for the fallback drain ([Fallback.drain_contiguous]), the number of
    remembered digests for its eviction, the length of the schedule for
    [Scheduler.next_from], the number of leases for the walk up a lease's ancestors
    ([WriteScope.lease_ancestry]), the number of waiters for the walk through the wait
    graph ([Locks.wait_cycle]), the length of a path for its conversion to text
    ([LocksDb.lossy_loop]).  Each is the size of what one turn of the loop consumes, and
    the theorems about the loops are stated without fuel.

    Interfaces of the source are classes: carriers, the scoped-write backend
    ([ScopedWriteBackend]), the containment barrier ([ContainmentBarrier]), the host.
    Third-party code is a parameter: SHA-256 ([Sha256], with a toy instance for
    witnesses), the Noise library ([Snow], [SnowLaws], with a toy instance), the
    caller's authorization gate, the base64 engines ([Base64Standard], [Base64Url]), the
    [p256] crate ([P256]), the deserializers of [serde_json] ([GrantJson]), path
    canonicalization, the derived debug text of a containment event.

    ** What the theorems show

    - Codecs: decoding is the exact inverse of encoding, canonical (one wire form per
      value) and total (no input panics) for frames, fragments, bulk messages, Noise
      records and prologues, and for decimal [u64] strings.
    - Streams: the sequencing component refines its specification; accepted frames are
      gapless, never replayed, never after a terminal frame; nothing the specification
      allows is refused but for the resource budgets.
    - Reassembly: any peer behaviour stays within the frame, byte and memory bounds and
      dispatches only gapless well-formed frames; the fragments of a frame in any order
      give the frame back; end to end, from any state of two endpoints with a backlog, the
      next frame written is the next one dispatched, whatever the carriers.
    - Scheduler: complete and schedule-following, no lane starves, admission is exact,
      reservations are honoured, limits hold, accounting is exact, streams are FIFO,
      a refused fragment is restored.
    - Bulk: the transfer is the bytes accepted, completion is exactly integrity, a
      correct sender completes, the one way to panic is the chunk counter.
    - Noise: no sequence number is reused across epochs, key budgets hold, epochs change
      only by commit, no record before an authorization of the child's own transcript,
      decryption fails closed, linked children deliver in order; the rekey barrier
      completes in the order the reducer expects, and fails in the order
      [NoiseChild::decrypt_record] imposes.
    - Fallback: records are released once and in order within the budgets; from every
      state a link can reach, retransmission and any arrival order close every gap; retries
      are bounded.
    - Selection: only authorized transports are started, establishment is bounded,
      cancellation is final, cancelled children are not routed to but through the TURN
      cutover, routing is exact; a security failure is not terminal, as two closed runs
      show.
    - Resources: permits in use are exactly those of the running requests and never more
      than a pool has, a lease is held by exactly one handle, nothing that fits at the
      head of the queue waits, waiting is bounded by what is ahead; a pool of capacity
      [u32::MAX] is not enforced.
    - Budgets: spend is booked exactly once on the ledger and the cap and never forgiven,
      accepted charges fit every ceiling, the provider turns of a tree are bounded,
      admission is exactly having something left in every dimension, an allotment is the
      meet of the request and what remains, retry and compaction guards hold across
      handles, resolution is by the last layer that speaks; the cap of a node does not
      bound its subtree, and an exit drain can lose an overrun.
    - Continuity: the control-event codec is exact; an event takes effect at most
      once and epochs never go back; a pause stays until a replay lifts it;
      a revocation closes every open child and drops the lease; lease children are
      canonical; a reattachment replays the whole outbox in pages.  Counterexamples: the
      cursor moves backwards on an unseen lower sequence number, a failed replay can end
      unpaused, reattaching wedges at a page over its byte bound, a drain leases a child that was still
      pending, the lease-time check overflows.
    - Admission: the daemon's validators accept exactly what the TypeScript encoders write,
      no bytes make a decoder panic, and the digest of a pair of final proofs binds the pair;
      negotiation selects the one best tuple, the same at both ends, and its upgrade advice
      can be followed; transcripts and ceilings have one encoding; an accepted grant is signed
      by the key its header names over exactly the bytes it came in, alive, and equal to
      every expectation; an open gate means both endpoint keys signed the expected agreement;
      the principal has the signed ceiling's capabilities, is never the owner and has no
      legacy scope.  Counterexamples: a transcript that was agreed on can be one that no end
      decodes, and the gate binds the admission sequence to nothing.
    - Bulk staging: the store stays within its limits whatever is asked of it, an owner's
      transfers are touched and read by that owner only, bytes leave it only complete and
      with the digest and length of the reference, an uploaded message arrives as it was sent
      and an export is read back as it was staged.  Counterexample: empty chunks grow an
      entry without bound.
    - Write scopes: over any host, backend and barrier, any failures, deaths and
      restarts, every call is a sequence of steps of the abstract specification; no two
      live tokens of one lease tree may write to the same path; permits are granted only
      within the token's authority and never conflict; the writers inside a delegated
      sub-scope are the delegate's; a dead token stays dead; a parent is restored only
      after the recorded containment is proven empty and the child's lease released; an
      unproven backend is refused before any effect; recovery without proof changes
      nothing; an undisturbed return completes exactly when the parent can take the scope back
      and the child can be released; the tables only move forward.
      Counterexamples: a return interrupted after the child's release never completes,
      and an ordinary refused transfer interrupts one; a failed finish leaves released
      code running beside the restored parent; the parent is granted renames of an
      ancestor of a delegated sub-scope; a failed transfer strands the parent without a
      token; a failed second resolution leaks a permit.
    - File locks: under every interleaving, drop, failure and restart, calls of other
      owners leave an owner's locks and records as they are, the wait graph has no cycle
      and its check is exact, a write guard is given only over an exclusive hold and (where
      it is required) an unchanged file, and the sweep takes only idle locks; any
      sequence of undisturbed calls leaves rows from which startup restores every stored hold
      and read record.  Counterexamples: a refused acquire loses a wake-up, a suspension drops
      another session's hold, transient guards of one name share a hold, a write guard is
      refused by a row that the acquire would overwrite, the lock of a path that is not UTF-8 is
      not restored.
    - Containment: transitions are legal and generation-bound, a record is empty only by
      the oracle and active only after proven membership.

    ** What is not modelled

    The handler-side users of these components (daemon sockets, storage, UI), the
    process and container adapters behind the containment reducer, the child lease rows that
    the worktree orchestration inserts for itself, futures of the write-scope coordinator dropped
    at an await, write-scope paths that are not Unicode text, the uniffi bindings
    of the Noise crate, the message classification tables, the decoders of the TypeScript
    peer, the certificate and policy documents behind an admission, request classification and
    authorization tables, the reaper task of bulk staging, the golden-trace exporter of
    transport selection, the rendered budget
    status line, the process-containment adapter of the write-scope barrier with its test
    fixtures, the deletion of session rows, JWS signatures and the serde forms of the continuity payloads, and the agent engine's drivers.  They are I/O, tables, generated code, or
    parts a later extension can add beside these files.  Cryptographic strength is outside: the
    laws of [Snow] and [Sha256] say what comes out, not what an attacker can compute, and
    signatures are what [P256] accepts. *)

From stdpp Require Export base tactics functions list list_numbers gmap sets strings sorting.
From stdpp Require Import options.
Set Warnings "-clear-no-such-hyp".
From Stdlib Require Export ZArith Lia.

#[global] Open Scope Z_scope.
(* Unary arithmetic is never wanted on the model's machine-sized constants. *)
#[global] Arguments Z.of_nat : simpl never.
#[global] Arguments Z.to_nat : simpl never.
#[global] Arguments Z.pow : simpl never.
#[global] Arguments Z.mul : simpl never.
#[global] Arguments Z.add : simpl never.
#[global] Arguments Z.sub : simpl never.
#[global] Arguments Z.div : simpl never.
#[global] Arguments Z.modulo : simpl never.
#[global] Arguments Z.land : simpl never.
#[global] Arguments Z.lor : simpl never.

(** ** Fallible code

    A Rust function that returns [Result<A, E>] is a function into
    [result E A].  [Panic] is the third outcome real code has: a slice or index
    out of range, an [expect] on [None], or an overflowing [+=] / [-=] in a
    build with overflow checks.  Showing that an operation never yields [Panic]
    is showing that it never aborts the process. *)

Inductive result (E A : Type) : Type :=
| Ok (a : A)
| Err (e : E)
| Panic.
Arguments Ok {E A} a.
Arguments Err {E A} e.
Arguments Panic {E A}.

#[export] Instance result_ret E : MRet (result E) := fun A => @Ok E A.
#[export] Instance result_bind E : MBind (result E) :=
  fun A B f m => match m with Ok a => f a | Err e => Err e | Panic => Panic end.
#[export] Instance result_fmap E : FMap (result E) :=
  fun A B f m => match m with Ok a => Ok (f a) | Err e => Err e | Panic => Panic end.

#[export] Instance result_eq_dec E A `{!EqDecision E, !EqDecision A} :
  EqDecision (result E A).
Proof. solve_decision. Defined.

(** [Option::ok_or]. *)
Definition ok_or {E A} (o : option A) (e : E) : result E A :=
  match o with Some a => Ok a | None => Err e end.

(** [Result::is_ok], as a boolean for witnesses. *)
Definition is_ok {E A} (r : result E A) : bool :=
  match r with Ok _ => true | _ => false end.

(** ** Machine integers

    A [w]-bit unsigned integer is a [Z] in [0, 2^w).  [usize] is 64 bits wide,
    as on every target the daemon ships for. *)

Definition U8_MAX : Z := 255.
Definition U16_MAX : Z := 65535.
Definition U32_MAX : Z := 4294967295.
Definition U64_MAX : Z := 18446744073709551615.
Definition USIZE_MAX : Z := U64_MAX.

Definition is_u8 (z : Z) : Prop := 0 <= z <= U8_MAX.
Definition is_u16 (z : Z) : Prop := 0 <= z <= U16_MAX.
Definition is_u32 (z : Z) : Prop := 0 <= z <= U32_MAX.
Definition is_u64 (z : Z) : Prop := 0 <= z <= U64_MAX.

(** [u64::checked_add], [u64::checked_mul]: [None] on overflow. *)
Definition checked_add (a b : Z) : option Z :=
  if a + b <=? U64_MAX then Some (a + b) else None.
Definition checked_mul (a b : Z) : option Z :=
  if a * b <=? U64_MAX then Some (a * b) else None.
(** [saturating_sub] on an unsigned type; [saturating_add] on [u64]. *)
Definition saturating_sub (a b : Z) : Z := Z.max 0 (a - b).
Definition saturating_add (a b : Z) : Z := Z.min U64_MAX (a + b).
(** [u32::saturating_add]. *)
Definition saturating_add_u32 (a b : Z) : Z := Z.min U32_MAX (a + b).
(** The plain operators [+] and [-] on an unsigned type of maximum [m]. *)
Definition add_in {E} (m a b : Z) : result E Z :=
  if a + b <=? m then Ok (a + b) else Panic.
Definition sub_in {E} (a b : Z) : result E Z :=
  if b <=? a then Ok (a - b) else Panic.
(** [usize::div_ceil]. *)
Definition div_ceil (a b : Z) : Z := (a + b - 1) / b.

(** ** Byte strings *)

Abbreviation bytes := (list Z).
Definition zlen {A} (l : list A) : Z := Z.of_nat (length l).
Definition all_u8 (l : bytes) : Prop := Forall is_u8 l.

(** [to_be_bytes] of an [n]-byte integer and its inverse [from_be_bytes]. *)
Fixpoint to_be (n : nat) (z : Z) : bytes :=
  match n with
  | O => []
  | S n => (z / 256 ^ Z.of_nat n) mod 256 :: to_be n z
  end.
Fixpoint from_be (l : bytes) : Z :=
  match l with
  | [] => 0
  | b :: l => b * 256 ^ Z.of_nat (length l) + from_be l
  end.

(** [l[i]]: panics out of range. *)
Definition index {E A} (l : list A) (i : Z) : result E A :=
  if decide (0 <= i) then
    match l !! Z.to_nat i with Some x => Ok x | None => Panic end
  else Panic.
(** [l[a..b]]: panics when [a > b] or [b > l.len()]. *)
Definition slice {E A} (l : list A) (a b : Z) : result E (list A) :=
  if decide (0 <= a /\ a <= b /\ b <= zlen l)
  then Ok (take (Z.to_nat (b - a)) (drop (Z.to_nat a) l))
  else Panic.
(** [l[a..]]. *)
Definition slice_from {E A} (l : list A) (a : Z) : result E (list A) :=
  slice l a (zlen l).

(** ** Lemmas on byte strings *)

Create Rewrite HintDb bytes.

Lemma zlen_app {A} (l k : list A) : zlen (l ++ k) = zlen l + zlen k.
Proof. unfold zlen. rewrite length_app. lia. Qed.
Lemma zlen_cons {A} (x : A) l : zlen (x :: l) = 1 + zlen l.
Proof. unfold zlen. cbn [length]. lia. Qed.
Lemma zlen_nil {A} : zlen (@nil A) = 0.
Proof. reflexivity. Qed.
Lemma zlen_nonneg {A} (l : list A) : 0 <= zlen l.
Proof. unfold zlen. lia. Qed.
Lemma length_to_be n z : length (to_be n z) = n.
Proof. induction n; cbn; congruence. Qed.
Lemma zlen_to_be n z : zlen (to_be n z) = Z.of_nat n.
Proof. unfold zlen. by rewrite length_to_be. Qed.
#[export] Hint Rewrite @zlen_app @zlen_cons @zlen_nil zlen_to_be : bytes.

Lemma to_be_u8 n z : all_u8 (to_be n z).
Proof.
  induction n; constructor; [|done].
  unfold is_u8, U8_MAX. pose proof (Z.mod_pos_bound (z / 256 ^ Z.of_nat n) 256). lia.
Qed.

Lemma from_be_bound l :
  all_u8 l -> 0 <= from_be l < 256 ^ Z.of_nat (length l).
Proof.
  induction 1 as [|b l Hb Hl IH]; cbn [from_be length]; [lia|].
  unfold is_u8, U8_MAX in Hb.
  rewrite Nat2Z.inj_succ, Z.pow_succ_r by lia. nia.
Qed.

Lemma from_be_to_be n z : from_be (to_be n z) = z mod 256 ^ Z.of_nat n.
Proof.
  induction n as [|n IH]; cbn [from_be to_be].
  - by rewrite Z.mod_1_r.
  - rewrite length_to_be, IH, Nat2Z.inj_succ, Z.pow_succ_r by lia.
    rewrite (Z.mul_comm 256), Z.rem_mul_r by lia. lia.
Qed.

Lemma from_be_to_be_small n z :
  0 <= z < 256 ^ Z.of_nat n -> from_be (to_be n z) = z.
Proof. intros. rewrite from_be_to_be. by apply Z.mod_small. Qed.

Lemma to_be_from_be_add n h l :
  all_u8 l -> length l = n -> to_be n (h * 256 ^ Z.of_nat n + from_be l) = l.
Proof.
  revert h l. induction n as [|n IH]; intros h [|b l] Hl Hn; try done.
  cbn [to_be from_be]. apply Forall_cons in Hl as [Hb Hl]. injection Hn as Hn.
  pose proof (from_be_bound l Hl) as Hr. rewrite Hn in Hr |- *.
  unfold is_u8, U8_MAX in Hb.
  rewrite Nat2Z.inj_succ, Z.pow_succ_r by lia. f_equal.
  - replace (h * (256 * 256 ^ Z.of_nat n) + (b * 256 ^ Z.of_nat n + from_be l))
      with ((h * 256 + b) * 256 ^ Z.of_nat n + from_be l) by ring.
    rewrite Z.div_add_l by lia. rewrite (Z.div_small (from_be l)) by lia.
    rewrite Z.add_0_r, Z.add_comm, Z_mod_plus_full. apply Z.mod_small. lia.
  - rewrite <- (IH (h * 256 + b) l) at 2 by done. f_equal. ring.
Qed.

Lemma to_be_from_be l : all_u8 l -> to_be (length l) (from_be l) = l.
Proof.
  intros Hl. etrans; [|by apply (to_be_from_be_add (length l) 0 l)].
  f_equal.
Qed.

Lemma to_be_from_be_n n l :
  all_u8 l -> length l = n -> to_be n (from_be l) = l.
Proof. intros ? <-. by apply to_be_from_be. Qed.

(** ** Slices of concatenations: how a codec's fixed offsets meet its fields. *)

Section slices.
Context {E A : Type}.
Implicit Types (l k : list A).

Lemma slice_ok l a b :
  0 <= a -> a <= b -> b <= zlen l ->
  slice (E:=E) l a b = Ok (take (Z.to_nat (b - a)) (drop (Z.to_nat a) l)).
Proof. intros. unfold slice. by rewrite decide_True. Qed.

Lemma slice_skip l k a b :
  zlen l <= a -> slice (E:=E) (l ++ k) a b = slice k (a - zlen l) (b - zlen l).
Proof.
  intros Ha. unfold slice. rewrite zlen_app.
  pose proof (zlen_nonneg l). pose proof (zlen_nonneg k).
  repeat case_decide; try lia; [|done]. do 2 f_equal; [lia|].
  rewrite drop_app_ge by (unfold zlen in *; lia).
  f_equal. unfold zlen in *. lia.
Qed.

Lemma slice_head l k a b :
  a = 0 -> b = zlen l -> slice (E:=E) (l ++ k) a b = Ok l.
Proof.
  intros -> ->. unfold slice. rewrite zlen_app.
  pose proof (zlen_nonneg l). pose proof (zlen_nonneg k).
  rewrite decide_True by lia. f_equal.
  rewrite Z.sub_0_r. change (Z.to_nat 0) with O. unfold zlen.
  rewrite drop_0, Nat2Z.id. by rewrite take_app_length.
Qed.

Lemma slice_all l a b : a = 0 -> b = zlen l -> slice (E:=E) l a b = Ok l.
Proof. intros Ha Hb. rewrite <- (app_nil_r l) at 1. by apply slice_head. Qed.

Lemma slice_cons x l a b :
  1 <= a -> slice (E:=E) (x :: l) a b = slice l (a - 1) (b - 1).
Proof. intros Ha. apply (slice_skip [x] l a b). by rewrite zlen_cons, zlen_nil. Qed.

Lemma slice_not_err l a b e : slice (E:=E) l a b <> Err e.
Proof. unfold slice. by case_decide. Qed.

Lemma slice_inv l a b r :
  slice (E:=E) l a b = Ok r ->
  zlen r = b - a /\ 0 <= a <= b /\ b <= zlen l /\
  l = take (Z.to_nat a) l ++ r ++ drop (Z.to_nat b) l.
Proof.
  unfold slice. case_decide as Hd; [|done]. intros [= <-].
  unfold zlen in *. rewrite length_take, length_drop.
  split; [lia|]. split; [lia|]. split; [lia|].
  rewrite <- (take_drop (Z.to_nat a) l) at 1. f_equal.
  rewrite <- (take_drop (Z.to_nat (b - a)) (drop (Z.to_nat a) l)) at 1. f_equal.
  rewrite drop_drop. f_equal. lia.
Qed.

Lemma index_ok l i : 0 <= i < zlen l -> exists x, index (E:=E) l i = Ok x /\ x ∈ l.
Proof.
  intros Hi. unfold index. rewrite decide_True by lia.
  destruct (lookup_lt_is_Some_2 l (Z.to_nat i)) as [x Hx].
  { unfold zlen in Hi. lia. }
  exists x. rewrite Hx. split; [done|]. by eapply list_elem_of_lookup_2.
Qed.

Lemma index_skip l k i :
  zlen l <= i -> index (E:=E) (l ++ k) i = index k (i - zlen l).
Proof.
  intros Hi. unfold index. pose proof (zlen_nonneg l).
  repeat case_decide; try lia.
  rewrite lookup_app_r by (unfold zlen in *; lia).
  replace (Z.to_nat i - length l)%nat with (Z.to_nat (i - zlen l)); [done|].
  unfold zlen in *. lia.
Qed.

Lemma index_head x k i : i = 0 -> index (E:=E) (x :: k) i = Ok x.
Proof. by intros ->. Qed.

Lemma index_cons x k i : 1 <= i -> index (E:=E) (x :: k) i = index k (i - 1).
Proof. intros Hi. apply (index_skip [x] k i). by rewrite zlen_cons, zlen_nil. Qed.

Lemma index_slice l i :
  index (E:=E) l i =
  match slice (E:=E) l i (i + 1) with Ok [x] => Ok x | _ => Panic end.
Proof.
  unfold index, slice. destruct (decide (0 <= i)); [|by rewrite decide_False by lia].
  destruct (l !! Z.to_nat i) as [x|] eqn:Hx.
  - apply lookup_lt_Some in Hx as Hlt.
    rewrite decide_True by (unfold zlen; lia).
    replace (Z.to_nat (i + 1 - i)) with 1%nat by lia.
    by rewrite (drop_S _ _ _ Hx).
  - apply lookup_ge_None in Hx. by rewrite decide_False by (unfold zlen; lia).
Qed.

Lemma slice_split l a b c x y :
  slice (E:=E) l a b = Ok x -> slice (E:=E) l b c = Ok y ->
  slice (E:=E) l a c = Ok (x ++ y).
Proof.
  unfold slice. case_decide; [|done]. case_decide; [|done].
  intros [= <-] [= <-]. rewrite decide_True by lia. f_equal.
  replace (Z.to_nat (c - a)) with (Z.to_nat (b - a) + Z.to_nat (c - b))%nat by lia.
  rewrite <- take_take_drop. do 2 f_equal. rewrite drop_drop. f_equal. lia.
Qed.
End slices.

(** [u16::from_be_bytes([b[o], b[o + 1]])] and the [u32] form, index by index as
    the decoders write them. *)
Definition read_u16_be {E} (b : bytes) (o : Z) : result E Z :=
  b0 ← index b o; b1 ← index b (o + 1); Ok (from_be [b0; b1]).
Definition read_u32_be {E} (b : bytes) (o : Z) : result E Z :=
  b0 ← index b o; b1 ← index b (o + 1); b2 ← index b (o + 2); b3 ← index b (o + 3);
  Ok (from_be [b0; b1; b2; b3]).

Lemma slice_one_inv {E A} (l : list A) i s :
  slice (E:=E) l i (i + 1) = Ok s -> exists x, s = [x].
Proof.
  intros H. apply slice_inv in H as [Hl _]. unfold zlen in Hl.
  destruct s as [|x [|]]; cbn in Hl; try lia. by exists x.
Qed.

Lemma index_inv {E A} (l : list A) i x :
  index (E:=E) l i = Ok x -> slice (E:=E) l i (i + 1) = Ok [x].
Proof.
  rewrite index_slice. destruct (slice l i (i + 1)) as [s| |] eqn:Hs; try done.
  destruct (slice_one_inv _ _ _ Hs) as [y ->]. by intros [= ->].
Qed.

Lemma read_u16_slice {E} b o s :
  slice (E:=E) b o (o + 2) = Ok s -> read_u16_be (E:=E) b o = Ok (from_be s).
Proof.
  intros Hs. apply slice_inv in Hs as Hi. destruct Hi as (Hl & Ho & Hb & _).
  destruct (index_ok (E:=E) b o) as (x0 & H0 & _); [lia|].
  destruct (index_ok (E:=E) b (o + 1)) as (x1 & H1 & _); [lia|].
  unfold read_u16_be. rewrite H0; cbn [mbind result_bind]. rewrite H1; cbn [mbind result_bind]. do 2 f_equal.
  apply index_inv in H0, H1.
  replace (o + 1 + 1) with (o + 2) in H1 by lia.
  rewrite (slice_split _ _ _ _ _ _ H0 H1) in Hs. by injection Hs.
Qed.

Lemma read_u32_slice {E} b o s :
  slice (E:=E) b o (o + 4) = Ok s -> read_u32_be (E:=E) b o = Ok (from_be s).
Proof.
  intros Hs. apply slice_inv in Hs as Hi. destruct Hi as (Hl & Ho & Hb & _).
  destruct (index_ok (E:=E) b o) as (x0 & H0 & _); [lia|].
  destruct (index_ok (E:=E) b (o + 1)) as (x1 & H1 & _); [lia|].
  destruct (index_ok (E:=E) b (o + 2)) as (x2 & H2 & _); [lia|].
  destruct (index_ok (E:=E) b (o + 3)) as (x3 & H3 & _); [lia|].
  unfold read_u32_be. rewrite H0; cbn [mbind result_bind]. rewrite H1; cbn [mbind result_bind]. rewrite H2; cbn [mbind result_bind]. rewrite H3; cbn [mbind result_bind].
  do 2 f_equal. apply index_inv in H0, H1, H2, H3.
  replace (o + 1 + 1) with (o + 2) in H1 by lia.
  replace (o + 2 + 1) with (o + 3) in H2 by lia.
  replace (o + 3 + 1) with (o + 4) in H3 by lia.
  pose proof (slice_split _ _ _ _ _ _ H0 H1) as H01.
  pose proof (slice_split _ _ _ _ _ _ H01 H2) as H02.
  rewrite (slice_split _ _ _ _ _ _ H02 H3) in Hs. by injection Hs.
Qed.

(** Step over the fields before an offset and read the field that starts there. *)
Ltac zlen_solve := autorewrite with bytes; lia.
Ltac read_field :=
  repeat first
    [ rewrite slice_cons by zlen_solve
    | rewrite slice_skip by zlen_solve ];
  first [ rewrite slice_head by zlen_solve | rewrite slice_all by zlen_solve ].
Ltac read_byte :=
  repeat first [ rewrite index_cons by lia | rewrite index_skip by zlen_solve ];
  rewrite index_head by zlen_solve.

(** ** Inversion of monadic code *)

Lemma bind_Ok {E A B} (m : result E A) (f : A -> result E B) b :
  m ≫= f = Ok b <-> exists a, m = Ok a /\ f a = Ok b.
Proof. destruct m; cbn; split; [eauto|intros (?&[= ->]&?)| |intros (?&?&_)| |intros (?&?&_)]; done. Qed.

(** Injectivity without simplifying the values. *)
Lemma Ok_inj {E A} (a b : A) : Ok (E:=E) a = Ok b -> b = a.
Proof. congruence. Qed.

Lemma bind_Ok_l {E A B} (a : A) (f : A -> result E B) : Ok a ≫= f = f a.
Proof. reflexivity. Qed.

Lemma bind_Panic {E A B} (m : result E A) (f : A -> result E B) :
  m ≫= f = Panic <-> m = Panic \/ exists a, m = Ok a /\ f a = Panic.
Proof.
  destruct m; cbn; split; eauto; try done; intros [?|(?&[= ->]&?)]; done.
Qed.

Lemma existsb_elem {A} (f : A -> bool) l : existsb f l = true <-> exists x, x ∈ l /\ f x = true.
Proof. rewrite existsb_exists. by setoid_rewrite <- list_elem_of_In. Qed.
Lemma find_none_elem {A} (f : A -> bool) l : List.find f l = None <-> forall x, x ∈ l -> f x = false.
Proof.
  split.
  - intros H x Hx. by apply (List.find_none f l H), list_elem_of_In.
  - intros H. destruct (List.find f l) as [x|] eqn:E; [|done].
    apply List.find_some in E as [Hx E]. apply list_elem_of_In, H in Hx. congruence.
Qed.

Lemma ok_or_Ok {E A} (o : option A) (e : E) a : ok_or o e = Ok a <-> o = Some a.
Proof. destruct o; cbn; split; congruence. Qed.

Lemma sub_in_Ok {E} a b z : sub_in (E:=E) a b = Ok z <-> b <= a /\ z = a - b.
Proof. unfold sub_in. destruct (Z.leb_spec b a); split; intros; simplify_eq; try lia; f_equal; lia. Qed.

Lemma sub_in_le {E} a b : b <= a -> sub_in (E:=E) a b = Ok (a - b).
Proof. intros. by apply sub_in_Ok. Qed.

Lemma add_in_Ok {E} m a b z : add_in (E:=E) m a b = Ok z <-> a + b <= m /\ z = a + b.
Proof.
  unfold add_in. destruct (Z.leb_spec (a + b) m); split; intros; simplify_eq; try lia; f_equal; lia.
Qed.

Lemma slice_u8 {E} (l : bytes) a b r :
  all_u8 l -> slice (E:=E) l a b = Ok r -> all_u8 r.
Proof.
  intros Hl. unfold slice. case_decide; [|done]. intros [= <-].
  by apply Forall_take, Forall_drop.
Qed.

Lemma index_u8 {E} (l : bytes) i x : all_u8 l -> index (E:=E) l i = Ok x -> is_u8 x.
Proof.
  intros Hl Hi. apply index_inv in Hi. apply (slice_u8 _ _ _ _ Hl) in Hi.
  by apply Forall_inv in Hi.
Qed.

Lemma read_u16_inv {E} b o z :
  read_u16_be (E:=E) b o = Ok z ->
  exists s, slice (E:=E) b o (o + 2) = Ok s /\ z = from_be s.
Proof.
  unfold read_u16_be. rewrite bind_Ok. intros (x0 & H0 & Hz).
  apply bind_Ok in Hz as (x1 & H1 & Hz).
  apply index_inv in H0, H1. replace (o + 1 + 1) with (o + 2) in H1 by lia.
  exists [x0; x1]. split; [by apply (slice_split _ _ _ _ _ _ H0 H1)|].
  by injection Hz.
Qed.

Lemma read_u32_inv {E} b o z :
  read_u32_be (E:=E) b o = Ok z ->
  exists s, slice (E:=E) b o (o + 4) = Ok s /\ z = from_be s.
Proof.
  unfold read_u32_be. rewrite bind_Ok. intros (x0 & H0 & Hz).
  apply bind_Ok in Hz as (x1 & H1 & Hz).
  apply bind_Ok in Hz as (x2 & H2 & Hz).
  apply bind_Ok in Hz as (x3 & H3 & Hz).
  apply index_inv in H0, H1, H2, H3.
  replace (o + 1 + 1) with (o + 2) in H1 by lia.
  replace (o + 2 + 1) with (o + 3) in H2 by lia.
  replace (o + 3 + 1) with (o + 4) in H3 by lia.
  pose proof (slice_split _ _ _ _ _ _ H0 H1) as H01.
  pose proof (slice_split _ _ _ _ _ _ H01 H2) as H02.
  exists [x0; x1; x2; x3]. split; [by apply (slice_split _ _ _ _ _ _ H02 H3)|].
  by injection Hz.
Qed.

(** Peel one layer of a successful run: a guard that must have been false, a
    bind whose first half succeeded, or a returned value. *)
Ltac ok_inv1 H :=
  lazymatch type of H with
  | (if decide ?P then Err _ else _) = Ok _ =>
      let E := fresh "G" in destruct (decide P) as [E|E]; [discriminate H|]
  | (if decide ?P then _ else Err _) = Ok _ =>
      let E := fresh "G" in destruct (decide P) as [E|E]; [|discriminate H]
  | (if ?c then Err _ else _) = Ok _ =>
      let E := fresh "G" in destruct c eqn:E; [discriminate H|]
  | (if ?c then _ else Err _) = Ok _ =>
      let E := fresh "G" in destruct c eqn:E; [|discriminate H]
  | _ ≫= _ = Ok _ =>
      let x := fresh "x" in let E := fresh "B" in
      apply bind_Ok in H as (x & E & H)
  | ok_or _ _ = Ok _ => apply ok_or_Ok in H
  | Ok _ = Ok _ => injection H as H
  end.
Ltac ok_inv H := repeat ok_inv1 H.

(** The same for the [Panic] outcome, leaving one goal per place a panic could
    arise. *)
Ltac no_panic1 :=
  match goal with
  | |- (if ?c then _ else _) <> Panic => let E := fresh "G" in destruct c eqn:E; try discriminate
  | |- ?m ≫= ?f <> Panic =>
      let x := fresh "x" in let E := fresh "B" in
      destruct m as [x| |] eqn:E;
      [change (f x <> Panic); cbv beta
      | discriminate
      | exfalso; revert E; change (m <> Panic)]
  | |- ok_or ?o _ <> Panic => destruct o; discriminate
  | |- Ok _ <> Panic => discriminate
  | |- Err _ <> Panic => discriminate
  end.

Lemma slice_no_panic {E A} (l : list A) a b :
  0 <= a -> a <= b -> b <= zlen l -> slice (E:=E) l a b <> Panic.
Proof. intros. by rewrite slice_ok. Qed.
Lemma index_no_panic {E A} (l : list A) i :
  0 <= i < zlen l -> index (E:=E) l i <> Panic.
Proof. intros Hi. by destruct (index_ok (E:=E) l i Hi) as (x & -> & _). Qed.
Lemma read_u16_no_panic {E} b o :
  0 <= o -> o + 2 <= zlen b -> read_u16_be (E:=E) b o <> Panic.
Proof.
  intros. destruct (slice (E:=E) b o (o + 2)) as [s|e|] eqn:Hs.
  - by rewrite (read_u16_slice _ _ _ Hs).
  - by apply slice_not_err in Hs.
  - by apply slice_no_panic in Hs; lia.
Qed.
Lemma read_u32_no_panic {E} b o :
  0 <= o -> o + 4 <= zlen b -> read_u32_be (E:=E) b o <> Panic.
Proof.
  intros. destruct (slice (E:=E) b o (o + 4)) as [s|e|] eqn:Hs.
  - by rewrite (read_u32_slice _ _ _ Hs).
  - by apply slice_not_err in Hs.
  - by apply slice_no_panic in Hs; lia.
Qed.

(** ** Finite sets of integers in an interval *)

Lemma gset_interval_size (X : gset Z) a n :
  (forall x, x ∈ X -> a <= x < a + n) -> Z.of_nat (size X) <= Z.max 0 n.
Proof.
  intros Hx. unfold size, set_size; cbn.
  rewrite <- (length_fmap (fun z => Z.to_nat (z - a)) (elements X)).
  assert (length ((fun z => Z.to_nat (z - a)) <$> elements X)
          <= length (seq 0 (Z.to_nat n)))%nat as Hle.
  { apply submseteq_length, NoDup_submseteq.
    - apply NoDup_fmap_2_strong; [|apply NoDup_elements].
      intros x y Hx1 Hy1. apply elem_of_elements, Hx in Hx1.
      apply elem_of_elements, Hx in Hy1. lia.
    - intros k Hk. apply list_elem_of_fmap in Hk as (z & -> & Hz).
      apply elem_of_elements, Hx in Hz. apply elem_of_seq. lia. }
  rewrite length_seq in Hle. lia.
Qed.

(** ** Sums over finite maps *)

Section map_sum.
Context {K : Type} `{Countable K} {A : Type}.
Implicit Types (f : K -> A -> Z) (m : gmap K A).

Definition map_sum f m : Z := map_fold (fun k x acc => f k x + acc) 0 m.

Lemma map_sum_empty f : map_sum f ∅ = 0.
Proof. unfold map_sum. by rewrite map_fold_empty. Qed.

Lemma map_sum_insert f m k x :
  m !! k = None -> map_sum f (<[k := x]> m) = f k x + map_sum f m.
Proof.
  intros Hk. unfold map_sum. rewrite map_fold_insert_L; [done| |done].
  intros. lia.
Qed.

Lemma map_sum_delete f m k x :
  m !! k = Some x -> map_sum f m = f k x + map_sum f (delete k m).
Proof.
  intros Hk. rewrite <- (insert_delete_id m k x Hk) at 1.
  apply map_sum_insert. apply lookup_delete_eq.
Qed.

Lemma map_sum_update f m k x y :
  m !! k = Some y -> map_sum f (<[k := x]> m) = map_sum f m - f k y + f k x.
Proof.
  intros Hk. rewrite <- insert_delete_eq, map_sum_insert by apply lookup_delete_eq.
  rewrite (map_sum_delete f m k y Hk). lia.
Qed.

Lemma map_sum_nonneg f m :
  (forall k x, m !! k = Some x -> 0 <= f k x) -> 0 <= map_sum f m.
Proof.
  induction m as [|k x m Hk IH] using map_ind; intros Hf; [by rewrite map_sum_empty|].
  rewrite map_sum_insert by done.
  assert (0 <= f k x) by (apply Hf, lookup_insert_eq).
  assert (0 <= map_sum f m); [|lia]. apply IH. intros k' x' Hk'.
  apply Hf. rewrite lookup_insert_ne; [done|]. intros ->. congruence.
Qed.

Lemma map_sum_filter f g (P : K * A -> Prop) `{!forall kx, Decision (P kx)} m :
  (forall k x, P (k, x) -> g k x = 0) -> (forall k x, ~ P (k, x) -> g k x = f k x) ->
  map_sum f m = map_sum f (filter P m) + map_sum g m.
Proof.
  intros HP HnP.
  induction m as [|k x m Hk IH] using map_ind; [by rewrite map_filter_empty, !map_sum_empty|].
  rewrite !map_sum_insert by done. destruct (decide (P (k, x))) as [Hx|Hx].
  - rewrite map_filter_insert_True by done. rewrite (HP _ _ Hx).
    rewrite map_sum_insert; [lia|]. by apply map_lookup_filter_None_2; left.
  - rewrite map_filter_insert_False by done. rewrite delete_id by done.
    rewrite (HnP _ _ Hx). lia.
Qed.

Lemma map_sum_lookup_le f m k x :
  (forall k x, m !! k = Some x -> 0 <= f k x) -> m !! k = Some x -> f k x <= map_sum f m.
Proof.
  intros Hf Hk. rewrite (map_sum_delete f m k x Hk).
  assert (0 <= map_sum f (delete k m)); [|lia].
  apply map_sum_nonneg. intros k' x' Hk'. apply lookup_delete_Some in Hk' as [_ Hk'].
  by apply Hf.
Qed.

Lemma map_sum_ext f g m :
  (forall k x, m !! k = Some x -> f k x = g k x) -> map_sum f m = map_sum g m.
Proof.
  induction m as [|k x m Hk IH] using map_ind; intros Hfg; [done|].
  rewrite !map_sum_insert by done. rewrite (Hfg k x) by apply lookup_insert_eq.
  f_equal. apply IH. intros k' x' Hk'. apply Hfg.
  rewrite lookup_insert_ne; [done|]. intros ->. congruence.
Qed.
End map_sum.
