(* ===== verification/Lane.v ===== *)
(** Lane identity, redaction-safe failure reasons and size buckets
    ([remote_transport/lane.rs]), the fixed three-channel contract
    ([channel.rs]) and the payload-free observability record
    ([observability.rs]).

    Every later component reports failures through [RemoteTransportError]: a
    closed reason, an optional lane and an optional size bucket. *)

From S2P Require Import Prelude.
From stdpp Require Import options.
Set Warnings "-clear-no-such-hyp".

(** lane.rs:12-12 REMOTE_LANE_COUNT. *)
Definition REMOTE_LANE_COUNT : Z := 3.
(** lane.rs:15-15 CONTROL_MAX_PAYLOAD_BYTES. *)
Definition CONTROL_MAX_PAYLOAD_BYTES : Z := 64 * 1024.
(** lane.rs:17-17 INTERACTIVE_MAX_PAYLOAD_BYTES. *)
Definition INTERACTIVE_MAX_PAYLOAD_BYTES : Z := 512 * 1024.
(** lane.rs:19-19 BULK_MAX_PAYLOAD_BYTES. *)
Definition BULK_MAX_PAYLOAD_BYTES : Z := 512 * 1024.
(** lane.rs:21-21 MAX_LOGICAL_PAYLOAD_BYTES. *)
Definition MAX_LOGICAL_PAYLOAD_BYTES : Z := 512 * 1024.

(** lane.rs:29-34 RemoteLane. *)
Inductive RemoteLane := Control | Interactive | Bulk.

#[export] Instance RemoteLane_eq_dec : EqDecision RemoteLane.
Proof. solve_decision. Defined.
#[export] Instance RemoteLane_countable : Countable RemoteLane.
Proof.
  refine (inj_countable'
    (fun l => match l with Control => 0%Z | Interactive => 1%Z | Bulk => 2%Z end)
    (fun z => if decide (z = 0) then Control
              else if decide (z = 1) then Interactive else Bulk) _).
  by intros [].
Defined.

(** lane.rs:38-42 RemoteLane::ALL. *)
Definition RemoteLane_ALL : list RemoteLane := [Control; Interactive; Bulk].

(** lane.rs:44-46 RemoteLane::lane_id. *)
Definition lane_id (l : RemoteLane) : Z :=
  match l with Control => 0 | Interactive => 1 | Bulk => 2 end.

(** lane.rs:49-56 RemoteLane::from_lane_id. Unknown lane bytes fail. *)
Definition from_lane_id (value : Z) : option RemoteLane :=
  match value with
  | 0 => Some Control
  | 1 => Some Interactive
  | 2 => Some Bulk
  | _ => None
  end.

(** lane.rs:59-65 RemoteLane::as_str. *)
Definition lane_as_str (l : RemoteLane) : string :=
  match l with
  | Control => "control"
  | Interactive => "interactive"
  | Bulk => "bulk"
  end.

(** lane.rs:67-74 RemoteLane::from_str_exact. *)
Definition lane_from_str_exact (value : string) : option RemoteLane :=
  if String.eqb value "control" then Some Control
  else if String.eqb value "interactive" then Some Interactive
  else if String.eqb value "bulk" then Some Bulk
  else None.

(** lane.rs:77-83 RemoteLane::max_payload_bytes. *)
Definition max_payload_bytes (l : RemoteLane) : Z :=
  match l with
  | Control => CONTROL_MAX_PAYLOAD_BYTES
  | Interactive => INTERACTIVE_MAX_PAYLOAD_BYTES
  | Bulk => BULK_MAX_PAYLOAD_BYTES
  end.

(** lane.rs:111-174 RemoteTransportReason. *)
Inductive RemoteTransportReason :=
| UnsupportedVersion | UnknownLane | UnknownFlagBit | HeaderTooShort
| TrailingBytes | PayloadLengthMismatch | PayloadCapExceeded | DigestMismatch
| ZeroStreamId | StreamParityViolation | ControlStreamViolation | SequenceGap
| SequenceRegression | SequenceWrap | StreamClosed | StreamLimitExceeded
| ZeroFragmentCount | FragmentCountExceeded | FragmentIndexOutOfRange
| FragmentPayloadCapExceeded | FragmentLengthMismatch | FragmentEndFlagMisplaced
| FragmentConflict | ReassemblyFrameLimit | ReassemblyByteLimit
| ReassemblyTimeout
| BulkUnknownKind | BulkOptionBits | BulkLengthMismatch | BulkOffsetGap
| BulkWindowOvershoot | BulkTransferLimit | BulkClassLimit | BulkDigestMismatch
| BulkUnknownTransfer | BulkTransferConflict | BulkLateChunk
| BulkAlreadyComplete | BulkUnknownMimeClass | BulkUnknownAbortReason
| BulkChunkIndexGap
| QueueFrameLimit | QueueByteLimit | QueueAggregateLimit | ControlQueueOverflow
| IntegerOutOfRange
| UnclassifiedMessage | LaneNotPermittedForClass | ClientSelectedLaneRejected.

#[export] Instance RemoteTransportReason_eq_dec : EqDecision RemoteTransportReason.
Proof. solve_decision. Defined.

(** lane.rs:178-231 RemoteTransportReason::as_str. *)
Definition reason_as_str (r : RemoteTransportReason) : string :=
  match r with
  | UnsupportedVersion => "unsupported_version"
  | UnknownLane => "unknown_lane"
  | UnknownFlagBit => "unknown_flag_bit"
  | HeaderTooShort => "header_too_short"
  | TrailingBytes => "trailing_bytes"
  | PayloadLengthMismatch => "payload_length_mismatch"
  | PayloadCapExceeded => "payload_cap_exceeded"
  | DigestMismatch => "digest_mismatch"
  | ZeroStreamId => "zero_stream_id"
  | StreamParityViolation => "stream_parity_violation"
  | ControlStreamViolation => "control_stream_violation"
  | SequenceGap => "sequence_gap"
  | SequenceRegression => "sequence_regression"
  | SequenceWrap => "sequence_wrap"
  | StreamClosed => "stream_closed"
  | StreamLimitExceeded => "stream_limit_exceeded"
  | ZeroFragmentCount => "zero_fragment_count"
  | FragmentCountExceeded => "fragment_count_exceeded"
  | FragmentIndexOutOfRange => "fragment_index_out_of_range"
  | FragmentPayloadCapExceeded => "fragment_payload_cap_exceeded"
  | FragmentLengthMismatch => "fragment_length_mismatch"
  | FragmentEndFlagMisplaced => "fragment_end_flag_misplaced"
  | FragmentConflict => "fragment_conflict"
  | ReassemblyFrameLimit => "reassembly_frame_limit"
  | ReassemblyByteLimit => "reassembly_byte_limit"
  | ReassemblyTimeout => "reassembly_timeout"
  | BulkUnknownKind => "bulk_unknown_kind"
  | BulkOptionBits => "bulk_option_bits"
  | BulkLengthMismatch => "bulk_length_mismatch"
  | BulkOffsetGap => "bulk_offset_gap"
  | BulkWindowOvershoot => "bulk_window_overshoot"
  | BulkTransferLimit => "bulk_transfer_limit"
  | BulkClassLimit => "bulk_class_limit"
  | BulkDigestMismatch => "bulk_digest_mismatch"
  | BulkUnknownTransfer => "bulk_unknown_transfer"
  | BulkTransferConflict => "bulk_transfer_conflict"
  | BulkLateChunk => "bulk_late_chunk"
  | BulkAlreadyComplete => "bulk_already_complete"
  | BulkUnknownMimeClass => "bulk_unknown_mime_class"
  | BulkUnknownAbortReason => "bulk_unknown_abort_reason"
  | BulkChunkIndexGap => "bulk_chunk_index_gap"
  | QueueFrameLimit => "queue_frame_limit"
  | QueueByteLimit => "queue_byte_limit"
  | QueueAggregateLimit => "queue_aggregate_limit"
  | ControlQueueOverflow => "control_queue_overflow"
  | IntegerOutOfRange => "integer_out_of_range"
  | UnclassifiedMessage => "unclassified_message"
  | LaneNotPermittedForClass => "lane_not_permitted_for_class"
  | ClientSelectedLaneRejected => "client_selected_lane_rejected"
  end.

(** lane.rs:247-256 RemoteSizeBucket. *)
Inductive RemoteSizeBucket :=
| Le1K | Le4K | Le16K | Le64K | Le256K | Le512K | Gt512K.

#[export] Instance RemoteSizeBucket_eq_dec : EqDecision RemoteSizeBucket.
Proof. solve_decision. Defined.

(** lane.rs:259-275 RemoteSizeBucket::of. *)
Definition size_bucket_of (n : Z) : RemoteSizeBucket :=
  if n <=? 1024 then Le1K
  else if n <=? 4 * 1024 then Le4K
  else if n <=? 16 * 1024 then Le16K
  else if n <=? 64 * 1024 then Le64K
  else if n <=? 256 * 1024 then Le256K
  else if n <=? 512 * 1024 then Le512K
  else Gt512K.

(** lane.rs:277-287 RemoteSizeBucket::as_str. *)
Definition size_bucket_as_str (b : RemoteSizeBucket) : string :=
  match b with
  | Le1K => "le_1k"
  | Le4K => "le_4k"
  | Le16K => "le_16k"
  | Le64K => "le_64k"
  | Le256K => "le_256k"
  | Le512K => "le_512k"
  | Gt512K => "gt_512k"
  end.

(** lane.rs:304-309 RemoteTransportError. *)
Record RemoteTransportError := mkTransportError {
  err_reason : RemoteTransportReason;
  err_lane : option RemoteLane;
  err_size_bucket : option RemoteSizeBucket;
}.

#[export] Instance RemoteTransportError_eq_dec : EqDecision RemoteTransportError.
Proof. solve_decision. Defined.

(** lane.rs:312-318 RemoteTransportError::new. *)
Definition err_new (reason : RemoteTransportReason) : RemoteTransportError :=
  mkTransportError reason None None.
(** lane.rs:320-326 RemoteTransportError::with_lane. *)
Definition err_with_lane (reason : RemoteTransportReason) (lane : RemoteLane)
    : RemoteTransportError :=
  mkTransportError reason (Some lane) None.
(** lane.rs:328-334 RemoteTransportError::with_size. *)
Definition err_with_size (reason : RemoteTransportReason) (lane : RemoteLane)
    (n : Z) : RemoteTransportError :=
  mkTransportError reason (Some lane) (Some (size_bucket_of n)).

(** lane.rs:339-348 RemoteTransportError::fmt. *)
Definition err_display (e : RemoteTransportError) : string :=
  (reason_as_str (err_reason e)
   +:+ match err_lane e with
       | Some lane => " lane=" +:+ lane_as_str lane
       | None => ""
       end
   +:+ match err_size_bucket e with
       | Some bucket => " size=" +:+ size_bucket_as_str bucket
       | None => ""
       end)%string.

(** [RemoteTransportResult<T>], lane.rs line 353. *)
Abbreviation RemoteTransportResult := (result RemoteTransportError).

(** ** The fixed three-channel contract *)

(** channel.rs:13-30 RemoteLaneChannel. *)
Record RemoteLaneChannel := mkChannel {
  chan_lane : RemoteLane;
  chan_channel_id : Z;
  chan_label : string;
  chan_negotiated : bool;
  chan_ordered : bool;
  chan_reliable : bool;
  chan_compressed : bool;
  chan_max_payload_bytes : Z;
}.

(** channel.rs:33-64 REMOTE_LANE_CHANNELS. *)
Definition REMOTE_LANE_CHANNELS : list RemoteLaneChannel := [
  mkChannel Control 0 "flycockpit.control.v1" true true true false
    CONTROL_MAX_PAYLOAD_BYTES;
  mkChannel Interactive 2 "flycockpit.interactive.v1" true true true false
    INTERACTIVE_MAX_PAYLOAD_BYTES;
  mkChannel Bulk 4 "flycockpit.bulk.v1" true true true false
    BULK_MAX_PAYLOAD_BYTES].

(** channel.rs:67-69 channel_for_lane. *)
Definition channel_for_lane (lane : RemoteLane) : RemoteTransportResult RemoteLaneChannel :=
  index REMOTE_LANE_CHANNELS (lane_id lane).

(** channel.rs:72-78 lane_for_channel_id. *)
Definition lane_for_channel_id (channel_id : Z) : RemoteTransportResult RemoteLane :=
  ok_or (chan_lane <$> List.find (fun c => chan_channel_id c =? channel_id)
                                 REMOTE_LANE_CHANNELS)
        (err_new UnknownLane).

(** channel.rs:82-88 lane_for_channel_label. *)
Definition lane_for_channel_label (label : string) : RemoteTransportResult RemoteLane :=
  ok_or (chan_lane <$> List.find (fun c => String.eqb (chan_label c) label)
                                 REMOTE_LANE_CHANNELS)
        (err_new UnknownLane).

(** ** Payload-free observability records *)

(** observability.rs:12-26 RemoteTransportMetric. *)
Inductive RemoteTransportMetric :=
| FrameSent | FrameReceived | FrameRejected | FragmentSent | FragmentReceived
| ReassemblyExpired | QueueRejected | QueueBackpressure | MetricStreamClosed
| TransferBegun | TransferCompleted | TransferAborted.

(** observability.rs:29-45 RemoteTransportMetric::as_str. *)
Definition metric_as_str (m : RemoteTransportMetric) : string :=
  match m with
  | FrameSent => "frame_sent"
  | FrameReceived => "frame_received"
  | FrameRejected => "frame_rejected"
  | FragmentSent => "fragment_sent"
  | FragmentReceived => "fragment_received"
  | ReassemblyExpired => "reassembly_expired"
  | QueueRejected => "queue_rejected"
  | QueueBackpressure => "queue_backpressure"
  | MetricStreamClosed => "stream_closed"
  | TransferBegun => "transfer_begun"
  | TransferCompleted => "transfer_completed"
  | TransferAborted => "transfer_aborted"
  end.

(** observability.rs:52-58 RemoteTransportRecord. *)
Record RemoteTransportRecord := mkTransportRecord {
  rec_metric : RemoteTransportMetric;
  rec_lane : option RemoteLane;
  rec_reason : option RemoteTransportReason;
  rec_size_bucket : option RemoteSizeBucket;
}.

(** observability.rs:61-68 RemoteTransportRecord::new. *)
Definition record_new (m : RemoteTransportMetric) : RemoteTransportRecord :=
  mkTransportRecord m None None None.
(** observability.rs:70-73 RemoteTransportRecord::lane. *)
Definition record_lane (r : RemoteTransportRecord) (lane : RemoteLane) :=
  mkTransportRecord (rec_metric r) (Some lane) (rec_reason r) (rec_size_bucket r).
(** observability.rs:77-80 RemoteTransportRecord::size. *)
Definition record_size (r : RemoteTransportRecord) (n : Z) :=
  mkTransportRecord (rec_metric r) (rec_lane r) (rec_reason r)
                    (Some (size_bucket_of n)).
(** observability.rs:83-90 RemoteTransportRecord::from_error. *)
Definition record_from_error (m : RemoteTransportMetric) (e : RemoteTransportError) :=
  mkTransportRecord m (err_lane e) (Some (err_reason e)) (err_size_bucket e).
(** observability.rs:93-105 RemoteTransportRecord::render. *)
Definition record_render (r : RemoteTransportRecord) : string :=
  ("transport." +:+ metric_as_str (rec_metric r)
   +:+ match rec_lane r with
       | Some lane => " lane=" +:+ lane_as_str lane | None => "" end
   +:+ match rec_reason r with
       | Some reason => " reason=" +:+ reason_as_str reason | None => "" end
   +:+ match rec_size_bucket r with
       | Some b => " size=" +:+ size_bucket_as_str b | None => "" end)%string.

(** ** Facts the codecs use *)

Lemma from_lane_id_lane_id l : from_lane_id (lane_id l) = Some l.
Proof. by destruct l. Qed.

Lemma from_lane_id_Some z l : from_lane_id z = Some l -> z = lane_id l.
Proof. destruct z as [|[[]|[]|]|]; cbn; intros [= <-]; done. Qed.

Lemma lane_id_u8 l : is_u8 (lane_id l).
Proof. destruct l; unfold is_u8, U8_MAX; cbn; lia. Qed.

Lemma max_payload_bytes_bound l : 0 < max_payload_bytes l <= MAX_LOGICAL_PAYLOAD_BYTES.
Proof. destruct l; vm_compute; split; congruence. Qed.

Lemma elem_of_RemoteLane_ALL l : l ∈ RemoteLane_ALL.
Proof. destruct l; unfold RemoteLane_ALL; set_solver. Qed.

(** All values of a finite record of closed enums, for exhaustive checks. *)
Definition all_reasons : list RemoteTransportReason :=
  [UnsupportedVersion; UnknownLane; UnknownFlagBit; HeaderTooShort;
   TrailingBytes; PayloadLengthMismatch; PayloadCapExceeded; DigestMismatch;
   ZeroStreamId; StreamParityViolation; ControlStreamViolation; SequenceGap;
   SequenceRegression; SequenceWrap; StreamClosed; StreamLimitExceeded;
   ZeroFragmentCount; FragmentCountExceeded; FragmentIndexOutOfRange;
   FragmentPayloadCapExceeded; FragmentLengthMismatch; FragmentEndFlagMisplaced;
   FragmentConflict; ReassemblyFrameLimit; ReassemblyByteLimit; ReassemblyTimeout;
   BulkUnknownKind; BulkOptionBits; BulkLengthMismatch; BulkOffsetGap;
   BulkWindowOvershoot; BulkTransferLimit; BulkClassLimit; BulkDigestMismatch;
   BulkUnknownTransfer; BulkTransferConflict; BulkLateChunk; BulkAlreadyComplete;
   BulkUnknownMimeClass; BulkUnknownAbortReason; BulkChunkIndexGap;
   QueueFrameLimit; QueueByteLimit; QueueAggregateLimit; ControlQueueOverflow;
   IntegerOutOfRange; UnclassifiedMessage; LaneNotPermittedForClass;
   ClientSelectedLaneRejected].
Definition all_lane_options : list (option RemoteLane) :=
  None :: (Some <$> RemoteLane_ALL).
Definition all_bucket_options : list (option RemoteSizeBucket) :=
  [None; Some Le1K; Some Le4K; Some Le16K; Some Le64K; Some Le256K;
   Some Le512K; Some Gt512K].
Definition all_errors : list RemoteTransportError :=
  r ← all_reasons; l ← all_lane_options; b ← all_bucket_options;
  [mkTransportError r l b].

Lemma elem_of_all_errors e : e ∈ all_errors.
Proof.
  destruct e as [r l b]. unfold all_errors.
  apply list_elem_of_bind. exists r. split; [|by destruct r; vm_compute; repeat constructor].
  apply list_elem_of_bind. exists l.
  split; [|by destruct l as [[]|]; vm_compute; repeat constructor].
  apply list_elem_of_bind. exists b.
  split; [|by destruct b as [[]|]; vm_compute; repeat constructor].
  set_solver.
Qed.

(** The first error, in enumeration order, with a given rendering. *)
Definition err_parse (s : string) : option RemoteTransportError :=
  List.find (fun e => String.eqb (err_display e) s) all_errors.

Lemma err_parse_display_all :
  forallb (fun e => bool_decide (err_parse (err_display e) = Some e)) all_errors = true.
Proof. vm_compute. reflexivity. Qed.

(** The redaction-safe rendering of a transport error loses nothing: two
    errors that render to the same log text are the same error. *)
Theorem err_display_injective (e1 e2 : RemoteTransportError) :
  err_display e1 = err_display e2 -> e1 = e2.
Proof.
  intros Heq. pose proof err_parse_display_all as H.
  rewrite forallb_forall in H.
  assert (forall e, err_parse (err_display e) = Some e) as Hp.
  { intros e. eapply bool_decide_eq_true, H, list_elem_of_In, elem_of_all_errors. }
  pose proof (Hp e1) as H1. rewrite Heq, Hp in H1. by injection H1.
Qed.

Lemma err_display_injective_witness :
  err_display (err_with_lane SequenceGap Bulk) = "sequence_gap lane=bulk"%string /\
  err_with_lane SequenceGap Bulk = mkTransportError SequenceGap (Some Bulk) None.
Proof. split; [reflexivity|]. apply err_display_injective. reflexivity. Defined.

(** Channels and lanes determine each other. *)
Lemma lane_channel_roundtrip l :
  exists c, channel_for_lane l = Ok c /\ chan_lane c = l /\
    lane_for_channel_id (chan_channel_id c) = Ok l /\
    lane_for_channel_label (chan_label c) = Ok l /\
    chan_max_payload_bytes c = max_payload_bytes l.
Proof. destruct l; eexists; repeat split; reflexivity. Qed.
