(* ===== verification/ProtocolId.v ===== *)
(** Opaque 16-byte protocol identifiers ([remote_protocol_id.rs]) and the digest
    the codecs call.

    The digest is the third-party [sha2] crate, so it is a parameter: a
    typeclass whose laws are its documented contract (a 32-byte digest, and an
    incremental hasher that agrees with the one-shot digest of the bytes fed so
    far).  [Toy_sha256] is a concrete instance used by the witnesses only. *)

From S2P Require Import Prelude.
From stdpp Require Import options.
Set Warnings "-clear-no-such-hyp".

(** ** SHA-256 *)

Class Sha256 := {
  sha256 : bytes -> bytes;
  sha256_length : forall m, length (sha256 m) = 32%nat;
  sha256_u8 : forall m, all_u8 (sha256 m);
  Hasher : Type;
  hasher_new : Hasher;
  hasher_update : Hasher -> bytes -> Hasher;
  hasher_finalize : Hasher -> bytes;
  hasher_spec : forall chunks,
    hasher_finalize (foldl hasher_update hasher_new chunks) = sha256 (concat chunks);
}.

Lemma sha256_zlen `{Sha256} m : zlen (sha256 m) = 32.
Proof. unfold zlen. by rewrite sha256_length. Qed.
#[export] Hint Rewrite @sha256_zlen : bytes.

(** A polynomial checksum with the shape of a digest, for executable witnesses. *)
Definition toy_digest (m : bytes) : bytes :=
  to_be 32 (fold_left (fun acc b => (acc * 257 + b + 1) mod 2 ^ 61) m 7).

#[local] Instance Toy_sha256 : Sha256.
Proof.
  refine {| sha256 := toy_digest; Hasher := bytes; hasher_new := [];
            hasher_update h c := h ++ c; hasher_finalize := toy_digest |}.
  - intros. apply length_to_be.
  - intros. apply to_be_u8.
  - intros chunks. f_equal.
    assert (forall acc, foldl (fun h c : bytes => h ++ c) acc chunks = acc ++ concat chunks)
      as Hgen; [|by rewrite Hgen].
    induction chunks as [|c cs IH]; intros acc; cbn; [by rewrite app_nil_r|].
    rewrite IH. by rewrite app_assoc.
Defined.

(** ** Kind-branded identifiers *)

Module kind.
(** remote_protocol_id.rs:20-32 RemoteProtocolIdKind. *)
Inductive RemoteProtocolIdKind :=
| Tenant | Account | Instance_ | Project | Frame | Transfer | PublicPolicy.
End kind.

(** remote_protocol_id.rs:16-16 REMOTE_PROTOCOL_ID_BYTES. *)
Definition REMOTE_PROTOCOL_ID_BYTES : Z := 16.

(** remote_protocol_id.rs:103-107 RemoteProtocolId. The kind is a phantom
    parameter, as in the source. *)
Record RemoteProtocolId (K : kind.RemoteProtocolIdKind) := mkProtocolId {
  id_bytes : bytes;
}.
Arguments mkProtocolId {K} _.
Arguments id_bytes {K} _.

#[export] Instance RemoteProtocolId_eq_dec K : EqDecision (RemoteProtocolId K).
Proof. solve_decision. Defined.

(** remote_protocol_id.rs:121-123 is_all_zero. *)
Definition is_all_zero (b : bytes) : bool := forallb (fun x => x =? 0) b.

(** remote_protocol_id.rs:195-207 tag_protocol_id_bytes. The error carries only
    a fixed text, which every caller of the transport maps to its own reason. *)
Definition tag_protocol_id_bytes (K : kind.RemoteProtocolIdKind) (b : bytes)
    : result string (RemoteProtocolId K) :=
  if is_all_zero b then Err "all-zero protocol id rejected"%string
  else Ok (mkProtocolId b).

Abbreviation RemoteFrameId := (RemoteProtocolId kind.Frame).
Abbreviation RemoteTransferId := (RemoteProtocolId kind.Transfer).

(** [Result::map_err]. *)
Definition map_err {E F A} (r : result E A) (e : F) : result F A :=
  match r with Ok a => Ok a | Err _ => Err e | Panic => Panic end.

(** The invariant every constructed id has: sixteen bytes, not all zero. *)
Definition wf_id {K} (i : RemoteProtocolId K) : Prop :=
  length (id_bytes i) = 16%nat /\ all_u8 (id_bytes i) /\
  is_all_zero (id_bytes i) = false.

Lemma tag_wf_id {K} (i : RemoteProtocolId K) :
  wf_id i -> tag_protocol_id_bytes K (id_bytes i) = Ok i.
Proof. intros (_ & _ & Hz). unfold tag_protocol_id_bytes. rewrite Hz. by destruct i. Qed.

Lemma tag_Ok_inv {K} b (i : RemoteProtocolId K) :
  tag_protocol_id_bytes K b = Ok i -> id_bytes i = b /\ is_all_zero b = false.
Proof.
  unfold tag_protocol_id_bytes. destruct (is_all_zero b); [done|]. by intros [= <-].
Qed.

Lemma wf_id_zlen {K} (i : RemoteProtocolId K) : wf_id i -> zlen (id_bytes i) = 16.
Proof. intros [Hl _]. unfold zlen. by rewrite Hl. Qed.

Lemma id_bytes_inj {K} (i j : RemoteProtocolId K) : id_bytes i = id_bytes j -> i = j.
Proof. destruct i, j; cbn. by intros ->. Qed.
