(* ===== verification/WireScalar.v ===== *)
(** Canonical scalar codecs ([wire_scalar.rs]): the [u64] decimal string that
    replaces a JSON number on every wire, and the 8-byte big-endian form.

    A string is the list of its bytes. *)

From S2P Require Import Prelude.
From stdpp Require Import options.
Set Warnings "-clear-no-such-hyp".

(** wire_scalar.rs:8-9 WireScalarError. The text of each error is kept as a constructor. *)
Inductive WireScalarError :=
| DecimalSpellingInvalid
| DecimalOverflow
| DecimalNoncanonical
| U64beRequires8Bytes.

(** ASCII ['0'] and [u8::is_ascii_digit]. *)
Definition ZERO : Z := 48.
Definition is_ascii_digit (b : Z) : bool := (48 <=? b) && (b <=? 57).

(** [u64::to_string]: decimal digits without a leading zero.  Twenty digits are
    enough for a [u64]. *)
Fixpoint digits_of (fuel : nat) (n : Z) : bytes :=
  match fuel with
  | O => []
  | S fuel => (if n <? 10 then [] else digits_of fuel (n / 10)) ++ [ZERO + n mod 10]
  end.
Definition to_string (n : Z) : bytes := digits_of 20 n.

(** [str::parse::<u64>] on a string of ASCII digits: [None] when the value does
    not fit. *)
Definition digits_value (s : bytes) : Z := foldl (fun acc b => acc * 10 + (b - ZERO)) 0 s.
Definition parse_u64 (s : bytes) : option Z :=
  if digits_value s <=? U64_MAX then Some (digits_value s) else None.

(** wire_scalar.rs:71-73 format_canonical_u64_decimal_string. *)
Definition format_canonical_u64_decimal_string (value : Z) : bytes := to_string value.

(** wire_scalar.rs:55-69 parse_canonical_u64_decimal_string. *)
Definition parse_canonical_u64_decimal_string (input : bytes) : result WireScalarError Z :=
  if bool_decide (input = []) || (negb (bool_decide (input = [ZERO])) && bool_decide (head input = Some ZERO))
  then Err DecimalSpellingInvalid else
  if (20 <? zlen input) || negb (forallb is_ascii_digit input)
  then Err DecimalSpellingInvalid else
  value ← ok_or (parse_u64 input) DecimalOverflow;
  if bool_decide (to_string value = input) then Ok value else Err DecimalNoncanonical.

(** wire_scalar.rs:20-21 CanonicalU64DecimalStringV1. *)
Record CanonicalU64DecimalStringV1 := mkCanonicalU64 { cu_str : bytes }.

(** wire_scalar.rs:24-27 CanonicalU64DecimalStringV1::parse. *)
Definition cu_parse (input : bytes) : result WireScalarError CanonicalU64DecimalStringV1 :=
  value ← parse_canonical_u64_decimal_string input;
  Ok (mkCanonicalU64 (format_canonical_u64_decimal_string value)).

(** wire_scalar.rs:29-31 CanonicalU64DecimalStringV1::from_u64. *)
Definition cu_from_u64 (value : Z) : CanonicalU64DecimalStringV1 :=
  mkCanonicalU64 (format_canonical_u64_decimal_string value).

(** wire_scalar.rs:37-39 CanonicalU64DecimalStringV1::value. [expect] panics on an error. *)
Definition cu_value {E} (c : CanonicalU64DecimalStringV1) : result E Z :=
  match parse_canonical_u64_decimal_string (cu_str c) with
  | Ok v => Ok v
  | Err _ | Panic => Panic
  end.

(** wire_scalar.rs:75-77 encode_u64_be. *)
Definition encode_u64_be (value : Z) : bytes := to_be 8 value.
(** wire_scalar.rs:79-84 decode_u64_be. *)
Definition decode_u64_be (b : bytes) : result WireScalarError Z :=
  if decide (length b = 8%nat) then Ok (from_be b) else Err U64beRequires8Bytes.

(** ** Decimal digits *)

Lemma digits_value_app s b : digits_value (s ++ [b]) = digits_value s * 10 + (b - ZERO).
Proof. unfold digits_value. by rewrite foldl_app. Qed.

Lemma digits_of_spec fuel n :
  0 <= n < 10 ^ Z.of_nat fuel -> (0 < fuel)%nat ->
  digits_value (digits_of fuel n) = n /\ forallb is_ascii_digit (digits_of fuel n) = true /\
  zlen (digits_of fuel n) <= Z.of_nat fuel /\
  exists d s, digits_of fuel n = d :: s /\ (d = ZERO -> n = 0 /\ s = []).
Proof.
  revert n. induction fuel as [|fuel IH]; intros n Hn Hf; [lia|]. cbn [digits_of].
  pose proof (Z.mod_pos_bound n 10 ltac:(lia)) as Hm. pose proof (Z.div_mod n 10 ltac:(lia)) as Hdm.
  rewrite digits_value_app, forallb_app, zlen_app.
  assert (forallb is_ascii_digit [ZERO + n mod 10] = true) as ->.
  { unfold ZERO. cbn. unfold is_ascii_digit. lia. }
  assert (zlen [ZERO + n mod 10] = 1) as -> by done.
  destruct (Z.ltb_spec n 10) as [Hlt|Hge].
  - rewrite Z.mod_small by lia.
    split; [cbn; unfold ZERO; lia|]. split; [done|]. split; [rewrite zlen_nil; lia|].
    exists (ZERO + n), []. unfold ZERO. split; [done|]. intros. split; [lia|done].
  - assert (0 < fuel)%nat as Hf'.
    { destruct fuel; [|lia]. change (10 ^ Z.of_nat 1) with 10 in Hn. lia. }
    rewrite Nat2Z.inj_succ, Z.pow_succ_r in Hn by lia.
    destruct (IH (n / 10)) as (-> & -> & Hl & d & s & Hs & Hd); [|done|].
    { split; [apply Z.div_pos; lia|]. apply Z.div_lt_upper_bound; lia. }
    split; [unfold ZERO; lia|]. split; [done|]. split; [lia|].
    exists d, (s ++ [ZERO + n mod 10]). rewrite Hs. split; [done|]. intros Hz. destruct (Hd Hz) as [Hq _]. lia.
Qed.

Lemma to_string_parses n :
  is_u64 n -> parse_canonical_u64_decimal_string (to_string n) = Ok n.
Proof.
  intros Hn. unfold is_u64, U64_MAX in Hn.
  destruct (digits_of_spec 20 n) as (Hv & Hd & Hl & d & s & Hs & Hz); [lia|lia|].
  unfold parse_canonical_u64_decimal_string, to_string.
  rewrite Hd. rewrite (proj2 (Z.ltb_ge _ _)) by lia. cbn [orb negb].
  unfold parse_u64. rewrite Hv. rewrite (proj2 (Z.leb_le _ _)) by (unfold U64_MAX; lia).
  cbn [ok_or]. rewrite bind_Ok_l. fold (to_string n). rewrite (bool_decide_true (to_string n = to_string n)) by done.
  rewrite (bool_decide_false (to_string n = [])) by (unfold to_string; by rewrite Hs).
  replace (negb _ && _) with false; [done|]. unfold to_string. rewrite Hs. cbn [head].
  destruct (decide (d = ZERO)) as [->|Hne].
  - destruct (Hz eq_refl) as [_ ->]. by rewrite (bool_decide_true ([ZERO] = [ZERO])).
  - rewrite (bool_decide_false (Some d = Some ZERO)) by congruence. by rewrite andb_false_r.
Qed.

Lemma u64_canonical_inv input v :
  parse_canonical_u64_decimal_string input = Ok v ->
  is_u64 v /\ input = format_canonical_u64_decimal_string v.
Proof.
  unfold parse_canonical_u64_decimal_string. intros Hp. ok_inv Hp. subst x.
  unfold parse_u64 in B. destruct (Z.leb_spec (digits_value input) U64_MAX); [|done].
  injection B as <-. apply bool_decide_eq_true in G1.
  split; [|done]. split; [|done].
  apply orb_false_iff in G0 as [_ Hd]. apply negb_false_iff in Hd.
  clear - Hd. induction input as [|b s IH] using rev_ind; [done|].
  rewrite forallb_app in Hd. apply andb_true_iff in Hd as [Hs Hb].
  rewrite digits_value_app. specialize (IH Hs). cbn in Hb. unfold is_ascii_digit, ZERO in *. lia.
Qed.

(** The decimal [u64] spelling is canonical: a string is accepted, with value
    [v], exactly when [v] fits in 64 bits and the string is [v]'s own decimal
    rendering. No second spelling of any value is accepted (no sign, leading zero,
    blank or overflow), and every [u64] has one. *)
Theorem u64_decimal_canonical (input : bytes) (v : Z) :
  parse_canonical_u64_decimal_string input = Ok v <->
  is_u64 v /\ input = format_canonical_u64_decimal_string v.
Proof.
  split; [apply u64_canonical_inv|]. intros [Hv ->]. by apply to_string_parses.
Qed.

(** A canonical string built or parsed by the program always has its value. *)
Lemma cu_value_from_u64 {E} v : is_u64 v -> cu_value (E:=E) (cu_from_u64 v) = Ok v.
Proof. intros Hv. unfold cu_value. cbn [cu_from_u64 cu_str].
  unfold format_canonical_u64_decimal_string. by rewrite to_string_parses. Qed.

Lemma decode_encode_u64_be v : is_u64 v -> decode_u64_be (encode_u64_be v) = Ok v.
Proof.
  intros Hv. unfold decode_u64_be, encode_u64_be. rewrite length_to_be, decide_True by done.
  f_equal. apply from_be_to_be_small. unfold is_u64, U64_MAX in Hv.
  change (256 ^ Z.of_nat 8) with 18446744073709551616. lia.
Qed.
