(* ===== verification/Frame.v ===== *)
(** [RemoteTransportFrameV1], the 72-byte-header logical frame
    ([remote_transport/frame.rs], lines 1-331): flags, stream identifiers and the
    wire codec.  Stream sequencing from the second half of the same source file
    is modelled in [Streams]. *)

From S2P Require Import Prelude.
From S2P Require Import Lane.
From S2P Require Import ProtocolId.
From stdpp Require Import options.
Set Warnings "-clear-no-such-hyp".

(** frame.rs:22-22 REMOTE_TRANSPORT_FRAME_VERSION. *)
Definition REMOTE_TRANSPORT_FRAME_VERSION : Z := 1.
(** frame.rs:25-25 REMOTE_TRANSPORT_FRAME_HEADER_BYTES. *)
Definition REMOTE_TRANSPORT_FRAME_HEADER_BYTES : Z := 72.
(** frame.rs:28-29 MAX_SERIALIZED_FRAME_BYTES. *)
Definition MAX_SERIALIZED_FRAME_BYTES : Z :=
  REMOTE_TRANSPORT_FRAME_HEADER_BYTES + MAX_LOGICAL_PAYLOAD_BYTES.
(** frame.rs:32-32 FRAME_OFFSET_VERSION. *)
Definition FRAME_OFFSET_VERSION : Z := 0.
(** frame.rs:33-33 FRAME_OFFSET_LANE. *)
Definition FRAME_OFFSET_LANE : Z := 1.
(** frame.rs:34-34 FRAME_OFFSET_FLAGS. *)
Definition FRAME_OFFSET_FLAGS : Z := 2.
(** frame.rs:35-35 FRAME_OFFSET_STREAM_ID. *)
Definition FRAME_OFFSET_STREAM_ID : Z := 4.
(** frame.rs:36-36 FRAME_OFFSET_STREAM_SEQ. *)
Definition FRAME_OFFSET_STREAM_SEQ : Z := 12.
(** frame.rs:37-37 FRAME_OFFSET_FRAME_ID. *)
Definition FRAME_OFFSET_FRAME_ID : Z := 20.
(** frame.rs:38-38 FRAME_OFFSET_PAYLOAD_LENGTH. *)
Definition FRAME_OFFSET_PAYLOAD_LENGTH : Z := 36.
(** frame.rs:39-39 FRAME_OFFSET_PAYLOAD_DIGEST. *)
Definition FRAME_OFFSET_PAYLOAD_DIGEST : Z := 40.
(** frame.rs:45-45 CONTROL_STREAM_ID. *)
Definition CONTROL_STREAM_ID : Z := 0.

(** ** Flags *)

(** frame.rs:48-49 RemoteFrameFlags. *)
Record RemoteFrameFlags := mkFrameFlags { frame_flag_bits : Z }.

#[export] Instance RemoteFrameFlags_eq_dec : EqDecision RemoteFrameFlags.
Proof. solve_decision. Defined.

(** frame.rs:52-52 RemoteFrameFlags::END_STREAM. *)
Definition END_STREAM : Z := 0x0001.
(** frame.rs:53-53 RemoteFrameFlags::RESET_STREAM. *)
Definition RESET_STREAM : Z := 0x0002.
(** frame.rs:55-55 RemoteFrameFlags::DEFINED. *)
Definition FRAME_FLAGS_DEFINED : Z := Z.lor END_STREAM RESET_STREAM.

(** [!x] on a [u16]. *)
Definition not_u16 (x : Z) : Z := U16_MAX - x.

(** frame.rs:57-59 RemoteFrameFlags::empty. *)
Definition frame_flags_empty : RemoteFrameFlags := mkFrameFlags 0.
(** frame.rs:62-68 RemoteFrameFlags::from_bits. Undefined bits are rejected, not
    masked off. *)
Definition frame_flags_from_bits (bits : Z) : option RemoteFrameFlags :=
  if negb (Z.land bits (not_u16 FRAME_FLAGS_DEFINED) =? 0) then None
  else Some (mkFrameFlags bits).
(** frame.rs:74-76 RemoteFrameFlags::end_stream. *)
Definition end_stream (f : RemoteFrameFlags) : bool :=
  negb (Z.land (frame_flag_bits f) END_STREAM =? 0).
(** frame.rs:78-80 RemoteFrameFlags::reset_stream. *)
Definition reset_stream (f : RemoteFrameFlags) : bool :=
  negb (Z.land (frame_flag_bits f) RESET_STREAM =? 0).
(** frame.rs:82-84 RemoteFrameFlags::with_end_stream. *)
Definition with_end_stream (f : RemoteFrameFlags) : RemoteFrameFlags :=
  mkFrameFlags (Z.lor (frame_flag_bits f) END_STREAM).
(** frame.rs:86-88 RemoteFrameFlags::with_reset_stream. *)
Definition with_reset_stream (f : RemoteFrameFlags) : RemoteFrameFlags :=
  mkFrameFlags (Z.lor (frame_flag_bits f) RESET_STREAM).

(** ** Stream identifiers *)

(** frame.rs:92-98 RemoteStreamOrigin. *)
Inductive RemoteStreamOrigin := Client | Daemon.

#[export] Instance RemoteStreamOrigin_eq_dec : EqDecision RemoteStreamOrigin.
Proof. solve_decision. Defined.

(** frame.rs:101-106 RemoteStreamOrigin::as_str. *)
Definition origin_as_str (o : RemoteStreamOrigin) : string :=
  match o with Client => "client" | Daemon => "daemon" end.

(** frame.rs:109-117 RemoteStreamOrigin::of_stream_id. *)
Definition of_stream_id (stream_id : Z) : option RemoteStreamOrigin :=
  if stream_id =? CONTROL_STREAM_ID then None
  else if stream_id mod 2 =? 0 then Some Client
  else Some Daemon.

(** frame.rs:121-125 client_stream_id. *)
Definition client_stream_id (nth : Z) : RemoteTransportResult Z :=
  ok_or (checked_add nth 1 ≫= fun n => checked_mul n 2)
        (err_new StreamParityViolation).
(** frame.rs:128-132 daemon_stream_id. *)
Definition daemon_stream_id (nth : Z) : RemoteTransportResult Z :=
  ok_or (checked_mul nth 2 ≫= fun n => checked_add n 1)
        (err_new StreamParityViolation).

(** frame.rs:135-159 validate_stream_id. *)
Definition validate_stream_id (stream_id : Z) (origin : RemoteStreamOrigin)
    (lane : RemoteLane) : RemoteTransportResult unit :=
  if stream_id =? CONTROL_STREAM_ID then
    if decide (lane = Control) then Ok tt
    else Err (err_with_lane ZeroStreamId lane)
  else if decide (of_stream_id stream_id = Some origin) then Ok tt
  else Err (err_with_lane StreamParityViolation lane).

(** ** The frame and its codec *)

(** frame.rs:171-180 RemoteTransportFrameV1. *)
Record RemoteTransportFrameV1 := mkFrame {
  frame_lane : RemoteLane;
  frame_flags : RemoteFrameFlags;
  frame_stream_id : Z;
  frame_stream_seq : Z;
  frame_id : RemoteFrameId;
  frame_payload : bytes;
}.

#[export] Instance RemoteTransportFrameV1_eq_dec : EqDecision RemoteTransportFrameV1.
Proof. solve_decision. Defined.

(** frame.rs:207-216 RemoteTransportFrameV1::validate_payload_cap. *)
Definition validate_payload_cap (f : RemoteTransportFrameV1) : RemoteTransportResult unit :=
  if max_payload_bytes (frame_lane f) <? zlen (frame_payload f)
  then Err (err_with_size PayloadCapExceeded (frame_lane f) (zlen (frame_payload f)))
  else Ok tt.

(** frame.rs:183-200 RemoteTransportFrameV1::new. *)
Definition frame_new (lane : RemoteLane) (stream_id stream_seq : Z)
    (id : RemoteFrameId) (payload : bytes)
    : RemoteTransportResult RemoteTransportFrameV1 :=
  let frame := mkFrame lane frame_flags_empty stream_id stream_seq id payload in
  _ ← validate_payload_cap frame;
  Ok frame.

(** frame.rs:202-205 RemoteTransportFrameV1::with_flags. *)
Definition frame_with_flags (f : RemoteTransportFrameV1) (flags : RemoteFrameFlags)
    : RemoteTransportFrameV1 :=
  mkFrame (frame_lane f) flags (frame_stream_id f) (frame_stream_seq f)
          (frame_id f) (frame_payload f).

(** frame.rs:222-224 RemoteTransportFrameV1::serialized_len. *)
Definition serialized_len (f : RemoteTransportFrameV1) : Z :=
  REMOTE_TRANSPORT_FRAME_HEADER_BYTES + zlen (frame_payload f).

(** frame.rs:327-331 read_u64. *)
Definition read_u64 {E} (b : bytes) (offset : Z) : result E Z :=
  buf ← slice b offset (offset + 8);
  Ok (from_be buf).

Section codec.
Context `{Sha256}.

(** frame.rs:162-169 payload_digest. *)
Definition payload_digest (payload : bytes) : bytes := sha256 payload.

(** frame.rs:227-242 RemoteTransportFrameV1::encode. *)
Definition frame_encode (f : RemoteTransportFrameV1) : RemoteTransportResult bytes :=
  _ ← validate_payload_cap f;
  Ok (REMOTE_TRANSPORT_FRAME_VERSION
      :: lane_id (frame_lane f)
      :: to_be 2 (frame_flag_bits (frame_flags f))
      ++ to_be 8 (frame_stream_id f)
      ++ to_be 8 (frame_stream_seq f)
      ++ id_bytes (frame_id f)
      ++ to_be 4 (zlen (frame_payload f) mod 2 ^ 32)
      ++ payload_digest (frame_payload f)
      ++ frame_payload f).

(** frame.rs:246-324 RemoteTransportFrameV1::decode. *)
Definition frame_decode (b : bytes) : RemoteTransportResult RemoteTransportFrameV1 :=
  if zlen b <? REMOTE_TRANSPORT_FRAME_HEADER_BYTES then Err (err_new HeaderTooShort) else
  version ← index b FRAME_OFFSET_VERSION;
  if negb (version =? REMOTE_TRANSPORT_FRAME_VERSION)
  then Err (err_new UnsupportedVersion) else
  lane_byte ← index b FRAME_OFFSET_LANE;
  lane ← ok_or (from_lane_id lane_byte) (err_new UnknownLane);
  raw_flags ← read_u16_be b FRAME_OFFSET_FLAGS;
  flags ← ok_or (frame_flags_from_bits raw_flags) (err_with_lane UnknownFlagBit lane);
  stream_id ← read_u64 b FRAME_OFFSET_STREAM_ID;
  stream_seq ← read_u64 b FRAME_OFFSET_STREAM_SEQ;
  frame_id_bytes ← slice b FRAME_OFFSET_FRAME_ID (FRAME_OFFSET_FRAME_ID + 16);
  id ← map_err (tag_protocol_id_bytes kind.Frame frame_id_bytes)
               (err_with_lane PayloadLengthMismatch lane);
  payload_length ← read_u32_be b FRAME_OFFSET_PAYLOAD_LENGTH;
  if max_payload_bytes lane <? payload_length
  then Err (err_with_size PayloadCapExceeded lane payload_length) else
  actual ← sub_in (zlen b) REMOTE_TRANSPORT_FRAME_HEADER_BYTES;
  if payload_length <? actual then Err (err_with_lane TrailingBytes lane) else
  if actual <? payload_length then Err (err_with_lane PayloadLengthMismatch lane) else
  declared_digest ← slice b FRAME_OFFSET_PAYLOAD_DIGEST REMOTE_TRANSPORT_FRAME_HEADER_BYTES;
  payload ← slice_from b REMOTE_TRANSPORT_FRAME_HEADER_BYTES;
  if decide (payload_digest payload = declared_digest)
  then Ok (mkFrame lane flags stream_id stream_seq id payload)
  else Err (err_with_lane DigestMismatch lane).
End codec.

(** ** Correctness of the codec *)

(** The invariant of every frame the program builds: values of the field types,
    a tagged id and a payload under the lane's cap. *)
Record wf_frame (f : RemoteTransportFrameV1) : Prop := {
  wf_flags : frame_flags_from_bits (frame_flag_bits (frame_flags f)) = Some (frame_flags f);
  wf_flags_u16 : is_u16 (frame_flag_bits (frame_flags f));
  wf_stream_id : is_u64 (frame_stream_id f);
  wf_stream_seq : is_u64 (frame_stream_seq f);
  wf_frame_id : wf_id (frame_id f);
  wf_payload : all_u8 (frame_payload f);
  wf_payload_cap : zlen (frame_payload f) <= max_payload_bytes (frame_lane f);
}.

Lemma frame_flags_from_bits_inv bits f :
  frame_flags_from_bits bits = Some f -> frame_flag_bits f = bits.
Proof. unfold frame_flags_from_bits. destruct (negb _); [done|]. by intros [= <-]. Qed.

Lemma read_u64_slice {E} b o s :
  slice (E:=E) b o (o + 8) = Ok s -> read_u64 (E:=E) b o = Ok (from_be s).
Proof. intros Hs. unfold read_u64. by rewrite Hs. Qed.

Lemma read_u64_inv {E} b o z :
  read_u64 (E:=E) b o = Ok z ->
  exists s, slice (E:=E) b o (o + 8) = Ok s /\ z = from_be s.
Proof. unfold read_u64. intros Hz. ok_inv Hz. eauto. Qed.

Lemma read_u64_no_panic {E} b o :
  0 <= o -> o + 8 <= zlen b -> read_u64 (E:=E) b o <> Panic.
Proof. intros. unfold read_u64. repeat no_panic1. apply slice_no_panic; lia. Qed.

(** The width facts the casts rely on. *)
Lemma payload_cap_fits f :
  wf_frame f -> 0 <= zlen (frame_payload f) <= MAX_LOGICAL_PAYLOAD_BYTES.
Proof.
  intros Hf. pose proof (zlen_nonneg (frame_payload f)).
  pose proof (max_payload_bytes_bound (frame_lane f)). pose proof (wf_payload_cap f Hf). lia.
Qed.

Lemma validate_payload_cap_wf f : wf_frame f -> validate_payload_cap f = Ok tt.
Proof.
  intros Hf. unfold validate_payload_cap.
  destruct (Z.ltb_spec (max_payload_bytes (frame_lane f)) (zlen (frame_payload f)));
    [|done]. pose proof (wf_payload_cap f Hf). lia.
Qed.

Section codec_correct.
Context `{Sha256}.

(** The nine fields of a wire frame, in order. *)
Definition frame_wire (version lane : Z) (flags sid seq id len digest payload : bytes) : bytes :=
  version :: lane :: flags ++ sid ++ seq ++ id ++ len ++ digest ++ payload.

Lemma frame_encode_wf f :
  wf_frame f ->
  frame_encode f =
    Ok (frame_wire 1 (lane_id (frame_lane f))
          (to_be 2 (frame_flag_bits (frame_flags f)))
          (to_be 8 (frame_stream_id f)) (to_be 8 (frame_stream_seq f))
          (id_bytes (frame_id f)) (to_be 4 (zlen (frame_payload f)))
          (sha256 (frame_payload f)) (frame_payload f)).
Proof.
  intros Hf. unfold frame_encode. rewrite validate_payload_cap_wf by done.
  rewrite bind_Ok_l. pose proof (payload_cap_fits f Hf).
  rewrite Z.mod_small by (unfold MAX_LOGICAL_PAYLOAD_BYTES in *; lia). done.
Qed.

Lemma frame_encode_u8 f b : wf_frame f -> frame_encode f = Ok b -> all_u8 b.
Proof.
  intros Hf He. rewrite frame_encode_wf in He by done.
  match type of He with Ok ?w = _ => assert (all_u8 w) as Hw; [|by injection He as <-] end.
  unfold frame_wire, all_u8.
  destruct (wf_frame_id f Hf) as (_ & Hid & _).
  constructor; [done|]. constructor; [by destruct (frame_lane f)|].
  rewrite !Forall_app.
  pose proof (wf_payload f Hf). pose proof (sha256_u8 (frame_payload f)).
  unfold all_u8 in *.
  split; [apply to_be_u8|]. split; [apply to_be_u8|]. split; [apply to_be_u8|].
  split; [done|]. split; [apply to_be_u8|]. done.
Qed.

Lemma frame_wire_zlen v l flags sid seq id len digest payload :
  zlen flags = 2 -> zlen sid = 8 -> zlen seq = 8 -> zlen id = 16 ->
  zlen len = 4 -> zlen digest = 32 ->
  zlen (frame_wire v l flags sid seq id len digest payload) = 72 + zlen payload.
Proof. intros. unfold frame_wire. autorewrite with bytes. lia. Qed.

(** Reading a laid-out frame field by field. *)
Lemma frame_decode_wire v l flags sid seq id len digest payload :
  zlen flags = 2 -> zlen sid = 8 -> zlen seq = 8 -> zlen id = 16 ->
  zlen len = 4 -> zlen digest = 32 ->
  frame_decode (frame_wire v l flags sid seq id len digest payload) =
  if negb (v =? 1) then Err (err_new UnsupportedVersion) else
  lane ← ok_or (from_lane_id l) (err_new UnknownLane);
  fl ← ok_or (frame_flags_from_bits (from_be flags)) (err_with_lane UnknownFlagBit lane);
  fid ← map_err (tag_protocol_id_bytes kind.Frame id)
                (err_with_lane PayloadLengthMismatch lane);
  if max_payload_bytes lane <? from_be len
  then Err (err_with_size PayloadCapExceeded lane (from_be len)) else
  if from_be len <? zlen payload then Err (err_with_lane TrailingBytes lane) else
  if zlen payload <? from_be len then Err (err_with_lane PayloadLengthMismatch lane) else
  if decide (sha256 payload = digest)
  then Ok (mkFrame lane fl (from_be sid) (from_be seq) fid payload)
  else Err (err_with_lane DigestMismatch lane).
Proof.
  intros Hf Hs Hq Hi Hl Hd. unfold frame_decode.
  pose proof (zlen_nonneg payload).
  rewrite frame_wire_zlen by done.
  unfold REMOTE_TRANSPORT_FRAME_HEADER_BYTES, FRAME_OFFSET_VERSION, FRAME_OFFSET_LANE,
    FRAME_OFFSET_FLAGS, FRAME_OFFSET_STREAM_ID, FRAME_OFFSET_STREAM_SEQ,
    FRAME_OFFSET_FRAME_ID, FRAME_OFFSET_PAYLOAD_LENGTH, FRAME_OFFSET_PAYLOAD_DIGEST.
  destruct (Z.ltb_spec (72 + zlen payload) 72); [lia|].
  unfold slice_from. rewrite frame_wire_zlen by done. unfold frame_wire.
  rewrite (index_head _ _ 0) by done. rewrite bind_Ok_l.
  destruct (negb (v =? REMOTE_TRANSPORT_FRAME_VERSION)) eqn:Ev;
    unfold REMOTE_TRANSPORT_FRAME_VERSION in Ev; rewrite Ev; [done|].
  rewrite (index_cons _ _ 1) by lia. rewrite (index_head _ _ (1 - 1)) by lia. rewrite bind_Ok_l.
  destruct (from_lane_id l) as [lane|]; [cbn [ok_or]; rewrite !bind_Ok_l|done].
  rewrite (read_u16_slice _ 2 flags) by (read_field; done). rewrite bind_Ok_l.
  destruct (frame_flags_from_bits (from_be flags)) as [fl|];
    [cbn [ok_or]; rewrite !bind_Ok_l|done].
  rewrite (read_u64_slice _ 4 sid) by (read_field; done). rewrite bind_Ok_l.
  rewrite (read_u64_slice _ 12 seq) by (read_field; done). rewrite bind_Ok_l.
  replace (slice _ 20 (20 + 16)) with (@Ok RemoteTransportError bytes id)
    by (symmetry; read_field; done). rewrite bind_Ok_l.
  destruct (map_err (tag_protocol_id_bytes kind.Frame id) _) as [fid| |]; [|done|done].
  rewrite !bind_Ok_l.
  rewrite (read_u32_slice _ 36 len) by (read_field; done). rewrite bind_Ok_l.
  destruct (max_payload_bytes lane <? from_be len); [done|].
  rewrite sub_in_le by lia. rewrite bind_Ok_l.
  replace (72 + zlen payload - 72) with (zlen payload) by lia.
  destruct (from_be len <? zlen payload); [done|].
  destruct (zlen payload <? from_be len); [done|].
  replace (slice _ 40 72) with (@Ok RemoteTransportError bytes digest)
    by (symmetry; read_field; done). rewrite bind_Ok_l.
  replace (slice _ 72 _) with (@Ok RemoteTransportError bytes payload)
    by (symmetry; read_field; done). rewrite bind_Ok_l. done.
Qed.

Lemma frame_wire_fields f :
  wf_frame f ->
  from_be (to_be 2 (frame_flag_bits (frame_flags f))) = frame_flag_bits (frame_flags f) /\
  from_be (to_be 8 (frame_stream_id f)) = frame_stream_id f /\
  from_be (to_be 8 (frame_stream_seq f)) = frame_stream_seq f /\
  from_be (to_be 4 (zlen (frame_payload f))) = zlen (frame_payload f).
Proof.
  intros Hf. pose proof (payload_cap_fits f Hf). pose proof (wf_flags_u16 f Hf).
  pose proof (wf_stream_id f Hf). pose proof (wf_stream_seq f Hf).
  unfold is_u16, is_u64, U16_MAX, U64_MAX, MAX_LOGICAL_PAYLOAD_BYTES in *.
  repeat split; apply from_be_to_be_small;
    [change (256 ^ Z.of_nat 2) with 65536 | change (256 ^ Z.of_nat 8) with 18446744073709551616
    | change (256 ^ Z.of_nat 8) with 18446744073709551616
    | change (256 ^ Z.of_nat 4) with 4294967296]; lia.
Qed.

Lemma frame_decode_encode (f : RemoteTransportFrameV1) :
  wf_frame f ->
  exists b, frame_encode f = Ok b /\ zlen b = serialized_len f /\ frame_decode b = Ok f.
Proof.
  intros Hf. eexists. split; [by apply frame_encode_wf|].
  pose proof (wf_id_zlen _ (wf_frame_id f Hf)) as Hid.
  destruct (frame_wire_fields f Hf) as (E1 & E2 & E3 & E4).
  split; [by rewrite frame_wire_zlen by zlen_solve|].
  rewrite frame_decode_wire by zlen_solve. rewrite E1, E2, E3, E4.
  cbn [negb Z.eqb Pos.eqb]. rewrite from_lane_id_lane_id. cbn [ok_or]. rewrite bind_Ok_l.
  rewrite wf_flags by done. cbn [ok_or]. rewrite bind_Ok_l.
  rewrite tag_wf_id by apply Hf. cbn [map_err]. rewrite bind_Ok_l.
  pose proof (wf_payload_cap f Hf).
  rewrite (proj2 (Z.ltb_ge _ _)) by lia. rewrite Z.ltb_irrefl.
  rewrite decide_True by done. by destruct f.
Qed.

(** Encoding then decoding a well-formed frame gives the frame back, and the
    wire form is exactly the 72-byte header plus the payload. *)
Lemma frame_roundtrip (f : RemoteTransportFrameV1) :
  wf_frame f ->
  exists b, frame_encode f = Ok b /\ zlen b = serialized_len f /\ frame_decode b = Ok f.
Proof. apply frame_decode_encode. Qed.

Lemma frame_wire_of_slices {E} b v l flags sid seq id len digest payload :
  index (E:=E) b 0 = Ok v -> index (E:=E) b 1 = Ok l ->
  slice (E:=E) b 2 4 = Ok flags -> slice (E:=E) b 4 12 = Ok sid ->
  slice (E:=E) b 12 20 = Ok seq -> slice (E:=E) b 20 36 = Ok id ->
  slice (E:=E) b 36 40 = Ok len -> slice (E:=E) b 40 72 = Ok digest ->
  slice (E:=E) b 72 (zlen b) = Ok payload ->
  b = frame_wire v l flags sid seq id len digest payload.
Proof.
  intros H0 H1 Hf Hs Hq Hi Hl Hd Hp. apply index_inv in H0, H1.
  pose proof (slice_split _ _ _ _ _ _ Hd Hp) as K.
  apply (slice_split _ _ _ _ _ _ Hl) in K. apply (slice_split _ _ _ _ _ _ Hi) in K.
  apply (slice_split _ _ _ _ _ _ Hq) in K. apply (slice_split _ _ _ _ _ _ Hs) in K.
  apply (slice_split _ _ _ _ _ _ Hf) in K. apply (slice_split _ _ _ _ _ _ H1) in K.
  apply (slice_split _ _ _ _ _ _ H0) in K.
  rewrite slice_all in K by done. by injection K.
Qed.

(** What a successful decode says about its input: the frame is well formed and
    encodes back to exactly the bytes that were read. *)
Lemma frame_decode_inv b f :
  all_u8 b -> frame_decode b = Ok f -> wf_frame f /\ frame_encode f = Ok b.
Proof.
  intros Hb Hd. unfold frame_decode in Hd. ok_inv Hd. subst f.
  unfold REMOTE_TRANSPORT_FRAME_HEADER_BYTES, FRAME_OFFSET_VERSION, FRAME_OFFSET_LANE,
    FRAME_OFFSET_FLAGS, FRAME_OFFSET_STREAM_ID, FRAME_OFFSET_STREAM_SEQ,
    FRAME_OFFSET_FRAME_ID, FRAME_OFFSET_PAYLOAD_LENGTH, FRAME_OFFSET_PAYLOAD_DIGEST,
    slice_from in *.
  apply negb_false_iff, Z.eqb_eq in G0. apply Z.ltb_ge in G1, G2, G3.
  apply ok_or_Ok in B1, B3. apply from_lane_id_Some in B1.
  apply read_u16_inv in B2 as (sf & Sf & ->).
  apply read_u64_inv in B4 as (ss & Ss & ->), B5 as (sq & Sq & ->).
  apply read_u32_inv in B8 as (sl & Sl & ->).
  destruct (tag_protocol_id_bytes kind.Frame x6) as [fid| |] eqn:Htag; try done.
  cbn in B7. injection B7 as <-. apply tag_Ok_inv in Htag as [Hid Hz]. subst x6.
  apply sub_in_Ok in B9 as [Hlen ->].
  pose proof (frame_wire_of_slices _ _ _ _ _ _ _ _ _ _ B B0 Sf Ss Sq B6 Sl B10 B11) as Hw.
  pose proof (slice_u8 _ _ _ _ Hb Sf) as Uf. pose proof (slice_u8 _ _ _ _ Hb Ss) as Us.
  pose proof (slice_u8 _ _ _ _ Hb Sq) as Uq. pose proof (slice_u8 _ _ _ _ Hb Sl) as Ul.
  pose proof (slice_u8 _ _ _ _ Hb B6) as Ui. pose proof (slice_u8 _ _ _ _ Hb B11) as Up.
  apply slice_inv in Sf as [Lf _], Ss as [Ls _], Sq as [Lq _], Sl as [Ll _],
    B6 as [Li _], B11 as [Lp _].
  unfold zlen in Lf, Ls, Lq, Ll, Li.
  pose proof (from_be_bound _ Uf) as Bf. pose proof (from_be_bound _ Us) as Bs.
  pose proof (from_be_bound _ Uq) as Bq.
  replace (Z.of_nat (length sf)) with 2 in Bf by lia.
  replace (Z.of_nat (length ss)) with 8 in Bs by lia.
  replace (Z.of_nat (length sq)) with 8 in Bq by lia.
  apply frame_flags_from_bits_inv in B3 as Hbits.
  assert (wf_frame (mkFrame x1 x3 (from_be ss) (from_be sq) fid x11)) as Hwf.
  { split; cbn; rewrite ?Hbits; try done; unfold is_u16, is_u64, U16_MAX, U64_MAX.
    - change (256 ^ 2) with 65536 in Bf. lia.
    - change (256 ^ 8) with 18446744073709551616 in Bs. lia.
    - change (256 ^ 8) with 18446744073709551616 in Bq. lia.
    - split; [lia|done].
    - lia. }
  split; [done|]. rewrite frame_encode_wf by done.
  cbn [frame_lane frame_flags frame_stream_id frame_stream_seq frame_id frame_payload].
  rewrite Hbits. rewrite !to_be_from_be_n by (done || lia).
  replace (zlen x11) with (from_be sl) by lia.
  rewrite to_be_from_be_n by (done || lia).
  rewrite Hw, G0, B1, <- G4. done.
Qed.


Lemma map_err_no_panic {E F A} (r : result E A) (e : F) :
  r <> Panic -> map_err r e <> Panic.
Proof. by destruct r. Qed.

Lemma tag_no_panic K b : tag_protocol_id_bytes K b <> Panic.
Proof. unfold tag_protocol_id_bytes. by destruct (is_all_zero b). Qed.

(** No input makes the decoder index or slice out of range. *)
Lemma frame_decode_no_panic (b : bytes) : frame_decode b <> Panic.
Proof.
  unfold frame_decode, slice_from, REMOTE_TRANSPORT_FRAME_HEADER_BYTES,
    FRAME_OFFSET_VERSION, FRAME_OFFSET_LANE,
    FRAME_OFFSET_FLAGS, FRAME_OFFSET_STREAM_ID, FRAME_OFFSET_STREAM_SEQ,
    FRAME_OFFSET_FRAME_ID, FRAME_OFFSET_PAYLOAD_LENGTH, FRAME_OFFSET_PAYLOAD_DIGEST.
  destruct (Z.ltb_spec (zlen b) 72) as [|Hlen]; [done|].
  repeat no_panic1;
    first [ apply index_no_panic; lia | apply slice_no_panic; lia
          | apply read_u16_no_panic; lia | apply read_u32_no_panic; lia
          | apply read_u64_no_panic; lia
          | apply map_err_no_panic, tag_no_panic
          | rewrite sub_in_le by lia; done ].
Qed.

(** Decoding is total and canonical: on every byte string the decoder either
    returns an error or a well-formed frame whose encoding is that very byte
    string, so two different wire forms never carry the same frame; it never
    panics. *)
Lemma frame_decode_canonical (b : bytes) :
  all_u8 b ->
  match frame_decode b with
  | Ok f => wf_frame f /\ frame_encode f = Ok b
  | Err _ => True
  | Panic => False
  end.
Proof.
  intros Hb. destruct (frame_decode b) as [f| |] eqn:Hd; [by apply frame_decode_inv|done|].
  by apply frame_decode_no_panic in Hd.
Qed.

(** The frame codec is exact.  Every well-formed frame encodes to its 72-byte header
    plus payload and decodes back to itself; and on every byte string the decoder
    either refuses or returns a well-formed frame whose encoding is that very byte
    string, so two wire forms never carry the same frame.  It never panics. *)
Theorem frame_codec_exact :
  (forall (f : RemoteTransportFrameV1),
     wf_frame f ->
     exists b, frame_encode f = Ok b /\ zlen b = serialized_len f /\ frame_decode b = Ok f) /\
  (forall (b : bytes),
     all_u8 b ->
     match frame_decode b with
     | Ok f => wf_frame f /\ frame_encode f = Ok b
     | Err _ => True
     | Panic => False
     end).
Proof. split; [exact frame_roundtrip|exact frame_decode_canonical]. Qed.
End codec_correct.

(** A concrete frame for the witnesses. *)
Definition sample_id : RemoteFrameId :=
  mkProtocolId [1; 2; 3; 4; 5; 6; 7; 8; 9; 10; 11; 12; 13; 14; 15; 16].
Definition sample_frame : RemoteTransportFrameV1 :=
  mkFrame Interactive (mkFrameFlags 1) 2 0 sample_id [104; 101; 108; 108; 111].

Lemma sample_id_wf : wf_id sample_id.
Proof. split; [done|]. split; [|done]. repeat constructor; unfold U8_MAX; lia. Qed.

Lemma sample_frame_wf : wf_frame sample_frame.
Proof.
  split; try done; try apply sample_id_wf; cbn;
    unfold is_u16, is_u64, U16_MAX, U64_MAX; try lia.
  repeat constructor; unfold U8_MAX; lia.
Qed.

Lemma frame_codec_exact_witness :
  exists b, @frame_encode Toy_sha256 sample_frame = Ok b /\ zlen b = 77 /\
            @frame_decode Toy_sha256 b = Ok sample_frame.
Proof. apply (proj1 (@frame_codec_exact Toy_sha256) sample_frame sample_frame_wf). Defined.
