(* ===== verification/Streams.v ===== *)
(** Per-stream sequencing and stream retirement: [RemoteStreamSequences]
    ([remote_transport/frame.rs], lines 333-541).

    The state is the source's: the open streams with their next expected
    sequence number, and per lane a retire cursor with the set of closed
    ordinals above it.  [Spec] is what the component promises: every stream is
    fresh, open at a sequence number, or closed for ever. *)

From S2P Require Import Prelude.
From S2P Require Import Lane.
From S2P Require Import Frame.
From stdpp Require Import options.
Set Warnings "-clear-no-such-hyp".

(** frame.rs:337-337 MAX_ACTIVE_STREAMS_PER_PEER. *)
Definition MAX_ACTIVE_STREAMS_PER_PEER : Z := 256.
(** frame.rs:344-344 MAX_OUTSTANDING_STREAM_IDS. *)
Definition MAX_OUTSTANDING_STREAM_IDS : Z := 1024.

(** frame.rs:350-358 stream_ordinal. *)
Definition stream_ordinal (origin : RemoteStreamOrigin) (stream_id : Z) : Z :=
  if stream_id =? CONTROL_STREAM_ID then 0
  else match origin with
       | Client => stream_id / 2
       | Daemon => div_ceil stream_id 2
       end.

(** frame.rs:362-367 first_legal_ordinal. *)
Definition first_legal_ordinal (lane : RemoteLane) : Z :=
  match lane with Control => 0 | Interactive | Bulk => 1 end.

(** frame.rs:369-376 LaneStreamState. *)
Record LaneStreamState := mkLaneState {
  retire_cursor : Z;
  closed : gset Z;
}.

(** frame.rs:400-409 RemoteStreamSequences. *)
Record RemoteStreamSequences := mkSequences {
  sq_next : gmap (RemoteLane * Z) Z;
  sq_lanes : gmap RemoteLane LaneStreamState;
  sq_origin : RemoteStreamOrigin;
  sq_max_active : Z;
  sq_max_outstanding : Z;
}.

(** frame.rs:413-421 RemoteStreamSequences::new. *)
Definition sequences_new (origin : RemoteStreamOrigin) : RemoteStreamSequences :=
  mkSequences ∅ ∅ origin MAX_ACTIVE_STREAMS_PER_PEER MAX_OUTSTANDING_STREAM_IDS.

(** frame.rs:424-427 RemoteStreamSequences::with_max_active_streams. *)
Definition with_max_active_streams (s : RemoteStreamSequences) (max_active : Z) :=
  mkSequences (sq_next s) (sq_lanes s) (sq_origin s) max_active (sq_max_outstanding s).
(** frame.rs:430-433 RemoteStreamSequences::with_max_outstanding_ids. *)
Definition with_max_outstanding_ids (s : RemoteStreamSequences) (max_outstanding : Z) :=
  mkSequences (sq_next s) (sq_lanes s) (sq_origin s) (sq_max_active s) max_outstanding.

Definition set_next (s : RemoteStreamSequences) (m : gmap (RemoteLane * Z) Z) :=
  mkSequences m (sq_lanes s) (sq_origin s) (sq_max_active s) (sq_max_outstanding s).
Definition set_lane (s : RemoteStreamSequences) (lane : RemoteLane) (st : LaneStreamState) :=
  mkSequences (sq_next s) (<[lane := st]> (sq_lanes s)) (sq_origin s)
              (sq_max_active s) (sq_max_outstanding s).

(** frame.rs:435-440 RemoteStreamSequences::lane_state. The entry is created on first
    use; the returned state aliases the map entry, so callers write it back
    with [set_lane]. *)
Definition lane_state (s : RemoteStreamSequences) (lane : RemoteLane)
    : LaneStreamState * RemoteStreamSequences :=
  match sq_lanes s !! lane with
  | Some st => (st, s)
  | None =>
      let st := mkLaneState (first_legal_ordinal lane) ∅ in
      (st, set_lane s lane st)
  end.

(** frame.rs:443-506 RemoteStreamSequences::accept. *)
Definition sequences_accept (s : RemoteStreamSequences) (lane : RemoteLane)
    (stream_id stream_seq : Z) : RemoteStreamSequences * RemoteTransportResult unit :=
  match sq_next s !! (lane, stream_id) with
  | Some expected =>
      if stream_seq <? expected then (s, Err (err_with_lane SequenceRegression lane)) else
      if expected <? stream_seq then (s, Err (err_with_lane SequenceGap lane)) else
      match checked_add stream_seq 1 with
      | None => (s, Err (err_with_lane SequenceWrap lane))
      | Some advanced =>
          (set_next s (<[(lane, stream_id) := advanced]> (sq_next s)), Ok tt)
      end
  | None =>
      let ordinal := stream_ordinal (sq_origin s) stream_id in
      let active := Z.of_nat (size (sq_next s)) in
      let '(state, s) := lane_state s lane in
      if (ordinal <? retire_cursor state) || bool_decide (ordinal ∈ closed state)
      then (s, Err (err_with_lane StreamClosed lane)) else
      if sq_max_outstanding s <=? saturating_sub ordinal (retire_cursor state)
      then (s, Err (err_with_lane StreamLimitExceeded lane)) else
      if negb (stream_seq =? 0) then (s, Err (err_with_lane SequenceGap lane)) else
      if sq_max_active s <=? active
      then (s, Err (err_with_lane StreamLimitExceeded lane)) else
      (set_next s (<[(lane, stream_id) := 1]> (sq_next s)), Ok tt)
  end.

(** frame.rs:521-523 RemoteStreamSequences::close. The loop of [close]: while the
    cursor's ordinal is recorded closed, drop the record and advance.  One
    iteration removes one element, so the set's size is enough fuel
    ([absorb_done]). *)
Fixpoint absorb (fuel : nat) (st : LaneStreamState) : LaneStreamState :=
  match fuel with
  | O => st
  | S fuel =>
      if decide (retire_cursor st ∈ closed st)
      then absorb fuel (mkLaneState (retire_cursor st + 1)
                                    (closed st ∖ {[retire_cursor st]}))
      else st
  end.

(** frame.rs:513-524 RemoteStreamSequences::close. *)
Definition sequences_close (s : RemoteStreamSequences) (lane : RemoteLane)
    (stream_id : Z) : RemoteStreamSequences :=
  let s := set_next s (delete (lane, stream_id) (sq_next s)) in
  let ordinal := stream_ordinal (sq_origin s) stream_id in
  let '(state, s) := lane_state s lane in
  if ordinal <? retire_cursor state then s
  else
    let st := mkLaneState (retire_cursor state) (closed state ∪ {[ordinal]}) in
    set_lane s lane (absorb (size (closed st)) st).

(** frame.rs:527-529 RemoteStreamSequences::tracked_streams. *)
Definition tracked_streams (s : RemoteStreamSequences) : Z := Z.of_nat (size (sq_next s)).
(** frame.rs:532-534 RemoteStreamSequences::pending_closed_ordinals. *)
Definition pending_closed_ordinals (s : RemoteStreamSequences) : Z :=
  map_fold (fun _ st acc => Z.of_nat (size (closed st)) + acc) 0 (sq_lanes s).
(** frame.rs:537-539 RemoteStreamSequences::max_active_streams. *)
Definition max_active_streams (s : RemoteStreamSequences) : Z := sq_max_active s.

(** ** Retirement *)

(** An ordinal is retired when it is below the cursor or recorded closed. *)
Definition retired (st : LaneStreamState) (o : Z) : Prop :=
  o < retire_cursor st \/ o ∈ closed st.
#[export] Instance retired_dec st o : Decision (retired st o) := _.

(** The state a lane has before its entry is created. *)
Definition lane_view (s : RemoteStreamSequences) (lane : RemoteLane) : LaneStreamState :=
  default (mkLaneState (first_legal_ordinal lane) ∅) (sq_lanes s !! lane).

Lemma lane_state_view s lane :
  exists s', lane_state s lane = (lane_view s lane, s') /\
    sq_next s' = sq_next s /\ sq_origin s' = sq_origin s /\
    sq_max_active s' = sq_max_active s /\
    sq_max_outstanding s' = sq_max_outstanding s /\
    forall l, lane_view s' l = lane_view s l.
Proof.
  unfold lane_state, lane_view. destruct (sq_lanes s !! lane) as [st|] eqn:Hl.
  { eexists. by repeat split. }
  eexists. split; [done|]. repeat split. intros l. cbn.
  destruct (decide (lane = l)) as [->|]; [by rewrite lookup_insert_eq, Hl|].
  by rewrite lookup_insert_ne.
Qed.

Lemma lane_view_set_next s m l : lane_view (set_next s m) l = lane_view s l.
Proof. done. Qed.

Lemma lane_view_set_lane s lane st l :
  lane_view (set_lane s lane st) l = if decide (l = lane) then st else lane_view s l.
Proof.
  unfold lane_view; cbn. case_decide; subst; [by rewrite lookup_insert_eq|].
  by rewrite lookup_insert_ne.
Qed.

Lemma absorb_retired n st o : retired (absorb n st) o <-> retired st o.
Proof.
  revert st. induction n as [|n IH]; intros st; cbn; [done|].
  case_decide as Hc; [|done]. rewrite IH. unfold retired; cbn.
  rewrite elem_of_difference, elem_of_singleton.
  destruct (decide (o = retire_cursor st)) as [->|]; [split; [auto|]; lia|].
  split; [intros [|[]]|intros [|]]; auto; lia.
Qed.

(** The set's size is enough fuel: the loop ends at an ordinal not recorded. *)
Lemma absorb_done n st :
  (size (closed st) <= n)%nat ->
  retire_cursor (absorb n st) ∉ closed (absorb n st).
Proof.
  revert st. induction n as [|n IH]; intros st Hn; cbn.
  - assert (closed st = ∅) as -> by (apply leibniz_equiv, size_empty_iff; lia). set_solver.
  - case_decide as Hc; [|done]. apply IH. cbn.
    rewrite size_difference by set_solver. rewrite size_singleton. lia.
Qed.

Lemma absorb_cursor n st : retire_cursor st <= retire_cursor (absorb n st).
Proof.
  revert st. induction n as [|n IH]; intros st; cbn; [done|].
  case_decide; [|done]. etrans; [|apply IH]. cbn. lia.
Qed.

Lemma absorb_closed n st : closed (absorb n st) ⊆ closed st.
Proof.
  revert st. induction n as [|n IH]; intros st; cbn; [done|].
  case_decide; [|done]. etrans; [apply IH|]. cbn. apply subseteq_difference_l. done.
Qed.

Lemma absorb_above n st :
  (forall o, o ∈ closed st -> retire_cursor st <= o) ->
  forall o, o ∈ closed (absorb n st) -> retire_cursor (absorb n st) <= o.
Proof.
  revert st. induction n as [|n IH]; intros st Hst; cbn; [done|].
  case_decide; [|done]. apply IH. cbn. intros o [Ho Hne]%elem_of_difference.
  apply Hst in Ho. rewrite elem_of_singleton in Hne. lia.
Qed.

(** ** Valid stream ids have distinct ordinals *)

Definition valid_key (origin : RemoteStreamOrigin) (k : RemoteLane * Z) : Prop :=
  0 <= k.2 /\ validate_stream_id k.2 origin k.1 = Ok tt.

Lemma valid_key_cases origin lane id :
  valid_key origin (lane, id) ->
  (id = 0 /\ lane = Control) \/
  (0 < id /\ of_stream_id id = Some origin).
Proof.
  intros [H0 H]. cbn in *. unfold validate_stream_id, CONTROL_STREAM_ID in H.
  destruct (Z.eqb_spec id 0); [by case_decide; auto|]. case_decide; [|done]. right. split; [lia|done].
Qed.

Lemma stream_ordinal_pos origin id :
  0 < id -> of_stream_id id = Some origin ->
  1 <= stream_ordinal origin id /\
  id = match origin with Client => 2 * stream_ordinal origin id
                       | Daemon => 2 * stream_ordinal origin id - 1 end.
Proof.
  intros Hid. unfold of_stream_id, stream_ordinal, CONTROL_STREAM_ID, div_ceil.
  destruct (Z.eqb_spec id 0); [lia|].
  destruct (Z.eqb_spec (id mod 2) 0) as [Hm|Hm]; intros [= <-]; cbn.
  - pose proof (Z.div_mod id 2). lia.
  - pose proof (Z.div_mod id 2). pose proof (Z.mod_pos_bound id 2).
    replace (id + 2 - 1) with ((id / 2 + 1) * 2 + 0) by lia.
    rewrite Z.div_add_l by lia. change (0 / 2) with 0. lia.
Qed.

Lemma stream_ordinal_inj origin lane id1 id2 :
  valid_key origin (lane, id1) -> valid_key origin (lane, id2) ->
  stream_ordinal origin id1 = stream_ordinal origin id2 -> id1 = id2.
Proof.
  intros H1%valid_key_cases H2%valid_key_cases Heq.
  destruct H1 as [[-> _]|[P1 O1]], H2 as [[-> _]|[P2 O2]]; [done| | |].
  - destruct (stream_ordinal_pos _ _ P2 O2). unfold stream_ordinal in Heq at 1. cbn in Heq. lia.
  - destruct (stream_ordinal_pos _ _ P1 O1). unfold stream_ordinal in Heq at 2. cbn in Heq. lia.
  - destruct (stream_ordinal_pos _ _ P1 O1) as [_ E1], (stream_ordinal_pos _ _ P2 O2) as [_ E2].
    rewrite E1, E2, Heq. done.
Qed.

Lemma stream_ordinal_legal origin lane id :
  valid_key origin (lane, id) -> first_legal_ordinal lane <= stream_ordinal origin id.
Proof.
  intros [[-> ->]|[P O]]%valid_key_cases; [done|].
  destruct (stream_ordinal_pos _ _ P O). destruct lane; cbn; lia.
Qed.

(** ** The invariant *)

Record seq_inv (s : RemoteStreamSequences) : Prop := {
  inv_cursor : forall l, first_legal_ordinal l <= retire_cursor (lane_view s l);
  inv_closed : forall l o, o ∈ closed (lane_view s l) ->
    retire_cursor (lane_view s l) < o < retire_cursor (lane_view s l) + sq_max_outstanding s;
  inv_open : forall l id n, sq_next s !! (l, id) = Some n ->
    valid_key (sq_origin s) (l, id) /\ 1 <= n <= U64_MAX /\
    ~ retired (lane_view s l) (stream_ordinal (sq_origin s) id) /\
    stream_ordinal (sq_origin s) id < retire_cursor (lane_view s l) + sq_max_outstanding s;
  inv_active : Z.of_nat (size (sq_next s)) <= Z.max 0 (sq_max_active s);
}.

Lemma seq_inv_new origin : seq_inv (sequences_new origin).
Proof.
  split; unfold lane_view; cbn; [by intros []| | |done].
  - intros l o Ho. set_solver.
  - intros l id n Hn. by rewrite lookup_empty in Hn.
Qed.

(** The invariant only reads the open map, the lane views and the limits. *)
Lemma seq_inv_ext s s' :
  sq_next s' = sq_next s -> sq_origin s' = sq_origin s ->
  sq_max_active s' = sq_max_active s -> sq_max_outstanding s' = sq_max_outstanding s ->
  (forall l, lane_view s' l = lane_view s l) -> seq_inv s -> seq_inv s'.
Proof.
  intros E1 E2 E3 E4 E5 [H1 H2 H3 H4].
  split; intros; rewrite ?E1, ?E2, ?E3, ?E4, ?E5 in *; eauto.
Qed.

Lemma accept_cases s lane id seq s' r :
  sequences_accept s lane id seq = (s', r) ->
  (forall l, lane_view s' l = lane_view s l) /\ sq_origin s' = sq_origin s /\
  sq_max_active s' = sq_max_active s /\ sq_max_outstanding s' = sq_max_outstanding s /\
  ((r <> Ok tt /\ sq_next s' = sq_next s) \/
   (r = Ok tt /\ sq_next s !! (lane, id) = Some seq /\ seq + 1 <= U64_MAX /\
    sq_next s' = <[(lane, id) := seq + 1]> (sq_next s)) \/
   (r = Ok tt /\ sq_next s !! (lane, id) = None /\ seq = 0 /\
    ~ retired (lane_view s lane) (stream_ordinal (sq_origin s) id) /\
    stream_ordinal (sq_origin s) id < retire_cursor (lane_view s lane) + sq_max_outstanding s /\
    Z.of_nat (size (sq_next s)) < sq_max_active s /\
    sq_next s' = <[(lane, id) := 1]> (sq_next s))).
Proof.
  unfold sequences_accept. destruct (sq_next s !! (lane, id)) as [n|] eqn:Hn.
  - destruct (Z.ltb_spec seq n); [intros [= <- <-]; by repeat split; auto|].
    destruct (Z.ltb_spec n seq); [intros [= <- <-]; by repeat split; auto|].
    unfold checked_add. destruct (Z.leb_spec (seq + 1) U64_MAX);
      intros [= <- <-]; [|by repeat split; auto].
    repeat split; try done. right; left. replace n with seq in * by lia. by repeat split.
  - destruct (lane_state_view s lane) as (s1 & -> & E1 & E2 & E3 & E4 & E5).
    rewrite E3, E4.
    destruct (Z.ltb_spec (stream_ordinal (sq_origin s) id) (retire_cursor (lane_view s lane)));
      cbn [orb]; [intros [= <- <-]; by repeat split; auto|].
    case_bool_decide; [intros [= <- <-]; by repeat split; auto|].
    destruct (Z.leb_spec (sq_max_outstanding s)
      (saturating_sub (stream_ordinal (sq_origin s) id) (retire_cursor (lane_view s lane))));
      [intros [= <- <-]; by repeat split; auto|].
    destruct (Z.eqb_spec seq 0); cbn [negb]; [|intros [= <- <-]; by repeat split; auto].
    destruct (Z.leb_spec (sq_max_active s) (Z.of_nat (size (sq_next s))));
      intros [= <- <-]; [by repeat split; auto|].
    repeat split; try done. right; right. cbn. rewrite E1.
    unfold retired, saturating_sub in *. repeat split; try done; [intros [?|?]; [lia|done]|lia].
Qed.

Lemma seq_inv_accept s lane id seq s' r :
  seq_inv s -> valid_key (sq_origin s) (lane, id) ->
  sequences_accept s lane id seq = (s', r) -> seq_inv s'.
Proof.
  intros Hi Hv Ha. destruct (accept_cases _ _ _ _ _ _ Ha) as (E5 & E2 & E3 & E4 & Hc).
  destruct Hc as [[_ E1]|[(_ & Hl & Hm & E1)|(_ & Hl & _ & Hr & Hw & Hs & E1)]].
  - by apply (seq_inv_ext s).
  - destruct Hi as [H1 H2 H3 H4]. destruct (H3 _ _ _ Hl) as (V & B & R & W).
    split; intros; rewrite ?E2, ?E3, ?E4, ?E5 in *; eauto.
    + rewrite E1, lookup_insert in H. case_decide as Hk; [|by eauto].
      simplify_eq. split; [done|]. split; [lia|done].
    + rewrite E1, map_size_insert_Some; [done|by eexists].
  - destruct Hi as [H1 H2 H3 H4].
    split; intros; rewrite ?E2, ?E3, ?E4, ?E5 in *; eauto.
    + rewrite E1, lookup_insert in H. case_decide as Hk; [|by eauto].
      simplify_eq. split; [done|]. split; [unfold U64_MAX; lia|done].
    + rewrite E1, map_size_insert_None by done. lia.
Qed.

Lemma close_facts s lane id :
  let s' := sequences_close s lane id in
  let ord := stream_ordinal (sq_origin s) id in
  sq_next s' = delete (lane, id) (sq_next s) /\ sq_origin s' = sq_origin s /\
  sq_max_active s' = sq_max_active s /\ sq_max_outstanding s' = sq_max_outstanding s /\
  (forall l, l <> lane -> lane_view s' l = lane_view s l) /\
  (forall o, retired (lane_view s' lane) o <-> retired (lane_view s lane) o \/ o = ord) /\
  retire_cursor (lane_view s lane) <= retire_cursor (lane_view s' lane) /\
  (lane_view s' lane = lane_view s lane \/
   (closed (lane_view s' lane) ⊆ closed (lane_view s lane) ∪ {[ord]} /\
    ((forall o, o ∈ closed (lane_view s lane) -> retire_cursor (lane_view s lane) < o) ->
     forall o, o ∈ closed (lane_view s' lane) -> retire_cursor (lane_view s' lane) < o))).
Proof.
  cbn zeta. unfold sequences_close.
  set (s0 := set_next s (delete (lane, id) (sq_next s))).
  destruct (lane_state_view s0 lane) as (s1 & -> & E1 & E2 & E3 & E4 & E5).
  change (lane_view s0 lane) with (lane_view s lane) in *.
  change (sq_origin s0) with (sq_origin s) in *.
  assert (forall l, lane_view s1 l = lane_view s l) as E6 by (intros l; by rewrite E5).
  set (ord := stream_ordinal (sq_origin s) id).
  destruct (Z.ltb_spec ord (retire_cursor (lane_view s lane))) as [Hlt|Hge].
  { rewrite E6. repeat split; try done; auto.
    intros [?| ->]; [done|]. by left. }
  set (st := mkLaneState (retire_cursor (lane_view s lane)) (closed (lane_view s lane) ∪ {[ord]})).
  rewrite lane_view_set_lane, decide_True by done.
  split; [done|]. do 3 (split; [done|]).
  split; [intros l Hl; by rewrite lane_view_set_lane, decide_False, E6|].
  split; [intros o; rewrite absorb_retired; unfold retired; cbn; set_solver|].
  split; [apply (absorb_cursor (size (closed st)) st)|].
  right. split; [apply (absorb_closed (size (closed st)) st)|].
  intros Hin o Ho. set (n := size (closed st)) in *.
  pose proof (absorb_done n st (Nat.le_refl _)) as Hd.
  assert (retire_cursor (absorb n st) <= o) as Hle.
  { apply (absorb_above n st); [|done]. cbn.
    intros o' [Ho'|Ho']%elem_of_union; [apply Hin in Ho'; lia|].
    apply elem_of_singleton in Ho'. lia. }
  destruct (decide (o = retire_cursor (absorb n st))) as [->|]; [done|lia].
Qed.

Lemma seq_inv_close s lane id :
  seq_inv s -> is_Some (sq_next s !! (lane, id)) -> seq_inv (sequences_close s lane id).
Proof.
  intros [H1 H2 H3 H4] [n Hn]. destruct (H3 _ _ _ Hn) as (Hv & _ & Hr & Hw).
  destruct (close_facts s lane id) as (E1 & E2 & E3 & E4 & E5 & Hret & Hcur & Hcl).
  split.
  - intros l. destruct (decide (l = lane)) as [->|]; [|by rewrite E5].
    etrans; [apply H1|done].
  - intros l o. rewrite E4. destruct (decide (l = lane)) as [->|]; [|rewrite E5 by done; apply H2].
    destruct Hcl as [->|[Hsub Habove]]; [apply H2|]. intros Ho. split.
    + apply Habove; [|done]. intros o' Ho'. by destruct (H2 _ _ Ho').
    + apply Hsub in Ho. apply elem_of_union in Ho as [Ho|Ho].
      * apply H2 in Ho. lia.
      * apply elem_of_singleton in Ho. lia.
  - intros l id' n'. rewrite E1, E2, E4. intros [Hne Hl']%lookup_delete_Some.
    destruct (H3 _ _ _ Hl') as (Hv' & Hb' & Hr' & Hw'). split; [done|]. split; [done|].
    destruct (decide (l = lane)) as [->|]; [|by rewrite E5]. split; [|lia].
    rewrite Hret. intros [?|Heq]; [done|].
    apply (stream_ordinal_inj _ _ _ _ Hv' Hv) in Heq. congruence.
  - rewrite E1, E3, map_size_delete, Hn. lia.
Qed.

(** The closed set of every lane stays inside the outstanding-id window. *)
Lemma inv_closed_bound s l :
  seq_inv s -> Z.of_nat (size (closed (lane_view s l))) <= Z.max 0 (sq_max_outstanding s).
Proof.
  intros Hi. apply (gset_interval_size _ (retire_cursor (lane_view s l))).
  intros o Ho. pose proof (inv_closed s Hi l o Ho). lia.
Qed.

(** ** The receive step

    fragment.rs applies these rules, in this order, to every reassembled frame
    before it is handed out. *)

(** fragment.rs:580-587 RemoteFragmentReassembler::accept. Ownership, sequence and
    retirement of the frame's stream. *)
Definition receive_stream (origin : RemoteStreamOrigin) (s : RemoteStreamSequences)
    (lane : RemoteLane) (stream_id stream_seq : Z) (flags : RemoteFrameFlags)
    : RemoteStreamSequences * RemoteTransportResult unit :=
  match validate_stream_id stream_id origin lane with
  | Ok _ =>
      match sequences_accept s lane stream_id stream_seq with
      | (s, Ok _) =>
          if end_stream flags || reset_stream flags
          then (sequences_close s lane stream_id, Ok tt)
          else (s, Ok tt)
      | (s, r) => (s, r)
      end
  | r => (s, r)
  end.

(** ** What the component promises *)

Module Spec.
(** A stream is fresh ([None]), open at its next sequence number, or closed. *)
Inductive status := Open (next : Z) | Closed.

(** Delivering one frame: the only successor a status has, if any. *)
Definition deliver (st : option status) (seq : Z) (terminal : bool) : option status :=
  match st with
  | None => if seq =? 0 then Some (if terminal then Closed else Open 1) else None
  | Some (Open n) =>
      if seq =? n then Some (if terminal then Closed else Open (seq + 1)) else None
  | Some Closed => None
  end.
End Spec.

(** The status the concrete state gives a stream. *)
Definition abs (s : RemoteStreamSequences) (k : RemoteLane * Z) : option Spec.status :=
  match sq_next s !! k with
  | Some n => Some (Spec.Open n)
  | None =>
      if decide (retired (lane_view s k.1) (stream_ordinal (sq_origin s) k.2))
      then Some Spec.Closed else None
  end.

Definition terminal (flags : RemoteFrameFlags) : bool :=
  end_stream flags || reset_stream flags.

Lemma abs_new origin k : valid_key origin k -> abs (sequences_new origin) k = None.
Proof.
  destruct k as [l id]. intros Hv. unfold abs; cbn. rewrite decide_False; [done|].
  apply stream_ordinal_legal in Hv.
  change (lane_view (sequences_new origin) l) with (mkLaneState (first_legal_ordinal l) ∅).
  intros [Hlt|Hin]; cbn in *; [lia|set_solver].
Qed.

Lemma abs_accept s lane id seq s' :
  seq_inv s -> sequences_accept s lane id seq = (s', Ok tt) ->
  sq_next s' !! (lane, id) = Some (seq + 1) /\
  Spec.deliver (abs s (lane, id)) seq false = Some (Spec.Open (seq + 1)) /\
  forall k, k <> (lane, id) -> abs s' k = abs s k.
Proof.
  intros Hi Ha. destruct (accept_cases _ _ _ _ _ _ Ha) as (E5 & E2 & _ & _ & Hc).
  destruct Hc as [[? _]|[(_ & Hl & Hm & E1)|(_ & Hl & -> & Hr & _ & _ & E1)]]; [done| |].
  all: unfold abs; rewrite E1, Hl, lookup_insert_eq; split; [done|]; split;
    [|intros [l' id'] Hne; cbn; rewrite E5, E2, lookup_insert_ne by congruence; done].
  - cbn. by rewrite Z.eqb_refl.
  - rewrite decide_False by done. done.
Qed.

Lemma abs_close s lane id k :
  sq_next s !! (lane, id) <> None -> seq_inv s -> valid_key (sq_origin s) k ->
  abs (sequences_close s lane id) k =
    if decide (k = (lane, id)) then Some Spec.Closed else abs s k.
Proof.
  intros Hn Hi Hv. destruct (close_facts s lane id) as (E1 & E2 & _ & _ & E5 & Hret & _ & _).
  unfold abs. rewrite E1, E2, lookup_delete. destruct k as [l id']. cbn.
  destruct (sq_next s !! (lane, id)) as [n|] eqn:Hl; [|done].
  destruct (inv_open s Hi _ _ _ Hl) as (Hv2 & _).
  destruct (decide ((l, id') = (lane, id))) as [Hk|Hk].
  - injection Hk as -> ->. rewrite decide_True by done.
    rewrite decide_True; [done|]. apply Hret. by right.
  - rewrite decide_False by congruence.
    destruct (decide (l = lane)) as [->|Hll]; [|by rewrite E5].
    destruct (sq_next s !! (lane, id')) as [m|]; [done|].
    apply decide_ext. rewrite Hret. split; [intros [?|Heq]; [done|]|by left].
    apply (stream_ordinal_inj _ _ _ _ Hv Hv2) in Heq. congruence.
Qed.

Lemma accept_not_panic s lane id seq : (sequences_accept s lane id seq).2 <> Panic.
Proof.
  unfold sequences_accept, lane_state.
  repeat (case_match; try done).
Qed.

Lemma validate_not_panic id origin lane : validate_stream_id id origin lane <> Panic.
Proof. unfold validate_stream_id. destruct (id =? _); by case_decide. Qed.

(** One step of the component against its specification. *)
Lemma receive_stream_step (s s' : RemoteStreamSequences) (lane : RemoteLane)
    (id seq : Z) (flags : RemoteFrameFlags) (r : RemoteTransportResult unit) :
  seq_inv s -> 0 <= id ->
  receive_stream (sq_origin s) s lane id seq flags = (s', r) ->
  seq_inv s' /\ sq_origin s' = sq_origin s /\ r <> Panic /\
  (forall k, valid_key (sq_origin s) k -> k <> (lane, id) -> abs s' k = abs s k) /\
  match r with
  | Ok _ => valid_key (sq_origin s) (lane, id) /\
            exists st, Spec.deliver (abs s (lane, id)) seq (terminal flags) = Some st /\
                       abs s' (lane, id) = Some st
  | _ => valid_key (sq_origin s) (lane, id) -> abs s' (lane, id) = abs s (lane, id)
  end.
Proof.
  intros Hi Hid. unfold receive_stream. fold (terminal flags).
  destruct (validate_stream_id id (sq_origin s) lane) as [[]|e|] eqn:Hval;
    [|intros [= <- <-]; by split_and!|by apply validate_not_panic in Hval].
  assert (valid_key (sq_origin s) (lane, id)) as Hv by done.
  destruct (sequences_accept s lane id seq) as [s1 r1] eqn:Ha.
  pose proof (seq_inv_accept _ _ _ _ _ _ Hi Hv Ha) as Hi1.
  destruct (accept_cases _ _ _ _ _ _ Ha) as (E5 & E2 & _ & _ & Hc).
  destruct r1 as [[]|e|].
  - destruct (abs_accept _ _ _ _ _ Hi Ha) as (Hn & Hd & Hoth).
    destruct (terminal flags) eqn:Ht; intros [= <- <-].
    + destruct (close_facts s1 lane id) as (_ & E2' & _).
      split; [apply seq_inv_close; [done|by eexists]|]. split; [by rewrite E2'|].
      split; [done|].
      split; [intros k Hk Hne; rewrite abs_close by (congruence || by rewrite E2);
              rewrite decide_False by done; by apply Hoth|].
      split; [done|]. exists Spec.Closed. rewrite abs_close by (congruence || by rewrite E2).
      rewrite decide_True by done. split; [|done].
      revert Hd. unfold Spec.deliver. destruct (abs s (lane, id)) as [[]|];
        try done; by destruct (seq =? _).
    + split_and!; try done; [by intros; apply Hoth|]. eexists. split; [done|].
      unfold abs. by rewrite Hn.
  - intros [= <- <-]. destruct Hc as [[_ E1]|[(? & _)|(? & _)]]; [|done|done].
    split_and!; try done; intros; unfold abs; by rewrite E1, E5, E2.
  - exfalso. apply (accept_not_panic s lane id seq). by rewrite Ha.
Qed.

(** C22: The sequencing component implements its specification: a frame it
    accepts is exactly a delivery the specification allows on that stream, a
    frame it rejects changes no stream's status, no other stream is affected,
    and the invariant (bounded windows, bounded budget) is kept. *)
Theorem receive_stream_refines (s s' : RemoteStreamSequences) (lane : RemoteLane)
    (id seq : Z) (flags : RemoteFrameFlags) (r : RemoteTransportResult unit) :
  seq_inv s -> 0 <= id ->
  receive_stream (sq_origin s) s lane id seq flags = (s', r) ->
  seq_inv s' /\ sq_origin s' = sq_origin s /\ r <> Panic /\
  (forall k, valid_key (sq_origin s) k -> k <> (lane, id) -> abs s' k = abs s k) /\
  match r with
  | Ok _ => valid_key (sq_origin s) (lane, id) /\
            exists st, Spec.deliver (abs s (lane, id)) seq (terminal flags) = Some st /\
                       abs s' (lane, id) = Some st
  | _ => valid_key (sq_origin s) (lane, id) -> abs s' (lane, id) = abs s (lane, id)
  end.
Proof. apply receive_stream_step. Qed.

(** Nothing the specification allows is refused except for the two resource
    budgets: a delivery the specification allows is accepted whenever the
    sequence number can advance and, for a new stream, its ordinal is inside the
    outstanding-id window and an active slot is free. *)
Theorem receive_stream_progress (s : RemoteStreamSequences) (lane : RemoteLane)
    (id seq : Z) (flags : RemoteFrameFlags) (st : Spec.status) :
  seq_inv s -> valid_key (sq_origin s) (lane, id) ->
  Spec.deliver (abs s (lane, id)) seq (terminal flags) = Some st ->
  seq < U64_MAX ->
  (abs s (lane, id) = None ->
   stream_ordinal (sq_origin s) id < retire_cursor (lane_view s lane) + sq_max_outstanding s /\
   Z.of_nat (size (sq_next s)) < sq_max_active s) ->
  exists s', receive_stream (sq_origin s) s lane id seq flags = (s', Ok tt).
Proof.
  intros Hi [Hid Hval] Hd Hmax Hbud. cbn in Hid, Hval.
  assert (exists s1, sequences_accept s lane id seq = (s1, Ok tt)) as [s1 Ha].
  { unfold sequences_accept, abs in *. destruct (sq_next s !! (lane, id)) as [n|].
    - cbn in Hd. destruct (Z.eqb_spec seq n) as [->|]; [|done].
      rewrite Z.ltb_irrefl. unfold checked_add.
      destruct (Z.leb_spec (n + 1) U64_MAX); [by eexists|lia].
    - cbn [fst snd] in *. case_decide as Hr; [done|]. destruct (Hbud eq_refl) as [Hw Hs].
      unfold retired in Hr. apply Decidable.not_or in Hr as [Hr1 Hr2].
      cbn in Hd. destruct (Z.eqb_spec seq 0) as [->|]; [|done].
      destruct (lane_state_view s lane) as (s2 & -> & E1 & E2 & E3 & E4 & E5).
      rewrite (proj2 (Z.ltb_ge _ _)) by lia. rewrite bool_decide_false by done. cbn [orb negb].
      rewrite E4, E3. rewrite (proj2 (Z.leb_gt _ _)) by (unfold saturating_sub; lia).
      rewrite (proj2 (Z.leb_gt _ _)) by lia. by eexists. }
  unfold receive_stream. rewrite Hval, Ha. destruct (_ || _); by eexists.
Qed.

(** ** Every execution: the log of accepted frames *)

Record stream_event := mkEvent {
  ev_key : RemoteLane * Z;
  ev_seq : Z;
  ev_flags : RemoteFrameFlags;
}.

(** Feed a sequence of frames; the log holds the accepted ones in order. *)
Fixpoint run_streams (s : RemoteStreamSequences) (evs : list stream_event)
    : RemoteStreamSequences * list stream_event :=
  match evs with
  | [] => (s, [])
  | e :: evs =>
      match receive_stream (sq_origin s) s (ev_key e).1 (ev_key e).2 (ev_seq e) (ev_flags e) with
      | (s, Ok _) => let '(s, log) := run_streams s evs in (s, e :: log)
      | (s, _) => run_streams s evs
      end
  end.

(** The accepted frames of one stream. *)
Definition stream_log (k : RemoteLane * Z) (log : list stream_event) : list stream_event :=
  filter (fun e => ev_key e = k) log.

(** A log of one stream that continues from a status: sequence numbers count up
    by one from where the status stands, and nothing follows a terminal frame. *)
Fixpoint log_from (st : option Spec.status) (log : list stream_event) : Prop :=
  match log with
  | [] => True
  | e :: log =>
      exists st', Spec.deliver st (ev_seq e) (terminal (ev_flags e)) = Some st' /\
                  log_from (Some st') log
  end.

Lemma run_streams_log s evs s' log k :
  seq_inv s -> Forall (fun e => 0 <= (ev_key e).2) evs ->
  run_streams s evs = (s', log) -> valid_key (sq_origin s) k ->
  log_from (abs s k) (stream_log k log) /\ seq_inv s'.
Proof.
  intros Hi Hev. revert s s' log Hi. induction Hev as [|e evs He Hev IH]; intros s s' log Hi.
  { intros [= <- <-] _. done. }
  cbn. destruct (receive_stream _ _ _ _ _ _) as [s1 r] eqn:Hr.
  destruct (receive_stream_step _ _ _ _ _ _ _ Hi He Hr) as (Hi1 & Eo & Hnp & Hoth & Hk).
  destruct r as [[]|err|]; [|intros Hrun Hv|done].
  - destruct (run_streams s1 evs) as [s2 log2] eqn:Hrun. intros [= <- <-] Hv.
    destruct (IH s1 s2 log2 Hi1 Hrun) as [Hlog Hi2]; [by rewrite Eo|]. split; [|done].
    unfold stream_log. rewrite filter_cons.
    destruct (decide (ev_key e = k)) as [Hek|Hne].
    + destruct Hk as (_ & st & Hd & Hst). rewrite <- surjective_pairing, Hek in Hd, Hst.
      cbn. exists st. split; [done|]. by rewrite <- Hst.
    + rewrite <- (Hoth k) by (try done; rewrite <- surjective_pairing; congruence). done.
  - destruct (IH s1 s' log Hi1 Hrun) as [Hlog Hi2]; [by rewrite Eo|]. split; [|done].
    destruct (decide (k = ((ev_key e).1, (ev_key e).2))) as [->|Hne].
    + by rewrite <- Hk.
    + by rewrite <- Hoth.
Qed.

Lemma log_from_seqs n log :
  log_from (Some (Spec.Open n)) log ->
  ev_seq <$> log = seqZ n (zlen log) /\
  forall i e, log !! i = Some e -> terminal (ev_flags e) = true -> S i = length log.
Proof.
  revert n. induction log as [|e log IH]; intros n; cbn [log_from].
  { intros _. split; [by rewrite zlen_nil|]. done. }
  intros (st & Hd & Hl). cbn in Hd. destruct (Z.eqb_spec (ev_seq e) n) as [Hn|]; [|done].
  rewrite seqZ_cons by (rewrite zlen_cons; pose proof (zlen_nonneg log); lia).
  rewrite fmap_cons, Hn, zlen_cons. replace (Z.pred (1 + zlen log)) with (zlen log) by lia.
  injection Hd as <-. destruct (terminal (ev_flags e)) eqn:Ht.
  - destruct log as [|e' log]; [|by destruct Hl as (? & ? & _)].
    split; [done|]. by intros [|] e'.
  - rewrite Hn in Hl. destruct (IH (n + 1) Hl) as [-> Hterm].
    split; [done|]. intros [|i] e'; cbn; [intros [= <-]; congruence|].
    intros Hi Ht'. by rewrite <- (Hterm i e').
Qed.

Lemma log_from_fresh log :
  log_from None log ->
  ev_seq <$> log = seqZ 0 (zlen log) /\
  forall i e, log !! i = Some e -> terminal (ev_flags e) = true -> S i = length log.
Proof.
  intros Hl. apply log_from_seqs. destruct log as [|e log]; [done|].
  destruct Hl as (st & Hd & Hl). exists st. split; [|done].
  revert Hd. cbn. destruct (Z.eqb_spec (ev_seq e) 0) as [->|]; done.
Qed.

(** No replay, no gap, no resurrection: for every sequence of frames a peer
    can send, the frames accepted on a stream carry the sequence numbers
    0, 1, 2, ... in order without repetition, and a frame that ended or reset
    the stream is the last one accepted on it. *)
Theorem stream_log_gapless (origin : RemoteStreamOrigin) (evs : list stream_event)
    (s' : RemoteStreamSequences) (log : list stream_event) (k : RemoteLane * Z) :
  Forall (fun e => 0 <= (ev_key e).2) evs ->
  run_streams (sequences_new origin) evs = (s', log) ->
  valid_key origin k ->
  ev_seq <$> stream_log k log = seqZ 0 (zlen (stream_log k log)) /\
  (forall i e, stream_log k log !! i = Some e -> terminal (ev_flags e) = true ->
     S i = length (stream_log k log)).
Proof.
  intros Hev Hrun Hv. apply log_from_fresh. rewrite <- (abs_new origin k Hv).
  eapply run_streams_log; [apply seq_inv_new|done..].
Qed.

Lemma receive_stream_limits o s lane id seq flags :
  let s' := (receive_stream o s lane id seq flags).1 in
  sq_max_active s' = sq_max_active s /\ sq_max_outstanding s' = sq_max_outstanding s.
Proof.
  unfold receive_stream. destruct (validate_stream_id id o lane); [|done|done].
  destruct (sequences_accept s lane id seq) as [s1 r] eqn:Ha.
  destruct (accept_cases _ _ _ _ _ _ Ha) as (_ & _ & E3 & E4 & _).
  destruct r; [|done|done]. destruct (_ || _); [|done].
  destruct (close_facts s1 lane id) as (_ & _ & F3 & F4 & _). cbn. by rewrite F3, F4.
Qed.

Lemma run_streams_inv s evs :
  seq_inv s -> Forall (fun e => 0 <= (ev_key e).2) evs ->
  let s' := (run_streams s evs).1 in
  seq_inv s' /\ sq_max_active s' = sq_max_active s /\
  sq_max_outstanding s' = sq_max_outstanding s.
Proof.
  intros Hi Hev. revert s Hi. induction Hev as [|e evs He Hev IH]; intros s Hi; [done|].
  cbn. destruct (receive_stream _ _ _ _ _ _) as [s1 r] eqn:Hr.
  destruct (receive_stream_step _ _ _ _ _ _ _ Hi He Hr) as (Hi1 & _ & Hnp & _).
  pose proof (receive_stream_limits (sq_origin s) s (ev_key e).1 (ev_key e).2 (ev_seq e) (ev_flags e))
    as Hlim. rewrite Hr in Hlim. cbn in Hlim. destruct Hlim as [L1 L2].
  specialize (IH s1 Hi1). rewrite L1, L2 in IH.
  destruct r; [|done|done]. by destruct (run_streams s1 evs).
Qed.

(** Memory stays bounded for every peer behaviour: after any sequence of
    frames at most 256 streams are open and at most 1024 closed ordinals are
    held back per lane. *)
Theorem stream_memory_bounded (origin : RemoteStreamOrigin) (evs : list stream_event)
    (l : RemoteLane) :
  Forall (fun e => 0 <= (ev_key e).2) evs ->
  let s' := (run_streams (sequences_new origin) evs).1 in
  tracked_streams s' <= MAX_ACTIVE_STREAMS_PER_PEER /\
  Z.of_nat (size (closed (lane_view s' l))) <= MAX_OUTSTANDING_STREAM_IDS.
Proof.
  intros Hev. destruct (run_streams_inv _ evs (seq_inv_new origin) Hev) as (Hi & L1 & L2).
  cbn zeta. pose proof (inv_active _ Hi) as Ha. pose proof (inv_closed_bound _ l Hi) as Hc.
  rewrite L1 in Ha. rewrite L2 in Hc. cbn in Ha, Hc. unfold tracked_streams.
  unfold MAX_ACTIVE_STREAMS_PER_PEER, MAX_OUTSTANDING_STREAM_IDS in *. lia.
Qed.

(** ** Witnesses: stream 6 closes while stream 4 is still fresh; a replay of the
    closed stream is refused, stream 4 is not. *)

Definition sample_events : list stream_event :=
  [mkEvent (Interactive, 6) 0 (mkFrameFlags 1);
   mkEvent (Interactive, 6) 0 (mkFrameFlags 1);
   mkEvent (Interactive, 4) 0 (mkFrameFlags 0);
   mkEvent (Interactive, 4) 2 (mkFrameFlags 0);
   mkEvent (Interactive, 4) 1 (mkFrameFlags 2)].

Definition sample_run : RemoteStreamSequences * list stream_event :=
  run_streams (sequences_new Client) sample_events.

Lemma sample_events_ok : Forall (fun e => 0 <= (ev_key e).2) sample_events.
Proof. repeat constructor; cbn; lia. Qed.

Lemma receive_stream_refines_witness :
  exists s', receive_stream Client (sequences_new Client) Interactive 6 0 (mkFrameFlags 1)
             = (s', Ok tt) /\ abs s' (Interactive, 6) = Some Spec.Closed /\
             abs s' (Interactive, 4) = None.
Proof.
  destruct (receive_stream Client (sequences_new Client) Interactive 6 0 (mkFrameFlags 1))
    as [s' r] eqn:Hr.
  destruct (receive_stream_refines (sequences_new Client) s' Interactive 6 0 (mkFrameFlags 1) r
    (seq_inv_new Client) ltac:(lia) Hr) as (_ & _ & _ & Hoth & Hk).
  assert (r = Ok tt) as ->.
  { apply (f_equal snd) in Hr. vm_compute in Hr. by rewrite <- Hr. }
  exists s'. split; [done|]. destruct Hk as (_ & st & Hd & Hst).
  split.
  - rewrite Hst, <- Hd. vm_compute. reflexivity.
  - rewrite (Hoth (Interactive, 4)); [reflexivity| |done]. split; [cbn; lia|done].
Defined.

Lemma receive_stream_progress_witness :
  exists s', receive_stream Client (sequences_new Client) Interactive 6 0 (mkFrameFlags 1)
             = (s', Ok tt).
Proof.
  apply (receive_stream_progress (sequences_new Client) Interactive 6 0 (mkFrameFlags 1)
           Spec.Closed (seq_inv_new Client)).
  - split; [cbn; lia|done].
  - vm_compute. reflexivity.
  - unfold U64_MAX. lia.
  - intros _. split; vm_compute; reflexivity.
Defined.

Lemma stream_log_gapless_witness :
  ev_seq <$> stream_log (Interactive, 4) sample_run.2 = [0; 1] /\
  ev_seq <$> stream_log (Interactive, 4) sample_run.2
    = seqZ 0 (zlen (stream_log (Interactive, 4) sample_run.2)).
Proof.
  split; [vm_compute; reflexivity|].
  apply (stream_log_gapless Client sample_events sample_run.1 sample_run.2 (Interactive, 4)
           sample_events_ok); [apply surjective_pairing|].
  split; [cbn; lia|done].
Defined.

Lemma stream_memory_bounded_witness :
  tracked_streams sample_run.1 = 0 /\ tracked_streams sample_run.1 <= 256.
Proof.
  split; [vm_compute; reflexivity|].
  apply (stream_memory_bounded Client sample_events Interactive sample_events_ok).
Defined.
