(* ===== verification/Fragment.v ===== *)
(** [RemoteCarrierFragmentV1], the 26-byte-header carrier fragment, its codec and
    the deterministic split of a serialized frame ([remote_transport/fragment.rs],
    lines 1-336).  Reassembly, the second half of the file, is in [Reassembly]. *)

From S2P Require Import Prelude.
From S2P Require Import Lane.
From S2P Require Import ProtocolId.
From S2P Require Import Frame.
From stdpp Require Import options.
Set Warnings "-clear-no-such-hyp".

(** fragment.rs:35-35 REMOTE_CARRIER_FRAGMENT_VERSION. *)
Definition REMOTE_CARRIER_FRAGMENT_VERSION : Z := 1.
(** fragment.rs:38-38 REMOTE_CARRIER_FRAGMENT_HEADER_BYTES. *)
Definition REMOTE_CARRIER_FRAGMENT_HEADER_BYTES : Z := 26.
(** fragment.rs:42-42 NOISE_RECORD_MAX_CIPHERTEXT_BYTES. *)
Definition NOISE_RECORD_MAX_CIPHERTEXT_BYTES : Z := 65535.
(** fragment.rs:44-44 NOISE_AEAD_TAG_BYTES. *)
Definition NOISE_AEAD_TAG_BYTES : Z := 16.
(** fragment.rs:46-47 NOISE_MAX_PLAINTEXT_BYTES. *)
Definition NOISE_MAX_PLAINTEXT_BYTES : Z :=
  NOISE_RECORD_MAX_CIPHERTEXT_BYTES - NOISE_AEAD_TAG_BYTES.
(** fragment.rs:49-49 NOISE_RECORD_HEADER_BYTES. *)
Definition NOISE_RECORD_HEADER_BYTES : Z := 14.
(** fragment.rs:51-51 NOISE_RECORD_PAYLOAD_BYTES. *)
Definition NOISE_RECORD_PAYLOAD_BYTES : Z :=
  NOISE_MAX_PLAINTEXT_BYTES - NOISE_RECORD_HEADER_BYTES.
(** fragment.rs:53-53 PEER_SEEN_THROUGH_WATERMARK_BYTES. *)
Definition PEER_SEEN_THROUGH_WATERMARK_BYTES : Z := 8.
(** fragment.rs:55-56 LANE_FRAGMENT_TOTAL_BYTES. *)
Definition LANE_FRAGMENT_TOTAL_BYTES : Z :=
  NOISE_RECORD_PAYLOAD_BYTES - PEER_SEEN_THROUGH_WATERMARK_BYTES.
(** fragment.rs:58-59 REMOTE_CARRIER_FRAGMENT_MAX_PAYLOAD_BYTES. *)
Definition REMOTE_CARRIER_FRAGMENT_MAX_PAYLOAD_BYTES : Z :=
  LANE_FRAGMENT_TOTAL_BYTES - REMOTE_CARRIER_FRAGMENT_HEADER_BYTES.
(** fragment.rs:67-67 MAX_FRAGMENT_COUNT. *)
Definition MAX_FRAGMENT_COUNT : Z := 9.

(** The compile-time assertions of the source. *)
Lemma fragment_constants :
  NOISE_MAX_PLAINTEXT_BYTES = 65519 /\ NOISE_RECORD_PAYLOAD_BYTES = 65505 /\
  LANE_FRAGMENT_TOTAL_BYTES = 65497 /\
  REMOTE_CARRIER_FRAGMENT_MAX_PAYLOAD_BYTES = 65471 /\
  MAX_FRAGMENT_COUNT =
    div_ceil MAX_SERIALIZED_FRAME_BYTES REMOTE_CARRIER_FRAGMENT_MAX_PAYLOAD_BYTES.
Proof. vm_compute. auto. Qed.

(** fragment.rs:93-93 FRAGMENT_OFFSET_VERSION. *)
Definition FRAGMENT_OFFSET_VERSION : Z := 0.
(** fragment.rs:94-94 FRAGMENT_OFFSET_LANE. *)
Definition FRAGMENT_OFFSET_LANE : Z := 1.
(** fragment.rs:95-95 FRAGMENT_OFFSET_FLAGS. *)
Definition FRAGMENT_OFFSET_FLAGS : Z := 2.
(** fragment.rs:96-96 FRAGMENT_OFFSET_FRAME_ID. *)
Definition FRAGMENT_OFFSET_FRAME_ID : Z := 4.
(** fragment.rs:97-97 FRAGMENT_OFFSET_INDEX. *)
Definition FRAGMENT_OFFSET_INDEX : Z := 20.
(** fragment.rs:98-98 FRAGMENT_OFFSET_COUNT. *)
Definition FRAGMENT_OFFSET_COUNT : Z := 22.
(** fragment.rs:99-99 FRAGMENT_OFFSET_PAYLOAD_LENGTH. *)
Definition FRAGMENT_OFFSET_PAYLOAD_LENGTH : Z := 24.

(** fragment.rs:105-106 RemoteFragmentFlags. *)
Record RemoteFragmentFlags := mkFragFlags { frag_flag_bits : Z }.
#[export] Instance RemoteFragmentFlags_eq_dec : EqDecision RemoteFragmentFlags.
Proof. solve_decision. Defined.

(** fragment.rs:109-109 RemoteFragmentFlags::END. *)
Definition FRAG_END : Z := 0x0001.
(** fragment.rs:110-110 RemoteFragmentFlags::DEFINED. *)
Definition FRAG_FLAGS_DEFINED : Z := FRAG_END.
(** fragment.rs:112-114 RemoteFragmentFlags::empty. *)
Definition frag_flags_empty : RemoteFragmentFlags := mkFragFlags 0.
(** fragment.rs:116-118 RemoteFragmentFlags::end. *)
Definition frag_flags_end : RemoteFragmentFlags := mkFragFlags FRAG_END.
(** fragment.rs:120-126 RemoteFragmentFlags::from_bits. *)
Definition frag_flags_from_bits (bits : Z) : option RemoteFragmentFlags :=
  if negb (Z.land bits (not_u16 FRAG_FLAGS_DEFINED) =? 0) then None
  else Some (mkFragFlags bits).
(** fragment.rs:132-134 RemoteFragmentFlags::is_end. *)
Definition is_end (f : RemoteFragmentFlags) : bool :=
  negb (Z.land (frag_flag_bits f) FRAG_END =? 0).

(** fragment.rs:138-146 RemoteCarrierFragmentV1. *)
Record RemoteCarrierFragmentV1 := mkFragment {
  frag_lane : RemoteLane;
  frag_flags : RemoteFragmentFlags;
  frag_frame_id : RemoteFrameId;
  frag_index : Z;
  frag_count : Z;
  frag_bytes : bytes;
}.
#[export] Instance RemoteCarrierFragmentV1_eq_dec : EqDecision RemoteCarrierFragmentV1.
Proof. solve_decision. Defined.

(** fragment.rs:149-151 RemoteCarrierFragmentV1::encoded_len. *)
Definition encoded_len (f : RemoteCarrierFragmentV1) : Z :=
  REMOTE_CARRIER_FRAGMENT_HEADER_BYTES + zlen (frag_bytes f).

(** fragment.rs:168-203 RemoteCarrierFragmentV1::validate_shape. *)
Definition validate_shape (f : RemoteCarrierFragmentV1) : RemoteTransportResult unit :=
  if REMOTE_CARRIER_FRAGMENT_MAX_PAYLOAD_BYTES <? zlen (frag_bytes f)
  then Err (err_with_size FragmentPayloadCapExceeded (frag_lane f) (zlen (frag_bytes f))) else
  if frag_count f =? 0 then Err (err_with_lane ZeroFragmentCount (frag_lane f)) else
  if MAX_FRAGMENT_COUNT <? frag_count f
  then Err (err_with_lane FragmentCountExceeded (frag_lane f)) else
  if frag_count f <=? frag_index f
  then Err (err_with_lane FragmentIndexOutOfRange (frag_lane f)) else
  next ← add_in U16_MAX (frag_index f) 1;
  let is_final := next =? frag_count f in
  if negb (eqb (is_end (frag_flags f)) is_final)
  then Err (err_with_lane FragmentEndFlagMisplaced (frag_lane f)) else
  Ok tt.

(** fragment.rs:153-166 RemoteCarrierFragmentV1::encode. *)
Definition fragment_encode (f : RemoteCarrierFragmentV1) : RemoteTransportResult bytes :=
  _ ← validate_shape f;
  Ok (REMOTE_CARRIER_FRAGMENT_VERSION
      :: lane_id (frag_lane f)
      :: to_be 2 (frag_flag_bits (frag_flags f))
      ++ id_bytes (frag_frame_id f)
      ++ to_be 2 (frag_index f)
      ++ to_be 2 (frag_count f)
      ++ to_be 2 (zlen (frag_bytes f) mod 2 ^ 16)
      ++ frag_bytes f).

(** fragment.rs:207-280 RemoteCarrierFragmentV1::decode. *)
Definition fragment_decode (b : bytes) : RemoteTransportResult RemoteCarrierFragmentV1 :=
  if zlen b <? REMOTE_CARRIER_FRAGMENT_HEADER_BYTES then Err (err_new HeaderTooShort) else
  version ← index b FRAGMENT_OFFSET_VERSION;
  if negb (version =? REMOTE_CARRIER_FRAGMENT_VERSION)
  then Err (err_new UnsupportedVersion) else
  lane_byte ← index b FRAGMENT_OFFSET_LANE;
  lane ← ok_or (from_lane_id lane_byte) (err_new UnknownLane);
  raw_flags ← read_u16_be b FRAGMENT_OFFSET_FLAGS;
  flags ← ok_or (frag_flags_from_bits raw_flags) (err_with_lane UnknownFlagBit lane);
  frame_id_bytes ← slice b FRAGMENT_OFFSET_FRAME_ID (FRAGMENT_OFFSET_FRAME_ID + 16);
  id ← map_err (tag_protocol_id_bytes kind.Frame frame_id_bytes)
               (err_with_lane FragmentConflict lane);
  fragment_index ← read_u16_be b FRAGMENT_OFFSET_INDEX;
  fragment_count ← read_u16_be b FRAGMENT_OFFSET_COUNT;
  declared_len ← read_u16_be b FRAGMENT_OFFSET_PAYLOAD_LENGTH;
  if REMOTE_CARRIER_FRAGMENT_MAX_PAYLOAD_BYTES <? declared_len
  then Err (err_with_size FragmentPayloadCapExceeded lane declared_len) else
  actual ← sub_in (zlen b) REMOTE_CARRIER_FRAGMENT_HEADER_BYTES;
  if declared_len <? actual then Err (err_with_lane TrailingBytes lane) else
  if actual <? declared_len then Err (err_with_lane FragmentLengthMismatch lane) else
  payload ← slice_from b REMOTE_CARRIER_FRAGMENT_HEADER_BYTES;
  let fragment := mkFragment lane flags id fragment_index fragment_count payload in
  _ ← validate_shape fragment;
  Ok fragment.

(** The body of the loop of [fragment_frame] at one index. *)
Definition fragment_at (lane : RemoteLane) (id : RemoteFrameId) (serialized : bytes)
    (count : Z) (index : Z) : RemoteTransportResult RemoteCarrierFragmentV1 :=
  let start := index * REMOTE_CARRIER_FRAGMENT_MAX_PAYLOAD_BYTES in
  let stop := Z.min (start + REMOTE_CARRIER_FRAGMENT_MAX_PAYLOAD_BYTES) (zlen serialized) in
  let is_final := index + 1 =? count in
  part ← slice serialized start stop;
  Ok (mkFragment lane (if is_final then frag_flags_end else frag_flags_empty)
                 id index count part).

(** Collect a loop's pushed values, stopping at the first failure. *)
Fixpoint mapM_result {E A B} (f : A -> result E B) (l : list A) : result E (list B) :=
  match l with
  | [] => Ok []
  | a :: l => b ← f a; bs ← mapM_result f l; Ok (b :: bs)
  end.

(** fragment.rs:288-336 fragment_frame. *)
Definition fragment_frame (lane : RemoteLane) (id : RemoteFrameId) (serialized : bytes)
    : RemoteTransportResult (list RemoteCarrierFragmentV1) :=
  if zlen serialized <? REMOTE_TRANSPORT_FRAME_HEADER_BYTES
  then Err (err_with_lane HeaderTooShort lane) else
  if MAX_SERIALIZED_FRAME_BYTES <? zlen serialized
  then Err (err_with_size PayloadCapExceeded lane (zlen serialized)) else
  let count := Z.max (div_ceil (zlen serialized) REMOTE_CARRIER_FRAGMENT_MAX_PAYLOAD_BYTES) 1 in
  if MAX_FRAGMENT_COUNT <? count then Err (err_with_lane FragmentCountExceeded lane) else
  mapM_result (fragment_at lane id serialized count) (seqZ 0 count).

(** ** Correctness of the fragment codec *)

Record wf_fragment (f : RemoteCarrierFragmentV1) : Prop := {
  wff_flags : frag_flags_from_bits (frag_flag_bits (frag_flags f)) = Some (frag_flags f);
  wff_flags_u16 : is_u16 (frag_flag_bits (frag_flags f));
  wff_id : wf_id (frag_frame_id f);
  wff_index : is_u16 (frag_index f);
  wff_count : is_u16 (frag_count f);
  wff_bytes : all_u8 (frag_bytes f);
  wff_shape : validate_shape f = Ok tt;
}.

Lemma frag_flags_from_bits_inv bits f :
  frag_flags_from_bits bits = Some f -> frag_flag_bits f = bits.
Proof. unfold frag_flags_from_bits. destruct (negb _); [done|]. by intros [= <-]. Qed.

Lemma validate_shape_inv f :
  validate_shape f = Ok tt ->
  zlen (frag_bytes f) <= REMOTE_CARRIER_FRAGMENT_MAX_PAYLOAD_BYTES /\
  frag_count f <> 0 /\ frag_count f <= MAX_FRAGMENT_COUNT /\ frag_index f < frag_count f /\
  is_end (frag_flags f) = (frag_index f + 1 =? frag_count f).
Proof.
  unfold validate_shape. intros H. ok_inv H.
  apply add_in_Ok in B as [_ ->]. apply negb_false_iff, eqb_prop in G3.
  apply Z.ltb_ge in G, G1. apply Z.eqb_neq in G0. apply Z.leb_gt in G2. done.
Qed.

Lemma validate_shape_ok f :
  0 <= frag_index f ->
  zlen (frag_bytes f) <= REMOTE_CARRIER_FRAGMENT_MAX_PAYLOAD_BYTES ->
  frag_count f <= MAX_FRAGMENT_COUNT -> frag_index f < frag_count f ->
  is_end (frag_flags f) = (frag_index f + 1 =? frag_count f) ->
  validate_shape f = Ok tt.
Proof.
  intros H0 H1 H2 H3 H4. unfold validate_shape.
  rewrite (proj2 (Z.ltb_ge _ _)) by lia. rewrite (proj2 (Z.eqb_neq _ _)) by lia.
  rewrite (proj2 (Z.ltb_ge _ _)) by lia. rewrite (proj2 (Z.leb_gt _ _)) by lia.
  unfold add_in, U16_MAX. unfold MAX_FRAGMENT_COUNT in H2.
  rewrite (proj2 (Z.leb_le _ _)) by lia. rewrite bind_Ok_l, H4, eqb_reflx. done.
Qed.

Lemma validate_shape_no_panic f : validate_shape f <> Panic.
Proof.
  unfold validate_shape. do 4 (no_panic1; []). repeat no_panic1.
  apply Z.ltb_ge in G1. apply Z.leb_gt in G2. unfold add_in, U16_MAX, MAX_FRAGMENT_COUNT in *.
  rewrite (proj2 (Z.leb_le _ _)) by lia. done.
Qed.

Definition fragment_wire (version lane : Z) (flags id idx cnt len payload : bytes) : bytes :=
  version :: lane :: flags ++ id ++ idx ++ cnt ++ len ++ payload.

Lemma fragment_wire_zlen v l flags id idx cnt len payload :
  zlen flags = 2 -> zlen id = 16 -> zlen idx = 2 -> zlen cnt = 2 -> zlen len = 2 ->
  zlen (fragment_wire v l flags id idx cnt len payload) = 26 + zlen payload.
Proof. intros. unfold fragment_wire. autorewrite with bytes. lia. Qed.

Lemma fragment_encode_wf f :
  wf_fragment f ->
  fragment_encode f =
    Ok (fragment_wire 1 (lane_id (frag_lane f)) (to_be 2 (frag_flag_bits (frag_flags f)))
          (id_bytes (frag_frame_id f)) (to_be 2 (frag_index f)) (to_be 2 (frag_count f))
          (to_be 2 (zlen (frag_bytes f))) (frag_bytes f)).
Proof.
  intros Hf. unfold fragment_encode. rewrite wff_shape by done. rewrite bind_Ok_l.
  destruct (validate_shape_inv f (wff_shape f Hf)) as (Hl & _).
  pose proof (zlen_nonneg (frag_bytes f)).
  change REMOTE_CARRIER_FRAGMENT_MAX_PAYLOAD_BYTES with 65471 in Hl.
  rewrite Z.mod_small by (change (2 ^ 16) with 65536; lia).
  done.
Qed.

Ltac unfold_fragment_offsets :=
  unfold REMOTE_CARRIER_FRAGMENT_HEADER_BYTES, FRAGMENT_OFFSET_VERSION, FRAGMENT_OFFSET_LANE,
    FRAGMENT_OFFSET_FLAGS, FRAGMENT_OFFSET_FRAME_ID, FRAGMENT_OFFSET_INDEX,
    FRAGMENT_OFFSET_COUNT, FRAGMENT_OFFSET_PAYLOAD_LENGTH, slice_from in *.

(** Reading a laid-out fragment field by field. *)
Lemma fragment_decode_wire v l flags id idx cnt len payload :
  zlen flags = 2 -> zlen id = 16 -> zlen idx = 2 -> zlen cnt = 2 -> zlen len = 2 ->
  fragment_decode (fragment_wire v l flags id idx cnt len payload) =
  if negb (v =? 1) then Err (err_new UnsupportedVersion) else
  lane ← ok_or (from_lane_id l) (err_new UnknownLane);
  fl ← ok_or (frag_flags_from_bits (from_be flags)) (err_with_lane UnknownFlagBit lane);
  fid ← map_err (tag_protocol_id_bytes kind.Frame id) (err_with_lane FragmentConflict lane);
  if REMOTE_CARRIER_FRAGMENT_MAX_PAYLOAD_BYTES <? from_be len
  then Err (err_with_size FragmentPayloadCapExceeded lane (from_be len)) else
  if from_be len <? zlen payload then Err (err_with_lane TrailingBytes lane) else
  if zlen payload <? from_be len then Err (err_with_lane FragmentLengthMismatch lane) else
  _ ← validate_shape (mkFragment lane fl fid (from_be idx) (from_be cnt) payload);
  Ok (mkFragment lane fl fid (from_be idx) (from_be cnt) payload).
Proof.
  intros Hf Hi Hx Hc Hl. unfold fragment_decode. pose proof (zlen_nonneg payload).
  rewrite fragment_wire_zlen by done. unfold_fragment_offsets.
  rewrite (proj2 (Z.ltb_ge _ _)) by lia.
  rewrite fragment_wire_zlen by done. unfold fragment_wire.
  rewrite (index_head _ _ 0) by done. rewrite bind_Ok_l.
  change REMOTE_CARRIER_FRAGMENT_VERSION with 1. destruct (negb (v =? 1)); [done|].
  rewrite (index_cons _ _ 1) by lia. rewrite (index_head _ _ (1 - 1)) by lia. rewrite bind_Ok_l.
  destruct (from_lane_id l) as [lane|]; [cbn [ok_or]; rewrite !bind_Ok_l|done].
  rewrite (read_u16_slice _ 2 flags) by (read_field; done). rewrite bind_Ok_l.
  destruct (frag_flags_from_bits (from_be flags)) as [fl|];
    [cbn [ok_or]; rewrite !bind_Ok_l|done].
  replace (slice _ 4 (4 + 16)) with (@Ok RemoteTransportError bytes id)
    by (symmetry; read_field; done). rewrite bind_Ok_l.
  destruct (map_err (tag_protocol_id_bytes kind.Frame id) _) as [fid| |]; [|done|done].
  rewrite !bind_Ok_l.
  rewrite (read_u16_slice _ 20 idx) by (read_field; done). rewrite bind_Ok_l.
  rewrite (read_u16_slice _ 22 cnt) by (read_field; done). rewrite bind_Ok_l.
  rewrite (read_u16_slice _ 24 len) by (read_field; done). rewrite bind_Ok_l.
  destruct (_ <? from_be len); [done|].
  rewrite sub_in_le by lia. rewrite bind_Ok_l.
  replace (26 + zlen payload - 26) with (zlen payload) by lia.
  destruct (from_be len <? zlen payload); [done|].
  destruct (zlen payload <? from_be len); [done|].
  replace (slice _ 26 _) with (@Ok RemoteTransportError bytes payload)
    by (symmetry; read_field; done). done.
Qed.

Lemma fragment_decode_encode (f : RemoteCarrierFragmentV1) :
  wf_fragment f ->
  exists b, fragment_encode f = Ok b /\ zlen b = encoded_len f /\
            zlen b <= LANE_FRAGMENT_TOTAL_BYTES /\ fragment_decode b = Ok f.
Proof.
  intros Hf. eexists. split; [by apply fragment_encode_wf|].
  pose proof (wf_id_zlen _ (wff_id f Hf)) as Hid.
  destruct (validate_shape_inv f (wff_shape f Hf)) as (Hl & _).
  pose proof (zlen_nonneg (frag_bytes f)).
  change REMOTE_CARRIER_FRAGMENT_MAX_PAYLOAD_BYTES with 65471 in Hl.
  change LANE_FRAGMENT_TOTAL_BYTES with 65497.
  rewrite fragment_wire_zlen by zlen_solve.
  split; [done|]. split; [lia|].
  rewrite fragment_decode_wire by zlen_solve.
  pose proof (wff_flags_u16 f Hf). pose proof (wff_index f Hf). pose proof (wff_count f Hf).
  unfold is_u16, U16_MAX in *.
  rewrite !from_be_to_be_small by (change (256 ^ Z.of_nat 2) with 65536; lia).
  cbn [negb Z.eqb Pos.eqb]. rewrite from_lane_id_lane_id. cbn [ok_or]. rewrite bind_Ok_l.
  rewrite wff_flags by done. cbn [ok_or]. rewrite bind_Ok_l.
  rewrite tag_wf_id by apply Hf. cbn [map_err]. rewrite bind_Ok_l.
  change REMOTE_CARRIER_FRAGMENT_MAX_PAYLOAD_BYTES with 65471.
  rewrite (proj2 (Z.ltb_ge _ _)) by lia. rewrite Z.ltb_irrefl.
  pose proof (wff_shape f Hf) as Hs. destruct f; cbn in *. rewrite Hs. done.
Qed.

(** Encoding then decoding a well-formed fragment gives it back, and its
    encoding fits the carrier's fragment budget. *)
Lemma fragment_roundtrip (f : RemoteCarrierFragmentV1) :
  wf_fragment f ->
  exists b, fragment_encode f = Ok b /\ zlen b = encoded_len f /\
            zlen b <= LANE_FRAGMENT_TOTAL_BYTES /\ fragment_decode b = Ok f.
Proof. apply fragment_decode_encode. Qed.

Lemma fragment_wire_of_slices {E} b v l flags id idx cnt len payload :
  index (E:=E) b 0 = Ok v -> index (E:=E) b 1 = Ok l ->
  slice (E:=E) b 2 4 = Ok flags -> slice (E:=E) b 4 20 = Ok id ->
  slice (E:=E) b 20 22 = Ok idx -> slice (E:=E) b 22 24 = Ok cnt ->
  slice (E:=E) b 24 26 = Ok len -> slice (E:=E) b 26 (zlen b) = Ok payload ->
  b = fragment_wire v l flags id idx cnt len payload.
Proof.
  intros H0 H1 Hf Hi Hx Hc Hl Hp. apply index_inv in H0, H1.
  pose proof (slice_split _ _ _ _ _ _ Hl Hp) as K.
  apply (slice_split _ _ _ _ _ _ Hc) in K. apply (slice_split _ _ _ _ _ _ Hx) in K.
  apply (slice_split _ _ _ _ _ _ Hi) in K. apply (slice_split _ _ _ _ _ _ Hf) in K.
  apply (slice_split _ _ _ _ _ _ H1) in K. apply (slice_split _ _ _ _ _ _ H0) in K.
  rewrite slice_all in K by done. by injection K.
Qed.

Lemma u16_of_slice s : all_u8 s -> length s = 2%nat -> is_u16 (from_be s) /\ to_be 2 (from_be s) = s.
Proof.
  intros Hu Hl. split; [|by apply to_be_from_be_n].
  pose proof (from_be_bound s Hu) as Hb. rewrite Hl in Hb.
  change (256 ^ Z.of_nat 2) with 65536 in Hb. unfold is_u16, U16_MAX. lia.
Qed.

Lemma fragment_decode_inv b f :
  all_u8 b -> fragment_decode b = Ok f -> wf_fragment f /\ fragment_encode f = Ok b.
Proof.
  intros Hb Hd. unfold fragment_decode in Hd. ok_inv Hd. subst f. unfold_fragment_offsets.
  apply negb_false_iff, Z.eqb_eq in G0. apply Z.ltb_ge in G1, G2, G3.
  apply ok_or_Ok in B1, B3. apply from_lane_id_Some in B1.
  apply read_u16_inv in B2 as (sf & Sf & ->), B6 as (sx & Sx & ->), B7 as (sc & Sc & ->),
    B8 as (sl & Sl & ->).
  destruct (tag_protocol_id_bytes kind.Frame x4) as [fid| |] eqn:Htag; try done.
  cbn in B5. injection B5 as <-. apply tag_Ok_inv in Htag as [Hid Hz]. subst x4.
  apply sub_in_Ok in B9 as [Hlen ->].
  pose proof (fragment_wire_of_slices _ _ _ _ _ _ _ _ _ B B0 Sf B4 Sx Sc Sl B10) as Hw.
  pose proof (slice_u8 _ _ _ _ Hb Sf) as Uf. pose proof (slice_u8 _ _ _ _ Hb Sx) as Ux.
  pose proof (slice_u8 _ _ _ _ Hb Sc) as Uc. pose proof (slice_u8 _ _ _ _ Hb Sl) as Ul.
  pose proof (slice_u8 _ _ _ _ Hb B4) as Ui. pose proof (slice_u8 _ _ _ _ Hb B10) as Up.
  apply slice_inv in Sf as [Lf _], Sx as [Lx _], Sc as [Lc _], Sl as [Ll _],
    B4 as [Li _], B10 as [Lp _].
  unfold zlen in Lf, Lx, Lc, Ll, Li.
  destruct (u16_of_slice sf Uf ltac:(lia)) as [If Tf].
  destruct (u16_of_slice sx Ux ltac:(lia)) as [Ix Tx].
  destruct (u16_of_slice sc Uc ltac:(lia)) as [Ic Tc].
  destruct (u16_of_slice sl Ul ltac:(lia)) as [_ Tl].
  apply frag_flags_from_bits_inv in B3 as Hbits.
  match goal with H : validate_shape ?g = Ok ?u |- _ => destruct u; set (f := g) in * end.
  assert (wf_fragment f) as Hwf.
  { split; cbn; rewrite ?Hbits; try done. split; [lia|done]. }
  split; [done|]. rewrite fragment_encode_wf by done.
  cbn [f frag_lane frag_flags frag_frame_id frag_index frag_count frag_bytes].
  match goal with L : zlen ?p = zlen b - 26 |- _ =>
    replace (zlen p) with (from_be sl) by lia end.
  rewrite Hbits, Tf, Tx, Tc, Tl. rewrite Hw, G0, B1. done.
Qed.


(** No input makes the decoder index or slice out of range. *)
Lemma fragment_decode_no_panic (b : bytes) : fragment_decode b <> Panic.
Proof.
  unfold fragment_decode. unfold_fragment_offsets.
  destruct (Z.ltb_spec (zlen b) 26) as [|Hlen]; [done|].
  repeat no_panic1;
    first [ apply index_no_panic; lia | apply slice_no_panic; lia
          | apply read_u16_no_panic; lia | apply map_err_no_panic, tag_no_panic
          | apply validate_shape_no_panic | rewrite sub_in_le by lia; done ].
Qed.

(** Fragment decoding is total and canonical: every byte string is refused
    with an error or decodes to a valid fragment whose encoding is that byte
    string; the decoder never panics. *)
Lemma fragment_decode_canonical (b : bytes) :
  all_u8 b ->
  match fragment_decode b with
  | Ok f => wf_fragment f /\ fragment_encode f = Ok b
  | Err _ => True
  | Panic => False
  end.
Proof.
  intros Hb. destruct (fragment_decode b) as [f| |] eqn:Hd; [by apply fragment_decode_inv|done|].
  by apply fragment_decode_no_panic in Hd.
Qed.

(** The fragment codec is exact.  Every well-formed fragment encodes within the
    carrier's fragment budget and decodes back to itself; and every byte string is
    refused or decodes to a valid fragment whose encoding is that byte string.  The
    decoder never panics. *)
Theorem fragment_codec_exact :
  (forall (f : RemoteCarrierFragmentV1),
     wf_fragment f ->
     exists b, fragment_encode f = Ok b /\ zlen b = encoded_len f /\
               zlen b <= LANE_FRAGMENT_TOTAL_BYTES /\ fragment_decode b = Ok f) /\
  (forall (b : bytes),
     all_u8 b ->
     match fragment_decode b with
     | Ok f => wf_fragment f /\ fragment_encode f = Ok b
     | Err _ => True
     | Panic => False
     end).
Proof. split; [exact fragment_roundtrip|exact fragment_decode_canonical]. Qed.

(** ** The split *)

(** What every fragment of a split looks like at its position. *)
Definition fragment_of (lane : RemoteLane) (id : RemoteFrameId) (count i : Z)
    (f : RemoteCarrierFragmentV1) : Prop :=
  frag_lane f = lane /\ frag_frame_id f = id /\ frag_index f = i /\ frag_count f = count /\
  validate_shape f = Ok tt /\
  (i + 1 < count -> zlen (frag_bytes f) = REMOTE_CARRIER_FRAGMENT_MAX_PAYLOAD_BYTES) /\
  frag_flags f = (if i + 1 =? count then frag_flags_end else frag_flags_empty).

Section split.
Variables (lane : RemoteLane) (id : RemoteFrameId) (ser : bytes) (count : Z).
Abbreviation M := REMOTE_CARRIER_FRAGMENT_MAX_PAYLOAD_BYTES.
Hypothesis Hcount : 1 <= count <= MAX_FRAGMENT_COUNT.
Hypothesis Hlow : (count - 1) * M < zlen ser.
Hypothesis Hhigh : zlen ser <= count * M.

Lemma fragment_at_spec i :
  0 <= i < count ->
  exists f, fragment_at lane id ser count i = Ok f /\ fragment_of lane id count i f /\
    frag_flags f = (if i + 1 =? count then frag_flags_end else frag_flags_empty) /\
    frag_bytes f = take (Z.to_nat M) (drop (Z.to_nat (i * M)) ser).
Proof using Hcount Hlow.
  intros Hi. unfold fragment_at. change M with 65471 in *.
  set (stop := Z.min (i * 65471 + 65471) (zlen ser)).
  assert (i * 65471 <= stop <= zlen ser) as [Hs1 Hs2] by (subst stop; nia).
  rewrite slice_ok by lia. rewrite bind_Ok_l.
  set (part := take (Z.to_nat (stop - i * 65471)) (drop (Z.to_nat (i * 65471)) ser)).
  assert (zlen part = stop - i * 65471) as Hpart.
  { subst part. unfold zlen in *. rewrite length_take, length_drop. lia. }
  eexists. split; [done|]. split.
  - unfold fragment_of; cbn. split_and!; try done.
    + apply validate_shape_ok; cbn; change M with 65471; try lia.
      by destruct (i + 1 =? count).
    + intros Hlt. change M with 65471. rewrite Hpart. subst stop. nia.
  - cbn. split; [done|]. subst part.
    destruct (Z.le_gt_cases (i * 65471 + 65471) (zlen ser)).
    + subst stop. f_equal. lia.
    + subst stop. unfold zlen in *.
      rewrite !take_ge by (rewrite length_drop; lia). done.
Qed.

Lemma fragments_from n k :
  0 <= k -> k + Z.of_nat n = count ->
  exists frs, mapM_result (fragment_at lane id ser count) (seqZ k (Z.of_nat n)) = Ok frs /\
    concat (frag_bytes <$> frs) = drop (Z.to_nat (k * M)) ser /\
    length frs = n /\
    forall i f, frs !! i = Some f -> fragment_of lane id count (k + Z.of_nat i) f /\
      frag_flags f = (if k + Z.of_nat i + 1 =? count then frag_flags_end else frag_flags_empty).
Proof using Hcount Hlow Hhigh.
  revert k. induction n as [|n IH]; intros k Hk Hn.
  - exists []. split; [done|]. split; [|done]. cbn. symmetry. apply drop_ge.
    change M with 65471 in *. unfold zlen in *. nia.
  - rewrite seqZ_cons by lia. replace (Z.pred (Z.of_nat (S n))) with (Z.of_nat n) by lia.
    destruct (fragment_at_spec k ltac:(lia)) as (f & Hf & Hof & Hfl & Hb).
    destruct (IH (Z.succ k) ltac:(lia) ltac:(lia)) as (frs & Hfrs & Hc & Hlen & Hall).
    exists (f :: frs). cbn [mapM_result]. rewrite Hf, bind_Ok_l, Hfrs, bind_Ok_l.
    split; [done|]. split.
    + rewrite fmap_cons. cbn [concat]. rewrite Hc, Hb.
      rewrite <- (take_drop (Z.to_nat M) (drop (Z.to_nat (k * M)) ser)) at 2.
      f_equal. rewrite drop_drop. f_equal. change M with 65471. lia.
    + split; [cbn; lia|]. intros [|i] g; cbn [lookup list_lookup].
      * intros [= <-]. by rewrite Z.add_0_r.
      * intros Hg. replace (k + Z.of_nat (S i)) with (Z.succ k + Z.of_nat i) by lia. by apply Hall.
Qed.
End split.

(** The number of fragments of a serialized frame. *)
Definition fragment_total (n : Z) : Z :=
  Z.max (div_ceil n REMOTE_CARRIER_FRAGMENT_MAX_PAYLOAD_BYTES) 1.

Lemma fragment_total_bounds n :
  REMOTE_TRANSPORT_FRAME_HEADER_BYTES <= n <= MAX_SERIALIZED_FRAME_BYTES ->
  1 <= fragment_total n <= MAX_FRAGMENT_COUNT /\
  (fragment_total n - 1) * REMOTE_CARRIER_FRAGMENT_MAX_PAYLOAD_BYTES < n /\
  n <= fragment_total n * REMOTE_CARRIER_FRAGMENT_MAX_PAYLOAD_BYTES.
Proof.
  change REMOTE_TRANSPORT_FRAME_HEADER_BYTES with 72.
  change MAX_SERIALIZED_FRAME_BYTES with 524360. unfold fragment_total, div_ceil.
  change REMOTE_CARRIER_FRAGMENT_MAX_PAYLOAD_BYTES with 65471.
  change MAX_FRAGMENT_COUNT with 9. intros Hn.
  pose proof (Z.div_mod (n + 65471 - 1) 65471 ltac:(lia)).
  pose proof (Z.mod_pos_bound (n + 65471 - 1) 65471 ltac:(lia)). lia.
Qed.

(** The shape of a split. *)
Lemma fragment_frame_facts (lane : RemoteLane) (id : RemoteFrameId) (ser : bytes) :
  REMOTE_TRANSPORT_FRAME_HEADER_BYTES <= zlen ser <= MAX_SERIALIZED_FRAME_BYTES ->
  exists frs, fragment_frame lane id ser = Ok frs /\
    concat (frag_bytes <$> frs) = ser /\
    1 <= zlen frs <= MAX_FRAGMENT_COUNT /\
    forall i f, frs !! i = Some f -> fragment_of lane id (zlen frs) (Z.of_nat i) f /\
      (is_end (frag_flags f) = true <-> S i = length frs).
Proof.
  intros Hn. destruct (fragment_total_bounds _ Hn) as (Hc & Hlo & Hhi).
  unfold fragment_frame. fold (fragment_total (zlen ser)).
  rewrite (proj2 (Z.ltb_ge _ _)) by lia. rewrite (proj2 (Z.ltb_ge _ _)) by lia.
  rewrite (proj2 (Z.ltb_ge _ _)) by lia.
  destruct (fragments_from lane id ser _ Hc Hlo Hhi (Z.to_nat (fragment_total (zlen ser))) 0)
    as (frs & Hfrs & Hcat & Hlen & Hall); [lia|lia|].
  rewrite Z2Nat.id in Hfrs by lia. exists frs.
  assert (zlen frs = fragment_total (zlen ser)) as Hz by (unfold zlen at 1; lia).
  rewrite Hz. split; [done|]. split; [done|]. split; [done|].
  intros i f Hi. destruct (Hall i f Hi) as [Hof Hfl]. rewrite Z.add_0_l in *.
  split; [done|]. rewrite Hfl. destruct (Z.eqb_spec (Z.of_nat i + 1) (fragment_total (zlen ser)));
    cbn; split; (done || lia || (intros; unfold zlen in Hz; lia)).
Qed.

(** Splitting a serialized frame always succeeds for the sizes a frame can
    have: at most nine fragments, every one valid and numbered by its position,
    all but the last exactly full, END on the last alone, and their payloads
    concatenate to the frame. *)
Theorem fragment_frame_spec (lane : RemoteLane) (id : RemoteFrameId) (ser : bytes) :
  REMOTE_TRANSPORT_FRAME_HEADER_BYTES <= zlen ser <= MAX_SERIALIZED_FRAME_BYTES ->
  exists frs, fragment_frame lane id ser = Ok frs /\
    concat (frag_bytes <$> frs) = ser /\
    1 <= zlen frs <= MAX_FRAGMENT_COUNT /\
    forall i f, frs !! i = Some f -> fragment_of lane id (zlen frs) (Z.of_nat i) f /\
      (is_end (frag_flags f) = true <-> S i = length frs).
Proof. apply fragment_frame_facts. Qed.

(** ** Witnesses *)

Definition sample_fragment : RemoteCarrierFragmentV1 :=
  mkFragment Interactive frag_flags_end sample_id 1 2 [7; 8; 9].

Lemma sample_fragment_wf : wf_fragment sample_fragment.
Proof.
  split; try done; try apply sample_id_wf. repeat constructor; unfold U8_MAX; lia.
Qed.

Lemma fragment_codec_exact_witness :
  exists b, fragment_encode sample_fragment = Ok b /\ zlen b = 29 /\
            fragment_decode b = Ok sample_fragment.
Proof.
  destruct (proj1 fragment_codec_exact sample_fragment sample_fragment_wf) as (b & H1 & H2 & _ & H3).
  by exists b.
Defined.

Lemma fragment_frame_spec_witness :
  exists frs, fragment_frame Interactive sample_id (replicate 72 5) = Ok frs /\
    concat (frag_bytes <$> frs) = replicate 72 5 /\ zlen frs <= 9.
Proof.
  destruct (fragment_frame_spec Interactive sample_id (replicate 72 5)) as (frs & H1 & H2 & H3 & _);
    [by vm_compute|].
  exists frs. split; [done|]. split; [done|]. apply H3.
Defined.
