(* ===== verification/Reassembly.v ===== *)
(** Bounded per-peer reassembly: [RemoteFragmentReassembler]
    ([remote_transport/fragment.rs], lines 338-611), the only path by which a
    received frame becomes dispatchable.

    [completed] is a [HashMap], whose iteration order is unspecified: eviction of
    the oldest entry takes the order as a parameter, a permutation of the map's
    entries ([HashOrder]). *)

From S2P Require Import Prelude.
From S2P Require Import Lane.
From S2P Require Import ProtocolId.
From S2P Require Import Frame.
From S2P Require Import Streams.
From S2P Require Import Fragment.
From stdpp Require Import options.
Set Warnings "-clear-no-such-hyp".

(** fragment.rs:74-74 MAX_INCOMPLETE_FRAMES_PER_PEER. *)
Definition MAX_INCOMPLETE_FRAMES_PER_PEER : Z := 16.
(** fragment.rs:76-76 MAX_REASSEMBLY_BYTES_PER_PEER. *)
Definition MAX_REASSEMBLY_BYTES_PER_PEER : Z := 8 * 1024 * 1024.
(** fragment.rs:78-78 REASSEMBLY_DEADLINE_MS. *)
Definition REASSEMBLY_DEADLINE_MS : Z := 5000.
(** fragment.rs:90-90 MAX_COMPLETED_FRAME_MEMORY. *)
Definition MAX_COMPLETED_FRAME_MEMORY : Z := 64.

(** fragment.rs:338-345 PartialFrame. *)
Record PartialFrame := mkPartial {
  pf_lane : RemoteLane;
  pf_fragment_count : Z;
  pf_slots : list (option bytes);
  pf_buffered_bytes : Z;
  pf_first_seen_ms : Z;
}.

(** fragment.rs:359-367 CompletedFrame. *)
Record CompletedFrame := mkCompleted {
  cf_at_ms : Z;
  cf_header : bytes;
}.

(** fragment.rs:369-381 RemoteFragmentReassembler. *)
Record RemoteFragmentReassembler := mkReassembler {
  ra_peer_origin : RemoteStreamOrigin;
  ra_sequences : RemoteStreamSequences;
  ra_partials : gmap bytes PartialFrame;
  ra_completed : gmap bytes CompletedFrame;
  ra_buffered_bytes : Z;
  ra_max_frames : Z;
  ra_max_bytes : Z;
  ra_deadline_ms : Z;
}.

(** The iteration order of a [HashMap]: some order of its entries. *)
Class HashOrder := {
  hash_iter : gmap bytes CompletedFrame -> list (bytes * CompletedFrame);
  hash_iter_perm : forall m, hash_iter m ≡ₚ map_to_list m;
}.

(** fragment.rs:388-399 RemoteFragmentReassembler::new. *)
Definition reassembler_new (peer_origin : RemoteStreamOrigin) : RemoteFragmentReassembler :=
  mkReassembler peer_origin (sequences_new peer_origin) ∅ ∅ 0
    MAX_INCOMPLETE_FRAMES_PER_PEER MAX_REASSEMBLY_BYTES_PER_PEER REASSEMBLY_DEADLINE_MS.

(** fragment.rs:411-414 RemoteFragmentReassembler::with_max_active_streams. *)
Definition reassembler_with_max_active (r : RemoteFragmentReassembler) (n : Z) :=
  mkReassembler (ra_peer_origin r) (with_max_active_streams (ra_sequences r) n)
    (ra_partials r) (ra_completed r) (ra_buffered_bytes r) (ra_max_frames r)
    (ra_max_bytes r) (ra_deadline_ms r).
(** fragment.rs:417-420 RemoteFragmentReassembler::with_deadline_ms. *)
Definition reassembler_with_deadline (r : RemoteFragmentReassembler) (deadline : Z) :=
  mkReassembler (ra_peer_origin r) (ra_sequences r) (ra_partials r) (ra_completed r)
    (ra_buffered_bytes r) (ra_max_frames r) (ra_max_bytes r) deadline.

(** Field updates. *)
Definition set_partials (r : RemoteFragmentReassembler) (m : gmap bytes PartialFrame) (b : Z) :=
  mkReassembler (ra_peer_origin r) (ra_sequences r) m (ra_completed r) b
    (ra_max_frames r) (ra_max_bytes r) (ra_deadline_ms r).
Definition set_sequences (r : RemoteFragmentReassembler) (s : RemoteStreamSequences) :=
  mkReassembler (ra_peer_origin r) s (ra_partials r) (ra_completed r) (ra_buffered_bytes r)
    (ra_max_frames r) (ra_max_bytes r) (ra_deadline_ms r).
Definition set_completed (r : RemoteFragmentReassembler) (m : gmap bytes CompletedFrame) :=
  mkReassembler (ra_peer_origin r) (ra_sequences r) (ra_partials r) m (ra_buffered_bytes r)
    (ra_max_frames r) (ra_max_bytes r) (ra_deadline_ms r).

(** fragment.rs:422-424 RemoteFragmentReassembler::incomplete_frames. *)
Definition incomplete_frames (r : RemoteFragmentReassembler) : Z :=
  Z.of_nat (size (ra_partials r)).
(** fragment.rs:451-453 RemoteFragmentReassembler::remembered_frames. *)
Definition remembered_frames (r : RemoteFragmentReassembler) : Z :=
  Z.of_nat (size (ra_completed r)).

Definition partial_expired (now_ms deadline : Z) (p : PartialFrame) : bool :=
  deadline <=? saturating_sub now_ms (pf_first_seen_ms p).

(** fragment.rs:431-448 RemoteFragmentReassembler::expire. *)
Definition reassembler_expire (r : RemoteFragmentReassembler) (now_ms : Z)
    : RemoteFragmentReassembler * RemoteTransportResult Z :=
  let deadline := ra_deadline_ms r in
  let before := Z.of_nat (size (ra_partials r)) in
  let freed := map_sum (fun _ p => if partial_expired now_ms deadline p
                                   then pf_buffered_bytes p else 0) (ra_partials r) in
  let kept := filter (fun kp => partial_expired now_ms deadline kp.2 = false) (ra_partials r) in
  match sub_in (ra_buffered_bytes r) freed with
  | Ok buffered =>
      let r := set_partials r kept buffered in
      let r := set_completed r
        (filter (fun kd => saturating_sub now_ms (cf_at_ms kd.2) < deadline) (ra_completed r)) in
      (r, sub_in before (Z.of_nat (size kept)))
  | Err e => (r, Err e)
  | Panic => (set_partials r kept (ra_buffered_bytes r), Panic)
  end.

(** [Iterator::min_by_key]: the first entry with the least key. *)
Definition min_by_key {A} (key : A -> Z) (l : list A) : option A :=
  match l with
  | [] => None
  | x :: l => Some (fold_left (fun best y => if key y <? key best then y else best) l x)
  end.

Section reassembler.
Context `{Sha256, HashOrder}.

(** fragment.rs:591-599 RemoteFragmentReassembler::accept. Make room in the completion memory. *)
Definition evict_oldest (m : gmap bytes CompletedFrame) : gmap bytes CompletedFrame :=
  if MAX_COMPLETED_FRAME_MEMORY <=? Z.of_nat (size m) then
    match min_by_key (fun kd => cf_at_ms kd.2) (hash_iter m) with
    | Some (oldest, _) => delete oldest m
    | None => m
    end
  else m.

(** fragment.rs:552-607 RemoteFragmentReassembler::accept. The tail of [accept],
    from the moment every slot is filled: decode, check identity against the
    completion memory, apply the stream rules, remember, dispatch. *)
Definition accept_complete (r : RemoteFragmentReassembler) (key : bytes) (lane : RemoteLane)
    (serialized : bytes) (now_ms : Z)
    : RemoteFragmentReassembler * RemoteTransportResult (option RemoteTransportFrameV1) :=
  match frame_decode serialized with
  | Err e => (r, Err e)
  | Panic => (r, Panic)
  | Ok frame =>
  if negb (bool_decide (frame_lane frame = lane) && bool_decide (id_bytes (frame_id frame) = key))
  then (r, Err (err_with_lane FragmentConflict lane)) else
  match slice (E:=RemoteTransportError) serialized 0 REMOTE_TRANSPORT_FRAME_HEADER_BYTES with
  | Err e => (r, Err e)
  | Panic => (r, Panic)
  | Ok header =>
  match ra_completed r !! key with
  | Some done =>
      (r, if decide (cf_header done = header) then Ok None
          else Err (err_with_lane FragmentConflict lane))
  | None =>
      let '(sequences, outcome) :=
        receive_stream (ra_peer_origin r) (ra_sequences r) (frame_lane frame)
          (frame_stream_id frame) (frame_stream_seq frame) (frame_flags frame) in
      let r := set_sequences r sequences in
      match outcome with
      | Err e => (r, Err e)
      | Panic => (r, Panic)
      | Ok _ =>
          (set_completed r (<[key := mkCompleted now_ms header]> (evict_oldest (ra_completed r))),
           Ok (Some frame))
      end
  end
  end
  end.

(** Concatenate the filled slots; [slot.expect("all slots filled")] panics on a
    hole. *)
Fixpoint join_slots (slots : list (option bytes)) : RemoteTransportResult bytes :=
  match slots with
  | [] => Ok []
  | None :: _ => Panic
  | Some b :: slots => rest ← join_slots slots; Ok (b ++ rest)
  end.

(** fragment.rs:489-551 RemoteFragmentReassembler::accept. The middle of [accept], once
    the fragment's frame has a partial: file the fragment in its slot. *)
Definition accept_into (r : RemoteFragmentReassembler) (is_new : bool)
    (fragment : RemoteCarrierFragmentV1) (now_ms : Z)
    : RemoteFragmentReassembler * RemoteTransportResult (option RemoteTransportFrameV1) :=
  let key := id_bytes (frag_frame_id fragment) in
  let lane := frag_lane fragment in
  let len := zlen (frag_bytes fragment) in
  let forget r := if is_new
    then set_partials r (delete key (ra_partials r)) (ra_buffered_bytes r) else r in
  match ra_partials r !! key with
  | None => (r, Panic)
  | Some partial =>
  if negb (bool_decide (pf_lane partial = lane))
     || negb (pf_fragment_count partial =? frag_count fragment)
  then (forget r, Err (err_with_lane FragmentConflict lane)) else
  match index (E:=RemoteTransportError) (pf_slots partial) (frag_index fragment) with
  | Err e => (r, Err e)
  | Panic => (r, Panic)
  | Ok (Some existing) =>
      (r, if decide (existing = frag_bytes fragment) then Ok None
          else Err (err_with_lane FragmentConflict lane))
  | Ok None =>
  if ra_max_bytes r <? ra_buffered_bytes r + len
  then (forget r, Err (err_with_size ReassemblyByteLimit lane len)) else
  if MAX_SERIALIZED_FRAME_BYTES <? pf_buffered_bytes partial + len
  then (r, Err (err_with_size ReassemblyByteLimit lane len)) else
  let partial := mkPartial (pf_lane partial) (pf_fragment_count partial)
    (<[Z.to_nat (frag_index fragment) := Some (frag_bytes fragment)]> (pf_slots partial))
    (pf_buffered_bytes partial + len) (pf_first_seen_ms partial) in
  let r := set_partials r (<[key := partial]> (ra_partials r)) (ra_buffered_bytes r + len) in
  if existsb (fun slot => match slot with None => true | Some _ => false end) (pf_slots partial)
  then (r, Ok None) else
  match sub_in (ra_buffered_bytes r) (pf_buffered_bytes partial) with
  | Err e => (r, Err e)
  | Panic => (set_partials r (delete key (ra_partials r)) (ra_buffered_bytes r), Panic)
  | Ok buffered =>
  let r := set_partials r (delete key (ra_partials r)) buffered in
  match join_slots (pf_slots partial) with
  | Err e => (r, Err e)
  | Panic => (r, Panic)
  | Ok serialized => accept_complete r key lane serialized now_ms
  end
  end
  end
  end.

(** fragment.rs:457-608 RemoteFragmentReassembler::accept. *)
Definition reassembler_accept (r : RemoteFragmentReassembler)
    (fragment : RemoteCarrierFragmentV1) (now_ms : Z)
    : RemoteFragmentReassembler * RemoteTransportResult (option RemoteTransportFrameV1) :=
  match validate_shape fragment with
  | Err e => (r, Err e)
  | Panic => (r, Panic)
  | Ok _ =>
  match reassembler_expire r now_ms with
  | (r, Err e) => (r, Err e)
  | (r, Panic) => (r, Panic)
  | (r, Ok _) =>
  let key := id_bytes (frag_frame_id fragment) in
  let lane := frag_lane fragment in
  if bool_decide (ra_partials r !! key = None) then
    if ra_max_frames r <=? Z.of_nat (size (ra_partials r))
    then (r, Err (err_with_lane ReassemblyFrameLimit lane)) else
    let fresh := mkPartial lane (frag_count fragment)
                   (replicate (Z.to_nat (frag_count fragment)) None) 0 now_ms in
    accept_into (set_partials r (<[key := fresh]> (ra_partials r)) (ra_buffered_bytes r))
      true fragment now_ms
  else accept_into r false fragment now_ms
  end
  end.
End reassembler.

(** ** The invariant *)

Definition slot_bytes (slot : option bytes) : Z :=
  match slot with Some b => zlen b | None => 0 end.
Definition slots_bytes (slots : list (option bytes)) : Z :=
  foldr (fun s acc => slot_bytes s + acc) 0 slots.
Definition slot_u8 (slot : option bytes) : Prop :=
  match slot with Some b => all_u8 b | None => True end.

Record wf_partial (p : PartialFrame) : Prop := {
  wp_len : zlen (pf_slots p) = pf_fragment_count p;
  wp_count : 1 <= pf_fragment_count p <= MAX_FRAGMENT_COUNT;
  wp_bytes : pf_buffered_bytes p = slots_bytes (pf_slots p);
  wp_hole : None ∈ pf_slots p;
  wp_u8 : Forall slot_u8 (pf_slots p);
  wp_cap : pf_buffered_bytes p <= MAX_SERIALIZED_FRAME_BYTES;
}.

Record reasm_inv (r : RemoteFragmentReassembler) : Prop := {
  ri_seq : seq_inv (ra_sequences r);
  ri_origin : sq_origin (ra_sequences r) = ra_peer_origin r;
  ri_partials : forall k p, ra_partials r !! k = Some p -> wf_partial p;
  ri_bytes : ra_buffered_bytes r = map_sum (fun _ p => pf_buffered_bytes p) (ra_partials r);
  ri_max_bytes : ra_buffered_bytes r <= Z.max 0 (ra_max_bytes r);
  ri_frames : Z.of_nat (size (ra_partials r)) <= Z.max 0 (ra_max_frames r);
  ri_completed : Z.of_nat (size (ra_completed r)) <= MAX_COMPLETED_FRAME_MEMORY;
}.

Lemma reasm_inv_new origin : reasm_inv (reassembler_new origin).
Proof.
  split; [apply seq_inv_new|done| |done..]. intros k p Hk. cbn in Hk. by rewrite lookup_empty in Hk.
Qed.

Lemma slot_bytes_nonneg s : 0 <= slot_bytes s.
Proof. destruct s; cbn; [apply zlen_nonneg|lia]. Qed.

Lemma slots_bytes_cons s l : slots_bytes (s :: l) = slot_bytes s + slots_bytes l.
Proof. done. Qed.

Lemma slots_bytes_nonneg slots : 0 <= slots_bytes slots.
Proof.
  induction slots as [|s l IH]; [done|]. rewrite slots_bytes_cons.
  pose proof (slot_bytes_nonneg s). lia.
Qed.

Lemma slots_bytes_insert slots i b :
  slots !! i = Some None ->
  slots_bytes (<[i := Some b]> slots) = slots_bytes slots + zlen b.
Proof.
  revert i. induction slots as [|s l IH]; intros [|i] Hi; try done.
  - injection Hi as ->. cbn [insert list_insert]. rewrite !slots_bytes_cons. cbn. lia.
  - cbn [insert list_insert]. rewrite !slots_bytes_cons.
    change (list_insert i (Some b) l) with (<[i := Some b]> l). rewrite IH by done. lia.
Qed.

Lemma slots_bytes_replicate n : slots_bytes (replicate n None) = 0.
Proof. induction n as [|n IH]; [done|]. cbn [replicate]. by rewrite slots_bytes_cons, IH. Qed.

Lemma wf_partial_nonneg p : wf_partial p -> 0 <= pf_buffered_bytes p.
Proof. intros Hp. rewrite wp_bytes by done. apply slots_bytes_nonneg. Qed.

Lemma partials_nonneg r :
  reasm_inv r -> forall k p, ra_partials r !! k = Some p -> 0 <= pf_buffered_bytes p.
Proof. intros Hr k p Hk. eapply wf_partial_nonneg, ri_partials; eauto. Qed.

Lemma wf_partial_new lane count now :
  1 <= count <= MAX_FRAGMENT_COUNT ->
  wf_partial (mkPartial lane count (replicate (Z.to_nat count) None) 0 now).
Proof.
  intros Hc. split; cbn; try done.
  - unfold zlen. rewrite length_replicate. lia.
  - by rewrite slots_bytes_replicate.
  - replace (Z.to_nat count) with (S (Z.to_nat (count - 1))) by lia. cbn. left.
  - by apply Forall_replicate.
Qed.

(** ** The three ways the partial map changes *)

Lemma inv_delete r key p :
  reasm_inv r -> ra_partials r !! key = Some p ->
  reasm_inv (set_partials r (delete key (ra_partials r))
                          (ra_buffered_bytes r - pf_buffered_bytes p)) /\
  pf_buffered_bytes p <= ra_buffered_bytes r.
Proof.
  intros Hr Hk. pose proof (partials_nonneg r Hr) as Hnn.
  pose proof (map_sum_delete (fun _ p => pf_buffered_bytes p) _ _ _ Hk) as Hs. cbn in Hs.
  pose proof (map_sum_lookup_le (fun _ p => pf_buffered_bytes p) _ _ _ Hnn Hk) as Hle. cbn in Hle.
  pose proof (Hnn _ _ Hk). destruct Hr as [H1 H2 H3 H4 H5 H6 H7].
  split; [|lia]. split; cbn; try done.
  - intros k q [_ Hq]%lookup_delete_Some. eauto.
  - lia.
  - lia.
  - rewrite map_size_delete, Hk. lia.
Qed.

Lemma inv_insert_new r key p :
  reasm_inv r -> ra_partials r !! key = None -> wf_partial p -> pf_buffered_bytes p = 0 ->
  Z.of_nat (size (ra_partials r)) < ra_max_frames r ->
  reasm_inv (set_partials r (<[key := p]> (ra_partials r)) (ra_buffered_bytes r)).
Proof.
  intros [H1 H2 H3 H4 H5 H6 H7] Hk Hp Hz Hlt. split; cbn; try done.
  - intros k q. rewrite lookup_insert. case_decide; [by intros [= <-]|eauto].
  - rewrite map_sum_insert by done. lia.
  - rewrite map_size_insert_None by done. lia.
Qed.

Lemma inv_update r key p p' :
  reasm_inv r -> ra_partials r !! key = Some p -> wf_partial p' ->
  ra_buffered_bytes r + (pf_buffered_bytes p' - pf_buffered_bytes p) <= ra_max_bytes r ->
  reasm_inv (set_partials r (<[key := p']> (ra_partials r))
               (ra_buffered_bytes r + (pf_buffered_bytes p' - pf_buffered_bytes p))).
Proof.
  intros [H1 H2 H3 H4 H5 H6 H7] Hk Hp Hlt. split; cbn; try done.
  - intros k q. rewrite lookup_insert. case_decide; [by intros [= <-]|eauto].
  - rewrite (map_sum_update _ _ _ _ _ Hk). lia.
  - lia.
  - rewrite map_size_insert_Some by (by eexists). done.
Qed.

(** Expiry never panics and drops exactly the partials past the deadline. *)
Lemma expire_spec r now :
  reasm_inv r ->
  exists r' n, reassembler_expire r now = (r', Ok n) /\ reasm_inv r' /\
    ra_partials r' =
      filter (fun kp => partial_expired now (ra_deadline_ms r) kp.2 = false) (ra_partials r) /\
    ra_completed r' =
      filter (fun kd => saturating_sub now (cf_at_ms kd.2) < ra_deadline_ms r) (ra_completed r) /\
    ra_sequences r' = ra_sequences r /\ ra_peer_origin r' = ra_peer_origin r /\
    ra_max_frames r' = ra_max_frames r /\ ra_max_bytes r' = ra_max_bytes r /\
    ra_deadline_ms r' = ra_deadline_ms r /\ ra_buffered_bytes r' <= ra_buffered_bytes r.
Proof.
  intros Hr. unfold reassembler_expire.
  pose proof (partials_nonneg r Hr) as Hnn.
  set (dl := ra_deadline_ms r).
  set (P := fun kp : bytes * PartialFrame => partial_expired now dl kp.2 = false).
  pose proof (map_sum_filter (fun _ p => pf_buffered_bytes p)
    (fun _ p => if partial_expired now dl p then pf_buffered_bytes p else 0) P (ra_partials r)) as Hs.
  specialize (Hs ltac:(unfold P; cbn; by intros k x ->)).
  specialize (Hs ltac:(unfold P; cbn; intros k x Hx; by destruct (partial_expired now dl x))).
  assert (0 <= map_sum (fun (_ : bytes) p => pf_buffered_bytes p) (filter P (ra_partials r))) as Hk.
  { apply map_sum_nonneg. intros k x [Hx _]%map_lookup_filter_Some. eauto. }
  assert (0 <= map_sum (fun (_ : bytes) p => if partial_expired now dl p then pf_buffered_bytes p else 0)
               (ra_partials r)) as Hf.
  { apply map_sum_nonneg. intros k x Hx. destruct (partial_expired now dl x); [eauto|lia]. }
  pose proof (map_size_filter P (ra_partials r)) as Hsz.
  destruct Hr as [H1 H2 H3 H4 H5 H6 H7].
  rewrite sub_in_le by lia. rewrite sub_in_le by lia.
  eexists _, _. split; [done|]. split; [|by split_and!; cbn; try done; lia].
  split; cbn; try done.
  - intros k p [Hp _]%map_lookup_filter_Some. eauto.
  - fold P. lia.
  - lia.
  - fold P. lia.
  - etrans; [|exact H7]. apply Nat2Z.inj_le, map_size_filter.
Qed.

Lemma min_by_key_elem {A} (key : A -> Z) l x : min_by_key key l = Some x -> x ∈ l.
Proof.
  destruct l as [|y l]; cbn; [done|]. intros [= <-].
  assert (forall best, fold_left (fun b z => if key z <? key b then z else b) l best ∈ best :: l)
    as Hgen; [|apply Hgen].
  induction l as [|z l IH]; intros best; cbn; [left|].
  destruct (key z <? key best).
  - right. apply IH.
  - specialize (IH best). apply elem_of_cons in IH as [->|]; [by left|]. right. by right.
Qed.

Lemma min_by_key_least {A} (key : A -> Z) l x y :
  min_by_key key l = Some x -> y ∈ l -> key x <= key y.
Proof.
  destruct l as [|z l]; cbn; [done|]. intros [= <-].
  assert (forall best, key (fold_left (fun b z => if key z <? key b then z else b) l best) <= key best
    /\ forall y, y ∈ l -> key (fold_left (fun b z => if key z <? key b then z else b) l best) <= key y)
    as Hgen.
  { induction l as [|w l IH]; intros best; cbn; [split; [done|]; set_solver|].
    destruct (IH (if key w <? key best then w else best)) as [IH1 IH2].
    destruct (Z.ltb_spec (key w) (key best)); (split; [lia|]); intros y' [->|?]%elem_of_cons;
      try lia; by apply IH2. }
  destruct (Hgen z) as [H1 H2]. intros [->|Hy]%elem_of_cons; [done|by apply H2].
Qed.

Section accept_correct.
Context `{Sha256, HashOrder}.

(** Making room leaves fewer than 64 remembered frames. *)
Lemma evict_bound (m : gmap bytes CompletedFrame) :
  Z.of_nat (size m) <= MAX_COMPLETED_FRAME_MEMORY ->
  Z.of_nat (size (evict_oldest m)) < MAX_COMPLETED_FRAME_MEMORY.
Proof.
  intros Hm. unfold evict_oldest. destruct (Z.leb_spec MAX_COMPLETED_FRAME_MEMORY (Z.of_nat (size m))); [|done].
  destruct (min_by_key _ _) as [[k d]|] eqn:Hmin.
  - apply min_by_key_elem in Hmin. rewrite hash_iter_perm in Hmin.
    apply elem_of_map_to_list in Hmin. rewrite map_size_delete, Hmin.
    unfold MAX_COMPLETED_FRAME_MEMORY in *. lia.
  - exfalso. pose proof (hash_iter_perm m) as Hp.
    destruct (hash_iter m) as [|x l]; [|done].
    apply Permutation_length in Hp. rewrite length_map_to_list in Hp. cbn in Hp.
    unfold MAX_COMPLETED_FRAME_MEMORY in *. lia.
Qed.

(** What the tail of [accept] does to the state and what it may return. *)
Definition complete_post (r : RemoteFragmentReassembler) (key : bytes) (lane : RemoteLane)
    (ser : bytes) (r' : RemoteFragmentReassembler)
    (res : RemoteTransportResult (option RemoteTransportFrameV1)) : Prop :=
  (ra_sequences r' = ra_sequences r /\ (res = Ok None \/ exists e, res = Err e)) \/
  exists f rr, wf_frame f /\ frame_encode f = Ok ser /\ frame_lane f = lane /\
    id_bytes (frame_id f) = key /\
    receive_stream (ra_peer_origin r) (ra_sequences r) (frame_lane f) (frame_stream_id f)
      (frame_stream_seq f) (frame_flags f) = (ra_sequences r', rr) /\
    ((rr = Ok tt /\ res = Ok (Some f)) \/ exists e, rr = Err e /\ res = Err e).

Lemma accept_complete_spec r key lane ser now r' res :
  reasm_inv r -> all_u8 ser -> accept_complete r key lane ser now = (r', res) ->
  reasm_inv r' /\ ra_partials r' = ra_partials r /\ ra_peer_origin r' = ra_peer_origin r /\
  complete_post r key lane ser r' res.
Proof.
  intros Hr Hu. unfold accept_complete, complete_post.
  destruct (frame_decode ser) as [f|e|] eqn:Hd; [|intros [= <- <-]; by eauto 10|
    by apply frame_decode_no_panic in Hd].
  destruct (frame_decode_inv ser f Hu Hd) as [Hwf He].
  case_bool_decide as Hlane; case_bool_decide as Hid; cbn [andb negb];
    try (intros [= <- <-]; by eauto 10).
  assert (REMOTE_TRANSPORT_FRAME_HEADER_BYTES <= zlen ser) as Hlen.
  { unfold frame_decode in Hd. destruct (Z.ltb_spec (zlen ser) REMOTE_TRANSPORT_FRAME_HEADER_BYTES);
      [done|lia]. }
  rewrite slice_ok by (done || lia).
  destruct (ra_completed r !! key) as [dn|] eqn:Hdone.
  { intros [= <- <-]. split_and!; try done. left. split; [done|]. case_decide; eauto. }
  destruct (receive_stream _ _ _ _ _ _) as [sq rr] eqn:Hrecv.
  pose proof Hrecv as Hrecv'. rewrite <- (ri_origin r Hr) in Hrecv'.
  destruct (receive_stream_step _ _ _ _ _ _ _ (ri_seq r Hr)
    (proj1 (wf_stream_id f Hwf)) Hrecv') as (Hsq & Ho & Hnp & _).
  assert (reasm_inv (set_sequences r sq)) as Hr1.
  { destruct Hr as [H1 H2 H3 H4 H5 H6 H7]. split; cbn; try done. by rewrite Ho. }
  destruct rr as [[]|e|]; [|intros [= <- <-]|done].
  - intros [= <- <-]. pose proof (evict_bound _ (ri_completed r Hr)) as Hev.
    split_and!; try done.
    + destruct Hr1 as [H1 H2 H3 H4 H5 H6 H7]. split; cbn; try done.
      rewrite map_size_insert. destruct (evict_oldest (ra_completed r) !! key); cbn; lia.
    + right. exists f, (Ok tt). split_and!; try done. by left.
  - split_and!; try done. right. exists f, (Err e). split_and!; try done. right; eauto.
Qed.

Lemma wf_partial_fill p i b :
  wf_partial p -> pf_slots p !! i = Some None -> all_u8 b ->
  pf_buffered_bytes p + zlen b <= MAX_SERIALIZED_FRAME_BYTES ->
  let slots := <[i := Some b]> (pf_slots p) in
  let p' := mkPartial (pf_lane p) (pf_fragment_count p) slots
              (pf_buffered_bytes p + zlen b) (pf_first_seen_ms p) in
  (None ∈ slots -> wf_partial p') /\ Forall slot_u8 slots /\
  pf_buffered_bytes p' = slots_bytes slots.
Proof.
  intros [W1 W2 W3 W4 W5 W6] Hi Hb Hcap. cbn zeta.
  assert (Forall slot_u8 (<[i := Some b]> (pf_slots p))) as Hu by (by apply Forall_insert).
  assert (pf_buffered_bytes p + zlen b = slots_bytes (<[i := Some b]> (pf_slots p))) as Hs
    by (rewrite slots_bytes_insert; [lia|done]).
  split_and!; try done. intros Hh. split; cbn; try done.
  by unfold zlen in *; rewrite length_insert.
Qed.

Lemma has_hole_true slots :
  existsb (fun slot : option bytes => match slot with None => true | Some _ => false end) slots = true
  <-> None ∈ slots.
Proof.
  rewrite existsb_exists. split.
  - intros ([b|] & Hin & Hx); [done|]. by apply list_elem_of_In.
  - intros Hin. exists None. split; [by apply list_elem_of_In|done].
Qed.

Lemma join_slots_full slots :
  None ∉ slots -> Forall slot_u8 slots -> exists b, join_slots slots = Ok b /\ all_u8 b.
Proof.
  induction slots as [|[b|] l IH]; intros Hn Hu.
  - exists []. split; [done|constructor].
  - apply Forall_cons in Hu as [Hb Hu]. rewrite not_elem_of_cons in Hn.
    destruct IH as (c & Hc & Huc); [by destruct Hn|done|].
    exists (b ++ c). cbn. rewrite Hc. split; [done|]. by apply Forall_app.
  - destruct Hn. left.
Qed.

(** The slot a valid fragment addresses exists. *)
Lemma slot_lookup p f :
  wf_partial p -> pf_fragment_count p = frag_count f -> validate_shape f = Ok tt ->
  0 <= frag_index f ->
  exists slot, pf_slots p !! Z.to_nat (frag_index f) = Some slot /\
    index (E:=RemoteTransportError) (pf_slots p) (frag_index f) = Ok slot.
Proof.
  intros Hp Hc Hv Hi. apply validate_shape_inv in Hv as (_ & _ & _ & Hv & _).
  pose proof (wp_len p Hp) as Hl. unfold zlen in Hl.
  destruct (lookup_lt_is_Some_2 (pf_slots p) (Z.to_nat (frag_index f))) as [slot Hs]; [lia|].
  exists slot. split; [done|]. unfold index. by rewrite decide_True, Hs by lia.
Qed.

Lemma partials_set r m b : ra_partials (set_partials r m b) = m.
Proof. done. Qed.
Lemma buffered_set r m b : ra_buffered_bytes (set_partials r m b) = b.
Proof. done. Qed.
Lemma set_set_partials r m b m' b' :
  set_partials (set_partials r m b) m' b' = set_partials r m' b'.
Proof. done. Qed.

(** A fragment as the type system delivers it. *)
Definition typed_fragment (f : RemoteCarrierFragmentV1) : Prop :=
  0 <= frag_index f /\ 0 <= frag_count f /\ all_u8 (frag_bytes f).

(** The parameters no operation changes. *)
Definition same_config (r r' : RemoteFragmentReassembler) : Prop :=
  ra_peer_origin r' = ra_peer_origin r /\ ra_max_frames r' = ra_max_frames r /\
  ra_max_bytes r' = ra_max_bytes r /\ ra_deadline_ms r' = ra_deadline_ms r.

Lemma accept_complete_config r key lane ser now :
  same_config r (accept_complete r key lane ser now).1.
Proof.
  unfold accept_complete. destruct (frame_decode ser); try done. case_match; [done|].
  destruct (slice ser _ _); try done. destruct (ra_completed r !! key); [done|].
  by destruct (receive_stream _ _ _ _ _ _) as [sq [?|?|]].
Qed.

(** Filling the last hole takes the frame's bytes back out of the account. *)
Lemma take_full r p i b key :
  reasm_inv r -> ra_partials r !! key = Some p -> pf_slots p !! i = Some None -> all_u8 b ->
  pf_buffered_bytes p + zlen b <= MAX_SERIALIZED_FRAME_BYTES ->
  None ∉ <[i := Some b]> (pf_slots p) ->
  exists ser, join_slots (<[i := Some b]> (pf_slots p)) = Ok ser /\ all_u8 ser /\
    sub_in (E:=RemoteTransportError) (ra_buffered_bytes r + zlen b) (pf_buffered_bytes p + zlen b)
      = Ok (ra_buffered_bytes r - pf_buffered_bytes p) /\
    reasm_inv (set_partials r (delete key (ra_partials r))
                 (ra_buffered_bytes r - pf_buffered_bytes p)).
Proof.
  intros Hr Hp Hs Hu Hcap Hn. destruct (inv_delete r key p Hr Hp) as [Hd Hle].
  destruct (wf_partial_fill p i b (ri_partials r Hr _ _ Hp) Hs Hu Hcap) as (_ & Hu8 & _).
  destruct (join_slots_full _ Hn Hu8) as (ser & Hser & Huser).
  exists ser. split_and!; try done. rewrite sub_in_le by lia. f_equal. lia.
Qed.

Lemma fill_hole r p i b key :
  reasm_inv r -> ra_partials r !! key = Some p -> pf_slots p !! i = Some None -> all_u8 b ->
  pf_buffered_bytes p + zlen b <= MAX_SERIALIZED_FRAME_BYTES ->
  ra_buffered_bytes r + zlen b <= ra_max_bytes r ->
  None ∈ <[i := Some b]> (pf_slots p) ->
  reasm_inv (set_partials r
    (<[key := mkPartial (pf_lane p) (pf_fragment_count p) (<[i := Some b]> (pf_slots p))
                (pf_buffered_bytes p + zlen b) (pf_first_seen_ms p)]> (ra_partials r))
    (ra_buffered_bytes r + zlen b)).
Proof.
  intros Hr Hp Hs Hu Hcap Hmax Hn.
  destruct (wf_partial_fill p i b (ri_partials r Hr _ _ Hp) Hs Hu Hcap) as (Hwf & _).
  pose proof (inv_update r key p _ Hr Hp (Hwf Hn)) as Hup. cbn in Hup.
  replace (pf_buffered_bytes p + zlen b - pf_buffered_bytes p) with (zlen b) in Hup by lia. auto.
Qed.

Lemma accept_into_spec r is_new f now p r' res :
  reasm_inv r -> typed_fragment f -> validate_shape f = Ok tt ->
  ra_partials r !! id_bytes (frag_frame_id f) = Some p ->
  (is_new = true -> pf_buffered_bytes p = 0) ->
  accept_into r is_new f now = (r', res) ->
  reasm_inv r' /\ same_config r r' /\ res <> Panic /\
  exists ser, complete_post r (id_bytes (frag_frame_id f)) (frag_lane f) ser r' res.
Proof.
  intros Hr (Hi & _ & Hu) Hv Hp Hnew. unfold accept_into. rewrite Hp.
  pose proof (ri_partials r Hr _ _ Hp) as Hwp.
  set (key := id_bytes (frag_frame_id f)) in *.
  set (forget := if is_new then _ else r).
  assert (reasm_inv forget /\ same_config r forget /\ ra_sequences forget = ra_sequences r) as Hforget.
  { subst forget. destruct is_new; [|done]. destruct (inv_delete r key p Hr Hp) as [Hd _].
    rewrite Hnew in Hd by done. by rewrite Z.sub_0_r in Hd. }
  assert (forall q, q <> Panic -> is_ok q = false \/ q = Ok None ->
    complete_post r key (frag_lane f) [] r q /\ complete_post r key (frag_lane f) [] forget q) as Hpost.
  { intros q Hq Hq'. unfold complete_post. destruct Hforget as (_ & _ & ->).
    destruct q as [?|e|]; [|by eauto 10|done]. destruct Hq' as [? | ->]; [done|]. by eauto 10. }
  destruct (_ || _) eqn:Hconf.
  { intros [= <- <-]. split; [apply Hforget|]. split; [apply Hforget|]. split; [done|].
    exists []. apply Hpost; [done|by left]. }
  apply orb_false_iff in Hconf as [Hl Hc]. apply negb_false_iff in Hl, Hc.
  apply Z.eqb_eq in Hc.
  destruct (slot_lookup p f Hwp Hc Hv Hi) as (slot & Hslot & ->).
  destruct slot as [b|].
  { intros [= <- <-]. split_and!; try done; [destruct (decide _); done|]. exists [].
    apply Hpost; [destruct (decide _); done|]. destruct (decide _); [by right|by left]. }
  destruct (Z.ltb_spec (ra_max_bytes r) (ra_buffered_bytes r + zlen (frag_bytes f))).
  { intros [= <- <-]. split; [apply Hforget|]. split; [apply Hforget|]. split; [done|].
    exists []. apply Hpost; [done|by left]. }
  destruct (Z.ltb_spec MAX_SERIALIZED_FRAME_BYTES (pf_buffered_bytes p + zlen (frag_bytes f))).
  { intros [= <- <-]. split_and!; try done. exists []. apply Hpost; [done|by left]. }
  cbn zeta. cbn [pf_slots pf_buffered_bytes]. rewrite partials_set, buffered_set.
  destruct (existsb _ _) eqn:Hex.
  { apply has_hole_true in Hex. intros [= <- <-]. split; [by eapply fill_hole|].
    split; [done|]. split; [done|]. exists []. left. by eauto. }
  assert (None ∉ <[Z.to_nat (frag_index f) := Some (frag_bytes f)]> (pf_slots p)) as Hfull.
  { rewrite <- has_hole_true. by rewrite Hex. }
  destruct (take_full r p _ _ key Hr Hp Hslot Hu ltac:(lia) Hfull) as (ser & -> & Huser & -> & Hd).
  rewrite delete_insert_eq, set_set_partials. intros Hac.
  destruct (accept_complete_spec _ _ _ _ _ _ _ Hd Huser Hac) as (Hr' & _ & _ & Hcp).
  pose proof (accept_complete_config (set_partials r (delete key (ra_partials r))
    (ra_buffered_bytes r - pf_buffered_bytes p)) key (frag_lane f) ser now) as Hcfg.
  rewrite Hac in Hcfg.
  split; [done|]. split; [done|]. split; [|by exists ser].
  destruct Hcp as [(_ & [-> | (e & ->)])|(g & rr & _ & _ & _ & _ & _ & [(_ & ->)|(e & _ & ->)])]; done.
Qed.

Lemma accept_step r f now r' res :
  reasm_inv r -> typed_fragment f -> reassembler_accept r f now = (r', res) ->
  reasm_inv r' /\ same_config r r' /\ res <> Panic /\
  exists ser, complete_post r (id_bytes (frag_frame_id f)) (frag_lane f) ser r' res.
Proof.
  intros Hr Hf. unfold reassembler_accept.
  destruct (validate_shape f) as [[]|e|] eqn:Hv; [|intros [= <- <-]|by apply validate_shape_no_panic in Hv].
  2:{ split_and!; try done. exists []. left. by eauto. }
  destruct (expire_spec r now Hr) as (r1 & n & -> & Hr1 & _ & _ & Hs1 & Ho1 & Hf1 & Hb1 & Hd1 & _).
  assert (same_config r r1) as Hc1 by done.
  assert (forall r2 k l ser q, same_config r1 r2 /\ complete_post r1 k l ser r2 q ->
    same_config r r2 /\ complete_post r k l ser r2 q) as Hlift.
  { unfold complete_post, same_config. rewrite Hs1, Ho1, Hf1, Hb1, Hd1. done. }
  case_bool_decide as Hk.
  - destruct (Z.leb_spec (ra_max_frames r1) (Z.of_nat (size (ra_partials r1)))) as [|Hlt].
    { intros [= <- <-]. split_and!; try done. exists []. left. by eauto. }
    pose proof Hv as Hv'. apply validate_shape_inv in Hv' as (_ & Hz & Hmax & _).
    pose proof Hf as (_ & Hc0 & _).
    intros Ha. eapply accept_into_spec in Ha as (Hr' & Hc & Hnp & ser & Hp);
      [| |done|done|by rewrite partials_set, lookup_insert_eq|done].
    + destruct (Hlift r' _ _ ser res (conj Hc Hp)) as [Hc' Hp']. split_and!; try done. by exists ser.
    + apply inv_insert_new; try done. apply wf_partial_new. lia.
  - destruct (ra_partials r1 !! _) as [p|] eqn:Hp1; [|done]. intros Ha.
    eapply accept_into_spec in Ha as (Hr' & Hc & Hnp & ser & Hp); [|done..].
    destruct (Hlift r' _ _ ser res (conj Hc Hp)) as [Hc' Hp']. split_and!; try done. by exists ser.
Qed.

(** ** Every execution *)

(** Feed fragments with their arrival times; collect the outcomes in order. *)
Fixpoint run_reassembler (r : RemoteFragmentReassembler)
    (evs : list (RemoteCarrierFragmentV1 * Z))
    : RemoteFragmentReassembler * list (RemoteTransportResult (option RemoteTransportFrameV1)) :=
  match evs with
  | [] => (r, [])
  | (f, now) :: evs =>
      let '(r, out) := reassembler_accept r f now in
      let '(r, outs) := run_reassembler r evs in
      (r, out :: outs)
  end.

(** The frames handed to the application. *)
Definition dispatched (outs : list (RemoteTransportResult (option RemoteTransportFrameV1)))
    : list RemoteTransportFrameV1 :=
  omap (fun out => match out with Ok (Some f) => Some f | _ => None end) outs.

Definition frame_event (f : RemoteTransportFrameV1) : stream_event :=
  mkEvent (frame_lane f, frame_stream_id f) (frame_stream_seq f) (frame_flags f).

Lemma run_reassembler_inv r evs r' outs :
  reasm_inv r -> Forall (fun e => typed_fragment e.1) evs ->
  run_reassembler r evs = (r', outs) ->
  reasm_inv r' /\ same_config r r' /\ Forall (fun out => out <> Panic) outs /\ Forall wf_frame (dispatched outs) /\
  exists sevs, Forall (fun e => 0 <= (ev_key e).2) sevs /\
    run_streams (ra_sequences r) sevs = (ra_sequences r', (frame_event <$> dispatched outs)).
Proof.
  intros Hr Hev. revert r r' outs Hr. induction Hev as [|[f now] evs Hf Hev IH]; intros r r' outs Hr.
  { intros [= <- <-]. split; [done|]. split; [done|]. split; [constructor|]. split; [constructor|]. by exists []. }
  cbn. destruct (reassembler_accept r f now) as [r1 out] eqn:Ha.
  destruct (run_reassembler r1 evs) as [r2 outs1] eqn:Hrun. intros [= <- <-].
  destruct (accept_step r f now r1 out Hr Hf Ha) as (Hr1 & Hc1 & Hnp & ser & Hpost).
  destruct (IH r1 r2 outs1 Hr1 Hrun) as (Hr2 & Hc2 & Hnp2 & Hwf & sevs & Hs & Hrs).
  split; [done|]. split; [by unfold same_config in *; intuition congruence|].
  split; [by constructor|].
  destruct Hpost as [(Hseq & Hout)|(g & rr & Hg & _ & _ & _ & Hrecv & Hout)].
  - assert (dispatched (out :: outs1) = dispatched outs1) as ->.
    { by destruct Hout as [-> | (e & ->)]. }
    split; [done|]. exists sevs. by rewrite <- Hseq.
  - rewrite <- (ri_origin r Hr) in Hrecv.
    assert (0 <= frame_stream_id g) as Hid by apply (wf_stream_id g Hg).
    destruct Hout as [(-> & ->)|(e & -> & ->)].
    + split; [by constructor|]. exists (frame_event g :: sevs). split; [by constructor|].
      cbn. rewrite Hrecv, Hrs. done.
    + split; [done|]. exists (frame_event g :: sevs). split; [by constructor|].
      cbn. rewrite Hrecv, Hrs. done.
Qed.

(** C33: Reassembly is safe against any peer: after any sequence of fragments, with
    any arrival times, no fragment made it panic, at most 16 frames are partial,
    at most 8 MiB are buffered, and at most 64 completed frames are remembered. *)
Theorem reassembly_bounded (origin : RemoteStreamOrigin)
    (evs : list (RemoteCarrierFragmentV1 * Z)) (r' : RemoteFragmentReassembler)
    (outs : list (RemoteTransportResult (option RemoteTransportFrameV1))) :
  Forall (fun e => typed_fragment e.1) evs ->
  run_reassembler (reassembler_new origin) evs = (r', outs) ->
  Forall (fun out => out <> Panic) outs /\
  incomplete_frames r' <= MAX_INCOMPLETE_FRAMES_PER_PEER /\
  0 <= ra_buffered_bytes r' <= MAX_REASSEMBLY_BYTES_PER_PEER /\
  remembered_frames r' <= MAX_COMPLETED_FRAME_MEMORY.
Proof.
  intros Hev Hrun.
  destruct (run_reassembler_inv _ _ _ _ (reasm_inv_new origin) Hev Hrun)
    as (Hr & (_ & Hf & Hb & _) & Hnp & _).
  pose proof (partials_nonneg r' Hr) as Hnn. destruct Hr as [_ _ _ H4 H5 H6 H7].
  rewrite Hf in H6. rewrite Hb in H5. cbn in H5, H6.
  unfold incomplete_frames, remembered_frames,
    MAX_INCOMPLETE_FRAMES_PER_PEER, MAX_REASSEMBLY_BYTES_PER_PEER in *.
  split_and!; try done; try lia. rewrite H4. by apply map_sum_nonneg.
Qed.

(** What reaches the application is sound: whatever fragments arrive, in
    whatever order and however often repeated, every dispatched frame is
    well-formed, and the frames dispatched on a stream carry the sequence numbers
    0, 1, 2, ... in order, with nothing dispatched after a terminal frame. *)
Theorem reassembly_dispatch_gapless (origin : RemoteStreamOrigin)
    (evs : list (RemoteCarrierFragmentV1 * Z)) (r' : RemoteFragmentReassembler)
    (outs : list (RemoteTransportResult (option RemoteTransportFrameV1)))
    (k : RemoteLane * Z) :
  Forall (fun e => typed_fragment e.1) evs ->
  run_reassembler (reassembler_new origin) evs = (r', outs) ->
  valid_key origin k ->
  let log := stream_log k (frame_event <$> dispatched outs) in
  Forall wf_frame (dispatched outs) /\
  ev_seq <$> log = seqZ 0 (zlen log) /\
  (forall i e, log !! i = Some e -> terminal (ev_flags e) = true -> S i = length log).
Proof.
  intros Hev Hrun Hk.
  destruct (run_reassembler_inv _ _ _ _ (reasm_inv_new origin) Hev Hrun)
    as (_ & _ & _ & Hwf & sevs & Hs & Hrs).
  split; [done|]. apply log_from_fresh. rewrite <- (abs_new origin k Hk).
  eapply run_streams_log; [apply seq_inv_new|done..].
Qed.
End accept_correct.
