(* ===== verification/Delivery.v ===== *)
(** Sender meets receiver: the fragments [fragment_frame] produces for an
    encoded frame, delivered to a [RemoteFragmentReassembler] in any order within
    the reassembly deadline, yield exactly that frame, on the last fragment.
    [RemoteLaneEndpoint] ([remote_transport/lane_io.rs]) relies on this contract of
    [remote_transport/fragment.rs]. *)

From S2P Require Import Prelude.
From S2P Require Import Lane.
From S2P Require Import ProtocolId.
From S2P Require Import Frame.
From S2P Require Import Streams.
From S2P Require Import Fragment.
From S2P Require Import Reassembly.
From stdpp Require Import options.
Set Warnings "-clear-no-such-hyp".

(** Bytes carried by some fragments. *)
Definition carried (frs : list RemoteCarrierFragmentV1) : Z :=
  foldr (fun f acc => zlen (frag_bytes f) + acc) 0 frs.

Lemma carried_cons f frs : carried (f :: frs) = zlen (frag_bytes f) + carried frs.
Proof. done. Qed.

Lemma carried_nonneg frs : 0 <= carried frs.
Proof.
  induction frs as [|f frs IH]; [done|]. rewrite carried_cons.
  pose proof (zlen_nonneg (frag_bytes f)). lia.
Qed.

Lemma carried_app l k : carried (l ++ k) = carried l + carried k.
Proof.
  induction l as [|f l IH]; [done|]. rewrite <- app_comm_cons, !carried_cons, IH. lia.
Qed.

#[export] Instance carried_perm : Proper ((≡ₚ) ==> (=)) carried.
Proof. induction 1; rewrite ?carried_cons in *; lia. Qed.

Lemma carried_concat frs : carried frs = zlen (concat (frag_bytes <$> frs)).
Proof.
  induction frs as [|f frs IH]; [done|].
  rewrite carried_cons, fmap_cons. cbn [concat]. rewrite zlen_app. lia.
Qed.

Section delivery.
Context `{Sha256, HashOrder}.
Variables (f : RemoteTransportFrameV1) (ser : bytes) (frs : list RemoteCarrierFragmentV1).
Hypothesis Hwf : wf_frame f.
Hypothesis Henc : frame_encode f = Ok ser.
Hypothesis Hsplit : fragment_frame (frame_lane f) (frame_id f) ser = Ok frs.
Abbreviation key := (id_bytes (frame_id f)).

Lemma ser_facts :
  frame_decode ser = Ok f /\ all_u8 ser /\
  REMOTE_TRANSPORT_FRAME_HEADER_BYTES <= zlen ser <= MAX_SERIALIZED_FRAME_BYTES.
Proof using Hwf Henc.
  destruct (frame_decode_encode f Hwf) as (b & Hb & Hl & Hd).
  rewrite Henc in Hb. injection Hb as <-.
  split; [done|]. split; [by eapply frame_encode_u8|]. rewrite Hl.
  unfold serialized_len. pose proof (payload_cap_fits f Hwf).
  pose proof (zlen_nonneg (frame_payload f)).
  unfold MAX_SERIALIZED_FRAME_BYTES. lia.
Qed.

Lemma frs_facts :
  concat (frag_bytes <$> frs) = ser /\ carried frs = zlen ser /\ NoDup frs /\
  forall i g, frs !! i = Some g ->
    fragment_of (frame_lane f) (frame_id f) (zlen frs) (Z.of_nat i) g /\ all_u8 (frag_bytes g).
Proof using Hwf Henc Hsplit.
  destruct ser_facts as (_ & Hu & Hb).
  destruct (fragment_frame_facts (frame_lane f) (frame_id f) ser Hb) as (frs' & Hs & Hcat & _ & Hall).
  rewrite Hsplit in Hs. injection Hs as <-.
  split; [done|]. split; [by rewrite carried_concat, Hcat|]. split.
  - apply NoDup_alt. intros i j g Hi Hj.
    destruct (Hall i g Hi) as ((_ & _ & Ei & _) & _). destruct (Hall j g Hj) as ((_ & _ & Ej & _) & _).
    lia.
  - intros i g Hi. split; [apply (Hall i g Hi)|].
    rewrite <- Hcat in Hu. unfold all_u8 in Hu.
    apply list_elem_of_lookup_2 in Hi. revert Hu Hi. clear. induction frs as [|h l IH]; [set_solver|].
    rewrite fmap_cons. cbn [concat]. rewrite Forall_app. intros [Hh Hl] [->|Hin]%elem_of_cons; auto.
Qed.

(** The receiver holds the fragments [got] of the frame and nothing has been
    dispatched from it. *)
Record holding (s0 : RemoteStreamSequences) (t0 : Z) (got : list RemoteCarrierFragmentV1)
    (r : RemoteFragmentReassembler) : Prop := {
  h_inv : reasm_inv r;
  h_seq : ra_sequences r = s0;
  h_done : ra_completed r !! key = None;
  h_room : ra_buffered_bytes r + (zlen ser - carried got) <= ra_max_bytes r;
  h_partial : exists p, ra_partials r !! key = Some p /\
    pf_lane p = frame_lane f /\ pf_fragment_count p = zlen frs /\ pf_first_seen_ms p = t0 /\
    pf_buffered_bytes p = carried got /\ length (pf_slots p) = length frs /\
    forall i g, frs !! i = Some g ->
      pf_slots p !! i = Some (if decide (g ∈ got) then Some (frag_bytes g) else None);
}.

(** The fragment that fills the next slot: what [accept] finds when it gets there. *)
Lemma holding_slot s0 t0 got g rest r :
  holding s0 t0 got r -> got ++ g :: rest ≡ₚ frs ->
  exists p, ra_partials r !! id_bytes (frag_frame_id g) = Some p /\
    frag_frame_id g = frame_id f /\ frag_lane g = frame_lane f /\
    pf_lane p = frag_lane g /\ pf_fragment_count p = frag_count g /\
    pf_slots p !! Z.to_nat (frag_index g) = Some None /\
    frs !! Z.to_nat (frag_index g) = Some g /\
    typed_fragment g /\ validate_shape g = Ok tt /\
    ra_buffered_bytes r + zlen (frag_bytes g) <= ra_max_bytes r /\
    pf_buffered_bytes p + zlen (frag_bytes g) <= MAX_SERIALIZED_FRAME_BYTES.
Proof using Hwf Henc Hsplit.
  intros [Hi Hs Hd Hroom (p & Hp & P1 & P2 & P3 & P4 & P5 & P6)] Hperm.
  destruct frs_facts as (_ & Hcar & Hnd & Hall). destruct ser_facts as (_ & _ & Hsz).
  assert (g ∈ frs) as Hg by (rewrite <- Hperm; set_solver).
  apply list_elem_of_lookup_1 in Hg as [i Hgi].
  destruct (Hall i g Hgi) as ((F1 & F2 & F3 & F4 & F5 & _) & Hu).
  assert (g ∉ got) as Hng.
  { rewrite <- Hperm, NoDup_app in Hnd. destruct Hnd as (_ & Hnd & _).
    intros Hin. apply (Hnd g Hin). left. }
  pose proof (carried_perm _ _ Hperm) as Hcp. rewrite carried_app, carried_cons in Hcp.
  pose proof (carried_nonneg rest).
  exists p. rewrite F2, F3, Nat2Z.id. pose proof (P6 i g Hgi) as Hslot.
  rewrite decide_False in Hslot by done. unfold typed_fragment.
  apply validate_shape_inv in F5 as Hv. destruct Hv as (_ & Hv & _).
  split_and!; try done; try congruence; try lia.
  rewrite F4. apply zlen_nonneg.
Qed.

Lemma holding_expire s0 t0 got r now :
  holding s0 t0 got r -> saturating_sub now t0 < ra_deadline_ms r ->
  exists r' n, reassembler_expire r now = (r', Ok n) /\ holding s0 t0 got r' /\
    same_config r r'.
Proof using.
  intros [Hi Hs Hd Hroom (p & Hp & P1 & P2 & P3 & P)] Hnow.
  destruct (expire_spec r now Hi) as (r' & n & He & Hi' & E1 & E2 & E3 & E4 & E5 & E6 & E7 & E8).
  exists r', n. split; [done|]. split; [|done]. split; [done|by rewrite E3| |lia|].
  - rewrite E2. apply map_lookup_filter_None_2. by left.
  - exists p. split; [|done]. rewrite E1. apply map_lookup_filter_Some. split; [done|].
    unfold partial_expired. cbn. rewrite P3. apply Z.leb_gt. lia.
Qed.

(** The slots after one more fragment, described by the fragments held. *)
Lemma slots_after got g rest slots :
  got ++ g :: rest ≡ₚ frs -> frs !! Z.to_nat (frag_index g) = Some g ->
  length slots = length frs ->
  (forall i h, frs !! i = Some h ->
     slots !! i = Some (if decide (h ∈ got) then Some (frag_bytes h) else None)) ->
  forall i h, frs !! i = Some h ->
    <[Z.to_nat (frag_index g) := Some (frag_bytes g)]> slots !! i =
    Some (if decide (h ∈ g :: got) then Some (frag_bytes h) else None).
Proof using Hwf Henc Hsplit.
  intros Hperm Hg Hlen Hslots i h Hi. destruct frs_facts as (_ & _ & Hnd & _).
  destruct (decide (i = Z.to_nat (frag_index g))) as [->|Hne].
  - rewrite Hg in Hi. injection Hi as <-.
    rewrite list_lookup_insert_eq by (rewrite Hlen; by eapply lookup_lt_Some).
    by rewrite decide_True by left.
  - rewrite list_lookup_insert_ne by done. rewrite (Hslots i h Hi). f_equal.
    assert (h <> g) as Hhg by (intros ->; by apply Hne; eapply NoDup_lookup).
    destruct (decide (h ∈ got)), (decide (h ∈ g :: got)) as [Hin|Hin]; try done; set_solver.
Qed.

Lemma accept_into_slot r b g now p :
  ra_partials r !! id_bytes (frag_frame_id g) = Some p ->
  pf_lane p = frag_lane g -> pf_fragment_count p = frag_count g ->
  pf_slots p !! Z.to_nat (frag_index g) = Some None -> 0 <= frag_index g ->
  ra_buffered_bytes r + zlen (frag_bytes g) <= ra_max_bytes r ->
  pf_buffered_bytes p + zlen (frag_bytes g) <= MAX_SERIALIZED_FRAME_BYTES ->
  let slots := <[Z.to_nat (frag_index g) := Some (frag_bytes g)]> (pf_slots p) in
  let k := id_bytes (frag_frame_id g) in
  let p' := mkPartial (pf_lane p) (pf_fragment_count p) slots
              (pf_buffered_bytes p + zlen (frag_bytes g)) (pf_first_seen_ms p) in
  accept_into r b g now =
    if decide (None ∈ slots)
    then (set_partials r (<[k := p']> (ra_partials r))
                       (ra_buffered_bytes r + zlen (frag_bytes g)), Ok None)
    else
    match sub_in (ra_buffered_bytes r + zlen (frag_bytes g)) (pf_buffered_bytes p') with
    | Err e => (set_partials r (<[k := p']> (ra_partials r))
                  (ra_buffered_bytes r + zlen (frag_bytes g)), Err e)
    | Panic => (set_partials r (delete k (ra_partials r))
                  (ra_buffered_bytes r + zlen (frag_bytes g)), Panic)
    | Ok buffered =>
        match join_slots slots with
        | Err e => (set_partials r (delete k (ra_partials r)) buffered, Err e)
        | Panic => (set_partials r (delete k (ra_partials r)) buffered, Panic)
        | Ok s => accept_complete (set_partials r (delete k (ra_partials r)) buffered)
                    k (frag_lane g) s now
        end
    end.
Proof using.
  intros Hp Hl Hc Hs Hi Hb Hm. unfold accept_into. rewrite Hp.
  rewrite bool_decide_true by done. rewrite (proj2 (Z.eqb_eq _ _)) by done. cbn [negb orb].
  unfold index. rewrite decide_True, Hs by done.
  rewrite (proj2 (Z.ltb_ge _ _)) by lia. rewrite (proj2 (Z.ltb_ge _ _)) by lia.
  cbn zeta. cbn [pf_slots pf_buffered_bytes]. rewrite partials_set, buffered_set.
  rewrite delete_insert_eq.
  destruct (existsb _ _) eqn:Hex; rewrite ?has_hole_true in Hex.
  - by rewrite decide_True.
  - rewrite decide_False by (rewrite <- has_hole_true; by rewrite Hex). done.
Qed.

Lemma holding_fill s0 t0 got g rest r b now :
  holding s0 t0 got r -> got ++ g :: rest ≡ₚ frs -> rest <> [] ->
  exists r', accept_into r b g now = (r', Ok None) /\ holding s0 t0 (g :: got) r' /\
    same_config r r'.
Proof using Hwf Henc Hsplit.
  intros Hh Hperm Hrest.
  destruct (holding_slot _ _ _ _ _ _ Hh Hperm)
    as (p & Hp & G1 & G2 & L1 & L2 & Hslot & Hg & (Hi & _ & Hu) & _ & Hb & Hm).
  rewrite (accept_into_slot r b g now p Hp L1 L2 Hslot Hi Hb Hm).
  destruct Hh as [Hinv Hs Hd Hroom (q & Hq & P1 & P2 & P3 & P4 & P5 & P6)].
  rewrite G1, Hq in Hp. injection Hp as ->.
  pose proof (slots_after got g rest (pf_slots p) Hperm Hg P5 P6) as Hafter.
  assert (None ∈ <[Z.to_nat (frag_index g) := Some (frag_bytes g)]> (pf_slots p)) as Hhole.
  { destruct rest as [|h rest]; [done|]. assert (h ∈ frs) as [i Hhi]%list_elem_of_lookup_1
      by (rewrite <- Hperm; set_solver).
    apply list_elem_of_lookup_2 with i. rewrite (Hafter i h Hhi). rewrite decide_False; [done|].
    destruct frs_facts as (_ & _ & Hnd & _). rewrite <- Hperm, NoDup_app, !NoDup_cons in Hnd.
    set_solver. }
  rewrite decide_True by done. eexists. split; [done|]. split; [|done]. rewrite G1.
  split; cbn -[carried]; try done.
  - by eapply fill_hole.
  - rewrite carried_cons. lia.
  - eexists. split; [apply lookup_insert_eq|]. cbn -[carried]. rewrite carried_cons.
    split_and!; try done; [lia|]. by rewrite length_insert.
Qed.

Lemma join_slots_all (l : list bytes) : join_slots (Some <$> l) = Ok (concat l).
Proof using.
  induction l as [|b l IH]; [done|]. rewrite fmap_cons. cbn. by rewrite IH.
Qed.

Lemma holding_last s0 s1 t0 got g r b now :
  holding s0 t0 got r -> got ++ [g] ≡ₚ frs ->
  receive_stream (ra_peer_origin r) s0 (frame_lane f) (frame_stream_id f)
    (frame_stream_seq f) (frame_flags f) = (s1, Ok tt) ->
  exists r', accept_into r b g now = (r', Ok (Some f)) /\
    ra_sequences r' = s1 /\ ra_partials r' = delete key (ra_partials r) /\
    is_Some (ra_completed r' !! key).
Proof using Hwf Henc Hsplit.
  intros Hh Hperm Hrecv.
  destruct (holding_slot _ _ _ _ _ _ Hh Hperm)
    as (p & Hp & G1 & G2 & L1 & L2 & Hslot & Hg & (Hi & _ & Hu) & _ & Hb & Hm).
  rewrite (accept_into_slot r b g now p Hp L1 L2 Hslot Hi Hb Hm).
  destruct Hh as [Hinv Hs Hd Hroom (q & Hq & P1 & P2 & P3 & P4 & P5 & P6)].
  rewrite G1, Hq in Hp. injection Hp as ->.
  pose proof (slots_after got g [] (pf_slots p) Hperm Hg P5 P6) as Hafter.
  assert (<[Z.to_nat (frag_index g) := Some (frag_bytes g)]> (pf_slots p)
          = Some <$> (frag_bytes <$> frs)) as ->.
  { apply list_eq. intros i. rewrite !list_lookup_fmap. destruct (frs !! i) as [h|] eqn:Hhi.
    - rewrite (Hafter i h Hhi). rewrite decide_True; [done|].
      assert (h ∈ frs) as Hin by (by eapply list_elem_of_lookup_2). rewrite <- Hperm in Hin. set_solver.
    - apply lookup_ge_None in Hhi. apply lookup_ge_None. rewrite length_insert. lia. }
  destruct frs_facts as (Hcat & _). destruct ser_facts as (Hdec & _ & Hsz & _).
  rewrite decide_False by (intros (? & ? & _)%list_elem_of_fmap; done).
  destruct (inv_delete r key p Hinv Hq) as [_ Hle]. cbn [pf_buffered_bytes].
  rewrite sub_in_le by lia. rewrite join_slots_all, Hcat, G1, G2.
  unfold accept_complete. rewrite Hdec. rewrite !bool_decide_true by done. cbn [andb negb].
  rewrite slice_ok by (done || lia). cbn [set_partials ra_completed ra_peer_origin ra_sequences].
  rewrite Hd, Hs, Hrecv.
  eexists. split; [done|]. cbn. split_and!; try done. rewrite lookup_insert_eq. by eexists.
Qed.

(** Outcomes of a complete delivery: nothing until the last fragment, then the frame. *)
Definition outcomes (n : nat) : list (RemoteTransportResult (option RemoteTransportFrameV1)) :=
  replicate n (Ok None) ++ [Ok (Some f)].

Lemma fragment_shape g : g ∈ frs ->
  validate_shape g = Ok tt /\ frag_frame_id g = frame_id f /\ frag_lane g = frame_lane f /\
  frag_count g = zlen frs.
Proof using Hwf Henc Hsplit.
  intros [i Hi]%list_elem_of_lookup_1. destruct frs_facts as (_ & _ & _ & Hall).
  destruct (Hall i g Hi) as ((F1 & F2 & _ & F4 & F5 & _) & _). done.
Qed.

(** One fragment into a receiver that holds [got]: [accept] is [accept_into] after
    an expiry that keeps the frame. *)
Lemma accept_holding s0 t0 got g rest r now :
  holding s0 t0 got r -> got ++ g :: rest ≡ₚ frs ->
  saturating_sub now t0 < ra_deadline_ms r ->
  exists r1, holding s0 t0 got r1 /\ same_config r r1 /\
    reassembler_accept r g now = accept_into r1 false g now.
Proof using Hwf Henc Hsplit.
  intros Hh Hperm Hnow. destruct (holding_expire _ _ _ _ _ Hh Hnow) as (r1 & n & He & Hh1 & Hc).
  exists r1. split; [done|]. split; [done|]. unfold reassembler_accept.
  destruct (fragment_shape g) as (-> & Hid & _); [rewrite <- Hperm; set_solver|].
  rewrite He, Hid. destruct (h_partial _ _ _ _ Hh1) as (p & Hp & _).
  by rewrite bool_decide_false by congruence.
Qed.

Lemma deliver_rest s0 s1 t0 evs : forall got r,
  holding s0 t0 got r -> got ++ evs.*1 ≡ₚ frs -> evs <> [] ->
  Forall (fun e => saturating_sub e.2 t0 < ra_deadline_ms r) evs ->
  receive_stream (ra_peer_origin r) s0 (frame_lane f) (frame_stream_id f)
    (frame_stream_seq f) (frame_flags f) = (s1, Ok tt) ->
  exists r', run_reassembler r evs = (r', outcomes (length evs - 1)) /\
    ra_sequences r' = s1 /\ is_Some (ra_completed r' !! key).
Proof using Hwf Henc Hsplit.
  induction evs as [|[g now] evs IH]; intros got r Hh Hperm Hne Ht Hrecv; [done|].
  apply Forall_cons in Ht as [Hnow Ht]. cbn in Hnow. rewrite fmap_cons in Hperm. cbn in Hperm.
  destruct (accept_holding _ _ _ _ _ _ _ Hh Hperm Hnow) as (r1 & Hh1 & Hc & Ha).
  destruct Hc as (C1 & C2 & C3 & C4). cbn [run_reassembler]. rewrite Ha.
  destruct evs as [|e evs].
  - destruct (holding_last s0 s1 t0 got g r1 false now Hh1 Hperm) as (r' & Hl & Hs & _ & Hd);
      [by rewrite C1|]. rewrite Hl. by exists r'.
  - destruct (holding_fill s0 t0 got g (e :: evs).*1 r1 false now Hh1 Hperm)
      as (r2 & Hl & Hh2 & (D1 & D2 & D3 & D4)); [done|].
    rewrite Hl. destruct (IH (g :: got) r2) as (r' & Hr & Hs & Hd);
      [done| |done|by rewrite D4, C4|by rewrite D1, C1|].
    { rewrite <- Hperm. solve_Permutation. }
    rewrite Hr. exists r'. split; [|done]. unfold outcomes. cbn [length Nat.sub]. rewrite Nat.sub_0_r.
    done.
Qed.

Lemma first_fragment r g rest now :
  reasm_inv r -> g :: rest ≡ₚ frs ->
  ra_partials r !! key = None -> ra_completed r !! key = None ->
  incomplete_frames r < ra_max_frames r ->
  ra_buffered_bytes r + zlen ser <= ra_max_bytes r ->
  exists r1, holding (ra_sequences r) now [] r1 /\ same_config r r1 /\
    reassembler_accept r g now = accept_into r1 true g now.
Proof using Hwf Henc Hsplit.
  intros Hi Hperm Hp Hd Hfr Hb. unfold reassembler_accept.
  destruct (fragment_shape g) as (-> & -> & -> & ->); [rewrite <- Hperm; set_solver|].
  destruct (expire_spec r now Hi) as (r' & n & -> & Hi' & E1 & E2 & E3 & E4 & E5 & E6 & E7 & E8).
  assert (ra_partials r' !! key = None) as Hp'.
  { rewrite E1. apply map_lookup_filter_None_2. by left. }
  assert (size (ra_partials r') <= size (ra_partials r))%nat as Hsz by (rewrite E1; apply map_size_filter).
  rewrite bool_decide_true by done. unfold incomplete_frames in Hfr.
  rewrite (proj2 (Z.leb_gt _ _)) by lia. eexists. split; [|split; [|done]]; [|done].
  assert (1 <= zlen frs <= MAX_FRAGMENT_COUNT) as Hcnt.
  { destruct ser_facts as (_ & _ & Hbd).
    destruct (fragment_frame_facts (frame_lane f) (frame_id f) ser Hbd) as (l & Hs & _ & Hl & _).
    congruence. }
  split; cbn -[carried zlen]; try done.
  - apply inv_insert_new; try done; [by apply wf_partial_new|]. lia.
  - rewrite E2. apply map_lookup_filter_None_2. by left.
  - unfold carried. cbn. lia.
  - eexists. split; [apply lookup_insert_eq|]. cbn -[zlen].
    split_and!; try done; [rewrite length_replicate; unfold zlen; lia|].
    intros i h Hih. rewrite decide_False by set_solver. apply lookup_replicate. split; [done|].
    apply lookup_lt_Some in Hih. unfold zlen. lia.
Qed.
End delivery.

Section roundtrip.
Context `{Sha256, HashOrder}.

Lemma reassembly_delivers (f : RemoteTransportFrameV1) (ser : bytes)
    (frs : list RemoteCarrierFragmentV1) (r : RemoteFragmentReassembler)
    (s1 : RemoteStreamSequences) (g : RemoteCarrierFragmentV1) (t0 : Z)
    (evs : list (RemoteCarrierFragmentV1 * Z)) :
  wf_frame f -> frame_encode f = Ok ser ->
  fragment_frame (frame_lane f) (frame_id f) ser = Ok frs ->
  reasm_inv r ->
  ((g, t0) :: evs).*1 ≡ₚ frs ->
  Forall (fun e => saturating_sub e.2 t0 < ra_deadline_ms r) evs ->
  ra_partials r !! id_bytes (frame_id f) = None ->
  ra_completed r !! id_bytes (frame_id f) = None ->
  incomplete_frames r < ra_max_frames r ->
  ra_buffered_bytes r + zlen ser <= ra_max_bytes r ->
  receive_stream (ra_peer_origin r) (ra_sequences r) (frame_lane f) (frame_stream_id f)
    (frame_stream_seq f) (frame_flags f) = (s1, Ok tt) ->
  exists r', run_reassembler r ((g, t0) :: evs)
      = (r', replicate (length evs) (Ok None) ++ [Ok (Some f)]) /\
    ra_sequences r' = s1 /\ is_Some (ra_completed r' !! id_bytes (frame_id f)).
Proof.
  intros Hwf Henc Hsplit Hi Hperm Ht Hp Hd Hfr Hb Hrecv. rewrite fmap_cons in Hperm. cbn in Hperm.
  destruct (first_fragment f ser frs Hwf Henc Hsplit r g (evs.*1) t0 Hi Hperm Hp Hd Hfr Hb)
    as (r1 & Hh & (C1 & C2 & C3 & C4) & Ha).
  cbn [run_reassembler]. rewrite Ha. rewrite <- C1 in Hrecv.
  destruct evs as [|e evs].
  - destruct (holding_last f ser frs Hwf Henc Hsplit _ s1 t0 [] g r1 true t0 Hh Hperm Hrecv)
      as (r' & -> & Hs & _ & Hdn). by exists r'.
  - destruct (holding_fill f ser frs Hwf Henc Hsplit _ t0 [] g (e :: evs).*1 r1 true t0 Hh Hperm)
      as (r2 & -> & Hh2 & (D1 & D2 & D3 & D4)); [done|].
    destruct (deliver_rest f ser frs Hwf Henc Hsplit _ s1 t0 (e :: evs) [g] r2 Hh2 Hperm)
      as (r' & Hr & Hs & Hdn); [done|by rewrite D4, C4|by rewrite D1|].
    rewrite Hr. exists r'. split; [|done]. unfold outcomes. cbn [length Nat.sub].
    rewrite Nat.sub_0_r. done.
Qed.

(** Sending composed with receiving is the identity: the fragments of an
    encoded frame, delivered in any order and at any times within the reassembly
    deadline of the first, are all absorbed silently until the last one, which
    returns exactly the frame that was sent. The receiver may be in the middle of
    any other work; it only needs an unused frame id, room for the frame, and a
    stream that is at the frame's sequence number. *)
Theorem reassembly_roundtrip (f : RemoteTransportFrameV1) (ser : bytes)
    (frs : list RemoteCarrierFragmentV1) (r : RemoteFragmentReassembler)
    (s1 : RemoteStreamSequences) (g : RemoteCarrierFragmentV1) (t0 : Z)
    (evs : list (RemoteCarrierFragmentV1 * Z)) :
  wf_frame f -> frame_encode f = Ok ser ->
  fragment_frame (frame_lane f) (frame_id f) ser = Ok frs ->
  reasm_inv r ->
  ((g, t0) :: evs).*1 ≡ₚ frs ->
  Forall (fun e => saturating_sub e.2 t0 < ra_deadline_ms r) evs ->
  ra_partials r !! id_bytes (frame_id f) = None ->
  ra_completed r !! id_bytes (frame_id f) = None ->
  incomplete_frames r < ra_max_frames r ->
  ra_buffered_bytes r + zlen ser <= ra_max_bytes r ->
  receive_stream (ra_peer_origin r) (ra_sequences r) (frame_lane f) (frame_stream_id f)
    (frame_stream_seq f) (frame_flags f) = (s1, Ok tt) ->
  exists r', run_reassembler r ((g, t0) :: evs)
      = (r', replicate (length evs) (Ok None) ++ [Ok (Some f)]) /\
    ra_sequences r' = s1 /\ is_Some (ra_completed r' !! id_bytes (frame_id f)).
Proof. apply reassembly_delivers. Qed.

(** The fragments of a well-formed frame are well-formed. *)
Lemma frame_fragments_wf (f : RemoteTransportFrameV1) :
  wf_frame f ->
  exists ser frs, frame_encode f = Ok ser /\
    fragment_frame (frame_lane f) (frame_id f) ser = Ok frs /\ Forall wf_fragment frs /\
    1 <= zlen frs.
Proof.
  intros Hf. destruct (frame_decode_encode f Hf) as (ser & Henc & _ & _).
  destruct (ser_facts f ser Hf Henc) as (_ & _ & Hb).
  destruct (fragment_frame_facts (frame_lane f) (frame_id f) ser Hb) as (frs & Hsplit & _ & Hcnt & _).
  exists ser, frs. split_and!; try done; [|lia].
  destruct (frs_facts f ser frs Hf Henc Hsplit) as (_ & _ & _ & Hall).
  apply Forall_lookup. intros i g Hg.
  destruct (Hall i g Hg) as ((F1 & F2 & F3 & F4 & F5 & _ & F6) & Hu).
  apply lookup_lt_Some in Hg. change MAX_FRAGMENT_COUNT with 9 in Hcnt. unfold zlen in *.
  split; rewrite ?F2, ?F3, ?F4; unfold is_u16, U16_MAX; try done; try lia; try apply Hf.
  - rewrite F6. by destruct (_ =? _).
  - rewrite F6. by destruct (_ =? _).
Qed.
End roundtrip.

(** ** Witnesses: the sample frame, on a receiver of client frames. *)

Definition map_order : HashOrder := {|
  hash_iter := map_to_list;
  hash_iter_perm := fun m => Permutation_refl (map_to_list m);
|}.

(** The fragments of the sample frame, twice over. *)
Definition sample_serialized : bytes :=
  match @frame_encode Toy_sha256 sample_frame with Ok b => b | _ => [] end.
Definition sample_fragments : list RemoteCarrierFragmentV1 :=
  match fragment_frame Interactive sample_id sample_serialized with Ok l => l | _ => [] end.
Definition sample_arrivals : list (RemoteCarrierFragmentV1 * Z) :=
  (fun g => (g, 100)) <$> (sample_fragments ++ sample_fragments).

Lemma sample_arrivals_typed : Forall (fun e => typed_fragment e.1) sample_arrivals.
Proof.
  vm_compute. repeat constructor; discriminate.
Qed.

Definition sample_reassembly :=
  @run_reassembler Toy_sha256 map_order (reassembler_new Client) sample_arrivals.

Lemma reassembly_bounded_witness :
  length sample_arrivals = 2%nat /\ incomplete_frames sample_reassembly.1 = 0 /\
  Forall (fun out => out <> Panic) sample_reassembly.2.
Proof.
  split; [vm_compute; reflexivity|]. split; [vm_compute; reflexivity|].
  apply (@reassembly_bounded Toy_sha256 map_order Client sample_arrivals sample_reassembly.1
           sample_reassembly.2 sample_arrivals_typed). apply surjective_pairing.
Defined.

Lemma reassembly_dispatch_gapless_witness :
  dispatched sample_reassembly.2 = [sample_frame] /\ Forall wf_frame [sample_frame].
Proof.
  assert (dispatched sample_reassembly.2 = [sample_frame]) as He by (vm_compute; reflexivity).
  split; [exact He|]. rewrite <- He.
  apply (@reassembly_dispatch_gapless Toy_sha256 map_order Client sample_arrivals
           sample_reassembly.1 sample_reassembly.2 (Interactive, 2) sample_arrivals_typed);
    [apply surjective_pairing|]. split; [cbn; lia|done].
Defined.

Lemma reassembly_roundtrip_witness :
  exists g r', sample_fragments = [g] /\
    @run_reassembler Toy_sha256 map_order (reassembler_new Client) [(g, 100)]
      = (r', [Ok (Some sample_frame)]).
Proof.
  destruct sample_fragments as [|g []] eqn:Hs; [vm_compute in Hs; discriminate| |vm_compute in Hs; discriminate].
  destruct (@reassembly_roundtrip Toy_sha256 map_order sample_frame sample_serialized [g]
    (reassembler_new Client)
    (receive_stream Client (sequences_new Client) Interactive 2 0 (mkFrameFlags 1)).1
    g 100 [] sample_frame_wf) as (r' & Hr & _);
    [vm_compute; reflexivity|rewrite <- Hs; vm_compute; reflexivity|apply reasm_inv_new
    |reflexivity|constructor|reflexivity|reflexivity|reflexivity|vm_compute; discriminate
    |vm_compute; reflexivity|].
  exists g, r'. split; [reflexivity|exact Hr].
Defined.

