(* ===== verification/Bulk.v ===== *)
(** Bulk transfers ([remote_transport/bulk.rs]): the four typed payloads of the
    bulk lane and the receiver-side transfer state machine.

    Codec: [bulk_encode] / [bulk_decode].  State machine:
    [RemoteBulkTransferState] with [transfer_begin], [accept_chunk],
    [transfer_complete], [transfer_abort] and [acknowledge].  The plain [+= 1] on
    the [u32] chunk counter is kept at its width: it panics on overflow. *)

From S2P Require Import Prelude.
From S2P Require Import Lane.
From S2P Require Import ProtocolId.
From S2P Require Import WireScalar.
From S2P Require Import Frame.
From stdpp Require Import options.
Set Warnings "-clear-no-such-hyp".

(** bulk.rs:31-31 BULK_KIND_BEGIN. *)
Definition BULK_KIND_BEGIN : Z := 1.
(** bulk.rs:32-32 BULK_KIND_CHUNK. *)
Definition BULK_KIND_CHUNK : Z := 2.
(** bulk.rs:33-33 BULK_KIND_COMPLETE. *)
Definition BULK_KIND_COMPLETE : Z := 3.
(** bulk.rs:34-34 BULK_KIND_ABORT. *)
Definition BULK_KIND_ABORT : Z := 4.
(** bulk.rs:37-37 BULK_OPTION_BITS_UNKNOWN. *)
Definition BULK_OPTION_BITS_UNKNOWN : Z := 0.
(** bulk.rs:39-39 BULK_OPTION_BITS_KNOWN. *)
Definition BULK_OPTION_BITS_KNOWN : Z := 3.
(** bulk.rs:42-42 BULK_BEGIN_BYTES_WITHOUT_OPTIONS. *)
Definition BULK_BEGIN_BYTES_WITHOUT_OPTIONS : Z := 27.
(** bulk.rs:44-44 BULK_BEGIN_BYTES_WITH_OPTIONS. *)
Definition BULK_BEGIN_BYTES_WITH_OPTIONS : Z := 67.
(** bulk.rs:46-46 BULK_CHUNK_ENVELOPE_BYTES. *)
Definition BULK_CHUNK_ENVELOPE_BYTES : Z := 33.
(** bulk.rs:48-48 BULK_COMPLETE_BYTES. *)
Definition BULK_COMPLETE_BYTES : Z := 57.
(** bulk.rs:50-50 BULK_ABORT_BYTES. *)
Definition BULK_ABORT_BYTES : Z := 18.
(** bulk.rs:54-54 MAX_BULK_CHUNK_PAYLOAD_BYTES. *)
Definition MAX_BULK_CHUNK_PAYLOAD_BYTES : Z := BULK_MAX_PAYLOAD_BYTES - BULK_CHUNK_ENVELOPE_BYTES.
(** bulk.rs:57-57 MAX_RECEIVER_WINDOW_BYTES. *)
Definition MAX_RECEIVER_WINDOW_BYTES : Z := 4 * 1024 * 1024.
(** bulk.rs:59-59 MAX_TRANSFER_BYTES. *)
Definition MAX_TRANSFER_BYTES : Z := 512 * 1024 * 1024.
(** media_budget.rs:17-17 PASTE_MAX_SINGLE_IMAGE_BYTES. Re-exported as [MAX_SINGLE_IMAGE_BYTES]. *)
Definition MAX_SINGLE_IMAGE_BYTES : Z := 4 * 1024 * 1024.
(** media_budget.rs:18-18 PASTE_MAX_TOTAL_IMAGE_BYTES. Re-exported as [MAX_TOTAL_IMAGE_BYTES]. *)
Definition MAX_TOTAL_IMAGE_BYTES : Z := 8 * 1024 * 1024.

(** bulk.rs:68-88 RemoteBulkMimeClass. *)
Inductive RemoteBulkMimeClass :=
| Image | ImageSet | Archive | Export | Opaque_ | RedactedExport.

#[export] Instance RemoteBulkMimeClass_eq_dec : EqDecision RemoteBulkMimeClass.
Proof. solve_decision. Defined.

(** bulk.rs:91-98 RemoteBulkMimeClass::ALL. *)
Definition mime_all : list RemoteBulkMimeClass :=
  [Image; ImageSet; Archive; Export; Opaque_; RedactedExport].

(** bulk.rs:100-102 RemoteBulkMimeClass::code. *)
Definition mime_code (c : RemoteBulkMimeClass) : Z :=
  match c with
  | Image => 1 | ImageSet => 2 | Archive => 3 | Export => 4 | Opaque_ => 5
  | RedactedExport => 6
  end.

(** bulk.rs:104-114 RemoteBulkMimeClass::from_code. *)
Definition mime_from_code (code : Z) : option RemoteBulkMimeClass :=
  match code with
  | 1 => Some Image | 2 => Some ImageSet | 3 => Some Archive | 4 => Some Export
  | 5 => Some Opaque_ | 6 => Some RedactedExport
  | _ => None
  end.

(** bulk.rs:116-125 RemoteBulkMimeClass::as_str. *)
Definition mime_as_str (c : RemoteBulkMimeClass) : string :=
  match c with
  | Image => "image" | ImageSet => "image_set" | Archive => "archive"
  | Export => "export" | Opaque_ => "opaque" | RedactedExport => "redacted_export"
  end.

(** bulk.rs:127-129 RemoteBulkMimeClass::from_str_exact. *)
Definition mime_from_str_exact (value : string) : option RemoteBulkMimeClass :=
  List.find (fun c => bool_decide (mime_as_str c = value)) mime_all.

(** bulk.rs:132-142 RemoteBulkMimeClass::class_limit_bytes. *)
Definition class_limit_bytes (c : RemoteBulkMimeClass) : Z :=
  match c with
  | Image => MAX_SINGLE_IMAGE_BYTES
  | ImageSet => MAX_TOTAL_IMAGE_BYTES
  | Archive | Export | Opaque_ | RedactedExport => MAX_TRANSFER_BYTES
  end.

(** bulk.rs:145-152 RemoteBulkMimeClass::max_total_length. *)
Definition max_total_length (c : RemoteBulkMimeClass) : Z :=
  let class := class_limit_bytes c in
  if class <? MAX_TRANSFER_BYTES then class else MAX_TRANSFER_BYTES.

(** bulk.rs:170-177 RemoteBulkAbortReason. *)
Inductive RemoteBulkAbortReason :=
| Cancelled | LimitExceeded | IntegrityFailure | TransportClosed | Timeout_.

#[export] Instance RemoteBulkAbortReason_eq_dec : EqDecision RemoteBulkAbortReason.
Proof. solve_decision. Defined.

(** bulk.rs:188-190 RemoteBulkAbortReason::code. *)
Definition abort_code (r : RemoteBulkAbortReason) : Z :=
  match r with
  | Cancelled => 1 | LimitExceeded => 2 | IntegrityFailure => 3 | TransportClosed => 4
  | Timeout_ => 5
  end.

(** bulk.rs:192-201 RemoteBulkAbortReason::from_code. *)
Definition abort_from_code (code : Z) : option RemoteBulkAbortReason :=
  match code with
  | 1 => Some Cancelled | 2 => Some LimitExceeded | 3 => Some IntegrityFailure
  | 4 => Some TransportClosed | 5 => Some Timeout_
  | _ => None
  end.

(** bulk.rs:203-211 RemoteBulkAbortReason::as_str. *)
Definition abort_as_str (r : RemoteBulkAbortReason) : string :=
  match r with
  | Cancelled => "cancelled" | LimitExceeded => "limit_exceeded"
  | IntegrityFailure => "integrity_failure" | TransportClosed => "transport_closed"
  | Timeout_ => "timeout"
  end.

(** bulk.rs:215-223 RemoteBulkBegin. *)
Record RemoteBulkBegin := mkBegin {
  bb_transfer_id : RemoteTransferId;
  bb_total_length : option Z;
  bb_expected_sha256 : option bytes;
  bb_mime_class : RemoteBulkMimeClass;
  bb_max_total_length : Z;
}.

(** bulk.rs:227-235 RemoteBulkBegin::unknown_length. *)
Definition begin_unknown_length (id : RemoteTransferId) (c : RemoteBulkMimeClass) :=
  mkBegin id None None c (max_total_length c).

(** bulk.rs:238-251 RemoteBulkBegin::known_length. *)
Definition begin_known_length (id : RemoteTransferId) (c : RemoteBulkMimeClass) (total : Z)
    (digest : bytes) :=
  mkBegin id (Some total) (Some digest) c (max_total_length c).

(** bulk.rs:253-258 RemoteBulkBegin::option_bits. *)
Definition option_bits (b : RemoteBulkBegin) : Z :=
  match bb_total_length b, bb_expected_sha256 b with
  | Some _, Some _ => BULK_OPTION_BITS_KNOWN
  | _, _ => BULK_OPTION_BITS_UNKNOWN
  end.

(** bulk.rs:311-313 bulk_err. *)
Definition bulk_err (reason : RemoteTransportReason) : RemoteTransportError :=
  err_with_lane reason Bulk.

(** bulk.rs:260-275 RemoteBulkBegin::validate. *)
Definition begin_validate (b : RemoteBulkBegin) : RemoteTransportResult unit :=
  _ ← match bb_total_length b, bb_expected_sha256 b with
      | Some _, Some _ | None, None => Ok tt
      | _, _ => Err (bulk_err BulkOptionBits)
      end;
  if negb (bb_max_total_length b =? max_total_length (bb_mime_class b))
  then Err (bulk_err BulkClassLimit) else
  match bb_total_length b with
  | Some total => if bb_max_total_length b <? total then Err (bulk_err BulkTransferLimit) else Ok tt
  | None => Ok tt
  end.

(** bulk.rs:279-285 RemoteBulkChunk. *)
Record RemoteBulkChunk := mkChunk {
  bc_transfer_id : RemoteTransferId;
  bc_chunk_index : Z;
  bc_offset : Z;
  bc_bytes : bytes;
}.

(** bulk.rs:288-293 RemoteBulkComplete. *)
Record RemoteBulkComplete := mkComplete {
  bk_transfer_id : RemoteTransferId;
  bk_final_length : Z;
  bk_sha256 : bytes;
}.

(** bulk.rs:296-300 RemoteBulkAbort. *)
Record RemoteBulkAbort := mkAbort {
  ba_transfer_id : RemoteTransferId;
  ba_reason : RemoteBulkAbortReason;
}.

(** bulk.rs:303-309 RemoteBulkMessage. *)
Inductive RemoteBulkMessage :=
| Begin (b : RemoteBulkBegin)
| Chunk (c : RemoteBulkChunk)
| Complete (c : RemoteBulkComplete)
| Abort_ (a : RemoteBulkAbort).

(** bulk.rs:315-320 read_transfer_id. *)
Definition read_transfer_id (b : bytes) (offset : Z) : RemoteTransportResult RemoteTransferId :=
  raw ← slice b offset (offset + 16);
  map_err (tag_protocol_id_bytes kind.Transfer raw) (bulk_err BulkUnknownTransfer).

(** bulk.rs:322-326 read_u64_at. *)
Definition read_u64_at (b : bytes) (offset : Z) : RemoteTransportResult Z :=
  buf ← slice b offset (offset + 8);
  Ok (from_be buf).

(** bulk.rs:328-332 read_u32_at. *)
Definition read_u32_at (b : bytes) (offset : Z) : RemoteTransportResult Z :=
  buf ← slice b offset (offset + 4);
  Ok (from_be buf).

(** bulk.rs:335-389 RemoteBulkMessage::encode. *)
Definition bulk_encode (m : RemoteBulkMessage) : RemoteTransportResult bytes :=
  match m with
  | Begin b =>
      _ ← begin_validate b;
      Ok (BULK_KIND_BEGIN :: id_bytes (bb_transfer_id b)
          ++ option_bits b
          :: match bb_total_length b, bb_expected_sha256 b with
             | Some total, Some digest => to_be 8 total ++ digest
             | _, _ => []
             end
          ++ mime_code (bb_mime_class b)
          :: to_be 8 (bb_max_total_length b))
  | Chunk c =>
      if MAX_BULK_CHUNK_PAYLOAD_BYTES <? zlen (bc_bytes c)
      then Err (err_with_size PayloadCapExceeded Bulk (zlen (bc_bytes c))) else
      Ok (BULK_KIND_CHUNK :: id_bytes (bc_transfer_id c)
          ++ to_be 4 (bc_chunk_index c) ++ to_be 8 (bc_offset c)
          ++ to_be 4 (zlen (bc_bytes c) mod 2 ^ 32) ++ bc_bytes c)
  | Complete c =>
      Ok (BULK_KIND_COMPLETE :: id_bytes (bk_transfer_id c)
          ++ to_be 8 (bk_final_length c) ++ bk_sha256 c)
  | Abort_ a =>
      Ok (BULK_KIND_ABORT :: id_bytes (ba_transfer_id a) ++ [abort_code (ba_reason a)])
  end.

(** bulk.rs:405-445 RemoteBulkMessage::decode_begin. *)
Definition decode_begin (b : bytes) : RemoteTransportResult RemoteBulkMessage :=
  if zlen b <? 18 then Err (bulk_err HeaderTooShort) else
  transfer_id ← read_transfer_id b 1;
  bits ← index b 17;
  shape ← (if bits =? BULK_OPTION_BITS_UNKNOWN then Ok (BULK_BEGIN_BYTES_WITHOUT_OPTIONS, false)
           else if bits =? BULK_OPTION_BITS_KNOWN then Ok (BULK_BEGIN_BYTES_WITH_OPTIONS, true)
           else Err (bulk_err BulkOptionBits));
  if negb (zlen b =? shape.1)
  then Err (bulk_err (if zlen b <? shape.1 then BulkLengthMismatch else TrailingBytes)) else
  options ← (if shape.2 : bool then
               total ← read_u64_at b 18;
               digest ← slice b 26 58;
               Ok (Some total, Some digest, 58)
             else Ok (None, None, 18));
  let '(total_length, expected_sha256, cursor) := options in
  code ← index b cursor;
  mime_class ← ok_or (mime_from_code code) (bulk_err BulkUnknownMimeClass);
  max_total ← read_u64_at b (cursor + 1);
  let begin := mkBegin transfer_id total_length expected_sha256 mime_class max_total in
  _ ← begin_validate begin;
  Ok (Begin begin).

(** bulk.rs:447-476 RemoteBulkMessage::decode_chunk. *)
Definition decode_chunk (b : bytes) : RemoteTransportResult RemoteBulkMessage :=
  if zlen b <? BULK_CHUNK_ENVELOPE_BYTES then Err (bulk_err HeaderTooShort) else
  transfer_id ← read_transfer_id b 1;
  chunk_index ← read_u32_at b 17;
  offset ← read_u64_at b 21;
  byte_length ← read_u32_at b 29;
  if MAX_BULK_CHUNK_PAYLOAD_BYTES <? byte_length
  then Err (err_with_size PayloadCapExceeded Bulk byte_length) else
  actual ← sub_in (zlen b) BULK_CHUNK_ENVELOPE_BYTES;
  if byte_length <? actual then Err (bulk_err TrailingBytes) else
  if actual <? byte_length then Err (bulk_err BulkLengthMismatch) else
  body ← slice_from b BULK_CHUNK_ENVELOPE_BYTES;
  Ok (Chunk (mkChunk transfer_id chunk_index offset body)).

(** bulk.rs:478-495 RemoteBulkMessage::decode_complete. *)
Definition decode_complete (b : bytes) : RemoteTransportResult RemoteBulkMessage :=
  if negb (zlen b =? BULK_COMPLETE_BYTES)
  then Err (bulk_err (if zlen b <? BULK_COMPLETE_BYTES then BulkLengthMismatch else TrailingBytes)) else
  transfer_id ← read_transfer_id b 1;
  final_length ← read_u64_at b 17;
  digest ← slice b 25 57;
  Ok (Complete (mkComplete transfer_id final_length digest)).

(** bulk.rs:497-512 RemoteBulkMessage::decode_abort. *)
Definition decode_abort (b : bytes) : RemoteTransportResult RemoteBulkMessage :=
  if negb (zlen b =? BULK_ABORT_BYTES)
  then Err (bulk_err (if zlen b <? BULK_ABORT_BYTES then BulkLengthMismatch else TrailingBytes)) else
  transfer_id ← read_transfer_id b 1;
  code ← index b 17;
  reason ← ok_or (abort_from_code code) (bulk_err BulkUnknownAbortReason);
  Ok (Abort_ (mkAbort transfer_id reason)).

(** bulk.rs:392-403 RemoteBulkMessage::decode. *)
Definition bulk_decode (b : bytes) : RemoteTransportResult RemoteBulkMessage :=
  match b with
  | [] => Err (bulk_err HeaderTooShort)
  | kind_byte :: _ =>
      if kind_byte =? BULK_KIND_BEGIN then decode_begin b
      else if kind_byte =? BULK_KIND_CHUNK then decode_chunk b
      else if kind_byte =? BULK_KIND_COMPLETE then decode_complete b
      else if kind_byte =? BULK_KIND_ABORT then decode_abort b
      else Err (bulk_err BulkUnknownKind)
  end.

(** ** Correctness of the codec *)

Lemma mime_from_code_code c : mime_from_code (mime_code c) = Some c.
Proof. by destruct c. Qed.
Lemma mime_from_code_Some z c : mime_from_code z = Some c -> z = mime_code c.
Proof.
  unfold mime_from_code. intros Hz. repeat (case_match; try discriminate; try (by injection Hz as <-)).
Qed.
Lemma abort_from_code_code r : abort_from_code (abort_code r) = Some r.
Proof. by destruct r. Qed.
Lemma abort_from_code_Some z r : abort_from_code z = Some r -> z = abort_code r.
Proof.
  unfold abort_from_code. intros Hz. repeat (case_match; try discriminate; try (by injection Hz as <-)).
Qed.
Lemma mime_from_str_as_str c : mime_from_str_exact (mime_as_str c) = Some c.
Proof. by destruct c. Qed.

Lemma max_total_length_bounds c : 0 < max_total_length c <= MAX_TRANSFER_BYTES.
Proof. by destruct c. Qed.

(** The invariant of a message the program builds. *)
Definition wf_begin (b : RemoteBulkBegin) : Prop :=
  wf_id (bb_transfer_id b) /\
  (forall total, bb_total_length b = Some total -> is_u64 total) /\
  (forall d, bb_expected_sha256 b = Some d -> length d = 32%nat /\ all_u8 d) /\
  begin_validate b = Ok tt.
Definition wf_chunk (c : RemoteBulkChunk) : Prop :=
  wf_id (bc_transfer_id c) /\ is_u32 (bc_chunk_index c) /\ is_u64 (bc_offset c) /\
  all_u8 (bc_bytes c) /\ zlen (bc_bytes c) <= MAX_BULK_CHUNK_PAYLOAD_BYTES.
Definition wf_complete (c : RemoteBulkComplete) : Prop :=
  wf_id (bk_transfer_id c) /\ is_u64 (bk_final_length c) /\
  length (bk_sha256 c) = 32%nat /\ all_u8 (bk_sha256 c).
Definition wf_bulk (m : RemoteBulkMessage) : Prop :=
  match m with
  | Begin b => wf_begin b
  | Chunk c => wf_chunk c
  | Complete c => wf_complete c
  | Abort_ a => wf_id (ba_transfer_id a)
  end.

Lemma begin_validate_inv b :
  begin_validate b = Ok tt ->
  bb_max_total_length b = max_total_length (bb_mime_class b) /\
  (forall total, bb_total_length b = Some total -> total <= bb_max_total_length b) /\
  (bb_total_length b = None <-> bb_expected_sha256 b = None).
Proof.
  unfold begin_validate. intros Hv. ok_inv Hv. apply negb_false_iff, Z.eqb_eq in G.
  split; [done|]. destruct (bb_total_length b) as [t|], (bb_expected_sha256 b); try done.
  - split; [|done]. intros ? [= <-]. destruct (Z.ltb_spec (bb_max_total_length b) t); [done|lia].
Qed.

(** Reading fields at their offsets. *)
Lemma read_transfer_id_slice b o raw (id : RemoteTransferId) :
  slice (E:=RemoteTransportError) b o (o + 16) = Ok raw -> raw = id_bytes id -> wf_id id ->
  read_transfer_id b o = Ok id.
Proof. intros Hs -> Hid. unfold read_transfer_id. rewrite Hs, bind_Ok_l. by rewrite tag_wf_id. Qed.

Lemma read_u64_at_slice b o s z :
  slice (E:=RemoteTransportError) b o (o + 8) = Ok s -> s = to_be 8 z -> is_u64 z ->
  read_u64_at b o = Ok z.
Proof.
  intros Hs -> Hz. unfold read_u64_at. rewrite Hs, bind_Ok_l. f_equal.
  apply from_be_to_be_small. unfold is_u64, U64_MAX in Hz.
  change (256 ^ Z.of_nat 8) with 18446744073709551616. lia.
Qed.

Lemma read_u32_at_slice b o s z :
  slice (E:=RemoteTransportError) b o (o + 4) = Ok s -> s = to_be 4 z -> is_u32 z ->
  read_u32_at b o = Ok z.
Proof.
  intros Hs -> Hz. unfold read_u32_at. rewrite Hs, bind_Ok_l. f_equal.
  apply from_be_to_be_small. unfold is_u32, U32_MAX in Hz.
  change (256 ^ Z.of_nat 4) with 4294967296. lia.
Qed.

Ltac bulk_consts :=
  unfold BULK_KIND_BEGIN, BULK_KIND_CHUNK, BULK_KIND_COMPLETE, BULK_KIND_ABORT,
    BULK_OPTION_BITS_UNKNOWN, BULK_OPTION_BITS_KNOWN, BULK_BEGIN_BYTES_WITHOUT_OPTIONS,
    BULK_BEGIN_BYTES_WITH_OPTIONS, BULK_CHUNK_ENVELOPE_BYTES, BULK_COMPLETE_BYTES,
    BULK_ABORT_BYTES in *.

(** Consume the next read of a decoder applied to the wire form. *)
Ltac bulk_id :=
  erewrite read_transfer_id_slice; [|read_field; reflexivity|reflexivity|done]; rewrite bind_Ok_l.
Ltac bulk_u64 o :=
  erewrite (read_u64_at_slice _ o); [|read_field; reflexivity|reflexivity|done]; rewrite bind_Ok_l.
Ltac bulk_u32 o :=
  erewrite (read_u32_at_slice _ o); [|read_field; reflexivity|reflexivity|done]; rewrite bind_Ok_l.

Lemma abort_roundtrip a b :
  wf_id (ba_transfer_id a) -> bulk_encode (Abort_ a) = Ok b ->
  zlen b = BULK_ABORT_BYTES /\ bulk_decode b = Ok (Abort_ a).
Proof.
  intros Hid. unfold bulk_encode. intros He. apply Ok_inj in He as ->.
  pose proof (wf_id_zlen _ Hid) as Hl.
  set (b := _ :: _). assert (zlen b = 18) as Hb by (subst b; zlen_solve).
  split; [done|]. unfold bulk_decode. subst b. cbn [Z.eqb Pos.eqb]. bulk_consts.
  cbn [Z.eqb Pos.eqb]. unfold decode_abort. bulk_consts. rewrite Hb. cbn [Z.eqb Pos.eqb negb].
  bulk_id. read_byte. rewrite bind_Ok_l, abort_from_code_code. cbn [ok_or]. rewrite bind_Ok_l.
  by destruct a.
Qed.

Lemma complete_roundtrip c b :
  wf_complete c -> bulk_encode (Complete c) = Ok b ->
  zlen b = BULK_COMPLETE_BYTES /\ bulk_decode b = Ok (Complete c).
Proof.
  intros (Hid & Hlen & Hd & _). unfold bulk_encode. intros He. apply Ok_inj in He as ->.
  pose proof (wf_id_zlen _ Hid) as Hl. assert (zlen (bk_sha256 c) = 32) as Hd' by (unfold zlen; lia).
  set (b := _ :: _). assert (zlen b = 57) as Hb by (subst b; zlen_solve).
  split; [done|]. unfold bulk_decode. subst b. bulk_consts. cbn [Z.eqb Pos.eqb].
  unfold decode_complete. bulk_consts. rewrite Hb. cbn [Z.eqb Pos.eqb negb].
  bulk_id. bulk_u64 17.
  read_field. rewrite bind_Ok_l. by destruct c.
Qed.

Lemma chunk_roundtrip c b :
  wf_chunk c -> bulk_encode (Chunk c) = Ok b ->
  zlen b = BULK_CHUNK_ENVELOPE_BYTES + zlen (bc_bytes c) /\ bulk_decode b = Ok (Chunk c).
Proof.
  intros (Hid & Hi & Ho & Hu & Hmax). unfold bulk_encode.
  rewrite (proj2 (Z.ltb_ge _ _)) by lia.
  pose proof (zlen_nonneg (bc_bytes c)). change MAX_BULK_CHUNK_PAYLOAD_BYTES with 524255 in Hmax.
  rewrite Z.mod_small by lia. intros He. apply Ok_inj in He as ->.
  pose proof (wf_id_zlen _ Hid) as Hl.
  assert (is_u32 (zlen (bc_bytes c))) as Hlen by (unfold is_u32, U32_MAX; lia).
  set (b := _ :: _). assert (zlen b = 33 + zlen (bc_bytes c)) as Hb by (subst b; zlen_solve).
  split; [done|]. unfold bulk_decode. subst b. bulk_consts. cbn [Z.eqb Pos.eqb].
  unfold decode_chunk, slice_from. bulk_consts. rewrite Hb. rewrite (proj2 (Z.ltb_ge _ _)) by lia.
  bulk_id. bulk_u32 17. bulk_u64 21. bulk_u32 29.
  rewrite (proj2 (Z.ltb_ge _ _)) by (change MAX_BULK_CHUNK_PAYLOAD_BYTES with 524255; lia).
  rewrite sub_in_le by lia. rewrite bind_Ok_l.
  rewrite (proj2 (Z.ltb_ge _ _)) by lia. rewrite (proj2 (Z.ltb_ge _ _)) by lia.
  read_field. rewrite bind_Ok_l. by destruct c.
Qed.

Lemma begin_roundtrip b w :
  wf_begin b -> bulk_encode (Begin b) = Ok w ->
  zlen w = (if bb_total_length b is Some _ then BULK_BEGIN_BYTES_WITH_OPTIONS
            else BULK_BEGIN_BYTES_WITHOUT_OPTIONS) /\
  bulk_decode w = Ok (Begin b).
Proof.
  intros (Hid & Ht & Hd & Hv). unfold bulk_encode. rewrite Hv, bind_Ok_l.
  pose proof (wf_id_zlen _ Hid) as Hl.
  destruct (begin_validate_inv b Hv) as (Hmax & _ & Hnone).
  assert (is_u64 (bb_max_total_length b)) as Hm.
  { pose proof (max_total_length_bounds (bb_mime_class b)) as Hmb.
    change MAX_TRANSFER_BYTES with 536870912 in Hmb. unfold is_u64, U64_MAX. lia. }
  intros He. apply Ok_inj in He as ->. set (w := _ :: _).
  unfold option_bits in *. destruct b as [id total digest c m].
  cbn [bb_transfer_id bb_total_length bb_expected_sha256 bb_mime_class bb_max_total_length] in *.
  destruct total as [t|], digest as [d|]; try (by destruct Hnone as [Hn1 Hn2]; (discriminate (Hn1 eq_refl) || discriminate (Hn2 eq_refl))).
  - destruct (Hd d eq_refl) as [Hdl _]. assert (zlen d = 32) as Hd' by (unfold zlen; lia).
    assert (is_u64 t) as Ht' by (by apply Ht).
    assert (zlen w = 67) as Hw by (subst w; zlen_solve).
    split; [done|]. unfold bulk_decode. subst w. bulk_consts. cbn [Z.eqb Pos.eqb].
    unfold decode_begin. bulk_consts. rewrite Hw. cbn [Z.ltb Z.compare Pos.compare Pos.compare_cont].
    bulk_id. read_byte. rewrite bind_Ok_l. cbn [Z.eqb Pos.eqb]. rewrite bind_Ok_l. cbn [fst snd].
    cbn [Z.eqb Pos.eqb negb]. rewrite <- app_assoc. bulk_u64 18.
    read_field. rewrite !bind_Ok_l. cbv beta iota.
    read_byte. rewrite bind_Ok_l, mime_from_code_code. cbn [ok_or]. rewrite bind_Ok_l.
    change (58 + 1) with 59. bulk_u64 59. by rewrite Hv.
  - assert (zlen w = 27) as Hw by (subst w; zlen_solve).
    split; [done|]. unfold bulk_decode. subst w. bulk_consts. cbn [Z.eqb Pos.eqb].
    unfold decode_begin. bulk_consts. rewrite Hw. cbn [Z.ltb Z.compare Pos.compare Pos.compare_cont].
    bulk_id. read_byte. rewrite bind_Ok_l. cbn [Z.eqb Pos.eqb]. rewrite bind_Ok_l. cbn [fst snd].
    cbn [Z.eqb Pos.eqb negb]. rewrite bind_Ok_l. cbv beta iota.
    read_byte. rewrite bind_Ok_l, mime_from_code_code. cbn [ok_or]. rewrite bind_Ok_l.
    change (18 + 1) with 19. bulk_u64 19. by rewrite Hv.
Qed.

(** Bulk payloads round-trip: every well-formed begin, chunk, complete and abort
    encodes, fits the bulk lane's 512 KiB payload cap, and decodes back to itself. *)
Lemma bulk_roundtrip (m : RemoteBulkMessage) :
  wf_bulk m ->
  exists b, bulk_encode m = Ok b /\ zlen b <= BULK_MAX_PAYLOAD_BYTES /\ bulk_decode b = Ok m.
Proof.
  intros Hm. assert (exists b, bulk_encode m = Ok b) as [b Hb].
  { destruct m as [b|c|c|a]; cbn in Hm |- *; try by eexists.
    - destruct Hm as (_ & _ & _ & ->). by eexists.
    - destruct Hm as (_ & _ & _ & _ & Hc). rewrite (proj2 (Z.ltb_ge _ _)) by lia. by eexists. }
  exists b. split; [done|]. destruct m as [x|c|c|a]; cbn in Hm.
  - destruct (begin_roundtrip x b Hm Hb) as [-> ?]. split; [by destruct (bb_total_length x)|done].
  - destruct (chunk_roundtrip c b Hm Hb) as [-> ?]. split; [|done].
    destruct Hm as (_ & _ & _ & _ & Hc).
    unfold MAX_BULK_CHUNK_PAYLOAD_BYTES in Hc. lia.
  - destruct (complete_roundtrip c b Hm Hb) as [-> ?]. done.
  - destruct (abort_roundtrip a b Hm Hb) as [-> ?]. done.
Qed.

(** The reverse direction, field by field. *)
Lemma read_transfer_id_inv b o id :
  all_u8 b -> read_transfer_id b o = Ok id ->
  slice (E:=RemoteTransportError) b o (o + 16) = Ok (id_bytes id) /\ wf_id id.
Proof.
  intros Hb. unfold read_transfer_id. intros Hr. ok_inv Hr.
  destruct (tag_protocol_id_bytes kind.Transfer x) as [i| |] eqn:Ht; try done.
  injection Hr as ->. apply tag_Ok_inv in Ht as [Hi Hz]. rewrite <- Hi in B.
  split; [done|]. pose proof (slice_u8 _ _ _ _ Hb B). apply slice_inv in B as [Hl _].
  split; [unfold zlen in Hl; lia|]. by rewrite Hi in *.
Qed.

Lemma read_u64_at_inv b o z :
  all_u8 b -> read_u64_at b o = Ok z ->
  slice (E:=RemoteTransportError) b o (o + 8) = Ok (to_be 8 z) /\ is_u64 z.
Proof.
  intros Hb. unfold read_u64_at. intros Hr. ok_inv Hr. subst z.
  pose proof (slice_u8 _ _ _ _ Hb B) as Hu. apply slice_inv in B as Hl. destruct Hl as [Hl _].
  assert (length x = 8%nat) as Hx by (unfold zlen in Hl; lia).
  rewrite to_be_from_be_n by done. split; [done|].
  pose proof (from_be_bound x Hu) as Hbd. rewrite Hx in Hbd.
  change (256 ^ Z.of_nat 8) with 18446744073709551616 in Hbd. unfold is_u64, U64_MAX. lia.
Qed.

Lemma read_u32_at_inv b o z :
  all_u8 b -> read_u32_at b o = Ok z ->
  slice (E:=RemoteTransportError) b o (o + 4) = Ok (to_be 4 z) /\ is_u32 z.
Proof.
  intros Hb. unfold read_u32_at. intros Hr. ok_inv Hr. subst z.
  pose proof (slice_u8 _ _ _ _ Hb B) as Hu. apply slice_inv in B as Hl. destruct Hl as [Hl _].
  assert (length x = 4%nat) as Hx by (unfold zlen in Hl; lia).
  rewrite to_be_from_be_n by done. split; [done|].
  pose proof (from_be_bound x Hu) as Hbd. rewrite Hx in Hbd.
  change (256 ^ Z.of_nat 4) with 4294967296 in Hbd. unfold is_u32, U32_MAX. lia.
Qed.

(** Adjacent slices rebuild the string: the whole is the kind byte and the rest. *)
Lemma slices_from_kind (k : Z) (b rest : bytes) :
  slice (E:=RemoteTransportError) (k :: b) 1 (zlen (k :: b)) = Ok rest -> k :: b = k :: rest.
Proof.
  rewrite slice_cons by lia. rewrite slice_all; [by intros [= ->]|lia|].
  rewrite zlen_cons. lia.
Qed.

Lemma decode_abort_inv k b m :
  all_u8 (k :: b) -> k = BULK_KIND_ABORT -> decode_abort (k :: b) = Ok m ->
  wf_bulk m /\ bulk_encode m = Ok (k :: b).
Proof.
  intros Hb -> Hd. unfold decode_abort in Hd. ok_inv Hd. subst m.
  apply negb_false_iff, Z.eqb_eq in G. bulk_consts.
  apply read_transfer_id_inv in B as [Si Hi]; [|done].
  apply ok_or_Ok, abort_from_code_Some in B1. apply index_inv in B0.
  split; [done|]. cbn [bulk_encode ba_transfer_id ba_reason]. rewrite <- B1.
  pose proof (slice_split _ _ _ _ _ _ Si B0) as K. change (17 + 1) with 18 in K. rewrite <- G in K.
  by rewrite (slices_from_kind _ _ _ K).
Qed.

Lemma decode_complete_inv k b m :
  all_u8 (k :: b) -> k = BULK_KIND_COMPLETE -> decode_complete (k :: b) = Ok m ->
  wf_bulk m /\ bulk_encode m = Ok (k :: b).
Proof.
  intros Hb -> Hd. unfold decode_complete in Hd. ok_inv Hd. subst m.
  apply negb_false_iff, Z.eqb_eq in G. bulk_consts.
  apply read_transfer_id_inv in B as [Si Hi]; [|done].
  apply read_u64_at_inv in B0 as [Sl Hl]; [|done].
  pose proof (slice_u8 _ _ _ _ Hb B1) as Hu. apply slice_inv in B1 as Hz. destruct Hz as [Hz _].
  split; [split_and!; try done; unfold zlen in Hz; cbn; lia|].
  cbn [bulk_encode bk_transfer_id bk_final_length bk_sha256].
  pose proof (slice_split _ _ _ _ _ _ Si (slice_split _ _ _ _ _ _ Sl B1)) as K.
  rewrite <- G in K. by rewrite (slices_from_kind _ _ _ K).
Qed.

Lemma decode_chunk_inv k b m :
  all_u8 (k :: b) -> k = BULK_KIND_CHUNK -> decode_chunk (k :: b) = Ok m ->
  wf_bulk m /\ bulk_encode m = Ok (k :: b).
Proof.
  intros Hb -> Hd. unfold decode_chunk, slice_from in Hd. ok_inv Hd. subst m. bulk_consts.
  apply Z.ltb_ge in G, G0, G1, G2. apply sub_in_Ok in B3 as [_ ->].
  apply read_transfer_id_inv in B as [Si Hi]; [|done].
  apply read_u32_at_inv in B0 as [Sx Hx]; [|done].
  apply read_u64_at_inv in B1 as [So Ho]; [|done].
  apply read_u32_at_inv in B2 as [Sl Hl]; [|done].
  pose proof (slice_u8 _ _ _ _ Hb B4) as Hu. apply slice_inv in B4 as Hz. destruct Hz as [Hz _].
  assert (zlen x4 = x2) as Hlen by lia.
  split; [split_and!; try done; cbn; lia|].
  cbn [bulk_encode bc_transfer_id bc_chunk_index bc_offset bc_bytes]. rewrite Hlen.
  rewrite (proj2 (Z.ltb_ge _ _)) by done.
  change MAX_BULK_CHUNK_PAYLOAD_BYTES with 524255 in G0.
  rewrite Z.mod_small by (unfold is_u32 in Hl; lia).
  pose proof (slice_split _ _ _ _ _ _ Si (slice_split _ _ _ _ _ _ Sx (slice_split _ _ _ _ _ _ So
    (slice_split _ _ _ _ _ _ Sl B4)))) as K.
  by rewrite (slices_from_kind _ _ _ K).
Qed.

Lemma decode_begin_inv k b m :
  all_u8 (k :: b) -> k = BULK_KIND_BEGIN -> decode_begin (k :: b) = Ok m ->
  wf_bulk m /\ bulk_encode m = Ok (k :: b).
Proof.
  intros Hb -> Hd. unfold decode_begin in Hd. ok_inv Hd.
  apply negb_false_iff, Z.eqb_eq in G0. apply index_inv in B0.
  apply read_transfer_id_inv in B as [Si Hi]; [|done].
  pose proof (slice_split _ _ _ _ _ _ Si B0) as Sh.
  destruct x2 as [[total digest] cursor]. ok_inv Hd. subst m. destruct x5.
  apply read_u64_at_inv in B4 as [Sm Hm]; [|done].
  apply ok_or_Ok, mime_from_code_Some in B3. subst x2. apply index_inv in B.
  pose proof (slice_split _ _ _ _ _ _ B Sm) as St. clear B.
  destruct (Z.eqb_spec x0 BULK_OPTION_BITS_UNKNOWN) as [->|Hne];
    [|destruct (Z.eqb_spec x0 BULK_OPTION_BITS_KNOWN) as [->|]; [|done]];
    apply Ok_inj in B1 as ->; cbn [fst snd] in *.
  - apply Ok_inj in B2. injection B2 as -> -> ->.
    pose proof (slice_split _ _ _ _ _ _ Sh St) as K.
    split; [by split_and!|]. unfold bulk_encode. rewrite B5, bind_Ok_l.
    change (18 + 1 + 8) with BULK_BEGIN_BYTES_WITHOUT_OPTIONS in K. rewrite <- G0 in K.
    rewrite (slices_from_kind _ _ _ K). by rewrite <- app_assoc.
  - apply bind_Ok in B2 as (t & B & B2). apply bind_Ok in B2 as (d & B1 & B2).
    apply Ok_inj in B2. injection B2 as -> -> ->. apply read_u64_at_inv in B as [Stot Htot]; [|done].
    pose proof (slice_u8 _ _ _ _ Hb B1) as Hu. apply slice_inv in B1 as Hz. destruct Hz as [Hz _].
    pose proof (slice_split _ _ _ _ _ _ Sh (slice_split _ _ _ _ _ _ Stot
      (slice_split _ _ _ _ _ _ B1 St))) as K.
    split.
    { split_and!; try done; intros ? [= <-]; [done|]. split; [unfold zlen in Hz; lia|done]. }
    unfold bulk_encode. rewrite B5, bind_Ok_l.
    change (58 + 1 + 8) with BULK_BEGIN_BYTES_WITH_OPTIONS in K. rewrite <- G0 in K.
    rewrite (slices_from_kind _ _ _ K). rewrite <- !app_assoc. done.
Qed.

Lemma read_transfer_id_no_panic b o : 0 <= o -> o + 16 <= zlen b -> read_transfer_id b o <> Panic.
Proof.
  intros. unfold read_transfer_id. repeat no_panic1; [|apply slice_no_panic; lia].
  apply map_err_no_panic, tag_no_panic.
Qed.
Lemma read_u64_at_no_panic b o : 0 <= o -> o + 8 <= zlen b -> read_u64_at b o <> Panic.
Proof. intros. unfold read_u64_at. repeat no_panic1. apply slice_no_panic; lia. Qed.
Lemma read_u32_at_no_panic b o : 0 <= o -> o + 4 <= zlen b -> read_u32_at b o <> Panic.
Proof. intros. unfold read_u32_at. repeat no_panic1. apply slice_no_panic; lia. Qed.

Lemma begin_validate_no_panic b : begin_validate b <> Panic.
Proof.
  unfold begin_validate. destruct b as [? [|] [|] ? ?]; cbn; try done; repeat (case_match; try done).
Qed.

Lemma decode_begin_no_panic b : decode_begin b <> Panic.
Proof.
  unfold decode_begin. bulk_consts. destruct (Z.ltb_spec (zlen b) 18) as [|Hl]; [done|].
  no_panic1; [|apply read_transfer_id_no_panic; lia].
  no_panic1; [|apply index_no_panic; lia].
  no_panic1; [|destruct (_ =? 0); [done|]; by destruct (_ =? 3)].
  no_panic1. apply negb_false_iff, Z.eqb_eq in G.
  destruct (_ =? 0); [|destruct (_ =? 3); [|done]]; injection B1 as <-; cbn [fst snd] in *.
  - rewrite bind_Ok_l. cbv beta iota. repeat no_panic1; first
      [apply index_no_panic; lia|apply read_u64_at_no_panic; lia|apply begin_validate_no_panic].
  - no_panic1.
    + apply bind_Ok in B1 as (t & Ht & B1). apply bind_Ok in B1 as (d & Hd & B1).
      apply Ok_inj in B1 as ->. repeat no_panic1; first
      [apply index_no_panic; lia|apply read_u64_at_no_panic; lia|apply begin_validate_no_panic].
    + repeat no_panic1; first [apply slice_no_panic; lia|apply read_u64_at_no_panic; lia].
Qed.

Lemma bulk_decode_no_panic b : bulk_decode b <> Panic.
Proof.
  destruct b as [|k b]; [done|]. unfold bulk_decode.
  destruct (k =? BULK_KIND_BEGIN); [apply decode_begin_no_panic|].
  unfold decode_chunk, decode_complete, decode_abort, slice_from. bulk_consts.
  destruct (k =? 2).
  - destruct (Z.ltb_spec (zlen (k :: b)) 33) as [|Hl]; [done|]. repeat no_panic1; first
      [apply read_transfer_id_no_panic; lia|apply read_u32_at_no_panic; lia
      |apply read_u64_at_no_panic; lia|apply slice_no_panic; lia|rewrite sub_in_le by lia; done].
  - destruct (k =? 3); [|destruct (k =? 4); [|done]]; no_panic1;
      apply negb_false_iff, Z.eqb_eq in G; repeat no_panic1; first
      [apply read_transfer_id_no_panic; lia|apply read_u64_at_no_panic; lia
      |apply slice_no_panic; lia|apply index_no_panic; lia].
Qed.

(** Bulk decoding is total and canonical: every byte string is refused or decodes
    to a well-formed message whose encoding is that byte string (no trailing bytes,
    no second spelling of the option bits); the decoder never panics. *)
Lemma bulk_decode_canonical (b : bytes) :
  all_u8 b ->
  match bulk_decode b with
  | Ok m => wf_bulk m /\ bulk_encode m = Ok b
  | Err _ => True
  | Panic => False
  end.
Proof.
  intros Hb. destruct (bulk_decode b) as [m| |] eqn:Hd; [|done|by apply bulk_decode_no_panic in Hd].
  destruct b as [|k b]; [done|]. unfold bulk_decode in Hd.
  destruct (Z.eqb_spec k BULK_KIND_BEGIN); [by eapply decode_begin_inv|].
  destruct (Z.eqb_spec k BULK_KIND_CHUNK); [by eapply decode_chunk_inv|].
  destruct (Z.eqb_spec k BULK_KIND_COMPLETE); [by eapply decode_complete_inv|].
  destruct (Z.eqb_spec k BULK_KIND_ABORT); [by eapply decode_abort_inv|done].
Qed.

(** The bulk payload codec is exact.  Every well-formed begin, chunk, complete and
    abort encodes within the bulk lane's 512 KiB payload cap and decodes back to
    itself; and every byte string is refused or decodes to a well-formed message
    whose encoding is that byte string (no trailing bytes, no second spelling of the
    option bits).  The decoder never panics. *)
Theorem bulk_codec_exact :
  (forall (m : RemoteBulkMessage),
     wf_bulk m ->
     exists b, bulk_encode m = Ok b /\ zlen b <= BULK_MAX_PAYLOAD_BYTES /\ bulk_decode b = Ok m) /\
  (forall (b : bytes),
     all_u8 b ->
     match bulk_decode b with
     | Ok m => wf_bulk m /\ bulk_encode m = Ok b
     | Err _ => True
     | Panic => False
     end).
Proof. split; [exact bulk_roundtrip|exact bulk_decode_canonical]. Qed.

(** ** Witnesses *)

Definition sample_transfer_id : RemoteTransferId :=
  mkProtocolId [9; 2; 3; 4; 5; 6; 7; 8; 9; 10; 11; 12; 13; 14; 15; 16].
Definition sample_chunk : RemoteBulkChunk := mkChunk sample_transfer_id 3 40 [7; 7; 7].

Lemma sample_chunk_wf : wf_bulk (Chunk sample_chunk).
Proof.
  assert (wf_id sample_transfer_id) as Hid.
  { split; [done|]. split; [|done]. repeat constructor; unfold U8_MAX; lia. }
  split; [exact Hid|]. split_and!; try done. repeat constructor; unfold U8_MAX; lia.
Qed.

Lemma bulk_codec_exact_witness :
  exists b, bulk_encode (Chunk sample_chunk) = Ok b /\ zlen b <= BULK_MAX_PAYLOAD_BYTES /\
    bulk_decode b = Ok (Chunk sample_chunk).
Proof. apply (proj1 bulk_codec_exact (Chunk sample_chunk) sample_chunk_wf). Defined.
