(* ===== verification/BulkTransfer.v ===== *)
(** The receiver side of a bulk transfer ([remote_transport/bulk.rs]):
    [RemoteBulkTransferState], and the bounded reference
    [RemoteBulkTransferRef] application messages carry instead of the bytes.

    The counter [next_chunk_index] is a [u32] bumped with a plain [+= 1]; it is
    kept at its width, so the model panics where the code does. *)

From S2P Require Import Prelude.
From S2P Require Import Lane.
From S2P Require Import ProtocolId.
From S2P Require Import WireScalar.
From S2P Require Import Frame.
From S2P Require Import Bulk.
From stdpp Require Import options.
Set Warnings "-clear-no-such-hyp".

(** bulk.rs:516-521 RemoteBulkStatus. *)
Inductive RemoteBulkStatus := Active | Completed | Aborted.

#[export] Instance RemoteBulkStatus_eq_dec : EqDecision RemoteBulkStatus.
Proof. solve_decision. Defined.

Section transfer.
Context `{Sha256}.

(** bulk.rs:527-540 RemoteBulkTransferState. *)
Record RemoteBulkTransferState := mkTransfer {
  bt_transfer_id : RemoteTransferId;
  bt_mime_class : RemoteBulkMimeClass;
  bt_declared_total : option Z;
  bt_expected_sha256 : option bytes;
  bt_max_total_length : Z;
  bt_next_chunk_index : Z;
  bt_received : Z;
  bt_unacknowledged : Z;
  bt_window_limit : Z;
  bt_hasher : Hasher;
  bt_status : RemoteBulkStatus;
}.

(** bulk.rs:555-570 RemoteBulkTransferState::begin. *)
Definition transfer_begin (b : RemoteBulkBegin) : RemoteTransportResult RemoteBulkTransferState :=
  _ ← begin_validate b;
  Ok (mkTransfer (bb_transfer_id b) (bb_mime_class b) (bb_total_length b) (bb_expected_sha256 b)
        (bb_max_total_length b) 0 0 0 MAX_RECEIVER_WINDOW_BYTES hasher_new Active).

(** Field updates: the counters of an accepted chunk; status and window. *)
Definition set_progress (t : RemoteBulkTransferState) (index received unacked : Z) (h : Hasher) :=
  mkTransfer (bt_transfer_id t) (bt_mime_class t) (bt_declared_total t) (bt_expected_sha256 t)
    (bt_max_total_length t) index received unacked (bt_window_limit t) h (bt_status t).
Definition set_status (t : RemoteBulkTransferState) (st : RemoteBulkStatus) (unacked : Z) :=
  mkTransfer (bt_transfer_id t) (bt_mime_class t) (bt_declared_total t) (bt_expected_sha256 t)
    (bt_max_total_length t) (bt_next_chunk_index t) (bt_received t) unacked (bt_window_limit t)
    (bt_hasher t) st.

(** bulk.rs:589-591 RemoteBulkTransferState::acknowledge. *)
Definition acknowledge (t : RemoteBulkTransferState) (n : Z) : RemoteBulkTransferState :=
  set_status t (bt_status t) (saturating_sub (bt_unacknowledged t) n).

(** bulk.rs:593-602 RemoteBulkTransferState::ensure_active. *)
Definition ensure_active (t : RemoteBulkTransferState) : RemoteTransportResult unit :=
  match bt_status t with
  | Active => Ok tt
  | Completed => Err (bulk_err BulkAlreadyComplete)
  | Aborted => Err (bulk_err BulkLateChunk)
  end.

(** bulk.rs:604-609 RemoteBulkTransferState::ensure_same_transfer. *)
Definition ensure_same_transfer (t : RemoteBulkTransferState) (id : RemoteTransferId)
    : RemoteTransportResult unit :=
  if decide (id_bytes id = id_bytes (bt_transfer_id t)) then Ok tt
  else Err (bulk_err BulkUnknownTransfer).

(** The guards of [accept_chunk]; the value is the projected length. *)
Definition chunk_guard (t : RemoteBulkTransferState) (c : RemoteBulkChunk)
    : RemoteTransportResult Z :=
  _ ← ensure_active t;
  _ ← ensure_same_transfer t (bc_transfer_id c);
  if MAX_BULK_CHUNK_PAYLOAD_BYTES <? zlen (bc_bytes c)
  then Err (err_with_size PayloadCapExceeded Bulk (zlen (bc_bytes c))) else
  if negb (bc_chunk_index c =? bt_next_chunk_index t) then Err (bulk_err BulkChunkIndexGap) else
  if negb (bc_offset c =? bt_received t) then Err (bulk_err BulkOffsetGap) else
  projected ← ok_or (checked_add (bt_received t) (zlen (bc_bytes c))) (bulk_err BulkTransferLimit);
  if bt_max_total_length t <? projected then Err (bulk_err BulkClassLimit) else
  if MAX_TRANSFER_BYTES <? projected then Err (bulk_err BulkTransferLimit) else
  if (match bt_declared_total t with Some total => total <? projected | None => false end)
  then Err (bulk_err BulkWindowOvershoot) else
  unacked ← add_in U64_MAX (bt_unacknowledged t) (zlen (bc_bytes c));
  if bt_window_limit t <? unacked then Err (bulk_err BulkWindowOvershoot) else
  Ok projected.

(** bulk.rs:611-654 RemoteBulkTransferState::accept_chunk. *)
Definition accept_chunk (t : RemoteBulkTransferState) (c : RemoteBulkChunk)
    : RemoteBulkTransferState * RemoteTransportResult unit :=
  match chunk_guard t c with
  | Err e => (t, Err e)
  | Panic => (t, Panic)
  | Ok projected =>
      let h := hasher_update (bt_hasher t) (bc_bytes c) in
      let unacked := bt_unacknowledged t + zlen (bc_bytes c) in
      match add_in U32_MAX (bt_next_chunk_index t) 1 with
      | Ok index => (set_progress t index projected unacked h, Ok tt)
      | Err e => (t, Err e)
      | Panic => (set_progress t (bt_next_chunk_index t) projected unacked h, Panic)
      end
  end.

(** The guards of [complete]. *)
Definition complete_guard (t : RemoteBulkTransferState) (c : RemoteBulkComplete)
    : RemoteTransportResult unit :=
  _ ← ensure_active t;
  _ ← ensure_same_transfer t (bk_transfer_id c);
  if negb (bk_final_length c =? bt_received t) then Err (bulk_err BulkLengthMismatch) else
  if (match bt_declared_total t with
      | Some declared => negb (declared =? bk_final_length c) | None => false end)
  then Err (bulk_err BulkLengthMismatch) else
  if negb (bool_decide (hasher_finalize (bt_hasher t) = bk_sha256 c))
  then Err (bulk_err BulkDigestMismatch) else
  if (match bt_expected_sha256 t with
      | Some expected => negb (bool_decide (expected = bk_sha256 c)) | None => false end)
  then Err (bulk_err BulkDigestMismatch) else
  Ok tt.

(** bulk.rs:658-682 RemoteBulkTransferState::complete. *)
Definition transfer_complete (t : RemoteBulkTransferState) (c : RemoteBulkComplete)
    : RemoteBulkTransferState * RemoteTransportResult unit :=
  match complete_guard t c with
  | Err e => (t, Err e)
  | Panic => (t, Panic)
  | Ok _ => (set_status t Completed 0, Ok tt)
  end.

(** bulk.rs:685-698 RemoteBulkTransferState::abort. *)
Definition transfer_abort (t : RemoteBulkTransferState) (a : RemoteBulkAbort)
    : RemoteBulkTransferState * RemoteTransportResult unit :=
  match ensure_same_transfer t (ba_transfer_id a) with
  | Err e => (t, Err e)
  | Panic => (t, Panic)
  | Ok _ =>
      match bt_status t with
      | Aborted => (t, Ok tt)
      | Completed => (t, Err (bulk_err BulkAlreadyComplete))
      | Active => (set_status t Aborted 0, Ok tt)
      end
  end.

(** bulk.rs:701-706 RemoteBulkTransferState::running_digest. *)
Definition running_digest (t : RemoteBulkTransferState) : bytes := hasher_finalize (bt_hasher t).

(** ** Executions *)

Inductive transfer_op :=
| OpChunk (c : RemoteBulkChunk)
| OpComplete (c : RemoteBulkComplete)
| OpAbort (a : RemoteBulkAbort)
| OpAck (n : Z).

Definition transfer_step (t : RemoteBulkTransferState) (op : transfer_op)
    : RemoteBulkTransferState * RemoteTransportResult unit :=
  match op with
  | OpChunk c => accept_chunk t c
  | OpComplete c => transfer_complete t c
  | OpAbort a => transfer_abort t a
  | OpAck n => (acknowledge t n, Ok tt)
  end.

(** Reachable states, with the payloads of the chunks accepted so far. *)
Inductive transfer_reach (b : RemoteBulkBegin) : RemoteBulkTransferState -> list bytes -> Prop :=
| reach_begin t :
    transfer_begin b = Ok t -> transfer_reach b t []
| reach_chunk t t' c chunks :
    transfer_reach b t chunks ->
    transfer_step t (OpChunk c) = (t', Ok tt) ->
    transfer_reach b t' (chunks ++ [bc_bytes c])
| reach_refused t t' op e chunks :
    transfer_reach b t chunks -> transfer_step t op = (t', Err e) ->
    transfer_reach b t' chunks
| reach_other t t' op chunks :
    transfer_reach b t chunks -> (forall c, op <> OpChunk c) ->
    (forall n, op = OpAck n -> 0 <= n) ->
    transfer_step t op = (t', Ok tt) ->
    transfer_reach b t' chunks.

Record transfer_inv (b : RemoteBulkBegin) (t : RemoteBulkTransferState) (chunks : list bytes)
    : Prop := {
  ti_id : bt_transfer_id t = bb_transfer_id b;
  ti_total : bt_declared_total t = bb_total_length b;
  ti_sha : bt_expected_sha256 t = bb_expected_sha256 b;
  ti_max : bt_max_total_length t = max_total_length (bb_mime_class b);
  ti_mime : bt_mime_class t = bb_mime_class b;
  ti_hash : bt_hasher t = foldl hasher_update hasher_new chunks;
  ti_received : bt_received t = zlen (concat chunks);
  ti_limit : bt_received t <= bt_max_total_length t;
  ti_declared : forall total, bt_declared_total t = Some total -> 0 <= total -> bt_received t <= total;
  ti_index : bt_next_chunk_index t = zlen chunks /\ bt_next_chunk_index t <= U32_MAX;
  ti_window : bt_window_limit t = MAX_RECEIVER_WINDOW_BYTES;
  ti_unacked : 0 <= bt_unacknowledged t <= MAX_RECEIVER_WINDOW_BYTES;
  ti_done : bt_status t = Completed ->
    (forall total, bb_total_length b = Some total -> bt_received t = total) /\
    (forall d, bb_expected_sha256 b = Some d -> sha256 (concat chunks) = d);
}.

Lemma concat_snoc (chunks : list bytes) c : concat (chunks ++ [c]) = concat chunks ++ c.
Proof. rewrite concat_app. cbn. by rewrite app_nil_r. Qed.

Lemma chunk_guard_inv b t chunks c projected :
  transfer_inv b t chunks -> chunk_guard t c = Ok projected ->
  bt_status t = Active /\ bc_transfer_id c = bt_transfer_id t /\
  bc_chunk_index c = bt_next_chunk_index t /\ bc_offset c = bt_received t /\
  projected = bt_received t + zlen (bc_bytes c) /\ projected <= bt_max_total_length t /\
  (forall total, bt_declared_total t = Some total -> projected <= total) /\
  bt_unacknowledged t + zlen (bc_bytes c) <= MAX_RECEIVER_WINDOW_BYTES.
Proof.
  intros Hi Hg. unfold chunk_guard in Hg. ok_inv Hg. subst.
  apply negb_false_iff, Z.eqb_eq in G0, G1. apply Z.ltb_ge in G, G2, G3, G5.
  unfold ensure_active, ensure_same_transfer in *. destruct (bt_status t) eqn:Hs; try done.
  case_decide as Hid; [|done]. apply ok_or_Ok in B1. unfold checked_add in B1.
  destruct (_ <=? U64_MAX); [|done]. injection B1 as <-. apply add_in_Ok in B2 as [_ ->].
  rewrite (ti_window _ _ _ Hi) in G5. split_and!; try done; [by apply id_bytes_inj|].
  intros total Ht. rewrite Ht in G4. by apply Z.ltb_ge in G4.
Qed.

Lemma inv_begin b t : transfer_begin b = Ok t -> transfer_inv b t [].
Proof.
  unfold transfer_begin. intros Ht. ok_inv Ht. subst t. destruct x.
  apply begin_validate_inv in B as (Hm & _).
  pose proof (max_total_length_bounds (bb_mime_class b)).
  split; cbn; try done; rewrite ?Hm; lia.
Qed.

Lemma inv_chunk b t t' c chunks :
  transfer_inv b t chunks -> accept_chunk t c = (t', Ok tt) ->
  transfer_inv b t' (chunks ++ [bc_bytes c]).
Proof.
  intros Hi. unfold accept_chunk. destruct (chunk_guard t c) as [pr| |] eqn:Hg; try done.
  destruct (chunk_guard_inv _ _ _ _ _ Hi Hg) as (Hs & _ & _ & _ & Hp & Hmax & Hdec & Hw).
  destruct (add_in U32_MAX _ 1) as [ix| |] eqn:Hx; try done. intros [= <-].
  apply add_in_Ok in Hx as [Hx ->]. pose proof (zlen_nonneg (bc_bytes c)).
  destruct Hi as [H1 H2 H3 H4 H5 H6 H7 H8 H9 [H10 H11] H12 H13 H14].
  split; cbn; try done.
  - by rewrite H6, foldl_app.
  - rewrite concat_snoc, zlen_app. lia.
  - intros total Ht _. by apply Hdec.
  - rewrite zlen_app. change (zlen [bc_bytes c]) with 1. lia.
  - lia.
  - by rewrite Hs.
Qed.

Lemma chunk_err_same t c t' e : accept_chunk t c = (t', Err e) -> t' = t.
Proof.
  unfold accept_chunk. destruct (chunk_guard t c); [|by intros [= <-]..].
  destruct (add_in U32_MAX _ 1) eqn:Ha; try done. by intros [= <-].
Qed.

Lemma finalize_inv b t chunks :
  transfer_inv b t chunks -> hasher_finalize (bt_hasher t) = sha256 (concat chunks).
Proof. intros Hi. rewrite (ti_hash _ _ _ Hi). apply hasher_spec. Qed.

Lemma complete_guard_iff b t chunks c :
  transfer_inv b t chunks ->
  complete_guard t c = Ok tt <->
  bt_status t = Active /\ bk_transfer_id c = bb_transfer_id b /\
  bk_final_length c = zlen (concat chunks) /\ bk_sha256 c = sha256 (concat chunks) /\
  (forall total, bb_total_length b = Some total -> total = zlen (concat chunks)) /\
  (forall d, bb_expected_sha256 b = Some d -> d = sha256 (concat chunks)).
Proof.
  intros Hi. unfold complete_guard, ensure_active, ensure_same_transfer.
  rewrite (finalize_inv _ _ _ Hi), (ti_total _ _ _ Hi), (ti_sha _ _ _ Hi), (ti_id _ _ _ Hi),
    (ti_received _ _ _ Hi).
  split.
  - intros Hg. ok_inv Hg. apply negb_false_iff, Z.eqb_eq in G. apply negb_false_iff, bool_decide_eq_true in G1.
    destruct (bt_status t); try done. case_decide as Hid; [|done]. apply id_bytes_inj in Hid.
    rewrite <- G1 in G2. split_and!; try done.
    + intros total Ht. rewrite Ht in G0. apply negb_false_iff, Z.eqb_eq in G0. lia.
    + intros d Hd. rewrite Hd in G2. by apply negb_false_iff, bool_decide_eq_true in G2.
  - intros (-> & -> & -> & -> & Ht & Hd). rewrite bind_Ok_l, decide_True by done.
    rewrite bind_Ok_l, Z.eqb_refl. cbn [negb]. rewrite bool_decide_true by done. cbn [negb].
    destruct (bb_total_length b) as [tot|]; [rewrite (Ht tot), Z.eqb_refl by done|]; cbn [negb];
      (destruct (bb_expected_sha256 b) as [d|]; [rewrite (Hd d), bool_decide_true by done|]; done).
Qed.

Lemma inv_step b t t' op r chunks :
  transfer_inv b t chunks -> (forall c, op <> OpChunk c) -> (forall n, op = OpAck n -> 0 <= n) ->
  transfer_step t op = (t', r) -> transfer_inv b t' chunks.
Proof.
  intros Hi Hc Hn. assert (0 <= MAX_RECEIVER_WINDOW_BYTES) by done.
  destruct op as [c|c|a|n]; [by destruct (Hc c)| | |]; cbn.
  - unfold transfer_complete. destruct (complete_guard t c) as [[]| |] eqn:Hg; intros [= <- _]; try done.
    apply (complete_guard_iff b t chunks) in Hg as (_ & _ & _ & _ & Ht & Hd); [|done].
    pose proof (ti_received _ _ _ Hi) as Hr.
    destruct Hi as [H1 H2 H3 H4 H5 H6 H7 H8 H9 H10 H12 H13 H14]. split; cbn; try done. intros _.
    split; [intros tot Htot; rewrite Hr; symmetry; auto|intros d Hdd; symmetry; auto].
  - unfold transfer_abort. destruct (ensure_same_transfer t (ba_transfer_id a)); [|by intros [= <- _]..].
    destruct (bt_status t); intros [= <- _]; try done.
    destruct Hi as [H1 H2 H3 H4 H5 H6 H7 H8 H9 H10 H12 H13 H14]. by split; cbn.
  - intros [= <- _]. specialize (Hn n eq_refl).
    destruct Hi as [H1 H2 H3 H4 H5 H6 H7 H8 H9 H10 H12 H13 H14]. split; cbn; try done.
    unfold saturating_sub. lia.
Qed.

Lemma reach_inv b t chunks : transfer_reach b t chunks -> transfer_inv b t chunks.
Proof.
  induction 1 as [t Ht|t t' c chunks _ IH Hs|t t' op e chunks _ IH Hs|t t' op chunks _ IH Hc Hn Hs].
  - by apply inv_begin.
  - by eapply inv_chunk.
  - destruct op as [c|c|a|n].
    + apply chunk_err_same in Hs as ->. done.
    + by apply (inv_step b t t' (OpComplete c) (Err e)).
    + by apply (inv_step b t t' (OpAbort a) (Err e)).
    + done.
  - by eapply inv_step.
Qed.

(** The [unacknowledged + len] addition never overflows. *)
Lemma chunk_guard_no_panic b t chunks c : transfer_inv b t chunks -> chunk_guard t c <> Panic.
Proof.
  intros Hi. pose proof (ti_unacked _ _ _ Hi) as Hu. change MAX_RECEIVER_WINDOW_BYTES with 4194304 in Hu.
  unfold chunk_guard, ensure_active, ensure_same_transfer.
  destruct (bt_status t); try done. rewrite bind_Ok_l. case_decide; [|done]. rewrite bind_Ok_l.
  destruct (Z.ltb_spec MAX_BULK_CHUNK_PAYLOAD_BYTES (zlen (bc_bytes c))) as [|Hl]; [done|].
  change MAX_BULK_CHUNK_PAYLOAD_BYTES with 524255 in Hl.
  repeat no_panic1. unfold add_in, U64_MAX. rewrite (proj2 (Z.leb_le _ _)) by lia. done.
Qed.

(** A transfer in progress is exactly the bytes accepted so far: in every
    reachable state the byte count is their length, the running digest is their
    SHA-256, the count is within the class limit (at most 512 MiB) and within the
    declared total, and at most 4 MiB are unacknowledged. *)
Theorem bulk_transfer_invariant (b : RemoteBulkBegin) (t : RemoteBulkTransferState)
    (chunks : list bytes) :
  transfer_reach b t chunks ->
  bt_received t = zlen (concat chunks) /\
  running_digest t = sha256 (concat chunks) /\
  bt_received t <= max_total_length (bb_mime_class b) <= MAX_TRANSFER_BYTES /\
  (forall total, bb_total_length b = Some total -> 0 <= total -> bt_received t <= total) /\
  0 <= bt_unacknowledged t <= MAX_RECEIVER_WINDOW_BYTES.
Proof.
  intros Hi%reach_inv. pose proof (max_total_length_bounds (bb_mime_class b)).
  pose proof (ti_limit _ _ _ Hi) as Hl. rewrite (ti_max _ _ _ Hi) in Hl.
  split; [apply (ti_received _ _ _ Hi)|]. split; [by eapply finalize_inv|]. split; [lia|].
  split; [|apply (ti_unacked _ _ _ Hi)].
  intros total Ht. apply (ti_declared _ _ _ Hi). by rewrite (ti_total _ _ _ Hi).
Qed.

(** Completion is exactly integrity: in a reachable state a [complete] message is
    accepted if and only if the transfer is still active, it names this transfer,
    its length and digest are those of the bytes that landed, and both agree with
    what [begin] declared. *)
Theorem bulk_complete_exact (b : RemoteBulkBegin) (t : RemoteBulkTransferState)
    (chunks : list bytes) (c : RemoteBulkComplete) :
  transfer_reach b t chunks ->
  (transfer_complete t c).2 = Ok tt <->
  bt_status t = Active /\ bk_transfer_id c = bb_transfer_id b /\
  bk_final_length c = zlen (concat chunks) /\ bk_sha256 c = sha256 (concat chunks) /\
  (forall total, bb_total_length b = Some total -> total = zlen (concat chunks)) /\
  (forall d, bb_expected_sha256 b = Some d -> d = sha256 (concat chunks)).
Proof.
  intros Hi%reach_inv. rewrite <- (complete_guard_iff b t chunks c Hi).
  unfold transfer_complete. by destruct (complete_guard t c) as [[]| |].
Qed.

Lemma step_terminal t op :
  bt_status t <> Active ->
  let '(t', r) := transfer_step t op in
  bt_status t' = bt_status t /\ bt_hasher t' = bt_hasher t /\ bt_received t' = bt_received t /\
  match op with OpChunk _ | OpComplete _ => is_ok r = false | _ => True end.
Proof.
  intros Hs. destruct op as [c|c|a|n]; cbn.
  - unfold accept_chunk, chunk_guard, ensure_active. destruct (bt_status t) eqn:E; try done;
      cbn; by rewrite E.
  - unfold transfer_complete, complete_guard, ensure_active. destruct (bt_status t) eqn:E; try done;
      cbn; by rewrite E.
  - unfold transfer_abort. destruct (ensure_same_transfer _ _); [|done..].
    destruct (bt_status t) eqn:E; try done; cbn; by rewrite E.
  - done.
Qed.

(** A terminal transfer is never resurrected: once completed or aborted, no
    sequence of operations changes its status, its bytes or its digest. *)
Theorem bulk_terminal_absorbing (t : RemoteBulkTransferState) (ops : list transfer_op) :
  bt_status t <> Active ->
  let t' := fold_left (fun t op => (transfer_step t op).1) ops t in
  bt_status t' = bt_status t /\ bt_received t' = bt_received t /\
  running_digest t' = running_digest t.
Proof.
  revert t. induction ops as [|op ops IH]; intros t Hs; [done|]. cbn.
  pose proof (step_terminal t op Hs) as Hstep. destruct (transfer_step t op) as [t1 r]. cbn.
  destruct Hstep as (E1 & E2 & E3 & _). destruct (IH t1) as (F1 & F2 & F3); [by rewrite E1|].
  unfold running_digest in *. by rewrite F1, F2, F3, E1, E2, E3.
Qed.

(** The only way a transfer panics is its 32-bit chunk counter: in a reachable
    state an operation panics exactly when it is a chunk that passes every check
    and 2^32 - 1 chunks have been accepted before it. *)
Theorem bulk_panic_only_counter (b : RemoteBulkBegin) (t : RemoteBulkTransferState)
    (chunks : list bytes) (op : transfer_op) :
  transfer_reach b t chunks ->
  (transfer_step t op).2 = Panic <->
  exists c, op = OpChunk c /\ is_ok (chunk_guard t c) = true /\ zlen chunks = U32_MAX.
Proof.
  intros Hi%reach_inv. destruct (ti_index _ _ _ Hi) as [Hix Hle].
  destruct op as [c|c|a|n]; cbn.
  - unfold accept_chunk. pose proof (chunk_guard_no_panic b t chunks c Hi) as Hg.
    destruct (chunk_guard t c) as [pr|e|] eqn:Hgd; [| |done].
    + rewrite Hix. unfold add_in. destruct (Z.leb_spec (zlen chunks + 1) U32_MAX); cbn.
      * split; [done|]. intros (c' & [= <-] & _ & Hz). lia.
      * split; [|done]. intros _. exists c. rewrite Hgd. split_and!; try done. lia.
    + split; [done|]. intros (c' & [= <-] & Hok & _). by rewrite Hgd in Hok.
  - split; [|by intros (c' & ? & _)]. unfold transfer_complete, complete_guard, ensure_active,
      ensure_same_transfer. destruct (bt_status t); try done. cbn. case_decide; [|done]. cbn.
    by repeat (case_match; try done).
  - split; [|by intros (c' & ? & _)]. unfold transfer_abort, ensure_same_transfer.
    case_decide; [|done]. by destruct (bt_status t).
  - split; [done|]. by intros (c' & ? & _).
Qed.

(** ** A complete delivery *)

(** What a sender that keeps the receiver's window open puts on the lane: the
    chunks in order, each drained before the next. *)
Fixpoint send_ops (id : RemoteTransferId) (i offset : Z) (cs : list bytes) : list transfer_op :=
  match cs with
  | [] => []
  | c :: cs =>
      OpChunk (mkChunk id i offset c) :: OpAck (zlen c) :: send_ops id (i + 1) (offset + zlen c) cs
  end.

Fixpoint run_transfer (t : RemoteBulkTransferState) (ops : list transfer_op)
    : RemoteBulkTransferState * bool :=
  match ops with
  | [] => (t, true)
  | op :: ops =>
      let '(t, r) := transfer_step t op in
      let '(t, ok) := run_transfer t ops in
      (t, is_ok r && ok)
  end.

Lemma run_transfer_app t ops ops' t1 :
  run_transfer t ops = (t1, true) -> run_transfer t (ops ++ ops') = run_transfer t1 ops'.
Proof.
  revert t. induction ops as [|op ops IH]; intros t; cbn; [by intros [= ->]|].
  destruct (transfer_step t op) as [t2 r]. destruct (run_transfer t2 ops) as [t3 ok] eqn:E.
  intros [= <- Hok]. apply andb_true_iff in Hok as [Hr ->].
  specialize (IH t2). rewrite E in IH. rewrite IH by done. rewrite Hr. by destruct (run_transfer t3 ops').
Qed.

Lemma chunk_guard_ok b t chunks c :
  transfer_inv b t chunks -> bt_status t = Active ->
  zlen c <= MAX_BULK_CHUNK_PAYLOAD_BYTES -> bt_unacknowledged t = 0 ->
  bt_received t + zlen c <= max_total_length (bb_mime_class b) ->
  (forall total, bb_total_length b = Some total -> bt_received t + zlen c <= total) ->
  chunk_guard t (mkChunk (bb_transfer_id b) (bt_next_chunk_index t) (bt_received t) c)
    = Ok (bt_received t + zlen c).
Proof.
  intros Hi Hs Hc Hu Hmax Htot. pose proof (max_total_length_bounds (bb_mime_class b)) as Hb.
  change MAX_TRANSFER_BYTES with 536870912 in Hb.
  unfold chunk_guard, ensure_active, ensure_same_transfer. rewrite Hs, bind_Ok_l.
  cbn [bc_transfer_id bc_chunk_index bc_offset bc_bytes].
  rewrite (ti_id _ _ _ Hi), decide_True, bind_Ok_l by done.
  rewrite (proj2 (Z.ltb_ge _ _)) by done. rewrite !Z.eqb_refl. cbn [negb].
  unfold checked_add. rewrite (proj2 (Z.leb_le _ _)) by (unfold U64_MAX; lia).
  cbn [ok_or]. rewrite bind_Ok_l, (ti_max _ _ _ Hi), (ti_window _ _ _ Hi), Hu, (ti_total _ _ _ Hi).
  change MAX_BULK_CHUNK_PAYLOAD_BYTES with 524255 in Hc. change MAX_TRANSFER_BYTES with 536870912.
  change MAX_RECEIVER_WINDOW_BYTES with 4194304.
  rewrite (proj2 (Z.ltb_ge _ _)) by done. rewrite (proj2 (Z.ltb_ge _ _)) by lia.
  assert (add_in (E:=RemoteTransportError) U64_MAX 0 (zlen c) = Ok (zlen c)) as ->.
  { apply add_in_Ok. unfold U64_MAX. lia. }
  destruct (bb_total_length b) as [tot|]; [rewrite (proj2 (Z.ltb_ge _ _)) by auto|];
    rewrite bind_Ok_l; rewrite (proj2 (Z.ltb_ge _ _)) by lia; done.
Qed.

Lemma run_chunks b cs : forall t chunks,
  transfer_inv b t chunks -> bt_status t = Active -> bt_unacknowledged t = 0 ->
  Forall (fun c => zlen c <= MAX_BULK_CHUNK_PAYLOAD_BYTES) cs ->
  zlen (concat chunks) + zlen (concat cs) <= max_total_length (bb_mime_class b) ->
  (forall total, bb_total_length b = Some total -> zlen (concat chunks) + zlen (concat cs) <= total) ->
  zlen chunks + zlen cs <= U32_MAX ->
  exists t', run_transfer t (send_ops (bb_transfer_id b) (zlen chunks) (zlen (concat chunks)) cs)
    = (t', true) /\ transfer_inv b t' (chunks ++ cs) /\ bt_status t' = Active.
Proof.
  induction cs as [|c cs IH]; intros t chunks Hi Hs Hu Hc Hmax Htot Hn.
  { exists t. by rewrite app_nil_r. }
  apply Forall_cons in Hc as [Hc Hcs]. cbn [concat] in Hmax, Htot. rewrite zlen_app in Hmax.
  rewrite zlen_cons in Hn. pose proof (zlen_nonneg (concat cs)). pose proof (zlen_nonneg cs).
  pose proof (zlen_nonneg c). destruct (ti_index _ _ _ Hi) as [Hix _].
  pose proof (ti_received _ _ _ Hi) as Hr. cbn [send_ops run_transfer transfer_step].
  pose proof (chunk_guard_ok b t chunks c Hi Hs Hc Hu) as Hg. rewrite Hr, Hix in Hg.
  specialize (Hg ltac:(lia)).
  specialize (Hg ltac:(intros tot Ht; specialize (Htot tot Ht); rewrite zlen_app in Htot; lia)).
  destruct (accept_chunk t (mkChunk (bb_transfer_id b) (zlen chunks) (zlen (concat chunks)) c))
    as [t1 r1] eqn:Ha.
  pose proof Ha as Ha'. unfold accept_chunk in Ha'. rewrite Hg in Ha'. rewrite Hix in Ha'.
  assert (add_in (E:=RemoteTransportError) U32_MAX (zlen chunks) 1 = Ok (zlen chunks + 1)) as Hx
    by (apply add_in_Ok; lia).
  rewrite Hx in Ha'. injection Ha' as E1 <-. apply inv_chunk with (b := b) (chunks := chunks) in Ha; [|done].
  cbn in Ha. destruct (IH (acknowledge t1 (zlen c)) (chunks ++ [c])) as (t' & Hrun & Hi' & Hs'); try done.
  - apply (inv_step b t1 _ (OpAck (zlen c)) (Ok tt)); try done. by intros n [= <-].
  - by rewrite <- E1.
  - rewrite <- E1. cbn. rewrite Hu. unfold saturating_sub. lia.
  - rewrite concat_snoc, zlen_app. lia.
  - intros tot Ht. specialize (Htot tot Ht). rewrite zlen_app in Htot. rewrite concat_snoc, zlen_app. lia.
  - rewrite zlen_app. change (zlen [c]) with 1. lia.
  - rewrite zlen_app, concat_snoc, zlen_app in Hrun. change (zlen [c]) with 1 in Hrun.
    rewrite Hrun. exists t'. split; [done|]. by rewrite <- app_assoc in Hi'.
Qed.

(** A correct sender always completes: for every list of chunks within the chunk
    cap whose total fits the class limit and, when declared, equals the declared
    length and digest, sending them in order (each drained before the next) and
    then [complete] is accepted at every step and ends in [Completed] with exactly
    those bytes. *)
Theorem bulk_delivery_completes (b : RemoteBulkBegin) (t : RemoteBulkTransferState)
    (cs : list bytes) :
  transfer_begin b = Ok t ->
  Forall (fun c => zlen c <= MAX_BULK_CHUNK_PAYLOAD_BYTES) cs ->
  zlen (concat cs) <= max_total_length (bb_mime_class b) ->
  zlen cs <= U32_MAX ->
  (forall total, bb_total_length b = Some total -> total = zlen (concat cs)) ->
  (forall d, bb_expected_sha256 b = Some d -> d = sha256 (concat cs)) ->
  exists t', run_transfer t (send_ops (bb_transfer_id b) 0 0 cs ++
      [OpComplete (mkComplete (bb_transfer_id b) (zlen (concat cs)) (sha256 (concat cs)))])
    = (t', true) /\
    bt_status t' = Completed /\ bt_received t' = zlen (concat cs) /\
    running_digest t' = sha256 (concat cs).
Proof.
  intros Hb Hc Hmax Hn Htot Hsha. apply inv_begin in Hb as Hi.
  assert (bt_status t = Active /\ bt_unacknowledged t = 0) as [Hs Hu].
  { unfold transfer_begin in Hb. ok_inv Hb. by subst t. }
  destruct (run_chunks b cs t [] Hi Hs Hu Hc) as (t1 & Hrun & Hi1 & Hs1); try done.
  { intros tot Ht. rewrite (Htot tot Ht). change (concat []) with (@nil Z). rewrite zlen_nil. lia. }
  cbn [app] in Hi1. change (zlen []) with 0 in Hrun. change (zlen (concat [])) with 0 in Hrun.
  rewrite (run_transfer_app _ _ _ _ Hrun). cbn [run_transfer transfer_step].
  unfold transfer_complete. rewrite (proj2 (complete_guard_iff b t1 cs _ Hi1)) by (by split_and!).
  eexists. split; [done|]. split; [done|]. split; [apply (ti_received _ _ _ Hi1)|].
  by apply (finalize_inv b t1 cs).
Qed.

(** ** The chunk counter at its width *)

Lemma reach_empty_chunks id c (n : nat) :
  Z.of_nat n <= U32_MAX ->
  exists t, transfer_reach (begin_unknown_length id c) t (replicate n []) /\
    bt_status t = Active /\ bt_received t = 0 /\ bt_unacknowledged t = 0.
Proof.
  set (b := begin_unknown_length id c). induction n as [|n IH]; intros Hn.
  - destruct (transfer_begin b) as [t| |] eqn:Hb.
    + exists t. split; [by apply reach_begin|]. unfold transfer_begin in Hb. ok_inv Hb. by subst t.
    + exfalso. revert Hb. unfold transfer_begin, begin_validate. cbn. by rewrite Z.eqb_refl.
    + exfalso. revert Hb. unfold transfer_begin, begin_validate. cbn. by rewrite Z.eqb_refl.
  - destruct IH as (t & Hr & Hs & Hrec & Hu); [lia|].
    pose proof (reach_inv _ _ _ Hr) as Hi. destruct (ti_index _ _ _ Hi) as [Hix _].
    pose proof (max_total_length_bounds c) as Hb.
    pose proof (chunk_guard_ok b t _ [] Hi Hs) as Hg. rewrite Hrec, Hix in Hg.
    change (zlen []) with 0 in Hg. cbn [bb_mime_class b begin_unknown_length] in Hg.
    specialize (Hg ltac:(done) Hu ltac:(cbn; lia) ltac:(done)).
    assert (zlen (replicate n (@nil Z)) = Z.of_nat n) as Hz by (unfold zlen; by rewrite length_replicate).
    exists (set_progress t (Z.of_nat n + 1) 0 0 (hasher_update (bt_hasher t) [])).
    split; [|done]. rewrite replicate_S_end.
    apply (reach_chunk b t _ (mkChunk id (Z.of_nat n) 0 []) _ Hr). cbn. unfold accept_chunk.
    rewrite Hz in Hg. cbn [bb_transfer_id b begin_unknown_length] in Hg. rewrite Hg, Hix, Hz, Hu.
    assert (add_in (E:=RemoteTransportError) U32_MAX (Z.of_nat n) 1 = Ok (Z.of_nat n + 1)) as ->
      by (apply add_in_Ok; lia). done.
Qed.

(** The chunk counter can be exhausted: empty chunks pass every check and use up
    no window and no transfer budget, so a peer may send 2^32 - 1 of them; the next
    valid chunk overflows the [u32] counter. *)
Theorem bulk_chunk_counter_overflow (id : RemoteTransferId) (c : RemoteBulkMimeClass) :
  exists t, transfer_reach (begin_unknown_length id c) t (replicate (Z.to_nat U32_MAX) []) /\
    (accept_chunk t (mkChunk id U32_MAX 0 [])).2 = Panic.
Proof.
  destruct (reach_empty_chunks id c (Z.to_nat U32_MAX)) as (t & Hr & Hs & Hrec & Hu).
  { rewrite Z2Nat.id; unfold U32_MAX; lia. }
  exists t. split; [done|]. pose proof (reach_inv _ _ _ Hr) as Hi.
  destruct (ti_index _ _ _ Hi) as [Hix _].
  assert (bt_next_chunk_index t = U32_MAX) as Hmax.
  { rewrite Hix. unfold zlen. rewrite length_replicate, Z2Nat.id; unfold U32_MAX; lia. }
  pose proof (max_total_length_bounds c) as Hb.
  pose proof (chunk_guard_ok _ t _ [] Hi Hs ltac:(done) Hu) as Hg.
  rewrite Hrec, Hmax in Hg. change (zlen []) with 0 in Hg.
  specialize (Hg ltac:(cbn; lia) ltac:(done)).
  unfold accept_chunk. cbn [bb_transfer_id begin_unknown_length] in Hg. rewrite Hg, Hmax. done.
Qed.
End transfer.

(** ** The bounded reference in application messages *)

(** [write!("{byte:02x}")] and [u8::from_str_radix(_, 16)], on ASCII bytes. *)
Definition hex_digit (n : Z) : Z := if n <? 10 then 48 + n else 87 + n.
Definition hex_value (b : Z) : option Z :=
  if (48 <=? b) && (b <=? 57) then Some (b - 48)
  else if (97 <=? b) && (b <=? 102) then Some (b - 87)
  else if (65 <=? b) && (b <=? 70) then Some (b - 55)
  else None.
(** [u8::is_ascii_uppercase]. *)
Definition is_ascii_uppercase (b : Z) : bool := (65 <=? b) && (b <=? 90).

(** bulk.rs:714-721 hex32::serialize. *)
Fixpoint hex32_serialize (value : bytes) : bytes :=
  match value with
  | [] => []
  | byte :: value => hex_digit (byte / 16) :: hex_digit (byte mod 16) :: hex32_serialize value
  end.

Inductive hex_error := HexLength | HexUppercase | HexInvalid.

(** The loop over the 32 output slots. *)
Fixpoint hex_pairs (text : bytes) : result hex_error bytes :=
  match text with
  | hi :: lo :: text =>
      h ← ok_or (hex_value hi) HexInvalid;
      l ← ok_or (hex_value lo) HexInvalid;
      rest ← hex_pairs text;
      Ok (h * 16 + l :: rest)
  | _ => Ok []
  end.

(** bulk.rs:723-737 hex32::deserialize. *)
Definition hex32_deserialize (text : bytes) : result hex_error bytes :=
  if negb (zlen text =? 64) || negb (forallb (fun b => bool_decide (is_Some (hex_value b))) text)
  then Err HexLength else
  if existsb is_ascii_uppercase text then Err HexUppercase else
  hex_pairs text.

(** bulk.rs:776-787 RemoteBulkTransferRef. *)
Record RemoteBulkTransferRef := mkTransferRef {
  tr_transfer_id : RemoteTransferId;
  tr_total_length : CanonicalU64DecimalStringV1;
  tr_sha256 : bytes;
  tr_mime_class : RemoteBulkMimeClass;
}.

(** bulk.rs:809-814 RemoteBulkTransferRef::validate. *)
Definition ref_validate (r : RemoteBulkTransferRef) : RemoteTransportResult unit :=
  total ← cu_value (tr_total_length r);
  if max_total_length (tr_mime_class r) <? total then Err (bulk_err BulkClassLimit) else Ok tt.

(** bulk.rs:790-804 RemoteBulkTransferRef::new. *)
Definition ref_new (id : RemoteTransferId) (total_length : Z) (digest : bytes)
    (c : RemoteBulkMimeClass) : RemoteTransportResult RemoteBulkTransferRef :=
  let reference := mkTransferRef id (cu_from_u64 total_length) digest c in
  _ ← ref_validate reference;
  Ok reference.

(** bulk.rs:753-760 RemoteBulkTransferRefWire. The wire shape, fields not yet checked
    against each other. *)
Record RemoteBulkTransferRefWire := mkTransferRefWire {
  tw_transfer_id : RemoteTransferId;
  tw_total_length : CanonicalU64DecimalStringV1;
  tw_sha256 : bytes;
  tw_mime_class : RemoteBulkMimeClass;
}.

(** bulk.rs:765-773 RemoteBulkTransferRef::try_from. *)
Definition ref_try_from (w : RemoteBulkTransferRefWire) : RemoteTransportResult RemoteBulkTransferRef :=
  total ← cu_value (tw_total_length w);
  ref_new (tw_transfer_id w) total (tw_sha256 w) (tw_mime_class w).

(** bulk.rs:816-818 RemoteBulkTransferRef::total_length_value. *)
Definition total_length_value (r : RemoteBulkTransferRef) : RemoteTransportResult Z :=
  cu_value (tr_total_length r).

Lemma hex_value_digit n :
  0 <= n < 16 -> hex_value (hex_digit n) = Some n /\ is_ascii_uppercase (hex_digit n) = false.
Proof.
  intros Hn. unfold hex_digit. destruct (Z.ltb_spec n 10); unfold hex_value, is_ascii_uppercase.
  - replace ((48 <=? 48 + n) && (48 + n <=? 57)) with true by lia.
    split; [f_equal; lia|lia].
  - replace ((48 <=? 87 + n) && (87 + n <=? 57)) with false by lia.
    replace ((97 <=? 87 + n) && (87 + n <=? 102)) with true by lia.
    split; [f_equal; lia|lia].
Qed.

Lemma hex32_serialize_spec v :
  all_u8 v ->
  zlen (hex32_serialize v) = 2 * zlen v /\
  forallb (fun b => bool_decide (is_Some (hex_value b))) (hex32_serialize v) = true /\
  existsb is_ascii_uppercase (hex32_serialize v) = false /\
  hex_pairs (hex32_serialize v) = Ok v.
Proof.
  induction 1 as [|b v Hb Hv IH]; [done|]. destruct IH as (IH1 & IH2 & IH3 & IH4).
  unfold is_u8, U8_MAX in Hb.
  pose proof (Z.div_mod b 16 ltac:(lia)). pose proof (Z.mod_pos_bound b 16 ltac:(lia)).
  destruct (hex_value_digit (b / 16)) as [V1 U1]; [lia|].
  destruct (hex_value_digit (b mod 16)) as [V2 U2]; [lia|].
  cbn [hex32_serialize forallb existsb hex_pairs]. rewrite !zlen_cons, V1, V2, U1, U2, IH2, IH3, IH4.
  split; [lia|]. split_and!; [by rewrite !bool_decide_true by (by eexists)|done|].
  cbn. do 2 f_equal. lia.
Qed.

(** A digest survives its lowercase-hex spelling. *)
Lemma hex32_roundtrip v : length v = 32%nat -> all_u8 v -> hex32_deserialize (hex32_serialize v) = Ok v.
Proof.
  intros Hl Hv. destruct (hex32_serialize_spec v Hv) as (H1 & H2 & H3 & H4).
  unfold hex32_deserialize. rewrite H1, H2, H3, H4. unfold zlen. by rewrite Hl.
Qed.

(** A transfer reference that exists is within its class limit: building one from
    values, or from the unchecked wire shape whose length field was itself parsed,
    yields either the class-limit error or a reference carrying exactly those
    values, with a length of at most the class limit; it never panics. *)
Theorem bulk_ref_bounded (id : RemoteTransferId) (total : Z) (digest : bytes)
    (c : RemoteBulkMimeClass) (text : bytes) (len : CanonicalU64DecimalStringV1) :
  cu_parse text = Ok len ->
  total_length_value (mkTransferRef id len digest c) = Ok total ->
  ref_try_from (mkTransferRefWire id len digest c) = ref_new id total digest c /\
  ((total <= max_total_length c /\ ref_new id total digest c = Ok (mkTransferRef id len digest c)) \/
   (max_total_length c < total /\ ref_new id total digest c = Err (bulk_err BulkClassLimit))).
Proof.
  intros Hp Ht. unfold total_length_value in Ht. cbn in Ht. unfold ref_try_from. cbn [tw_total_length
    tw_transfer_id tw_sha256 tw_mime_class]. rewrite Ht, bind_Ok_l. split; [done|].
  assert (len = cu_from_u64 total /\ is_u64 total) as [-> Hu].
  { unfold cu_parse in Hp. ok_inv Hp. subst len. pose proof B as B'.
    apply u64_canonical_inv in B as [Hx ->].
    assert (x = total) as ->; [|done].
    unfold cu_value in Ht. cbn [cu_str] in Ht. rewrite B' in Ht. by injection Ht. }
  unfold ref_new, ref_validate. cbn [tr_total_length tr_mime_class].
  rewrite cu_value_from_u64, bind_Ok_l by done.
  destruct (Z.ltb_spec (max_total_length c) total); [by right|by left].
Qed.

(** ** Witnesses: an opaque transfer of unknown length, two chunks. *)

Definition sample_begin : RemoteBulkBegin := begin_unknown_length sample_transfer_id Opaque_.
Definition sample_payloads : list bytes := [[1; 2; 3]; [4]].
Definition sample_transfer : @RemoteBulkTransferState Toy_sha256 :=
  @mkTransfer Toy_sha256 sample_transfer_id Opaque_ None None MAX_TRANSFER_BYTES 0 0 0
    MAX_RECEIVER_WINDOW_BYTES (@hasher_new Toy_sha256) Active.
Definition sample_after : @RemoteBulkTransferState Toy_sha256 :=
  (accept_chunk sample_transfer (mkChunk sample_transfer_id 0 0 [1; 2; 3])).1.
Definition sample_complete : RemoteBulkComplete :=
  mkComplete sample_transfer_id 3 (@sha256 Toy_sha256 [1; 2; 3]).

Lemma sample_reach : transfer_reach sample_begin sample_after [[1; 2; 3]].
Proof.
  apply (reach_chunk sample_begin sample_transfer sample_after
           (mkChunk sample_transfer_id 0 0 [1; 2; 3]) []); [by apply reach_begin|done].
Qed.

Lemma bulk_transfer_invariant_witness :
  bt_received sample_after = 3 /\ running_digest sample_after = @sha256 Toy_sha256 [1; 2; 3].
Proof.
  destruct (bulk_transfer_invariant sample_begin sample_after [[1; 2; 3]] sample_reach)
    as (H1 & H2 & _).
  split; [exact H1|exact H2].
Defined.

Lemma bulk_complete_exact_witness : (transfer_complete sample_after sample_complete).2 = Ok tt.
Proof.
  apply (bulk_complete_exact sample_begin sample_after [[1; 2; 3]] sample_complete sample_reach).
  split; [reflexivity|]. split; [reflexivity|]. split; [reflexivity|]. split; [reflexivity|].
  split; discriminate.
Defined.

Lemma bulk_terminal_absorbing_witness :
  let t := (transfer_complete sample_after sample_complete).1 in
  bt_status (fold_left (fun t op => (transfer_step t op).1)
    [OpAbort (mkAbort sample_transfer_id Cancelled); OpChunk sample_chunk] t) = bt_status t.
Proof.
  apply (bulk_terminal_absorbing (transfer_complete sample_after sample_complete).1
    [OpAbort (mkAbort sample_transfer_id Cancelled); OpChunk sample_chunk]).
  vm_compute. discriminate.
Defined.

Lemma bulk_panic_only_counter_witness :
  (transfer_step sample_after (OpComplete sample_complete)).2 <> Panic.
Proof.
  intros Hp.
  apply (bulk_panic_only_counter sample_begin sample_after [[1; 2; 3]]
           (OpComplete sample_complete) sample_reach) in Hp as (c & Hc & _).
  discriminate Hc.
Defined.

Lemma bulk_delivery_completes_witness :
  exists t', run_transfer sample_transfer (send_ops sample_transfer_id 0 0 sample_payloads ++
      [OpComplete (mkComplete sample_transfer_id 4 (@sha256 Toy_sha256 [1; 2; 3; 4]))]) = (t', true)
    /\ bt_status t' = Completed.
Proof.
  destruct (bulk_delivery_completes sample_begin sample_transfer sample_payloads)
    as (t' & H1 & H2 & _); [reflexivity|repeat constructor; vm_compute; discriminate
      |vm_compute; discriminate|vm_compute; discriminate|discriminate|discriminate|].
  exists t'. split; [exact H1|exact H2].
Defined.

Lemma bulk_ref_bounded_witness :
  ref_try_from (mkTransferRefWire sample_transfer_id (mkCanonicalU64 [51]) [] Image)
    = ref_new sample_transfer_id 3 [] Image.
Proof.
  apply (bulk_ref_bounded sample_transfer_id 3 [] Image [51] (mkCanonicalU64 [51]));
    vm_compute; reflexivity.
Defined.
