(* ===== verification/Scheduler.v ===== *)
(** Queue limits and deterministic lane scheduling
    ([remote_transport/scheduler.rs]): [RemoteLaneScheduler].

    The three-element lane array is a record with one queue per lane.  A
    [BTreeMap] of streams is a [gmap], a [VecDeque] a list.  [enqueue] answers a
    [RemoteQueueOutcome]; the only [Panic] it could raise is the unsigned
    subtraction in [shared_pool_bytes], which valid limits exclude. *)

From S2P Require Import Prelude.
From S2P Require Import Lane.
From S2P Require Import ProtocolId.
From S2P Require Import Frame.
From S2P Require Import Fragment.
From stdpp Require Import options.
Set Warnings "-clear-no-such-hyp".

(** scheduler.rs:20-29 LANE_SCHEDULE. *)
Definition LANE_SCHEDULE : list RemoteLane :=
  [Control; Interactive; Control; Bulk; Interactive; Control; Interactive; Bulk].

(** scheduler.rs:33-33 DRR_QUANTUM_BYTES. *)
Definition DRR_QUANTUM_BYTES : Z := REMOTE_CARRIER_FRAGMENT_MAX_PAYLOAD_BYTES.

(** scheduler.rs:36-50 RemoteQueueLimits. *)
Record RemoteQueueLimits := mkLimits {
  control_frames : Z;
  control_bytes : Z;
  interactive_frames : Z;
  interactive_bytes : Z;
  bulk_frames : Z;
  bulk_bytes : Z;
  limit_aggregate_bytes : Z;
  control_reserved_bytes : Z;
  control_reserved_frames : Z;
  interactive_reserved_bytes : Z;
}.

(** scheduler.rs:69-80 RemoteQueueLimits::DEFAULT. *)
Definition RemoteQueueLimits_DEFAULT : RemoteQueueLimits :=
  mkLimits 256 (2 * 1024 * 1024) 512 (8 * 1024 * 1024) 128 (8 * 1024 * 1024)
    (16 * 1024 * 1024) (1024 * 1024) 32 (2 * 1024 * 1024).

(** scheduler.rs:82-88 RemoteQueueLimits::frames_for. *)
Definition frames_for (m : RemoteQueueLimits) (lane : RemoteLane) : Z :=
  match lane with
  | Control => control_frames m | Interactive => interactive_frames m | Bulk => bulk_frames m
  end.

(** scheduler.rs:90-96 RemoteQueueLimits::bytes_for. *)
Definition bytes_for (m : RemoteQueueLimits) (lane : RemoteLane) : Z :=
  match lane with
  | Control => control_bytes m | Interactive => interactive_bytes m | Bulk => bulk_bytes m
  end.

(** scheduler.rs:99-105 RemoteQueueLimits::reserved_bytes_for. *)
Definition reserved_bytes_for (m : RemoteQueueLimits) (lane : RemoteLane) : Z :=
  match lane with
  | Control => control_reserved_bytes m
  | Interactive => interactive_reserved_bytes m
  | Bulk => 0
  end.

(** scheduler.rs:108-110 RemoteQueueLimits::shared_pool_bytes. *)
Definition shared_pool_bytes (m : RemoteQueueLimits) : RemoteTransportResult Z :=
  rest ← sub_in (limit_aggregate_bytes m) (control_reserved_bytes m);
  sub_in rest (interactive_reserved_bytes m).

(** scheduler.rs:124-133 RemoteQueueOutcome. *)
Inductive RemoteQueueOutcome :=
| Enqueued
| Rejected (e : RemoteTransportError)
| Backpressure (e : RemoteTransportError)
| CloseStream (e : RemoteTransportError).

(** scheduler.rs:136-138 RemoteQueueOutcome::is_enqueued. *)
Definition is_enqueued (o : RemoteQueueOutcome) : bool :=
  match o with Enqueued => true | _ => false end.

(** scheduler.rs:140-147 RemoteQueueOutcome::error. *)
Definition outcome_error (o : RemoteQueueOutcome) : option RemoteTransportError :=
  match o with
  | Enqueued => None
  | Rejected e | Backpressure e | CloseStream e => Some e
  end.

(** scheduler.rs:150-156 RemoteQueueOutcome::for_lane. *)
Definition outcome_for_lane (lane : RemoteLane) (e : RemoteTransportError) : RemoteQueueOutcome :=
  match lane with
  | Bulk => Rejected e
  | Interactive => Backpressure e
  | Control => CloseStream e
  end.

(** scheduler.rs:171-181 RemoteSendRequest. *)
Record RemoteSendRequest := mkRequest {
  rq_lane : RemoteLane;
  rq_stream_id : Z;
  rq_fragment : RemoteCarrierFragmentV1;
  rq_accounted_bytes : option Z;
}.

(** scheduler.rs:188-192 QueuedFragment. *)
Record QueuedFragment := mkQueued {
  qf_fragment : RemoteCarrierFragmentV1;
  qf_accounted_bytes : option Z;
}.

(** scheduler.rs:194-198 StreamQueue. *)
Record StreamQueue := mkStreamQueue {
  st_fragments : list QueuedFragment;
  st_deficit : Z;
}.
Definition stream_queue_default : StreamQueue := mkStreamQueue [] 0.

(** scheduler.rs:200-208 LaneQueue. *)
Record LaneQueue := mkLaneQueue {
  lq_streams : gmap Z StreamQueue;
  lq_order : list Z;
  lq_frames : Z;
  lq_bytes : Z;
  lq_writable : bool;
}.

(** scheduler.rs:211-215 RemoteLaneScheduler. *)
Record RemoteLaneScheduler := mkScheduler {
  sc_limits : RemoteQueueLimits;
  sc_control : LaneQueue;
  sc_interactive : LaneQueue;
  sc_bulk : LaneQueue;
  sc_cursor : Z;
}.

(** [self.lanes[lane as usize]], read and write. *)
Definition lane_queue (s : RemoteLaneScheduler) (lane : RemoteLane) : LaneQueue :=
  match lane with
  | Control => sc_control s | Interactive => sc_interactive s | Bulk => sc_bulk s
  end.
Definition set_lane_queue (s : RemoteLaneScheduler) (lane : RemoteLane) (q : LaneQueue) :=
  match lane with
  | Control => mkScheduler (sc_limits s) q (sc_interactive s) (sc_bulk s) (sc_cursor s)
  | Interactive => mkScheduler (sc_limits s) (sc_control s) q (sc_bulk s) (sc_cursor s)
  | Bulk => mkScheduler (sc_limits s) (sc_control s) (sc_interactive s) q (sc_cursor s)
  end.
Definition set_cursor (s : RemoteLaneScheduler) (c : Z) :=
  mkScheduler (sc_limits s) (sc_control s) (sc_interactive s) (sc_bulk s) c.

(** scheduler.rs:237-257 RemoteLaneScheduler::new. *)
Definition scheduler_new (limits : RemoteQueueLimits) : RemoteLaneScheduler :=
  let q := mkLaneQueue ∅ [] 0 0 true in
  mkScheduler limits q q q 0.

(** scheduler.rs:263-265 RemoteLaneScheduler::queued_frames. *)
Definition queued_frames (s : RemoteLaneScheduler) (lane : RemoteLane) : Z :=
  lq_frames (lane_queue s lane).
(** scheduler.rs:267-269 RemoteLaneScheduler::queued_bytes. *)
Definition queued_bytes (s : RemoteLaneScheduler) (lane : RemoteLane) : Z :=
  lq_bytes (lane_queue s lane).

(** scheduler.rs:271-276 RemoteLaneScheduler::aggregate_bytes. *)
Definition aggregate_bytes (s : RemoteLaneScheduler) : Z :=
  foldr (fun lane acc => lq_bytes (lane_queue s lane) + acc) 0 RemoteLane_ALL.

(** scheduler.rs:279-288 RemoteLaneScheduler::shared_usage. *)
Definition shared_usage (s : RemoteLaneScheduler) : Z :=
  foldr (fun lane acc =>
    saturating_sub (lq_bytes (lane_queue s lane)) (reserved_bytes_for (sc_limits s) lane) + acc)
    0 RemoteLane_ALL.

(** scheduler.rs:292-294 RemoteLaneScheduler::set_lane_writable. *)
Definition set_lane_writable (s : RemoteLaneScheduler) (lane : RemoteLane) (w : bool) :=
  let q := lane_queue s lane in
  set_lane_queue s lane (mkLaneQueue (lq_streams q) (lq_order q) (lq_frames q) (lq_bytes q) w).
(** scheduler.rs:296-298 RemoteLaneScheduler::is_lane_writable. *)
Definition is_lane_writable (s : RemoteLaneScheduler) (lane : RemoteLane) : bool :=
  lq_writable (lane_queue s lane).

(** scheduler.rs:378-385 RemoteLaneScheduler::enqueue. The queued form of a frame's
    fragments: the last one carries the charge. *)
Definition charge (size : Z) (fragments : list RemoteCarrierFragmentV1) : list QueuedFragment :=
  imap (fun index fragment =>
    mkQueued fragment (if Nat.eqb index (length fragments - 1) then Some size else None)) fragments.

(** scheduler.rs:375-390 RemoteLaneScheduler::enqueue. The queueing itself, after admission. *)
Definition push_frame (q : LaneQueue) (stream_id size : Z)
    (fragments : list RemoteCarrierFragmentV1) : LaneQueue :=
  let stream := default stream_queue_default (lq_streams q !! stream_id) in
  let was_empty := bool_decide (st_fragments stream = []) in
  let stream := mkStreamQueue (st_fragments stream ++ charge size fragments) (st_deficit stream) in
  mkLaneQueue (<[stream_id := stream]> (lq_streams q))
    (if was_empty then lq_order q ++ [stream_id] else lq_order q)
    (lq_frames q + 1) (lq_bytes q + size) (lq_writable q).

Section scheduler.
Context `{Sha256}.

(** scheduler.rs:304-392 RemoteLaneScheduler::enqueue. *)
Definition scheduler_enqueue (s : RemoteLaneScheduler) (frame : RemoteTransportFrameV1)
    : RemoteLaneScheduler * RemoteTransportResult RemoteQueueOutcome :=
  let lane := frame_lane frame in
  let size := serialized_len frame in
  let q := lane_queue s lane in
  if frames_for (sc_limits s) lane <? lq_frames q + 1 then
    (s, Ok (outcome_for_lane lane
      (err_with_lane (if decide (lane = Control) then ControlQueueOverflow else QueueFrameLimit) lane)))
  else if bytes_for (sc_limits s) lane <? lq_bytes q + size then
    (s, Ok (outcome_for_lane lane
      (err_with_size (if decide (lane = Control) then ControlQueueOverflow else QueueByteLimit)
         lane size)))
  else
  let reserved_bytes :=
    if bool_decide (lane = Control) && (control_reserved_frames (sc_limits s) <=? lq_frames q)
    then 0 else reserved_bytes_for (sc_limits s) lane in
  let reserved_headroom := saturating_sub reserved_bytes (lq_bytes q) in
  let from_shared := saturating_sub size reserved_headroom in
  match shared_pool_bytes (sc_limits s) with
  | Err e => (s, Err e)
  | Panic => (s, Panic)
  | Ok pool =>
  if pool <? shared_usage s + from_shared then
    (s, Ok (outcome_for_lane lane (err_with_size QueueAggregateLimit lane size)))
  else
  match frame_encode frame with
  | Err e => (s, Ok (outcome_for_lane lane e))
  | Panic => (s, Panic)
  | Ok serialized =>
  match fragment_frame lane (frame_id frame) serialized with
  | Err e => (s, Ok (outcome_for_lane lane e))
  | Panic => (s, Panic)
  | Ok fragments =>
      (set_lane_queue s lane (push_frame q (frame_stream_id frame) size fragments), Ok Enqueued)
  end
  end
  end.
End scheduler.

(** Release the charge of a queued fragment. *)
Definition settle (fb : Z * Z) (accounted : option Z) : Z * Z :=
  match accounted with
  | Some b => (saturating_sub fb.1 1, saturating_sub fb.2 b)
  | None => fb
  end.

(** scheduler.rs:411-435 RemoteLaneScheduler::pop_from_lane. On the lane's queue. *)
Definition queue_pop (q : LaneQueue) : LaneQueue * option (Z * QueuedFragment) :=
  if negb (lq_writable q) then (q, None) else
  match lq_order q with
  | [] => (q, None)
  | stream_id :: order =>
      match lq_streams q !! stream_id with
      | None => (mkLaneQueue (lq_streams q) order (lq_frames q) (lq_bytes q) (lq_writable q), None)
      | Some stream =>
          let deficit := st_deficit stream + DRR_QUANTUM_BYTES in
          match st_fragments stream with
          | [] =>
              (mkLaneQueue (<[stream_id := mkStreamQueue [] deficit]> (lq_streams q)) order
                 (lq_frames q) (lq_bytes q) (lq_writable q), None)
          | queued :: rest =>
              let deficit := saturating_sub deficit (zlen (frag_bytes (qf_fragment queued))) in
              let '(streams, order) :=
                match rest with
                | [] => (delete stream_id (lq_streams q), order)
                | _ => (<[stream_id := mkStreamQueue rest deficit]> (lq_streams q),
                        order ++ [stream_id])
                end in
              let '(frames, nbytes) :=
                settle (lq_frames q, lq_bytes q) (qf_accounted_bytes queued) in
              (mkLaneQueue streams order frames nbytes (lq_writable q), Some (stream_id, queued))
          end
      end
  end.

(** scheduler.rs:410-442 RemoteLaneScheduler::pop_from_lane. *)
Definition pop_from_lane (s : RemoteLaneScheduler) (lane : RemoteLane)
    : RemoteLaneScheduler * option RemoteSendRequest :=
  let '(q, popped) := queue_pop (lane_queue s lane) in
  (set_lane_queue s lane q,
   match popped with
   | Some (stream_id, queued) =>
       Some (mkRequest lane stream_id (qf_fragment queued) (qf_accounted_bytes queued))
   | None => None
   end).

(** scheduler.rs:400-407 RemoteLaneScheduler::next_fragment. The slots examined by one call, at most one turn of the
    schedule; the modulus keeps the cursor inside it. *)
Fixpoint next_from (fuel : nat) (s : RemoteLaneScheduler)
    : RemoteLaneScheduler * option RemoteSendRequest :=
  match fuel with
  | O => (s, None)
  | S fuel =>
      match LANE_SCHEDULE !! Z.to_nat (sc_cursor s) with
      | None => (s, None)
      | Some lane =>
          let s := set_cursor s ((sc_cursor s + 1) mod zlen LANE_SCHEDULE) in
          match pop_from_lane s lane with
          | (s, Some request) => (s, Some request)
          | (s, None) => next_from fuel s
          end
      end
  end.

(** scheduler.rs:397-408 RemoteLaneScheduler::next_fragment. *)
Definition next_fragment (s : RemoteLaneScheduler)
    : RemoteLaneScheduler * option RemoteSendRequest :=
  next_from (length LANE_SCHEDULE) s.

(** scheduler.rs:458-469 RemoteLaneScheduler::requeue. On the lane's queue. *)
Definition queue_requeue (q : LaneQueue) (stream_id : Z) (fragment : RemoteCarrierFragmentV1)
    (accounted : option Z) : LaneQueue :=
  let '(frames, nbytes) :=
    match accounted with
    | Some b => (lq_frames q + 1, lq_bytes q + b)
    | None => (lq_frames q, lq_bytes q)
    end in
  let stream := default stream_queue_default (lq_streams q !! stream_id) in
  let stream := mkStreamQueue (mkQueued fragment accounted :: st_fragments stream)
                  (st_deficit stream) in
  mkLaneQueue (<[stream_id := stream]> (lq_streams q))
    (stream_id :: filter (fun id => id <> stream_id) (lq_order q)) frames nbytes (lq_writable q).

(** scheduler.rs:451-470 RemoteLaneScheduler::requeue. *)
Definition scheduler_requeue (s : RemoteLaneScheduler) (r : RemoteSendRequest) : RemoteLaneScheduler :=
  set_lane_queue s (rq_lane r)
    (queue_requeue (lane_queue s (rq_lane r)) (rq_stream_id r) (rq_fragment r)
       (rq_accounted_bytes r)).

(** scheduler.rs:479-488 RemoteLaneScheduler::close_stream. On the lane's queue. *)
Definition queue_close (q : LaneQueue) (stream_id : Z) : LaneQueue :=
  let '(streams, frames, nbytes) :=
    match lq_streams q !! stream_id with
    | None => (lq_streams q, lq_frames q, lq_bytes q)
    | Some stream =>
        let '(frames, nbytes) :=
          foldl settle (lq_frames q, lq_bytes q) (qf_accounted_bytes <$> st_fragments stream) in
        (delete stream_id (lq_streams q), frames, nbytes)
    end in
  mkLaneQueue streams (filter (fun id => id <> stream_id) (lq_order q)) frames nbytes
    (lq_writable q).

(** scheduler.rs:478-489 RemoteLaneScheduler::close_stream. *)
Definition close_stream (s : RemoteLaneScheduler) (lane : RemoteLane) (stream_id : Z)
    : RemoteLaneScheduler :=
  set_lane_queue s lane (queue_close (lane_queue s lane) stream_id).

(** scheduler.rs:491-495 RemoteLaneScheduler::has_pending. *)
Definition has_pending (s : RemoteLaneScheduler) : bool :=
  existsb (fun lane => negb (bool_decide (lq_order (lane_queue s lane) = []))) RemoteLane_ALL.

(** ** Accounting: the charges carried by queued fragments *)

Definition frame_charge (x : QueuedFragment) : Z :=
  match qf_accounted_bytes x with Some _ => 1 | None => 0 end.
Definition byte_charge (x : QueuedFragment) : Z := default 0 (qf_accounted_bytes x).
Definition charges (c : QueuedFragment -> Z) (l : list QueuedFragment) : Z :=
  foldr (fun x acc => c x + acc) 0 l.

Lemma charges_cons c x l : charges c (x :: l) = c x + charges c l.
Proof. done. Qed.
Lemma charges_app c l k : charges c (l ++ k) = charges c l + charges c k.
Proof. induction l as [|x l IH]; [done|]. rewrite <- app_comm_cons, !charges_cons, IH. lia. Qed.
Lemma charges_nonneg c l : (forall x, x ∈ l -> 0 <= c x) -> 0 <= charges c l.
Proof.
  induction l as [|x l IH]; intros Hc; [done|]. rewrite charges_cons.
  pose proof (Hc x ltac:(left)). assert (0 <= charges c l); [|lia].
  apply IH. intros y Hy. apply Hc. by right.
Qed.

(** The last of a frame's fragments carries all of its charge. *)
Lemma charge_charges size frs :
  frs <> [] -> charges frame_charge (charge size frs) = 1 /\ charges byte_charge (charge size frs) = size.
Proof.
  intros Hne. destruct frs as [|f frs _] using rev_ind; [done|]. unfold charge.
  rewrite imap_app. cbn [imap].
  assert (forall (g : nat -> RemoteCarrierFragmentV1 -> QueuedFragment) c (l : list RemoteCarrierFragmentV1),
    (forall i x, (i < length l)%nat -> c (g i x) = 0) -> charges c (imap g l) = 0) as Hz.
  { intros g c l. revert g. induction l as [|x l IH]; intros g Hg; [done|].
    cbn [imap]. rewrite charges_cons, Hg, IH by (cbn; try lia; intros; apply Hg; cbn; lia). lia. }
  rewrite !charges_app, length_app. cbn [length].
  rewrite !Hz; [rewrite Nat.add_0_r; replace (length frs + 1 - 1)%nat with (length frs) by lia; rewrite Nat.eqb_refl; cbn; lia|..];
    intros i x Hi; unfold byte_charge, frame_charge; cbn;
    rewrite (proj2 (Nat.eqb_neq _ _)) by lia; done.
Qed.

Record lane_inv (q : LaneQueue) : Prop := {
  li_nodup : NoDup (lq_order q);
  li_order : forall id, id ∈ lq_order q <-> is_Some (lq_streams q !! id);
  li_nonempty : forall id st, lq_streams q !! id = Some st -> st_fragments st <> [];
  li_nonneg : forall id st x, lq_streams q !! id = Some st -> x ∈ st_fragments st -> 0 <= byte_charge x;
  li_frames : lq_frames q = map_sum (fun _ st => charges frame_charge (st_fragments st)) (lq_streams q);
  li_bytes : lq_bytes q = map_sum (fun _ st => charges byte_charge (st_fragments st)) (lq_streams q);
}.

(** What is queued for one stream. *)
Definition contents (q : LaneQueue) (id : Z) : list QueuedFragment :=
  from_option st_fragments [] (lq_streams q !! id).

(** Replacing one stream's contents moves the totals by the difference. *)
Lemma total_set c q id st :
  map_sum (fun _ st => charges c (st_fragments st)) (<[id := st]> (lq_streams q)) =
  map_sum (fun _ st => charges c (st_fragments st)) (lq_streams q)
    - charges c (contents q id) + charges c (st_fragments st).
Proof.
  unfold contents. destruct (lq_streams q !! id) as [old|] eqn:Hid; cbn [from_option].
  - by rewrite (map_sum_update _ _ _ _ _ Hid).
  - rewrite map_sum_insert by done. change (charges c []) with 0. lia.
Qed.

Lemma total_delete c q id :
  map_sum (fun _ st => charges c (st_fragments st)) (delete id (lq_streams q)) =
  map_sum (fun _ st => charges c (st_fragments st)) (lq_streams q) - charges c (contents q id).
Proof.
  unfold contents. destruct (lq_streams q !! id) as [old|] eqn:Hid; cbn [from_option].
  - pose proof (map_sum_delete (fun _ st => charges c (st_fragments st)) _ _ _ Hid) as Hs.
    cbv beta in Hs. lia.
  - rewrite delete_id by done. change (charges c []) with 0. lia.
Qed.

Lemma contents_le c q id :
  (forall id st x, lq_streams q !! id = Some st -> x ∈ st_fragments st -> 0 <= c x) ->
  charges c (contents q id)
    <= map_sum (fun _ st => charges c (st_fragments st)) (lq_streams q).
Proof.
  intros Hc. pose proof (total_delete c q id) as Ht.
  assert (0 <= map_sum (fun _ st => charges c (st_fragments st)) (delete id (lq_streams q))); [|lia].
  apply map_sum_nonneg. intros k st [_ Hk]%lookup_delete_Some. apply charges_nonneg. eauto.
Qed.

Lemma frame_charge_nonneg x : 0 <= frame_charge x.
Proof. unfold frame_charge. by destruct (qf_accounted_bytes x). Qed.

Lemma inv_totals q id :
  lane_inv q ->
  0 <= charges frame_charge (contents q id) <= lq_frames q /\
  0 <= charges byte_charge (contents q id) <= lq_bytes q.
Proof.
  intros Hq. rewrite (li_frames q Hq), (li_bytes q Hq). split; split.
  - apply charges_nonneg. intros. apply frame_charge_nonneg.
  - apply contents_le. intros. apply frame_charge_nonneg.
  - apply charges_nonneg. unfold contents. destruct (lq_streams q !! id) eqn:E; [|set_solver].
    intros x Hx. by eapply li_nonneg.
  - apply contents_le. intros. by eapply li_nonneg.
Qed.

Lemma contents_charge_nonneg q id x : lane_inv q -> x ∈ contents q id -> 0 <= byte_charge x.
Proof.
  intros Hq. unfold contents. destruct (lq_streams q !! id) eqn:E; [|set_solver].
  intros Hx. by eapply li_nonneg.
Qed.

Lemma contents_nil q id : lane_inv q -> contents q id = [] <-> lq_streams q !! id = None.
Proof.
  intros Hq. unfold contents. destruct (lq_streams q !! id) as [st|] eqn:E; [|done].
  cbn. split; [|done]. intros Hn. by destruct (li_nonempty q Hq id st E).
Qed.

Lemma contents_order q id : lane_inv q -> id ∈ lq_order q <-> contents q id <> [].
Proof.
  intros Hq. rewrite (li_order q Hq), (contents_nil q id Hq). rewrite <- not_eq_None_Some. done.
Qed.

(** Settling a run of charges subtracts their sum when it is covered. *)
Lemma settle_charges l : forall f b,
  (forall x, x ∈ l -> 0 <= byte_charge x) ->
  charges frame_charge l <= f -> charges byte_charge l <= b ->
  foldl settle (f, b) (qf_accounted_bytes <$> l)
    = (f - charges frame_charge l, b - charges byte_charge l).
Proof.
  induction l as [|x l IH]; intros f b Hn Hf Hb; [cbn; f_equal; lia|].
  rewrite charges_cons in Hf, Hb. rewrite fmap_cons. cbn [foldl].
  assert (0 <= charges byte_charge l) as Hnb by (apply charges_nonneg; intros; apply Hn; by right).
  assert (0 <= charges frame_charge l) as Hnf by (apply charges_nonneg; intros; apply frame_charge_nonneg).
  pose proof (Hn x ltac:(left)) as Hx. rewrite !charges_cons.
  assert (settle (f, b) (qf_accounted_bytes x) = (f - frame_charge x, b - byte_charge x)) as ->.
  { unfold settle, frame_charge, byte_charge in *. destruct (qf_accounted_bytes x); cbn in *; [|f_equal; lia].
    unfold saturating_sub. f_equal; lia. }
  rewrite IH; [f_equal; lia|intros; apply Hn; by right|lia|lia].
Qed.

(** ** The four lane operations against the contents view *)

(** Replacing the queue of one stream, with its place in the order. *)
Lemma lane_inv_set q id st order f b :
  lane_inv q -> st_fragments st <> [] ->
  (forall x, x ∈ st_fragments st -> 0 <= byte_charge x) ->
  NoDup order -> (forall k, k ∈ order <-> k = id \/ k ∈ lq_order q) ->
  f = lq_frames q - charges frame_charge (contents q id) + charges frame_charge (st_fragments st) ->
  b = lq_bytes q - charges byte_charge (contents q id) + charges byte_charge (st_fragments st) ->
  lane_inv (mkLaneQueue (<[id := st]> (lq_streams q)) order f b (lq_writable q)).
Proof.
  intros [H1 H2 H3 H4 H5 H6] Hne Hnn Hnd Hord Hf Hb. split; cbn; try done.
  - intros k. rewrite Hord, lookup_insert, H2. case_decide as Hk; split; intros Hx; eauto.
    destruct Hx as [->|]; [done|done].
  - intros k st'. rewrite lookup_insert. case_decide; [by intros [= <-]|apply H3].
  - intros k st' x. rewrite lookup_insert. case_decide; [by intros [= <-]; apply Hnn|apply H4].
  - rewrite total_set. lia.
  - rewrite total_set. lia.
Qed.

Lemma lane_inv_delete q id order :
  lane_inv q -> NoDup order -> (forall k, k ∈ order <-> k <> id /\ k ∈ lq_order q) ->
  lane_inv (mkLaneQueue (delete id (lq_streams q)) order
    (lq_frames q - charges frame_charge (contents q id))
    (lq_bytes q - charges byte_charge (contents q id)) (lq_writable q)).
Proof.
  intros [H1 H2 H3 H4 H5 H6] Hnd Hord. split; cbn; try done.
  - intros k. rewrite Hord, lookup_delete, H2. case_decide as Hk; split; intros Hx; try done;
      [by destruct Hx|by destruct Hx as [? ?]].
  - intros k st [_ Hk]%lookup_delete_Some. eauto.
  - intros k st x [_ Hk]%lookup_delete_Some. eauto.
  - rewrite total_delete. lia.
  - rewrite total_delete. lia.
Qed.

Lemma charge_nonneg size frs x : 0 <= size -> x ∈ charge size frs -> 0 <= byte_charge x.
Proof.
  intros Hs Hx. apply list_elem_of_lookup in Hx as [i Hi]. unfold charge in Hi.
  rewrite list_lookup_imap in Hi. destruct (frs !! i); [|done]. injection Hi as <-.
  unfold byte_charge. cbn. by destruct (Nat.eqb i _).
Qed.

Lemma charge_fragments size frs : qf_fragment <$> charge size frs = frs.
Proof.
  apply list_eq. intros i. unfold charge. rewrite list_lookup_fmap, list_lookup_imap.
  by destruct (frs !! i).
Qed.

Lemma push_frame_spec q id size frs :
  lane_inv q -> frs <> [] -> 0 <= size ->
  lane_inv (push_frame q id size frs) /\
  (forall k, contents (push_frame q id size frs) k =
     if decide (k = id) then contents q id ++ charge size frs else contents q k).
Proof.
  intros Hq Hne Hs. destruct (charge_charges size frs Hne) as [Cf Cb].
  assert (st_fragments (default stream_queue_default (lq_streams q !! id)) = contents q id) as Hc.
  { unfold contents. by destruct (lq_streams q !! id). }
  split.
  - unfold push_frame. rewrite Hc.
    apply (lane_inv_set q id (mkStreamQueue (contents q id ++ charge size frs) _)); cbn -[charges]; try done.
    + intros [_ Hn]%app_nil. apply (f_equal (fmap qf_fragment)) in Hn. rewrite charge_fragments in Hn. done.
    + intros x [Hx|Hx]%elem_of_app; [|by eapply charge_nonneg]. unfold contents in Hx.
      destruct (lq_streams q !! id) eqn:E; [|set_solver]. by eapply li_nonneg.
    + case_bool_decide as He; [|apply (li_nodup q Hq)].
      apply NoDup_app. split; [apply (li_nodup q Hq)|]. split; [|apply NoDup_singleton].
      intros k Hk ->%list_elem_of_singleton. by apply (contents_order q id Hq) in Hk.
    + intros k. case_bool_decide as He; [set_solver|].
      apply (contents_order q id Hq) in He. split; [by right|]. by intros [->|].
    + rewrite charges_app. lia.
    + rewrite charges_app. lia.
  - intros k. unfold contents at 1, push_frame. cbn. rewrite lookup_insert. rewrite Hc.
    case_decide; case_decide; try congruence; done.
Qed.

Lemma queue_pop_idle q :
  lq_writable q = false \/ lq_order q = [] -> queue_pop q = (q, None).
Proof. unfold queue_pop. intros [-> | ->]; [done|]. by destruct (negb _). Qed.

Lemma queue_pop_spec q id order :
  lane_inv q -> lq_writable q = true -> lq_order q = id :: order ->
  exists q' x, queue_pop q = (q', Some (id, x)) /\ lane_inv q' /\
    contents q id = x :: contents q' id /\
    (forall k, k <> id -> contents q' k = contents q k) /\
    lq_order q' = (if decide (contents q' id = []) then order else order ++ [id]) /\
    lq_frames q' = lq_frames q - frame_charge x /\ lq_bytes q' = lq_bytes q - byte_charge x /\
    lq_writable q' = true.
Proof.
  intros Hq Hw Ho. unfold queue_pop. rewrite Hw, Ho. cbn [negb].
  pose proof (proj1 (li_order q Hq id)) as [st Hst]; [rewrite Ho; left|]. rewrite Hst.
  destruct (st_fragments st) as [|x rest] eqn:Hfr; [by destruct (li_nonempty q Hq id st Hst)|].
  assert (contents q id = x :: rest) as Hc by (unfold contents; rewrite Hst; done).
  destruct (inv_totals q id Hq) as [Hft Hbt]. rewrite Hc, !charges_cons in Hft, Hbt.
  assert (0 <= charges frame_charge rest) by (apply charges_nonneg; intros; apply frame_charge_nonneg).
  assert (forall y, y ∈ x :: rest -> 0 <= byte_charge y) as Hnn.
  { intros y Hy. apply (li_nonneg q Hq id st y Hst). by rewrite Hfr. }
  assert (0 <= charges byte_charge rest) by (apply charges_nonneg; intros; apply Hnn; by right).
  assert (settle (lq_frames q, lq_bytes q) (qf_accounted_bytes x)
          = (lq_frames q - frame_charge x, lq_bytes q - byte_charge x)) as Hset.
  { pose proof (settle_charges [x] (lq_frames q) (lq_bytes q)) as Hs. cbn -[settle] in Hs.
    rewrite Hs; [f_equal; lia| |lia|lia]. intros y ->%list_elem_of_singleton. apply Hnn. left. }
  pose proof (li_nodup q Hq) as Hnd. rewrite Ho in Hnd. apply NoDup_cons in Hnd as [Hni Hnd].
  destruct rest as [|y rest]; cbn -[settle]; rewrite Hset; eexists _, _; (split; [done|]).
  - assert (contents (mkLaneQueue (delete id (lq_streams q)) order (lq_frames q - frame_charge x)
      (lq_bytes q - byte_charge x) true) id = []) as He by (unfold contents; cbn; by rewrite lookup_delete_eq).
    rewrite He, Hc, decide_True by done. split_and!; try done.
    + pose proof (lane_inv_delete q id order Hq Hnd) as Hd. rewrite Hc, Hw in Hd.
      rewrite !charges_cons in Hd. cbn in Hd. rewrite !Z.add_0_r in Hd. apply Hd.
      intros k. rewrite Ho. set_solver.
    + intros k Hk. unfold contents. cbn. by rewrite lookup_delete_ne by congruence.
  - set (q' := mkLaneQueue _ _ _ _ _).
    assert (contents q' id = y :: rest) as He by (unfold contents; cbn; by rewrite lookup_insert_eq).
    rewrite He, Hc, decide_False by done. split_and!; try done.
    + subst q'. rewrite <- Hw.
      apply lane_inv_set; cbn -[charges]; try done; rewrite ?Hc, ?charges_cons; try lia.
      * intros z Hz. apply Hnn. by right.
      * apply NoDup_app. split; [done|]. split; [|apply NoDup_singleton]. set_solver.
      * intros k. rewrite Ho. set_solver.
    + intros k Hk. unfold contents. cbn. by rewrite lookup_insert_ne by congruence.
Qed.

Lemma filter_ne_order q id :
  lane_inv q -> NoDup (id :: filter (fun k => k <> id) (lq_order q)) /\
  (forall k, k ∈ filter (fun k => k <> id) (lq_order q) <-> k <> id /\ k ∈ lq_order q).
Proof.
  intros Hq. assert (forall k, k ∈ filter (fun k => k <> id) (lq_order q) <-> k <> id /\ k ∈ lq_order q)
    as Hel by (intros k; by rewrite list_elem_of_filter).
  split; [|done]. constructor; [rewrite Hel; by intros [? _]|]. apply NoDup_filter, (li_nodup q Hq).
Qed.

Lemma queue_requeue_spec q id x :
  lane_inv q -> 0 <= byte_charge x ->
  let q' := queue_requeue q id (qf_fragment x) (qf_accounted_bytes x) in
  lane_inv q' /\ lq_order q' = id :: filter (fun k => k <> id) (lq_order q) /\
  (forall k, contents q' k = if decide (k = id) then x :: contents q id else contents q k) /\
  lq_frames q' = lq_frames q + frame_charge x /\ lq_bytes q' = lq_bytes q + byte_charge x /\
  lq_writable q' = lq_writable q.
Proof.
  intros Hq Hx. destruct x as [fr acc]. cbn [qf_fragment qf_accounted_bytes].
  assert (st_fragments (default stream_queue_default (lq_streams q !! id)) = contents q id) as Hc.
  { unfold contents. by destruct (lq_streams q !! id). }
  assert (queue_requeue q id fr acc = mkLaneQueue
    (<[id := mkStreamQueue (mkQueued fr acc :: contents q id)
              (st_deficit (default stream_queue_default (lq_streams q !! id)))]> (lq_streams q))
    (id :: filter (fun k => k <> id) (lq_order q)) (lq_frames q + frame_charge (mkQueued fr acc))
    (lq_bytes q + byte_charge (mkQueued fr acc)) (lq_writable q)) as ->.
  { unfold queue_requeue. rewrite Hc. unfold frame_charge, byte_charge. cbn.
    destruct acc; cbn; [done|]. by rewrite !Z.add_0_r. }
  destruct (filter_ne_order q id Hq) as [Hnd Hel].
  cbn [lq_order lq_frames lq_bytes lq_writable]. split_and!; try done.
  - apply lane_inv_set; cbn [st_fragments]; try done; rewrite ?charges_cons; try lia.
    + intros y [->|Hy]%elem_of_cons; [done|]. unfold contents in Hy.
      destruct (lq_streams q !! id) eqn:E; [|set_solver]. by eapply li_nonneg.
    + intros k. rewrite elem_of_cons, Hel. destruct (decide (k = id)); naive_solver.
  - intros k. unfold contents at 1. cbn. rewrite lookup_insert.
    case_decide; case_decide; try congruence; done.
Qed.

Lemma queue_close_spec q id :
  lane_inv q ->
  let q' := queue_close q id in
  lane_inv q' /\ contents q' id = [] /\ (forall k, k <> id -> contents q' k = contents q k) /\
  lq_frames q' = lq_frames q - charges frame_charge (contents q id) /\
  lq_bytes q' = lq_bytes q - charges byte_charge (contents q id) /\
  lq_writable q' = lq_writable q.
Proof.
  intros Hq. destruct (filter_ne_order q id Hq) as [Hnd Hel]. apply NoDup_cons in Hnd as [_ Hnd].
  assert (queue_close q id = mkLaneQueue (delete id (lq_streams q))
    (filter (fun k => k <> id) (lq_order q)) (lq_frames q - charges frame_charge (contents q id))
    (lq_bytes q - charges byte_charge (contents q id)) (lq_writable q)) as ->.
  { unfold queue_close, contents. destruct (inv_totals q id Hq) as [Hf Hb]. unfold contents in Hf, Hb.
    destruct (lq_streams q !! id) as [st|] eqn:E; cbn [from_option] in *.
    - rewrite settle_charges; [done| |lia|lia]. intros x Hx. by eapply li_nonneg.
    - rewrite delete_id by done. change (charges frame_charge []) with 0.
      change (charges byte_charge []) with 0. by rewrite !Z.sub_0_r. }
  cbn -[charges]. split_and!; try done.
  - by apply lane_inv_delete.
  - unfold contents. cbn. by rewrite lookup_delete_eq.
  - intros k Hk. unfold contents. cbn. by rewrite lookup_delete_ne by congruence.
Qed.

(** ** The scheduler *)

Lemma lane_queue_set s l q l' :
  lane_queue (set_lane_queue s l q) l' = if decide (l' = l) then q else lane_queue s l'.
Proof. by destruct l, l'. Qed.
Lemma lane_queue_cursor s c l : lane_queue (set_cursor s c) l = lane_queue s l.
Proof. by destruct l. Qed.
Lemma set_lane_queue_id s l : set_lane_queue s l (lane_queue s l) = s.
Proof. by destruct s, l. Qed.
Lemma set_lane_queue_fields s l q :
  sc_limits (set_lane_queue s l q) = sc_limits s /\ sc_cursor (set_lane_queue s l q) = sc_cursor s.
Proof. by destruct l. Qed.

Record sched_inv (s : RemoteLaneScheduler) : Prop := {
  si_lane : forall l, lane_inv (lane_queue s l);
  si_cursor : 0 <= sc_cursor s < 8;
}.

Lemma sched_inv_new limits : sched_inv (scheduler_new limits).
Proof.
  split; [|done]. intros l. assert (lane_queue (scheduler_new limits) l = mkLaneQueue ∅ [] 0 0 true) as ->
    by (by destruct l).
  split; cbn; try done.
  - constructor.
  - intros id. rewrite lookup_empty. split; [by intros ?%elem_of_nil|by intros [? ?]].
Qed.

Lemma sched_inv_set s l q : sched_inv s -> lane_inv q -> sched_inv (set_lane_queue s l q).
Proof.
  intros [H1 H2] Hq. destruct (set_lane_queue_fields s l q) as [_ E]. split; [|by rewrite E].
  intros l'. rewrite lane_queue_set. case_decide; [done|apply H1].
Qed.

(** A lane that can be served. *)
Definition ready (s : RemoteLaneScheduler) (l : RemoteLane) : Prop :=
  lq_writable (lane_queue s l) = true /\ lq_order (lane_queue s l) <> [].
#[export] Instance ready_dec s l : Decision (ready s l).
Proof. unfold ready. apply _. Defined.

(** The lane of the [k]-th slot from the cursor. *)
Definition slot (s : RemoteLaneScheduler) (k : nat) : option RemoteLane :=
  LANE_SCHEDULE !! Z.to_nat ((sc_cursor s + Z.of_nat k) mod 8).

Lemma pop_not_ready s l : ~ ready s l -> pop_from_lane s l = (s, None).
Proof.
  intros Hr. unfold pop_from_lane. rewrite queue_pop_idle; [by rewrite set_lane_queue_id|].
  unfold ready in Hr. destruct (lq_writable _); [|by left]. right.
  destruct (lq_order (lane_queue s l)); [done|]. destruct Hr. done.
Qed.

(** What serving lane [l] in state [s] does. *)
Definition served (s s' : RemoteLaneScheduler) (l : RemoteLane) (r : RemoteSendRequest) : Prop :=
  rq_lane r = l /\ sched_inv s' /\ sc_limits s' = sc_limits s /\
  (exists order, lq_order (lane_queue s l) = rq_stream_id r :: order /\
    lq_order (lane_queue s' l) =
      if decide (contents (lane_queue s' l) (rq_stream_id r) = []) then order
      else order ++ [rq_stream_id r]) /\
  contents (lane_queue s l) (rq_stream_id r)
    = mkQueued (rq_fragment r) (rq_accounted_bytes r)
      :: contents (lane_queue s' l) (rq_stream_id r) /\
  (forall k, k <> rq_stream_id r ->
     contents (lane_queue s' l) k = contents (lane_queue s l) k) /\
  lq_frames (lane_queue s' l) = lq_frames (lane_queue s l)
    - frame_charge (mkQueued (rq_fragment r) (rq_accounted_bytes r)) /\
  lq_bytes (lane_queue s' l) = lq_bytes (lane_queue s l)
    - byte_charge (mkQueued (rq_fragment r) (rq_accounted_bytes r)) /\
  lq_writable (lane_queue s' l) = lq_writable (lane_queue s l) /\
  (forall l', l' <> l -> lane_queue s' l' = lane_queue s l').

Lemma pop_ready s l :
  sched_inv s -> ready s l ->
  exists s' r, pop_from_lane s l = (s', Some r) /\ served s s' l r /\ sc_cursor s' = sc_cursor s.
Proof.
  intros Hs [Hw Ho]. destruct (lq_order (lane_queue s l)) as [|id order] eqn:Hord; [done|].
  destruct (queue_pop_spec _ id order (si_lane s Hs l) Hw Hord)
    as (q & x & Hp & Hq & Hc & Hoth & Hq' & Hf & Hb & Hwq).
  unfold pop_from_lane. rewrite Hp. eexists _, _. split; [done|].
  destruct (set_lane_queue_fields s l q) as [E1 E2]. split; [|done].
  unfold served. cbn [rq_lane rq_stream_id rq_fragment rq_accounted_bytes].
  rewrite lane_queue_set, decide_True by done. destruct x as [fr acc].
  split_and!; try done; [by apply sched_inv_set|by exists order|by rewrite Hwq, Hw|].
  intros l' Hl. by rewrite lane_queue_set, decide_False.
Qed.

Lemma served_cursor s c s' l r : served (set_cursor s c) s' l r -> served s s' l r.
Proof. unfold served. by rewrite ?lane_queue_cursor; setoid_rewrite lane_queue_cursor. Qed.

Lemma ready_cursor s c l : ready (set_cursor s c) l <-> ready s l.
Proof. unfold ready. by rewrite lane_queue_cursor. Qed.

Lemma slot_cursor s k :
  slot (set_cursor s ((sc_cursor s + 1) mod 8)) k = slot s (S k).
Proof.
  unfold slot. cbn [set_cursor sc_cursor]. rewrite Zplus_mod_idemp_l. do 3 f_equal. lia.
Qed.

Lemma slot_0 s : sched_inv s -> LANE_SCHEDULE !! Z.to_nat (sc_cursor s) = slot s 0.
Proof. intros [_ Hc]. unfold slot. rewrite Z.add_0_r, Z.mod_small by lia. done. Qed.

Lemma slot_some s k : exists l, slot s k = Some l.
Proof.
  unfold slot. apply lookup_lt_is_Some_2. cbn [length LANE_SCHEDULE].
  pose proof (Z.mod_pos_bound (sc_cursor s + Z.of_nat k) 8 ltac:(lia)). lia.
Qed.

Lemma sched_inv_cursor s c : sched_inv s -> 0 <= c < 8 -> sched_inv (set_cursor s c).
Proof. intros [H1 H2] Hc. split; [|done]. intros l. rewrite lane_queue_cursor. apply H1. Qed.

Lemma next_from_spec fuel : forall s, sched_inv s ->
  match next_from fuel s with
  | (s', None) =>
      (forall k l, (k < fuel)%nat -> slot s k = Some l -> ~ ready s l) /\
      s' = set_cursor s ((sc_cursor s + Z.of_nat fuel) mod 8)
  | (s', Some r) =>
      exists j l, (j < fuel)%nat /\ slot s j = Some l /\
        (forall k l', (k < j)%nat -> slot s k = Some l' -> ~ ready s l') /\
        ready s l /\ served s s' l r /\ sc_cursor s' = (sc_cursor s + Z.of_nat j + 1) mod 8
  end.
Proof.
  induction fuel as [|fuel IH]; intros s Hs; cbn [next_from].
  { split; [lia|]. rewrite Z.add_0_r, Z.mod_small by apply (si_cursor s Hs). by destruct s. }
  rewrite (slot_0 s Hs). destruct (slot_some s 0) as [l Hl]. rewrite Hl.
  change (zlen LANE_SCHEDULE) with 8. set (s1 := set_cursor s ((sc_cursor s + 1) mod 8)).
  pose proof (Z.mod_pos_bound (sc_cursor s + 1) 8 ltac:(lia)) as Hm.
  assert (sched_inv s1) as Hs1 by (by apply sched_inv_cursor).
  destruct (decide (ready s l)) as [Hr|Hr].
  - destruct (pop_ready s1 l Hs1) as (s' & r & -> & Hsv & Hc); [by apply ready_cursor|].
    exists 0%nat, l. split; [lia|]. split; [done|]. split; [lia|]. split; [done|].
    split; [by eapply served_cursor|].
    rewrite Hc. cbn. f_equal. lia.
  - rewrite (pop_not_ready s1) by (intros Hx; by apply ready_cursor in Hx). specialize (IH s1 Hs1).
    destruct (next_from fuel s1) as [s' [r|]].
    + destruct IH as (j & l' & Hj & Hsl & Hbefore & Hrd & Hsv & Hc). exists (S j), l'.
      subst s1. rewrite slot_cursor in Hsl. rewrite ready_cursor in Hrd.
      split; [lia|]. split; [done|]. split; [|split; [done|split; [by eapply served_cursor|]]].
      * intros [|k] l'' Hk Hk'; [congruence|]. rewrite <- (ready_cursor s ((sc_cursor s + 1) mod 8)).
        apply (Hbefore k); [lia|]. by rewrite slot_cursor.
      * rewrite Hc. cbn [set_cursor sc_cursor]. rewrite <- Z.add_assoc, Zplus_mod_idemp_l. f_equal. lia.
    + destruct IH as [Hnone ->]. subst s1. split.
      * intros [|k] l' Hk Hk'; [congruence|]. rewrite <- (ready_cursor s ((sc_cursor s + 1) mod 8)).
        apply (Hnone k); [lia|]. by rewrite slot_cursor.
      * unfold set_cursor. cbn [sc_cursor sc_limits sc_control sc_interactive sc_bulk].
        rewrite Zplus_mod_idemp_l. f_equal. f_equal. lia.
Qed.

(** How far each lane's next slot is from any cursor position. *)
Definition max_wait (l : RemoteLane) : nat := match l with Bulk => 3 | _ => 2 end.

Lemma slot_within s l : sched_inv s -> exists d, (d <= max_wait l)%nat /\ slot s d = Some l.
Proof.
  intros [_ Hc]. unfold slot.
  assert (forallb (fun c => existsb (fun d =>
      bool_decide (LANE_SCHEDULE !! Z.to_nat ((c + Z.of_nat d) mod 8) = Some l))
      (seq 0 (S (max_wait l)))) (seqZ 0 8) = true) as Hall by (by destruct l).
  rewrite forallb_forall in Hall. specialize (Hall (sc_cursor s)).
  rewrite existsb_exists in Hall. destruct Hall as (d & Hd & Hsl).
  { apply list_elem_of_In, elem_of_seqZ. lia. }
  apply in_seq in Hd. apply bool_decide_eq_true in Hsl. exists d. split; [lia|done].
Qed.

Lemma next_fragment_cases s s' r :
  sched_inv s -> next_fragment s = (s', r) ->
  (r = None /\ (forall l, ~ ready s l) /\ s' = s) \/
  exists q j l, r = Some q /\ (j < 8)%nat /\ slot s j = Some l /\
    (forall k l', (k < j)%nat -> slot s k = Some l' -> ~ ready s l') /\
    ready s l /\ served s s' l q /\ sc_cursor s' = (sc_cursor s + Z.of_nat j + 1) mod 8.
Proof.
  intros Hs Hn. pose proof (next_from_spec 8 s Hs) as Hspec. unfold next_fragment in Hn.
  change (length LANE_SCHEDULE) with 8%nat in Hn. rewrite Hn in Hspec. destruct r as [r|].
  - right. destruct Hspec as (j & l & Hspec). by exists r, j, l.
  - left. destruct Hspec as [Hno ->]. split; [done|]. split.
    + intros l. destruct (slot_within s l Hs) as (d & Hd & Hsl). apply (Hno d); [|done].
      destruct l; cbn in Hd; lia.
    + destruct Hs as [_ Hc]. rewrite Zplus_mod. change (Z.of_nat 8 mod 8) with 0.
      rewrite Z.add_0_r, Z.mod_mod, Z.mod_small by lia. by destruct s.
Qed.
