(* ===== verification/SchedulerProps.v ===== *)
(** What the lane scheduler guarantees ([remote_transport/scheduler.rs]): complete
    and bounded-wait service, queue limits and reservations, first-in first-out
    delivery per stream, cancellation, and the lease protocol of [requeue]. *)

From S2P Require Import Prelude.
From S2P Require Import Lane.
From S2P Require Import ProtocolId.
From S2P Require Import Frame.
From S2P Require Import Fragment.
From S2P Require Import Scheduler.
From stdpp Require Import options.
Set Warnings "-clear-no-such-hyp".

(** [next_fragment] is complete and follows the schedule: it returns nothing
    exactly when no lane is both writable and non-empty; otherwise it serves the
    first ready lane in schedule order from the cursor, removes exactly the head
    fragment of that lane's first stream, settles its charge, and leaves every
    other stream and lane alone. *)
Theorem next_fragment_complete (s s' : RemoteLaneScheduler) (r : option RemoteSendRequest) :
  sched_inv s -> next_fragment s = (s', r) ->
  match r with
  | None => (forall l, ~ ready s l) /\ s' = s
  | Some r =>
      exists j, (j < 8)%nat /\ slot s j = Some (rq_lane r) /\
        (forall k l', (k < j)%nat -> slot s k = Some l' -> ~ ready s l') /\
        ready s (rq_lane r) /\ served s s' (rq_lane r) r /\
        sc_cursor s' = (sc_cursor s + Z.of_nat j + 1) mod 8
  end.
Proof.
  intros Hs Hn. destruct (next_fragment_cases s s' r Hs Hn) as [(-> & Hno & ->)|(q & j & l & -> & Hx)];
    [done|].
  destruct Hx as (Hj & Hsl & Hb & Hr & Hsv & Hc). pose proof Hsv as (El & _). rewrite El. by exists j.
Qed.

(** ** Bounded wait *)

(** The fragments handed out by [n] consecutive calls. *)
Fixpoint run_next (n : nat) (s : RemoteLaneScheduler)
    : RemoteLaneScheduler * list RemoteSendRequest :=
  match n with
  | O => (s, [])
  | S n =>
      let '(s, r) := next_fragment s in
      let '(s, rs) := run_next n s in
      (s, option_list r ++ rs)
  end.

Lemma wait_slot n : forall d s l, (d < n)%nat ->
  sched_inv s -> ready s l -> slot s d = Some l ->
  exists r, r ∈ (run_next n s).2 /\ rq_lane r = l.
Proof.
  induction n as [|n IH]; intros d s l Hd Hs Hr Hsl; [lia|]. cbn [run_next].
  destruct (next_fragment s) as [s1 r] eqn:Hn.
  destruct (next_fragment_cases s s1 r Hs Hn) as [(_ & Hno & _)|(q & j & l' & -> & Hx)];
    [by destruct (Hno l)|].
  destruct Hx as (Hj & Hslj & Hbefore & Hrj & Hsv & Hc).
  destruct (run_next n s1) as [s2 rs] eqn:Hrun. cbn.
  pose proof Hsv as (El & Hs1 & _ & _ & _ & _ & _ & _ & _ & Hoth).
  destruct (decide (l' = l)) as [->|Hne]; [exists q; split; [left|done]|].
  assert (j < d)%nat as Hjd.
  { destruct (Nat.lt_trichotomy j d) as [|[->|Hlt]]; [done|congruence|].
    by destruct (Hbefore d l Hlt Hsl). }
  destruct (IH (d - j - 1)%nat s1 l) as (r & Hin & Hl); [lia|done| | |].
  - destruct Hr as [Hw Ho]. split; by rewrite Hoth.
  - unfold slot in Hsl |- *. rewrite Hc, Zplus_mod_idemp_l. rewrite <- Hsl. do 3 f_equal. lia.
  - exists r. rewrite Hrun in Hin. split; [by right|done].
Qed.

(** ** Executions *)

Section props.
Context `{Sha256}.

Inductive sched_op :=
| OpEnqueue (f : RemoteTransportFrameV1)
| OpNext
| OpRequeue (r : RemoteSendRequest)
| OpClose (l : RemoteLane) (id : Z)
| OpWritable (l : RemoteLane) (w : bool).

Definition sched_apply (s : RemoteLaneScheduler) (op : sched_op) : RemoteLaneScheduler :=
  match op with
  | OpEnqueue f => (scheduler_enqueue s f).1
  | OpNext => (next_fragment s).1
  | OpRequeue r => scheduler_requeue s r
  | OpClose l id => close_stream s l id
  | OpWritable l w => set_lane_writable s l w
  end.

(** Operations as the types allow them: well-formed frames, requests with an
    unsigned charge. *)
Definition typed_op (op : sched_op) : Prop :=
  match op with
  | OpEnqueue f => wf_frame f
  | OpRequeue r => 0 <= default 0 (rq_accounted_bytes r)
  | _ => True
  end.

Definition run_ops (limits : RemoteQueueLimits) (ops : list sched_op) : RemoteLaneScheduler :=
  foldl sched_apply (scheduler_new limits) ops.

(** What the compile-time assertions of the source say of the default limits. *)
Record limits_ok (m : RemoteQueueLimits) : Prop := {
  lo_frames : control_reserved_frames m <= control_frames m;
  lo_bytes : control_reserved_bytes m <= control_bytes m;
  lo_aggregate : control_reserved_bytes m + interactive_reserved_bytes m <= limit_aggregate_bytes m;
  lo_nonneg : 0 <= control_reserved_bytes m /\ 0 <= interactive_reserved_bytes m;
  lo_lane : forall l, 0 <= frames_for m l /\ 0 <= bytes_for m l;
}.

Lemma limits_ok_default : limits_ok RemoteQueueLimits_DEFAULT.
Proof. split; try done. by intros []. Qed.

Definition pool (m : RemoteQueueLimits) : Z :=
  limit_aggregate_bytes m - control_reserved_bytes m - interactive_reserved_bytes m.

Lemma shared_pool_ok m : limits_ok m -> shared_pool_bytes m = Ok (pool m).
Proof.
  intros [_ _ Ha [H1 H2] _]. unfold shared_pool_bytes, pool.
  rewrite sub_in_le by lia. rewrite bind_Ok_l. by rewrite sub_in_le by lia.
Qed.

(** The part of a frame that must come from the shared pool. *)
Definition from_shared (s : RemoteLaneScheduler) (f : RemoteTransportFrameV1) : Z :=
  let lane := frame_lane f in
  let q := lane_queue s lane in
  let reserved :=
    if bool_decide (lane = Control) && (control_reserved_frames (sc_limits s) <=? lq_frames q)
    then 0 else reserved_bytes_for (sc_limits s) lane in
  saturating_sub (serialized_len f) (saturating_sub reserved (lq_bytes q)).

Definition admits (s : RemoteLaneScheduler) (f : RemoteTransportFrameV1) : Prop :=
  let lane := frame_lane f in
  lq_frames (lane_queue s lane) + 1 <= frames_for (sc_limits s) lane /\
  lq_bytes (lane_queue s lane) + serialized_len f <= bytes_for (sc_limits s) lane /\
  shared_usage s + from_shared s f <= pool (sc_limits s).

Lemma wf_frame_fragments f :
  wf_frame f ->
  exists ser frs, frame_encode f = Ok ser /\
    fragment_frame (frame_lane f) (frame_id f) ser = Ok frs /\ frs <> [] /\ 0 <= serialized_len f.
Proof.
  intros Hf. destruct (frame_decode_encode f Hf) as (ser & He & Hl & _).
  pose proof (payload_cap_fits f Hf) as Hp.
  destruct (fragment_frame_facts (frame_lane f) (frame_id f) ser) as (frs & Hfr & _ & Hn & _).
  { rewrite Hl. unfold serialized_len, MAX_SERIALIZED_FRAME_BYTES. lia. }
  exists ser, frs. split_and!; try done; [|unfold serialized_len, REMOTE_TRANSPORT_FRAME_HEADER_BYTES; lia].
  intros ->. rewrite zlen_nil in Hn. lia.
Qed.

(** [enqueue] on every branch. *)
Lemma enqueue_spec s f :
  limits_ok (sc_limits s) -> wf_frame f ->
  (~ admits s f /\ exists e, scheduler_enqueue s f = (s, Ok (outcome_for_lane (frame_lane f) e))) \/
  (admits s f /\ exists frs, frs <> [] /\ 0 <= serialized_len f /\
     (exists ser, frame_encode f = Ok ser /\
        fragment_frame (frame_lane f) (frame_id f) ser = Ok frs) /\
     scheduler_enqueue s f =
       (set_lane_queue s (frame_lane f)
          (push_frame (lane_queue s (frame_lane f)) (frame_stream_id f) (serialized_len f) frs),
        Ok Enqueued)).
Proof.
  intros Hlim Hf. unfold scheduler_enqueue, admits.
  destruct (Z.ltb_spec (frames_for (sc_limits s) (frame_lane f)) (lq_frames (lane_queue s (frame_lane f)) + 1)).
  { left. split; [lia|by eexists]. }
  destruct (Z.ltb_spec (bytes_for (sc_limits s) (frame_lane f))
              (lq_bytes (lane_queue s (frame_lane f)) + serialized_len f)).
  { left. split; [lia|by eexists]. }
  rewrite (shared_pool_ok _ Hlim). fold (from_shared s f).
  destruct (Z.ltb_spec (pool (sc_limits s)) (shared_usage s + from_shared s f)).
  { left. split; [lia|by eexists]. }
  destruct (wf_frame_fragments f Hf) as (ser & frs & -> & Hfr & Hne & Hs). rewrite Hfr.
  right. split; [done|]. exists frs. split_and!; try done. by exists ser.
Qed.

Lemma sched_inv_apply s op :
  limits_ok (sc_limits s) -> sched_inv s -> typed_op op ->
  sched_inv (sched_apply s op) /\ sc_limits (sched_apply s op) = sc_limits s.
Proof.
  intros Hlim Hs Hop. destruct op as [f| |r|l id|l w]; cbn [sched_apply typed_op] in *.
  - destruct (enqueue_spec s f Hlim Hop) as [(_ & e & ->)|(_ & frs & Hne & Hsz & _ & ->)]; cbn; [done|].
    split; [|apply set_lane_queue_fields]. apply sched_inv_set; [done|].
    apply push_frame_spec; [apply (si_lane s Hs)|done..].
  - destruct (next_fragment s) as [s1 r] eqn:Hn.
    destruct (next_fragment_cases s s1 r Hs Hn) as [(_ & _ & ->)|(q & j & l & _ & Hx)]; [done|].
    destruct Hx as (_ & _ & _ & _ & (_ & Hs1 & Hl & _) & _). done.
  - split; [|apply set_lane_queue_fields]. apply sched_inv_set; [done|].
    apply (queue_requeue_spec _ (rq_stream_id r) (mkQueued (rq_fragment r) (rq_accounted_bytes r)));
      [apply (si_lane s Hs)|done].
  - split; [|apply set_lane_queue_fields]. apply sched_inv_set; [done|].
    apply queue_close_spec, (si_lane s Hs).
  - split; [|apply set_lane_queue_fields]. apply sched_inv_set; [done|].
    destruct (si_lane s Hs l) as [H1 H2 H3 H4 H5 H6]. by split.
Qed.

Lemma run_ops_snoc limits ops op :
  run_ops limits (ops ++ [op]) = sched_apply (run_ops limits ops) op.
Proof. unfold run_ops. by rewrite foldl_snoc. Qed.

Lemma run_ops_inv limits ops :
  limits_ok limits -> Forall typed_op ops ->
  sched_inv (run_ops limits ops) /\ sc_limits (run_ops limits ops) = limits.
Proof.
  intros Hlim. induction ops as [|op ops IH] using rev_ind; intros Hops.
  { split; [apply sched_inv_new|done]. }
  apply Forall_app in Hops as [Hops Hop%Forall_inv]. destruct (IH Hops) as [Hs El].
  rewrite run_ops_snoc. rewrite <- El in Hlim. destruct (sched_inv_apply _ op Hlim Hs Hop) as [Hs' El'].
  split; [done|congruence].
Qed.

(** C34: No lane starves: from every reachable scheduler state, a lane that is
    writable and has something queued is served within the next three calls of
    [next_fragment] (four for bulk), whatever the other lanes have queued. *)
Theorem lane_bounded_wait (limits : RemoteQueueLimits) (ops : list sched_op) (l : RemoteLane) :
  limits_ok limits -> Forall typed_op ops -> ready (run_ops limits ops) l ->
  exists r, r ∈ (run_next (S (max_wait l)) (run_ops limits ops)).2 /\ rq_lane r = l.
Proof.
  intros Hlim Hops Hr. destruct (run_ops_inv limits ops Hlim Hops) as [Hs _].
  destruct (slot_within _ l Hs) as (d & Hd & Hsl).
  apply (wait_slot _ d); [lia|done..].
Qed.

(** ** Limits and reservations *)

Record within (s : RemoteLaneScheduler) : Prop := {
  w_lane : forall l, queued_frames s l <= frames_for (sc_limits s) l /\
                     queued_bytes s l <= bytes_for (sc_limits s) l;
  w_shared : shared_usage s <= pool (sc_limits s);
}.

Lemma shared_usage_mono s s' :
  sc_limits s' = sc_limits s -> (forall l, queued_bytes s' l <= queued_bytes s l) ->
  shared_usage s' <= shared_usage s.
Proof.
  intros El Hb. unfold shared_usage, saturating_sub. cbn [foldr RemoteLane_ALL]. rewrite El.
  pose proof (Hb Control). pose proof (Hb Interactive). pose proof (Hb Bulk).
  unfold queued_bytes in *. lia.
Qed.

Lemma within_mono s s' :
  within s -> sc_limits s' = sc_limits s ->
  (forall l, queued_frames s' l <= queued_frames s l /\ queued_bytes s' l <= queued_bytes s l) ->
  within s'.
Proof.
  intros [H1 H2] El Hb. split; rewrite El.
  - intros l. specialize (Hb l). specialize (H1 l). lia.
  - etrans; [|exact H2]. apply shared_usage_mono; [done|]. intros l. apply Hb.
Qed.

(** Queueing a frame moves the shared usage by at most what was budgeted for it. *)
Lemma shared_usage_push s f q :
  0 <= serialized_len f -> limits_ok (sc_limits s) -> 0 <= queued_bytes s (frame_lane f) ->
  lq_bytes q = queued_bytes s (frame_lane f) + serialized_len f ->
  shared_usage (set_lane_queue s (frame_lane f) q) <= shared_usage s + from_shared s f.
Proof.
  intros Hsz [_ _ _ [Hr1 Hr2] _] Hnn Hq. unfold shared_usage, from_shared, saturating_sub, queued_bytes in *.
  cbn [foldr RemoteLane_ALL]. rewrite (proj1 (set_lane_queue_fields s (frame_lane f) q)).
  destruct (frame_lane f); cbn [lane_queue set_lane_queue sc_control sc_interactive sc_bulk] in *;
    rewrite Hq; cbn [reserved_bytes_for].
  - destruct (bool_decide (Control = Control) && _); lia.
  - rewrite bool_decide_false by done. cbn [andb]. lia.
  - rewrite bool_decide_false by done. cbn [andb]. lia.
Qed.

Definition is_requeue (op : sched_op) : bool := match op with OpRequeue _ => true | _ => false end.

Lemma within_apply s op :
  limits_ok (sc_limits s) -> sched_inv s -> typed_op op -> is_requeue op = false ->
  within s -> within (sched_apply s op).
Proof.
  intros Hlim Hs Hop Hnr Hw. destruct op as [f| |r|l id|l w]; [| |done| |]; cbn [sched_apply typed_op] in *.
  - destruct (enqueue_spec s f Hlim Hop) as [(_ & e & ->)|((A1 & A2 & A3) & frs & Hne & Hsz & _ & ->)];
      cbn [fst]; [done|]. set (q := push_frame _ _ _ _).
    split; rewrite (proj1 (set_lane_queue_fields s _ q)).
    + intros l. unfold queued_frames, queued_bytes. rewrite lane_queue_set.
      case_decide as Hl; [|apply (w_lane s Hw)]. subst l. cbn. lia.
    + etrans; [|exact A3]. apply shared_usage_push; try done. unfold queued_bytes.
      destruct (inv_totals _ 0 (si_lane s Hs (frame_lane f))) as [_ ?]. lia.
  - destruct (next_fragment s) as [s1 r] eqn:Hn. cbn [fst].
    destruct (next_fragment_cases s s1 r Hs Hn) as [(_ & _ & ->)|(q & j & l & _ & Hx)]; [done|].
    destruct Hx as (_ & _ & _ & _ & Hsv & _).
    destruct Hsv as (_ & Hs1 & Hl & _ & Hc & _ & Hf & Hb & _ & Hoth).
    apply (within_mono s); [done|done|]. intros l'. unfold queued_frames, queued_bytes.
    destruct (decide (l' = l)) as [->|Hne]; [|by rewrite Hoth].
    pose proof (frame_charge_nonneg (mkQueued (rq_fragment q) (rq_accounted_bytes q))).
    assert (0 <= byte_charge (mkQueued (rq_fragment q) (rq_accounted_bytes q))) as Hbc.
    { apply (contents_charge_nonneg (lane_queue s l) (rq_stream_id q)); [apply (si_lane s Hs)|].
      rewrite Hc. left. }
    lia.
  - apply (within_mono s); [done|apply set_lane_queue_fields|]. intros l'.
    unfold queued_frames, queued_bytes, close_stream. rewrite lane_queue_set.
    case_decide as Hl; [|done]. subst l'.
    destruct (queue_close_spec _ id (si_lane s Hs l)) as (_ & _ & _ & -> & -> & _).
    destruct (inv_totals _ id (si_lane s Hs l)) as [? ?]. lia.
  - apply (within_mono s); [done|apply set_lane_queue_fields|]. intros l'.
    unfold queued_frames, queued_bytes, set_lane_writable. rewrite lane_queue_set.
    case_decide as Hl; [by subst l'|done].
Qed.

Lemma run_ops_within limits ops :
  limits_ok limits -> Forall typed_op ops -> Forall (fun op => is_requeue op = false) ops ->
  within (run_ops limits ops).
Proof.
  intros Hlim. induction ops as [|op ops IH] using rev_ind; intros Hops Hnr.
  { split; cbn.
    - intros l. pose proof (lo_lane limits Hlim l). destruct l; done.
    - pose proof (lo_aggregate limits Hlim). pose proof (lo_nonneg limits Hlim).
      unfold shared_usage, saturating_sub, pool. cbn. lia. }
  apply Forall_app in Hops as [Hops Hop%Forall_inv]. apply Forall_app in Hnr as [Hnrs Hnr%Forall_inv].
  destruct (run_ops_inv limits ops Hlim Hops) as [Hs El].
  rewrite run_ops_snoc. apply within_apply; try done; [by rewrite El|by apply IH].
Qed.

(** The queue limits hold in every execution: with any mix of enqueues, sends,
    cancellations and writability changes, no lane exceeds its frame or byte cap
    and all lanes together stay within the aggregate byte limit. *)
Theorem queue_limits_hold (limits : RemoteQueueLimits) (ops : list sched_op) :
  limits_ok limits -> Forall typed_op ops -> Forall (fun op => is_requeue op = false) ops ->
  let s := run_ops limits ops in
  (forall l, 0 <= queued_frames s l <= frames_for limits l /\
             0 <= queued_bytes s l <= bytes_for limits l) /\
  aggregate_bytes s <= limit_aggregate_bytes limits.
Proof.
  intros Hlim Hops Hnr. cbn zeta. destruct (run_ops_inv limits ops Hlim Hops) as [Hs El].
  destruct (run_ops_within limits ops Hlim Hops Hnr) as [Hl Hsh]. rewrite El in Hl, Hsh.
  split.
  - intros l. specialize (Hl l). destruct (inv_totals _ 0 (si_lane _ Hs l)) as [? ?].
    unfold queued_frames, queued_bytes in *. lia.
  - pose proof (lo_nonneg limits Hlim). unfold aggregate_bytes, shared_usage, saturating_sub, pool in *.
    cbn [foldr RemoteLane_ALL reserved_bytes_for] in *. rewrite El in Hsh. lia.
Qed.

(** Admission is exact: a well-formed frame is queued if and only if its lane has
    a free frame slot and enough bytes and the part of it not covered by the lane's
    unused reservation fits the shared pool. A refused frame changes nothing, and
    the refusal has the shape its lane must produce: bulk is rejected, interactive
    is told to back off, control closes the stream. *)
Theorem enqueue_admission (s : RemoteLaneScheduler) (f : RemoteTransportFrameV1) :
  limits_ok (sc_limits s) -> wf_frame f ->
  ((scheduler_enqueue s f).2 = Ok Enqueued <-> admits s f) /\
  ((scheduler_enqueue s f).2 <> Ok Enqueued ->
   (scheduler_enqueue s f).1 = s /\
   exists e, (scheduler_enqueue s f).2 =
     Ok (match frame_lane f with
         | Bulk => Rejected e | Interactive => Backpressure e | Control => CloseStream e end)).
Proof.
  intros Hlim Hf.
  destruct (enqueue_spec s f Hlim Hf) as [(Hna & e & ->)|(Ha & frs & _ & _ & _ & ->)]; cbn.
  - split; [split; [|done]; intros [= Hx]; by destruct (frame_lane f)|].
    intros _. split; [done|]. exists e. by destruct (frame_lane f).
  - split; [done|]. by intros [].
Qed.

(** Reserved space is always deliverable: in every execution, a control frame
    that fits the control reservation (its bytes within the reserved bytes, fewer
    than the reserved number of frames queued) is queued however full the other
    lanes are; likewise an interactive frame within the interactive reservation
    and its own lane caps. *)
Theorem reservation_honoured (limits : RemoteQueueLimits) (ops : list sched_op)
    (f : RemoteTransportFrameV1) :
  limits_ok limits -> Forall typed_op ops -> Forall (fun op => is_requeue op = false) ops ->
  wf_frame f ->
  let s := run_ops limits ops in
  queued_bytes s (frame_lane f) + serialized_len f <= reserved_bytes_for limits (frame_lane f) ->
  match frame_lane f with
  | Control => queued_frames s Control < control_reserved_frames limits
  | Interactive => queued_frames s Interactive < interactive_frames limits /\
      interactive_reserved_bytes limits <= interactive_bytes limits
  | Bulk => True
  end ->
  (scheduler_enqueue s f).2 = Ok Enqueued.
Proof.
  intros Hlim Hops Hnr Hf s Hb Hfr. destruct (run_ops_inv limits ops Hlim Hops) as [Hs El]. fold s in Hs, El.
  pose proof (run_ops_within limits ops Hlim Hops Hnr) as [_ Hsh]. fold s in Hsh.
  destruct (wf_frame_fragments f Hf) as (_ & _ & _ & _ & _ & Hsz).
  assert (Hlim' : limits_ok (sc_limits s)) by (by rewrite El).
  assert (admits s f) as Ha.
  { pose proof (lo_frames limits Hlim). pose proof (lo_bytes limits Hlim).
    unfold admits, from_shared, saturating_sub, queued_frames, queued_bytes in *. rewrite El in *.
    destruct (inv_totals _ 0 (si_lane s Hs (frame_lane f))) as [? ?].
    destruct (frame_lane f); cbn [frames_for bytes_for reserved_bytes_for] in *.
    - rewrite bool_decide_true by done. cbn [andb].
      rewrite (proj2 (Z.leb_gt _ _)) by lia. split_and!; lia.
    - rewrite bool_decide_false by done. cbn [andb]. split_and!; lia.
    - pose proof (payload_cap_fits f Hf). unfold serialized_len, REMOTE_TRANSPORT_FRAME_HEADER_BYTES in *. lia. }
  destruct (enqueue_spec s f Hlim' Hf) as [(Hna & _)|(_ & frs & _ & _ & _ & ->)]; done.
Qed.

(** Accounting is exact in every execution, leases included: a lane's frame and
    byte counters are the charges of the fragments actually queued in it, so a
    scheduler with nothing pending reads exactly zero on every lane. *)
Theorem scheduler_accounting (limits : RemoteQueueLimits) (ops : list sched_op) (l : RemoteLane) :
  limits_ok limits -> Forall typed_op ops ->
  let s := run_ops limits ops in
  queued_frames s l = map_sum (fun _ st => charges frame_charge (st_fragments st)) (lq_streams (lane_queue s l)) /\
  queued_bytes s l = map_sum (fun _ st => charges byte_charge (st_fragments st)) (lq_streams (lane_queue s l)) /\
  (has_pending s = false -> queued_frames s l = 0 /\ queued_bytes s l = 0).
Proof.
  intros Hlim Hops s. destruct (run_ops_inv limits ops Hlim Hops) as [Hs _]. fold s in Hs.
  pose proof (si_lane s Hs l) as Hl. unfold queued_frames, queued_bytes.
  rewrite (li_frames _ Hl), (li_bytes _ Hl). split; [done|]. split; [done|]. intros Hp.
  assert (lq_order (lane_queue s l) = []) as Ho.
  { unfold has_pending in Hp. cbn in Hp. apply orb_false_iff in Hp as [Hc Hp].
    apply orb_false_iff in Hp as [Hi Hp]. apply orb_false_iff in Hp as [Hb _].
    apply negb_false_iff, bool_decide_eq_true in Hc, Hi, Hb. by destruct l. }
  assert (lq_streams (lane_queue s l) = ∅) as ->.
  { apply map_empty. intros id. apply eq_None_not_Some. rewrite <- (li_order _ Hl), Ho. apply not_elem_of_nil. }
  by rewrite !map_sum_empty.
Qed.

(** ** First in, first out *)

(** The fragments an operation adds to a stream, and the one it takes out. *)
Definition added (s : RemoteLaneScheduler) (op : sched_op) (l : RemoteLane) (id : Z)
    : list RemoteCarrierFragmentV1 :=
  match op with
  | OpEnqueue f =>
      if decide (frame_lane f = l /\ frame_stream_id f = id) then
        match (scheduler_enqueue s f).2, frame_encode f with
        | Ok Enqueued, Ok ser =>
            match fragment_frame l (frame_id f) ser with Ok frs => frs | _ => [] end
        | _, _ => []
        end
      else []
  | _ => []
  end.
Definition sent (s : RemoteLaneScheduler) (op : sched_op) (l : RemoteLane) (id : Z)
    : list RemoteCarrierFragmentV1 :=
  match op with
  | OpNext =>
      match (next_fragment s).2 with
      | Some r => if decide (rq_lane r = l /\ rq_stream_id r = id) then [rq_fragment r] else []
      | None => []
      end
  | _ => []
  end.

(** All fragments added to, and sent from, a stream by a run. *)
Fixpoint trace (g : RemoteLaneScheduler -> sched_op -> RemoteLane -> Z -> list RemoteCarrierFragmentV1)
    (s : RemoteLaneScheduler) (ops : list sched_op) (l : RemoteLane) (id : Z)
    : list RemoteCarrierFragmentV1 :=
  match ops with
  | [] => []
  | op :: ops => g s op l id ++ trace g (sched_apply s op) ops l id
  end.

Definition waiting (s : RemoteLaneScheduler) (l : RemoteLane) (id : Z) : list RemoteCarrierFragmentV1 :=
  qf_fragment <$> contents (lane_queue s l) id.

Definition leaves_alone (l : RemoteLane) (id : Z) (op : sched_op) : Prop :=
  match op with
  | OpRequeue _ => False
  | OpClose l' id' => ~ (l' = l /\ id' = id)
  | _ => True
  end.

Lemma fifo_step s op l id :
  limits_ok (sc_limits s) -> sched_inv s -> typed_op op -> leaves_alone l id op ->
  waiting s l id ++ added s op l id = sent s op l id ++ waiting (sched_apply s op) l id.
Proof.
  intros Hlim Hs Hop Hal. unfold waiting. destruct op as [f| |r|l' id'|l' w]; [| |done| |];
    cbn [sched_apply typed_op added sent leaves_alone app] in *.
  - destruct (enqueue_spec s f Hlim Hop) as [(_ & e & ->)|(_ & frs & Hne & Hsz & (ser & He & Hfr) & ->)];
      cbn [fst snd].
    + destruct (decide _); [|by rewrite app_nil_r].
      by destruct (frame_lane f); cbn; rewrite app_nil_r.
    + rewrite lane_queue_set. destruct (push_frame_spec _ (frame_stream_id f) _ _
        (si_lane s Hs (frame_lane f)) Hne Hsz) as [_ Hc].
      destruct (decide (frame_lane f = l /\ frame_stream_id f = id)) as [[<- <-]|Hno].
      * rewrite decide_True by done. rewrite Hc, decide_True by done.
        rewrite He, Hfr, fmap_app, charge_fragments. done.
      * rewrite app_nil_r. case_decide as Hl; [|done]. subst l. rewrite Hc.
        case_decide as Hid; [|done]. by destruct Hno.
  - destruct (next_fragment s) as [s1 r] eqn:Hn. cbn [fst snd]. rewrite app_nil_r.
    destruct (next_fragment_cases s s1 r Hs Hn) as [(-> & _ & ->)|(q & j & l' & -> & Hx)]; [done|].
    destruct Hx as (_ & _ & _ & _ & (El & _ & _ & _ & Hc & Hoth & _ & _ & _ & Hlanes) & _). subst l'.
    destruct (decide (rq_lane q = l /\ rq_stream_id q = id)) as [[<- <-]|Hno].
    + rewrite Hc. done.
    + destruct (decide (l = rq_lane q)) as [->|Hl]; [|by rewrite Hlanes].
      rewrite Hoth; [done|]. intros ->. by destruct Hno.
  - rewrite app_nil_r. unfold close_stream. rewrite lane_queue_set. case_decide as Hl; [|done]. subst l'.
    destruct (queue_close_spec _ id' (si_lane s Hs l)) as (_ & _ & Hoth & _).
    rewrite Hoth; [done|]. intros ->. by destruct Hal.
  - rewrite app_nil_r. unfold set_lane_writable. rewrite lane_queue_set. case_decide; [by subst l'|done].
Qed.

Lemma fifo_run ops l id : forall s,
  limits_ok (sc_limits s) -> sched_inv s -> Forall typed_op ops -> Forall (leaves_alone l id) ops ->
  waiting s l id ++ trace added s ops l id
    = trace sent s ops l id ++ waiting (foldl sched_apply s ops) l id.
Proof.
  induction ops as [|op ops IH]; intros s Hlim Hs Hop Hal; cbn [trace foldl].
  { by rewrite app_nil_r. }
  apply Forall_cons in Hop as [Hop Hops]. apply Forall_cons in Hal as [Hal Hals].
  destruct (sched_inv_apply s op Hlim Hs Hop) as [Hs' El].
  rewrite app_assoc, (fifo_step s op l id Hlim Hs Hop Hal), <- !app_assoc. f_equal.
  apply IH; try done. by rewrite El.
Qed.

(** Reliable lanes are first-in first-out per stream and lose nothing: over any
    execution that does not cancel the stream or return a leased fragment, the
    fragments of all frames accepted on the stream are, in order, exactly those
    already handed to the carrier followed by those still waiting. *)
Theorem stream_fifo (limits : RemoteQueueLimits) (ops : list sched_op) (l : RemoteLane) (id : Z) :
  limits_ok limits -> Forall typed_op ops -> Forall (leaves_alone l id) ops ->
  trace added (scheduler_new limits) ops l id
    = trace sent (scheduler_new limits) ops l id ++ waiting (run_ops limits ops) l id.
Proof.
  intros Hlim Hops Hal. unfold run_ops. rewrite <- (fifo_run ops l id (scheduler_new limits)); try done.
  - by destruct l.
  - apply sched_inv_new.
Qed.
End props.

(** ** Leases: [requeue] *)

(** Two lane queues that hold the same fragments, in the same order, with the same
    counters. The write-only [deficit] of each stream is left out. *)
Definition lane_equiv (q q' : LaneQueue) : Prop :=
  lq_order q = lq_order q' /\ lq_frames q = lq_frames q' /\ lq_bytes q = lq_bytes q' /\
  lq_writable q = lq_writable q' /\ st_fragments <$> lq_streams q = st_fragments <$> lq_streams q'.

#[export] Instance lane_equiv_equivalence : Equivalence lane_equiv.
Proof.
  split; [by intros ?| |]; unfold lane_equiv.
  - intros ? ? (? & ? & ? & ? & ?). by split_and!.
  - intros ? ? ? (? & ? & ? & ? & ?) (? & ? & ? & ? & ?). split_and!; congruence.
Qed.

(** Schedulers that agree on every lane; the position in the schedule is left out. *)
Definition sched_equiv (s s' : RemoteLaneScheduler) : Prop :=
  sc_limits s = sc_limits s' /\ forall l, lane_equiv (lane_queue s l) (lane_queue s' l).

#[export] Instance sched_equiv_equivalence : Equivalence sched_equiv.
Proof.
  split; [by intros ?| |]; unfold sched_equiv.
  - intros ? ? [? Hl]. split; [done|]. intros l. by symmetry.
  - intros ? ? ? [? Hl] [? Hl']. split; [congruence|]. intros l. by rewrite Hl.
Qed.

Lemma contents_fmap q id : contents q id = default [] ((st_fragments <$> lq_streams q) !! id).
Proof. unfold contents. rewrite lookup_fmap. by destruct (lq_streams q !! id). Qed.

#[export] Instance contents_proper : Proper (lane_equiv ==> (=) ==> (=)) contents.
Proof. intros q q' (_ & _ & _ & _ & E) id ? <-. by rewrite !contents_fmap, E. Qed.

(** Under the invariant, the contents view and the order determine the queue. *)
Lemma lane_equiv_contents q q' :
  lane_inv q -> lane_inv q' -> lq_order q = lq_order q' -> lq_frames q = lq_frames q' ->
  lq_bytes q = lq_bytes q' -> lq_writable q = lq_writable q' ->
  (forall id, contents q id = contents q' id) -> lane_equiv q q'.
Proof.
  intros Hq Hq' E1 E2 E3 E4 Hc. split_and!; try done. apply map_eq. intros id.
  specialize (Hc id). pose proof (contents_nil q id Hq) as Hn. pose proof (contents_nil q' id Hq') as Hn'.
  rewrite !lookup_fmap. unfold contents in *.
  destruct (lq_streams q !! id) eqn:A, (lq_streams q' !! id) eqn:B; cbn in *; try congruence.
  - by destruct Hn as [Hn _]; specialize (Hn Hc).
  - by destruct Hn' as [Hn' _]; specialize (Hn' (eq_sym Hc)).
Qed.

#[export] Instance aggregate_bytes_proper : Proper (sched_equiv ==> (=)) aggregate_bytes.
Proof.
  intros s s' [_ Hl]. unfold aggregate_bytes. cbn [foldr RemoteLane_ALL].
  by rewrite (proj1 (proj2 (proj2 (Hl Control)))), (proj1 (proj2 (proj2 (Hl Interactive)))),
    (proj1 (proj2 (proj2 (Hl Bulk)))).
Qed.

Lemma filter_not_in (id : Z) (l : list Z) : id ∉ l -> filter (fun k => k <> id) l = l.
Proof.
  induction l as [|k l IH]; intros Hn; [done|]. rewrite filter_cons, decide_True by set_solver.
  f_equal. apply IH. set_solver.
Qed.

(** A refused fragment is given back without a trace: handing the fragment just
    taken by [next_fragment] back with [requeue] restores every lane: the same
    fragments in the same stream order, the same frame and byte counters. (Only
    the schedule cursor and the unused deficits differ.) *)
Theorem requeue_restores (s s' : RemoteLaneScheduler) (r : RemoteSendRequest) :
  sched_inv s -> next_fragment s = (s', Some r) -> sched_equiv (scheduler_requeue s' r) s.
Proof.
  intros Hs Hn. destruct (next_fragment_cases s s' _ Hs Hn) as [(? & _)|(q & j & l & Eq & Hx)]; [done|].
  injection Eq as <-. destruct Hx as (_ & _ & _ & _ & Hsv & _).
  destruct Hsv as (El & Hs' & Elim & (order & Ho & Ho') & Hc & Hoth & Hf & Hb & Hw & Hlanes). subst l.
  set (x := mkQueued (rq_fragment r) (rq_accounted_bytes r)) in *.
  pose proof (si_lane s Hs (rq_lane r)) as Hl. pose proof (si_lane s' Hs' (rq_lane r)) as Hl'.
  assert (0 <= byte_charge x) as Hnn.
  { apply (contents_charge_nonneg _ (rq_stream_id r) x Hl). rewrite Hc. left. }
  destruct (queue_requeue_spec _ (rq_stream_id r) x Hl' Hnn) as (Hi & Hord & Hcon & Hfr & Hby & Hwr).
  cbn [qf_fragment qf_accounted_bytes x] in *. unfold scheduler_requeue.
  split; [by rewrite (proj1 (set_lane_queue_fields _ _ _))|]. intros l. rewrite lane_queue_set.
  destruct (decide (l = rq_lane r)) as [->|Hll]; [|by rewrite Hlanes].
  apply lane_equiv_contents; try done; try congruence; try lia.
  - rewrite Hord, Ho, Ho'. f_equal. pose proof (li_nodup _ Hl) as Hnd. rewrite Ho in Hnd.
    apply NoDup_cons in Hnd as [Hni _]. destruct (decide _); [by apply filter_not_in|].
    rewrite filter_app, filter_not_in by done. rewrite filter_cons, decide_False by naive_solver.
    by rewrite filter_nil, app_nil_r.
  - intros id. rewrite Hcon. destruct (decide (id = rq_stream_id r)) as [->|Hid]; [by rewrite Hc|by apply Hoth].
Qed.

(** A returned fragment goes first: after [requeue], the next fragment the lane
    emits is exactly the one returned, whatever was queued in the meantime. *)
Theorem requeue_retry_first (s : RemoteLaneScheduler) (r : RemoteSendRequest) :
  is_lane_writable s (rq_lane r) = true ->
  (pop_from_lane (scheduler_requeue s r) (rq_lane r)).2 = Some r.
Proof.
  unfold is_lane_writable. intros Hw. unfold pop_from_lane, scheduler_requeue.
  rewrite lane_queue_set, decide_True by done. unfold queue_requeue, queue_pop.
  destruct r as [l id fr [b|]]; cbn -[settle lane_queue] in *; rewrite Hw; cbn -[settle lane_queue];
    rewrite lookup_insert_eq; cbn -[settle lane_queue];
    destruct (st_fragments (default stream_queue_default (lq_streams (lane_queue s l) !! id)));
    cbn -[settle lane_queue]; by destruct (settle _ _).
Qed.

(** ** Witnesses: two interactive frames on one stream. *)

Definition tight_limits : RemoteQueueLimits :=
  mkLimits 256 (2 * 1024 * 1024) 1 (8 * 1024 * 1024) 128 (8 * 1024 * 1024)
    (16 * 1024 * 1024) (1024 * 1024) 32 (2 * 1024 * 1024).
Definition sample_lease : option RemoteSendRequest :=
  (next_fragment (@run_ops Toy_sha256 tight_limits [OpEnqueue sample_frame])).2.
Definition sample_ops : list sched_op :=
  [OpEnqueue sample_frame; OpEnqueue sample_frame; OpNext].

Lemma tight_limits_ok : limits_ok tight_limits.
Proof. split; try done. by intros []. Qed.
Lemma sample_ops_typed : Forall typed_op sample_ops.
Proof. repeat constructor; apply sample_frame_wf. Qed.
Lemma sample_ops_no_requeue : Forall (fun op => is_requeue op = false) sample_ops.
Proof. by repeat constructor. Qed.
Lemma sample_ops_alone : Forall (leaves_alone Interactive 2) sample_ops.
Proof. by repeat constructor. Qed.

(** [requeue] re-admits without a check: a leased fragment returned after its
    frame slot was given to another frame takes the lane above its frame cap. *)
Theorem requeue_exceeds_cap :
  exists r, sample_lease = Some r /\ limits_ok tight_limits /\
    Forall typed_op [OpEnqueue sample_frame; OpNext; OpEnqueue sample_frame; OpRequeue r] /\
    frames_for tight_limits Interactive = 1 /\
    queued_frames (@run_ops Toy_sha256 tight_limits
      [OpEnqueue sample_frame; OpNext; OpEnqueue sample_frame; OpRequeue r]) Interactive = 2.
Proof.
  destruct sample_lease as [r|] eqn:Hr; [|vm_compute in Hr; discriminate].
  exists r. vm_compute in Hr. injection Hr as <-. split; [done|]. split; [apply tight_limits_ok|].
  split; [|split; vm_compute; reflexivity]. repeat constructor; try apply sample_frame_wf.
Qed.

Lemma next_fragment_complete_witness :
  let s := @run_ops Toy_sha256 RemoteQueueLimits_DEFAULT sample_ops in
  exists r, (next_fragment s).2 = Some r /\ ready s Interactive /\ rq_stream_id r = 2.
Proof.
  destruct (@run_ops_inv Toy_sha256 RemoteQueueLimits_DEFAULT sample_ops limits_ok_default sample_ops_typed)
    as [Hs _].
  cbn zeta.
  destruct (next_fragment (@run_ops Toy_sha256 RemoteQueueLimits_DEFAULT sample_ops)) as [s' r] eqn:Hn.
  pose proof (next_fragment_complete _ s' r Hs Hn) as Hc.
  assert (rq_stream_id <$> r = Some 2 /\ rq_lane <$> r = Some Interactive) as [Hid Hl].
  { apply (f_equal snd) in Hn. vm_compute in Hn. cbn [snd] in Hn. subst r. done. }
  destruct r as [r|]; [|discriminate Hid]. injection Hid as Hid. injection Hl as Hl.
  destruct Hc as (j & _ & _ & _ & Hr & _). rewrite Hl in Hr. exists r.
  split; [reflexivity|]. split; [exact Hr|exact Hid].
Defined.

Lemma lane_bounded_wait_witness :
  exists r, r ∈ (run_next 3 (@run_ops Toy_sha256 RemoteQueueLimits_DEFAULT sample_ops)).2 /\
    rq_lane r = Interactive.
Proof.
  apply (@lane_bounded_wait Toy_sha256 RemoteQueueLimits_DEFAULT sample_ops Interactive limits_ok_default
           sample_ops_typed).
  split; vm_compute; [reflexivity|discriminate].
Defined.

Lemma queue_limits_hold_witness :
  queued_frames (@run_ops Toy_sha256 RemoteQueueLimits_DEFAULT sample_ops) Interactive = 1 /\
  aggregate_bytes (@run_ops Toy_sha256 RemoteQueueLimits_DEFAULT sample_ops) <= 16777216.
Proof.
  split; [vm_compute; reflexivity|].
  apply (@queue_limits_hold Toy_sha256 RemoteQueueLimits_DEFAULT sample_ops limits_ok_default sample_ops_typed
           sample_ops_no_requeue).
Defined.

Lemma enqueue_admission_witness :
  (@scheduler_enqueue Toy_sha256 (scheduler_new RemoteQueueLimits_DEFAULT) sample_frame).2
    = Ok Enqueued.
Proof.
  apply (@enqueue_admission Toy_sha256 (scheduler_new RemoteQueueLimits_DEFAULT) sample_frame
           limits_ok_default sample_frame_wf).
  split; [vm_compute; discriminate|]. split; vm_compute; discriminate.
Defined.

Lemma reservation_honoured_witness :
  (@scheduler_enqueue Toy_sha256 (@run_ops Toy_sha256 RemoteQueueLimits_DEFAULT sample_ops)
     sample_frame).2 = Ok Enqueued.
Proof.
  apply (@reservation_honoured Toy_sha256 RemoteQueueLimits_DEFAULT sample_ops sample_frame
           limits_ok_default sample_ops_typed sample_ops_no_requeue sample_frame_wf).
  - vm_compute. discriminate.
  - split; vm_compute; [reflexivity|discriminate].
Defined.

Lemma scheduler_accounting_witness :
  let s := @run_ops Toy_sha256 RemoteQueueLimits_DEFAULT (sample_ops ++ [OpNext]) in
  has_pending s = false /\ queued_bytes s Interactive = 0.
Proof.
  assert (has_pending (@run_ops Toy_sha256 RemoteQueueLimits_DEFAULT (sample_ops ++ [OpNext])) = false)
    as Hp by (vm_compute; reflexivity).
  split; [exact Hp|].
  apply (@scheduler_accounting Toy_sha256 RemoteQueueLimits_DEFAULT (sample_ops ++ [OpNext]) Interactive
           limits_ok_default); [|exact Hp].
  apply Forall_app. split; [apply sample_ops_typed|]. by repeat constructor.
Defined.

Lemma stream_fifo_witness :
  length (@trace Toy_sha256 (@added Toy_sha256) (scheduler_new RemoteQueueLimits_DEFAULT) sample_ops Interactive 2) = 2%nat /\
  @trace Toy_sha256 (@added Toy_sha256) (scheduler_new RemoteQueueLimits_DEFAULT) sample_ops Interactive 2
    = @trace Toy_sha256 sent (scheduler_new RemoteQueueLimits_DEFAULT) sample_ops Interactive 2
      ++ waiting (@run_ops Toy_sha256 RemoteQueueLimits_DEFAULT sample_ops) Interactive 2.
Proof.
  split; [vm_compute; reflexivity|].
  apply (@stream_fifo Toy_sha256 RemoteQueueLimits_DEFAULT sample_ops Interactive 2 limits_ok_default
           sample_ops_typed sample_ops_alone).
Defined.

Lemma requeue_restores_witness :
  let s := @run_ops Toy_sha256 RemoteQueueLimits_DEFAULT sample_ops in
  exists r, (next_fragment s).2 = Some r /\ sched_equiv (scheduler_requeue (next_fragment s).1 r) s.
Proof.
  destruct (@run_ops_inv Toy_sha256 RemoteQueueLimits_DEFAULT sample_ops limits_ok_default sample_ops_typed)
    as [Hs _].
  cbn zeta. destruct (next_fragment (@run_ops Toy_sha256 RemoteQueueLimits_DEFAULT sample_ops))
    as [s' [r|]] eqn:Hn.
  - exists r. split; [reflexivity|]. exact (requeue_restores _ s' r Hs Hn).
  - exfalso. apply (f_equal snd) in Hn. vm_compute in Hn. discriminate Hn.
Defined.

Lemma requeue_retry_first_witness :
  exists r, sample_lease = Some r /\
    (pop_from_lane (scheduler_requeue (scheduler_new tight_limits) r) (rq_lane r)).2 = Some r.
Proof.
  destruct sample_lease as [r|] eqn:Hr; [|vm_compute in Hr; discriminate]. exists r.
  split; [reflexivity|]. apply (requeue_retry_first (scheduler_new tight_limits) r).
  vm_compute in Hr. injection Hr as <-. reflexivity.
Defined.
