(* ===== verification/LaneIo.v ===== *)
(** The carrier-agnostic lane surface ([remote_transport/lane_io.rs]).

    The traits [RemoteLaneWriter] and [RemoteLaneReader] are type classes; what a
    carrier promises through them is stated once ([LaneWriterLaws],
    [LaneReaderLaws]) and application-side theorems are proved against that
    interface.  [RemoteLaneEndpoint] is the carrier of the source; both of its
    kinds discharge the interface. *)

From S2P Require Import Prelude.
From S2P Require Import Lane.
From S2P Require Import ProtocolId.
From S2P Require Import Frame.
From S2P Require Import Streams.
From S2P Require Import Fragment.
From S2P Require Import Reassembly.
From S2P Require Import Delivery.
From stdpp Require Import options.
Set Warnings "-clear-no-such-hyp".

(** lane_io.rs:18-22 RemoteWritability. *)
Inductive RemoteWritability := Writable | BufferFull.

(** lane_io.rs:29-33 RemoteCarrierKind. *)
Inductive RemoteCarrierKind := WebRtcDataChannel | WebSocketFallback.

(** lane_io.rs:36-41 RemoteCarrierKind::as_str. *)
Definition carrier_as_str (k : RemoteCarrierKind) : string :=
  match k with
  | WebRtcDataChannel => "webrtc_data_channel"
  | WebSocketFallback => "websocket_fallback"
  end.

(** lane_io.rs:45-47 RemoteCarrierKind::transmits_watermark. *)
Definition transmits_watermark (k : RemoteCarrierKind) : bool :=
  match k with WebSocketFallback => true | WebRtcDataChannel => false end.

(** lane_io.rs:51-64 RemoteLaneWriter. *)
Class RemoteLaneWriter (T : Type) := {
  writability : T -> RemoteLane -> RemoteWritability;
  write_fragment : T -> RemoteLane -> RemoteCarrierFragmentV1 -> T * RemoteTransportResult unit;
}.

(** lane_io.rs:67-70 RemoteLaneReader. *)
Class RemoteLaneReader (T : Type) := {
  read_fragment : T -> T * RemoteTransportResult (option RemoteCarrierFragmentV1);
}.

(** lane_io.rs:77-86 RemoteLaneEndpoint. *)
Record RemoteLaneEndpoint := mkEndpoint {
  ep_kind : RemoteCarrierKind;
  ep_records : RemoteLane -> list bytes;
  ep_arrival : list RemoteLane;
  ep_writable : RemoteLane -> bool;
  ep_peer_seen_through : Z;
}.

(** lane_io.rs:89-97 RemoteLaneEndpoint::new. *)
Definition endpoint_new (k : RemoteCarrierKind) : RemoteLaneEndpoint :=
  mkEndpoint k (fun _ => []) [] (fun _ => true) 0.

(** lane_io.rs:103-105 RemoteLaneEndpoint::set_writable. *)
Definition endpoint_set_writable (e : RemoteLaneEndpoint) (lane : RemoteLane) (w : bool) :=
  mkEndpoint (ep_kind e) (ep_records e) (ep_arrival e) (<[lane := w]> (ep_writable e))
    (ep_peer_seen_through e).

(** lane_io.rs:107-109 RemoteLaneEndpoint::set_peer_seen_through. *)
Definition set_peer_seen_through (e : RemoteLaneEndpoint) (watermark : Z) :=
  mkEndpoint (ep_kind e) (ep_records e) (ep_arrival e) (ep_writable e) watermark.

Definition set_queues (e : RemoteLaneEndpoint) (records : RemoteLane -> list bytes)
    (arrival : list RemoteLane) :=
  mkEndpoint (ep_kind e) records arrival (ep_writable e) (ep_peer_seen_through e).

(** lane_io.rs:112-135 RemoteLaneEndpoint::encode_record. *)
Definition encode_record (e : RemoteLaneEndpoint) (f : RemoteCarrierFragmentV1)
    : RemoteTransportResult bytes :=
  payload ← fragment_encode f;
  if LANE_FRAGMENT_TOTAL_BYTES + PEER_SEEN_THROUGH_WATERMARK_BYTES
     <? zlen payload + PEER_SEEN_THROUGH_WATERMARK_BYTES
  then Err (err_with_size FragmentPayloadCapExceeded (frag_lane f) (zlen payload)) else
  if transmits_watermark (ep_kind e)
  then Ok (to_be 8 (ep_peer_seen_through e) ++ payload)
  else Ok payload.

(** lane_io.rs:138-149 RemoteLaneEndpoint::decode_record. *)
Definition decode_record (e : RemoteLaneEndpoint) (record : bytes) : RemoteTransportResult bytes :=
  if transmits_watermark (ep_kind e) then
    if zlen record <? PEER_SEEN_THROUGH_WATERMARK_BYTES then Err (err_new HeaderTooShort) else
    slice_from record PEER_SEEN_THROUGH_WATERMARK_BYTES
  else Ok record.

(** Take the next record in arrival order; [expect] panics if the lane has none. *)
Definition take_record (e : RemoteLaneEndpoint) (lane : RemoteLane) (arrival : list RemoteLane)
    : RemoteLaneEndpoint * RemoteTransportResult bytes :=
  match ep_records e lane with
  | [] => (set_queues e (ep_records e) arrival, Panic)
  | record :: rest => (set_queues e (<[lane := rest]> (ep_records e)) arrival, Ok record)
  end.

(** lane_io.rs:152-171 RemoteLaneEndpoint::deliver_to. The [while let] loop, once per arrival. *)
Fixpoint deliver_loop (arrival : list RemoteLane) (e peer : RemoteLaneEndpoint)
    : RemoteLaneEndpoint * RemoteLaneEndpoint * RemoteTransportResult unit :=
  match arrival with
  | [] => (e, peer, Ok tt)
  | lane :: arrival =>
      match take_record e lane arrival with
      | (e, Err err) => (e, peer, Err err)
      | (e, Panic) => (e, peer, Panic)
      | (e, Ok record) =>
          match decode_record e record with
          | Err err => (e, peer, Err err)
          | Panic => (e, peer, Panic)
          | Ok fragment_bytes =>
              let reencoded :=
                if transmits_watermark (ep_kind peer)
                then to_be 8 (ep_peer_seen_through peer) ++ fragment_bytes
                else fragment_bytes in
              deliver_loop arrival e
                (set_queues peer (<[lane := ep_records peer lane ++ [reencoded]]> (ep_records peer))
                   (ep_arrival peer ++ [lane]))
          end
      end
  end.
(** lane_io.rs:152-171 RemoteLaneEndpoint::deliver_to. *)
Definition deliver_to (e peer : RemoteLaneEndpoint)
    : RemoteLaneEndpoint * RemoteLaneEndpoint * RemoteTransportResult unit :=
  deliver_loop (ep_arrival e) e peer.

(** lane_io.rs:173-175 RemoteLaneEndpoint::pending_records. *)
Definition pending_records (e : RemoteLaneEndpoint) : Z := zlen (ep_arrival e).

(** lane_io.rs:179-185 RemoteLaneEndpoint::writability. *)
Definition endpoint_writability (e : RemoteLaneEndpoint) (lane : RemoteLane) : RemoteWritability :=
  if ep_writable e lane then Writable else BufferFull.

(** lane_io.rs:187-209 RemoteLaneEndpoint::write_fragment. *)
Definition endpoint_write (e : RemoteLaneEndpoint) (lane : RemoteLane) (f : RemoteCarrierFragmentV1)
    : RemoteLaneEndpoint * RemoteTransportResult unit :=
  if negb (bool_decide (frag_lane f = lane)) then (e, Err (err_with_lane UnknownLane lane)) else
  if negb (ep_writable e lane) then (e, Err (err_with_lane QueueByteLimit lane)) else
  match encode_record e f with
  | Err err => (e, Err err)
  | Panic => (e, Panic)
  | Ok record =>
      (set_queues e (<[lane := ep_records e lane ++ [record]]> (ep_records e))
         (ep_arrival e ++ [lane]), Ok tt)
  end.

(** lane_io.rs:213-222 RemoteLaneEndpoint::read_fragment. *)
Definition endpoint_read (e : RemoteLaneEndpoint)
    : RemoteLaneEndpoint * RemoteTransportResult (option RemoteCarrierFragmentV1) :=
  match ep_arrival e with
  | [] => (e, Ok None)
  | lane :: arrival =>
      match take_record e lane arrival with
      | (e, Err err) => (e, Err err)
      | (e, Panic) => (e, Panic)
      | (e, Ok record) =>
          (e, fragment_bytes ← decode_record e record;
              f ← fragment_decode fragment_bytes;
              Ok (Some f))
      end
  end.

#[export] Instance endpoint_writer : RemoteLaneWriter RemoteLaneEndpoint :=
  {| writability := endpoint_writability; write_fragment := endpoint_write |}.
#[export] Instance endpoint_reader : RemoteLaneReader RemoteLaneEndpoint :=
  {| read_fragment := endpoint_read |}.

(** ** The promise of the interface *)

(** [holds t frs]: the carrier will yield [frs], in this order. *)
Class LaneWriterLaws (T : Type) `{RemoteLaneWriter T} (holds : T -> list RemoteCarrierFragmentV1 -> Prop)
    : Prop := {
  write_accepts : forall t frs f,
    holds t frs -> wf_fragment f -> writability t (frag_lane f) = Writable ->
    exists t', write_fragment t (frag_lane f) f = (t', Ok tt) /\ holds t' (frs ++ [f]) /\
      forall l, writability t' l = writability t l;
  write_reports_full : forall t f,
    writability t (frag_lane f) = BufferFull ->
    exists e, write_fragment t (frag_lane f) f = (t, Err e);
}.
Class LaneReaderLaws (T : Type) `{RemoteLaneReader T} (holds : T -> list RemoteCarrierFragmentV1 -> Prop)
    : Prop := {
  read_yields : forall t f frs, holds t (f :: frs) ->
    exists t', read_fragment t = (t', Ok (Some f)) /\ holds t' frs;
  read_empty : forall t, holds t [] -> read_fragment t = (t, Ok None);
}.

(** ** Application code over the interface *)

Section client.
Context {W : Type} `{RemoteLaneWriter W} {holdsW : W -> list RemoteCarrierFragmentV1 -> Prop}.
Context `{!LaneWriterLaws W holdsW}.

Fixpoint write_all (t : W) (frs : list RemoteCarrierFragmentV1) : W * RemoteTransportResult unit :=
  match frs with
  | [] => (t, Ok tt)
  | f :: frs =>
      match write_fragment t (frag_lane f) f with
      | (t, Ok _) => write_all t frs
      | (t, r) => (t, r)
      end
  end.

Lemma write_all_holds frs : forall t held,
  holdsW t held -> Forall wf_fragment frs -> Forall (fun f => writability t (frag_lane f) = Writable) frs ->
  exists t', write_all t frs = (t', Ok tt) /\ holdsW t' (held ++ frs).
Proof using Type*.
  induction frs as [|f frs IH]; intros t held Ht Hf Hw.
  { exists t. by rewrite app_nil_r. }
  apply Forall_cons in Hf as [Hf Hfs]. apply Forall_cons in Hw as [Hw Hws]. cbn.
  destruct (write_accepts t held f Ht Hf Hw) as (t1 & -> & Ht1 & Hw1).
  destruct (IH t1 (held ++ [f]) Ht1 Hfs) as (t' & -> & Ht').
  { eapply Forall_impl; [exact Hws|]. intros g Hg. cbn. by rewrite Hw1. }
  exists t'. split; [done|]. by rewrite <- app_assoc in Ht'.
Qed.
End client.

Section pump.
Context {R : Type} `{RemoteLaneReader R} {holdsR : R -> list RemoteCarrierFragmentV1 -> Prop}.
Context `{!LaneReaderLaws R holdsR} `{Sha256, HashOrder}.

(** Read once per clock reading and feed every fragment to the reassembler. *)
Fixpoint pump (clock : list Z) (t : R) (r : RemoteFragmentReassembler)
    : R * RemoteFragmentReassembler * list (RemoteTransportResult (option RemoteTransportFrameV1)) :=
  match clock with
  | [] => (t, r, [])
  | now_ms :: clock =>
      match read_fragment t with
      | (t, Ok (Some f)) =>
          let '(r, out) := reassembler_accept r f now_ms in
          let '(t, r, outs) := pump clock t r in
          (t, r, out :: outs)
      | (t, _) => (t, r, [])
      end
  end.

(** Pumping a carrier is running the reassembler on what the carrier holds. *)
Lemma pump_holds frs : forall clock t r,
  holdsR t frs -> length clock = length frs ->
  exists t', pump clock t r
    = (t', (run_reassembler r (zip frs clock)).1, (run_reassembler r (zip frs clock)).2) /\ holdsR t' [].
Proof using Type*.
  induction frs as [|f frs IH]; intros [|now clock] t r Ht Hlen; try done; [by exists t|].
  cbn [pump zip zip_with run_reassembler].
  destruct (read_yields t f frs Ht) as (t1 & -> & Ht1).
  destruct (reassembler_accept r f now) as [r1 out]. injection Hlen as Hlen.
  destruct (IH clock t1 r1 Ht1 Hlen) as (t' & -> & Ht').
  destruct (run_reassembler r1 _) as [r2 outs]. by exists t'.
Qed.
End pump.

(** ** The endpoint keeps the promise *)

(** The wire bytes an endpoint of a kind may hold for a fragment. *)
Definition record_of (e : RemoteLaneEndpoint) (f : RemoteCarrierFragmentV1) (record : bytes) : Prop :=
  exists payload, fragment_encode f = Ok payload /\ decode_record e record = Ok payload.

Record endpoint_holds (e : RemoteLaneEndpoint) (frs : list RemoteCarrierFragmentV1) : Prop := {
  eh_wf : Forall wf_fragment frs;
  eh_arrival : ep_arrival e = frag_lane <$> frs;
  eh_records : forall l,
    Forall2 (record_of e) (filter (fun f => frag_lane f = l) frs) (ep_records e l);
}.

Lemma endpoint_holds_new k : endpoint_holds (endpoint_new k) [].
Proof. split; [constructor|done|]. intros l. constructor. Qed.

Lemma decode_record_queues e r a b : decode_record (set_queues e r a) b = decode_record e b.
Proof. done. Qed.

Lemma decode_record_frame e payload :
  decode_record e (if transmits_watermark (ep_kind e)
                   then to_be 8 (ep_peer_seen_through e) ++ payload else payload) = Ok payload.
Proof.
  unfold decode_record. destruct (transmits_watermark (ep_kind e)); [|done].
  rewrite zlen_app, zlen_to_be. pose proof (zlen_nonneg payload).
  rewrite (proj2 (Z.ltb_ge _ _)) by (unfold PEER_SEEN_THROUGH_WATERMARK_BYTES; lia).
  unfold slice_from. rewrite zlen_app, zlen_to_be. unfold PEER_SEEN_THROUGH_WATERMARK_BYTES.
  by read_field.
Qed.

Lemma encode_record_ok e f :
  wf_fragment f -> exists record, encode_record e f = Ok record /\ record_of e f record.
Proof.
  intros Hf. destruct (fragment_decode_encode f Hf) as (b & Hb & _ & Hmax & _).
  unfold encode_record, record_of. rewrite Hb, bind_Ok_l. rewrite (proj2 (Z.ltb_ge _ _)) by lia.
  pose proof (decode_record_frame e b) as Hd.
  destruct (transmits_watermark (ep_kind e)); eexists; (split; [done|]); by exists b.
Qed.

Lemma holds_write e frs f record :
  endpoint_holds e frs -> wf_fragment f -> record_of e f record ->
  endpoint_holds (set_queues e (<[frag_lane f := ep_records e (frag_lane f) ++ [record]]> (ep_records e))
                    (ep_arrival e ++ [frag_lane f])) (frs ++ [f]).
Proof.
  intros [H1 H2 H3] Hf Hr. split; cbn.
  - apply Forall_app. by split; [|constructor].
  - by rewrite fmap_app, H2.
  - intros l. rewrite filter_app, filter_cons, filter_nil.
    destruct (decide (frag_lane f = l)) as [<-|Hne].
    + rewrite fn_lookup_insert. apply Forall2_app; [apply H3|]. by repeat constructor.
    + rewrite fn_lookup_insert_ne by done. rewrite app_nil_r. apply H3.
Qed.

(** Taking the first record in arrival order. *)
Lemma holds_take e f frs :
  endpoint_holds e (f :: frs) ->
  exists arrival record e', ep_arrival e = frag_lane f :: arrival /\
    take_record e (frag_lane f) arrival = (e', Ok record) /\ record_of e' f record /\
    endpoint_holds e' frs /\ arrival = ep_arrival e' /\ ep_kind e' = ep_kind e.
Proof.
  intros [H1 H2 H3]. rewrite fmap_cons in H2. apply Forall_cons in H1 as [Hf Hfs].
  pose proof (H3 (frag_lane f)) as Hl. rewrite filter_cons, decide_True in Hl by done.
  apply Forall2_cons_inv_l in Hl as (record & rest & Hr & Hrest & Hrec).
  exists (frag_lane <$> frs), record, (set_queues e (<[frag_lane f := rest]> (ep_records e)) (frag_lane <$> frs)).
  split; [done|]. unfold take_record. rewrite Hrec. split_and!; try done.
  split; try done. intros l. cbn. destruct (decide (frag_lane f = l)) as [<-|Hne].
  - rewrite fn_lookup_insert. done.
  - rewrite fn_lookup_insert_ne by done. specialize (H3 l). by rewrite filter_cons, decide_False in H3.
Qed.

#[export] Instance endpoint_writer_laws : LaneWriterLaws RemoteLaneEndpoint endpoint_holds.
Proof.
  split.
  - intros e frs f He Hf Hw. cbn in *. unfold endpoint_writability in Hw.
    destruct (ep_writable e (frag_lane f)) eqn:Hwr; [|done]. unfold endpoint_write.
    rewrite bool_decide_true by done. cbn [negb]. rewrite Hwr. cbn [negb].
    destruct (encode_record_ok e f Hf) as (record & -> & Hr).
    eexists. split; [done|]. split; [by apply holds_write|done].
  - intros e f Hw. cbn in *. unfold endpoint_writability in Hw. unfold endpoint_write.
    rewrite bool_decide_true by done. cbn [negb].
    destruct (ep_writable e (frag_lane f)); [done|]. by eexists.
Qed.

#[export] Instance endpoint_reader_laws : LaneReaderLaws RemoteLaneEndpoint endpoint_holds.
Proof.
  split.
  - intros e f frs He. destruct (holds_take e f frs He) as (arr & record & e' & Ha & Ht & Hr & He' & _).
    cbn. unfold endpoint_read. rewrite Ha, Ht. exists e'. split; [|done].
    destruct Hr as (payload & Henc & Hdec). rewrite Hdec, bind_Ok_l.
    assert (wf_fragment f) as Hf by (pose proof (eh_wf _ _ He) as Hall; by apply Forall_cons in Hall as [? _]).
    destruct (fragment_decode_encode f Hf) as (b & Hb & _ & _ & Hd).
    rewrite Henc in Hb. injection Hb as <-. by rewrite Hd.
  - intros e [_ Ha _]. cbn in *. unfold endpoint_read. by rewrite Ha.
Qed.

(** Delivery moves everything across, whatever the two carriers are. *)
Lemma deliver_holds frs : forall e peer held,
  endpoint_holds e frs -> endpoint_holds peer held ->
  exists e' peer', deliver_to e peer = (e', peer', Ok tt) /\
    endpoint_holds e' [] /\ endpoint_holds peer' (held ++ frs).
Proof.
  induction frs as [|f frs IH]; intros e peer held He Hp.
  { exists e, peer. rewrite app_nil_r. split; [|done]. unfold deliver_to.
    by rewrite (eh_arrival _ _ He). }
  destruct (holds_take e f frs He) as (arr & record & e1 & Ha & Ht & Hr & He1 & Harr & Hk).
  destruct Hr as (payload & Henc & Hdec).
  assert (wf_fragment f) as Hf by (pose proof (eh_wf _ _ He) as Hall; by apply Forall_cons in Hall as [? _]).
  unfold deliver_to. rewrite Ha. cbn [deliver_loop]. rewrite Ht, Hdec, Harr.
  assert (record_of peer f (if transmits_watermark (ep_kind peer)
    then to_be 8 (ep_peer_seen_through peer) ++ payload else payload)) as Hrec.
  { exists payload. split; [done|]. apply decode_record_frame. }
  destruct (IH e1 _ (held ++ [f]) He1 (holds_write peer held f _ Hp Hf Hrec)) as (e' & p' & Hd & He' & Hp').
  unfold deliver_to in Hd. exists e', p'. split; [exact Hd|]. split; [done|]. by rewrite <- app_assoc in Hp'.
Qed.

(** ** End to end *)

Section end_to_end.
Context `{Sha256, HashOrder}.

(** A receiver that can take the frame: its id is not in use, there is room for it, and its stream is
    at its sequence number. *)
Record receiver_ready (f : RemoteTransportFrameV1) (ser : bytes) (s1 : RemoteStreamSequences)
    (r : RemoteFragmentReassembler) : Prop := {
  rr_inv : reasm_inv r;
  rr_partial : ra_partials r !! id_bytes (frame_id f) = None;
  rr_completed : ra_completed r !! id_bytes (frame_id f) = None;
  rr_frames : incomplete_frames r < ra_max_frames r;
  rr_bytes : ra_buffered_bytes r + zlen ser <= ra_max_bytes r;
  rr_stream : receive_stream (ra_peer_origin r) (ra_sequences r) (frame_lane f) (frame_stream_id f)
    (frame_stream_seq f) (frame_flags f) = (s1, Ok tt);
}.

Lemma zip_app {A B} (l1 l2 : list A) (k1 k2 : list B) : length l1 = length k1 ->
  zip (l1 ++ l2) (k1 ++ k2) = zip l1 k1 ++ zip l2 k2.
Proof. by apply zip_with_app. Qed.
Lemma run_reassembler_app r evs evs' :
  run_reassembler r (evs ++ evs') =
  ((run_reassembler (run_reassembler r evs).1 evs').1,
   (run_reassembler r evs).2 ++ (run_reassembler (run_reassembler r evs).1 evs').2).
Proof.
  revert r. induction evs as [|[f now] evs IH]; intros r; cbn [app run_reassembler fst snd].
  { by destruct (run_reassembler r evs'). }
  destruct (reassembler_accept r f now) as [r1 out]. rewrite IH.
  by destruct (run_reassembler r1 evs) as [r2 outs].
Qed.

(** C1: End to end, and carrier parity.  A well-formed frame can be encoded and split; its fragments
    can be written to an endpoint whose lane is writable and carried to a peer, for every combination
    of the WebRTC and WebSocket carriers, whatever fragments of other frames ([sent], [waiting])
    are still in the two carriers, and whatever watermarks they transmit.  When the peer then
    reads everything, at any clock readings that put the frame's fragments within the
    reassembly deadline of the first of them, into a reassembler that after the older fragments has the frame's id
    unused, room for it and its stream at its sequence number, then after the outcomes of the
    older fragments every fragment but the last is absorbed silently and the last yields
    exactly the frame that was sent; the stream has advanced, the frame is remembered, and both
    carriers are empty.  What the application sees does not depend on the carrier. *)
Theorem lane_end_to_end (f : RemoteTransportFrameV1) (e0 peer0 : RemoteLaneEndpoint)
    (sent waiting : list RemoteCarrierFragmentV1) :
  wf_frame f -> endpoint_holds e0 sent -> endpoint_holds peer0 waiting ->
  endpoint_writability e0 (frame_lane f) = Writable ->
  exists ser frs, frame_encode f = Ok ser /\
    fragment_frame (frame_lane f) (frame_id f) ser = Ok frs /\
    exists e e' peer, write_all e0 frs = (e, Ok tt) /\ deliver_to e peer0 = (e', peer, Ok tt) /\
      endpoint_holds e' [] /\
      forall r older t0 ts s1,
        length older = length (waiting ++ sent) -> length frs = S (length ts) ->
        let backlog := run_reassembler r (zip (waiting ++ sent) older) in
        receiver_ready f ser s1 backlog.1 ->
        Forall (fun t => saturating_sub t t0 < ra_deadline_ms backlog.1) ts ->
        exists peer' r', pump (older ++ t0 :: ts) peer r
            = (peer', r', backlog.2 ++ replicate (length ts) (Ok None) ++ [Ok (Some f)]) /\
          endpoint_holds peer' [] /\ ra_sequences r' = s1 /\
          is_Some (ra_completed r' !! id_bytes (frame_id f)).
Proof.
  intros Hf He0 Hp0 Hw.
  destruct (frame_fragments_wf f Hf) as (ser & frs & Henc & Hsplit & Hwf & Hsz).
  exists ser, frs. split; [done|]. split; [done|].
  destruct (write_all_holds frs e0 sent He0 Hwf) as (e & Hwr & He).
  { apply Forall_forall. intros g Hg. by destruct (fragment_shape f ser frs Hf Henc Hsplit g Hg) as (_ & _ & -> & _). }
  destruct (deliver_holds _ e peer0 waiting He Hp0) as (e' & peer & Hd & He' & Hp).
  exists e, e', peer. split; [done|]. split; [done|]. split; [done|].
  intros r older t0 ts s1 Hold Hlen backlog Hr Ht. rewrite app_assoc in Hp.
  destruct frs as [|g frs]; [done|]. injection Hlen as Hlen.
  destruct (pump_holds _ (older ++ t0 :: ts) peer r Hp) as (peer' & -> & Hp').
  { rewrite !length_app in *. cbn. lia. }
  rewrite zip_app by done. rewrite run_reassembler_app. fold backlog. cbn [fst snd zip zip_with].
  assert ((zip frs ts).*1 = frs) as Hz by (apply fst_zip; lia).
  destruct Hr as [R1 R2 R3 R4 R5 R6].
  destruct (reassembly_delivers f ser (g :: frs) backlog.1 s1 g t0 (zip frs ts) Hf Henc Hsplit R1)
    as (r' & Hrun & Hs & Hc); try done.
  - rewrite fmap_cons. cbn. by rewrite Hz.
  - apply Forall_forall. intros [h t] Hin. rewrite Forall_forall in Ht. apply Ht. by apply elem_of_zip_r in Hin.
  - assert (length (zip frs ts) = length ts) as Hl by (rewrite length_zip_with; lia). rewrite Hl in Hrun.
    unfold zip in *. rewrite Hrun. by exists peer', r'.
Qed.
End end_to_end.

(** A fresh receiver is ready for the first frame of a stream. *)
Lemma sample_ready :
  receiver_ready sample_frame sample_serialized
    (receive_stream Client (sequences_new Client) Interactive 2 0 (mkFrameFlags 1)).1 (reassembler_new Client).
Proof. split; [apply reasm_inv_new|vm_compute; (reflexivity || discriminate)..]. Qed.
Lemma lane_end_to_end_witness :
  exists ser frs, @frame_encode Toy_sha256 sample_frame = Ok ser /\
    fragment_frame Interactive sample_id ser = Ok frs /\
    exists e e' peer, write_all (endpoint_new WebSocketFallback) frs = (e, Ok tt) /\
      deliver_to e (endpoint_new WebRtcDataChannel) = (e', peer, Ok tt) /\
      exists peer' r', @pump _ _ Toy_sha256 map_order [100] peer (reassembler_new Client)
        = (peer', r', [Ok (Some sample_frame)]).
Proof.
  destruct (@lane_end_to_end Toy_sha256 map_order sample_frame (endpoint_new WebSocketFallback)
    (endpoint_new WebRtcDataChannel) [] [] sample_frame_wf (endpoint_holds_new _) (endpoint_holds_new _) eq_refl)
    as (ser & frs & Henc & Hsplit & e & e' & peer & Hw & Hd & _ & Hrun).
  exists ser, frs. split; [exact Henc|]. split; [exact Hsplit|]. exists e, e', peer. split; [exact Hw|]. split; [exact Hd|].
  assert (ser = sample_serialized) as -> by (unfold sample_serialized; by rewrite Henc).
  assert (frs = sample_fragments) as -> by (unfold sample_fragments; by rewrite (Hsplit : fragment_frame Interactive sample_id _ = _)).
  destruct (Hrun (reassembler_new Client) [] 100 []
    (receive_stream Client (sequences_new Client) Interactive 2 0 (mkFrameFlags 1)).1) as (peer' & r' & Hp & _);
    [reflexivity|vm_compute; reflexivity|exact sample_ready|constructor|]. by exists peer', r'.
Defined.
