(* ===== verification/NoiseRecord.v ===== *)
(** Plaintext records inside the Noise transport ([cockpit-noise/src/record.rs])
    and the error type of the crate ([cockpit-noise/src/lib.rs]). *)

From S2P Require Import Prelude.
From stdpp Require Import options.
Set Warnings "-clear-no-such-hyp".

(** noise/lib.rs:55-93 NoiseError. *)
Inductive NoiseError :=
| InvalidPrologue | InvalidHandshakeFrame | HandshakePayloadForbidden | InvalidRecord
| RecordTooLarge | SequenceMismatch | SequenceExhausted | InvalidRekey | BudgetExceeded
| InvalidState | AuthorizationDenied | AuthenticationFailed | LowOrderKey
| CryptoUnavailable | NoiseClosed | InvalidFallback | FallbackWindowExceeded
| FallbackRetryExhausted.

Abbreviation NoiseResult := (result NoiseError).

(** noise/record.rs:3-3 RECORD_HEADER_LEN. *)
Definition RECORD_HEADER_LEN : Z := 14.
(** noise/record.rs:4-4 TAG_LEN. *)
Definition TAG_LEN : Z := 16.
(** noise/record.rs:5-5 MAX_CIPHERTEXT. *)
Definition MAX_CIPHERTEXT : Z := 65535.
(** noise/record.rs:6-6 MAX_PLAINTEXT. *)
Definition MAX_PLAINTEXT : Z := MAX_CIPHERTEXT - TAG_LEN.
(** noise/record.rs:7-7 MAX_PAYLOAD. *)
Definition MAX_PAYLOAD : Z := MAX_PLAINTEXT - RECORD_HEADER_LEN.
(** noise/record.rs:8-8 LANE_FRAGMENT_HEADER_LEN. *)
Definition LANE_FRAGMENT_HEADER_LEN : Z := 26.
(** noise/record.rs:9-9 MAX_LANE_FRAGMENT. *)
Definition MAX_LANE_FRAGMENT : Z := 65497.
(** noise/record.rs:10-10 MAX_LANE_FRAGMENT_PAYLOAD. *)
Definition MAX_LANE_FRAGMENT_PAYLOAD : Z := MAX_LANE_FRAGMENT - LANE_FRAGMENT_HEADER_LEN.

(** noise/record.rs:12-20 RecordKind. *)
Inductive RecordKind := Data | Ack | RekeyPrepare | RekeyCommit | Close.

#[export] Instance RecordKind_eq_dec : EqDecision RecordKind.
Proof. solve_decision. Defined.

Definition record_kind_code (k : RecordKind) : Z :=
  match k with Data => 1 | Ack => 2 | RekeyPrepare => 3 | RekeyCommit => 4 | Close => 5 end.

(** noise/record.rs:25-34 RecordKind::try_from. *)
Definition record_kind_try_from (value : Z) : NoiseResult RecordKind :=
  match value with
  | 1 => Ok Data | 2 => Ok Ack | 3 => Ok RekeyPrepare | 4 => Ok RekeyCommit | 5 => Ok Close
  | _ => Err InvalidRecord
  end.

(** noise/record.rs:37-42 RemoteNoiseRecordV1. *)
Record RemoteNoiseRecordV1 := mkNoiseRecord {
  nr_kind : RecordKind;
  nr_sequence : Z;
  nr_payload : bytes;
}.

(** noise/record.rs:45-57 RemoteNoiseRecordV1::encode_plaintext. *)
Definition encode_plaintext (r : RemoteNoiseRecordV1) : NoiseResult bytes :=
  if MAX_PAYLOAD <? zlen (nr_payload r) then Err RecordTooLarge else
  payload_len ← (if zlen (nr_payload r) <=? U32_MAX then Ok (zlen (nr_payload r))
                 else Err RecordTooLarge);
  Ok (1 :: record_kind_code (nr_kind r) :: to_be 8 (nr_sequence r) ++ to_be 4 payload_len
      ++ nr_payload r).

(** noise/record.rs:59-86 RemoteNoiseRecordV1::decode_plaintext. *)
Definition decode_plaintext (b : bytes) (routing_sequence : Z) : NoiseResult RemoteNoiseRecordV1 :=
  if (zlen b <? RECORD_HEADER_LEN) || (MAX_PLAINTEXT <? zlen b) then Err InvalidRecord else
  kind_byte ← index b 1;
  kind ← record_kind_try_from kind_byte;
  seq_bytes ← slice b 2 10;
  let sequence := from_be seq_bytes in
  len_bytes ← slice b 10 14;
  let length := from_be len_bytes in
  version ← index b 0;
  if negb (version =? 1) || (MAX_PAYLOAD <? length) || negb (zlen b =? RECORD_HEADER_LEN + length)
  then Err InvalidRecord else
  if negb (sequence =? routing_sequence) then Err SequenceMismatch else
  payload ← slice_from b RECORD_HEADER_LEN;
  Ok (mkNoiseRecord kind sequence payload).

(** noise/record.rs:89-95 RekeyPrepareV1. *)
Record RekeyPrepareV1 := mkPrepare {
  rp_direction : Z;
  rp_key_epoch : Z;
  rp_next_key_epoch : Z;
  rp_through_sequence : Z;
}.

#[export] Instance RekeyPrepareV1_eq_dec : EqDecision RekeyPrepareV1.
Proof. solve_decision. Defined.

(** noise/record.rs:99-107 RekeyPrepareV1::encode. *)
Definition prepare_encode (p : RekeyPrepareV1) : bytes :=
  rp_direction p :: to_be 4 (rp_key_epoch p) ++ to_be 4 (rp_next_key_epoch p)
    ++ to_be 8 (rp_through_sequence p).

(** noise/record.rs:109-131 RekeyPrepareV1::decode. *)
Definition prepare_decode (b : bytes) : NoiseResult RekeyPrepareV1 :=
  if negb (zlen b =? 17) then Err InvalidRekey else
  direction ← index b 0;
  if negb ((direction =? 1) || (direction =? 2)) then Err InvalidRekey else
  epoch ← slice b 1 5;
  next ← slice b 5 9;
  through ← slice b 9 17;
  Ok (mkPrepare direction (from_be epoch) (from_be next) (from_be through)).

(** ** Correctness *)

Definition wf_record (r : RemoteNoiseRecordV1) : Prop :=
  is_u64 (nr_sequence r) /\ all_u8 (nr_payload r) /\ zlen (nr_payload r) <= MAX_PAYLOAD.
Definition wf_prepare (p : RekeyPrepareV1) : Prop :=
  (rp_direction p = 1 \/ rp_direction p = 2) /\ is_u32 (rp_key_epoch p) /\
  is_u32 (rp_next_key_epoch p) /\ is_u64 (rp_through_sequence p).

Lemma record_kind_try_from_code k : record_kind_try_from (record_kind_code k) = Ok k.
Proof. by destruct k. Qed.
Lemma record_kind_try_from_inv z k : record_kind_try_from z = Ok k -> z = record_kind_code k.
Proof.
  unfold record_kind_try_from. intros Hz. repeat (case_match; try discriminate; try (by injection Hz as <-)).
Qed.
Lemma record_kind_no_panic z : record_kind_try_from z <> Panic.
Proof. unfold record_kind_try_from. by repeat case_match. Qed.

(** A big-endian field of a checked slice, both ways. *)
Lemma be_field {E} b (i j : Z) (n : nat) x :
  all_u8 b -> slice (E:=E) b i j = Ok x -> j - i = Z.of_nat n ->
  to_be n (from_be x) = x /\ 0 <= from_be x < 256 ^ Z.of_nat n.
Proof.
  intros Hb Hs Hn. pose proof (slice_u8 _ _ _ _ Hb Hs) as Hu. apply slice_inv in Hs as [Hl _].
  assert (length x = n) as Hx by (unfold zlen in Hl; lia).
  split; [by apply to_be_from_be_n|]. pose proof (from_be_bound x Hu). by rewrite Hx in *.
Qed.

Lemma encode_plaintext_wf r :
  wf_record r ->
  encode_plaintext r = Ok (1 :: record_kind_code (nr_kind r) :: to_be 8 (nr_sequence r)
    ++ to_be 4 (zlen (nr_payload r)) ++ nr_payload r).
Proof.
  intros (_ & _ & Hl). unfold encode_plaintext. rewrite (proj2 (Z.ltb_ge _ _)) by lia.
  change MAX_PAYLOAD with 65505 in Hl.
  rewrite (proj2 (Z.leb_le _ _)) by (unfold U32_MAX; lia). done.
Qed.

Lemma record_decode_encode (r : RemoteNoiseRecordV1) (routing : Z) :
  wf_record r ->
  exists b, encode_plaintext r = Ok b /\ zlen b + TAG_LEN <= MAX_CIPHERTEXT /\
    decode_plaintext b routing =
      (if routing =? nr_sequence r then Ok r else Err SequenceMismatch).
Proof.
  intros Hr. eexists. split; [by apply encode_plaintext_wf|]. destruct Hr as (Hs & Hu & Hl).
  change MAX_PAYLOAD with 65505 in Hl. pose proof (zlen_nonneg (nr_payload r)).
  set (b := _ :: _). assert (zlen b = 14 + zlen (nr_payload r)) as Hb by (subst b; zlen_solve).
  unfold TAG_LEN, MAX_CIPHERTEXT. split; [lia|]. unfold decode_plaintext, slice_from, RECORD_HEADER_LEN.
  change MAX_PLAINTEXT with 65519. change MAX_PAYLOAD with 65505. rewrite Hb.
  rewrite (proj2 (Z.ltb_ge _ _)) by lia. rewrite (proj2 (Z.ltb_ge _ _)) by lia. cbn [orb]. subst b.
  replace (index _ 1) with (@Ok NoiseError Z (record_kind_code (nr_kind r)))
    by (symmetry; read_byte; done).
  rewrite bind_Ok_l, record_kind_try_from_code, bind_Ok_l.
  replace (slice _ 2 10) with (@Ok NoiseError bytes (to_be 8 (nr_sequence r)))
    by (symmetry; read_field; done). rewrite bind_Ok_l.
  replace (slice _ 10 14) with (@Ok NoiseError bytes (to_be 4 (zlen (nr_payload r))))
    by (symmetry; read_field; done). rewrite bind_Ok_l.
  rewrite (index_head _ _ 0) by done. rewrite bind_Ok_l. cbn zeta.
  unfold is_u64, U64_MAX in Hs.
  rewrite !from_be_to_be_small by (first
    [ change (256 ^ Z.of_nat 4) with 4294967296; lia
    | change (256 ^ Z.of_nat 8) with 18446744073709551616; lia ]).
  rewrite (proj2 (Z.ltb_ge _ _)) by lia. rewrite !Z.eqb_refl. cbn [negb orb].
  rewrite Z.eqb_sym. destruct (routing =? nr_sequence r); [|done]. cbn [negb].
  replace (slice _ 14 _) with (@Ok NoiseError bytes (nr_payload r))
    by (symmetry; read_field; done). rewrite bind_Ok_l. by destruct r.
Qed.

(** Noise records round-trip: a record encodes within the ciphertext budget, and
    decoding it under its own routing sequence gives it back; under any other
    routing sequence the decoder answers a sequence mismatch. *)
Lemma noise_record_roundtrip (r : RemoteNoiseRecordV1) (routing : Z) :
  wf_record r ->
  exists b, encode_plaintext r = Ok b /\ zlen b + TAG_LEN <= MAX_CIPHERTEXT /\
    decode_plaintext b routing =
      (if routing =? nr_sequence r then Ok r else Err SequenceMismatch).
Proof. apply record_decode_encode. Qed.

Lemma decode_plaintext_no_panic b routing : decode_plaintext b routing <> Panic.
Proof.
  unfold decode_plaintext, slice_from, RECORD_HEADER_LEN.
  destruct (_ || _) eqn:Hlen; [done|]. apply orb_false_iff in Hlen as [H1 H2]. apply Z.ltb_ge in H1, H2.
  repeat no_panic1; first [apply index_no_panic; lia|apply slice_no_panic; lia|apply record_kind_no_panic].
Qed.

(** Record decoding is total and canonical: a byte string is refused or decodes to
    a well-formed record for exactly this routing sequence, whose encoding is that
    byte string; the decoder never panics. *)
Lemma noise_record_canonical (b : bytes) (routing : Z) :
  all_u8 b ->
  match decode_plaintext b routing with
  | Ok r => wf_record r /\ nr_sequence r = routing /\ encode_plaintext r = Ok b
  | Err _ => True
  | Panic => False
  end.
Proof.
  intros Hb. destruct (decode_plaintext b routing) as [r| |] eqn:Hd;
    [|done|by apply decode_plaintext_no_panic in Hd].
  unfold decode_plaintext, slice_from, RECORD_HEADER_LEN in Hd. ok_inv Hd. subst r.
  apply orb_false_iff in G as [_ Hmax]. apply orb_false_iff in G0 as [G0 Hlen].
  apply orb_false_iff in G0 as [Hv Hpay]. apply negb_false_iff, Z.eqb_eq in Hv, Hlen, G1.
  apply Z.ltb_ge in Hpay. apply record_kind_try_from_inv in B0.
  destruct (be_field _ _ _ 8 _ Hb B1 ltac:(lia)) as [F1 R1].
  destruct (be_field _ _ _ 4 _ Hb B2 ltac:(lia)) as [F2 R2].
  pose proof (slice_u8 _ _ _ _ Hb B4) as Hu. apply slice_inv in B4 as Hz. destruct Hz as [Hz _].
  assert (zlen x4 = from_be x2) as Hl by lia.
  change (256 ^ Z.of_nat 8) with 18446744073709551616 in R1.
  assert (wf_record (mkNoiseRecord x0 (from_be x1) x4)) as Hwf.
  { split; [unfold is_u64, U64_MAX; cbn; lia|]. split; [done|]. cbn. lia. }
  split; [done|]. split; [done|]. rewrite encode_plaintext_wf by done. cbn [nr_kind nr_sequence nr_payload].
  rewrite Hl, F1, F2, <- B0. subst x3.
  apply index_inv in B, B3.
  pose proof (slice_split _ _ _ _ _ _ B3 (slice_split _ _ _ _ _ _ B (slice_split _ _ _ _ _ _ B1
    (slice_split _ _ _ _ _ _ B2 B4)))) as K. rewrite slice_all in K by done.
  apply Ok_inj in K. by rewrite <- K.
Qed.

(** The Noise record codec is exact.  Every well-formed record encodes within the
    ciphertext budget and decodes back to itself under its own routing sequence, and
    to a sequence mismatch under any other; and every byte string is refused or
    decodes to a well-formed record of this routing sequence whose encoding is that
    byte string.  The decoder never panics. *)
Theorem noise_record_codec_exact :
  (forall (r : RemoteNoiseRecordV1) (routing : Z),
     wf_record r ->
     exists b, encode_plaintext r = Ok b /\ zlen b + TAG_LEN <= MAX_CIPHERTEXT /\
       decode_plaintext b routing =
         (if routing =? nr_sequence r then Ok r else Err SequenceMismatch)) /\
  (forall (b : bytes) (routing : Z),
     all_u8 b ->
     match decode_plaintext b routing with
     | Ok r => wf_record r /\ nr_sequence r = routing /\ encode_plaintext r = Ok b
     | Err _ => True
     | Panic => False
     end).
Proof. split; [exact noise_record_roundtrip|exact noise_record_canonical]. Qed.

Lemma prepare_roundtrip p : wf_prepare p -> prepare_decode (prepare_encode p) = Ok p.
Proof.
  intros (Hd & He & Hn & Ht). unfold prepare_decode, prepare_encode.
  set (b := _ :: _). assert (zlen b = 17) as -> by (subst b; zlen_solve). subst b.
  cbn [negb Z.eqb Pos.eqb]. rewrite index_head by done. rewrite bind_Ok_l.
  replace (negb _) with false by (destruct Hd as [-> | ->]; done).
  replace (slice _ 1 5) with (@Ok NoiseError bytes (to_be 4 (rp_key_epoch p)))
    by (symmetry; read_field; done). rewrite bind_Ok_l.
  replace (slice _ 5 9) with (@Ok NoiseError bytes (to_be 4 (rp_next_key_epoch p)))
    by (symmetry; read_field; done). rewrite bind_Ok_l.
  replace (slice _ 9 17) with (@Ok NoiseError bytes (to_be 8 (rp_through_sequence p)))
    by (symmetry; read_field; done). rewrite bind_Ok_l.
  unfold is_u32, is_u64, U32_MAX, U64_MAX in *.
  rewrite !from_be_to_be_small by (first
    [ change (256 ^ Z.of_nat 4) with 4294967296; lia
    | change (256 ^ Z.of_nat 8) with 18446744073709551616; lia ]).
  by destruct p.
Qed.

(** ** Witnesses *)

Definition sample_record : RemoteNoiseRecordV1 := mkNoiseRecord Data 7 [1; 2; 3].

Lemma sample_record_wf : wf_record sample_record.
Proof. split; [done|]. split; [|done]. repeat constructor; unfold U8_MAX; lia. Qed.

Lemma noise_record_codec_exact_witness :
  exists b, encode_plaintext sample_record = Ok b /\ decode_plaintext b 7 = Ok sample_record.
Proof.
  destruct (proj1 noise_record_codec_exact sample_record 7 sample_record_wf) as (b & H1 & _ & H2).
  by exists b.
Defined.
