(* ===== verification/NoiseRekey.v ===== *)
(** The per-direction rekey state machine of the Noise transport
    ([cockpit-noise/src/rekey.rs]): record and byte budgets under a key, the
    prepare/commit barrier, absolute sequence numbers.

    The reducer mutates [self] and returns a [Result]; the model threads the
    state explicitly.  An error inside [reduce] keeps the mutations made so far and
    closes the direction, as in the source. *)

From S2P Require Import Prelude.
From S2P Require Import NoiseRecord.
From stdpp Require Import options.
Set Warnings "-clear-no-such-hyp".

(** noise/rekey.rs:4-4 MAX_RECORDS. *)
Definition MAX_RECORDS : Z := 1048576.
(** noise/rekey.rs:5-5 MAX_APPLICATION_BYTES. *)
Definition MAX_APPLICATION_BYTES : Z := 1073741824.
(** noise/rekey.rs:6-6 LAST_OPEN_RECORD. *)
Definition LAST_OPEN_RECORD : Z := MAX_RECORDS - 1.
(** noise/rekey.rs:7-7 HARD_SEQUENCE_LIMIT. *)
Definition HARD_SEQUENCE_LIMIT : Z := 4294967296.
(** noise/rekey.rs:8-8 REKEY_DEADLINE_MILLIS. *)
Definition REKEY_DEADLINE_MILLIS : Z := 10000.

(** noise/rekey.rs:10-19 DirectionalState. *)
Inductive DirectionalState :=
| DOpen | Draining | PrepareSent | PrepareReceived | CommitQueued | WaitCommit | DClosed.

#[export] Instance DirectionalState_eq_dec : EqDecision DirectionalState.
Proof. solve_decision. Defined.

(** noise/rekey.rs:21-31 RekeyEvent. *)
Inductive RekeyEvent :=
| LocalRecordRequest (kind : RecordKind) (data_bytes : Z)
| PriorRecordsAcked
| ReassemblyEmpty
| PeerPrepare (p : RekeyPrepareV1)
| CommitDurablyQueued (key_epoch : Z)
| PeerCommitAuthenticated (key_epoch : Z)
| Deadline (elapsed_millis : Z)
| EvClose.

(** noise/rekey.rs:33-41 RekeyAction. *)
Inductive RekeyAction :=
| SendPrepare (p : RekeyPrepareV1)
| SendCommit (direction key_epoch : Z)
| ApplySendRekey (key_epoch : Z)
| ApplyReceiveRekey (key_epoch : Z)
| ActOpen (sequence key_epoch : Z)
| ActClose.

#[export] Instance RekeyAction_eq_dec : EqDecision RekeyAction.
Proof. solve_decision. Defined.

(** noise/rekey.rs:43-58 DirectionalRekey. *)
Record DirectionalRekey := mkRekey {
  dr_direction : Z;
  dr_absolute_sequence : Z;
  dr_key_epoch : Z;
  dr_records_under_key : Z;
  dr_application_bytes : Z;
  dr_state : DirectionalState;
  dr_acked : bool;
  dr_reassembly_empty : bool;
  dr_pending_prepare : option RekeyPrepareV1;
  dr_prior_prepare : option RekeyPrepareV1;
  dr_prior_prepare_result : option (list RekeyAction);
  dr_prior_commit_epoch : option Z;
  dr_prior_commit_result : option (list RekeyAction);
}.

(** noise/rekey.rs:61-80 DirectionalRekey::new. *)
Definition rekey_new (direction : Z) : NoiseResult DirectionalRekey :=
  if negb ((direction =? 1) || (direction =? 2)) then Err InvalidRekey else
  Ok (mkRekey direction 0 0 0 0 DOpen false false None None None None None).

(** Field updates. *)
Definition set_state (d : DirectionalRekey) (st : DirectionalState) : DirectionalRekey :=
  mkRekey (dr_direction d) (dr_absolute_sequence d) (dr_key_epoch d) (dr_records_under_key d)
    (dr_application_bytes d) st (dr_acked d) (dr_reassembly_empty d) (dr_pending_prepare d)
    (dr_prior_prepare d) (dr_prior_prepare_result d) (dr_prior_commit_epoch d)
    (dr_prior_commit_result d).
Definition set_counters (d : DirectionalRekey) (seq records app : Z) : DirectionalRekey :=
  mkRekey (dr_direction d) seq (dr_key_epoch d) records app (dr_state d) (dr_acked d)
    (dr_reassembly_empty d) (dr_pending_prepare d) (dr_prior_prepare d)
    (dr_prior_prepare_result d) (dr_prior_commit_epoch d) (dr_prior_commit_result d).
Definition set_drain (d : DirectionalRekey) (acked empty : bool) : DirectionalRekey :=
  mkRekey (dr_direction d) (dr_absolute_sequence d) (dr_key_epoch d) (dr_records_under_key d)
    (dr_application_bytes d) (dr_state d) acked empty (dr_pending_prepare d) (dr_prior_prepare d)
    (dr_prior_prepare_result d) (dr_prior_commit_epoch d) (dr_prior_commit_result d).
Definition set_pending (d : DirectionalRekey) (p : RekeyPrepareV1) (st : DirectionalState) :=
  mkRekey (dr_direction d) (dr_absolute_sequence d) (dr_key_epoch d) (dr_records_under_key d)
    (dr_application_bytes d) st (dr_acked d) (dr_reassembly_empty d) (Some p)
    (dr_prior_prepare d) (dr_prior_prepare_result d) (dr_prior_commit_epoch d)
    (dr_prior_commit_result d).
Definition remember_prepare (d : DirectionalRekey) (p : RekeyPrepareV1) (r : list RekeyAction) :=
  mkRekey (dr_direction d) (dr_absolute_sequence d) (dr_key_epoch d) (dr_records_under_key d)
    (dr_application_bytes d) (dr_state d) (dr_acked d) (dr_reassembly_empty d)
    (dr_pending_prepare d) (Some p) (Some r) (dr_prior_commit_epoch d) (dr_prior_commit_result d).
Definition remember_commit (d : DirectionalRekey) (epoch : Z) (r : list RekeyAction) :=
  mkRekey (dr_direction d) (dr_absolute_sequence d) (dr_key_epoch d) (dr_records_under_key d)
    (dr_application_bytes d) (dr_state d) (dr_acked d) (dr_reassembly_empty d)
    (dr_pending_prepare d) (dr_prior_prepare d) (dr_prior_prepare_result d) (Some epoch) (Some r).

(** [u32::checked_add]. *)
Definition checked_add_u32 (a b : Z) : option Z := if a + b <=? U32_MAX then Some (a + b) else None.

(** noise/rekey.rs:214-229 DirectionalRekey::consume_record. *)
Definition consume_record (d : DirectionalRekey) (data_bytes : Z)
    : DirectionalRekey * NoiseResult Z :=
  let sequence := dr_absolute_sequence d in
  match checked_add sequence 1 with
  | None => (d, Err SequenceExhausted)
  | Some seq =>
      match checked_add_u32 (dr_records_under_key d) 1 with
      | None => (set_counters d seq (dr_records_under_key d) (dr_application_bytes d),
                 Err BudgetExceeded)
      | Some records =>
          match checked_add (dr_application_bytes d) data_bytes with
          | None => (set_counters d seq records (dr_application_bytes d), Err BudgetExceeded)
          | Some app => (set_counters d seq records app, Ok sequence)
          end
      end
  end.

(** noise/rekey.rs:342-350 DirectionalRekey::apply_epoch. *)
Definition apply_epoch (d : DirectionalRekey) (key_epoch : Z) : DirectionalRekey :=
  mkRekey (dr_direction d) (dr_absolute_sequence d) key_epoch 0 0 DOpen false false None
    (dr_prior_prepare d) (dr_prior_prepare_result d) (dr_prior_commit_epoch d)
    (dr_prior_commit_result d).

(** [checked_add(data_bytes).is_none_or(|next| next > MAX_APPLICATION_BYTES)]. *)
Definition data_over_budget (d : DirectionalRekey) (data_bytes : Z) : bool :=
  match checked_add (dr_application_bytes d) data_bytes with
  | None => true
  | Some next => MAX_APPLICATION_BYTES <? next
  end.

(** noise/rekey.rs:165-212 DirectionalRekey::local_record_request. *)
Definition local_record_request (d : DirectionalRekey) (kind : RecordKind) (data_bytes : Z)
    : DirectionalRekey * NoiseResult (list RekeyAction) :=
  if negb (bool_decide (dr_state d = DOpen)) then (d, Err InvalidState) else
  if HARD_SEQUENCE_LIMIT <=? dr_absolute_sequence d then (set_state d DClosed, Ok [ActClose]) else
  if bool_decide (kind = Close) then
    if MAX_RECORDS <=? dr_records_under_key d then (d, Err BudgetExceeded) else
    match consume_record d 0 with
    | (d, Ok sequence) => (set_state d DClosed, Ok [ActOpen sequence (dr_key_epoch d); ActClose])
    | (d, Err e) => (d, Err e)
    | (d, Panic) => (d, Panic)
    end
  else
  if bool_decide (kind = RekeyPrepare \/ kind = RekeyCommit) then (d, Err InvalidState) else
  let data_over := bool_decide (kind = Data) && data_over_budget d data_bytes in
  if (LAST_OPEN_RECORD <=? dr_records_under_key d) || data_over
  then (set_state d Draining, Ok []) else
  match consume_record d (if bool_decide (kind = Data) then data_bytes else 0) with
  | (d, Ok sequence) => (d, Ok [ActOpen sequence (dr_key_epoch d)])
  | (d, Err e) => (d, Err e)
  | (d, Panic) => (d, Panic)
  end.

(** noise/rekey.rs:231-255 DirectionalRekey::maybe_send_prepare. *)
Definition maybe_send_prepare (d : DirectionalRekey)
    : DirectionalRekey * NoiseResult (list RekeyAction) :=
  if negb (bool_decide (dr_state d = Draining)) || negb (dr_acked d) || negb (dr_reassembly_empty d)
  then (d, Ok []) else
  if (MAX_RECORDS <=? dr_records_under_key d) || (dr_absolute_sequence d =? 0)
  then (d, Err InvalidRekey) else
  match checked_add_u32 (dr_key_epoch d) 1 with
  | None => (d, Err InvalidRekey)
  | Some next_key_epoch =>
      let prepare := mkPrepare (dr_direction d) (dr_key_epoch d) next_key_epoch
                       (dr_absolute_sequence d - 1) in
      match consume_record d 0 with
      | (d, Ok _) => (set_pending d prepare WaitCommit, Ok [SendPrepare prepare])
      | (d, Err e) => (d, Err e)
      | (d, Panic) => (d, Panic)
      end
  end.

(** noise/rekey.rs:257-290 DirectionalRekey::peer_prepare. *)
Definition peer_prepare (d : DirectionalRekey) (p : RekeyPrepareV1)
    : DirectionalRekey * NoiseResult (list RekeyAction) :=
  if bool_decide (dr_prior_prepare d = Some p)
  then (d, ok_or (dr_prior_prepare_result d) InvalidRekey) else
  if bool_decide (is_Some (dr_pending_prepare d))
     || negb (bool_decide (dr_state d = DOpen \/ dr_state d = Draining))
     || negb (rp_direction p =? dr_direction d)
     || negb (rp_key_epoch p =? dr_key_epoch d)
  then (d, Err InvalidRekey) else
  match checked_add_u32 (dr_key_epoch d) 1 with
  | None => (d, Err InvalidRekey)
  | Some next =>
      if negb (rp_next_key_epoch p =? next)
         || (dr_absolute_sequence d =? 0)
         || negb (rp_through_sequence p =? dr_absolute_sequence d - 1)
      then (d, Err InvalidRekey) else
      let action := SendCommit (dr_direction d) (rp_next_key_epoch p) in
      (remember_prepare (set_pending d p PrepareReceived) p [action], Ok [action])
  end.

(** noise/rekey.rs:292-315 DirectionalRekey::commit_queued. *)
Definition commit_queued (d : DirectionalRekey) (key_epoch : Z)
    : DirectionalRekey * NoiseResult (list RekeyAction) :=
  if bool_decide (dr_prior_commit_epoch d = Some key_epoch)
  then (d, ok_or (dr_prior_commit_result d) InvalidRekey) else
  match dr_pending_prepare d with
  | None => (d, Err InvalidRekey)
  | Some prepare =>
      if negb (bool_decide (dr_state d = PrepareReceived))
         || negb (key_epoch =? rp_next_key_epoch prepare)
      then (d, Err InvalidRekey) else
      let r := [ApplyReceiveRekey key_epoch; ActOpen (dr_absolute_sequence d) key_epoch] in
      (apply_epoch (remember_commit d key_epoch r) key_epoch, Ok r)
  end.

(** noise/rekey.rs:317-340 DirectionalRekey::peer_commit. *)
Definition peer_commit (d : DirectionalRekey) (key_epoch : Z)
    : DirectionalRekey * NoiseResult (list RekeyAction) :=
  if bool_decide (dr_prior_commit_epoch d = Some key_epoch)
  then (d, ok_or (dr_prior_commit_result d) InvalidRekey) else
  match dr_pending_prepare d with
  | None => (d, Err InvalidRekey)
  | Some prepare =>
      if negb (bool_decide (dr_state d = WaitCommit))
         || negb (key_epoch =? rp_next_key_epoch prepare)
      then (d, Err InvalidRekey) else
      let r := [ApplySendRekey key_epoch; ActOpen (dr_absolute_sequence d) key_epoch] in
      (apply_epoch (remember_commit d key_epoch r) key_epoch, Ok r)
  end.

(** The dispatch of [reduce] on a direction that is not closed. *)
Definition rekey_dispatch (d : DirectionalRekey) (event : RekeyEvent)
    : DirectionalRekey * NoiseResult (list RekeyAction) :=
  match event with
  | EvClose => (set_state d DClosed, Ok [ActClose])
  | Deadline elapsed =>
      if bool_decide (dr_state d = DOpen) || (elapsed <? REKEY_DEADLINE_MILLIS) then (d, Ok [])
      else (set_state d DClosed, Ok [ActClose])
  | LocalRecordRequest kind data_bytes => local_record_request d kind data_bytes
  | PriorRecordsAcked => maybe_send_prepare (set_drain d true (dr_reassembly_empty d))
  | ReassemblyEmpty => maybe_send_prepare (set_drain d (dr_acked d) true)
  | PeerPrepare p => peer_prepare d p
  | CommitDurablyQueued key_epoch => commit_queued d key_epoch
  | PeerCommitAuthenticated key_epoch => peer_commit d key_epoch
  end.

(** noise/rekey.rs:82-117 DirectionalRekey::reduce. *)
Definition rekey_reduce (d : DirectionalRekey) (event : RekeyEvent)
    : DirectionalRekey * NoiseResult (list RekeyAction) :=
  if bool_decide (dr_state d = DClosed) then (d, Err NoiseClosed) else
  match rekey_dispatch d event with
  | (d, Err e) => (set_state d DClosed, Err e)
  | (d, r) => (d, r)
  end.

(** noise/rekey.rs:119-151 DirectionalRekey::admit_authenticated_peer_record. *)
Definition admit_authenticated_peer_record (d : DirectionalRekey) (kind : RecordKind) (data_bytes : Z)
    : DirectionalRekey * NoiseResult unit :=
  if bool_decide (dr_state d = DClosed) || (HARD_SEQUENCE_LIMIT <=? dr_absolute_sequence d)
  then (d, Err NoiseClosed) else
  if MAX_RECORDS <=? dr_records_under_key d then (d, Err BudgetExceeded) else
  if bool_decide (kind = Data)
     && (negb (bool_decide (dr_state d = DOpen)) || data_over_budget d data_bytes)
  then (d, Err BudgetExceeded) else
  if bool_decide (kind = Ack) && negb (bool_decide (dr_state d = DOpen))
  then (d, Err InvalidState) else
  match consume_record d (if bool_decide (kind = Data) then data_bytes else 0) with
  | (d, Ok _) => (if bool_decide (kind = Close) then set_state d DClosed else d, Ok tt)
  | (d, Err e) => (d, Err e)
  | (d, Panic) => (d, Panic)
  end.

(** noise/rekey.rs:154-163 DirectionalRekey::reserve_generated_commit. *)
Definition reserve_generated_commit (d : DirectionalRekey) : DirectionalRekey * NoiseResult Z :=
  if negb (bool_decide (dr_state d = DOpen))
     || (HARD_SEQUENCE_LIMIT <=? dr_absolute_sequence d)
     || (LAST_OPEN_RECORD <=? dr_records_under_key d)
  then (set_state d DClosed, Err BudgetExceeded)
  else consume_record d 0.

(** ** The budget invariant *)

Record rekey_inv (d : DirectionalRekey) : Prop := {
  ki_records : 0 <= dr_records_under_key d <= MAX_RECORDS;
  ki_bytes : 0 <= dr_application_bytes d <= MAX_APPLICATION_BYTES;
  ki_sequence : 0 <= dr_absolute_sequence d <= HARD_SEQUENCE_LIMIT + 1;
  ki_drain : dr_state d = Draining -> dr_absolute_sequence d <= HARD_SEQUENCE_LIMIT;
  ki_epoch : 0 <= dr_key_epoch d <= U32_MAX;
  ki_pending : forall p, dr_pending_prepare d = Some p ->
    rp_next_key_epoch p = dr_key_epoch d + 1 /\ rp_next_key_epoch p <= U32_MAX;
}.

Definition is_closed (d : DirectionalRekey) : Prop := dr_state d = DClosed.

Lemma rekey_inv_new direction d : rekey_new direction = Ok d -> rekey_inv d.
Proof.
  unfold rekey_new. destruct (negb _); [done|]. intros [= <-]. by split.
Qed.

Lemma rekey_inv_state d st :
  rekey_inv d -> (st = Draining -> dr_absolute_sequence d <= HARD_SEQUENCE_LIMIT) ->
  rekey_inv (set_state d st).
Proof. intros [H1 H2 H3 H4 H5 H6] Hst. by split. Qed.

Lemma consume_ok d n :
  rekey_inv d -> dr_records_under_key d < MAX_RECORDS -> 0 <= n ->
  dr_application_bytes d + n <= MAX_APPLICATION_BYTES ->
  consume_record d n =
    (set_counters d (dr_absolute_sequence d + 1) (dr_records_under_key d + 1)
       (dr_application_bytes d + n), Ok (dr_absolute_sequence d)).
Proof.
  intros [H1 H2 H3 H4 H5 H6] Hr Hn Hb. unfold consume_record, checked_add, checked_add_u32.
  unfold MAX_RECORDS, MAX_APPLICATION_BYTES, HARD_SEQUENCE_LIMIT, U64_MAX, U32_MAX in *.
  rewrite (proj2 (Z.leb_le _ _)) by lia. rewrite (proj2 (Z.leb_le _ _)) by lia.
  rewrite (proj2 (Z.leb_le _ _)) by lia. done.
Qed.

Lemma inv_consumed d n :
  rekey_inv d -> dr_records_under_key d < MAX_RECORDS -> 0 <= n ->
  dr_application_bytes d + n <= MAX_APPLICATION_BYTES ->
  dr_absolute_sequence d <= HARD_SEQUENCE_LIMIT ->
  (dr_state d = Draining -> dr_absolute_sequence d < HARD_SEQUENCE_LIMIT) ->
  rekey_inv (set_counters d (dr_absolute_sequence d + 1) (dr_records_under_key d + 1)
               (dr_application_bytes d + n)).
Proof.
  intros [H1 H2 H3 H4 H5 H6] Hr Hn Hb Hs Hd. split; cbn; try done; try lia. intros Hst.
  specialize (Hd Hst). lia.
Qed.

Lemma data_over_false d n :
  0 <= n -> data_over_budget d n = false -> dr_application_bytes d + n <= MAX_APPLICATION_BYTES.
Proof.
  intros Hn. unfold data_over_budget, checked_add. destruct (_ <=? U64_MAX); [|done].
  intros Hb. by apply Z.ltb_ge in Hb.
Qed.

(** What one call may do to the counters, the key and the state. *)
Definition rekey_post (d d' : DirectionalRekey) : Prop :=
  (dr_absolute_sequence d' = dr_absolute_sequence d \/
   dr_absolute_sequence d' = dr_absolute_sequence d + 1) /\
  ((dr_key_epoch d' = dr_key_epoch d) \/
   (dr_key_epoch d' = dr_key_epoch d + 1 /\ dr_records_under_key d' = 0 /\
    dr_application_bytes d' = 0 /\ dr_state d' = DOpen /\
    dr_absolute_sequence d' = dr_absolute_sequence d)) /\
  dr_direction d' = dr_direction d.

Lemma rekey_post_refl d : rekey_post d d.
Proof. unfold rekey_post. auto. Qed.
Lemma rekey_post_state d d' st : rekey_post d d' -> dr_key_epoch d' = dr_key_epoch d -> rekey_post d (set_state d' st).
Proof. unfold rekey_post. intros (H1 & _ & H3) He. auto. Qed.
Lemma rekey_post_consumed d r n :
  rekey_post d (set_counters d (dr_absolute_sequence d + 1) r n).
Proof. unfold rekey_post. cbn. auto. Qed.

Lemma local_record_request_spec d kind n :
  rekey_inv d -> 0 <= n ->
  let '(d', r) := local_record_request d kind n in
  rekey_inv d' /\ r <> Panic /\ rekey_post d d' /\
  match r with
  | Ok acts =>
      (dr_absolute_sequence d' = dr_absolute_sequence d /\ (acts = [] \/ acts = [ActClose])) \/
      (dr_absolute_sequence d' = dr_absolute_sequence d + 1 /\
       head acts = Some (ActOpen (dr_absolute_sequence d) (dr_key_epoch d)))
  | _ => d' = d
  end.
Proof.
  intros Hi Hn. unfold local_record_request. pose proof (rekey_post_refl d) as Hrefl.
  pose proof Hi as [H1 H2 H3 H4 H5 H6].
  case_bool_decide as Hst; cbn [negb]; [|done].
  destruct (Z.leb_spec HARD_SEQUENCE_LIMIT (dr_absolute_sequence d)).
  { split; [by apply rekey_inv_state|]. split; [done|]. split; [by apply rekey_post_state|]. left. auto. }
  case_bool_decide as Hk.
  { destruct (Z.leb_spec MAX_RECORDS (dr_records_under_key d)); [done|].
    rewrite consume_ok by (done || lia).
    split; [apply rekey_inv_state; [|done]; apply inv_consumed; (done || lia || congruence)|].
    split; [done|]. split; [apply rekey_post_state; [apply rekey_post_consumed|done]|]. by right. }
  case_bool_decide as Hk2; [done|]. destruct (_ || _) eqn:Hbud.
  { split; [apply rekey_inv_state; [done|lia]|]. split; [done|].
    split; [by apply rekey_post_state|]. left. auto. }
  apply orb_false_iff in Hbud as [Hrec Hdat]. apply Z.leb_gt in Hrec. unfold LAST_OPEN_RECORD in Hrec.
  assert (dr_application_bytes d + (if bool_decide (kind = Data) then n else 0) <= MAX_APPLICATION_BYTES) as Hb.
  { case_bool_decide; cbn [andb] in Hdat; [by apply data_over_false|lia]. }
  assert (0 <= (if bool_decide (kind = Data) then n else 0)) as Hn' by (by case_bool_decide).
  rewrite consume_ok by (done || lia).
  split; [apply inv_consumed; (done || lia || congruence)|]. split; [done|].
  split; [apply rekey_post_consumed|]. by right.
Qed.

Lemma maybe_send_prepare_spec d :
  rekey_inv d ->
  let '(d', r) := maybe_send_prepare d in
  rekey_inv d' /\ r <> Panic /\ rekey_post d d' /\
  match r with
  | Ok acts =>
      (d' = d /\ acts = []) \/
      (dr_absolute_sequence d' = dr_absolute_sequence d + 1 /\ dr_state d = Draining /\
       acts = [SendPrepare (mkPrepare (dr_direction d) (dr_key_epoch d) (dr_key_epoch d + 1)
                              (dr_absolute_sequence d - 1))] /\ dr_state d' = WaitCommit)
  | _ => d' = d
  end.
Proof.
  intros Hi. unfold maybe_send_prepare. pose proof (rekey_post_refl d) as Hrefl.
  pose proof Hi as [H1 H2 H3 H4 H5 H6].
  destruct (_ || _ || _) eqn:Hg; [by split; [|split; [|split; [|left]]]|].
  apply orb_false_iff in Hg as [Hg _]. apply orb_false_iff in Hg as [Hg _].
  apply negb_false_iff, bool_decide_eq_true in Hg. specialize (H4 Hg).
  destruct (_ || _) eqn:Hbud; [done|]. apply orb_false_iff in Hbud as [Hrec Hz]. apply Z.leb_gt in Hrec.
  unfold checked_add_u32. destruct (Z.leb_spec (dr_key_epoch d + 1) U32_MAX) as [He|He]; [|done].
  rewrite consume_ok by (done || lia). split.
  - split; cbn; try done; try lia. by intros p [= <-].
  - split; [done|]. split; [unfold rekey_post; cbn; auto|]. by right.
Qed.

Lemma peer_prepare_spec d p :
  rekey_inv d ->
  let '(d', r) := peer_prepare d p in
  rekey_inv d' /\ r <> Panic /\ rekey_post d d' /\ dr_absolute_sequence d' = dr_absolute_sequence d /\
  match r with
  | Ok acts => dr_prior_prepare d' = Some p /\ dr_prior_prepare_result d' = Some acts /\
      (d' = d \/ dr_state d' = PrepareReceived)
  | _ => d' = d
  end.
Proof.
  intros Hi. unfold peer_prepare. pose proof (rekey_post_refl d) as Hrefl.
  case_bool_decide as Hp.
  { destruct (dr_prior_prepare_result d) eqn:Hr; cbn; by split_and!; try left. }
  destruct (_ || _) eqn:Hg; [done|]. unfold checked_add_u32.
  destruct (Z.leb_spec (dr_key_epoch d + 1) U32_MAX) as [He|He]; [|done].
  destruct (negb _ || _ || _) eqn:Hg2; [done|].
  apply orb_false_iff in Hg2 as [Hg2 _]. apply orb_false_iff in Hg2 as [Hnx _].
  apply negb_false_iff, Z.eqb_eq in Hnx. destruct Hi as [H1 H2 H3 H4 H5 H6].
  split; [split; cbn; try done; intros q [= <-]; lia|]. split; [done|].
  split; [unfold rekey_post; cbn; auto|]. split; [done|]. split; [done|]. split; [done|by right].
Qed.

(** The two commits differ only in the state they expect and the key they switch. *)
Definition commit_post (d d' : DirectionalRekey) (key_epoch : Z) (r : NoiseResult (list RekeyAction))
    : Prop :=
  rekey_inv d' /\ r <> Panic /\ rekey_post d d' /\ dr_absolute_sequence d' = dr_absolute_sequence d /\
  match r with
  | Ok acts => dr_prior_commit_epoch d' = Some key_epoch /\ dr_prior_commit_result d' = Some acts /\
      (d' = d \/ dr_state d' = DOpen /\ dr_key_epoch d' = key_epoch)
  | _ => d' = d
  end.

Lemma apply_epoch_post d p key_epoch acts :
  rekey_inv d -> dr_pending_prepare d = Some p -> key_epoch = rp_next_key_epoch p ->
  commit_post d (apply_epoch (remember_commit d key_epoch acts) key_epoch) key_epoch (Ok acts).
Proof.
  intros Hi Hp ->. destruct (ki_pending d Hi p Hp) as [Hn Hmax]. destruct Hi as [H1 H2 H3 H4 H5 H6].
  split; [split; cbn; try done; try lia|]. split; [done|].
  split; [unfold rekey_post; cbn; split; [auto|]; split; [right; auto 10|done]|].
  split; [done|]. split; [done|]. split; [done|]. by right.
Qed.

Ltac commit_tac d :=
  pose proof (rekey_post_refl d);
  case_bool_decide as Hprior;
  [destruct (dr_prior_commit_result d) eqn:Hres; cbn;
   (split; [done|]; split; [done|]; split; [done|]; split; [done|]; auto)|];
  destruct (dr_pending_prepare d) as [p|] eqn:Hpend; [|done];
  destruct (_ || _) eqn:Hguard; [done|];
  apply orb_false_iff in Hguard as [_ Hguard]; apply negb_false_iff, Z.eqb_eq in Hguard;
  by apply (apply_epoch_post d p).

Lemma commit_queued_spec d key_epoch :
  rekey_inv d -> let '(d', r) := commit_queued d key_epoch in commit_post d d' key_epoch r.
Proof. intros Hi. unfold commit_queued. commit_tac d. Qed.

Lemma peer_commit_spec d key_epoch :
  rekey_inv d -> let '(d', r) := peer_commit d key_epoch in commit_post d d' key_epoch r.
Proof. intros Hi. unfold peer_commit. commit_tac d. Qed.

(** Events as the types allow them. *)
Definition typed_event (ev : RekeyEvent) : Prop :=
  match ev with LocalRecordRequest _ n => 0 <= n | _ => True end.

Lemma rekey_dispatch_spec d ev :
  rekey_inv d -> typed_event ev ->
  let '(d', r) := rekey_dispatch d ev in
  rekey_inv d' /\ r <> Panic /\ rekey_post d d' /\
  (is_ok r = false -> dr_key_epoch d' = dr_key_epoch d).
Proof.
  intros Hi Hev.
  assert (forall a b, rekey_inv (set_drain d a b)) as Hdrain.
  { destruct Hi as [H1 H2 H3 H4 H5 H6]. by split. }
  destruct ev as [k n| | |p|e|e|el|]; cbn [rekey_dispatch].
  - pose proof (local_record_request_spec d k n Hi Hev) as Hs.
    destruct (local_record_request d k n) as [d' r]. destruct Hs as (? & ? & ? & Hr).
    split_and!; try done. destruct r; [done|by subst d'|done].
  - pose proof (maybe_send_prepare_spec _ (Hdrain true (dr_reassembly_empty d))) as Hs.
    destruct (maybe_send_prepare _) as [d' r]. destruct Hs as (? & ? & ? & Hr).
    split; [done|]. split; [done|]. split; [done|]. destruct r; [done|by subst d'|done].
  - pose proof (maybe_send_prepare_spec _ (Hdrain (dr_acked d) true)) as Hs.
    destruct (maybe_send_prepare _) as [d' r]. destruct Hs as (? & ? & ? & Hr).
    split; [done|]. split; [done|]. split; [done|]. destruct r; [done|by subst d'|done].
  - pose proof (peer_prepare_spec d p Hi) as Hs. destruct (peer_prepare d p) as [d' r].
    destruct Hs as (? & ? & ? & _ & Hr). split_and!; try done. destruct r; [done|by subst d'|done].
  - pose proof (commit_queued_spec d e Hi) as Hs. destruct (commit_queued d e) as [d' r].
    destruct Hs as (? & ? & ? & _ & Hr). split_and!; try done. destruct r; [done|by subst d'|done].
  - pose proof (peer_commit_spec d e Hi) as Hs. destruct (peer_commit d e) as [d' r].
    destruct Hs as (? & ? & ? & _ & Hr). split_and!; try done. destruct r; [done|by subst d'|done].
  - destruct (_ || _); (split; [|split; [done|split]]); try done; try apply rekey_post_refl;
      [by apply rekey_inv_state|apply rekey_post_state; [apply rekey_post_refl|done]].
  - split; [by apply rekey_inv_state|]. split; [done|].
    split; [apply rekey_post_state; [apply rekey_post_refl|done]|done].
Qed.

Lemma rekey_reduce_spec d ev :
  rekey_inv d -> typed_event ev ->
  let '(d', r) := rekey_reduce d ev in
  rekey_inv d' /\ r <> Panic /\ rekey_post d d' /\
  (is_ok r = false -> is_closed d') /\ (is_closed d -> d' = d /\ r = Err NoiseClosed).
Proof.
  intros Hi Hev. unfold rekey_reduce, is_closed. case_bool_decide as Hst.
  { split; [done|]. split; [done|]. split; [apply rekey_post_refl|]. done. }
  pose proof (rekey_dispatch_spec d ev Hi Hev) as Hs. destruct (rekey_dispatch d ev) as [d' r].
  destruct Hs as (Hi' & Hnp & Hpost & Herr). destruct r as [acts|e|]; [|cbn|done].
  - by split; [|split; [|split; [|split]]].
  - split; [by apply rekey_inv_state|]. split; [done|]. split; [|done].
    apply rekey_post_state; [done|]. by apply Herr.
Qed.

Lemma admit_spec d kind n :
  rekey_inv d -> 0 <= n ->
  let '(d', r) := admit_authenticated_peer_record d kind n in
  rekey_inv d' /\ r <> Panic /\ rekey_post d d' /\ dr_key_epoch d' = dr_key_epoch d /\
  dr_absolute_sequence d' = dr_absolute_sequence d + (if is_ok r then 1 else 0).
Proof.
  intros Hi Hn. unfold admit_authenticated_peer_record. pose proof (rekey_post_refl d) as Hrefl.
  assert (dr_absolute_sequence d = dr_absolute_sequence d + 0) as H0 by lia.
  destruct (_ || _) eqn:Hg; [done|]. apply orb_false_iff in Hg as [_ Hseq]. apply Z.leb_gt in Hseq.
  destruct (Z.leb_spec MAX_RECORDS (dr_records_under_key d)); [done|].
  destruct (_ && _) eqn:Hd; [done|]. destruct (bool_decide (kind = Ack) && _); [done|].
  assert (dr_application_bytes d + (if bool_decide (kind = Data) then n else 0) <= MAX_APPLICATION_BYTES) as Hb.
  { case_bool_decide; cbn [andb] in Hd; [|pose proof (ki_bytes d Hi); lia].
    apply orb_false_iff in Hd as [_ Hd]. by apply data_over_false. }
  assert (0 <= (if bool_decide (kind = Data) then n else 0)) as Hn' by (by case_bool_decide).
  rewrite consume_ok by (done || lia).
  assert (rekey_inv (set_counters d (dr_absolute_sequence d + 1) (dr_records_under_key d + 1)
    (dr_application_bytes d + (if bool_decide (kind = Data) then n else 0)))) as Hi'.
  { apply inv_consumed; (done || lia). }
  pose proof (rekey_post_consumed d) as Hpc.
  destruct (bool_decide (kind = Close)); (split; [|split; [done|split; [|split; [done|done]]]]); try done;
    [by apply rekey_inv_state|by apply rekey_post_state].
Qed.

Lemma reserve_spec d :
  rekey_inv d ->
  let '(d', r) := reserve_generated_commit d in
  rekey_inv d' /\ r <> Panic /\ rekey_post d d' /\ dr_key_epoch d' = dr_key_epoch d /\
  match r with
  | Ok seq => seq = dr_absolute_sequence d /\ dr_absolute_sequence d' = seq + 1
  | _ => dr_absolute_sequence d' = dr_absolute_sequence d /\ is_closed d'
  end.
Proof.
  intros Hi. unfold reserve_generated_commit. destruct (_ || _ || _) eqn:Hg.
  { split; [by apply rekey_inv_state|]. split; [done|].
    split; [by apply rekey_post_state; [apply rekey_post_refl|]|]. done. }
  apply orb_false_iff in Hg as [Hg Hrec]. apply orb_false_iff in Hg as [Hst Hseq].
  apply Z.leb_gt in Hrec, Hseq. unfold LAST_OPEN_RECORD in Hrec. apply negb_false_iff, bool_decide_eq_true in Hst.
  pose proof (ki_bytes d Hi).
  rewrite consume_ok by (done || lia).
  split; [apply inv_consumed; (done || lia || congruence)|]. split; [done|].
  split; [apply rekey_post_consumed|]. done.
Qed.

(** ** Executions *)

Inductive rekey_op :=
| Reduce (ev : RekeyEvent)
| Admit (kind : RecordKind) (data_bytes : Z)
| Reserve.

Definition rekey_apply (d : DirectionalRekey) (op : rekey_op) : DirectionalRekey :=
  match op with
  | Reduce ev => (rekey_reduce d ev).1
  | Admit kind n => (admit_authenticated_peer_record d kind n).1
  | Reserve => (reserve_generated_commit d).1
  end.

Definition typed_rekey_op (op : rekey_op) : Prop :=
  match op with Reduce ev => typed_event ev | Admit _ n => 0 <= n | Reserve => True end.

(** The sequence number an operation commits to the wire: the record it opens, the
    prepare it sends, the commit it reserves, or the peer record it admits. *)
Definition emitted (d : DirectionalRekey) (op : rekey_op) : list Z :=
  match op with
  | Reduce (LocalRecordRequest kind n) =>
      match (rekey_reduce d (LocalRecordRequest kind n)).2 with
      | Ok (ActOpen sequence _ :: _) => [sequence]
      | _ => []
      end
  | Reduce ((PriorRecordsAcked | ReassemblyEmpty) as ev) =>
      match (rekey_reduce d ev).2 with
      | Ok [SendPrepare p] => [rp_through_sequence p + 1]
      | _ => []
      end
  | Reduce _ => []
  | Admit kind n =>
      match (admit_authenticated_peer_record d kind n).2 with
      | Ok _ => [dr_absolute_sequence d]
      | _ => []
      end
  | Reserve => match (reserve_generated_commit d).2 with Ok sequence => [sequence] | _ => [] end
  end.

Fixpoint emissions (d : DirectionalRekey) (ops : list rekey_op) : list Z :=
  match ops with
  | [] => []
  | op :: ops => emitted d op ++ emissions (rekey_apply d op) ops
  end.

Definition run_rekey (d : DirectionalRekey) (ops : list rekey_op) : DirectionalRekey :=
  foldl rekey_apply d ops.

Lemma rekey_apply_inv d op :
  rekey_inv d -> typed_rekey_op op -> rekey_inv (rekey_apply d op) /\ rekey_post d (rekey_apply d op).
Proof.
  intros Hi Hop. destruct op as [ev|k n|]; cbn.
  - pose proof (rekey_reduce_spec d ev Hi Hop) as Hs. destruct (rekey_reduce d ev). by destruct Hs as (? & _ & ? & _).
  - pose proof (admit_spec d k n Hi Hop) as Hs. destruct (admit_authenticated_peer_record d k n).
    by destruct Hs as (? & _ & ? & _).
  - pose proof (reserve_spec d Hi) as Hs. destruct (reserve_generated_commit d). by destruct Hs as (? & _ & ? & _).
Qed.

(** Each operation commits nothing and leaves the counter, or commits the counter
    and advances it. *)
Definition advances (d d' : DirectionalRekey) (out : list Z) : Prop :=
  (out = [] /\ dr_absolute_sequence d' = dr_absolute_sequence d) \/
  (out = [dr_absolute_sequence d] /\ dr_absolute_sequence d' = dr_absolute_sequence d + 1).

Lemma prepare_advances d a b r d' :
  rekey_inv (set_drain d a b) -> maybe_send_prepare (set_drain d a b) = (d', r) ->
  advances d d' (match r with Ok [SendPrepare p] => [rp_through_sequence p + 1] | _ => [] end).
Proof.
  intros Hi Hm. pose proof (maybe_send_prepare_spec _ Hi) as Hs. rewrite Hm in Hs.
  destruct Hs as (_ & Hnp & _ & Hr). unfold advances. destruct r as [acts|e|]; [| |done].
  - destruct Hr as [[-> ->]|(Ha & _ & -> & _)]; [by left|]. right. cbn in *. split; [f_equal; lia|done].
  - subst d'. by left.
Qed.

Lemma emitted_advances d op :
  rekey_inv d -> typed_rekey_op op -> advances d (rekey_apply d op) (emitted d op).
Proof.
  intros Hi Hop. assert (forall a b, rekey_inv (set_drain d a b)) as Hdrain.
  { destruct Hi as [H1 H2 H3 H4 H5 H6]. by split. }
  destruct op as [ev|k n|]; cbn [rekey_apply emitted].
  - unfold rekey_reduce. case_bool_decide as Hst; [destruct ev; by left|].
    destruct ev as [k n| | |p|e|e|el|]; cbn [rekey_dispatch].
    + pose proof (local_record_request_spec d k n Hi Hop) as Hs.
      destruct (local_record_request d k n) as [d' [acts|e|]]; destruct Hs as (_ & Hnp & _ & Hr); [| |done].
      * destruct Hr as [[Ha [-> | ->]]|[Ha Hh]]; [by left..|]. right.
        destruct acts as [|a acts]; [done|]. injection Hh as ->. done.
      * subst d'. by left.
    + pose proof (prepare_advances d true (dr_reassembly_empty d)) as Hp.
      destruct (maybe_send_prepare _) as [d' r]. specialize (Hp r d' (Hdrain _ _) eq_refl).
      by destruct r as [acts|e|].
    + pose proof (prepare_advances d (dr_acked d) true) as Hp.
      destruct (maybe_send_prepare _) as [d' r]. specialize (Hp r d' (Hdrain _ _) eq_refl).
      by destruct r as [acts|e|].
    + pose proof (peer_prepare_spec d p Hi) as Hs. destruct (peer_prepare d p) as [d' r].
      destruct Hs as (_ & _ & _ & Ha & _). left. by destruct r.
    + pose proof (commit_queued_spec d e Hi) as Hs. destruct (commit_queued d e) as [d' r].
      destruct Hs as (_ & _ & _ & Ha & _). left. by destruct r.
    + pose proof (peer_commit_spec d e Hi) as Hs. destruct (peer_commit d e) as [d' r].
      destruct Hs as (_ & _ & _ & Ha & _). left. by destruct r.
    + left. by destruct (_ || _).
    + by left.
  - pose proof (admit_spec d k n Hi Hop) as Hs. destruct (admit_authenticated_peer_record d k n) as [d' r].
    destruct Hs as (_ & Hnp & _ & _ & Ha). cbn. unfold advances. destruct r; cbn in *; [by right|left; split; [done|lia]|done].
  - pose proof (reserve_spec d Hi) as Hs. destruct (reserve_generated_commit d) as [d' r].
    destruct Hs as (_ & Hnp & _ & _ & Ha). unfold advances. destruct r as [seq|e|]; cbn in *; [| |done].
    + destruct Ha as [-> ->]. by right.
    + left. by destruct Ha.
Qed.

(** No sequence number, and so no nonce, is ever used twice in a direction: over
    any interleaving of local records, rekey barriers, generated commits and peer
    records, the sequence numbers committed are 0, 1, 2, ... in order, across every
    key epoch. *)
Theorem rekey_sequences_consecutive (direction : Z) (d : DirectionalRekey) (ops : list rekey_op) :
  rekey_new direction = Ok d -> Forall typed_rekey_op ops ->
  emissions d ops = seqZ 0 (dr_absolute_sequence (run_rekey d ops)).
Proof.
  intros Hd Hops. pose proof (rekey_inv_new _ _ Hd) as Hi.
  assert (dr_absolute_sequence d = 0) as H0.
  { unfold rekey_new in Hd. destruct (negb _); [done|]. by injection Hd as <-. }
  assert (forall d, rekey_inv d -> dr_absolute_sequence d <= dr_absolute_sequence (run_rekey d ops) /\
    emissions d ops = seqZ (dr_absolute_sequence d)
      (dr_absolute_sequence (run_rekey d ops) - dr_absolute_sequence d)) as Hgen.
  { clear Hd Hi H0 d. induction Hops as [|op ops Hop Hops IH]; intros d Hi; cbn.
    { split; [done|]. by rewrite Z.sub_diag. }
    destruct (rekey_apply_inv d op Hi Hop) as [Hi' _].
    destruct (IH _ Hi') as [Hle ->]. fold (run_rekey (rekey_apply d op) ops) in *.
    destruct (emitted_advances d op Hi Hop) as [[-> Ha]|[-> Ha]]; rewrite Ha in *; [done|].
    split; [lia|]. rewrite (seqZ_cons (dr_absolute_sequence d)) by lia. cbn. f_equal. f_equal; lia. }
  destruct (Hgen d Hi) as [_ ->]. by rewrite H0, Z.sub_0_r.
Qed.

Lemma run_rekey_inv d ops : rekey_inv d -> Forall typed_rekey_op ops -> rekey_inv (run_rekey d ops).
Proof.
  intros Hi Hops. revert d Hi. induction Hops as [|op ops Hop Hops IH]; intros d Hi; [done|].
  apply IH. by apply rekey_apply_inv.
Qed.

(** Key budgets hold in every execution: no key protects more than 2^20 records or
    2^30 application bytes, the absolute sequence never passes the hard limit by
    more than the one reserved prepare, and the key epoch stays a [u32]. *)
Theorem rekey_budgets_hold (direction : Z) (d : DirectionalRekey) (ops : list rekey_op) :
  rekey_new direction = Ok d -> Forall typed_rekey_op ops ->
  let d' := run_rekey d ops in
  0 <= dr_records_under_key d' <= MAX_RECORDS /\
  0 <= dr_application_bytes d' <= MAX_APPLICATION_BYTES /\
  0 <= dr_absolute_sequence d' <= HARD_SEQUENCE_LIMIT + 1 /\
  0 <= dr_key_epoch d' <= U32_MAX.
Proof.
  intros Hd Hops d'. pose proof (run_rekey_inv d ops (rekey_inv_new _ _ Hd) Hops) as [H1 H2 H3 _ H5 _].
  done.
Qed.

(** Only the two commit events move the key epoch. *)
Lemma dispatch_epoch d ev :
  rekey_inv d -> typed_event ev ->
  dr_key_epoch (rekey_dispatch d ev).1 = dr_key_epoch d \/
  ((exists e, ev = CommitDurablyQueued e \/ ev = PeerCommitAuthenticated e) /\
   match ev with
   | CommitDurablyQueued e | PeerCommitAuthenticated e => dr_key_epoch (rekey_dispatch d ev).1 = e
   | _ => False
   end).
Proof.
  intros Hi Hev. destruct ev as [k n| | |p|e|e|el|]; cbn [rekey_dispatch].
  - left. unfold local_record_request, consume_record. repeat (case_match; cbn); by simplify_eq/=.
  - left. unfold maybe_send_prepare, consume_record. repeat (case_match; cbn); by simplify_eq/=.
  - left. unfold maybe_send_prepare, consume_record. repeat (case_match; cbn); by simplify_eq/=.
  - left. unfold peer_prepare. repeat (case_match; cbn); by simplify_eq/=.
  - unfold commit_queued. repeat case_match; cbn; eauto 6.
  - unfold peer_commit. repeat case_match; cbn; eauto 6.
  - left. by case_match.
  - by left.
Qed.

(** A key is replaced only by its own commit: one operation either leaves the key
    epoch alone or is the commit of the next epoch, which resets both budgets,
    reopens the direction and does not touch the absolute sequence. *)
Theorem rekey_epoch_only_by_commit (d : DirectionalRekey) (op : rekey_op) :
  rekey_inv d -> typed_rekey_op op -> dr_key_epoch (rekey_apply d op) <> dr_key_epoch d ->
  let d' := rekey_apply d op in
  (op = Reduce (CommitDurablyQueued (dr_key_epoch d + 1)) \/
   op = Reduce (PeerCommitAuthenticated (dr_key_epoch d + 1))) /\
  dr_key_epoch d' = dr_key_epoch d + 1 /\ dr_records_under_key d' = 0 /\
  dr_application_bytes d' = 0 /\ dr_state d' = DOpen /\
  dr_absolute_sequence d' = dr_absolute_sequence d.
Proof.
  intros Hi Hop Hne d'. destruct (rekey_apply_inv d op Hi Hop) as [_ (_ & Hep & _)]. fold d' in Hep.
  destruct Hep as [?|(He & Hr & Hb & Hs & Ha)]; [done|]. split; [|done].
  destruct op as [ev|k n|].
  - pose proof (dispatch_epoch d ev Hi Hop) as Hde. subst d'. cbn in *. unfold rekey_reduce in *.
    case_bool_decide; [done|].
    assert (dr_key_epoch (rekey_dispatch d ev).1 = dr_key_epoch d + 1) as Hep.
    { by destruct (rekey_dispatch d ev) as [d1 [acts|er|]]. }
    rewrite Hep in Hde. destruct Hde as [?|[[e [-> | ->]] <-]]; [lia|by left|by right].
  - pose proof (admit_spec d k n Hi Hop) as Hs'. subst d'. cbn in *.
    destruct (admit_authenticated_peer_record d k n). by destruct Hs' as (_ & _ & _ & ? & _).
  - pose proof (reserve_spec d Hi) as Hs'. subst d'. cbn in *.
    destruct (reserve_generated_commit d). by destruct Hs' as (_ & _ & _ & ? & _).
Qed.

(** ** The rekey barrier between two peers *)

(** The remembered prepare and commit belong to epochs already left behind. *)
Record rekey_history (d : DirectionalRekey) : Prop := {
  kh_commit : forall e, dr_prior_commit_epoch d = Some e -> e <= dr_key_epoch d;
  kh_prepare : forall p, dr_prior_prepare d = Some p ->
    rp_key_epoch p <= dr_key_epoch d /\
    (dr_pending_prepare d = None -> rp_key_epoch p < dr_key_epoch d);
  kh_pending : dr_state d = DOpen \/ dr_state d = Draining -> dr_pending_prepare d = None;
}.

Lemma history_frame d d' :
  rekey_history d -> dr_prior_commit_epoch d' = dr_prior_commit_epoch d ->
  dr_prior_prepare d' = dr_prior_prepare d -> dr_key_epoch d' = dr_key_epoch d ->
  (dr_pending_prepare d' = None -> dr_pending_prepare d = None) ->
  (dr_state d' = DOpen \/ dr_state d' = Draining ->
   (dr_state d = DOpen \/ dr_state d = Draining) /\ dr_pending_prepare d' = dr_pending_prepare d) ->
  rekey_history d'.
Proof.
  intros [Hc Hp Ho] E1 E2 E3 E4 E5. split.
  - intros e. rewrite E1, E3. apply Hc.
  - intros p. rewrite E2, E3. intros H. destruct (Hp p H) as [H1 H2]. auto.
  - intros Hst. destruct (E5 Hst) as [Hst' ->]. auto.
Qed.

Ltac history_tac d :=
  repeat (case_match; cbn); simplify_eq/=; try done;
  apply (history_frame d); try done; cbn; naive_solver.

Lemma apply_epoch_history d p acts key_epoch :
  rekey_inv d -> rekey_history d -> dr_pending_prepare d = Some p ->
  key_epoch = rp_next_key_epoch p ->
  rekey_history (apply_epoch (remember_commit d key_epoch acts) key_epoch).
Proof.
  intros Hi [Hc Hp Ho] Hpend ->. destruct (ki_pending d Hi p Hpend) as [Hn _]. split; cbn.
  - intros e [= <-]. lia.
  - intros q Hq. destruct (Hp q Hq) as [Hq1 _]. split; intros; lia.
  - done.
Qed.

Ltac history_commit d :=
  repeat case_match; try done;
  match goal with
  | Hpend : dr_pending_prepare d = Some ?p, G : negb _ || negb (_ =? _) = false |- _ =>
      apply orb_false_iff in G as [_ G]; apply negb_false_iff, Z.eqb_eq in G;
      by apply (apply_epoch_history d p)
  end.

Lemma dispatch_history d ev :
  rekey_inv d -> rekey_history d -> rekey_history (rekey_dispatch d ev).1.
Proof.
  intros Hi Hh. destruct ev as [k n| | |p|e|e|el|]; cbn [rekey_dispatch].
  - unfold local_record_request, consume_record. case_bool_decide as Hst; [|done]. history_tac d.
  - unfold maybe_send_prepare, consume_record. history_tac d.
  - unfold maybe_send_prepare, consume_record. history_tac d.
  - unfold peer_prepare. case_match; [done|]. destruct (_ || _) eqn:G; [done|].
    apply orb_false_iff in G as [_ G]. apply negb_false_iff, Z.eqb_eq in G.
    repeat case_match; try done. destruct Hh as [Hc Hp Ho]. split; cbn; [done| |naive_solver].
    intros q [= <-]. split; [lia|done].
  - unfold commit_queued. history_commit d.
  - unfold peer_commit. history_commit d.
  - history_tac d.
  - history_tac d.
Qed.

Lemma rekey_apply_history d op :
  rekey_inv d -> rekey_history d -> rekey_history (rekey_apply d op).
Proof.
  intros Hi Hh. destruct op as [ev|k n|]; cbn.
  - unfold rekey_reduce. case_bool_decide; [done|]. pose proof (dispatch_history d ev Hi Hh) as Hd.
    destruct (rekey_dispatch d ev) as [d' [acts|e|]]; [done| |done].
    apply (history_frame d'); try done. cbn. naive_solver.
  - unfold admit_authenticated_peer_record, consume_record. history_tac d.
  - unfold reserve_generated_commit, consume_record. history_tac d.
Qed.

(** A direction reached from a fresh one by any operations. *)
Definition rekey_reachable (d : DirectionalRekey) : Prop :=
  exists direction d0 ops, rekey_new direction = Ok d0 /\ Forall typed_rekey_op ops /\
    d = run_rekey d0 ops.

Lemma rekey_reachable_facts d : rekey_reachable d -> rekey_inv d /\ rekey_history d.
Proof.
  intros (dir & d0 & ops & Hn & Hops & ->).
  assert (rekey_history d0) as Hh0.
  { unfold rekey_new in Hn. destruct (negb _); [done|]. injection Hn as <-. by split. }
  pose proof (rekey_inv_new _ _ Hn) as Hi0. clear Hn. revert d0 Hi0 Hh0.
  induction Hops as [|op ops Hop Hops IH]; intros d0 Hi0 Hh0; [done|].
  apply IH; [by apply rekey_apply_inv|by apply rekey_apply_history].
Qed.

(** Control records are admitted in every open or rekeying state. *)
Lemma admit_control d kind n :
  rekey_inv d -> kind = RekeyPrepare \/ kind = RekeyCommit -> dr_state d <> DClosed ->
  dr_absolute_sequence d < HARD_SEQUENCE_LIMIT -> dr_records_under_key d < MAX_RECORDS ->
  admit_authenticated_peer_record d kind n =
    (set_counters d (dr_absolute_sequence d + 1) (dr_records_under_key d + 1)
       (dr_application_bytes d + 0), Ok tt).
Proof.
  intros Hi Hk Hst Hs Hr. unfold admit_authenticated_peer_record.
  rewrite bool_decide_eq_false_2 by done. rewrite (proj2 (Z.leb_gt _ _)) by lia. cbn [orb].
  rewrite (proj2 (Z.leb_gt _ _)) by lia.
  rewrite (bool_decide_eq_false_2 (kind = Data)) by (intros ->; naive_solver).
  rewrite (bool_decide_eq_false_2 (kind = Ack)) by (intros ->; naive_solver).
  rewrite (bool_decide_eq_false_2 (kind = Close)) by (intros ->; naive_solver). cbn [andb].
  pose proof (ki_bytes d Hi). by rewrite consume_ok by (done || lia).
Qed.

(** What a sender and a receiver of one direction agree on. *)
Definition in_step (s r : DirectionalRekey) : Prop :=
  dr_direction s = dr_direction r /\ dr_key_epoch s = dr_key_epoch r /\
  dr_absolute_sequence s = dr_absolute_sequence r.

(** The prepare a draining sender sends. *)
Definition prepare_of (s : DirectionalRekey) : RekeyPrepareV1 :=
  mkPrepare (dr_direction s) (dr_key_epoch s) (dr_key_epoch s + 1) (dr_absolute_sequence s - 1).

Lemma sender_prepares s :
  rekey_inv s -> dr_state s = Draining -> dr_acked s = true ->
  0 < dr_absolute_sequence s -> dr_key_epoch s < U32_MAX -> dr_records_under_key s < MAX_RECORDS ->
  rekey_reduce s ReassemblyEmpty =
    (set_pending (set_counters (set_drain s true true) (dr_absolute_sequence s + 1)
                    (dr_records_under_key s + 1) (dr_application_bytes s + 0))
       (prepare_of s) WaitCommit, Ok [SendPrepare (prepare_of s)]).
Proof.
  intros Hi Hst Ha H0 He Hr. unfold rekey_reduce. rewrite bool_decide_eq_false_2 by congruence.
  cbn [rekey_dispatch]. unfold maybe_send_prepare. cbn [dr_state dr_acked dr_reassembly_empty set_drain
    dr_records_under_key dr_absolute_sequence dr_key_epoch dr_direction].
  rewrite bool_decide_eq_true_2 by done. rewrite Ha. cbn [negb orb].
  rewrite (proj2 (Z.leb_gt _ _)) by lia. rewrite (proj2 (Z.eqb_neq _ _)) by lia. cbn [orb].
  unfold checked_add_u32. rewrite (proj2 (Z.leb_le _ _)) by lia.
  rewrite consume_ok; try done.
  - destruct Hi as [K1 K2 K3 K4 K5 K6]. by split.
  - cbn. pose proof (ki_bytes s Hi). lia.
Qed.

Lemma receiver_accepts r s :
  rekey_inv r -> rekey_history r -> in_step s r -> dr_state r = DOpen ->
  0 < dr_absolute_sequence s -> dr_key_epoch s < U32_MAX ->
  rekey_reduce r (PeerPrepare (prepare_of s)) =
    (remember_prepare (set_pending r (prepare_of s) PrepareReceived) (prepare_of s)
       [SendCommit (dr_direction r) (dr_key_epoch r + 1)],
     Ok [SendCommit (dr_direction r) (dr_key_epoch r + 1)]).
Proof.
  intros Hi Hh (Hd & He & Ha) Hst H0 Hmax. unfold rekey_reduce.
  rewrite bool_decide_eq_false_2 by congruence. cbn [rekey_dispatch]. unfold peer_prepare.
  assert (dr_pending_prepare r = None) as Hpend by (apply (kh_pending r Hh); auto).
  rewrite bool_decide_eq_false_2.
  2: { intros Hp. destruct (kh_prepare r Hh _ Hp) as [_ Hlt]. specialize (Hlt Hpend). cbn in Hlt. lia. }
  rewrite Hpend. rewrite bool_decide_eq_false_2 by (by intros [? ?]).
  rewrite bool_decide_eq_true_2 by auto. unfold prepare_of.
  cbn [rp_direction rp_key_epoch rp_next_key_epoch rp_through_sequence]. rewrite Hd, He, Ha, !Z.eqb_refl.
  cbn [negb orb]. unfold checked_add_u32. rewrite (proj2 (Z.leb_le _ _)) by lia.
  rewrite !Z.eqb_refl. cbn [negb orb]. rewrite (proj2 (Z.eqb_neq _ _)) by lia. done.
Qed.

(** The rekey barrier switches both ends together: when a drained sender and its
    receiver agree on epoch and sequence, the prepare is accepted, its record is
    admitted, the receiver's commit and the sender's commit each switch the key
    once, and both ends are open at the next epoch, on the same next sequence
    number, with fresh budgets.  (This is the order the reducer is written for: the
    prepare is reduced before its own record is counted.) *)
Theorem rekey_barrier_completes (s r : DirectionalRekey) (n : Z) :
  rekey_reachable s -> rekey_reachable r -> in_step s r ->
  dr_state s = Draining -> dr_acked s = true -> dr_state r = DOpen ->
  0 < dr_absolute_sequence s < HARD_SEQUENCE_LIMIT -> dr_key_epoch s < U32_MAX ->
  dr_records_under_key s < MAX_RECORDS -> dr_records_under_key r < MAX_RECORDS ->
  let e := dr_key_epoch s + 1 in
  let opened := ActOpen (dr_absolute_sequence s + 1) e in
  exists s1 r1 r2 r3 s2,
    rekey_reduce s ReassemblyEmpty = (s1, Ok [SendPrepare (prepare_of s)]) /\
    rekey_reduce r (PeerPrepare (prepare_of s)) = (r1, Ok [SendCommit (dr_direction s) e]) /\
    admit_authenticated_peer_record r1 RekeyPrepare n = (r2, Ok tt) /\
    rekey_reduce r2 (CommitDurablyQueued e) = (r3, Ok [ApplyReceiveRekey e; opened]) /\
    rekey_reduce s1 (PeerCommitAuthenticated e) = (s2, Ok [ApplySendRekey e; opened]) /\
    in_step s2 r3 /\ dr_key_epoch s2 = e /\
    dr_absolute_sequence s2 = dr_absolute_sequence s + 1 /\
    (forall d, d = s2 \/ d = r3 ->
       dr_state d = DOpen /\ dr_records_under_key d = 0 /\ dr_application_bytes d = 0).
Proof.
  intros Hs Hr Hstep Hdr Hack Hop Hseq Hep Hrs Hrr e opened.
  apply rekey_reachable_facts in Hs as [Is Hhs], Hr as [Ir Hhr].
  pose proof (receiver_accepts r s Ir Hhr Hstep Hop ltac:(lia) Hep) as HA.
  destruct Hstep as (Hd & He & Ha).
  assert (forall x, dr_prior_commit_epoch x <> Some e \/ ~ rekey_history x \/ dr_key_epoch x <> dr_key_epoch s) as Hprior.
  { intros x. destruct (decide (dr_key_epoch x = dr_key_epoch s)) as [Hx|]; [|auto].
    destruct (decide (dr_prior_commit_epoch x = Some e)) as [Hc|]; [|auto]. right. left. intros Hh.
    pose proof (kh_commit x Hh _ Hc). lia. }
  assert (dr_prior_commit_epoch s <> Some e) as Ps by (destruct (Hprior s) as [?|[?|?]]; done).
  assert (dr_prior_commit_epoch r <> Some e) as Pr by (destruct (Hprior r) as [?|[?|?]]; congruence).
  do 5 eexists.
  split; [apply sender_prepares; (done || lia)|].
  split; [rewrite HA, <- Hd, <- He; reflexivity|].
  split.
  { apply admit_control; cbn; try done; [|by left|lia]. destruct Ir as [K1 K2 K3 K4 K5 K6].
    split; cbn; try done. intros p [= <-]. cbn. lia. }
  split.
  { unfold rekey_reduce; cbn -[Z.eqb e]. unfold commit_queued; cbn -[Z.eqb e].
    rewrite (bool_decide_eq_false_2 (dr_prior_commit_epoch r = Some e)) by done. fold e.
    rewrite Z.eqb_refl, bool_decide_eq_false_2 by done. rewrite bool_decide_eq_true_2 by done.
    cbn [negb orb]. rewrite <- Ha. reflexivity. }
  split.
  { unfold rekey_reduce; cbn -[Z.eqb e]. unfold peer_commit; cbn -[Z.eqb e].
    rewrite (bool_decide_eq_false_2 (dr_prior_commit_epoch s = Some e)) by done. fold e.
    rewrite Z.eqb_refl, bool_decide_eq_false_2 by done. by rewrite bool_decide_eq_true_2 by done. }
  cbn. unfold in_step. cbn. split; [split_and!; (done || lia)|]. split; [done|]. split; [done|].
  intros d [-> | ->]; done.
Qed.

(** ** Witnesses *)

Definition rekey0 : DirectionalRekey := mkRekey 1 0 0 0 0 DOpen false false None None None None None.

Ltac typed_ops := repeat (apply Forall_cons_2; [by vm_compute|]); apply Forall_nil_2.

(** One record of data, then a request that would pass the byte budget, then the
    acknowledgement of what was sent. *)
Definition drain_ops : list rekey_op :=
  [Reduce (LocalRecordRequest Data 1); Reduce (LocalRecordRequest Data MAX_APPLICATION_BYTES);
   Reduce PriorRecordsAcked].
Definition drained : DirectionalRekey := run_rekey rekey0 drain_ops.
Definition receiver : DirectionalRekey := run_rekey rekey0 [Admit Data 1].

Lemma drained_reachable : rekey_reachable drained.
Proof. exists 1, rekey0, drain_ops. split; [done|]. split; [typed_ops|done]. Qed.
Lemma receiver_reachable : rekey_reachable receiver.
Proof. exists 1, rekey0, [Admit Data 1]. split; [done|]. split; [typed_ops|done]. Qed.

Lemma rekey_sequences_consecutive_witness :
  emissions rekey0 (drain_ops ++ [Reduce ReassemblyEmpty; Reduce (PeerCommitAuthenticated 1);
                                  Reduce (LocalRecordRequest Data 9); Reserve]) = [0; 1; 2; 3].
Proof.
  rewrite (rekey_sequences_consecutive 1 rekey0); [by vm_compute|done|typed_ops].
Defined.

Lemma rekey_budgets_hold_witness : dr_application_bytes drained <= MAX_APPLICATION_BYTES.
Proof.
  apply (rekey_budgets_hold 1 rekey0 drain_ops); [done|typed_ops].
Defined.

Lemma rekey_epoch_only_by_commit_witness :
  let d := run_rekey receiver [Reduce (PeerPrepare (prepare_of drained))] in
  dr_key_epoch (rekey_apply d (Reduce (CommitDurablyQueued 1))) = 1.
Proof.
  intros d.
  assert (rekey_inv d) as Hd.
  { apply (run_rekey_inv receiver); [apply (proj1 (rekey_reachable_facts _ receiver_reachable))|].
    typed_ops. }
  destruct (rekey_epoch_only_by_commit d (Reduce (CommitDurablyQueued 1)) Hd I) as (_ & H & _);
    [by vm_compute|exact H].
Defined.

Lemma rekey_barrier_completes_witness :
  exists s1, rekey_reduce drained ReassemblyEmpty = (s1, Ok [SendPrepare (prepare_of drained)]).
Proof.
  destruct (rekey_barrier_completes drained receiver 17 drained_reachable receiver_reachable)
    as (s1 & _ & _ & _ & _ & H & _); try (by vm_compute).
  by exists s1.
Defined.
