(* ===== verification/NoisePrologue.v ===== *)
(** The Noise prologue both ends bind into the handshake
    ([cockpit-noise/src/prologue.rs]) and the framing of handshake messages
    ([cockpit-noise/src/frame.rs]). *)

From S2P Require Import Prelude.
From S2P Require Import ProtocolId.
From S2P Require Import NoiseRecord.
From stdpp Require Import options.
Set Warnings "-clear-no-such-hyp".

(** A byte-string literal. *)
Definition ascii_bytes (s : string) : bytes :=
  map (fun a => Z.of_N (Ascii.N_of_ascii a)) (String.list_ascii_of_string s).

(** [<[u8]>::get(a..b)]. *)
Definition get_range (l : bytes) (a b : Z) : option bytes :=
  match slice (E:=unit) l a b with Ok x => Some x | _ => None end.

(** noise/prologue.rs:5-5 DOMAIN. *)
Definition DOMAIN : bytes := Eval vm_compute in (ascii_bytes "flycockpit-remote-noise-prologue-v1" ++ [0]).
(** noise/prologue.rs:6-6 BODY_LEN. *)
Definition BODY_LEN : Z := 186.
(** noise/prologue.rs:7-7 ENCODED_LEN. *)
Definition ENCODED_LEN : Z := zlen DOMAIN + BODY_LEN.
(** noise/prologue.rs:8-8 MAGIC. *)
Definition MAGIC : bytes := Eval vm_compute in (ascii_bytes "FCNP").

(** noise/prologue.rs:10-22 RemoteNoisePrologueV1. *)
Record RemoteNoisePrologueV1 := mkPrologue {
  pl_child_attempt_id : bytes;
  pl_grant_jti : bytes;
  pl_client_certificate_id : bytes;
  pl_client_certificate_generation : Z;
  pl_daemon_certificate_id : bytes;
  pl_daemon_certificate_generation : Z;
  pl_selected_tuple_id : Z;
  pl_negotiation_digest : bytes;
  pl_policy_digest : bytes;
  pl_connection_nonce : bytes;
}.

(** noise/prologue.rs:25-44 RemoteNoisePrologueV1::encode. *)
Definition prologue_encode (p : RemoteNoisePrologueV1) : bytes :=
  DOMAIN ++ MAGIC ++ [1] ++ pl_child_attempt_id p ++ pl_grant_jti p
    ++ pl_client_certificate_id p ++ to_be 8 (pl_client_certificate_generation p)
    ++ pl_daemon_certificate_id p ++ to_be 8 (pl_daemon_certificate_generation p)
    ++ to_be 2 (pl_selected_tuple_id p) ++ pl_negotiation_digest p ++ pl_policy_digest p
    ++ pl_connection_nonce p ++ [1; 2; 2].

(** noise/prologue.rs:88-97 take_array. *)
Definition take_array (n : Z) (b : bytes) (cursor : Z) : NoiseResult (bytes * Z) :=
  end_ ← ok_or (checked_add cursor n) InvalidPrologue;
  value ← ok_or (get_range b cursor end_) InvalidPrologue;
  Ok (value, end_).

(** noise/prologue.rs:46-80 RemoteNoisePrologueV1::decode. *)
Definition prologue_decode (b : bytes) : NoiseResult RemoteNoisePrologueV1 :=
  if negb (zlen b =? ENCODED_LEN) || negb (bool_decide (take (length DOMAIN) b = DOMAIN))
  then Err InvalidPrologue else
  body ← slice_from b (zlen DOMAIN);
  magic ← slice body 0 4;
  version ← index body 4;
  trailer ← slice_from body 183;
  if negb (bool_decide (magic = MAGIC)) || negb (version =? 1)
     || negb (bool_decide (trailer = [1; 2; 2]))
  then Err InvalidPrologue else
  '(child_attempt_id, cursor) ← take_array 16 body 5;
  '(grant_jti, cursor) ← take_array 16 body cursor;
  '(client_certificate_id, cursor) ← take_array 16 body cursor;
  '(client_generation, cursor) ← take_array 8 body cursor;
  '(daemon_certificate_id, cursor) ← take_array 16 body cursor;
  '(daemon_generation, cursor) ← take_array 8 body cursor;
  '(tuple_id, cursor) ← take_array 2 body cursor;
  '(negotiation_digest, cursor) ← take_array 32 body cursor;
  '(policy_digest, cursor) ← take_array 32 body cursor;
  '(connection_nonce, cursor) ← take_array 32 body cursor;
  if negb (cursor =? 183) then Err InvalidPrologue else
  Ok (mkPrologue child_attempt_id grant_jti client_certificate_id (from_be client_generation)
        daemon_certificate_id (from_be daemon_generation) (from_be tuple_id)
        negotiation_digest policy_digest connection_nonce).

(** noise/prologue.rs:82-85 RemoteNoisePrologueV1::digest. *)
Definition prologue_digest `{Sha256} (p : RemoteNoisePrologueV1) : bytes := sha256 (prologue_encode p).

(** noise/frame.rs:3-3 HANDSHAKE_HEADER_LEN. *)
Definition HANDSHAKE_HEADER_LEN : Z := 4.
(** noise/frame.rs:4-4 MAX_HANDSHAKE_MESSAGE. *)
Definition MAX_HANDSHAKE_MESSAGE : Z := 4096.
(** noise/frame.rs:5-5 ABSOLUTE_CIPHERTEXT_CAP. *)
Definition ABSOLUTE_CIPHERTEXT_CAP : Z := 65535.

(** noise/frame.rs:7-11 HandshakeFrame. *)
Record HandshakeFrame := mkHandshakeFrame { hf_message_index : Z; hf_message : bytes }.

(** noise/frame.rs:14-27 HandshakeFrame::encode. *)
Definition handshake_encode (message_index : Z) (message : bytes) : NoiseResult bytes :=
  if negb ((message_index =? 1) || (message_index =? 2)) || (zlen message =? 0)
     || (MAX_HANDSHAKE_MESSAGE <? zlen message)
  then Err InvalidHandshakeFrame else
  length ← (if zlen message <=? U16_MAX then Ok (zlen message) else Err InvalidHandshakeFrame);
  Ok ([1; message_index] ++ to_be 2 length ++ message).

(** noise/frame.rs:29-50 HandshakeFrame::decode. *)
Definition handshake_decode (b : bytes) (expected_index : Z) : NoiseResult HandshakeFrame :=
  if (zlen b <? HANDSHAKE_HEADER_LEN) || (ABSOLUTE_CIPHERTEXT_CAP <? zlen b)
  then Err InvalidHandshakeFrame else
  header ← slice b 0 4;
  h0 ← index header 0;
  h1 ← index header 1;
  length ← read_u16_be header 2;
  if negb (h0 =? 1) || negb (h1 =? expected_index) || negb ((h1 =? 1) || (h1 =? 2))
     || (length =? 0) || (MAX_HANDSHAKE_MESSAGE <? length)
     || negb (zlen b =? HANDSHAKE_HEADER_LEN + length)
  then Err InvalidHandshakeFrame else
  message ← slice_from b 4;
  Ok (mkHandshakeFrame h1 message).

(** ** Correctness *)

(** A fixed-size byte array. *)
Definition byte_array (n : Z) (b : bytes) : Prop := zlen b = n /\ all_u8 b.

Record wf_prologue (p : RemoteNoisePrologueV1) : Prop := {
  wp_attempt : byte_array 16 (pl_child_attempt_id p);
  wp_jti : byte_array 16 (pl_grant_jti p);
  wp_client : byte_array 16 (pl_client_certificate_id p);
  wp_client_gen : is_u64 (pl_client_certificate_generation p);
  wp_daemon : byte_array 16 (pl_daemon_certificate_id p);
  wp_daemon_gen : is_u64 (pl_daemon_certificate_generation p);
  wp_tuple : is_u16 (pl_selected_tuple_id p);
  wp_negotiation : byte_array 32 (pl_negotiation_digest p);
  wp_policy : byte_array 32 (pl_policy_digest p);
  wp_nonce : byte_array 32 (pl_connection_nonce p);
}.

Lemma take_array_ok n b c x :
  slice (E:=unit) b c (c + n) = Ok x -> c + n <= U64_MAX -> take_array n b c = Ok (x, c + n).
Proof.
  intros Hs Hm. unfold take_array, checked_add, get_range.
  rewrite (proj2 (Z.leb_le _ _)) by done. cbn. by rewrite Hs.
Qed.

Lemma take_array_inv n b c x c' :
  take_array n b c = Ok (x, c') -> c' = c + n /\ slice (E:=NoiseError) b c (c + n) = Ok x.
Proof.
  unfold take_array, checked_add, get_range. destruct (_ <=? U64_MAX); [|done]. cbn.
  unfold slice. case_decide; cbn; [|done]. by intros [= <- <-].
Qed.

Lemma take_array_no_panic n b c : take_array n b c <> Panic.
Proof.
  unfold take_array, get_range. destruct (checked_add c n); [|done]. cbn. by destruct (slice b c z).
Qed.

Lemma DOMAIN_zlen : zlen DOMAIN = 36.
Proof. reflexivity. Qed.
#[export] Hint Rewrite DOMAIN_zlen : bytes.

(** Read the next field of the body, whose bytes are [x]. *)
Ltac take_field x :=
  rewrite (take_array_ok _ _ _ x); [rewrite bind_Ok_l|read_field; done|cbn; unfold U64_MAX; lia].

Lemma prologue_decode_encode p : wf_prologue p -> prologue_decode (prologue_encode p) = Ok p.
Proof.
  intros [[L1 _] [L2 _] [L3 _] R1 [L4 _] R2 R3 [L5 _] [L6 _] [L7 _]].
  unfold prologue_decode, prologue_encode.
  match goal with |- context [DOMAIN ++ ?x] => set (body := x) end.
  assert (zlen body = 186) as Hb.
  { subst body. change MAGIC with [70; 67; 78; 80]. zlen_solve. }
  rewrite zlen_app, Hb, DOMAIN_zlen. unfold ENCODED_LEN, BODY_LEN. rewrite DOMAIN_zlen.
  rewrite take_app_length, bool_decide_eq_true_2 by done. cbn [negb orb Z.eqb Pos.eqb Z.add Pos.add].
  unfold slice_from. rewrite zlen_app, Hb, DOMAIN_zlen. rewrite slice_skip by done.
  rewrite DOMAIN_zlen. rewrite slice_all by (done || lia). rewrite bind_Ok_l.
  unfold slice_from. rewrite Hb. subst body. change MAGIC with [70; 67; 78; 80].
  replace (slice _ 0 4) with (@Ok NoiseError bytes [70; 67; 78; 80]) by (symmetry; read_field; done).
  rewrite bind_Ok_l.
  replace (index _ 4) with (@Ok NoiseError Z 1)
    by (symmetry; rewrite index_skip by zlen_solve; reflexivity). rewrite bind_Ok_l.
  replace (slice _ 183 186) with (@Ok NoiseError bytes [1; 2; 2]) by (symmetry; read_field; done).
  rewrite bind_Ok_l. rewrite !bool_decide_eq_true_2 by done. cbn [negb orb Z.eqb Pos.eqb].
  take_field (pl_child_attempt_id p). take_field (pl_grant_jti p). take_field (pl_client_certificate_id p).
  take_field (to_be 8 (pl_client_certificate_generation p)). take_field (pl_daemon_certificate_id p).
  take_field (to_be 8 (pl_daemon_certificate_generation p)). take_field (to_be 2 (pl_selected_tuple_id p)).
  take_field (pl_negotiation_digest p). take_field (pl_policy_digest p). take_field (pl_connection_nonce p).
  unfold is_u64, is_u16, U64_MAX, U16_MAX in *.
  rewrite !from_be_to_be_small by (first
    [ change (256 ^ Z.of_nat 2) with 65536; lia
    | change (256 ^ Z.of_nat 8) with 18446744073709551616; lia ]).
  by destruct p.
Qed.

Lemma prologue_decode_no_panic b : prologue_decode b <> Panic.
Proof.
  unfold prologue_decode, slice_from. destruct (_ || _) eqn:G; [done|].
  apply orb_false_iff in G as [G _]. apply negb_false_iff, Z.eqb_eq in G.
  unfold ENCODED_LEN, BODY_LEN in G. rewrite DOMAIN_zlen in *.
  destruct (slice b 36 (zlen b)) as [body| |] eqn:Hs; [|done|by apply slice_no_panic in Hs; lia].
  apply slice_inv in Hs as [Hl _]. rewrite bind_Ok_l.
  repeat (no_panic1 || match goal with |- context [let '(_, _) := ?x in _] => destruct x end);
    first [apply take_array_no_panic|apply slice_no_panic; lia|apply index_no_panic; lia].
Qed.

Ltac take_inv H :=
  let v := fresh "v" in let c := fresh "c" in let E := fresh "S" in
  apply bind_Ok in H as ([v c] & E & H); apply take_array_inv in E as [-> E].

Lemma byte_array_slice {E} l a b n x :
  all_u8 l -> slice (E:=E) l a b = Ok x -> n = b - a -> byte_array n x.
Proof.
  intros Hl Hs ->. split; [by apply slice_inv in Hs as [? _]|by eapply slice_u8].
Qed.

(** A decoded prologue is its own encoding. *)
Lemma prologue_decode_inv b p :
  all_u8 b -> prologue_decode b = Ok p -> wf_prologue p /\ prologue_encode p = b.
Proof.
  intros Hb Hd. unfold prologue_decode, slice_from in Hd. ok_inv1 Hd.
  apply orb_false_iff in G as [Gl Gd]. apply negb_false_iff in Gl, Gd.
  apply Z.eqb_eq in Gl. apply bool_decide_eq_true in Gd. unfold ENCODED_LEN, BODY_LEN in Gl.
  rewrite DOMAIN_zlen in *. apply bind_Ok in Hd as (body & Hbody & Hd).
  assert (b = DOMAIN ++ body) as Hcat.
  { unfold slice in Hbody. case_decide; [|done]. apply Ok_inj in Hbody. subst body.
    rewrite take_ge by (rewrite length_drop; unfold zlen in *; lia).
    rewrite <- Gd at 1. by rewrite take_drop. }
  pose proof (slice_u8 _ _ _ _ Hb Hbody) as Hu. apply slice_inv in Hbody as [Hl _].
  apply bind_Ok in Hd as (magic & M & Hd). apply bind_Ok in Hd as (version & V & Hd).
  apply bind_Ok in Hd as (trailer & T & Hd). ok_inv1 Hd.
  apply orb_false_iff in G as [G Gt]. apply orb_false_iff in G as [Gm Gv].
  apply negb_false_iff in Gm, Gv, Gt. apply bool_decide_eq_true in Gm, Gt. apply Z.eqb_eq in Gv. subst.
  do 10 take_inv Hd. ok_inv1 Hd. apply Ok_inj in Hd. subst p. apply index_inv in V.
  destruct (be_field _ _ _ 8 _ Hu S2 ltac:(lia)) as [F1 R1].
  destruct (be_field _ _ _ 8 _ Hu S4 ltac:(lia)) as [F2 R2].
  destruct (be_field _ _ _ 2 _ Hu S5 ltac:(lia)) as [F3 R3].
  change (256 ^ Z.of_nat 8) with 18446744073709551616 in R1, R2.
  change (256 ^ Z.of_nat 2) with 65536 in R3. split.
  - split; cbn; try (by eapply byte_array_slice; [exact Hu|eassumption|lia]);
      unfold is_u64, is_u16, U64_MAX, U16_MAX; lia.
  - unfold prologue_encode. cbn [pl_child_attempt_id pl_grant_jti pl_client_certificate_id
      pl_client_certificate_generation pl_daemon_certificate_id pl_daemon_certificate_generation
      pl_selected_tuple_id pl_negotiation_digest pl_policy_digest pl_connection_nonce].
    rewrite F1, F2, F3. f_equal. symmetry.
    assert (zlen body = 186) as Hlb by lia. rewrite Hlb in T.
    cbn [Z.add Pos.add Pos.succ Pos.add_carry] in *.
    pose proof (slice_split _ _ _ _ _ _ M (slice_split _ _ _ _ _ _ V (slice_split _ _ _ _ _ _ S
      (slice_split _ _ _ _ _ _ S0 (slice_split _ _ _ _ _ _ S1 (slice_split _ _ _ _ _ _ S2
      (slice_split _ _ _ _ _ _ S3 (slice_split _ _ _ _ _ _ S4 (slice_split _ _ _ _ _ _ S5
      (slice_split _ _ _ _ _ _ S6 (slice_split _ _ _ _ _ _ S7 (slice_split _ _ _ _ _ _ S8 T)))))))))))) as K.
    rewrite slice_all in K by (done || lia). apply Ok_inj in K. by rewrite <- K.
Qed.

(** The prologue codec is exact: over byte strings, decoding succeeds precisely on
    the encodings of well-formed prologues and returns the prologue encoded, so
    both ends bind the same fields if and only if they bind the same bytes; the
    decoder never panics. *)
Theorem prologue_codec_exact (b : bytes) (p : RemoteNoisePrologueV1) :
  all_u8 b ->
  (prologue_decode b = Ok p <-> wf_prologue p /\ prologue_encode p = b) /\
  prologue_decode b <> Panic.
Proof.
  intros Hb. split; [|apply prologue_decode_no_panic]. split; [by apply prologue_decode_inv|].
  intros [Hp <-]. by apply prologue_decode_encode.
Qed.

Lemma handshake_encode_ok i m :
  i = 1 \/ i = 2 -> 0 < zlen m <= MAX_HANDSHAKE_MESSAGE ->
  handshake_encode i m = Ok ([1; i] ++ to_be 2 (zlen m) ++ m).
Proof.
  intros Hi Hm. unfold handshake_encode. unfold MAX_HANDSHAKE_MESSAGE, U16_MAX in *.
  replace (negb _) with false by (by destruct Hi as [-> | ->]).
  rewrite (proj2 (Z.eqb_neq _ _)) by lia. rewrite (proj2 (Z.ltb_ge _ _)) by lia.
  by rewrite (proj2 (Z.leb_le _ _)) by lia.
Qed.

(** A handshake message is read back under its own index only. *)
Lemma handshake_decode_encode i j m :
  i = 1 \/ i = 2 -> 0 < zlen m <= MAX_HANDSHAKE_MESSAGE ->
  handshake_decode ([1; i] ++ to_be 2 (zlen m) ++ m) j =
    (if i =? j then Ok (mkHandshakeFrame i m) else Err InvalidHandshakeFrame).
Proof.
  intros Hi Hm. unfold MAX_HANDSHAKE_MESSAGE in Hm.
  set (b := _ ++ _). assert (zlen b = 4 + zlen m) as Hb by (subst b; zlen_solve).
  unfold handshake_decode, slice_from, HANDSHAKE_HEADER_LEN, ABSOLUTE_CIPHERTEXT_CAP. rewrite Hb.
  rewrite (proj2 (Z.ltb_ge _ _)) by lia. rewrite (proj2 (Z.ltb_ge _ _)) by lia. cbn [orb]. subst b.
  replace (slice _ 0 4) with (@Ok NoiseError bytes ([1; i] ++ to_be 2 (zlen m))).
  2: { symmetry. rewrite app_assoc. apply slice_head; [done|zlen_solve]. }
  rewrite bind_Ok_l. cbn [app]. rewrite (index_head 1 _ 0) by done. rewrite bind_Ok_l.
  rewrite (index_cons 1) by lia. rewrite index_head by done. rewrite bind_Ok_l.
  rewrite (read_u16_slice _ 2 (to_be 2 (zlen m))) by (read_field; done). rewrite bind_Ok_l.
  rewrite from_be_to_be_small by (change (256 ^ Z.of_nat 2) with 65536; lia).
  replace (negb ((i =? 1) || (i =? 2))) with false by (by destruct Hi as [-> | ->]).
  unfold MAX_HANDSHAKE_MESSAGE. rewrite (proj2 (Z.eqb_neq (zlen m) 0)) by lia.
  rewrite (proj2 (Z.ltb_ge _ _)) by lia. rewrite !Z.eqb_refl. cbn [negb orb].
  destruct (i =? j); [|done]. cbn [negb orb].
  replace (slice _ 4 _) with (@Ok NoiseError bytes m) by (symmetry; read_field; done). done.
Qed.

Lemma handshake_decode_no_panic b j : handshake_decode b j <> Panic.
Proof.
  unfold handshake_decode, slice_from, HANDSHAKE_HEADER_LEN.
  destruct (_ || _) eqn:G; [done|]. apply orb_false_iff in G as [G1 G2]. apply Z.ltb_ge in G1, G2.
  destruct (slice b 0 4) as [h| |] eqn:Hs; [|done|by apply slice_no_panic in Hs; lia].
  apply slice_inv in Hs as [Hl _]. rewrite bind_Ok_l.
  repeat no_panic1;
    first [apply index_no_panic; lia|apply read_u16_no_panic; lia|apply slice_no_panic; lia].
Qed.

(** ** Witness *)

Definition sample_prologue : RemoteNoisePrologueV1 :=
  mkPrologue (replicate 16 1) (replicate 16 2) (replicate 16 3) 4 (replicate 16 5) 6 7
    (replicate 32 8) (replicate 32 9) (replicate 32 10).

Lemma sample_prologue_wf : wf_prologue sample_prologue.
Proof.
  assert (forall n x, is_u8 x -> byte_array (Z.of_nat n) (replicate n x)) as Hr.
  { intros n x Hx. split; [unfold zlen; by rewrite length_replicate|by apply Forall_replicate]. }
  split; [by apply (Hr 16%nat 1)|by apply (Hr 16%nat 2)|by apply (Hr 16%nat 3)|done
    |by apply (Hr 16%nat 5)|done|done|by apply (Hr 32%nat 8)|by apply (Hr 32%nat 9)|by apply (Hr 32%nat 10)].
Qed.

Lemma prologue_codec_exact_witness :
  prologue_decode (prologue_encode sample_prologue) = Ok sample_prologue.
Proof.
  assert (all_u8 (prologue_encode sample_prologue)) as Hu.
  { vm_compute. repeat constructor; discriminate. }
  destruct (prologue_codec_exact (prologue_encode sample_prologue) sample_prologue Hu) as [H _].
  apply H. split; [apply sample_prologue_wf|reflexivity].
Defined.
