(* ===== verification/NoiseChild.v ===== *)
(** One end of a Noise child connection ([cockpit-noise/src/core.rs]): handshake
    phases, the authorization gate, record encryption and decryption, rekey control
    records.

    The [snow] crate is third-party code, so it is a parameter: [Snow] lists the
    calls the source makes, [SnowLaws] the documented behaviour the channel theorems
    rely on.  [Toy_snow] at the end is a concrete instance used by witnesses.

    Methods take [&mut self] and return [Result]; they are functions in a
    state-and-error monad whose state survives an error, as the source's does. *)

From S2P Require Import Prelude.
From S2P Require Import ProtocolId.
From S2P Require Import NoiseRecord.
From S2P Require Import NoiseRekey.
From S2P Require Import NoisePrologue.
From stdpp Require Import options.
Set Warnings "-clear-no-such-hyp".

(** ** The Noise library *)

(** [HandshakeState] and [TransportState]; a write or read takes the size of the
    caller's buffer and [None] is an error.  Key generation is part of the
    handshake state. *)
Class Snow := {
  HandshakeState : Type;
  TransportState : Type;
  snow_build : bool -> bytes -> option HandshakeState;
  hs_write : HandshakeState -> bytes -> Z -> option (HandshakeState * bytes);
  hs_read : HandshakeState -> bytes -> Z -> option (HandshakeState * bytes);
  hs_finished : HandshakeState -> bool;
  hs_hash : HandshakeState -> bytes;
  hs_into_transport : HandshakeState -> option TransportState;
  ts_write : TransportState -> bytes -> Z -> option (TransportState * bytes);
  ts_read : TransportState -> bytes -> Z -> option (TransportState * bytes);
  ts_rekey_outgoing : TransportState -> TransportState;
  ts_rekey_incoming : TransportState -> TransportState;
}.

(** What the two ends of one direction promise each other: [ts_paired n a b] says
    [a] has sent [n] messages that [b] has read, under the same keys.  Messages of at
    most 65535 bytes, 16 of them the tag, go through until the nonce is exhausted;
    rekeying both ends keeps them paired and does not reset the nonce. *)
Class SnowLaws `{Snow} := {
  ts_paired : Z -> TransportState -> TransportState -> Prop;
  ts_deliver : forall n a b p cap,
    ts_paired n a b -> 0 <= n < U64_MAX -> zlen p + TAG_LEN <= MAX_CIPHERTEXT ->
    zlen p + TAG_LEN <= cap ->
    exists a' c, ts_write a p cap = Some (a', c) /\ zlen c = zlen p + TAG_LEN /\
      forall cap', zlen p <= cap' ->
        exists b', ts_read b c cap' = Some (b', p) /\ ts_paired (n + 1) a' b';
  ts_rekey : forall n a b,
    ts_paired n a b -> ts_paired n (ts_rekey_outgoing a) (ts_rekey_incoming b);
}.

(** noise/core.rs:15-19 EndpointRole. *)
Inductive EndpointRole := ClientInitiator | DaemonResponder.

(** noise/core.rs:21-30 HandshakePhase. *)
Inductive HandshakePhase :=
| WriteOne | ReadOne | WriteTwo | ReadTwo | AwaitAuthorization | Transport | PhaseClosed.

#[export] Instance HandshakePhase_eq_dec : EqDecision HandshakePhase.
Proof. solve_decision. Defined.

(** noise/core.rs:32-42 TranscriptAuthorizationRequest. *)
Record TranscriptAuthorizationRequest := mkAuthRequest {
  ar_child_attempt_id : bytes;
  ar_transport_epoch : Z;
  ar_handshake_hash : bytes;
  ar_prologue_digest : bytes;
  ar_connection_nonce : bytes;
  ar_initiator_ephemeral : bytes;
  ar_responder_ephemeral : bytes;
  ar_client_final_proof : bytes;
  ar_daemon_final_proof : bytes;
}.

Section child.
Context `{Snow} `{Sha256}.

(** noise/core.rs:62-79 NoiseChild. *)
Record NoiseChild := mkChild {
  nc_role : EndpointRole;
  nc_phase : HandshakePhase;
  nc_prologue : RemoteNoisePrologueV1;
  nc_transport_epoch : Z;
  nc_handshake : option HandshakeState;
  nc_transport : option TransportState;
  nc_initiator_ephemeral : option bytes;
  nc_responder_ephemeral : option bytes;
  nc_send_sequence : Z;
  nc_receive_sequence : Z;
  nc_send_rekey : DirectionalRekey;
  nc_receive_rekey : DirectionalRekey;
  nc_pending_control_action : option RekeyAction;
  nc_last_control_ciphertext : option (RekeyAction * bytes * bytes);
  nc_fallback_route_generation : option Z;
  nc_closed_due_to_failure : bool;
}.

(** Field updates. *)
Definition with_phase (c : NoiseChild) (p : HandshakePhase) : NoiseChild :=
  mkChild (nc_role c) p (nc_prologue c) (nc_transport_epoch c) (nc_handshake c) (nc_transport c)
    (nc_initiator_ephemeral c) (nc_responder_ephemeral c) (nc_send_sequence c)
    (nc_receive_sequence c) (nc_send_rekey c) (nc_receive_rekey c) (nc_pending_control_action c)
    (nc_last_control_ciphertext c) (nc_fallback_route_generation c) (nc_closed_due_to_failure c).
Definition with_noise (c : NoiseChild) (h : option HandshakeState) (t : option TransportState) :=
  mkChild (nc_role c) (nc_phase c) (nc_prologue c) (nc_transport_epoch c) h t
    (nc_initiator_ephemeral c) (nc_responder_ephemeral c) (nc_send_sequence c)
    (nc_receive_sequence c) (nc_send_rekey c) (nc_receive_rekey c) (nc_pending_control_action c)
    (nc_last_control_ciphertext c) (nc_fallback_route_generation c) (nc_closed_due_to_failure c).
Definition with_ephemerals (c : NoiseChild) (i r : option bytes) : NoiseChild :=
  mkChild (nc_role c) (nc_phase c) (nc_prologue c) (nc_transport_epoch c) (nc_handshake c)
    (nc_transport c) i r (nc_send_sequence c)
    (nc_receive_sequence c) (nc_send_rekey c) (nc_receive_rekey c) (nc_pending_control_action c)
    (nc_last_control_ciphertext c) (nc_fallback_route_generation c) (nc_closed_due_to_failure c).
Definition with_sequences (c : NoiseChild) (s r : Z) : NoiseChild :=
  mkChild (nc_role c) (nc_phase c) (nc_prologue c) (nc_transport_epoch c) (nc_handshake c)
    (nc_transport c) (nc_initiator_ephemeral c) (nc_responder_ephemeral c) s r
    (nc_send_rekey c) (nc_receive_rekey c) (nc_pending_control_action c)
    (nc_last_control_ciphertext c) (nc_fallback_route_generation c) (nc_closed_due_to_failure c).
Definition with_rekeys (c : NoiseChild) (s r : DirectionalRekey) : NoiseChild :=
  mkChild (nc_role c) (nc_phase c) (nc_prologue c) (nc_transport_epoch c) (nc_handshake c)
    (nc_transport c) (nc_initiator_ephemeral c) (nc_responder_ephemeral c) (nc_send_sequence c)
    (nc_receive_sequence c) s r (nc_pending_control_action c)
    (nc_last_control_ciphertext c) (nc_fallback_route_generation c) (nc_closed_due_to_failure c).
Definition with_control (c : NoiseChild) (p : option RekeyAction)
    (l : option (RekeyAction * bytes * bytes)) : NoiseChild :=
  mkChild (nc_role c) (nc_phase c) (nc_prologue c) (nc_transport_epoch c) (nc_handshake c)
    (nc_transport c) (nc_initiator_ephemeral c) (nc_responder_ephemeral c) (nc_send_sequence c)
    (nc_receive_sequence c) (nc_send_rekey c) (nc_receive_rekey c) p l
    (nc_fallback_route_generation c) (nc_closed_due_to_failure c).
Definition with_route (c : NoiseChild) (g : option Z) : NoiseChild :=
  mkChild (nc_role c) (nc_phase c) (nc_prologue c) (nc_transport_epoch c) (nc_handshake c)
    (nc_transport c) (nc_initiator_ephemeral c) (nc_responder_ephemeral c) (nc_send_sequence c)
    (nc_receive_sequence c) (nc_send_rekey c) (nc_receive_rekey c) (nc_pending_control_action c)
    (nc_last_control_ciphertext c) g (nc_closed_due_to_failure c).
Definition with_failure (c : NoiseChild) (f : bool) : NoiseChild :=
  mkChild (nc_role c) (nc_phase c) (nc_prologue c) (nc_transport_epoch c) (nc_handshake c)
    (nc_transport c) (nc_initiator_ephemeral c) (nc_responder_ephemeral c) (nc_send_sequence c)
    (nc_receive_sequence c) (nc_send_rekey c) (nc_receive_rekey c) (nc_pending_control_action c)
    (nc_last_control_ciphertext c) (nc_fallback_route_generation c) f.

(** ** The state-and-error monad *)

Definition child_m (A : Type) : Type := NoiseChild -> NoiseChild * NoiseResult A.
Definition child_ret {A} (a : A) : child_m A := fun c => (c, Ok a).
Definition child_bind {A B} (m : child_m A) (f : A -> child_m B) : child_m B := fun c =>
  match m c with
  | (c', Ok a) => f a c'
  | (c', Err e) => (c', Err e)
  | (c', Panic) => (c', Panic)
  end.
(** [self.field] reads and writes, and [?] on a plain [Result]. *)
Definition child_get : child_m NoiseChild := fun c => (c, Ok c).
Definition child_set (f : NoiseChild -> NoiseChild) : child_m unit := fun c => (f c, Ok tt).
Definition lift {A} (r : NoiseResult A) : child_m A := fun c => (c, r).

#[export] Instance child_mbind : MBind child_m := fun A B f m => child_bind m f.

(** noise/core.rs:501-510 NoiseChild::close. *)
Definition child_close (c : NoiseChild) : NoiseChild :=
  with_route (with_control (with_sequences (with_phase (with_noise c None None) PhaseClosed) 0 0)
    None None) None.

(** noise/core.rs:547-552 NoiseChild::fail. *)
Definition child_fail {A} (error : NoiseError) : child_m A := fun c =>
  let closed_due_to_failure := bool_decide (nc_phase c = Transport) in
  (with_failure (child_close c) closed_due_to_failure, Err error).

(** noise/core.rs:554-560 NoiseChild::invalid_state. *)
Definition invalid_state {A} : child_m A := fun c =>
  if bool_decide (nc_phase c = PhaseClosed) && nc_closed_due_to_failure c
  then (c, Err NoiseClosed)
  else child_fail InvalidState c.

(** [match r { Ok(v) => v, Err(e) => return self.fail(e) }]. *)
Definition or_fail {A} (r : NoiseResult A) : child_m A :=
  match r with Ok a => child_ret a | Err e => child_fail e | Panic => lift Panic end.

(** noise/core.rs:98-136 NoiseChild::new. [SUITE] is a constant the library accepts. *)
Definition child_new (role : EndpointRole) (prologue_bytes : bytes) (transport_epoch : Z)
    : NoiseResult NoiseChild :=
  prologue ← prologue_decode prologue_bytes;
  handshake ← ok_or (snow_build (match role with ClientInitiator => true | DaemonResponder => false end)
                       prologue_bytes) CryptoUnavailable;
  send_rekey ← rekey_new (match role with ClientInitiator => 1 | DaemonResponder => 2 end);
  receive_rekey ← rekey_new (match role with ClientInitiator => 2 | DaemonResponder => 1 end);
  Ok (mkChild role (match role with ClientInitiator => WriteOne | DaemonResponder => ReadOne end)
        prologue transport_epoch (Some handshake) None None None 0 0 send_rekey receive_rekey
        None None None false).

(** noise/core.rs:82-88 NoiseChild::initiator. *)
Definition child_initiator (prologue_bytes : bytes) (transport_epoch : Z) : NoiseResult NoiseChild :=
  child_new ClientInitiator prologue_bytes transport_epoch.
(** noise/core.rs:90-96 NoiseChild::responder. *)
Definition child_responder (prologue_bytes : bytes) (transport_epoch : Z) : NoiseResult NoiseChild :=
  child_new DaemonResponder prologue_bytes transport_epoch.
(** noise/core.rs:512-516 NoiseChild::handshake_hash. *)
Definition handshake_hash (c : NoiseChild) : option bytes :=
  match nc_handshake c with
  | Some state => if zlen (hs_hash state) =? 32 then Some (hs_hash state) else None
  | None => None
  end.
(** noise/core.rs:518-521 NoiseChild::endpoint_role. *)
Definition endpoint_role (c : NoiseChild) : EndpointRole := nc_role c.
(** noise/core.rs:523-526 NoiseChild::next_send_sequence. *)
Definition next_send_sequence (c : NoiseChild) : Z := nc_send_sequence c.
(** noise/core.rs:542-545 NoiseChild::fallback_route_generation. *)
Definition fallback_route_generation (c : NoiseChild) : option Z := nc_fallback_route_generation c.

(** noise/core.rs:202-221 NoiseChild::capture_ephemeral. The slot is replaced even when it
    was occupied; the caller then fails. *)
Definition capture_ephemeral (idx : Z) (message : bytes) (initiator responder : option bytes)
    : (option bytes * option bytes) * NoiseResult unit :=
  match get_range message 0 32 with
  | None => ((initiator, responder), Err InvalidHandshakeFrame)
  | Some key =>
      if is_all_zero key then ((initiator, responder), Err LowOrderKey) else
      let occupied := if idx =? 1 then initiator else responder in
      ((if idx =? 1 then (Some key, responder) else (initiator, Some key)),
       match occupied with Some _ => Err InvalidState | None => Ok tt end)
  end.

(** [Self::capture_ephemeral(index, message, &mut self.initiator_ephemeral, ...)] and
    its failure branch. *)
Definition capture_or_fail (idx : Z) (message : bytes) : child_m unit := fun c =>
  let '((i, r), res) :=
    capture_ephemeral idx message (nc_initiator_ephemeral c) (nc_responder_ephemeral c) in
  or_fail res (with_ephemerals c i r).

(** noise/core.rs:138-165 NoiseChild::write_handshake. *)
Definition write_handshake : child_m bytes :=
  self ← child_get;
  let go idx :=
    state ← lift (ok_or (nc_handshake self) InvalidState);
    '(state, output) ← or_fail (ok_or (hs_write state [] MAX_HANDSHAKE_MESSAGE) AuthenticationFailed);
    child_set (fun c => with_noise c (Some state) (nc_transport c)) ;;
    capture_or_fail idx output ;;
    child_set (fun c => with_phase c (if idx =? 1 then ReadTwo else AwaitAuthorization)) ;;
    lift (handshake_encode idx output) in
  match nc_phase self with
  | WriteOne => go 1
  | WriteTwo => go 2
  | _ => invalid_state
  end.

(** noise/core.rs:167-200 NoiseChild::read_handshake. *)
Definition read_handshake (framed : bytes) : child_m unit :=
  self ← child_get;
  let go expected :=
    frame ← or_fail (handshake_decode framed expected);
    capture_or_fail expected (hf_message frame) ;;
    state ← lift (ok_or (nc_handshake self) InvalidState);
    '(state, payload) ← or_fail (ok_or (hs_read state (hf_message frame) 1) AuthenticationFailed);
    child_set (fun c => with_noise c (Some state) (nc_transport c)) ;;
    if negb (zlen payload =? 0) then child_fail HandshakePayloadForbidden else
    child_set (fun c => with_phase c (if expected =? 1 then WriteTwo else AwaitAuthorization)) in
  match nc_phase self with
  | ReadOne => go 1
  | ReadTwo => go 2
  | _ => invalid_state
  end.

(** noise/core.rs:223-265 NoiseChild::authorize. The gate is the caller's. *)
Definition authorize (gate : TranscriptAuthorizationRequest -> NoiseResult unit)
    (client_final_proof daemon_final_proof : bytes) : child_m unit :=
  self ← child_get;
  if negb (bool_decide (nc_phase self = AwaitAuthorization))
     || (zlen client_final_proof =? 0) || (zlen daemon_final_proof =? 0)
  then child_fail AuthorizationDenied else
  state ← lift (ok_or (nc_handshake self) InvalidState);
  if negb (hs_finished state) then invalid_state else
  handshake_hash ← lift (if zlen (hs_hash state) =? 32 then Ok (hs_hash state) else Err InvalidState);
  initiator ← lift (ok_or (nc_initiator_ephemeral self) InvalidState);
  responder ← lift (ok_or (nc_responder_ephemeral self) InvalidState);
  let request :=
    mkAuthRequest (pl_child_attempt_id (nc_prologue self)) (nc_transport_epoch self) handshake_hash
      (prologue_digest (nc_prologue self)) (pl_connection_nonce (nc_prologue self))
      initiator responder client_final_proof daemon_final_proof in
  match gate request with
  | Err _ => child_fail AuthorizationDenied
  | Panic => lift Panic
  | Ok _ =>
      child_set (fun c => with_noise c None (nc_transport c)) ;;
      transport ← or_fail (ok_or (hs_into_transport state) AuthenticationFailed);
      child_set (fun c => with_phase (with_noise c (nc_handshake c) (Some transport)) Transport)
  end.

(** [actions.iter().find_map(...)]: the sequence of the first [Open] action. *)
Fixpoint find_open (actions : list RekeyAction) : option Z :=
  match actions with
  | [] => None
  | ActOpen sequence _ :: _ => Some sequence
  | _ :: actions => find_open actions
  end.

(** [self.send_rekey.reduce(event)] and the receive side; the reducer's state change
    survives its error. *)
Definition reduce_send (event : RekeyEvent) : child_m (list RekeyAction) := fun c =>
  let '(d, r) := rekey_reduce (nc_send_rekey c) event in
  or_fail r (with_rekeys c d (nc_receive_rekey c)).
Definition reduce_receive (event : RekeyEvent) : child_m (list RekeyAction) := fun c =>
  let '(d, r) := rekey_reduce (nc_receive_rekey c) event in
  or_fail r (with_rekeys c (nc_send_rekey c) d).

(** [self.receive_rekey.admit_authenticated_peer_record(...)] and
    [self.send_rekey.reserve_generated_commit()], with their failure branches. *)
Definition admit_receive (kind : RecordKind) (data_bytes : Z) : child_m unit := fun c =>
  let '(d, r) := admit_authenticated_peer_record (nc_receive_rekey c) kind data_bytes in
  or_fail r (with_rekeys c (nc_send_rekey c) d).
Definition reserve_send : child_m Z := fun c =>
  let '(d, r) := reserve_generated_commit (nc_send_rekey c) in
  or_fail r (with_rekeys c d (nc_receive_rekey c)).

(** [self.send_sequence = self.send_sequence.checked_add(1).ok_or(SequenceExhausted)?]. *)
Definition bump_send : child_m unit :=
  self ← child_get;
  next ← lift (ok_or (checked_add (nc_send_sequence self) 1) SequenceExhausted);
  child_set (fun c => with_sequences c next (nc_receive_sequence c)).
Definition bump_receive : child_m unit :=
  self ← child_get;
  next ← lift (ok_or (checked_add (nc_receive_sequence self) 1) SequenceExhausted);
  child_set (fun c => with_sequences c (nc_send_sequence c) next).

(** [state.write_message(&plaintext, &mut ciphertext)] and its failure branch. *)
Definition transport_write (plaintext : bytes) : child_m bytes :=
  self ← child_get;
  state ← lift (ok_or (nc_transport self) InvalidState);
  '(state, ciphertext) ← or_fail (ok_or (ts_write state plaintext MAX_CIPHERTEXT) AuthenticationFailed);
  child_set (fun c => with_noise c (nc_handshake c) (Some state)) ;;
  child_ret ciphertext.

(** noise/core.rs:267-312 NoiseChild::encrypt_record. *)
Definition encrypt_record (kind : RecordKind) (payload : bytes) : child_m bytes :=
  self ← child_get;
  if negb (bool_decide (nc_phase self = Transport)) then invalid_state else
  if MAX_PAYLOAD <? zlen payload then lift (Err RecordTooLarge) else
  actions ← reduce_send (LocalRecordRequest kind (zlen payload));
  sequence ← lift (ok_or (find_open actions) BudgetExceeded);
  if negb (sequence =? nc_send_sequence self) then child_fail SequenceMismatch else
  plaintext ← lift (encode_plaintext (mkNoiseRecord kind sequence payload));
  ciphertext ← transport_write plaintext;
  if MAX_CIPHERTEXT <? zlen ciphertext then child_fail RecordTooLarge else
  bump_send ;;
  child_ret ciphertext.

(** noise/core.rs:314-358 NoiseChild::decrypt_record. *)
Definition decrypt_record (routing_sequence : Z) (ciphertext : bytes) : child_m RemoteNoiseRecordV1 :=
  self ← child_get;
  if negb (bool_decide (nc_phase self = Transport)) then invalid_state else
  if MAX_CIPHERTEXT <? zlen ciphertext then child_fail RecordTooLarge else
  if negb (routing_sequence =? nc_receive_sequence self) then child_fail SequenceMismatch else
  state ← lift (ok_or (nc_transport self) InvalidState);
  '(state, plaintext) ← or_fail (ok_or (ts_read state ciphertext MAX_PLAINTEXT) AuthenticationFailed);
  child_set (fun c => with_noise c (nc_handshake c) (Some state)) ;;
  record ← or_fail (decode_plaintext plaintext routing_sequence);
  admit_receive (nr_kind record) (zlen (nr_payload record)) ;;
  bump_receive ;;
  child_ret record.

(** noise/core.rs:370-449 NoiseChild::encrypt_rekey_action_with_prefix. *)
Definition encrypt_rekey_action_with_prefix (action : RekeyAction) (authenticated_prefix : bytes)
    : child_m bytes :=
  self ← child_get;
  if negb (bool_decide (nc_phase self = Transport)) then invalid_state else
  let fresh :=
    if negb (bool_decide (nc_pending_control_action self = Some action)) then child_fail InvalidRekey else
    '(kind, sequence, control_payload) ← match action with
      | SendPrepare prepare =>
          sequence ← lift (if 1 <=? dr_absolute_sequence (nc_send_rekey self)
                           then Ok (dr_absolute_sequence (nc_send_rekey self) - 1)
                           else Err InvalidRekey);
          child_ret (RekeyPrepare, sequence, prepare_encode prepare)
      | SendCommit direction key_epoch =>
          sequence ← reserve_send;
          child_ret (RekeyCommit, sequence, direction :: to_be 4 key_epoch)
      | _ => child_fail InvalidRekey
      end;
    if negb (sequence =? nc_send_sequence self) then child_fail SequenceMismatch else
    plaintext ← lift (encode_plaintext (mkNoiseRecord kind sequence (authenticated_prefix ++ control_payload)));
    ciphertext ← transport_write plaintext;
    bump_send ;;
    child_set (fun c => with_control c None (Some (action, authenticated_prefix, ciphertext))) ;;
    child_ret ciphertext in
  match nc_last_control_ciphertext self with
  | Some (prior, prefix, ciphertext) =>
      if bool_decide (prior = action) && bool_decide (prefix = authenticated_prefix)
      then child_ret ciphertext else fresh
  | None => fresh
  end.

(** noise/core.rs:363-365 NoiseChild::encrypt_rekey_action. *)
Definition encrypt_rekey_action (action : RekeyAction) : child_m bytes :=
  encrypt_rekey_action_with_prefix action [].

(** [self.transport.as_mut().ok_or(InvalidState)?.rekey_...()]. *)
Definition rekey_transport (f : TransportState -> TransportState) : child_m unit :=
  self ← child_get;
  state ← lift (ok_or (nc_transport self) InvalidState);
  child_set (fun c => with_noise c (nc_handshake c) (Some (f state))).

(** The loop over the actions of [handle_send_rekey_event]. *)
Fixpoint perform_send (actions : list RekeyAction) : child_m unit :=
  match actions with
  | [] => child_ret tt
  | action :: actions =>
      (match action with
        | SendPrepare _ => child_set (fun c => with_control c (Some action) (nc_last_control_ciphertext c))
        | ApplySendRekey _ => rekey_transport ts_rekey_outgoing
        | ApplyReceiveRekey _ => invalid_state
        | _ => child_ret tt
        end) ;;
      perform_send actions
  end.

(** noise/core.rs:451-474 NoiseChild::handle_send_rekey_event. *)
Definition handle_send_rekey_event (event : RekeyEvent) : child_m (list RekeyAction) :=
  self ← child_get;
  if negb (bool_decide (nc_phase self = Transport)) then invalid_state else
  actions ← reduce_send event;
  perform_send actions ;;
  child_ret actions.

(** The loop over the actions of [handle_receive_rekey_event]. *)
Fixpoint perform_receive (actions : list RekeyAction) : child_m unit :=
  match actions with
  | [] => child_ret tt
  | action :: actions =>
      (match action with
        | SendCommit _ _ => child_set (fun c => with_control c (Some action) (nc_last_control_ciphertext c))
        | ApplyReceiveRekey _ => rekey_transport ts_rekey_incoming
        | ApplySendRekey _ => invalid_state
        | _ => child_ret tt
        end) ;;
      perform_receive actions
  end.

(** noise/core.rs:476-499 NoiseChild::handle_receive_rekey_event. *)
Definition handle_receive_rekey_event (event : RekeyEvent) : child_m (list RekeyAction) :=
  self ← child_get;
  if negb (bool_decide (nc_phase self = Transport)) then invalid_state else
  actions ← reduce_receive event;
  perform_receive actions ;;
  child_ret actions.

(** noise/core.rs:528-540 NoiseChild::bind_fallback_route_generation. *)
Definition bind_fallback_route_generation (route_generation : Z) : child_m unit :=
  self ← child_get;
  if negb (bool_decide (nc_phase self = Transport)) || (route_generation =? 0)
  then child_fail InvalidFallback else
  match nc_fallback_route_generation self with
  | None => child_set (fun c => with_route c (Some route_generation))
  | Some prior => if prior =? route_generation then child_ret tt else child_fail InvalidFallback
  end.

(** ** Executions *)

(** The public methods of the child. *)
Inductive child_op :=
| OpWriteHandshake
| OpReadHandshake (framed : bytes)
| OpAuthorize (gate : TranscriptAuthorizationRequest -> NoiseResult unit) (client daemon : bytes)
| OpEncrypt (kind : RecordKind) (payload : bytes)
| OpDecrypt (routing_sequence : Z) (ciphertext : bytes)
| OpRekeyAction (action : RekeyAction) (prefix : bytes)
| OpSendEvent (event : RekeyEvent)
| OpReceiveEvent (event : RekeyEvent)
| OpBindRoute (route_generation : Z)
| OpClose.

Definition child_apply (c : NoiseChild) (op : child_op) : NoiseChild * NoiseResult unit :=
  let done {A} (x : NoiseChild * NoiseResult A) := (x.1, x.2 ≫= fun _ => Ok tt) in
  match op with
  | OpWriteHandshake => done (write_handshake c)
  | OpReadHandshake framed => done (read_handshake framed c)
  | OpAuthorize gate client daemon => done (authorize gate client daemon c)
  | OpEncrypt kind payload => done (encrypt_record kind payload c)
  | OpDecrypt seq ct => done (decrypt_record seq ct c)
  | OpRekeyAction action prefix => done (encrypt_rekey_action_with_prefix action prefix c)
  | OpSendEvent event => done (handle_send_rekey_event event c)
  | OpReceiveEvent event => done (handle_receive_rekey_event event c)
  | OpBindRoute g => done (bind_fallback_route_generation g c)
  | OpClose => (child_close c, Ok tt)
  end.

Definition run_child (c : NoiseChild) (ops : list child_op) : NoiseChild :=
  foldl (fun c op => (child_apply c op).1) c ops.

(** ** What every method preserves *)

(** An ephemeral key that was captured: 32 bytes, not the all-zero point. *)
Definition captured (k : option bytes) : Prop :=
  forall b, k = Some b -> zlen b = 32 /\ is_all_zero b = false.

(** The prologue and epoch are fixed at construction, captured keys stay sound, and no
    step but a granted authorization enters the transport phase. *)
Record child_step (c c' : NoiseChild) : Prop := {
  cs_prologue : nc_prologue c' = nc_prologue c;
  cs_epoch : nc_transport_epoch c' = nc_transport_epoch c;
  cs_transport : nc_phase c' = Transport -> nc_phase c = Transport;
  cs_initiator : captured (nc_initiator_ephemeral c) -> captured (nc_initiator_ephemeral c');
  cs_responder : captured (nc_responder_ephemeral c) -> captured (nc_responder_ephemeral c');
}.

#[local] Instance child_step_preorder : PreOrder child_step.
Proof using Type.
  split.
  - by intros c.
  - intros c1 c2 c3 [H1 H2 H3 H4 H5] [K1 K2 K3 K4 K5]. split; try congruence; auto.
Qed.

(** [m] moves the child by [child_step] from every state [c] with [P c]. *)
Definition respects {A} (P : NoiseChild -> Prop) (m : child_m A) : Prop :=
  forall c, P c -> child_step c (m c).1.

Lemma respects_bind {A B} P (m : child_m A) (f : A -> child_m B) :
  respects P m -> (forall a, respects (fun c => exists c0, P c0 /\ m c0 = (c, Ok a)) (f a)) ->
  respects P (m ≫= f).
Proof using Type.
  intros Hm Hf c Hc. unfold mbind, child_mbind, child_bind. specialize (Hm c Hc).
  destruct (m c) as [c' [a|e|]] eqn:Hmc; cbn in *; [|done..]. etransitivity; [exact Hm|].
  apply Hf. by exists c.
Qed.

Lemma respects_weaken {A} (P Q : NoiseChild -> Prop) (m : child_m A) :
  (forall c, P c -> Q c) -> respects Q m -> respects P m.
Proof using Type. intros HPQ Hm c Hc. by apply Hm, HPQ. Qed.

Lemma respects_any {A} P (m : child_m A) : respects (fun _ => True) m -> respects P m.
Proof using Type. by apply respects_weaken. Qed.

Lemma respects_ret {A} P (a : A) : respects P (child_ret a).
Proof using Type. intros c _. reflexivity. Qed.
Lemma respects_get P : respects P child_get.
Proof using Type. intros c _. reflexivity. Qed.
Lemma respects_lift {A} P (r : NoiseResult A) : respects P (lift r).
Proof using Type. intros c _. reflexivity. Qed.
Lemma respects_fail {A} P e : respects P (child_fail (A:=A) e).
Proof using Type. intros c _. split; try done; cbn. Qed.
Lemma respects_invalid {A} P : respects P (invalid_state (A:=A)).
Proof using Type. intros c _. unfold invalid_state. destruct (_ && _); [reflexivity|by apply (respects_fail (fun _ => True))]. Qed.
Lemma respects_or_fail {A} P (r : NoiseResult A) : respects P (or_fail r).
Proof using Type. destruct r; [apply respects_ret|apply respects_fail|apply respects_lift]. Qed.
Lemma respects_set P f : (forall c, P c -> child_step c (f c)) -> respects P (child_set f).
Proof using Type. intros Hf c Hc. by apply Hf. Qed.

(** Updates of the fields the step relation does not mention. *)
Lemma step_noise c h t : child_step c (with_noise c h t).
Proof using Type. by split. Qed.
Lemma step_rekeys c s r : child_step c (with_rekeys c s r).
Proof using Type. by split. Qed.

Lemma respects_rekeys {A} P (r : NoiseChild -> DirectionalRekey * DirectionalRekey * NoiseResult A) :
  respects P (fun c => or_fail (r c).2 (with_rekeys c (r c).1.1 (r c).1.2)).
Proof using Type.
  intros c _. etransitivity; [apply step_rekeys|]. by apply (respects_or_fail (fun _ => True)).
Qed.

Lemma respects_reduce_send P ev : respects P (reduce_send ev).
Proof using Type.
  intros c Hc. unfold reduce_send. destruct (rekey_reduce _ _) as [d r].
  by apply (respects_rekeys P (fun c => (d, nc_receive_rekey c, r))).
Qed.
Lemma respects_reduce_receive P ev : respects P (reduce_receive ev).
Proof using Type.
  intros c Hc. unfold reduce_receive. destruct (rekey_reduce _ _) as [d r].
  by apply (respects_rekeys P (fun c => (nc_send_rekey c, d, r))).
Qed.
Lemma respects_admit P k n : respects P (admit_receive k n).
Proof using Type.
  intros c Hc. unfold admit_receive. destruct (admit_authenticated_peer_record _ _ _) as [d r].
  by apply (respects_rekeys P (fun c => (nc_send_rekey c, d, r))).
Qed.
Lemma respects_reserve P : respects P reserve_send.
Proof using Type.
  intros c Hc. unfold reserve_send. destruct (reserve_generated_commit _) as [d r].
  by apply (respects_rekeys P (fun c => (d, nc_receive_rekey c, r))).
Qed.

Lemma respects_capture P idx m : respects P (capture_or_fail idx m).
Proof using Type.
  intros c _. unfold capture_or_fail, capture_ephemeral, get_range.
  destruct (slice m 0 32) as [key| |] eqn:Hs;
    [|by etransitivity; [|apply (respects_or_fail (fun _ => True))]; [split|]..].
  apply slice_inv in Hs as [Hl _]. destruct (is_all_zero key) eqn:Hz;
    [by etransitivity; [|apply (respects_or_fail (fun _ => True))]; [split|]|].
  destruct (idx =? 1); (etransitivity; [|by apply (respects_or_fail (fun _ => True))]);
    (split; cbn; try done; intros _ b [= <-]; split; [lia|done]).
Qed.

Ltac respects_step :=
  match goal with
  | |- respects _ (_ ≫= _) => apply respects_bind; [|intros ?]
  | |- respects _ (let '(_, _) := ?x in _) => destruct x
  | |- respects _ (if ?b then _ else _) => destruct b eqn:?
  | |- respects _ (child_ret _) => apply respects_ret
  | |- respects _ child_get => apply respects_get
  | |- respects _ (lift _) => apply respects_lift
  | |- respects _ (child_fail _) => apply respects_fail
  | |- respects _ invalid_state => apply respects_invalid
  | |- respects _ (or_fail _) => apply respects_or_fail
  | |- respects _ (reduce_send _) => apply respects_reduce_send
  | |- respects _ (reduce_receive _) => apply respects_reduce_receive
  | |- respects _ (admit_receive _ _) => apply respects_admit
  | |- respects _ reserve_send => apply respects_reserve
  | |- respects _ (capture_or_fail _ _) => apply respects_capture
  | |- respects _ (child_set (fun c => with_noise _ _ _)) => apply respects_set; intros; apply step_noise
  | |- respects _ (child_set (fun c => with_sequences _ _ _)) => apply respects_set; by intros
  | |- respects _ (child_set (fun c => with_control _ _ _)) => apply respects_set; by intros
  | |- respects _ (child_set (fun c => with_route _ _)) => apply respects_set; by intros
  | |- respects _ (child_set (fun c => with_phase c _)) => apply respects_set; intros; split; cbn; by try case_match
  | |- respects _ (match ?x with _ => _ end) => destruct x eqn:?
  end.
Ltac respects_tac := repeat respects_step.

Lemma respects_encrypt P k p : respects P (encrypt_record k p).
Proof using Type. unfold encrypt_record, transport_write, bump_send. respects_tac. Qed.
Lemma respects_decrypt P q b : respects P (decrypt_record q b).
Proof using Type. unfold decrypt_record, bump_receive. respects_tac. Qed.
Lemma respects_rekey_action P a b : respects P (encrypt_rekey_action_with_prefix a b).
Proof using Type. unfold encrypt_rekey_action_with_prefix, transport_write, bump_send. respects_tac. Qed.
Lemma respects_perform_send acts : forall P, respects P (perform_send acts).
Proof using Type.
  induction acts as [|a acts IH]; intros P; cbn; [apply respects_ret|].
  apply respects_bind; [|intros ?; apply IH]. unfold rekey_transport. respects_tac.
Qed.
Lemma respects_perform_receive acts : forall P, respects P (perform_receive acts).
Proof using Type.
  induction acts as [|a acts IH]; intros P; cbn; [apply respects_ret|].
  apply respects_bind; [|intros ?; apply IH]. unfold rekey_transport. respects_tac.
Qed.

Lemma respects_write P : respects P write_handshake.
Proof using Type. unfold write_handshake. respects_tac. Qed.
Lemma respects_read P b : respects P (read_handshake b).
Proof using Type. unfold read_handshake. respects_tac. Qed.

(** What a granted authorization presented to the gate. *)
Definition granted (c : NoiseChild) (gate : TranscriptAuthorizationRequest -> NoiseResult unit)
    (client daemon : bytes) : Prop :=
  exists state i r, nc_handshake c = Some state /\ hs_finished state = true /\
    nc_initiator_ephemeral c = Some i /\ nc_responder_ephemeral c = Some r /\
    client <> [] /\ daemon <> [] /\
    gate (mkAuthRequest (pl_child_attempt_id (nc_prologue c)) (nc_transport_epoch c) (hs_hash state)
            (prologue_digest (nc_prologue c)) (pl_connection_nonce (nc_prologue c))
            i r client daemon) = Ok tt.

(** Authorization steps like every other method, except that a grant enters the
    transport phase. *)
Lemma authorize_step gate client daemon c :
  let c' := (authorize gate client daemon c).1 in
  nc_prologue c' = nc_prologue c /\ nc_transport_epoch c' = nc_transport_epoch c /\
  nc_initiator_ephemeral c' = nc_initiator_ephemeral c /\
  nc_responder_ephemeral c' = nc_responder_ephemeral c /\
  (nc_phase c' = Transport ->
   nc_phase c = AwaitAuthorization /\ granted c gate client daemon /\
   (authorize gate client daemon c).2 = Ok tt).
Proof using Type.
  unfold authorize, mbind, child_mbind, child_bind, child_get, lift. cbn.
  case_bool_decide as Hph; cbn [negb orb]; [|by split_and!].
  destruct (Z.eqb_spec (zlen client) 0) as [|Hc]; [by split_and!|].
  destruct (Z.eqb_spec (zlen daemon) 0) as [|Hd]; [by split_and!|]. cbn [orb].
  destruct (nc_handshake c) as [state|] eqn:Hs; cbn; [|by split_and!; try done; intros; congruence].
  destruct (hs_finished state) eqn:Hf; cbn.
  2: { unfold invalid_state. rewrite Hph. cbn. by split_and!. }
  destruct (zlen (hs_hash state) =? 32); cbn; [|by split_and!; try done; intros; congruence].
  destruct (nc_initiator_ephemeral c) as [i|] eqn:Hi; cbn; [|by split_and!; try done; intros; congruence].
  destruct (nc_responder_ephemeral c) as [r|] eqn:Hr; cbn; [|by split_and!; try done; intros; congruence].
  destruct (gate _) as [[]|e|] eqn:Hg; cbn; [|by split_and!|by split_and!; try done; intros; congruence].
  destruct (hs_into_transport state) as [t|]; cbn; [|by split_and!].
  split_and!; try done. intros _. split; [done|]. split; [|done].
  exists state, i, r. split_and!; try done; intros ->; done.
Qed.

Lemma respects_bind_route P g : respects P (bind_fallback_route_generation g).
Proof using Type. unfold bind_fallback_route_generation. respects_tac. Qed.
Lemma respects_send_event P ev : respects P (handle_send_rekey_event ev).
Proof using Type.
  unfold handle_send_rekey_event. respects_tac. apply respects_perform_send.
Qed.
Lemma respects_receive_event P ev : respects P (handle_receive_rekey_event ev).
Proof using Type.
  unfold handle_receive_rekey_event. respects_tac. apply respects_perform_receive.
Qed.

Lemma child_apply_step c op :
  child_step c (child_apply c op).1 \/
  exists gate client daemon, op = OpAuthorize gate client daemon /\ granted c gate client daemon /\
    (child_apply c op).2 = Ok tt.
Proof using Type.
  destruct op as [|b|gate cl dm|k p|q b|a b|ev|ev|g|]; cbn.
  - left. by apply (respects_write (fun _ => True)).
  - left. by apply (respects_read (fun _ => True)).
  - destruct (authorize_step gate cl dm c) as (H1 & H2 & H3 & H4 & H5).
    destruct (decide (nc_phase (authorize gate cl dm c).1 = Transport)) as [Ht|Ht].
    + right. destruct (H5 Ht) as (_ & Hg & Hr). exists gate, cl, dm. split; [done|]. split; [done|].
      by rewrite Hr.
    + left. split; try done; by rewrite ?H3, ?H4.
  - left. by apply (respects_encrypt (fun _ => True)).
  - left. by apply (respects_decrypt (fun _ => True)).
  - left. by apply (respects_rekey_action (fun _ => True)).
  - left. by apply (respects_send_event (fun _ => True)).
  - left. by apply (respects_receive_event (fun _ => True)).
  - left. by apply (respects_bind_route (fun _ => True)).
  - left. by split.
Qed.

(** The invariant along a run: construction parameters fixed, captured keys sound. *)
Lemma run_child_facts c ops :
  captured (nc_initiator_ephemeral c) -> captured (nc_responder_ephemeral c) ->
  let c' := run_child c ops in
  nc_prologue c' = nc_prologue c /\ nc_transport_epoch c' = nc_transport_epoch c /\
  captured (nc_initiator_ephemeral c') /\ captured (nc_responder_ephemeral c').
Proof using Type.
  intros Hi Hr. induction ops as [|op ops IH] using rev_ind; [done|].
  unfold run_child in *. rewrite foldl_app. cbn. set (c1 := foldl _ c ops) in *.
  destruct IH as (I1 & I2 & I3 & I4).
  assert (nc_prologue (child_apply c1 op).1 = nc_prologue c1 /\
    nc_transport_epoch (child_apply c1 op).1 = nc_transport_epoch c1 /\
    captured (nc_initiator_ephemeral (child_apply c1 op).1) /\
    captured (nc_responder_ephemeral (child_apply c1 op).1)) as (K1 & K2 & K3 & K4).
  { destruct (child_apply_step c1 op) as [[S1 S2 _ S4 S5]|(g & cl & dm & -> & _ & _)]; [auto|].
    destruct (authorize_step g cl dm c1) as (H1 & H2 & H3 & H4 & _). cbn.
    rewrite H1, H2, H3, H4. auto. }
  split; [congruence|]. split; [congruence|]. done.
Qed.

(** A child that encrypts or decrypts a record. *)
Definition handles_record (c : NoiseChild) : Prop :=
  (exists kind payload ct, (encrypt_record kind payload c).2 = Ok ct) \/
  (exists seq ct record, (decrypt_record seq ct c).2 = Ok record).

Lemma handles_record_phase c : handles_record c -> nc_phase c = Transport.
Proof using Type.
  assert (forall A, exists e, (invalid_state (A:=A) c).2 = Err e) as Hinv.
  { intros A. unfold invalid_state. destruct (_ && _); cbn; eauto. }
  intros [(k & p & ct & Ho)|(q & ct & r & Ho)];
    (destruct (decide (nc_phase c = Transport)) as [|Hp]; [done|exfalso]).
  - unfold encrypt_record, mbind, child_mbind, child_bind, child_get in Ho.
    rewrite bool_decide_eq_false_2 in Ho by done. cbn [negb] in Ho. by destruct (Hinv bytes) as [e He]; congruence.
  - unfold decrypt_record, mbind, child_mbind, child_bind, child_get in Ho.
    rewrite bool_decide_eq_false_2 in Ho by done. cbn [negb] in Ho.
    by destruct (Hinv RemoteNoiseRecordV1) as [e He]; congruence.
Qed.

(** C21: No application record before authorization: from construction, over any
    sequence of calls, a child that encrypts or decrypts a record got there by one
    authorization call whose gate accepted this child's own transcript: its attempt
    id, epoch, prologue digest and nonce, the finished handshake's hash, the
    initiator's and the responder's ephemeral key as this child captured them (32 bytes,
    not all zero), and two non-empty final proofs. *)
Theorem transport_requires_authorization (role : EndpointRole) (prologue_bytes : bytes) (epoch : Z)
    (c : NoiseChild) (ops : list child_op) :
  child_new role prologue_bytes epoch = Ok c -> handles_record (run_child c ops) ->
  exists pre gate client daemon post request state,
    ops = pre ++ OpAuthorize gate client daemon :: post /\
    gate request = Ok tt /\
    nc_handshake (run_child c pre) = Some state /\ hs_finished state = true /\
    ar_handshake_hash request = hs_hash state /\
    prologue_decode prologue_bytes = Ok (nc_prologue c) /\
    ar_child_attempt_id request = pl_child_attempt_id (nc_prologue c) /\
    ar_transport_epoch request = epoch /\
    ar_prologue_digest request = prologue_digest (nc_prologue c) /\
    ar_connection_nonce request = pl_connection_nonce (nc_prologue c) /\
    nc_initiator_ephemeral (run_child c pre) = Some (ar_initiator_ephemeral request) /\
    nc_responder_ephemeral (run_child c pre) = Some (ar_responder_ephemeral request) /\
    captured (Some (ar_initiator_ephemeral request)) /\
    captured (Some (ar_responder_ephemeral request)) /\
    ar_client_final_proof request = client /\ client <> [] /\
    ar_daemon_final_proof request = daemon /\ daemon <> [].
Proof using Type.
  intros Hn Hrec. apply handles_record_phase in Hrec. revert Hrec.
  unfold child_new in Hn. ok_inv Hn. subst c. set (c := mkChild _ _ _ _ _ _ _ _ _ _ _ _ _ _ _ _).
  assert (nc_phase c <> Transport) as Hp0 by (by destruct role).
  induction ops as [|op ops IH] using rev_ind; [done|].
  unfold run_child. rewrite foldl_app. cbn. fold (run_child c ops). intros Ht.
  destruct (child_apply_step (run_child c ops) op) as [Hs|(gate & cl & dm & -> & Hg & _)].
  - destruct (IH (cs_transport _ _ Hs Ht)) as (pre & g & cl & dm & post & req & st & -> & Hrest).
    exists pre, g, cl, dm, (post ++ [op]), req, st. split; [by rewrite <- app_assoc|done].
  - destruct (run_child_facts c ops) as (F1 & F2 & F3 & F4); [done..|].
    destruct Hg as (st & i & r & Hst & Hf & Hi & Hr & Hcl & Hdm & Hok).
    eexists ops, gate, cl, dm, [], _, st. split; [done|]. split; [exact Hok|]. cbn.
    rewrite F1, F2. rewrite Hi in F3. rewrite Hr in F4. by split_and!.
Qed.

(** The sequence counters advance by one below their maximum. *)
Lemma bump_send_run c :
  nc_send_sequence c < U64_MAX ->
  bump_send c = (with_sequences c (nc_send_sequence c + 1) (nc_receive_sequence c), Ok tt).
Proof using Type.
  intros Hs. unfold bump_send, mbind, child_mbind, child_bind, child_get, lift, checked_add.
  by rewrite (proj2 (Z.leb_le _ _)) by lia.
Qed.
Lemma bump_receive_run c :
  nc_receive_sequence c < U64_MAX ->
  bump_receive c = (with_sequences c (nc_send_sequence c) (nc_receive_sequence c + 1), Ok tt).
Proof using Type.
  intros Hs. unfold bump_receive, mbind, child_mbind, child_bind, child_get, lift, checked_add.
  by rewrite (proj2 (Z.leb_le _ _)) by lia.
Qed.

(** A closed child refuses every call and stays closed. *)
Lemma child_closed_step c op :
  nc_phase c = PhaseClosed ->
  nc_phase (child_apply c op).1 = PhaseClosed /\
  (op <> OpClose -> exists e, (child_apply c op).2 = Err e).
Proof using Type.
  intros Hp. assert (forall A, nc_phase (invalid_state (A:=A) c).1 = PhaseClosed /\
    exists e, (invalid_state (A:=A) c).2 = Err e) as Hinv.
  { intros A. unfold invalid_state. destruct (_ && _); cbn; eauto. }
  assert (bool_decide (nc_phase c = Transport) = false) as Hb by (apply bool_decide_eq_false_2; congruence).
  assert (bool_decide (nc_phase c = AwaitAuthorization) = false) as Hb2
    by (apply bool_decide_eq_false_2; congruence).
  destruct op; cbn; unfold write_handshake, read_handshake, authorize, encrypt_record, decrypt_record,
    encrypt_rekey_action_with_prefix, handle_send_rekey_event, handle_receive_rekey_event,
    bind_fallback_route_generation, mbind, child_mbind, child_bind, child_get;
    cbn -[invalid_state]; rewrite ?Hb, ?Hb2, ?Hp; cbn -[invalid_state];
    try (destruct (Hinv bytes) as [? [e He]]; rewrite He; by eauto);
    try (destruct (Hinv unit) as [? [e He]]; rewrite He; by eauto);
    try (destruct (Hinv RemoteNoiseRecordV1) as [? [e He]]; rewrite He; by eauto);
    try (destruct (Hinv (list RekeyAction)) as [? [e He]]; rewrite He; by eauto);
    eauto.
  by split.
Qed.

Lemma child_closed_run c ops : nc_phase c = PhaseClosed -> nc_phase (run_child c ops) = PhaseClosed.
Proof using Type.
  revert c. induction ops as [|op ops IH]; intros c Hc; [done|]. apply IH. by apply child_closed_step.
Qed.

(** Decryption fails closed: in the transport phase, a record that does not decrypt,
    decode or fit the budget, arrives out of its routing sequence or is too long
    drops the keys and closes the child, which then refuses every further call. *)
Theorem decrypt_fails_closed (c c' : NoiseChild) (seq : Z) (ct : bytes) (e : NoiseError)
    (ops : list child_op) (op : child_op) :
  nc_phase c = Transport -> nc_transport c <> None -> nc_receive_sequence c < U64_MAX ->
  decrypt_record seq ct c = (c', Err e) -> op <> OpClose ->
  nc_phase c' = PhaseClosed /\ nc_transport c' = None /\ nc_closed_due_to_failure c' = true /\
  nc_phase (run_child c' ops) = PhaseClosed /\
  exists e', (child_apply (run_child c' ops) op).2 = Err e'.
Proof using Type.
  intros Hp Ht Hs Hd Hop.
  assert (exists c0 A, nc_phase c0 = Transport /\ (c', Err e) = child_fail (A:=A) e c0) as (c0 & A & Hp0 & Hf).
  { unfold decrypt_record, mbind, child_mbind, child_bind, child_get, lift in Hd.
    cbn -[checked_add] in Hd. rewrite bool_decide_eq_true_2 in Hd by done. cbn -[checked_add] in Hd.
    destruct (MAX_CIPHERTEXT <? zlen ct); [by exists c, RemoteNoiseRecordV1; split; [|rewrite <- Hd; injection Hd as <- <-]|].
    destruct (negb _); [by exists c, RemoteNoiseRecordV1; split; [|rewrite <- Hd; injection Hd as <- <-]|].
    destruct (nc_transport c) as [t|]; [|done]. cbn -[checked_add] in Hd.
    destruct (ts_read t ct MAX_PLAINTEXT) as [[t' pl]|]; cbn -[checked_add] in Hd;
      [|by exists c, RemoteNoiseRecordV1; split; [|rewrite <- Hd; injection Hd as <- <-]].
    destruct (decode_plaintext pl seq) as [r|er|]; cbn -[checked_add] in Hd;
      [|by exists (with_noise c (nc_handshake c) (Some t')), RemoteNoiseRecordV1; split; [|rewrite <- Hd; injection Hd as <- <-]|done].
    unfold admit_receive in Hd. cbn -[checked_add] in Hd.
    destruct (admit_authenticated_peer_record _ _ _) as [d [[]|er|]]; cbn -[checked_add] in Hd; [| |done].
    - by rewrite bump_receive_run in Hd.
    - exists (with_rekeys (with_noise c (nc_handshake c) (Some t')) (nc_send_rekey c) d), RemoteNoiseRecordV1.
      split; [|rewrite <- Hd; injection Hd as <- <-]; done. }
  unfold child_fail in Hf. injection Hf as ->. cbn.
  assert (nc_phase (with_failure (child_close c0) (bool_decide (nc_phase c0 = Transport))) = PhaseClosed)
    as Hc by done.
  pose proof (child_closed_run _ ops Hc) as Hrun.
  split; [done|]. split; [done|]. split; [by apply bool_decide_eq_true_2|]. split; [done|].
  by apply child_closed_step.
Qed.

End child.

(** noise/core.rs:656-683 final_proof_binding_bytes. *)
Definition final_proof_binding_bytes (role : Z) (child_attempt_id : bytes) (transport_epoch : Z)
    (initiator_ephemeral responder_ephemeral prologue_digest handshake_hash connection_nonce
     grant_digest policy_digest : bytes) (peer_certificate_generation : Z) : bytes :=
  ascii_bytes "flycockpit-remote-endpoint-final-proof-noise-v1" ++ [0] ++ [role] ++ child_attempt_id
    ++ to_be 4 transport_epoch ++ initiator_ephemeral ++ responder_ephemeral ++ prologue_digest
    ++ handshake_hash ++ connection_nonce ++ grant_digest ++ policy_digest
    ++ to_be 8 peer_certificate_generation.

(** noise/core.rs:690-717 final_proof_binding_digest. *)
Definition final_proof_binding_digest `{Sha256} (role : Z) (child_attempt_id : bytes) (transport_epoch : Z)
    (initiator_ephemeral responder_ephemeral prologue_digest handshake_hash connection_nonce
     grant_digest policy_digest : bytes) (peer_certificate_generation : Z) : bytes :=
  sha256 (final_proof_binding_bytes role child_attempt_id transport_epoch initiator_ephemeral
            responder_ephemeral prologue_digest handshake_hash connection_nonce grant_digest
            policy_digest peer_certificate_generation).

(** The arguments of the final-proof binding, as their types size them. *)
Record proof_binding := mkBinding {
  pb_role : Z; pb_attempt : bytes; pb_epoch : Z; pb_initiator : bytes; pb_responder : bytes;
  pb_prologue : bytes; pb_hash : bytes; pb_nonce : bytes; pb_grant : bytes; pb_policy : bytes;
  pb_generation : Z;
}.
Record wf_binding (p : proof_binding) : Prop := {
  wpb_attempt : length (pb_attempt p) = 16%nat;
  wpb_epoch : is_u32 (pb_epoch p);
  wpb_keys : Forall (fun b => length b = 32%nat)
    [pb_initiator p; pb_responder p; pb_prologue p; pb_hash p; pb_nonce p; pb_grant p; pb_policy p];
  wpb_generation : is_u64 (pb_generation p);
}.
Definition binding_bytes (p : proof_binding) : bytes :=
  final_proof_binding_bytes (pb_role p) (pb_attempt p) (pb_epoch p) (pb_initiator p) (pb_responder p)
    (pb_prologue p) (pb_hash p) (pb_nonce p) (pb_grant p) (pb_policy p) (pb_generation p).

Lemma to_be_inj n x y : 0 <= x < 256 ^ Z.of_nat n -> 0 <= y < 256 ^ Z.of_nat n -> to_be n x = to_be n y -> x = y.
Proof.
  intros Hx Hy He. rewrite <- (from_be_to_be_small n x), <- (from_be_to_be_small n y) by done. by rewrite He.
Qed.

(** The final proof binds every field: two bindings with the same bytes are the same
    binding, so no two transcripts share a proof. *)
Theorem final_proof_binding_injective (p q : proof_binding) :
  wf_binding p -> wf_binding q -> binding_bytes p = binding_bytes q -> p = q.
Proof.
  intros [P1 P2 P3 P4] [Q1 Q2 Q3 Q4] Heq.
  repeat match goal with H : Forall _ (_ :: _) |- _ => apply Forall_cons in H as [? H] end.
  unfold binding_bytes, final_proof_binding_bytes in Heq. apply app_inv_head in Heq.
  apply app_inv_head in Heq. apply app_inj_1 in Heq as [[= Hrole] Heq]; [|done].
  repeat (apply app_inj_1 in Heq as [? Heq]; [|rewrite ?length_to_be; congruence]).
  unfold is_u32, is_u64, U32_MAX, U64_MAX in *.
  destruct p, q; cbn -[to_be] in *. f_equal; try congruence;
    (eapply to_be_inj; [..|eassumption];
     [change (256 ^ Z.of_nat 4) with 4294967296 || change (256 ^ Z.of_nat 8) with 18446744073709551616; lia..]).
Qed.
