(* ===== verification/NoiseChannel.v ===== *)
(** Two ends of a Noise child connection: what one encrypts the other decrypts, in
    order, and what the rekey barrier does when it runs over the connection.

    The theorems are about [encrypt_record] and [decrypt_record]
    ([cockpit-noise/src/core.rs]) composed through any Noise library that satisfies
    [SnowLaws]. *)

From S2P Require Import Prelude.
From S2P Require Import ProtocolId.
From S2P Require Import NoiseRecord.
From S2P Require Import NoiseRekey.
From S2P Require Import NoisePrologue.
From S2P Require Import NoiseChild.
From stdpp Require Import options.
Set Warnings "-clear-no-such-hyp".

(** ** The two rekey reducers of one direction *)

(** The receiver has counted what the sender has sent. *)
Definition mirror (s r : DirectionalRekey) : Prop :=
  in_step s r /\ dr_records_under_key s = dr_records_under_key r /\
  dr_application_bytes s = dr_application_bytes r /\
  (dr_state s = DOpen -> dr_state r = DOpen).

Lemma reduce_local d kind n :
  dr_state d <> DClosed ->
  rekey_reduce d (LocalRecordRequest kind n) =
    match local_record_request d kind n with
    | (d', Err e) => (set_state d' DClosed, Err e)
    | dr => dr
    end.
Proof.
  intros Hst. unfold rekey_reduce. rewrite bool_decide_eq_false_2 by done. cbn [rekey_dispatch].
  by destruct (local_record_request d kind n) as [d' [a|e|]].
Qed.

(** What a local request did, when it was not an error. *)
Lemma local_request_inv d kind n d' acts :
  rekey_inv d -> 0 <= n -> local_record_request d kind n = (d', Ok acts) ->
  (find_open acts = None /\ exists st, d' = set_state d st /\ st <> DOpen) \/
  (find_open acts = Some (dr_absolute_sequence d) /\ dr_state d = DOpen /\
   dr_absolute_sequence d < HARD_SEQUENCE_LIMIT /\ dr_records_under_key d < MAX_RECORDS /\
   (kind = Data -> data_over_budget d n = false) /\
   exists st, d' = set_state (set_counters d (dr_absolute_sequence d + 1)
     (dr_records_under_key d + 1) (dr_application_bytes d + (if bool_decide (kind = Data) then n else 0))) st /\
     (st = DOpen -> kind <> Close)).
Proof.
  intros Hi Hn. unfold local_record_request.
  case_bool_decide as Hst; cbn [negb]; [|done].
  destruct (Z.leb_spec HARD_SEQUENCE_LIMIT (dr_absolute_sequence d)); [intros [= <- <-]; left; eauto|].
  pose proof (ki_bytes d Hi) as Hby.
  case_bool_decide as Hk.
  { destruct (Z.leb_spec MAX_RECORDS (dr_records_under_key d)); [done|].
    rewrite consume_ok by (done || lia). intros [= <- <-]. right. subst kind. split_and!; try done.
    exists DClosed. split; [done|done]. }
  case_bool_decide as Hk2; [done|]. destruct (_ || _) eqn:Hbud; [intros [= <- <-]; left; eauto|].
  apply orb_false_iff in Hbud as [Hrec Hdat]. apply Z.leb_gt in Hrec. unfold LAST_OPEN_RECORD in Hrec.
  assert (kind = Data -> data_over_budget d n = false) as Hover.
  { intros ->. by rewrite bool_decide_eq_true_2 in Hdat by done. }
  rewrite consume_ok; [|done|lia|by case_bool_decide|case_bool_decide; [|lia]; by apply data_over_false; auto].
  intros [= <- <-]. right. split_and!; try done; [lia|]. exists (dr_state d). split; [|done]. by destruct d.
Qed.

(** The receiver admits what a mirrored sender opened. *)
Lemma admit_mirror r kind n :
  rekey_inv r -> 0 <= n -> dr_state r = DOpen -> dr_absolute_sequence r < HARD_SEQUENCE_LIMIT ->
  dr_records_under_key r < MAX_RECORDS -> (kind = Data -> data_over_budget r n = false) ->
  admit_authenticated_peer_record r kind n =
    (set_state (set_counters r (dr_absolute_sequence r + 1) (dr_records_under_key r + 1)
       (dr_application_bytes r + (if bool_decide (kind = Data) then n else 0)))
       (if bool_decide (kind = Close) then DClosed else DOpen), Ok tt).
Proof.
  intros Hi Hn Hst Hs Hr Hd. unfold admit_authenticated_peer_record. pose proof (ki_bytes r Hi).
  rewrite bool_decide_eq_false_2 by congruence. rewrite (proj2 (Z.leb_gt _ _)) by lia. cbn [orb].
  rewrite (proj2 (Z.leb_gt _ _)) by lia. rewrite (bool_decide_eq_true_2 (dr_state r = DOpen)) by done.
  cbn [negb orb]. rewrite andb_false_r.
  replace (bool_decide (kind = Data) && data_over_budget r n) with false
    by (symmetry; case_bool_decide; auto).
  rewrite consume_ok; [|done|lia|by case_bool_decide|case_bool_decide; [|lia]; by apply data_over_false; auto].
  case_bool_decide as Hk; [done|]. rewrite <- Hst. by destruct r.
Qed.

Lemma data_over_mirror s r n : dr_application_bytes s = dr_application_bytes r ->
  data_over_budget s n = data_over_budget r n.
Proof. unfold data_over_budget. by intros ->. Qed.

(** One local request against its mirrored receiver. *)
Lemma local_then_admit s r kind n s' acts :
  rekey_inv s -> rekey_inv r -> mirror s r -> 0 <= n ->
  rekey_reduce s (LocalRecordRequest kind n) = (s', Ok acts) ->
  (find_open acts = None /\ mirror s' r /\ dr_absolute_sequence s' = dr_absolute_sequence s) \/
  (find_open acts = Some (dr_absolute_sequence s) /\
   dr_absolute_sequence s' = dr_absolute_sequence s + 1 /\
   exists r', admit_authenticated_peer_record r kind n = (r', Ok tt) /\ mirror s' r').
Proof.
  intros Is Ir ((M1 & M2 & M3) & M4 & M5 & M6) Hn Hred.
  destruct (decide (dr_state s = DClosed)) as [Hcl|Hcl].
  { unfold rekey_reduce in Hred. by rewrite bool_decide_eq_true_2 in Hred by done. }
  rewrite reduce_local in Hred by done.
  destruct (local_record_request s kind n) as [d1 [a|e|]] eqn:Hl; [|done..]. injection Hred as -> ->.
  destruct (local_request_inv s kind n s' acts Is Hn Hl)
    as [(Hf & st & -> & Hst)|(Hf & Ho & Hs & Hr & Hd & st & -> & Hst)].
  - left. split; [done|]. split; [|done]. split; [done|]. split; [done|]. by split.
  - right. split; [done|]. split; [done|]. rewrite M3 in Hs. rewrite M4 in Hr.
    rewrite admit_mirror; try done; [|auto|intros Hk; rewrite <- (data_over_mirror s); auto].
    eexists. split; [done|]. split; [unfold in_step; cbn; lia|]. split; [cbn; lia|]. split; [cbn; lia|].
    cbn. intros ->. by rewrite bool_decide_eq_false_2 by auto.
Qed.

Section channel.
Context `{Hsnow : Snow} `{Hlaws : !SnowLaws}.

(** ** The link between two children *)

(** [x] has encrypted [n] records that [y] has decrypted. *)
Record linked (n : Z) (x y : NoiseChild) : Prop := {
  lk_phase_x : nc_phase x = Transport;
  lk_phase_y : nc_phase y = Transport;
  lk_noise : exists a b, nc_transport x = Some a /\ nc_transport y = Some b /\ ts_paired n a b;
  lk_send : nc_send_sequence x = n;
  lk_receive : nc_receive_sequence y = n;
  lk_inv_x : rekey_inv (nc_send_rekey x);
  lk_inv_y : rekey_inv (nc_receive_rekey y);
  lk_mirror : mirror (nc_send_rekey x) (nc_receive_rekey y);
  lk_count : dr_absolute_sequence (nc_send_rekey x) = n;
}.

Lemma transport_write_run c a a' p ct :
  nc_transport c = Some a -> ts_write a p MAX_CIPHERTEXT = Some (a', ct) ->
  transport_write p c = (with_noise c (nc_handshake c) (Some a'), Ok ct).
Proof using Type.
  intros Hc Hw. unfold transport_write, mbind, child_mbind, child_bind, child_get, lift.
  rewrite Hc. cbn. by rewrite Hw.
Qed.

(** The decrypting end, on a message the other end wrote for a record it can admit. *)
Lemma decrypt_run n x y ct record b b' d :
  nc_phase y = Transport -> nc_receive_sequence y = n -> n < U64_MAX ->
  zlen ct <= MAX_CIPHERTEXT -> nc_transport y = Some b ->
  encode_plaintext record = Ok x -> wf_record record -> nr_sequence record = n ->
  ts_read b ct MAX_PLAINTEXT = Some (b', x) ->
  admit_authenticated_peer_record (nc_receive_rekey y) (nr_kind record) (zlen (nr_payload record))
    = (d, Ok tt) ->
  decrypt_record n ct y =
    (with_sequences (with_rekeys (with_noise y (nc_handshake y) (Some b')) (nc_send_rekey y) d)
       (nc_send_sequence y) (n + 1), Ok record).
Proof using Type.
  intros Hp Hn Hmax Hct Hb He Hwf Hseq Hrd Had.
  unfold decrypt_record, mbind, child_mbind, child_bind, child_get, lift.
  rewrite bool_decide_eq_true_2 by done. cbn [negb]. rewrite (proj2 (Z.ltb_ge _ _)) by lia.
  rewrite Hn, Z.eqb_refl. cbn [negb]. rewrite Hb. cbn [ok_or]. rewrite Hrd. cbn [ok_or or_fail child_ret child_set].
  destruct (record_decode_encode record n Hwf) as (b0 & He' & _ & Hdec).
  rewrite He in He'. apply Ok_inj in He'. subst b0. rewrite Hdec, Hseq, Z.eqb_refl. cbn [or_fail child_ret].
  unfold admit_receive. cbn [nc_receive_rekey with_noise]. rewrite Had. cbn [or_fail child_ret].
  rewrite bump_receive_run by (cbn; lia). cbn. by rewrite Hn.
Qed.

Lemma linked_count_bound n x y : linked n x y -> 0 <= n < U64_MAX.
Proof using Type.
  intros L. pose proof (ki_sequence _ (lk_inv_x _ _ _ L)) as Hs. rewrite (lk_count _ _ _ L) in Hs.
  unfold HARD_SEQUENCE_LIMIT, U64_MAX in *. lia.
Qed.

(** The encrypting end, when its reducer opened sequence [n]: what it wrote, and what
    the other end reads. *)
Lemma encrypt_run n x y kind payload s' acts :
  linked n x y -> all_u8 payload -> zlen payload <= MAX_PAYLOAD ->
  rekey_reduce (nc_send_rekey x) (LocalRecordRequest kind (zlen payload)) = (s', Ok acts) ->
  find_open acts = Some n ->
  exists a' b b' ct pt,
    encrypt_record kind payload x =
      (with_sequences (with_noise (with_rekeys x s' (nc_receive_rekey x)) (nc_handshake x) (Some a'))
         (n + 1) (nc_receive_sequence x), Ok ct) /\
    encode_plaintext (mkNoiseRecord kind n payload) = Ok pt /\ zlen ct <= MAX_CIPHERTEXT /\
    nc_transport y = Some b /\ ts_read b ct MAX_PLAINTEXT = Some (b', pt) /\ ts_paired (n + 1) a' b'.
Proof using Type.
  intros L Hu Hpl Hred Hf. pose proof (linked_count_bound _ _ _ L) as Hn.
  destruct L as [Px Py (a & b & Ha & Hb & Hab) Hsend Hrecv Ix Iy Hm Hc].
  assert (wf_record (mkNoiseRecord kind n payload)) as Hwf.
  { split; [unfold is_u64; cbn; lia|]. by split. }
  destruct (record_decode_encode _ n Hwf) as (pt & He & Hptl & _).
  destruct (ts_deliver n a b pt MAX_CIPHERTEXT Hab Hn Hptl Hptl) as (a' & ct & Hw & Hctl & Hread).
  destruct (Hread MAX_PLAINTEXT) as (b' & Hr & Hp').
  { unfold MAX_PLAINTEXT, TAG_LEN in *. lia. }
  exists a', b, b', ct, pt. split; [|split_and!; (done || lia)].
  unfold encrypt_record, mbind, child_mbind, child_bind, child_get, lift, reduce_send.
  rewrite bool_decide_eq_true_2 by done. cbn [negb]. rewrite (proj2 (Z.ltb_ge _ _)) by lia.
  rewrite Hred. cbn [or_fail child_ret]. rewrite Hf. cbn [ok_or]. rewrite Hsend, Z.eqb_refl. cbn [negb].
  rewrite He. rewrite (transport_write_run _ a a' pt ct) by done.
  rewrite (proj2 (Z.ltb_ge _ _)) by lia. rewrite bump_send_run by (cbn; lia). cbn. by rewrite Hsend.
Qed.

(** One record over the link. *)
Lemma linked_send n x y kind payload :
  linked n x y -> all_u8 payload ->
  match encrypt_record kind payload x with
  | (x', Ok ct) => exists y', decrypt_record n ct y = (y', Ok (mkNoiseRecord kind n payload)) /\
      linked (n + 1) x' y'
  | (x', Err _) => linked n x' y \/ nc_phase x' = PhaseClosed
  | (_, Panic) => False
  end.
Proof using Type.
  intros L Hu. pose proof (linked_count_bound _ _ _ L) as Hn. pose proof (zlen_nonneg payload) as Hz.
  destruct (Z.ltb_spec MAX_PAYLOAD (zlen payload)) as [Hpl|Hpl].
  { unfold encrypt_record, mbind, child_mbind, child_bind, child_get, lift.
    rewrite bool_decide_eq_true_2 by apply L. cbn [negb]. rewrite (proj2 (Z.ltb_lt _ _)) by lia. by left. }
  pose proof (rekey_reduce_spec _ (LocalRecordRequest kind (zlen payload)) (lk_inv_x _ _ _ L) Hz) as Hspec.
  pose proof (encrypt_run n x y kind payload) as Hrun.
  pose proof L as [Px Py Hnoise Hsend Hrecv Ix Iy Hm Hc].
  destruct (rekey_reduce (nc_send_rekey x) _) as [s' [acts|e|]] eqn:Hred; [| |by destruct Hspec as (_ & ? & _)].
  2: { unfold encrypt_record, mbind, child_mbind, child_bind, child_get, reduce_send.
       rewrite bool_decide_eq_true_2 by done. cbn [negb]. rewrite (proj2 (Z.ltb_ge _ _)) by lia.
       rewrite Hred. by right. }
  destruct Hspec as (Is' & _).
  destruct (local_then_admit _ _ _ _ _ _ Ix Iy Hm Hz Hred)
    as [(Hf & Hm' & Hc')|(Hf & Hc' & r' & Had & Hm')].
  { unfold encrypt_record, mbind, child_mbind, child_bind, child_get, lift, reduce_send.
    rewrite bool_decide_eq_true_2 by done. cbn [negb]. rewrite (proj2 (Z.ltb_ge _ _)) by lia.
    rewrite Hred. cbn [or_fail child_ret]. rewrite Hf. cbn [ok_or]. left. split; cbn; (done || lia). }
  rewrite Hc in Hf.
  destruct (Hrun s' acts L Hu Hpl eq_refl Hf) as (a' & b & b' & ct & pt & -> & He & Hct & Hb & Hr & Hp').
  eexists. split.
  { apply (decrypt_run n pt y ct _ b b' r'); try done; [lia|].
    split; [unfold is_u64; cbn; lia|]. by split. }
  pose proof (admit_spec _ kind (zlen payload) Iy Hz) as Hsp. rewrite Had in Hsp.
  split; cbn; try done; [by exists a', b'|by destruct Hsp|lia].
Qed.

(** ** A conversation in one direction *)

(** The sender's calls, keeping the ciphertexts of the records it accepted. *)
Fixpoint send_all (x : NoiseChild) (msgs : list (RecordKind * bytes))
    : list ((RecordKind * bytes) * bytes) :=
  match msgs with
  | [] => []
  | (kind, payload) :: msgs =>
      match encrypt_record kind payload x with
      | (x', Ok ct) => ((kind, payload), ct) :: send_all x' msgs
      | (x', _) => send_all x' msgs
      end
  end.

(** The receiver's calls, with consecutive routing sequences. *)
Fixpoint receive_all (y : NoiseChild) (n : Z) (cts : list bytes) : list (NoiseResult RemoteNoiseRecordV1) :=
  match cts with
  | [] => []
  | ct :: cts => let '(y', r) := decrypt_record n ct y in r :: receive_all y' (n + 1) cts
  end.

(** The records the sender meant, numbered from [n]. *)
Fixpoint numbered (n : Z) (msgs : list (RecordKind * bytes)) : list RemoteNoiseRecordV1 :=
  match msgs with
  | [] => []
  | (kind, payload) :: msgs => mkNoiseRecord kind n payload :: numbered (n + 1) msgs
  end.

Lemma send_all_closed x msgs : nc_phase x = PhaseClosed -> send_all x msgs = [].
Proof using Type.
  revert x. induction msgs as [|[k p] msgs IH]; intros x Hx; cbn; [done|].
  assert (exists e, (encrypt_record k p x).2 = Err e /\ nc_phase (encrypt_record k p x).1 = PhaseClosed) as (e & He & Hp).
  { unfold encrypt_record, mbind, child_mbind, child_bind, child_get.
    rewrite bool_decide_eq_false_2 by congruence. cbn [negb]. unfold invalid_state.
    destruct (_ && _); cbn; eauto. }
  destruct (encrypt_record k p x) as [x' r]. cbn in *. subst r. by apply IH.
Qed.

Lemma send_receive n x y msgs :
  linked n x y -> Forall (fun m => all_u8 m.2) msgs ->
  receive_all y n (map snd (send_all x msgs)) = map Ok (numbered n (map fst (send_all x msgs))).
Proof using Type.
  intros L Hu. revert n x y L. induction Hu as [|[k p] msgs Hp Hu IH]; intros n x y L; cbn; [done|].
  pose proof (linked_send n x y k p L Hp) as Hs. destruct (encrypt_record k p x) as [x' [ct|e|]]; [| |done].
  - destruct Hs as (y' & Hd & L'). cbn. rewrite Hd. f_equal. by apply IH.
  - destruct Hs as [L'|Hcl]; [by apply IH|]. by rewrite send_all_closed.
Qed.

(** Enough budget for a batch of records under the current key. *)
Fixpoint payload_bytes (msgs : list (RecordKind * bytes)) : Z :=
  match msgs with [] => 0 | (_, p) :: msgs => zlen p + payload_bytes msgs end.

Definition batch_fits (d : DirectionalRekey) (msgs : list (RecordKind * bytes)) : Prop :=
  dr_records_under_key d + zlen msgs <= LAST_OPEN_RECORD /\
  dr_absolute_sequence d + zlen msgs <= HARD_SEQUENCE_LIMIT /\
  dr_application_bytes d + payload_bytes msgs <= MAX_APPLICATION_BYTES.

(** Application traffic of legal size. *)
Definition sendable (m : RecordKind * bytes) : Prop :=
  (m.1 = Data \/ m.1 = Ack) /\ all_u8 m.2 /\ zlen m.2 <= MAX_PAYLOAD.

Lemma payload_bytes_nonneg msgs : 0 <= payload_bytes msgs.
Proof using Type. induction msgs as [|[k p] msgs IH]; cbn; [done|]. pose proof (zlen_nonneg p). lia. Qed.

(** An open direction with budget left opens the next sequence. *)
Lemma local_request_opens d kind n :
  rekey_inv d -> dr_state d = DOpen -> kind = Data \/ kind = Ack -> 0 <= n ->
  dr_records_under_key d < LAST_OPEN_RECORD -> dr_absolute_sequence d < HARD_SEQUENCE_LIMIT ->
  dr_application_bytes d + n <= MAX_APPLICATION_BYTES ->
  rekey_reduce d (LocalRecordRequest kind n) =
    (set_counters d (dr_absolute_sequence d + 1) (dr_records_under_key d + 1)
       (dr_application_bytes d + (if bool_decide (kind = Data) then n else 0)),
     Ok [ActOpen (dr_absolute_sequence d) (dr_key_epoch d)]).
Proof using Type.
  intros Hi Hst Hk Hn Hr Hs Hb. rewrite reduce_local by congruence. unfold local_record_request.
  pose proof (ki_bytes d Hi) as Hby.
  rewrite (bool_decide_eq_true_2 (dr_state d = DOpen)) by done. cbn [negb].
  rewrite (proj2 (Z.leb_gt HARD_SEQUENCE_LIMIT _)) by lia.
  rewrite (bool_decide_eq_false_2 (kind = Close)) by (intros ->; naive_solver).
  rewrite (bool_decide_eq_false_2 (kind = RekeyPrepare \/ kind = RekeyCommit)) by naive_solver.
  rewrite (proj2 (Z.leb_gt LAST_OPEN_RECORD _)) by lia.
  assert (data_over_budget d n = false) as ->.
  { unfold data_over_budget, checked_add. unfold MAX_APPLICATION_BYTES, U64_MAX in *.
    rewrite (proj2 (Z.leb_le _ _)) by lia. apply Z.ltb_ge. lia. }
  rewrite andb_false_r. cbn [orb]. unfold LAST_OPEN_RECORD in Hr.
  by rewrite consume_ok by (done || lia || by case_bool_decide; lia).
Qed.

Lemma send_all_accepts n x y msgs :
  linked n x y -> dr_state (nc_send_rekey x) = DOpen -> batch_fits (nc_send_rekey x) msgs ->
  Forall sendable msgs -> map fst (send_all x msgs) = msgs.
Proof using Type.
  intros L Hst Hfit Hs. revert n x y L Hst Hfit.
  induction Hs as [|[k p] msgs (Hk & Hu & Hl) Hs IH]; intros n x y L Hst (F1 & F2 & F3); cbn; [done|].
  cbn [payload_bytes] in F3. rewrite zlen_cons in F1, F2. cbn [snd fst] in *.
  pose proof (zlen_nonneg msgs). pose proof (zlen_nonneg p). pose proof (payload_bytes_nonneg msgs).
  pose proof (local_request_opens _ k (zlen p) (lk_inv_x _ _ _ L) Hst Hk ltac:(lia) ltac:(lia) ltac:(lia) ltac:(lia)) as Hred.
  pose proof (linked_send n x y k p L Hu) as Hsend.
  destruct (encrypt_run n x y k p _ _ L Hu Hl Hred) as (a' & b & b' & ct & pt & He & _).
  { cbn. by rewrite (lk_count _ _ _ L). }
  rewrite He in *. destruct Hsend as (y' & _ & L'). cbn. f_equal. apply (IH (n + 1) _ y' L'); [done|].
  unfold batch_fits. cbn. split_and!; [lia|lia|]. case_bool_decide; lia.
Qed.

(** C23: The channel delivers in order: over a linked pair, the ciphertexts of whatever
    records the sender accepted decrypt at the receiver, in order, to exactly
    those records under consecutive sequence numbers; and a batch of application
    records within the key's budgets is accepted whole. *)
Theorem noise_channel_in_order (n : Z) (x y : NoiseChild) (msgs : list (RecordKind * bytes)) :
  linked n x y -> Forall (fun m => all_u8 m.2) msgs ->
  receive_all y n (map snd (send_all x msgs)) = map Ok (numbered n (map fst (send_all x msgs))) /\
  (dr_state (nc_send_rekey x) = DOpen -> batch_fits (nc_send_rekey x) msgs -> Forall sendable msgs ->
   receive_all y n (map snd (send_all x msgs)) = map Ok (numbered n msgs)).
Proof using Type.
  intros L Hu. pose proof (send_receive n x y msgs L Hu) as Hr. split; [done|].
  intros Hst Hfit Hs. by rewrite Hr, (send_all_accepts n x y).
Qed.

(** ** The rekey barrier over the connection *)

(** A receiver that has already counted the prepare's own record refuses it. *)
Lemma prepare_after_admission_refused r s k b :
  rekey_history r -> in_step s r -> dr_state r = DOpen -> dr_key_epoch s < U32_MAX ->
  rekey_reduce (set_counters r (dr_absolute_sequence r + 1) k b) (PeerPrepare (prepare_of s)) =
    (set_state (set_counters r (dr_absolute_sequence r + 1) k b) DClosed, Err InvalidRekey).
Proof using Type.
  intros Hh (Hd & He & Ha) Hst Hmax. unfold rekey_reduce.
  rewrite bool_decide_eq_false_2 by (cbn; congruence). cbn [rekey_dispatch]. unfold peer_prepare.
  cbn [dr_prior_prepare set_counters dr_pending_prepare dr_state dr_direction dr_key_epoch dr_absolute_sequence].
  assert (dr_pending_prepare r = None) as Hpend by (apply (kh_pending r Hh); auto).
  rewrite bool_decide_eq_false_2.
  2: { intros Hp. destruct (kh_prepare r Hh _ Hp) as [_ Hlt]. specialize (Hlt Hpend). cbn in Hlt. lia. }
  rewrite Hpend. rewrite bool_decide_eq_false_2 by (by intros [? ?]).
  rewrite bool_decide_eq_true_2 by auto. unfold prepare_of.
  cbn [rp_direction rp_key_epoch rp_next_key_epoch rp_through_sequence]. rewrite Hd, He, Ha, !Z.eqb_refl.
  cbn [negb orb]. unfold checked_add_u32. rewrite (proj2 (Z.leb_le _ _)) by lia.
  rewrite (proj2 (Z.eqb_neq (dr_absolute_sequence r - 1) _)) by lia. cbn [negb orb]. by rewrite orb_true_r.
Qed.

Lemma prepare_encode_wf p : wf_prepare p -> all_u8 (prepare_encode p) /\ zlen (prepare_encode p) = 17.
Proof using Type.
  intros (Hd & _). split; [|unfold prepare_encode; zlen_solve]. unfold prepare_encode.
  constructor; [destruct Hd as [-> | ->]; done|]. rewrite !Forall_app. by split_and!; apply to_be_u8.
Qed.

(** The sender's half: drain completes, the prepare is encrypted as record [n]. *)
Lemma prepare_sent n x y :
  linked n x y -> dr_state (nc_send_rekey x) = Draining -> dr_acked (nc_send_rekey x) = true ->
  wf_prepare (prepare_of (nc_send_rekey x)) ->
  0 < n -> dr_key_epoch (nc_send_rekey x) < U32_MAX -> dr_records_under_key (nc_send_rekey x) < MAX_RECORDS ->
  nc_last_control_ciphertext x = None ->
  let p := prepare_of (nc_send_rekey x) in
  exists x1 x2 b b' ct pt,
    handle_send_rekey_event ReassemblyEmpty x = (x1, Ok [SendPrepare p]) /\
    encrypt_rekey_action (SendPrepare p) x1 = (x2, Ok ct) /\
    encode_plaintext (mkNoiseRecord RekeyPrepare n (prepare_encode p)) = Ok pt /\
    zlen ct <= MAX_CIPHERTEXT /\ nc_transport y = Some b /\ ts_read b ct MAX_PLAINTEXT = Some (b', pt).
Proof using Type.
  intros L Hst Hack Hwp H0 Hep Hrec Hlast p. pose proof (linked_count_bound _ _ _ L) as Hn.
  destruct L as [Px Py (a & b & Ha & Hb & Hab) Hsend Hrecv Ix Iy Hm Hc].
  destruct (prepare_encode_wf p Hwp) as [Hpu Hpl].
  assert (wf_record (mkNoiseRecord RekeyPrepare n (prepare_encode p))) as Hwf.
  { split; [unfold is_u64; cbn -[prepare_encode]; lia|]. split; [done|]. cbn -[prepare_encode]. rewrite Hpl. done. }
  destruct (record_decode_encode _ n Hwf) as (pt & He & Hptl & _).
  destruct (ts_deliver n a b pt MAX_CIPHERTEXT Hab Hn Hptl Hptl) as (a' & ct & Hw & Hctl & Hread).
  destruct (Hread MAX_PLAINTEXT) as (b' & Hr & _).
  { unfold MAX_PLAINTEXT, TAG_LEN in *. lia. }
  pose proof (sender_prepares _ Ix Hst Hack ltac:(lia) Hep Hrec) as Hred. fold p in Hred.
  do 2 eexists. exists b, b', ct, pt. split; [|split; [|split_and!; (done || lia)]].
  - unfold handle_send_rekey_event, mbind, child_mbind, child_bind, child_get, reduce_send.
    rewrite bool_decide_eq_true_2 by done. cbn [negb]. rewrite Hred. reflexivity.
  - unfold encrypt_rekey_action, encrypt_rekey_action_with_prefix, mbind, child_mbind, child_bind, child_get, lift.
    cbn [nc_phase with_control with_rekeys nc_last_control_ciphertext nc_pending_control_action nc_send_rekey
      nc_send_sequence child_ret].
    rewrite Px, Hlast, !bool_decide_eq_true_2 by done. cbn [negb set_pending set_counters dr_absolute_sequence].
    rewrite Hc, (proj2 (Z.leb_le _ _)) by lia.
    replace (n + 1 - 1) with n by lia. cbn [child_ret]. rewrite Hsend, Z.eqb_refl. cbn [negb app]. rewrite He.
    rewrite (transport_write_run _ a a' pt ct) by done. rewrite bump_send_run by (cbn; lia). reflexivity.
Qed.

(** C38: A rekey over the connection cannot complete: the prepare record is itself
    counted when the receiver decrypts it, so the receiver's sequence is past the
    one the prepare names, the prepare event is refused as an invalid rekey and the
    receiver closes.  For any linked pair whose sender has drained, with any Noise
    library. *)
Theorem rekey_prepare_closes_receiver (n : Z) (x y : NoiseChild) :
  linked n x y -> rekey_history (nc_receive_rekey y) -> dr_state (nc_receive_rekey y) = DOpen ->
  dr_state (nc_send_rekey x) = Draining -> dr_acked (nc_send_rekey x) = true ->
  wf_prepare (prepare_of (nc_send_rekey x)) -> 0 < n < HARD_SEQUENCE_LIMIT ->
  dr_key_epoch (nc_send_rekey x) < U32_MAX -> dr_records_under_key (nc_send_rekey x) < MAX_RECORDS ->
  nc_last_control_ciphertext x = None ->
  let p := prepare_of (nc_send_rekey x) in
  exists x1 x2 y1 y2 ct,
    handle_send_rekey_event ReassemblyEmpty x = (x1, Ok [SendPrepare p]) /\
    encrypt_rekey_action (SendPrepare p) x1 = (x2, Ok ct) /\
    decrypt_record n ct y = (y1, Ok (mkNoiseRecord RekeyPrepare n (prepare_encode p))) /\
    prepare_decode (prepare_encode p) = Ok p /\
    handle_receive_rekey_event (PeerPrepare p) y1 = (y2, Err InvalidRekey) /\
    nc_phase y2 = PhaseClosed.
Proof using Type.
  intros L Hh Hop Hst Hack Hwp Hn Hep Hrec Hlast p.
  destruct (prepare_sent n x y L Hst Hack Hwp ltac:(lia) Hep Hrec Hlast)
    as (x1 & x2 & b & b' & ct & pt & H1 & H2 & He & Hct & Hb & Hr). fold p in H1, H2, He.
  destruct (prepare_encode_wf p Hwp) as [Hpu Hpl].
  destruct L as [Px Py _ Hsend Hrecv Ix Iy (Hstep & Hmr & Hmb & _) Hc].
  assert (dr_absolute_sequence (nc_receive_rekey y) = n) as Hy by (destruct Hstep as (_ & _ & Hs3); lia).
  pose proof (admit_control (nc_receive_rekey y) RekeyPrepare (zlen (prepare_encode p)) Iy (or_introl eq_refl))
    as Had. rewrite Hop, Hy, <- Hmr in Had. specialize (Had ltac:(done) ltac:(lia) Hrec).
  exists x1, x2. do 2 eexists. exists ct. split; [done|]. split; [done|]. split.
  { apply (decrypt_run n pt y ct _ b b'); try done; [unfold HARD_SEQUENCE_LIMIT, U64_MAX in *; lia|].
    split; [unfold is_u64, HARD_SEQUENCE_LIMIT, U64_MAX in *; cbn -[prepare_encode]; lia|].
    split; [done|]. cbn -[prepare_encode]. by rewrite Hpl. }
  split; [by apply prepare_roundtrip|]. split.
  - unfold handle_receive_rekey_event, mbind, child_mbind, child_bind, child_get, reduce_receive.
    cbn [nc_phase with_sequences with_rekeys with_noise nc_receive_rekey].
    rewrite bool_decide_eq_true_2 by done. cbn [negb].
    pose proof (prepare_after_admission_refused (nc_receive_rekey y) (nc_send_rekey x)
      (dr_records_under_key (nc_send_rekey x) + 1) (dr_application_bytes (nc_receive_rekey y) + 0)
      Hh Hstep Hop Hep) as Href.
    rewrite Hy in Href. fold p in Href. cbn [nc_receive_rekey with_sequences with_rekeys with_noise].
    rewrite Href. reflexivity.
  - done.
Qed.

End channel.

(** ** A concrete Noise library, for witnesses

    Two counters and two keys; a message is the plaintext followed by a 16-byte tag
    of key and counter.  It encrypts nothing: it only shows that the laws hold
    together. *)

Record toy_transport := mkToy { ty_sent : Z; ty_received : Z; ty_out_key : Z; ty_in_key : Z }.

Definition toy_tag (key nonce : Z) : bytes := to_be 8 key ++ to_be 8 nonce.
Definition toy_write (a : toy_transport) (p : bytes) (cap : Z) : option (toy_transport * bytes) :=
  if (ty_sent a <? U64_MAX) && (zlen p + TAG_LEN <=? Z.min cap MAX_CIPHERTEXT)
  then Some (mkToy (ty_sent a + 1) (ty_received a) (ty_out_key a) (ty_in_key a),
             p ++ toy_tag (ty_out_key a) (ty_sent a))
  else None.
Definition toy_read (b : toy_transport) (c : bytes) (cap : Z) : option (toy_transport * bytes) :=
  let k := (length c - 16)%nat in
  if (TAG_LEN <=? zlen c) && (zlen c <=? cap + TAG_LEN)
     && bool_decide (drop k c = toy_tag (ty_in_key b) (ty_received b))
  then Some (mkToy (ty_sent b) (ty_received b + 1) (ty_out_key b) (ty_in_key b), take k c)
  else None.

Definition toy_message (n : Z) : bytes := replicate 32 (n + 1).

#[export] Instance Toy_snow : Snow := {|
  HandshakeState := Z;
  TransportState := toy_transport;
  snow_build _ _ := Some 0;
  hs_write st _ _ := Some (st + 1, toy_message st);
  hs_read st m _ := if bool_decide (m = toy_message st) then Some (st + 1, []) else None;
  hs_finished st := st =? 2;
  hs_hash _ := replicate 32 7;
  hs_into_transport _ := Some (mkToy 0 0 0 0);
  ts_write := toy_write;
  ts_read := toy_read;
  ts_rekey_outgoing a := mkToy (ty_sent a) (ty_received a) (ty_out_key a + 1) (ty_in_key a);
  ts_rekey_incoming b := mkToy (ty_sent b) (ty_received b) (ty_out_key b) (ty_in_key b + 1);
|}.

#[export] Instance Toy_snow_laws : SnowLaws.
Proof.
  refine {| ts_paired n a b := ty_sent a = n /\ ty_received b = n /\ ty_out_key a = ty_in_key b |}.
  - intros n a b p cap (Ha & Hb & Hk) Hn Hp Hc. cbn. unfold toy_write.
    rewrite (proj2 (Z.ltb_lt _ _)) by lia. rewrite (proj2 (Z.leb_le _ _)) by lia. cbn [andb].
    do 2 eexists. split; [done|].
    assert (length (toy_tag (ty_out_key a) (ty_sent a)) = 16%nat) as Ht by done.
    assert (zlen (p ++ toy_tag (ty_out_key a) (ty_sent a)) = zlen p + TAG_LEN) as Hl.
    { rewrite zlen_app. unfold zlen at 2. by rewrite Ht. }
    split; [done|]. intros cap' Hcap. unfold toy_read. rewrite Hl, length_app, Ht.
    replace (length p + 16 - 16)%nat with (length p) by lia. pose proof (zlen_nonneg p).
    rewrite !(proj2 (Z.leb_le _ _)) by (unfold TAG_LEN; lia). rewrite drop_app_length, take_app_length.
    rewrite bool_decide_eq_true_2 by (by rewrite Ha, Hb, Hk). eexists. split; [done|]. cbn. lia.
  - intros n a b (Ha & Hb & Hk). cbn. lia.
Defined.

(** ** Witnesses *)

Definition accept_all (_ : TranscriptAuthorizationRequest) : NoiseResult unit := Ok tt.

Definition fresh_rekey (direction : Z) : DirectionalRekey :=
  mkRekey direction 0 0 0 0 DOpen false false None None None None None.
Definition client0 : NoiseChild :=
  mkChild ClientInitiator WriteOne sample_prologue 1 (Some 0) None None None 0 0
    (fresh_rekey 1) (fresh_rekey 2) None None None false.
Definition daemon0 : NoiseChild :=
  mkChild DaemonResponder ReadOne sample_prologue 1 (Some 0) None None None 0 0
    (fresh_rekey 2) (fresh_rekey 1) None None None false.

Definition client_ops : list child_op :=
  [OpWriteHandshake; OpReadHandshake ([1; 2] ++ to_be 2 32 ++ toy_message 1); OpAuthorize accept_all [1] [2]].
Definition daemon_ops : list child_op :=
  [OpReadHandshake ([1; 1] ++ to_be 2 32 ++ toy_message 0); OpWriteHandshake; OpAuthorize accept_all [1] [2]].

Definition client : NoiseChild := @run_child Toy_snow Toy_sha256 client0 client_ops.
Definition daemon : NoiseChild := @run_child Toy_snow Toy_sha256 daemon0 daemon_ops.

Lemma transport_requires_authorization_witness :
  exists pre gate cl dm post, client_ops = pre ++ OpAuthorize gate cl dm :: post.
Proof.
  assert (child_new ClientInitiator (prologue_encode sample_prologue) 1 = Ok client0) as Hnew
    by reflexivity.
  assert (handles_record (@run_child Toy_snow Toy_sha256 client0 client_ops)) as Ht
    by (left; exists Data, [1]; eexists; reflexivity).
  destruct (@transport_requires_authorization Toy_snow Toy_sha256 ClientInitiator
    (prologue_encode sample_prologue) 1 client0 client_ops Hnew Ht)
    as (pre & gate & cl & dm & post & _ & _ & H & _).
  by exists pre, gate, cl, dm, post.
Defined.

Lemma decrypt_fails_closed_witness :
  nc_phase (run_child (H0 := Toy_sha256) (decrypt_record 0 [1; 2; 3] daemon).1 []) = PhaseClosed.
Proof.
  assert ((decrypt_record 0 [1; 2; 3] daemon).2 = Err AuthenticationFailed) as He by reflexivity.
  destruct (decrypt_record 0 [1; 2; 3] daemon) as [c' r] eqn:Hd. cbn [snd] in He. subst r.
  destruct (@decrypt_fails_closed Toy_snow Toy_sha256 daemon c' 0 [1; 2; 3] AuthenticationFailed
    [] OpWriteHandshake) as (_ & _ & _ & H & _); [by vm_compute..|exact Hd|done|exact H].
Defined.

Lemma client_daemon_linked : linked 0 client daemon.
Proof.
  split; try (by vm_compute). exists (mkToy 0 0 0 0), (mkToy 0 0 0 0). by vm_compute.
Qed.

Definition sample_msgs : list (RecordKind * bytes) := [(Data, [1; 2]); (Ack, []); (Data, [3])].

Lemma sample_msgs_sendable : Forall sendable sample_msgs.
Proof.
  repeat apply Forall_cons_2; try apply Forall_nil_2;
    (split; [cbn; by auto|split; [repeat constructor; by vm_compute|by vm_compute]]).
Qed.

Lemma noise_channel_in_order_witness :
  receive_all daemon 0 (map snd (send_all client sample_msgs)) =
    [Ok (mkNoiseRecord Data 0 [1; 2]); Ok (mkNoiseRecord Ack 1 []); Ok (mkNoiseRecord Data 2 [3])].
Proof.
  destruct (noise_channel_in_order 0 client daemon sample_msgs client_daemon_linked) as [_ H].
  { eapply Forall_impl; [exact sample_msgs_sendable|]. intros m Hm. apply Hm. }
  assert (dr_state (nc_send_rekey client) = DOpen) as Hst by reflexivity.
  assert (batch_fits (nc_send_rekey client) sample_msgs) as Hfit.
  { assert (nc_send_rekey client = fresh_rekey 1) as -> by reflexivity. split_and!; done. }
  rewrite (H Hst Hfit sample_msgs_sendable). reflexivity.
Defined.

(** The same pair after one record, the client drained and waiting to rekey. *)
Definition draining_client : NoiseChild :=
  with_sequences (with_rekeys (with_noise client None (Some (mkToy 1 0 0 0))) drained (nc_receive_rekey client)) 1 0.
Definition following_daemon : NoiseChild :=
  with_sequences (with_rekeys (with_noise daemon None (Some (mkToy 0 1 0 0))) (nc_send_rekey daemon) receiver) 0 1.

Lemma draining_linked : linked 1 draining_client following_daemon.
Proof.
  split; try (by vm_compute). exists (mkToy 1 0 0 0), (mkToy 0 1 0 0). by vm_compute.
Qed.

Lemma rekey_prepare_closes_receiver_witness :
  exists y1 y2, handle_receive_rekey_event (PeerPrepare (prepare_of drained)) y1 = (y2, Err InvalidRekey) /\
    nc_phase y2 = PhaseClosed.
Proof.
  destruct (rekey_prepare_closes_receiver 1 draining_client following_daemon draining_linked)
    as (x1 & x2 & y1 & y2 & ct & _ & _ & _ & _ & H1 & H2).
  - apply (rekey_reachable_facts _ receiver_reachable).
  - reflexivity.
  - reflexivity.
  - reflexivity.
  - split; [by left|]. by vm_compute.
  - by vm_compute.
  - by vm_compute.
  - by vm_compute.
  - reflexivity.
  - exists y1, y2. split; [exact H1|exact H2].
Defined.
