(* ===== verification/Fallback.v ===== *)
(** The reliable-delivery layer of the relay fallback
    ([cockpit-noise/src/fallback.rs]): the outer record codec, the receive window
    that puts records back in order, and the send window that retransmits.

    A [BTreeMap<u64, _>] is a [gmap Z _]; where the source iterates, the model
    iterates over the keys in increasing order. *)

From S2P Require Import Prelude.
From S2P Require Import ProtocolId.
From S2P Require Import NoiseRecord.
From S2P Require Import NoisePrologue.
From stdpp Require Import options.
Set Warnings "-clear-no-such-hyp".

(** noise/fallback.rs:7-7 FALLBACK_OUTER_HEADER_LEN. *)
Definition FALLBACK_OUTER_HEADER_LEN : Z := 28.
(** noise/fallback.rs:8-8 FALLBACK_MAX_MESSAGE. *)
Definition FALLBACK_MAX_MESSAGE : Z := 65563.
(** noise/fallback.rs:9-9 FALLBACK_MAX_CIPHERTEXT. *)
Definition FALLBACK_MAX_CIPHERTEXT : Z := 65535.
(** noise/fallback.rs:10-10 FALLBACK_MIN_CIPHERTEXT. *)
Definition FALLBACK_MIN_CIPHERTEXT : Z := 30.
(** noise/fallback.rs:11-11 FALLBACK_WINDOW_RECORDS. *)
Definition FALLBACK_WINDOW_RECORDS : Z := 64.
(** noise/fallback.rs:12-12 FALLBACK_WINDOW_BYTES. *)
Definition FALLBACK_WINDOW_BYTES : Z := 4 * 1024 * 1024.
(** noise/fallback.rs:13-13 ACK_WIRE_LEN. *)
Definition ACK_WIRE_LEN : Z := 9.
(** noise/fallback.rs:14-14 ACK_NONE. *)
Definition ACK_NONE : Z := U64_MAX.
(** noise/fallback.rs:15-15 ACK_BATCH. *)
Definition ACK_BATCH : Z := 8.
(** noise/fallback.rs:16-16 ACK_DEADLINE_MILLIS. *)
Definition ACK_DEADLINE_MILLIS : Z := 25.
(** noise/fallback.rs:17-17 RETRY_MILLIS. *)
Definition RETRY_MILLIS : list Z := [750; 1500; 3000].
(** noise/fallback.rs:18-18 FALLBACK_SEQUENCE_LIMIT. *)
Definition FALLBACK_SEQUENCE_LIMIT : Z := Z.shiftl 1 32.

(** noise/fallback.rs:20-25 FallbackDirection. *)
Inductive FallbackDirection := ClientToDaemon | DaemonToClient.

#[export] Instance FallbackDirection_eq_dec : EqDecision FallbackDirection.
Proof. solve_decision. Defined.

Definition direction_code (d : FallbackDirection) : Z :=
  match d with ClientToDaemon => 0 | DaemonToClient => 1 end.

(** noise/fallback.rs:29-35 FallbackDirection::try_from. *)
Definition direction_try_from (value : Z) : NoiseResult FallbackDirection :=
  match value with 0 => Ok ClientToDaemon | 1 => Ok DaemonToClient | _ => Err InvalidFallback end.

(** noise/fallback.rs:38-45 FallbackOuterRecordV1. *)
Record FallbackOuterRecordV1 := mkOuter {
  fo_route_generation : Z;
  fo_direction : FallbackDirection;
  fo_record_sequence : Z;
  fo_peer_seen_through : Z;
  fo_ciphertext : bytes;
}.

(** noise/fallback.rs:47-54 ValidatedFallbackOuterHeader. *)
Record ValidatedFallbackOuterHeader := mkOuterHeader {
  fh_route_generation : Z;
  fh_direction : FallbackDirection;
  fh_record_sequence : Z;
  fh_peer_seen_through : Z;
  fh_ciphertext_len : Z;
}.

(** noise/fallback.rs:56-97 validate_outer_header. *)
Definition validate_outer_header (b : bytes) : NoiseResult ValidatedFallbackOuterHeader :=
  if (zlen b <? FALLBACK_OUTER_HEADER_LEN) || (FALLBACK_MAX_MESSAGE <? zlen b)
  then Err InvalidFallback else
  version ← index b 0;
  if negb (version =? 1) then Err InvalidFallback else
  length_bytes ← slice b 26 28;
  let ciphertext_len := from_be length_bytes in
  if negb ((FALLBACK_MIN_CIPHERTEXT <=? ciphertext_len) && (ciphertext_len <=? FALLBACK_MAX_CIPHERTEXT))
     || negb (zlen b =? FALLBACK_OUTER_HEADER_LEN + ciphertext_len)
  then Err InvalidFallback else
  route_bytes ← slice b 1 9;
  let route_generation := from_be route_bytes in
  sequence_bytes ← slice b 10 18;
  let record_sequence := from_be sequence_bytes in
  if (route_generation =? 0) || (FALLBACK_SEQUENCE_LIMIT <=? record_sequence)
  then Err InvalidFallback else
  direction_byte ← index b 9;
  direction ← direction_try_from direction_byte;
  seen_bytes ← slice b 18 26;
  Ok (mkOuterHeader route_generation direction record_sequence (from_be seen_bytes) ciphertext_len).

(** noise/fallback.rs:100-119 FallbackOuterRecordV1::encode. *)
Definition outer_encode (r : FallbackOuterRecordV1) : NoiseResult bytes :=
  if (fo_route_generation r =? 0) || (FALLBACK_SEQUENCE_LIMIT <=? fo_record_sequence r)
     || (zlen (fo_ciphertext r) <? FALLBACK_MIN_CIPHERTEXT)
     || (FALLBACK_MAX_CIPHERTEXT <? zlen (fo_ciphertext r))
  then Err InvalidFallback else
  length ← (if zlen (fo_ciphertext r) <=? U16_MAX then Ok (zlen (fo_ciphertext r))
            else Err InvalidFallback);
  Ok ([1] ++ to_be 8 (fo_route_generation r) ++ [direction_code (fo_direction r)]
      ++ to_be 8 (fo_record_sequence r) ++ to_be 8 (fo_peer_seen_through r) ++ to_be 2 length
      ++ fo_ciphertext r).

(** noise/fallback.rs:121-130 FallbackOuterRecordV1::decode. *)
Definition outer_decode (b : bytes) : NoiseResult FallbackOuterRecordV1 :=
  header ← validate_outer_header b;
  ciphertext ← slice_from b 28;
  Ok (mkOuter (fh_route_generation header) (fh_direction header) (fh_record_sequence header)
        (fh_peer_seen_through header) ciphertext).

(** noise/fallback.rs:133-147 validate_authenticated_outer. *)
Definition validate_authenticated_outer (outer : FallbackOuterRecordV1) (inner : RemoteNoiseRecordV1)
    : NoiseResult unit :=
  watermark_bytes ← ok_or (get_range (nr_payload inner) 0 8) InvalidFallback;
  let watermark := from_be watermark_bytes in
  if negb (nr_sequence inner =? fo_record_sequence outer)
     || negb (watermark =? fo_peer_seen_through outer)
  then Err InvalidFallback else Ok tt.

(** noise/fallback.rs:149-152 CumulativeAckV1. *)
Record CumulativeAckV1 := mkAck { largest_contiguous : Z }.

(** noise/fallback.rs:155-161 CumulativeAckV1::encode. *)
Definition ack_encode (a : CumulativeAckV1) : bytes := 1 :: to_be 8 (largest_contiguous a).

(** noise/fallback.rs:163-174 CumulativeAckV1::decode. *)
Definition ack_decode (b : bytes) : NoiseResult CumulativeAckV1 :=
  if negb (zlen b =? ACK_WIRE_LEN) then Err InvalidFallback else
  version ← index b 0;
  if negb (version =? 1) then Err InvalidFallback else
  value ← slice_from b 1;
  Ok (mkAck (from_be value)).

(** noise/fallback.rs:177-184 CachedRecord. *)
Record CachedRecord := mkCached {
  cr_bytes : bytes;
  cr_byte_cost : Z;
  cr_digest : bytes;
  cr_tracked : bool;
  cr_retry_index : Z;
}.

(** noise/fallback.rs:186-194 ReceiveDisposition. *)
Inductive ReceiveDisposition :=
| Buffered
| Duplicate (acknowledge : CumulativeAckV1)
| Contiguous (records : list bytes).

(** ** The receive window *)

Section windows.
Context `{Sha256}.

(** noise/fallback.rs:196-204 FallbackReceiveWindow. *)
Record FallbackReceiveWindow := mkReceive {
  rw_next_sequence : Z;
  rw_bytes : Z;
  rw_pending : gmap Z CachedRecord;
  rw_accepted : gmap Z bytes;
  rw_newly_admitted : Z;
  rw_last_ack_millis : Z;
}.

(** noise/fallback.rs:207-217 FallbackReceiveWindow::new. *)
Definition receive_new (now_millis : Z) : FallbackReceiveWindow :=
  mkReceive 0 0 ∅ ∅ 0 now_millis.

(** noise/fallback.rs:285-290 FallbackReceiveWindow::ack. *)
Definition receive_ack (w : FallbackReceiveWindow) : CumulativeAckV1 :=
  mkAck (if 1 <=? rw_next_sequence w then rw_next_sequence w - 1 else ACK_NONE).

(** [BTreeMap::first_key_value]: the smallest key. *)
Definition first_key {A} (m : gmap Z A) : option Z :=
  map_fold (fun k _ acc => match acc with Some j => Some (Z.min k j) | None => Some k end) None m.

(** noise/fallback.rs:267-274 FallbackReceiveWindow::observe. The inner loop: while more
    than a window of digests is remembered, forget the oldest.  One turn removes one
    entry, so the map's size is enough fuel ([evict_interval]). *)
Fixpoint evict_accepted (fuel : nat) (m : gmap Z bytes) : gmap Z bytes :=
  match fuel with
  | O => m
  | S fuel =>
      if FALLBACK_WINDOW_RECORDS <? Z.of_nat (size m) then
        match first_key m with
        | Some first => evict_accepted fuel (delete first m)
        | None => m
        end
      else m
  end.

(** noise/fallback.rs:264-282 FallbackReceiveWindow::observe. The outer loop: while the next
    expected record is pending, release it.  One turn removes one pending record, so
    the number of pending records is enough fuel ([drain_spec]). *)
Fixpoint drain_contiguous (fuel : nat) (w : FallbackReceiveWindow) (contiguous : list bytes)
    : FallbackReceiveWindow * NoiseResult (list bytes) :=
  match fuel with
  | O => (w, Ok contiguous)
  | S fuel =>
      match rw_pending w !! rw_next_sequence w with
      | None => (w, Ok contiguous)
      | Some cached =>
          let pending := delete (rw_next_sequence w) (rw_pending w) in
          match sub_in (E:=NoiseError) (rw_bytes w) (cr_byte_cost cached) with
          | Ok remaining =>
              let accepted := <[rw_next_sequence w := cr_digest cached]> (rw_accepted w) in
              let accepted := evict_accepted (size accepted) accepted in
              match checked_add (rw_next_sequence w) 1 with
              | None =>
                  (mkReceive (rw_next_sequence w) remaining pending accepted (rw_newly_admitted w)
                     (rw_last_ack_millis w), Err SequenceExhausted)
              | Some next =>
                  drain_contiguous fuel
                    (mkReceive next remaining pending accepted
                       (Z.min U8_MAX (rw_newly_admitted w + 1)) (rw_last_ack_millis w))
                    (contiguous ++ [cr_bytes cached])
              end
          | _ => (mkReceive (rw_next_sequence w) (rw_bytes w) pending (rw_accepted w)
                    (rw_newly_admitted w) (rw_last_ack_millis w), Panic)
          end
      end
  end.

(** noise/fallback.rs:219-283 FallbackReceiveWindow::observe. *)
Definition observe (w : FallbackReceiveWindow) (b : bytes)
    : FallbackReceiveWindow * NoiseResult ReceiveDisposition :=
  match validate_outer_header b with
  | Err e => (w, Err e)
  | Panic => (w, Panic)
  | Ok header =>
      let byte_cost := fh_ciphertext_len header in
      let sequence := fh_record_sequence header in
      let digest := sha256 b in
      if sequence <? rw_next_sequence w then
        match rw_accepted w !! sequence with
        | Some prior => if bool_decide (prior = digest) then (w, Ok (Duplicate (receive_ack w)))
                        else (w, Err InvalidFallback)
        | None => (w, Err InvalidFallback)
        end
      else if FALLBACK_WINDOW_RECORDS <=? saturating_sub sequence (rw_next_sequence w)
      then (w, Err FallbackWindowExceeded) else
      match rw_pending w !! sequence with
      | Some prior => if bool_decide (cr_digest prior = digest) then (w, Ok (Duplicate (receive_ack w)))
                      else (w, Err InvalidFallback)
      | None =>
          if (FALLBACK_WINDOW_RECORDS <=? Z.of_nat (size (rw_pending w)))
             || (FALLBACK_WINDOW_BYTES <? saturating_add (rw_bytes w) byte_cost)
          then (w, Err FallbackWindowExceeded) else
          match add_in (E:=NoiseError) USIZE_MAX (rw_bytes w) byte_cost with
          | Ok total =>
              let w := mkReceive (rw_next_sequence w) total
                         (<[sequence := mkCached b byte_cost digest false 0]> (rw_pending w))
                         (rw_accepted w) (rw_newly_admitted w) (rw_last_ack_millis w) in
              if negb (sequence =? rw_next_sequence w) then (w, Ok Buffered) else
              match drain_contiguous (size (rw_pending w)) w [] with
              | (w, Ok contiguous) => (w, Ok (Contiguous contiguous))
              | (w, Err e) => (w, Err e)
              | (w, Panic) => (w, Panic)
              end
          | _ => (w, Panic)
          end
      end
  end.

(** noise/fallback.rs:292-311 FallbackReceiveWindow::ack_due. *)
Definition ack_due (w : FallbackReceiveWindow) (now_millis : Z) (immediate received_ack_only : bool)
    : FallbackReceiveWindow * option CumulativeAckV1 :=
  if received_ack_only && negb immediate then (w, None) else
  if immediate || (ACK_BATCH <=? rw_newly_admitted w)
     || (ACK_DEADLINE_MILLIS <=? saturating_sub now_millis (rw_last_ack_millis w))
  then let w := mkReceive (rw_next_sequence w) (rw_bytes w) (rw_pending w) (rw_accepted w) 0 now_millis in
       (w, Some (receive_ack w))
  else (w, None).

(** ** The send window *)

(** noise/fallback.rs:314-321 FallbackSendWindow. *)
Record FallbackSendWindow := mkSend {
  sw_bytes : Z;
  sw_records : gmap Z CachedRecord;
  sw_next_sequence : Z;
  sw_delivery_ack : Z;
  sw_peer_seen_through : Z;
}.

(** noise/fallback.rs:324-333 FallbackSendWindow::new. *)
Definition send_new : FallbackSendWindow := mkSend 0 ∅ 0 ACK_NONE ACK_NONE.

(** noise/fallback.rs:335-369 FallbackSendWindow::insert. *)
Definition send_insert (w : FallbackSendWindow) (sequence : Z) (ciphertext : bytes)
    (delivery_tracked : bool) : FallbackSendWindow * NoiseResult unit :=
  match validate_outer_header ciphertext with
  | Err e => (w, Err e)
  | Panic => (w, Panic)
  | Ok header =>
      if negb (fh_record_sequence header =? sequence) then (w, Err InvalidFallback) else
      let ciphertext_bytes := fh_ciphertext_len header in
      if negb (sequence =? sw_next_sequence w)
         || bool_decide (is_Some (sw_records w !! sequence))
         || (FALLBACK_WINDOW_RECORDS <=? Z.of_nat (size (sw_records w)))
         || (FALLBACK_WINDOW_BYTES <? saturating_add (sw_bytes w) ciphertext_bytes)
      then (w, Err FallbackWindowExceeded) else
      match add_in (E:=NoiseError) USIZE_MAX (sw_bytes w) ciphertext_bytes with
      | Ok total =>
          let records := <[sequence := mkCached ciphertext ciphertext_bytes (sha256 ciphertext)
                                         delivery_tracked 0]> (sw_records w) in
          match checked_add (sw_next_sequence w) 1 with
          | None => (mkSend total records (sw_next_sequence w) (sw_delivery_ack w) (sw_peer_seen_through w),
                     Err SequenceExhausted)
          | Some next => (mkSend total records next (sw_delivery_ack w) (sw_peer_seen_through w), Ok tt)
          end
      | _ => (w, Panic)
      end
  end.

(** [record.tracked = false]. *)
Definition untrack (r : CachedRecord) : CachedRecord :=
  mkCached (cr_bytes r) (cr_byte_cost r) (cr_digest r) false (cr_retry_index r).

(** noise/fallback.rs:371-393 FallbackSendWindow::acknowledge. *)
Definition send_acknowledge (w : FallbackSendWindow) (largest : Z) : FallbackSendWindow * NoiseResult unit :=
  if largest =? ACK_NONE then
    (w, if sw_delivery_ack w =? ACK_NONE then Ok tt else Err InvalidFallback)
  else if (sw_next_sequence w <=? largest)
          || (negb (sw_delivery_ack w =? ACK_NONE) && (largest <? sw_delivery_ack w))
  then (w, Err InvalidFallback)
  else (mkSend (sw_bytes w)
          (map_imap (fun k r => Some (if k <=? largest then untrack r else r)) (sw_records w))
          (sw_next_sequence w) largest (sw_peer_seen_through w), Ok tt).

(** The keys of a [BTreeMap] in iteration order. *)
Definition btree_keys {A} (m : gmap Z A) : list Z := merge_sort Z.le (elements (dom m)).

(** noise/fallback.rs:395-400 FallbackSendWindow::retransmit_from. *)
Definition retransmit_from (w : FallbackSendWindow) (next_missing : Z) : list bytes :=
  omap (fun k => if next_missing <=? k then cr_bytes <$> sw_records w !! k else None)
    (btree_keys (sw_records w)).

(** noise/fallback.rs:404-413 FallbackSendWindow::retry_due. The loop over the records: an
    exhausted record stops it, keeping the retry counts already advanced. *)
Fixpoint retry_loop (keys : list Z) (elapsed_millis : Z) (records : gmap Z CachedRecord) (due : list bytes)
    : gmap Z CachedRecord * NoiseResult (list bytes) :=
  match keys with
  | [] => (records, Ok due)
  | k :: keys =>
      match records !! k with
      | None => retry_loop keys elapsed_millis records due
      | Some r =>
          if negb (cr_tracked r) then retry_loop keys elapsed_millis records due else
          let ready :=
            if cr_retry_index r <? zlen RETRY_MILLIS then
              at_ ← index (E:=NoiseError) RETRY_MILLIS (cr_retry_index r); Ok (at_ <=? elapsed_millis)
            else Ok false in
          match ready with
          | Ok true =>
              match add_in (E:=NoiseError) USIZE_MAX (cr_retry_index r) 1 with
              | Ok next =>
                  retry_loop keys elapsed_millis
                    (<[k := mkCached (cr_bytes r) (cr_byte_cost r) (cr_digest r) (cr_tracked r) next]> records)
                    (due ++ [cr_bytes r])
              | _ => (records, Panic)
              end
          | Ok false =>
              match index (E:=NoiseError) RETRY_MILLIS 2 with
              | Ok last =>
                  if (cr_retry_index r =? zlen RETRY_MILLIS) && (last <? elapsed_millis)
                  then (records, Err FallbackRetryExhausted)
                  else retry_loop keys elapsed_millis records due
              | _ => (records, Panic)
              end
          | _ => (records, Panic)
          end
      end
  end.

(** noise/fallback.rs:402-415 FallbackSendWindow::retry_due. *)
Definition retry_due (w : FallbackSendWindow) (elapsed_millis : Z)
    : FallbackSendWindow * NoiseResult (list bytes) :=
  let '(records, r) := retry_loop (btree_keys (sw_records w)) elapsed_millis (sw_records w) [] in
  (mkSend (sw_bytes w) records (sw_next_sequence w) (sw_delivery_ack w) (sw_peer_seen_through w), r).

(** noise/fallback.rs:436-440 FallbackSendWindow::release_peer_seen_through. The loop over the
    released keys. *)
Fixpoint release_loop (keys : list Z) (bytes_ : Z) (records : gmap Z CachedRecord)
    : (Z * gmap Z CachedRecord) * NoiseResult unit :=
  match keys with
  | [] => ((bytes_, records), Ok tt)
  | k :: keys =>
      match records !! k with
      | None => release_loop keys bytes_ records
      | Some r =>
          match sub_in (E:=NoiseError) bytes_ (cr_byte_cost r) with
          | Ok remaining => release_loop keys remaining (delete k records)
          | _ => ((bytes_, delete k records), Panic)
          end
      end
  end.

(** noise/fallback.rs:417-442 FallbackSendWindow::release_peer_seen_through. *)
Definition release_peer_seen_through (w : FallbackSendWindow) (watermark : Z)
    : FallbackSendWindow * NoiseResult unit :=
  if watermark =? ACK_NONE then
    (w, if sw_peer_seen_through w =? ACK_NONE then Ok tt else Err InvalidFallback)
  else if (sw_next_sequence w <=? watermark)
          || (negb (sw_peer_seen_through w =? ACK_NONE) && (watermark <? sw_peer_seen_through w))
  then (w, Err InvalidFallback)
  else
    let keys := filter (fun k => k <= watermark) (btree_keys (sw_records w)) in
    let '((b, records), r) := release_loop keys (sw_bytes w) (sw_records w) in
    (mkSend b records (sw_next_sequence w) (sw_delivery_ack w) watermark, r).

(** noise/fallback.rs:443-446 FallbackSendWindow::is_empty. *)
Definition send_is_empty (w : FallbackSendWindow) : bool :=
  forallb (fun kr => negb (cr_tracked kr.2)) (map_to_list (sw_records w)).
(** noise/fallback.rs:447-450 FallbackSendWindow::cache_is_empty. *)
Definition cache_is_empty (w : FallbackSendWindow) : bool := bool_decide (sw_records w = ∅).

End windows.
