(* ===== verification/FallbackProps.v ===== *)
(** Correctness of the fallback windows: records leave the receive window once, in
    order, inside its budgets; a gap is repaired from the send window's cache; a
    record is retried at most three times. *)

From S2P Require Import Prelude.
From S2P Require Import ProtocolId.
From S2P Require Import NoiseRecord.
From S2P Require Import NoisePrologue.
From S2P Require Import Fallback.
From stdpp Require Import options.
Set Warnings "-clear-no-such-hyp".

(** ** Maps whose keys are an interval *)

Definition interval (a b : Z) : gset Z := list_to_set (seqZ a (b - a)).

Lemma elem_interval a b k : k ∈ interval a b <-> a <= k < b.
Proof. unfold interval. rewrite elem_of_list_to_set, elem_of_seqZ. lia. Qed.

Lemma size_interval a b : a <= b -> Z.of_nat (size (interval a b)) = b - a.
Proof.
  intros Hab. unfold interval. rewrite size_list_to_set by apply NoDup_seqZ.
  rewrite length_seqZ. lia.
Qed.

Lemma first_key_spec {A} (m : gmap Z A) :
  match first_key m with
  | None => m = ∅
  | Some k => k ∈ dom m /\ forall j, j ∈ dom m -> k <= j
  end.
Proof.
  unfold first_key.
  apply (map_fold_weak_ind (fun r m => match r with
    | None => m = ∅ | Some k => k ∈ dom m /\ forall j, j ∈ dom m -> k <= j end)); [done|].
  intros i x m' r Hi Hr. destruct r as [k|].
  - destruct Hr as [Hk Hmin]. rewrite dom_insert. split; [|set_unfold; intros j [->|Hj]; [lia|]; specialize (Hmin j Hj); lia].
    destruct (Z.min_spec i k) as [[_ ->]|[_ ->]]; set_solver.
  - subst m'. rewrite dom_insert, dom_empty_L. split; [set_solver|]. intros j Hj. set_unfold. lia.
Qed.

(** A window of digests with one more entry than it may have loses its oldest. *)
Lemma evict_interval (m : gmap Z bytes) a b :
  dom m = interval a b -> a <= b -> b - a <= FALLBACK_WINDOW_RECORDS + 1 ->
  let m' := evict_accepted (size m) m in
  dom m' = interval (Z.max a (b - FALLBACK_WINDOW_RECORDS)) b /\
  (forall k d, m' !! k = Some d -> m !! k = Some d).
Proof.
  intros Hd Hab Hw. cbn zeta. unfold FALLBACK_WINDOW_RECORDS in *.
  assert (Z.of_nat (size m) = b - a) as Hs by (rewrite <- size_dom, Hd; by apply size_interval).
  destruct (size m) as [|n] eqn:Hn.
  { cbn. split; [|done]. rewrite Hd. f_equal. lia. }
  cbn [evict_accepted]. unfold FALLBACK_WINDOW_RECORDS. rewrite Hn.
  destruct (Z.ltb_spec 64 (Z.of_nat (S n))) as [Hlt|Hge].
  2: { split; [|done]. rewrite Hd. f_equal. lia. }
  pose proof (first_key_spec m) as Hf. destruct (first_key m) as [k|].
  2: { subst m. by rewrite map_size_empty in Hn. }
  destruct Hf as [Hk Hmin]. rewrite Hd in Hk. apply elem_interval in Hk.
  assert (k = a) as ->. { assert (k <= a); [|lia]. apply Hmin. rewrite Hd. apply elem_interval. lia. }
  assert (evict_accepted n (delete a m) = delete a m) as ->.
  { destruct n; [done|]. cbn [evict_accepted]. unfold FALLBACK_WINDOW_RECORDS.
    rewrite map_size_delete_Some by (apply elem_of_dom; rewrite Hd; apply elem_interval; lia).
    rewrite (proj2 (Z.ltb_ge _ _)) by lia. done. }
  split.
  - rewrite dom_delete_L, Hd. apply set_eq. intros j.
    rewrite elem_of_difference, elem_of_singleton, !elem_interval. lia.
  - intros j d Hj. by apply lookup_delete_Some in Hj as [_ ?].
Qed.

(** ** Outer headers *)

Lemma direction_no_panic z : direction_try_from z <> Panic.
Proof. unfold direction_try_from. by repeat case_match. Qed.

Lemma validate_no_panic b : validate_outer_header b <> Panic.
Proof.
  unfold validate_outer_header, FALLBACK_OUTER_HEADER_LEN. destruct (_ || _) eqn:G; [done|].
  apply orb_false_iff in G as [G _]. apply Z.ltb_ge in G.
  repeat no_panic1;
    first [apply index_no_panic; lia|apply slice_no_panic; lia|apply direction_no_panic].
Qed.

Lemma validate_facts b h :
  all_u8 b -> validate_outer_header b = Ok h ->
  0 <= fh_record_sequence h < FALLBACK_SEQUENCE_LIMIT /\
  FALLBACK_MIN_CIPHERTEXT <= fh_ciphertext_len h <= FALLBACK_MAX_CIPHERTEXT.
Proof.
  intros Hb Hv. unfold validate_outer_header in Hv. ok_inv Hv. subst h. cbn.
  apply orb_false_iff in G1 as [Gc _]. apply negb_false_iff, andb_true_iff in Gc as [G3 G4].
  apply Z.leb_le in G3, G4. apply orb_false_iff in G2 as [_ G2]. apply Z.leb_gt in G2.
  pose proof (from_be_bound _ (slice_u8 _ _ _ _ Hb B2)). lia.
Qed.

Section receive.
Context `{Sha256}.

(** A cached record is the outer record of its own key. *)
Definition cached_ok (k : Z) (c : CachedRecord) : Prop :=
  all_u8 (cr_bytes c) /\ cr_digest c = sha256 (cr_bytes c) /\
  exists h, validate_outer_header (cr_bytes c) = Ok h /\ fh_record_sequence h = k /\
    fh_ciphertext_len h = cr_byte_cost c.

Lemma cached_cost k c : cached_ok k c -> 0 <= cr_byte_cost c /\ 0 <= k < FALLBACK_SEQUENCE_LIMIT.
Proof using Type.
  intros (Hu & _ & h & Hv & <- & <-). destruct (validate_facts _ _ Hu Hv).
  unfold FALLBACK_MIN_CIPHERTEXT in *. lia.
Qed.

Definition pending_cost : gmap Z CachedRecord -> Z := map_sum (fun _ c => cr_byte_cost c).

(** The invariant of the receive window; between calls the next record is missing. *)
Record recv_inv (w : FallbackReceiveWindow) : Prop := {
  rv_next : 0 <= rw_next_sequence w <= FALLBACK_SEQUENCE_LIMIT;
  rv_pending : forall k c, rw_pending w !! k = Some c ->
    rw_next_sequence w <= k < rw_next_sequence w + FALLBACK_WINDOW_RECORDS /\ cached_ok k c;
  rv_bytes : rw_bytes w = pending_cost (rw_pending w);
  rv_cap : rw_bytes w <= FALLBACK_WINDOW_BYTES;
  rv_accepted : dom (rw_accepted w) =
    interval (Z.max 0 (rw_next_sequence w - FALLBACK_WINDOW_RECORDS)) (rw_next_sequence w);
}.

Lemma recv_inv_new now : recv_inv (receive_new now).
Proof using Type.
  split; cbn.
  - done.
  - intros k c. by rewrite lookup_empty.
  - unfold pending_cost. by rewrite map_sum_empty.
  - done.
  - by rewrite dom_empty_L.
Qed.

Lemma pending_cost_delete m k c :
  (forall k c, m !! k = Some c -> 0 <= cr_byte_cost c) -> m !! k = Some c ->
  pending_cost m = cr_byte_cost c + pending_cost (delete k m) /\ 0 <= pending_cost (delete k m).
Proof using Type.
  intros Hm Hk. unfold pending_cost. rewrite (map_sum_delete _ m k c Hk). split; [done|].
  apply map_sum_nonneg. intros j x Hj. apply lookup_delete_Some in Hj as [_ Hj]. by eapply Hm.
Qed.

(** What releasing from position [next] on yields. *)
Record drained_to (w w' : FallbackReceiveWindow) (outs : list bytes) : Prop := {
  dt_inv : recv_inv w';
  dt_next : rw_next_sequence w' = rw_next_sequence w + zlen outs;
  dt_outs : forall i b, outs !! i = Some b ->
    exists c, rw_pending w !! (rw_next_sequence w + Z.of_nat i) = Some c /\ cr_bytes c = b;
  dt_pending : forall k, rw_pending w' !! k =
    (if decide (rw_next_sequence w' <= k) then rw_pending w !! k else None);
  dt_gap : rw_pending w' !! rw_next_sequence w' = None;
}.

(** One turn of the loop. *)
Lemma drain_turn w c :
  recv_inv w -> rw_pending w !! rw_next_sequence w = Some c ->
  recv_inv (mkReceive (rw_next_sequence w + 1) (rw_bytes w - cr_byte_cost c)
    (delete (rw_next_sequence w) (rw_pending w))
    (evict_accepted (size (<[rw_next_sequence w := cr_digest c]> (rw_accepted w)))
       (<[rw_next_sequence w := cr_digest c]> (rw_accepted w)))
    (Z.min U8_MAX (rw_newly_admitted w + 1)) (rw_last_ack_millis w)) /\
  cr_byte_cost c <= rw_bytes w /\ rw_next_sequence w < FALLBACK_SEQUENCE_LIMIT.
Proof using Type.
  intros [V1 V2 V3 V4 V5] Hc. destruct (V2 _ _ Hc) as [_ Hok]. destruct (cached_cost _ _ Hok) as [Hc0 Hlim].
  destruct (pending_cost_delete _ _ _ (fun k c H => proj1 (cached_cost k c (proj2 (V2 k c H)))) Hc) as [Hsum Hrest].
  split; [|lia]. unfold FALLBACK_WINDOW_RECORDS in *. split; cbn.
  - lia.
  - intros k x Hk. apply lookup_delete_Some in Hk as [Hne Hk]. destruct (V2 k x Hk). unfold FALLBACK_WINDOW_RECORDS. split; [lia|done].
  - lia.
  - lia.
  - destruct (evict_interval (<[rw_next_sequence w := cr_digest c]> (rw_accepted w))
      (Z.max 0 (rw_next_sequence w - 64)) (rw_next_sequence w + 1)) as [-> _].
    + rewrite dom_insert_L, V5. apply set_eq. intros j.
      rewrite elem_of_union, elem_of_singleton, !elem_interval. lia.
    + lia.
    + unfold FALLBACK_WINDOW_RECORDS. lia.
    + unfold FALLBACK_WINDOW_RECORDS. f_equal. lia.
Qed.

Lemma drain_spec fuel : forall w acc,
  recv_inv w -> (size (rw_pending w) <= fuel)%nat ->
  exists w' outs, drain_contiguous fuel w acc = (w', Ok (acc ++ outs)) /\ drained_to w w' outs.
Proof using Type.
  induction fuel as [|fuel IH]; intros w acc Hi Hf; cbn [drain_contiguous].
  { assert (rw_pending w = ∅) as He by (apply map_size_empty_inv; lia).
    exists w, []. rewrite app_nil_r. split; [done|]. split; try done; cbn; [by rewrite zlen_nil, Z.add_0_r| |by rewrite He, lookup_empty].
    intros k. rewrite He, lookup_empty. by case_decide. }
  destruct (rw_pending w !! rw_next_sequence w) as [c|] eqn:Hc.
  2: { exists w, []. rewrite app_nil_r. split; [done|]. split; try done; cbn; [by rewrite zlen_nil, Z.add_0_r|].
       intros k. case_decide as Hk; [done|]. destruct (rw_pending w !! k) as [x|] eqn:Hx; [|done].
       destruct (rv_pending w Hi k x Hx). lia. }
  destruct (drain_turn w c Hi Hc) as (Hi' & Hle & Hlim).
  rewrite sub_in_le by done. unfold checked_add.
  unfold FALLBACK_SEQUENCE_LIMIT in Hlim. change (Z.shiftl 1 32) with 4294967296 in Hlim.
  rewrite (proj2 (Z.leb_le _ _)) by (unfold U64_MAX; lia).
  destruct (IH _ (acc ++ [cr_bytes c]) Hi') as (w' & outs & Hdr & [D1 D2 D3 D4 D5]).
  { cbn. rewrite map_size_delete_Some by eauto. lia. }
  exists w', (cr_bytes c :: outs). split; [rewrite Hdr, <- app_assoc; done|]. cbn in *.
  split; try done.
  - rewrite zlen_cons. lia.
  - intros [|i] b Hb; cbn in Hb.
    + injection Hb as <-. exists c. by rewrite Z.add_0_r.
    + destruct (D3 i b Hb) as (x & Hx & Hbx). apply lookup_delete_Some in Hx as [_ Hx].
      exists x. split; [|done]. rewrite <- Hx. f_equal. lia.
  - intros k. rewrite D4. case_decide as Hk; [|done]. pose proof (zlen_nonneg outs).
    by rewrite lookup_delete_ne by lia.
Qed.

(** The window with one more pending record. *)
Definition with_pending (w : FallbackReceiveWindow) (b : bytes) (h : ValidatedFallbackOuterHeader) :=
  mkReceive (rw_next_sequence w) (rw_bytes w + fh_ciphertext_len h)
    (<[fh_record_sequence h := mkCached b (fh_ciphertext_len h) (sha256 b) false 0]> (rw_pending w))
    (rw_accepted w) (rw_newly_admitted w) (rw_last_ack_millis w).

Lemma with_pending_inv w b h :
  recv_inv w -> all_u8 b -> validate_outer_header b = Ok h ->
  rw_pending w !! fh_record_sequence h = None ->
  rw_next_sequence w <= fh_record_sequence h < rw_next_sequence w + FALLBACK_WINDOW_RECORDS ->
  rw_bytes w + fh_ciphertext_len h <= FALLBACK_WINDOW_BYTES -> recv_inv (with_pending w b h).
Proof using Type.
  intros [V1 V2 V3 V4 V5] Hu Hv Hn Hr Hc. split; cbn; try done.
  - intros k c Hk. apply lookup_insert_Some in Hk as [[<- <-]|[_ Hk]]; [|by apply V2].
    split; [done|]. split; [done|]. split; [done|]. by exists h.
  - unfold pending_cost. rewrite map_sum_insert by done. cbn. unfold pending_cost in V3. lia.
Qed.

(** Every outcome of [observe]. *)
Definition observed (w w' : FallbackReceiveWindow) (b : bytes) (r : NoiseResult ReceiveDisposition) : Prop :=
  match r with
  | Ok (Contiguous outs) => exists h, validate_outer_header b = Ok h /\
      fh_record_sequence h = rw_next_sequence w /\ recv_inv (with_pending w b h) /\
      drained_to (with_pending w b h) w' outs
  | Ok Buffered => exists h, validate_outer_header b = Ok h /\
      rw_next_sequence w < fh_record_sequence h /\ w' = with_pending w b h /\
      rw_pending w !! fh_record_sequence h = None
  | Ok (Duplicate _) | Err _ => w' = w
  | Panic => False
  end.

Definition gap (w : FallbackReceiveWindow) : Prop := rw_pending w !! rw_next_sequence w = None.

(** A new record within the budgets is taken. *)
Lemma observe_fits w b h :
  recv_inv w -> gap w -> all_u8 b -> validate_outer_header b = Ok h ->
  rw_next_sequence w <= fh_record_sequence h < rw_next_sequence w + FALLBACK_WINDOW_RECORDS ->
  rw_pending w !! fh_record_sequence h = None ->
  Z.of_nat (size (rw_pending w)) < FALLBACK_WINDOW_RECORDS ->
  rw_bytes w + fh_ciphertext_len h <= FALLBACK_WINDOW_BYTES ->
  exists w' r, observe w b = (w', r) /\ observed w w' b r /\ recv_inv w' /\ gap w' /\
    (r = Ok Buffered \/ exists outs, r = Ok (Contiguous outs)).
Proof using Type.
  intros Hi Hg Hu Hv Hwin Hp Hsz Hby. unfold observe. rewrite Hv. cbn zeta.
  pose proof (with_pending_inv w b h Hi Hu Hv Hp Hwin Hby) as Hi'.
  destruct (validate_facts b h Hu Hv) as [Hseq Hlen]. pose proof (rv_next w Hi).
  rewrite (proj2 (Z.ltb_ge _ _)) by lia. unfold saturating_sub. rewrite (proj2 (Z.leb_gt _ _)) by lia.
  rewrite Hp. rewrite (proj2 (Z.leb_gt _ _)) by lia.
  unfold saturating_add, add_in, USIZE_MAX, U64_MAX, FALLBACK_WINDOW_BYTES in *.
  rewrite (proj2 (Z.ltb_ge _ _)) by lia. cbn [orb]. rewrite (proj2 (Z.leb_le _ _)) by lia.
  cbn [rw_next_sequence rw_pending]. fold (with_pending w b h).
  destruct (Z.eqb_spec (fh_record_sequence h) (rw_next_sequence w)) as [He|Hne]; cbn [negb].
  - destruct (drain_spec (size (rw_pending (with_pending w b h))) (with_pending w b h) [] Hi') as (w' & outs & Hdr & Hto);
      [done|]. cbn [with_pending rw_pending] in Hdr. rewrite Hdr. cbn [app].
    do 2 eexists. split; [done|]. split; [by exists h|]. split; [apply Hto|]. split; [apply Hto|]. right. by exists outs.
  - do 2 eexists. split; [done|]. split; [exists h; split_and!; try done; lia|]. split; [done|]. split; [|by left].
    unfold gap. cbn. rewrite lookup_insert_ne by lia. exact Hg.
Qed.

Lemma observe_spec w b :
  recv_inv w -> gap w -> all_u8 b ->
  let '(w', r) := observe w b in observed w w' b r /\ recv_inv w' /\ gap w'.
Proof using Type.
  intros Hi Hg Hu. pose proof (validate_no_panic b) as Hnp. pose proof (observe_fits w b) as Hfits.
  unfold observe in *. destruct (validate_outer_header b) as [h|e|] eqn:Hv; [|done|done]. cbn zeta in *.
  destruct (validate_facts b h Hu Hv) as [Hseq Hlen].
  destruct (Z.ltb_spec (fh_record_sequence h) (rw_next_sequence w)) as [Hlt|Hge].
  { destruct (rw_accepted w !! _) as [d|]; [case_bool_decide|]; done. }
  destruct (Z.leb_spec FALLBACK_WINDOW_RECORDS
    (saturating_sub (fh_record_sequence h) (rw_next_sequence w))) as [|Hwin]; [done|].
  destruct (rw_pending w !! fh_record_sequence h) as [c|] eqn:Hp; [by case_bool_decide|].
  destruct (_ || _) eqn:Hcap; [done|]. apply orb_false_iff in Hcap as [Hsz Hcap].
  apply Z.ltb_ge in Hcap. apply Z.leb_gt in Hsz.
  destruct (Hfits h Hi Hg Hu eq_refl) as (w' & r & Heq & Ho & Hi' & Hg' & _); [..|by rewrite Heq].
  - unfold saturating_sub in Hwin. lia.
  - done.
  - done.
  - unfold saturating_add, FALLBACK_WINDOW_BYTES, U64_MAX in *. lia.
Qed.

(** ** Executions *)

(** The records a sequence of [observe] calls released. *)
Fixpoint released (w : FallbackReceiveWindow) (bs : list bytes) : list bytes :=
  match bs with
  | [] => []
  | b :: bs =>
      let '(w', r) := observe w b in
      (match r with Ok (Contiguous outs) => outs | _ => [] end) ++ released w' bs
  end.
Definition observe_all (w : FallbackReceiveWindow) (bs : list bytes) : FallbackReceiveWindow :=
  foldl (fun w b => (observe w b).1) w bs.

(** The sequence number an outer record carries. *)
Definition sequence_of (b : bytes) : option Z :=
  match validate_outer_header b with Ok h => Some (fh_record_sequence h) | _ => None end.

Lemma cached_sequence k c : cached_ok k c -> sequence_of (cr_bytes c) = Some k.
Proof using Type. intros (_ & _ & h & Hv & <- & _). unfold sequence_of. by rewrite Hv. Qed.

(** Every pending record was observed. *)
Definition pending_from (w : FallbackReceiveWindow) (bs : list bytes) : Prop :=
  forall k c, rw_pending w !! k = Some c -> cr_bytes c ∈ bs.

Lemma drained_sources w w' b h outs bs :
  drained_to (with_pending w b h) w' outs -> pending_from w bs ->
  pending_from w' (bs ++ [b]) /\ (forall o, o ∈ outs -> o ∈ bs ++ [b]).
Proof using Type.
  intros [D1 D2 D3 D4 D5] Hp.
  assert (forall k c, rw_pending (with_pending w b h) !! k = Some c -> cr_bytes c ∈ bs ++ [b]) as Hall.
  { intros k c Hk. cbn in Hk. apply lookup_insert_Some in Hk as [[_ <-]|[_ Hk]]; [set_solver|].
    apply elem_of_app. left. by eapply Hp. }
  split.
  - intros k c Hk. rewrite D4 in Hk. case_decide; [by eapply Hall|done].
  - intros o Ho. apply list_elem_of_lookup in Ho as [i Hi]. destruct (D3 i o Hi) as (c & Hc & <-). by eapply Hall.
Qed.

Lemma drained_sequences w w' outs i b :
  recv_inv w -> drained_to w w' outs -> outs !! i = Some b ->
  sequence_of b = Some (rw_next_sequence w + Z.of_nat i).
Proof using Type.
  intros Hi [D1 D2 D3 D4 D5] Hb. destruct (D3 i b Hb) as (c & Hc & <-).
  apply cached_sequence. by apply (rv_pending w Hi).
Qed.

Lemma released_spec w bs seen :
  recv_inv w -> gap w -> pending_from w seen -> Forall all_u8 bs ->
  let w' := observe_all w bs in
  recv_inv w' /\ gap w' /\ rw_next_sequence w' = rw_next_sequence w + zlen (released w bs) /\
  (forall i b, released w bs !! i = Some b ->
     sequence_of b = Some (rw_next_sequence w + Z.of_nat i) /\ b ∈ seen ++ bs).
Proof using Type.
  intros Hi Hg Hp Hu. revert w seen Hi Hg Hp. induction Hu as [|b bs Hb Hu IH]; intros w seen Hi Hg Hp; cbn.
  { rewrite zlen_nil. split_and!; try done; lia. }
  pose proof (observe_spec w b Hi Hg Hb) as Hs. destruct (observe w b) as [w1 r]. cbn.
  destruct Hs as (Ho & Hi1 & Hg1).
  assert (pending_from w1 (seen ++ [b]) /\ exists outs,
    (match r with Ok (Contiguous outs) => outs | _ => [] end) = outs /\
    rw_next_sequence w1 = rw_next_sequence w + zlen outs /\
    forall i o, outs !! i = Some o ->
      sequence_of o = Some (rw_next_sequence w + Z.of_nat i) /\ o ∈ seen ++ [b]) as (Hp1 & outs & -> & Hn1 & Hout).
  { assert (forall w', w' = w -> pending_from w' (seen ++ [b])) as Hsame.
    { intros w' ->. intros k c Hk. apply elem_of_app. left. by eapply Hp. }
    assert (rw_next_sequence w = rw_next_sequence w + zlen (@nil bytes)) as H0 by (rewrite zlen_nil; lia).
    destruct r as [[| |outs]|e|]; cbn in Ho; [| | | |done].
    - destruct Ho as (h & Hv & Hlt & -> & Hnone). split; [|by exists []].
      intros k c Hk. cbn in Hk. apply lookup_insert_Some in Hk as [[_ <-]|[_ Hk]]; [set_solver|].
      apply elem_of_app. left. by eapply Hp.
    - subst w1. split; [by apply Hsame|by exists []].
    - destruct Ho as (h & Hv & Hseq & Hwi & Hd). destruct (drained_sources _ _ _ _ _ _ Hd Hp) as [Hp1 Hin].
      split; [done|]. exists outs. split; [done|]. split; [apply (dt_next _ _ _ Hd)|].
      intros i o Hio. split; [apply (drained_sequences _ _ _ i o Hwi Hd Hio)|].
      apply Hin. by eapply list_elem_of_lookup_2.
    - subst w1. split; [by apply Hsame|by exists []]. }
  destruct (IH w1 (seen ++ [b]) Hi1 Hg1 Hp1) as (Hi2 & Hg2 & Hn2 & Hr2). unfold observe_all in *.
  split; [done|]. split; [done|]. rewrite zlen_app. split; [lia|].
  intros i o Hio. apply lookup_app_Some in Hio as [Hio|[Hle Hio]].
  - destruct (Hout i o Hio) as [? Hin]. split; [done|]. set_solver.
  - destruct (Hr2 _ o Hio) as [Hs2 Hin]. split; [|set_solver]. rewrite Hs2. f_equal. unfold zlen in Hn1. lia.
Qed.

(** The receive window releases every record once and in order: whatever byte
    strings arrive, in whatever order, repeated or forged, the records released so
    far carry the sequence numbers 0, 1, 2, ... with none missing or repeated,
    each is one of the byte strings that arrived, and the window stays within 64
    pending records, 64 remembered digests and 4 MiB, and never panics. *)
Theorem fallback_release_in_order (now : Z) (bs : list bytes) :
  Forall all_u8 bs ->
  let w := observe_all (receive_new now) bs in
  map sequence_of (released (receive_new now) bs) = map Some (seqZ 0 (rw_next_sequence w)) /\
  (forall b, b ∈ released (receive_new now) bs -> b ∈ bs) /\
  Z.of_nat (size (rw_pending w)) <= FALLBACK_WINDOW_RECORDS /\
  Z.of_nat (size (rw_accepted w)) <= FALLBACK_WINDOW_RECORDS /\
  0 <= rw_bytes w <= FALLBACK_WINDOW_BYTES /\
  (forall b, all_u8 b -> (observe w b).2 <> Panic).
Proof using Type.
  intros Hu w. set (w0 := receive_new now) in *.
  assert (gap w0) as Hg0 by apply lookup_empty.
  assert (pending_from w0 []) as Hp0 by done.
  destruct (released_spec w0 bs [] (recv_inv_new now) Hg0 Hp0 Hu) as (Hi & Hg & Hn & Hr). fold w in Hi, Hg, Hn.
  cbn in Hn. unfold FALLBACK_WINDOW_RECORDS. split_and!.
  - apply list_eq. intros i. rewrite !list_lookup_fmap, Hn.
    destruct (released w0 bs !! i) as [b|] eqn:Hb.
    + rewrite lookup_seqZ_lt by (apply lookup_lt_Some in Hb; unfold zlen; lia). cbn.
      by destruct (Hr i b Hb) as [-> _].
    + rewrite lookup_seqZ_ge; [done|]. apply lookup_ge_None in Hb. unfold zlen. lia.
  - intros b Hb. apply list_elem_of_lookup in Hb as [i Hb]. by destruct (Hr i b Hb) as [_ ?].
  - rewrite <- size_dom. etransitivity; [apply (gset_interval_size _ (rw_next_sequence w) 64)|lia].
    intros k Hk. apply elem_of_dom in Hk as [c Hk]. destruct (rv_pending w Hi k c Hk). unfold FALLBACK_WINDOW_RECORDS in *. lia.
  - rewrite <- size_dom, (rv_accepted w Hi). pose proof (rv_next w Hi). rewrite size_interval; unfold FALLBACK_WINDOW_RECORDS; lia.
  - rewrite (rv_bytes w Hi). apply map_sum_nonneg. intros k c Hk. destruct (rv_pending w Hi k c Hk) as [_ Hok].
    by apply cached_cost in Hok as [? _].
  - apply (rv_cap w Hi).
  - intros b Hb. pose proof (observe_spec w b Hi Hg Hb) as Ho. destruct (observe w b) as [w1 r].
    destruct Ho as [Ho _]. cbn. by intros ->.
Qed.

(** ** Recovery from loss and reordering *)

Definition cost_of (b : bytes) : Z :=
  match validate_outer_header b with Ok h => fh_ciphertext_len h | _ => 0 end.
Fixpoint total_cost (bs : list bytes) : Z :=
  match bs with [] => 0 | b :: bs => cost_of b + total_cost bs end.

Lemma total_cost_app l k : total_cost (l ++ k) = total_cost l + total_cost k.
Proof using Type. induction l; cbn; lia. Qed.

(** Cached records that are the ones of a list at their positions. *)
Definition drawn_from (rs : list bytes) (m : gmap Z CachedRecord) : Prop :=
  forall k c, m !! k = Some c ->
    0 <= k /\ rs !! Z.to_nat k = Some (cr_bytes c) /\ cr_byte_cost c = cost_of (cr_bytes c).

(** A sequence number the window has released or holds. *)
Definition covered (w : FallbackReceiveWindow) (k : Z) : Prop :=
  k < rw_next_sequence w \/ is_Some (rw_pending w !! k).

Lemma observed_keeps w w' b r k : observed w w' b r -> covered w k -> covered w' k.
Proof using Type.
  unfold covered. destruct r as [[| |outs]|e|]; cbn; [|by intros ->| |by intros ->|done].
  - intros (h & _ & _ & -> & _) [Hk|Hk]; [by left|right]. cbn. by apply lookup_insert_is_Some'; right.
  - intros (h & _ & Hs & _ & [D1 D2 D3 D4 D5]) Hk. rewrite D4. cbn in D2, D4 |- *.
    pose proof (zlen_nonneg outs). case_decide; [|left; lia].
    destruct Hk as [Hk|Hk]; [left; lia|right]. by apply lookup_insert_is_Some'; right.
Qed.

(** ** The send window *)

(** Iteration over an interval of keys is in order. *)
Lemma seqZ_sorted (n : nat) a : StronglySorted Z.le (seqZ a (Z.of_nat n)).
Proof using Type.
  revert a. induction n as [|n IH]; intros a; [constructor|].
  rewrite seqZ_cons by lia. replace (Z.pred (Z.of_nat (S n))) with (Z.of_nat n) by lia.
  constructor; [apply IH|]. apply Forall_forall. intros k Hk. apply elem_of_seqZ in Hk. lia.
Qed.

Lemma btree_keys_interval {A} (m : gmap Z A) a b :
  a <= b -> dom m = interval a b -> btree_keys m = seqZ a (b - a).
Proof using Type.
  intros Hab Hd. unfold btree_keys. rewrite Hd. apply (StronglySorted_unique Z.le).
  - apply StronglySorted_merge_sort; [intros x y z; lia|intros x y; lia].
  - replace (b - a) with (Z.of_nat (Z.to_nat (b - a))) by lia. apply seqZ_sorted.
  - rewrite merge_sort_Permutation. unfold interval. by apply elements_list_to_set, NoDup_seqZ.
Qed.

(** ** Retries *)

(** How often a list of records carries sequence [k]. *)
Definition count_seq (k : Z) (bs : list bytes) : Z :=
  Z.of_nat (length (filter (fun b => sequence_of b = Some k) bs)).

Lemma count_seq_app k l1 l2 : count_seq k (l1 ++ l2) = count_seq k l1 + count_seq k l2.
Proof using Type. unfold count_seq. rewrite filter_app, length_app. lia. Qed.
Lemma count_seq_one k b j : sequence_of b = Some j -> count_seq k [b] = if decide (j = k) then 1 else 0.
Proof using Type.
  intros Hb. unfold count_seq. rewrite filter_cons, filter_nil, Hb.
  destruct (decide (j = k)) as [->|Hne]; [by rewrite decide_True|]. rewrite decide_False by congruence. done.
Qed.

(** The retry count of a cached record; absent records count as [z]. *)
Definition retries (z : Z) (m : gmap Z CachedRecord) (k : Z) : Z :=
  match m !! k with Some c => cr_retry_index c | None => z end.

Definition MAX_RETRIES : Z := zlen RETRY_MILLIS.

(** What the retry loop may do to the cache. *)
Record retried (m m' : gmap Z CachedRecord) : Prop := {
  rt_none : forall k, m !! k = None -> m' !! k = None;
  rt_some : forall k c, m !! k = Some c -> exists c', m' !! k = Some c' /\
    cr_bytes c' = cr_bytes c /\ cr_byte_cost c' = cr_byte_cost c /\ cr_digest c' = cr_digest c /\
    cr_tracked c' = cr_tracked c /\ cr_retry_index c <= cr_retry_index c' <= MAX_RETRIES;
}.

(** The cache of a send window. *)
Definition cache_ok (m : gmap Z CachedRecord) : Prop :=
  forall k c, m !! k = Some c -> cached_ok k c /\ 0 <= cr_retry_index c <= MAX_RETRIES.

Lemma retried_refl m : cache_ok m -> retried m m.
Proof using Type. intros Hm. split; [done|]. intros k c Hk. exists c. destruct (Hm k c Hk). split_and!; (done || lia). Qed.

Lemma retried_trans m1 m2 m3 : retried m1 m2 -> retried m2 m3 -> retried m1 m3.
Proof using Type.
  intros [N1 S1] [N2 S2]. split; [auto|]. intros k c Hk.
  destruct (S1 k c Hk) as (c2 & H2 & E1 & E2 & E3 & E4 & E5).
  destruct (S2 k c2 H2) as (c3 & H3 & F1 & F2 & F3 & F4 & F5). exists c3. split_and!; (congruence || lia).
Qed.

Definition bump (c : CachedRecord) : CachedRecord :=
  mkCached (cr_bytes c) (cr_byte_cost c) (cr_digest c) (cr_tracked c) (cr_retry_index c + 1).

Lemma bump_retried m k c :
  cache_ok m -> m !! k = Some c -> cr_retry_index c < MAX_RETRIES ->
  cache_ok (<[k := bump c]> m) /\ retried m (<[k := bump c]> m).
Proof using Type.
  intros Hm Hk Hlt. split.
  - intros j x Hj. apply lookup_insert_Some in Hj as [[<- <-]|[_ Hj]]; [|by apply Hm].
    destruct (Hm k c Hk) as [(Hu & Hd & Hh) Hr]. split; [done|cbn; lia].
  - split.
    + intros j Hj. rewrite lookup_insert_ne; [done|]. intros ->. congruence.
    + intros j x Hj. destruct (decide (k = j)) as [<-|Hne].
      * rewrite Hk in Hj. injection Hj as <-. exists (bump c). rewrite lookup_insert_eq. destruct (Hm k c Hk). cbn.
        split_and!; (done || lia).
      * rewrite lookup_insert_ne by done. exists x. destruct (Hm j x Hj). split_and!; (done || lia).
Qed.

Lemma retry_loop_spec keys elapsed : forall m due,
  cache_ok m ->
  let '(m', r) := retry_loop keys elapsed m due in
  cache_ok m' /\ retried m m' /\ r <> Panic /\
  forall due', r = Ok due' -> exists outs, due' = due ++ outs /\
    (forall b, b ∈ outs -> exists k c, m !! k = Some c /\ cr_tracked c = true /\ cr_bytes c = b) /\
    (forall k z, count_seq k outs <= retries z m' k - retries z m k).
Proof using Type.
  induction keys as [|k keys IH]; intros m due Hm; cbn [retry_loop].
  { split; [done|]. split; [by apply retried_refl|]. split; [done|]. intros due' [= <-]. exists [].
    split; [by rewrite app_nil_r|]. split; [set_solver|]. intros k z. change (count_seq k []) with 0. lia. }
  destruct (m !! k) as [c|] eqn:Hk; [|by apply IH].
  destruct (cr_tracked c) eqn:Htr; cbn [negb]; [|by apply IH].
  destruct (Hm k c Hk) as [Hck Hri]. change MAX_RETRIES with 3 in *. change (zlen RETRY_MILLIS) with 3.
  assert (index RETRY_MILLIS 2 = @Ok NoiseError Z 3000) as Hlast by reflexivity.
  destruct (Z.ltb_spec (cr_retry_index c) 3) as [Hlt|Hge].
  2: { rewrite Hlast.
       destruct (_ && _); [|by apply IH]. split; [done|]. split; [by apply retried_refl|]. split; [done|]. done. }
  destruct (index_ok (E:=NoiseError) RETRY_MILLIS (cr_retry_index c)) as (x & -> & _); [change (zlen RETRY_MILLIS) with 3; lia|].
  rewrite bind_Ok_l. destruct (x <=? elapsed).
  2: { rewrite Hlast, (proj2 (Z.eqb_neq _ _)) by lia. cbn [andb]. by apply IH. }
  unfold add_in, USIZE_MAX, U64_MAX. rewrite (proj2 (Z.leb_le _ _)) by lia.
  replace (mkCached _ _ _ _ _) with (bump c) by (unfold bump; by rewrite Htr).
  destruct (bump_retried m k c Hm Hk Hlt) as [Hm1 Hb1].
  specialize (IH (<[k := bump c]> m) (due ++ [cr_bytes c]) Hm1).
  destruct (retry_loop keys elapsed _ _) as [m' r]. destruct IH as (Hm' & Hr' & Hnp & Hout).
  split; [done|]. split; [by eapply retried_trans|]. split; [done|]. intros due' ->.
  destruct (Hout due' eq_refl) as (outs & -> & Hsrc & Hcnt).
  exists (cr_bytes c :: outs). split; [by rewrite <- app_assoc|]. split.
  - intros b Hb. apply elem_of_cons in Hb as [->|Hb]; [by exists k, c|].
    destruct (Hsrc b Hb) as (j & y & Hj & Ht & Hbb). apply lookup_insert_Some in Hj as [[<- <-]|[_ Hj]]; [|by exists j, y].
    exists k, c. by cbn in *.
  - intros j z. specialize (Hcnt j z). change (cr_bytes c :: outs) with ([cr_bytes c] ++ outs).
    rewrite count_seq_app, (count_seq_one j _ k) by (by apply cached_sequence).
    unfold retries in *. destruct (decide (k = j)) as [<-|Hne].
    + rewrite lookup_insert_eq in Hcnt. rewrite Hk. cbn in Hcnt. lia.
    + rewrite lookup_insert_ne in Hcnt by done. lia.
Qed.

(** ** Executions of the send window *)

Inductive send_op :=
| SInsert (sequence : Z) (ciphertext : bytes) (delivery_tracked : bool)
| SAcknowledge (largest : Z)
| SRetry (elapsed_millis : Z)
| SRelease (watermark : Z).

Definition typed_send_op (op : send_op) : Prop :=
  match op with
  | SInsert _ b _ => all_u8 b
  | SAcknowledge n | SRelease n => is_u64 n
  | SRetry _ => True
  end.

(** One call, with the records it hands back for retransmission. *)
Definition send_apply (w : FallbackSendWindow) (op : send_op) : FallbackSendWindow * NoiseResult (list bytes) :=
  let no_records x := (x.1, x.2 ≫= fun _ : unit => Ok []) in
  match op with
  | SInsert q b t => no_records (send_insert w q b t)
  | SAcknowledge n => no_records (send_acknowledge w n)
  | SRetry t => retry_due w t
  | SRelease n => no_records (release_peer_seen_through w n)
  end.

Record send_inv (w : FallbackSendWindow) : Prop := {
  sv_cache : cache_ok (sw_records w);
  sv_keys : forall k c, sw_records w !! k = Some c -> k < sw_next_sequence w;
  sv_next : 0 <= sw_next_sequence w <= FALLBACK_SEQUENCE_LIMIT;
  sv_bytes : sw_bytes w = pending_cost (sw_records w);
  sv_cap : sw_bytes w <= FALLBACK_WINDOW_BYTES;
  sv_size : Z.of_nat (size (sw_records w)) <= FALLBACK_WINDOW_RECORDS;
  sv_ack : sw_delivery_ack w = ACK_NONE \/ sw_delivery_ack w < sw_next_sequence w;
  sv_tracked : forall k c, sw_records w !! k = Some c -> cr_tracked c = true ->
    sw_delivery_ack w = ACK_NONE \/ sw_delivery_ack w < k;
}.

Lemma send_inv_new : send_inv send_new.
Proof using Type. split; try done; by left. Qed.

Lemma release_loop_spec keys : forall n m,
  cache_ok m -> n = pending_cost m ->
  exists n' m', release_loop keys n m = ((n', m'), Ok tt) /\ m' ⊆ m /\ n' = pending_cost m' /\ n' <= n.
Proof using Type.
  induction keys as [|k keys IH]; intros n m Hm Hn; cbn [release_loop]; [by exists n, m|].
  destruct (m !! k) as [c|] eqn:Hk; [|by apply IH].
  destruct (pending_cost_delete m k c) as [Hs H0]; [|done|].
  { intros j x Hj. by destruct (Hm j x Hj) as [[? _]%cached_cost _]. }
  destruct (Hm k c Hk) as [Hok _]. apply cached_cost in Hok as [Hc _].
  rewrite sub_in_le by lia.
  destruct (IH (n - cr_byte_cost c) (delete k m)) as (n' & m' & -> & Hsub & Hn' & Hle); [|lia|].
  { intros j x Hj. apply lookup_delete_Some in Hj as [_ Hj]. by apply Hm. }
  exists n', m'. split; [done|]. split; [etransitivity; [exact Hsub|apply delete_subseteq]|]. split; [done|lia].
Qed.

Lemma pending_cost_ext m m' :
  (forall k, cr_byte_cost <$> m' !! k = cr_byte_cost <$> m !! k) ->
  pending_cost m' = pending_cost m /\ dom m' = dom m.
Proof using Type.
  intros Hk. split.
  - unfold pending_cost.
    assert (forall X : gmap Z CachedRecord, map_sum (fun _ c => cr_byte_cost c) X =
      map_sum (fun _ z => z) (cr_byte_cost <$> X)) as Hf.
    { intros X. induction X as [|k x X Hx IH] using map_ind; [by rewrite fmap_empty, !map_sum_empty|].
      rewrite fmap_insert, !map_sum_insert by (done || by rewrite lookup_fmap, Hx). by rewrite IH. }
    rewrite !Hf. f_equal. apply map_eq. intros k. by rewrite !lookup_fmap.
  - apply set_eq. intros k. rewrite !elem_of_dom, <- !(fmap_is_Some cr_byte_cost), Hk. done.
Qed.

(** The retries spent on a sequence number: a released record has spent them all, a
    future one none. *)
Definition spent (w : FallbackSendWindow) (k : Z) : Z :=
  if decide (k < sw_next_sequence w) then retries MAX_RETRIES (sw_records w) k else 0.

Lemma spent_bound w k : send_inv w -> 0 <= spent w k <= MAX_RETRIES.
Proof using Type.
  intros Hi. unfold spent, retries. case_decide; [|done]. destruct (sw_records w !! k) as [c|] eqn:Hk; [|done].
  by destruct (sv_cache w Hi k c Hk).
Qed.

(** What one call guarantees. *)
Definition send_post (w w' : FallbackSendWindow) (r : NoiseResult (list bytes)) : Prop :=
  send_inv w' /\ r <> Panic /\
  let outs := match r with Ok outs => outs | _ => [] end in
  (forall k, count_seq k outs + spent w k <= spent w' k) /\
  (forall b, b ∈ outs -> exists k, sequence_of b = Some k /\
     (sw_delivery_ack w = ACK_NONE \/ sw_delivery_ack w < k)).

Lemma send_post_same w r : send_inv w -> r <> Panic -> (forall l, r = Ok l -> l = []) -> send_post w w r.
Proof using Type.
  intros Hi Hr Hl. split; [done|]. split; [done|]. destruct r as [l|e|]; [|split; [|set_solver]; intros k; change (count_seq k []) with 0; lia|done].
  rewrite (Hl l eq_refl). split; [|set_solver]. intros k. change (count_seq k []) with 0. lia.
Qed.

(** A call that hands back nothing. *)
Lemma send_post_quiet w w' : send_inv w' -> (forall k, spent w k <= spent w' k) -> send_post w w' (Ok []).
Proof using Type.
  intros Hi Hs. split; [done|]. split; [done|]. split; [|set_solver]. intros k. change (count_seq k []) with 0.
  specialize (Hs k). lia.
Qed.

Lemma insert_post w q b t :
  send_inv w -> all_u8 b -> send_post w (send_apply w (SInsert q b t)).1 (send_apply w (SInsert q b t)).2.
Proof using Type.
  intros Hi Hu. cbn. unfold send_insert. pose proof (validate_no_panic b) as Hnp.
  destruct (validate_outer_header b) as [h|e|] eqn:Hv; [|by apply send_post_same|done].
  destruct (validate_facts b h Hu Hv) as [Hseq Hlen].
  destruct (Z.eqb_spec (fh_record_sequence h) q) as [<-|]; cbn [negb]; [|by apply send_post_same].
  destruct (_ || _) eqn:G; [by apply send_post_same|].
  apply orb_false_iff in G as [G Gb]. apply orb_false_iff in G as [G Gs]. apply orb_false_iff in G as [Gn Gk].
  apply negb_false_iff, Z.eqb_eq in Gn. apply bool_decide_eq_false in Gk. apply eq_None_not_Some in Gk.
  apply Z.leb_gt in Gs. apply Z.ltb_ge in Gb. destruct Hi as [I1 I2 I3 I4 I5 I6 I7 I8].
  unfold saturating_add, FALLBACK_WINDOW_BYTES, FALLBACK_WINDOW_RECORDS, FALLBACK_MAX_CIPHERTEXT in *.
  unfold add_in, checked_add, USIZE_MAX, U64_MAX in *. rewrite (proj2 (Z.leb_le _ _)) by lia.
  unfold FALLBACK_SEQUENCE_LIMIT in *. change (Z.shiftl 1 32) with 4294967296 in *.
  rewrite (proj2 (Z.leb_le _ _)) by lia. cbn. apply send_post_quiet.
  - split; cbn; try done.
    + intros k c Hk. apply lookup_insert_Some in Hk as [[<- <-]|[_ Hk]]; [|by apply I1].
      split; [|done]. split; [done|]. split; [done|]. by exists h.
    + intros k c Hk. apply lookup_insert_Some in Hk as [[<- _]|[_ Hk]]; [lia|]. specialize (I2 k c Hk). lia.
    + unfold FALLBACK_SEQUENCE_LIMIT. change (Z.shiftl 1 32) with 4294967296. lia.
    + unfold pending_cost in *. rewrite map_sum_insert by done. cbn. lia.
    + unfold FALLBACK_WINDOW_BYTES. lia.
    + rewrite map_size_insert_None by done. unfold FALLBACK_WINDOW_RECORDS. lia.
    + destruct I7; [by left|right; lia].
    + intros k c Hk Ht. apply lookup_insert_Some in Hk as [[<- _]|[_ Hk]]; [destruct I7; [by left|right; lia]|by eapply I8].
  - intros k. unfold spent, retries. cbn. destruct (decide (fh_record_sequence h = k)) as [<-|Hne].
    + rewrite lookup_insert_eq. rewrite decide_False by lia. by rewrite decide_True by lia.
    + rewrite lookup_insert_ne by done. repeat case_decide; try lia.
Qed.

Lemma acknowledge_post w n :
  send_inv w -> is_u64 n -> send_post w (send_apply w (SAcknowledge n)).1 (send_apply w (SAcknowledge n)).2.
Proof using Type.
  intros Hi Hn. cbn. unfold send_acknowledge. destruct (Z.eqb_spec n ACK_NONE) as [|Hne].
  { cbn. destruct (_ =? _); apply send_post_same; (done || by intros l [= <-]). }
  destruct (_ || _) eqn:G; [by apply send_post_same|]. apply orb_false_iff in G as [G1 G2]. apply Z.leb_gt in G1.
  cbn. set (m := map_imap _ _).
  assert (forall k, m !! k = (fun r => if k <=? n then untrack r else r) <$> sw_records w !! k) as Hm.
  { intros k. subst m. rewrite map_lookup_imap. by destruct (sw_records w !! k). }
  destruct Hi as [I1 I2 I3 I4 I5 I6 I7 I8].
  destruct (pending_cost_ext (sw_records w) m) as [Hcost Hdom].
  { intros k. rewrite Hm. destruct (sw_records w !! k) as [c|]; [|done]. cbn. by destruct (k <=? n). }
  assert (forall k c, m !! k = Some c -> exists c0, sw_records w !! k = Some c0 /\
    c = (if k <=? n then untrack c0 else c0)) as Hinv.
  { intros k c Hk. rewrite Hm in Hk. destruct (sw_records w !! k) as [c0|]; [|done]. injection Hk as <-. by exists c0. }
  apply send_post_quiet.
  - split; cbn; try done.
    + intros k c Hk. destruct (Hinv k c Hk) as (c0 & Hk0 & ->). destruct (I1 k c0 Hk0) as [(Hu & Hd & Hh) Hr].
      by destruct (k <=? n).
    + intros k c Hk. destruct (Hinv k c Hk) as (c0 & Hk0 & _). by eapply I2.
    + lia.
    + rewrite <- size_dom, Hdom, size_dom. done.
    + by right.
    + intros k c Hk Ht. destruct (Hinv k c Hk) as (c0 & Hk0 & ->).
      destruct (Z.leb_spec k n); [done|right; lia].
  - intros k. unfold spent, retries. cbn. rewrite Hm. case_decide; [|done].
    destruct (sw_records w !! k) as [c|]; cbn; [|done]. by destruct (k <=? n).
Qed.

Lemma retry_post w t :
  send_inv w -> send_post w (send_apply w (SRetry t)).1 (send_apply w (SRetry t)).2.
Proof using Type.
  intros [I1 I2 I3 I4 I5 I6 I7 I8]. cbn. unfold retry_due.
  pose proof (retry_loop_spec (btree_keys (sw_records w)) t (sw_records w) [] I1) as Hs.
  destruct (retry_loop _ _ _ _) as [m r]. cbn. destruct Hs as (Hc & Hr & Hnp & Hout).
  destruct (pending_cost_ext (sw_records w) m) as [Hcost Hdom].
  { intros k. destruct Hr as [N S]. destruct (sw_records w !! k) as [c|] eqn:Hk; [|by rewrite (N k Hk)].
    destruct (S k c Hk) as (c' & -> & _ & E & _). cbn. by rewrite E. }
  assert (forall k c, m !! k = Some c -> exists c0, sw_records w !! k = Some c0 /\ cr_tracked c = cr_tracked c0) as Hback.
  { intros k c Hk. destruct Hr as [N S]. destruct (sw_records w !! k) as [c0|] eqn:Hk0; [|by rewrite (N k Hk0) in Hk].
    destruct (S k c0 Hk0) as (c' & Hk' & _ & _ & _ & E & _). rewrite Hk in Hk'. injection Hk' as <-. by exists c0. }
  split; [|split; [done|]].
  - split; cbn; try done.
    + intros k c Hk. destruct (Hback k c Hk) as (c0 & Hk0 & _). by eapply I2.
    + lia.
    + rewrite <- size_dom, Hdom, size_dom. done.
    + intros k c Hk Ht. destruct (Hback k c Hk) as (c0 & Hk0 & E). apply (I8 k c0 Hk0). congruence.
  - assert (forall k, retries MAX_RETRIES (sw_records w) k <= retries MAX_RETRIES m k) as Hmono.
    { intros k. unfold retries. destruct Hr as [N S]. destruct (sw_records w !! k) as [c|] eqn:Hk; [|by rewrite (N k Hk)].
      destruct (S k c Hk) as (c' & -> & _ & _ & _ & _ & E). lia. }
    destruct r as [outs|e|]; [|split; [|set_solver]|done].
    + destruct (Hout outs eq_refl) as (outs' & -> & Hsrc & Hcnt). cbn [app]. split.
      * intros k. specialize (Hcnt k MAX_RETRIES). unfold spent. cbn. case_decide as Hk; [lia|].
        assert (count_seq k outs' <= 0); [|lia]. unfold retries in Hcnt.
        destruct (sw_records w !! k) as [c|] eqn:Hk2; [specialize (I2 k c Hk2); lia|].
        destruct (m !! k) as [c|] eqn:Hk3; [|lia]. by destruct (Hback k c Hk3) as (c0 & ? & _); congruence.
      * intros b Hb. destruct (Hsrc b Hb) as (k & c & Hk & Ht & <-). exists k.
        split; [apply cached_sequence; by apply (I1 k c Hk)|by apply (I8 k c Hk)].
    + intros k. change (count_seq k []) with 0. unfold spent. cbn. specialize (Hmono k). case_decide; lia.
Qed.

Lemma release_post w n :
  send_inv w -> is_u64 n -> send_post w (send_apply w (SRelease n)).1 (send_apply w (SRelease n)).2.
Proof using Type.
  intros Hi Hn. cbn. unfold release_peer_seen_through. destruct (Z.eqb_spec n ACK_NONE) as [|Hne].
  { cbn. destruct (_ =? _); apply send_post_same; (done || by intros l [= <-]). }
  destruct (_ || _) eqn:G; [by apply send_post_same|]. destruct Hi as [I1 I2 I3 I4 I5 I6 I7 I8].
  destruct (release_loop_spec (filter (fun k => k <= n) (btree_keys (sw_records w))) (sw_bytes w)
    (sw_records w) I1 I4) as (b & m & -> & Hsub & Hb & Hle). cbn. apply send_post_quiet.
  - split; cbn; try done.
    + intros k c Hk. apply I1. by eapply lookup_weaken.
    + intros k c Hk. apply (I2 k c). by eapply lookup_weaken.
    + lia.
    + etransitivity; [|exact I6]. apply inj_le. by apply map_subseteq_size.
    + intros k c Hk Ht. apply (I8 k c); [|done]. by eapply lookup_weaken.
  - intros k. unfold spent, retries. cbn. case_decide; [|done].
    destruct (m !! k) as [c|] eqn:Hk; [rewrite (lookup_weaken _ _ _ _ Hk Hsub); lia|].
    destruct (sw_records w !! k) as [c|] eqn:Hk2; [destruct (I1 k c Hk2); lia|lia].
Qed.

Lemma send_apply_post w op :
  send_inv w -> typed_send_op op -> send_post w (send_apply w op).1 (send_apply w op).2.
Proof using Type.
  intros Hi Hop. destruct op; [by apply insert_post|by apply acknowledge_post|by apply retry_post|by apply release_post].
Qed.

(** All records handed back for retransmission by a sequence of calls. *)
Fixpoint retried_records (w : FallbackSendWindow) (ops : list send_op) : list bytes :=
  match ops with
  | [] => []
  | op :: ops =>
      (match (send_apply w op).2 with Ok outs => outs | _ => [] end)
      ++ retried_records (send_apply w op).1 ops
  end.
Definition send_run (w : FallbackSendWindow) (ops : list send_op) : FallbackSendWindow :=
  foldl (fun w op => (send_apply w op).1) w ops.

Lemma send_run_spec ops : forall w,
  send_inv w -> Forall typed_send_op ops ->
  send_inv (send_run w ops) /\
  forall k, count_seq k (retried_records w ops) + spent w k <= spent (send_run w ops) k.
Proof using Type.
  induction ops as [|op ops IH]; intros w Hi Hops; cbn.
  { split; [done|]. intros k. change (count_seq k []) with 0. lia. }
  apply Forall_cons in Hops as [Hop Hops]. destruct (send_apply_post w op Hi Hop) as (Hi' & _ & Hc & _).
  destruct (IH _ Hi' Hops) as [Hi2 Hc2]. split; [done|]. intros k. rewrite count_seq_app.
  specialize (Hc k). specialize (Hc2 k). unfold send_run in *. lia.
Qed.

(** Retransmission is bounded: over any calls, the send cache stays within 64
    records and 4 MiB, no record is retried more than three times in its life, a
    record that has been acknowledged is never handed back for retry, and no call
    panics. *)
Theorem fallback_retries_bounded (ops : list send_op) (op : send_op) (k : Z) :
  Forall typed_send_op ops -> typed_send_op op ->
  let w := send_run send_new ops in
  count_seq k (retried_records send_new ops) <= 3 /\
  Z.of_nat (size (sw_records w)) <= FALLBACK_WINDOW_RECORDS /\
  sw_bytes w = pending_cost (sw_records w) /\ sw_bytes w <= FALLBACK_WINDOW_BYTES /\
  (send_apply w op).2 <> Panic /\
  (forall outs b, (send_apply w op).2 = Ok outs -> b ∈ outs ->
     exists q, sequence_of b = Some q /\ (sw_delivery_ack w = ACK_NONE \/ sw_delivery_ack w < q)).
Proof using Type.
  intros Hops Hop w. destruct (send_run_spec ops send_new send_inv_new Hops) as [Hi Hc]. fold w in Hi, Hc.
  destruct (send_apply_post w op Hi Hop) as (_ & Hnp & _ & Hack).
  pose proof (spent_bound w k Hi) as Hb. specialize (Hc k). change MAX_RETRIES with 3 in Hb.
  pose proof (spent_bound send_new k send_inv_new) as Hb0.
  split; [lia|]. split; [apply (sv_size w Hi)|]. split; [apply (sv_bytes w Hi)|]. split; [apply (sv_cap w Hi)|].
  split; [done|]. intros outs b Ho Hin. rewrite Ho in Hack. by apply Hack.
Qed.
End receive.

(** ** The outer record and acknowledgement codecs *)

Definition wf_outer (r : FallbackOuterRecordV1) : Prop :=
  0 < fo_route_generation r <= U64_MAX /\ 0 <= fo_record_sequence r < FALLBACK_SEQUENCE_LIMIT /\
  is_u64 (fo_peer_seen_through r) /\
  FALLBACK_MIN_CIPHERTEXT <= zlen (fo_ciphertext r) <= FALLBACK_MAX_CIPHERTEXT.

Definition outer_wire (r : FallbackOuterRecordV1) : bytes :=
  1 :: to_be 8 (fo_route_generation r) ++ direction_code (fo_direction r)
    :: to_be 8 (fo_record_sequence r) ++ to_be 8 (fo_peer_seen_through r)
    ++ to_be 2 (zlen (fo_ciphertext r)) ++ fo_ciphertext r.

Lemma outer_encode_ok r : wf_outer r -> outer_encode r = Ok (outer_wire r).
Proof.
  intros (Hg & Hs & _ & Hl). unfold outer_encode. unfold FALLBACK_MIN_CIPHERTEXT, FALLBACK_MAX_CIPHERTEXT, U16_MAX in *.
  rewrite (proj2 (Z.eqb_neq _ _)) by lia. rewrite (proj2 (Z.leb_gt _ _)) by lia.
  rewrite !(proj2 (Z.ltb_ge _ _)) by lia. by rewrite (proj2 (Z.leb_le _ _)) by lia.
Qed.

Lemma direction_round d : direction_try_from (direction_code d) = Ok d.
Proof. by destruct d. Qed.

Lemma outer_header_ok r :
  wf_outer r -> validate_outer_header (outer_wire r) =
    Ok (mkOuterHeader (fo_route_generation r) (fo_direction r) (fo_record_sequence r)
          (fo_peer_seen_through r) (zlen (fo_ciphertext r))).
Proof.
  intros (Hg & Hs & Hp & Hl). unfold validate_outer_header.
  assert (zlen (outer_wire r) = 28 + zlen (fo_ciphertext r)) as Hz by (unfold outer_wire; zlen_solve). rewrite Hz.
  unfold FALLBACK_OUTER_HEADER_LEN, FALLBACK_MAX_MESSAGE, FALLBACK_MIN_CIPHERTEXT, FALLBACK_MAX_CIPHERTEXT in *.
  rewrite !(proj2 (Z.ltb_ge _ _)) by lia. cbn [orb]. unfold outer_wire.
  rewrite (index_head 1 _ 0) by done. rewrite bind_Ok_l. cbn [Z.eqb Pos.eqb negb].
  replace (slice _ 26 28) with (@Ok NoiseError bytes (to_be 2 (zlen (fo_ciphertext r))))
    by (symmetry; read_field; done). rewrite bind_Ok_l.
  replace (slice _ 1 9) with (@Ok NoiseError bytes (to_be 8 (fo_route_generation r)))
    by (symmetry; read_field; done). rewrite bind_Ok_l.
  replace (slice _ 10 18) with (@Ok NoiseError bytes (to_be 8 (fo_record_sequence r)))
    by (symmetry; read_field; done). rewrite bind_Ok_l.
  replace (index _ 9) with (@Ok NoiseError Z (direction_code (fo_direction r)))
    by (symmetry; read_byte; done). rewrite bind_Ok_l, direction_round, bind_Ok_l.
  replace (slice _ 18 26) with (@Ok NoiseError bytes (to_be 8 (fo_peer_seen_through r)))
    by (symmetry; read_field; done). rewrite bind_Ok_l. cbn zeta.
  unfold is_u64, U64_MAX in *. unfold FALLBACK_SEQUENCE_LIMIT in *. change (Z.shiftl 1 32) with 4294967296 in *.
  rewrite !from_be_to_be_small by (first
    [ change (256 ^ Z.of_nat 2) with 65536; lia
    | change (256 ^ Z.of_nat 8) with 18446744073709551616; lia ]).
  rewrite !(proj2 (Z.leb_le _ _)) by lia. rewrite Z.eqb_refl. cbn [negb andb orb].
  rewrite (proj2 (Z.eqb_neq _ _)) by lia. by rewrite (proj2 (Z.leb_gt _ _)) by lia.
Qed.

(** An outer record is read back from its own encoding. *)
Lemma outer_roundtrip r : wf_outer r -> exists b, outer_encode r = Ok b /\ outer_decode b = Ok r.
Proof.
  intros Hr. exists (outer_wire r). split; [by apply outer_encode_ok|].
  unfold outer_decode. rewrite outer_header_ok by done. rewrite bind_Ok_l. unfold slice_from, outer_wire.
  replace (slice _ 28 _) with (@Ok NoiseError bytes (fo_ciphertext r)) by (symmetry; read_field; done).
  by destruct r.
Qed.

Lemma ack_roundtrip a : is_u64 (largest_contiguous a) -> ack_decode (ack_encode a) = Ok a.
Proof.
  intros Ha. unfold ack_decode, ack_encode, slice_from. set (b := _ :: _).
  assert (zlen b = 9) as Hz by (subst b; zlen_solve). rewrite Hz. cbn [Z.eqb Pos.eqb negb ACK_WIRE_LEN]. subst b.
  rewrite index_head by done. rewrite bind_Ok_l. cbn [Z.eqb Pos.eqb negb].
  replace (slice _ 1 9) with (@Ok NoiseError bytes (to_be 8 (largest_contiguous a))) by (symmetry; read_field; done).
  rewrite bind_Ok_l. unfold is_u64, U64_MAX in Ha.
  rewrite from_be_to_be_small by (change (256 ^ Z.of_nat 8) with 18446744073709551616; lia). by destruct a.
Qed.

(** ** Witnesses *)

Definition sample_outer (sequence : Z) : bytes :=
  outer_wire (mkOuter 7 ClientToDaemon sequence ACK_NONE (replicate 32 sequence)).

Lemma sample_outer_u8 q : is_u8 q -> all_u8 (sample_outer q).
Proof.
  intros Hq. unfold sample_outer, outer_wire. cbn [fo_route_generation fo_direction fo_record_sequence
    fo_peer_seen_through fo_ciphertext direction_code].
  apply Forall_cons_2; [done|]. apply Forall_app_2; [apply to_be_u8|]. apply Forall_cons_2; [done|].
  do 3 (apply Forall_app_2; [apply to_be_u8|]).
  by apply Forall_replicate.
Qed.

Lemma sample_u8_all : Forall all_u8 [sample_outer 1; sample_outer 0; sample_outer 1].
Proof. repeat (apply Forall_cons_2; [by apply sample_outer_u8|]). apply Forall_nil_2. Qed.

Lemma fallback_release_in_order_witness :
  map sequence_of (@released Toy_sha256 (receive_new 0) [sample_outer 1; sample_outer 0; sample_outer 1]) =
    [Some 0; Some 1].
Proof.
  destruct (@fallback_release_in_order Toy_sha256 0 [sample_outer 1; sample_outer 0; sample_outer 1] sample_u8_all)
    as [H _].
  rewrite H. reflexivity.
Defined.

Lemma fallback_retries_bounded_witness :
  count_seq 0 (@retried_records Toy_sha256 send_new [SInsert 0 (sample_outer 0) true; SRetry 800; SRetry 2000]) <= 3.
Proof.
  apply (@fallback_retries_bounded Toy_sha256 _ (SRetry 0) 0); [|done].
  apply Forall_cons_2; [by apply sample_outer_u8|]. by repeat constructor.
Defined.
