(* ===== verification/FallbackLink.v ===== *)
(** A sender and a receiver of the relay fallback linked together: records are sent, lost, reordered,
    repeated, acknowledged, retried, retransmitted and released in any order, for as long as
    the link lives ([cockpit-noise/src/fallback.rs], both windows). *)

From S2P Require Import Prelude.
From S2P Require Import ProtocolId.
From S2P Require Import NoiseRecord.
From S2P Require Import NoisePrologue.
From S2P Require Import Fallback.
From S2P Require Import FallbackProps.
From stdpp Require Import options.
Set Warnings "-clear-no-such-hyp".

Section link.
Context `{Sha256}.

(** ** Histories *)

(** Everything ever sent: record [i] carries sequence number [i]. *)
Record history (rs : list bytes) : Prop := {
  hs_u8 : Forall all_u8 rs;
  hs_numbered : forall i b, rs !! i = Some b -> sequence_of b = Some (Z.of_nat i);
}.
Lemma history_header rs i b : history rs -> rs !! i = Some b ->
  exists h, validate_outer_header b = Ok h /\ fh_record_sequence h = Z.of_nat i /\
    cost_of b = fh_ciphertext_len h /\ 0 <= cost_of b /\ all_u8 b.
Proof using Type.
  intros Hh Hb. pose proof (hs_numbered rs Hh i b Hb) as Hs. unfold sequence_of, cost_of in *.
  pose proof (proj1 (Forall_lookup _ _) (hs_u8 rs Hh) i b Hb) as Hu.
  destruct (validate_outer_header b) as [h| |] eqn:Hv; [|done|done]. exists h. injection Hs as Hs.
  destruct (validate_facts b h Hu Hv) as [_ Hl]. unfold FALLBACK_MIN_CIPHERTEXT in Hl. split_and!; (done || lia).
Qed.
Lemma history_inj rs i b j : history rs -> rs !! i = Some b -> sequence_of b = Some j -> j = Z.of_nat i.
Proof using Type. intros Hh Hb Hs. rewrite (hs_numbered rs Hh i b Hb) in Hs. by injection Hs. Qed.
Lemma history_cost rs b : history rs -> b ∈ rs -> 0 <= cost_of b.
Proof using Type. intros Hh [i Hi]%list_elem_of_lookup. by destruct (history_header rs i b Hh Hi) as (_ & _ & _ & _ & ? & _). Qed.
Lemma history_u8 rs bs : history rs -> (forall b, b ∈ bs -> b ∈ rs) -> Forall all_u8 bs.
Proof using Type. intros Hh Hin. apply Forall_forall. intros b Hb. pose proof (hs_u8 rs Hh) as Hu. rewrite Forall_forall in Hu. auto. Qed.

Lemma total_cost_nonneg rs : (forall b, b ∈ rs -> 0 <= cost_of b) -> 0 <= total_cost rs.
Proof using Type.
  induction rs as [|b rs IH]; intros Hp; cbn; [done|]. assert (0 <= cost_of b) by (apply Hp; left).
  assert (0 <= total_cost rs); [|lia]. apply IH. intros x Hx. apply Hp. by right.
Qed.
Lemma total_cost_drop rs n m : (forall b, b ∈ rs -> 0 <= cost_of b) -> (n <= m)%nat ->
  total_cost (drop m rs) <= total_cost (drop n rs).
Proof using Type.
  intros Hp Hle. replace m with (n + (m - n))%nat by lia. rewrite <- drop_drop.
  rewrite <- (take_drop (m - n) (drop n rs)) at 2. rewrite total_cost_app.
  assert (0 <= total_cost (take (m - n) (drop n rs))); [|lia]. apply total_cost_nonneg. intros b Hb. apply Hp.
  rewrite <- (take_drop n rs). apply elem_of_app. right. rewrite <- (take_drop (m - n) (drop n rs)). apply elem_of_app. by left.
Qed.

(** Cached records above a position cost at most what was sent from there on, and at least that
    when none is missing. *)
Lemma drawn_snoc rs b m : drawn_from (rs ++ [b]) m -> drawn_from rs (delete (Z.of_nat (length rs)) m).
Proof using Type.
  intros Hd k c Hk. apply lookup_delete_Some in Hk as [Hne Hk]. destruct (Hd k c Hk) as (H0 & Hl & Hc).
  split; [done|]. split; [|done]. rewrite lookup_app_l in Hl; [done|]. apply lookup_lt_Some in Hl.
  rewrite length_app in Hl. cbn in Hl. lia.
Qed.
Lemma drawn_last rs b m c : drawn_from (rs ++ [b]) m -> m !! Z.of_nat (length rs) = Some c -> cr_byte_cost c = cost_of b.
Proof using Type.
  intros Hd Hk. destruct (Hd _ c Hk) as (_ & Hl & Hc). rewrite Nat2Z.id, list_lookup_middle in Hl by done. congruence.
Qed.
Lemma drawn_empty m : drawn_from [] m -> m = ∅.
Proof using Type.
  intros Hd. apply map_empty. intros k. destruct (m !! k) as [c|] eqn:Hk; [|done]. by destruct (Hd k c Hk) as (_ & Hl & _).
Qed.
Lemma drawn_cost_le rs n : forall m, (forall b, b ∈ rs -> 0 <= cost_of b) -> drawn_from rs m ->
  (forall k c, m !! k = Some c -> Z.of_nat n <= k) -> pending_cost m <= total_cost (drop n rs).
Proof using Type.
  induction rs as [|b rs IH] using rev_ind; intros m Hpos Hd Hk.
  { rewrite (drawn_empty m Hd), drop_nil. done. }
  assert (0 <= cost_of b) as Hb by (apply Hpos; set_solver).
  destruct (m !! Z.of_nat (length rs)) as [c|] eqn:Hlast.
  - pose proof (Hk _ _ Hlast) as Hn. rewrite drop_app_le, total_cost_app by lia. cbn [total_cost].
    pose proof (drawn_last rs b m c Hd Hlast). unfold pending_cost. rewrite (map_sum_delete _ m _ c Hlast).
    specialize (IH (delete (Z.of_nat (length rs)) m) (fun x Hx => Hpos x ltac:(set_solver)) (drawn_snoc rs b m Hd)).
    assert (pending_cost (delete (Z.of_nat (length rs)) m) <= total_cost (drop n rs)); [|unfold pending_cost in *; lia].
    apply IH. intros k x [_ Hx]%lookup_delete_Some. eauto.
  - apply drawn_snoc in Hd. rewrite delete_id in Hd by done. specialize (IH m (fun x Hx => Hpos x ltac:(set_solver)) Hd Hk).
    etransitivity; [exact IH|]. destruct (decide (n <= length rs)%nat).
    + rewrite drop_app_le, total_cost_app by lia. cbn. lia.
    + rewrite (drop_ge rs) by lia. cbn. apply total_cost_nonneg. intros x Hx. apply Hpos.
      rewrite <- (take_drop n (rs ++ [b])). apply elem_of_app. by right.
Qed.
Lemma drawn_cost_ge rs n : forall m, (forall b, b ∈ rs -> 0 <= cost_of b) -> drawn_from rs m ->
  (forall i, (n <= i < length rs)%nat -> is_Some (m !! Z.of_nat i)) -> total_cost (drop n rs) <= pending_cost m.
Proof using Type.
  induction rs as [|b rs IH] using rev_ind; intros m Hpos Hd Hk.
  { rewrite (drawn_empty m Hd), drop_nil. done. }
  assert (forall k c, m !! k = Some c -> 0 <= cr_byte_cost c) as Hnn.
  { intros k c Hc. destruct (Hd k c Hc) as (_ & Hl & ->). apply Hpos. by eapply list_elem_of_lookup_2. }
  destruct (decide (n <= length rs)%nat) as [Hle|Hgt].
  - destruct (Hk (length rs)) as [c Hc]; [rewrite length_app; cbn; lia|].
    rewrite drop_app_le, total_cost_app by lia. cbn [total_cost]. pose proof (drawn_last rs b m c Hd Hc).
    destruct (pending_cost_delete m _ c Hnn Hc) as [-> _].
    specialize (IH (delete (Z.of_nat (length rs)) m) (fun x Hx => Hpos x ltac:(set_solver)) (drawn_snoc rs b m Hd)).
    assert (total_cost (drop n rs) <= pending_cost (delete (Z.of_nat (length rs)) m)); [|lia].
    apply IH. intros i Hi. rewrite lookup_delete_ne by lia. apply Hk. rewrite length_app. lia.
  - rewrite drop_ge by (rewrite length_app; cbn; lia). cbn. unfold pending_cost. by apply map_sum_nonneg.
Qed.

(** ** The receiver against a history *)

(** What is still to be released fits one window. *)
Definition fits (rs : list bytes) (next : Z) : Prop :=
  zlen rs - next <= FALLBACK_WINDOW_RECORDS /\ total_cost (drop (Z.to_nat next) rs) <= FALLBACK_WINDOW_BYTES.
Lemma fits_mono rs n m : history rs -> n <= m -> fits rs n -> fits rs m.
Proof using Type.
  intros Hh Hle [F1 F2]. split; [lia|]. etransitivity; [|exact F2]. apply total_cost_drop; [|lia].
  intros b Hb. by eapply history_cost.
Qed.
Lemma observed_next w w' b r : observed w w' b r -> rw_next_sequence w <= rw_next_sequence w'.
Proof using Type.
  destruct r as [[| |outs]|e|]; cbn; [intros (h & _ & _ & -> & _); cbn; lia|intros ->; lia| |intros ->; lia|done].
  intros (h & _ & _ & _ & Hd). rewrite (dt_next _ _ _ Hd). cbn. pose proof (zlen_nonneg outs). lia.
Qed.
Lemma observed_drawn rs w w' b r : history rs -> b ∈ rs -> observed w w' b r -> drawn_from rs (rw_pending w) ->
  drawn_from rs (rw_pending w').
Proof using Type.
  intros Hh Hb Ho Hd. apply list_elem_of_lookup in Hb as [i Hb].
  assert (forall h, validate_outer_header b = Ok h -> drawn_from rs (rw_pending (with_pending w b h))) as Hnew.
  { intros h Hv. destruct (history_header rs i b Hh Hb) as (h' & Hv' & Hs & Hc & _). rewrite Hv in Hv'.
    apply Ok_inj in Hv'. subst h'. intros k c Hk. cbn in Hk.
    apply lookup_insert_Some in Hk as [[<- <-]|[_ Hk]]; [|by apply Hd]. rewrite Hs, Nat2Z.id. split; [lia|done]. }
  destruct r as [[| |outs]|e|]; cbn in Ho; [|by subst| |by subst|done].
  - destruct Ho as (h & Hv & _ & -> & _). by apply Hnew.
  - destruct Ho as (h & Hv & _ & _ & [D1 D2 D3 D4 D5]). intros k c Hk. rewrite D4 in Hk.
    case_decide; [|done]. by apply (Hnew h Hv).
Qed.
(** A new record of the history is within every budget. *)
Lemma history_fits rs w i b : history rs -> recv_inv w -> drawn_from rs (rw_pending w) -> fits rs (rw_next_sequence w) ->
  rs !! i = Some b -> rw_next_sequence w <= Z.of_nat i -> rw_pending w !! Z.of_nat i = None ->
  Z.of_nat i < rw_next_sequence w + FALLBACK_WINDOW_RECORDS /\
  Z.of_nat (size (rw_pending w)) < FALLBACK_WINDOW_RECORDS /\ rw_bytes w + cost_of b <= FALLBACK_WINDOW_BYTES.
Proof using Type.
  intros Hh Hi Hd [F1 F2] Hb Hge Hp. apply lookup_lt_Some in Hb as Hil. unfold zlen in F1. pose proof (rv_next w Hi) as Hnx.
  set (m := <[Z.of_nat i := mkCached b (cost_of b) (sha256 b) false 0]> (rw_pending w)).
  assert (drawn_from rs m) as Hd'.
  { intros k c Hk. apply lookup_insert_Some in Hk as [[<- <-]|[_ Hk]]; [|by apply Hd]. rewrite Nat2Z.id. split; [lia|done]. }
  assert (forall k c, m !! k = Some c -> rw_next_sequence w <= k) as Hk.
  { intros k c Hk. apply lookup_insert_Some in Hk as [[<- _]|[_ Hk]]; [done|]. apply (rv_pending w Hi) in Hk as [? _]. lia. }
  assert (Z.of_nat (size m) <= 64) as Hsz.
  { rewrite <- size_dom. etransitivity; [apply (gset_interval_size _ (rw_next_sequence w) 64)|lia].
    intros k Hin. apply elem_of_dom in Hin as [c Hc]. pose proof (Hk k c Hc). destruct (Hd' k c Hc) as (Hk0 & Hl & _).
    apply lookup_lt_Some in Hl. unfold FALLBACK_WINDOW_RECORDS in F1. lia. }
  assert (pending_cost m <= total_cost (drop (Z.to_nat (rw_next_sequence w)) rs)) as Hby.
  { apply drawn_cost_le; [|done|]. { intros x Hx. by eapply history_cost. } intros k c Hc. specialize (Hk k c Hc). lia. }
  subst m. rewrite map_size_insert_None in Hsz by done. unfold pending_cost in Hby. rewrite map_sum_insert in Hby by done. cbn in Hby.
  pose proof (rv_bytes w Hi) as Hrb. unfold pending_cost in Hrb. unfold FALLBACK_WINDOW_RECORDS in *. lia.
Qed.
(** Whatever of the history arrives is released or held, and is never refused for lack of room. *)
Lemma observe_covers rs w i b : history rs -> recv_inv w -> gap w -> drawn_from rs (rw_pending w) -> fits rs (rw_next_sequence w) ->
  rs !! i = Some b -> covered (observe w b).1 (Z.of_nat i) /\ (observe w b).2 <> Err FallbackWindowExceeded.
Proof using Type.
  intros Hh Hi Hg Hd Hf Hb. destruct (history_header rs i b Hh Hb) as (h & Hv & Hs & Hc & H0 & Hu).
  pose proof (observe_spec w b Hi Hg Hu) as Ho.
  destruct (decide (Z.of_nat i < rw_next_sequence w)) as [Hlt|Hge].
  { split.
    - destruct (observe w b) as [w' r]. destruct Ho as [Ho _]. apply (observed_keeps w w' b r); [done|by left].
    - unfold observe. rewrite Hv, Hs, (proj2 (Z.ltb_lt _ _)) by done. destruct (rw_accepted w !! _); [by case_bool_decide|done]. }
  assert (rw_next_sequence w <= Z.of_nat i) as Hle by lia. clear Hge.
  destruct (rw_pending w !! Z.of_nat i) as [c|] eqn:Hp.
  { split.
    - destruct (observe w b) as [w' r]. destruct Ho as [Ho _]. apply (observed_keeps w w' b r); [done|right; by rewrite Hp].
    - unfold observe. rewrite Hv, Hs. rewrite (proj2 (Z.ltb_ge _ _)) by done.
      destruct (rv_pending w Hi _ _ Hp) as [Hwin _]. unfold saturating_sub. rewrite (proj2 (Z.leb_gt _ _)) by lia. rewrite Hp. by case_bool_decide. }
  destruct (history_fits rs w i b Hh Hi Hd Hf Hb Hle Hp) as (F1 & F2 & F3).
  destruct (observe_fits w b h Hi Hg Hu Hv) as (w' & r & Hw & Hob & _ & _ & Hr); [lia|by rewrite Hs|done|lia|].
  rewrite Hw. cbn [fst snd]. destruct Hr as [->|[outs ->]]; cbn in Hob; (split; [|done]).
  - destruct Hob as (h' & Hv' & _ & -> & _). rewrite Hv in Hv'. apply Ok_inj in Hv'. subst h'.
    right. cbn. rewrite Hs, lookup_insert_eq. eauto.
  - destruct Hob as (h' & Hv' & Hs' & _ & [D1 D2 D3 D4 D5]). rewrite Hv in Hv'. apply Ok_inj in Hv'. subst h'.
    unfold covered. rewrite D4. case_decide; [right|left; lia]. cbn. rewrite Hs, lookup_insert_eq. eauto.
Qed.
Lemma cover_all rs bs w : history rs -> (forall b, b ∈ bs -> b ∈ rs) -> recv_inv w -> gap w -> drawn_from rs (rw_pending w) ->
  fits rs (rw_next_sequence w) ->
  forall i b, rs !! i = Some b -> b ∈ bs \/ covered w (Z.of_nat i) -> covered (observe_all w bs) (Z.of_nat i).
Proof using Type.
  intros Hh. revert w. induction bs as [|b bs IH]; intros w Hin Hi Hg Hd Hf; cbn.
  { intros i b _ [Hb|?]; [set_solver|done]. }
  assert (b ∈ rs) as Hbr by (apply Hin; set_solver). apply list_elem_of_lookup in Hbr as Hbi. destruct Hbi as [j Hj].
  destruct (history_header rs j b Hh Hj) as (_ & _ & _ & _ & _ & Hu).
  pose proof (observe_spec w b Hi Hg Hu) as Ho. destruct (observe_covers rs w j b Hh Hi Hg Hd Hf Hj) as [Hcov _].
  destruct (observe w b) as [w1 r] eqn:Hob. cbn in Hcov |- *. destruct Ho as (Ho & Hi1 & Hg1).
  assert (forall i b', rs !! i = Some b' -> b' ∈ bs \/ covered w1 (Z.of_nat i) -> covered (observe_all w1 bs) (Z.of_nat i)) as Hc2.
  { apply IH; [set_solver|done|done|by eapply observed_drawn|]. eapply fits_mono; [done|by eapply observed_next|done]. }
  intros i x Hx [Hxb|Hcx].
  - apply elem_of_cons in Hxb as [->|Hxb]; [|by apply (Hc2 i x Hx); left]. apply (Hc2 i b Hx). right.
    pose proof (history_inj rs i b _ Hh Hx (hs_numbered rs Hh j b Hj)) as E. by rewrite <- E.
  - apply (Hc2 i x Hx). right. by eapply observed_keeps.
Qed.
(** What is released continues the history where the receiver stood. *)
Lemma released_continues rs bs w : history rs -> (forall b, b ∈ bs -> b ∈ rs) -> recv_inv w -> gap w -> drawn_from rs (rw_pending w) ->
  rw_next_sequence w <= zlen rs ->
  recv_inv (observe_all w bs) /\ gap (observe_all w bs) /\
  released w bs = take (length (released w bs)) (drop (Z.to_nat (rw_next_sequence w)) rs) /\
  rw_next_sequence (observe_all w bs) = rw_next_sequence w + zlen (released w bs) /\
  rw_next_sequence (observe_all w bs) <= zlen rs.
Proof using Type.
  intros Hh Hin Hi Hg Hd Hn. pose proof (rv_next w Hi) as Hnx.
  assert (pending_from w rs) as Hp by (intros k c (_ & Hl & _)%Hd; by eapply list_elem_of_lookup_2).
  destruct (released_spec w bs rs Hi Hg Hp (history_u8 rs bs Hh Hin)) as (Hi' & Hg' & Hnext & Hr).
  assert (forall i b, released w bs !! i = Some b -> drop (Z.to_nat (rw_next_sequence w)) rs !! i = Some b) as Hpre.
  { intros i b Hb. destruct (Hr i b Hb) as [Hs Hb2]. assert (b ∈ rs) as [j Hj]%list_elem_of_lookup.
    { apply elem_of_app in Hb2 as [?|?]; auto. }
    pose proof (history_inj rs j b _ Hh Hj Hs) as E. rewrite lookup_drop. by replace (Z.to_nat (rw_next_sequence w) + i)%nat with j by lia. }
  split; [done|]. split; [done|].
  assert (length (released w bs) <= length (drop (Z.to_nat (rw_next_sequence w)) rs))%nat as Hlen.
  { destruct (decide (length (released w bs) = 0%nat)) as [->|Hne]; [lia|].
    destruct (lookup_lt_is_Some_2 (released w bs) (length (released w bs) - 1)) as [b Hb]; [lia|].
    apply Hpre, lookup_lt_Some in Hb. lia. }
  split; [|split; [done|rewrite Hnext; rewrite length_drop in Hlen; unfold zlen in *; lia]].
  apply list_eq. intros i. destruct (released w bs !! i) as [b|] eqn:Hb.
  - apply lookup_lt_Some in Hb as Hlt. rewrite lookup_take_lt by done. by rewrite (Hpre i b Hb).
  - apply lookup_ge_None in Hb. symmetry. apply lookup_ge_None. rewrite length_take. lia.
Qed.
(** Once all that was missing has arrived, everything is released. *)
Lemma released_all rs bs w : history rs -> (forall b, b ∈ bs -> b ∈ rs) -> recv_inv w -> gap w -> drawn_from rs (rw_pending w) ->
  rw_next_sequence w <= zlen rs -> fits rs (rw_next_sequence w) ->
  (forall b, b ∈ drop (Z.to_nat (rw_next_sequence w)) rs -> b ∈ bs) ->
  released w bs = drop (Z.to_nat (rw_next_sequence w)) rs.
Proof using Type.
  intros Hh Hin Hi Hg Hd Hn Hf Hall. pose proof (rv_next w Hi) as Hnx.
  destruct (released_continues rs bs w Hh Hin Hi Hg Hd Hn) as (Hi' & Hg' & Hrel & Hnext & Hle).
  rewrite Hrel. apply take_ge. rewrite length_drop. destruct (decide (rw_next_sequence (observe_all w bs) < zlen rs)) as [Hlt|]; [exfalso|unfold zlen in *; lia].
  pose proof (rv_next _ Hi') as Hnx'. pose proof (zlen_nonneg (released w bs)).
  destruct (lookup_lt_is_Some_2 rs (Z.to_nat (rw_next_sequence (observe_all w bs)))) as [b Hb]; [unfold zlen in Hlt; lia|].
  pose proof (cover_all rs bs w Hh Hin Hi Hg Hd Hf _ b Hb) as Hcov. rewrite Z2Nat.id in Hcov by lia.
  destruct Hcov as [?|[c Hc]]; [|lia|].
  - left. apply Hall. apply list_elem_of_lookup. exists (Z.to_nat (rw_next_sequence (observe_all w bs)) - Z.to_nat (rw_next_sequence w))%nat.
    rewrite lookup_drop. replace (_ + _)%nat with (Z.to_nat (rw_next_sequence (observe_all w bs))) by lia. done.
  - unfold gap in Hg'. congruence.
Qed.

(** ** The sender against a history *)

Lemma release_loop_lookup keys : forall n m n' m', release_loop keys n m = ((n', m'), Ok tt) ->
  forall k, m' !! k = if decide (k ∈ keys) then None else m !! k.
Proof using Type.
  induction keys as [|k0 keys IH]; intros n m n' m' Hr k; cbn [release_loop] in Hr.
  { injection Hr as <- <-. by rewrite decide_False by set_solver. }
  assert (forall x, m !! k0 = x -> (if decide (k ∈ keys) then None else delete k0 m !! k) = if decide (k ∈ k0 :: keys) then None else m !! k) as Hdel.
  { intros x _. destruct (decide (k = k0)) as [->|Hne].
    - rewrite lookup_delete_eq, (decide_True (P := k0 ∈ k0 :: keys)) by left. by case_decide.
    - rewrite lookup_delete_ne by done. repeat case_decide; set_solver. }
  destruct (m !! k0) as [c|] eqn:Hk.
  - destruct (sub_in n (cr_byte_cost c)) as [rest|e|]; [|done..]. by rewrite (IH _ _ _ _ Hr), (Hdel _ eq_refl).
  - rewrite (IH _ _ _ _ Hr), <- (Hdel _ eq_refl). by rewrite delete_id by done.
Qed.

(** The sender's cache: every record of the history from some position on that the receiver has reached. *)
Record caches (rs : list bytes) (base : Z) (w : FallbackSendWindow) : Prop := {
  ch_inv : send_inv w;
  ch_next : sw_next_sequence w = zlen rs;
  ch_base : 0 <= base <= zlen rs;
  ch_dom : dom (sw_records w) = interval base (zlen rs);
  ch_drawn : drawn_from rs (sw_records w);
}.
Lemma caches_fits rs base w next : history rs -> caches rs base w -> base <= next -> fits rs next.
Proof using Type.
  intros Hh [C1 C2 C3 C4 C5] Hle. apply (fits_mono rs base next Hh Hle). split.
  - pose proof (sv_size w C1) as Hs. rewrite <- size_dom, C4, size_interval in Hs by lia. lia.
  - etransitivity; [|exact (sv_cap w C1)]. rewrite (sv_bytes w C1). apply drawn_cost_ge; [|done|].
    { intros b Hb. by eapply history_cost. }
    intros i Hi. apply elem_of_dom. rewrite C4, elem_interval. unfold zlen. lia.
Qed.
Lemma retransmit_drop rs base w m : caches rs base w -> base <= m -> retransmit_from w m = drop (Z.to_nat m) rs.
Proof using Type.
  intros [C1 C2 C3 C4 C5] Hm. unfold retransmit_from. rewrite (btree_keys_interval _ base (zlen rs)) by (done || lia).
  assert (forall suf pre, rs = pre ++ suf -> base <= zlen pre ->
    omap (fun k => if m <=? k then cr_bytes <$> sw_records w !! k else None) (seqZ (zlen pre) (zlen suf)) =
    drop (Z.to_nat m - length pre) suf) as Hgen.
  { induction suf as [|b suf IH]; intros pre Heq Hb; [by rewrite drop_nil|].
    rewrite zlen_cons, seqZ_cons by (pose proof (zlen_nonneg suf); lia).
    replace (Z.pred (1 + zlen suf)) with (zlen suf) by lia. cbn [omap list_omap].
    assert (zlen (pre ++ [b]) = Z.succ (zlen pre)) as Hz by (rewrite zlen_app, zlen_cons, zlen_nil; lia).
    specialize (IH (pre ++ [b]) ltac:(by rewrite <- app_assoc) ltac:(lia)). rewrite Hz in IH.
    rewrite IH, length_app. cbn [length].
    destruct (Z.leb_spec m (zlen pre)) as [Hle|Hgt]; unfold zlen in Hle || unfold zlen in Hgt.
    - assert (is_Some (sw_records w !! zlen pre)) as [c Hc].
      { apply elem_of_dom. rewrite C4. apply elem_interval. rewrite Heq, zlen_app, zlen_cons. pose proof (zlen_nonneg suf). lia. }
      destruct (C5 _ c Hc) as (_ & Hl & _). unfold zlen in Hl. rewrite Nat2Z.id, Heq in Hl.
      rewrite list_lookup_middle in Hl by done. injection Hl as ->. rewrite Hc. cbn.
      replace (Z.to_nat m - length pre)%nat with 0%nat by lia.
      by replace (Z.to_nat m - (length pre + 1))%nat with 0%nat by lia.
    - replace (Z.to_nat m - length pre)%nat with (S (Z.to_nat m - (length pre + 1))) by lia. done. }
  pose proof (Hgen (drop (Z.to_nat base) rs) (take (Z.to_nat base) rs)) as Hrs.
  assert (zlen (take (Z.to_nat base) rs) = base) as Hz by (unfold zlen in *; rewrite length_take; lia).
  assert (zlen (drop (Z.to_nat base) rs) = zlen rs - base) as Hz' by (unfold zlen in *; rewrite length_drop; lia).
  rewrite Hz, Hz' in Hrs. rewrite Hrs by (by rewrite ?take_drop || lia). unfold zlen in Hz.
  rewrite drop_drop. f_equal. lia.
Qed.
Lemma caches_insert rs base w b t w' : caches rs base w -> all_u8 b ->
  send_insert w (sw_next_sequence w) b t = (w', Ok tt) ->
  caches (rs ++ [b]) base w' /\ sequence_of b = Some (zlen rs).
Proof using Type.
  intros [C1 C2 C3 C4 C5] Hu Hins. pose proof (send_apply_post w (SInsert (sw_next_sequence w) b t) C1 Hu) as [Hi' _].
  cbn in Hi'. rewrite Hins in Hi'. cbn in Hi'. unfold send_insert in Hins.
  destruct (validate_outer_header b) as [h|e|] eqn:Hv; [|done..].
  destruct (Z.eqb_spec (fh_record_sequence h) (sw_next_sequence w)) as [Hs|]; cbn [negb] in Hins; [|done].
  destruct (_ || _); [done|]. destruct (add_in _ _ _); [|done..]. unfold checked_add in Hins. destruct (_ <=? _); [|done].
  injection Hins as <-. assert (zlen (rs ++ [b]) = zlen rs + 1) as Hz by (rewrite zlen_app, zlen_cons, zlen_nil; lia).
  split; [|unfold sequence_of; rewrite Hv; congruence]. split; cbn; [done|lia|lia| |].
  - rewrite Hz, dom_insert_L, C4, C2. apply set_eq. intros k. rewrite elem_of_union, elem_of_singleton, !elem_interval. lia.
  - intros k c Hk. apply lookup_insert_Some in Hk as [[<- <-]|[_ Hk]].
    + rewrite C2. cbn. split; [apply zlen_nonneg|]. unfold zlen. rewrite Nat2Z.id. split; [by apply list_lookup_middle|].
      unfold cost_of. by rewrite Hv.
    + destruct (C5 k c Hk) as (Hk0 & Hl & Hcc). split; [done|]. split; [|done]. by apply lookup_app_l_Some.
Qed.
(** A cache whose records differ only in their retry counts and tracking. *)
Lemma caches_marked rs base w w' : caches rs base w -> send_inv w' -> sw_next_sequence w' = sw_next_sequence w ->
  (forall k, (fun c => (cr_bytes c, cr_byte_cost c)) <$> sw_records w' !! k = (fun c => (cr_bytes c, cr_byte_cost c)) <$> sw_records w !! k) ->
  caches rs base w'.
Proof using Type.
  intros [C1 C2 C3 C4 C5] Hi Hn Hk. split; [done|congruence|done| |].
  - rewrite <- C4. apply set_eq. intros k. specialize (Hk k). rewrite !elem_of_dom.
    destruct (sw_records w' !! k), (sw_records w !! k); try done; by split; intros [? ?].
  - intros k c Hc. specialize (Hk k). rewrite Hc in Hk. destruct (sw_records w !! k) as [c0|] eqn:Hc0; [|done].
    cbn in Hk. injection Hk as Hb Hcost. rewrite Hb, Hcost. by apply C5.
Qed.
Lemma caches_acknowledge rs base w n : caches rs base w -> is_u64 n -> caches rs base (send_acknowledge w n).1.
Proof using Type.
  intros Hc Hn. pose proof (send_apply_post w (SAcknowledge n) (ch_inv _ _ _ Hc) Hn) as [Hi _]. cbn in Hi.
  apply (caches_marked rs base w); [done|done|..]; unfold send_acknowledge.
  - by repeat case_match.
  - intros k. destruct (_ =? _); [done|]. destruct (_ || _); [done|]. cbn. rewrite map_lookup_imap.
    destruct (sw_records w !! k); [|done]. cbn. by destruct (k <=? n).
Qed.
Lemma caches_retry rs base w t : caches rs base w -> caches rs base (retry_due w t).1.
Proof using Type.
  intros Hc. pose proof (send_apply_post w (SRetry t) (ch_inv _ _ _ Hc) I) as [Hi _]. cbn in Hi.
  apply (caches_marked rs base w); [done|done|..]; unfold retry_due in *;
    pose proof (retry_loop_spec (btree_keys (sw_records w)) t (sw_records w) [] (sv_cache _ (ch_inv _ _ _ Hc))) as Hs;
    destruct (retry_loop _ _ _ _) as [m r]; [done|]. cbn. destruct Hs as (_ & [N S] & _).
  intros k. destruct (sw_records w !! k) as [c|] eqn:Hk; [|by rewrite (N k Hk)].
  destruct (S k c Hk) as (c' & -> & E1 & E2 & _). cbn. by rewrite E1, E2.
Qed.
Lemma caches_release rs base w n : caches rs base w -> is_u64 n -> n = ACK_NONE \/ n < zlen rs ->
  exists base', caches rs base' (release_peer_seen_through w n).1 /\ (base' = base \/ base' <= n + 1 /\ n <> ACK_NONE).
Proof using Type.
  intros Hc Hn Hlt. pose proof (send_apply_post w (SRelease n) (ch_inv _ _ _ Hc) Hn) as [Hi _]. cbn in Hi.
  unfold release_peer_seen_through in *. destruct (Z.eqb_spec n ACK_NONE) as [|Hne]; [exists base; split; [done|by left]|].
  destruct (_ || _); [exists base; split; [done|by left]|].
  pose proof (ch_inv _ _ _ Hc) as I. destruct (release_loop_spec (filter (fun k => k <= n) (btree_keys (sw_records w))) (sw_bytes w)
    (sw_records w) (sv_cache _ I) (sv_bytes _ I)) as (b & m & Hr & _). rewrite Hr in Hi |- *. cbn in Hi |- *.
  pose proof (release_loop_lookup _ _ _ _ _ Hr) as Hm. destruct Hlt as [?|Hlt]; [done|]. destruct Hc as [C1 C2 C3 C4 C5].
  assert (forall k, m !! k = if decide (k <= n) then None else sw_records w !! k) as Hm'.
  { intros k. rewrite Hm. destruct (sw_records w !! k) as [c|] eqn:Hk; [|by repeat case_decide].
    assert (k ∈ btree_keys (sw_records w)) as Hin.
    { unfold btree_keys. rewrite merge_sort_Permutation. apply elem_of_elements, elem_of_dom. by exists c. }
    destruct (decide (k <= n)) as [Hle|Hgt].
    - rewrite decide_True; [done|]. by apply list_elem_of_filter.
    - rewrite decide_False; [done|]. by intros [? _]%list_elem_of_filter. }
  exists (Z.max base (n + 1)). split; [|destruct (decide (base <= n + 1)); [right; lia|left; lia]].
  split; cbn; [done|done|unfold is_u64 in Hn; lia| |].
  - apply set_eq. intros k. rewrite elem_of_dom, Hm', elem_interval. case_decide; [split; [by intros [? ?]|lia]|].
    rewrite <- elem_of_dom, C4, elem_interval. lia.
  - intros k c Hk. rewrite Hm' in Hk. case_decide; [done|]. by apply C5.
Qed.

(** ** The link *)

(** The two windows, what has been sent and what has been released, in order. *)
Record Link := mkLink {
  lk_send : FallbackSendWindow; lk_receive : FallbackReceiveWindow; lk_sent : list bytes; lk_out : list bytes }.
Definition link_start (now : Z) : Link := mkLink send_new (receive_new now) [] [].

(** Anything may happen to the link: a record is sent, a record sent at any time before arrives (late, again,
    out of order; a lost one simply does not), the receiver decides on an acknowledgement,
    the sender is acknowledged, retries, or releases what a watermark the receiver has reached covers. *)
Inductive link_step : Link -> Link -> Prop :=
| lk_insert w r sent out b t w' : all_u8 b -> send_insert w (sw_next_sequence w) b t = (w', Ok tt) ->
    link_step (mkLink w r sent out) (mkLink w' r (sent ++ [b]) out)
| lk_arrive w r sent out b : b ∈ sent ->
    link_step (mkLink w r sent out) (mkLink w (observe r b).1 sent (out ++ released r [b]))
| lk_ack_due w r sent out now immediate only :
    link_step (mkLink w r sent out) (mkLink w (ack_due r now immediate only).1 sent out)
| lk_acknowledge w r sent out n : is_u64 n ->
    link_step (mkLink w r sent out) (mkLink (send_acknowledge w n).1 r sent out)
| lk_retry w r sent out elapsed :
    link_step (mkLink w r sent out) (mkLink (retry_due w elapsed).1 r sent out)
| lk_release w r sent out n : is_u64 n -> n = ACK_NONE \/ n < rw_next_sequence r ->
    link_step (mkLink w r sent out) (mkLink (release_peer_seen_through w n).1 r sent out).

Record link_inv (l : Link) : Prop := {
  li_history : history (lk_sent l);
  li_caches : exists base, caches (lk_sent l) base (lk_send l) /\ base <= rw_next_sequence (lk_receive l);
  li_receive : recv_inv (lk_receive l);
  li_gap : gap (lk_receive l);
  li_drawn : drawn_from (lk_sent l) (rw_pending (lk_receive l));
  li_next : rw_next_sequence (lk_receive l) <= zlen (lk_sent l);
  li_out : lk_out l = take (Z.to_nat (rw_next_sequence (lk_receive l))) (lk_sent l);
}.
Lemma link_inv_start now : link_inv (link_start now).
Proof using Type.
  split; cbn.
  - split; [constructor|done].
  - exists 0. split; [|done]. split; cbn; [apply send_inv_new|done|done|by rewrite dom_empty_L|done].
  - apply recv_inv_new.
  - apply lookup_empty.
  - intros k c. by rewrite lookup_empty.
  - done.
  - done.
Qed.
Lemma history_snoc rs b : history rs -> all_u8 b -> sequence_of b = Some (zlen rs) -> history (rs ++ [b]).
Proof using Type.
  intros [H1 H2] Hu Hs. split; [apply Forall_app; split; [done|by constructor]|].
  intros i x Hx. apply lookup_app_Some in Hx as [Hx|[Hle Hx]]; [by apply H2|].
  destruct (i - length rs)%nat as [|j] eqn:E; [|by destruct j]. cbn in Hx. injection Hx as <-. rewrite Hs. unfold zlen. f_equal. lia.
Qed.
Lemma link_step_inv l l' : link_step l l' -> link_inv l -> link_inv l'.
Proof using Type.
  intros [w r sent out b t w' Hu Hins|w r sent out b Hb|w r sent out now im only|w r sent out n Hn|w r sent out e|w r sent out n Hn Hlt]
    [L1 (base & L2 & L3) L4 L5 L6 L7 L8]; cbn in *.
  - destruct (caches_insert sent base w b t w' L2 Hu Hins) as [Hc Hs].
    split; cbn; [by apply history_snoc|by exists base|done|done| | |].
    + intros k c Hk. destruct (L6 k c Hk) as (Hk0 & Hl & Hcc). split; [done|]. split; [|done]. by apply lookup_app_l_Some.
    + rewrite zlen_app, zlen_cons, zlen_nil. lia.
    + rewrite take_app_le; [done|]. unfold zlen in L7. lia.
  - assert (all_u8 b) as Hub by (pose proof (hs_u8 _ L1) as Hall; rewrite Forall_forall in Hall; auto).
    destruct (released_continues sent [b] r L1 ltac:(set_solver) L4 L5 L6 L7) as (Hi & Hg & Hrel & Hnext & Hle).
    change (observe_all r [b]) with (observe r b).1 in *. pose proof (observe_spec r b L4 L5 Hub) as Ho.
    assert (drawn_from sent (rw_pending (observe r b).1)) as Hd.
    { destruct (observe r b) as [r' res]. destruct Ho as [Ho _]. by apply (observed_drawn sent r r' b res). }
    pose proof (zlen_nonneg (released r [b])) as Hz. pose proof (rv_next r L4) as Hnx.
    split; cbn; [done|exists base; split; [done|lia]|done|done|done|done|].
    rewrite Hnext, L8.
    transitivity (take (Z.to_nat (rw_next_sequence r)) sent ++ take (length (released r [b])) (drop (Z.to_nat (rw_next_sequence r)) sent));
      [by rewrite <- Hrel|]. rewrite take_take_drop. f_equal. unfold zlen. lia.
  - split; cbn; try done; unfold ack_due; repeat case_match; try done; try (by destruct L4).
    all: by exists base.
  - split; cbn; try done. exists base. split; [by apply caches_acknowledge|done].
  - split; cbn; try done. exists base. split; [by apply caches_retry|done].
  - split; cbn; try done. destruct (caches_release sent base w n L2 Hn) as (base' & Hc & Hb); [destruct Hlt; [by left|right; lia]|].
    exists base'. split; [done|]. destruct Hb as [->|[Hb Hne]]; [done|]. destruct Hlt; [done|lia].
Qed.
Lemma link_reach_inv now l : rtc link_step (link_start now) l -> link_inv l.
Proof using Type.
  intros Hr. assert (forall x y, rtc link_step x y -> link_inv x -> link_inv y) as Hgen.
  { intros x y Hxy. induction Hxy; eauto using link_step_inv. }
  eapply Hgen; [exact Hr|apply link_inv_start].
Qed.

(** C24: Gap recovery is complete, at any point in the life of a link.  Whatever records have been sent, in whatever
    order and however often they arrived or were lost, and whatever was acknowledged, retried or
    released up to watermarks the receiver had reached: what the receiver has released is
    exactly the first records that were sent, in order and byte for byte; the sender still caches
    every one that is missing, so that retransmitting from the receiver's next missing
    sequence hands back exactly the rest; as soon as these have arrived, in any order, mixed with
    any repetitions of older ones, the whole rest is released, in order and byte for byte; and no record
    that was sent is ever refused as outside the window. *)
Theorem fallback_gap_recovery (now : Z) (l : Link) : rtc link_step (link_start now) l ->
  let missing := rw_next_sequence (lk_receive l) in
  lk_out l = take (Z.to_nat missing) (lk_sent l) /\
  retransmit_from (lk_send l) missing = drop (Z.to_nat missing) (lk_sent l) /\
  (forall bs, (forall b, b ∈ bs -> b ∈ lk_sent l) -> (forall b, b ∈ retransmit_from (lk_send l) missing -> b ∈ bs) ->
     released (lk_receive l) bs = drop (Z.to_nat missing) (lk_sent l)) /\
  (forall b, b ∈ lk_sent l -> (observe (lk_receive l) b).2 <> Err FallbackWindowExceeded).
Proof using Type.
  intros [L1 (base & L2 & L3) L4 L5 L6 L7 L8]%link_reach_inv missing.
  pose proof (caches_fits _ _ _ _ L1 L2 L3) as Hf. pose proof (retransmit_drop _ _ _ missing L2 L3) as Hre.
  split; [done|]. split; [done|]. split.
  - intros bs Hin Hall. rewrite Hre in Hall. by apply released_all.
  - intros b [i Hi]%list_elem_of_lookup. by apply (observe_covers _ _ i b L1 L4 L5 L6 Hf Hi).
Qed.
End link.

(** ** A concrete link: the first of three records is lost *)

Module LinkWitnesses.
#[local] Existing Instance Toy_sha256.
Definition sender3 : FallbackSendWindow :=
  foldl (fun w q => (send_insert w q (sample_outer q) true).1) send_new [0; 1; 2].
Definition receiver3 : FallbackReceiveWindow := (observe (receive_new 0) (sample_outer 2)).1.
Definition link3 : Link := mkLink sender3 receiver3 [sample_outer 0; sample_outer 1; sample_outer 2] [].
Lemma link3_reach : rtc link_step (link_start 0) link3.
Proof.
  eapply rtc_l; [apply (lk_insert _ _ _ _ (sample_outer 0) true); [by apply sample_outer_u8|vm_compute; reflexivity]|].
  eapply rtc_l; [apply (lk_insert _ _ _ _ (sample_outer 1) true); [by apply sample_outer_u8|vm_compute; reflexivity]|].
  eapply rtc_l; [apply (lk_insert _ _ _ _ (sample_outer 2) true); [by apply sample_outer_u8|vm_compute; reflexivity]|].
  eapply rtc_l; [apply (lk_arrive _ _ _ _ (sample_outer 2)); set_solver|].
  match goal with |- rtc _ ?x _ => replace x with link3; [reflexivity|vm_compute; reflexivity] end.
Qed.
Lemma swapped {A} (x y z b : A) : b ∈ [x; y; z] <-> b ∈ [y; x; z].
Proof. set_solver. Qed.
Lemma fallback_gap_recovery_witness :
  released receiver3 [sample_outer 1; sample_outer 0; sample_outer 2] = [sample_outer 0; sample_outer 1; sample_outer 2].
Proof.
  destruct (fallback_gap_recovery 0 link3 link3_reach) as (_ & H2 & H3 & _).
  change receiver3 with (lk_receive link3). rewrite (H3 [sample_outer 1; sample_outer 0; sample_outer 2]); [reflexivity| |].
  - intros b Hb. cbn [link3 lk_sent]. by apply swapped.
  - rewrite H2. change (drop _ (lk_sent link3)) with [sample_outer 0; sample_outer 1; sample_outer 2].
    intros b Hb. by apply swapped.
Defined.
End LinkWitnesses.
