(* ===== verification/Containment.v ===== *)
(** Process containment: the durable reducer that tracks whether a session's process
    tree is known to be empty ([cockpit-core/src/process_containment/types.rs] and
    [state_machine.rs]).

    A record is created once, its generation only grows, and it counts as empty only
    on the word of the platform's empty oracle for the current generation (or because
    containment turned out to be unsupported before any user code ran). *)

From S2P Require Import Prelude.
From stdpp Require Import options.
Set Warnings "-clear-no-such-hyp".

(** process_containment/types.rs:11-18 ContainmentGuarantee. *)
Inductive ContainmentGuarantee := Proven | GuaranteeUnsupported.

(** process_containment/types.rs:21-26 ContainmentGuarantee::as_str. *)
Definition guarantee_as_str (g : ContainmentGuarantee) : string :=
  match g with Proven => "proven" | GuaranteeUnsupported => "unsupported" end.
(** process_containment/types.rs:28-34 ContainmentGuarantee::parse. *)
Definition guarantee_parse (s : string) : option ContainmentGuarantee :=
  if decide (s = "proven"%string) then Some Proven
  else if decide (s = "unsupported"%string) then Some GuaranteeUnsupported else None.

(** process_containment/types.rs:38-46 ContainmentState. *)
Inductive ContainmentState := Creating | Active | Stopping | Empty | Uncertain.

#[export] Instance ContainmentState_eq_dec : EqDecision ContainmentState.
Proof. solve_decision. Defined.

(** process_containment/types.rs:49-57 ContainmentState::as_str. *)
Definition state_as_str (s : ContainmentState) : string :=
  match s with
  | Creating => "creating" | Active => "active" | Stopping => "stopping"
  | Empty => "empty" | Uncertain => "uncertain"
  end.
(** process_containment/types.rs:59-68 ContainmentState::parse. *)
Definition state_parse (s : string) : option ContainmentState :=
  if decide (s = "creating"%string) then Some Creating
  else if decide (s = "active"%string) then Some Active
  else if decide (s = "stopping"%string) then Some Stopping
  else if decide (s = "empty"%string) then Some Empty
  else if decide (s = "uncertain"%string) then Some Uncertain else None.
(** process_containment/types.rs:70-72 ContainmentState::is_empty. *)
Definition state_is_empty (s : ContainmentState) : bool := bool_decide (s = Empty).
(** process_containment/types.rs:74-76 ContainmentState::is_nonempty. *)
Definition state_is_nonempty (s : ContainmentState) : bool := negb (state_is_empty s).

(** process_containment/types.rs:80-92 PlatformKind. *)
Inductive PlatformKind :=
| LinuxProcessGroup | WindowsJob | MacosProcessGroup | Docker | Podman | Fake | PlatformUnsupported.

(** process_containment/types.rs:95-105 PlatformKind::as_str. *)
Definition platform_as_str (k : PlatformKind) : string :=
  match k with
  | LinuxProcessGroup => "linux_process_group" | WindowsJob => "windows_job"
  | MacosProcessGroup => "macos_process_group" | Docker => "docker" | Podman => "podman"
  | Fake => "fake" | PlatformUnsupported => "unsupported"
  end.
(** process_containment/types.rs:107-118 PlatformKind::parse. *)
Definition platform_parse (s : string) : option PlatformKind :=
  if decide (s = "linux_process_group"%string) then Some LinuxProcessGroup
  else if decide (s = "windows_job"%string) then Some WindowsJob
  else if decide (s = "macos_process_group"%string) then Some MacosProcessGroup
  else if decide (s = "docker"%string) then Some Docker
  else if decide (s = "podman"%string) then Some Podman
  else if decide (s = "fake"%string) then Some Fake
  else if decide (s = "unsupported"%string) then Some PlatformUnsupported else None.

(** process_containment/types.rs:268-282 SafeLocator. *)
Record SafeLocator := mkLocator {
  locator_key : option string;
  full_id_digest : option string;
  runtime_context_digest : option string;
  expected_name : option string;
  locator_nonce : option string;
  installation_digest : option string;
}.
Definition default_locator : SafeLocator := mkLocator None None None None None None.

(** process_containment/types.rs:351-361 LateCallbackKind. *)
Inductive LateCallbackKind :=
| ProcessExit | ClientExit | EmptyNotification | Cancellation | Recovery
| ImmutableIdReuse | NameReuse | LocatorReuse.

(** process_containment/types.rs:295-349 ContainmentEvent. A [Uuid] is its 128-bit value. *)
Inductive ContainmentEvent :=
| BeginCreate (containment_id session_id : Z) (operation_id : string) (generation : Z)
    (platform_kind : PlatformKind) (guarantee : ContainmentGuarantee) (now_wall_ms : Z)
| PlatformAllocated (generation : Z) (locator : SafeLocator) (now_wall_ms : Z)
| MembershipProven (generation : Z) (locator : SafeLocator) (now_wall_ms : Z)
| MarkUnsupported (generation : Z) (reason : string) (now_wall_ms : Z)
| RequestStop (generation now_wall_ms : Z)
| OracleEmpty (generation now_wall_ms : Z)
| MarkUncertain (generation : Z) (reason : string) (now_wall_ms : Z)
| ReplaceGeneration (from_generation to_generation now_wall_ms : Z)
| LateCallback (callback_generation : Z) (kind : LateCallbackKind).

(** process_containment/types.rs:364-380 ContainmentRecord. *)
Record ContainmentRecord := mkContainment {
  ct_containment_id : Z;
  ct_session_id : Z;
  ct_operation_id : string;
  ct_generation : Z;
  ct_platform_kind : PlatformKind;
  ct_state : ContainmentState;
  ct_guarantee : ContainmentGuarantee;
  ct_locator : SafeLocator;
  ct_unsupported_reason : option string;
  ct_created_at_wall_ms : Z;
  ct_updated_at_wall_ms : Z;
  ct_emptied_at_wall_ms : option Z;
  ct_pending_command : option string;
}.

(** process_containment/types.rs:383-402 ReduceResult. *)
Inductive ReduceResult :=
| Applied (rec : ContainmentRecord)
| IgnoredLate (current_generation callback_generation : Z) (kind : LateCallbackKind)
| Illegal (from : ContainmentState) (event : string)
| GenerationMismatch (expected got : Z)
| DuplicateCommand (command : string).

(** The fields an event may change. *)
Definition ct_update (r : ContainmentRecord) (state : ContainmentState) (guarantee : ContainmentGuarantee)
    (locator : SafeLocator) (reason : option string) (updated : Z) (emptied : option Z)
    (pending : option string) : ContainmentRecord :=
  mkContainment (ct_containment_id r) (ct_session_id r) (ct_operation_id r) (ct_generation r)
    (ct_platform_kind r) state guarantee locator reason (ct_created_at_wall_ms r) updated emptied pending.

(** process_containment/state_machine.rs:273-278 illegal. *)
Definition illegal (r : ContainmentRecord) (event : string) : ReduceResult := Illegal (ct_state r) event.

Section reducer.
(** The derived [Debug] text of an event, which names its ids in the [uuid] crate's
    format; it only ever appears in a diagnostic. *)
Context (debug_event : ContainmentEvent -> string).

(** The derived [Debug] text of a callback kind. *)
Definition debug_kind (k : LateCallbackKind) : string :=
  match k with
  | ProcessExit => "ProcessExit" | ClientExit => "ClientExit" | EmptyNotification => "EmptyNotification"
  | Cancellation => "Cancellation" | Recovery => "Recovery" | ImmutableIdReuse => "ImmutableIdReuse"
  | NameReuse => "NameReuse" | LocatorReuse => "LocatorReuse"
  end.

(** process_containment/state_machine.rs:97-271 apply_to_existing. *)
Definition apply_to_existing (r : ContainmentRecord) (event : ContainmentEvent) : ReduceResult :=
  let mismatch got := GenerationMismatch (ct_generation r) got in
  match event with
  | PlatformAllocated generation locator now =>
      if negb (generation =? ct_generation r) then mismatch generation else
      if negb (bool_decide (ct_state r = Creating)) then illegal r "platform_allocated" else
      Applied (ct_update r (ct_state r) (ct_guarantee r) locator (ct_unsupported_reason r) now
                 (ct_emptied_at_wall_ms r) (Some "await_membership"%string))
  | MembershipProven generation locator now =>
      if negb (generation =? ct_generation r) then mismatch generation else
      if negb (bool_decide (ct_state r = Creating)) then illegal r "membership_proven" else
      if negb (bool_decide (ct_pending_command r = Some "await_membership"%string))
      then illegal r "membership_proven_before_platform_allocated" else
      Applied (ct_update r Active (ct_guarantee r) locator (ct_unsupported_reason r) now
                 (ct_emptied_at_wall_ms r) None)
  | MarkUnsupported generation reason now =>
      if negb (generation =? ct_generation r) then mismatch generation else
      if negb (bool_decide (ct_state r = Creating)) then illegal r "mark_unsupported" else
      Applied (ct_update r Empty GuaranteeUnsupported (ct_locator r) (Some reason) now (Some now) None)
  | RequestStop generation now =>
      if negb (generation =? ct_generation r) then mismatch generation else
      match ct_state r with
      | Empty => Applied r
      | Stopping =>
          if bool_decide (ct_pending_command r = Some "terminate"%string)
          then DuplicateCommand "terminate" else
          Applied (ct_update r (ct_state r) (ct_guarantee r) (ct_locator r) (ct_unsupported_reason r) now
                     (ct_emptied_at_wall_ms r) (Some "terminate"%string))
      | Creating | Active | Uncertain =>
          Applied (ct_update r Stopping (ct_guarantee r) (ct_locator r) (ct_unsupported_reason r) now
                     (ct_emptied_at_wall_ms r) (Some "terminate"%string))
      end
  | OracleEmpty generation now =>
      if negb (generation =? ct_generation r) then mismatch generation else
      match ct_state r with
      | Empty => Applied r
      | Stopping | Active | Creating | Uncertain =>
          Applied (ct_update r Empty (ct_guarantee r) (ct_locator r) (ct_unsupported_reason r) now
                     (Some now) None)
      end
  | MarkUncertain generation reason now =>
      if negb (generation =? ct_generation r) then mismatch generation else
      if bool_decide (ct_state r = Empty) then illegal r "mark_uncertain" else
      Applied (ct_update r Uncertain (ct_guarantee r) (ct_locator r) (Some reason) now
                 (ct_emptied_at_wall_ms r) None)
  | ReplaceGeneration from to now =>
      if negb (from =? ct_generation r) then mismatch from else
      if to <=? from then illegal r "replace_generation_non_monotonic" else
      Applied (mkContainment (ct_containment_id r) (ct_session_id r) (ct_operation_id r) to
                 (ct_platform_kind r) Creating (ct_guarantee r) default_locator None
                 (ct_created_at_wall_ms r) now None (Some "recover"%string))
  | BeginCreate _ _ _ _ _ _ _ | LateCallback _ _ => illegal r "unexpected_top_level"
  end.

(** process_containment/state_machine.rs:11-95 reduce. Every arm of the match on a
    same-generation callback returns the record unchanged. *)
Definition reduce (current : option ContainmentRecord) (event : ContainmentEvent) : ReduceResult :=
  match event with
  | BeginCreate containment_id session_id operation_id generation platform_kind guarantee now =>
      match current with
      | Some existing => Illegal (ct_state existing) "begin_create"
      | None =>
          Applied (mkContainment containment_id session_id operation_id generation platform_kind Creating
                     guarantee default_locator None now now None (Some "create"%string))
      end
  | LateCallback callback_generation kind =>
      match current with
      | None => Illegal Empty ("late_" ++ debug_kind kind)
      | Some rec =>
          if negb (callback_generation =? ct_generation rec)
          then IgnoredLate (ct_generation rec) callback_generation kind
          else Applied rec
      end
  | other =>
      match current with
      | None => Illegal Empty (debug_event other)
      | Some rec => apply_to_existing rec other
      end
  end.

(** process_containment/state_machine.rs:281-301 is_legal_cas. *)
Definition is_legal_cas (from to : ContainmentState) : bool :=
  match from, to with
  | Creating, Active | Creating, Stopping | Creating, Empty | Creating, Uncertain
  | Active, Stopping | Active, Empty | Active, Uncertain
  | Stopping, Empty | Stopping, Uncertain | Stopping, Stopping
  | Uncertain, Stopping | Uncertain, Empty | Uncertain, Uncertain
  | Empty, Empty => true
  | _, _ => false
  end.

(** ** Executions *)

(** A caller stores the record an applied event returns and keeps the old one
    otherwise. *)
Definition ct_step (current : option ContainmentRecord) (event : ContainmentEvent) : option ContainmentRecord :=
  match reduce current event with Applied rec => Some rec | _ => current end.
Definition ct_run (current : option ContainmentRecord) (events : list ContainmentEvent) :=
  foldl ct_step current events.

(** The generation an event is addressed to. *)
Definition event_generation (event : ContainmentEvent) : Z :=
  match event with
  | BeginCreate _ _ _ g _ _ _ | PlatformAllocated g _ _ | MembershipProven g _ _ | MarkUnsupported g _ _
  | RequestStop g _ | OracleEmpty g _ | MarkUncertain g _ _ | ReplaceGeneration g _ _ | LateCallback g _ => g
  end.

(** ** Correctness *)

Ltac reduce_inv Hr :=
  unfold reduce, apply_to_existing, illegal in Hr;
  repeat (case_match; simplify_eq/=; try done);
  repeat match goal with
  | E : negb (_ =? _) = false |- _ => apply negb_false_iff, Z.eqb_eq in E
  | E : negb (bool_decide _) = false |- _ => apply negb_false_iff, bool_decide_eq_true in E
  | E : bool_decide _ = false |- _ => apply bool_decide_eq_false in E
  | E : (_ <=? _) = false |- _ => apply Z.leb_gt in E
  end; subst.

(** Every applied event is addressed to the record's current generation, keeps its
    identity, and moves it along a legal transition (or leaves the state alone); the
    one event that changes the generation raises it and starts over from creating,
    with nothing kept of the old generation's locator or emptiness.  Events of any
    other generation, late callbacks included, change nothing. *)
Theorem containment_transition_legal (r r' : ContainmentRecord) (ev : ContainmentEvent) :
  ct_step (Some r) ev = Some r' ->
  (event_generation ev <> ct_generation r -> r' = r) /\
  ct_containment_id r' = ct_containment_id r /\ ct_session_id r' = ct_session_id r /\
  ct_operation_id r' = ct_operation_id r /\
  ((ct_generation r' = ct_generation r /\
    (ct_state r' = ct_state r \/ is_legal_cas (ct_state r) (ct_state r') = true)) \/
   (exists to now, ev = ReplaceGeneration (ct_generation r) to now /\ ct_generation r < to /\
      ct_generation r' = to /\ ct_state r' = Creating /\ ct_locator r' = default_locator /\
      ct_emptied_at_wall_ms r' = None)).
Proof using Type.
  unfold ct_step. destruct (reduce (Some r) ev) as [rec|? ? ?|? ?|? ?|?] eqn:Hr; intros [= <-];
    [|by auto 10..].
  destruct ev; reduce_inv Hr; cbn; split_and!; try done; auto;
    try (left; split; [done|]; rewrite ?E; by auto); try congruence;
    try (left; split; [done|]; destruct (ct_state r); by auto).
  right. eauto 10.
Qed.

(** How a record becomes empty in one step. *)
Lemma empty_step r r' ev :
  ct_step (Some r) ev = Some r' -> ct_state r' = Empty ->
  r' = r \/
  (ct_state r <> Empty /\ ct_generation r' = ct_generation r /\
   ((exists now, ev = OracleEmpty (ct_generation r) now /\ ct_emptied_at_wall_ms r' = Some now /\
       ct_guarantee r' = ct_guarantee r) \/
    (exists reason now, ev = MarkUnsupported (ct_generation r) reason now /\ ct_state r = Creating /\
       ct_guarantee r' = GuaranteeUnsupported))).
Proof using Type.
  unfold ct_step. destruct (reduce (Some r) ev) as [rec|? ? ?|? ?|? ?|?] eqn:Hr; intros [= <-] He;
    [|by left..].
  destruct ev; reduce_inv Hr; cbn in *; try done; try (by left); try congruence;
    right; (split; [congruence|]); (split; [done|]); try (left; by eauto); right; eauto 10.
Qed.

(** A record is empty only on the oracle's word: in any history, a record that is
    empty was made so by one event of its current generation, an empty-oracle
    report (whose time it bears) or, from creating and with the guarantee
    withdrawn, a mark of unsupported; no process exit, client exit, notification,
    stop request or stale report ever empties it. *)
Theorem containment_empty_by_oracle (events : list ContainmentEvent) (r : ContainmentRecord) :
  ct_run None events = Some r -> ct_state r = Empty ->
  exists pre ev post r0, events = pre ++ ev :: post /\ ct_run None pre = Some r0 /\
    ct_generation r0 = ct_generation r /\ ct_state r0 <> Empty /\
    ((exists now, ev = OracleEmpty (ct_generation r) now /\ ct_emptied_at_wall_ms r = Some now) \/
     (exists reason now, ev = MarkUnsupported (ct_generation r) reason now /\ ct_state r0 = Creating /\
        ct_guarantee r = GuaranteeUnsupported)).
Proof using Type.
  revert r. induction events as [|ev events IH] using rev_ind; intros r Hr He; [done|].
  unfold ct_run in *. rewrite foldl_app in Hr. cbn in Hr.
  destruct (foldl ct_step None events) as [r1|] eqn:Hr1.
  - destruct (empty_step r1 r ev Hr He) as [->|(Hne & Hg & Hev)].
    + destruct (IH r1 eq_refl He) as (pre & ev' & post & r0 & -> & Hrest).
      exists pre, ev', (post ++ [ev]), r0. split; [by rewrite <- app_assoc|done].
    + exists events, ev, [], r1. split; [done|]. split; [done|]. split; [done|]. split; [done|]. rewrite Hg.
      destruct Hev as [(now & -> & Ht & _)|(reason & now & -> & Hc & Hu)]; [left|right]; eauto 10.
  - unfold ct_step, reduce in Hr. destruct ev; simplify_eq/=; done.
Qed.

(** What the pending command and the active state say about the past. *)
Definition allocated_in (events : list ContainmentEvent) (g : Z) : Prop :=
  exists pre l now post, events = pre ++ PlatformAllocated g l now :: post.
Definition activated_in (events : list ContainmentEvent) (g : Z) : Prop :=
  exists pre l now post, events = pre ++ MembershipProven g l now :: post /\ allocated_in pre g.

Lemma allocated_snoc events g ev : allocated_in events g -> allocated_in (events ++ [ev]) g.
Proof using Type. intros (pre & l & n & post & ->). exists pre, l, n, (post ++ [ev]). by rewrite <- app_assoc. Qed.
Lemma activated_snoc events g ev : activated_in events g -> activated_in (events ++ [ev]) g.
Proof using Type.
  intros (pre & l & n & post & -> & Ha). exists pre, l, n, (post ++ [ev]). by rewrite <- app_assoc.
Qed.

Lemma active_step r r' ev :
  ct_step (Some r) ev = Some r' ->
  (ct_pending_command r' = Some "await_membership"%string ->
     (ct_pending_command r = Some "await_membership"%string /\ ct_generation r' = ct_generation r) \/
     exists l now, ev = PlatformAllocated (ct_generation r') l now) /\
  (ct_state r' = Active ->
     (ct_state r = Active /\ ct_generation r' = ct_generation r) \/
     (ct_pending_command r = Some "await_membership"%string /\ ct_generation r' = ct_generation r /\
      exists l now, ev = MembershipProven (ct_generation r') l now)).
Proof using Type.
  unfold ct_step. destruct (reduce (Some r) ev) as [rec|? ? ?|? ?|? ?|?] eqn:Hr; intros [= <-];
    [|by auto..].
  destruct ev; reduce_inv Hr; cbn; split; intros; try done; try congruence; eauto 10.
Qed.

(** User code is contained before it is called active: in any history, an active
    record saw, in its current generation, first the platform allocation and later
    the proof of membership. *)
Theorem containment_active_after_membership (events : list ContainmentEvent) (r : ContainmentRecord) :
  ct_run None events = Some r -> ct_state r = Active -> activated_in events (ct_generation r).
Proof using Type.
  assert (forall r, ct_run None events = Some r ->
    (ct_pending_command r = Some "await_membership"%string -> allocated_in events (ct_generation r)) /\
    (ct_state r = Active -> activated_in events (ct_generation r))) as Hgen.
  { clear r. induction events as [|ev events IH] using rev_ind; intros r Hr; [done|].
    unfold ct_run in *. rewrite foldl_app in Hr. cbn in Hr.
    destruct (foldl ct_step None events) as [r1|] eqn:Hr1.
    - destruct (active_step r1 r ev Hr) as [Hp Ha]. destruct (IH r1 eq_refl) as [IHp IHa]. split.
      + intros Hpend. destruct (Hp Hpend) as [[Hp1 ->]|(l & now & ->)].
        * by apply allocated_snoc, IHp.
        * by exists events, l, now, [].
      + intros Hact. destruct (Ha Hact) as [[Ha1 ->]|(Hp1 & Hg & l & now & ->)].
        * by apply activated_snoc, IHa.
        * exists events, l, now, []. split; [done|]. rewrite Hg. by apply IHp.
    - unfold ct_step, reduce in Hr. destruct ev; simplify_eq/=; done. }
  intros Hr. by apply Hgen.
Qed.

End reducer.

(** The persisted labels parse back. *)
Lemma state_label_roundtrip s : state_parse (state_as_str s) = Some s.
Proof. by destruct s. Qed.
Lemma guarantee_label_roundtrip g : guarantee_parse (guarantee_as_str g) = Some g.
Proof. by destruct g. Qed.
Lemma platform_label_roundtrip k : platform_parse (platform_as_str k) = Some k.
Proof. by destruct k. Qed.

(** ** Witnesses *)

Definition no_debug (_ : ContainmentEvent) : string := "event".
Definition containment_events : list ContainmentEvent :=
  [BeginCreate 1 2 "op" 5 LinuxProcessGroup Proven 100; PlatformAllocated 5 default_locator 110;
   MembershipProven 5 default_locator 120; LateCallback 4 EmptyNotification; LateCallback 5 ProcessExit].
Definition active_record : ContainmentRecord :=
  mkContainment 1 2 "op" 5 LinuxProcessGroup Active Proven default_locator None 100 120 None None.

Lemma containment_transition_legal_witness :
  ct_step no_debug (Some active_record) (OracleEmpty 4 200) = Some active_record.
Proof.
  destruct (ct_step no_debug (Some active_record) (OracleEmpty 4 200)) as [r'|] eqn:Hs; [|done].
  destruct (containment_transition_legal no_debug active_record r' (OracleEmpty 4 200) Hs) as [Hsame _].
  by rewrite Hsame.
Defined.

Lemma containment_empty_by_oracle_witness :
  exists pre post, containment_events ++ [OracleEmpty 5 300] = pre ++ OracleEmpty 5 300 :: post.
Proof.
  destruct (ct_run no_debug None (containment_events ++ [OracleEmpty 5 300])) as [r|] eqn:Hr; [|done].
  assert (ct_state r = Empty /\ ct_guarantee r = Proven /\ ct_generation r = 5 /\
    ct_emptied_at_wall_ms r = Some 300) as (He & Hg & Hn & Ht) by (vm_compute in Hr; by injection Hr as <-).
  destruct (containment_empty_by_oracle no_debug _ r Hr He)
    as (pre & ev & post & r0 & Heq & _ & _ & _ & [(now & -> & Ht')|(? & ? & _ & _ & Hu)]); [|congruence].
  exists pre, post. rewrite Heq, Hn. congruence.
Defined.

Lemma containment_active_after_membership_witness : activated_in containment_events 5.
Proof.
  assert (ct_run no_debug None containment_events = Some active_record) as Hr by reflexivity.
  exact (containment_active_after_membership no_debug containment_events active_record Hr eq_refl).
Defined.
