(* ===== verification/Resources.v ===== *)
(** The daemon's resource scheduler ([cockpit-core/src/engine/resource_scheduler.rs]):
    named pools of permits that tool calls acquire together, hold through an RAII
    lease and return on drop; what does not fit waits in a queue.

    The scheduler's state sits behind a mutex, so every method that locks it is one
    atomic step; [Shared] pairs that state with the [Notify] the waiters sleep on.
    [ResourceTicket::wait] is an asynchronous loop and is modelled turn by turn, so
    that other holders can act between creating the notification, checking the state
    and going to sleep.  [World] is the scheduler with all its live handles.

    A request's [Uuid] and the clock are arguments: [now k] is the [k]-th reading of
    the clock within the call. *)

From S2P Require Import Prelude WireScalar.
From stdpp Require Import options.
Set Warnings "-clear-no-such-hyp".

(** [BTreeMap<String, A>::iter]: ascending in the byte order of the keys. *)
Definition name_le {A} (x y : string * A) : Prop := String.leb x.1 y.1 = true.
#[export] Instance name_le_dec {A} : RelDecision (@name_le A).
Proof. intros x y. unfold name_le. apply _. Defined.
Definition btree_iter {A} (m : gmap string A) : list (string * A) :=
  merge_sort name_le (map_to_list m).


(** ** Configuration *)

(** config/resource_scheduler.rs:3-3 DEFAULT_RESOURCE_POOL_CAPACITY. *)
Definition DEFAULT_RESOURCE_POOL_CAPACITY : Z := 1.
(** config/resource_scheduler.rs:4-4 DEFAULT_RESOURCE_SCHEDULER_MAX_QUEUED. *)
Definition DEFAULT_RESOURCE_SCHEDULER_MAX_QUEUED : Z := 128.

(** config/resource_scheduler.rs:50-54 ResourcePoolConfig. *)
Record ResourcePoolConfig := mkPoolConfig { pc_capacity : Z }.
(** config/resource_scheduler.rs:31-39 ResourceSchedulerPoolsConfig. *)
Record ResourceSchedulerPoolsConfig := mkPoolsConfig {
  pcs_cpu : ResourcePoolConfig;
  pcs_memory : ResourcePoolConfig;
  pcs_other : gmap string ResourcePoolConfig;
}.
(** config/resource_scheduler.rs:42-47 ResourceSchedulerPoolsConfig::as_map. *)
Definition pools_as_map (c : ResourceSchedulerPoolsConfig) : gmap string ResourcePoolConfig :=
  <["memory"%string := pcs_memory c]> (<["cpu"%string := pcs_cpu c]> (pcs_other c)).
(** config/resource_scheduler.rs:70-77 ResourceSchedulerLimitsConfig. *)
Record ResourceSchedulerLimitsConfig := mkLimitsConfig { lc_max_queued : Z }.
(** config/resource_scheduler.rs:93-109 ResourceSchedulerRuleConfig. *)
Record ResourceSchedulerRuleConfig := mkRuleConfig {
  rc_program : option string;
  rc_subcommand : option string;
  rc_approval_key : option string;
  rc_regex : option string;
  rc_resources : gmap string Z;
}.
(** config/resource_scheduler.rs:8-18 ResourceSchedulerConfig. *)
Record ResourceSchedulerConfig := mkSchedulerConfig {
  sc_enabled : bool;
  sc_pools : ResourceSchedulerPoolsConfig;
  sc_limits : ResourceSchedulerLimitsConfig;
  sc_rules : list ResourceSchedulerRuleConfig;
}.

(** config/resource_scheduler.rs:57-61 ResourcePoolConfig::default. *)
Definition pool_config_default : ResourcePoolConfig := mkPoolConfig DEFAULT_RESOURCE_POOL_CAPACITY.
(** config/resource_scheduler.rs:80-84 ResourceSchedulerLimitsConfig::default. *)
Definition limits_config_default : ResourceSchedulerLimitsConfig :=
  mkLimitsConfig DEFAULT_RESOURCE_SCHEDULER_MAX_QUEUED.
(** config/resource_scheduler.rs:21-28 ResourceSchedulerConfig::default. The pools' own default is derived. *)
Definition scheduler_config_default : ResourceSchedulerConfig :=
  mkSchedulerConfig true (mkPoolsConfig pool_config_default pool_config_default ∅)
    limits_config_default [].

(** ** Requests and state *)

(** proto/lib.rs:881-884 ResourceRequirements. *)
Record ResourceRequirements := mkRequirements { rr_pools : gmap string Z }.
(** proto/lib.rs:887-894 ResourceRequirements::new. Collecting into a map keeps the last of equal keys. *)
Definition requirements_new (pools : list (string * Z)) : ResourceRequirements :=
  mkRequirements
    (foldl (fun m '(name, count) => if 0 <? count then <[name := count]> m else m) ∅ pools).
(** proto/lib.rs:896-898 ResourceRequirements::is_empty. *)
Definition requirements_is_empty (r : ResourceRequirements) : bool := bool_decide (rr_pools r = ∅).

(** proto/lib.rs:901-911 ResourceRequestMetadata. *)
Record ResourceRequestMetadata := mkRequestMetadata {
  rm_session_id : option Z;
  rm_agent_id : option string;
  rm_tool_call_id : option string;
  rm_command_label : option string;
  rm_declared_requirements : ResourceRequirements;
  rm_policy_requirements : ResourceRequirements;
  rm_reviewer_requirements : ResourceRequirements;
  rm_effective_requirements : ResourceRequirements;
}.

(** engine/resource_scheduler.rs:22-26 ResourceAcquireRequest. *)
Record ResourceAcquireRequest := mkAcquireRequest {
  aq_resources : ResourceRequirements;
  aq_metadata : ResourceRequestMetadata;
}.
(** engine/resource_scheduler.rs:29-37 ResourceAcquireRequest::new. *)
Definition acquire_request_new (resources : ResourceRequirements) : ResourceAcquireRequest :=
  mkAcquireRequest resources
    (mkRequestMetadata None None None None (mkRequirements ∅) (mkRequirements ∅) (mkRequirements ∅)
       resources).

(** engine/resource_scheduler.rs:40-54 ResourceAcquireError. *)
Inductive ResourceAcquireError :=
| UnknownPool (pool : string)
| OverCapacity (pool : string) (requested capacity : Z)
| QueueFull (max_queued : Z)
| AcquireCancelled.

(** engine/resource_scheduler.rs:78-82 ResourcePromoteError. *)
Inductive ResourcePromoteError :=
| PromoteNotFound (id : Z)
| PromoteNotQueued (id : Z).

(** engine/resource_scheduler.rs:114-118 PoolState. *)
Record PoolState := mkPoolState { pool_capacity : Z; pool_used : Z }.

(** engine/resource_scheduler.rs:120-129 RequestEntry. *)
Record RequestEntry := mkRequestEntry {
  rq_id : Z;
  rq_display_id : bytes;
  rq_resources : ResourceRequirements;
  rq_metadata : ResourceRequestMetadata;
  rq_queued_at_ms : Z;
  rq_promoted_by : option string;
  rq_promoted_at_ms : option Z;
}.

(** engine/resource_scheduler.rs:131-141 RunningEntry. *)
Record RunningEntry := mkRunningEntry {
  rn_id : Z;
  rn_display_id : bytes;
  rn_resources : ResourceRequirements;
  rn_metadata : ResourceRequestMetadata;
  rn_queued_at_ms : Z;
  rn_started_at_ms : Z;
  rn_promoted_by : option string;
  rn_promoted_at_ms : option Z;
}.

(** engine/resource_scheduler.rs:105-112 SchedulerState. *)
Record SchedulerState := mkSchedulerState {
  ss_enabled : bool;
  ss_pools : gmap string PoolState;
  ss_max_queued : Z;
  ss_next_display_id : Z;
  ss_queued : list RequestEntry;
  ss_running : gmap Z RunningEntry;
}.

Definition set_pools (ps : gmap string PoolState) (st : SchedulerState) : SchedulerState :=
  mkSchedulerState (ss_enabled st) ps (ss_max_queued st) (ss_next_display_id st) (ss_queued st) (ss_running st).
Definition set_queued (q : list RequestEntry) (st : SchedulerState) : SchedulerState :=
  mkSchedulerState (ss_enabled st) (ss_pools st) (ss_max_queued st) (ss_next_display_id st) q (ss_running st).
Definition set_running (r : gmap Z RunningEntry) (st : SchedulerState) : SchedulerState :=
  mkSchedulerState (ss_enabled st) (ss_pools st) (ss_max_queued st) (ss_next_display_id st) (ss_queued st) r.
Definition set_display (n : Z) (st : SchedulerState) : SchedulerState :=
  mkSchedulerState (ss_enabled st) (ss_pools st) (ss_max_queued st) n (ss_queued st) (ss_running st).

(** engine/resource_scheduler.rs:100-103 Shared. [sh_notified] counts the [notify_waiters] calls: a
    [Notified] future completes when there has been one since it was created. *)
Record Shared := mkShared { sh_state : SchedulerState; sh_notified : Z }.
Definition notify_waiters (sh : Shared) : Shared := mkShared (sh_state sh) (sh_notified sh + 1).

(** ** The permit accounting *)

(** engine/resource_scheduler.rs:515-523 has_capacity. *)
Definition has_capacity (st : SchedulerState) (r : ResourceRequirements) : bool :=
  forallb (fun '(name, requested) =>
      match ss_pools st !! name with
      | Some pool => saturating_add_u32 (pool_used pool) requested <=? pool_capacity pool
      | None => false
      end)
    (btree_iter (rr_pools r)).

(** engine/resource_scheduler.rs:500-512 validate_request. The loop: the first offending pool in
    key order is reported. *)
Fixpoint validate_pools (ps : gmap string PoolState) (l : list (string * Z))
    : result ResourceAcquireError unit :=
  match l with
  | [] => Ok tt
  | (name, requested) :: l =>
      match ps !! name with
      | None => Err (UnknownPool name)
      | Some pool =>
          if pool_capacity pool <? requested
          then Err (OverCapacity name requested (pool_capacity pool))
          else validate_pools ps l
      end
  end.
(** engine/resource_scheduler.rs:496-513 validate_request. *)
Definition validate_request (st : SchedulerState) (r : ResourceRequirements)
    : result ResourceAcquireError unit :=
  validate_pools (ss_pools st) (btree_iter (rr_pools r)).

(** [format!("rs-{n:04}")], as bytes: at least four digits, padded with zeros. *)
Definition pad4 (s : bytes) : bytes := replicate (4 - length s) ZERO ++ s.
Definition display_text (n : Z) : bytes := [114; 115; 45] ++ pad4 (to_string n).
(** engine/resource_scheduler.rs:490-494 next_display_id. *)
Definition next_display_id (st : SchedulerState) : bytes * SchedulerState :=
  let n := ss_next_display_id st in
  (display_text n, set_display (saturating_add n 1) st).

Definition charge_pool (permits : Z) (p : PoolState) : PoolState :=
  mkPoolState (pool_capacity p) (saturating_add_u32 (pool_used p) permits).
Definition refund_pool (permits : Z) (p : PoolState) : PoolState :=
  mkPoolState (pool_capacity p) (saturating_sub (pool_used p) permits).
Definition update_pools (f : Z -> PoolState -> PoolState) (l : list (string * Z))
    (ps : gmap string PoolState) : gmap string PoolState :=
  foldl (fun ps '(name, permits) => alter (f permits) name ps) ps l.

(** engine/resource_scheduler.rs:525-545 start_running. *)
Definition start_running (now : Z) (st : SchedulerState) (e : RequestEntry) : SchedulerState :=
  let st := set_pools (update_pools charge_pool (btree_iter (rr_pools (rq_resources e))) (ss_pools st)) st in
  set_running
    (<[rq_id e := mkRunningEntry (rq_id e) (rq_display_id e) (rq_resources e) (rq_metadata e)
                    (rq_queued_at_ms e) now (rq_promoted_by e) (rq_promoted_at_ms e)]> (ss_running st)) st.

(** engine/resource_scheduler.rs:547-560 try_start_queued. Each turn of the loop pops the front, so it
    recurses on the queue; [k] counts the clock readings. *)
Fixpoint try_start_loop (now : nat -> Z) (k : nat) (q : list RequestEntry) (st : SchedulerState)
    : SchedulerState :=
  match q with
  | [] => st
  | front :: rest =>
      if negb (has_capacity st (rq_resources front)) then st
      else try_start_loop now (S k) rest (start_running (now k) (set_queued rest st) front)
  end.
(** engine/resource_scheduler.rs:547-560 try_start_queued. *)
Definition try_start_queued (now : nat -> Z) (st : SchedulerState) : SchedulerState :=
  try_start_loop now 0 (ss_queued st) st.

(** engine/resource_scheduler.rs:570-580 release_running_locked. *)
Definition release_running_locked (st : SchedulerState) (request_id : Z) : bool * SchedulerState :=
  match ss_running st !! request_id with
  | None => (false, st)
  | Some e =>
      let st := set_running (delete request_id (ss_running st)) st in
      (true, set_pools (update_pools refund_pool (btree_iter (rr_pools (rn_resources e))) (ss_pools st)) st)
  end.

(** engine/resource_scheduler.rs:562-568 release_running. *)
Definition release_running (now : nat -> Z) (sh : Shared) (request_id : Z) : Shared :=
  match release_running_locked (sh_state sh) request_id with
  | (true, st) => notify_waiters (mkShared (try_start_queued now st) (sh_notified sh))
  | (false, st) => mkShared st (sh_notified sh)
  end.

(** ** Methods *)

(** [queued.iter().position(|entry| entry.id == request_id)], with the entry found. *)
Definition queue_position (request_id : Z) (q : list RequestEntry) : option (nat * RequestEntry) :=
  list_find (fun e => rq_id e = request_id) q.

(** engine/resource_scheduler.rs:278-306 ResourceScheduler::new. *)
Definition resource_scheduler_new (config : ResourceSchedulerConfig) : Shared :=
  mkShared
    (mkSchedulerState (sc_enabled config)
       ((fun pool => mkPoolState (pc_capacity pool) 0) <$> pools_as_map (sc_pools config))
       (lc_max_queued (sc_limits config)) 1 [] ∅) 0.

(** engine/resource_scheduler.rs:308-313 ResourceScheduler::disabled. *)
Definition resource_scheduler_disabled : Shared :=
  resource_scheduler_new
    (mkSchedulerConfig false (sc_pools scheduler_config_default) (sc_limits scheduler_config_default)
       (sc_rules scheduler_config_default)).

(** engine/resource_scheduler.rs:143-148 ResourceTicket. A ticket without a scheduler is a no-op. *)
Record ResourceTicket := mkTicket {
  tk_scheduler : bool;
  tk_request_id : Z;
  tk_display_id : bytes;
  tk_consumed : bool;
}.

(** engine/resource_scheduler.rs:220-226 ResourceLease. *)
Record ResourceLease := mkLease {
  ls_scheduler : bool;
  ls_request_id : Z;
  ls_display_id : bytes;
  ls_released : bool;
}.

(** engine/resource_scheduler.rs:315-377 ResourceScheduler::submit. *)
Definition submit (now : nat -> Z) (id : Z) (sh : Shared) (request : ResourceAcquireRequest)
    : result ResourceAcquireError ResourceTicket * Shared :=
  let '(display_id, st) := next_display_id (sh_state sh) in
  if negb (ss_enabled st) || requirements_is_empty (aq_resources request)
  then (Ok (mkTicket false id display_id false), mkShared st (sh_notified sh)) else
  match validate_request st (aq_resources request) with
  | Err e => (Err e, mkShared st (sh_notified sh))
  | Panic => (Panic, mkShared st (sh_notified sh))
  | Ok _ =>
      let entry := mkRequestEntry id display_id (aq_resources request) (aq_metadata request)
                     (now 0%nat) None None in
      if bool_decide (ss_queued st = []) && has_capacity st (aq_resources request)
      then (Ok (mkTicket true id display_id false),
            notify_waiters (mkShared (start_running (now 1%nat) st entry) (sh_notified sh)))
      else if ss_max_queued st <=? zlen (ss_queued st)
      then (Err (QueueFull (ss_max_queued st)), mkShared st (sh_notified sh))
      else (Ok (mkTicket true id display_id false),
            notify_waiters
              (mkShared (try_start_queued (fun k => now (S k)) (set_queued (ss_queued st ++ [entry]) st))
                 (sh_notified sh)))
  end.

(** engine/resource_scheduler.rs:387-408 ResourceScheduler::promote. *)
Definition promote (now : nat -> Z) (sh : Shared) (request_id : Z) (promoted_by : string)
    : result ResourcePromoteError unit * Shared :=
  let st := sh_state sh in
  match ss_running st !! request_id with
  | Some _ => (Err (PromoteNotQueued request_id), sh)
  | None =>
      match queue_position request_id (ss_queued st) with
      | None => (Err (PromoteNotFound request_id), sh)
      | Some (pos, e) =>
          let e := mkRequestEntry (rq_id e) (rq_display_id e) (rq_resources e) (rq_metadata e)
                     (rq_queued_at_ms e) (Some promoted_by) (Some (now 0%nat)) in
          (Ok tt,
           notify_waiters
             (mkShared (try_start_queued (fun k => now (S k)) (set_queued (e :: delete pos (ss_queued st)) st))
                (sh_notified sh)))
      end
  end.

(** engine/resource_scheduler.rs:463-475 ResourceScheduler::cancel_or_release. *)
Definition cancel_or_release (now : nat -> Z) (sh : Shared) (request_id : Z) : Shared :=
  let st := sh_state sh in
  match queue_position request_id (ss_queued st) with
  | Some (pos, _) =>
      notify_waiters
        (mkShared (try_start_queued now (set_queued (delete pos (ss_queued st)) st)) (sh_notified sh))
  | None =>
      match release_running_locked st request_id with
      | (true, st) => notify_waiters (mkShared (try_start_queued now st) (sh_notified sh))
      | (false, st) => mkShared st (sh_notified sh)
      end
  end.

(** The range of [i64], for its [saturating_sub]. *)
Definition I64_MAX : Z := 9223372036854775807.
Definition I64_MIN : Z := -9223372036854775808.
(** engine/resource_scheduler.rs:486-488 elapsed_ms. *)
Definition elapsed_ms (start end_ : Z) : Z :=
  let d := Z.max I64_MIN (Z.min I64_MAX (end_ - start)) in
  if 0 <=? d then d else 0.

(** proto/lib.rs:922-928 ResourcePoolSnapshot. *)
Record ResourcePoolSnapshot := mkPoolSnapshot {
  ps_name : string; ps_capacity : Z; ps_used : Z; ps_available : Z }.
(** proto/lib.rs:930-941 ResourceRunningSnapshot. *)
Record ResourceRunningSnapshot := mkRunningSnapshot {
  rns_id : Z; rns_display_id : bytes; rns_resources : ResourceRequirements;
  rns_metadata : ResourceRequestMetadata; rns_queued_at_ms : Z; rns_started_at_ms : Z; rns_wait_ms : Z;
  rns_promoted_by : option string; rns_promoted_at_ms : option Z }.
(** proto/lib.rs:1046-1051 ResourceQueuedState. *)
Inductive ResourceQueuedState := QueuedPlain | QueuedPromoted.
(** proto/lib.rs:943-954 ResourceQueuedSnapshot. *)
Record ResourceQueuedSnapshot := mkQueuedSnapshot {
  qs_id : Z; qs_display_id : bytes; qs_resources : ResourceRequirements;
  qs_metadata : ResourceRequestMetadata; qs_queued_at_ms : Z; qs_wait_ms : Z;
  qs_promoted_by : option string; qs_promoted_at_ms : option Z; qs_state : ResourceQueuedState }.
(** proto/lib.rs:913-920 ResourceSchedulerSnapshot. *)
Record ResourceSchedulerSnapshot := mkSchedulerSnapshot {
  sn_enabled : bool; sn_pools : list ResourcePoolSnapshot; sn_running : list ResourceRunningSnapshot;
  sn_queued : list ResourceQueuedSnapshot; sn_max_queued : Z }.

(** engine/resource_scheduler.rs:410-461 ResourceScheduler::snapshot. The running entries come in the
    order of their ids. *)
Definition resource_snapshot (now : Z) (sh : Shared) : ResourceSchedulerSnapshot :=
  let st := sh_state sh in
  mkSchedulerSnapshot (ss_enabled st)
    ((fun '(name, pool) => mkPoolSnapshot name (pool_capacity pool) (pool_used pool)
                             (saturating_sub (pool_capacity pool) (pool_used pool)))
       <$> btree_iter (ss_pools st))
    ((fun e => mkRunningSnapshot (rn_id e) (rn_display_id e) (rn_resources e) (rn_metadata e)
                       (rn_queued_at_ms e) (rn_started_at_ms e)
                       (elapsed_ms (rn_queued_at_ms e) (rn_started_at_ms e))
                       (rn_promoted_by e) (rn_promoted_at_ms e))
       <$> omap (fun id => ss_running st !! id) (merge_sort Z.le (elements (dom (ss_running st)))))
    ((fun e => mkQueuedSnapshot (rq_id e) (rq_display_id e) (rq_resources e) (rq_metadata e)
                 (rq_queued_at_ms e) (elapsed_ms (rq_queued_at_ms e) now)
                 (rq_promoted_by e) (rq_promoted_at_ms e)
                 (if rq_promoted_by e is Some _ then QueuedPromoted else QueuedPlain))
       <$> ss_queued st)
    (ss_max_queued st).

(** ** Tickets and leases *)

(** engine/resource_scheduler.rs:229-236 ResourceLease::tracked. *)
Definition lease_tracked (request_id : Z) (display_id : bytes) : ResourceLease :=
  mkLease true request_id display_id false.
(** engine/resource_scheduler.rs:238-245 ResourceLease::noop. *)
Definition lease_noop (request_id : Z) (display_id : bytes) : ResourceLease :=
  mkLease false request_id display_id false.

(** engine/resource_scheduler.rs:259-268 ResourceLease::release_inner. [upgraded] is what
    [Weak::upgrade] gives: the scheduler, unless it is gone. *)
Definition release_inner (now : nat -> Z) (upgraded : option Shared) (l : ResourceLease)
    : ResourceLease * option Shared :=
  if ls_released l then (l, upgraded) else
  let l := mkLease (ls_scheduler l) (ls_request_id l) (ls_display_id l) true in
  match (if ls_scheduler l then upgraded else None) with
  | None => (l, upgraded)
  | Some sh => (l, Some (release_running now sh (ls_request_id l)))
  end.

(** Where [ResourceTicket::wait] is: called, at the top of its loop, holding the
    [Notified] future it has created, or asleep in [select!] on that future. *)
Inductive WaitPoint := WaitStart | WaitTop | WaitCheck (notified : Z) | WaitSelect (notified : Z).
(** What one turn does: go on, return, or stay asleep. *)
Inductive WaitTurn :=
| Continue (p : WaitPoint)
| Return (r : result ResourceAcquireError ResourceLease) (t : ResourceTicket)
| Asleep.

Definition consume (t : ResourceTicket) : ResourceTicket :=
  mkTicket (tk_scheduler t) (tk_request_id t) (tk_display_id t) true.

(** engine/resource_scheduler.rs:169-207 ResourceTicket::wait. One turn between two points where other
    tasks can run. *)
Definition wait_turn (sh : Shared) (t : ResourceTicket) (p : WaitPoint) : WaitTurn :=
  match p with
  | WaitStart =>
      if tk_scheduler t then Continue WaitTop
      else Return (Ok (lease_noop (tk_request_id t) (tk_display_id t))) (consume t)
  | WaitTop => Continue (WaitCheck (sh_notified sh))
  | WaitCheck notified =>
      match ss_running (sh_state sh) !! tk_request_id t with
      | Some _ => Return (Ok (lease_tracked (tk_request_id t) (tk_display_id t))) (consume t)
      | None =>
          if existsb (fun e => rq_id e =? tk_request_id t) (ss_queued (sh_state sh))
          then Continue (WaitSelect notified)
          else Return (Err AcquireCancelled) t
      end
  | WaitSelect notified => if notified <? sh_notified sh then Continue WaitTop else Asleep
  end.

(** engine/resource_scheduler.rs:198-205 ResourceTicket::wait. The cancellation branch of the [select!]. *)
Definition wait_cancelled (now : nat -> Z) (sh : Shared) (t : ResourceTicket)
    : result ResourceAcquireError ResourceLease * ResourceTicket * Shared :=
  (Err AcquireCancelled, consume t, cancel_or_release now sh (tk_request_id t)).

(** engine/resource_scheduler.rs:211-217 ResourceTicket::drop. *)
Definition ticket_drop (now : nat -> Z) (sh : Shared) (t : ResourceTicket) : Shared :=
  if negb (tk_consumed t) && tk_scheduler t then cancel_or_release now sh (tk_request_id t) else sh.

(** ** The scheduler and its handles *)

(** A live handle: a ticket, a ticket being waited on, or a lease. *)
Inductive Handle :=
| HTicket (t : ResourceTicket)
| HWaiting (t : ResourceTicket) (p : WaitPoint)
| HLease (l : ResourceLease).

Record World := mkWorld { w_shared : Shared; w_handles : gmap Z Handle }.

(** What the owners of the handles can do: submit a request, promote one, call
    [wait], let it run one turn, cancel it while it sleeps, drop any handle. *)
Inductive Op :=
| OpSubmit (id : Z) (request : ResourceAcquireRequest)
| OpPromote (id : Z) (promoted_by : string)
| OpWait (id : Z)
| OpTurn (id : Z)
| OpCancel (id : Z)
| OpDrop (id : Z).

Definition world_init (config : ResourceSchedulerConfig) : World :=
  mkWorld (resource_scheduler_new config) ∅.

(** [None] when the operation does not apply: no such handle, a sleeping turn, or an
    identifier that [Uuid::new_v4] does not return because it is in use.  A ticket is
    dropped when [wait] returns. *)
Definition world_step (now : nat -> Z) (w : World) (op : Op) : option World :=
  let sh := w_shared w in
  match op with
  | OpSubmit id request =>
      match w_handles w !! id with
      | Some _ => None
      | None =>
          match submit now id sh request with
          | (Ok t, sh) => Some (mkWorld sh (<[id := HTicket t]> (w_handles w)))
          | (_, sh) => Some (mkWorld sh (w_handles w))
          end
      end
  | OpPromote id promoted_by => Some (mkWorld (promote now sh id promoted_by).2 (w_handles w))
  | OpWait id =>
      match w_handles w !! id with
      | Some (HTicket t) => Some (mkWorld sh (<[id := HWaiting t WaitStart]> (w_handles w)))
      | _ => None
      end
  | OpTurn id =>
      match w_handles w !! id with
      | Some (HWaiting t p) =>
          match wait_turn sh t p with
          | Asleep => None
          | Continue p => Some (mkWorld sh (<[id := HWaiting t p]> (w_handles w)))
          | Return (Ok l) t => Some (mkWorld (ticket_drop now sh t) (<[id := HLease l]> (w_handles w)))
          | Return _ t => Some (mkWorld (ticket_drop now sh t) (delete id (w_handles w)))
          end
      | _ => None
      end
  | OpCancel id =>
      match w_handles w !! id with
      | Some (HWaiting t (WaitSelect _)) =>
          let '(_, t, sh) := wait_cancelled now sh t in
          Some (mkWorld (ticket_drop now sh t) (delete id (w_handles w)))
      | _ => None
      end
  | OpDrop id =>
      match w_handles w !! id with
      | Some (HTicket t) | Some (HWaiting t _) =>
          Some (mkWorld (ticket_drop now sh t) (delete id (w_handles w)))
      | Some (HLease l) =>
          Some (mkWorld (default sh (release_inner now (Some sh) l).2) (delete id (w_handles w)))
      | None => None
      end
  end.

Fixpoint world_run (now : nat -> Z) (w : World) (ops : list Op) : option World :=
  match ops with
  | [] => Some w
  | op :: ops => w ← world_step now w op; world_run now w ops
  end.
