(* ===== verification/ResourcesProps.v ===== *)
(** What the resource scheduler guarantees: exact permit accounting within capacity,
    no queued request that could run, bounded waiting, woken waiters, and handles that
    correspond one to one to what is queued or running. *)

From S2P Require Import Prelude WireScalar Resources.
From stdpp Require Import options.
Set Warnings "-clear-no-such-hyp".

(** ** Ordered iteration and pool updates *)

Lemma elem_of_btree_iter {A} (m : gmap string A) n x : (n, x) ∈ btree_iter m <-> m !! n = Some x.
Proof. unfold btree_iter. rewrite merge_sort_Permutation. apply elem_of_map_to_list. Qed.

Lemma NoDup_btree_iter {A} (m : gmap string A) : NoDup (btree_iter m).*1.
Proof.
  unfold btree_iter. rewrite (merge_sort_Permutation name_le (map_to_list m)). apply NoDup_fst_map_to_list.
Qed.

Lemma update_pools_notin f l ps n : n ∉ l.*1 -> update_pools f l ps !! n = ps !! n.
Proof.
  revert ps. induction l as [|[m p] l IH]; intros ps Hn; [done|].
  cbn in Hn. apply not_elem_of_cons in Hn as [Hne Hn].
  unfold update_pools in *. cbn [foldl]. rewrite IH by done. by rewrite lookup_alter_ne.
Qed.

Lemma update_pools_in f l ps n p :
  NoDup l.*1 -> (n, p) ∈ l -> update_pools f l ps !! n = f p <$> ps !! n.
Proof.
  revert ps. induction l as [|[m q] l IH]; intros ps Hd Hin; [by apply not_elem_of_nil in Hin|].
  cbn in Hd. apply NoDup_cons in Hd as [Hm Hd]. apply elem_of_cons in Hin as [[= -> ->]|Hin].
  - change (update_pools f l (alter (f q) m ps) !! m = f q <$> ps !! m).
    rewrite update_pools_notin by done. apply lookup_alter_eq.
  - change (update_pools f l (alter (f q) m ps) !! n = f p <$> ps !! n).
    rewrite IH by done. rewrite lookup_alter_ne; [done|]. intros ->.
    apply Hm. apply list_elem_of_fmap. by exists (n, p).
Qed.

(** The whole update, pool by pool. *)
Lemma update_pools_lookup f (m : gmap string Z) ps n :
  update_pools f (btree_iter m) ps !! n =
  match m !! n with Some p => f p <$> ps !! n | None => ps !! n end.
Proof.
  destruct (m !! n) as [p|] eqn:Hn.
  - apply update_pools_in; [apply NoDup_btree_iter|]. by apply elem_of_btree_iter.
  - apply update_pools_notin. intros Hin. apply list_elem_of_fmap in Hin as ([n' p] & -> & Hin).
    apply elem_of_btree_iter in Hin. cbn in Hn. congruence.
Qed.

Lemma forallb_false_exists {A} (f : A -> bool) l : forallb f l = false -> exists x, x ∈ l /\ f x = false.
Proof.
  induction l as [|x l IH]; cbn; [done|]. destruct (f x) eqn:Hx; cbn.
  - intros (y & Hy & Hf)%IH. exists y. split; [by right|done].
  - intros _. exists x. split; [by left|done].
Qed.

Lemma has_capacity_spec st r :
  has_capacity st r = true <->
  forall n p, rr_pools r !! n = Some p ->
    exists pool, ss_pools st !! n = Some pool /\
      saturating_add_u32 (pool_used pool) p <= pool_capacity pool.
Proof.
  unfold has_capacity. rewrite forallb_forall. split.
  - intros H n p Hn. apply elem_of_btree_iter, list_elem_of_In in Hn. specialize (H _ Hn). cbn in H.
    destruct (ss_pools st !! n) as [pool|]; [|done]. exists pool. split; [done|]. by apply Z.leb_le.
  - intros H [n p] Hn. apply list_elem_of_In, elem_of_btree_iter in Hn.
    destruct (H n p Hn) as (pool & -> & Hp). by apply Z.leb_le.
Qed.

(** Why a request is refused. *)
Definition request_error (st : SchedulerState) (r : ResourceRequirements) (e : ResourceAcquireError) : Prop :=
  exists n p, rr_pools r !! n = Some p /\
    ((ss_pools st !! n = None /\ e = UnknownPool n) \/
     (exists pool, ss_pools st !! n = Some pool /\ pool_capacity pool < p /\
        e = OverCapacity n p (pool_capacity pool))).

Definition request_fits (ps : gmap string PoolState) (r : ResourceRequirements) : Prop :=
  forall n p, rr_pools r !! n = Some p ->
    exists pool, ps !! n = Some pool /\ p <= pool_capacity pool.

Lemma validate_pools_spec ps l :
  match validate_pools ps l with
  | Ok _ => forall n p, (n, p) ∈ l -> exists pool, ps !! n = Some pool /\ p <= pool_capacity pool
  | Err e => exists n p, (n, p) ∈ l /\
      ((ps !! n = None /\ e = UnknownPool n) \/
       (exists pool, ps !! n = Some pool /\ pool_capacity pool < p /\
          e = OverCapacity n p (pool_capacity pool)))
  | Panic => False
  end.
Proof.
  induction l as [|[n p] l IH]; cbn [validate_pools].
  { intros n p Hn. by apply not_elem_of_nil in Hn. }
  destruct (ps !! n) as [pool|] eqn:Hp.
  2:{ exists n, p. split; [by left|]. by left. }
  destruct (Z.ltb_spec (pool_capacity pool) p).
  { exists n, p. split; [by left|]. right. by exists pool. }
  destruct (validate_pools ps l) as [u|e|]; [| |done].
  - intros n' p' [[= -> ->]|Hin]%elem_of_cons; [by exists pool|by apply IH].
  - destruct IH as (n' & p' & Hin & Hc). exists n', p'. split; [by right|done].
Qed.

Lemma validate_request_spec st r :
  match validate_request st r with
  | Ok _ => request_fits (ss_pools st) r
  | Err e => request_error st r e
  | Panic => False
  end.
Proof.
  unfold validate_request. pose proof (validate_pools_spec (ss_pools st) (btree_iter (rr_pools r))) as H.
  destruct (validate_pools _ _) as [u|e|]; [| |done].
  - intros n p Hn. apply H. by apply elem_of_btree_iter.
  - destruct H as (n & p & Hin & Hc). exists n, p. split; [by apply elem_of_btree_iter|done].
Qed.

(** ** The invariant of the scheduler state *)

Definition permits_of (n : string) (r : ResourceRequirements) : Z := default 0 (rr_pools r !! n).
(** The permits of pool [n] that running requests hold. *)
Definition permits_held (n : string) (running : gmap Z RunningEntry) : Z :=
  map_sum (fun _ e => permits_of n (rn_resources e)) running.

Definition request_typed (r : ResourceRequirements) : Prop :=
  forall n p, rr_pools r !! n = Some p -> is_u32 p.

(** [u32::saturating_add] hides an overflow only at a pool of the largest capacity;
    every other pool is accounted exactly. *)
Definition pool_ok (running : gmap Z RunningEntry) (n : string) (pool : PoolState) : Prop :=
  0 <= pool_used pool <= pool_capacity pool /\ pool_capacity pool <= U32_MAX /\
  pool_used pool <= permits_held n running /\
  (pool_capacity pool < U32_MAX -> pool_used pool = permits_held n running).

Definition admitted (ps : gmap string PoolState) (r : ResourceRequirements) : Prop :=
  request_typed r /\ request_fits ps r.

Definition queued_ids (st : SchedulerState) : list Z := rq_id <$> ss_queued st.
Definition running_ids (st : SchedulerState) : gset Z := dom (ss_running st).

Lemma not_running st id : id ∉ running_ids st <-> ss_running st !! id = None.
Proof. apply not_elem_of_dom. Qed.
Lemma is_running st id : id ∈ running_ids st <-> is_Some (ss_running st !! id).
Proof. apply elem_of_dom. Qed.

Record sched_ok (st : SchedulerState) : Prop := {
  so_pools n pool : ss_pools st !! n = Some pool -> pool_ok (ss_running st) n pool;
  so_queue : Forall (fun e => admitted (ss_pools st) (rq_resources e)) (ss_queued st);
  so_running id e : ss_running st !! id = Some e -> rn_id e = id /\ admitted (ss_pools st) (rn_resources e);
  so_nodup : NoDup (queued_ids st);
  so_disjoint id : id ∈ queued_ids st -> id ∉ running_ids st;
  so_length : zlen (ss_queued st) <= ss_max_queued st;
}.

(** Nothing waits that could run: the front of the queue does not fit. *)
Definition stalled (st : SchedulerState) : Prop :=
  match ss_queued st with [] => True | e :: _ => has_capacity st (rq_resources e) = false end.

Lemma permits_of_nonneg n r : request_typed r -> 0 <= permits_of n r <= U32_MAX.
Proof.
  intros Hr. unfold permits_of. destruct (rr_pools r !! n) as [p|] eqn:Hp; cbn; [by apply (Hr n)|].
  unfold U32_MAX. lia.
Qed.

Lemma permits_held_nonneg n st : sched_ok st -> 0 <= permits_held n (ss_running st).
Proof.
  intros Hs. apply map_sum_nonneg. intros id e He. apply permits_of_nonneg.
  by destruct (so_running _ Hs id e He) as (_ & Ht & _).
Qed.

(** Two pool tables that agree on names and capacities admit the same requests. *)
Definition same_pools (ps ps' : gmap string PoolState) : Prop :=
  forall n, pool_capacity <$> ps !! n = pool_capacity <$> ps' !! n.

#[export] Instance same_pools_equiv : Equivalence same_pools.
Proof. split; [by intros ??|by intros ????|intros x y z H1 H2 n; by rewrite H1]. Qed.

#[export] Instance admitted_proper : Proper (same_pools ==> eq ==> iff) admitted.
Proof.
  assert (forall ps ps' r, same_pools ps ps' -> admitted ps r -> admitted ps' r) as Himp.
  { intros ps ps' r Hs [Ht Hf]. split; [done|]. intros n p Hp. destruct (Hf n p Hp) as (pool & Hn & Hle).
    specialize (Hs n). rewrite Hn in Hs. destruct (ps' !! n) as [pool'|]; [|done].
    exists pool'. split; [done|]. cbn in Hs. injection Hs. lia. }
  intros ps ps' Hs r ? <-. split; by apply Himp.
Qed.

Lemma update_pools_same f m ps :
  (forall p pool, pool_capacity (f p pool) = pool_capacity pool) ->
  same_pools ps (update_pools f (btree_iter m) ps).
Proof.
  intros Hf n. rewrite update_pools_lookup. destruct (m !! n); [|done].
  destruct (ps !! n); cbn; [|done]. by rewrite Hf.
Qed.

(** ** Starting, releasing and draining *)

Lemma charge_capacity p pool : pool_capacity (charge_pool p pool) = pool_capacity pool.
Proof. done. Qed.
Lemma refund_capacity p pool : pool_capacity (refund_pool p pool) = pool_capacity pool.
Proof. done. Qed.

Lemma start_same now st e : same_pools (ss_pools st) (ss_pools (start_running now st e)).
Proof. apply update_pools_same, charge_capacity. Qed.

Lemma permits_held_insert n id e running :
  running !! id = None ->
  permits_held n (<[id := e]> running) = permits_of n (rn_resources e) + permits_held n running.
Proof. intros Hid. unfold permits_held. by rewrite map_sum_insert. Qed.

Lemma permits_held_delete n id e running :
  running !! id = Some e ->
  permits_held n running = permits_of n (rn_resources e) + permits_held n (delete id running).
Proof. exact (map_sum_delete (fun _ e => permits_of n (rn_resources e)) running id e). Qed.

(** Charging a pool that has room keeps its accounts. *)
Lemma start_running_ok now st e :
  sched_ok st -> admitted (ss_pools st) (rq_resources e) ->
  rq_id e ∉ queued_ids st -> rq_id e ∉ running_ids st ->
  has_capacity st (rq_resources e) = true -> sched_ok (start_running now st e).
Proof.
  intros Hs Ha Hq Hr Hc. apply not_running in Hr. pose proof (start_same now st e) as Hsame.
  assert (queued_ids (start_running now st e) = queued_ids st) as Hqi by done.
  split.
  - intros n pool Hn. unfold start_running in Hn. cbn in Hn. rewrite update_pools_lookup in Hn.
    cbn [start_running set_running ss_running]. unfold pool_ok. rewrite permits_held_insert by done.
    cbn [rn_resources]. unfold permits_of.
    destruct (rr_pools (rq_resources e) !! n) as [p|] eqn:Hp; cbn [from_option Datatypes.id].
    + destruct (proj1 (has_capacity_spec _ _) Hc n p Hp) as (pool0 & Hn0 & Hle).
      rewrite Hn0 in Hn. injection Hn as <-. destruct (so_pools _ Hs n pool0 Hn0) as (? & ? & ? & ?).
      destruct Ha as [Ht _]. specialize (Ht n p Hp). unfold is_u32 in Ht.
      unfold charge_pool, saturating_add_u32 in *. cbn. lia.
    + destruct (so_pools _ Hs n pool Hn) as (? & ? & ? & ?). cbn. lia.
  - cbn. rewrite Forall_forall. intros x Hx.
    setoid_rewrite <- Hsame. by eapply Forall_forall in Hx; [|apply (so_queue _ Hs)].
  - intros id x Hx. cbn in Hx. setoid_rewrite <- Hsame.
    apply lookup_insert_Some in Hx as [[<- <-]|[_ Hx]]; [done|by apply (so_running _ Hs)].
  - rewrite Hqi. apply (so_nodup _ Hs).
  - rewrite Hqi. intros id Hid. unfold running_ids. cbn. rewrite dom_insert. apply not_elem_of_union.
    split; [|by apply (so_disjoint _ Hs)]. apply not_elem_of_singleton. by intros ->.
  - apply (so_length _ Hs).
Qed.

Lemma release_running_locked_ok st id b st' :
  release_running_locked st id = (b, st') -> sched_ok st ->
  sched_ok st' /\ ss_queued st' = ss_queued st /\ running_ids st' = running_ids st ∖ {[id]} /\
  same_pools (ss_pools st) (ss_pools st') /\ b = bool_decide (id ∈ running_ids st).
Proof.
  unfold release_running_locked. intros Hl Hs. destruct (ss_running st !! id) as [e|] eqn:He.
  2:{ injection Hl as <- <-. split; [done|]. split; [done|].
      assert (id ∉ running_ids st) by (by apply not_running).
      split; [set_solver|]. split; [done|]. by rewrite bool_decide_false. }
  injection Hl as <- <-. set (st' := set_pools _ _).
  assert (same_pools (ss_pools st) (ss_pools st')) as Hsame by (apply update_pools_same, refund_capacity).
  assert (running_ids st' = running_ids st ∖ {[id]}) as Hrid.
  { unfold running_ids, st'. cbn. by rewrite dom_delete_L. }
  split_and!; [|done|done|done|].
  2:{ symmetry. apply bool_decide_true. apply is_running. by rewrite He. }
  destruct (so_running _ Hs id e He) as (_ & Ht & _).
  split.
  - intros n pool Hn. cbn in Hn. rewrite update_pools_lookup in Hn. change (ss_running st') with (delete id (ss_running st)).
    pose proof (permits_held_delete n id e _ He) as Hsum. pose proof (permits_held_nonneg n st Hs).
    assert (0 <= permits_held n (delete id (ss_running st))) as Hnn.
    { apply map_sum_nonneg. intros i x Hx. apply lookup_delete_Some in Hx as [_ Hx].
      apply permits_of_nonneg. by destruct (so_running _ Hs i x Hx) as (_ & ? & _). }
    unfold pool_ok. unfold permits_of in Hsum.
    destruct (rr_pools (rn_resources e) !! n) as [p|] eqn:Hp; cbn [from_option Datatypes.id] in Hsum.
    + destruct (ss_pools st !! n) as [pool0|] eqn:Hn0; [|done]. injection Hn as <-.
      destruct (so_pools _ Hs n pool0 Hn0) as (? & ? & ? & ?).
      specialize (Ht n p Hp). unfold is_u32 in Ht. unfold refund_pool, saturating_sub. cbn. lia.
    + destruct (so_pools _ Hs n pool Hn) as (? & ? & ? & ?). lia.
  - change (ss_queued st') with (ss_queued st). rewrite Forall_forall. intros x Hx.
    setoid_rewrite <- Hsame.
    by eapply Forall_forall in Hx; [|apply (so_queue _ Hs)].
  - intros i x Hx. change (ss_running st') with (delete id (ss_running st)) in Hx. apply lookup_delete_Some in Hx as [_ Hx]. setoid_rewrite <- Hsame.
    by apply (so_running _ Hs).
  - apply (so_nodup _ Hs).
  - intros i Hi. rewrite Hrid. pose proof (so_disjoint _ Hs i Hi). set_solver.
  - apply (so_length _ Hs).
Qed.

(** What a drain of the queue does: the first [k] requests start, the rest stay. *)
Record drained (st st' : SchedulerState) (k : nat) : Prop := {
  dr_ok : sched_ok st';
  dr_stalled : stalled st';
  dr_queue : ss_queued st' = drop k (ss_queued st);
  dr_running : running_ids st' = running_ids st ∪ list_to_set (take k (queued_ids st));
  dr_le : (k <= length (ss_queued st))%nat;
  dr_same : same_pools (ss_pools st) (ss_pools st');
  dr_max : ss_max_queued st' = ss_max_queued st;
  dr_enabled : ss_enabled st' = ss_enabled st;
  dr_zero : k = 0%nat -> st' = st;
}.

(** Taking the front off the queue keeps the invariant. *)
Lemma pop_ok st front rest :
  sched_ok st -> ss_queued st = front :: rest ->
  sched_ok (set_queued rest st) /\ (rq_id front ∉ (rq_id <$> rest)) /\ (rq_id front ∉ running_ids st) /\
  admitted (ss_pools st) (rq_resources front).
Proof.
  intros [Hp Hq Hr Hn Hd Hl] Hf. unfold queued_ids in *. rewrite Hf in *. cbn in Hn, Hd.
  apply NoDup_cons in Hn as [Hni Hn]. apply Forall_cons in Hq as [Ha Hq]. rewrite zlen_cons in Hl.
  split_and!; [split; try done|done|apply Hd; by left|done].
  - intros id Hid. apply Hd. by right.
  - cbn. lia.
Qed.

Lemma try_start_loop_drained now k q st :
  sched_ok st -> q = ss_queued st -> exists j, drained st (try_start_loop now k q st) j.
Proof.
  revert k st. induction q as [|front rest IH]; intros k st Hs Hq; cbn [try_start_loop].
  { exists 0%nat. split; try done; [by unfold stalled; rewrite <- Hq|cbn; set_solver|lia]. }
  destruct (has_capacity st (rq_resources front)) eqn:Hc; cbn [negb].
  2:{ exists 0%nat. split; try done; [by unfold stalled; rewrite <- Hq|cbn; set_solver|lia]. }
  destruct (pop_ok st front rest Hs (eq_sym Hq)) as (Hs1 & Hni & Hnr & Ha).
  destruct (IH (S k) (start_running (now k) (set_queued rest st) front)) as (j & [D1 D2 D3 D4 D5 D6 D7 D8 D9]);
    [by apply start_running_ok|done|].
  exists (S j). split; try done.
  - rewrite D3, <- Hq. done.
  - rewrite D4. unfold queued_ids. rewrite <- Hq. unfold running_ids. cbn. rewrite dom_insert_L. set_solver.
  - rewrite <- Hq. cbn in D5 |- *. lia.
  - etrans; [|exact D6]. apply (start_same (now k) (set_queued rest st)).
Qed.

Lemma try_start_queued_drained now st :
  sched_ok st -> exists j, drained st (try_start_queued now st) j.
Proof. intros. by apply try_start_loop_drained. Qed.

(** With nothing running, every request that was admitted fits. *)
Lemma idle_has_capacity st r :
  sched_ok st -> ss_running st = ∅ -> admitted (ss_pools st) r -> has_capacity st r = true.
Proof.
  intros Hs Hr [Ht Hf]. apply has_capacity_spec. intros n p Hp. destruct (Hf n p Hp) as (pool & Hn & Hle).
  exists pool. split; [done|]. destruct (so_pools _ Hs n pool Hn) as (? & ? & Hu & _).
  rewrite Hr in Hu. unfold permits_held in Hu. rewrite map_sum_empty in Hu.
  unfold saturating_add_u32. specialize (Ht n p Hp). unfold is_u32 in Ht. lia.
Qed.

Lemma idle_queue_empty st :
  sched_ok st -> stalled st -> ss_running st = ∅ -> ss_queued st = [].
Proof.
  intros Hs Hst Hr. unfold stalled in Hst. pose proof (so_queue _ Hs) as Hq.
  destruct (ss_queued st) as [|e q]; [done|]. apply Forall_cons in Hq as [Ha _].
  by rewrite idle_has_capacity in Hst.
Qed.

(** ** The queue edited in place *)

Definition queue_key (e : RequestEntry) : Z * ResourceRequirements := (rq_id e, rq_resources e).

(** Reordering the queue, or touching only the promotion marks of an entry, is harmless. *)
Lemma set_queued_ok st q :
  sched_ok st -> (queue_key <$> q) ≡ₚ (queue_key <$> ss_queued st) -> sched_ok (set_queued q st).
Proof.
  intros [Hp Hq Hr Hn Hd Hl] Hk.
  assert (forall l, rq_id <$> l = fst <$> (queue_key <$> l)) as Hid by (intros l; by rewrite <- list_fmap_compose).
  assert (queued_ids (set_queued q st) ≡ₚ queued_ids st) as Hids.
  { unfold queued_ids. cbn. by rewrite !Hid, Hk. }
  split; try done.
  - cbn. rewrite <- (Forall_fmap queue_key (fun x => admitted (ss_pools st) x.2)), Hk, Forall_fmap. done.
  - by rewrite Hids.
  - intros id. rewrite Hids. apply Hd.
  - cbn. apply Permutation_length in Hk. rewrite !length_fmap in Hk. unfold zlen in *. lia.
Qed.

Lemma queue_position_spec id q :
  match queue_position id q with
  | Some (i, e) => q !! i = Some e /\ rq_id e = id
  | None => id ∉ (rq_id <$> q)
  end.
Proof.
  unfold queue_position. destruct (list_find _ q) as [[i e]|] eqn:Hf.
  - apply list_find_Some in Hf. tauto.
  - apply list_find_None in Hf. intros (e & -> & He)%list_elem_of_fmap.
    by eapply Forall_forall in He; [|done].
Qed.

(** Taking any entry out of the queue. *)
Lemma remove_queued_ok st i e :
  sched_ok st -> ss_queued st !! i = Some e ->
  let st' := set_queued (delete i (ss_queued st)) st in
  sched_ok st' /\ queued_ids st ≡ₚ rq_id e :: queued_ids st' /\
  (rq_id e ∉ queued_ids st') /\ rq_id e ∉ running_ids st.
Proof.
  intros Hs Hi st'. pose proof (delete_Permutation _ _ _ Hi) as Hp.
  assert (sched_ok (set_queued (e :: delete i (ss_queued st)) st)) as Hs1.
  { apply set_queued_ok; [done|]. by rewrite <- Hp. }
  destruct (pop_ok _ _ _ Hs1 eq_refl) as (Hs2 & Hq & Hr & _). split_and!; [done| |done|done].
  unfold queued_ids. by rewrite Hp at 1.
Qed.

(** ** What one operation changes for the requests it is not about *)

Definition live (sh : Shared) (id : Z) : Prop :=
  id ∈ queued_ids (sh_state sh) \/ id ∈ running_ids (sh_state sh).

Record frame (X : gset Z) (sh sh' : Shared) : Prop := {
  fr_notified : sh_notified sh <= sh_notified sh';
  fr_live id : id ∉ X -> live sh id <-> live sh' id;
  fr_running id : id ∉ X -> id ∈ running_ids (sh_state sh) -> id ∈ running_ids (sh_state sh');
  fr_wake id : id ∉ X -> id ∈ queued_ids (sh_state sh) ->
    id ∈ queued_ids (sh_state sh') \/ sh_notified sh < sh_notified sh';
}.

(** The scheduler is well formed and has started all it can. *)
Definition settled (sh : Shared) : Prop := sched_ok (sh_state sh) /\ stalled (sh_state sh).

Lemma drained_ids st st' k :
  drained st st' k -> queued_ids st' = drop k (queued_ids st).
Proof. intros D. unfold queued_ids. by rewrite (dr_queue _ _ _ D), fmap_drop. Qed.

(** An edit of the queue or of what runs, then a drain, then a notification. *)
Lemma drain_frame X st st1 st' k n :
  drained st1 st' k ->
  (forall id, id ∉ X -> id ∈ queued_ids st <-> id ∈ queued_ids st1) ->
  (forall id, id ∉ X -> id ∈ running_ids st <-> id ∈ running_ids st1) ->
  frame X (mkShared st n) (notify_waiters (mkShared st' n)) /\
  settled (notify_waiters (mkShared st' n)) /\
  (forall id, live (notify_waiters (mkShared st' n)) id <-> live (mkShared st1 n) id).
Proof.
  intros D Hq Hr. pose proof (drained_ids _ _ _ D) as Hids. pose proof (dr_running _ _ _ D) as Hrun.
  assert (forall id, live (notify_waiters (mkShared st' n)) id <-> live (mkShared st1 n) id) as Hlive.
  { intros id. unfold live. cbn. rewrite Hids, Hrun, elem_of_union, elem_of_list_to_set.
    rewrite <- (take_drop k (queued_ids st1)) at 3. rewrite elem_of_app. tauto. }
  split_and!; [|split; [apply (dr_ok _ _ _ D)|apply (dr_stalled _ _ _ D)]|done].
  split; cbn.
  - lia.
  - intros id Hid. rewrite Hlive. unfold live. cbn. by rewrite Hq, Hr.
  - intros id Hid. rewrite Hr, Hrun by done. set_solver.
  - intros. right. lia.
Qed.

Lemma frame_refl X sh : frame X sh sh.
Proof. split; [lia|done|done|by left]. Qed.

(** ** The methods, one by one *)

Lemma release_running_spec now sh id :
  settled sh -> id ∉ queued_ids (sh_state sh) ->
  let sh' := release_running now sh id in
  settled sh' /\ frame {[id]} sh sh' /\ ~ live sh' id.
Proof.
  intros [Hs Hst] Hq sh'. subst sh'. unfold release_running.
  destruct (release_running_locked (sh_state sh) id) as [b st1] eqn:Hl.
  destruct (release_running_locked_ok _ _ _ _ Hl Hs) as (Hs1 & Hq1 & Hr1 & _ & Hb).
  assert (queued_ids st1 = queued_ids (sh_state sh)) as Hqi by (unfold queued_ids; by rewrite Hq1).
  destruct b.
  - destruct (try_start_queued_drained now st1 Hs1) as [k D].
    destruct (drain_frame {[id]} (sh_state sh) st1 _ k (sh_notified sh) D) as (Hf & Hset & Hlive).
    { by rewrite Hqi. } { intros i Hi. rewrite Hr1. set_solver. }
    split_and!; [done|by destruct sh|]. rewrite Hlive. unfold live. cbn. rewrite Hqi, Hr1. set_solver.
  - unfold release_running_locked in Hl. destruct (ss_running (sh_state sh) !! id) eqn:He; [done|].
    injection Hl as <-. destruct sh as [st n]. cbn in *. split_and!; [done|apply frame_refl|].
    intros [Hi|Hi]; [done|]. by apply not_running in He.
Qed.

Lemma cancel_or_release_spec now sh id :
  settled sh ->
  let sh' := cancel_or_release now sh id in
  settled sh' /\ frame {[id]} sh sh' /\ ~ live sh' id.
Proof.
  intros Hset sh'. subst sh'. unfold cancel_or_release.
  pose proof (queue_position_spec id (ss_queued (sh_state sh))) as Hp.
  destruct (queue_position id (ss_queued (sh_state sh))) as [[i e]|].
  2:{ apply (release_running_spec now sh id); [done|exact Hp]. }
  destruct Hp as [Hi Hid]. destruct Hset as [Hs Hst].
  destruct (remove_queued_ok _ i e Hs Hi) as (Hs1 & Hperm & Hnq & Hnr). rewrite Hid in *.
  set (st1 := set_queued _ _) in *.
  destruct (try_start_queued_drained now st1 Hs1) as [k D].
  destruct (drain_frame {[id]} (sh_state sh) st1 _ k (sh_notified sh) D) as (Hf & Hset & Hlive).
  { intros j Hj. rewrite Hperm. rewrite elem_of_cons. set_solver. } { done. }
  split_and!; [done|by destruct sh|]. rewrite Hlive. by intros [?|?].
Qed.

Lemma promote_spec now sh id by_ :
  settled sh ->
  let sh' := (promote now sh id by_).2 in
  settled sh' /\ frame ∅ sh sh'.
Proof.
  intros Hset sh'. subst sh'. unfold promote.
  destruct (ss_running (sh_state sh) !! id) eqn:Hrun; cbn [snd]; [by split; [|apply frame_refl]|].
  pose proof (queue_position_spec id (ss_queued (sh_state sh))) as Hp.
  destruct (queue_position id (ss_queued (sh_state sh))) as [[i e]|]; cbn [snd]; [|by split; [|apply frame_refl]].
  destruct Hp as [Hi Hid]. destruct Hset as [Hs Hst]. set (e' := mkRequestEntry _ _ _ _ _ _ _).
  set (st1 := set_queued _ _). pose proof (delete_Permutation _ _ _ Hi) as Hperm.
  assert (sched_ok st1) as Hs1.
  { apply set_queued_ok; [done|]. symmetry. exact (fmap_Permutation queue_key _ _ Hperm). }
  destruct (try_start_queued_drained (fun k => now (S k)) st1 Hs1) as [k D].
  destruct (drain_frame ∅ (sh_state sh) st1 _ k (sh_notified sh) D) as (Hf & Hset & _); [|done|by destruct sh].
  intros j _. by rewrite (fmap_Permutation rq_id _ _ Hperm : queued_ids (sh_state sh) ≡ₚ queued_ids st1).
Qed.

(** Drawing a display id changes nothing the invariant sees. *)
Lemma set_display_ok st n : sched_ok st -> sched_ok (set_display n st).
Proof. by intros [????? ?]; split. Qed.

Lemma push_back_ok st e :
  sched_ok st -> admitted (ss_pools st) (rq_resources e) ->
  rq_id e ∉ queued_ids st -> rq_id e ∉ running_ids st -> zlen (ss_queued st) < ss_max_queued st ->
  sched_ok (set_queued (ss_queued st ++ [e]) st).
Proof.
  intros [Hp Hq Hr Hn Hd Hl] Ha Hnq Hnr Hlen. unfold queued_ids in *.
  split; cbn [set_queued ss_pools ss_running ss_queued ss_max_queued]; try done.
  - apply Forall_app_2; [done|]. by apply Forall_singleton.
  - unfold queued_ids. cbn. rewrite fmap_app. apply NoDup_app. split_and!; [done| |apply NoDup_singleton].
    intros x Hx. apply not_elem_of_cons. split; [by intros ->|apply not_elem_of_nil].
  - intros id. unfold queued_ids. cbn. rewrite fmap_app, elem_of_app. intros [?|Hx]; [by apply Hd|].
    apply list_elem_of_singleton in Hx as ->. done.
  - rewrite zlen_app, zlen_cons, zlen_nil. lia.
Qed.

(** A drain of a queue whose front does not fit does nothing. *)
Lemma try_start_stalled now st : stalled st -> try_start_queued now st = st.
Proof.
  unfold stalled, try_start_queued. destruct (ss_queued st) as [|e q]; [done|]. intros Hc.
  cbn [try_start_loop]. by rewrite Hc.
Qed.

(** ** Submission *)

(** The scheduler with the next display id drawn and nothing else changed. *)
Definition display_drawn (sh : Shared) : Shared :=
  mkShared (set_display (saturating_add (ss_next_display_id (sh_state sh)) 1) (sh_state sh)) (sh_notified sh).

Definition new_ticket (tracked : bool) (id : Z) (sh : Shared) : ResourceTicket :=
  mkTicket tracked id (display_text (ss_next_display_id (sh_state sh))) false.

(** Can the request start at once, ahead of nobody? *)
Definition starts_now (sh : Shared) (r : ResourceRequirements) : Prop :=
  ss_queued (sh_state sh) = [] /\ has_capacity (sh_state sh) r = true.

Definition gated (sh : Shared) (r : ResourceRequirements) : Prop :=
  ss_enabled (sh_state sh) = true /\ rr_pools r <> ∅.

(** What a submission promises, case by case. *)
Inductive submit_outcome (id : Z) (sh : Shared) (request : ResourceAcquireRequest)
    : result ResourceAcquireError ResourceTicket -> Shared -> Prop :=
| SubmitUngated :
    ~ gated sh (aq_resources request) ->
    submit_outcome id sh request (Ok (new_ticket false id sh)) (display_drawn sh)
| SubmitRefused e :
    gated sh (aq_resources request) -> request_error (sh_state sh) (aq_resources request) e ->
    submit_outcome id sh request (Err e) (display_drawn sh)
| SubmitStarted sh' :
    gated sh (aq_resources request) -> request_fits (ss_pools (sh_state sh)) (aq_resources request) ->
    starts_now sh (aq_resources request) ->
    ss_queued (sh_state sh') = [] ->
    running_ids (sh_state sh') = running_ids (sh_state sh) ∪ {[id]} ->
    (forall n pool, ss_pools (sh_state sh) !! n = Some pool ->
       ss_pools (sh_state sh') !! n =
         Some (mkPoolState (pool_capacity pool) (saturating_add_u32 (pool_used pool)
                                                   (permits_of n (aq_resources request))))) ->
    sh_notified sh' = sh_notified sh + 1 ->
    submit_outcome id sh request (Ok (new_ticket true id sh)) sh'
| SubmitQueued e sh' :
    gated sh (aq_resources request) -> request_fits (ss_pools (sh_state sh)) (aq_resources request) ->
    ~ starts_now sh (aq_resources request) -> zlen (ss_queued (sh_state sh)) < ss_max_queued (sh_state sh) ->
    rq_id e = id -> rq_resources e = aq_resources request ->
    ss_queued (sh_state sh') = ss_queued (sh_state sh) ++ [e] ->
    ss_running (sh_state sh') = ss_running (sh_state sh) ->
    ss_pools (sh_state sh') = ss_pools (sh_state sh) ->
    sh_notified sh' = sh_notified sh + 1 ->
    submit_outcome id sh request (Ok (new_ticket true id sh)) sh'
| SubmitFull :
    gated sh (aq_resources request) -> request_fits (ss_pools (sh_state sh)) (aq_resources request) ->
    ~ starts_now sh (aq_resources request) -> ss_max_queued (sh_state sh) <= zlen (ss_queued (sh_state sh)) ->
    submit_outcome id sh request (Err (QueueFull (ss_max_queued (sh_state sh)))) (display_drawn sh).

Lemma gated_spec sh r :
  negb (ss_enabled (sh_state sh)) || requirements_is_empty r = false <-> gated sh r.
Proof.
  unfold gated, requirements_is_empty. rewrite orb_false_iff, negb_false_iff, bool_decide_eq_false. done.
Qed.

Lemma starts_now_spec sh r :
  bool_decide (ss_queued (sh_state sh) = []) && has_capacity (sh_state sh) r = true <-> starts_now sh r.
Proof. unfold starts_now. by rewrite andb_true_iff, bool_decide_eq_true. Qed.

(** Appending a request that cannot start leaves the queue stalled. *)
Lemma push_back_stalled st e :
  stalled st -> (ss_queued st = [] -> has_capacity st (rq_resources e) = false) ->
  stalled (set_queued (ss_queued st ++ [e]) st).
Proof. unfold stalled. cbn. destruct (ss_queued st); cbn; [intros _ H; exact (H eq_refl)|done]. Qed.

Lemma update_pools_charged r ps n pool :
  0 <= pool_used pool <= U32_MAX -> ps !! n = Some pool ->
  update_pools charge_pool (btree_iter (rr_pools r)) ps !! n =
    Some (mkPoolState (pool_capacity pool) (saturating_add_u32 (pool_used pool) (permits_of n r))).
Proof.
  intros Hu Hn. rewrite update_pools_lookup. unfold permits_of.
  destruct (rr_pools r !! n) as [p|]; rewrite Hn; [done|]. destruct pool as [c u]. cbn in *.
  unfold saturating_add_u32. do 2 f_equal. lia.
Qed.

Lemma submit_outcome_holds now id sh request :
  settled sh -> submit_outcome id sh request (submit now id sh request).1 (submit now id sh request).2.
Proof.
  intros [Hs Hst]. unfold submit. cbn [next_display_id]. cbn [set_display ss_enabled].
  destruct (negb (ss_enabled (sh_state sh)) || requirements_is_empty (aq_resources request)) eqn:Hg.
  { apply SubmitUngated. rewrite <- gated_spec. by rewrite Hg. }
  apply gated_spec in Hg. set (st1 := set_display _ _).
  change (validate_request st1 (aq_resources request)) with (validate_request (sh_state sh) (aq_resources request)).
  pose proof (validate_request_spec (sh_state sh) (aq_resources request)) as Hv.
  destruct (validate_request _ _) as [[]|e|]; [|by apply SubmitRefused|done].
  change (ss_queued st1) with (ss_queued (sh_state sh)).
  change (has_capacity st1) with (has_capacity (sh_state sh)).
  change (ss_max_queued st1) with (ss_max_queued (sh_state sh)). set (e := mkRequestEntry _ _ _ _ _ _ _).
  destruct (bool_decide _ && _) eqn:Hnow.
  - apply starts_now_spec in Hnow. apply SubmitStarted; try done; cbn.
    + apply Hnow.
    + unfold running_ids. cbn. rewrite dom_insert_L. set_solver.
    + intros n pool Hn. destruct (so_pools _ Hs n pool Hn) as (? & ? & _).
      apply update_pools_charged; [lia|done].
  - assert (~ starts_now sh (aq_resources request)) as Hnn by (rewrite <- starts_now_spec; by rewrite Hnow).
    destruct (Z.leb_spec (ss_max_queued (sh_state sh)) (zlen (ss_queued (sh_state sh)))); [by apply SubmitFull|].
    rewrite try_start_stalled; [by eapply (SubmitQueued _ _ _ e)|].
    apply (push_back_stalled st1 e); [exact Hst|]. intros Hnil. apply not_true_is_false. intros Hc.
    by apply Hnn.
Qed.

Lemma display_drawn_settled sh : settled sh -> settled (display_drawn sh).
Proof. intros [Hs Hst]. split; [by apply set_display_ok|exact Hst]. Qed.

Lemma submit_sched_ok now id sh request :
  settled sh -> request_typed (aq_resources request) -> ~ live sh id ->
  settled (submit now id sh request).2.
Proof.
  intros Hset Ht Hl. pose proof (display_drawn_settled sh Hset) as Hd.
  unfold live in Hl. apply Decidable.not_or in Hl as [Hnq Hnr].
  unfold submit. cbn [next_display_id]. fold (display_drawn sh). set (st1 := set_display _ _) in *.
  destruct (_ || _); [exact Hd|].
  pose proof (validate_request_spec st1 (aq_resources request)) as Hv.
  destruct (validate_request _ _) as [[]|e|]; [|exact Hd|done].
  set (e := mkRequestEntry _ _ _ _ _ _ _). destruct Hd as [Hs Hst]. cbn in Hs, Hst. fold st1 in Hs, Hst.
  assert (admitted (ss_pools st1) (rq_resources e)) as Ha by done.
  destruct (bool_decide_reflect (ss_queued st1 = [])) as [Hnil|Hnil]; cbn [andb].
  - destruct (has_capacity st1 (aq_resources request)) eqn:Hc.
    { split; cbn; [by apply start_running_ok|]. unfold stalled. cbn. change (ss_queued (sh_state sh)) with (ss_queued st1). by rewrite Hnil. }
    destruct (Z.leb_spec (ss_max_queued st1) (zlen (ss_queued st1))); [done|].
    destruct (try_start_queued_drained (fun k => now (S k)) (set_queued (ss_queued st1 ++ [e]) st1)) as [k D];
      [by apply push_back_ok|]. split; [apply (dr_ok _ _ _ D)|apply (dr_stalled _ _ _ D)].
  - destruct (Z.leb_spec (ss_max_queued st1) (zlen (ss_queued st1))); [done|].
    destruct (try_start_queued_drained (fun k => now (S k)) (set_queued (ss_queued st1 ++ [e]) st1)) as [k D];
      [by apply push_back_ok|]. split; [apply (dr_ok _ _ _ D)|apply (dr_stalled _ _ _ D)].
Qed.

(** What a submission means for the identifiers. *)
Lemma submit_frame id sh request r sh' :
  submit_outcome id sh request r sh' -> ~ live sh id ->
  frame {[id]} sh sh' /\
  match r with
  | Ok t => tk_request_id t = id /\ tk_consumed t = false /\ (live sh' id <-> tk_scheduler t = true)
  | Err _ => ~ live sh' id
  | Panic => False
  end.
Proof.
  intros [ |e|sh1 ? ? Hn Hq Hr ? Hno|e sh1 ? ? ? ? <- ? Hq Hr ? Hno| ] Hl.
  1, 2, 5: (split; [by split; [reflexivity|done|done|left]|]); cbn; try done; by split_and!; try split.
  - destruct Hn as [Hnil _].
    assert (queued_ids (sh_state sh) = []) as Hq0 by (unfold queued_ids; by rewrite Hnil).
    assert (queued_ids (sh_state sh1) = []) as Hq1 by (unfold queued_ids; by rewrite Hq).
    split; [split|]; unfold live; rewrite ?Hq0, ?Hq1, ?Hr, ?Hno; [lia|set_solver|set_solver|lia|].
    cbn. split_and!; try done. set_solver.
  - assert (queued_ids (sh_state sh1) = queued_ids (sh_state sh) ++ [rq_id e]) as Hq1.
    { unfold queued_ids. by rewrite Hq, fmap_app. }
    assert (running_ids (sh_state sh1) = running_ids (sh_state sh)) as Hr1 by (unfold running_ids; by rewrite Hr).
    split; [split|]; unfold live; rewrite ?Hq1, ?Hr1, ?Hno; [lia|set_solver|set_solver|set_solver|].
    cbn. split_and!; try done. set_solver.
Qed.

(** ** Reachable worlds *)

Definition config_typed (c : ResourceSchedulerConfig) : Prop :=
  map_Forall (fun _ p => is_u32 (pc_capacity p)) (pools_as_map (sc_pools c)) /\
  0 <= lc_max_queued (sc_limits c).

Definition op_typed (op : Op) : Prop :=
  match op with OpSubmit _ request => request_typed (aq_resources request) | _ => True end.

Inductive reachable (c : ResourceSchedulerConfig) : World -> Prop :=
| reachable_init : reachable c (world_init c)
| reachable_step now w op w' :
    reachable c w -> op_typed op -> world_step now w op = Some w' -> reachable c w'.

(** What a handle stands for.  A tracked ticket's request is queued or running, a
    tracked lease's is running; a waiter asleep on the current notification has its
    request still queued, so whatever starts a request wakes its waiter. *)
Definition ticket_ok (sh : Shared) (id : Z) (t : ResourceTicket) : Prop :=
  tk_request_id t = id /\ tk_consumed t = false /\ (live sh id <-> tk_scheduler t = true).

Definition point_ok (sh : Shared) (id : Z) (p : WaitPoint) : Prop :=
  match p with
  | WaitStart => True
  | WaitTop => live sh id
  | WaitCheck g => live sh id /\ g <= sh_notified sh
  | WaitSelect g => live sh id /\ g <= sh_notified sh /\
      (g = sh_notified sh -> id ∈ queued_ids (sh_state sh))
  end.

Definition handle_ok (sh : Shared) (id : Z) (h : Handle) : Prop :=
  match h with
  | HTicket t => ticket_ok sh id t
  | HWaiting t p => ticket_ok sh id t /\ point_ok sh id p
  | HLease l => ls_request_id l = id /\ ls_released l = false /\
      (live sh id <-> ls_scheduler l = true) /\
      (ls_scheduler l = true -> id ∈ running_ids (sh_state sh))
  end.

Record world_ok (w : World) : Prop := {
  wo_settled : settled (w_shared w);
  wo_handles id h : w_handles w !! id = Some h -> handle_ok (w_shared w) id h;
  wo_owned id : live (w_shared w) id -> is_Some (w_handles w !! id);
}.

Lemma handle_ok_frame X sh sh' id h :
  frame X sh sh' -> id ∉ X -> handle_ok sh id h -> handle_ok sh' id h.
Proof.
  intros [Fn Fl Fr Fw] Hid. pose proof (Fl id Hid) as Hlive. unfold handle_ok, ticket_ok, point_ok.
  assert (id ∈ queued_ids (sh_state sh) -> sh_notified sh' <= sh_notified sh -> id ∈ queued_ids (sh_state sh')) as Hw.
  { intros Hq Hle. destruct (Fw id Hid Hq) as [?|?]; [done|lia]. }
  destruct h as [t|t [| |g|g]|l]; rewrite <- ?Hlive; try tauto.
  - intros (? & ? & ?). split; [done|]. split; [done|lia].
  - intros (? & ? & ? & Hq). split; [done|]. split; [done|]. split; [lia|]. intros ->. apply Hw; [|lia]. apply Hq. lia.
  - intros (? & ? & ? & Hr). split_and!; try done. intros Hs. apply Fr; [done|]. by apply Hr.
Qed.

(** An operation about one identifier leaves the other handles as they were. *)
Lemma world_ok_update w sh' id h :
  world_ok w -> settled sh' -> frame {[id]} (w_shared w) sh' -> handle_ok sh' id h ->
  world_ok (mkWorld sh' (<[id := h]> (w_handles w))).
Proof.
  intros [Hs Hh Ho] Hset Hf Hok. split; cbn; [done| |].
  - intros i x Hx. apply lookup_insert_Some in Hx as [[<- <-]|[Hne Hx]]; [done|].
    eapply handle_ok_frame; [done|set_solver|by apply Hh].
  - intros i Hi. destruct (decide (i = id)) as [->|Hne]; [by rewrite lookup_insert_eq|].
    rewrite lookup_insert_ne by done. apply Ho. by apply (fr_live _ _ _ Hf); [set_solver|].
Qed.

Lemma world_ok_remove w sh' id :
  world_ok w -> settled sh' -> frame {[id]} (w_shared w) sh' -> ~ live sh' id ->
  world_ok (mkWorld sh' (delete id (w_handles w))).
Proof.
  intros [Hs Hh Ho] Hset Hf Hnl. split; cbn; [done| |].
  - intros i x Hx. apply lookup_delete_Some in Hx as [Hne Hx].
    eapply handle_ok_frame; [done|set_solver|by apply Hh].
  - intros i Hi. destruct (decide (i = id)) as [->|Hne]; [done|].
    rewrite lookup_delete_ne by done. apply Ho. by apply (fr_live _ _ _ Hf); [set_solver|].
Qed.

(** Dropping an unconsumed ticket, or cancelling its wait, forgets its request. *)
Lemma ticket_drop_spec now sh id t :
  settled sh -> ticket_ok sh id t ->
  let sh' := ticket_drop now sh t in
  settled sh' /\ frame {[id]} sh sh' /\ ~ live sh' id.
Proof.
  intros Hset (Hid & Hc & Hl). unfold ticket_drop. rewrite Hc, Hid. cbn [negb andb].
  destruct (tk_scheduler t) eqn:Ht; [by apply cancel_or_release_spec|].
  split_and!; [done|apply frame_refl|]. rewrite Hl. done.
Qed.

Lemma lease_drop_spec now sh id l :
  settled sh -> handle_ok sh id (HLease l) ->
  let sh' := default sh (release_inner now (Some sh) l).2 in
  settled sh' /\ frame {[id]} sh sh' /\ ~ live sh' id.
Proof.
  intros Hset (Hid & Hrel & Hl & Hr). unfold release_inner. rewrite Hrel. cbn.
  destruct (ls_scheduler l) eqn:Hsch; cbn.
  - rewrite Hid. apply release_running_spec; [done|]. intros Hq.
    by apply (so_disjoint _ (proj1 Hset) id Hq), Hr.
  - split_and!; [done|apply frame_refl|]. rewrite Hl. done.
Qed.

Lemma existsb_queued st id :
  existsb (fun e => rq_id e =? id) (ss_queued st) = true <-> id ∈ queued_ids st.
Proof.
  rewrite existsb_exists. unfold queued_ids. rewrite list_elem_of_fmap. split.
  - intros (e & He & Heq). exists e. apply list_elem_of_In in He. split; [lia|done].
  - intros (e & -> & He). exists e. apply list_elem_of_In in He. split; [done|lia].
Qed.

(** One turn of [wait]: it never returns an error by itself. *)
Lemma wait_turn_spec sh id t p :
  handle_ok sh id (HWaiting t p) ->
  match wait_turn sh t p with
  | Continue p' => handle_ok sh id (HWaiting t p')
  | Return (Ok l) t' => tk_consumed t' = true /\ handle_ok sh id (HLease l)
  | Return _ _ => False
  | Asleep => exists g, p = WaitSelect g /\ id ∈ queued_ids (sh_state sh)
  end.
Proof.
  intros [Ht Hp]. pose proof Ht as (Hid & Hc & Hl). destruct p as [| |g|g]; cbn [wait_turn].
  - destruct (tk_scheduler t) eqn:Hs; [split; [exact Ht|by apply Hl]|].
    cbn. split_and!; done.
  - split; [exact Ht|]. split; [exact Hp|lia].
  - cbn in Hp. rewrite Hid. destruct (ss_running (sh_state sh) !! id) eqn:Hr.
    + assert (id ∈ running_ids (sh_state sh)) by (apply is_running; by rewrite Hr).
      cbn. split_and!; try done. tauto.
    + destruct (existsb _ _) eqn:Hx.
      * apply existsb_queued in Hx. cbn. tauto.
      * destruct Hp as [[Hq|Hq] _]; [apply existsb_queued in Hq; congruence|by apply not_running in Hr].
  - destruct Hp as (Hlv & Hle & Hq). destruct (Z.ltb_spec g (sh_notified sh)); [done|].
    exists g. split; [done|]. apply Hq. lia.
Qed.

Lemma world_step_ok now w op w' :
  world_ok w -> op_typed op -> world_step now w op = Some w' -> world_ok w'.
Proof.
  intros Hw Hty Hstep. pose proof (wo_settled _ Hw) as Hset.
  destruct op as [id request|id by_|id|id|id|id]; cbn [world_step] in Hstep.
  - destruct (w_handles w !! id) eqn:Hid; [done|].
    assert (~ live (w_shared w) id) as Hnl by (intros Hlv; destruct (wo_owned _ Hw id Hlv); congruence).
    pose proof (submit_sched_ok now id (w_shared w) request Hset Hty Hnl) as Hset'.
    pose proof (submit_frame _ _ _ _ _ (submit_outcome_holds now id (w_shared w) request Hset) Hnl) as [Hf Hr].
    destruct (submit now id (w_shared w) request) as [[t|e|] sh']; cbn in *; injection Hstep as <-; [| |done].
    + by apply world_ok_update.
    + rewrite <- (delete_id (w_handles w) id) by done. by apply world_ok_remove.
  - injection Hstep as <-. destruct (promote_spec now (w_shared w) id by_ Hset) as [Hset' Hf].
    split; cbn; [done| |].
    + intros i h Hi. eapply handle_ok_frame; [done|set_solver|by apply (wo_handles _ Hw)].
    + intros i Hi. apply (wo_owned _ Hw). by apply (fr_live _ _ _ Hf); [set_solver|].
  - destruct (w_handles w !! id) as [[t|t p|l]|] eqn:Hid; try done. injection Hstep as <-.
    apply world_ok_update; [done|done|apply frame_refl|]. split; [exact (wo_handles _ Hw id _ Hid)|done].
  - destruct (w_handles w !! id) as [[t|t p|l]|] eqn:Hid; try done.
    pose proof (wo_handles _ Hw id _ Hid) as Hok. pose proof (wait_turn_spec _ _ _ _ Hok) as Hturn.
    destruct (wait_turn (w_shared w) t p) as [p'|[l|e|] t'|]; try done; injection Hstep as <-.
    + by apply world_ok_update; [|done|apply frame_refl|].
    + destruct Hturn as [Hc Hl]. unfold ticket_drop. rewrite Hc. cbn.
      by apply world_ok_update; [|done|apply frame_refl|].
  - destruct (w_handles w !! id) as [[t|t [| |g|g]|l]|] eqn:Hid; try done. injection Hstep as <-.
    destruct (wo_handles _ Hw id _ Hid) as [(Htid & _ & _) _]. cbn. rewrite Htid.
    destruct (cancel_or_release_spec now (w_shared w) id Hset) as (? & ? & ?).
    unfold ticket_drop. cbn. by apply world_ok_remove.
  - destruct (w_handles w !! id) as [[t|t p|l]|] eqn:Hid; try done; injection Hstep as <-;
      pose proof (wo_handles _ Hw id _ Hid) as Hok.
    + destruct (ticket_drop_spec now _ id t Hset Hok) as (? & ? & ?). by apply world_ok_remove.
    + destruct (ticket_drop_spec now _ id t Hset (proj1 Hok)) as (? & ? & ?). by apply world_ok_remove.
    + destruct (lease_drop_spec now _ id l Hset Hok) as (? & ? & ?). by apply world_ok_remove.
Qed.

Lemma world_init_ok c : config_typed c -> world_ok (world_init c).
Proof.
  intros [Hc Hm]. split; cbn.
  - split; [|done].
    split; cbn; [|constructor|done|constructor|by intros id Hq%not_elem_of_nil|done].
    intros n pool Hn. rewrite lookup_fmap in Hn. destruct (pools_as_map (sc_pools c) !! n) as [p|] eqn:Hp; [|done].
    injection Hn as <-. specialize (Hc n p Hp). cbn in Hc. unfold is_u32 in Hc.
    unfold pool_ok, permits_held. rewrite map_sum_empty. cbn. lia.
  - done.
  - intros id [Hq|Hr]; [by apply not_elem_of_nil in Hq|]. unfold running_ids in Hr. cbn in Hr. set_solver.
Qed.

Lemma reachable_ok c w : config_typed c -> reachable c w -> world_ok w.
Proof. intros Hc. induction 1 as [|now w op w' _ IH Hty Hstep]; [by apply world_init_ok|by eapply world_step_ok]. Qed.

(** ** What never changes: names, capacities, limits *)

Definition same_static (st st' : SchedulerState) : Prop :=
  same_pools (ss_pools st) (ss_pools st') /\ ss_max_queued st' = ss_max_queued st /\
  ss_enabled st' = ss_enabled st.

#[export] Instance same_static_preorder : PreOrder same_static.
Proof.
  split; [by intros st|]. intros a b c (H1 & H2 & H3) (H4 & H5 & H6).
  split_and!; [by etrans|congruence|congruence].
Qed.

Lemma start_static now st e : same_static st (start_running now st e).
Proof. split_and!; [apply start_same|done|done]. Qed.

Lemma try_start_loop_static now k q st : same_static st (try_start_loop now k q st).
Proof.
  revert k st. induction q as [|e q IH]; intros k st; cbn [try_start_loop]; [done|].
  destruct (negb _); [done|]. etrans; [|apply IH]. exact (start_static (now k) (set_queued q st) e).
Qed.

Lemma drain_static now st q : same_static st (try_start_queued now (set_queued q st)).
Proof. exact (try_start_loop_static now 0 q (set_queued q st)). Qed.

Lemma release_static now sh id : same_static (sh_state sh) (sh_state (release_running now sh id)).
Proof.
  unfold release_running, release_running_locked. destruct (_ !! id) as [e|]; [|done]. cbn.
  etrans; [|apply try_start_loop_static]. split_and!; [|done|done].
  apply update_pools_same, refund_capacity.
Qed.

Lemma cancel_static now sh id : same_static (sh_state sh) (sh_state (cancel_or_release now sh id)).
Proof.
  unfold cancel_or_release. destruct (queue_position _ _) as [[i e]|]; [apply drain_static|].
  apply (release_static now sh id).
Qed.

Lemma ticket_drop_static now sh t : same_static (sh_state sh) (sh_state (ticket_drop now sh t)).
Proof. unfold ticket_drop. destruct (_ && _); [apply cancel_static|done]. Qed.

Lemma submit_static now id sh request :
  same_static (sh_state sh) (sh_state (submit now id sh request).2).
Proof.
  unfold submit. cbn [next_display_id]. set (st1 := set_display _ _).
  assert (same_static (sh_state sh) st1) as H1 by done.
  destruct (_ || _); [done|]. destruct (validate_request _ _) as [[]|e|]; [|done|done].
  destruct (_ && _); cbn [snd]; [etrans; [exact H1|apply start_static]|].
  destruct (_ <=? _); [done|]. etrans; [exact H1|apply drain_static].
Qed.

Lemma promote_static now sh id by_ : same_static (sh_state sh) (sh_state (promote now sh id by_).2).
Proof.
  unfold promote. destruct (_ !! id); [done|]. destruct (queue_position _ _) as [[i e]|]; [|done].
  apply drain_static.
Qed.

Lemma release_inner_static now sh l :
  same_static (sh_state sh) (sh_state (default sh (release_inner now (Some sh) l).2)).
Proof.
  unfold release_inner. destruct (ls_released l); [done|]. cbn.
  destruct (ls_scheduler l); [apply release_static|done].
Qed.

Lemma world_step_static now w op w' :
  world_step now w op = Some w' -> same_static (sh_state (w_shared w)) (sh_state (w_shared w')).
Proof.
  intros Hstep. destruct op as [id request|id by_|id|id|id|id]; cbn [world_step] in Hstep.
  2:{ injection Hstep as <-. apply promote_static. }
  all: destruct (w_handles w !! id) as [[t|t p|l]|]; try done.
  - pose proof (submit_static now id (w_shared w) request) as H.
    destruct (submit now id (w_shared w) request) as [[t|e|] sh']; by injection Hstep as <-.
  - by injection Hstep as <-.
  - destruct (wait_turn _ t p) as [p'|[l|e|] t'|]; try done; injection Hstep as <-; try done; apply ticket_drop_static.
  - destruct p; [done..|]. injection Hstep as <-. cbn. unfold ticket_drop. cbn. apply cancel_static.
  - injection Hstep as <-. apply ticket_drop_static.
  - injection Hstep as <-. apply ticket_drop_static.
  - injection Hstep as <-. apply release_inner_static.
Qed.

Lemma reachable_static c w :
  reachable c w -> same_static (sh_state (resource_scheduler_new c)) (sh_state (w_shared w)).
Proof.
  induction 1 as [|now w op w' _ IH _ Hstep]; [done|]. etrans; [exact IH|]. by eapply world_step_static.
Qed.

(** ** Waiting *)

(** How far a queued request is from starting: the requests ahead of it and the
    requests that run. *)
Definition distance (st : SchedulerState) (id : Z) (d : nat) : Prop :=
  id ∈ running_ids st \/
  exists p, queued_ids st !! p = Some id /\ (size (running_ids st) + p <= d)%nat.

Lemma drain_distance st st' k id d :
  sched_ok st -> drained st st' k -> distance st id d -> distance st' id d.
Proof.
  intros Hs D. pose proof (drained_ids _ _ _ D) as Hq. pose proof (dr_running _ _ _ D) as Hr.
  intros [Hin|(p & Hp & Hd)]; [left; rewrite Hr; set_solver|].
  destruct (decide (p < k)%nat) as [Hlt|Hge].
  - left. rewrite Hr. apply elem_of_union_r, elem_of_list_to_set, list_elem_of_lookup.
    exists p. by rewrite lookup_take_lt.
  - right. exists (p - k)%nat. rewrite Hq, lookup_drop. replace (k + (p - k))%nat with p by lia.
    split; [done|]. rewrite Hr, size_union.
    2:{ intros x Hx Hx'. apply elem_of_list_to_set, elem_of_take in Hx' as (i & Hi & _).
        apply (so_disjoint _ Hs x); [by eapply list_elem_of_lookup_2|done]. }
    rewrite size_list_to_set; [|eapply sublist_NoDup; [apply (so_nodup _ Hs)|apply sublist_take]].
    rewrite length_take. lia.
Qed.

Definition released (sh : Shared) (id : Z) : nat := if decide (id ∈ running_ids (sh_state sh)) then 1 else 0.

(** Ending a running request brings every other one nearer; removing a queued one
    moves nobody back. *)
Lemma release_distance now sh id0 id d :
  settled sh -> id0 <> id -> distance (sh_state sh) id d ->
  distance (sh_state (release_running now sh id0)) id (d - released sh id0).
Proof.
  intros [Hs Hst] Hne Hdist. unfold release_running, released.
  destruct (release_running_locked (sh_state sh) id0) as [b st1] eqn:Hl.
  destruct (release_running_locked_ok _ _ _ _ Hl Hs) as (Hs1 & Hq1 & Hr1 & _ & Hb).
  destruct (decide (id0 ∈ running_ids (sh_state sh))) as [Hin|Hnin].
  - rewrite bool_decide_true in Hb by done. subst b. cbn.
    destruct (try_start_queued_drained now st1 Hs1) as [k D]. eapply drain_distance; [done|done|].
    destruct Hdist as [Hr|(p & Hp & Hd)]; [left; set_solver|]. right. exists p.
    unfold queued_ids in *. rewrite Hq1. split; [done|]. rewrite Hr1.
    rewrite size_difference by set_solver. rewrite size_singleton.
    assert (size (running_ids (sh_state sh)) <> 0%nat); [|lia].
    intros H0. apply size_empty_inv in H0. set_solver.
  - rewrite bool_decide_false in Hb by done. subst b. cbn. rewrite Nat.sub_0_r.
    unfold release_running_locked in Hl. destruct (ss_running _ !! id0); [done|]. by injection Hl as <-.
Qed.

Lemma delete_lookup_ne {A} (l : list A) i p x :
  l !! p = Some x -> i <> p -> exists p', delete i l !! p' = Some x /\ (p' <= p)%nat.
Proof.
  intros Hp Hne. destruct (decide (p < i)%nat).
  - exists p. by rewrite list_lookup_delete_lt.
  - exists (p - 1)%nat. rewrite list_lookup_delete_ge by lia. replace (S (p - 1)) with p by lia. split; [done|lia].
Qed.

Lemma fmap_delete_list {A B} (f : A -> B) (l : list A) i : f <$> delete i l = delete i (f <$> l).
Proof. revert i. induction l as [|x l IH]; intros [|i]; cbn; [done..|]. by rewrite <- IH. Qed.

Lemma cancel_distance now sh id0 id d :
  settled sh -> id0 <> id -> distance (sh_state sh) id d ->
  distance (sh_state (cancel_or_release now sh id0)) id (d - released sh id0).
Proof.
  intros Hset Hne Hdist. unfold cancel_or_release.
  pose proof (queue_position_spec id0 (ss_queued (sh_state sh))) as Hp.
  destruct (queue_position id0 (ss_queued (sh_state sh))) as [[i e]|].
  2:{ by apply (release_distance now sh id0). }
  destruct Hp as [Hi Hid]. destruct Hset as [Hs Hst].
  destruct (remove_queued_ok _ i e Hs Hi) as (Hs1 & _ & _ & Hnr). rewrite Hid in Hnr.
  unfold released. rewrite decide_False by done. rewrite Nat.sub_0_r.
  destruct (try_start_queued_drained now _ Hs1) as [k D]. cbn. eapply drain_distance; [done|done|].
  destruct Hdist as [Hr|(p & Hq & Hd)]; [by left|]. right.
  destruct (delete_lookup_ne (queued_ids (sh_state sh)) i p id Hq) as (p' & Hp' & Hle).
  { intros ->. unfold queued_ids in Hq. rewrite list_lookup_fmap, Hi in Hq. cbn in Hq. congruence. }
  exists p'. unfold queued_ids in *. cbn. rewrite fmap_delete_list. split; [done|].
  unfold running_ids in *. cbn. lia.
Qed.

Lemma submit_distance now id0 sh request id d :
  settled sh -> distance (sh_state sh) id d -> ~ live sh id0 ->
  distance (sh_state (submit now id0 sh request).2) id d.
Proof.
  intros Hset Hdist Hnl.
  destruct (submit_outcome_holds now id0 sh request Hset)
    as [ |e|sh1 ? ? Hn Hq Hr ? Hno|e sh1 ? ? ? ? <- ? Hq Hr ? Hno| ]; try exact Hdist.
  - destruct Hdist as [Hin|(p & Hp & _)]; [left; rewrite Hr; set_solver|].
    destruct Hn as [Hnil _]. unfold queued_ids in Hp. by rewrite Hnil in Hp.
  - unfold distance, queued_ids, running_ids in *. rewrite Hr, Hq. destruct Hdist as [?|(p & Hp & Hd)]; [by left|].
    right. exists p. rewrite fmap_app. split; [by apply lookup_app_l_Some|done].
Qed.

(** A handle whose request is not tracked ends nothing. *)
Lemma not_live_released sh id : ~ live sh id -> released sh id = 0%nat.
Proof. intros H. unfold released. rewrite decide_False; [done|]. intros Hr. apply H. by right. Qed.

Lemma ticket_drop_distance now sh t id0 id d :
  settled sh -> ticket_ok sh id0 t -> id0 <> id -> distance (sh_state sh) id d ->
  distance (sh_state (ticket_drop now sh t)) id (d - released sh id0).
Proof.
  intros Hset (Hid & Hc & Hl) Hne Hdist. unfold ticket_drop. rewrite Hc, Hid. cbn.
  destruct (tk_scheduler t); [by apply cancel_distance|].
  rewrite not_live_released by (by rewrite Hl). by rewrite Nat.sub_0_r.
Qed.

Lemma lease_drop_distance now sh l id0 id d :
  settled sh -> handle_ok sh id0 (HLease l) -> id0 <> id -> distance (sh_state sh) id d ->
  distance (sh_state (default sh (release_inner now (Some sh) l).2)) id (d - released sh id0).
Proof.
  intros Hset (Hid & Hrel & Hl & _) Hne Hdist. unfold release_inner. rewrite Hrel. cbn. rewrite Hid.
  destruct (ls_scheduler l); [by apply release_distance|].
  rewrite not_live_released by (by rewrite Hl). by rewrite Nat.sub_0_r.
Qed.

(** Does the operation end a running request? *)
Definition op_releases (w : World) (op : Op) : nat :=
  match op with
  | OpCancel id | OpDrop id => released (w_shared w) id
  | _ => 0
  end.
Fixpoint releases (now : nat -> Z) (w : World) (ops : list Op) : nat :=
  match ops with
  | [] => 0
  | op :: ops =>
      op_releases w op + match world_step now w op with Some w => releases now w ops | None => 0 end
  end.

(** Operations that neither jump the queue nor give the request [id] up. *)
Definition fair_to (id : Z) (op : Op) : Prop :=
  match op with
  | OpPromote _ _ => False
  | OpCancel id0 | OpDrop id0 => id0 <> id
  | _ => True
  end.

Lemma world_step_distance now w op w' id d :
  world_ok w -> op_typed op -> fair_to id op -> world_step now w op = Some w' ->
  distance (sh_state (w_shared w)) id d ->
  distance (sh_state (w_shared w')) id (d - op_releases w op).
Proof.
  intros Hw Hty Hfair Hstep Hdist. pose proof (wo_settled _ Hw) as Hset.
  destruct op as [id0 request|id0 by_|id0|id0|id0|id0]; cbn [world_step op_releases fair_to] in *;
    rewrite ?Nat.sub_0_r; try done; destruct (w_handles w !! id0) as [[t|t p|l]|] eqn:Hid; try done.
  - assert (~ live (w_shared w) id0) as Hnl by (intros Hlv; destruct (wo_owned _ Hw id0 Hlv); congruence).
    pose proof (submit_distance now id0 _ request id d Hset Hdist Hnl) as H.
    destruct (submit now id0 (w_shared w) request) as [[t|e|] sh']; by injection Hstep as <-.
  - by injection Hstep as <-.
  - pose proof (wait_turn_spec _ _ _ _ (wo_handles _ Hw id0 _ Hid)) as Hturn.
    destruct (wait_turn _ t p) as [p'|[l|e|] t'|]; try done; injection Hstep as <-; [done|].
    unfold ticket_drop. by rewrite (proj1 Hturn).
  - destruct (wo_handles _ Hw id0 _ Hid) as [(Htid & _ & _) _].
    destruct p; [done..|]. injection Hstep as <-. cbn. rewrite Htid. by apply cancel_distance.
  - injection Hstep as <-. by apply (ticket_drop_distance now _ t id0 id d Hset (wo_handles _ Hw id0 _ Hid)).
  - injection Hstep as <-. by apply (ticket_drop_distance now _ t id0 id d Hset (proj1 (wo_handles _ Hw id0 _ Hid))).
  - injection Hstep as <-. by apply (lease_drop_distance now _ l id0 id d Hset (wo_handles _ Hw id0 _ Hid)).
Qed.

Lemma world_run_distance now w ops w' id d :
  world_ok w -> Forall op_typed ops -> Forall (fair_to id) ops -> world_run now w ops = Some w' ->
  distance (sh_state (w_shared w)) id d ->
  world_ok w' /\ distance (sh_state (w_shared w')) id (d - releases now w ops).
Proof.
  revert w d. induction ops as [|op ops IH]; intros w d Hw Hty Hf Hrun Hd; cbn [world_run releases] in *.
  { injection Hrun as <-. by rewrite Nat.sub_0_r. }
  apply Forall_cons in Hty as [Hty1 Hty], Hf as [Hf1 Hf].
  destruct (world_step now w op) as [w1|] eqn:Hstep; [|done].
  rewrite Nat.sub_add_distr. apply IH; [by eapply world_step_ok|done|done|done|by eapply world_step_distance].
Qed.

(** At distance zero a request runs. *)
Lemma distance_zero w id : world_ok w -> distance (sh_state (w_shared w)) id 0 -> id ∈ running_ids (sh_state (w_shared w)).
Proof.
  intros [[Hs Hst] _ _] [Hr|(p & Hp & Hd)]; [done|].
  assert (ss_running (sh_state (w_shared w)) = ∅) as He.
  { apply (dom_empty_inv (D := gset Z)), size_empty_inv. unfold running_ids in Hd. lia. }
  apply idle_queue_empty in He; [|done|done]. unfold queued_ids in Hp. by rewrite He in Hp.
Qed.

(** ** The guarantees *)

(** C12: In every state the scheduler can reach, each pool has the capacity it was
    configured with, uses at most that, and (but for a pool of the largest capacity,
    where the saturating addition stops counting) uses exactly the permits of the
    requests that run; and the queue stays within its configured length. *)
Theorem resource_permits_exact (c : ResourceSchedulerConfig) (w : World) :
  config_typed c -> reachable c w ->
  let st := sh_state (w_shared w) in
  (forall n pool, ss_pools st !! n = Some pool ->
     pc_capacity <$> pools_as_map (sc_pools c) !! n = Some (pool_capacity pool) /\
     0 <= pool_used pool <= pool_capacity pool /\
     (pool_capacity pool < U32_MAX -> pool_used pool = permits_held n (ss_running st))) /\
  zlen (ss_queued st) <= lc_max_queued (sc_limits c).
Proof.
  intros Hc Hr st. destruct (wo_settled _ (reachable_ok c w Hc Hr)) as [Hs _].
  destruct (reachable_static c w Hr) as (Hsame & Hmax & _). split.
  - intros n pool Hn. unfold st in Hn. destruct (so_pools _ Hs n pool Hn) as (Hu & _ & _ & He). split_and!; [|lia|lia|done].
    specialize (Hsame n). rewrite Hn in Hsame. cbn in Hsame. rewrite lookup_fmap in Hsame.
    rewrite <- Hsame. by destruct (pools_as_map (sc_pools c) !! n).
  - pose proof (so_length _ Hs) as Hl. rewrite Hmax in Hl. done.
Qed.

(** Permits are held exactly by live handles: a request is queued or running if and
    only if a ticket, a waiting ticket or a lease that is tracked by the scheduler
    still exists for it, a lease only exists for a running request, and no request is
    both queued and running. Dropping a handle therefore always gives its permits or
    its place back, and nothing is given back while the handle lives. *)
Theorem resource_handles_exact (c : ResourceSchedulerConfig) (w : World) (id : Z) :
  config_typed c -> reachable c w ->
  let st := sh_state (w_shared w) in
  (id ∈ queued_ids st \/ id ∈ running_ids st <->
     exists h, w_handles w !! id = Some h /\
       match h with
       | HTicket t | HWaiting t _ => tk_scheduler t = true
       | HLease l => ls_scheduler l = true
       end) /\
  (forall l, w_handles w !! id = Some (HLease l) -> ls_scheduler l = true -> id ∈ running_ids st) /\
  ~ (id ∈ queued_ids st /\ id ∈ running_ids st).
Proof.
  intros Hc Hr st. destruct (reachable_ok c w Hc Hr) as [[Hs _] Hh Ho].
  assert (forall h, w_handles w !! id = Some h -> live (w_shared w) id <->
    match h with HTicket t | HWaiting t _ => tk_scheduler t = true | HLease l => ls_scheduler l = true end) as Hlive.
  { intros [t|t p|l] Hid; specialize (Hh id _ Hid).
    - by destruct Hh as (_ & _ & ?).
    - by destruct Hh as [(_ & _ & ?) _].
    - by destruct Hh as (_ & _ & ? & _). }
  split_and!.
  - split.
    + intros Hl. destruct (Ho id Hl) as [h Hid]. exists h. split; [done|]. by apply (Hlive h Hid).
    + intros (h & Hid & Ht). by apply (Hlive h Hid).
  - intros l Hid. by destruct (Hh id _ Hid) as (_ & _ & _ & ?).
  - intros [Hq Hrun]. by apply (so_disjoint _ Hs id).
Qed.

(** Nothing waits that could run: between operations, if a request is queued then the
    one at the front lacks room in one of its pools; and if nothing runs then nothing
    is queued, so the scheduler cannot deadlock. *)
Theorem resource_no_stall (c : ResourceSchedulerConfig) (w : World) :
  config_typed c -> reachable c w ->
  let st := sh_state (w_shared w) in
  (forall e q, ss_queued st = e :: q ->
     exists n p pool, rr_pools (rq_resources e) !! n = Some p /\ ss_pools st !! n = Some pool /\
       pool_capacity pool < pool_used pool + p) /\
  (ss_running st = ∅ -> ss_queued st = []).
Proof.
  intros Hc Hr st. destruct (wo_settled _ (reachable_ok c w Hc Hr)) as [Hs Hst].
  split; [|by apply idle_queue_empty]. intros e q Hq. pose proof (so_queue _ Hs) as Ha.
  unfold stalled in Hst. fold st in Hst, Ha. rewrite Hq in Hst, Ha. apply Forall_cons in Ha as [[_ Hf] _].
  unfold has_capacity in Hst. apply forallb_false_exists in Hst as ([n p] & Hin & Hx).
  apply elem_of_btree_iter in Hin. destruct (Hf n p Hin) as (pool & Hn & _). rewrite Hn in Hx.
  exists n, p, pool. split_and!; [done|done|]. unfold saturating_add_u32 in Hx. lia.
Qed.

(** Waiting is bounded: a request with [p] requests ahead of it in the queue runs as
    soon as the requests running now and those [p] have ended, whatever else is
    submitted, cancelled, waited on or released in between and in whatever order, as
    long as nobody promotes another request over it or gives it up. *)
Theorem resource_bounded_wait (c : ResourceSchedulerConfig) (now : nat -> Z) (w w' : World) (ops : list Op)
    (id : Z) (p : nat) :
  config_typed c -> reachable c w ->
  queued_ids (sh_state (w_shared w)) !! p = Some id ->
  Forall op_typed ops -> Forall (fair_to id) ops ->
  world_run now w ops = Some w' ->
  (size (running_ids (sh_state (w_shared w))) + p <= releases now w ops)%nat ->
  id ∈ running_ids (sh_state (w_shared w')).
Proof.
  intros Hc Hr Hp Hty Hf Hrun Hle. pose proof (reachable_ok c w Hc Hr) as Hw.
  set (d := (size (running_ids (sh_state (w_shared w))) + p)%nat) in *.
  destruct (world_run_distance now w ops w' id d Hw Hty Hf Hrun) as [Hw' Hd].
  { right. by exists p. }
  apply distance_zero; [done|]. by replace (d - releases now w ops)%nat with 0%nat in Hd by lia.
Qed.

(** [k] turns of the waiter [id] that leave the scheduler alone and end in its lease. *)
Definition acquires_in (now : nat -> Z) (w : World) (id : Z) (t : ResourceTicket) (k : nat) : Prop :=
  exists w', world_run now w (replicate k (OpTurn id)) = Some w' /\ w_shared w' = w_shared w /\
    w_handles w' !! id = Some (HLease (lease_tracked id (tk_display_id t))).

Lemma acquires_turn now w id t p p' k :
  w_handles w !! id = Some (HWaiting t p) -> wait_turn (w_shared w) t p = Continue p' ->
  acquires_in now (mkWorld (w_shared w) (<[id := HWaiting t p']> (w_handles w))) id t k ->
  acquires_in now w id t (S k).
Proof.
  intros Hid Hp (w' & Hrun & Hsh & Hl). exists w'. split_and!; [|done|done].
  cbn [replicate world_run world_step]. rewrite Hid, Hp. exact Hrun.
Qed.

(** A waiter whose request runs and who is about to check gets its lease. *)
Lemma acquires_check now w id t g :
  tk_request_id t = id -> w_handles w !! id = Some (HWaiting t (WaitCheck g)) ->
  id ∈ running_ids (sh_state (w_shared w)) -> acquires_in now w id t 1.
Proof.
  intros Htid Hid Hr. eexists. split_and!.
  - cbn [replicate world_run world_step]. rewrite Hid. cbn [wait_turn]. rewrite Htid.
    apply is_running in Hr as [e ->]. reflexivity.
  - done.
  - apply lookup_insert_eq.
Qed.

Lemma acquires_top now w id t :
  tk_request_id t = id -> w_handles w !! id = Some (HWaiting t WaitTop) ->
  id ∈ running_ids (sh_state (w_shared w)) -> acquires_in now w id t 2.
Proof.
  intros Htid Hid Hr. eapply acquires_turn; [done|done|].
  eapply acquires_check; [done|apply lookup_insert_eq|done].
Qed.

(** No wakeup is lost. A waiter sleeps only while its request is queued; [wait] never
    returns an error unless its cancellation token fires; and once the request runs,
    at most three turns of the waiter alone end in the lease for it. *)
Theorem resource_waiter_woken (c : ResourceSchedulerConfig) (now : nat -> Z) (w : World) (id : Z)
    (t : ResourceTicket) (p : WaitPoint) :
  config_typed c -> reachable c w -> w_handles w !! id = Some (HWaiting t p) ->
  (wait_turn (w_shared w) t p = Asleep -> id ∈ queued_ids (sh_state (w_shared w))) /\
  (forall e t', wait_turn (w_shared w) t p <> Return (Err e) t') /\
  (id ∈ running_ids (sh_state (w_shared w)) -> exists k, (k <= 3)%nat /\ acquires_in now w id t k).
Proof.
  intros Hc Hr Hid. pose proof (reachable_ok c w Hc Hr) as Hw.
  pose proof (wo_handles _ Hw id _ Hid) as Hok. pose proof (wait_turn_spec _ _ _ _ Hok) as Hturn.
  destruct Hok as [(Htid & _ & Hlive) Hp]. split_and!.
  - intros Ha. rewrite Ha in Hturn. by destruct Hturn as (g & _ & ?).
  - intros e t' Ha. by rewrite Ha in Hturn.
  - intros Hrun. assert (tk_scheduler t = true) as Ht by (apply Hlive; by right).
    destruct p as [| |g|g].
    + exists 3%nat. split; [lia|]. eapply acquires_turn; [done|cbn; by rewrite Ht|].
      apply acquires_top; [done|apply lookup_insert_eq|done].
    + exists 2%nat. split; [lia|]. by apply acquires_top.
    + exists 1%nat. split; [lia|]. by eapply acquires_check.
    + exists 3%nat. split; [lia|]. destruct Hp as (_ & Hle & Hq).
      assert (g < sh_notified (w_shared w)) as Hlt.
      { destruct (decide (g = sh_notified (w_shared w))) as [Heq|]; [|lia].
        by destruct (so_disjoint _ (proj1 (wo_settled _ Hw)) id (Hq Heq)). }
      eapply acquires_turn; [done|cbn; by rewrite (proj2 (Z.ltb_lt _ _) Hlt)|].
      apply acquires_top; [done|apply lookup_insert_eq|done].
Qed.

(** Submission, completely: an ungated request (scheduling off, or nothing asked for)
    gets an untracked ticket; a request no state could serve is refused with the pool
    at fault; a request that fits now while nobody waits starts, with exactly its
    permits charged; any other request joins the end of the queue, or is refused when
    the queue is full. Refusals change nothing but the display counter. *)
Theorem submit_exact (c : ResourceSchedulerConfig) (now : nat -> Z) (w : World) (id : Z)
    (request : ResourceAcquireRequest) :
  config_typed c -> reachable c w ->
  submit_outcome id (w_shared w) request
    (submit now id (w_shared w) request).1 (submit now id (w_shared w) request).2.
Proof. intros Hc Hr. apply submit_outcome_holds. apply (reachable_ok c w Hc Hr). Qed.

Lemma delete_filter_ne {A} `{!EqDecision A} (l : list A) i x :
  NoDup l -> l !! i = Some x -> delete i l = filter (fun y => y <> x) l.
Proof.
  intros Hn. revert i. induction Hn as [|y l Hy Hn IH]; intros [|i] Hi; try done; cbn in Hi.
  - injection Hi as ->. rewrite filter_cons_False by (intros H; by apply H). cbn.
    clear -Hy. induction l as [|z l IH]; [done|]. apply not_elem_of_cons in Hy as [? ?].
    rewrite filter_cons_True by done. by rewrite <- IH.
  - assert (x ∈ l) by (by eapply list_elem_of_lookup_2).
    rewrite filter_cons_True by (by intros ->). cbn. f_equal. by apply IH.
Qed.

(** Promotion: it is refused for a running or unknown request; a queued request moves
    ahead of all others, which keep their order, and starts at once when it fits. *)
Theorem promote_exact (c : ResourceSchedulerConfig) (now : nat -> Z) (w : World) (id : Z) (by_ : string) :
  config_typed c -> reachable c w ->
  let st := sh_state (w_shared w) in
  match promote now (w_shared w) id by_ with
  | (Err (PromoteNotQueued i), sh') => i = id /\ id ∈ running_ids st /\ sh' = w_shared w
  | (Err (PromoteNotFound i), sh') =>
      i = id /\ ~ live (w_shared w) id /\ sh' = w_shared w
  | (Ok _, sh') =>
      id ∈ queued_ids st /\
      exists k, let q := id :: filter (fun i => i <> id) (queued_ids st) in
        queued_ids (sh_state sh') = drop k q /\
        running_ids (sh_state sh') = running_ids st ∪ list_to_set (take k q) /\
        (forall e, e ∈ ss_queued st -> rq_id e = id -> has_capacity st (rq_resources e) = true ->
           id ∈ running_ids (sh_state sh'))
  | (Panic, _) => False
  end.
Proof.
  intros Hc Hr st. destruct (wo_settled _ (reachable_ok c w Hc Hr)) as [Hs Hst].
  unfold promote. fold st in Hs, Hst |- *. destruct (ss_running st !! id) eqn:Hrun.
  { split_and!; [done| |done]. apply is_running. by rewrite Hrun. }
  pose proof (queue_position_spec id (ss_queued st)) as Hp.
  destruct (queue_position id (ss_queued st)) as [[i e]|].
  2:{ split_and!; [done| |done]. intros [Hq|Hq]; [done|]. by apply not_running in Hrun. }
  destruct Hp as [Hi Hid]. set (e' := mkRequestEntry _ _ _ _ _ _ _). set (st1 := set_queued _ _).
  assert (queued_ids st !! i = Some id) as Hqi by (unfold queued_ids; by rewrite list_lookup_fmap, Hi, <- Hid).
  split; [by eapply list_elem_of_lookup_2|].
  assert (sched_ok st1) as Hs1.
  { apply set_queued_ok; [done|]. symmetry. exact (fmap_Permutation queue_key _ _ (delete_Permutation _ _ _ Hi)). }
  destruct (try_start_queued_drained (fun k => now (S k)) st1 Hs1) as [k D]. exists k.
  assert (queued_ids st1 = id :: filter (fun i => i <> id) (queued_ids st)) as Hq1.
  { unfold queued_ids at 1. cbn. rewrite Hid. f_equal. rewrite fmap_delete_list.
    by apply delete_filter_ne; [apply (so_nodup _ Hs)|]. }
  cbn zeta. rewrite <- Hq1. split_and!; [apply (drained_ids _ _ _ D)|apply (dr_running _ _ _ D)|].
  intros e2 He2 Hid2 Hcap. cbn [notify_waiters sh_state]. rewrite (dr_running _ _ _ D), Hq1. destruct k as [|k]; [|cbn; set_solver].
  pose proof (dr_stalled _ _ _ D) as Hst'. rewrite (dr_zero _ _ _ D eq_refl) in Hst'. unfold stalled in Hst'.
  cbn in Hst'. assert (e2 = e) as ->; [|by change (has_capacity st (rq_resources e) = false) in Hst'; congruence].
  apply list_elem_of_lookup in He2 as [j Hj].
  assert (j = i) as ->; [|congruence]. eapply (NoDup_lookup (queued_ids st)); [apply (so_nodup _ Hs)| |done].
  unfold queued_ids. by rewrite list_lookup_fmap, Hj, <- Hid2.
Qed.

(** ** Witnesses *)

(** Two units of [cpu], one of [memory], a queue of two. *)
Definition demo_config : ResourceSchedulerConfig :=
  mkSchedulerConfig true (mkPoolsConfig (mkPoolConfig 2) (mkPoolConfig 1) ∅) (mkLimitsConfig 2) [].
Definition demo_request (cpu memory : Z) : ResourceAcquireRequest :=
  acquire_request_new (requirements_new [("cpu"%string, cpu); ("memory"%string, memory)]).
Definition demo_now (k : nat) : Z := Z.of_nat k.

Lemma demo_config_typed : config_typed demo_config.
Proof. split; [|done]. apply map_Forall_lookup. apply (bool_decide_unpack (map_Forall _ _)). vm_compute. done. Qed.

Lemma request_typed_dec r :
  bool_decide (map_Forall (fun _ p => is_u32 p) (rr_pools r)) = true -> request_typed r.
Proof. intros H. apply bool_decide_eq_true in H. exact H. Qed.

Definition op_typedb (op : Op) : bool :=
  match op with
  | OpSubmit _ request => bool_decide (map_Forall (fun _ p => is_u32 p) (rr_pools (aq_resources request)))
  | _ => true
  end.
Lemma op_typedb_ok ops : forallb op_typedb ops = true -> Forall op_typed ops.
Proof.
  intros H. apply Forall_forall. intros op Hop. rewrite forallb_forall in H.
  specialize (H op (proj1 (list_elem_of_In _ _) Hop)). destruct op; try done. by apply request_typed_dec.
Qed.

Lemma reachable_run c now ops w w' :
  reachable c w -> Forall op_typed ops -> world_run now w ops = Some w' -> reachable c w'.
Proof.
  revert w. induction ops as [|op ops IH]; intros w Hr Hty Hrun; cbn in Hrun; [by injection Hrun as <-|].
  apply Forall_cons in Hty as [Ht Hty]. destruct (world_step now w op) as [w1|] eqn:Hs; [|done].
  apply (IH w1); [|done|done]. by eapply reachable_step.
Qed.

(** Request 1 runs; requests 2 and 3 are queued, and 2 is being waited on. *)
Definition demo_ops : list Op :=
  [OpSubmit 1 (demo_request 1 1); OpSubmit 2 (demo_request 1 1); OpSubmit 3 (demo_request 1 0);
   OpWait 2; OpTurn 2; OpTurn 2; OpTurn 2].
Definition demo_world : World := default (world_init demo_config) (world_run demo_now (world_init demo_config) demo_ops).

Lemma demo_run : world_run demo_now (world_init demo_config) demo_ops = Some demo_world.
Proof. vm_compute. reflexivity. Qed.
Lemma demo_reachable : reachable demo_config demo_world.
Proof.
  eapply reachable_run; [apply reachable_init| |apply demo_run]. apply op_typedb_ok. vm_compute. reflexivity.
Qed.

(** One unit of [cpu] is in use, by request 1, and two requests wait. *)
Lemma resource_permits_exact_witness :
  pool_used <$> ss_pools (sh_state (w_shared demo_world)) !! "cpu"%string = Some 1 /\
  permits_held "cpu" (ss_running (sh_state (w_shared demo_world))) = 1 /\
  zlen (ss_queued (sh_state (w_shared demo_world))) <= 2.
Proof.
  split; [vm_compute; reflexivity|]. split; [vm_compute; reflexivity|].
  apply (resource_permits_exact demo_config demo_world demo_config_typed demo_reachable).
Defined.

Lemma resource_handles_exact_witness :
  2 ∈ queued_ids (sh_state (w_shared demo_world)) \/ 2 ∈ running_ids (sh_state (w_shared demo_world)).
Proof.
  apply (resource_handles_exact demo_config demo_world 2 demo_config_typed demo_reachable).
  eexists. split; [vm_compute; reflexivity|reflexivity].
Defined.

Lemma resource_no_stall_witness :
  exists n p pool e q, ss_queued (sh_state (w_shared demo_world)) = e :: q /\
    rr_pools (rq_resources e) !! n = Some p /\ ss_pools (sh_state (w_shared demo_world)) !! n = Some pool /\
    pool_capacity pool < pool_used pool + p.
Proof.
  assert (exists e q, ss_queued (sh_state (w_shared demo_world)) = e :: q) as (e & q & Hq)
    by (do 2 eexists; vm_compute; reflexivity).
  destruct (proj1 (resource_no_stall demo_config demo_world demo_config_typed demo_reachable) e q Hq)
    as (n & p & pool & H). exists n, p, pool, e, q. split; [exact Hq|exact H].
Defined.

(** Request 3, second in the queue, runs after the two requests before it have ended. *)
Lemma resource_bounded_wait_witness :
  exists w', world_run demo_now demo_world [OpDrop 1; OpSubmit 4 (demo_request 2 0); OpDrop 2] = Some w' /\
    3 ∈ running_ids (sh_state (w_shared w')).
Proof.
  eexists. split; [vm_compute; reflexivity|].
  eapply (resource_bounded_wait demo_config demo_now demo_world _
            [OpDrop 1; OpSubmit 4 (demo_request 2 0); OpDrop 2] 3 1 demo_config_typed demo_reachable).
  - vm_compute. reflexivity.
  - apply op_typedb_ok. vm_compute. reflexivity.
  - repeat constructor; cbn; lia.
  - vm_compute. reflexivity.
  - vm_compute. lia.
Defined.

Definition demo_world2 : World := default demo_world (world_run demo_now demo_world [OpDrop 1]).
Lemma demo_reachable2 : reachable demo_config demo_world2.
Proof.
  apply (reachable_run demo_config demo_now [OpDrop 1] demo_world); [apply demo_reachable|by repeat constructor|].
  vm_compute. reflexivity.
Qed.

(** Request 2 was asleep when request 1 ended. *)
Lemma resource_waiter_woken_witness :
  exists t p k, w_handles demo_world2 !! 2 = Some (HWaiting t p) /\ (k <= 3)%nat /\
    acquires_in demo_now demo_world2 2 t k.
Proof.
  assert (exists t p, w_handles demo_world2 !! 2 = Some (HWaiting t p)) as (t & p & Hid)
    by (do 2 eexists; vm_compute; reflexivity).
  destruct (resource_waiter_woken demo_config demo_now demo_world2 2 t p demo_config_typed demo_reachable2 Hid)
    as (_ & _ & H). destruct H as (k & Hk & Ha); [by apply (bool_decide_unpack (2 ∈ running_ids _)); vm_compute|].
  exists t, p, k. split; [exact Hid|]. split; [exact Hk|exact Ha].
Defined.

Lemma submit_exact_witness :
  submit_outcome 4 (w_shared demo_world) (demo_request 3 0)
    (Err (OverCapacity "cpu" 3 2)) (submit demo_now 4 (w_shared demo_world) (demo_request 3 0)).2.
Proof.
  exact (submit_exact demo_config demo_now demo_world 4 (demo_request 3 0) demo_config_typed demo_reachable).
Defined.

(** Request 3 fits beside request 1 and only waits behind request 2. *)
Lemma promote_exact_witness :
  match promote demo_now (w_shared demo_world) 3 "user" with
  | (Ok _, sh') => 3 ∈ running_ids (sh_state sh')
  | _ => False
  end.
Proof.
  assert (exists e, ss_queued (sh_state (w_shared demo_world)) !! 1%nat = Some e /\ rq_id e = 3 /\
    has_capacity (sh_state (w_shared demo_world)) (rq_resources e) = true) as (e & He & Hid & Hc)
    by (eexists; vm_compute; split; [|split]; reflexivity).
  assert (exists sh', promote demo_now (w_shared demo_world) 3 "user" = (Ok tt, sh')) as [sh' Hp]
    by (eexists; vm_compute; reflexivity).
  pose proof (promote_exact demo_config demo_now demo_world 3 "user" demo_config_typed demo_reachable) as H.
  rewrite Hp in H |- *. destruct H as (_ & k & _ & _ & H).
  apply (H e); [by eapply list_elem_of_lookup_2|exact Hid|exact Hc].
Defined.

(** A pool of the largest capacity is not enforced: the check adds with saturation, so
    it passes whatever is in use, and afterwards the counter is too low.  Two requests
    for all [u32::MAX] permits run at the same time, and when one of them ends the pool
    counts as unused while the other still holds all of it. *)
Definition max_config : ResourceSchedulerConfig :=
  mkSchedulerConfig true (mkPoolsConfig (mkPoolConfig U32_MAX) (mkPoolConfig 1) ∅) (mkLimitsConfig 2) [].

(** In a pool of capacity [u32::MAX] the capacity is not enforced: a reachable
    state has twice the capacity in use by running requests, and a further reachable
    state counts the pool as unused while a running request holds all of it. *)
Theorem resource_max_capacity_unenforced :
  exists w w', reachable max_config w /\ reachable max_config w' /\
    permits_held "cpu" (ss_running (sh_state (w_shared w))) = 2 * U32_MAX /\
    ss_pools (sh_state (w_shared w)) !! "cpu"%string = Some (mkPoolState U32_MAX U32_MAX) /\
    permits_held "cpu" (ss_running (sh_state (w_shared w'))) = U32_MAX /\
    ss_pools (sh_state (w_shared w')) !! "cpu"%string = Some (mkPoolState U32_MAX 0).
Proof.
  set (ops := [OpSubmit 1 (demo_request U32_MAX 0); OpSubmit 2 (demo_request U32_MAX 0)]).
  eexists (default (world_init max_config) (world_run demo_now (world_init max_config) ops)).
  eexists (default (world_init max_config) (world_run demo_now (world_init max_config) (ops ++ [OpDrop 1]))).
  split_and!; [..|vm_compute; reflexivity|vm_compute; reflexivity|vm_compute; reflexivity|vm_compute; reflexivity].
  - apply (reachable_run max_config demo_now ops (world_init max_config));
      [apply reachable_init|apply op_typedb_ok; vm_compute; reflexivity|vm_compute; reflexivity].
  - apply (reachable_run max_config demo_now (ops ++ [OpDrop 1]) (world_init max_config));
      [apply reachable_init|apply op_typedb_ok; vm_compute; reflexivity|vm_compute; reflexivity].
Qed.
