(* ===== verification/Selection.v ===== *)
(** Transport selection ([cockpit-proto/src/remote_transport_selection.rs] and
    [cockpit-core/src/daemon/transport_selection.rs]): the pure reducer that decides
    which transports a logical attachment may use, starts and retries child
    connections, tracks their health and routes deliveries among them.

    The reducer mutates its state and returns the actions to execute; here it takes the
    state and returns the new one with the actions.  Allocating an identifier is a plain
    [u64] addition, so a step can in principle panic. *)

From S2P Require Import Prelude.
From stdpp Require Import options.
Set Warnings "-clear-no-such-hyp".

(** A computation with no error of its own, only the panic of checked arithmetic. *)
Abbreviation checked := (result Empty_set).

(** ** Vocabulary *)

(** remote_transport_selection.rs:34-39 TransportKind. *)
Inductive TransportKind := Webrtc | Websocket.
(** remote_transport_selection.rs:42-47 TransportKind::as_str. *)
Definition kind_as_str (k : TransportKind) : string :=
  match k with Webrtc => "webrtc" | Websocket => "websocket" end.
(** remote_transport_selection.rs:52-62 UserTransportPreference. *)
Inductive UserTransportPreference := PreferAuto | PreferWebrtc | PreferWebsocket.
(** remote_transport_selection.rs:69-80 ParentState. *)
Inductive ParentState :=
| PsPlanning | PsEstablishing | PsActive | PsDegraded | PsDenied | PsFailed | PsCancelled | PsSuperseded.
(** remote_transport_selection.rs:83-92 ChildState. *)
Inductive ChildState := CsPending | CsAuthenticating | CsActive | CsDegraded | CsClosing | CsClosed.
(** remote_transport_selection.rs:96-107 DurableLifecycle. *)
Inductive DurableLifecycle := DlCurrent | DlReplacementPending | DlDraining.
(** remote_transport_selection.rs:115-125 ReachabilityClass. *)
Inductive ReachabilityClass :=
| IceNoCandidatePair | IceTimeout | NetworkUnreachable | TurnUnreachable | IceDisconnected.
(** remote_transport_selection.rs:132-140 ReachabilityClass::is_closed_fallback_trigger. *)
Definition is_closed_fallback_trigger (r : ReachabilityClass) : bool :=
  match r with
  | IceNoCandidatePair | IceTimeout | NetworkUnreachable | TurnUnreachable => true
  | IceDisconnected => false
  end.
(** remote_transport_selection.rs:148-154 HealthTier. *)
Inductive HealthTier := TierHealthy | TierDegraded | TierFailed.
(** remote_transport_selection.rs:161-167 RoutingClass. *)
Inductive RoutingClass := RouteControl | RouteInteractive | RouteBulk.
(** remote_transport_selection.rs:175-183 SecondChildReason. *)
Inductive SecondChildReason :=
| PreferredPathRecovery | NetworkHandoff | OperatorForce | DegradedPathReplacement | CredentialRotation.
(** remote_transport_selection.rs:191-218 TransportDenial. *)
Inductive TransportDenial :=
| KindNotAuthorized | KindNotAvailable | IpConsentDenied | QuotaExhausted | ClientCapabilityMissing
| PreferenceDisallowed | PolicyDenied | RelayRequiredTurnUnavailable | RetryBudgetExhausted
| DatabaseOutage | SecurityFailure | ChildCapExceeded.

#[export] Instance TransportKind_eq_dec : EqDecision TransportKind.
Proof. solve_decision. Defined.
#[export] Instance UserTransportPreference_eq_dec : EqDecision UserTransportPreference.
Proof. solve_decision. Defined.
#[export] Instance ParentState_eq_dec : EqDecision ParentState.
Proof. solve_decision. Defined.
#[export] Instance ChildState_eq_dec : EqDecision ChildState.
Proof. solve_decision. Defined.
#[export] Instance DurableLifecycle_eq_dec : EqDecision DurableLifecycle.
Proof. solve_decision. Defined.
#[export] Instance HealthTier_eq_dec : EqDecision HealthTier.
Proof. solve_decision. Defined.
#[export] Instance SecondChildReason_eq_dec : EqDecision SecondChildReason.
Proof. solve_decision. Defined.
#[export] Instance TransportDenial_eq_dec : EqDecision TransportDenial.
Proof. solve_decision. Defined.
#[export] Instance TransportKind_countable : Countable TransportKind.
Proof.
  refine (inj_countable' (fun k => match k with Webrtc => true | Websocket => false end)
            (fun b : bool => if b then Webrtc else Websocket) _). by intros [].
Defined.

(** remote_transport_selection.rs:229-229 MIN_DEADLINE_SECS. *)
Definition MIN_DEADLINE_SECS : Z := 3.
(** remote_transport_selection.rs:232-232 MAX_DEADLINE_SECS. *)
Definition MAX_DEADLINE_SECS : Z := 30.
(** remote_transport_selection.rs:226-226 INITIAL_DEADLINE_SECS. *)
Definition INITIAL_DEADLINE_SECS : Z := 10.
(** remote_transport_selection.rs:239-239 ICE_DISCONNECTED_FALLBACK_MISSES. *)
Definition ICE_DISCONNECTED_FALLBACK_MISSES : Z := 3.
(** remote_transport_selection.rs:242-242 WEBRTC_HEALTHY_CONSECUTIVE_SUCCESSES. *)
Definition WEBRTC_HEALTHY_CONSECUTIVE_SUCCESSES : Z := 2.
(** remote_transport_selection.rs:245-245 WEBRTC_DEGRADED_MISSES. *)
Definition WEBRTC_DEGRADED_MISSES : Z := 3.
(** remote_transport_selection.rs:248-248 WEBRTC_DEGRADED_BUFFER_BYTES. *)
Definition WEBRTC_DEGRADED_BUFFER_BYTES : Z := 4 * 1024 * 1024.
(** remote_transport_selection.rs:251-251 WEBRTC_FAILED_MISSES. *)
Definition WEBRTC_FAILED_MISSES : Z := 6.
(** remote_transport_selection.rs:254-254 WEBSOCKET_DEGRADED_UNACKED_AGE_SECS. *)
Definition WEBSOCKET_DEGRADED_UNACKED_AGE_SECS : Z := 3.
(** remote_transport_selection.rs:257-257 WEBSOCKET_DEGRADED_BUFFER_BYTES. *)
Definition WEBSOCKET_DEGRADED_BUFFER_BYTES : Z := 4 * 1024 * 1024.
(** remote_transport_selection.rs:260-260 WEBSOCKET_FAILED_RETRANSMISSIONS. *)
Definition WEBSOCKET_FAILED_RETRANSMISSIONS : Z := 3.
(** remote_transport_selection.rs:263-263 RECOVERY_CONSECUTIVE_HEALTHY. *)
Definition RECOVERY_CONSECUTIVE_HEALTHY : Z := 2.
(** remote_transport_selection.rs:269-269 MAX_ROUTED_CURRENT_CHILDREN. *)
Definition MAX_ROUTED_CURRENT_CHILDREN : Z := 2.
(** remote_transport_selection.rs:272-272 MAX_ORDINARY_PENDING_CHILDREN. *)
Definition MAX_ORDINARY_PENDING_CHILDREN : Z := 2.
(** remote_transport_selection.rs:275-275 MAX_PENDING_PER_KIND. *)
Definition MAX_PENDING_PER_KIND : Z := 1.
(** remote_transport_selection.rs:280-280 MAX_PHYSICAL_CHILDREN_TURN_EXCEPTION. *)
Definition MAX_PHYSICAL_CHILDREN_TURN_EXCEPTION : Z := 3.
(** remote_transport_selection.rs:283-283 MAX_RESERVATIONS_PER_TRAIN. *)
Definition MAX_RESERVATIONS_PER_TRAIN : Z := 4.
(** remote_transport_selection.rs:286-286 MAX_COMMITTED_RESERVATIONS_ROLLING. *)
Definition MAX_COMMITTED_RESERVATIONS_ROLLING : Z := 12.
(** remote_transport_selection.rs:289-289 ROLLING_WINDOW_SECS. *)
Definition ROLLING_WINDOW_SECS : Z := 3600.
(** remote_transport_selection.rs:293-293 RETRY_DELAY_SECS. *)
Definition RETRY_DELAY_SECS : Z := 1.
(** remote_transport_selection.rs:297-297 MAX_SAME_KIND_RETRIES. *)
Definition MAX_SAME_KIND_RETRIES : Z := 1.

(** remote_transport_selection.rs:309-318 RemoteTransportRetryReservationKey. A train id is its 16 bytes. *)
Record RetryReservationKey := mkReservationKey {
  rk_tenant_id : string;
  rk_account_id : string;
  rk_client_device_id : string;
  rk_logical_attachment_id : string;
  rk_train_id : bytes;
  rk_transport_kind : TransportKind;
  rk_child_attempt : Z;
}.
(** remote_transport_selection.rs:333-340 ReservationOutcome. *)
Inductive ReservationOutcome := RoActive | RoCancelled | RoFailed | RoReservationFailed.
(** remote_transport_selection.rs:323-330 RemoteTransportRetryReservation. *)
Record RetryReservation := mkReservation {
  rv_key : RetryReservationKey;
  rv_reserved_at_ms : Z;
  rv_expires_at_ms : Z;
  rv_terminal : bool;
  rv_terminal_outcome : option ReservationOutcome;
}.
(** remote_transport_selection.rs:347-353 validate_deadline_secs. *)
Definition validate_deadline_secs (secs : Z) : result TransportDenial unit :=
  if (MIN_DEADLINE_SECS <=? secs) && (secs <=? MAX_DEADLINE_SECS) then Ok tt else Err PolicyDenied.

(** ** Authorization *)

(** remote_ip_consent.rs:215-224 ConsentCapability. *)
Inductive ConsentCapability := ConsentDirectAllowed | ConsentRelayOnly | ConsentUnavailable.
(** transport_selection.rs:162-168 ParticipantPrivacy. *)
Inductive ParticipantPrivacy := PrivacyDirectAllowed | PrivacyTurnRequired | PrivacyRelayOnly.
#[export] Instance ConsentCapability_eq_dec : EqDecision ConsentCapability.
Proof. solve_decision. Defined.
(** transport_selection.rs:133-157 TransportAuthorization. *)
Record TransportAuthorization := mkAuthorization {
  webrtc_authorized : bool;
  websocket_authorized : bool;
  ip_consent : ConsentCapability;
  participant_privacy : ParticipantPrivacy;
  turn_available : bool;
  quota_available : bool;
  client_supports_webrtc : bool;
  client_supports_websocket : bool;
}.
(** transport_selection.rs:171-180 AuthorizedPlan. *)
Record AuthorizedPlan := mkPlan {
  ap_allowed_kinds : list TransportKind;
  ap_denials : list TransportDenial;
  ap_preference : UserTransportPreference;
  ap_turn_required : bool;
}.

(** transport_selection.rs:730-744 admit_kind. *)
Definition admit_kind (authorized client_supported turn_gate_denied : bool) : option TransportDenial :=
  if negb authorized then Some KindNotAuthorized
  else if negb client_supported then Some ClientCapabilityMissing
  else if turn_gate_denied then Some RelayRequiredTurnUnavailable
  else None.

(** transport_selection.rs:747-757 push_kind. *)
Definition push_kind (kind : TransportKind) (admission : option TransportDenial)
    (acc : list TransportKind * list TransportDenial) : list TransportKind * list TransportDenial :=
  match admission with
  | None => (acc.1 ++ [kind], acc.2)
  | Some denial => (acc.1, acc.2 ++ [denial])
  end.

(** [Vec::dedup]: of consecutive equal elements the first is kept. *)
Fixpoint dedup {A} `{!EqDecision A} (l : list A) : list A :=
  match l with
  | [] => []
  | x :: l =>
      match l with
      | [] => [x]
      | y :: _ => if decide (x = y) then dedup l else x :: dedup l
      end
  end.

(** transport_selection.rs:629-724 compute_authorized_plan. *)
Definition compute_authorized_plan (auth : TransportAuthorization) (preference : UserTransportPreference)
    : AuthorizedPlan :=
  match ip_consent auth with
  | ConsentUnavailable => mkPlan [] [IpConsentDenied] preference false
  | _ =>
      let turn_forced :=
        match ip_consent auth with ConsentRelayOnly => true | _ => false end ||
        match participant_privacy auth with PrivacyRelayOnly | PrivacyTurnRequired => true | _ => false end in
      let webrtc := admit_kind (webrtc_authorized auth) (client_supports_webrtc auth)
                      (turn_forced && negb (turn_available auth)) in
      let websocket := admit_kind (websocket_authorized auth) (client_supports_websocket auth) false in
      let '(allowed, denials) :=
        match preference with
        | PreferAuto => push_kind Websocket websocket (push_kind Webrtc webrtc ([], []))
        | PreferWebrtc =>
            match webrtc with
            | None => ([Webrtc], [])
            | Some d => ([], [d; PreferenceDisallowed])
            end
        | PreferWebsocket =>
            match websocket with
            | None => ([Websocket], [])
            | Some d => ([], [d; PreferenceDisallowed])
            end
        end in
      let '(allowed, denials) :=
        if negb (quota_available auth) then ([], denials ++ [QuotaExhausted]) else (allowed, denials) in
      let denials :=
        if bool_decide (allowed = []) && bool_decide (denials = []) then denials ++ [PolicyDenied]
        else denials in
      mkPlan allowed (dedup denials) preference turn_forced
  end.

(** ** Children *)

(** transport_selection.rs:187-219 ChildRecord. Attempt ids and epochs are their [u64] values. *)
Record ChildRecord := mkChild {
  cr_child_attempt : Z;
  cr_kind : TransportKind;
  cr_epoch : Z;
  cr_state : ChildState;
  cr_durable_lifecycle : DurableLifecycle;
  cr_consecutive_healthy : Z;
  cr_consecutive_misses : Z;
  cr_buffered_bytes : Z;
  cr_consecutive_high_buffer_probes : Z;
  cr_oldest_unacked_age_secs : Z;
  cr_retransmissions : Z;
  cr_cancelled : bool;
  cr_retries_used : Z;
  cr_ice_disconnected_misses : Z;
  cr_health_tier : HealthTier;
  cr_replacement_peer : option Z;
}.

(** Field updates. *)
Definition set_cr_state (v : ChildState) (c : ChildRecord) : ChildRecord :=
  mkChild (cr_child_attempt c) (cr_kind c) (cr_epoch c) v (cr_durable_lifecycle c)
    (cr_consecutive_healthy c) (cr_consecutive_misses c) (cr_buffered_bytes c)
    (cr_consecutive_high_buffer_probes c) (cr_oldest_unacked_age_secs c) (cr_retransmissions c)
    (cr_cancelled c) (cr_retries_used c) (cr_ice_disconnected_misses c) (cr_health_tier c) (cr_replacement_peer c).
Definition set_cr_lifecycle (v : DurableLifecycle) (c : ChildRecord) : ChildRecord :=
  mkChild (cr_child_attempt c) (cr_kind c) (cr_epoch c) (cr_state c) v
    (cr_consecutive_healthy c) (cr_consecutive_misses c) (cr_buffered_bytes c)
    (cr_consecutive_high_buffer_probes c) (cr_oldest_unacked_age_secs c) (cr_retransmissions c)
    (cr_cancelled c) (cr_retries_used c) (cr_ice_disconnected_misses c) (cr_health_tier c) (cr_replacement_peer c).
Definition set_cr_cancelled (v : bool) (c : ChildRecord) : ChildRecord :=
  mkChild (cr_child_attempt c) (cr_kind c) (cr_epoch c) (cr_state c) (cr_durable_lifecycle c)
    (cr_consecutive_healthy c) (cr_consecutive_misses c) (cr_buffered_bytes c)
    (cr_consecutive_high_buffer_probes c) (cr_oldest_unacked_age_secs c) (cr_retransmissions c)
    v (cr_retries_used c) (cr_ice_disconnected_misses c) (cr_health_tier c) (cr_replacement_peer c).
Definition set_cr_tier (v : HealthTier) (c : ChildRecord) : ChildRecord :=
  mkChild (cr_child_attempt c) (cr_kind c) (cr_epoch c) (cr_state c) (cr_durable_lifecycle c)
    (cr_consecutive_healthy c) (cr_consecutive_misses c) (cr_buffered_bytes c)
    (cr_consecutive_high_buffer_probes c) (cr_oldest_unacked_age_secs c) (cr_retransmissions c)
    (cr_cancelled c) (cr_retries_used c) (cr_ice_disconnected_misses c) v (cr_replacement_peer c).
Definition set_cr_peer (v : option Z) (c : ChildRecord) : ChildRecord :=
  mkChild (cr_child_attempt c) (cr_kind c) (cr_epoch c) (cr_state c) (cr_durable_lifecycle c)
    (cr_consecutive_healthy c) (cr_consecutive_misses c) (cr_buffered_bytes c)
    (cr_consecutive_high_buffer_probes c) (cr_oldest_unacked_age_secs c) (cr_retransmissions c)
    (cr_cancelled c) (cr_retries_used c) (cr_ice_disconnected_misses c) (cr_health_tier c) v.
(** The counters: consecutive healthy and missed probes, disconnects, buffered bytes,
    high-buffer probes, the oldest unacknowledged age, retransmissions. *)
Definition set_cr_counters (healthy misses ice buffered high unacked retrans : Z) (c : ChildRecord) : ChildRecord :=
  mkChild (cr_child_attempt c) (cr_kind c) (cr_epoch c) (cr_state c) (cr_durable_lifecycle c)
    healthy misses buffered high unacked retrans
    (cr_cancelled c) (cr_retries_used c) ice (cr_health_tier c) (cr_replacement_peer c).

(** [u32::saturating_add(1)]. *)
Definition sat_succ (n : Z) : Z := Z.min U32_MAX (n + 1).

(** transport_selection.rs:223-246 ChildRecord::new_pending. *)
Definition new_pending (child_attempt : Z) (kind : TransportKind) (epoch : Z) : ChildRecord :=
  mkChild child_attempt kind epoch CsPending DlCurrent 0 0 0 0 0 0 false 0 0 TierDegraded None.
(** transport_selection.rs:249-252 ChildRecord::is_routed_current. *)
Definition is_routed_current (c : ChildRecord) : bool :=
  match cr_durable_lifecycle c, cr_state c with
  | DlCurrent, (CsActive | CsDegraded) => true
  | _, _ => false
  end.
(** transport_selection.rs:256-260 ChildRecord::is_ordinary_pending. *)
Definition is_ordinary_pending (c : ChildRecord) : bool :=
  match cr_state c, cr_durable_lifecycle c, cr_replacement_peer c with
  | (CsPending | CsAuthenticating), DlCurrent, None => true
  | _, _, _ => false
  end.
(** transport_selection.rs:269-272 ChildRecord::writable_bytes. *)
Definition writable_bytes (c : ChildRecord) : Z := saturating_sub (16 * 1024 * 1024) (cr_buffered_bytes c).

(** transport_selection.rs:276-305 compute_health_tier. *)
Definition compute_health_tier (c : ChildRecord) : HealthTier :=
  match cr_kind c with
  | Webrtc =>
      if WEBRTC_FAILED_MISSES <=? cr_consecutive_misses c then TierFailed
      else if (WEBRTC_DEGRADED_MISSES <=? cr_consecutive_misses c) ||
              (2 <=? cr_consecutive_high_buffer_probes c) then TierDegraded
      else if WEBRTC_HEALTHY_CONSECUTIVE_SUCCESSES <=? cr_consecutive_healthy c then TierHealthy
      else TierDegraded
  | Websocket =>
      if WEBSOCKET_FAILED_RETRANSMISSIONS <=? cr_retransmissions c then TierFailed
      else if (WEBSOCKET_DEGRADED_UNACKED_AGE_SECS <=? cr_oldest_unacked_age_secs c) ||
              (WEBSOCKET_DEGRADED_BUFFER_BYTES <=? cr_buffered_bytes c) then TierDegraded
      else if 2 <=? cr_consecutive_healthy c then TierHealthy
      else TierDegraded
  end.
(** transport_selection.rs:263-265 ChildRecord::recompute_health. *)
Definition recompute_health (c : ChildRecord) : ChildRecord := set_cr_tier (compute_health_tier c) c.

(** ** State *)

(** transport_selection.rs:343-348 PendingRetry. *)
Record PendingRetry := mkPendingRetry { pr_kind : TransportKind; pr_child_attempt : Z; pr_epoch : Z }.
(** transport_selection.rs:361-369 TurnReplacementPhase. *)
Inductive TurnReplacementPhase := TpReplacementPending | TpDraining | TpRemoved.
(** transport_selection.rs:352-358 TurnReplacementPair. *)
Record TurnReplacementPair := mkTurnPair {
  tp_current : Z; tp_replacement : Z; tp_phase : TurnReplacementPhase; tp_lease_id : bytes }.

(** transport_selection.rs:312-340 TransportSelectionState. *)
Record SelectionState := mkSelection {
  ts_parent_state : ParentState;
  ts_children : list ChildRecord;
  ts_preference : UserTransportPreference;
  ts_authorization : TransportAuthorization;
  ts_train_id : bytes;
  ts_next_child_attempt : Z;
  ts_next_epoch : Z;
  ts_deadline_secs : Z;
  ts_websocket_fallback_started : bool;
  ts_deadline_timer_armed : bool;
  ts_retry_timer_armed : bool;
  ts_pending_retry : option PendingRetry;
  ts_turn_replacement : option TurnReplacementPair;
  ts_delivery_assignments : gmap string Z;
  ts_cancelled : bool;
  ts_kind_retries_used : gmap TransportKind Z;
}.

(** Field updates. *)
Definition set_parent (v : ParentState) (s : SelectionState) : SelectionState :=
  mkSelection v (ts_children s) (ts_preference s) (ts_authorization s) (ts_train_id s)
    (ts_next_child_attempt s) (ts_next_epoch s) (ts_deadline_secs s) (ts_websocket_fallback_started s)
    (ts_deadline_timer_armed s) (ts_retry_timer_armed s) (ts_pending_retry s) (ts_turn_replacement s)
    (ts_delivery_assignments s) (ts_cancelled s) (ts_kind_retries_used s).
Definition set_children (v : list ChildRecord) (s : SelectionState) : SelectionState :=
  mkSelection (ts_parent_state s) v (ts_preference s) (ts_authorization s) (ts_train_id s)
    (ts_next_child_attempt s) (ts_next_epoch s) (ts_deadline_secs s) (ts_websocket_fallback_started s)
    (ts_deadline_timer_armed s) (ts_retry_timer_armed s) (ts_pending_retry s) (ts_turn_replacement s)
    (ts_delivery_assignments s) (ts_cancelled s) (ts_kind_retries_used s).
Definition set_next (attempt epoch : Z) (s : SelectionState) : SelectionState :=
  mkSelection (ts_parent_state s) (ts_children s) (ts_preference s) (ts_authorization s) (ts_train_id s)
    attempt epoch (ts_deadline_secs s) (ts_websocket_fallback_started s)
    (ts_deadline_timer_armed s) (ts_retry_timer_armed s) (ts_pending_retry s) (ts_turn_replacement s)
    (ts_delivery_assignments s) (ts_cancelled s) (ts_kind_retries_used s).
Definition set_fallback_started (v : bool) (s : SelectionState) : SelectionState :=
  mkSelection (ts_parent_state s) (ts_children s) (ts_preference s) (ts_authorization s) (ts_train_id s)
    (ts_next_child_attempt s) (ts_next_epoch s) (ts_deadline_secs s) v
    (ts_deadline_timer_armed s) (ts_retry_timer_armed s) (ts_pending_retry s) (ts_turn_replacement s)
    (ts_delivery_assignments s) (ts_cancelled s) (ts_kind_retries_used s).
Definition set_deadline_armed (v : bool) (s : SelectionState) : SelectionState :=
  mkSelection (ts_parent_state s) (ts_children s) (ts_preference s) (ts_authorization s) (ts_train_id s)
    (ts_next_child_attempt s) (ts_next_epoch s) (ts_deadline_secs s) (ts_websocket_fallback_started s)
    v (ts_retry_timer_armed s) (ts_pending_retry s) (ts_turn_replacement s)
    (ts_delivery_assignments s) (ts_cancelled s) (ts_kind_retries_used s).
Definition set_retry (armed : bool) (pending : option PendingRetry) (s : SelectionState) : SelectionState :=
  mkSelection (ts_parent_state s) (ts_children s) (ts_preference s) (ts_authorization s) (ts_train_id s)
    (ts_next_child_attempt s) (ts_next_epoch s) (ts_deadline_secs s) (ts_websocket_fallback_started s)
    (ts_deadline_timer_armed s) armed pending (ts_turn_replacement s)
    (ts_delivery_assignments s) (ts_cancelled s) (ts_kind_retries_used s).
Definition set_turn (v : option TurnReplacementPair) (s : SelectionState) : SelectionState :=
  mkSelection (ts_parent_state s) (ts_children s) (ts_preference s) (ts_authorization s) (ts_train_id s)
    (ts_next_child_attempt s) (ts_next_epoch s) (ts_deadline_secs s) (ts_websocket_fallback_started s)
    (ts_deadline_timer_armed s) (ts_retry_timer_armed s) (ts_pending_retry s) v
    (ts_delivery_assignments s) (ts_cancelled s) (ts_kind_retries_used s).
Definition set_assignments (v : gmap string Z) (s : SelectionState) : SelectionState :=
  mkSelection (ts_parent_state s) (ts_children s) (ts_preference s) (ts_authorization s) (ts_train_id s)
    (ts_next_child_attempt s) (ts_next_epoch s) (ts_deadline_secs s) (ts_websocket_fallback_started s)
    (ts_deadline_timer_armed s) (ts_retry_timer_armed s) (ts_pending_retry s) (ts_turn_replacement s)
    v (ts_cancelled s) (ts_kind_retries_used s).
Definition set_cancelled (v : bool) (s : SelectionState) : SelectionState :=
  mkSelection (ts_parent_state s) (ts_children s) (ts_preference s) (ts_authorization s) (ts_train_id s)
    (ts_next_child_attempt s) (ts_next_epoch s) (ts_deadline_secs s) (ts_websocket_fallback_started s)
    (ts_deadline_timer_armed s) (ts_retry_timer_armed s) (ts_pending_retry s) (ts_turn_replacement s)
    (ts_delivery_assignments s) v (ts_kind_retries_used s).
Definition set_kind_retries (v : gmap TransportKind Z) (s : SelectionState) : SelectionState :=
  mkSelection (ts_parent_state s) (ts_children s) (ts_preference s) (ts_authorization s) (ts_train_id s)
    (ts_next_child_attempt s) (ts_next_epoch s) (ts_deadline_secs s) (ts_websocket_fallback_started s)
    (ts_deadline_timer_armed s) (ts_retry_timer_armed s) (ts_pending_retry s) (ts_turn_replacement s)
    (ts_delivery_assignments s) (ts_cancelled s) v.

(** transport_selection.rs:373-397 TransportSelectionState::new. *)
Definition selection_new (authorization : TransportAuthorization) (preference : UserTransportPreference)
    (train_id : bytes) (deadline_secs : Z) : SelectionState :=
  mkSelection PsPlanning [] preference authorization train_id 1 1 deadline_secs false false false None None
    ∅ false ∅.

(** transport_selection.rs:400-405 TransportSelectionState::count_kind_in_state. *)
Definition count_kind_in_state (s : SelectionState) (kind : TransportKind) (state : ChildState) : Z :=
  zlen (filter (fun c => cr_kind c = kind /\ cr_state c = state) (ts_children s)).
(** transport_selection.rs:408-413 TransportSelectionState::count_routed_current. *)
Definition count_routed_current (s : SelectionState) : Z :=
  zlen (filter (fun c => is_routed_current c = true) (ts_children s)).
(** transport_selection.rs:416-421 TransportSelectionState::count_ordinary_pending. *)
Definition count_ordinary_pending (s : SelectionState) : Z :=
  zlen (filter (fun c => is_ordinary_pending c = true) (ts_children s)).
(** transport_selection.rs:424-429 TransportSelectionState::count_ordinary_pending_kind. *)
Definition count_ordinary_pending_kind (s : SelectionState) (kind : TransportKind) : Z :=
  zlen (filter (fun c => is_ordinary_pending c = true /\ cr_kind c = kind) (ts_children s)).
(** transport_selection.rs:432-437 TransportSelectionState::count_physical_children. *)
Definition count_physical_children (s : SelectionState) : Z :=
  zlen (filter (fun c => cr_state c <> CsClosed) (ts_children s)).
(** transport_selection.rs:440-442 TransportSelectionState::find_child. *)
Definition find_child (s : SelectionState) (id : Z) : option ChildRecord :=
  List.find (fun c => cr_child_attempt c =? id) (ts_children s).
(** transport_selection.rs:445-447 TransportSelectionState::find_child_mut. The child found, changed in place. *)
Fixpoint update_child (id : Z) (f : ChildRecord -> ChildRecord) (l : list ChildRecord) : list ChildRecord :=
  match l with
  | [] => []
  | c :: l => if cr_child_attempt c =? id then f c :: l else c :: update_child id f l
  end.
Definition with_child (id : Z) (f : ChildRecord -> ChildRecord) (s : SelectionState) : SelectionState :=
  set_children (update_child id f (ts_children s)) s.
(** transport_selection.rs:450-454 TransportSelectionState::current_child_of_kind. *)
Definition current_child_of_kind (s : SelectionState) (kind : TransportKind) : option ChildRecord :=
  List.find (fun c => bool_decide (cr_kind c = kind) && is_routed_current c) (ts_children s).
(** transport_selection.rs:457-459 TransportSelectionState::kind_retries. *)
Definition kind_retries (s : SelectionState) (kind : TransportKind) : Z :=
  default 0 (ts_kind_retries_used s !! kind).
(** transport_selection.rs:462-464 TransportSelectionState::increment_kind_retry. *)
Definition increment_kind_retry (s : SelectionState) (kind : TransportKind) : checked SelectionState :=
  n ← add_in U32_MAX (kind_retries s kind) 1;
  Ok (set_kind_retries (<[kind := n]> (ts_kind_retries_used s)) s).
(** transport_selection.rs:467-471 TransportSelectionState::alloc_child_attempt. *)
Definition alloc_child_attempt (s : SelectionState) : checked (Z * SelectionState) :=
  n ← add_in U64_MAX (ts_next_child_attempt s) 1;
  Ok (ts_next_child_attempt s, set_next n (ts_next_epoch s) s).
(** transport_selection.rs:474-478 TransportSelectionState::alloc_epoch. *)
Definition alloc_epoch (s : SelectionState) : checked (Z * SelectionState) :=
  n ← add_in U64_MAX (ts_next_epoch s) 1;
  Ok (ts_next_epoch s, set_next (ts_next_child_attempt s) n s).

(** ** Inputs and actions *)

(** transport_selection.rs:489-557 TransportSelectionInput. *)
Inductive SelectionInput :=
| InStartPlan
| InChildActive (child_attempt now_ms : Z)
| InChildReachability (child_attempt : Z) (class : ReachabilityClass)
| InWebrtcProbe (child_attempt : Z) (success : bool) (buffered_bytes : Z)
| InWebsocketAckProgress (child_attempt oldest_unacked_age_secs buffered_bytes retransmissions : Z)
| InDeadlineFired (now_ms : Z)
| InRetryDelayFired (now_ms : Z)
| InChildClosed (child_attempt : Z) (security_failure : bool)
| InRequestSecondChild (reason : SecondChildReason) (now_ms : Z)
| InCredentialRotationLead (now_ms : Z)
| InSupervisorCutoverAck (old new : Z)
| InSecondLease (old : Z)
| InCloseChild (child_attempt : Z)
| InCancel
| InSupersede
| InRouteRequest (delivery_id : string) (routing_class : RoutingClass)
| InReservationResult (key : RetryReservationKey) (res : result TransportDenial RetryReservation)
| InChildSecurityFailure (child_attempt : Z).

(** transport_selection.rs:564-607 TransportSelectionAction. *)
Inductive SelectionAction :=
| ActStartChild (child_attempt : Z) (kind : TransportKind) (epoch : Z)
| ActArmDeadlineTimer (secs : Z)
| ActArmRetryDelay (secs : Z)
| ActCancelChild (child_attempt : Z)
| ActCloseChild (child_attempt : Z)
| ActStartReplacementPending (child_attempt : Z) (kind : TransportKind) (epoch : Z)
| ActEmitCutoverLease (current draining : Z) (lease_id : bytes)
| ActRouteDelivery (delivery_id : string) (child_attempt : Z)
| ActDeny (denial : TransportDenial)
| ActReserveRetry (key : RetryReservationKey)
| ActParentTransition (new_state : ParentState)
| ActInert.

Abbreviation reduced := (checked (SelectionState * list SelectionAction)).
Definition inert (s : SelectionState) : reduced := Ok (s, [ActInert]).
Definition deny (s : SelectionState) (d : TransportDenial) : reduced := Ok (s, [ActDeny d]).

(** ** The reducer *)

(** Allocate an attempt and an epoch and add a pending child: the steps every start repeats. *)
Definition push_pending (s : SelectionState) (kind : TransportKind) : checked (Z * Z * SelectionState) :=
  '(id, s) ← alloc_child_attempt s;
  '(epoch, s) ← alloc_epoch s;
  Ok (id, epoch, set_children (ts_children s ++ [new_pending id kind epoch]) s).

(** transport_selection.rs:841-930 reduce_start_plan. *)
Definition reduce_start_plan (s : SelectionState) : reduced :=
  let plan := compute_authorized_plan (ts_authorization s) (ts_preference s) in
  if bool_decide (ap_allowed_kinds plan = []) then
    Ok (set_parent PsDenied s,
        [ActDeny (default PolicyDenied (head (ap_denials plan))); ActParentTransition PsDenied])
  else
    let s := set_parent PsEstablishing s in
    let actions := [ActParentTransition PsEstablishing] in
    match ts_preference s with
    | PreferAuto =>
        if bool_decide (Webrtc ∈ ap_allowed_kinds plan) then
          '(id, epoch, s) ← push_pending s Webrtc;
          Ok (set_deadline_armed true s,
              actions ++ [ActStartChild id Webrtc epoch; ActArmDeadlineTimer (ts_deadline_secs s)])
        else if bool_decide (Websocket ∈ ap_allowed_kinds plan) then
          '(id, epoch, s) ← push_pending s Websocket;
          Ok (s, actions ++ [ActStartChild id Websocket epoch])
        else Ok (s, actions)
    | PreferWebrtc =>
        if bool_decide (Webrtc ∈ ap_allowed_kinds plan) then
          '(id, epoch, s) ← push_pending s Webrtc;
          Ok (s, actions ++ [ActStartChild id Webrtc epoch])
        else Ok (s, actions)
    | PreferWebsocket =>
        if bool_decide (Websocket ∈ ap_allowed_kinds plan) then
          '(id, epoch, s) ← push_pending s Websocket;
          Ok (s, actions ++ [ActStartChild id Websocket epoch])
        else Ok (s, actions)
    end.

(** transport_selection.rs:932-958 reduce_child_active. *)
Definition reduce_child_active (s : SelectionState) (child_attempt : Z) : reduced :=
  match find_child s child_attempt with
  | None => inert s
  | Some c =>
      if cr_cancelled c then inert s else
      let c := set_cr_state CsActive c in
      let c := set_cr_counters (sat_succ (cr_consecutive_healthy c)) (cr_consecutive_misses c)
                 (cr_ice_disconnected_misses c) (cr_buffered_bytes c) (cr_consecutive_high_buffer_probes c)
                 (cr_oldest_unacked_age_secs c) (cr_retransmissions c) c in
      let s := with_child child_attempt (fun _ => recompute_health c) s in
      if existsb (fun c => bool_decide (cr_state c = CsActive)) (ts_children s) then
        let old_state := ts_parent_state s in
        let s := set_parent PsActive s in
        if bool_decide (old_state <> PsActive) then Ok (s, [ActParentTransition PsActive]) else Ok (s, [])
      else Ok (s, [])
  end.

(** transport_selection.rs:994-1039 maybe_start_websocket_fallback. *)
Definition maybe_start_websocket_fallback (s : SelectionState) : reduced :=
  if negb (bool_decide (ts_preference s = PreferAuto)) then Ok (s, []) else
  if ts_websocket_fallback_started s then Ok (s, []) else
  if negb (bool_decide
       (Websocket ∈ ap_allowed_kinds (compute_authorized_plan (ts_authorization s) (ts_preference s))))
  then Ok (s, []) else
  if MAX_PENDING_PER_KIND <=? count_ordinary_pending_kind s Websocket then Ok (s, []) else
  if MAX_ORDINARY_PENDING_CHILDREN <=? count_ordinary_pending s then Ok (s, []) else
  let s := set_deadline_armed false (set_fallback_started true s) in
  '(id, epoch, s) ← push_pending s Websocket;
  Ok (s, [ActStartChild id Websocket epoch]).

(** transport_selection.rs:960-992 reduce_child_reachability. *)
Definition reduce_child_reachability (s : SelectionState) (child_attempt : Z) (class : ReachabilityClass)
    : reduced :=
  match find_child s child_attempt with
  | None => inert s
  | Some c =>
      if cr_cancelled c then inert s else
      match class with
      | IceDisconnected =>
          let misses := sat_succ (cr_ice_disconnected_misses c) in
          let c := set_cr_counters (cr_consecutive_healthy c) (cr_consecutive_misses c) misses
                     (cr_buffered_bytes c) (cr_consecutive_high_buffer_probes c)
                     (cr_oldest_unacked_age_secs c) (cr_retransmissions c) c in
          let s := with_child child_attempt (fun _ => recompute_health (set_cr_state CsDegraded c)) s in
          if ICE_DISCONNECTED_FALLBACK_MISSES <=? misses then maybe_start_websocket_fallback s else Ok (s, [])
      | IceNoCandidatePair | IceTimeout | NetworkUnreachable | TurnUnreachable =>
          maybe_start_websocket_fallback
            (with_child child_attempt (fun _ => recompute_health (set_cr_state CsClosed c)) s)
      end
  end.

(** Recovery and degradation of a child by its health tier, as both health updates do it. *)
Definition tier_state (c : ChildRecord) : ChildRecord :=
  match cr_health_tier c with
  | TierFailed => set_cr_state CsClosed c
  | TierDegraded => if bool_decide (cr_state c = CsActive) then set_cr_state CsDegraded c else c
  | TierHealthy =>
      if bool_decide (cr_state c = CsDegraded) && (RECOVERY_CONSECUTIVE_HEALTHY <=? cr_consecutive_healthy c)
      then set_cr_state CsActive c else c
  end.

(** transport_selection.rs:1041-1102 reduce_webrtc_probe. *)
Definition reduce_webrtc_probe (s : SelectionState) (child_attempt : Z) (success : bool) (buffered_bytes : Z)
    : reduced :=
  match find_child s child_attempt with
  | None => inert s
  | Some c =>
      if cr_cancelled c || negb (bool_decide (cr_kind c = Webrtc)) then inert s else
      let high := if WEBRTC_DEGRADED_BUFFER_BYTES <=? buffered_bytes
                  then sat_succ (cr_consecutive_high_buffer_probes c) else 0 in
      let c :=
        if success
        then set_cr_counters (sat_succ (cr_consecutive_healthy c)) 0 0 buffered_bytes high
               (cr_oldest_unacked_age_secs c) (cr_retransmissions c) c
        else set_cr_counters 0 (sat_succ (cr_consecutive_misses c)) (cr_ice_disconnected_misses c)
               buffered_bytes high (cr_oldest_unacked_age_secs c) (cr_retransmissions c) c in
      let c := recompute_health c in
      let s := with_child child_attempt (fun _ => tier_state c) s in
      match cr_health_tier c with
      | TierFailed =>
          if bool_decide (ts_preference s = PreferAuto) then maybe_start_websocket_fallback s else Ok (s, [])
      | _ => Ok (s, [])
      end
  end.

(** transport_selection.rs:1104-1149 reduce_websocket_ack. *)
Definition reduce_websocket_ack (s : SelectionState) (child_attempt oldest_unacked_age_secs buffered_bytes
    retransmissions : Z) : reduced :=
  match find_child s child_attempt with
  | None => inert s
  | Some c =>
      if cr_cancelled c || negb (bool_decide (cr_kind c = Websocket)) then inert s else
      let healthy :=
        if (oldest_unacked_age_secs =? 0) && (buffered_bytes <? WEBSOCKET_DEGRADED_BUFFER_BYTES)
        then sat_succ (cr_consecutive_healthy c) else 0 in
      let c := set_cr_counters healthy (cr_consecutive_misses c) (cr_ice_disconnected_misses c) buffered_bytes
                 (cr_consecutive_high_buffer_probes c) oldest_unacked_age_secs retransmissions c in
      inert (with_child child_attempt (fun _ => tier_state (recompute_health c)) s)
  end.

(** transport_selection.rs:1151-1167 reduce_deadline_fired. *)
Definition reduce_deadline_fired (s : SelectionState) : reduced :=
  let s := set_deadline_armed false s in
  if existsb (fun c => bool_decide (cr_kind c = Webrtc) && bool_decide (cr_state c = CsActive)) (ts_children s)
  then inert s else maybe_start_websocket_fallback s.

(** transport_selection.rs:1169-1197 reduce_retry_delay_fired. *)
Definition reduce_retry_delay_fired (s : SelectionState) : reduced :=
  let pending := ts_pending_retry s in
  let s := set_retry false None s in
  match pending with
  | None => inert s
  | Some p =>
      if MAX_PENDING_PER_KIND <=? count_ordinary_pending_kind s (pr_kind p) then inert s else
      if MAX_ORDINARY_PENDING_CHILDREN <=? count_ordinary_pending s then inert s else
      Ok (set_children (ts_children s ++ [new_pending (pr_child_attempt p) (pr_kind p) (pr_epoch p)]) s,
          [ActStartChild (pr_child_attempt p) (pr_kind p) (pr_epoch p)])
  end.

Definition any_active (s : SelectionState) : bool :=
  existsb (fun c => match cr_state c with CsActive | CsDegraded => true | _ => false end) (ts_children s).
Definition any_pending (s : SelectionState) : bool :=
  existsb (fun c => match cr_state c with CsPending | CsAuthenticating => true | _ => false end) (ts_children s).

(** transport_selection.rs:1199-1249 reduce_child_closed. *)
Definition reduce_child_closed (s : SelectionState) (child_attempt : Z) (security_failure : bool) : reduced :=
  match find_child s child_attempt with
  | None => inert s
  | Some c =>
      let s := with_child child_attempt (fun _ => recompute_health (set_cr_state CsClosed c)) s in
      let kind := cr_kind c in
      if security_failure then Ok (s, []) else
      if negb (any_active s) && negb (any_pending s) then
        if (kind_retries s kind <? MAX_SAME_KIND_RETRIES) && negb (ts_cancelled s) then
          s ← increment_kind_retry s kind;
          '(id, s) ← alloc_child_attempt s;
          '(epoch, s) ← alloc_epoch s;
          Ok (set_retry true (Some (mkPendingRetry kind id epoch)) s, [ActArmRetryDelay RETRY_DELAY_SECS])
        else Ok (set_parent PsFailed s, [ActParentTransition PsFailed])
      else Ok (s, [])
  end.

(** transport_selection.rs:1251-1330 reduce_request_second_child. *)
Definition reduce_request_second_child (s : SelectionState) (reason : SecondChildReason) : reduced :=
  if negb (existsb (fun c => bool_decide (cr_state c = CsActive)) (ts_children s))
  then deny s PolicyDenied else
  let existing_kinds := cr_kind <$> filter (fun c => is_routed_current c = true) (ts_children s) in
  let allowed_kinds := ap_allowed_kinds (compute_authorized_plan (ts_authorization s) (ts_preference s)) in
  let target :=
    if negb (bool_decide (Webrtc ∈ existing_kinds)) && bool_decide (Webrtc ∈ allowed_kinds) then Some Webrtc
    else if negb (bool_decide (Websocket ∈ existing_kinds)) && bool_decide (Websocket ∈ allowed_kinds)
    then Some Websocket else None in
  match target with
  | None => deny s ChildCapExceeded
  | Some target_kind =>
      if MAX_PENDING_PER_KIND <=? count_ordinary_pending_kind s target_kind then deny s ChildCapExceeded else
      if MAX_ORDINARY_PENDING_CHILDREN <=? count_ordinary_pending s then deny s ChildCapExceeded else
      if MAX_ROUTED_CURRENT_CHILDREN <=? count_routed_current s then deny s ChildCapExceeded else
      '(id, s) ← alloc_child_attempt s;
      '(epoch, s) ← alloc_epoch s;
      let rotate := bool_decide (reason = CredentialRotation) && bool_decide (target_kind = Webrtc) in
      let child := new_pending id target_kind epoch in
      let child := if rotate then set_cr_lifecycle DlReplacementPending child else child in
      let s := set_children (ts_children s ++ [child]) s in
      Ok (s, [if rotate then ActStartReplacementPending id target_kind epoch
              else ActStartChild id target_kind epoch])
  end.

(** transport_selection.rs:1332-1385 reduce_credential_rotation. *)
Definition reduce_credential_rotation (s : SelectionState) : reduced :=
  match List.find (fun c => bool_decide (cr_kind c = Webrtc) && bool_decide (cr_durable_lifecycle c = DlCurrent)
                            && negb (bool_decide (cr_state c = CsClosed))) (ts_children s) with
  | None => inert s
  | Some c =>
      let current_id := cr_child_attempt c in
      match ts_turn_replacement s with
      | Some _ => inert s
      | None =>
          if MAX_PHYSICAL_CHILDREN_TURN_EXCEPTION <=? count_physical_children s then deny s ChildCapExceeded else
          '(id, s) ← alloc_child_attempt s;
          '(epoch, s) ← alloc_epoch s;
          let replacement :=
            set_cr_peer (Some current_id) (set_cr_lifecycle DlReplacementPending (new_pending id Webrtc epoch)) in
          let s := set_children (ts_children s ++ [replacement]) s in
          let s := set_turn (Some (mkTurnPair current_id id TpReplacementPending (replicate 16 171))) s in
          let s := with_child current_id (set_cr_peer (Some id)) s in
          Ok (s, [ActStartReplacementPending id Webrtc epoch])
      end
  end.

(** transport_selection.rs:1387-1422 reduce_supervisor_cutover_ack. *)
Definition reduce_supervisor_cutover_ack (s : SelectionState) (old new : Z) : reduced :=
  match ts_turn_replacement s with
  | None => inert s
  | Some rp =>
      if negb (tp_current rp =? old) || negb (tp_replacement rp =? new) then inert s else
      let s := with_child new
                 (fun c => recompute_health (set_cr_state CsActive (set_cr_lifecycle DlCurrent c))) s in
      let s := with_child old (fun c => set_cr_state CsClosing (set_cr_lifecycle DlDraining c)) s in
      let s := set_turn (Some (mkTurnPair (tp_current rp) (tp_replacement rp) TpDraining (tp_lease_id rp))) s in
      Ok (s, [ActEmitCutoverLease new old (tp_lease_id rp)])
  end.

(** transport_selection.rs:1424-1457 reduce_second_lease. *)
Definition reduce_second_lease (s : SelectionState) (old : Z) : reduced :=
  match ts_turn_replacement s with
  | None => inert s
  | Some rp =>
      if negb (old =? tp_current rp) then inert s else
      let s := with_child old (fun c => set_cr_lifecycle DlDraining (set_cr_state CsClosed c)) s in
      Ok (set_turn None s, [ActCloseChild old])
  end.

(** transport_selection.rs:1459-1470 reduce_close_child. *)
Definition reduce_close_child (s : SelectionState) (child_attempt : Z) : reduced :=
  match find_child s child_attempt with
  | None => inert s
  | Some _ => Ok (with_child child_attempt (set_cr_state CsClosing) s, [ActCloseChild child_attempt])
  end.

Definition is_closed (c : ChildRecord) : bool := bool_decide (cr_state c = CsClosed).
(** The attempts a cancellation or supersession names: the children that are not closed. *)
Definition cancel_actions (l : list ChildRecord) : list SelectionAction :=
  (fun c => ActCancelChild (cr_child_attempt c)) <$> filter (fun c => is_closed c = false) l.

(** transport_selection.rs:1472-1494 reduce_cancel. *)
Definition reduce_cancel (s : SelectionState) : reduced :=
  let actions := cancel_actions (ts_children s) in
  let s := set_retry false None (set_deadline_armed false (set_cancelled true s)) in
  let s := set_children
             ((fun c => if is_closed c then c else set_cr_state CsClosing (set_cr_cancelled true c))
                <$> ts_children s) s in
  Ok (set_parent PsCancelled s, actions ++ [ActParentTransition PsCancelled]).

(** transport_selection.rs:1496-1516 reduce_supersede. *)
Definition reduce_supersede (s : SelectionState) : reduced :=
  let s := set_retry false None (set_deadline_armed false (set_cancelled true s)) in
  Ok (set_parent PsSuperseded s, cancel_actions (ts_children s) ++ [ActParentTransition PsSuperseded]).

(** ** Routing *)

(** [Iterator::min_by_key]: the first minimum. *)
Fixpoint min_by {A} (lt : A -> A -> bool) (best : A) (l : list A) : A :=
  match l with
  | [] => best
  | x :: l => min_by lt (if lt x best then x else best) l
  end.
(** [Iterator::max_by]: the last maximum. *)
Fixpoint max_by {A} (cmp : A -> A -> comparison) (best : A) (l : list A) : A :=
  match l with
  | [] => best
  | x :: l => max_by cmp (match cmp best x with Gt => best | _ => x end) l
  end.
Definition iter_min {A} (lt : A -> A -> bool) (l : list A) : option A :=
  match l with [] => None | x :: l => Some (min_by lt x l) end.
Definition iter_max {A} (cmp : A -> A -> comparison) (l : list A) : option A :=
  match l with [] => None | x :: l => Some (max_by cmp x l) end.

Definition is_healthy (c : ChildRecord) : bool := bool_decide (cr_health_tier c = TierHealthy).
Definition epoch_lt (a b : ChildRecord) : bool := cr_epoch a <? cr_epoch b.
(** The key [(!healthy, epoch)]: [false] orders before [true]. *)
Definition control_lt (a b : ChildRecord) : bool :=
  match is_healthy a, is_healthy b with
  | true, false => true
  | false, true => false
  | _, _ => epoch_lt a b
  end.
(** [bool::cmp] and [Ordering::then_with]. *)
Definition bool_cmp (a b : bool) : comparison :=
  match a, b with false, true => Lt | true, false => Gt | _, _ => Eq end.
Definition then_with (a b : comparison) : comparison := match a with Eq => b | _ => a end.
Definition is_webrtc (c : ChildRecord) : bool := bool_decide (cr_kind c = Webrtc).
Definition bulk_cmp (a b : ChildRecord) : comparison :=
  then_with (then_with (writable_bytes a ?= writable_bytes b) (bool_cmp (is_webrtc b) (is_webrtc a)))
    (cr_epoch b ?= cr_epoch a).

(** transport_selection.rs:1553-1623 select_route. *)
Definition select_route (s : SelectionState) (routing_class : RoutingClass) : option Z :=
  let current := filter (fun c => is_routed_current c = true) (ts_children s) in
  match routing_class with
  | RouteControl => cr_child_attempt <$> iter_min control_lt current
  | RouteInteractive =>
      match List.find (fun c => is_webrtc c && is_healthy c) current with
      | Some c => Some (cr_child_attempt c)
      | None =>
          match List.find (fun c => bool_decide (cr_kind c = Websocket) && is_healthy c) current with
          | Some c => Some (cr_child_attempt c)
          | None => cr_child_attempt <$> iter_min epoch_lt current
          end
      end
  | RouteBulk =>
      let healthy := filter (fun c => is_healthy c = true) current in
      match healthy with
      | [] => cr_child_attempt <$> iter_min epoch_lt current
      | _ => cr_child_attempt <$> iter_max bulk_cmp healthy
      end
  end.

(** transport_selection.rs:1518-1549 reduce_route_request. *)
Definition reduce_route_request (s : SelectionState) (delivery_id : string) (routing_class : RoutingClass)
    : reduced :=
  let kept :=
    assigned ← ts_delivery_assignments s !! delivery_id;
    child ← find_child s assigned;
    if is_routed_current child then Some assigned else None in
  match kept with
  | Some assigned => Ok (s, [ActRouteDelivery delivery_id assigned])
  | None =>
      match select_route s routing_class with
      | None => deny s PolicyDenied
      | Some child_attempt =>
          Ok (set_assignments (<[delivery_id := child_attempt]> (ts_delivery_assignments s)) s,
              [ActRouteDelivery delivery_id child_attempt])
      end
  end.

(** transport_selection.rs:1625-1646 reduce_reservation_result. A [Result] has no panic outcome. *)
Definition reduce_reservation_result (s : SelectionState) (key : RetryReservationKey)
    (res : result TransportDenial RetryReservation) : reduced :=
  match res with
  | Ok _ => inert s
  | Err denial =>
      let child_attempt := rk_child_attempt key in
      Ok (with_child child_attempt (fun c => set_cr_state CsClosed (set_cr_cancelled true c)) s,
          [ActCancelChild child_attempt; ActDeny denial])
  | Panic => Panic
  end.

(** transport_selection.rs:1648-1684 reduce_child_security_failure. *)
Definition reduce_child_security_failure (s : SelectionState) (child_attempt : Z) : reduced :=
  match find_child s child_attempt with
  | None => inert s
  | Some c =>
      let s := with_child child_attempt
                 (fun c => recompute_health (set_cr_cancelled true (set_cr_state CsClosed c))) s in
      if negb (any_active s) && negb (any_pending s)
      then Ok (set_parent PsFailed s, [ActDeny SecurityFailure; ActParentTransition PsFailed])
      else Ok (s, [ActDeny SecurityFailure])
  end.

(** transport_selection.rs:765-839 reduce. *)
Definition selection_reduce (s : SelectionState) (input : SelectionInput) : reduced :=
  if ts_cancelled s then
    match input with
    | InSupersede => Ok (set_parent PsSuperseded s, [ActParentTransition PsSuperseded])
    | _ => inert s
    end
  else
    match input with
    | InStartPlan => reduce_start_plan s
    | InChildActive child_attempt _ => reduce_child_active s child_attempt
    | InChildReachability child_attempt class => reduce_child_reachability s child_attempt class
    | InWebrtcProbe child_attempt success buffered => reduce_webrtc_probe s child_attempt success buffered
    | InWebsocketAckProgress child_attempt age buffered retrans =>
        reduce_websocket_ack s child_attempt age buffered retrans
    | InDeadlineFired _ => reduce_deadline_fired s
    | InRetryDelayFired _ => reduce_retry_delay_fired s
    | InChildClosed child_attempt security => reduce_child_closed s child_attempt security
    | InRequestSecondChild reason _ => reduce_request_second_child s reason
    | InCredentialRotationLead _ => reduce_credential_rotation s
    | InSupervisorCutoverAck old new => reduce_supervisor_cutover_ack s old new
    | InSecondLease old => reduce_second_lease s old
    | InCloseChild child_attempt => reduce_close_child s child_attempt
    | InCancel => reduce_cancel s
    | InSupersede => reduce_supersede s
    | InRouteRequest delivery_id class => reduce_route_request s delivery_id class
    | InReservationResult key res => reduce_reservation_result s key res
    | InChildSecurityFailure child_attempt => reduce_child_security_failure s child_attempt
    end.

(** ** Retry budget *)

(** transport_selection.rs:1693-1731 validate_retry_budget. [now_ms - window] panics below [i64::MIN]. *)
Definition validate_retry_budget (existing_in_train committed_in_rolling_window : list RetryReservation)
    (new_key : RetryReservationKey) (now_ms : Z) : result TransportDenial unit :=
  if existsb (fun r => bool_decide (rk_transport_kind (rv_key r) = rk_transport_kind new_key)
                       && (rk_child_attempt (rv_key r) =? rk_child_attempt new_key)
                       && bool_decide (rk_train_id (rv_key r) = rk_train_id new_key)) existing_in_train
  then Ok tt else
  let train_count := zlen (filter (fun r => rk_train_id (rv_key r) = rk_train_id new_key) existing_in_train) in
  if MAX_RESERVATIONS_PER_TRAIN <=? train_count then Err RetryBudgetExhausted else
  let rolling_start := now_ms - ROLLING_WINDOW_SECS * 1000 in
  if rolling_start <? -9223372036854775808 then Panic else
  let rolling_count := zlen (filter (fun r => rolling_start <= rv_reserved_at_ms r) committed_in_rolling_window) in
  if MAX_COMMITTED_RESERVATIONS_ROLLING <=? rolling_count then Err RetryBudgetExhausted else
  Ok tt.

(** transport_selection.rs:1734-1752 build_reservation_key. *)
Definition build_reservation_key (tenant_id account_id client_device_id logical_attachment_id : string)
    (train_id : bytes) (transport_kind : TransportKind) (child_attempt : Z) : RetryReservationKey :=
  mkReservationKey tenant_id account_id client_device_id logical_attachment_id train_id transport_kind child_attempt.
