(* ===== verification/SelectionProps.v ===== *)
(** What transport selection guarantees: the plan is exactly the authorization, every
    child that is ever started is of an authorized kind and has a fresh identity, the
    pending caps and the retry budget hold, cancellation is final, and routing picks a
    current child that is best for the class. *)

From S2P Require Import Prelude Selection.
From stdpp Require Import options.
Set Warnings "-clear-no-such-hyp".

(** ** The plan *)

Definition plan_allows (auth : TransportAuthorization) (pref : UserTransportPreference) (k : TransportKind) : Prop :=
  k ∈ ap_allowed_kinds (compute_authorized_plan auth pref).

Definition turn_forced (auth : TransportAuthorization) : Prop :=
  ip_consent auth = ConsentRelayOnly \/ participant_privacy auth <> PrivacyDirectAllowed.

(** The authorization, stated without the algorithm. *)
Definition kind_authorized (auth : TransportAuthorization) (pref : UserTransportPreference) (k : TransportKind) : Prop :=
  ip_consent auth <> ConsentUnavailable /\ quota_available auth = true /\
  match k with
  | Webrtc => webrtc_authorized auth = true /\ client_supports_webrtc auth = true /\
      (turn_forced auth -> turn_available auth = true) /\ pref <> PreferWebsocket
  | Websocket => websocket_authorized auth = true /\ client_supports_websocket auth = true /\
      pref <> PreferWebrtc
  end.

Lemma dedup_nil {A} `{!EqDecision A} (l : list A) : dedup l = [] -> l = [].
Proof.
  induction l as [|x [|y l] IH]; cbn; [done|done|]. case_decide; [|done]. intros Hn. by apply IH in Hn.
Qed.

Lemma elem_of_dedup {A} `{!EqDecision A} (l : list A) x : x ∈ dedup l <-> x ∈ l.
Proof.
  induction l as [|y [|z l] IH]; [done|done|]. cbn [dedup]. case_decide as Hd.
  - subst z. rewrite IH, !elem_of_cons. tauto.
  - rewrite elem_of_cons, IH, !elem_of_cons. tauto.
Qed.

Lemma admit_kind_None authorized supported gate :
  admit_kind authorized supported gate = None <-> authorized = true /\ supported = true /\ gate = false.
Proof. destruct authorized, supported, gate; cbn; naive_solver. Qed.

(** The plan by cases of consent, preference, quota and the two admissions. *)
Lemma plan_cases auth pref :
  exists webrtc websocket : option TransportDenial,
    (webrtc = None <-> webrtc_authorized auth = true /\ client_supports_webrtc auth = true /\
       (turn_forced auth -> turn_available auth = true)) /\
    (websocket = None <-> websocket_authorized auth = true /\ client_supports_websocket auth = true) /\
    ap_allowed_kinds (compute_authorized_plan auth pref) =
      (if bool_decide (ip_consent auth = ConsentUnavailable) || negb (quota_available auth) then [] else
       match pref with
       | PreferAuto => match webrtc with None => [Webrtc] | _ => [] end ++ match websocket with None => [Websocket] | _ => [] end
       | PreferWebrtc => match webrtc with None => [Webrtc] | Some _ => [] end
       | PreferWebsocket => match websocket with None => [Websocket] | Some _ => [] end
       end) /\
    (ap_allowed_kinds (compute_authorized_plan auth pref) = [] -> ap_denials (compute_authorized_plan auth pref) <> []).
Proof.
  set (forced := match ip_consent auth with ConsentRelayOnly => true | _ => false end ||
        match participant_privacy auth with PrivacyRelayOnly | PrivacyTurnRequired => true | _ => false end).
  exists (admit_kind (webrtc_authorized auth) (client_supports_webrtc auth) (forced && negb (turn_available auth))).
  exists (admit_kind (websocket_authorized auth) (client_supports_websocket auth) false).
  rewrite !admit_kind_None. split_and!.
  - assert (forced = true <-> turn_forced auth) as Hf.
    { unfold forced, turn_forced. destruct (ip_consent auth), (participant_privacy auth); naive_solver. }
    destruct forced, (turn_available auth); naive_solver.
  - naive_solver.
  - unfold compute_authorized_plan. fold forced. clearbody forced.
    destruct (ip_consent auth); cbn -[admit_kind]; try done;
      destruct (quota_available auth), (admit_kind _ _ _), (admit_kind _ _ _), pref; done.
  - unfold compute_authorized_plan. fold forced. clearbody forced.
    destruct (ip_consent auth); cbn -[admit_kind dedup]; try done;
      destruct (quota_available auth), (admit_kind _ _ _), (admit_kind _ _ _), pref; cbn -[dedup];
      intros ? Hd; apply dedup_nil in Hd; done.
Qed.

Lemma plan_authorized auth pref k :
  k ∈ ap_allowed_kinds (compute_authorized_plan auth pref) <-> kind_authorized auth pref k.
Proof.
  destruct (plan_cases auth pref) as (w & s & Hw & Hs & Hk & _). rewrite Hk. unfold kind_authorized.
  destruct (bool_decide_reflect (ip_consent auth = ConsentUnavailable)) as [Hc|Hc]; cbn [orb]; [set_solver|].
  destruct (quota_available auth); cbn [negb]; [|set_solver].
  destruct k, pref, w, s; cbn; rewrite ?elem_of_cons, ?elem_of_nil; naive_solver.
Qed.

(** The authorized plan is exactly the authorization. A kind is allowed if and only
    if consent is available, quota is left, the grant and the client both allow the
    kind, the user's preference does not exclude it and, for WebRTC under a forced
    relay, TURN is available; each kind is listed at most once; and a plan that allows
    nothing says why. *)
Theorem plan_exact (auth : TransportAuthorization) (pref : UserTransportPreference) :
  let plan := compute_authorized_plan auth pref in
  (forall k, k ∈ ap_allowed_kinds plan <-> kind_authorized auth pref k) /\
  NoDup (ap_allowed_kinds plan) /\
  (ap_allowed_kinds plan = [] -> ap_denials plan <> []).
Proof.
  cbn zeta. split; [apply plan_authorized|].
  destruct (plan_cases auth pref) as (w & s & _ & _ & Hk & Hd). split; [|done]. rewrite Hk.
  destruct (_ || _), pref, w, s; cbn; repeat constructor; set_solver.
Qed.

(** ** What one step does *)

Definition allowed (s : SelectionState) (k : TransportKind) : Prop :=
  plan_allows (ts_authorization s) (ts_preference s) k.

(** A cancelled child is closing or closed. *)
Definition quiet (c : ChildRecord) : Prop :=
  cr_cancelled c = true -> cr_state c = CsClosing \/ cr_state c = CsClosed.

(** How a step may change a child: identity is for ever, nothing becomes pending again,
    cancellation is not undone and (but for a cutover acknowledgement) silences. *)
Record evolves (cutover : bool) (c c' : ChildRecord) : Prop := {
  ev_attempt : cr_child_attempt c' = cr_child_attempt c;
  ev_kind : cr_kind c' = cr_kind c;
  ev_epoch : cr_epoch c' = cr_epoch c;
  ev_pending : is_ordinary_pending c' = true -> is_ordinary_pending c = true;
  ev_cancelled : cr_cancelled c = true -> cr_cancelled c' = true;
  ev_quiet : cutover = false -> quiet c -> quiet c';
}.

#[export] Instance evolves_preorder b : PreOrder (evolves b).
Proof.
  split; [by intros c; split|]. intros x y z [A1 A2 A3 A4 A5 A6] [B1 B2 B3 B4 B5 B6].
  split; [congruence..|tauto|tauto|tauto].
Qed.

Lemma evolves_all b l : Forall2 (evolves b) l l.
Proof. induction l; by constructor. Qed.

Definition is_cutover (i : SelectionInput) : bool := match i with InSupervisorCutoverAck _ _ => true | _ => false end.

Definition starts (acts : list SelectionAction) : list (Z * TransportKind * Z) :=
  omap (fun a => match a with
                 | ActStartChild id k e | ActStartReplacementPending id k e => Some (id, k, e)
                 | _ => None
                 end) acts.
Definition child_start (c : ChildRecord) : Z * TransportKind * Z := (cr_child_attempt c, cr_kind c, cr_epoch c).

(** The identities in use: those of the children and of the retry being waited for. *)
Definition child_ident (c : ChildRecord) : Z * Z := (cr_child_attempt c, cr_epoch c).
Definition retry_idents (s : SelectionState) : list (Z * Z) :=
  match ts_pending_retry s with Some p => [(pr_child_attempt p, pr_epoch p)] | None => [] end.
Definition idents (s : SelectionState) : list (Z * Z) := (child_ident <$> ts_children s) ++ retry_idents s.

Record selection_ok (s : SelectionState) : Prop := {
  so_kinds : Forall (fun c => allowed s (cr_kind c)) (ts_children s);
  so_retry_kind p : ts_pending_retry s = Some p -> allowed s (pr_kind p);
  so_attempts : NoDup (idents s).*1;
  so_epochs : NoDup (idents s).*2;
  so_bound : Forall (fun i => 1 <= i.1 < ts_next_child_attempt s /\ 1 <= i.2 < ts_next_epoch s) (idents s);
  so_next : 1 <= ts_next_child_attempt s /\ 1 <= ts_next_epoch s;
  so_retries k : 0 <= kind_retries s k <= MAX_SAME_KIND_RETRIES;
}.

(** The budget a train has spent: its fallback and its retries. *)
Definition b2z (b : bool) : Z := if b then 1 else 0.
Definition spent (s : SelectionState) : Z :=
  b2z (ts_websocket_fallback_started s) + kind_retries s Webrtc + kind_retries s Websocket.
(** The children started or about to be. *)
Definition launched (s : SelectionState) : Z := zlen (ts_children s) + zlen (retry_idents s).

Definition plain (i : SelectionInput) : Prop :=
  match i with InStartPlan | InRequestSecondChild _ _ | InCredentialRotationLead _ => False | _ => True end.

Definition pending_of (k : TransportKind) (l : list ChildRecord) : list ChildRecord :=
  filter (fun c => is_ordinary_pending c = true /\ cr_kind c = k) l.
Definition pending (l : list ChildRecord) : list ChildRecord := filter (fun c => is_ordinary_pending c = true) l.

Record stepped (i : SelectionInput) (s s' : SelectionState) (acts : list SelectionAction)
    (new : option ChildRecord) : Prop := {
  sp_pref : ts_preference s' = ts_preference s;
  sp_auth : ts_authorization s' = ts_authorization s;
  sp_children : exists l', Forall2 (evolves (is_cutover i)) (ts_children s) l' /\
    ts_children s' = l' ++ option_list new /\
    (forall c, new = Some c -> is_ordinary_pending c = true -> i <> InStartPlan ->
       pending_of (cr_kind c) l' = [] /\ zlen (pending l') < MAX_ORDINARY_PENDING_CHILDREN);
  sp_starts : starts acts = child_start <$> option_list new;
  sp_new c : new = Some c -> allowed s (cr_kind c) /\ quiet c;
  sp_idents : exists fresh : bool, ts_next_child_attempt s' = ts_next_child_attempt s + b2z fresh /\
    ts_next_epoch s' = ts_next_epoch s + b2z fresh /\
    idents s' ⊆+ idents s ++ (if fresh then [(ts_next_child_attempt s, ts_next_epoch s)] else []);
  sp_retry p : ts_pending_retry s' = Some p -> ts_pending_retry s = Some p \/ allowed s (pr_kind p);
  sp_retries k : 0 <= kind_retries s' k <= MAX_SAME_KIND_RETRIES;
  sp_spent : plain i -> launched s' + spent s <= launched s + spent s';
}.

Lemma evolves_idents b l l' : Forall2 (evolves b) l l' -> child_ident <$> l' = child_ident <$> l.
Proof.
  induction 1 as [|c c' l l' Hc _ IH]; [done|]. cbn. rewrite IH. f_equal. unfold child_ident.
  by rewrite (ev_attempt _ _ _ Hc), (ev_epoch _ _ _ Hc).
Qed.

(** Everything but the children, the timers, the parent's state and the deliveries is
    as before, and the children have evolved. *)
Record evolved (b : bool) (s s' : SelectionState) : Prop := {
  el_pref : ts_preference s' = ts_preference s;
  el_auth : ts_authorization s' = ts_authorization s;
  el_children : Forall2 (evolves b) (ts_children s) (ts_children s');
  el_attempt : ts_next_child_attempt s' = ts_next_child_attempt s;
  el_epoch : ts_next_epoch s' = ts_next_epoch s;
  el_retry : ts_pending_retry s' = ts_pending_retry s \/ ts_pending_retry s' = None;
  el_retries : ts_kind_retries_used s' = ts_kind_retries_used s;
  el_fallback : ts_websocket_fallback_started s' = ts_websocket_fallback_started s;
}.

Lemma evolved_idents b s s' : evolved b s s' -> idents s' ⊆+ idents s.
Proof.
  intros E. unfold idents. rewrite (evolves_idents _ _ _ (el_children _ _ _ E)). apply submseteq_app; [done|].
  unfold retry_idents. destruct (el_retry _ _ _ E) as [-> | ->]; [done|apply submseteq_nil_l].
Qed.

Lemma evolved_launched b s s' : evolved b s s' -> launched s' <= launched s /\ spent s' = spent s.
Proof.
  intros E. pose proof (submseteq_length _ _ (evolved_idents _ _ _ E)) as Hl. unfold idents in Hl.
  rewrite !length_app, !length_fmap in Hl. unfold launched, zlen, spent, kind_retries.
  rewrite (el_retries _ _ _ E), (el_fallback _ _ _ E). lia.
Qed.

Lemma evolved_retries b s s' k : evolved b s s' -> kind_retries s' k = kind_retries s k.
Proof. intros E. unfold kind_retries. by rewrite (el_retries _ _ _ E). Qed.

Lemma evolved_retry b s s' p : evolved b s s' -> ts_pending_retry s' = Some p -> ts_pending_retry s = Some p.
Proof. intros E. by destruct (el_retry _ _ _ E) as [<- | ->]. Qed.

(** A step that starts nothing. *)
Lemma stepped_quiet i s s' acts :
  selection_ok s -> evolved (is_cutover i) s s' -> starts acts = [] -> stepped i s s' acts None.
Proof.
  intros Hok E Hs. destruct (evolved_launched _ _ _ E) as [Hl Hsp].
  split; [apply (el_pref _ _ _ E)|apply (el_auth _ _ _ E)|..].
  - exists (ts_children s'). by rewrite app_nil_r; split_and!; [apply (el_children _ _ _ E)|..].
  - done.
  - done.
  - exists false. cbn. rewrite (el_attempt _ _ _ E), (el_epoch _ _ _ E), !Z.add_0_r, app_nil_r.
    split_and!; [done|done|]. by eapply evolved_idents.
  - intros p Hp. left. by eapply evolved_retry.
  - intros k. rewrite (evolved_retries _ _ _ k E). apply (so_retries _ Hok).
  - intros _. lia.
Qed.

(** A step that adds a child under the next identity. *)
Lemma stepped_fresh i s s' acts c l' :
  selection_ok s ->
  ts_preference s' = ts_preference s -> ts_authorization s' = ts_authorization s ->
  Forall2 (evolves (is_cutover i)) (ts_children s) l' -> ts_children s' = l' ++ [c] ->
  ts_next_child_attempt s' = ts_next_child_attempt s + 1 -> ts_next_epoch s' = ts_next_epoch s + 1 ->
  child_ident c = (ts_next_child_attempt s, ts_next_epoch s) ->
  ts_pending_retry s' = ts_pending_retry s -> ts_kind_retries_used s' = ts_kind_retries_used s ->
  allowed s (cr_kind c) -> quiet c -> starts acts = [child_start c] ->
  (is_ordinary_pending c = true -> i <> InStartPlan ->
     pending_of (cr_kind c) l' = [] /\ zlen (pending l') < MAX_ORDINARY_PENDING_CHILDREN) ->
  (plain i -> ts_websocket_fallback_started s = false /\ ts_websocket_fallback_started s' = true) ->
  stepped i s s' acts (Some c).
Proof.
  intros Hok Hp Ha Hl Hc Hn He Hid Hr Hk Hal Hq Hs Hcap Hpl. split; [done|done|..].
  - exists l'. split_and!; [done|done|]. by intros c0 [= <-].
  - done.
  - by intros c0 [= <-].
  - exists true. split_and!; [done|done|]. unfold idents, retry_idents. rewrite Hc, Hr, fmap_app.
    rewrite (evolves_idents _ _ _ Hl). cbn. rewrite Hid, <- !app_assoc.
    apply submseteq_app; [done|]. apply Permutation_submseteq, Permutation_app_comm.
  - intros p. rewrite Hr. by left.
  - intros k. unfold kind_retries. rewrite Hk. apply (so_retries _ Hok).
  - intros Hi. destruct (Hpl Hi) as [Hf Hf']. apply Forall2_length in Hl.
    unfold launched, spent, kind_retries, retry_idents, zlen. rewrite Hc, Hr, Hk, Hf, Hf', length_app. cbn. lia.
Qed.

(** ** Children found and updated *)

Lemma update_child_evolves b id f l :
  (forall c, c ∈ l -> cr_child_attempt c = id -> evolves b c (f c)) ->
  Forall2 (evolves b) l (update_child id f l).
Proof.
  induction l as [|c l IH]; cbn; intros Hf; [done|].
  destruct (Z.eqb_spec (cr_child_attempt c) id).
  - constructor; [apply Hf; [by left|done]|apply evolves_all].
  - constructor; [done|]. apply IH. intros x Hx. apply Hf. by right.
Qed.

(** Replacing the child that [find_child] returned. *)
Lemma update_found_evolves b id l c c' :
  List.find (fun c => cr_child_attempt c =? id) l = Some c -> evolves b c c' ->
  Forall2 (evolves b) l (update_child id (fun _ => c') l).
Proof.
  induction l as [|x l IH]; cbn; [done|]. destruct (Z.eqb_spec (cr_child_attempt x) id).
  - intros [= ->] Hc. constructor; [done|apply evolves_all].
  - intros Hf Hc. constructor; [done|by apply IH].
Qed.

Lemma find_child_elem s id c : find_child s id = Some c -> c ∈ ts_children s /\ cr_child_attempt c = id.
Proof. intros [Hin Hid]%find_some. split; [by apply list_elem_of_In|lia]. Qed.

(** ** The changes the reducer makes to a child *)

Lemma evolves_state b x c :
  x <> CsPending -> x <> CsAuthenticating -> (cr_cancelled c = true -> x = CsClosing \/ x = CsClosed) ->
  evolves b c (set_cr_state x c).
Proof.
  intros H1 H2 H3. split; try done.
  unfold is_ordinary_pending. cbn. by destruct x.
Qed.

Lemma evolves_counters b c h m i bu hi un re : evolves b c (set_cr_counters h m i bu hi un re c).
Proof. by split. Qed.

Lemma evolves_health b c : evolves b c (recompute_health c).
Proof. by split. Qed.

Lemma evolves_tier_state b c : cr_cancelled c = false -> evolves b c (tier_state c).
Proof.
  intros Hc. unfold tier_state. destruct (cr_health_tier c); [| |by apply evolves_state; [..|congruence]].
  - destruct (_ && _); [|done]. by apply evolves_state; [..|congruence].
  - destruct (bool_decide _); [|done]. by apply evolves_state; [..|congruence].
Qed.

Lemma evolves_cancel b c x : x = CsClosing \/ x = CsClosed -> evolves b c (set_cr_state x (set_cr_cancelled true c)).
Proof. intros Hx. split; try done; [by destruct Hx as [-> | ->]|]. intros _ _ _. exact Hx. Qed.

Lemma evolves_peer b c x : evolves b c (set_cr_peer (Some x) c).
Proof.
  split; try done. unfold is_ordinary_pending. cbn. by destruct (cr_state c), (cr_durable_lifecycle c).
Qed.

(** An update of one child, nothing else. *)
Lemma with_child_evolved b id f s :
  (forall c, c ∈ ts_children s -> cr_child_attempt c = id -> evolves b c (f c)) -> evolved b s (with_child id f s).
Proof. intros Hf. split; try done; [by apply update_child_evolves|by left]. Qed.

Lemma with_found_evolved b id c c' s :
  find_child s id = Some c -> evolves b c c' -> evolved b s (with_child id (fun _ => c') s).
Proof. intros Hf Hc. split; try done; [by eapply update_found_evolves|by left]. Qed.

#[export] Instance evolved_trans b : Transitive (evolved b).
Proof.
  intros x y z [A1 A2 A3 A4 A5 A6 A7 A8] [B1 B2 B3 B4 B5 B6 B7 B8]. split; try congruence.
  - clear -A3 B3. revert B3. generalize (ts_children z) as l. induction A3 as [|c c' l l' Hc _ IH]; intros k B3;
      inversion B3; subst; constructor; [by etrans|by apply IH].
  - destruct B6 as [-> | ->]; [done|by right].
Qed.

Lemma evolved_refl b s : evolved b s s.
Proof. split; try done; first [apply evolves_all|by left]. Qed.

Ltac evolve :=
  repeat first [ done | apply evolves_health | apply evolves_counters | apply evolves_peer
               | apply evolves_cancel; tauto
               | (etrans; [|apply evolves_health])
               | (apply evolves_state; [done|done|]) ].

Lemma alloc_attempt_inv s id s' :
  alloc_child_attempt s = Ok (id, s') ->
  id = ts_next_child_attempt s /\ s' = set_next (ts_next_child_attempt s + 1) (ts_next_epoch s) s.
Proof. unfold alloc_child_attempt, add_in. destruct (_ <=? _); [|done]. by intros [= <- <-]. Qed.

Lemma alloc_epoch_inv s epoch s' :
  alloc_epoch s = Ok (epoch, s') ->
  epoch = ts_next_epoch s /\ s' = set_next (ts_next_child_attempt s) (ts_next_epoch s + 1) s.
Proof. unfold alloc_epoch, add_in. destruct (_ <=? _); [|done]. by intros [= <- <-]. Qed.

(** Both identities are drawn together. *)
Lemma alloc_inv {A} s (f : Z -> Z -> SelectionState -> checked A) r :
  ('(id, s) ← alloc_child_attempt s; '(epoch, s) ← alloc_epoch s; f id epoch s) = Ok r ->
  f (ts_next_child_attempt s) (ts_next_epoch s)
    (set_next (ts_next_child_attempt s + 1) (ts_next_epoch s + 1) s) = Ok r.
Proof.
  intros H. apply bind_Ok in H as ([id s1] & (-> & ->)%alloc_attempt_inv & H).
  apply bind_Ok in H as ([e s2] & (-> & ->)%alloc_epoch_inv & H). exact H.
Qed.

Lemma push_pending_inv {A} s k (f : Z * Z * SelectionState -> checked A) r :
  (x ← push_pending s k; f x) = Ok r ->
  f (ts_next_child_attempt s, ts_next_epoch s,
     set_children (ts_children s ++ [new_pending (ts_next_child_attempt s) k (ts_next_epoch s)])
       (set_next (ts_next_child_attempt s + 1) (ts_next_epoch s + 1) s)) = Ok r.
Proof.
  intros H. apply bind_Ok in H as (x & Hp & H).
  apply (alloc_inv s (fun id epoch s => Ok (id, epoch, set_children (ts_children s ++ [new_pending id k epoch]) s))) in Hp.
  injection Hp as <-. exact H.
Qed.

Lemma quiet_new_pending id k e : quiet (new_pending id k e).
Proof. done. Qed.

Lemma filter_length_0 {A} (P : A -> Prop) `{!forall x, Decision (P x)} (l : list A) :
  zlen (filter P l) < 1 -> filter P l = [].
Proof. destruct (filter P l); [done|]. rewrite zlen_cons. pose proof (zlen_nonneg l0). lia. Qed.

(** The WebSocket fallback, after the children have evolved. *)
Lemma fallback_stepped i s s1 s' acts :
  selection_ok s -> evolved (is_cutover i) s s1 -> ts_pending_retry s1 = ts_pending_retry s ->
  i <> InStartPlan -> maybe_start_websocket_fallback s1 = Ok (s', acts) ->
  exists new, stepped i s s' acts new.
Proof.
  intros Hok E Hr Hi H. unfold maybe_start_websocket_fallback in H.
  assert (stepped i s s1 [] None) as Hq by (by apply stepped_quiet).
  destruct (negb (bool_decide (ts_preference s1 = PreferAuto))); [injection H as <- <-; by exists None|].
  destruct (ts_websocket_fallback_started s1) eqn:Hf; [injection H as <- <-; by exists None|].
  destruct (bool_decide_reflect (Websocket ∈ ap_allowed_kinds (compute_authorized_plan (ts_authorization s1) (ts_preference s1))))
    as [Hal|]; cbn [negb] in H; [|injection H as <- <-; by exists None].
  destruct (Z.leb_spec MAX_PENDING_PER_KIND (count_ordinary_pending_kind s1 Websocket)) as [|Hk];
    [injection H as <- <-; by exists None|].
  destruct (Z.leb_spec MAX_ORDINARY_PENDING_CHILDREN (count_ordinary_pending s1)) as [|Hp];
    [injection H as <- <-; by exists None|].
  apply push_pending_inv in H. cbn in H. injection H as <- <-.
  exists (Some (new_pending (ts_next_child_attempt s1) Websocket (ts_next_epoch s1))).
  apply (stepped_fresh _ _ _ _ _ (ts_children s1)); cbn; try done.
  - apply (el_pref _ _ _ E).
  - apply (el_auth _ _ _ E).
  - apply (el_children _ _ _ E).
  - by rewrite (el_attempt _ _ _ E).
  - by rewrite (el_epoch _ _ _ E).
  - unfold child_ident. cbn. by rewrite (el_attempt _ _ _ E), (el_epoch _ _ _ E).
  - apply (el_retries _ _ _ E).
  - unfold allowed. by rewrite <- (el_auth _ _ _ E), <- (el_pref _ _ _ E).
  - intros _ _. split; [by apply filter_length_0|done].
  - intros _. by rewrite <- (el_fallback _ _ _ E).
Qed.

(** ** Every reducer is a step *)

(** Only timers, flags and the parent's state differ. *)
Ltac same_children := split; try done; first [apply evolves_all|by left|by right].

(** A reduction that leaves the state alone or lets one child evolve. *)
Ltac no_start E := injection E as <- <-; exists None; apply stepped_quiet; [done| |done].

Section steps.
Context (s : SelectionState) (Hok : selection_ok s).

Lemma start_plan_stepped s' acts :
  reduce_start_plan s = Ok (s', acts) -> exists new, stepped InStartPlan s s' acts new.
Proof using Hok.
  unfold reduce_start_plan. intros H.
  set (plan := compute_authorized_plan (ts_authorization s) (ts_preference s)) in *.
  destruct (bool_decide (ap_allowed_kinds plan = [])); [no_start H; same_children|].
  assert (forall k acts', bool_decide (k ∈ ap_allowed_kinds plan) = true ->
    starts acts' = [(ts_next_child_attempt s, k, ts_next_epoch s)] ->
    forall armed, stepped InStartPlan s (set_deadline_armed armed
       (set_children (ts_children s ++ [new_pending (ts_next_child_attempt s) k (ts_next_epoch s)])
       (set_next (ts_next_child_attempt s + 1) (ts_next_epoch s + 1) (set_parent PsEstablishing s)))) acts'
       (Some (new_pending (ts_next_child_attempt s) k (ts_next_epoch s)))) as Hnew.
  { intros k acts' Hk Hst armed. apply bool_decide_eq_true in Hk.
    apply (stepped_fresh _ _ _ _ _ (ts_children s)); try done; apply evolves_all. }
  assert (evolved false s (set_parent PsEstablishing s)) as He by same_children.
  destruct (ts_preference s) eqn:Hpref; cbn [ts_preference set_parent] in H; rewrite Hpref in H.
  - destruct (bool_decide (Webrtc ∈ _)) eqn:Hw.
    { apply push_pending_inv in H. injection H as <- <-. eexists. by apply Hnew. }
    destruct (bool_decide (Websocket ∈ _)) eqn:Hs; [|by no_start H].
    apply push_pending_inv in H. injection H as <- <-. eexists. by apply (Hnew Websocket _ Hs).
  - destruct (bool_decide (Webrtc ∈ _)) eqn:Hw; [|by no_start H].
    apply push_pending_inv in H. injection H as <- <-. eexists. by apply (Hnew Webrtc _ Hw).
  - destruct (bool_decide (Websocket ∈ _)) eqn:Hs; [|by no_start H].
    apply push_pending_inv in H. injection H as <- <-. eexists. by apply (Hnew Websocket _ Hs).
Qed.

Lemma child_active_stepped id now s' acts :
  reduce_child_active s id = Ok (s', acts) -> exists new, stepped (InChildActive id now) s s' acts new.
Proof using Hok.
  unfold reduce_child_active. intros H.
  destruct (find_child s id) as [c|] eqn:Hf; [|no_start H; apply evolved_refl].
  destruct (cr_cancelled c) eqn:Hc; [no_start H; apply evolved_refl|].
  set (c' := recompute_health _) in H.
  assert (evolved false s (with_child id (fun _ => c') s)) as E.
  { eapply with_found_evolved; [done|]. unfold c'. etrans; [|apply evolves_health].
    etrans; [|apply evolves_counters]. apply evolves_state; [done|done|]. by rewrite Hc. }
  destruct (existsb _ _); [|by no_start H].
  destruct (bool_decide _); no_start H; (etrans; [exact E|]); same_children.
Qed.

Lemma child_reachability_stepped id class s' acts :
  reduce_child_reachability s id class = Ok (s', acts) ->
  exists new, stepped (InChildReachability id class) s s' acts new.
Proof using Hok.
  unfold reduce_child_reachability. intros H.
  destruct (find_child s id) as [c|] eqn:Hf; [|no_start H; apply evolved_refl].
  destruct (cr_cancelled c) eqn:Hc; [no_start H; apply evolved_refl|].
  destruct class.
  5:{ set (c' := recompute_health _) in H.
      assert (evolved false s (with_child id (fun _ => c') s)) as E.
      { eapply with_found_evolved; [done|]. unfold c'. etrans; [|apply evolves_health].
        etrans; [apply evolves_counters|]. apply evolves_state; [done|done|]. cbn. by rewrite Hc. }
      destruct (_ <=? _); [by eapply fallback_stepped|by no_start H]. }
  all: refine (fallback_stepped _ _ _ _ _ Hok _ _ _ H); [|done|done]; eapply with_found_evolved; [done|];
    (etrans; [|apply evolves_health]); apply evolves_state; [done|done|by right].
Qed.

Lemma webrtc_probe_stepped id success buffered s' acts :
  reduce_webrtc_probe s id success buffered = Ok (s', acts) ->
  exists new, stepped (InWebrtcProbe id success buffered) s s' acts new.
Proof using Hok.
  unfold reduce_webrtc_probe. intros H.
  destruct (find_child s id) as [c|] eqn:Hf; [|no_start H; apply evolved_refl].
  destruct (cr_cancelled c || _) eqn:Hc; [no_start H; apply evolved_refl|].
  apply orb_false_iff in Hc as [Hc _].
  match type of H with context [tier_state ?x] => set (c' := x) in H end.
  assert (evolves false c c' /\ cr_cancelled c' = false) as [Hev Hc'].
  { unfold c'. destruct success; (split; [|done]); (etrans; [apply evolves_counters|apply evolves_health]). }
  assert (evolved false s (with_child id (fun _ => tier_state c') s)) as E.
  { eapply with_found_evolved; [done|]. etrans; [exact Hev|]. by apply evolves_tier_state. }
  destruct (cr_health_tier c'); [by no_start H|by no_start H|].
  destruct (bool_decide _); [by eapply fallback_stepped|by no_start H].
Qed.

Lemma websocket_ack_stepped id age buffered retrans s' acts :
  reduce_websocket_ack s id age buffered retrans = Ok (s', acts) ->
  exists new, stepped (InWebsocketAckProgress id age buffered retrans) s s' acts new.
Proof using Hok.
  unfold reduce_websocket_ack. intros H.
  destruct (find_child s id) as [c|] eqn:Hf; [|no_start H; apply evolved_refl].
  destruct (cr_cancelled c || _) eqn:Hc; [no_start H; apply evolved_refl|].
  apply orb_false_iff in Hc as [Hc _]. no_start H. eapply with_found_evolved; [done|].
  etrans; [apply evolves_counters|]. etrans; [apply evolves_health|]. by apply evolves_tier_state.
Qed.

Lemma deadline_fired_stepped now s' acts :
  reduce_deadline_fired s = Ok (s', acts) -> exists new, stepped (InDeadlineFired now) s s' acts new.
Proof using Hok.
  unfold reduce_deadline_fired. intros H.
  assert (evolved false s (set_deadline_armed false s)) as E by same_children.
  destruct (existsb _ _); [by no_start H|by eapply fallback_stepped].
Qed.

Lemma retry_delay_stepped now s' acts :
  reduce_retry_delay_fired s = Ok (s', acts) -> exists new, stepped (InRetryDelayFired now) s s' acts new.
Proof using Hok.
  unfold reduce_retry_delay_fired. intros H.
  assert (evolved false s (set_retry false None s)) as E by same_children.
  destruct (ts_pending_retry s) as [p|] eqn:Hp; [|by no_start H].
  destruct (Z.leb_spec MAX_PENDING_PER_KIND (count_ordinary_pending_kind (set_retry false None s) (pr_kind p))) as [|Hk];
    [by no_start H|].
  destruct (Z.leb_spec MAX_ORDINARY_PENDING_CHILDREN (count_ordinary_pending (set_retry false None s))) as [|Hn];
    [by no_start H|].
  injection H as <- <-. exists (Some (new_pending (pr_child_attempt p) (pr_kind p) (pr_epoch p))).
  assert (idents s = (child_ident <$> ts_children s) ++ [(pr_child_attempt p, pr_epoch p)]) as Hid.
  { unfold idents, retry_idents. by rewrite Hp. }
  split; try done.
  - exists (ts_children s). split_and!; [apply evolves_all|done|].
    intros c [= <-] _ _. split; [by apply filter_length_0|done].
  - intros c [= <-]. split; [by apply (so_retry_kind _ Hok)|done].
  - exists false. cbn. rewrite !Z.add_0_r, app_nil_r. split_and!; [done|done|]. rewrite Hid.
    unfold idents, retry_idents. cbn. by rewrite app_nil_r, fmap_app.
  - intros k. apply (so_retries _ Hok).
  - intros _. unfold launched, retry_idents. rewrite Hp. cbn. rewrite zlen_app. unfold zlen. cbn.
    unfold spent, kind_retries. cbn. lia.
Qed.

(** Closing a child may reserve a retry of its kind. *)
Lemma child_closed_stepped id sec s' acts :
  reduce_child_closed s id sec = Ok (s', acts) -> exists new, stepped (InChildClosed id sec) s s' acts new.
Proof using Hok.
  unfold reduce_child_closed. intros H.
  destruct (find_child s id) as [c|] eqn:Hf; [|no_start H; apply evolved_refl].
  assert (allowed s (cr_kind c)) as Hal.
  { destruct (find_child_elem _ _ _ Hf) as [Hin _]. by eapply Forall_forall in Hin; [|apply (so_kinds _ Hok)]. }
  set (s1 := with_child id _ s) in H.
  assert (evolved false s s1) as E.
  { eapply with_found_evolved; [done|]. etrans; [|apply evolves_health]. apply evolves_state; [done|done|by right]. }
  clearbody s1. destruct sec; [by no_start H|]. destruct (negb (any_active s1) && _); [|by no_start H].
  destruct (kind_retries s1 (cr_kind c) <? _) eqn:Hk; cbn [andb] in H;
    [|no_start H; etrans; [exact E|same_children]].
  destruct (negb (ts_cancelled s1)); [|no_start H; etrans; [exact E|same_children]].
  apply bind_Ok in H as (s2 & Hs2 & H). unfold increment_kind_retry, add_in in Hs2.
  rewrite (evolved_retries _ _ _ (cr_kind c) E) in Hk, Hs2.
  pose proof (so_retries _ Hok (cr_kind c)) as Hb. unfold MAX_SAME_KIND_RETRIES in *.
  assert (kind_retries s (cr_kind c) = 0) as Hz by lia. rewrite Hz in Hs2. cbn in Hs2. injection Hs2 as <-.
  apply (alloc_inv _ (fun id epoch s => Ok (set_retry true (Some (mkPendingRetry (cr_kind c) id epoch)) s, [ActArmRetryDelay RETRY_DELAY_SECS]))) in H.
  injection H as <- <-. exists None.
  set (used := <[cr_kind c := 1]> (ts_kind_retries_used s1)).
  assert (forall k, default 0 (used !! k) = if decide (k = cr_kind c) then 1 else kind_retries s k) as Hused.
  { intros k. unfold used. case_decide as Hd; [subst; by rewrite lookup_insert_eq|].
    rewrite lookup_insert_ne by done. by rewrite <- (evolved_retries _ _ _ k E). }
  split; try done; cbn.
  - apply (el_pref _ _ _ E).
  - apply (el_auth _ _ _ E).
  - exists (ts_children s1). rewrite app_nil_r. by split_and!; [apply (el_children _ _ _ E)|..].
  - exists true. rewrite (el_attempt _ _ _ E), (el_epoch _ _ _ E). split_and!; [done|done|].
    unfold idents. cbn. rewrite (evolves_idents _ _ _ (el_children _ _ _ E)).
    rewrite <- app_assoc. apply submseteq_app; [done|]. unfold retry_idents. cbn.
    rewrite ?(el_attempt _ _ _ E), ?(el_epoch _ _ _ E). apply submseteq_inserts_l. done.
  - intros p [= <-]. by right.
  - intros k. unfold kind_retries. cbn. rewrite Hused. unfold MAX_SAME_KIND_RETRIES. case_decide; [lia|apply (so_retries _ Hok)].
  - intros _. unfold launched, spent, retry_idents, kind_retries. cbn. rewrite !Hused, (el_fallback _ _ _ E).
    pose proof (Forall2_length _ _ _ (el_children _ _ _ E)) as Hlen. unfold zlen. rewrite <- Hlen.
    fold (kind_retries s Webrtc) (kind_retries s Websocket).
    destruct (cr_kind c); rewrite Hz; repeat case_decide; try done; cbn; lia.
Qed.

Lemma second_child_stepped reason now s' acts :
  reduce_request_second_child s reason = Ok (s', acts) ->
  exists new, stepped (InRequestSecondChild reason now) s s' acts new.
Proof using Hok.
  unfold reduce_request_second_child. intros H.
  destruct (negb (existsb _ _)); [no_start H; apply evolved_refl|].
  set (kinds := ap_allowed_kinds _) in H.
  match type of H with match ?t with _ => _ end = _ => destruct t as [k|] eqn:Ht end;
    [|no_start H; apply evolved_refl].
  assert (allowed s k) as Hal.
  { unfold allowed, plan_allows. fold kinds.
    destruct (negb _ && bool_decide (Webrtc ∈ kinds)) eqn:Hw.
    - injection Ht as <-. apply andb_true_iff in Hw as [_ Hw]. by apply bool_decide_eq_true in Hw.
    - destruct (negb _ && bool_decide (Websocket ∈ kinds)) eqn:Hs; [|done].
      injection Ht as <-. apply andb_true_iff in Hs as [_ Hs]. by apply bool_decide_eq_true in Hs. }
  destruct (Z.leb_spec MAX_PENDING_PER_KIND (count_ordinary_pending_kind s k)) as [|Hk]; [no_start H; apply evolved_refl|].
  destruct (Z.leb_spec MAX_ORDINARY_PENDING_CHILDREN (count_ordinary_pending s)) as [|Hp]; [no_start H; apply evolved_refl|].
  destruct (Z.leb_spec MAX_ROUTED_CURRENT_CHILDREN (count_routed_current s)); [no_start H; apply evolved_refl|].
  apply (alloc_inv s (fun id epoch s => let child := new_pending id k epoch in
     let child := if bool_decide (reason = CredentialRotation) && bool_decide (k = Webrtc)
       then set_cr_lifecycle DlReplacementPending child else child in
     let s := set_children (ts_children s ++ [child]) s in
      Ok (s, [if bool_decide (reason = CredentialRotation) && bool_decide (k = Webrtc)
        then ActStartReplacementPending id k epoch else ActStartChild id k epoch]))) in H.
  injection H as <- <-. destruct (bool_decide (reason = CredentialRotation) && bool_decide (k = Webrtc)).
  - exists (Some (set_cr_lifecycle DlReplacementPending (new_pending (ts_next_child_attempt s) k (ts_next_epoch s)))).
    apply (stepped_fresh _ _ _ _ _ (ts_children s)); done.
  - exists (Some (new_pending (ts_next_child_attempt s) k (ts_next_epoch s))).
    apply (stepped_fresh _ _ _ _ _ (ts_children s)); try done.
    intros _ _. split; [by apply filter_length_0|done].
Qed.

Lemma update_child_app id f l k :
  (exists c, c ∈ l /\ cr_child_attempt c = id) -> update_child id f (l ++ k) = update_child id f l ++ k.
Proof using Type.
  intros (c & Hc & Hid). induction l as [|x l IH]; [by apply not_elem_of_nil in Hc|]. cbn.
  destruct (Z.eqb_spec (cr_child_attempt x) id) as [|Hne]; [done|]. cbn. f_equal. apply IH.
  apply elem_of_cons in Hc as [-> |Hc]; [done|exact Hc].
Qed.

Lemma rotation_stepped now s' acts :
  reduce_credential_rotation s = Ok (s', acts) -> exists new, stepped (InCredentialRotationLead now) s s' acts new.
Proof using Hok.
  unfold reduce_credential_rotation. intros H.
  destruct (List.find _ _) as [c|] eqn:Hf; [|no_start H; apply evolved_refl].
  apply find_some in Hf as [Hin Hc]. apply list_elem_of_In in Hin.
  apply andb_true_iff in Hc as [Hc _]. apply andb_true_iff in Hc as [Hc _]. apply bool_decide_eq_true in Hc.
  destruct (ts_turn_replacement s); [no_start H; apply evolved_refl|].
  destruct (_ <=? _); [no_start H; apply evolved_refl|].
  apply (alloc_inv s (fun id epoch s =>
    let replacement := set_cr_peer (Some (cr_child_attempt c)) (set_cr_lifecycle DlReplacementPending (new_pending id Webrtc epoch)) in
    let s := set_children (ts_children s ++ [replacement]) s in
    let s := set_turn (Some (mkTurnPair (cr_child_attempt c) id TpReplacementPending (replicate 16 171))) s in
    let s := with_child (cr_child_attempt c) (set_cr_peer (Some id)) s in
    Ok (s, [ActStartReplacementPending id Webrtc epoch]))) in H.
  injection H as <- <-.
  exists (Some (set_cr_peer (Some (cr_child_attempt c))
    (set_cr_lifecycle DlReplacementPending (new_pending (ts_next_child_attempt s) Webrtc (ts_next_epoch s))))).
  apply (stepped_fresh _ _ _ _ _ (update_child (cr_child_attempt c) (set_cr_peer (Some (ts_next_child_attempt s))) (ts_children s)));
    try done.
  - apply update_child_evolves. intros x _ _. apply evolves_peer.
  - cbn. apply update_child_app. by exists c.
  - cbn. rewrite <- Hc. by eapply Forall_forall in Hin; [|apply (so_kinds _ Hok)].
Qed.

Lemma cutover_stepped old new s' acts :
  reduce_supervisor_cutover_ack s old new = Ok (s', acts) ->
  exists n, stepped (InSupervisorCutoverAck old new) s s' acts n.
Proof using Hok.
  unfold reduce_supervisor_cutover_ack. intros H.
  destruct (ts_turn_replacement s) as [rp|]; [|no_start H; apply evolved_refl].
  destruct (_ || _); [no_start H; apply evolved_refl|]. no_start H.
  etrans; [apply (with_child_evolved true new); intros c _ _|].
  2:{ etrans; [apply (with_child_evolved true old); intros c _ _|same_children].
      by split. }
  by split.
Qed.

Lemma second_lease_stepped old s' acts :
  reduce_second_lease s old = Ok (s', acts) -> exists n, stepped (InSecondLease old) s s' acts n.
Proof using Hok.
  unfold reduce_second_lease. intros H.
  destruct (ts_turn_replacement s) as [rp|]; [|no_start H; apply evolved_refl].
  destruct (negb _); [no_start H; apply evolved_refl|]. no_start H.
  etrans; [apply (with_child_evolved false old); intros c _ _|same_children].
  split; try done. intros _ _ _. by right.
Qed.

Lemma close_child_stepped id s' acts :
  reduce_close_child s id = Ok (s', acts) -> exists n, stepped (InCloseChild id) s s' acts n.
Proof using Hok.
  unfold reduce_close_child. intros H. destruct (find_child s id); [|no_start H; apply evolved_refl].
  no_start H. apply with_child_evolved. intros x _ _. apply evolves_state; [done|done|by left].
Qed.

Lemma starts_cancel l : starts (cancel_actions l) = [].
Proof using Type.
  unfold cancel_actions. induction l as [|c l IH]; [done|]. rewrite filter_cons. by case_decide.
Qed.

Lemma starts_app a b : starts (a ++ b) = starts a ++ starts b.
Proof using Type. apply omap_app. Qed.

Lemma cancel_stepped s' acts :
  reduce_cancel s = Ok (s', acts) -> exists n, stepped InCancel s s' acts n.
Proof using Hok.
  unfold reduce_cancel. intros H. injection H as <- <-. exists None.
  apply stepped_quiet; [done| |by rewrite starts_app, starts_cancel].
  split; try done; [|by right]. cbn. induction (ts_children s) as [|c l IH]; cbn; constructor; [|done].
  destruct (is_closed c); [done|]. apply evolves_cancel. by left.
Qed.

Lemma supersede_stepped s' acts :
  reduce_supersede s = Ok (s', acts) -> exists n, stepped InSupersede s s' acts n.
Proof using Hok.
  unfold reduce_supersede. intros H. injection H as <- <-. exists None.
  apply stepped_quiet; [done|same_children|by rewrite starts_app, starts_cancel].
Qed.

Lemma route_stepped d class s' acts :
  reduce_route_request s d class = Ok (s', acts) -> exists n, stepped (InRouteRequest d class) s s' acts n.
Proof using Hok.
  unfold reduce_route_request. intros H.
  match type of H with match ?t with _ => _ end = _ => destruct t as [a|] end; [no_start H; apply evolved_refl|].
  destruct (select_route s class); [no_start H; same_children|no_start H; apply evolved_refl].
Qed.

Lemma reservation_stepped key res s' acts :
  reduce_reservation_result s key res = Ok (s', acts) -> exists n, stepped (InReservationResult key res) s s' acts n.
Proof using Hok.
  unfold reduce_reservation_result. intros H. destruct res as [r|d|]; [no_start H; apply evolved_refl| |done].
  no_start H. apply with_child_evolved. intros c _ _. apply evolves_cancel. by right.
Qed.

Lemma security_stepped id s' acts :
  reduce_child_security_failure s id = Ok (s', acts) -> exists n, stepped (InChildSecurityFailure id) s s' acts n.
Proof using Hok.
  unfold reduce_child_security_failure. intros H.
  destruct (find_child s id) as [c|]; [|no_start H; apply evolved_refl].
  set (s1 := with_child _ _ _) in H.
  assert (evolved false s s1) as E.
  { apply with_child_evolved. intros x _ _. etrans; [|apply evolves_health].
    split; try done. intros _ _ _. by right. }
  destruct (_ && _); [no_start H; etrans; [exact E|same_children]|by no_start H].
Qed.

Lemma reduce_stepped i s' acts :
  selection_reduce s i = Ok (s', acts) -> exists new, stepped i s s' acts new.
Proof using Hok.
  unfold selection_reduce. destruct (ts_cancelled s) eqn:Hc; intros H.
  { destruct i; try by no_start H; apply evolved_refl. all: no_start H; same_children. }
  destruct i; eauto using start_plan_stepped, child_active_stepped, child_reachability_stepped,
    webrtc_probe_stepped, websocket_ack_stepped, deadline_fired_stepped, retry_delay_stepped,
    child_closed_stepped, second_child_stepped, rotation_stepped, cutover_stepped, second_lease_stepped,
    close_child_stepped, cancel_stepped, supersede_stepped, route_stepped, reservation_stepped, security_stepped.
Qed.
End steps.

(** ** Runs *)

Fixpoint selection_run (s : SelectionState) (inputs : list SelectionInput)
    : checked (SelectionState * list SelectionAction) :=
  match inputs with
  | [] => Ok (s, [])
  | i :: inputs =>
      '(s, a) ← selection_reduce s i;
      '(s, b) ← selection_run s inputs;
      Ok (s, a ++ b)
  end.

Lemma run_cons s i inputs s' acts :
  selection_run s (i :: inputs) = Ok (s', acts) ->
  exists s1 a b, selection_reduce s i = Ok (s1, a) /\ selection_run s1 inputs = Ok (s', b) /\ acts = a ++ b.
Proof.
  cbn [selection_run]. intros H. apply bind_Ok in H as ([s1 a] & Hr & H).
  apply bind_Ok in H as ([s2 b] & Hrun & H). injection H as <- <-. by exists s1, a, b.
Qed.

Lemma selection_new_ok auth pref train deadline : selection_ok (selection_new auth pref train deadline).
Proof. split; try done; apply NoDup_nil_2. Qed.

Lemma submseteq_NoDup {A} (l k : list A) : l ⊆+ k -> NoDup k -> NoDup l.
Proof. intros [k' ->]%submseteq_Permutation. by intros [? _]%NoDup_app. Qed.

Lemma stepped_ok i s s' acts new : selection_ok s -> stepped i s s' acts new -> selection_ok s'.
Proof.
  intros [K R A E B N T] [P1 P2 (l' & Hl & Hc & _) _ Hn (fresh & Ha & He & Hi) Hr Ht _].
  assert (forall k, allowed s' k <-> allowed s k) as Hal by (intros k; unfold allowed; by rewrite P1, P2).
  set (x := if fresh then [(ts_next_child_attempt s, ts_next_epoch s)] else []) in *.
  assert (forall i, i ∈ idents s -> i.1 <> ts_next_child_attempt s /\ i.2 <> ts_next_epoch s) as Hne.
  { intros j Hj. eapply Forall_forall in B; [|done]. lia. }
  split.
  - rewrite Hc. apply Forall_app. split.
    + clear -Hl K Hal. induction Hl as [|c c' l k Hcc _ IH]; constructor; apply Forall_cons in K as [? ?].
      * rewrite Hal, (ev_kind _ _ _ Hcc). done.
      * by apply IH.
    + destruct new as [c|]; cbn; constructor; [|done]. rewrite Hal. by apply (Hn c).
  - intros p Hp. rewrite Hal. destruct (Hr p Hp); [by apply R|done].
  - eapply submseteq_NoDup; [by apply fmap_submseteq|]. rewrite fmap_app. apply NoDup_app.
    split_and!; [done| |unfold x; destruct fresh; cbn; [apply NoDup_singleton|constructor]].
    intros y (j & -> & Hj)%list_elem_of_fmap. unfold x. destruct fresh; cbn; [|apply not_elem_of_nil].
    rewrite list_elem_of_singleton. apply (Hne j Hj).
  - eapply submseteq_NoDup; [by apply fmap_submseteq|]. rewrite fmap_app. apply NoDup_app.
    split_and!; [done| |unfold x; destruct fresh; cbn; [apply NoDup_singleton|constructor]].
    intros y (j & -> & Hj)%list_elem_of_fmap. unfold x. destruct fresh; cbn; [|apply not_elem_of_nil].
    rewrite list_elem_of_singleton. apply (Hne j Hj).
  - apply Forall_forall. intros j Hj. eapply elem_of_submseteq in Hj; [|exact Hi].
    apply elem_of_app in Hj as [Hj|Hj].
    + eapply Forall_forall in B; [|done]. destruct fresh; cbn in *; lia.
    + unfold x in Hj. destruct fresh; [|by apply not_elem_of_nil in Hj].
      apply list_elem_of_singleton in Hj as ->. cbn in *. lia.
  - destruct fresh; cbn in *; lia.
  - exact Ht.
Qed.

(** What a whole run adds up to. *)
Record ran (s s' : SelectionState) (acts : list SelectionAction) : Prop := {
  rn_ok : selection_ok s';
  rn_pref : ts_preference s' = ts_preference s;
  rn_auth : ts_authorization s' = ts_authorization s;
  rn_children : child_start <$> ts_children s' = (child_start <$> ts_children s) ++ starts acts;
}.

Lemma evolves_starts b l l' : Forall2 (evolves b) l l' -> child_start <$> l' = child_start <$> l.
Proof.
  induction 1 as [|c c' l l' Hc _ IH]; [done|]. cbn. rewrite IH. f_equal. unfold child_start.
  by rewrite (ev_attempt _ _ _ Hc), (ev_epoch _ _ _ Hc), (ev_kind _ _ _ Hc).
Qed.

Lemma stepped_ran i s s' acts new : selection_ok s -> stepped i s s' acts new -> ran s s' acts.
Proof.
  intros Hok Hst. pose proof (stepped_ok _ _ _ _ _ Hok Hst) as Hok'.
  destruct Hst as [P1 P2 (l' & Hl & Hc & _) Hs _ _ _ _ _]. split; [done|done|done|].
  by rewrite Hc, fmap_app, (evolves_starts _ _ _ Hl), Hs.
Qed.

Lemma run_ran s inputs s' acts :
  selection_ok s -> selection_run s inputs = Ok (s', acts) -> ran s s' acts.
Proof.
  revert s acts. induction inputs as [|i inputs IH]; intros s acts Hok H.
  { cbn in H. injection H as <- <-. split; try done. by rewrite app_nil_r. }
  apply run_cons in H as (s1 & a & b & Hr & Hrun & ->).
  destruct (reduce_stepped s Hok i s1 a Hr) as [new Hst].
  destruct (stepped_ran _ _ _ _ _ Hok Hst) as [Hok1 P1 P2 Hc].
  destruct (IH s1 b Hok1 Hrun) as [Hok2 Q1 Q2 Hc2].
  split; [done|congruence|congruence|]. by rewrite Hc2, Hc, starts_app, app_assoc.
Qed.

(** C19: Whatever the adapters, timers, operators and the reservation authority report,
    in whatever order, every child the reducer ever starts is of a kind the
    authorization admits under the user's preference, no attempt identifier or epoch is
    ever used twice, and the children on record are exactly the ones started. *)
Theorem selection_starts_authorized (auth : TransportAuthorization) (pref : UserTransportPreference)
    (train : bytes) (deadline : Z) (inputs : list SelectionInput) (s : SelectionState)
    (acts : list SelectionAction) :
  selection_run (selection_new auth pref train deadline) inputs = Ok (s, acts) ->
  Forall (fun st => kind_authorized auth pref st.1.2) (starts acts) /\
  NoDup ((fun st => st.1.1) <$> starts acts) /\ NoDup ((fun st => st.2) <$> starts acts) /\
  child_start <$> ts_children s = starts acts.
Proof.
  intros H. destruct (run_ran _ _ _ _ (selection_new_ok auth pref train deadline) H) as [Hok P1 P2 Hc].
  cbn in P1, P2, Hc. rewrite <- Hc.
  assert (forall k, allowed s k -> kind_authorized auth pref k) as Hal.
  { intros k. unfold allowed, plan_allows. rewrite P1, P2. apply plan_authorized. }
  assert (sublist (cr_child_attempt <$> ts_children s) (idents s).*1 /\
          sublist (cr_epoch <$> ts_children s) (idents s).*2) as [Hsub1 Hsub2].
  { unfold idents. rewrite !fmap_app. rewrite <- !list_fmap_compose. split; by apply sublist_inserts_r. }
  split_and!; [|rewrite <- list_fmap_compose..|done].
  - apply Forall_fmap. eapply Forall_impl; [apply (so_kinds _ Hok)|]. intros c Hk. by apply Hal.
  - eapply sublist_NoDup; [apply (so_attempts _ Hok)|exact Hsub1].
  - eapply sublist_NoDup; [apply (so_epochs _ Hok)|exact Hsub2].
Qed.

(** *** Pending children *)

Lemma pending_evolves b k l l' :
  Forall2 (evolves b) l l' ->
  zlen (pending_of k l') <= zlen (pending_of k l) /\ zlen (pending l') <= zlen (pending l).
Proof.
  unfold pending_of, pending. induction 1 as [|c c' l l' Hc _ IH]; [done|].
  pose proof (ev_pending _ _ _ Hc). pose proof (ev_kind _ _ _ Hc) as Hk.
  rewrite !filter_cons, Hk. repeat case_decide; rewrite ?zlen_cons; naive_solver lia.
Qed.

Definition pending_ok (l : list ChildRecord) : Prop :=
  (forall k, zlen (pending_of k l) <= MAX_PENDING_PER_KIND) /\ zlen (pending l) <= MAX_ORDINARY_PENDING_CHILDREN.

Lemma zlen_filter_snoc {A} (P : A -> Prop) `{!forall x, Decision (P x)} (l : list A) c :
  zlen (filter P (l ++ [c])) = zlen (filter P l) + (if decide (P c) then 1 else 0).
Proof. rewrite filter_app, zlen_app, filter_cons. by case_decide. Qed.

Lemma stepped_pending i s s' acts new :
  stepped i s s' acts new -> i <> InStartPlan -> pending_ok (ts_children s) -> pending_ok (ts_children s').
Proof.
  intros [_ _ (l' & Hl & Hc & Hcap) _ _ _ _ _ _] Hi [Hk Hp]. rewrite Hc.
  assert (pending_ok l') as [Hk' Hp'].
  { split; [intros k; specialize (Hk k)|]; [destruct (pending_evolves _ k _ _ Hl)|destruct (pending_evolves _ Webrtc _ _ Hl)]; lia. }
  destruct new as [c|]; [change (option_list (Some c)) with [c]|by rewrite app_nil_r].
  specialize (Hcap c eq_refl). unfold pending_ok, pending_of, pending in *. split.
  - intros k. rewrite (zlen_filter_snoc (fun x => is_ordinary_pending x = true /\ cr_kind x = k)). specialize (Hk' k). case_decide as Hd; [|lia].
    destruct Hd as [Ho <-]. destruct (Hcap Ho Hi) as [-> _]. done.
  - rewrite (zlen_filter_snoc (fun x => is_ordinary_pending x = true)). case_decide as Ho; [|lia]. destruct (Hcap Ho Hi) as [_ ?].
    unfold MAX_ORDINARY_PENDING_CHILDREN in *. lia.
Qed.

Lemma run_pending s inputs s' acts :
  selection_ok s -> selection_run s inputs = Ok (s', acts) -> InStartPlan ∉ inputs ->
  pending_ok (ts_children s) -> pending_ok (ts_children s').
Proof.
  revert s acts. induction inputs as [|i inputs IH]; intros s acts Hok H Hn Hp.
  { cbn in H. by injection H as <- <-. }
  apply run_cons in H as (s1 & a & b & Hr & Hrun & ->). apply not_elem_of_cons in Hn as [Hi Hn].
  destruct (reduce_stepped s Hok i s1 a Hr) as [new Hst].
  eapply IH; [by eapply stepped_ok|done|done|]. by eapply stepped_pending.
Qed.

(** Starting the plan on a fresh attachment leaves at most one child. *)
Lemma start_plan_new auth pref train deadline s acts :
  selection_reduce (selection_new auth pref train deadline) InStartPlan = Ok (s, acts) ->
  selection_ok s /\ (length (ts_children s) <= 1)%nat /\ retry_idents s = [] /\ spent s = 0.
Proof.
  intros H. pose proof (selection_new_ok auth pref train deadline) as Hok.
  destruct (reduce_stepped _ Hok _ _ _ H) as [new Hst]. split; [by eapply stepped_ok|].
  unfold selection_reduce, reduce_start_plan in H. cbn [ts_cancelled selection_new] in H.
  destruct (bool_decide _); [injection H as <- <-; split_and!; [cbn; lia|done|done]|].
  destruct pref; cbn [ts_preference set_parent selection_new] in H;
    repeat (destruct (bool_decide _); [apply push_pending_inv in H; injection H as <- <-; split_and!; [cbn; lia|done|done]|]);
    by injection H as <- <-; split_and!; [cbn; lia|..].
Qed.

(** The caps on children being established hold. Once the plan is started, whatever
    happens afterwards, at most one ordinary child per transport kind and at most two in
    all are pending at any time. *)
Theorem selection_pending_capped (auth : TransportAuthorization) (pref : UserTransportPreference)
    (train : bytes) (deadline : Z) (inputs : list SelectionInput) (s : SelectionState)
    (acts : list SelectionAction) :
  selection_run (selection_new auth pref train deadline) (InStartPlan :: inputs) = Ok (s, acts) ->
  InStartPlan ∉ inputs ->
  (forall k, count_ordinary_pending_kind s k <= MAX_PENDING_PER_KIND) /\
  count_ordinary_pending s <= MAX_ORDINARY_PENDING_CHILDREN.
Proof.
  intros H Hn. apply run_cons in H as (s1 & a & b & Hr & Hrun & ->).
  destruct (start_plan_new _ _ _ _ _ _ Hr) as (Hok & Hlen & _ & _).
  apply (run_pending s1 inputs s b Hok Hrun Hn).
  assert (forall P `{!forall x : ChildRecord, Decision (P x)}, zlen (filter P (ts_children s1)) <= 1) as Hle.
  { intros P ?. pose proof (length_filter P (ts_children s1)). unfold zlen. lia. }
  split; [intros k; apply Hle|]. unfold pending. specialize (Hle (fun c => is_ordinary_pending c = true) _).
  unfold MAX_ORDINARY_PENDING_CHILDREN. lia.
Qed.

(** *** The establishment budget *)

Lemma run_launched s inputs s' acts :
  selection_ok s -> selection_run s inputs = Ok (s', acts) -> Forall plain inputs ->
  launched s' + spent s <= launched s + spent s'.
Proof.
  revert s acts. induction inputs as [|i inputs IH]; intros s acts Hok H Hp.
  { cbn in H. injection H as <- <-. lia. }
  apply run_cons in H as (s1 & a & b & Hr & Hrun & ->). apply Forall_cons in Hp as [Hi Hp].
  destruct (reduce_stepped s Hok i s1 a Hr) as [new Hst].
  pose proof (sp_spent _ _ _ _ _ Hst Hi).
  pose proof (IH s1 b (stepped_ok _ _ _ _ _ Hok Hst) Hrun Hp). lia.
Qed.

(** Automatic establishment ends. From one start of the plan, without an operator's
    or a rotation's request for another child, at most four children are ever started
    (the first, one fallback and one retry of each kind), however the adapters and
    timers behave; that is the number of reservations a train has. *)
Theorem selection_establishment_bounded (auth : TransportAuthorization) (pref : UserTransportPreference)
    (train : bytes) (deadline : Z) (inputs : list SelectionInput) (s : SelectionState)
    (acts : list SelectionAction) :
  selection_run (selection_new auth pref train deadline) (InStartPlan :: inputs) = Ok (s, acts) ->
  Forall plain inputs ->
  zlen (starts acts) <= MAX_RESERVATIONS_PER_TRAIN.
Proof.
  intros H Hp. pose proof (rn_children _ _ _ (run_ran _ _ _ _ (selection_new_ok _ _ _ _) H)) as Hc.
  apply run_cons in H as (s1 & a & b & Hr & Hrun & ->).
  destruct (start_plan_new _ _ _ _ _ _ Hr) as (Hok & Hlen & Hret & Hsp).
  pose proof (run_launched _ _ _ _ Hok Hrun Hp) as Hl.
  pose proof (so_retries _ (rn_ok _ _ _ (run_ran _ _ _ _ Hok Hrun))) as Ht.
  cbn in Hc. assert (zlen (starts (a ++ b)) = zlen (ts_children s)) as ->.
  { rewrite <- Hc. unfold zlen. by rewrite length_fmap. }
  unfold launched in Hl. rewrite Hret, Hsp in Hl. unfold spent in Hl.
  pose proof (Ht Webrtc). pose proof (Ht Websocket). pose proof (zlen_nonneg (retry_idents s)).
  unfold MAX_SAME_KIND_RETRIES, MAX_RESERVATIONS_PER_TRAIN in *. change (zlen (@nil (Z * Z))) with 0 in Hl.
  unfold zlen in *. destruct (ts_websocket_fallback_started s); cbn in Hl; lia.
Qed.

(** *** Cancellation *)

(** Nothing left to run: no timer, no retry to come. *)
Definition wound_down (s : SelectionState) : Prop :=
  ts_cancelled s = true /\ ts_pending_retry s = None /\ ts_deadline_timer_armed s = false /\
  ts_retry_timer_armed s = false /\ (ts_parent_state s = PsCancelled \/ ts_parent_state s = PsSuperseded).

Lemma wound_down_step s i s' acts :
  wound_down s -> selection_reduce s i = Ok (s', acts) ->
  wound_down s' /\ ts_children s' = ts_children s /\
  Forall (fun a => a = ActInert \/ a = ActParentTransition PsSuperseded) acts.
Proof.
  intros (Hc & Hr & Hd & Ht & Hp) H. unfold selection_reduce in H. rewrite Hc in H.
  destruct i; injection H as <- <-; (split_and!; [|done|by repeat constructor; auto]); split_and!; cbn; tauto.
Qed.

Lemma wound_down_run s inputs s' acts :
  wound_down s -> selection_run s inputs = Ok (s', acts) ->
  wound_down s' /\ ts_children s' = ts_children s /\
  Forall (fun a => a = ActInert \/ a = ActParentTransition PsSuperseded) acts.
Proof.
  revert s acts. induction inputs as [|i inputs IH]; intros s acts Hw H.
  { cbn in H. by injection H as <- <-. }
  apply run_cons in H as (s1 & a & b & Hr & Hrun & ->).
  destruct (wound_down_step _ _ _ _ Hw Hr) as (Hw1 & Hc1 & Ha1).
  destruct (IH _ _ Hw1 Hrun) as (Hw2 & Hc2 & Ha2). split_and!; [done|congruence|by apply Forall_app_2].
Qed.

(** Cancelling or superseding an attachment is final. Every child that is not closed
    is told to cancel, the timers are disarmed and no retry is left; and from then on no
    input starts, routes or changes a child. *)
Theorem selection_cancel_final (s s1 s2 : SelectionState) (i : SelectionInput) (inputs : list SelectionInput)
    (acts acts2 : list SelectionAction) :
  ts_cancelled s = false -> i = InCancel \/ i = InSupersede ->
  selection_reduce s i = Ok (s1, acts) -> selection_run s1 inputs = Ok (s2, acts2) ->
  (forall c, c ∈ ts_children s -> cr_state c <> CsClosed -> ActCancelChild (cr_child_attempt c) ∈ acts) /\
  wound_down s2 /\ ts_children s2 = ts_children s1 /\
  Forall (fun a => a = ActInert \/ a = ActParentTransition PsSuperseded) acts2.
Proof.
  intros Hc Hi H Hrun. unfold selection_reduce in H. rewrite Hc in H.
  assert (wound_down s1 /\ exists tl, acts = cancel_actions (ts_children s) ++ tl) as [Hw [tl ->]].
  { destruct Hi as [-> | ->]; injection H as <- <-; (split; [split_and!; cbn; tauto|by eexists]). }
  split; [|by eapply wound_down_run]. intros c Hin Hst. apply elem_of_app. left.
  apply list_elem_of_fmap. exists c. split; [done|]. apply list_elem_of_filter. split; [|done].
  unfold is_closed. by apply bool_decide_eq_false.
Qed.

Lemma run_quiet s inputs s' acts :
  selection_ok s -> selection_run s inputs = Ok (s', acts) ->
  Forall (fun i => is_cutover i = false) inputs -> Forall quiet (ts_children s) -> Forall quiet (ts_children s').
Proof.
  revert s acts. induction inputs as [|i inputs IH]; intros s acts Hok H Hn Hp.
  { cbn in H. by injection H as <- <-. }
  apply run_cons in H as (s1 & a & b & Hr & Hrun & ->). apply Forall_cons in Hn as [Hi Hn].
  destruct (reduce_stepped s Hok i s1 a Hr) as [new Hst].
  apply (IH s1 b); [by eapply stepped_ok|done|done|].
  destruct Hst as [_ _ (l' & Hl & -> & _) _ Hnew _ _ _ _]. apply Forall_app. split.
  - clear -Hl Hp Hi. induction Hl as [|c c' l k Hc _ IH]; constructor; apply Forall_cons in Hp as [? ?].
    + by apply (ev_quiet _ _ _ Hc).
    + by apply IH.
  - destruct new as [c|]; constructor; [|done]. by apply (Hnew c).
Qed.

(** A cancelled child never carries work again. In every run without a TURN cutover
    acknowledgement, a child marked cancelled (by cancellation, a refused reservation or
    a security failure) is closing or closed and so is never routed to, whatever late
    results its adapter reports. *)
Theorem selection_cancelled_never_routed (auth : TransportAuthorization) (pref : UserTransportPreference)
    (train : bytes) (deadline : Z) (inputs : list SelectionInput) (s : SelectionState)
    (acts : list SelectionAction) (c : ChildRecord) :
  selection_run (selection_new auth pref train deadline) inputs = Ok (s, acts) ->
  Forall (fun i => is_cutover i = false) inputs ->
  c ∈ ts_children s -> cr_cancelled c = true -> is_routed_current c = false.
Proof.
  intros H Hn Hin Hc.
  assert (Forall quiet (ts_children s)) as Hq by (eapply run_quiet; [apply selection_new_ok|done|done|by constructor]).
  eapply Forall_forall in Hq; [|done]. unfold is_routed_current. destruct (cr_durable_lifecycle c); try done.
  by destruct (Hq Hc) as [-> | ->].
Qed.

(** *** Totality *)

Definition input_typed (i : SelectionInput) : Prop :=
  match i with InReservationResult _ Panic => False | _ => True end.

(** No identity is left only after [u64] many steps. *)
Definition ids_left (s : SelectionState) : Prop :=
  ts_next_child_attempt s < U64_MAX /\ ts_next_epoch s < U64_MAX.

Lemma push_pending_total s k : ids_left s -> exists r, push_pending s k = Ok r.
Proof.
  intros [Ha He]. unfold push_pending, alloc_child_attempt, alloc_epoch, add_in.
  rewrite (proj2 (Z.leb_le _ _)) by lia. cbn. rewrite (proj2 (Z.leb_le _ _)) by (cbn; lia). cbn. by eexists.
Qed.

Lemma alloc_total {A} s (f : Z -> Z -> SelectionState -> checked A) :
  ids_left s -> (forall id e s, exists r, f id e s = Ok r) ->
  exists r, ('(id, s) ← alloc_child_attempt s; '(epoch, s) ← alloc_epoch s; f id epoch s) = Ok r.
Proof.
  intros [Ha He] Hf. unfold alloc_child_attempt, alloc_epoch, add_in.
  rewrite (proj2 (Z.leb_le _ _)) by lia. cbn. rewrite (proj2 (Z.leb_le _ _)) by (cbn; lia). cbn. apply Hf.
Qed.

Lemma fallback_total s : ids_left s -> exists r, maybe_start_websocket_fallback s = Ok r.
Proof.
  intros Hl. unfold maybe_start_websocket_fallback. repeat (case_match; [by eexists|]).
  destruct (push_pending_total (set_deadline_armed false (set_fallback_started true s)) Websocket Hl) as [[[id e] s'] ->].
  cbn. by eexists.
Qed.

Lemma push_then_total {A} s k (f : Z * Z * SelectionState -> checked A) :
  ids_left s -> (forall x, exists r, f x = Ok r) -> exists r, (x ← push_pending s k; f x) = Ok r.
Proof. intros Hl Hf. destruct (push_pending_total s k Hl) as [x ->]. apply Hf. Qed.

Ltac totality :=
  repeat first
    [ by eexists
    | apply fallback_total; done
    | apply push_then_total; [done|intros [[? ?] ?]; by eexists]
    | apply alloc_total; [done|intros; by eexists]
    | match goal with |- context [match ?x with _ => _ end] => destruct x eqn:? end ].

Lemma child_closed_total s id sec : selection_ok s -> ids_left s -> exists r, reduce_child_closed s id sec = Ok r.
Proof.
  intros Hok Hl. unfold reduce_child_closed. destruct (find_child s id) as [c|]; [|by eexists].
  set (s1 := with_child _ _ _). assert (ids_left s1) as Hl1 by exact Hl.
  assert (kind_retries s1 (cr_kind c) = kind_retries s (cr_kind c)) as Hk by done. clearbody s1.
  destruct sec; [by eexists|]. destruct (_ && _); [|by eexists]. destruct (_ && _); [|by eexists].
  unfold increment_kind_retry, add_in. pose proof (so_retries _ Hok (cr_kind c)) as Hr.
  rewrite Hk. unfold MAX_SAME_KIND_RETRIES in Hr. rewrite (proj2 (Z.leb_le _ _)) by (unfold U32_MAX; lia).
  rewrite !bind_Ok_l. apply alloc_total; [done|]. intros. by eexists.
Qed.

Lemma reduce_total s i :
  selection_ok s -> ids_left s -> input_typed i -> exists r, selection_reduce s i = Ok r.
Proof.
  intros Hok Hl Hi. unfold selection_reduce. destruct (ts_cancelled s); [destruct i; by eexists|].
  destruct i as [| | | | | | |id sec| | | | | | | | |key res|]; try by apply child_closed_total.
  - unfold reduce_start_plan. totality.
  - unfold reduce_child_active. totality.
  - unfold reduce_child_reachability. totality.
  - unfold reduce_webrtc_probe. totality.
  - unfold reduce_websocket_ack. totality.
  - unfold reduce_deadline_fired. totality.
  - unfold reduce_retry_delay_fired. totality.
  - unfold reduce_request_second_child. totality.
  - unfold reduce_credential_rotation. totality.
  - unfold reduce_supervisor_cutover_ack. totality.
  - unfold reduce_second_lease. totality.
  - unfold reduce_close_child. totality.
  - by eexists.
  - by eexists.
  - unfold reduce_route_request. totality.
  - destruct res; [by eexists|by eexists|done].
  - unfold reduce_child_security_failure. totality.
Qed.

(** The reducer is total: it answers every sequence of inputs, and would panic only
    when the [u64] attempt identifiers run out, after [u64::MAX - 1] inputs. *)
Theorem selection_total (auth : TransportAuthorization) (pref : UserTransportPreference)
    (train : bytes) (deadline : Z) (inputs : list SelectionInput) :
  Forall input_typed inputs -> zlen inputs < U64_MAX ->
  exists s acts, selection_run (selection_new auth pref train deadline) inputs = Ok (s, acts).
Proof.
  assert (forall s, selection_ok s -> Forall input_typed inputs ->
    ts_next_child_attempt s + zlen inputs <= U64_MAX -> ts_next_epoch s + zlen inputs <= U64_MAX ->
    exists s' acts, selection_run s inputs = Ok (s', acts)) as Hgen.
  { induction inputs as [|i inputs IH]; intros s Hok Ht Ha He; [by do 2 eexists|].
    apply Forall_cons in Ht as [Hi Ht]. rewrite zlen_cons in Ha, He. pose proof (zlen_nonneg inputs).
    destruct (reduce_total s i Hok) as [[s1 a] Hr]; [split; lia|done|].
    destruct (reduce_stepped s Hok i s1 a Hr) as [new Hst].
    pose proof (stepped_ok _ _ _ _ _ Hok Hst) as Hok1.
    destruct (sp_idents _ _ _ _ _ Hst) as (fresh & Hna & Hne & _).
    destruct (IH s1 Hok1 Ht) as (s2 & b & Hrun); [destruct fresh; cbn in *; lia..|].
    exists s2, (a ++ b). cbn [selection_run]. rewrite Hr. cbn. by rewrite Hrun. }
  intros Ht Hl. apply Hgen; [apply selection_new_ok|done|cbn; lia|cbn; lia].
Qed.

(** *** Routing *)

Lemma min_by_spec {A} (lt : A -> A -> bool) (best : A) (l : list A) :
  (forall a b c, lt a b = true -> lt b c = true -> lt a c = true) ->
  (forall a b c, lt a b = false -> lt b c = false -> lt a c = false) ->
  (forall a, lt a a = false) ->
  min_by lt best l ∈ best :: l /\ forall x, x ∈ best :: l -> lt x (min_by lt best l) = false.
Proof.
  intros Ht Hn Hi. revert best. induction l as [|y l IH]; intros best; cbn [min_by].
  { split; [by left|]. intros x Hx. apply list_elem_of_singleton in Hx as ->. apply Hi. }
  destruct (lt y best) eqn:Hy.
  - destruct (IH y) as [Hin Hle]. split; [by right|].
    intros x [-> |Hx]%elem_of_cons; [|by apply Hle].
    apply not_true_is_false. intros Hb. specialize (Hle y ltac:(by left)).
    by rewrite (Ht _ _ _ Hy Hb) in Hle.
  - destruct (IH best) as [Hin Hle]. split; [set_solver|].
    intros x [-> |[-> |Hx]%elem_of_cons]%elem_of_cons; [apply Hle; by left| |apply Hle; by right].
    apply (Hn _ best); [done|]. apply Hle. by left.
Qed.

Lemma max_by_spec {A} (cmp : A -> A -> comparison) (best : A) (l : list A) :
  (forall a b, cmp a b <> Gt -> cmp b a <> Lt) ->
  (forall a b c, cmp a b <> Lt -> cmp b c <> Lt -> cmp a c <> Lt) ->
  (forall a, cmp a a <> Lt) ->
  max_by cmp best l ∈ best :: l /\ forall x, x ∈ best :: l -> cmp (max_by cmp best l) x <> Lt.
Proof.
  intros Ha Ht Hi. revert best. induction l as [|y l IH]; intros best; cbn [max_by].
  { split; [by left|]. intros x Hx. apply list_elem_of_singleton in Hx as ->. apply Hi. }
  assert (forall b', (b' = best /\ cmp best y = Gt) \/ (b' = y /\ cmp best y <> Gt) ->
    max_by cmp b' l ∈ best :: y :: l /\ forall x, x ∈ best :: y :: l -> cmp (max_by cmp b' l) x <> Lt) as Hgen.
  { intros b' Hb. destruct (IH b') as [Hin Hle]. split; [set_solver|].
    assert (cmp (max_by cmp b' l) b' <> Lt) as Hb' by (apply Hle; by left).
    intros x [-> |[-> |Hx]%elem_of_cons]%elem_of_cons; [| |apply Hle; by right].
    - destruct Hb as [[-> _]|[-> Hg]]; [done|]. eapply Ht; [done|]. by apply Ha.
    - destruct Hb as [[-> Hg]|[-> _]]; [|done]. eapply Ht; [done|]. by rewrite Hg. }
  destruct (cmp best y) eqn:Hc; apply Hgen; [right|right|left]; by rewrite ?Hc.
Qed.

(** Ties of writable bytes go to the WebSocket child, then to the lower epoch. *)
Definition bulk_rank (c : ChildRecord) : Z := if is_webrtc c then 0 else 1.
Definition bulk_ge (a b : ChildRecord) : Prop :=
  writable_bytes b < writable_bytes a \/
  (writable_bytes a = writable_bytes b /\
   (bulk_rank b < bulk_rank a \/ (bulk_rank a = bulk_rank b /\ cr_epoch a <= cr_epoch b))).

Lemma bulk_cmp_spec a b : (bulk_cmp a b <> Lt <-> bulk_ge a b) /\ (bulk_cmp a b <> Gt -> bulk_ge b a).
Proof.
  unfold bulk_cmp, bulk_ge, bulk_rank, then_with.
  destruct (Z.compare_spec (writable_bytes a) (writable_bytes b)), (is_webrtc a), (is_webrtc b);
    cbn; destruct (Z.compare_spec (cr_epoch b) (cr_epoch a)); split; try split; intros; try done; lia.
Qed.

Lemma bulk_best best l :
  max_by bulk_cmp best l ∈ best :: l /\ forall x, x ∈ best :: l -> bulk_ge (max_by bulk_cmp best l) x.
Proof.
  destruct (max_by_spec bulk_cmp best l) as [Hin Hle].
  - intros a b Hab. apply bulk_cmp_spec. by apply bulk_cmp_spec.
  - intros a b c Hab Hbc. apply bulk_cmp_spec in Hab, Hbc. apply bulk_cmp_spec. unfold bulk_ge in *. lia.
  - intros a. apply bulk_cmp_spec. unfold bulk_ge. lia.
  - split; [done|]. intros x Hx. apply (proj1 (bulk_cmp_spec _ _)). by apply Hle.
Qed.

Lemma epoch_best best l :
  min_by epoch_lt best l ∈ best :: l /\ forall x, x ∈ best :: l -> cr_epoch (min_by epoch_lt best l) <= cr_epoch x.
Proof.
  destruct (min_by_spec epoch_lt best l) as [Hin Hle]; [unfold epoch_lt; intros; lia..|].
  split; [done|]. intros x Hx. specialize (Hle x Hx). by apply Z.ltb_ge in Hle.
Qed.

Lemma control_best best l :
  min_by control_lt best l ∈ best :: l /\
  forall x, x ∈ best :: l ->
    (is_healthy x = true -> is_healthy (min_by control_lt best l) = true) /\
    (is_healthy x = is_healthy (min_by control_lt best l) -> cr_epoch (min_by control_lt best l) <= cr_epoch x).
Proof.
  destruct (min_by_spec control_lt best l) as [Hin Hle].
  1, 2: (intros a b c; unfold control_lt, epoch_lt; destruct (is_healthy a), (is_healthy b), (is_healthy c); try done; lia).
  { intros a. unfold control_lt, epoch_lt. destruct (is_healthy a); lia. }
  split; [done|]. intros x Hx. specialize (Hle x Hx). revert Hle. generalize (min_by control_lt best l) as r.
  intros r. unfold control_lt, epoch_lt. destruct (is_healthy x), (is_healthy r); intros ?; split; intros; try done; lia.
Qed.

(** The children that may carry new work. *)
Definition routable (s : SelectionState) : list ChildRecord := filter (fun c => is_routed_current c = true) (ts_children s).

(** What routing promises of the child [c] it picks for a class. *)
Definition best_route (s : SelectionState) (class : RoutingClass) (c : ChildRecord) : Prop :=
  match class with
  | RouteControl => forall d, d ∈ routable s ->
      (is_healthy d = true -> is_healthy c = true) /\ (is_healthy d = is_healthy c -> cr_epoch c <= cr_epoch d)
  | RouteInteractive =>
      (forall d, d ∈ routable s -> is_healthy d = true ->
         is_healthy c = true /\ (cr_kind d = Webrtc -> cr_kind c = Webrtc)) /\
      ((forall d, d ∈ routable s -> is_healthy d = false) -> forall d, d ∈ routable s -> cr_epoch c <= cr_epoch d)
  | RouteBulk =>
      (forall d, d ∈ routable s -> is_healthy d = true -> is_healthy c = true /\ bulk_ge c d) /\
      ((forall d, d ∈ routable s -> is_healthy d = false) -> forall d, d ∈ routable s -> cr_epoch c <= cr_epoch d)
  end.

Lemma iter_min_epoch l c :
  iter_min epoch_lt l = Some c -> c ∈ l /\ forall d, d ∈ l -> cr_epoch c <= cr_epoch d.
Proof. destruct l as [|x l]; [done|]. intros [= <-]. apply epoch_best. Qed.

Lemma interactive_best s c :
  (match List.find (fun c => is_webrtc c && is_healthy c) (routable s) with
   | Some c => Some c
   | None =>
       match List.find (fun c => bool_decide (cr_kind c = Websocket) && is_healthy c) (routable s) with
       | Some c => Some c
       | None => iter_min epoch_lt (routable s)
       end
   end) = Some c -> c ∈ routable s /\ best_route s RouteInteractive c.
Proof.
  destruct (List.find (fun c => is_webrtc c && _) _) as [a|] eqn:Ha.
  { intros [= <-]. apply find_some in Ha as [Hin Ha]. apply list_elem_of_In in Hin.
    apply andb_true_iff in Ha as [Hk Hh]. unfold is_webrtc in Hk. apply bool_decide_eq_true in Hk.
    split; [done|]. split; [done|]. intros Hall. by rewrite (Hall a Hin) in Hh. }
  assert (forall d, d ∈ routable s -> is_healthy d = true -> cr_kind d <> Webrtc) as Hnw.
  { intros d Hd Hh Hk. pose proof (proj1 (find_none_elem _ _) Ha _ Hd) as Hx. cbn in Hx. rewrite Hh, andb_true_r in Hx.
    unfold is_webrtc in Hx. by apply bool_decide_eq_false in Hx. }
  destruct (List.find (fun c => bool_decide (cr_kind c = Websocket) && _) _) as [a|] eqn:Hb.
  { intros [= <-]. apply find_some in Hb as [Hin Hb]. apply list_elem_of_In in Hin.
    apply andb_true_iff in Hb as [Hk Hh]. split; [done|]. split.
    - intros d Hd Hdh. split; [done|]. intros Hk'. by destruct (Hnw d Hd Hdh).
    - intros Hall. by rewrite (Hall a Hin) in Hh. }
  intros [Hin Hmin]%iter_min_epoch. split; [done|]. split; [|done].
  intros d Hd Hh. exfalso. pose proof (proj1 (find_none_elem _ _) Hb _ Hd) as Hx. cbn in Hx. rewrite Hh, andb_true_r in Hx.
  apply bool_decide_eq_false in Hx. pose proof (Hnw d Hd Hh). by destruct (cr_kind d).
Qed.

Lemma select_route_some s class id :
  select_route s class = Some id ->
  exists c, cr_child_attempt c = id /\ c ∈ routable s /\ best_route s class c.
Proof.
  unfold select_route. fold (routable s). destruct class.
  - destruct (routable s) as [|x l] eqn:Hl; [done|]. cbn. intros [= <-].
    destruct (control_best x l) as [Hin Hle]. eexists. split; [done|]. split; [exact Hin|].
    intros d Hd. rewrite Hl in Hd. by apply Hle.
  - pose proof (interactive_best s) as Hbest.
    destruct (List.find (fun c => is_webrtc c && is_healthy c) (routable s)) as [a|].
    { intros [= <-]. exists a. split; [done|]. by apply Hbest. }
    destruct (List.find (fun c => bool_decide (cr_kind c = Websocket) && is_healthy c) (routable s)) as [a|].
    { intros [= <-]. exists a. split; [done|]. by apply Hbest. }
    destruct (iter_min epoch_lt (routable s)) as [a|]; [|done]. intros [= <-]. exists a. split; [done|]. by apply Hbest.
  - destruct (filter _ (routable s)) as [|x l] eqn:Hl.
    + intros H. destruct (iter_min epoch_lt (routable s)) as [c|] eqn:Hc; [|done]. injection H as <-.
      apply iter_min_epoch in Hc as [Hin Hmin]. exists c. split; [done|]. split; [done|]. split; [|done].
      intros d Hd Hh. exfalso. assert (d ∈ filter (fun c => is_healthy c = true) (routable s)) as Hf by (by apply list_elem_of_filter).
      rewrite Hl in Hf. by apply not_elem_of_nil in Hf.
    + cbn. intros [= <-]. destruct (bulk_best x l) as [Hin Hge]. rewrite <- Hl in Hin, Hge.
      apply list_elem_of_filter in Hin as [Hh Hin]. eexists. split; [done|]. split; [done|]. split.
      * intros d Hd Hdh. split; [done|]. apply Hge. by apply list_elem_of_filter.
      * intros Hall. by rewrite (Hall _ Hin) in Hh.
Qed.

Lemma select_route_none s class : select_route s class = None -> routable s = [].
Proof.
  unfold select_route. fold (routable s). destruct class.
  - by destruct (routable s).
  - repeat case_match; try done. by destruct (routable s).
  - destruct (filter _ (routable s)); [by destruct (routable s)|done].
Qed.

(** Routing picks a current child whenever there is one, and the right one for the
    class: for control a healthy child if any, of lowest epoch; for interactive work a
    healthy WebRTC child, else a healthy WebSocket child, else the lowest epoch; for bulk
    a healthy child with the most writable bytes (ties to WebSocket, then the lower
    epoch), else the lowest epoch. A delivery already assigned to a current child stays
    with it, and a refusal means no child is current. *)
Theorem route_exact (s s' : SelectionState) (delivery : string) (class : RoutingClass)
    (acts : list SelectionAction) :
  reduce_route_request s delivery class = Ok (s', acts) ->
  (exists id c, ts_delivery_assignments s !! delivery = Some id /\ find_child s id = Some c /\
     is_routed_current c = true /\ acts = [ActRouteDelivery delivery id] /\ s' = s) \/
  (exists c, c ∈ routable s /\ best_route s class c /\ acts = [ActRouteDelivery delivery (cr_child_attempt c)] /\
     ts_delivery_assignments s' = <[delivery := cr_child_attempt c]> (ts_delivery_assignments s) /\
     ts_children s' = ts_children s) \/
  (routable s = [] /\ acts = [ActDeny PolicyDenied] /\ s' = s).
Proof.
  unfold reduce_route_request. intros H.
  destruct (ts_delivery_assignments s !! delivery) as [id|] eqn:Hd; cbn in H.
  1: destruct (find_child s id) as [c|] eqn:Hf; cbn in H.
  1: destruct (is_routed_current c) eqn:Hc; [injection H as <- <-; left; by exists id, c|].
  all: right; destruct (select_route s class) as [a|] eqn:Hs;
    [apply select_route_some in Hs as (x & <- & Hx & Hb); injection H as <- <-; left; by exists x
    |apply select_route_none in Hs; injection H as <- <-; by right].
Qed.

(** ** Concrete runs *)

Definition full_auth : TransportAuthorization :=
  mkAuthorization true true ConsentDirectAllowed PrivacyDirectAllowed true true true true.
Definition auto_state : SelectionState := selection_new full_auth PreferAuto (replicate 16 66) 10.

(** A security failure is not terminal. After the only child fails with one, the
    parent counts as failed but the deadline timer is still armed, and when it fires the
    reducer falls back to a WebSocket child; and a TURN replacement that failed with one
    becomes current, active and routable when the cutover is acknowledged. *)
Theorem selection_security_not_terminal :
  (exists s acts s', selection_run auto_state [InStartPlan; InChildSecurityFailure 1] = Ok (s, acts) /\
     ts_parent_state s = PsFailed /\
     selection_reduce s (InDeadlineFired 0) = Ok (s', [ActStartChild 2 Websocket 2])) /\
  (exists s acts c, selection_run auto_state
       [InStartPlan; InChildActive 1 0; InCredentialRotationLead 0; InChildSecurityFailure 2;
        InSupervisorCutoverAck 1 2] = Ok (s, acts) /\
     find_child s 2 = Some c /\ cr_cancelled c = true /\ is_routed_current c = true).
Proof.
  split; (do 3 eexists; split; [vm_compute; reflexivity|]).
  - split; [vm_compute; reflexivity|vm_compute; reflexivity].
  - split; [vm_compute; reflexivity|]. split; vm_compute; reflexivity.
Qed.

(** The WebRTC child is unreachable, the fallback starts, both close, both retry. *)
Definition demo_inputs : list SelectionInput :=
  [InChildReachability 1 IceTimeout; InChildActive 2 0; InChildClosed 2 false; InRetryDelayFired 0;
   InChildClosed 3 false; InChildReachability 1 IceTimeout; InDeadlineFired 0].

Lemma selection_starts_authorized_witness :
  exists s acts, selection_run auto_state (InStartPlan :: demo_inputs) = Ok (s, acts) /\
    starts acts = [(1, Webrtc, 1); (2, Websocket, 2); (3, Websocket, 3)] /\
    Forall (fun st => kind_authorized full_auth PreferAuto st.1.2) (starts acts).
Proof.
  do 2 eexists. split; [vm_compute; reflexivity|]. split; [reflexivity|].
  eapply (selection_starts_authorized full_auth PreferAuto (replicate 16 66) 10 (InStartPlan :: demo_inputs)).
  vm_compute. reflexivity.
Defined.

Lemma selection_pending_capped_witness :
  exists s acts, selection_run auto_state (InStartPlan :: demo_inputs) = Ok (s, acts) /\
    count_ordinary_pending s <= MAX_ORDINARY_PENDING_CHILDREN.
Proof.
  do 2 eexists. split; [vm_compute; reflexivity|].
  eapply (selection_pending_capped full_auth PreferAuto (replicate 16 66) 10 demo_inputs).
  - vm_compute. reflexivity.
  - unfold demo_inputs. set_solver.
Defined.

Lemma selection_establishment_bounded_witness :
  exists s acts, selection_run auto_state (InStartPlan :: demo_inputs) = Ok (s, acts) /\
    zlen (starts acts) <= MAX_RESERVATIONS_PER_TRAIN.
Proof.
  do 2 eexists. split; [vm_compute; reflexivity|].
  eapply (selection_establishment_bounded full_auth PreferAuto (replicate 16 66) 10 demo_inputs).
  - vm_compute. reflexivity.
  - unfold demo_inputs. repeat constructor.
Defined.

(** The state a run from [auto_state] ends in. *)
Definition state_after (inputs : list SelectionInput) : SelectionState :=
  match selection_run auto_state inputs with Ok (s, _) => s | _ => auto_state end.

Lemma selection_cancel_final_witness :
  selection_run (state_after [InStartPlan; InCancel]) [InDeadlineFired 0; InChildActive 1 0] =
    Ok (state_after [InStartPlan; InCancel], [ActInert; ActInert]) /\
  wound_down (state_after [InStartPlan; InCancel]).
Proof.
  split; [vm_compute; reflexivity|].
  apply (selection_cancel_final (state_after [InStartPlan]) (state_after [InStartPlan; InCancel])
           (state_after [InStartPlan; InCancel]) InCancel [InDeadlineFired 0; InChildActive 1 0]
           [ActCancelChild 1; ActParentTransition PsCancelled] [ActInert; ActInert]).
  - vm_compute. reflexivity.
  - left. reflexivity.
  - vm_compute. reflexivity.
  - vm_compute. reflexivity.
Defined.

Lemma selection_cancelled_never_routed_witness :
  exists s acts c, selection_run auto_state [InStartPlan; InChildSecurityFailure 1; InChildActive 1 0] = Ok (s, acts) /\
    c ∈ ts_children s /\ cr_cancelled c = true /\ is_routed_current c = false.
Proof.
  do 3 eexists. split; [vm_compute; reflexivity|]. split; [by left|]. split; [reflexivity|].
  eapply (selection_cancelled_never_routed full_auth PreferAuto (replicate 16 66) 10
            [InStartPlan; InChildSecurityFailure 1; InChildActive 1 0]).
  - vm_compute. reflexivity.
  - repeat constructor.
  - by left.
  - reflexivity.
Defined.

Lemma selection_total_witness :
  exists s acts, selection_run auto_state (InStartPlan :: demo_inputs) = Ok (s, acts).
Proof.
  apply (selection_total full_auth PreferAuto (replicate 16 66) 10).
  - unfold demo_inputs. repeat constructor.
  - vm_compute. reflexivity.
Defined.

(** Two healthy children with the same writable bytes: bulk goes to the WebSocket one. *)
Definition two_paths : list SelectionInput :=
  [InStartPlan; InChildActive 1 0; InRequestSecondChild NetworkHandoff 0; InChildActive 2 0;
   InWebrtcProbe 1 true 0; InWebsocketAckProgress 2 0 0 0].
Lemma route_exact_witness :
  reduce_route_request (state_after two_paths) "d" RouteBulk =
    Ok (state_after (two_paths ++ [InRouteRequest "d" RouteBulk]), [ActRouteDelivery "d" 2]) /\
  exists c, c ∈ routable (state_after two_paths) /\ best_route (state_after two_paths) RouteBulk c.
Proof.
  split; [vm_compute; reflexivity|].
  destruct (route_exact (state_after two_paths) (state_after (two_paths ++ [InRouteRequest "d" RouteBulk])) "d"
              RouteBulk [ActRouteDelivery "d" 2]) as [(id & c & H & _)|[(c & Hc & Hb & _)|(_ & H & _)]].
  - vm_compute. reflexivity.
  - vm_compute in H. discriminate.
  - exists c. split; [exact Hc|exact Hb].
  - discriminate.
Defined.
