(* ===== verification/Budget.v ===== *)
(** Delegation budgets ([cockpit-config/src/config/delegation_budget.rs] and
    [cockpit-core/src/engine/delegation_budget.rs]): how spend ceilings are resolved
    from their configuration layers, and the hierarchical ledger that agents and their
    delegates charge rounds, tokens and cost against.

    A [BudgetPool] is three [Arc<Mutex<_>>]s that its clones, shares and allotted
    children alias, so the model has a heap: a pool is three locations, and a method
    reads and writes the heap.  A location the heap lacks gives [Panic]; that it never
    happens is part of the type invariant.  A method holds its locks from start to end
    and is one atomic step, [extend_rounds] excepted, which is two.

    [Instant] and [Duration] are nanoseconds; [now k] is the [k]-th reading of the clock
    within a call. *)

From S2P Require Import Prelude.
From stdpp Require Import options.
Set Warnings "-clear-no-such-hyp".

(** ** Configuration layers *)

(** config/delegation_budget.rs:18-18 DEFAULT_MAX_ROUNDS. *)
Definition DEFAULT_MAX_ROUNDS : Z := 32.
(** config/delegation_budget.rs:20-20 DEFAULT_MAX_INPUT_TOKENS. *)
Definition DEFAULT_MAX_INPUT_TOKENS : Z := 1000000.
(** config/delegation_budget.rs:22-22 DEFAULT_MAX_OUTPUT_TOKENS. *)
Definition DEFAULT_MAX_OUTPUT_TOKENS : Z := 250000.
(** config/delegation_budget.rs:24-24 DEFAULT_MAX_COST_MICROUSD. *)
Definition DEFAULT_MAX_COST_MICROUSD : Z := 10000000.
(** config/delegation_budget.rs:26-26 DEFAULT_MAX_WALL_CLOCK_SECS. *)
Definition DEFAULT_MAX_WALL_CLOCK_SECS : Z := 30 * 60.
(** config/delegation_budget.rs:28-28 DEFAULT_SCHEDULE_RUN_MAX_ROUNDS. *)
Definition DEFAULT_SCHEDULE_RUN_MAX_ROUNDS : Z := 8.
(** config/delegation_budget.rs:31-31 DEFAULT_COMPACT_NO_PROGRESS_LIMIT. *)
Definition DEFAULT_COMPACT_NO_PROGRESS_LIMIT : Z := 3.
(** config/delegation_budget.rs:33-33 DEFAULT_MAX_RETRIES_PER_TURN. *)
Definition DEFAULT_MAX_RETRIES_PER_TURN : Z := 8.

(** config/delegation_budget.rs:37-41 SpendLimit. *)
Inductive SpendLimit := Unlimited | Finite (n : Z).

(** [u32::try_from(n).unwrap_or(u32::MAX)] on a [u64]. *)
Definition clamp_u32 (n : Z) : Z := if n <=? U32_MAX then n else U32_MAX.
(** [Duration::from_secs]. *)
Definition from_secs (n : Z) : Z := n * 1000000000.
(** [Duration::as_secs]. *)
Definition as_secs (d : Z) : Z := d / 1000000000.

(** config/delegation_budget.rs:44-49 SpendLimit::finite_u32. *)
Definition finite_u32 (l : SpendLimit) : option Z :=
  match l with Unlimited => None | Finite n => Some (clamp_u32 n) end.
(** config/delegation_budget.rs:51-56 SpendLimit::finite_u64. *)
Definition finite_u64 (l : SpendLimit) : option Z :=
  match l with Unlimited => None | Finite n => Some n end.

(** The double quotation mark. *)
Definition dquote : string := String (Ascii.ascii_of_nat 34) EmptyString.

(** A JSON scalar as serde hands it to a visitor. *)
Inductive json_scalar := JStr (s : string) | JU64 (n : Z) | JI64 (n : Z).

(** [u8::to_ascii_lowercase] and [str::eq_ignore_ascii_case]. *)
Definition ascii_lower (a : Ascii.ascii) : Ascii.ascii :=
  let n := Ascii.nat_of_ascii a in
  if (65 <=? n)%nat && (n <=? 90)%nat then Ascii.ascii_of_nat (n + 32) else a.
Fixpoint eq_ignore_ascii_case (a b : string) : bool :=
  match a, b with
  | EmptyString, EmptyString => true
  | String x a, String y b => Ascii.eqb (ascii_lower x) (ascii_lower y) && eq_ignore_ascii_case a b
  | _, _ => false
  end.

(** config/delegation_budget.rs:60-65 SpendLimit::serialize. *)
Definition spend_limit_serialize (l : SpendLimit) : json_scalar :=
  match l with Unlimited => JStr "unlimited" | Finite n => JU64 n end.
(** config/delegation_budget.rs:83-103 SpendLimitVisitor::visit_str. *)
Definition spend_limit_visit (j : json_scalar) : result string SpendLimit :=
  match j with
  | JStr value =>
      if eq_ignore_ascii_case value "unlimited" then Ok Unlimited
      else Err ("expected " +:+ dquote +:+ "unlimited" +:+ dquote +:+ " or a non-negative integer")
  | JU64 value => Ok (Finite value)
  | JI64 value => if value <? 0 then Err "spend limit cannot be negative" else Ok (Finite value)
  end.

(** config/delegation_budget.rs:107-120 DelegationBudgetSpec. *)
Record DelegationBudgetSpec := mkSpec {
  sp_max_rounds : option SpendLimit;
  sp_max_input_tokens : option SpendLimit;
  sp_max_output_tokens : option SpendLimit;
  sp_max_cost_microusd : option SpendLimit;
  sp_max_wall_clock_secs : option SpendLimit }.

(** config/delegation_budget.rs:164-181 DelegationBudgetConfig. *)
Record DelegationBudgetConfig := mkBudgetConfig {
  bc_max_rounds : option SpendLimit;
  bc_max_input_tokens : option SpendLimit;
  bc_max_output_tokens : option SpendLimit;
  bc_max_cost_microusd : option SpendLimit;
  bc_max_wall_clock_secs : option SpendLimit;
  bc_agents : gmap string DelegationBudgetSpec;
  bc_schedule_per_run : DelegationBudgetSpec }.

(** config/delegation_budget.rs:214-224 ResolvedDelegationBudget. *)
Record ResolvedDelegationBudget := mkResolved {
  rb_max_rounds : option Z;
  rb_max_input_tokens : option Z;
  rb_max_output_tokens : option Z;
  rb_max_cost_microusd : option Z;
  rb_max_wall_clock : option Z;
  rb_cost_ceiling_configured : bool }.

(** config/delegation_budget.rs:299-306 BudgetSpend. *)
Record BudgetSpend := mkSpend {
  bs_rounds : Z; bs_input_tokens : Z; bs_output_tokens : Z; bs_cost_microusd : Z; bs_elapsed : Z }.

(** [Option::is_none], and [matches!(l, Some(SpendLimit::Unlimited))]. *)
Definition is_none {A} (o : option A) : bool := match o with None => true | Some _ => false end.
Definition is_opt_in (o : option SpendLimit) : bool :=
  match o with Some Unlimited => true | _ => false end.

(** config/delegation_budget.rs:123-129 DelegationBudgetSpec::is_empty. *)
Definition spec_is_empty (s : DelegationBudgetSpec) : bool :=
  is_none (sp_max_rounds s) && is_none (sp_max_input_tokens s) && is_none (sp_max_output_tokens s) &&
  is_none (sp_max_cost_microusd s) && is_none (sp_max_wall_clock_secs s).
(** config/delegation_budget.rs:131-139 DelegationBudgetSpec::unlimited. *)
Definition spec_unlimited : DelegationBudgetSpec :=
  mkSpec (Some Unlimited) (Some Unlimited) (Some Unlimited) (Some Unlimited) (Some Unlimited).
(** config/delegation_budget.rs:141-147 DelegationBudgetSpec::is_unlimited. *)
Definition spec_is_unlimited (s : DelegationBudgetSpec) : bool :=
  is_opt_in (sp_max_rounds s) && is_opt_in (sp_max_input_tokens s) && is_opt_in (sp_max_output_tokens s) &&
  is_opt_in (sp_max_cost_microusd s) && is_opt_in (sp_max_wall_clock_secs s).

(** config/delegation_budget.rs:308-314 overlay_u32. *)
Definition overlay_u32 (overlay : option SpendLimit) (base : option Z) : option Z :=
  match overlay with None => base | Some Unlimited => None | Some (Finite n) => Some (clamp_u32 n) end.
(** config/delegation_budget.rs:316-322 overlay_u64. *)
Definition overlay_u64 (overlay : option SpendLimit) (base : option Z) : option Z :=
  match overlay with None => base | Some Unlimited => None | Some (Finite n) => Some n end.
(** config/delegation_budget.rs:324-330 overlay_duration. *)
Definition overlay_duration (overlay : option SpendLimit) (base : option Z) : option Z :=
  match overlay with None => base | Some Unlimited => None | Some (Finite n) => Some (from_secs n) end.

(** config/delegation_budget.rs:149-159 DelegationBudgetSpec::overlay. *)
Definition spec_overlay (s : DelegationBudgetSpec) (base : ResolvedDelegationBudget) : ResolvedDelegationBudget :=
  mkResolved
    (overlay_u32 (sp_max_rounds s) (rb_max_rounds base))
    (overlay_u64 (sp_max_input_tokens s) (rb_max_input_tokens base))
    (overlay_u64 (sp_max_output_tokens s) (rb_max_output_tokens base))
    (overlay_u64 (sp_max_cost_microusd s) (rb_max_cost_microusd base))
    (overlay_duration (sp_max_wall_clock_secs s) (rb_max_wall_clock base))
    (rb_cost_ceiling_configured base || negb (is_none (sp_max_cost_microusd s))).

(** config/delegation_budget.rs:184-192 DelegationBudgetConfig::is_empty. *)
Definition config_is_empty (c : DelegationBudgetConfig) : bool :=
  is_none (bc_max_rounds c) && is_none (bc_max_input_tokens c) && is_none (bc_max_output_tokens c) &&
  is_none (bc_max_cost_microusd c) && is_none (bc_max_wall_clock_secs c) &&
  bool_decide (bc_agents c = ∅) && spec_is_empty (bc_schedule_per_run c).
(** config/delegation_budget.rs:194-202 DelegationBudgetConfig::global_spec. *)
Definition global_spec (c : DelegationBudgetConfig) : DelegationBudgetSpec :=
  mkSpec (bc_max_rounds c) (bc_max_input_tokens c) (bc_max_output_tokens c)
         (bc_max_cost_microusd c) (bc_max_wall_clock_secs c).
(** config/delegation_budget.rs:204-210 DelegationBudgetConfig::set_global_spec. *)
Definition set_global_spec (c : DelegationBudgetConfig) (s : DelegationBudgetSpec) : DelegationBudgetConfig :=
  mkBudgetConfig (sp_max_rounds s) (sp_max_input_tokens s) (sp_max_output_tokens s)
    (sp_max_cost_microusd s) (sp_max_wall_clock_secs s) (bc_agents c) (bc_schedule_per_run c).

(** config/delegation_budget.rs:228-237 ResolvedDelegationBudget::defaults. *)
Definition resolved_defaults : ResolvedDelegationBudget :=
  mkResolved (Some DEFAULT_MAX_ROUNDS) (Some DEFAULT_MAX_INPUT_TOKENS) (Some DEFAULT_MAX_OUTPUT_TOKENS)
    (Some DEFAULT_MAX_COST_MICROUSD) (Some (from_secs DEFAULT_MAX_WALL_CLOCK_SECS)) false.
(** config/delegation_budget.rs:240-249 ResolvedDelegationBudget::schedule_run_defaults. *)
Definition schedule_run_defaults : ResolvedDelegationBudget :=
  mkResolved (Some DEFAULT_SCHEDULE_RUN_MAX_ROUNDS) (Some DEFAULT_MAX_INPUT_TOKENS)
    (Some DEFAULT_MAX_OUTPUT_TOKENS) (Some DEFAULT_MAX_COST_MICROUSD)
    (Some (from_secs DEFAULT_MAX_WALL_CLOCK_SECS)) false.
(** config/delegation_budget.rs:253-262 ResolvedDelegationBudget::unlimited. *)
Definition resolved_unlimited : ResolvedDelegationBudget := mkResolved None None None None None false.
(** config/delegation_budget.rs:264-270 ResolvedDelegationBudget::is_unlimited. *)
Definition is_unlimited (b : ResolvedDelegationBudget) : bool :=
  is_none (rb_max_rounds b) && is_none (rb_max_input_tokens b) && is_none (rb_max_output_tokens b) &&
  is_none (rb_max_cost_microusd b) && is_none (rb_max_wall_clock b).

(** config/delegation_budget.rs:332-339 min_opt. *)
Definition min_opt (a b : option Z) : option Z :=
  match a, b with
  | None, None => None
  | Some a, None => Some a
  | None, Some b => Some b
  | Some a, Some b => Some (Z.min a b)
  end.
(** config/delegation_budget.rs:273-282 ResolvedDelegationBudget::intersect. *)
Definition intersect (a b : ResolvedDelegationBudget) : ResolvedDelegationBudget :=
  mkResolved
    (min_opt (rb_max_rounds a) (rb_max_rounds b))
    (min_opt (rb_max_input_tokens a) (rb_max_input_tokens b))
    (min_opt (rb_max_output_tokens a) (rb_max_output_tokens b))
    (min_opt (rb_max_cost_microusd a) (rb_max_cost_microusd b))
    (min_opt (rb_max_wall_clock a) (rb_max_wall_clock b))
    (rb_cost_ceiling_configured a || rb_cost_ceiling_configured b).

(** config/delegation_budget.rs:341-346 remaining_u32. *)
Definition remaining_u32 (ceiling : option Z) (spent : Z) : option Z :=
  (fun m => clamp_u32 (saturating_sub m spent)) <$> ceiling.
(** config/delegation_budget.rs:348-350 remaining_u64. *)
Definition remaining_u64 (ceiling : option Z) (spent : Z) : option Z :=
  (fun m => saturating_sub m spent) <$> ceiling.
(** config/delegation_budget.rs:352-354 remaining_duration. *)
Definition remaining_duration (ceiling : option Z) (spent : Z) : option Z :=
  (fun m => saturating_sub m spent) <$> ceiling.
(** config/delegation_budget.rs:286-295 ResolvedDelegationBudget::remaining_after. *)
Definition remaining_after (b : ResolvedDelegationBudget) (spent : BudgetSpend) : ResolvedDelegationBudget :=
  mkResolved
    (remaining_u32 (rb_max_rounds b) (bs_rounds spent))
    (remaining_u64 (rb_max_input_tokens b) (bs_input_tokens spent))
    (remaining_u64 (rb_max_output_tokens b) (bs_output_tokens spent))
    (remaining_u64 (rb_max_cost_microusd b) (bs_cost_microusd spent))
    (remaining_duration (rb_max_wall_clock b) (bs_elapsed spent))
    (rb_cost_ceiling_configured b).

Definition set_max_rounds (b : ResolvedDelegationBudget) (m : option Z) : ResolvedDelegationBudget :=
  mkResolved m (rb_max_input_tokens b) (rb_max_output_tokens b) (rb_max_cost_microusd b)
    (rb_max_wall_clock b) (rb_cost_ceiling_configured b).
Definition overlay_opt (s : option DelegationBudgetSpec) (b : ResolvedDelegationBudget) : ResolvedDelegationBudget :=
  match s with Some s => spec_overlay s b | None => b end.

(** config/delegation_budget.rs:361-383 resolve_delegation_budget. *)
Definition resolve_delegation_budget (config : DelegationBudgetConfig) (agent_name : string)
    (agent_runtime per_delegation : option DelegationBudgetSpec) (max_primary_rounds_overlay : Z)
    : ResolvedDelegationBudget :=
  let resolved := resolved_defaults in
  let resolved := spec_overlay (global_spec config) resolved in
  let resolved :=
    if is_none (bc_max_rounds config) && (0 <? max_primary_rounds_overlay)
    then set_max_rounds resolved (Some max_primary_rounds_overlay) else resolved in
  let resolved := overlay_opt (bc_agents config !! agent_name) resolved in
  let resolved := overlay_opt agent_runtime resolved in
  overlay_opt per_delegation resolved.
(** config/delegation_budget.rs:391-395 resolve_schedule_run_budget. *)
Definition resolve_schedule_run_budget (config : DelegationBudgetConfig) : ResolvedDelegationBudget :=
  let resolved := schedule_run_defaults in
  let resolved := spec_overlay (global_spec config) resolved in
  spec_overlay (bc_schedule_per_run config) resolved.

(** ** Charges and guards *)

(** engine/delegation_budget.rs:122-129 BudgetDimension. *)
Inductive BudgetDimension := Rounds | InputTokens | OutputTokens | Cost | WallClock.
#[export] Instance dimension_eq_dec : EqDecision BudgetDimension.
Proof. solve_decision. Defined.
(** engine/delegation_budget.rs:132-140 BudgetDimension::as_str. *)
Definition dimension_as_str (d : BudgetDimension) : string :=
  match d with
  | Rounds => "rounds" | InputTokens => "input_tokens" | OutputTokens => "output_tokens"
  | Cost => "cost" | WallClock => "wall_clock"
  end.

(** presentation.rs:78-84 TokenUsage. *)
Record TokenUsage := mkUsage {
  tu_input_tokens : Z; tu_output_tokens : Z; tu_cached_input_tokens : Z; tu_cache_creation_input_tokens : Z }.

(** engine/delegation_budget.rs:164-171 BudgetCharge. *)
Record BudgetCharge := mkCharge {
  ch_rounds : Z; ch_input_tokens : Z; ch_output_tokens : Z; ch_cost_microusd : Z; ch_unpriced_cost : bool }.
#[export] Instance charge_eq_dec : EqDecision BudgetCharge.
Proof. solve_decision. Defined.

Definition charge_default : BudgetCharge := mkCharge 0 0 0 0 false.
(** engine/delegation_budget.rs:174-179 BudgetCharge::round. *)
Definition charge_one_round : BudgetCharge := mkCharge 1 0 0 0 false.
(** engine/delegation_budget.rs:181-195 BudgetCharge::from_usage. *)
Definition from_usage (usage : TokenUsage) : BudgetCharge :=
  let input_tokens := saturating_add (tu_input_tokens usage) (tu_cache_creation_input_tokens usage) in
  let output_tokens := tu_output_tokens usage in
  mkCharge 0 input_tokens output_tokens 0 ((0 <? input_tokens) || (0 <? output_tokens)).
(** engine/delegation_budget.rs:197-201 BudgetCharge::with_cost. *)
Definition with_cost (c : BudgetCharge) (cost_microusd : Z) : BudgetCharge :=
  mkCharge (ch_rounds c) (ch_input_tokens c) (ch_output_tokens c) cost_microusd false.
(** engine/delegation_budget.rs:207-209 BudgetCharge::is_empty. *)
Definition charge_is_empty (c : BudgetCharge) : bool := bool_decide (c = charge_default).
(** engine/delegation_budget.rs:213-219 BudgetCharge::add_assign. *)
Definition charge_add (c rhs : BudgetCharge) : BudgetCharge :=
  mkCharge (saturating_add (ch_rounds c) (ch_rounds rhs))
    (saturating_add (ch_input_tokens c) (ch_input_tokens rhs))
    (saturating_add (ch_output_tokens c) (ch_output_tokens rhs))
    (saturating_add (ch_cost_microusd c) (ch_cost_microusd rhs))
    (ch_unpriced_cost c || ch_unpriced_cost rhs).

(** engine/delegation_budget.rs:224-231 BudgetSnapshot. *)
Record BudgetSnapshot := mkSnapshot {
  sn_ceiling : ResolvedDelegationBudget;
  sn_local_ceiling : ResolvedDelegationBudget;
  sn_spent : BudgetSpend;
  sn_local_spent : BudgetSpend;
  sn_unlimited : bool }.
(** engine/delegation_budget.rs:234-238 BudgetSnapshot::remaining. *)
Definition snapshot_remaining (s : BudgetSnapshot) : ResolvedDelegationBudget :=
  intersect (remaining_after (sn_ceiling s) (sn_spent s))
            (remaining_after (sn_local_ceiling s) (sn_local_spent s)).

(** engine/delegation_budget.rs:145-149 BudgetExhaustion. *)
Record BudgetExhaustion := mkExhaustion { ex_dimension : BudgetDimension; ex_snapshot : BudgetSnapshot }.
(** engine/delegation_budget.rs:152-154 BudgetExhaustion::message. *)
Definition exhaustion_message (e : BudgetExhaustion) : string :=
  "budget exhausted (" +:+ dimension_as_str (ex_dimension e) +:+ ")".

(** engine/delegation_budget.rs:275-279 CompactProgressGuard. *)
Record CompactProgressGuard := mkCompactGuard { cg_consecutive_no_progress : Z; cg_max_consecutive : Z }.
(** engine/delegation_budget.rs:334-338 CompactLoopExhausted. *)
Record CompactLoopExhausted := mkCompactExhausted { cl_consecutive : Z; cl_max_consecutive : Z }.
(** engine/delegation_budget.rs:288-293 CompactProgressGuard::new. *)
Definition compact_guard_new (max_consecutive : Z) : CompactProgressGuard :=
  mkCompactGuard 0 (Z.max max_consecutive 1).
(** engine/delegation_budget.rs:301-307 CompactProgressGuard::replay_compaction. *)
Definition replay_compaction (g : CompactProgressGuard) (forward_progress : bool) : CompactProgressGuard :=
  if forward_progress then mkCompactGuard 0 (cg_max_consecutive g)
  else mkCompactGuard (saturating_add_u32 (cg_consecutive_no_progress g) 1) (cg_max_consecutive g).
(** engine/delegation_budget.rs:313-331 CompactProgressGuard::record. *)
Definition compact_record (g : CompactProgressGuard) (tokens_after : Z) (forward_progress : bool)
    : CompactProgressGuard * result CompactLoopExhausted unit :=
  if forward_progress then (mkCompactGuard 0 (cg_max_consecutive g), Ok tt) else
  let g := mkCompactGuard (saturating_add_u32 (cg_consecutive_no_progress g) 1) (cg_max_consecutive g) in
  if cg_max_consecutive g <=? cg_consecutive_no_progress g
  then (g, Err (mkCompactExhausted (cg_consecutive_no_progress g) (cg_max_consecutive g)))
  else (g, Ok tt).

(** engine/delegation_budget.rs:350-354 RetryPacingGuard. *)
Record RetryPacingGuard := mkRetryGuard { rg_retries_this_turn : Z; rg_max_retries_per_turn : Z }.
(** engine/delegation_budget.rs:363-368 RetryPacingGuard::new. *)
Definition retry_guard_new (max_retries_per_turn : Z) : RetryPacingGuard :=
  mkRetryGuard 0 (Z.max max_retries_per_turn 1).
(** engine/delegation_budget.rs:374-380 RetryPacingGuard::allow_retry. *)
Definition guard_allow_retry (g : RetryPacingGuard) : RetryPacingGuard * bool :=
  if rg_max_retries_per_turn g <=? rg_retries_this_turn g then (g, false)
  else (mkRetryGuard (saturating_add_u32 (rg_retries_this_turn g) 1) (rg_max_retries_per_turn g), true).
(** engine/delegation_budget.rs:382-384 RetryPacingGuard::reset_turn. *)
Definition guard_reset_turn (g : RetryPacingGuard) : RetryPacingGuard :=
  mkRetryGuard 0 (rg_max_retries_per_turn g).

(** ** The ledger and the heap *)

(** engine/delegation_budget.rs:429-436 SharedLedger. *)
Record SharedLedger := mkLedger {
  sl_ceiling : ResolvedDelegationBudget;
  sl_spent_rounds : Z; sl_spent_input_tokens : Z; sl_spent_output_tokens : Z; sl_spent_cost_microusd : Z;
  sl_started_at : Z }.
(** engine/delegation_budget.rs:438-446 LocalState. *)
Record LocalState := mkLocal {
  lc_ceiling : ResolvedDelegationBudget;
  lc_spent_rounds : Z; lc_spent_input_tokens : Z; lc_spent_output_tokens : Z; lc_spent_cost_microusd : Z;
  lc_started_at : Z;
  lc_compact_guard : CompactProgressGuard }.
(** engine/delegation_budget.rs:454-459 BudgetPool. *)
Record BudgetPool := mkPool { bp_ledger : Z; bp_local : Z; bp_retry_guard : Z }.

(** What the [Arc]s point to; [hp_next] is the next free location. *)
Record Heap := mkHeap {
  hp_ledgers : gmap Z SharedLedger;
  hp_locals : gmap Z LocalState;
  hp_retries : gmap Z RetryPacingGuard;
  hp_next : Z }.
Definition empty_heap : Heap := mkHeap ∅ ∅ ∅ 0.
(** [Arc::new(Mutex::new(x))]. *)
Definition alloc_ledger (h : Heap) (x : SharedLedger) : Heap * Z :=
  (mkHeap (<[hp_next h := x]> (hp_ledgers h)) (hp_locals h) (hp_retries h) (hp_next h + 1), hp_next h).
Definition alloc_local (h : Heap) (x : LocalState) : Heap * Z :=
  (mkHeap (hp_ledgers h) (<[hp_next h := x]> (hp_locals h)) (hp_retries h) (hp_next h + 1), hp_next h).
Definition alloc_retry (h : Heap) (x : RetryPacingGuard) : Heap * Z :=
  (mkHeap (hp_ledgers h) (hp_locals h) (<[hp_next h := x]> (hp_retries h)) (hp_next h + 1), hp_next h).
(** Assignment through a lock guard. *)
Definition set_ledger (h : Heap) (l : Z) (x : SharedLedger) : Heap :=
  mkHeap (<[l := x]> (hp_ledgers h)) (hp_locals h) (hp_retries h) (hp_next h).
Definition set_local (h : Heap) (l : Z) (x : LocalState) : Heap :=
  mkHeap (hp_ledgers h) (<[l := x]> (hp_locals h)) (hp_retries h) (hp_next h).
Definition set_retry (h : Heap) (l : Z) (x : RetryPacingGuard) : Heap :=
  mkHeap (hp_ledgers h) (hp_locals h) (<[l := x]> (hp_retries h)) (hp_next h).
(** [lock_or_recover]. *)
Definition lock {E A} (m : gmap Z A) (l : Z) : result E A :=
  match m !! l with Some x => Ok x | None => Panic end.

(** [Instant::elapsed]: zero when the clock reads earlier than the start. *)
Definition elapsed (started_at now : Z) : Z := Z.max 0 (now - started_at).

Definition ledger_new (ceiling : ResolvedDelegationBudget) (now : Z) : SharedLedger :=
  mkLedger ceiling 0 0 0 0 now.
Definition local_new (ceiling : ResolvedDelegationBudget) (now : Z) : LocalState :=
  mkLocal ceiling 0 0 0 0 now (compact_guard_new DEFAULT_COMPACT_NO_PROGRESS_LIMIT).
Definition ledger_set_ceiling (x : SharedLedger) (c : ResolvedDelegationBudget) : SharedLedger :=
  mkLedger c (sl_spent_rounds x) (sl_spent_input_tokens x) (sl_spent_output_tokens x)
    (sl_spent_cost_microusd x) (sl_started_at x).
Definition local_set_ceiling (x : LocalState) (c : ResolvedDelegationBudget) : LocalState :=
  mkLocal c (lc_spent_rounds x) (lc_spent_input_tokens x) (lc_spent_output_tokens x)
    (lc_spent_cost_microusd x) (lc_started_at x) (lc_compact_guard x).
Definition local_set_guard (x : LocalState) (g : CompactProgressGuard) : LocalState :=
  mkLocal (lc_ceiling x) (lc_spent_rounds x) (lc_spent_input_tokens x) (lc_spent_output_tokens x)
    (lc_spent_cost_microusd x) (lc_started_at x) g.

(** engine/delegation_budget.rs:396-400 TurnRetryBudget::new. *)
Definition turn_retry_new (h : Heap) (max_retries_per_turn : Z) : Heap * Z :=
  alloc_retry h (retry_guard_new max_retries_per_turn).

(** engine/delegation_budget.rs:462-484 BudgetPool::new. *)
Definition pool_new (h : Heap) (now : nat -> Z) (ceiling : ResolvedDelegationBudget) : Heap * BudgetPool :=
  let t := now 0%nat in
  let '(h, ledger) := alloc_ledger h (ledger_new ceiling t) in
  let '(h, local) := alloc_local h (local_new ceiling t) in
  let '(h, retry) := turn_retry_new h DEFAULT_MAX_RETRIES_PER_TURN in
  (h, mkPool ledger local retry).

(** engine/delegation_budget.rs:512-517 BudgetPool::remint_root. *)
Definition remint_root (h : Heap) (p : BudgetPool) (ceiling : ResolvedDelegationBudget) : result Empty_set Heap :=
  ledger ← lock (hp_ledgers h) (bp_ledger p);
  local ← lock (hp_locals h) (bp_local p);
  let h := set_ledger h (bp_ledger p) (ledger_set_ceiling ledger ceiling) in
  Ok (set_local h (bp_local p) (local_set_ceiling local ceiling)).

(** engine/delegation_budget.rs:522-528 BudgetPool::share. *)
Definition pool_share (p : BudgetPool) : BudgetPool := mkPool (bp_ledger p) (bp_local p) (bp_retry_guard p).
(** engine/delegation_budget.rs:531-533 BudgetPool::shares_ledger_with. *)
Definition shares_ledger_with (p other : BudgetPool) : bool := bp_ledger p =? bp_ledger other.
(** engine/delegation_budget.rs:537-539 BudgetPool::retry_handle. *)
Definition retry_handle (p : BudgetPool) : Z := bp_retry_guard p.

(** engine/delegation_budget.rs:717-725 spend_of_ledger. *)
Definition spend_of_ledger (x : SharedLedger) (now : Z) : BudgetSpend :=
  mkSpend (sl_spent_rounds x) (sl_spent_input_tokens x) (sl_spent_output_tokens x)
    (sl_spent_cost_microusd x) (elapsed (sl_started_at x) now).
(** engine/delegation_budget.rs:727-735 spend_of_local. *)
Definition spend_of_local (x : LocalState) (now : Z) : BudgetSpend :=
  mkSpend (lc_spent_rounds x) (lc_spent_input_tokens x) (lc_spent_output_tokens x)
    (lc_spent_cost_microusd x) (elapsed (lc_started_at x) now).

(** engine/delegation_budget.rs:564-566 BudgetPool::ceiling. *)
Definition pool_ceiling (h : Heap) (p : BudgetPool) : result Empty_set ResolvedDelegationBudget :=
  ledger ← lock (hp_ledgers h) (bp_ledger p); Ok (sl_ceiling ledger).

(** engine/delegation_budget.rs:568-578 BudgetPool::snapshot. *)
Definition pool_snapshot {E} (h : Heap) (now : nat -> Z) (p : BudgetPool) : result E BudgetSnapshot :=
  ledger ← lock (hp_ledgers h) (bp_ledger p);
  local ← lock (hp_locals h) (bp_local p);
  Ok (mkSnapshot (sl_ceiling ledger) (lc_ceiling local)
        (spend_of_ledger ledger (now 0%nat)) (spend_of_local local (now 1%nat))
        (is_unlimited (sl_ceiling ledger) && is_unlimited (lc_ceiling local))).

(** engine/delegation_budget.rs:544-562 BudgetPool::allot. *)
Definition pool_allot (h : Heap) (now : nat -> Z) (p : BudgetPool) (child_ceiling : ResolvedDelegationBudget)
    : result Empty_set (Heap * BudgetPool) :=
  snapshot ← pool_snapshot h now p;
  let remaining := snapshot_remaining snapshot in
  let local_ceiling := intersect remaining child_ceiling in
  let '(h, local) := alloc_local h (local_new local_ceiling (now 2%nat)) in
  let '(h, retry) := turn_retry_new h DEFAULT_MAX_RETRIES_PER_TURN in
  Ok (h, mkPool (bp_ledger p) local retry).

(** engine/delegation_budget.rs:737-745 project_spend. *)
Definition project_spend (spent : BudgetSpend) (c : BudgetCharge) : BudgetSpend :=
  mkSpend (saturating_add (bs_rounds spent) (ch_rounds c))
    (saturating_add (bs_input_tokens spent) (ch_input_tokens c))
    (saturating_add (bs_output_tokens spent) (ch_output_tokens c))
    (saturating_add (bs_cost_microusd spent) (ch_cost_microusd c))
    (bs_elapsed spent).

(** [Option::is_some_and]. *)
Definition is_some_and {A} (o : option A) (f : A -> bool) : bool :=
  match o with Some x => f x | None => false end.

(** engine/delegation_budget.rs:786-821 dimension_at_or_over_cap. *)
Definition dimension_at_or_over_cap (ceiling : ResolvedDelegationBudget) (spent : BudgetSpend)
    : option BudgetDimension :=
  if is_some_and (rb_max_rounds ceiling) (fun m => m <=? bs_rounds spent) then Some Rounds else
  if is_some_and (rb_max_input_tokens ceiling) (fun m => m <=? bs_input_tokens spent) then Some InputTokens else
  if is_some_and (rb_max_output_tokens ceiling) (fun m => m <=? bs_output_tokens spent) then Some OutputTokens else
  if is_some_and (rb_max_cost_microusd ceiling) (fun m => m <=? bs_cost_microusd spent) then Some Cost else
  if is_some_and (rb_max_wall_clock ceiling) (fun m => m <=? bs_elapsed spent) then Some WallClock else
  None.

(** engine/delegation_budget.rs:827-853 would_exceed. *)
Definition would_exceed (ceiling : ResolvedDelegationBudget) (spent : BudgetSpend) : option BudgetDimension :=
  if is_some_and (rb_max_rounds ceiling) (fun m => m <? bs_rounds spent) then Some Rounds else
  if is_some_and (rb_max_input_tokens ceiling) (fun m => m <? bs_input_tokens spent) then Some InputTokens else
  if is_some_and (rb_max_output_tokens ceiling) (fun m => m <? bs_output_tokens spent) then Some OutputTokens else
  if is_some_and (rb_max_cost_microusd ceiling) (fun m => m <? bs_cost_microusd spent) then Some Cost else
  None.

(** engine/delegation_budget.rs:855-857 unpriced_cost_blocked. *)
Definition unpriced_cost_blocked (ceiling : ResolvedDelegationBudget) : bool :=
  rb_cost_ceiling_configured ceiling && negb (is_none (rb_max_cost_microusd ceiling)).

(** engine/delegation_budget.rs:747-782 reject_charge. *)
Definition reject_charge (now : nat -> Z) (ledger : SharedLedger) (local : LocalState) (c : BudgetCharge)
    : option BudgetDimension :=
  let ledger_spent := spend_of_ledger ledger (now 0%nat) in
  let local_spent := spend_of_local local (now 1%nat) in
  let admission :=
    if 0 <? ch_rounds c then
      match dimension_at_or_over_cap (sl_ceiling ledger) ledger_spent with
      | Some d => Some d
      | None => dimension_at_or_over_cap (lc_ceiling local) local_spent
      end
    else None in
  match admission with Some d => Some d | None =>
  match would_exceed (sl_ceiling ledger) (project_spend ledger_spent c) with Some d => Some d | None =>
  match would_exceed (lc_ceiling local) (project_spend local_spent c) with Some d => Some d | None =>
  if ch_unpriced_cost c &&
     (unpriced_cost_blocked (sl_ceiling ledger) || unpriced_cost_blocked (lc_ceiling local))
  then Some Cost else None
  end end end.

(** The clock of the part of a call that comes after [k] readings. *)
Definition later (now : nat -> Z) (k : nat) : nat -> Z := fun i => now (k + i)%nat.

(** engine/delegation_budget.rs:585-597 BudgetPool::preflight. *)
Definition preflight (h : Heap) (now : nat -> Z) (p : BudgetPool) : result BudgetExhaustion unit :=
  ledger ← lock (hp_ledgers h) (bp_ledger p);
  local ← lock (hp_locals h) (bp_local p);
  match reject_charge now ledger local charge_one_round with
  | Some dimension =>
      snapshot ← pool_snapshot h (later now 2) p;
      Err (mkExhaustion dimension snapshot)
  | None => Ok tt
  end.

Definition ledger_add (x : SharedLedger) (c : BudgetCharge) : SharedLedger :=
  mkLedger (sl_ceiling x)
    (saturating_add (sl_spent_rounds x) (ch_rounds c))
    (saturating_add (sl_spent_input_tokens x) (ch_input_tokens c))
    (saturating_add (sl_spent_output_tokens x) (ch_output_tokens c))
    (saturating_add (sl_spent_cost_microusd x) (ch_cost_microusd c))
    (sl_started_at x).
Definition local_add (x : LocalState) (c : BudgetCharge) : LocalState :=
  mkLocal (lc_ceiling x)
    (saturating_add (lc_spent_rounds x) (ch_rounds c))
    (saturating_add (lc_spent_input_tokens x) (ch_input_tokens c))
    (saturating_add (lc_spent_output_tokens x) (ch_output_tokens c))
    (saturating_add (lc_spent_cost_microusd x) (ch_cost_microusd c))
    (lc_started_at x) (lc_compact_guard x).

(** engine/delegation_budget.rs:620-652 BudgetPool::charge. *)
Definition pool_charge (h : Heap) (now : nat -> Z) (p : BudgetPool) (c : BudgetCharge)
    : result BudgetExhaustion Heap :=
  ledger ← lock (hp_ledgers h) (bp_ledger p);
  local ← lock (hp_locals h) (bp_local p);
  match reject_charge now ledger local c with
  | Some dimension =>
      snapshot ← pool_snapshot h (later now 2) p;
      Err (mkExhaustion dimension snapshot)
  | None =>
      let h := set_ledger h (bp_ledger p) (ledger_add ledger c) in
      Ok (set_local h (bp_local p) (local_add local c))
  end.
(** engine/delegation_budget.rs:603-605 BudgetPool::charge_round. *)
Definition charge_round (h : Heap) (now : nat -> Z) (p : BudgetPool) : result BudgetExhaustion Heap :=
  pool_charge h now p charge_one_round.
(** engine/delegation_budget.rs:610-612 BudgetPool::charge_usage. *)
Definition charge_usage (h : Heap) (now : nat -> Z) (p : BudgetPool) (usage : TokenUsage)
    : result BudgetExhaustion Heap :=
  pool_charge h now p (from_usage usage).

(** engine/delegation_budget.rs:655-663 BudgetPool::record_compaction. *)
Definition record_compaction (h : Heap) (p : BudgetPool) (tokens_after : Z) (forward_progress : bool)
    : Heap * result CompactLoopExhausted unit :=
  match hp_locals h !! bp_local p with
  | None => (h, Panic)
  | Some local =>
      let '(g, r) := compact_record (lc_compact_guard local) tokens_after forward_progress in
      (set_local h (bp_local p) (local_set_guard local g), r)
  end.
(** engine/delegation_budget.rs:665-669 BudgetPool::compact_guard_consecutive. *)
Definition compact_guard_consecutive (h : Heap) (p : BudgetPool) : result Empty_set Z :=
  local ← lock (hp_locals h) (bp_local p); Ok (cg_consecutive_no_progress (lc_compact_guard local)).
(** engine/delegation_budget.rs:675-687 BudgetPool::rehydrate_subagent_compact_guard. *)
Definition rehydrate_subagent_compact_guard (h : Heap) (p : BudgetPool)
    (compaction_forward_progress : list bool) (forward_progress_since_last : bool) : result Empty_set Heap :=
  local ← lock (hp_locals h) (bp_local p);
  let g := foldl replay_compaction (lc_compact_guard local) compaction_forward_progress in
  let g := if forward_progress_since_last then replay_compaction g true else g in
  Ok (set_local h (bp_local p) (local_set_guard local g)).

(** engine/delegation_budget.rs:402-404 TurnRetryBudget::allow_retry. *)
Definition turn_allow_retry (h : Heap) (r : Z) : result Empty_set (Heap * bool) :=
  g ← lock (hp_retries h) r;
  let '(g, b) := guard_allow_retry g in Ok (set_retry h r g, b).
(** engine/delegation_budget.rs:406-408 TurnRetryBudget::reset_turn. *)
Definition turn_reset (h : Heap) (r : Z) : result Empty_set Heap :=
  g ← lock (hp_retries h) r; Ok (set_retry h r (guard_reset_turn g)).
(** engine/delegation_budget.rs:410-412 TurnRetryBudget::retries_this_turn. *)
Definition turn_retries (h : Heap) (r : Z) : result Empty_set Z :=
  g ← lock (hp_retries h) r; Ok (rg_retries_this_turn g).

(** The new value of a finite rounds ceiling, a saturating sum capped to [u32]. *)
Definition extend_max (b : ResolvedDelegationBudget) (extra : Z) : ResolvedDelegationBudget :=
  match rb_max_rounds b with
  | Some m => set_max_rounds b (Some (Z.min (saturating_add m extra) U32_MAX))
  | None => b
  end.
(** The first critical section of [BudgetPool::extend_rounds]. *)
Definition extend_rounds_ledger (h : Heap) (p : BudgetPool) (extra : Z) : result Empty_set Heap :=
  ledger ← lock (hp_ledgers h) (bp_ledger p);
  Ok (set_ledger h (bp_ledger p) (ledger_set_ceiling ledger (extend_max (sl_ceiling ledger) extra))).
(** The second. *)
Definition extend_rounds_local (h : Heap) (p : BudgetPool) (extra : Z) : result Empty_set Heap :=
  local ← lock (hp_locals h) (bp_local p);
  Ok (set_local h (bp_local p) (local_set_ceiling local (extend_max (lc_ceiling local) extra))).
(** engine/delegation_budget.rs:703-714 BudgetPool::extend_rounds. *)
Definition extend_rounds (h : Heap) (p : BudgetPool) (extra : Z) : result Empty_set Heap :=
  h ← extend_rounds_ledger h p extra; extend_rounds_local h p extra.

(** ** Lane-scoped usage

    [LANE_BUDGET_ACCUMULATOR] is a task-local: it exists only inside a
    [LaneBudgetScope], so it is an [option]. *)

(** engine/delegation_budget.rs:38-42 LaneBudgetAccumulator. *)
Record LaneBudgetAccumulator := mkAccumulator { la_uncharged : BudgetCharge; la_forward_progress : bool }.
Definition lane := option LaneBudgetAccumulator.

(** engine/delegation_budget.rs:50-57 LaneBudgetScope::run. The future is a function of its
    own accumulator; the enclosing one is back when it ends. *)
Definition lane_scope_run {S T} (future : lane * S -> lane * S * T) (st : lane * S) : lane * S * T :=
  let '(outer, s) := st in
  let '(_, s, t) := future (Some (mkAccumulator charge_default false), s) in
  (outer, s, t).
(** engine/delegation_budget.rs:60-62 lane_budget_active. *)
Definition lane_budget_active (a : lane) : bool := negb (is_none a).
(** engine/delegation_budget.rs:64-74 note_lane_budget_usage. *)
Definition note_lane_budget_usage (a : lane) (c : BudgetCharge) (forward_progress : bool) : lane :=
  (fun x => mkAccumulator (charge_add (la_uncharged x) c) (if forward_progress then true else la_forward_progress x))
    <$> a.
(** engine/delegation_budget.rs:76-80 take_lane_budget_charge. *)
Definition take_lane_budget_charge (a : lane) : lane * BudgetCharge :=
  match a with
  | Some x => (Some (mkAccumulator charge_default (la_forward_progress x)), la_uncharged x)
  | None => (None, charge_default)
  end.
(** engine/delegation_budget.rs:82-90 take_lane_forward_progress. *)
Definition take_lane_forward_progress (a : lane) : lane * bool :=
  match a with
  | Some x => (Some (mkAccumulator (la_uncharged x) false), la_forward_progress x)
  | None => (None, false)
  end.
(** engine/delegation_budget.rs:107-115 LaneBudgetExitDrain::drop. The result of the charge is
    discarded, a panic apart. *)
Definition exit_drain_drop (h : Heap) (now : nat -> Z) (a : lane) (budget : BudgetPool)
    : result Empty_set (Heap * lane) :=
  if negb (lane_budget_active a) then Ok (h, a) else
  let '(a, c) := take_lane_budget_charge a in
  if charge_is_empty c then Ok (h, a) else
  match pool_charge h now budget c with
  | Ok h => Ok (h, a)
  | Err _ => Ok (h, a)
  | Panic => Panic
  end.
