(* ===== verification/BudgetProps.v ===== *)
(** What delegation budgets guarantee: spend is booked exactly and never forgiven, an
    accepted charge fits every ceiling, the rounds of a whole delegation tree are
    bounded, an allotment is the greatest budget under what remains, and the liveness
    guards hold across every handle.

    [World] is the heap with all live handles, and as ghost state the accepted charges
    and retries; [budget_step] is one method call on one handle. *)

From S2P Require Import Prelude Budget.
From stdpp Require Import options.
Set Warnings "-clear-no-such-hyp".

(** ** Dimensions *)

Definition ceiling_of (b : ResolvedDelegationBudget) (d : BudgetDimension) : option Z :=
  match d with
  | Rounds => rb_max_rounds b
  | InputTokens => rb_max_input_tokens b
  | OutputTokens => rb_max_output_tokens b
  | Cost => rb_max_cost_microusd b
  | WallClock => rb_max_wall_clock b
  end.
Definition spend_in (s : BudgetSpend) (d : BudgetDimension) : Z :=
  match d with
  | Rounds => bs_rounds s
  | InputTokens => bs_input_tokens s
  | OutputTokens => bs_output_tokens s
  | Cost => bs_cost_microusd s
  | WallClock => bs_elapsed s
  end.
(** What a charge books; wall-clock time passes by itself. *)
Definition amount (c : BudgetCharge) (d : BudgetDimension) : Z :=
  match d with
  | Rounds => ch_rounds c
  | InputTokens => ch_input_tokens c
  | OutputTokens => ch_output_tokens c
  | Cost => ch_cost_microusd c
  | WallClock => 0
  end.
Definition ledger_spent (x : SharedLedger) (d : BudgetDimension) : Z :=
  match d with
  | Rounds => sl_spent_rounds x
  | InputTokens => sl_spent_input_tokens x
  | OutputTokens => sl_spent_output_tokens x
  | Cost => sl_spent_cost_microusd x
  | WallClock => 0
  end.
Definition local_spent (x : LocalState) (d : BudgetDimension) : Z :=
  match d with
  | Rounds => lc_spent_rounds x
  | InputTokens => lc_spent_input_tokens x
  | OutputTokens => lc_spent_output_tokens x
  | Cost => lc_spent_cost_microusd x
  | WallClock => 0
  end.

(** ** Well-typed values *)

Definition opt_in_range (m : Z) (o : option Z) : Prop := match o with Some z => 0 <= z <= m | None => True end.
(** The largest [Duration], in nanoseconds. *)
Definition DURATION_MAX : Z := from_secs U64_MAX + 999999999.
Record budget_ok (b : ResolvedDelegationBudget) : Prop := {
  bo_rounds : opt_in_range U32_MAX (rb_max_rounds b);
  bo_input : opt_in_range U64_MAX (rb_max_input_tokens b);
  bo_output : opt_in_range U64_MAX (rb_max_output_tokens b);
  bo_cost : opt_in_range U64_MAX (rb_max_cost_microusd b);
  bo_wall : opt_in_range DURATION_MAX (rb_max_wall_clock b) }.
Definition charge_ok (c : BudgetCharge) : Prop :=
  is_u64 (ch_rounds c) /\ is_u64 (ch_input_tokens c) /\ is_u64 (ch_output_tokens c) /\ is_u64 (ch_cost_microusd c).
Definition guard_ok (g : CompactProgressGuard) : Prop :=
  is_u32 (cg_consecutive_no_progress g) /\ 1 <= cg_max_consecutive g <= U32_MAX.
Definition retry_ok (g : RetryPacingGuard) : Prop :=
  0 <= rg_retries_this_turn g <= rg_max_retries_per_turn g /\ 1 <= rg_max_retries_per_turn g <= U32_MAX.
Record ledger_ok (x : SharedLedger) : Prop := {
  lo_ceiling : budget_ok (sl_ceiling x);
  lo_spent : forall d, is_u64 (ledger_spent x d) }.
Record local_ok (x : LocalState) : Prop := {
  co_ceiling : budget_ok (lc_ceiling x);
  co_spent : forall d, is_u64 (local_spent x d);
  co_guard : guard_ok (lc_compact_guard x) }.

Ltac ranges :=
  unfold is_u64, is_u32, U64_MAX, U32_MAX, DURATION_MAX, from_secs, saturating_add, saturating_add_u32,
    saturating_sub, clamp_u32, U64_MAX, U32_MAX in *.

Lemma amount_u64 c d : charge_ok c -> is_u64 (amount c d).
Proof. intros (?&?&?&?). destruct d; cbn; done. Qed.

Lemma budget_ok_of b d : budget_ok b -> opt_in_range DURATION_MAX (ceiling_of b d).
Proof.
  intros [H1 H2 H3 H4 H5]. destruct d; cbn; try done;
    [destruct (rb_max_rounds b)|destruct (rb_max_input_tokens b)
    |destruct (rb_max_output_tokens b)|destruct (rb_max_cost_microusd b)]; cbn in *; ranges; lia.
Qed.

Lemma min_opt_range m a b : opt_in_range m a -> opt_in_range m b -> opt_in_range m (min_opt a b).
Proof. destruct a, b; cbn; lia. Qed.
Lemma intersect_ok a b : budget_ok a -> budget_ok b -> budget_ok (intersect a b).
Proof. intros [] []. constructor; by apply min_opt_range. Qed.
Lemma remaining_after_ok b s :
  budget_ok b -> (forall d, 0 <= spend_in s d) -> budget_ok (remaining_after b s).
Proof.
  intros [H1 H2 H3 H4 H5] Hs. pose proof (Hs Rounds). pose proof (Hs InputTokens). pose proof (Hs OutputTokens).
  pose proof (Hs Cost). pose proof (Hs WallClock). cbn in *.
  constructor; cbn;
    [destruct (rb_max_rounds b)|destruct (rb_max_input_tokens b)|destruct (rb_max_output_tokens b)
    |destruct (rb_max_cost_microusd b)|destruct (rb_max_wall_clock b)]; cbn in *; ranges; try lia.
  destruct (Z.leb_spec (Z.max 0 (z - bs_rounds s)) 4294967295); lia.
Qed.

Lemma ledger_add_spent x c d :
  ledger_spent (ledger_add x c) d = if bool_decide (d = WallClock) then 0 else saturating_add (ledger_spent x d) (amount c d).
Proof. by destruct d. Qed.
Lemma local_add_spent x c d :
  local_spent (local_add x c) d = if bool_decide (d = WallClock) then 0 else saturating_add (local_spent x d) (amount c d).
Proof. by destruct d. Qed.

Lemma ledger_add_ok x c : ledger_ok x -> charge_ok c -> ledger_ok (ledger_add x c).
Proof.
  intros [Hc Hs] Hk. constructor; [done|]. intros d. rewrite ledger_add_spent. case_bool_decide; [by ranges|].
  pose proof (Hs d). pose proof (amount_u64 c d Hk). ranges. lia.
Qed.
Lemma local_add_ok x c : local_ok x -> charge_ok c -> local_ok (local_add x c).
Proof.
  intros [Hc Hs Hg] Hk. constructor; [done| |done]. intros d. rewrite local_add_spent. case_bool_decide; [by ranges|].
  pose proof (Hs d). pose proof (amount_u64 c d Hk). ranges. lia.
Qed.
Lemma extend_max_ok b extra : budget_ok b -> is_u32 extra -> budget_ok (extend_max b extra).
Proof.
  intros [H1 H2 H3 H4 H5] He. unfold extend_max.
  destruct (rb_max_rounds b) eqn:E; constructor; rewrite ?E; cbn in *; try done. ranges. lia.
Qed.
Lemma replay_ok g b : guard_ok g -> guard_ok (replay_compaction g b).
Proof. unfold guard_ok. destruct b; cbn; ranges; lia. Qed.
Lemma compact_record_replay g n b : (compact_record g n b).1 = replay_compaction g b.
Proof. unfold compact_record, replay_compaction. destruct b; [done|]. cbn. by case_match. Qed.
Lemma foldl_replay_ok fs g : guard_ok g -> guard_ok (foldl replay_compaction g fs).
Proof. revert g. induction fs; intros g Hg; cbn; [done|]. apply IHfs. by apply replay_ok. Qed.
Lemma guard_allow_ok g : retry_ok g -> retry_ok (guard_allow_retry g).1.
Proof. unfold guard_allow_retry, retry_ok. case_match eqn:E; cbn; ranges; lia. Qed.

(** ** The world of handles *)

Record World := mkWorld {
  w_heap : Heap;
  w_pools : list BudgetPool;
  (** accepted charges, newest first, with the handle they came through *)
  w_log : list (BudgetPool * BudgetCharge);
  (** retry guards that allowed a retry, newest first *)
  w_retried : list Z;
  (** recorded compactions, newest first: the local cap and whether there was progress *)
  w_compactions : list (Z * bool) }.
Definition empty_world : World := mkWorld empty_heap [] [] [] [].
Definition set_heap (w : World) (h : Heap) : World := mkWorld h (w_pools w) (w_log w) (w_retried w) (w_compactions w).
Definition add_pool (w : World) (p : BudgetPool) : World :=
  mkWorld (w_heap w) (w_pools w ++ [p]) (w_log w) (w_retried w) (w_compactions w).
Definition log_charge (w : World) (p : BudgetPool) (c : BudgetCharge) : World :=
  mkWorld (w_heap w) (w_pools w) ((p, c) :: w_log w) (w_retried w) (w_compactions w).
Definition log_compactions (w : World) (p : BudgetPool) (flags : list bool) : World :=
  mkWorld (w_heap w) (w_pools w) (w_log w) (w_retried w) (rev_append (pair (bp_local p) <$> flags) (w_compactions w)).

(** A method call; a handle is named by its index. *)
Inductive Op :=
| ONew (ceiling : ResolvedDelegationBudget)
| OShare (i : nat)
| OAllot (i : nat) (child_ceiling : ResolvedDelegationBudget)
| ORemint (i : nat) (ceiling : ResolvedDelegationBudget)
| OCharge (i : nat) (c : BudgetCharge)
| OCompact (i : nat) (tokens_after : Z) (forward_progress : bool)
| ORehydrate (i : nat) (flags : list bool) (since_last : bool)
| ORetry (i : nat)
| OReset (i : nat)
| OExtendLedger (i : nat) (extra : Z)
| OExtendLocal (i : nat) (extra : Z).

(** The arguments have their types. *)
Definition op_ok (o : Op) : Prop :=
  match o with
  | ONew c | OAllot _ c | ORemint _ c => budget_ok c
  | OCharge _ c => charge_ok c
  | OExtendLedger _ extra | OExtendLocal _ extra => is_u32 extra
  | _ => True
  end.

Definition with_pool (w : World) (i : nat) (f : BudgetPool -> result Empty_set World) : result Empty_set World :=
  match w_pools w !! i with Some p => f p | None => Ok w end.

Definition budget_step (w : World) (now : nat -> Z) (o : Op) : result Empty_set World :=
  match o with
  | ONew c => let '(h, p) := pool_new (w_heap w) now c in Ok (add_pool (set_heap w h) p)
  | OShare i => with_pool w i (fun p => Ok (add_pool w (pool_share p)))
  | OAllot i c => with_pool w i (fun p => r ← pool_allot (w_heap w) now p c; Ok (add_pool (set_heap w r.1) r.2))
  | ORemint i c => with_pool w i (fun p => h ← remint_root (w_heap w) p c; Ok (set_heap w h))
  | OCharge i c => with_pool w i (fun p =>
      match pool_charge (w_heap w) now p c with
      | Ok h => Ok (log_charge (set_heap w h) p c)
      | Err _ => Ok w
      | Panic => Panic
      end)
  | OCompact i n b => with_pool w i (fun p =>
      match record_compaction (w_heap w) p n b with
      | (_, Panic) => Panic
      | (h, _) => Ok (log_compactions (set_heap w h) p [b])
      end)
  | ORehydrate i fs b => with_pool w i (fun p =>
      h ← rehydrate_subagent_compact_guard (w_heap w) p fs b;
      Ok (log_compactions (set_heap w h) p (if b : bool then fs ++ [true] else fs)))
  | ORetry i => with_pool w i (fun p =>
      r ← turn_allow_retry (w_heap w) (retry_handle p);
      Ok (mkWorld r.1 (w_pools w) (w_log w) (if r.2 : bool then bp_retry_guard p :: w_retried w else w_retried w) (w_compactions w)))
  | OReset i => with_pool w i (fun p => h ← turn_reset (w_heap w) (retry_handle p); Ok (set_heap w h))
  | OExtendLedger i e => with_pool w i (fun p => h ← extend_rounds_ledger (w_heap w) p e; Ok (set_heap w h))
  | OExtendLocal i e => with_pool w i (fun p => h ← extend_rounds_local (w_heap w) p e; Ok (set_heap w h))
  end.

Fixpoint budget_run (w : World) (ops : list ((nat -> Z) * Op)) : result Empty_set World :=
  match ops with
  | [] => Ok w
  | (now, o) :: ops => w ← budget_step w now o; budget_run w ops
  end.
Definition ops_ok (ops : list ((nat -> Z) * Op)) : Prop := Forall (fun e => op_ok e.2) ops.

(** What the accepted charges through a ledger ([loc = bp_ledger]) or a local cap
    ([loc = bp_local]) add up to, in unbounded arithmetic. *)
Fixpoint log_total (loc : BudgetPool -> Z) (l : Z) (d : BudgetDimension) (log : list (BudgetPool * BudgetCharge)) : Z :=
  match log with
  | [] => 0
  | (p, c) :: log => (if loc p =? l then amount c d else 0) + log_total loc l d log
  end.

(** How many compactions in a row, up to the last one on a local cap, made no progress. *)
Fixpoint stalled (l : Z) (log : list (Z * bool)) : Z :=
  match log with
  | [] => 0
  | (k, b) :: log => if k =? l then (if b then 0 else 1 + stalled l log) else stalled l log
  end.

(** ** The invariant *)

Definition allocated (h : Heap) (p : BudgetPool) : Prop :=
  is_Some (hp_ledgers h !! bp_ledger p) /\ is_Some (hp_locals h !! bp_local p) /\
  is_Some (hp_retries h !! bp_retry_guard p).

Record winv (w : World) : Prop := {
  wi_alloc : forall p, p ∈ w_pools w -> allocated (w_heap w) p;
  wi_log : forall e, e ∈ w_log w -> e.1 ∈ w_pools w /\ charge_ok e.2;
  wi_ledger : forall l x, hp_ledgers (w_heap w) !! l = Some x ->
    l < hp_next (w_heap w) /\ ledger_ok x /\
    forall d, ledger_spent x d = Z.min U64_MAX (log_total bp_ledger l d (w_log w));
  wi_local : forall l x, hp_locals (w_heap w) !! l = Some x ->
    l < hp_next (w_heap w) /\ local_ok x /\
    (forall d, local_spent x d = Z.min U64_MAX (log_total bp_local l d (w_log w))) /\
    lc_compact_guard x =
      mkCompactGuard (Z.min U32_MAX (stalled l (w_compactions w))) DEFAULT_COMPACT_NO_PROGRESS_LIMIT;
  wi_compactions : forall e, e ∈ w_compactions w -> e.1 < hp_next (w_heap w);
  wi_retry : forall l g, hp_retries (w_heap w) !! l = Some g -> l < hp_next (w_heap w) /\ retry_ok g }.

Lemma log_total_fresh loc l d log :
  (forall e, e ∈ log -> loc e.1 <> l) -> log_total loc l d log = 0.
Proof.
  induction log as [|[p c] log IH]; intros H; cbn; [done|].
  rewrite IH by (intros e He; apply H; by right).
  destruct (Z.eqb_spec (loc p) l) as [E|]; [|done]. by destruct (H (p, c) ltac:(left)).
Qed.
Lemma log_total_nonneg loc l d log :
  (forall e, e ∈ log -> charge_ok e.2) -> 0 <= log_total loc l d log.
Proof.
  induction log as [|[p c] log IH]; intros H; cbn; [done|].
  pose proof (IH (fun e He => H e (list_elem_of_further _ _ _ He))).
  pose proof (amount_u64 c d (H (p, c) ltac:(left))). destruct (loc p =? l); ranges; lia.
Qed.
Lemma stalled_fresh l log : (forall e, e ∈ log -> e.1 < l) -> stalled l log = 0.
Proof.
  induction log as [|[k b] log IH]; intros H; cbn; [done|].
  pose proof (H (k, b) ltac:(left)). cbn in *. destruct (Z.eqb_spec k l); [lia|].
  apply IH. intros e He. apply H. by right.
Qed.
Lemma stalled_nonneg l log : 0 <= stalled l log.
Proof. induction log as [|[k b] log IH]; cbn; [done|]. repeat case_match; lia. Qed.
Lemma log_total_wall loc l log : log_total loc l WallClock log = 0.
Proof. induction log as [|[p c] log IH]; cbn; [done|]. rewrite IH. by destruct (_ =? _). Qed.

Section winv.
Context (w : World) (Hw : winv w).

Lemma winv_ledger_fresh d : log_total bp_ledger (hp_next (w_heap w)) d (w_log w) = 0.
Proof using Hw.
  apply log_total_fresh. intros e He E. destruct (wi_log _ Hw e He) as [Hp _].
  destruct (wi_alloc _ Hw _ Hp) as ([x Hx]&_). destruct (wi_ledger _ Hw _ _ Hx) as [? _]. lia.
Qed.
Lemma winv_local_fresh d : log_total bp_local (hp_next (w_heap w)) d (w_log w) = 0.
Proof using Hw.
  apply log_total_fresh. intros e He E. destruct (wi_log _ Hw e He) as [Hp _].
  destruct (wi_alloc _ Hw _ Hp) as (_&[x Hx]&_). destruct (wi_local _ Hw _ _ Hx) as [? _]. lia.
Qed.
End winv.

(** The invariant under each way of changing the heap. *)
Lemma winv_add_pool w p : winv w -> allocated (w_heap w) p -> winv (add_pool w p).
Proof.
  intros [H1 H2 H3 H4 H6 H5] Hp. constructor; cbn; try done.
  - intros q [Hq| ->%list_elem_of_singleton]%elem_of_app; [by apply H1|done].
  - intros e He. destruct (H2 e He). split; [|done]. apply elem_of_app. by left.
Qed.

Lemma allocated_set_ledger h l x x' p :
  hp_ledgers h !! l = Some x -> allocated h p -> allocated (set_ledger h l x') p.
Proof.
  intros Hl (Ha&Hb&Hc). repeat split; try done. cbn.
  destruct (decide (l = bp_ledger p)) as [<-|]; [by simplify_map_eq|by rewrite lookup_insert_ne].
Qed.
Lemma allocated_set_local h l x x' p :
  hp_locals h !! l = Some x -> allocated h p -> allocated (set_local h l x') p.
Proof.
  intros Hl (Ha&Hb&Hc). repeat split; try done. cbn.
  destruct (decide (l = bp_local p)) as [<-|]; [by simplify_map_eq|by rewrite lookup_insert_ne].
Qed.
Lemma allocated_set_retry h l x x' p :
  hp_retries h !! l = Some x -> allocated h p -> allocated (set_retry h l x') p.
Proof.
  intros Hl (Ha&Hb&Hc). repeat split; try done. cbn.
  destruct (decide (l = bp_retry_guard p)) as [<-|]; [by simplify_map_eq|by rewrite lookup_insert_ne].
Qed.

Lemma winv_set_ledger w l x x' :
  winv w -> hp_ledgers (w_heap w) !! l = Some x -> ledger_ok x' ->
  (forall d, ledger_spent x' d = ledger_spent x d) -> winv (set_heap w (set_ledger (w_heap w) l x')).
Proof.
  intros [H1 H2 H3 H4 H6 H5] Hl Hx Hs. constructor; try done.
  - intros p Hp. eapply allocated_set_ledger; [done|by apply H1].
  - cbn. intros k y [[<- <-]|[Hne Hy]]%lookup_insert_Some; [|by apply H3].
    destruct (H3 _ _ Hl) as (?&_&Ht). do 2 (split; [done|]). intros d. by rewrite Hs.
Qed.
Lemma winv_set_local w l x x' :
  winv w -> hp_locals (w_heap w) !! l = Some x -> local_ok x' ->
  (forall d, local_spent x' d = local_spent x d) -> lc_compact_guard x' = lc_compact_guard x ->
  winv (set_heap w (set_local (w_heap w) l x')).
Proof.
  intros [H1 H2 H3 H4 H6 H5] Hl Hx Hs Hg. constructor; try done.
  - intros p Hp. eapply allocated_set_local; [done|by apply H1].
  - cbn. intros k y [[<- <-]|[Hne Hy]]%lookup_insert_Some; [|by apply H4].
    destruct (H4 _ _ Hl) as (?&_&Ht&?). do 2 (split; [done|]). split; [intros d; by rewrite Hs|congruence].
Qed.
Lemma winv_set_retry w l x x' log :
  winv w -> hp_retries (w_heap w) !! l = Some x -> retry_ok x' ->
  winv (mkWorld (set_retry (w_heap w) l x') (w_pools w) (w_log w) log (w_compactions w)).
Proof.
  intros [H1 H2 H3 H4 H6 H5] Hl Hx. constructor; try done.
  - intros p Hp. eapply allocated_set_retry; [done|by apply H1].
  - cbn. intros k y [[<- <-]|[Hne Hy]]%lookup_insert_Some; [|by apply H5].
    by destruct (H5 _ _ Hl).
Qed.

(** Fresh locations. *)
Lemma lookup_fresh_ne {A} (P : Z -> A -> Prop) (m : gmap Z A) next l x y :
  (forall l x, m !! l = Some x -> l < next /\ P l x) -> <[next:=y]> m !! l = Some x ->
  (l = next /\ x = y) \/ (l < next /\ m !! l = Some x).
Proof.
  intros H [[<- <-]|[Hne Hx]]%lookup_insert_Some; [by left|right]. split; [|done]. by destruct (H _ _ Hx).
Qed.
Lemma is_Some_insert {A} (m : gmap Z A) k l (y : A) : is_Some (m !! l) -> is_Some (<[k:=y]> m !! l).
Proof. intros [x Hx]. destruct (decide (k = l)) as [->|]; [by simplify_map_eq|by rewrite lookup_insert_ne]. Qed.

Lemma winv_alloc_ledger w x :
  winv w -> ledger_ok x -> (forall d, ledger_spent x d = 0) -> winv (set_heap w (alloc_ledger (w_heap w) x).1).
Proof.
  intros Hw Hx Hs. pose proof (winv_ledger_fresh w Hw) as Hf. destruct Hw as [H1 H2 H3 H4 H6 H5].
  constructor; cbn; try done.
  - intros p Hp. destruct (H1 p Hp) as (?&?&?). repeat split; try done. by apply is_Some_insert.
  - intros l y Hy. eapply lookup_fresh_ne in Hy as [[-> ->]|[Hlt Hy]]; [| |exact H3].
    + split; [lia|]. split; [done|]. intros d. by rewrite Hs, Hf.
    + destruct (H3 _ _ Hy) as (?&?&?). split; [lia|done].
  - intros l y Hy. destruct (H4 _ _ Hy) as (?&?&?). split; [lia|done].
  - intros e He. specialize (H6 e He). lia.
  - intros l y Hy. destruct (H5 _ _ Hy) as (?&?). split; [lia|done].
Qed.
Lemma winv_alloc_local w x :
  winv w -> local_ok x -> (forall d, local_spent x d = 0) ->
  lc_compact_guard x = compact_guard_new DEFAULT_COMPACT_NO_PROGRESS_LIMIT ->
  winv (set_heap w (alloc_local (w_heap w) x).1).
Proof.
  intros Hw Hx Hs Hg. pose proof (winv_local_fresh w Hw) as Hf.
  pose proof (stalled_fresh _ _ (wi_compactions _ Hw)) as Hc. destruct Hw as [H1 H2 H3 H4 H6 H5].
  constructor; cbn; try done.
  - intros p Hp. destruct (H1 p Hp) as (?&?&?). repeat split; try done. by apply is_Some_insert.
  - intros l y Hy. destruct (H3 _ _ Hy) as (?&?&?). split; [lia|done].
  - intros l y Hy. eapply lookup_fresh_ne in Hy as [[-> ->]|[Hlt Hy]]; [| |exact H4].
    + split; [lia|]. split; [done|]. split; [intros d; by rewrite Hs, Hf|]. by rewrite Hg, Hc.
    + destruct (H4 _ _ Hy) as (?&?&?). split; [lia|done].
  - intros e He. specialize (H6 e He). lia.
  - intros l y Hy. destruct (H5 _ _ Hy) as (?&?). split; [lia|done].
Qed.
Lemma winv_alloc_retry w x :
  winv w -> retry_ok x -> winv (set_heap w (alloc_retry (w_heap w) x).1).
Proof.
  intros [H1 H2 H3 H4 H6 H5] Hx. constructor; cbn; try done.
  - intros p Hp. destruct (H1 p Hp) as (?&?&?). repeat split; try done. by apply is_Some_insert.
  - intros l y Hy. destruct (H3 _ _ Hy) as (?&?&?). split; [lia|done].
  - intros l y Hy. destruct (H4 _ _ Hy) as (?&?&?). split; [lia|done].
  - intros e He. specialize (H6 e He). lia.
  - intros l y Hy. eapply lookup_fresh_ne in Hy as [[-> ->]|[Hlt Hy]]; [| |exact H5].
    + split; [lia|done].
    + destruct (H5 _ _ Hy). split; [lia|done].
Qed.

Lemma fresh_local_ok c t : budget_ok c -> local_ok (local_new c t).
Proof. intros. constructor; [done| |]; [intros []; by ranges|]. unfold guard_ok. cbn. by ranges. Qed.
Lemma fresh_ledger_ok c t : budget_ok c -> ledger_ok (ledger_new c t).
Proof. intros. constructor; [done|]. intros []; by ranges. Qed.
Lemma fresh_retry_ok : retry_ok (retry_guard_new DEFAULT_MAX_RETRIES_PER_TURN).
Proof. unfold retry_ok. cbn. by ranges. Qed.
Lemma zero_ledger c t d : ledger_spent (ledger_new c t) d = 0.
Proof. by destruct d. Qed.
Lemma zero_local c t d : local_spent (local_new c t) d = 0.
Proof. by destruct d. Qed.

Lemma winv_new w now c :
  winv w -> budget_ok c ->
  winv (add_pool (set_heap w (pool_new (w_heap w) now c).1) (pool_new (w_heap w) now c).2).
Proof.
  intros Hw Hc.
  pose proof (winv_alloc_ledger w _ Hw (fresh_ledger_ok c (now 0%nat) Hc) (zero_ledger _ _)) as H1.
  pose proof (winv_alloc_local _ _ H1 (fresh_local_ok c (now 0%nat) Hc) (zero_local _ _) eq_refl) as H2.
  pose proof (winv_alloc_retry _ _ H2 fresh_retry_ok) as H3.
  apply winv_add_pool; [exact H3|]. repeat split; cbn; by simplify_map_eq.
Qed.

(** ** The operations, on allocated handles *)

Lemma snapshot_ok {E} h now p x y :
  hp_ledgers h !! bp_ledger p = Some x -> hp_locals h !! bp_local p = Some y ->
  pool_snapshot (E:=E) h now p =
  Ok (mkSnapshot (sl_ceiling x) (lc_ceiling y) (spend_of_ledger x (now 0%nat)) (spend_of_local y (now 1%nat))
        (is_unlimited (sl_ceiling x) && is_unlimited (lc_ceiling y))).
Proof. intros Hx Hy. unfold pool_snapshot, lock. by rewrite Hx; cbn; rewrite Hy. Qed.

(** What an allotted child is. *)
Lemma allot_ok h now p c x y :
  hp_ledgers h !! bp_ledger p = Some x -> hp_locals h !! bp_local p = Some y ->
  pool_allot h now p c =
  Ok (let local := local_new (intersect (intersect (remaining_after (sl_ceiling x) (spend_of_ledger x (now 0%nat)))
                                                   (remaining_after (lc_ceiling y) (spend_of_local y (now 1%nat)))) c)
                             (now 2%nat) in
      let h1 := (alloc_local h local).1 in
      ((alloc_retry h1 (retry_guard_new DEFAULT_MAX_RETRIES_PER_TURN)).1,
       mkPool (bp_ledger p) (hp_next h) (hp_next h + 1))).
Proof. intros Hx Hy. unfold pool_allot. by rewrite (snapshot_ok _ _ _ _ _ Hx Hy). Qed.

(** A charge books on both or leaves the heap alone. *)
Lemma charge_cases h now p c x y :
  hp_ledgers h !! bp_ledger p = Some x -> hp_locals h !! bp_local p = Some y ->
  pool_charge h now p c =
  match reject_charge now x y c with
  | Some d => Err (mkExhaustion d (mkSnapshot (sl_ceiling x) (lc_ceiling y)
                     (spend_of_ledger x (now 2%nat)) (spend_of_local y (now 3%nat))
                     (is_unlimited (sl_ceiling x) && is_unlimited (lc_ceiling y))))
  | None => Ok (set_local (set_ledger h (bp_ledger p) (ledger_add x c)) (bp_local p) (local_add y c))
  end.
Proof.
  intros Hx Hy. unfold pool_charge, lock. rewrite Hx; cbn. rewrite Hy; cbn.
  destruct (reject_charge now x y c); [|done]. by rewrite (snapshot_ok _ _ _ _ _ Hx Hy).
Qed.

Lemma spend_nonneg_ledger x t d : ledger_ok x -> 0 <= spend_in (spend_of_ledger x t) d.
Proof. intros [_ H]. pose proof (H d). destruct d; cbn in *; ranges; unfold elapsed; lia. Qed.
Lemma spend_nonneg_local x t d : local_ok x -> 0 <= spend_in (spend_of_local x t) d.
Proof. intros [_ H _]. pose proof (H d). destruct d; cbn in *; ranges; unfold elapsed; lia. Qed.

Lemma remaining_ok x y now :
  ledger_ok x -> local_ok y ->
  budget_ok (intersect (remaining_after (sl_ceiling x) (spend_of_ledger x (now 0%nat)))
                       (remaining_after (lc_ceiling y) (spend_of_local y (now 1%nat)))).
Proof.
  intros Hx Hy. apply intersect_ok; apply remaining_after_ok;
    [apply Hx|intros; by apply spend_nonneg_ledger|apply Hy|intros; by apply spend_nonneg_local].
Qed.

Lemma sat_total m a t : 0 <= m -> 0 <= a -> 0 <= t -> Z.min m (Z.min m t + a) = Z.min m (a + t).
Proof. lia. Qed.

Lemma winv_charge w p c x y :
  winv w -> p ∈ w_pools w -> charge_ok c ->
  hp_ledgers (w_heap w) !! bp_ledger p = Some x -> hp_locals (w_heap w) !! bp_local p = Some y ->
  winv (log_charge (set_heap w (set_local (set_ledger (w_heap w) (bp_ledger p) (ledger_add x c))
                                          (bp_local p) (local_add y c))) p c).
Proof.
  intros Hw Hp Hc Hx Hy.
  assert (Hn : forall loc l d, 0 <= log_total loc l d (w_log w)).
  { intros. apply log_total_nonneg. intros e He. by apply (wi_log _ Hw). }
  destruct Hw as [H1 H2 H3 H4 H6 H5]. constructor; cbn.
  - intros q Hq. eapply allocated_set_local; [exact Hy|]. eapply allocated_set_ledger; [exact Hx|by apply H1].
  - intros e [->|He]%elem_of_cons; [done|by apply H2].
  - intros l z [[<- <-]|[Hne Hz]]%lookup_insert_Some.
    + destruct (H3 _ _ Hx) as (?&Ho&Ht). split; [done|]. split; [by apply ledger_add_ok|].
      intros d. rewrite ledger_add_spent, Z.eqb_refl. case_bool_decide as E.
      * subst d. rewrite log_total_wall. done.
      * unfold saturating_add. rewrite Ht. apply sat_total; [done| |done].
        by apply amount_u64.
    + destruct (H3 _ _ Hz) as (?&?&?). split; [done|]. split; [done|].
      intros d. destruct (Z.eqb_spec (bp_ledger p) l); [done|]. by rewrite Z.add_0_l.
  - intros l z [[<- <-]|[Hne Hz]]%lookup_insert_Some.
    + destruct (H4 _ _ Hy) as (?&Ho&Ht&?). split; [done|]. split; [by apply local_add_ok|]. split; [|done].
      intros d. rewrite local_add_spent, Z.eqb_refl. case_bool_decide as E.
      * subst d. rewrite log_total_wall. done.
      * unfold saturating_add. rewrite Ht. apply sat_total; [done| |done].
        by apply amount_u64.
    + destruct (H4 _ _ Hz) as (?&?&?&?). split; [done|]. split; [done|]. split; [|done].
      intros d. destruct (Z.eqb_spec (bp_local p) l); [done|]. by rewrite Z.add_0_l.
  - done.
  - done.
Qed.

Lemma ledger_set_ceiling_ok x c : ledger_ok x -> budget_ok c -> ledger_ok (ledger_set_ceiling x c).
Proof. intros [_ Hs] Hc. constructor; [done|]. intros d. pose proof (Hs d). by destruct d. Qed.
Lemma local_set_ceiling_ok y c : local_ok y -> budget_ok c -> local_ok (local_set_ceiling y c).
Proof. intros [_ Hs Hg] Hc. constructor; [done| |done]. intros d. pose proof (Hs d). by destruct d. Qed.
Lemma local_set_guard_ok y g : local_ok y -> guard_ok g -> local_ok (local_set_guard y g).
Proof. intros [Hc Hs _] Hg. constructor; [done| |done]. intros d. pose proof (Hs d). by destruct d. Qed.

(** The compact guard of a cap counts its stalled compactions. *)
Lemma replay_stalled l m log b :
  replay_compaction (mkCompactGuard (Z.min U32_MAX (stalled l log)) m) b =
  mkCompactGuard (Z.min U32_MAX (stalled l ((l, b) :: log))) m.
Proof.
  unfold replay_compaction. cbn. rewrite Z.eqb_refl. destruct b; [done|]. f_equal.
  unfold saturating_add_u32. cbn. pose proof (stalled_nonneg l log). lia.
Qed.
Lemma foldl_replay_stalled l m fs log :
  foldl replay_compaction (mkCompactGuard (Z.min U32_MAX (stalled l log)) m) fs =
  mkCompactGuard (Z.min U32_MAX (stalled l (rev_append (pair l <$> fs) log))) m.
Proof.
  revert log. induction fs as [|b fs IH]; intros log; [done|].
  cbn [foldl fmap list_fmap rev_append]. by rewrite replay_stalled, IH.
Qed.
Lemma stalled_other k l fs log : k <> l -> stalled k (rev_append (pair l <$> fs) log) = stalled k log.
Proof.
  intros Hne. revert log. induction fs as [|b fs IH]; intros log; [done|].
  cbn [fmap list_fmap rev_append]. rewrite IH. cbn. by destruct (Z.eqb_spec l k).
Qed.
Lemma winv_guard w p y fs :
  winv w -> hp_locals (w_heap w) !! bp_local p = Some y ->
  winv (log_compactions (set_heap w (set_local (w_heap w) (bp_local p)
          (local_set_guard y (foldl replay_compaction (lc_compact_guard y) fs)))) p fs).
Proof.
  intros [H1 H2 H3 H4 H6 H5] Hy. constructor; cbn; try done.
  - intros q Hq. eapply allocated_set_local; [done|by apply H1].
  - intros l z [[<- <-]|[Hne Hz]]%lookup_insert_Some.
    + destruct (H4 _ _ Hy) as (?&Ho&Ht&Hg). split; [done|].
      split. { apply local_set_guard_ok; [done|]. apply foldl_replay_ok, Ho. }
      split. { intros d. rewrite <- Ht. by destruct d. }
      cbn. by rewrite Hg, foldl_replay_stalled.
    + rewrite stalled_other by done. by apply H4.
  - intros e. rewrite rev_append_rev, elem_of_app. intros [He|He]; [|by apply H6].
    rewrite list_elem_of_In, <- in_rev, <- list_elem_of_In in He.
    apply list_elem_of_fmap in He as (b&->&_). cbn. by destruct (H4 _ _ Hy).
Qed.

Lemma winv_remint w p c x y :
  winv w -> budget_ok c -> hp_ledgers (w_heap w) !! bp_ledger p = Some x ->
  hp_locals (w_heap w) !! bp_local p = Some y ->
  winv (set_heap w (set_local (set_ledger (w_heap w) (bp_ledger p) (ledger_set_ceiling x c))
                              (bp_local p) (local_set_ceiling y c))).
Proof.
  intros Hw Hc Hx Hy. destruct (wi_ledger _ Hw _ _ Hx) as (_&Hox&_). destruct (wi_local _ Hw _ _ Hy) as (_&Hoy&_).
  assert (winv (set_heap w (set_ledger (w_heap w) (bp_ledger p) (ledger_set_ceiling x c)))) as H1.
  { eapply winv_set_ledger; [done|done|by apply ledger_set_ceiling_ok|by intros []]. }
  eapply (winv_set_local _ _ _ _ H1); [done|by apply local_set_ceiling_ok|by intros []|done].
Qed.

Lemma winv_allot w now p c h q :
  winv w -> p ∈ w_pools w -> budget_ok c -> pool_allot (w_heap w) now p c = Ok (h, q) ->
  winv (add_pool (set_heap w h) q).
Proof.
  intros Hw Hp Ho Ha. destruct (wi_alloc _ Hw p Hp) as ([x Hx]&[y Hy]&_).
  destruct (wi_ledger _ Hw _ _ Hx) as (_&Hox&_). destruct (wi_local _ Hw _ _ Hy) as (_&Hoy&_).
  rewrite (allot_ok _ _ _ _ _ _ Hx Hy) in Ha. injection Ha as <- <-.
  pose proof (intersect_ok _ _ (remaining_ok _ _ now Hox Hoy) Ho) as Hc.
  pose proof (winv_alloc_local _ _ Hw (fresh_local_ok _ (now 2%nat) Hc) (zero_local _ _) eq_refl) as H2.
  pose proof (winv_alloc_retry _ _ H2 fresh_retry_ok) as H3.
  apply winv_add_pool; [exact H3|]. repeat split; cbn; simplify_map_eq; done.
Qed.

Lemma record_compaction_ok h p n b y :
  hp_locals h !! bp_local p = Some y ->
  (record_compaction h p n b).1 =
    set_local h (bp_local p) (local_set_guard y (replay_compaction (lc_compact_guard y) b)) /\
  (record_compaction h p n b).2 = (compact_record (lc_compact_guard y) n b).2 /\
  (record_compaction h p n b).2 <> Panic.
Proof.
  intros Hy. unfold record_compaction. rewrite Hy. rewrite <- (compact_record_replay _ n).
  destruct (compact_record (lc_compact_guard y) n b) as [g r] eqn:Hr. cbn. split; [done|]. split; [done|].
  unfold compact_record in Hr. repeat case_match; by simplify_eq.
Qed.

(** The handle of a step and what it points to. *)
Ltac step_handle Hw Hi :=
  match type of Hi with w_pools ?w !! _ = Some ?p =>
    pose proof (list_elem_of_lookup_2 _ _ _ Hi) as Hp;
    let x := fresh "x" in let y := fresh "y" in let g := fresh "g" in
    destruct (wi_alloc _ Hw p Hp) as ([x Hx]&[y Hy]&[g Hg]);
    destruct (wi_ledger _ Hw _ _ Hx) as (Hlx&Hox&Htx); destruct (wi_local _ Hw _ _ Hy) as (Hly&Hoy&Hty);
    destruct (wi_retry _ Hw _ _ Hg) as (Hlg&Hog)
  end.

(** A step of a well-formed world, with typed arguments, gives a well-formed world: in
    particular it does not panic. *)
Lemma winv_step w now o :
  winv w -> op_ok o -> exists w', budget_step w now o = Ok w' /\ winv w'.
Proof.
  intros Hw Ho. destruct o as [c|i|i c|i c|i c|i n b|i fs b|i|i|i e|i e]; cbn [budget_step].
  { eexists. split; [reflexivity|]. by apply winv_new. }
  all: unfold with_pool; destruct (w_pools w !! i) as [p|] eqn:Hi; [|by eauto]; step_handle Hw Hi.
  - eexists. split; [reflexivity|]. apply winv_add_pool; [done|]. destruct p. by apply (wi_alloc _ Hw).
  - destruct (pool_allot (w_heap w) now p c) as [[h q]| |] eqn:Ha;
      [|by rewrite (allot_ok _ _ _ _ _ _ Hx Hy) in Ha..].
    eexists. split; [reflexivity|]. by eapply winv_allot.
  - unfold remint_root, lock. rewrite Hx; cbn. rewrite Hy; cbn. eexists. split; [reflexivity|].
    by apply winv_remint.
  - rewrite (charge_cases _ _ _ _ _ _ Hx Hy). destruct (reject_charge now x y c); [by eauto|].
    eexists. split; [reflexivity|]. by apply winv_charge.
  - destruct (record_compaction_ok _ p n b y Hy) as (H1&_&Hn).
    destruct (record_compaction (w_heap w) p n b) as [h r]. cbn in H1, Hn. subst h.
    eexists. split; [by destruct r|]. by apply (winv_guard w p y [b]).
  - unfold rehydrate_subagent_compact_guard, lock. rewrite Hy. cbn. eexists. split; [reflexivity|].
    destruct b; [|by apply winv_guard]. pose proof (winv_guard w p y (fs ++ [true]) Hw Hy) as H.
    by rewrite foldl_app in H.
  - unfold turn_allow_retry, lock, retry_handle. rewrite Hg. cbn.
    pose proof (guard_allow_ok g Hog) as Hr. destruct (guard_allow_retry g) as [g' b].
    eexists. split; [reflexivity|]. by eapply winv_set_retry.
  - unfold turn_reset, lock, retry_handle. rewrite Hg. cbn. eexists. split; [reflexivity|].
    apply (winv_set_retry _ _ _ _ (w_retried w) Hw Hg). unfold retry_ok, guard_reset_turn in *. cbn in *. lia.
  - unfold extend_rounds_ledger, lock. rewrite Hx. cbn. eexists. split; [reflexivity|].
    eapply winv_set_ledger; [done|done| |by intros []]. apply ledger_set_ceiling_ok; [done|].
    by apply extend_max_ok, Ho; apply Hox.
  - unfold extend_rounds_local, lock. rewrite Hy. cbn. eexists. split; [reflexivity|].
    eapply winv_set_local; [done|done| |by intros []|done]. apply local_set_ceiling_ok; [done|].
    by apply extend_max_ok, Ho; apply Hoy.
Qed.

Lemma winv_empty : winv empty_world.
Proof. constructor; cbn; try set_solver; intros ? ?; by rewrite lookup_empty. Qed.

Lemma winv_run w ops :
  winv w -> ops_ok ops -> exists w', budget_run w ops = Ok w' /\ winv w'.
Proof.
  revert w. induction ops as [|[now o] ops IH]; intros w Hw Ho; [by eauto|].
  apply Forall_cons in Ho as [Ho Hos]. destruct (winv_step w now o Hw Ho) as (w1&H1&Hw1).
  destruct (IH w1 Hw1 Hos) as (w2&H2&Hw2). exists w2. cbn. by rewrite H1.
Qed.

(** Worlds a program can build. *)
Definition reachable (w : World) : Prop := exists ops, ops_ok ops /\ budget_run empty_world ops = Ok w.
Lemma reachable_winv w : reachable w -> winv w.
Proof.
  intros (ops&Ho&Hr). destruct (winv_run _ ops winv_empty Ho) as (w'&Hr'&Hw).
  rewrite Hr in Hr'. by injection Hr' as ->.
Qed.

(** ** Ledger exactness *)

(** Spend is booked exactly. However handles are created, shared, allotted, reminted
    and charged, a ledger's spend in each dimension is the sum of all accepted charges
    through handles of that ledger, and a local cap's spend the sum of those through
    handles of that cap, up to the saturation of [u64]: no charge is lost, counted twice
    or booked on a stranger's ledger. *)
Theorem budget_spend_exact (w : World) (p : BudgetPool) (d : BudgetDimension) :
  reachable w -> p ∈ w_pools w ->
  exists x y, hp_ledgers (w_heap w) !! bp_ledger p = Some x /\ hp_locals (w_heap w) !! bp_local p = Some y /\
    ledger_spent x d = Z.min U64_MAX (log_total bp_ledger (bp_ledger p) d (w_log w)) /\
    local_spent y d = Z.min U64_MAX (log_total bp_local (bp_local p) d (w_log w)).
Proof.
  intros Hr Hp. pose proof (reachable_winv w Hr) as Hw. destruct (wi_alloc _ Hw p Hp) as ([x Hx]&[y Hy]&_).
  exists x, y. split; [done|]. split; [done|]. split; [by apply (wi_ledger _ Hw)|by apply (wi_local _ Hw)].
Qed.

(** C35: Budget code is type-safe. In every reachable world each handle points to a live
    ledger, local cap and retry guard, every counter and ceiling is within its Rust
    type, and any further call with typed arguments returns: no arithmetic overflows,
    no location dangles. *)
Theorem budget_type_safe (w : World) (now : nat -> Z) (o : Op) :
  reachable w -> op_ok o ->
  (forall p, p ∈ w_pools w -> exists x y g,
     hp_ledgers (w_heap w) !! bp_ledger p = Some x /\ hp_locals (w_heap w) !! bp_local p = Some y /\
     hp_retries (w_heap w) !! bp_retry_guard p = Some g /\ ledger_ok x /\ local_ok y /\ retry_ok g) /\
  exists w', budget_step w now o = Ok w'.
Proof.
  intros Hr Ho. pose proof (reachable_winv w Hr) as Hw. split.
  - intros p Hp. destruct (wi_alloc _ Hw p Hp) as ([x Hx]&[y Hy]&[g Hg]). exists x, y, g.
    do 3 (split; [done|]). split; [by eapply (wi_ledger _ Hw)|]. split; [by eapply (wi_local _ Hw)|by eapply (wi_retry _ Hw)].
  - destruct (winv_step w now o Hw Ho) as (w'&H&_). by exists w'.
Qed.

(** ** What an accepted charge satisfies *)

(** Below its ceiling in every dimension, wall clock included. *)
Definition has_room (b : ResolvedDelegationBudget) (s : BudgetSpend) : Prop :=
  forall d m, ceiling_of b d = Some m -> spend_in s d < m.
(** Within its ceiling once the charge is added. *)
Definition fits (b : ResolvedDelegationBudget) (s : BudgetSpend) (c : BudgetCharge) : Prop :=
  forall d m, d <> WallClock -> ceiling_of b d = Some m -> saturating_add (spend_in s d) (amount c d) <= m.
(** A cost ceiling some configuration layer set. *)
Definition wants_price (b : ResolvedDelegationBudget) : Prop :=
  rb_cost_ceiling_configured b = true /\ is_Some (rb_max_cost_microusd b).

Lemma is_some_and_false (o : option Z) (f : Z -> bool) :
  is_some_and o f = false <-> forall m, o = Some m -> f m = false.
Proof. destruct o; cbn; split; [intros ? ? [= <-]; done|auto|done|done]. Qed.

Lemma at_cap_spec b s : dimension_at_or_over_cap b s = None <-> has_room b s.
Proof.
  unfold dimension_at_or_over_cap, has_room. split.
  - repeat case_match; try done. intros _.
    repeat match goal with H : is_some_and _ _ = false |- _ => rewrite is_some_and_false in H end.
    intros [] m Hm; cbn in *;
      match goal with H : forall m, _ = Some m -> _ |- _ => specialize (H m Hm); lia end.
  - intros H. pose proof (H Rounds) as H1. pose proof (H InputTokens) as H2. pose proof (H OutputTokens) as H3.
    pose proof (H Cost) as H4. pose proof (H WallClock) as H5. cbn in *.
    repeat (rewrite (proj2 (is_some_and_false _ _)); [|intros m Hm; naive_solver lia]). done.
Qed.
Lemma exceed_spec b s c : would_exceed b (project_spend s c) = None <-> fits b s c.
Proof.
  unfold would_exceed, fits. cbn. split.
  - repeat case_match; try done. intros _.
    repeat match goal with H : is_some_and _ _ = false |- _ => rewrite is_some_and_false in H end.
    intros [] m Hd Hm; cbn in *; try done;
      match goal with H : forall m, _ = Some m -> _ |- _ => specialize (H m Hm); lia end.
  - intros H. assert (Hd : forall d m, bool_decide (d = WallClock) = false -> ceiling_of b d = Some m ->
      saturating_add (spend_in s d) (amount c d) <= m) by (intros d m E%bool_decide_eq_false; by apply H).
    pose proof (fun m => Hd Rounds m eq_refl) as H1. pose proof (fun m => Hd InputTokens m eq_refl) as H2.
    pose proof (fun m => Hd OutputTokens m eq_refl) as H3. pose proof (fun m => Hd Cost m eq_refl) as H4. cbn in *.
    clear H Hd.
    repeat (rewrite (proj2 (is_some_and_false _ _)); [|intros m Hm; apply Z.ltb_ge; eauto]). done.
Qed.
Lemma unpriced_spec b : unpriced_cost_blocked b = true <-> wants_price b.
Proof. unfold unpriced_cost_blocked, wants_price. destruct (rb_cost_ceiling_configured b), (rb_max_cost_microusd b); cbn; naive_solver. Qed.

Lemma reject_spec now x y c :
  reject_charge now x y c = None <->
  (0 < ch_rounds c -> has_room (sl_ceiling x) (spend_of_ledger x (now 0%nat)) /\
                      has_room (lc_ceiling y) (spend_of_local y (now 1%nat))) /\
  fits (sl_ceiling x) (spend_of_ledger x (now 0%nat)) c /\
  fits (lc_ceiling y) (spend_of_local y (now 1%nat)) c /\
  (ch_unpriced_cost c = true -> ~ wants_price (sl_ceiling x) /\ ~ wants_price (lc_ceiling y)).
Proof.
  rewrite <- !at_cap_spec, <- !exceed_spec, <- !unpriced_spec, !not_true_iff_false. unfold reject_charge.
  destruct (Z.ltb_spec 0 (ch_rounds c)) as [Hr|Hr];
    destruct (dimension_at_or_over_cap _ _); destruct (dimension_at_or_over_cap _ _);
    destruct (would_exceed _ _); destruct (would_exceed _ _);
    destruct (ch_unpriced_cost c), (unpriced_cost_blocked _), (unpriced_cost_blocked _); cbn;
    (split; [intros [=]; repeat split; first [lia|done]|intros (H1&H2&H3&H4); try done]);
    first [by destruct (H1 Hr)|by destruct (H4 eq_refl)].
Qed.

(** A charge is accepted exactly when it fits: with rounds in it, both the ledger and
    the local cap must be strictly below every ceiling, wall clock included; the spend
    it leads to must be within every ceiling of both; and it may lack a price only where
    no layer configured a cost ceiling. An accepted charge adds exactly its amounts to
    both; a refused one changes nothing, and the reported snapshot is the state that
    refused it. *)
Theorem budget_charge_exact (w : World) (now : nat -> Z) (p : BudgetPool) (c : BudgetCharge) :
  reachable w -> p ∈ w_pools w ->
  exists x y, hp_ledgers (w_heap w) !! bp_ledger p = Some x /\ hp_locals (w_heap w) !! bp_local p = Some y /\
  let s := spend_of_ledger x (now 0%nat) in let t := spend_of_local y (now 1%nat) in
  ((0 < ch_rounds c -> has_room (sl_ceiling x) s /\ has_room (lc_ceiling y) t) /\
   fits (sl_ceiling x) s c /\ fits (lc_ceiling y) t c /\
   (ch_unpriced_cost c = true -> ~ wants_price (sl_ceiling x) /\ ~ wants_price (lc_ceiling y)) /\
   pool_charge (w_heap w) now p c =
     Ok (set_local (set_ledger (w_heap w) (bp_ledger p) (ledger_add x c)) (bp_local p) (local_add y c))) \/
  (exists e, pool_charge (w_heap w) now p c = Err e /\
     sn_ceiling (ex_snapshot e) = sl_ceiling x /\ sn_local_ceiling (ex_snapshot e) = lc_ceiling y /\
     ~ ((0 < ch_rounds c -> has_room (sl_ceiling x) s /\ has_room (lc_ceiling y) t) /\
        fits (sl_ceiling x) s c /\ fits (lc_ceiling y) t c /\
        (ch_unpriced_cost c = true -> ~ wants_price (sl_ceiling x) /\ ~ wants_price (lc_ceiling y)))).
Proof.
  intros Hr Hp. pose proof (reachable_winv w Hr) as Hw. destruct (wi_alloc _ Hw p Hp) as ([x Hx]&[y Hy]&_).
  exists x, y. split; [done|]. split; [done|]. cbn zeta.
  rewrite (charge_cases _ _ _ _ _ _ Hx Hy). pose proof (reject_spec now x y c) as Hs.
  destruct (reject_charge now x y c) as [d|].
  - right. eexists. split; [reflexivity|]. do 2 (split; [done|]). intros H. by apply Hs in H.
  - left. destruct (proj1 Hs eq_refl) as (H1&H2&H3&H4). exact (conj H1 (conj H2 (conj H3 (conj H4 eq_refl)))).
Qed.

(** ** How a step moves the ledgers, caps and guards *)

(** The heap only grows, spend only grows, clocks keep their origin. *)
Record evolves (h h' : Heap) : Prop := {
  ev_ledger : forall l x, hp_ledgers h !! l = Some x -> exists x', hp_ledgers h' !! l = Some x' /\
    (forall d, ledger_spent x d <= ledger_spent x' d) /\ sl_started_at x' = sl_started_at x;
  ev_local : forall l y, hp_locals h !! l = Some y -> exists y', hp_locals h' !! l = Some y' /\
    (forall d, local_spent y d <= local_spent y' d) /\ lc_started_at y' = lc_started_at y }.
#[export] Instance evolves_preorder : PreOrder evolves.
Proof.
  split.
  - intros h. constructor; intros l x Hx; exists x; repeat split; auto; intros; lia.
  - intros h1 h2 h3 [A1 A2] [B1 B2]. constructor.
    + intros l x Hx. destruct (A1 l x Hx) as (x1&Hx1&H1&E1). destruct (B1 l x1 Hx1) as (x2&Hx2&H2&E2).
      exists x2. split; [done|]. split; [|congruence]. intros d. etrans; [apply H1|apply H2].
    + intros l x Hx. destruct (A2 l x Hx) as (x1&Hx1&H1&E1). destruct (B2 l x1 Hx1) as (x2&Hx2&H2&E2).
      exists x2. split; [done|]. split; [|congruence]. intros d. etrans; [apply H1|apply H2].
Qed.

Lemma evolves_set_ledger h l x x' :
  hp_ledgers h !! l = Some x -> (forall d, ledger_spent x d <= ledger_spent x' d) ->
  sl_started_at x' = sl_started_at x -> evolves h (set_ledger h l x').
Proof.
  intros Hl Hs He. constructor; cbn.
  - intros k z Hz. destruct (decide (l = k)) as [<-|].
    + simplify_map_eq. by exists x'.
    + exists z. rewrite lookup_insert_ne by done. split; [done|]. split; [intros; lia|done].
  - intros k z Hz. exists z. split; [done|]. split; [intros; lia|done].
Qed.
Lemma evolves_set_local h l y y' :
  hp_locals h !! l = Some y -> (forall d, local_spent y d <= local_spent y' d) ->
  lc_started_at y' = lc_started_at y -> evolves h (set_local h l y').
Proof.
  intros Hl Hs He. constructor; cbn.
  - intros k z Hz. exists z. split; [done|]. split; [intros; lia|done].
  - intros k z Hz. destruct (decide (l = k)) as [<-|].
    + simplify_map_eq. by exists y'.
    + exists z. rewrite lookup_insert_ne by done. split; [done|]. split; [intros; lia|done].
Qed.
Lemma evolves_alloc h h' :
  (forall l x, hp_ledgers h !! l = Some x -> hp_ledgers h' !! l = Some x) ->
  (forall l y, hp_locals h !! l = Some y -> hp_locals h' !! l = Some y) -> evolves h h'.
Proof.
  intros H1 H2. constructor.
  - intros l x Hx. exists x. split; [by apply H1|]. split; [intros; lia|done].
  - intros l x Hx. exists x. split; [by apply H2|]. split; [intros; lia|done].
Qed.

Lemma lookup_insert_fresh {A} (m : gmap Z A) next l x y :
  (forall l x, m !! l = Some x -> l < next) -> m !! l = Some x -> <[next:=y]> m !! l = Some x.
Proof. intros H Hl. rewrite lookup_insert_ne; [done|]. intros ->. pose proof (H _ _ Hl). lia. Qed.
Lemma winv_ledger_lt w l x : winv w -> hp_ledgers (w_heap w) !! l = Some x -> l < hp_next (w_heap w).
Proof. intros Hw Hl. by destruct (wi_ledger _ Hw _ _ Hl). Qed.
Lemma winv_local_lt w l x : winv w -> hp_locals (w_heap w) !! l = Some x -> l < hp_next (w_heap w).
Proof. intros Hw Hl. by destruct (wi_local _ Hw _ _ Hl). Qed.
Lemma winv_retry_lt w l x : winv w -> hp_retries (w_heap w) !! l = Some x -> l < hp_next (w_heap w).
Proof. intros Hw Hl. by destruct (wi_retry _ Hw _ _ Hl). Qed.

Lemma sat_le s a : is_u64 s -> is_u64 a -> s <= saturating_add s a.
Proof. ranges. lia. Qed.
Lemma ledger_add_le x c d : ledger_ok x -> charge_ok c -> ledger_spent x d <= ledger_spent (ledger_add x c) d.
Proof.
  intros Hx Hc. rewrite ledger_add_spent. case_bool_decide as E; [by subst|].
  apply sat_le; [by apply Hx|by apply amount_u64].
Qed.
Lemma local_add_le y c d : local_ok y -> charge_ok c -> local_spent y d <= local_spent (local_add y c) d.
Proof.
  intros Hx Hc. rewrite local_add_spent. case_bool_decide as E; [by subst|].
  apply sat_le; [by apply Hx|by apply amount_u64].
Qed.
Lemma same_ledger_le x c d : ledger_spent x d <= ledger_spent (ledger_set_ceiling x c) d.
Proof. destruct d; cbn; lia. Qed.
Lemma same_local_le x c d : local_spent x d <= local_spent (local_set_ceiling x c) d.
Proof. destruct d; cbn; lia. Qed.
Lemma same_guard_le x g d : local_spent x d <= local_spent (local_set_guard x g) d.
Proof. destruct d; cbn; lia. Qed.
Create HintDb budget.
#[export] Hint Resolve ledger_add_le local_add_le same_ledger_le same_local_le same_guard_le : budget.

(** Allocation leaves every existing location as it was. *)
Record extends (h h' : Heap) : Prop := {
  ex_ledgers : forall l x, hp_ledgers h !! l = Some x -> hp_ledgers h' !! l = Some x;
  ex_locals : forall l x, hp_locals h !! l = Some x -> hp_locals h' !! l = Some x;
  ex_retries : forall l x, hp_retries h !! l = Some x -> hp_retries h' !! l = Some x }.

(** The step function as a relation, one rule per way the world changes. *)
Inductive effect (w : World) (now : nat -> Z) : Op -> World -> Prop :=
| eff_refused o : effect w now o w
| eff_handle o h p :
    match o with ONew _ | OShare _ | OAllot _ _ => True | _ => False end ->
    extends (w_heap w) h -> effect w now o (add_pool (set_heap w h) p)
| eff_remint i c p x y :
    hp_ledgers (w_heap w) !! bp_ledger p = Some x -> hp_locals (w_heap w) !! bp_local p = Some y ->
    effect w now (ORemint i c)
      (set_heap w (set_local (set_ledger (w_heap w) (bp_ledger p) (ledger_set_ceiling x c))
                             (bp_local p) (local_set_ceiling y c)))
| eff_charge i c p x y :
    p ∈ w_pools w ->
    hp_ledgers (w_heap w) !! bp_ledger p = Some x -> hp_locals (w_heap w) !! bp_local p = Some y ->
    reject_charge now x y c = None ->
    effect w now (OCharge i c)
      (log_charge (set_heap w (set_local (set_ledger (w_heap w) (bp_ledger p) (ledger_add x c))
                                         (bp_local p) (local_add y c))) p c)
| eff_guard o p y g fs :
    match o with OCompact _ _ _ | ORehydrate _ _ _ => True | _ => False end ->
    hp_locals (w_heap w) !! bp_local p = Some y ->
    effect w now o (log_compactions (set_heap w (set_local (w_heap w) (bp_local p) (local_set_guard y g))) p fs)
| eff_retry i p g :
    w_pools w !! i = Some p -> hp_retries (w_heap w) !! bp_retry_guard p = Some g ->
    effect w now (ORetry i)
      (mkWorld (set_retry (w_heap w) (bp_retry_guard p) (guard_allow_retry g).1) (w_pools w) (w_log w)
         (if (guard_allow_retry g).2 then bp_retry_guard p :: w_retried w else w_retried w) (w_compactions w))
| eff_reset i p g :
    w_pools w !! i = Some p -> hp_retries (w_heap w) !! bp_retry_guard p = Some g ->
    effect w now (OReset i) (set_heap w (set_retry (w_heap w) (bp_retry_guard p) (guard_reset_turn g)))
| eff_extend_ledger i e p x :
    hp_ledgers (w_heap w) !! bp_ledger p = Some x ->
    effect w now (OExtendLedger i e)
      (set_heap w (set_ledger (w_heap w) (bp_ledger p) (ledger_set_ceiling x (extend_max (sl_ceiling x) e))))
| eff_extend_local i e p y :
    hp_locals (w_heap w) !! bp_local p = Some y ->
    effect w now (OExtendLocal i e)
      (set_heap w (set_local (w_heap w) (bp_local p) (local_set_ceiling y (extend_max (lc_ceiling y) e)))).

Lemma extends_new w now c : winv w -> extends (w_heap w) (pool_new (w_heap w) now c).1.
Proof.
  intros Hw. constructor; cbn; intros l x Hl; apply lookup_insert_fresh; try done; intros k z Hk;
    [pose proof (winv_ledger_lt _ _ _ Hw Hk)|pose proof (winv_local_lt _ _ _ Hw Hk)|pose proof (winv_retry_lt _ _ _ Hw Hk)]; lia.
Qed.
Lemma extends_allot w now p c h q :
  winv w -> p ∈ w_pools w -> pool_allot (w_heap w) now p c = Ok (h, q) -> extends (w_heap w) h.
Proof.
  intros Hw Hp Ha. destruct (wi_alloc _ Hw p Hp) as ([x Hx]&[y Hy]&_).
  rewrite (allot_ok _ _ _ _ _ _ Hx Hy) in Ha. injection Ha as <- <-.
  constructor; cbn; intros l z Hl; [done|apply lookup_insert_fresh; try done..]; intros k u Hk;
    [pose proof (winv_local_lt _ _ _ Hw Hk)|pose proof (winv_retry_lt _ _ _ Hw Hk)]; lia.
Qed.

Lemma step_effect w now o w' : winv w -> budget_step w now o = Ok w' -> effect w now o w'.
Proof.
  intros Hw Hs. destruct o as [c|i|i c|i c|i c|i n b|i fs b|i|i|i e|i e]; cbn [budget_step] in Hs.
  { pose proof (extends_new w now c Hw) as He. destruct (pool_new (w_heap w) now c) as [h p].
    injection Hs as <-. by constructor. }
  all: unfold with_pool in Hs; destruct (w_pools w !! i) as [p|] eqn:Hi; [|injection Hs as <-; constructor];
    step_handle Hw Hi.
  - injection Hs as <-. by apply (eff_handle w now _ (w_heap w)).
  - destruct (pool_allot (w_heap w) now p c) as [[h q]| |] eqn:Ha; [|done..]. injection Hs as <-.
    constructor; [done|]. by eapply extends_allot.
  - unfold remint_root, lock in Hs. rewrite Hx in Hs; cbn in Hs. rewrite Hy in Hs; cbn in Hs.
    injection Hs as <-. by constructor.
  - rewrite (charge_cases _ _ _ _ _ _ Hx Hy) in Hs. destruct (reject_charge now x y c) eqn:Hr;
      injection Hs as <-; by constructor.
  - destruct (record_compaction_ok _ p n b y Hy) as (H1&_&Hn).
    destruct (record_compaction (w_heap w) p n b) as [h r]. cbn in H1, Hn. subst h.
    destruct r; [..|done]; injection Hs as <-; by constructor.
  - unfold rehydrate_subagent_compact_guard, lock in Hs. rewrite Hy in Hs. injection Hs as <-. by constructor.
  - unfold turn_allow_retry, lock, retry_handle in Hs. rewrite Hg in Hs. cbn in Hs.
    rewrite (surjective_pairing (guard_allow_retry g)) in Hs. injection Hs as <-. by constructor.
  - unfold turn_reset, lock, retry_handle in Hs. rewrite Hg in Hs. injection Hs as <-. by constructor.
  - unfold extend_rounds_ledger, lock in Hs. rewrite Hx in Hs. injection Hs as <-. by constructor.
  - unfold extend_rounds_local, lock in Hs. rewrite Hy in Hs. injection Hs as <-. by constructor.
Qed.

Lemma step_evolves w now o w' :
  winv w -> op_ok o -> budget_step w now o = Ok w' -> evolves (w_heap w) (w_heap w').
Proof.
  intros Hw Ho Hs. apply step_effect in Hs; [|done].
  assert (Hox : forall l x, hp_ledgers (w_heap w) !! l = Some x -> ledger_ok x)
    by (intros l x Hl; by apply (wi_ledger _ Hw _ _ Hl)).
  assert (Hoy : forall l y, hp_locals (w_heap w) !! l = Some y -> local_ok y)
    by (intros l y Hl; by apply (wi_local _ Hw _ _ Hl)).
  destruct Hs; cbn in *; try done.
  - match goal with H : extends _ _ |- _ => destruct H end. by apply evolves_alloc.
  - etrans; [eapply evolves_set_ledger|eapply evolves_set_local]; eauto with budget.
  - etrans; [eapply evolves_set_ledger|eapply evolves_set_local]; eauto with budget.
  - eapply evolves_set_local; eauto with budget.
  - by apply evolves_alloc.
  - by apply evolves_alloc.
  - eapply evolves_set_ledger; eauto with budget.
  - eapply evolves_set_local; eauto with budget.
Qed.

Lemma run_evolves w ops w' :
  winv w -> ops_ok ops -> budget_run w ops = Ok w' -> evolves (w_heap w) (w_heap w').
Proof.
  revert w. induction ops as [|[now o] ops IH]; intros w Hw Ho Hr; cbn in Hr; [by injection Hr as ->|].
  apply Forall_cons in Ho as [Ho Hos]. destruct (winv_step w now o Hw Ho) as (w1&H1&Hw1).
  rewrite H1 in Hr. etrans; [by eapply step_evolves|by eapply IH].
Qed.

(** Spend is never forgiven. Across any sequence of calls, reminting, allotting and
    extending included, every ledger and local cap stays, its spend in each dimension
    never goes down and its wall-clock origin never moves. *)
Theorem budget_spend_monotone (w w' : World) (ops : list ((nat -> Z) * Op)) :
  reachable w -> ops_ok ops -> budget_run w ops = Ok w' -> evolves (w_heap w) (w_heap w').
Proof. intros Hr Ho Hrun. eapply run_evolves; [by apply reachable_winv|done|done]. Qed.

(** ** Ceilings *)

Lemma ledger_total_fits w now p c x y d m :
  winv w -> p ∈ w_pools w -> charge_ok c -> hp_ledgers (w_heap w) !! bp_ledger p = Some x ->
  reject_charge now x y c = None -> d <> WallClock -> ceiling_of (sl_ceiling x) d = Some m -> m < U64_MAX ->
  amount c d + log_total bp_ledger (bp_ledger p) d (w_log w) <= m.
Proof.
  intros Hw Hp Hc Hx Hr Hd Hm Hlt. apply reject_spec in Hr as (_&Hf&_). specialize (Hf d m Hd Hm).
  destruct (wi_ledger _ Hw _ _ Hx) as (_&_&Ht). specialize (Ht d).
  replace (spend_in (spend_of_ledger x (now 0%nat)) d) with (ledger_spent x d) in Hf by (by destruct d).
  pose proof (amount_u64 c d Hc). rewrite Ht in Hf.
  assert (0 <= log_total bp_ledger (bp_ledger p) d (w_log w))
    by (apply log_total_nonneg; intros e He; by apply (wi_log _ Hw)).
  ranges. lia.
Qed.
Lemma local_total_fits w now p c x y d m :
  winv w -> p ∈ w_pools w -> charge_ok c -> hp_locals (w_heap w) !! bp_local p = Some y ->
  reject_charge now x y c = None -> d <> WallClock -> ceiling_of (lc_ceiling y) d = Some m -> m < U64_MAX ->
  amount c d + log_total bp_local (bp_local p) d (w_log w) <= m.
Proof.
  intros Hw Hp Hc Hy Hr Hd Hm Hlt. apply reject_spec in Hr as (_&_&Hf&_). specialize (Hf d m Hd Hm).
  destruct (wi_local _ Hw _ _ Hy) as (_&_&Ht&_). specialize (Ht d).
  replace (spend_in (spend_of_local y (now 1%nat)) d) with (local_spent y d) in Hf by (by destruct d).
  pose proof (amount_u64 c d Hc). rewrite Ht in Hf.
  assert (0 <= log_total bp_local (bp_local p) d (w_log w))
    by (apply log_total_nonneg; intros e He; by apply (wi_log _ Hw)).
  ranges. lia.
Qed.

(** C13: The tree never overspends. When a charge is accepted, everything ever accepted
    through any handle of that ledger, this charge included, is within the ledger's
    ceiling, and everything through the local cap within the cap's: in each recorded
    dimension whose ceiling is finite and below [u64::MAX], in unbounded arithmetic,
    whatever was shared, allotted, reminted or extended before. *)
Theorem budget_never_overspent (w w' : World) (now : nat -> Z) (i : nat) (p : BudgetPool) (c : BudgetCharge)
    (d : BudgetDimension) :
  reachable w -> charge_ok c -> w_pools w !! i = Some p -> d <> WallClock ->
  budget_step w now (OCharge i c) = Ok w' -> w_log w' <> w_log w ->
  exists x y, hp_ledgers (w_heap w') !! bp_ledger p = Some x /\ hp_locals (w_heap w') !! bp_local p = Some y /\
  (forall m, ceiling_of (sl_ceiling x) d = Some m -> m < U64_MAX -> log_total bp_ledger (bp_ledger p) d (w_log w') <= m) /\
  (forall m, ceiling_of (lc_ceiling y) d = Some m -> m < U64_MAX -> log_total bp_local (bp_local p) d (w_log w') <= m).
Proof.
  intros Hr Hc Hi Hd Hs Hn. pose proof (reachable_winv w Hr) as Hw. cbn [budget_step] in Hs.
  unfold with_pool in Hs. rewrite Hi in Hs. step_handle Hw Hi.
  rewrite (charge_cases _ _ _ _ _ _ Hx Hy) in Hs. destruct (reject_charge now x y c) eqn:Hj;
    injection Hs as <-; [done|].
  exists (ledger_add x c), (local_add y c). cbn. simplify_map_eq. rewrite !Z.eqb_refl.
  do 2 (split; [done|]). split; intros m Hm Hlt.
  - by eapply ledger_total_fits.
  - by eapply local_total_fits.
Qed.

(** ** Rounds *)

(** Accepted charges that dispatched a provider turn on a ledger. *)
Fixpoint turns_on (l : Z) (log : list (BudgetPool * BudgetCharge)) : Z :=
  match log with
  | [] => 0
  | (p, c) :: log => (if (bp_ledger p =? l) && (0 <? ch_rounds c) then 1 else 0) + turns_on l log
  end.
(** Calls that leave ledger ceilings alone. *)
Definition keeps_ceilings (o : Op) : bool :=
  match o with ORemint _ _ | OExtendLedger _ _ => false | _ => true end.

(** A call that leaves the ceilings alone uses up a round for each turn it admits. *)
Lemma step_turns w now o w' l x m :
  winv w -> op_ok o -> keeps_ceilings o = true -> budget_step w now o = Ok w' ->
  hp_ledgers (w_heap w) !! l = Some x -> rb_max_rounds (sl_ceiling x) = Some m ->
  exists x', hp_ledgers (w_heap w') !! l = Some x' /\ sl_ceiling x' = sl_ceiling x /\
    (turns_on l (w_log w') = turns_on l (w_log w) /\ sl_spent_rounds x <= sl_spent_rounds x' \/
     turns_on l (w_log w') = 1 + turns_on l (w_log w) /\ sl_spent_rounds x + 1 <= sl_spent_rounds x' <= m).
Proof.
  intros Hw Ho Hk Hs Hl Hm. apply step_effect in Hs; [|done].
  assert (Hsame : forall w' x', hp_ledgers (w_heap w') !! l = Some x' -> sl_ceiling x' = sl_ceiling x ->
    w_log w' = w_log w -> sl_spent_rounds x <= sl_spent_rounds x' ->
    exists x', hp_ledgers (w_heap w') !! l = Some x' /\ sl_ceiling x' = sl_ceiling x /\
    (turns_on l (w_log w') = turns_on l (w_log w) /\ sl_spent_rounds x <= sl_spent_rounds x' \/
     turns_on l (w_log w') = 1 + turns_on l (w_log w) /\ sl_spent_rounds x + 1 <= sl_spent_rounds x' <= m)).
  { intros v x' H1 H2 H3 H4. exists x'. rewrite H3. auto. }
  destruct Hs as [o|o h p Hm' [He _ _]| |i c p z y Hp Hz Hy Hj| | | | |]; try done;
    try (apply (Hsame _ x); cbn; done || (by apply He) || lia).
  cbn. destruct (Z.eqb_spec (bp_ledger p) l) as [<-|Hne]; cbn.
  - simplify_map_eq. eexists. split; [reflexivity|]. split; [done|]. cbn.
    pose proof (amount_u64 c Rounds Ho) as Hu. pose proof (lo_spent _ (proj1 (proj2 (wi_ledger _ Hw _ _ Hz))) Rounds) as Hsp.
    pose proof (bo_rounds _ (lo_ceiling _ (proj1 (proj2 (wi_ledger _ Hw _ _ Hz))))) as Hmax. rewrite Hm in Hmax.
    cbn in Hu, Hsp, Hmax. apply reject_spec in Hj as (Hroom&Hf&_).
    specialize (Hf Rounds m ltac:(done) Hm). cbn in Hf.
    destruct (Z.ltb_spec 0 (ch_rounds c)) as [Hr|Hr]; [right|left].
    + destruct (Hroom Hr) as [Hroom1 _]. specialize (Hroom1 Rounds m Hm). cbn in Hroom1.
      split; [done|]. ranges. lia.
    + split; [done|]. by apply sat_le.
  - exists x. rewrite lookup_insert_ne by done. split; [done|]. split; [done|]. left. split; lia.
Qed.

(** C32: Delegation terminates. As long as nobody raises a ledger's ceiling, at most its
    remaining rounds are ever admitted, over the root and all its shares and
    descendants together and in any interleaving: the number of provider turns a
    delegation tree dispatches is bounded, and an exhausted ledger dispatches none. *)
Theorem budget_turns_bounded (w w' : World) (ops : list ((nat -> Z) * Op)) (l : Z) (x : SharedLedger) (m : Z) :
  reachable w -> ops_ok ops -> Forall (fun e => keeps_ceilings e.2 = true) ops ->
  hp_ledgers (w_heap w) !! l = Some x -> rb_max_rounds (sl_ceiling x) = Some m ->
  budget_run w ops = Ok w' ->
  turns_on l (w_log w') - turns_on l (w_log w) <= Z.max 0 (m - sl_spent_rounds x).
Proof.
  intros Hr%reachable_winv. revert w x Hr.
  induction ops as [|[now o] ops IH]; intros w x Hw Ho Hk Hl Hm Hrun; cbn in Hrun.
  { injection Hrun as ->. lia. }
  apply Forall_cons in Ho as [Ho Hos]. apply Forall_cons in Hk as [Hk Hks].
  destruct (winv_step w now o Hw Ho) as (w1&H1&Hw1). rewrite H1 in Hrun.
  destruct (step_turns w now o w1 l x m Hw Ho Hk H1 Hl Hm) as (x1&Hl1&Hc1&Ht).
  specialize (IH w1 x1 Hw1 Hos Hks Hl1 ltac:(by rewrite Hc1) Hrun). lia.
Qed.

(** ** Retry pacing *)

Definition retries_on (r : Z) (l : list Z) : Z := zlen (filter (fun k => k = r) l).
Lemma retries_on_cons r k l : retries_on r (k :: l) = (if k =? r then 1 else 0) + retries_on r l.
Proof.
  unfold retries_on. rewrite filter_cons. destruct (Z.eqb_spec k r); case_decide; try done. by rewrite zlen_cons.
Qed.
Definition is_reset (o : Op) : bool := match o with OReset _ => true | _ => false end.

Lemma step_retries w now o w' r g :
  winv w -> is_reset o = false -> budget_step w now o = Ok w' -> hp_retries (w_heap w) !! r = Some g ->
  exists g', hp_retries (w_heap w') !! r = Some g' /\ rg_max_retries_per_turn g' = rg_max_retries_per_turn g /\
    rg_retries_this_turn g' - rg_retries_this_turn g = retries_on r (w_retried w') - retries_on r (w_retried w).
Proof.
  intros Hw Hn Hs Hg. apply step_effect in Hs; [|done].
  destruct Hs as [o|o h p Hm' [_ _ He]| | | |i p z Hi Hz| | |]; try done; cbn;
    try (exists g; split; [done || (by apply He)|split; [done|lia]]).
  destruct (wi_retry _ Hw _ _ Hz) as (_&Hoz). unfold guard_allow_retry.
  destruct (Z.leb_spec (rg_max_retries_per_turn z) (rg_retries_this_turn z)) as [Hle|Hlt]; cbn;
    destruct (decide (bp_retry_guard p = r)) as [<-|Hne].
  - simplify_map_eq. eexists. split; [done|]. split; [done|lia].
  - rewrite lookup_insert_ne by done. exists g. split; [done|]. split; [done|lia].
  - simplify_map_eq. eexists. split; [done|]. split; [done|]. cbn. rewrite retries_on_cons, Z.eqb_refl.
    unfold retry_ok in Hoz. ranges. lia.
  - rewrite lookup_insert_ne by done. exists g. split; [done|]. split; [done|].
    rewrite retries_on_cons. destruct (Z.eqb_spec (bp_retry_guard p) r); [done|lia].
Qed.

(** Retries cannot storm. Between two turn resets, all handles sharing a retry guard
    are together allowed exactly the guard's counted retries and never more than its
    maximum, whatever else happens to the budget meanwhile: unlimited spend, reminting
    and new handles lift nothing. *)
Theorem budget_retries_bounded (w w' : World) (ops : list ((nat -> Z) * Op)) (r : Z) (g : RetryPacingGuard) :
  reachable w -> ops_ok ops -> Forall (fun e => is_reset e.2 = false) ops ->
  hp_retries (w_heap w) !! r = Some g -> budget_run w ops = Ok w' ->
  exists g', hp_retries (w_heap w') !! r = Some g' /\
    retries_on r (w_retried w') - retries_on r (w_retried w) = rg_retries_this_turn g' - rg_retries_this_turn g /\
    rg_retries_this_turn g' <= rg_max_retries_per_turn g.
Proof.
  intros Hr%reachable_winv. revert w g Hr.
  induction ops as [|[now o] ops IH]; intros w g Hw Ho Hk Hg Hrun; cbn in Hrun.
  { injection Hrun as <-. exists g. split; [done|]. split; [lia|]. destruct (wi_retry _ Hw _ _ Hg) as (_&[? _]). lia. }
  apply Forall_cons in Ho as [Ho Hos]. apply Forall_cons in Hk as [Hk Hks].
  destruct (winv_step w now o Hw Ho) as (w1&H1&Hw1). rewrite H1 in Hrun.
  destruct (step_retries w now o w1 r g Hw Hk H1 Hg) as (g1&Hg1&Hm1&Ht).
  destruct (IH w1 g1 Hw1 Hos Hks Hg1 Hrun) as (g2&Hg2&Ht2&Hle). exists g2. split; [done|]. lia.
Qed.

(** ** The order on budgets *)

Definition opt_le (a b : option Z) : Prop :=
  match b with None => True | Some y => match a with Some x => x <= y | None => False end end.
(** [a] allows no more than [b]: tighter in every dimension, and asking for a price
    wherever [b] does. *)
Definition budget_le (a b : ResolvedDelegationBudget) : Prop :=
  (forall d, opt_le (ceiling_of a d) (ceiling_of b d)) /\
  (rb_cost_ceiling_configured b = true -> rb_cost_ceiling_configured a = true).

#[export] Instance opt_le_order : PartialOrder opt_le.
Proof.
  split; [split|]; red; unfold opt_le; intros; repeat case_match; simplify_eq; try done; try lia. f_equal. lia.
Qed.
#[export] Instance budget_le_order : PartialOrder budget_le.
Proof.
  split; [split|].
  - intros a. by split.
  - intros a b c [H1 H2] [H3 H4]. split; [|auto]. intros d. etrans; [apply H1|apply H3].
  - intros a b [H1 H2] [H3 H4].
    assert (forall d, ceiling_of a d = ceiling_of b d) as E by (intros d; apply (anti_symm opt_le); auto).
    pose proof (E Rounds). pose proof (E InputTokens). pose proof (E OutputTokens). pose proof (E Cost).
    pose proof (E WallClock). destruct a as [? ? ? ? ? ca], b as [? ? ? ? ? cb]; cbn in *. subst. f_equal.
    destruct ca, cb; naive_solver.
Qed.

Lemma min_opt_glb c a b : opt_le c (min_opt a b) <-> opt_le c a /\ opt_le c b.
Proof. destruct a, b, c; cbn; lia. Qed.
Lemma ceiling_of_intersect a b d : ceiling_of (intersect a b) d = min_opt (ceiling_of a d) (ceiling_of b d).
Proof. by destruct d. Qed.
(** [intersect] is the meet of this order. *)
Lemma intersect_glb c a b : budget_le c (intersect a b) <-> budget_le c a /\ budget_le c b.
Proof.
  unfold budget_le. split.
  - intros [H1 H2]. setoid_rewrite ceiling_of_intersect in H1. setoid_rewrite min_opt_glb in H1.
    cbn in H2. rewrite orb_true_iff in H2. split; (split; [intros d; apply H1|auto]).
  - intros [[H1 H2] [H3 H4]]. split; [|cbn; rewrite orb_true_iff; naive_solver].
    intros d. by rewrite ceiling_of_intersect, min_opt_glb.
Qed.

(** An allotment is the largest budget under what remains. The child charges its
    parent's ledger; its cap starts unspent at a fresh location, and a budget is within
    that cap exactly when it is within the requested ceiling, what the ledger has left
    and what the parent's own cap has left. Nothing that existed before changes. *)
Theorem budget_allot_exact (w : World) (now : nat -> Z) (p : BudgetPool) (c : ResolvedDelegationBudget) :
  reachable w -> p ∈ w_pools w -> budget_ok c ->
  exists x y h q y', hp_ledgers (w_heap w) !! bp_ledger p = Some x /\ hp_locals (w_heap w) !! bp_local p = Some y /\
    pool_allot (w_heap w) now p c = Ok (h, q) /\ shares_ledger_with p q = true /\
    hp_locals (w_heap w) !! bp_local q = None /\ hp_retries (w_heap w) !! bp_retry_guard q = None /\
    extends (w_heap w) h /\ hp_locals h !! bp_local q = Some y' /\ (forall d, local_spent y' d = 0) /\
    forall b, budget_le b (lc_ceiling y') <->
      budget_le b c /\ budget_le b (remaining_after (sl_ceiling x) (spend_of_ledger x (now 0%nat))) /\
      budget_le b (remaining_after (lc_ceiling y) (spend_of_local y (now 1%nat))).
Proof.
  intros Hr Hp Hc. pose proof (reachable_winv w Hr) as Hw. destruct (wi_alloc _ Hw p Hp) as ([x Hx]&[y Hy]&_).
  pose proof (allot_ok _ now _ c _ _ Hx Hy) as Ha. eexists x, y, _, _, _. do 2 (split; [done|]).
  split; [exact Ha|]. split; [apply Z.eqb_refl|]. cbn.
  split. { destruct (hp_locals (w_heap w) !! hp_next (w_heap w)) eqn:E; [|done]. pose proof (winv_local_lt _ _ _ Hw E). lia. }
  split. { destruct (hp_retries (w_heap w) !! (hp_next (w_heap w) + 1)) eqn:E; [|done]. pose proof (winv_retry_lt _ _ _ Hw E). lia. }
  split; [by eapply (extends_allot w now p c)|]. split; [by simplify_map_eq|].
  split; [apply zero_local|]. intros b. cbn. rewrite !intersect_glb. tauto.
Qed.

(** ** Admission *)

Definition all_left (b : ResolvedDelegationBudget) : Prop := forall d m, ceiling_of b d = Some m -> 0 < m.

Lemma fmap_positive (o : option Z) (f : Z -> Z) s :
  (forall z, 0 < f z <-> s < z) ->
  (forall m, f <$> o = Some m -> 0 < m) <-> (forall m, o = Some m -> s < m).
Proof.
  intros Hf. destruct o as [z|]; cbn; [|done].
  split; intros H m [= <-]; apply Hf; by apply H.
Qed.
Lemma sub_positive s z : 0 < saturating_sub z s <-> s < z.
Proof. unfold saturating_sub. lia. Qed.
Lemma clamp_positive s z : 0 < clamp_u32 (saturating_sub z s) <-> s < z.
Proof. unfold clamp_u32. rewrite <- (sub_positive s z). destruct (Z.leb_spec (saturating_sub z s) U32_MAX); [done|]. unfold U32_MAX in *. lia. Qed.
Lemma remaining_positive b s d :
  (forall m, ceiling_of (remaining_after b s) d = Some m -> 0 < m) <->
  (forall m, ceiling_of b d = Some m -> spend_in s d < m).
Proof. destruct d; cbn; apply fmap_positive; intros z; first [apply clamp_positive|apply sub_positive]. Qed.
Lemma min_opt_positive a b :
  (forall m, min_opt a b = Some m -> 0 < m) <-> (forall m, a = Some m -> 0 < m) /\ (forall m, b = Some m -> 0 < m).
Proof.
  destruct a as [x|], b as [y|]; cbn; (split; [intros H|intros [H1 H2]]); [split| |split| |split| |split|];
    intros m [= <-]; try pose proof (H _ eq_refl); try pose proof (H1 _ eq_refl); try pose proof (H2 _ eq_refl); try lia.
Qed.
Lemma room_fits_round b s :
  budget_ok b -> (forall d, 0 <= spend_in s d) -> has_room b s -> fits b s charge_one_round.
Proof.
  intros Hb Hs Hr d m Hd Hm. specialize (Hr d m Hm). specialize (Hs d).
  destruct d; cbn in *; ranges; try done; lia.
Qed.

(** Admission is exactly having something left everywhere. At one instant, peeking
    ([preflight]) agrees with reserving ([charge_round]), and both succeed exactly when
    no dimension of the reported remaining budget, wall clock included, is used up. *)
Theorem budget_admission_exact (w : World) (t : Z) (p : BudgetPool) :
  reachable w -> p ∈ w_pools w ->
  exists s, pool_snapshot (E:=Empty_set) (w_heap w) (fun _ => t) p = Ok s /\
    (preflight (w_heap w) (fun _ => t) p = Ok tt <-> all_left (snapshot_remaining s)) /\
    ((exists h, charge_round (w_heap w) (fun _ => t) p = Ok h) <-> all_left (snapshot_remaining s)).
Proof.
  intros Hr Hp. pose proof (reachable_winv w Hr) as Hw. destruct (wi_alloc _ Hw p Hp) as ([x Hx]&[y Hy]&_).
  destruct (wi_ledger _ Hw _ _ Hx) as (_&Hox&_). destruct (wi_local _ Hw _ _ Hy) as (_&Hoy&_).
  eexists. split; [by apply snapshot_ok|].
  assert (Hall : reject_charge (fun _ => t) x y charge_one_round = None <->
    all_left (intersect (remaining_after (sl_ceiling x) (spend_of_ledger x t))
                        (remaining_after (lc_ceiling y) (spend_of_local y t)))).
  { pose proof (spend_nonneg_ledger x t) as Hnx. pose proof (spend_nonneg_local y t) as Hny.
    rewrite reject_spec. unfold all_left. setoid_rewrite ceiling_of_intersect.
    assert (forall d, (forall m, min_opt (ceiling_of (remaining_after (sl_ceiling x) (spend_of_ledger x t)) d)
        (ceiling_of (remaining_after (lc_ceiling y) (spend_of_local y t)) d) = Some m -> 0 < m) <->
      (forall m, ceiling_of (sl_ceiling x) d = Some m -> spend_in (spend_of_ledger x t) d < m) /\
      (forall m, ceiling_of (lc_ceiling y) d = Some m -> spend_in (spend_of_local y t) d < m)) as Hd.
    { intros d. by rewrite min_opt_positive, !remaining_positive. }
    setoid_rewrite Hd. split.
    - intros (H&_). destruct (H ltac:(done)) as [Ha Hb]. intros d. split; [apply Ha|apply Hb].
    - intros H. assert (has_room (sl_ceiling x) (spend_of_ledger x t)) as Ha by (intros d; apply H).
      assert (has_room (lc_ceiling y) (spend_of_local y t)) as Hb by (intros d; apply H).
      split; [done|]. split; [apply room_fits_round; auto; apply Hox|]. split; [apply room_fits_round; auto; apply Hoy|done]. }
  unfold snapshot_remaining. cbn. rewrite <- Hall. split.
  - unfold preflight, lock. rewrite Hx; cbn. rewrite Hy; cbn. rewrite (snapshot_ok _ _ _ _ _ Hx Hy).
    by destruct (reject_charge _ x y _).
  - unfold charge_round. rewrite (charge_cases _ _ _ _ _ _ Hx Hy). destruct (reject_charge _ x y _); naive_solver.
Qed.

(** ** The compact-and-continue guard *)

(** Compaction loops are cut off. Whoever recorded them and however the guard was
    rehydrated, a further compaction on a cap is refused exactly when it and the
    compactions just before it on that cap, at least three in all, made no progress;
    a compaction with progress is always allowed, and no other call touches the guard. *)
Theorem budget_compaction_cut_off (w : World) (p : BudgetPool) (tokens_after : Z) (forward_progress : bool) :
  reachable w -> p ∈ w_pools w ->
  (record_compaction (w_heap w) p tokens_after forward_progress).2 = Ok tt <->
  (forward_progress = true \/ stalled (bp_local p) (w_compactions w) + 1 < DEFAULT_COMPACT_NO_PROGRESS_LIMIT).
Proof.
  intros Hr Hp. pose proof (reachable_winv w Hr) as Hw. destruct (wi_alloc _ Hw p Hp) as (_&[y Hy]&_).
  destruct (wi_local _ Hw _ _ Hy) as (_&_&_&Hg).
  destruct (record_compaction_ok _ p tokens_after forward_progress y Hy) as (_&->&_). rewrite Hg.
  pose proof (stalled_nonneg (bp_local p) (w_compactions w)). unfold compact_record. destruct forward_progress; cbn.
  - split; [by left|done].
  - unfold saturating_add_u32. unfold DEFAULT_COMPACT_NO_PROGRESS_LIMIT.
    destruct (Z.leb_spec 3 (Z.min U32_MAX (Z.min U32_MAX (stalled (bp_local p) (w_compactions w)) + 1))) as [H1|H1];
      cbn; unfold U32_MAX in *; (split; [intros [=]|intros [?|?]]); first [done|lia|right; lia].
Qed.

(** ** Resolution of the configuration layers *)

(** The setting of a dimension in a layer. *)
Definition setting_of (s : DelegationBudgetSpec) (d : BudgetDimension) : option SpendLimit :=
  match d with
  | Rounds => sp_max_rounds s
  | InputTokens => sp_max_input_tokens s
  | OutputTokens => sp_max_output_tokens s
  | Cost => sp_max_cost_microusd s
  | WallClock => sp_max_wall_clock_secs s
  end.
(** The ceiling a setting means. *)
Definition meaning (d : BudgetDimension) (l : SpendLimit) : option Z :=
  match l with
  | Unlimited => None
  | Finite n => Some (match d with Rounds => Z.min n U32_MAX | WallClock => from_secs n | _ => n end)
  end.
(** The last layer that says anything about a dimension. *)
Fixpoint last_setting (d : BudgetDimension) (layers : list DelegationBudgetSpec) : option SpendLimit :=
  match layers with
  | [] => None
  | s :: layers => match last_setting d layers with Some l => Some l | None => setting_of s d end
  end.
(** The layers, outermost first; the legacy round limit is a layer that only speaks
    when the global configuration is silent about rounds. *)
Definition legacy_layer (config : DelegationBudgetConfig) (max_primary_rounds : Z) : DelegationBudgetSpec :=
  mkSpec (match bc_max_rounds config with
          | None => if 0 <? max_primary_rounds then Some (Finite max_primary_rounds) else None
          | Some _ => None
          end) None None None None.
Definition layers (config : DelegationBudgetConfig) (agent_name : string)
    (agent_runtime per_delegation : option DelegationBudgetSpec) (max_primary_rounds : Z) : list DelegationBudgetSpec :=
  [global_spec config; legacy_layer config max_primary_rounds] ++
  option_list (bc_agents config !! agent_name) ++ option_list agent_runtime ++ option_list per_delegation.

Lemma overlay_ceiling s b d :
  ceiling_of (spec_overlay s b) d =
  match setting_of s d with Some l => meaning d l | None => ceiling_of b d end.
Proof.
  destruct d; cbn; unfold overlay_u32, overlay_u64, overlay_duration; repeat case_match; try done.
  cbn. f_equal. unfold clamp_u32. destruct (Z.leb_spec n U32_MAX); lia.
Qed.
Lemma overlays_ceiling ls b d :
  ceiling_of (foldl (fun b s => spec_overlay s b) b ls) d =
  match last_setting d ls with Some l => meaning d l | None => ceiling_of b d end.
Proof.
  revert b. induction ls as [|s ls IH]; intros b; cbn; [done|]. rewrite IH. case_match; [done|]. apply overlay_ceiling.
Qed.
Lemma overlays_configured ls b :
  rb_cost_ceiling_configured (foldl (fun b s => spec_overlay s b) b ls) = true <->
  rb_cost_ceiling_configured b = true \/ is_Some (last_setting Cost ls).
Proof.
  revert b. induction ls as [|s ls IH]; intros b; cbn [foldl last_setting].
  { split; [by left|]. intros [?|[? ?]]; done. }
  rewrite IH. cbn. rewrite orb_true_iff, negb_true_iff.
  destruct (last_setting Cost ls), (sp_max_cost_microusd s); cbn; split; intros; destruct_or?; try done; eauto;
    naive_solver.
Qed.

Lemma legacy_overlay config b m :
  (forall n, bc_max_rounds config = None -> 0 < n -> n = m -> n <= U32_MAX) ->
  spec_overlay (legacy_layer config m) b =
  if is_none (bc_max_rounds config) && (0 <? m) then set_max_rounds b (Some m) else b.
Proof.
  intros Hm. unfold spec_overlay, legacy_layer, set_max_rounds. destruct b as [? ? ? ? ? cc]. cbn. rewrite orb_false_r.
  destruct (bc_max_rounds config); cbn; [done|]. destruct (Z.ltb_spec 0 m); [|done]. cbn.
  unfold clamp_u32. rewrite (proj2 (Z.leb_le _ _)); [done|by eapply Hm].
Qed.

(** Budgets resolve by the last layer that speaks. For every dimension the resolved
    ceiling is what the innermost of the layers (global, legacy round limit, per-agent,
    host runtime, per-delegation) that sets it says, and the compiled default when none
    does. So unlimited is always somebody's explicit word, never a default, and a price
    is demanded exactly when some layer set a cost ceiling. *)
Theorem budget_resolution_exact (config : DelegationBudgetConfig) (agent_name : string)
    (agent_runtime per_delegation : option DelegationBudgetSpec) (max_primary_rounds : Z) (d : BudgetDimension) :
  is_u32 max_primary_rounds ->
  let r := resolve_delegation_budget config agent_name agent_runtime per_delegation max_primary_rounds in
  let setting := fun d => last_setting d (layers config agent_name agent_runtime per_delegation max_primary_rounds) in
  ceiling_of r d = match setting d with Some l => meaning d l | None => ceiling_of resolved_defaults d end /\
  (ceiling_of r d = None <-> setting d = Some Unlimited) /\
  (rb_cost_ceiling_configured r = true <-> is_Some (setting Cost)).
Proof.
  intros Hm r setting.
  assert (r = foldl (fun b s => spec_overlay s b) resolved_defaults
                (layers config agent_name agent_runtime per_delegation max_primary_rounds)) as ->.
  { subst r. unfold resolve_delegation_budget, layers. rewrite !foldl_app. cbn [foldl].
    rewrite legacy_overlay by (unfold is_u32 in Hm; intros; lia).
    by destruct (bc_agents config !! agent_name), agent_runtime, per_delegation. }
  rewrite overlays_configured. split; [apply overlays_ceiling|]. split.
  - rewrite overlays_ceiling. fold (setting d). destruct (setting d) as [[|n]|]; [done|..].
    + by destruct d.
    + by destruct d.
  - split; [by intros [|]|by right].
Qed.

(** ** A concrete delegation tree *)

Definition rounds_only (m : Z) : ResolvedDelegationBudget := mkResolved (Some m) None None None None false.
Definition at_time (t : Z) : nat -> Z := fun _ => t.
(** A root with ten rounds, a child allotted two, two grandchildren allotted from the
    child, each spending two. *)
Definition tree_ops : list ((nat -> Z) * Op) :=
  [(at_time 0, ONew (rounds_only 10)); (at_time 1, OAllot 0 (rounds_only 2));
   (at_time 2, OAllot 1 (rounds_only 2)); (at_time 2, OAllot 1 (rounds_only 2));
   (at_time 3, OCharge 2 charge_one_round); (at_time 3, OCharge 3 charge_one_round);
   (at_time 4, OCharge 2 charge_one_round); (at_time 4, OCharge 3 charge_one_round)].
Definition tree_world : World := Eval vm_compute in
  match budget_run empty_world tree_ops with Ok w => w | _ => empty_world end.
Definition tree_root : BudgetPool := mkPool 0 1 2.

Lemma rounds_only_ok m : is_u32 m -> budget_ok (rounds_only m).
Proof. intros H. by constructor. Qed.
Lemma charge_round_ok : charge_ok charge_one_round.
Proof. repeat split; by vm_compute. Qed.
Lemma tree_ops_ok : ops_ok tree_ops.
Proof. repeat constructor; cbn; try done; by ranges. Qed.
Lemma tree_reachable : reachable tree_world.
Proof. exists tree_ops. split; [apply tree_ops_ok|]. vm_compute. reflexivity. Qed.

(** A cap does not bound the subtree under it. A reachable tree in which a child's cap
    is two rounds and its two allotted children spend four between them, all accepted:
    only the root ledger bounds a subtree, since a grandchild charges its own cap and
    the ledger and never the cap it was allotted from. *)
Theorem budget_subtree_cap_unenforced :
  exists w child g1 g2 y,
    budget_run empty_world tree_ops = Ok w /\ w_pools w = [tree_root; child; g1; g2] /\
    hp_locals (w_heap w) !! bp_local child = Some y /\
    rb_max_rounds (lc_ceiling y) = Some 2 /\ lc_spent_rounds y = 0 /\
    log_total bp_local (bp_local g1) Rounds (w_log w) + log_total bp_local (bp_local g2) Rounds (w_log w) = 4.
Proof. do 5 eexists. split; [vm_compute; reflexivity|]. repeat split. Qed.

(** An exit drain can lose spend. With a hundred input tokens allowed and a hundred and
    fifty noted on the lane, leaving the scope empties the accumulator, leaves the
    ledger untouched, and the next provider turn is admitted as if nothing was spent. *)
Theorem budget_exit_drain_loses :
  let ceiling := mkResolved None (Some 100) None None None false in
  let '(h, p) := pool_new empty_heap (at_time 0) ceiling in
  let a := note_lane_budget_usage (Some (mkAccumulator charge_default false)) (from_usage (mkUsage 150 0 0 0)) true in
  exit_drain_drop h (at_time 1) a p = Ok (h, Some (mkAccumulator charge_default true)) /\
  is_ok (charge_round h (at_time 2) p) = true.
Proof. vm_compute. split; reflexivity. Qed.

(** ** Witnesses *)

Lemma tree_root_in : tree_root ∈ w_pools tree_world.
Proof. left. Qed.

Lemma budget_spend_exact_witness :
  exists x y, hp_ledgers (w_heap tree_world) !! bp_ledger tree_root = Some x /\
    hp_locals (w_heap tree_world) !! bp_local tree_root = Some y /\
    ledger_spent x Rounds = Z.min U64_MAX (log_total bp_ledger (bp_ledger tree_root) Rounds (w_log tree_world)) /\
    local_spent y Rounds = Z.min U64_MAX (log_total bp_local (bp_local tree_root) Rounds (w_log tree_world)).
Proof. apply (budget_spend_exact tree_world tree_root Rounds); [apply tree_reachable|apply tree_root_in]. Defined.

Lemma budget_type_safe_witness :
  exists w', budget_step tree_world (at_time 5) (ORemint 0 (rounds_only 3)) = Ok w'.
Proof.
  apply (budget_type_safe tree_world (at_time 5) (ORemint 0 (rounds_only 3)));
    [apply tree_reachable|by apply rounds_only_ok; ranges].
Defined.

Lemma budget_charge_exact_witness :
  exists x y, hp_ledgers (w_heap tree_world) !! bp_ledger tree_root = Some x /\
    hp_locals (w_heap tree_world) !! bp_local tree_root = Some y.
Proof.
  destruct (budget_charge_exact tree_world (at_time 5) tree_root charge_one_round tree_reachable tree_root_in)
    as (x&y&Hx&Hy&_). by exists x, y.
Defined.

Definition retried_world : World := Eval vm_compute in
  match budget_run tree_world [(at_time 5, OCharge 0 charge_one_round); (at_time 5, ORetry 0)] with
  | Ok w => w | _ => empty_world end.
Lemma more_ops_ok : ops_ok [(at_time 5, OCharge 0 charge_one_round); (at_time 5, ORetry 0)].
Proof. repeat constructor; cbn; try done; by ranges. Qed.

Lemma budget_spend_monotone_witness : evolves (w_heap tree_world) (w_heap retried_world).
Proof.
  apply (budget_spend_monotone tree_world retried_world _ tree_reachable more_ops_ok). vm_compute. reflexivity.
Defined.

Definition charged_world : World := Eval vm_compute in
  match budget_step tree_world (at_time 5) (OCharge 0 charge_one_round) with Ok w => w | _ => empty_world end.
Lemma budget_never_overspent_witness :
  exists x y, hp_ledgers (w_heap charged_world) !! bp_ledger tree_root = Some x /\
  hp_locals (w_heap charged_world) !! bp_local tree_root = Some y /\
  (forall m, ceiling_of (sl_ceiling x) Rounds = Some m -> m < U64_MAX ->
     log_total bp_ledger (bp_ledger tree_root) Rounds (w_log charged_world) <= m) /\
  (forall m, ceiling_of (lc_ceiling y) Rounds = Some m -> m < U64_MAX ->
     log_total bp_local (bp_local tree_root) Rounds (w_log charged_world) <= m).
Proof.
  apply (budget_never_overspent tree_world charged_world (at_time 5) 0%nat tree_root charge_one_round Rounds);
    [apply tree_reachable|apply charge_round_ok|reflexivity|discriminate|vm_compute; reflexivity|discriminate].
Defined.

Definition tree_ledger : SharedLedger := mkLedger (rounds_only 10) 4 0 0 0 0.
Lemma budget_turns_bounded_witness :
  turns_on 0 (w_log retried_world) - turns_on 0 (w_log tree_world) <= Z.max 0 (10 - sl_spent_rounds tree_ledger).
Proof.
  apply (budget_turns_bounded tree_world retried_world
           [(at_time 5, OCharge 0 charge_one_round); (at_time 5, ORetry 0)] 0 tree_ledger 10);
    [apply tree_reachable|apply more_ops_ok|by repeat constructor|vm_compute; reflexivity|reflexivity
    |vm_compute; reflexivity].
Defined.

Lemma budget_retries_bounded_witness :
  exists g', hp_retries (w_heap retried_world) !! 2 = Some g' /\
    retries_on 2 (w_retried retried_world) - retries_on 2 (w_retried tree_world) = rg_retries_this_turn g' - 0 /\
    rg_retries_this_turn g' <= 8.
Proof.
  apply (budget_retries_bounded tree_world retried_world
           [(at_time 5, OCharge 0 charge_one_round); (at_time 5, ORetry 0)] 2 (mkRetryGuard 0 8));
    [apply tree_reachable|apply more_ops_ok|by repeat constructor|vm_compute; reflexivity|vm_compute; reflexivity].
Defined.

Lemma budget_allot_exact_witness :
  exists h q, pool_allot (w_heap tree_world) (at_time 5) tree_root (rounds_only 3) = Ok (h, q) /\
    shares_ledger_with tree_root q = true.
Proof.
  destruct (budget_allot_exact tree_world (at_time 5) tree_root (rounds_only 3) tree_reachable tree_root_in)
    as (x&y&h&q&y'&_&_&Ha&Hs&_); [by apply rounds_only_ok; ranges|]. by exists h, q.
Defined.

Lemma budget_admission_exact_witness :
  exists s, pool_snapshot (E:=Empty_set) (w_heap tree_world) (fun _ => 5) tree_root = Ok s /\
    (preflight (w_heap tree_world) (fun _ => 5) tree_root = Ok tt <-> all_left (snapshot_remaining s)).
Proof.
  destruct (budget_admission_exact tree_world 5 tree_root tree_reachable tree_root_in) as (s&Hs&H&_). by exists s.
Defined.

Lemma budget_compaction_cut_off_witness :
  (record_compaction (w_heap tree_world) tree_root 0 false).2 = Ok tt.
Proof.
  apply (budget_compaction_cut_off tree_world tree_root 0 false tree_reachable tree_root_in). right.
  vm_compute. reflexivity.
Defined.

Definition plain_config : DelegationBudgetConfig :=
  mkBudgetConfig None (Some Unlimited) None None None ∅ (mkSpec None None None None None).
Lemma budget_resolution_exact_witness :
  ceiling_of (resolve_delegation_budget plain_config "explore" None (Some (mkSpec (Some (Finite 7)) None None None None)) 5)
    Rounds = Some 7 /\
  ceiling_of (resolve_delegation_budget plain_config "explore" None None 5) InputTokens = None.
Proof.
  split.
  - rewrite (proj1 (budget_resolution_exact plain_config "explore" None _ 5 Rounds ltac:(by ranges))). reflexivity.
  - apply (budget_resolution_exact plain_config "explore" None None 5 InputTokens ltac:(by ranges)). reflexivity.
Defined.
