(* ===== verification/ControlEvent.v ===== *)
(** The binary control event of session continuity
    ([cockpit-proto/src/remote_session_continuity.rs]): a 98-byte header bound by a
    digest to a payload whose length is exact for its kind. *)

From S2P Require Import Prelude ProtocolId NoiseRecord NoisePrologue.
From stdpp Require Import options.
Set Warnings "-clear-no-such-hyp".

(** remote_session_continuity.rs:875-875 REMOTE_CONTROL_EVENT_MAGIC. *)
Definition REMOTE_CONTROL_EVENT_MAGIC : bytes := Eval vm_compute in ascii_bytes "FCRC".
(** remote_session_continuity.rs:877-877 REMOTE_CONTROL_EVENT_VERSION. *)
Definition REMOTE_CONTROL_EVENT_VERSION : Z := 1.
(** remote_session_continuity.rs:879-879 REMOTE_CONTROL_EVENT_HEADER_BYTES. *)
Definition REMOTE_CONTROL_EVENT_HEADER_BYTES : Z := 98.
(** remote_session_continuity.rs:881-881 REMOTE_CONTROL_EVENT_MAX_PAYLOAD. *)
Definition REMOTE_CONTROL_EVENT_MAX_PAYLOAD : Z := 65536.
(** remote_session_continuity.rs:883-883 REMOTE_CONTROL_EVENT_MAX_BYTES. *)
Definition REMOTE_CONTROL_EVENT_MAX_BYTES : Z := 65634.
(** remote_session_continuity.rs:887-887 REMOTE_CONTROL_EVENT_MAX_EMBEDDED_JWS. *)
Definition REMOTE_CONTROL_EVENT_MAX_EMBEDDED_JWS : Z := 16384.

(** remote_session_continuity.rs:894-905 RemoteControlEventKind. *)
Inductive RemoteControlEventKind :=
| KLeaseRefresh | KPolicyNarrowed | KDeviceRevoked | KInstanceRevoked
| KTenantAuthorityChanged | KAttachmentRevoked | KDrain | KAuthorityStatus.
#[export] Instance control_kind_eq_dec : EqDecision RemoteControlEventKind.
Proof. solve_decision. Defined.

(** remote_session_continuity.rs:909-921 RemoteControlEventKind::from_byte. *)
Definition control_kind_from_byte (byte : Z) : option RemoteControlEventKind :=
  match byte with
  | 1 => Some KLeaseRefresh
  | 2 => Some KPolicyNarrowed
  | 3 => Some KDeviceRevoked
  | 4 => Some KInstanceRevoked
  | 5 => Some KTenantAuthorityChanged
  | 6 => Some KAttachmentRevoked
  | 7 => Some KDrain
  | 8 => Some KAuthorityStatus
  | _ => None
  end.
(** remote_session_continuity.rs:924-935 RemoteControlEventKind::to_byte. *)
Definition control_kind_to_byte (k : RemoteControlEventKind) : Z :=
  match k with
  | KLeaseRefresh => 1
  | KPolicyNarrowed => 2
  | KDeviceRevoked => 3
  | KInstanceRevoked => 4
  | KTenantAuthorityChanged => 5
  | KAttachmentRevoked => 6
  | KDrain => 7
  | KAuthorityStatus => 8
  end.

(** remote_session_continuity.rs:939-950 RemoteControlEventHeaderV1. *)
Record RemoteControlEventHeaderV1 := mkControlHeader {
  eh_control_seq : Z;
  eh_event_id : bytes;
  eh_kind : RemoteControlEventKind;
  eh_service_version : Z;
  eh_policy_epoch : Z;
  eh_authority_epoch : Z;
  eh_issued_at : Z;
  eh_payload_length : Z;
  eh_payload_digest : bytes }.

(** remote_session_continuity.rs:1332-1354 ControlEventError. *)
Inductive ControlEventError :=
| CeLength | CeMagic | CeVersion | CeEventIdZero | CeControlSeqZero | CeUnknownKind
| CePayloadCap | CePayloadLength | CeEmbeddedJwsLength | CeDigestMismatch.

(** [i64::from_be_bytes], after [u64::from_be_bytes] of the same bytes; [to_be] already
    gives the two's complement bytes of a negative number. *)
Definition i64_of_u64 (u : Z) : Z := if u <? 2 ^ 63 then u else u - 2 ^ 64.

(** remote_session_continuity.rs:956-996 RemoteControlEventHeaderV1::decode. *)
Definition control_header_decode (b : bytes) : result ControlEventError RemoteControlEventHeaderV1 :=
  if negb (zlen b =? REMOTE_CONTROL_EVENT_HEADER_BYTES) then Err CeLength else
  magic ← slice b 0 4;
  if negb (bool_decide (magic = REMOTE_CONTROL_EVENT_MAGIC)) then Err CeMagic else
  version ← index b 4;
  if negb (version =? REMOTE_CONTROL_EVENT_VERSION) then Err CeVersion else
  seq ← slice b 5 13;
  let control_seq := from_be seq in
  if control_seq <? 1 then Err CeControlSeqZero else
  event_id ← slice b 13 29;
  if forallb (fun x => x =? 0) event_id then Err CeEventIdZero else
  kind_byte ← index b 29;
  kind ← ok_or (control_kind_from_byte kind_byte) CeUnknownKind;
  service_version ← slice b 30 38;
  policy_epoch ← slice b 38 46;
  authority_epoch ← slice b 46 54;
  issued_at ← slice b 54 62;
  payload_length ← slice b 62 66;
  if REMOTE_CONTROL_EVENT_MAX_PAYLOAD <? from_be payload_length then Err CePayloadCap else
  payload_digest ← slice b 66 98;
  Ok (mkControlHeader control_seq event_id kind (from_be service_version) (from_be policy_epoch)
        (from_be authority_epoch) (i64_of_u64 (from_be issued_at)) (from_be payload_length) payload_digest).

(** remote_session_continuity.rs:999-1013 RemoteControlEventHeaderV1::encode. *)
Definition control_header_encode (h : RemoteControlEventHeaderV1) : bytes :=
  REMOTE_CONTROL_EVENT_MAGIC ++ REMOTE_CONTROL_EVENT_VERSION :: to_be 8 (eh_control_seq h) ++ eh_event_id h
    ++ control_kind_to_byte (eh_kind h) :: to_be 8 (eh_service_version h) ++ to_be 8 (eh_policy_epoch h)
    ++ to_be 8 (eh_authority_epoch h) ++ to_be 8 (eh_issued_at h) ++ to_be 4 (eh_payload_length h)
    ++ eh_payload_digest h.

(** remote_session_continuity.rs:1019-1058 RemoteControlEventPayload. *)
Inductive RemoteControlEventPayload :=
| LeaseRefresh (lease_jws : bytes)
| PolicyNarrowed (previous_digest new_digest : bytes) (affected_field_bits : Z)
| DeviceRevoked (device_id : bytes) (generation : Z)
| InstanceRevoked (instance_id : bytes) (generation : Z)
| TenantAuthorityChanged (previous_epoch new_epoch : Z) (ring_digest : bytes)
| AttachmentRevoked (logical_attachment_id : bytes) (reason : Z)
| Drain (deadline : Z) (reason : Z)
| AuthorityStatus (status_generation : Z) (status_jws : bytes).

(** remote_session_continuity.rs:1062-1073 RemoteControlEventPayload::kind. *)
Definition payload_kind (p : RemoteControlEventPayload) : RemoteControlEventKind :=
  match p with
  | LeaseRefresh _ => KLeaseRefresh
  | PolicyNarrowed _ _ _ => KPolicyNarrowed
  | DeviceRevoked _ _ => KDeviceRevoked
  | InstanceRevoked _ _ => KInstanceRevoked
  | TenantAuthorityChanged _ _ _ => KTenantAuthorityChanged
  | AttachmentRevoked _ _ => KAttachmentRevoked
  | Drain _ _ => KDrain
  | AuthorityStatus _ _ => KAuthorityStatus
  end.

(** remote_session_continuity.rs:1076-1150 RemoteControlEventPayload::encode. *)
Definition payload_encode (p : RemoteControlEventPayload) : bytes :=
  match p with
  | LeaseRefresh lease_jws => to_be 2 (zlen lease_jws mod 65536) ++ lease_jws
  | PolicyNarrowed previous_digest new_digest affected_field_bits =>
      previous_digest ++ new_digest ++ to_be 8 affected_field_bits
  | DeviceRevoked device_id generation => device_id ++ to_be 8 generation
  | InstanceRevoked instance_id generation => instance_id ++ to_be 8 generation
  | TenantAuthorityChanged previous_epoch new_epoch ring_digest =>
      to_be 8 previous_epoch ++ to_be 8 new_epoch ++ ring_digest
  | AttachmentRevoked logical_attachment_id reason => logical_attachment_id ++ [reason]
  | Drain deadline reason => to_be 8 deadline ++ [reason]
  | AuthorityStatus status_generation status_jws =>
      to_be 8 status_generation ++ to_be 2 (zlen status_jws mod 65536) ++ status_jws
  end.

(** remote_session_continuity.rs:1233-1245 decode_length_prefixed_jws. *)
Definition decode_length_prefixed_jws (b : bytes) : result ControlEventError bytes :=
  if zlen b <? 2 then Err CePayloadLength else
  prefix ← slice b 0 2;
  let len := from_be prefix in
  if (len =? 0) || (REMOTE_CONTROL_EVENT_MAX_EMBEDDED_JWS <? len) then Err CeEmbeddedJwsLength else
  if negb (zlen b =? 2 + len) then Err CePayloadLength else
  slice_from b 2.

(** remote_session_continuity.rs:1154-1228 RemoteControlEventPayload::decode. *)
Definition payload_decode (kind : RemoteControlEventKind) (b : bytes)
    : result ControlEventError RemoteControlEventPayload :=
  match kind with
  | KLeaseRefresh =>
      jws ← decode_length_prefixed_jws b; Ok (LeaseRefresh jws)
  | KPolicyNarrowed =>
      if negb (zlen b =? 72) then Err CePayloadLength else
      previous_digest ← slice b 0 32;
      new_digest ← slice b 32 64;
      bits ← slice b 64 72;
      Ok (PolicyNarrowed previous_digest new_digest (from_be bits))
  | KDeviceRevoked =>
      if negb (zlen b =? 24) then Err CePayloadLength else
      device_id ← slice b 0 16;
      generation ← slice b 16 24;
      Ok (DeviceRevoked device_id (from_be generation))
  | KInstanceRevoked =>
      if negb (zlen b =? 24) then Err CePayloadLength else
      instance_id ← slice b 0 16;
      generation ← slice b 16 24;
      Ok (InstanceRevoked instance_id (from_be generation))
  | KTenantAuthorityChanged =>
      if negb (zlen b =? 48) then Err CePayloadLength else
      previous_epoch ← slice b 0 8;
      new_epoch ← slice b 8 16;
      ring_digest ← slice b 16 48;
      Ok (TenantAuthorityChanged (from_be previous_epoch) (from_be new_epoch) ring_digest)
  | KAttachmentRevoked =>
      if negb (zlen b =? 17) then Err CePayloadLength else
      logical_attachment_id ← slice b 0 16;
      reason ← index b 16;
      Ok (AttachmentRevoked logical_attachment_id reason)
  | KDrain =>
      if negb (zlen b =? 9) then Err CePayloadLength else
      deadline ← slice b 0 8;
      reason ← index b 8;
      Ok (Drain (i64_of_u64 (from_be deadline)) reason)
  | KAuthorityStatus =>
      if zlen b <? 10 then Err CePayloadLength else
      status_generation ← slice b 0 8;
      rest ← slice_from b 8;
      jws ← decode_length_prefixed_jws rest;
      Ok (AuthorityStatus (from_be status_generation) jws)
  end.

(** remote_session_continuity.rs:1249-1253 RemoteControlEventV1. *)
Record RemoteControlEventV1 := mkControlEvent {
  ev_header : RemoteControlEventHeaderV1;
  ev_payload : RemoteControlEventPayload }.

Section codec.
Context `{Sha256}.

(** [Sha256::new()], [update] once, [finalize]. *)
Definition sha256_digest (b : bytes) : bytes := hasher_finalize (hasher_update hasher_new b).

(** remote_session_continuity.rs:1259-1286 RemoteControlEventV1::seal. *)
Definition control_event_seal (control_seq : Z) (event_id : bytes)
    (service_version policy_epoch authority_epoch issued_at : Z) (payload : RemoteControlEventPayload)
    : RemoteControlEventV1 :=
  let payload_bytes := payload_encode payload in
  mkControlEvent
    (mkControlHeader control_seq event_id (payload_kind payload) service_version policy_epoch authority_epoch
       issued_at (zlen payload_bytes mod 2 ^ 32) (sha256_digest payload_bytes))
    payload.

(** remote_session_continuity.rs:1289-1300 RemoteControlEventV1::encode. *)
Definition control_event_encode (e : RemoteControlEventV1) : bytes :=
  let payload_bytes := payload_encode (ev_payload e) in
  let h := ev_header e in
  let header := mkControlHeader (eh_control_seq h) (eh_event_id h) (eh_kind h) (eh_service_version h)
    (eh_policy_epoch h) (eh_authority_epoch h) (eh_issued_at h) (zlen payload_bytes mod 2 ^ 32)
    (sha256_digest payload_bytes) in
  control_header_encode header ++ payload_bytes.

(** remote_session_continuity.rs:1305-1327 RemoteControlEventV1::decode. *)
Definition control_event_decode (b : bytes) : result ControlEventError RemoteControlEventV1 :=
  if (zlen b <? REMOTE_CONTROL_EVENT_HEADER_BYTES) || (REMOTE_CONTROL_EVENT_MAX_BYTES <? zlen b)
  then Err CeLength else
  header_bytes ← slice b 0 REMOTE_CONTROL_EVENT_HEADER_BYTES;
  header ← control_header_decode header_bytes;
  payload_bytes ← slice_from b REMOTE_CONTROL_EVENT_HEADER_BYTES;
  if negb (zlen payload_bytes =? eh_payload_length header) then Err CePayloadLength else
  if negb (bool_decide (sha256_digest payload_bytes = eh_payload_digest header)) then Err CeDigestMismatch else
  payload ← payload_decode (eh_kind header) payload_bytes;
  Ok (mkControlEvent header payload).

(** remote_session_continuity.rs:1358-1362 control_event_byte_hash. *)
Definition control_event_byte_hash (b : bytes) : bytes := sha256_digest b.
End codec.

(** ** Correctness of the codec *)

Definition is_i64 (z : Z) : Prop := - 2 ^ 63 <= z < 2 ^ 63.
(** A byte array of a fixed size. *)
Definition is_array (n : Z) (b : bytes) : Prop := zlen b = n /\ all_u8 b.
Definition is_jws (b : bytes) : Prop := all_u8 b /\ 1 <= zlen b <= REMOTE_CONTROL_EVENT_MAX_EMBEDDED_JWS.

Definition wf_payload (p : RemoteControlEventPayload) : Prop :=
  match p with
  | LeaseRefresh jws => is_jws jws
  | PolicyNarrowed p n bits => is_array 32 p /\ is_array 32 n /\ is_u64 bits
  | DeviceRevoked id g | InstanceRevoked id g => is_array 16 id /\ is_u64 g
  | TenantAuthorityChanged p n ring => is_u64 p /\ is_u64 n /\ is_array 32 ring
  | AttachmentRevoked id reason => is_array 16 id /\ is_u8 reason
  | Drain deadline reason => is_i64 deadline /\ is_u8 reason
  | AuthorityStatus g jws => is_u64 g /\ is_jws jws
  end.
Record wf_header (h : RemoteControlEventHeaderV1) : Prop := {
  wh_seq : 1 <= eh_control_seq h <= U64_MAX;
  wh_id : is_array 16 (eh_event_id h);
  wh_nonzero : forallb (fun x => x =? 0) (eh_event_id h) = false;
  wh_service : is_u64 (eh_service_version h);
  wh_policy : is_u64 (eh_policy_epoch h);
  wh_authority : is_u64 (eh_authority_epoch h);
  wh_issued : is_i64 (eh_issued_at h);
  wh_length : 0 <= eh_payload_length h <= REMOTE_CONTROL_EVENT_MAX_PAYLOAD;
  wh_digest : is_array 32 (eh_payload_digest h) }.

Lemma i64_roundtrip z : is_i64 z -> i64_of_u64 (from_be (to_be 8 z)) = z.
Proof.
  unfold is_i64. intros Hz. rewrite from_be_to_be. change (256 ^ Z.of_nat 8) with 18446744073709551616.
  change (2 ^ 63) with 9223372036854775808 in *. unfold i64_of_u64. change (2 ^ 63) with 9223372036854775808.
  change (2 ^ 64) with 18446744073709551616.
  destruct (Z.ltb_spec (z mod 18446744073709551616) 9223372036854775808); destruct (Z.leb_spec 0 z).
  - by rewrite Z.mod_small by lia.
  - rewrite <- (Z.mod_add _ 1) in * by lia. rewrite Z.mod_small in * by lia. lia.
  - rewrite Z.mod_small in * by lia. lia.
  - rewrite <- (Z.mod_add _ 1) in * by lia. rewrite Z.mod_small in * by lia. lia.
Qed.
Lemma to_be_mod n z : to_be n (z mod 256 ^ Z.of_nat n) = to_be n z.
Proof. rewrite <- from_be_to_be. apply to_be_from_be_n; [apply to_be_u8|apply length_to_be]. Qed.
Lemma i64_of_u64_inv (x : bytes) :
  length x = 8%nat -> all_u8 x -> to_be 8 (i64_of_u64 (from_be x)) = x /\ is_i64 (i64_of_u64 (from_be x)).
Proof.
  intros Hl Hu. pose proof (from_be_bound x Hu) as Hb. rewrite Hl in Hb.
  change (256 ^ Z.of_nat 8) with 18446744073709551616 in Hb. unfold i64_of_u64, is_i64.
  change (2 ^ 63) with 9223372036854775808. change (2 ^ 64) with 18446744073709551616.
  destruct (Z.ltb_spec (from_be x) 9223372036854775808).
  - split; [by apply to_be_from_be_n|lia].
  - split; [|lia]. rewrite <- to_be_mod. change (256 ^ Z.of_nat 8) with 18446744073709551616.
    replace (from_be x - 18446744073709551616) with (from_be x + (-1) * 18446744073709551616) by lia.
    rewrite Z.mod_add by lia. rewrite Z.mod_small by lia. by apply to_be_from_be_n.
Qed.

Lemma u64_be z : is_u64 z -> from_be (to_be 8 z) = z.
Proof.
  unfold is_u64, U64_MAX. intros. apply from_be_to_be_small. change (256 ^ Z.of_nat 8) with 18446744073709551616. lia.
Qed.

(** Read a field of an encoding whose layout is known. *)
Ltac get_slice i j v :=
  replace (slice _ i j) with (@Ok ControlEventError bytes v) by (symmetry; read_field; done); rewrite bind_Ok_l.
Ltac get_byte i v :=
  replace (index _ i) with (@Ok ControlEventError Z v) by (symmetry; read_byte; done); rewrite bind_Ok_l.

Lemma jws_roundtrip jws : is_jws jws -> decode_length_prefixed_jws (to_be 2 (zlen jws mod 65536) ++ jws) = Ok jws.
Proof.
  unfold is_jws, REMOTE_CONTROL_EVENT_MAX_EMBEDDED_JWS. intros [Hu Hl].
  rewrite (Z.mod_small (zlen jws)) by lia. unfold decode_length_prefixed_jws, slice_from.
  assert (zlen (to_be 2 (zlen jws) ++ jws) = 2 + zlen jws) as Hz by zlen_solve. rewrite Hz.
  rewrite (proj2 (Z.ltb_ge _ _)) by lia. get_slice 0 2 (to_be 2 (zlen jws)). cbn zeta.
  rewrite from_be_to_be_small by (change (256 ^ Z.of_nat 2) with 65536; lia).
  unfold REMOTE_CONTROL_EVENT_MAX_EMBEDDED_JWS.
  rewrite (proj2 (Z.eqb_neq _ _)) by lia. rewrite (proj2 (Z.ltb_ge _ _)) by lia. rewrite Z.eqb_refl. cbn [orb negb].
  read_field. done.
Qed.

Lemma payload_roundtrip p : wf_payload p -> payload_decode (payload_kind p) (payload_encode p) = Ok p.
Proof.
  destruct p as [jws|pd nd bits|id g|id g|pe ne ring|id r|dl r|g jws]; cbn [payload_kind payload_encode payload_decode].
  - intros Hj. cbn in Hj. by rewrite jws_roundtrip.
  - intros ([H1 _]&[H2 _]&H3). rewrite (proj2 (Z.eqb_eq _ _)) by zlen_solve. cbn [negb].
    get_slice 0 32 pd. get_slice 32 64 nd. get_slice 64 72 (to_be 8 bits). by rewrite u64_be.
  - intros ([H1 _]&H3). rewrite (proj2 (Z.eqb_eq _ _)) by zlen_solve. cbn [negb].
    get_slice 0 16 id. get_slice 16 24 (to_be 8 g). by rewrite u64_be.
  - intros ([H1 _]&H3). rewrite (proj2 (Z.eqb_eq _ _)) by zlen_solve. cbn [negb].
    get_slice 0 16 id. get_slice 16 24 (to_be 8 g). by rewrite u64_be.
  - intros (H1&H2&[H3 _]). rewrite (proj2 (Z.eqb_eq _ _)) by zlen_solve. cbn [negb].
    get_slice 0 8 (to_be 8 pe). get_slice 8 16 (to_be 8 ne). get_slice 16 48 ring. by rewrite !u64_be.
  - intros ([H1 _]&H3). rewrite (proj2 (Z.eqb_eq _ _)) by zlen_solve. cbn [negb].
    get_slice 0 16 id. get_byte 16 r. done.
  - intros (H1&H3). rewrite (proj2 (Z.eqb_eq _ _)) by zlen_solve. cbn [negb].
    get_slice 0 8 (to_be 8 dl). get_byte 8 r. by rewrite i64_roundtrip.
  - intros (H1&Hj). destruct Hj as [Hu Hl] eqn:E. unfold slice_from.
    assert (zlen (to_be 8 g ++ to_be 2 (zlen jws mod 65536) ++ jws) = 10 + zlen jws) as Hz by zlen_solve.
    rewrite Hz. rewrite (proj2 (Z.ltb_ge _ _)) by lia. get_slice 0 8 (to_be 8 g).
    replace (slice _ 8 _) with (@Ok ControlEventError bytes (to_be 2 (zlen jws mod 65536) ++ jws))
      by (symmetry; rewrite slice_skip by zlen_solve; by rewrite slice_all by zlen_solve).
    rewrite bind_Ok_l, jws_roundtrip by done. by rewrite bind_Ok_l, u64_be.
Qed.

Lemma control_kind_roundtrip k : control_kind_from_byte (control_kind_to_byte k) = Some k.
Proof. by destruct k. Qed.
Lemma control_kind_inv z k : control_kind_from_byte z = Some k -> z = control_kind_to_byte k.
Proof. unfold control_kind_from_byte. intros Hz. repeat (case_match; try discriminate; try (by injection Hz as <-)). Qed.

Lemma control_header_zlen h :
  zlen (eh_event_id h) = 16 -> zlen (eh_payload_digest h) = 32 -> zlen (control_header_encode h) = 98.
Proof.
  intros. unfold control_header_encode. autorewrite with bytes.
  change (zlen REMOTE_CONTROL_EVENT_MAGIC) with 4. lia.
Qed.

Lemma control_header_roundtrip h : wf_header h -> control_header_decode (control_header_encode h) = Ok h.
Proof.
  intros [Hseq [Hid _] Hnz Hsv Hpe Hae His Hlen [Hdg _]]. unfold control_header_decode.
  rewrite control_header_zlen by done. cbn [negb Z.eqb Pos.eqb REMOTE_CONTROL_EVENT_HEADER_BYTES].
  assert (zlen REMOTE_CONTROL_EVENT_MAGIC = 4) as Hm by done.
  unfold control_header_encode. set (magic := REMOTE_CONTROL_EVENT_MAGIC) in *. clearbody magic.
  get_slice 0 4 magic. rewrite bool_decide_true by done. cbn [negb].
  get_byte 4 REMOTE_CONTROL_EVENT_VERSION. cbn [negb Z.eqb Pos.eqb REMOTE_CONTROL_EVENT_VERSION].
  get_slice 5 13 (to_be 8 (eh_control_seq h)). cbn zeta. rewrite u64_be by (unfold is_u64; lia).
  rewrite (proj2 (Z.ltb_ge _ _)) by lia.
  get_slice 13 29 (eh_event_id h). rewrite Hnz.
  get_byte 29 (control_kind_to_byte (eh_kind h)). rewrite control_kind_roundtrip. cbn [ok_or]. rewrite bind_Ok_l.
  get_slice 30 38 (to_be 8 (eh_service_version h)). get_slice 38 46 (to_be 8 (eh_policy_epoch h)).
  get_slice 46 54 (to_be 8 (eh_authority_epoch h)). get_slice 54 62 (to_be 8 (eh_issued_at h)).
  get_slice 62 66 (to_be 4 (eh_payload_length h)).
  unfold REMOTE_CONTROL_EVENT_MAX_PAYLOAD in *.
  rewrite (from_be_to_be_small 4) by (change (256 ^ Z.of_nat 4) with 4294967296; lia).
  rewrite (proj2 (Z.ltb_ge _ _)) by lia.
  get_slice 66 98 (eh_payload_digest h). rewrite !u64_be, i64_roundtrip by done. by destruct h.
Qed.

(** Decoding tells the whole layout of its input. *)
Lemma slice_array {E} b i j x : all_u8 b -> slice (E:=E) b i j = Ok x -> is_array (j - i) x.
Proof. intros Hb Hs. split; [by apply slice_inv in Hs as [? _]|by eapply slice_u8]. Qed.

Lemma u64_field {E} b i x :
  all_u8 b -> slice (E:=E) b i (i + 8) = Ok x -> to_be 8 (from_be x) = x /\ is_u64 (from_be x).
Proof.
  intros Hb Hs. destruct (be_field _ _ _ 8 _ Hb Hs ltac:(lia)) as [F R]. split; [done|].
  change (256 ^ Z.of_nat 8) with 18446744073709551616 in R. unfold is_u64, U64_MAX. lia.
Qed.

Lemma jws_inv b jws :
  all_u8 b -> decode_length_prefixed_jws b = Ok jws ->
  is_jws jws /\ b = to_be 2 (zlen jws mod 65536) ++ jws.
Proof.
  intros Hb Hd. unfold decode_length_prefixed_jws, slice_from, REMOTE_CONTROL_EVENT_MAX_EMBEDDED_JWS in Hd.
  ok_inv1 Hd. ok_inv1 Hd. cbn zeta in Hd. ok_inv1 Hd. ok_inv1 Hd.
  apply orb_false_iff in G0 as [Hz Hm]. apply Z.eqb_neq in Hz. apply Z.ltb_ge in Hm.
  apply negb_false_iff, Z.eqb_eq in G1. destruct (be_field _ _ _ 2 _ Hb B ltac:(lia)) as [F R].
  apply slice_inv in Hd as Hl. destruct Hl as [Hl _]. assert (zlen jws = from_be x) as Hx by lia.
  split. { split; [by eapply slice_u8|]. unfold REMOTE_CONTROL_EVENT_MAX_EMBEDDED_JWS. lia. }
  rewrite Hx, Z.mod_small, F by lia. pose proof (slice_split _ _ _ _ _ _ B Hd) as K.
  rewrite slice_all in K by done. by apply Ok_inj in K.
Qed.

(** Put the slices of a decoded input together again. *)
Ltac rejoin K :=
  rewrite slice_all in K by (done || lia); apply Ok_inj in K.

Lemma payload_inv k b p :
  all_u8 b -> payload_decode k b = Ok p -> payload_kind p = k /\ wf_payload p /\ payload_encode p = b.
Proof.
  intros Hb Hd. destruct k; cbn [payload_decode] in Hd; unfold slice_from in Hd; ok_inv Hd; subst p;
    cbn [payload_kind payload_encode wf_payload]; (split; [done|]);
    try (apply negb_false_iff, Z.eqb_eq in G).
  - destruct (jws_inv _ _ Hb B) as [Hj ->]. done.
  - destruct (u64_field b 64 _ Hb B1) as [F R].
    split; [split; [apply (slice_array _ _ _ _ Hb B)|split; [apply (slice_array _ _ _ _ Hb B0)|done]]|].
    rewrite F. pose proof (slice_split _ _ _ _ _ _ B (slice_split _ _ _ _ _ _ B0 B1)) as K. by rejoin K.
  - destruct (u64_field b 16 _ Hb B0) as [F R]. split; [split; [apply (slice_array _ _ _ _ Hb B)|done]|].
    rewrite F. pose proof (slice_split _ _ _ _ _ _ B B0) as K. by rejoin K.
  - destruct (u64_field b 16 _ Hb B0) as [F R]. split; [split; [apply (slice_array _ _ _ _ Hb B)|done]|].
    rewrite F. pose proof (slice_split _ _ _ _ _ _ B B0) as K. by rejoin K.
  - destruct (u64_field b 0 _ Hb B) as [F R]. destruct (u64_field b 8 _ Hb B0) as [F1 R1].
    split; [split; [done|split; [done|apply (slice_array _ _ _ _ Hb B1)]]|].
    rewrite F, F1. pose proof (slice_split _ _ _ _ _ _ B (slice_split _ _ _ _ _ _ B0 B1)) as K. by rejoin K.
  - split; [split; [apply (slice_array _ _ _ _ Hb B)|by eapply index_u8]|].
    apply index_inv in B0. pose proof (slice_split _ _ _ _ _ _ B B0) as K. by rejoin K.
  - destruct (slice_array _ _ _ _ Hb B) as [Hz Hu].
    destruct (i64_of_u64_inv x ltac:(unfold zlen in Hz; lia) Hu) as [F R].
    split; [split; [done|apply (index_u8 _ _ _ Hb B0)]|]. rewrite F.
    apply index_inv in B0. pose proof (slice_split _ _ _ _ _ _ B B0) as K. by rejoin K.
  - destruct (u64_field b 0 _ Hb B) as [F R]. destruct (jws_inv _ _ (slice_u8 _ _ _ _ Hb B0) B1) as [Hj Hx].
    split; [done|]. rewrite F, <- Hx. pose proof (slice_split _ _ _ _ _ _ B B0) as K. by rejoin K.
Qed.

Lemma control_header_inv b h :
  all_u8 b -> control_header_decode b = Ok h -> wf_header h /\ control_header_encode h = b.
Proof.
  intros Hb Hd. unfold control_header_decode in Hd. ok_inv1 Hd.
  repeat (ok_inv1 Hd; cbn zeta in Hd). subst h.
  apply negb_false_iff, Z.eqb_eq in G, G1. apply negb_false_iff, bool_decide_eq_true in G0.
  apply Z.ltb_ge in G2, G4. apply ok_or_Ok in B4. apply control_kind_inv in B4. subst x x0 x3.
  destruct (u64_field b 5 _ Hb B1) as [F1 R1]. destruct (u64_field b 30 _ Hb B5) as [F2 R2].
  destruct (u64_field b 38 _ Hb B6) as [F3 R3]. destruct (u64_field b 46 _ Hb B7) as [F4 R4].
  destruct (slice_array _ _ _ _ Hb B8) as [Hz Hu].
  destruct (i64_of_u64_inv x8 ltac:(unfold zlen in Hz; lia) Hu) as [F5 R5].
  destruct (be_field _ _ _ 4 _ Hb B9 ltac:(lia)) as [F6 R6]. split.
  - constructor; cbn; try done; [unfold is_u64 in R1; lia|apply (slice_array _ _ _ _ Hb B2)|lia|apply (slice_array _ _ _ _ Hb B10)].
  - unfold control_header_encode. cbn [eh_control_seq eh_event_id eh_kind eh_service_version eh_policy_epoch
      eh_authority_epoch eh_issued_at eh_payload_length eh_payload_digest].
    rewrite F1, F2, F3, F4, F5, F6. apply index_inv in B0, B3.
    pose proof (slice_split _ _ _ _ _ _ B (slice_split _ _ _ _ _ _ B0 (slice_split _ _ _ _ _ _ B1
      (slice_split _ _ _ _ _ _ B2 (slice_split _ _ _ _ _ _ B3 (slice_split _ _ _ _ _ _ B5
      (slice_split _ _ _ _ _ _ B6 (slice_split _ _ _ _ _ _ B7 (slice_split _ _ _ _ _ _ B8
      (slice_split _ _ _ _ _ _ B9 B10)))))))))) as K. by rejoin K.
Qed.

(** No input makes the decoders panic. *)
Lemma jws_no_panic b : decode_length_prefixed_jws b <> Panic.
Proof.
  unfold decode_length_prefixed_jws, slice_from. pose proof (zlen_nonneg b).
  destruct (Z.ltb_spec (zlen b) 2); [done|]. no_panic1; [|apply slice_no_panic; lia].
  cbn zeta. do 2 no_panic1. apply slice_no_panic; lia.
Qed.
Lemma payload_no_panic k b : payload_decode k b <> Panic.
Proof.
  destruct k; cbn [payload_decode]; unfold slice_from;
    repeat first [ no_panic1 | apply jws_no_panic | progress cbn zeta ];
    try (apply negb_false_iff, Z.eqb_eq in G); try (apply Z.ltb_ge in G);
    first [apply slice_no_panic; lia|apply index_no_panic; lia].
Qed.
Lemma control_header_no_panic b : control_header_decode b <> Panic.
Proof.
  unfold control_header_decode. destruct (Z.eqb_spec (zlen b) REMOTE_CONTROL_EVENT_HEADER_BYTES) as [Hz|]; [|done].
  change REMOTE_CONTROL_EVENT_HEADER_BYTES with 98 in Hz.
  cbn [negb]. repeat first [ no_panic1 | progress cbn zeta ];
    first [apply slice_no_panic; lia|apply index_no_panic; lia].
Qed.

Section codec_props.
Context `{Sha256}.

Lemma sha256_digest_sha256 b : sha256_digest b = sha256 b.
Proof using Type. pose proof (hasher_spec [b]) as Hs. cbn in Hs. by rewrite app_nil_r in Hs. Qed.

(** A well-formed event: what [seal] makes and [decode] accepts. *)
Record wf_event (e : RemoteControlEventV1) : Prop := {
  we_header : wf_header (ev_header e);
  we_payload : wf_payload (ev_payload e);
  we_kind : eh_kind (ev_header e) = payload_kind (ev_payload e);
  we_length : eh_payload_length (ev_header e) = zlen (payload_encode (ev_payload e));
  we_digest : eh_payload_digest (ev_header e) = sha256 (payload_encode (ev_payload e)) }.

Lemma payload_zlen p : wf_payload p -> 0 <= zlen (payload_encode p) <= 16394.
Proof using Type.
  destruct p; cbn [wf_payload payload_encode]; unfold is_array, is_jws, REMOTE_CONTROL_EVENT_MAX_EMBEDDED_JWS;
    intros; destruct_and?; autorewrite with bytes; lia.
Qed.
Lemma payload_u8 p : wf_payload p -> all_u8 (payload_encode p).
Proof using Type.
  destruct p; cbn [wf_payload payload_encode]; unfold is_array, is_jws; intros; destruct_and?;
    repeat first [apply Forall_app; split | apply to_be_u8 | apply Forall_cons; split | apply Forall_nil | done].
Qed.

Lemma wf_event_encode e :
  wf_event e -> control_event_encode e = control_header_encode (ev_header e) ++ payload_encode (ev_payload e).
Proof using Type.
  intros [Hh Hp Hk Hl Hd]. unfold control_event_encode. pose proof (payload_zlen _ Hp).
  rewrite (Z.mod_small (zlen _)), sha256_digest_sha256, <- Hl, <- Hd by (change (2 ^ 32) with 4294967296; lia).
  by destruct e as [[] ?].
Qed.

Lemma control_event_roundtrip e : wf_event e -> control_event_decode (control_event_encode e) = Ok e.
Proof using Type.
  intros We. rewrite wf_event_encode by done. destruct We as [Hh Hp Hk Hl Hd]. pose proof (payload_zlen _ Hp).
  pose proof (control_header_zlen _ (proj1 (wh_id _ Hh)) (proj1 (wh_digest _ Hh))) as Hz.
  unfold control_event_decode, slice_from, REMOTE_CONTROL_EVENT_HEADER_BYTES, REMOTE_CONTROL_EVENT_MAX_BYTES.
  rewrite zlen_app, Hz. rewrite (proj2 (Z.ltb_ge _ _)) by lia. rewrite (proj2 (Z.ltb_ge _ _)) by lia. cbn [orb].
  rewrite (slice_head _ _ 0 98) by lia. rewrite bind_Ok_l, control_header_roundtrip by done. rewrite bind_Ok_l.
  rewrite slice_skip, slice_all by lia. rewrite bind_Ok_l, <- Hl, Z.eqb_refl. cbn [negb].
  rewrite sha256_digest_sha256, <- Hd, bool_decide_true by done. cbn [negb].
  rewrite Hk, payload_roundtrip by done. rewrite bind_Ok_l. by destruct e.
Qed.

Lemma control_event_inv b e :
  all_u8 b -> control_event_decode b = Ok e -> wf_event e /\ control_event_encode e = b.
Proof using Type.
  intros Hb He. unfold control_event_decode, slice_from in He. ok_inv He. subst e.
  apply negb_false_iff, Z.eqb_eq in G0. apply negb_false_iff, bool_decide_eq_true in G1.
  rewrite sha256_digest_sha256 in G1.
  destruct (control_header_inv x x0 (slice_u8 _ _ _ _ Hb B) B0) as [Hh Heh].
  destruct (payload_inv (eh_kind x0) x1 x2 (slice_u8 _ _ _ _ Hb B1) B2) as (Hk&Hp&Hep).
  assert (wf_event (mkControlEvent x0 x2)) as We.
  { constructor; cbn [ev_header ev_payload]; [done|done|done|by rewrite Hep|by rewrite Hep]. }
  split; [done|]. rewrite wf_event_encode by done. cbn [ev_header ev_payload]. rewrite Heh, Hep.
  pose proof (slice_split _ _ _ _ _ _ B B1) as K. rejoin K. done.
Qed.

Lemma control_event_no_panic b : control_event_decode b <> Panic.
Proof using Type.
  unfold control_event_decode, slice_from. pose proof (zlen_nonneg b).
  destruct (Z.ltb_spec (zlen b) REMOTE_CONTROL_EVENT_HEADER_BYTES); [done|].
  change REMOTE_CONTROL_EVENT_HEADER_BYTES with 98 in *.
  repeat no_panic1;
    first [apply slice_no_panic; lia|apply control_header_no_panic|apply payload_no_panic].
Qed.

(** Sealing makes a well-formed event. *)
Lemma seal_wf seq id sv pe ae at_ p :
  1 <= seq <= U64_MAX -> is_array 16 id -> forallb (fun x => x =? 0) id = false -> is_u64 sv -> is_u64 pe ->
  is_u64 ae -> is_i64 at_ -> wf_payload p -> wf_event (control_event_seal seq id sv pe ae at_ p).
Proof using Type.
  intros. pose proof (payload_zlen p ltac:(done)).
  assert (zlen (payload_encode p) mod 2 ^ 32 = zlen (payload_encode p)) as Hm
    by (apply Z.mod_small; change (2 ^ 32) with 4294967296; lia).
  unfold control_event_seal. rewrite Hm, sha256_digest_sha256. constructor; cbn [ev_header ev_payload eh_kind
    eh_payload_length eh_payload_digest]; try done. constructor; cbn; try done.
  - unfold REMOTE_CONTROL_EVENT_MAX_PAYLOAD. lia.
  - split; [apply sha256_zlen|apply sha256_u8].
Qed.

(** The control-event codec is exact. A sealed event of well-typed fields decodes back
    to itself, and every byte string is either refused or is the encoding of the
    well-formed event it decodes to: one wire form per event, header and payload bound
    by the digest, no trailing byte; and no input panics. *)
Theorem control_event_codec_exact :
  (forall e, wf_event e -> control_event_decode (control_event_encode e) = Ok e) /\
  (forall b, all_u8 b ->
     match control_event_decode b with
     | Ok e => wf_event e /\ control_event_encode e = b
     | Err _ => True
     | Panic => False
     end).
Proof using Type.
  split; [exact control_event_roundtrip|]. intros b Hb. destruct (control_event_decode b) as [e|e|] eqn:He; [|done|].
  - by apply control_event_inv.
  - by apply control_event_no_panic in He.
Qed.
End codec_props.
