(* ===== verification/Continuity.v ===== *)
(** Session continuity ([cockpit-proto/src/remote_session_continuity.rs] and
    [cockpit-core/src/daemon/session_continuity.rs]): what survives when the physical
    transports of an attachment come and go.  Leases and their validation, reattach and
    outbox replay, the recovery and revocation tables, the application of control
    events, the authorization barrier, child membership and delivery deduplication.

    A Rust [String] is its UTF-8 bytes, ordered bytewise.  A method on [&mut self] takes
    and returns the state.  [HashMap] and [HashSet] are never iterated here, so they are
    a [gmap] and a [gset]. *)

From S2P Require Import Prelude ProtocolId WireScalar NoisePrologue ControlEvent.
From stdpp Require Import options.
Set Warnings "-clear-no-such-hyp".

(** ** Strings *)

(** [str::cmp]. *)
Fixpoint bytes_leb (a b : bytes) : bool :=
  match a, b with
  | [], _ => true
  | _ :: _, [] => false
  | x :: a, y :: b => (x <? y) || ((x =? y) && bytes_leb a b)
  end.
Definition bytes_le (a b : bytes) : Prop := bytes_leb a b = true.
#[export] Instance bytes_le_dec : RelDecision bytes_le.
Proof. intros a b. unfold bytes_le. apply _. Defined.

(** [str::parse::<i64>]: an optional sign, then at least one decimal digit. *)
Definition parse_i64 (s : bytes) : option Z :=
  let '(sign, digits) :=
    match s with
    | 45 :: r => (-1, r)
    | 43 :: r => (1, r)
    | _ => (1, s)
    end in
  if bool_decide (digits = []) || negb (forallb is_ascii_digit digits) then None else
  let v := sign * digits_value digits in
  if (- 2 ^ 63 <=? v) && (v <? 2 ^ 63) then Some v else None.
(** The plain [-] on [i64]. *)
Definition sub_i64 {E} (a b : Z) : result E Z :=
  if (- 2 ^ 63 <=? a - b) && (a - b <? 2 ^ 63) then Ok (a - b) else Panic.

(** remote_session_continuity.rs:53-53 REMOTE_SESSION_CONTINUITY_SCHEMA_VERSION. *)
Definition REMOTE_SESSION_CONTINUITY_SCHEMA_VERSION : Z := 1.

(** ** Reattach *)

(** remote_session_continuity.rs:71-86 RemoteReattachRequestV1. *)
Record RemoteReattachRequestV1 := mkReattachRequest {
  rr_schema_version : Z;
  rr_session_id : bytes;
  rr_logical_attachment_id : bytes;
  rr_prior_snapshot_id : option bytes;
  rr_event_cursor : bytes;
  rr_pending_operation_ids : list bytes }.
(** remote_session_continuity.rs:114-121 RemoteOutboxEventV1. *)
Record RemoteOutboxEventV1 := mkOutboxEvent {
  ob_event_seq : bytes; ob_delivery_id : bytes; ob_kind : bytes; ob_canonical_payload : bytes }.
(** remote_session_continuity.rs:92-111 RemoteReattachResponseV1. *)
Inductive RemoteReattachResponseV1 :=
| Replay (schema_version : Z) (events : list RemoteOutboxEventV1) (high_water_event_seq : bytes) (has_more : bool)
| SnapshotRequired (schema_version : Z) (snapshot_id snapshot_payload compacted_through_event_seq
    high_water_event_seq : bytes).
(** remote_session_continuity.rs:124-124 REMOTE_REPLAY_MAX_EVENTS_PER_PAGE. *)
Definition REMOTE_REPLAY_MAX_EVENTS_PER_PAGE : Z := 256.
(** remote_session_continuity.rs:126-126 REMOTE_REPLAY_MAX_BYTES_PER_PAGE. *)
Definition REMOTE_REPLAY_MAX_BYTES_PER_PAGE : Z := 2 * 1024 * 1024.
(** remote_session_continuity.rs:141-147 ReplayPageError. *)
Inductive ReplayPageError := TooManyEvents | TooManyBytes.
(** The payload bytes of a page; a sum of lengths of live vectors does not overflow. *)
Definition page_bytes (events : list RemoteOutboxEventV1) : Z :=
  foldr (fun e n => zlen (ob_canonical_payload e) + n) 0 events.
(** remote_session_continuity.rs:129-138 validate_replay_page. *)
Definition validate_replay_page (events : list RemoteOutboxEventV1) : result ReplayPageError unit :=
  if REMOTE_REPLAY_MAX_EVENTS_PER_PAGE <? zlen events then Err TooManyEvents else
  if REMOTE_REPLAY_MAX_BYTES_PER_PAGE <? page_bytes events then Err TooManyBytes else
  Ok tt.

(** session_continuity.rs:701-707 RemoteOutboxEventRef. *)
Record RemoteOutboxEventRef := mkOutboxRef {
  or_event_seq : Z; or_delivery_id : bytes; or_kind : bytes; or_canonical_payload : bytes }.
(** session_continuity.rs:710-714 ReattachError. *)
Inductive ReattachError := ReplayPageExceedsBounds.
Definition proto_event (e : RemoteOutboxEventRef) : RemoteOutboxEventV1 :=
  mkOutboxEvent (to_string (or_event_seq e)) (or_delivery_id e) (or_kind e) (or_canonical_payload e).
(** session_continuity.rs:645-698 process_reattach. *)
Definition process_reattach (event_cursor compacted_through_event_seq high_water_event_seq : Z)
    (outbox_events : list RemoteOutboxEventRef) (snapshot_id snapshot_payload : bytes)
    : result ReattachError RemoteReattachResponseV1 :=
  if event_cursor <? compacted_through_event_seq then
    Ok (SnapshotRequired 1 snapshot_id snapshot_payload (to_string compacted_through_event_seq)
          (to_string high_water_event_seq))
  else
  let after := List.filter (fun e => event_cursor <? or_event_seq e) outbox_events in
  let replay_events := take (Z.to_nat REMOTE_REPLAY_MAX_EVENTS_PER_PAGE) after in
  let proto_events := proto_event <$> replay_events in
  match validate_replay_page proto_events with
  | Err _ => Err ReplayPageExceedsBounds
  | Panic => Panic
  | Ok _ =>
      let has_more := bool_decide (is_Some (after !! Z.to_nat REMOTE_REPLAY_MAX_EVENTS_PER_PAGE)) in
      Ok (Replay 1 proto_events (to_string high_water_event_seq) has_more)
  end.

(** ** Operation recovery and revocation *)

(** remote_session_continuity.rs:154-168 RemoteOperationStatus. *)
Inductive RemoteOperationStatus := OsCommitted | OsRejected | OsReserved | OsOutcomeUnknown | OsNotFound.
(** remote_session_continuity.rs:172-187 RemoteOperationRecoveryAction. *)
Inductive RemoteOperationRecoveryAction :=
| ReturnCommittedOutcome | ReturnRejectedOutcome | ReconcileReserved | OutcomeUnknownSafeActions
| ResubmitIfClassPermitsRetry.
(** remote_session_continuity.rs:244-251 RemoteContinuityOperationClass. *)
Inductive RemoteContinuityOperationClass :=
| ReadOnly | TransactionalMutation | IdempotentAdapterMutation | NonrepeatableMutation.
(** remote_session_continuity.rs:191-225 operation_recovery_action. *)
Definition operation_recovery_action (status : RemoteOperationStatus) (class : RemoteContinuityOperationClass)
    : RemoteOperationRecoveryAction :=
  match status with
  | OsCommitted => ReturnCommittedOutcome
  | OsRejected => ReturnRejectedOutcome
  | OsReserved => ReconcileReserved
  | OsOutcomeUnknown => OutcomeUnknownSafeActions
  | OsNotFound =>
      match class with
      | TransactionalMutation => ResubmitIfClassPermitsRetry
      | IdempotentAdapterMutation => ResubmitIfClassPermitsRetry
      | NonrepeatableMutation => ResubmitIfClassPermitsRetry
      | ReadOnly => ResubmitIfClassPermitsRetry
      end
  end.
(** remote_session_continuity.rs:228-235 class_permits_retry. *)
Definition class_permits_retry (class : RemoteContinuityOperationClass) : bool :=
  match class with
  | ReadOnly => true
  | IdempotentAdapterMutation => true
  | TransactionalMutation => false
  | NonrepeatableMutation => false
  end.
(** session_continuity.rs:722-727 resolve_pending_operation. *)
Definition resolve_pending_operation := operation_recovery_action.

(** remote_session_continuity.rs:265-282 RemoteRevocationDisposition. *)
Inductive RemoteRevocationDisposition :=
| ContinueRecordedSnapshot | CancelBeforeApply | ReconcileNamedDurableResultThenFinalize
| CancelBeforeDispatch | RdOutcomeUnknown | CancelAtNextYieldAndReauthorize.
(** remote_session_continuity.rs:286-291 RemoteLongRunningClassification. *)
Inductive RemoteLongRunningClassification := LrContinue | LrCancel.
(** remote_session_continuity.rs:299-351 revocation_disposition. *)
Definition revocation_disposition (class : RemoteContinuityOperationClass)
    (already_reserved already_dispatched : bool)
    : RemoteRevocationDisposition * RemoteLongRunningClassification :=
  match class with
  | TransactionalMutation =>
      if already_reserved then (ContinueRecordedSnapshot, LrContinue) else (ContinueRecordedSnapshot, LrCancel)
  | IdempotentAdapterMutation =>
      if negb already_dispatched then (CancelBeforeApply, LrCancel)
      else (ReconcileNamedDurableResultThenFinalize, LrCancel)
  | NonrepeatableMutation =>
      if negb already_dispatched then (CancelBeforeDispatch, LrCancel) else (RdOutcomeUnknown, LrCancel)
  | ReadOnly => (CancelAtNextYieldAndReauthorize, LrCancel)
  end.
(** remote_session_continuity.rs:369-377 TagColumnError. *)
Inductive TagColumnError := MissingClass | MissingDisposition | MissingBoth.
(** remote_session_continuity.rs:356-366 validate_tag_has_both_columns. *)
Definition validate_tag_has_both_columns (class : option RemoteContinuityOperationClass)
    (disposition : option RemoteRevocationDisposition) : result TagColumnError unit :=
  match class, disposition with
  | Some _, Some _ => Ok tt
  | None, Some _ => Err MissingClass
  | Some _, None => Err MissingDisposition
  | None, None => Err MissingBoth
  end.

(** ** Leases *)

(** remote_session_continuity.rs:388-388 REMOTE_CONNECTION_LEASE_MAX_BYTES. *)
Definition REMOTE_CONNECTION_LEASE_MAX_BYTES : Z := 16384.
(** remote_session_continuity.rs:390-390 REMOTE_CONNECTION_LEASE_VALID_SECONDS. *)
Definition REMOTE_CONNECTION_LEASE_VALID_SECONDS : Z := 300.
(** remote_session_continuity.rs:397-402 RemoteLeaseChildLifecycle. *)
Inductive RemoteLeaseChildLifecycle := LcCurrent | LcDraining.
#[export] Instance lifecycle_eq_dec : EqDecision RemoteLeaseChildLifecycle.
Proof. solve_decision. Defined.
(** remote_session_continuity.rs:419-424 RemoteLeaseTransport. *)
Inductive RemoteLeaseTransport := LtWebRtc | LtWebSocket.
#[export] Instance lease_transport_eq_dec : EqDecision RemoteLeaseTransport.
Proof. solve_decision. Defined.
(** remote_session_continuity.rs:406-416 RemoteLeaseActiveChildV1. *)
Record RemoteLeaseActiveChildV1 := mkLeaseChild {
  la_child_attempt_id : bytes;
  la_transport_epoch : bytes;
  la_transport : RemoteLeaseTransport;
  la_lifecycle : RemoteLeaseChildLifecycle;
  la_final_proof_set_digest : bytes }.

(** remote_session_continuity.rs:430-466 RemoteConnectionLeasePayloadV1. *)
Record RemoteConnectionLeasePayloadV1 := mkLeasePayload {
  lp_schema_version : Z;
  lp_iss : bytes;
  lp_aud : bytes;
  lp_lease_id : bytes;
  lp_lease_generation : bytes;
  lp_refresh_request_id : bytes;
  lp_refresh_authorization_digest : bytes;
  lp_tenant_id : bytes;
  lp_account_id : bytes;
  lp_client_device_id : bytes;
  lp_client_device_generation : bytes;
  lp_daemon_instance_id : bytes;
  lp_daemon_certificate_generation : bytes;
  lp_logical_attachment_id : bytes;
  lp_service_version : bytes;
  lp_service_policy_digest : bytes;
  lp_policy_epoch : bytes;
  lp_policy_digest : bytes;
  lp_authority_epoch : bytes;
  lp_permission_ceiling_digest : bytes;
  lp_daemon_local_policy_digest : bytes;
  lp_active_children : list RemoteLeaseActiveChildV1;
  lp_tenant_authorization_statement_digest : option bytes;
  lp_tenant_authority_status_digest : option bytes;
  lp_iat : bytes;
  lp_valid_until : bytes }.

(** remote_session_continuity.rs:602-630 LeaseValidationError. *)
Inductive LeaseValidationError :=
| LvSchemaVersion | LvAudience | LvTenantMatrixOneNull | LvChildrenNotSorted | LvTooManyCurrentWebRtc
| LvTooManyCurrentWebSocket | LvTooManyDraining | LvTooManyChildren | LvThreeChildrenRequireDraining
| LvValidityDuration | LvExpired | LvTimeParse | LvJwsTooLarge.

(** The loop over [prev]: strictly ascending ids. *)
Fixpoint children_sorted (prev : option bytes) (l : list RemoteLeaseActiveChildV1) : bool :=
  match l with
  | [] => true
  | c :: l =>
      match prev with
      | Some p => if bytes_leb (la_child_attempt_id c) p then false
                  else children_sorted (Some (la_child_attempt_id c)) l
      | None => children_sorted (Some (la_child_attempt_id c)) l
      end
  end.
Definition count_children (f : RemoteLeaseActiveChildV1 -> bool) (l : list RemoteLeaseActiveChildV1) : Z :=
  zlen (List.filter f l).
Definition is_current_on (t : RemoteLeaseTransport) (c : RemoteLeaseActiveChildV1) : bool :=
  bool_decide (la_lifecycle c = LcCurrent) && bool_decide (la_transport c = t).
Definition is_draining (c : RemoteLeaseActiveChildV1) : bool := bool_decide (la_lifecycle c = LcDraining).
(** The both-null or both-nonnull matrix; an empty digest counts as null. *)
Definition tenant_matrix_ok (s st : option bytes) : bool :=
  match s, st with
  | None, None => true
  | Some s, Some st => negb (bool_decide (s = []) || bool_decide (st = []))
  | _, _ => false
  end.

(** remote_session_continuity.rs:471-598 RemoteConnectionLeasePayloadV1::validate. *)
Definition lease_validate (l : RemoteConnectionLeasePayloadV1) (now : Z) : result LeaseValidationError unit :=
  if negb (lp_schema_version l =? REMOTE_SESSION_CONTINUITY_SCHEMA_VERSION) then Err LvSchemaVersion else
  if negb (bool_decide (lp_aud l = ascii_bytes "flycockpit-remote-connection-lease-v1")) then Err LvAudience else
  if negb (tenant_matrix_ok (lp_tenant_authorization_statement_digest l) (lp_tenant_authority_status_digest l))
  then Err LvTenantMatrixOneNull else
  if negb (children_sorted None (lp_active_children l)) then Err LvChildrenNotSorted else
  let draining_count := count_children is_draining (lp_active_children l) in
  if 3 <? zlen (lp_active_children l) then Err LvTooManyChildren else
  if 1 <? count_children (is_current_on LtWebRtc) (lp_active_children l) then Err LvTooManyCurrentWebRtc else
  if 1 <? count_children (is_current_on LtWebSocket) (lp_active_children l) then Err LvTooManyCurrentWebSocket else
  if 1 <? draining_count then Err LvTooManyDraining else
  if (zlen (lp_active_children l) =? 3) && negb (draining_count =? 1) then Err LvThreeChildrenRequireDraining else
  iat ← ok_or (parse_i64 (lp_iat l)) LvTimeParse;
  valid_until ← ok_or (parse_i64 (lp_valid_until l)) LvTimeParse;
  validity ← sub_i64 valid_until iat;
  if negb (validity =? REMOTE_CONNECTION_LEASE_VALID_SECONDS) then Err LvValidityDuration else
  if valid_until <? now then Err LvExpired else
  Ok tt.

Section digests.
Context `{Sha256}.
(** remote_session_continuity.rs:635-639 lease_jws_digest. *)
Definition lease_jws_digest (jws : bytes) : bytes := sha256_digest jws.
(** remote_session_continuity.rs:749-753 refresh_authorization_jws_digest. *)
Definition refresh_authorization_jws_digest (jws : bytes) : bytes := sha256_digest jws.
End digests.
(** remote_session_continuity.rs:642-647 validate_lease_jws_size. *)
Definition validate_lease_jws_size (jws : bytes) : result LeaseValidationError unit :=
  if REMOTE_CONNECTION_LEASE_MAX_BYTES <? zlen jws then Err LvJwsTooLarge else Ok tt.

(** remote_session_continuity.rs:667-695 RemoteLeaseRefreshAuthorizationPayloadV1. *)
Record RemoteLeaseRefreshAuthorizationPayloadV1 := mkRefreshAuth {
  ra_schema_version : Z;
  ra_iss : bytes;
  ra_aud : bytes;
  ra_authorization_id : bytes;
  ra_tenant_id : bytes;
  ra_account_id : bytes;
  ra_client_device_id : bytes;
  ra_client_certificate_generation : bytes;
  ra_daemon_instance_id : bytes;
  ra_daemon_certificate_generation : bytes;
  ra_logical_attachment_id : bytes;
  ra_service_version : bytes;
  ra_service_policy_digest : bytes;
  ra_policy_epoch : bytes;
  ra_policy_digest : bytes;
  ra_authority_epoch : bytes;
  ra_permission_ceiling_digest : bytes;
  ra_tenant_authorization_digest : option bytes;
  ra_iat : bytes;
  ra_exp : bytes;
  ra_jti : bytes }.
(** remote_session_continuity.rs:733-745 RefreshAuthValidationError. *)
Inductive RefreshAuthValidationError :=
| RvSchemaVersion | RvAudience | RvTenantDigestEmpty | RvTimeParse | RvTimeOrder.
(** remote_session_continuity.rs:700-729 RemoteLeaseRefreshAuthorizationPayloadV1::validate. *)
Definition refresh_auth_validate (r : RemoteLeaseRefreshAuthorizationPayloadV1)
    : result RefreshAuthValidationError unit :=
  if negb (ra_schema_version r =? REMOTE_SESSION_CONTINUITY_SCHEMA_VERSION) then Err RvSchemaVersion else
  if negb (bool_decide (ra_aud r = ascii_bytes "flycockpit-remote-lease-refresh-v1")) then Err RvAudience else
  if bool_decide (ra_tenant_authorization_digest r = Some []) then Err RvTenantDigestEmpty else
  iat ← ok_or (parse_i64 (ra_iat r)) RvTimeParse;
  exp ← ok_or (parse_i64 (ra_exp r)) RvTimeParse;
  if exp <? iat then Err RvTimeOrder else
  Ok tt.

(** remote_session_continuity.rs:757-779 REFRESH_AUTHORIZATION_PAYLOAD_MEMBERS. *)
Definition REFRESH_AUTHORIZATION_PAYLOAD_MEMBERS : list bytes :=
  ascii_bytes <$> ["schemaVersion"; "iss"; "aud"; "authorizationId"; "tenantId"; "accountId"; "clientDeviceId";
    "clientCertificateGeneration"; "daemonInstanceId"; "daemonCertificateGeneration"; "logicalAttachmentId";
    "serviceVersion"; "servicePolicyDigest"; "policyEpoch"; "policyDigest"; "authorityEpoch";
    "permissionCeilingDigest"; "tenantAuthorizationDigest"; "iat"; "exp"; "jti"]%string.
(** remote_session_continuity.rs:782-809 CONNECTION_LEASE_PAYLOAD_MEMBERS. *)
Definition CONNECTION_LEASE_PAYLOAD_MEMBERS : list bytes :=
  ascii_bytes <$> ["schemaVersion"; "iss"; "aud"; "leaseId"; "leaseGeneration"; "refreshRequestId";
    "refreshAuthorizationDigest"; "tenantId"; "accountId"; "clientDeviceId"; "clientDeviceGeneration";
    "daemonInstanceId"; "daemonCertificateGeneration"; "logicalAttachmentId"; "serviceVersion";
    "servicePolicyDigest"; "policyEpoch"; "policyDigest"; "authorityEpoch"; "permissionCeilingDigest";
    "daemonLocalPolicyDigest"; "activeChildren"; "tenantAuthorizationStatementDigest";
    "tenantAuthorityStatusDigest"; "iat"; "validUntil"]%string.
(** remote_session_continuity.rs:838-845 PayloadKeyError. *)
Inductive PayloadKeyError := KeyMismatch (extra missing : list bytes).
(** remote_session_continuity.rs:812-835 validate_exact_payload_keys. *)
Definition validate_exact_payload_keys (keys required : list bytes) : result PayloadKeyError unit :=
  let sorted_keys := merge_sort bytes_le keys in
  let sorted_required := merge_sort bytes_le required in
  if bool_decide (sorted_keys = sorted_required) then Ok tt else
  let extra := List.filter (fun k => negb (bool_decide (k ∈ sorted_required))) sorted_keys in
  let missing := List.filter (fun k => negb (bool_decide (k ∈ sorted_keys))) sorted_required in
  Err (KeyMismatch extra missing).

(** remote_session_continuity.rs:1410-1417 RemoteCurrentLeasePointerV1. *)
Record RemoteCurrentLeasePointerV1 := mkLeasePointer {
  cp_logical_attachment_id : bytes; cp_lease_id : bytes; cp_lease_generation : Z; cp_lease_jws_digest : bytes }.
(** remote_session_continuity.rs:1433-1439 LeaseReplacementError. *)
Inductive LeaseReplacementError := GenerationNotMonotonic | DigestMismatch.
(** remote_session_continuity.rs:1422-1430 validate_lease_replacement_generation. *)
Definition validate_lease_replacement_generation (current_generation new_generation : Z)
    : result LeaseReplacementError unit :=
  if new_generation <=? current_generation then Err GenerationNotMonotonic else Ok tt.
(** remote_session_continuity.rs:1442-1452 validate_exact_retry. *)
Definition validate_exact_retry (current_generation : Z) (current_digest : bytes)
    (retry_generation : Z) (retry_digest : bytes) : result LeaseReplacementError unit :=
  if negb (current_generation =? retry_generation) || negb (bool_decide (current_digest = retry_digest))
  then Err DigestMismatch else Ok tt.

(** remote_session_continuity.rs:1469-1479 RefreshCeiling. *)
Record RefreshCeiling := mkCeiling {
  rc_ceiling_digest : bytes;
  rc_scopes : gset bytes;
  rc_projects : gset bytes;
  rc_transports : gset bytes;
  rc_custody_requirements : gset bytes;
  rc_children : gset bytes }.
(** remote_session_continuity.rs:1516-1528 RefreshWidenError. *)
Inductive RefreshWidenError := ScopeWidened | ProjectWidened | TransportWidened | CustodyWidened | ChildAdded.
(** remote_session_continuity.rs:1485-1512 validate_refresh_narrows. *)
Definition validate_refresh_narrows (old new : RefreshCeiling) : result RefreshWidenError unit :=
  if bool_decide (rc_ceiling_digest old = rc_ceiling_digest new) then Ok tt else
  if negb (bool_decide (rc_scopes new ⊆ rc_scopes old)) then Err ScopeWidened else
  if negb (bool_decide (rc_projects new ⊆ rc_projects old)) then Err ProjectWidened else
  if negb (bool_decide (rc_transports new ⊆ rc_transports old)) then Err TransportWidened else
  if negb (bool_decide (rc_custody_requirements new ⊆ rc_custody_requirements old)) then Err CustodyWidened else
  if negb (bool_decide (rc_children new ⊆ rc_children old)) then Err ChildAdded else
  Ok tt.

(** ** Delivery deduplication *)

(** remote_session_continuity.rs:1537-1541 RemoteDeliveryDedupeState. *)
Record RemoteDeliveryDedupeState := mkDedupe { dd_delivered : gset bytes }.
(** remote_session_continuity.rs:1552-1554 RemoteDeliveryDedupeState::mark_delivered. *)
Definition mark_delivered (d : RemoteDeliveryDedupeState) (delivery_id : bytes)
    : RemoteDeliveryDedupeState * bool :=
  (mkDedupe ({[ delivery_id ]} ∪ dd_delivered d), negb (bool_decide (delivery_id ∈ dd_delivered d))).
(** remote_session_continuity.rs:1557-1559 RemoteDeliveryDedupeState::is_delivered. *)
Definition is_delivered (d : RemoteDeliveryDedupeState) (delivery_id : bytes) : bool :=
  bool_decide (delivery_id ∈ dd_delivered d).
(** remote_session_continuity.rs:1563-1565 RemoteDeliveryDedupeState::forget. *)
Definition dedupe_forget (d : RemoteDeliveryDedupeState) (delivery_id : bytes) : RemoteDeliveryDedupeState :=
  mkDedupe (dd_delivered d ∖ {[ delivery_id ]}).

(** remote_session_continuity.rs:1392-1401 RemoteMobileUiState. *)
Inductive RemoteMobileUiState :=
| UiReconnecting | UiReauthenticationRequired | UiSnapshotRequired | UiOutcomeUnknown | UiAccessRevoked
| UiSessionTerminal.

(** ** Child membership *)

(** session_continuity.rs:89-93 ChildTransport. *)
Inductive ChildTransport := MtWebRtc | MtWebSocket.
(** session_continuity.rs:96-106 ChildMemberState. *)
Inductive ChildMemberState := MsPending | MsActive | MsDraining | MsClosed.
(** session_continuity.rs:76-86 ChildMember. *)
Record ChildMember := mkMember {
  cm_child_attempt_id : bytes;
  cm_transport : ChildTransport;
  cm_transport_epoch : bytes;
  cm_generation : Z;
  cm_state : ChildMemberState;
  cm_final_proof_set_digest : bytes }.
(** session_continuity.rs:110-112 ChildMember::is_active. *)
Definition member_is_active (c : ChildMember) : bool := match cm_state c with MsActive => true | _ => false end.
(** session_continuity.rs:115-117 ChildMember::is_open. *)
Definition member_is_open (c : ChildMember) : bool := match cm_state c with MsClosed => false | _ => true end.
Definition set_member_state (s : ChildMemberState) (c : ChildMember) : ChildMember :=
  mkMember (cm_child_attempt_id c) (cm_transport c) (cm_transport_epoch c) (cm_generation c) s
    (cm_final_proof_set_digest c).

(** session_continuity.rs:127-170 AttachmentContinuityState. *)
Record AttachmentContinuityState := mkAttachment {
  at_logical_attachment_id : bytes;
  at_session_id : bytes;
  at_current_lease_id : option bytes;
  at_current_lease_generation : Z;
  at_current_lease_jws_digest : bytes;
  at_children : list ChildMember;
  at_delivery_dedupe : RemoteDeliveryDedupeState;
  at_last_applied_control_seq : Z;
  at_last_applied_policy_epoch : Z;
  at_last_applied_authority_epoch : Z;
  at_control_event_hashes : gmap bytes bytes;
  at_operations_paused : bool;
  at_required_policy_digest : option bytes;
  at_drain_deadline : option Z;
  at_pending_lease_refresh_jws : option bytes;
  at_mobile_ui_state : RemoteMobileUiState;
  at_backgrounded : bool }.

(** session_continuity.rs:174-194 AttachmentContinuityState::new. *)
Definition attachment_new (logical_attachment_id session_id : bytes) : AttachmentContinuityState :=
  mkAttachment logical_attachment_id session_id None 0 (replicate 32 0) [] (mkDedupe ∅) 0 0 0 ∅ false None None None
    UiReconnecting false.

(** Field assignments. *)
Definition set_children_of (cs : list ChildMember) (s : AttachmentContinuityState) : AttachmentContinuityState :=
  mkAttachment (at_logical_attachment_id s) (at_session_id s) (at_current_lease_id s) (at_current_lease_generation s)
    (at_current_lease_jws_digest s) cs (at_delivery_dedupe s) (at_last_applied_control_seq s)
    (at_last_applied_policy_epoch s) (at_last_applied_authority_epoch s) (at_control_event_hashes s)
    (at_operations_paused s) (at_required_policy_digest s) (at_drain_deadline s) (at_pending_lease_refresh_jws s)
    (at_mobile_ui_state s) (at_backgrounded s).
Definition set_lease_of (id : option bytes) (generation : Z) (digest : bytes) (s : AttachmentContinuityState)
    : AttachmentContinuityState :=
  mkAttachment (at_logical_attachment_id s) (at_session_id s) id generation digest (at_children s)
    (at_delivery_dedupe s) (at_last_applied_control_seq s) (at_last_applied_policy_epoch s)
    (at_last_applied_authority_epoch s) (at_control_event_hashes s) (at_operations_paused s)
    (at_required_policy_digest s) (at_drain_deadline s) (at_pending_lease_refresh_jws s) (at_mobile_ui_state s)
    (at_backgrounded s).
Definition set_dedupe_of (d : RemoteDeliveryDedupeState) (s : AttachmentContinuityState) : AttachmentContinuityState :=
  mkAttachment (at_logical_attachment_id s) (at_session_id s) (at_current_lease_id s) (at_current_lease_generation s)
    (at_current_lease_jws_digest s) (at_children s) d (at_last_applied_control_seq s)
    (at_last_applied_policy_epoch s) (at_last_applied_authority_epoch s) (at_control_event_hashes s)
    (at_operations_paused s) (at_required_policy_digest s) (at_drain_deadline s) (at_pending_lease_refresh_jws s)
    (at_mobile_ui_state s) (at_backgrounded s).
Definition set_cursor_of (seq policy authority : Z) (hashes : gmap bytes bytes) (s : AttachmentContinuityState)
    : AttachmentContinuityState :=
  mkAttachment (at_logical_attachment_id s) (at_session_id s) (at_current_lease_id s) (at_current_lease_generation s)
    (at_current_lease_jws_digest s) (at_children s) (at_delivery_dedupe s) seq policy authority hashes
    (at_operations_paused s) (at_required_policy_digest s) (at_drain_deadline s) (at_pending_lease_refresh_jws s)
    (at_mobile_ui_state s) (at_backgrounded s).
Definition set_paused_of (b : bool) (s : AttachmentContinuityState) : AttachmentContinuityState :=
  mkAttachment (at_logical_attachment_id s) (at_session_id s) (at_current_lease_id s) (at_current_lease_generation s)
    (at_current_lease_jws_digest s) (at_children s) (at_delivery_dedupe s) (at_last_applied_control_seq s)
    (at_last_applied_policy_epoch s) (at_last_applied_authority_epoch s) (at_control_event_hashes s)
    b (at_required_policy_digest s) (at_drain_deadline s) (at_pending_lease_refresh_jws s)
    (at_mobile_ui_state s) (at_backgrounded s).
Definition set_required_of (policy : option bytes) (deadline : option Z) (jws : option bytes)
    (s : AttachmentContinuityState) : AttachmentContinuityState :=
  mkAttachment (at_logical_attachment_id s) (at_session_id s) (at_current_lease_id s) (at_current_lease_generation s)
    (at_current_lease_jws_digest s) (at_children s) (at_delivery_dedupe s) (at_last_applied_control_seq s)
    (at_last_applied_policy_epoch s) (at_last_applied_authority_epoch s) (at_control_event_hashes s)
    (at_operations_paused s) policy deadline jws (at_mobile_ui_state s) (at_backgrounded s).
Definition set_ui_of (ui : RemoteMobileUiState) (backgrounded : bool) (s : AttachmentContinuityState)
    : AttachmentContinuityState :=
  mkAttachment (at_logical_attachment_id s) (at_session_id s) (at_current_lease_id s) (at_current_lease_generation s)
    (at_current_lease_jws_digest s) (at_children s) (at_delivery_dedupe s) (at_last_applied_control_seq s)
    (at_last_applied_policy_epoch s) (at_last_applied_authority_epoch s) (at_control_event_hashes s)
    (at_operations_paused s) (at_required_policy_digest s) (at_drain_deadline s) (at_pending_lease_refresh_jws s)
    ui backgrounded.

(** session_continuity.rs:197-199 AttachmentContinuityState::count_active. *)
Definition count_active (s : AttachmentContinuityState) : Z := zlen (List.filter member_is_active (at_children s)).
(** session_continuity.rs:202-204 AttachmentContinuityState::count_open. *)
Definition count_open (s : AttachmentContinuityState) : Z := zlen (List.filter member_is_open (at_children s)).
(** session_continuity.rs:207-209 AttachmentContinuityState::find_child. *)
Definition find_member (s : AttachmentContinuityState) (id : bytes) : option ChildMember :=
  List.find (fun c => bool_decide (cm_child_attempt_id c = id)) (at_children s).
(** An assignment through [find_child_mut]: the first child with the id. *)
Fixpoint update_first (id : bytes) (f : ChildMember -> ChildMember) (cs : list ChildMember) : list ChildMember :=
  match cs with
  | [] => []
  | c :: cs => if bool_decide (cm_child_attempt_id c = id) then f c :: cs else c :: update_first id f cs
  end.
(** session_continuity.rs:218-224 AttachmentContinuityState::add_child. *)
Definition add_member (s : AttachmentContinuityState) (child : ChildMember) : AttachmentContinuityState * bool :=
  match find_member s (cm_child_attempt_id child) with
  | Some _ => (s, false)
  | None => (set_children_of (at_children s ++ [child]) s, true)
  end.
(** session_continuity.rs:314-323 CloseChildResult. *)
Inductive CloseChildResult := CcClosed | CcClosedAttachmentDisconnected | CcNotFound.
(** session_continuity.rs:229-243 AttachmentContinuityState::close_child. *)
Definition close_member (s : AttachmentContinuityState) (id : bytes) : AttachmentContinuityState * CloseChildResult :=
  match find_member s id with
  | None => (s, CcNotFound)
  | Some child =>
      let was_active := member_is_active child in
      let s := set_children_of (update_first id (set_member_state MsClosed) (at_children s)) s in
      if was_active && (count_active s =? 0) then (s, CcClosedAttachmentDisconnected) else (s, CcClosed)
  end.
(** session_continuity.rs:326-334 ChildCallbackResult. *)
Inductive ChildCallbackResult := CbValid | CbStale | CbUnknown.
(** session_continuity.rs:247-266 AttachmentContinuityState::verify_child_callback. *)
Definition verify_child_callback (s : AttachmentContinuityState) (id : bytes) (generation : Z) (epoch : bytes)
    : ChildCallbackResult :=
  match find_member s id with
  | None => CbUnknown
  | Some child =>
      if negb (member_is_open child) then CbStale else
      if negb (cm_generation child =? generation) then CbStale else
      if negb (bool_decide (cm_transport_epoch child = epoch)) then CbStale else
      CbValid
  end.
(** session_continuity.rs:269-271 AttachmentContinuityState::has_active_children. *)
Definition has_active_children (s : AttachmentContinuityState) : bool := 0 <? count_active s.

Definition is_lease_active (c : ChildMember) : bool :=
  match cm_state c with MsActive | MsDraining => true | _ => false end.
(** [sort_by] on the attempt id: a stable sort. *)
Definition member_le (a b : ChildMember) : Prop := bytes_le (cm_child_attempt_id a) (cm_child_attempt_id b).
#[export] Instance member_le_dec : RelDecision member_le.
Proof. intros a b. unfold member_le. apply _. Defined.
(** session_continuity.rs:275-288 AttachmentContinuityState::lease_active_children. *)
Definition lease_active_children (s : AttachmentContinuityState) : list ChildMember :=
  merge_sort member_le (List.filter is_lease_active (at_children s)).
(** session_continuity.rs:292-310 AttachmentContinuityState::build_lease_children. The [base64]
    crate's encoder is the parameter [base64_standard]. *)
Definition build_lease_children (base64_standard : bytes -> bytes) (s : AttachmentContinuityState)
    : list RemoteLeaseActiveChildV1 :=
  (fun c => mkLeaseChild (cm_child_attempt_id c) (cm_transport_epoch c)
      (match cm_transport c with MtWebRtc => LtWebRtc | MtWebSocket => LtWebSocket end)
      (match cm_state c with MsActive => LcCurrent | MsDraining => LcDraining | _ => LcCurrent end)
      (base64_standard (cm_final_proof_set_digest c)))
  <$> lease_active_children s.

(** ** Control events *)

(** remote_session_continuity.rs:1365-1385 RemoteControlEventApplyResult. *)
Inductive RemoteControlEventApplyResult :=
| Applied | DuplicateIdempotent | Conflict | SequenceGap | EpochRegression | BadSignature | UnknownKind
| MalformedPayload.
#[export] Instance apply_result_eq_dec : EqDecision RemoteControlEventApplyResult.
Proof. solve_decision. Defined.

(** [for child in &mut state.children { if child.is_open() { child.state = to } }]. *)
Definition move_open (to : ChildMemberState) (cs : list ChildMember) : list ChildMember :=
  (fun c => if member_is_open c then set_member_state to c else c) <$> cs.

Section control.
Context `{Sha256}.

(** session_continuity.rs:359-469 apply_control_event. *)
Definition apply_control_event (s : AttachmentContinuityState) (event_bytes : bytes)
    : result Empty_set (AttachmentContinuityState * RemoteControlEventApplyResult) :=
  match control_event_decode event_bytes with
  | Panic => Panic
  | Err _ => Ok (set_paused_of true s, MalformedPayload)
  | Ok event =>
      let header := ev_header event in
      let byte_hash := control_event_byte_hash event_bytes in
      match at_control_event_hashes s !! eh_event_id header with
      | Some existing_hash =>
          if bool_decide (existing_hash = byte_hash) then Ok (s, DuplicateIdempotent)
          else Ok (set_paused_of true s, Conflict)
      | None =>
          expected_seq ← add_in U64_MAX (at_last_applied_control_seq s) 1;
          if expected_seq <? eh_control_seq header then Ok (set_paused_of true s, SequenceGap) else
          if (eh_policy_epoch header <? at_last_applied_policy_epoch s)
             || (eh_authority_epoch header <? at_last_applied_authority_epoch s)
          then Ok (set_paused_of true s, EpochRegression) else
          let s := set_cursor_of (eh_control_seq header) (eh_policy_epoch header) (eh_authority_epoch header)
                     (<[eh_event_id header := byte_hash]> (at_control_event_hashes s)) s in
          match ev_payload event with
          | LeaseRefresh lease_jws =>
              Ok (set_required_of (at_required_policy_digest s) (at_drain_deadline s) (Some lease_jws) s, Applied)
          | PolicyNarrowed _ new_digest _ =>
              Ok (set_required_of (Some new_digest) (at_drain_deadline s) (at_pending_lease_refresh_jws s) s, Applied)
          | DeviceRevoked _ _ | InstanceRevoked _ _ | AttachmentRevoked _ _ =>
              let s := set_children_of (move_open MsClosed (at_children s)) s in
              let s := set_lease_of None (at_current_lease_generation s) (at_current_lease_jws_digest s) s in
              Ok (set_ui_of UiAccessRevoked (at_backgrounded s) s, Applied)
          | TenantAuthorityChanged _ new_epoch _ =>
              if negb (eh_authority_epoch header =? new_epoch) then Ok (set_paused_of true s, MalformedPayload)
              else Ok (s, Applied)
          | AuthorityStatus _ _ => Ok (s, Applied)
          | Drain deadline _ =>
              let s := set_required_of (at_required_policy_digest s) (Some deadline) (at_pending_lease_refresh_jws s) s in
              Ok (set_children_of (move_open MsDraining (at_children s)) s, Applied)
          end
      end
  end.

(** session_continuity.rs:480-512 reconcile_authoritative_replay. *)
Fixpoint reconcile_authoritative_replay (s : AttachmentContinuityState) (verified_page : list RemoteControlEventV1)
    : result Empty_set (AttachmentContinuityState * RemoteControlEventApplyResult) :=
  match verified_page with
  | [] => Ok (set_paused_of false s, Applied)
  | event :: rest =>
      let b := control_event_encode event in
      let byte_hash := control_event_byte_hash b in
      match at_control_event_hashes s !! eh_event_id (ev_header event) with
      | Some existing =>
          if bool_decide (existing = byte_hash) then reconcile_authoritative_replay s rest
          else Ok (s, Conflict)
      | None =>
          next ← add_in U64_MAX (at_last_applied_control_seq s) 1;
          if negb (eh_control_seq (ev_header event) =? next) then Ok (s, SequenceGap) else
          let was_paused := at_operations_paused s in
          r ← apply_control_event (set_paused_of false s) b;
          let '(s, res) := r in
          if negb (bool_decide (res = Applied))
          then Ok (set_paused_of (was_paused || at_operations_paused s) s, res)
          else reconcile_authoritative_replay s rest
      end
  end.
End control.

(** ** The authorization barrier *)

(** session_continuity.rs:527-535 AuthorizationBarrier. *)
Record AuthorizationBarrier := mkBarrier {
  ab_current_lease_id : option bytes; ab_operations_paused : bool; ab_next_operation_seq : Z }.
(** session_continuity.rs:609-614 BarrierAdmission. *)
Record BarrierAdmission := mkAdmission { ba_recorded_policy_snapshot_seq : option Z }.
(** session_continuity.rs:617-623 BarrierError. *)
Inductive BarrierError := NoCurrentLease | OperationsPaused.
(** session_continuity.rs:539-545 AuthorizationBarrier::new. *)
Definition barrier_new : AuthorizationBarrier := mkBarrier None false 1.
(** session_continuity.rs:550-578 AuthorizationBarrier::admit. *)
Definition barrier_admit (b : AuthorizationBarrier) (is_mutation : bool) (lease_id : bytes)
    : AuthorizationBarrier * result BarrierError BarrierAdmission :=
  if negb (bool_decide (ab_current_lease_id b = Some lease_id)) then (b, Err NoCurrentLease) else
  if ab_operations_paused b then (b, Err OperationsPaused) else
  if is_mutation then
    let seq := ab_next_operation_seq b in
    match add_in U64_MAX seq 1 with
    | Ok next =>
        (mkBarrier (ab_current_lease_id b) (ab_operations_paused b) next, Ok (mkAdmission (Some seq)))
    | Err e => (b, Err e)
    | Panic => (b, Panic)
    end
  else (b, Ok (mkAdmission None)).
(** session_continuity.rs:627-631 EventBeforeRequestOutcome. *)
Inductive EventBeforeRequestOutcome := RejectedBeforeAdmission.
(** session_continuity.rs:585-589 AuthorizationBarrier::event_before_request. *)
Definition event_before_request (class : RemoteContinuityOperationClass) : EventBeforeRequestOutcome :=
  RejectedBeforeAdmission.
(** session_continuity.rs:593-599 AuthorizationBarrier::request_before_event. *)
Definition request_before_event := revocation_disposition.

(** ** Mobile lifecycle and lease replacement *)

(** session_continuity.rs:746-757 mobile_background. *)
Definition mobile_background (s : AttachmentContinuityState) : AttachmentContinuityState :=
  let s := set_ui_of (at_mobile_ui_state s) true s in
  let s := set_children_of (move_open MsClosed (at_children s)) s in
  set_ui_of UiReconnecting (at_backgrounded s) s.
(** session_continuity.rs:761-767 mobile_foreground. *)
Definition mobile_foreground (s : AttachmentContinuityState) : AttachmentContinuityState :=
  set_ui_of UiReconnecting false s.
(** session_continuity.rs:771-773 mobile_reauthentication_required. *)
Definition mobile_reauthentication_required (s : AttachmentContinuityState) : AttachmentContinuityState :=
  set_ui_of UiReauthenticationRequired (at_backgrounded s) s.
(** session_continuity.rs:777-779 mobile_snapshot_required. *)
Definition mobile_snapshot_required (s : AttachmentContinuityState) : AttachmentContinuityState :=
  set_ui_of UiSnapshotRequired (at_backgrounded s) s.
(** session_continuity.rs:782-784 mobile_outcome_unknown. *)
Definition mobile_outcome_unknown (s : AttachmentContinuityState) : AttachmentContinuityState :=
  set_ui_of UiOutcomeUnknown (at_backgrounded s) s.
(** session_continuity.rs:787-789 mobile_access_revoked. *)
Definition mobile_access_revoked (s : AttachmentContinuityState) : AttachmentContinuityState :=
  set_ui_of UiAccessRevoked (at_backgrounded s) s.
(** session_continuity.rs:792-794 mobile_session_terminal. *)
Definition mobile_session_terminal (s : AttachmentContinuityState) : AttachmentContinuityState :=
  set_ui_of UiSessionTerminal (at_backgrounded s) s.
(** session_continuity.rs:804-817 replace_current_lease. *)
Definition replace_current_lease (s : AttachmentContinuityState) (new_lease_id : bytes) (new_generation : Z)
    (new_jws_digest : bytes) : AttachmentContinuityState * result LeaseReplacementError unit :=
  if new_generation <=? at_current_lease_generation s then (s, Err GenerationNotMonotonic)
  else (set_lease_of (Some new_lease_id) new_generation new_jws_digest s, Ok tt).
