(* ===== verification/ContinuityProps.v ===== *)
(** What session continuity guarantees: control events apply once and in epoch order, a
    pause is sticky, a revocation severs, the children a lease names are exactly the
    live ones in canonical order, replay pages deliver the outbox; and four places where
    the code does less than its documentation says. *)

From S2P Require Import Prelude ProtocolId WireScalar NoisePrologue ControlEvent Continuity.
From stdpp Require Import options.
Set Warnings "-clear-no-such-hyp".

(** ** The order on strings *)

Lemma bytes_leb_refl a : bytes_leb a a = true.
Proof. induction a as [|x a IH]; cbn; [done|]. rewrite Z.eqb_refl, IH. apply orb_true_r. Qed.
Lemma bytes_leb_cases x a y b :
  bytes_leb (x :: a) (y :: b) = true <-> x < y \/ (x = y /\ bytes_leb a b = true).
Proof. cbn. rewrite orb_true_iff, andb_true_iff, Z.ltb_lt, Z.eqb_eq. done. Qed.
#[export] Instance bytes_le_trans : Transitive bytes_le.
Proof.
  intros a. unfold bytes_le. induction a as [|x a IH]; intros [|y b] [|z c]; try done.
  rewrite !bytes_leb_cases. intros [?|[-> ?]] [?|[-> ?]]; [left; lia|by left|by left|right; eauto].
Qed.
#[export] Instance bytes_le_antisymm : AntiSymm (=) bytes_le.
Proof.
  intros a. unfold bytes_le. induction a as [|x a IH]; intros [|y b]; try done.
  rewrite !bytes_leb_cases. intros [?|[-> ?]] [?|[? ?]]; try lia. f_equal. by apply IH.
Qed.
#[export] Instance bytes_le_total : Total bytes_le.
Proof.
  intros a. unfold bytes_le. induction a as [|x a IH]; intros [|y b]; [by left|by left|by right|].
  rewrite !bytes_leb_cases. destruct (Z.lt_trichotomy x y) as [?|[->|?]]; [by left; left| |by right; left].
  destruct (IH b); [left|right]; by right.
Qed.
#[export] Instance bytes_le_preorder : PreOrder bytes_le.
Proof. split; [exact bytes_leb_refl|apply _]. Qed.
#[export] Instance member_le_total : Total member_le.
Proof. intros a b. apply (total bytes_le). Qed.
#[export] Instance member_le_trans : Transitive member_le.
Proof. intros a b c. unfold member_le. apply (transitivity (R:=bytes_le)). Qed.

(** Checking payload keys is checking for a permutation of the required members. *)
Lemma keys_permutation keys required :
  validate_exact_payload_keys keys required = Ok tt <-> keys ≡ₚ required.
Proof.
  unfold validate_exact_payload_keys. case_bool_decide as E.
  - split; [|done]. intros _. rewrite <- (merge_sort_Permutation bytes_le keys), E.
    apply merge_sort_Permutation.
  - split; [done|]. intros Hp. exfalso. apply E. apply (Sorted_unique bytes_le).
    + apply Sorted_merge_sort; apply _.
    + apply Sorted_merge_sort; apply _.
    + by rewrite !merge_sort_Permutation.
Qed.

(** ** Runs of an attachment *)

(** Everything that acts on an attachment. *)
Inductive ContOp :=
| CoEvent (b : bytes)
| CoReconcile (page : list RemoteControlEventV1)
| CoAdd (child : ChildMember)
| CoClose (id : bytes)
| CoBackground
| CoForeground
| CoUi (ui : RemoteMobileUiState)
| CoLease (id : bytes) (generation : Z) (digest : bytes)
| CoMark (id : bytes)
| CoForget (id : bytes).

Definition set_ui_state (ui : RemoteMobileUiState) (s : AttachmentContinuityState) : AttachmentContinuityState :=
  match ui with
  | UiReauthenticationRequired => mobile_reauthentication_required s
  | UiSnapshotRequired => mobile_snapshot_required s
  | UiOutcomeUnknown => mobile_outcome_unknown s
  | UiAccessRevoked => mobile_access_revoked s
  | UiSessionTerminal => mobile_session_terminal s
  | UiReconnecting => s
  end.

Section runs.
Context `{Sha256}.

Definition cont_step (s : AttachmentContinuityState) (o : ContOp) : result Empty_set AttachmentContinuityState :=
  match o with
  | CoEvent b => fst <$> apply_control_event s b
  | CoReconcile page => fst <$> reconcile_authoritative_replay s page
  | CoAdd child => Ok (add_member s child).1
  | CoClose id => Ok (close_member s id).1
  | CoBackground => Ok (mobile_background s)
  | CoForeground => Ok (mobile_foreground s)
  | CoUi ui => Ok (set_ui_state ui s)
  | CoLease id g d => Ok (replace_current_lease s id g d).1
  | CoMark id => Ok (set_dedupe_of (mark_delivered (at_delivery_dedupe s) id).1 s)
  | CoForget id => Ok (set_dedupe_of (dedupe_forget (at_delivery_dedupe s) id) s)
  end.
Fixpoint cont_run (s : AttachmentContinuityState) (ops : list ContOp) : result Empty_set AttachmentContinuityState :=
  match ops with
  | [] => Ok s
  | o :: ops => s ← cont_step s o; cont_run s ops
  end.

Lemma cont_run_ind (P : AttachmentContinuityState -> AttachmentContinuityState -> Prop) ops :
  (forall s, P s s) -> (forall a b c, P a b -> P b c -> P a c) ->
  (forall s o s', o ∈ ops -> cont_step s o = Ok s' -> P s s') ->
  forall s s', cont_run s ops = Ok s' -> P s s'.
Proof using Type.
  intros Hr Ht Hs. induction ops as [|o ops IH]; intros s s' Hrun; cbn in Hrun; [by injection Hrun as ->|].
  destruct (cont_step s o) as [s1| |] eqn:E; [|done|done]. eapply Ht.
  - eapply Hs; [left|exact E].
  - apply IH; [|done]. intros s2 o2 s3 Ho. apply Hs. by right.
Qed.

(** ** How an event applies *)

(** The state once the cursor, epochs and hash of an event are recorded. *)
Definition recorded (s : AttachmentContinuityState) (e : RemoteControlEventV1) (b : bytes) : AttachmentContinuityState :=
  set_cursor_of (eh_control_seq (ev_header e)) (eh_policy_epoch (ev_header e)) (eh_authority_epoch (ev_header e))
    (<[eh_event_id (ev_header e) := control_event_byte_hash b]> (at_control_event_hashes s)) s.
(** The effect of a payload on a recorded state; [None] is a payload at odds with its header. *)
Definition payload_effect (e : RemoteControlEventV1) (s : AttachmentContinuityState)
    : option AttachmentContinuityState :=
  match ev_payload e with
  | LeaseRefresh lease_jws =>
      Some (set_required_of (at_required_policy_digest s) (at_drain_deadline s) (Some lease_jws) s)
  | PolicyNarrowed _ new_digest _ =>
      Some (set_required_of (Some new_digest) (at_drain_deadline s) (at_pending_lease_refresh_jws s) s)
  | DeviceRevoked _ _ | InstanceRevoked _ _ | AttachmentRevoked _ _ =>
      let s := set_children_of (move_open MsClosed (at_children s)) s in
      let s := set_lease_of None (at_current_lease_generation s) (at_current_lease_jws_digest s) s in
      Some (set_ui_of UiAccessRevoked (at_backgrounded s) s)
  | TenantAuthorityChanged _ new_epoch _ =>
      if negb (eh_authority_epoch (ev_header e) =? new_epoch) then None else Some s
  | AuthorityStatus _ _ => Some s
  | Drain deadline _ =>
      let s := set_required_of (at_required_policy_digest s) (Some deadline) (at_pending_lease_refresh_jws s) s in
      Some (set_children_of (move_open MsDraining (at_children s)) s)
  end.

(** One rule per outcome. *)
Inductive applies (s : AttachmentContinuityState) (b : bytes) :
  AttachmentContinuityState -> RemoteControlEventApplyResult -> Prop :=
| ap_undecodable err :
    control_event_decode b = Err err -> applies s b (set_paused_of true s) MalformedPayload
| ap_duplicate e :
    control_event_decode b = Ok e ->
    at_control_event_hashes s !! eh_event_id (ev_header e) = Some (control_event_byte_hash b) ->
    applies s b s DuplicateIdempotent
| ap_conflict e h :
    control_event_decode b = Ok e -> at_control_event_hashes s !! eh_event_id (ev_header e) = Some h ->
    h <> control_event_byte_hash b -> applies s b (set_paused_of true s) Conflict
| ap_gap e :
    control_event_decode b = Ok e -> at_control_event_hashes s !! eh_event_id (ev_header e) = None ->
    at_last_applied_control_seq s + 1 < eh_control_seq (ev_header e) ->
    applies s b (set_paused_of true s) SequenceGap
| ap_regression e :
    control_event_decode b = Ok e -> at_control_event_hashes s !! eh_event_id (ev_header e) = None ->
    eh_control_seq (ev_header e) <= at_last_applied_control_seq s + 1 ->
    (eh_policy_epoch (ev_header e) < at_last_applied_policy_epoch s \/
     eh_authority_epoch (ev_header e) < at_last_applied_authority_epoch s) ->
    applies s b (set_paused_of true s) EpochRegression
| ap_recorded e s' res :
    control_event_decode b = Ok e -> at_control_event_hashes s !! eh_event_id (ev_header e) = None ->
    eh_control_seq (ev_header e) <= at_last_applied_control_seq s + 1 ->
    at_last_applied_policy_epoch s <= eh_policy_epoch (ev_header e) ->
    at_last_applied_authority_epoch s <= eh_authority_epoch (ev_header e) ->
    match payload_effect e (recorded s e b) with
    | Some t => s' = t /\ res = Applied
    | None => s' = set_paused_of true (recorded s e b) /\ res = MalformedPayload
    end ->
    applies s b s' res.

Lemma apply_applies s b s' res : apply_control_event s b = Ok (s', res) -> applies s b s' res.
Proof using Type.
  unfold apply_control_event. destruct (control_event_decode b) as [e|err|] eqn:Hd; [|by intros [= <- <-]; econstructor|done].
  cbn zeta. destruct (at_control_event_hashes s !! _) as [h|] eqn:Hh.
  { case_bool_decide as E; intros [= <- <-]; [subst h; by eapply ap_duplicate|by eapply ap_conflict]. }
  intros Hb. apply bind_Ok in Hb as (n&Hn&Hb). apply add_in_Ok in Hn as [Hmax ->].
  destruct (Z.ltb_spec (at_last_applied_control_seq s + 1) (eh_control_seq (ev_header e))) as [Hlt|Hle].
  { injection Hb as <- <-. by eapply ap_gap. }
  destruct (Z.ltb_spec (eh_policy_epoch (ev_header e)) (at_last_applied_policy_epoch s)) as [Hp|Hp]; cbn [orb] in Hb.
  { injection Hb as <- <-. eapply ap_regression; eauto. }
  destruct (Z.ltb_spec (eh_authority_epoch (ev_header e)) (at_last_applied_authority_epoch s)) as [Ha|Ha].
  { injection Hb as <- <-. eapply ap_regression; eauto. }
  eapply ap_recorded; [done|done|done|done|done|]. fold (recorded s e b) in Hb. unfold payload_effect.
  destruct (ev_payload e); cbn zeta in Hb; try (by injection Hb as <- <-).
  case_match; by injection Hb as <- <-.
Qed.

(** What a payload leaves alone. *)
Lemma payload_effect_frame e s t :
  payload_effect e s = Some t ->
  at_operations_paused t = at_operations_paused s /\
  at_last_applied_control_seq t = at_last_applied_control_seq s /\
  at_last_applied_policy_epoch t = at_last_applied_policy_epoch s /\
  at_last_applied_authority_epoch t = at_last_applied_authority_epoch s /\
  at_control_event_hashes t = at_control_event_hashes s /\
  at_current_lease_generation t = at_current_lease_generation s /\
  at_delivery_dedupe t = at_delivery_dedupe s.
Proof using Type.
  unfold payload_effect. destruct (ev_payload e); cbn zeta; try (intros [= <-]; done).
  case_match; [done|]. by intros [= <-].
Qed.

(** ** What only ever grows *)

(** Recorded events stay recorded, epochs and the lease generation never go back. *)
Record grows (s s' : AttachmentContinuityState) : Prop := {
  gr_policy : at_last_applied_policy_epoch s <= at_last_applied_policy_epoch s';
  gr_authority : at_last_applied_authority_epoch s <= at_last_applied_authority_epoch s';
  gr_generation : at_current_lease_generation s <= at_current_lease_generation s';
  gr_hashes : at_control_event_hashes s ⊆ at_control_event_hashes s' }.
#[local] Instance grows_preorder : PreOrder grows.
Proof.
  split; [intros s; constructor; [lia|lia|lia|done]|].
  intros a b c [A1 A2 A3 A4] [B1 B2 B3 B4]. constructor; [lia|lia|lia|by etrans].
Qed.
Lemma grows_same s s' :
  at_last_applied_policy_epoch s' = at_last_applied_policy_epoch s ->
  at_last_applied_authority_epoch s' = at_last_applied_authority_epoch s ->
  at_current_lease_generation s <= at_current_lease_generation s' ->
  at_control_event_hashes s' = at_control_event_hashes s -> grows s s'.
Proof using Type. intros H1 H2 H3 H4. constructor; [lia|lia|lia|by rewrite H4]. Qed.

Lemma applies_grows s b s' res : applies s b s' res -> grows s s'.
Proof using Type.
  destruct 1 as [| | | | |e s' res Hd Hh Hs Hp Ha He]; try (by apply grows_same).
  assert (grows s (recorded s e b)) as Hg by (constructor; cbn; [lia|lia|lia|by apply insert_subseteq]).
  destruct (payload_effect e (recorded s e b)) as [t|] eqn:Ht; destruct He as [-> ->].
  - apply payload_effect_frame in Ht as (_&_&E1&E2&E3&E4&_). etrans; [exact Hg|]. apply grows_same; try done. lia.
  - etrans; [exact Hg|]. by apply grows_same.
Qed.
Lemma reconcile_grows page : forall s s' res, reconcile_authoritative_replay s page = Ok (s', res) -> grows s s'.
Proof using Type.
  induction page as [|e page IH]; intros s s' res Hr; cbn [reconcile_authoritative_replay] in Hr.
  { injection Hr as <- <-. by apply grows_same. }
  cbn zeta in Hr. destruct (at_control_event_hashes s !! _) as [h|].
  { case_bool_decide; [by eapply IH|]. by injection Hr as <- <-. }
  apply bind_Ok in Hr as (n&Hn&Hr). destruct (negb (_ =? n)); [by injection Hr as <- <-|].
  apply bind_Ok in Hr as ([s1 r1]&H1&Hr). apply apply_applies, applies_grows in H1.
  assert (grows s s1) as Hg by (etrans; [|exact H1]; by apply grows_same).
  destruct (negb (bool_decide (r1 = Applied))); [|etrans; [exact Hg|by eapply IH]].
  injection Hr as <- <-. etrans; [exact Hg|]. by apply grows_same.
Qed.

Lemma fmap_Ok {E A B} (f : A -> B) (m : result E A) b : f <$> m = Ok b <-> exists a, m = Ok a /\ b = f a.
Proof using Type. destruct m; cbn; split; [intros [= <-]; eauto|intros (?&[= ->]&->); done|done|intros (?&?&_); done|done|intros (?&?&_); done]. Qed.

Lemma step_grows s o s' : cont_step s o = Ok s' -> grows s s'.
Proof using Type.
  destruct o as [b|page|c|id| | |ui|id g d|id|id]; cbn [cont_step].
  - intros ([t res]&Ha&->)%fmap_Ok. by apply apply_applies, applies_grows in Ha.
  - intros ([t res]&Ha&->)%fmap_Ok. by apply reconcile_grows in Ha.
  - intros [= <-]. unfold add_member. case_match; by apply grows_same.
  - intros [= <-]. unfold close_member. repeat case_match; by apply grows_same.
  - intros [= <-]. by apply grows_same.
  - intros [= <-]. by apply grows_same.
  - intros [= <-]. destruct ui; by apply grows_same.
  - intros [= <-]. unfold replace_current_lease. case_match eqn:E; [done|]. apply grows_same; try done. cbn. lia.
  - intros [= <-]. by apply grows_same.
  - intros [= <-]. by apply grows_same.
Qed.
Lemma run_grows s ops s' : cont_run s ops = Ok s' -> grows s s'.
Proof using Type.
  apply (cont_run_ind grows); [done|intros a b c ? ?; by etrans|]. intros s1 o s2 _. apply step_grows.
Qed.

(** A control event takes effect once. After an event is applied, whatever else the
    attachment goes through, redelivering the same bytes changes nothing and reports a
    duplicate, and the same event id with other bytes never applies but pauses; and
    epochs and the lease generation never go back. *)
Theorem control_event_applies_once (s s1 s2 : AttachmentContinuityState) (b b' : bytes) (ops : list ContOp)
    (e e' : RemoteControlEventV1) :
  control_event_decode b = Ok e -> control_event_decode b' = Ok e' ->
  eh_event_id (ev_header e') = eh_event_id (ev_header e) ->
  apply_control_event s b = Ok (s1, Applied) -> cont_run s1 ops = Ok s2 ->
  grows s s2 /\
  apply_control_event s2 b' =
    if bool_decide (control_event_byte_hash b' = control_event_byte_hash b)
    then Ok (s2, DuplicateIdempotent) else Ok (set_paused_of true s2, Conflict).
Proof using Type.
  intros Hd Hd' Hid Ha Hrun. apply apply_applies in Ha as Happ. apply run_grows in Hrun.
  assert (at_control_event_hashes s1 !! eh_event_id (ev_header e) = Some (control_event_byte_hash b)) as Hs1.
  { inversion Happ as [| | | | |e0 t res Hd0 Hh Hs Hp Hae Heff]; subst. rewrite Hd in Hd0. injection Hd0 as <-.
    destruct (payload_effect e (recorded s e b)) as [t|] eqn:Ht; destruct Heff as [-> ?]; [|done].
    apply payload_effect_frame in Ht as (_&_&_&_&->&_). cbn. by simplify_map_eq. }
  split; [etrans; [by eapply applies_grows|done]|].
  pose proof (lookup_weaken _ _ _ _ Hs1 (gr_hashes _ _ Hrun)) as Hs2.
  unfold apply_control_event. rewrite Hd'. cbn zeta. rewrite Hid, Hs2.
  case_bool_decide as E1; case_bool_decide as E2; congruence.
Qed.

(** ** The pause *)

Lemma applies_paused s b s' res :
  applies s b s' res -> at_operations_paused s = true -> at_operations_paused s' = true.
Proof using Type.
  destruct 1 as [| | | | |e s' res Hd Hh Hs Hp Ha He]; try done. intros Hps.
  destruct (payload_effect e (recorded s e b)) as [t|] eqn:Ht; destruct He as [-> ->]; [|done].
  by apply payload_effect_frame in Ht as (->&_).
Qed.

(** A pause is sticky. Once a conflict, gap, epoch regression or malformed event has
    paused operations, no sequence of further events, redeliveries, new children,
    closes, backgrounding, lease replacements or deliveries lifts the pause: only an
    authoritative replay can. And every event that is refused leaves operations paused. *)
Theorem control_pause_sticky (s s' : AttachmentContinuityState) (ops : list ContOp) :
  Forall (fun o => match o with CoReconcile _ => False | _ => True end) ops ->
  cont_run s ops = Ok s' ->
  (at_operations_paused s = true -> at_operations_paused s' = true) /\
  (forall b t res, apply_control_event s' b = Ok (t, res) -> res <> Applied -> res <> DuplicateIdempotent ->
     at_operations_paused t = true).
Proof using Type.
  intros Hops Hrun. split.
  - revert Hrun. apply (cont_run_ind (fun s s' => at_operations_paused s = true -> at_operations_paused s' = true));
      [done|auto|]. intros a o c Ho Hs Hp. rewrite Forall_forall in Hops. specialize (Hops o Ho).
    destruct o as [b|page|m|id| | |ui|id g d|id|id]; cbn [cont_step] in Hs; try done;
      try (injection Hs as <-; try done).
    + apply fmap_Ok in Hs as ([t res]&Ha&->). eapply applies_paused; [by apply apply_applies|done].
    + unfold add_member. by case_match.
    + unfold close_member. by repeat case_match.
    + by destruct ui.
    + unfold replace_current_lease. by case_match.
  - intros b t res Ha Hn1 Hn2. apply apply_applies in Ha. destruct Ha as [| | | | |e t res Hd Hh Hsq Hp Hau He]; try done.
    destruct (payload_effect e (recorded s' e b)); by destruct He as [-> ->].
Qed.

(** ** Revocation *)

Definition is_revocation (p : RemoteControlEventPayload) : bool :=
  match p with DeviceRevoked _ _ | InstanceRevoked _ _ | AttachmentRevoked _ _ => true | _ => false end.
(** Nobody is connected and nothing is leased. *)
Definition severed (s : AttachmentContinuityState) : Prop :=
  Forall (fun c => member_is_open c = false) (at_children s) /\ at_current_lease_id s = None.

Lemma move_open_closed to cs :
  Forall (fun c => member_is_open c = false) cs -> move_open to cs = cs.
Proof using Type.
  induction 1 as [|c cs Hc _ IH]; [done|]. unfold move_open in *. cbn. by rewrite Hc, IH.
Qed.
Lemma move_open_closes cs : Forall (fun c => member_is_open c = false) (move_open MsClosed cs).
Proof using Type.
  unfold move_open. apply Forall_fmap, Forall_true. intros c. cbn. by destruct (member_is_open c) eqn:E.
Qed.
Lemma payload_effect_severed e s t : payload_effect e s = Some t -> severed s -> severed t.
Proof using Type.
  unfold payload_effect, severed. intros Ht [Hc Hl]. destruct (ev_payload e); cbn zeta in Ht;
    try (injection Ht as <-; cbn; split; [done || apply move_open_closes || by rewrite move_open_closed|done]).
  case_match; [done|]. by injection Ht as <-.
Qed.
Lemma applies_severed s b s' res : applies s b s' res -> severed s -> severed s'.
Proof using Type.
  destruct 1 as [| | | | |e s' res Hd Hh Hs Hp Ha He]; try done. intros Hsv.
  destruct (payload_effect e (recorded s e b)) as [t|] eqn:Ht; destruct He as [-> ->]; [|done].
  by eapply payload_effect_severed.
Qed.
Lemma reconcile_severed page : forall s s' res,
  reconcile_authoritative_replay s page = Ok (s', res) -> severed s -> severed s'.
Proof using Type.
  induction page as [|e page IH]; intros s s' res Hr Hs; cbn [reconcile_authoritative_replay] in Hr.
  { by injection Hr as <- <-. }
  cbn zeta in Hr. destruct (at_control_event_hashes s !! _) as [h|].
  { case_bool_decide; [by eapply IH|]. by injection Hr as <- <-. }
  apply bind_Ok in Hr as (n&Hn&Hr). destruct (negb (_ =? n)); [by injection Hr as <- <-|].
  apply bind_Ok in Hr as ([s1 r1]&H1&Hr). apply apply_applies in H1. eapply applies_severed in H1; [|done].
  destruct (negb (bool_decide (r1 = Applied))); [|by eapply IH]. by injection Hr as <- <-.
Qed.
Lemma update_first_closed id f cs :
  (forall c, member_is_open (f c) = false) -> Forall (fun c => member_is_open c = false) cs ->
  Forall (fun c => member_is_open c = false) (update_first id f cs).
Proof using Type. intros Hf. induction 1; cbn; [done|]. case_bool_decide; by constructor. Qed.

Lemma step_severed s o s' :
  match o with CoAdd _ | CoLease _ _ _ => False | _ => True end ->
  cont_step s o = Ok s' -> severed s -> severed s'.
Proof using Type.
  intros Ho Hs [Hc Hl]. destruct o as [b|page|m|id| | |ui|id g d|id|id]; cbn [cont_step] in Hs; try done;
    try (injection Hs as <-; try done).
  - apply fmap_Ok in Hs as ([t res]&Ha&->). eapply applies_severed; [by apply apply_applies|done].
  - apply fmap_Ok in Hs as ([t res]&Ha&->). by eapply reconcile_severed.
  - unfold close_member. destruct (find_member s id); [|done]. case_match; (split; [by apply update_first_closed|done]).
  - split; [apply move_open_closes|done].
  - by destruct ui.
Qed.

Lemma severed_callback s id g epoch : severed s -> verify_child_callback s id g epoch <> CbValid.
Proof using Type.
  intros [Hc _]. unfold verify_child_callback. destruct (find_member s id) as [c|] eqn:Hf; [|done].
  apply List.find_some in Hf as [Hin _]. rewrite Forall_forall in Hc.
  rewrite (Hc c) by (by apply list_elem_of_In). done.
Qed.

(** C20: A revocation severs. When a device, instance or attachment revocation applies, all
    children are closed and the lease is gone, and this lasts: until a new child is
    added or a new lease installed, whatever else arrives, no child is active, no lease
    names one, and every callback of a transport is refused as stale or unknown. *)
Theorem revocation_severs (s s1 s2 : AttachmentContinuityState) (b : bytes) (e : RemoteControlEventV1)
    (ops : list ContOp) (base64 : bytes -> bytes) :
  control_event_decode b = Ok e -> is_revocation (ev_payload e) = true ->
  apply_control_event s b = Ok (s1, Applied) ->
  Forall (fun o => match o with CoAdd _ | CoLease _ _ _ => False | _ => True end) ops ->
  cont_run s1 ops = Ok s2 ->
  severed s2 /\ has_active_children s2 = false /\ build_lease_children base64 s2 = [] /\
  forall id g epoch, verify_child_callback s2 id g epoch <> CbValid.
Proof using Type.
  intros Hd Hrev Ha Hops Hrun. apply apply_applies in Ha.
  assert (severed s1) as Hs1.
  { inversion Ha as [| | | | |e0 t res Hd0 Hh Hs Hp Hae Heff]; subst. rewrite Hd in Hd0. injection Hd0 as <-.
    unfold payload_effect in Heff. destruct (ev_payload e); try done; destruct Heff as [-> _];
      (split; [apply move_open_closes|done]). }
  assert (severed s2) as Hs2.
  { revert Hs1. revert Hrun. apply (cont_run_ind (fun s s' => severed s -> severed s')); [done|auto|].
    intros a o c Ho. rewrite Forall_forall in Hops. by apply step_severed, Hops. }
  split; [done|]. destruct Hs2 as [Hc Hl].
  assert (forall f, (forall c, f c = true -> member_is_open c = true) -> List.filter f (at_children s2) = []) as Hf.
  { intros f Hf. clear - Hf Hc. induction Hc as [|c cs Hc _ IH]; [done|]. cbn.
    destruct (f c) eqn:E; [by rewrite (Hf c E) in Hc|done]. }
  split; [|split].
  - unfold has_active_children, count_active. rewrite Hf; [done|]. intros c. unfold member_is_active, member_is_open.
    by destruct (cm_state c).
  - unfold build_lease_children, lease_active_children. rewrite Hf; [done|]. intros c.
    unfold is_lease_active, member_is_open. by destruct (cm_state c).
  - intros. by apply severed_callback.
Qed.

(** ** The children of a lease *)

Definition ids_of (s : AttachmentContinuityState) : list bytes := cm_child_attempt_id <$> at_children s.

Lemma move_open_ids to cs : cm_child_attempt_id <$> move_open to cs = cm_child_attempt_id <$> cs.
Proof using Type.
  unfold move_open. rewrite <- list_fmap_compose. apply list_fmap_ext. intros ? c _. cbn. by case_match.
Qed.
Lemma update_first_ids id to cs :
  cm_child_attempt_id <$> update_first id (set_member_state to) cs = cm_child_attempt_id <$> cs.
Proof using Type. induction cs as [|c cs IH]; cbn; [done|]. case_bool_decide; cbn; [done|]. by rewrite IH. Qed.
Lemma applies_ids s b s' res : applies s b s' res -> ids_of s' = ids_of s.
Proof using Type.
  destruct 1 as [| | | | |e s' res Hd Hh Hs Hp Ha He]; try reflexivity.
  unfold payload_effect, ids_of in *. destruct (ev_payload e); cbn zeta in He;
    try (destruct He as [-> _]; first [reflexivity|exact (move_open_ids MsClosed _)|exact (move_open_ids MsDraining _)]).
  destruct (negb _); destruct He as [-> _]; reflexivity.
Qed.
Lemma reconcile_ids page : forall s s' res, reconcile_authoritative_replay s page = Ok (s', res) -> ids_of s' = ids_of s.
Proof using Type.
  induction page as [|e page IH]; intros s s' res Hr; cbn [reconcile_authoritative_replay] in Hr.
  { by injection Hr as <- <-. }
  cbn zeta in Hr. destruct (at_control_event_hashes s !! _) as [h|].
  { case_bool_decide; [by eapply IH|]. by injection Hr as <- <-. }
  apply bind_Ok in Hr as (n&Hn&Hr). destruct (negb (_ =? n)); [by injection Hr as <- <-|].
  apply bind_Ok in Hr as ([s1 r1]&H1&Hr). apply apply_applies, applies_ids in H1.
  destruct (negb (bool_decide (r1 = Applied))); [by injection Hr as <- <-|].
  by rewrite (IH _ _ _ Hr).
Qed.
Lemma find_member_none s id : find_member s id = None -> id ∉ ids_of s.
Proof using Type.
  intros Hf Hin. apply list_elem_of_fmap in Hin as (c&->&Hc). apply list_elem_of_In in Hc.
  pose proof (List.find_none _ _ Hf c Hc) as Hn. by rewrite bool_decide_eq_false in Hn.
Qed.
Lemma step_distinct s o s' : cont_step s o = Ok s' -> NoDup (ids_of s) -> NoDup (ids_of s').
Proof using Type.
  destruct o as [b|page|c|id| | |ui|id g d|id|id]; cbn [cont_step]; intros Hs Hd; try (by injection Hs as <-).
  - apply fmap_Ok in Hs as ([t res]&Ha&->). apply apply_applies, applies_ids in Ha. cbn. by rewrite Ha.
  - apply fmap_Ok in Hs as ([t res]&Ha&->). apply reconcile_ids in Ha. cbn. by rewrite Ha.
  - injection Hs as <-. unfold add_member. destruct (find_member s (cm_child_attempt_id c)) eqn:Hf; [done|].
    apply find_member_none in Hf. unfold ids_of in *. cbn. rewrite fmap_app. apply NoDup_app.
    split; [done|]. split; [|apply NoDup_singleton]. intros x Hx ->%list_elem_of_singleton. done.
  - injection Hs as <-. unfold close_member. destruct (find_member s id); [|done].
    assert (NoDup (cm_child_attempt_id <$> update_first id (set_member_state MsClosed) (at_children s))) as Hn
      by (by rewrite update_first_ids). by case_match.
  - injection Hs as <-. change (NoDup (cm_child_attempt_id <$> move_open MsClosed (at_children s))). by rewrite move_open_ids.
  - injection Hs as <-. by destruct ui.
  - injection Hs as <-. unfold replace_current_lease. by case_match.
Qed.

Lemma strictly_sorted (f : ChildMember -> RemoteLeaseActiveChildV1) prev (l : list ChildMember) :
  (forall c, la_child_attempt_id (f c) = cm_child_attempt_id c) ->
  StronglySorted member_le l -> NoDup (cm_child_attempt_id <$> l) ->
  (forall p c, prev = Some p -> c ∈ l -> bytes_le p (cm_child_attempt_id c) /\ p <> cm_child_attempt_id c) ->
  children_sorted prev (f <$> l) = true.
Proof using Type.
  intros Hf. revert prev. induction l as [|c l IH]; intros prev Hs Hd Hp; [done|].
  apply StronglySorted_inv in Hs as [Hs Hall]. cbn in Hd. apply NoDup_cons in Hd as [Hni Hd].
  assert (children_sorted (Some (cm_child_attempt_id c)) (f <$> l) = true) as Hrest.
  { apply IH; [done|done|]. intros p c' [= <-] Hc'. rewrite Forall_forall in Hall. split; [by apply Hall|].
    intros E. apply Hni. rewrite E. apply list_elem_of_fmap. eauto. }
  cbn. rewrite Hf. destruct prev as [p|]; [|done].
  destruct (Hp p c eq_refl ltac:(left)) as [Hle Hne].
  destruct (bytes_leb (cm_child_attempt_id c) p) eqn:E; [|done].
  exfalso. apply Hne. by apply (anti_symm bytes_le).
Qed.

Lemma filter_ids_distinct (f : ChildMember -> bool) cs :
  NoDup (cm_child_attempt_id <$> cs) -> NoDup (cm_child_attempt_id <$> List.filter f cs).
Proof using Type.
  induction cs as [|c cs IH]; [done|]. rewrite fmap_cons. intros [Hni Hd]%NoDup_cons. cbn [List.filter].
  destruct (f c); [|by apply IH]. rewrite fmap_cons. apply NoDup_cons. split; [|by apply IH].
  intros Hin. apply Hni. apply list_elem_of_fmap in Hin as (x&->&Hx). apply list_elem_of_fmap. exists x. split; [done|].
  apply list_elem_of_In in Hx. apply List.filter_In in Hx as [Hx _]. by apply list_elem_of_In.
Qed.
Lemma lease_validate_sorted l now :
  children_sorted None (lp_active_children l) = true -> lease_validate l now <> Err LvChildrenNotSorted.
Proof using Type.
  intros Hs. unfold lease_validate. rewrite Hs. change (negb true) with false. cbv iota.
  repeat match goal with |- (if ?c then _ else _) <> _ => destruct c; [done|] | |- (let x := _ in _) <> _ => cbn zeta end.
  destruct (parse_i64 (lp_iat l)); [|done]. cbn [ok_or]. rewrite bind_Ok_l.
  destruct (parse_i64 (lp_valid_until l)); [|done]. cbn [ok_or]. rewrite bind_Ok_l. unfold sub_i64. destruct (_ && _); [|done]. rewrite bind_Ok_l. by repeat case_match.
Qed.

(** The children a lease names are the live ones, canonically. In every state an
    attachment can reach, the list built for a lease has one entry for each active or
    draining child and no other, with that child's epoch, transport, lifecycle and
    proof digest, and in strictly ascending order of attempt id: lease validation never
    finds it unsorted. *)
Theorem lease_children_canonical (attachment session : bytes) (ops : list ContOp) (s : AttachmentContinuityState)
    (base64 : bytes -> bytes) (payload : RemoteConnectionLeasePayloadV1) (now : Z) :
  cont_run (attachment_new attachment session) ops = Ok s ->
  lp_active_children payload = build_lease_children base64 s ->
  children_sorted None (build_lease_children base64 s) = true /\
  lease_validate payload now <> Err LvChildrenNotSorted /\
  (forall x, x ∈ build_lease_children base64 s <->
     exists c, c ∈ at_children s /\ x = mkLeaseChild (cm_child_attempt_id c) (cm_transport_epoch c)
       (match cm_transport c with MtWebRtc => LtWebRtc | MtWebSocket => LtWebSocket end)
       (la_lifecycle x) (base64 (cm_final_proof_set_digest c)) /\
       match la_lifecycle x with LcCurrent => cm_state c = MsActive | LcDraining => cm_state c = MsDraining end) /\
  zlen (build_lease_children base64 s) =
    zlen (List.filter (fun c => member_is_active c || match cm_state c with MsDraining => true | _ => false end)
            (at_children s)).
Proof using Type.
  intros Hrun Hp.
  pose proof (cont_run_ind (fun s s' => NoDup (ids_of s) -> NoDup (ids_of s')) ops (fun _ H => H)
    (fun a b c H1 H2 H3 => H2 (H1 H3)) (fun a o c _ => step_distinct a o c) _ _ Hrun (NoDup_nil_2)) as Hd.
  assert (Hperm : lease_active_children s ≡ₚ List.filter is_lease_active (at_children s)) by apply merge_sort_Permutation.
  assert (children_sorted None (build_lease_children base64 s) = true) as Hsorted.
  { apply strictly_sorted; [done|apply StronglySorted_merge_sort; apply _| |done].
    rewrite Hperm. by apply filter_ids_distinct. }
  split; [done|]. split; [by apply lease_validate_sorted; rewrite Hp|]. split.
  - intros x. unfold build_lease_children. rewrite list_elem_of_fmap. split.
    + intros (c&->&Hc). rewrite Hperm in Hc. apply list_elem_of_In, List.filter_In in Hc as [Hc Ha].
      exists c. split; [by apply list_elem_of_In|]. cbn. split; [done|].
      unfold is_lease_active in Ha. by destruct (cm_state c).
    + intros (c&Hc&->&Hst). exists c. rewrite Hperm. split.
      * cbn in *. f_equal. destruct (la_lifecycle x); by rewrite Hst.
      * apply list_elem_of_In, List.filter_In. split; [by apply list_elem_of_In|].
        unfold is_lease_active. cbn in Hst. destruct (la_lifecycle x); by rewrite Hst.
  - unfold build_lease_children, zlen. rewrite length_fmap, Hperm. do 2 f_equal. apply List.filter_ext. intros c.
    unfold is_lease_active, member_is_active. by destruct (cm_state c).
Qed.
End runs.

(** ** Replay *)

Definition seq_lt (a b : RemoteOutboxEventRef) : Prop := or_event_seq a < or_event_seq b.
Definition events_after (cursor : Z) (outbox : list RemoteOutboxEventRef) : list RemoteOutboxEventRef :=
  List.filter (fun e => cursor <? or_event_seq e) outbox.

(** The client's side of a replay: ask from its cursor, take the page, move the cursor to
    the last event of the page, and ask again while there is more. *)
Fixpoint replay_pages (fuel : nat) (cursor compacted high : Z) (outbox : list RemoteOutboxEventRef)
    (snapshot_id snapshot : bytes) : option (list RemoteOutboxEventV1) :=
  match fuel with
  | O => None
  | S fuel =>
      match process_reattach cursor compacted high outbox snapshot_id snapshot with
      | Ok (Replay _ events _ false) => Some events
      | Ok (Replay _ events _ true) =>
          match last events with
          | Some e =>
              match parse_canonical_u64_decimal_string (ob_event_seq e) with
              | Ok c => app events <$> replay_pages fuel c compacted high outbox snapshot_id snapshot
              | _ => None
              end
          | None => None
          end
      | _ => None
      end
  end.

(** Every window of a page's size fits in a page's bytes. *)
Definition pages_fit (events : list RemoteOutboxEventRef) : Prop :=
  forall k, page_bytes (proto_event <$> take 256 (drop k events)) <= REMOTE_REPLAY_MAX_BYTES_PER_PAGE.

Lemma filter_filter_after c m l : c <= m -> events_after m (events_after c l) = events_after m l.
Proof.
  intros Hcm. induction l as [|e l IH]; [done|]. unfold events_after in *. cbn [List.filter].
  destruct (Z.ltb_spec c (or_event_seq e)); cbn [List.filter].
  - by destruct (m <? or_event_seq e); rewrite IH.
  - destruct (Z.ltb_spec m (or_event_seq e)); [lia|done].
Qed.
Lemma after_sorted c l : StronglySorted seq_lt l -> StronglySorted seq_lt (events_after c l).
Proof.
  induction 1 as [|e l Hs IH Hall]; [constructor|]. unfold events_after in *. cbn [List.filter].
  destruct (c <? or_event_seq e); [|done]. constructor; [done|]. rewrite Forall_forall in *. intros x Hx. apply Hall.
  apply list_elem_of_In in Hx. apply List.filter_In in Hx as [Hx _]. by apply list_elem_of_In.
Qed.
(** In a sorted outbox, what comes after the last event of a page is the rest. *)
Lemma after_last l1 e l2 : StronglySorted seq_lt (l1 ++ e :: l2) -> events_after (or_event_seq e) (l1 ++ e :: l2) = l2.
Proof.
  induction l1 as [|x l1 IH]; cbn [app]; intros Hs; apply StronglySorted_inv in Hs as [Hs Hall];
    unfold events_after in *; cbn [List.filter].
  - rewrite Z.ltb_irrefl. clear Hs. induction Hall as [|y l2 Hy _ IH2]; [done|]. cbn [List.filter].
    unfold seq_lt in Hy. rewrite (proj2 (Z.ltb_lt _ _)) by done. by rewrite IH2.
  - rewrite Forall_forall in Hall. specialize (Hall e ltac:(apply elem_of_app; right; left)). unfold seq_lt in Hall.
    rewrite (proj2 (Z.ltb_ge _ _)) by lia. by apply IH.
Qed.

Lemma process_page cursor compacted high outbox sid snap :
  compacted <= cursor -> pages_fit (events_after cursor outbox) ->
  process_reattach cursor compacted high outbox sid snap =
  Ok (Replay 1 (proto_event <$> take 256 (events_after cursor outbox)) (to_string high)
        (bool_decide (is_Some (events_after cursor outbox !! 256%nat)))).
Proof.
  intros Hc Hf. unfold process_reattach. rewrite (proj2 (Z.ltb_ge _ _)) by lia. cbn zeta. fold (events_after cursor outbox).
  unfold validate_replay_page. change (Z.to_nat REMOTE_REPLAY_MAX_EVENTS_PER_PAGE) with 256%nat.
  rewrite (proj2 (Z.ltb_ge _ _)).
  - rewrite (proj2 (Z.ltb_ge _ _)); [done|]. apply (Hf 0%nat).
  - unfold zlen, REMOTE_REPLAY_MAX_EVENTS_PER_PAGE. rewrite length_fmap, length_take. lia.
Qed.

Lemma replay_pages_all fuel : forall cursor compacted high outbox sid snap,
  compacted <= cursor -> StronglySorted seq_lt outbox -> Forall (fun e => is_u64 (or_event_seq e)) outbox ->
  pages_fit (events_after cursor outbox) -> (1 <= fuel)%nat ->
  (length (events_after cursor outbox) <= 256 * fuel)%nat ->
  replay_pages fuel cursor compacted high outbox sid snap = Some (proto_event <$> events_after cursor outbox).
Proof.
  induction fuel as [|fuel IH]; intros cursor compacted high outbox sid snap Hc Hs Hu Hf Hfuel Hlen; [lia|].
  cbn [replay_pages]. rewrite process_page by done. set (after := events_after cursor outbox) in *.
  destruct (after !! 256%nat) as [next|] eqn:Hn; cbn zeta.
  2:{ rewrite bool_decide_false by (by intros [? ?]). rewrite take_ge; [done|]. by apply lookup_ge_None in Hn. }
  rewrite bool_decide_true by eauto. apply lookup_lt_Some in Hn as Hlt.
  destruct (lookup_lt_is_Some_2 after 255) as [e He]; [lia|].
  assert (take 256 after = take 255 after ++ [e]) as Htake by (by apply take_S_r).
  rewrite Htake, fmap_app. cbn [fmap list_fmap]. rewrite last_snoc.
  assert (Hu' : Forall (fun e => is_u64 (or_event_seq e)) after).
  { rewrite Forall_forall in *. intros x Hx. apply Hu. apply list_elem_of_In in Hx.
    apply List.filter_In in Hx as [Hx _]. by apply list_elem_of_In. }
  assert (He' : e ∈ after) by (by eapply list_elem_of_lookup_2).
  cbn [proto_event ob_event_seq]. rewrite to_string_parses by (rewrite Forall_forall in Hu'; by apply Hu').
  assert (Hce : cursor < or_event_seq e).
  { apply list_elem_of_In in He'. apply List.filter_In in He' as [_ Hlt']. by apply Z.ltb_lt. }
  assert (events_after (or_event_seq e) outbox = drop 256 after) as Hrest.
  { rewrite <- (filter_filter_after cursor) by lia. fold after.
    pose proof (take_drop 256 after) as E. rewrite Htake, <- app_assoc in E. cbn [app] in E. rewrite <- E at 1.
    apply after_last. rewrite E. by apply after_sorted. }
  rewrite IH; [| lia | done | done | rewrite Hrest; intros k; rewrite drop_drop; apply Hf | | ].
  - rewrite Hrest. cbn. f_equal. rewrite <- (take_drop 256 after) at 3. by rewrite Htake, !fmap_app.
  - lia.
  - rewrite Hrest, length_drop. lia.
Qed.

(** A reattaching client gets the whole outbox. From a cursor at or past the compaction
    point, asking page after page gives exactly the outbox events after the cursor, each
    once and in order, in as many requests as there are pages, provided each page of 256
    events is within the byte bound. *)
Theorem reattach_replays_outbox (cursor compacted high : Z) (outbox : list RemoteOutboxEventRef)
    (snapshot_id snapshot : bytes) :
  compacted <= cursor -> StronglySorted seq_lt outbox -> Forall (fun e => is_u64 (or_event_seq e)) outbox ->
  pages_fit (events_after cursor outbox) ->
  replay_pages (S (length (events_after cursor outbox) / 256)) cursor compacted high outbox snapshot_id snapshot =
  Some (proto_event <$> events_after cursor outbox).
Proof.
  intros Hc Hs Hu Hf. apply replay_pages_all; [done|done|done|done|lia|].
  pose proof (Nat.div_mod_eq (length (events_after cursor outbox)) 256).
  pose proof (Nat.mod_upper_bound (length (events_after cursor outbox)) 256 ltac:(done)). lia.
Qed.

(** Reattach can wedge. When the next 256 events after a cursor are together over a
    page's byte bound, the page is not cut shorter: the request is refused, and so is
    every other one from that cursor, even though each event fits a page by itself; a
    client that needs those events never gets past that point. *)
Theorem reattach_wedges (cursor compacted high : Z) (outbox : list RemoteOutboxEventRef)
    (snapshot_id snapshot : bytes) :
  compacted <= cursor ->
  REMOTE_REPLAY_MAX_BYTES_PER_PAGE < page_bytes (proto_event <$> take 256 (events_after cursor outbox)) ->
  process_reattach cursor compacted high outbox snapshot_id snapshot = Err ReplayPageExceedsBounds /\
  forall fuel, replay_pages fuel cursor compacted high outbox snapshot_id snapshot = None.
Proof.
  intros Hc Hb.
  assert (process_reattach cursor compacted high outbox snapshot_id snapshot = Err ReplayPageExceedsBounds) as Hp.
  { unfold process_reattach. rewrite (proj2 (Z.ltb_ge _ _)) by lia. cbn zeta. fold (events_after cursor outbox).
    unfold validate_replay_page. change (Z.to_nat REMOTE_REPLAY_MAX_EVENTS_PER_PAGE) with 256%nat.
    rewrite (proj2 (Z.ltb_ge _ _))
      by (unfold zlen, REMOTE_REPLAY_MAX_EVENTS_PER_PAGE; rewrite length_fmap, length_take; lia).
    by rewrite (proj2 (Z.ltb_lt _ _)). }
  split; [done|]. intros [|fuel]; [done|]. cbn [replay_pages]. by rewrite Hp.
Qed.

(** ** Concrete events *)

#[local] Existing Instance Toy_sha256.

Definition demo_id (n : Z) : bytes := replicate 15 0 ++ [n].
Definition demo_event (seq id authority : Z) (p : RemoteControlEventPayload) : RemoteControlEventV1 :=
  control_event_seal seq (demo_id id) 1 1 authority 0 p.
Definition demo_bytes (seq id authority : Z) (p : RemoteControlEventPayload) : bytes :=
  control_event_encode (demo_event seq id authority p).
Definition status : RemoteControlEventPayload := AuthorityStatus 1 [42].
Definition demo_start : AttachmentContinuityState := attachment_new (ascii_bytes "attachment") (ascii_bytes "session").
Definition state_of (r : result Empty_set AttachmentContinuityState) : AttachmentContinuityState :=
  match r with Ok s => s | _ => demo_start end.
Definition outcome_of (r : result Empty_set (AttachmentContinuityState * RemoteControlEventApplyResult))
    : option (Z * bool * RemoteControlEventApplyResult) :=
  match r with
  | Ok (s, res) => Some (at_last_applied_control_seq s, at_operations_paused s, res)
  | _ => None
  end.
Definition three_events : AttachmentContinuityState :=
  state_of (cont_run demo_start
    [CoEvent (demo_bytes 1 1 1 status); CoEvent (demo_bytes 2 2 1 status); CoEvent (demo_bytes 3 3 1 status)]).

(** The control cursor can go back. At cursor three, an event numbered one under a fresh
    id is applied, not refused, and moves the cursor back to one; the genuine event four
    is then a sequence gap that pauses operations. *)
Theorem control_cursor_regresses :
  at_last_applied_control_seq three_events = 3 /\
  outcome_of (apply_control_event three_events (demo_bytes 1 9 1 status)) = Some (1, false, Applied) /\
  outcome_of (apply_control_event
    (state_of (cont_step three_events (CoEvent (demo_bytes 1 9 1 status)))) (demo_bytes 4 4 1 status)) =
    Some (1, true, SequenceGap).
Proof. vm_compute. repeat split. Qed.

(** A failed replay can lift the pause. Paused by a gap, the attachment is given an
    authoritative page with a hole in it: the replay reports the gap, but the pause is
    gone. And an event whose payload contradicts its header is refused as malformed yet
    recorded, so replaying that very event lifts the pause it caused. *)
Theorem control_replay_lifts_pause :
  let paused := state_of (cont_step demo_start (CoEvent (demo_bytes 5 5 1 status))) in
  at_operations_paused paused = true /\
  outcome_of (reconcile_authoritative_replay paused [demo_event 1 1 1 status; demo_event 3 3 1 status]) =
    Some (1, false, SequenceGap) /\
  let bad := TenantAuthorityChanged 1 7 (replicate 32 0) in
  let refused := state_of (cont_step demo_start (CoEvent (demo_bytes 1 1 2 bad))) in
  outcome_of (apply_control_event demo_start (demo_bytes 1 1 2 bad)) = Some (1, true, MalformedPayload) /\
  outcome_of (reconcile_authoritative_replay refused [demo_event 1 1 2 bad]) = Some (1, false, Applied).
Proof. vm_compute. repeat split. Qed.

Definition pending_member : ChildMember :=
  mkMember (ascii_bytes "child") MtWebRtc (ascii_bytes "epoch") 1 MsPending (replicate 32 0).

(** Draining makes a pending child lease-active. A child that never authenticated is
    named by no lease; after a drain event it is, as draining. *)
Theorem drain_leases_pending_child :
  let s := state_of (cont_step demo_start (CoAdd pending_member)) in
  let t := state_of (cont_step s (CoEvent (demo_bytes 1 1 1 (Drain 100 0)))) in
  build_lease_children (fun b => b) s = [] /\
  (la_lifecycle <$> build_lease_children (fun b => b) t) = [LcDraining].
Proof. vm_compute. repeat split. Qed.

(** ** The barrier and deduplication *)

(** Requests offered to the barrier one after another. *)
Fixpoint barrier_run (b : AuthorizationBarrier) (reqs : list (bool * bytes))
    : AuthorizationBarrier * list (result BarrierError BarrierAdmission) :=
  match reqs with
  | [] => (b, [])
  | (m, lease) :: reqs =>
      let '(b, r) := barrier_admit b m lease in
      let '(b, rs) := barrier_run b reqs in (b, r :: rs)
  end.
Definition reserved_of (r : result BarrierError BarrierAdmission) : option Z :=
  match r with Ok a => ba_recorded_policy_snapshot_seq a | _ => None end.

(** The ledger sequences reserved by a run are consecutive, so never reused. *)
Lemma barrier_consecutive reqs : forall b,
  let '(b', rs) := barrier_run b reqs in
  omap reserved_of rs = seqZ (ab_next_operation_seq b) (ab_next_operation_seq b' - ab_next_operation_seq b) /\
  ab_next_operation_seq b <= ab_next_operation_seq b'.
Proof.
  induction reqs as [|[m lease] reqs IH]; intros b; cbn [barrier_run].
  { rewrite Z.sub_diag. split; [done|lia]. }
  destruct (barrier_admit b m lease) as [b1 r] eqn:Ha. specialize (IH b1).
  destruct (barrier_run b1 reqs) as [b2 rs]. destruct IH as [IH Hle].
  assert ((b1 = b \/ ab_next_operation_seq b1 = ab_next_operation_seq b) /\ reserved_of r = None \/
          ab_next_operation_seq b1 = ab_next_operation_seq b + 1 /\ reserved_of r = Some (ab_next_operation_seq b)) as Hr.
  { unfold barrier_admit, add_in in Ha. repeat case_match; simplify_eq; cbn; auto. }
  cbn [omap list_omap]. destruct Hr as [[Hb ->]|[Hb ->]].
  - assert (ab_next_operation_seq b1 = ab_next_operation_seq b) as E by (destruct Hb; [by subst|done]).
    rewrite <- E. done.
  - rewrite IH, Hb. split; [|lia]. rewrite (seqZ_cons (ab_next_operation_seq b)) by lia. f_equal. f_equal; lia.
Qed.

Definition demo_lease (iat valid_until : string) : RemoteConnectionLeasePayloadV1 :=
  mkLeasePayload 1 [] (ascii_bytes "flycockpit-remote-connection-lease-v1") [] [] [] [] [] [] [] [] [] [] [] [] [] []
    [] [] [] [] [] None None (ascii_bytes iat) (ascii_bytes valid_until).

(** Validating a lease can overflow: the difference of two parsed times is a plain
    subtraction. *)
Lemma lease_validate_overflows :
  lease_validate (demo_lease "1000" "1300") 1200 = Ok tt /\
  lease_validate (demo_lease "1000" "1300") 1301 = Err LvExpired /\
  lease_validate (demo_lease "-9223372036854775808" "300") 0 = Panic.
Proof. vm_compute. repeat split. Qed.

(** ** Witnesses *)

Lemma demo_event_wf seq id authority p :
  1 <= seq <= U64_MAX -> 1 <= id <= 255 -> is_u64 authority -> wf_payload p -> wf_event (demo_event seq id authority p).
Proof.
  intros. apply seal_wf; try done.
  - split; [done|]. apply Forall_app. split; [apply Forall_replicate; done|]. apply Forall_singleton.
    unfold is_u8, U8_MAX. lia.
  - unfold demo_id. rewrite forallb_app. cbn. destruct (Z.eqb_spec id 0); [lia|done].
Qed.
Lemma status_wf : wf_payload status.
Proof. split; [done|]. split; [by repeat constructor|done]. Qed.

Lemma control_event_codec_exact_witness :
  control_event_decode (demo_bytes 1 1 1 status) = Ok (demo_event 1 1 1 status).
Proof. apply (proj1 control_event_codec_exact). apply demo_event_wf; [done|done|done|apply status_wf]. Defined.

Definition one_event : AttachmentContinuityState := Eval vm_compute in
  state_of (cont_step demo_start (CoEvent (demo_bytes 1 1 1 status))).
Lemma control_event_applies_once_witness :
  apply_control_event (mobile_background one_event) (demo_bytes 1 1 1 status) =
  Ok (mobile_background one_event, DuplicateIdempotent).
Proof.
  destruct (control_event_applies_once demo_start one_event (mobile_background one_event) (demo_bytes 1 1 1 status)
    (demo_bytes 1 1 1 status) [CoBackground] (demo_event 1 1 1 status) (demo_event 1 1 1 status)) as [_ Ha];
    [vm_compute; reflexivity|vm_compute; reflexivity|reflexivity|vm_compute; reflexivity|reflexivity|].
  rewrite Ha. by rewrite bool_decide_true.
Defined.

Definition gap_state : AttachmentContinuityState := Eval vm_compute in
  state_of (cont_step demo_start (CoEvent (demo_bytes 5 5 1 status))).
Lemma control_pause_sticky_witness : at_operations_paused (mobile_background gap_state) = true.
Proof.
  apply (control_pause_sticky gap_state (mobile_background gap_state) [CoBackground]);
    [by repeat constructor|reflexivity|reflexivity].
Defined.

Definition active_member : ChildMember :=
  mkMember (ascii_bytes "child") MtWebRtc (ascii_bytes "epoch") 1 MsActive (replicate 32 0).
Definition joined : AttachmentContinuityState := Eval vm_compute in state_of (cont_step demo_start (CoAdd active_member)).
Definition revoked : AttachmentContinuityState := Eval vm_compute in
  state_of (cont_step joined (CoEvent (demo_bytes 1 1 1 (AttachmentRevoked (replicate 16 7) 0)))).
Lemma revocation_severs_witness :
  verify_child_callback joined (ascii_bytes "child") 1 (ascii_bytes "epoch") = CbValid /\
  verify_child_callback (mobile_foreground revoked) (ascii_bytes "child") 1 (ascii_bytes "epoch") <> CbValid.
Proof.
  split; [vm_compute; reflexivity|].
  apply (revocation_severs joined revoked (mobile_foreground revoked)
    (demo_bytes 1 1 1 (AttachmentRevoked (replicate 16 7) 0)) (demo_event 1 1 1 (AttachmentRevoked (replicate 16 7) 0))
    [CoForeground] (fun b => b));
    [vm_compute; reflexivity|reflexivity|vm_compute; reflexivity|by repeat constructor|reflexivity].
Defined.

Lemma lease_children_canonical_witness :
  children_sorted None (build_lease_children (fun b => b) joined) = true.
Proof.
  apply (lease_children_canonical (ascii_bytes "attachment") (ascii_bytes "session") [CoAdd active_member] joined
    (fun b => b) (mkLeasePayload 1 [] [] [] [] [] [] [] [] [] [] [] [] [] [] [] [] [] [] [] []
      (build_lease_children (fun b => b) joined) None None [] []) 0); [vm_compute; reflexivity|reflexivity].
Defined.

Definition small_event (seq : Z) : RemoteOutboxEventRef := mkOutboxRef seq [] [] [1; 2; 3].
Lemma reattach_replays_outbox_witness :
  replay_pages 1 4 2 6 [small_event 3; small_event 5; small_event 6] [] [] =
  Some (proto_event <$> [small_event 5; small_event 6]).
Proof.
  apply (reattach_replays_outbox 4 2 6 [small_event 3; small_event 5; small_event 6] [] []).
  - lia.
  - repeat constructor; unfold seq_lt; cbn; lia.
  - repeat constructor; cbn; unfold U64_MAX; lia.
  - intros [|[|[|k]]]; by vm_compute.
Defined.

(** Two events that fit a page each and not together. *)
Definition sized_event (seq : Z) (payload : bytes) : RemoteOutboxEventRef := mkOutboxRef seq [] [] payload.
Lemma zlen_zeros n : 0 <= n -> zlen (replicate (Z.to_nat n) 0) = n.
Proof. intros. unfold zlen. rewrite length_replicate. lia. Qed.
Lemma sized_pages a b :
  page_bytes (proto_event <$> take 256 (events_after 0 [sized_event 1 a; sized_event 2 b])) = zlen a + (zlen b + 0).
Proof. done. Qed.
Lemma reattach_wedges_witness :
  exists a b, zlen a <= REMOTE_REPLAY_MAX_BYTES_PER_PAGE /\ zlen b <= REMOTE_REPLAY_MAX_BYTES_PER_PAGE /\
    process_reattach 0 0 2 [sized_event 1 a; sized_event 2 b] [] [] = Err ReplayPageExceedsBounds.
Proof.
  exists (replicate (Z.to_nat 1500000) 0), (replicate (Z.to_nat 1500000) 0).
  rewrite zlen_zeros by lia. split; [by vm_compute|]. split; [by vm_compute|].
  apply (reattach_wedges 0 0 2 [sized_event 1 _; sized_event 2 _] [] []); [lia|].
  rewrite sized_pages, zlen_zeros by lia. by vm_compute.
Defined.
