(* ===== verification/WriteScopeDb.v ===== *)
(** Durable write-scope storage: lease, transfer and permit rows, the compare-and-swap
    operations on them ([cockpit-db/src/db/write_scope_leases.rs]) and the SQL triggers
    behind them ([migrations/0001_initial.sql]); with the row enumerations and the path
    containment of [cockpit-core/src/write_scope/] they are written in.

    A database operation is a function [Db -> option (Db * A)]: [None] is an error, a
    refused argument or an aborted statement, and leaves the tables as they were (the
    multi-statement operations run in one transaction).  Text columns whose [CHECK]
    constraint lists the values are the enumerations the values come from.  Identifiers
    are integers in the order of their fixed-width text.  Generations, owner versions and
    row versions, which the code keeps as [u64] and stores as [i64], are unbounded
    integers: each is a count of committed operations, and no theorem is about a count
    near [2 ^ 63]. *)

From S2P Require Import Prelude.
From stdpp Require Import options.
Set Warnings "-clear-no-such-hyp".

(** ** Paths

    A canonical absolute path is the list of its components; the rows store its text.  A
    component is the list of its code points: the paths of the model are Unicode text, for
    which [display().to_string()], the form the rows store, is exact.  Paths that are not
    valid text, which that conversion would change, are outside the model. *)
Definition Path : Type := list bytes.

(** write_scope/scope.rs:121-123 path_contains. [Path::starts_with] compares whole components. *)
Definition path_contains (root candidate : Path) : bool := bool_decide (root `prefix_of` candidate).

(** ** Enumerations *)

(** write_scope/types.rs:12-26 LeaseState. *)
Inductive LeaseState := LsActive | LsTransferring | LsDelegated | LsReturning | LsReleased.
#[export] Instance LeaseState_eq_dec : EqDecision LeaseState.
Proof. solve_decision. Defined.

(** write_scope/types.rs:29-37 LeaseState::as_str. *)
Definition lease_state_as_str (s : LeaseState) : string :=
  match s with
  | LsActive => "active"
  | LsTransferring => "transferring"
  | LsDelegated => "delegated"
  | LsReturning => "returning"
  | LsReleased => "released"
  end.
(** write_scope/types.rs:39-48 LeaseState::parse. *)
Definition lease_state_parse (s : string) : option LeaseState :=
  if bool_decide (s = "active") then Some LsActive else
  if bool_decide (s = "transferring") then Some LsTransferring else
  if bool_decide (s = "delegated") then Some LsDelegated else
  if bool_decide (s = "returning") then Some LsReturning else
  if bool_decide (s = "released") then Some LsReleased else None.

(** write_scope/types.rs:53-72 LeaseState::can_transition_to. *)
Definition can_transition_to (from next : LeaseState) : bool :=
  match from, next with
  | LsActive, LsTransferring
  | LsActive, LsReleased
  | LsTransferring, LsDelegated
  | LsTransferring, LsActive
  | LsDelegated, LsTransferring
  | LsDelegated, LsReturning
  | LsReturning, LsActive
  | LsReturning, LsDelegated
  | LsReturning, LsReleased
  | LsDelegated, LsReleased => true
  | _, _ => false
  end.

(** write_scope_leases.rs:55-66 LEGAL_LEASE_TRANSITIONS. *)
Definition LEGAL_LEASE_TRANSITIONS : list (LeaseState * LeaseState) :=
  [(LsActive, LsTransferring); (LsActive, LsReleased);
   (LsTransferring, LsDelegated); (LsTransferring, LsActive);
   (LsDelegated, LsTransferring); (LsDelegated, LsReturning); (LsDelegated, LsReleased);
   (LsReturning, LsActive); (LsReturning, LsDelegated); (LsReturning, LsReleased)].
(** write_scope_leases.rs:68-70 is_legal_lease_transition. *)
Definition is_legal_lease_transition (from to : LeaseState) : bool :=
  bool_decide ((from, to) ∈ LEGAL_LEASE_TRANSITIONS).

(** write_scope/types.rs:76-91 TransferPhase. *)
Inductive TransferPhase :=
| Prepared | ParentExcluded | ChildActivated | ChildTerminal | ParentRestored | TfCommitted.
#[export] Instance TransferPhase_eq_dec : EqDecision TransferPhase.
Proof. solve_decision. Defined.

(** write_scope/types.rs:94-103 TransferPhase::as_str. *)
Definition phase_as_str (p : TransferPhase) : string :=
  match p with
  | Prepared => "prepared"
  | ParentExcluded => "parent_excluded"
  | ChildActivated => "child_activated"
  | ChildTerminal => "child_terminal"
  | ParentRestored => "parent_restored"
  | TfCommitted => "committed"
  end.
(** write_scope/types.rs:105-115 TransferPhase::parse. *)
Definition phase_parse (s : string) : option TransferPhase :=
  if bool_decide (s = "prepared") then Some Prepared else
  if bool_decide (s = "parent_excluded") then Some ParentExcluded else
  if bool_decide (s = "child_activated") then Some ChildActivated else
  if bool_decide (s = "child_terminal") then Some ChildTerminal else
  if bool_decide (s = "parent_restored") then Some ParentRestored else
  if bool_decide (s = "committed") then Some TfCommitted else None.
(** write_scope/types.rs:117-126 TransferPhase::ordinal. *)
Definition phase_ordinal (p : TransferPhase) : Z :=
  match p with
  | Prepared => 0 | ParentExcluded => 1 | ChildActivated => 2
  | ChildTerminal => 3 | ParentRestored => 4 | TfCommitted => 5
  end.
(** write_scope/types.rs:129-138 TransferPhase::next. *)
Definition phase_next (p : TransferPhase) : option TransferPhase :=
  match p with
  | Prepared => Some ParentExcluded
  | ParentExcluded => Some ChildActivated
  | ChildActivated => Some ChildTerminal
  | ChildTerminal => Some ParentRestored
  | ParentRestored => Some TfCommitted
  | TfCommitted => None
  end.
(** write_scope/types.rs:142-145 TransferPhase::parent_denied_in_subscope. *)
Definition parent_denied_in_subscope (p : TransferPhase) : bool :=
  (phase_ordinal ParentExcluded <=? phase_ordinal p) && (phase_ordinal p <? phase_ordinal ParentRestored).

(** write_scope/types.rs:158-166 PermitKind. *)
Inductive PermitKind := PkMutation | PkExecution.
#[export] Instance PermitKind_eq_dec : EqDecision PermitKind.
Proof. solve_decision. Defined.

(** write_scope/permits.rs:21-37 MutationKind. *)
Inductive MutationKind := WriteContent | MkCreate | MkRemove | MkRename | MkReplace | MkLink | MkSymlink.
#[export] Instance MutationKind_eq_dec : EqDecision MutationKind.
Proof. solve_decision. Defined.
(** write_scope/permits.rs:54-59 MutationKind::influences_namespace. *)
Definition influences_namespace (k : MutationKind) : bool :=
  match k with MkRemove | MkRename | MkReplace | MkLink | MkSymlink => true | _ => false end.

(** The [CHECK] values of [sessions.lifecycle], [recovery_phase], [capability] and the
    permits' [state]. *)
Inductive SessionLifecycle := SlActive | SlDeleting.
Inductive RecoveryPhase := RpPending | RpReconciled | RpDenied.
Inductive CapabilityColumn := CapProven | CapUnsupported.
Inductive PermitState := PsHeld | PsReleased.
#[export] Instance SessionLifecycle_eq_dec : EqDecision SessionLifecycle.
Proof. solve_decision. Defined.
#[export] Instance CapabilityColumn_eq_dec : EqDecision CapabilityColumn.
Proof. solve_decision. Defined.
#[export] Instance PermitState_eq_dec : EqDecision PermitState.
Proof. solve_decision. Defined.

(** ** Rows *)

(** write_scope_leases.rs:77-91 WriteScopeLeaseRow. *)
Record WriteScopeLeaseRow := mkLeaseRow {
  wl_lease_id : Z; wl_parent_lease_id : option Z; wl_session_id : Z; wl_task_id : option bytes;
  wl_scope_path : Path; wl_generation : Z; wl_state : LeaseState; wl_owner_id : bytes; wl_version : Z;
  wl_created_at_wall_ms : Z; wl_updated_at_wall_ms : Z; wl_released_at_wall_ms : option Z }.

(** write_scope_leases.rs:128-140 CasWriteScopeLease. *)
Record CasWriteScopeLease := mkCasLease {
  cl_lease_id : Z; cl_expected_state : LeaseState; cl_expected_generation : Z; cl_expected_version : Z;
  cl_new_state : LeaseState; cl_new_generation : Z; cl_now_wall_ms : Z; cl_released : bool }.

(** write_scope_leases.rs:147-172 WriteScopeTransferRow. The rendered text of [unsupported_reason]
    is left out; [publication_identity] is the number its decimal text stands for. *)
Record WriteScopeTransferRow := mkTransferRow {
  wt_transfer_id : Z; wt_session_id : Z; wt_parent_lease_id : Z; wt_child_lease_id : option Z;
  wt_sub_scope_path : Path; wt_phase : TransferPhase; wt_prepare_parent_generation : Z;
  wt_parent_generation : Z; wt_child_generation : option Z; wt_restored_parent_generation : option Z;
  wt_backend_kind : string; wt_capability : CapabilityColumn;
  wt_containment_id : option Z; wt_containment_generation : option Z; wt_publication_identity : option Z;
  wt_execution_permit_id : option Z; wt_recovery_phase : option RecoveryPhase; wt_version : Z;
  wt_created_at_wall_ms : Z; wt_updated_at_wall_ms : Z }.

(** write_scope_leases.rs:219-236 CasWriteScopeTransfer. *)
Record CasWriteScopeTransfer := mkCasTransfer {
  ct_transfer_id : Z; ct_expected_phase : TransferPhase; ct_expected_version : Z; ct_new_phase : TransferPhase;
  ct_now_wall_ms : Z; ct_child_lease_id : option Z; ct_parent_generation : option Z;
  ct_child_generation : option Z; ct_restored_parent_generation : option Z; ct_containment_id : option Z;
  ct_containment_generation : option Z; ct_publication_identity : option (option Z);
  ct_execution_permit_id : option Z; ct_recovery_phase : option (option RecoveryPhase) }.

(** write_scope_leases.rs:243-261 WriteScopePermitRow. *)
Record WriteScopePermitRow := mkPermitRow {
  wp_permit_id : Z; wp_session_id : Z; wp_lease_id : Z; wp_generation : Z; wp_kind : PermitKind;
  wp_influence_kind : MutationKind; wp_influence_root : Path; wp_target_path : Path; wp_state : PermitState;
  wp_containment_id : option Z; wp_acquired_at_wall_ms : Z; wp_released_at_wall_ms : option Z }.

(** The tables, by primary key. *)
Record Db := mkDb {
  db_leases : gmap Z WriteScopeLeaseRow;
  db_transfers : gmap Z WriteScopeTransferRow;
  db_permits : gmap Z WriteScopePermitRow;
  db_sessions : gmap Z SessionLifecycle }.

Definition set_leases (l : gmap Z WriteScopeLeaseRow) (d : Db) : Db :=
  mkDb l (db_transfers d) (db_permits d) (db_sessions d).
Definition set_transfers (t : gmap Z WriteScopeTransferRow) (d : Db) : Db :=
  mkDb (db_leases d) t (db_permits d) (db_sessions d).
Definition set_permits (p : gmap Z WriteScopePermitRow) (d : Db) : Db :=
  mkDb (db_leases d) (db_transfers d) p (db_sessions d).
Definition set_sessions (s : gmap Z SessionLifecycle) (d : Db) : Db :=
  mkDb (db_leases d) (db_transfers d) (db_permits d) s.

(** A statement that runs or fails. *)
Definition DbOp (A : Type) : Type := Db -> option (Db * A).

(** [SELECT ... WHERE p ORDER BY created ASC, id ASC]. *)
Definition row_le {A} (created ident : A -> Z) (a b : A) : Prop :=
  created a < created b \/ (created a = created b /\ ident a <= ident b).
#[export] Instance row_le_dec {A} (created ident : A -> Z) : RelDecision (row_le created ident).
Proof. intros a b. unfold row_le. apply _. Defined.
Definition select {A} (created ident : A -> Z) (p : A -> bool) (m : gmap Z A) : list A :=
  merge_sort (row_le created ident) (filter (fun a => p a = true) (snd <$> map_to_list m)).

(** ** Constraints *)

(** The foreign keys of an inserted or updated lease or transfer row. *)
Definition lease_keys_ok (d : Db) (r : WriteScopeLeaseRow) : bool :=
  bool_decide (is_Some (db_sessions d !! wl_session_id r)) &&
  match wl_parent_lease_id r with Some p => bool_decide (is_Some (db_leases d !! p)) | None => true end.
Definition transfer_keys_ok (d : Db) (r : WriteScopeTransferRow) : bool :=
  bool_decide (is_Some (db_sessions d !! wt_session_id r)) &&
  bool_decide (is_Some (db_leases d !! wt_parent_lease_id r)) &&
  match wt_child_lease_id r with Some c => bool_decide (is_Some (db_leases d !! c)) | None => true end.
Definition permit_keys_ok (d : Db) (r : WriteScopePermitRow) : bool :=
  bool_decide (is_Some (db_sessions d !! wp_session_id r)) &&
  bool_decide (is_Some (db_leases d !! wp_lease_id r)).

(** 0001_initial.sql:6031-6036 write_scope_leases_generation_monotonic. *)
Definition leases_generation_monotonic (o n : WriteScopeLeaseRow) : bool :=
  negb (wl_generation n <? wl_generation o).
(** 0001_initial.sql:6040-6045 write_scope_leases_version_monotonic. *)
Definition leases_version_monotonic (o n : WriteScopeLeaseRow) : bool :=
  negb ((wl_version n <=? wl_version o) && negb (bool_decide (wl_state n = wl_state o))).
(** 0001_initial.sql:6050-6070 write_scope_leases_legal_transition. *)
Definition leases_legal_transition (o n : WriteScopeLeaseRow) : bool :=
  bool_decide (wl_state n = wl_state o) ||
  bool_decide ((wl_state o, wl_state n) ∈
    [(LsActive, LsTransferring); (LsActive, LsReleased); (LsTransferring, LsDelegated);
     (LsTransferring, LsActive); (LsDelegated, LsTransferring); (LsDelegated, LsReturning);
     (LsDelegated, LsReleased); (LsReturning, LsActive); (LsReturning, LsDelegated);
     (LsReturning, LsReleased)]).
(** 0001_initial.sql:6074-6079 write_scope_leases_released_is_final. *)
Definition leases_released_is_final (o n : WriteScopeLeaseRow) : bool :=
  negb (bool_decide (wl_state o = LsReleased) && negb (bool_decide (wl_state n = LsReleased))).
(** 0001_initial.sql:6083-6088 write_scope_leases_scope_immutable. *)
Definition leases_scope_immutable (o n : WriteScopeLeaseRow) : bool :=
  bool_decide (wl_scope_path n = wl_scope_path o).
Definition lease_triggers (o n : WriteScopeLeaseRow) : bool :=
  leases_generation_monotonic o n && leases_version_monotonic o n && leases_legal_transition o n &&
  leases_released_is_final o n && leases_scope_immutable o n.

(** 0001_initial.sql:6158-6178 write_scope_transfers_phase_adjacent. *)
Definition transfers_phase_adjacent (o n : WriteScopeTransferRow) : bool :=
  negb ((1 <? phase_ordinal (wt_phase n) - phase_ordinal (wt_phase o)) &&
        negb (bool_decide (wt_phase n = TfCommitted) && bool_decide (wt_child_lease_id o = None))).
(** 0001_initial.sql:6182-6200 write_scope_transfers_phase_forward_only. *)
Definition transfers_phase_forward_only (o n : WriteScopeTransferRow) : bool :=
  negb (phase_ordinal (wt_phase n) <? phase_ordinal (wt_phase o)).
(** 0001_initial.sql:6203-6208 write_scope_transfers_committed_is_final. *)
Definition transfers_committed_is_final (o n : WriteScopeTransferRow) : bool :=
  negb (bool_decide (wt_phase o = TfCommitted) && negb (bool_decide (wt_phase n = TfCommitted))).
(** 0001_initial.sql:6212-6218 write_scope_transfers_child_lease_write_once. *)
Definition transfers_child_lease_write_once (o n : WriteScopeTransferRow) : bool :=
  bool_decide (wt_child_lease_id o = None) || bool_decide (wt_child_lease_id n = wt_child_lease_id o).
(** 0001_initial.sql:6222-6227 write_scope_transfers_subscope_immutable. *)
Definition transfers_subscope_immutable (o n : WriteScopeTransferRow) : bool :=
  bool_decide (wt_sub_scope_path n = wt_sub_scope_path o).
(** 0001_initial.sql:6231-6237 write_scope_transfers_requires_proven_backend. *)
Definition transfers_requires_proven_backend (n : WriteScopeTransferRow) : bool :=
  negb (negb (bool_decide (wt_capability n = CapProven)) && negb (bool_decide (wt_phase n = Prepared))).
Definition transfer_triggers (o n : WriteScopeTransferRow) : bool :=
  transfers_phase_adjacent o n && transfers_phase_forward_only o n && transfers_committed_is_final o n &&
  transfers_child_lease_write_once o n && transfers_subscope_immutable o n &&
  transfers_requires_proven_backend n.

(** [UPDATE] of one row, and [INSERT]. *)
Definition update_lease (o n : WriteScopeLeaseRow) (d : Db) : option Db :=
  if lease_triggers o n then Some (set_leases (<[wl_lease_id o := n]> (db_leases d)) d) else None.
Definition insert_lease (r : WriteScopeLeaseRow) (d : Db) : option Db :=
  if bool_decide (is_Some (db_leases d !! wl_lease_id r)) then None else
  if lease_keys_ok d r then Some (set_leases (<[wl_lease_id r := r]> (db_leases d)) d) else None.
Definition update_transfer (o n : WriteScopeTransferRow) (d : Db) : option Db :=
  if transfer_triggers o n && transfer_keys_ok d n
  then Some (set_transfers (<[wt_transfer_id o := n]> (db_transfers d)) d) else None.
Definition insert_transfer (r : WriteScopeTransferRow) (d : Db) : option Db :=
  if bool_decide (is_Some (db_transfers d !! wt_transfer_id r)) then None else
  if transfer_keys_ok d r then Some (set_transfers (<[wt_transfer_id r := r]> (db_transfers d)) d) else None.

(** ** Leases *)

(** write_scope_leases.rs:1229-1240 get_lease_conn. *)
Definition get_lease (d : Db) (id : Z) : option WriteScopeLeaseRow := db_leases d !! id.
(** write_scope_leases.rs:1242-1253 get_transfer_conn. *)
Definition get_transfer (d : Db) (id : Z) : option WriteScopeTransferRow := db_transfers d !! id.
(** write_scope_leases.rs:1255-1266 get_permit_conn. *)
Definition get_permit (d : Db) (id : Z) : option WriteScopePermitRow := db_permits d !! id.

(** write_scope_leases.rs:292-326 Db::insert_write_scope_lease. *)
Definition insert_write_scope_lease (row : WriteScopeLeaseRow) : DbOp WriteScopeLeaseRow := fun d =>
  d' ← insert_lease row d; r ← get_lease d' (wl_lease_id row); Some (d', r).

(** write_scope_leases.rs:328-333 Db::get_write_scope_lease. *)
Definition get_write_scope_lease (id : Z) : DbOp (option WriteScopeLeaseRow) := fun d =>
  Some (d, get_lease d id).

(** The row the [UPDATE] of a lease compare-and-swap writes, and its [WHERE] clause. *)
Definition cas_lease_row (cas : CasWriteScopeLease) (r : WriteScopeLeaseRow) : WriteScopeLeaseRow :=
  mkLeaseRow (wl_lease_id r) (wl_parent_lease_id r) (wl_session_id r) (wl_task_id r) (wl_scope_path r)
    (cl_new_generation cas) (cl_new_state cas) (wl_owner_id r) (wl_version r + 1)
    (wl_created_at_wall_ms r) (cl_now_wall_ms cas)
    (if cl_released cas then Some (cl_now_wall_ms cas) else wl_released_at_wall_ms r).
Definition cas_lease_matches (cas : CasWriteScopeLease) (r : WriteScopeLeaseRow) : bool :=
  bool_decide (wl_state r = cl_expected_state cas) && (wl_generation r =? cl_expected_generation cas) &&
  (wl_version r =? cl_expected_version cas).
(** The [UPDATE]: [Some None] when no row matches. *)
Definition cas_lease_update (cas : CasWriteScopeLease) (d : Db) : option (option Db) :=
  match db_leases d !! cl_lease_id cas with
  | Some r => if cas_lease_matches cas r then Some <$> update_lease r (cas_lease_row cas r) d else Some None
  | None => Some None
  end.

(** write_scope_leases.rs:341-406 Db::cas_write_scope_lease. *)
Definition cas_write_scope_lease (cas : CasWriteScopeLease) : DbOp (option WriteScopeLeaseRow) := fun d =>
  if cl_new_generation cas <? cl_expected_generation cas then None else
  if negb (bool_decide (cl_expected_state cas = cl_new_state cas))
     && negb (is_legal_lease_transition (cl_expected_state cas) (cl_new_state cas)) then None else
  u ← cas_lease_update cas d;
  match u with
  | None => Some (d, None)
  | Some d' => Some (d', get_lease d' (cl_lease_id cas))
  end.

(** write_scope_leases.rs:408-429 Db::list_write_scope_leases_for_session. *)
Definition list_write_scope_leases_for_session (session_id : Z) : DbOp (list WriteScopeLeaseRow) := fun d =>
  Some (d, select wl_created_at_wall_ms wl_lease_id (fun r => wl_session_id r =? session_id) (db_leases d)).
(** write_scope_leases.rs:432-453 Db::list_child_write_scope_leases. *)
Definition list_child_write_scope_leases (parent : Z) : DbOp (list WriteScopeLeaseRow) := fun d =>
  Some (d, select wl_created_at_wall_ms wl_lease_id
             (fun r => bool_decide (wl_parent_lease_id r = Some parent)) (db_leases d)).
(** write_scope_leases.rs:457-498 Db::list_live_write_scope_leases. *)
Definition list_live_write_scope_leases (session_id : option Z) : DbOp (list WriteScopeLeaseRow) := fun d =>
  Some (d, select wl_created_at_wall_ms wl_lease_id
             (fun r => match session_id with Some s => wl_session_id r =? s | None => true end
                       && negb (bool_decide (wl_state r = LsReleased))) (db_leases d)).

(** ** Transfers *)

(** write_scope_leases.rs:502-549 Db::insert_write_scope_transfer. *)
Definition insert_write_scope_transfer (row : WriteScopeTransferRow) : DbOp WriteScopeTransferRow := fun d =>
  d' ← insert_transfer row d; r ← get_transfer d' (wt_transfer_id row); Some (d', r).

(** write_scope_leases.rs:559-643 Db::prepare_write_scope_transfer. *)
Definition prepare_write_scope_transfer (cas : CasWriteScopeLease) (row : WriteScopeTransferRow)
    : DbOp (option (WriteScopeLeaseRow * WriteScopeTransferRow)) := fun d =>
  if negb (is_legal_lease_transition (cl_expected_state cas) (cl_new_state cas)) then None else
  if cl_new_generation cas <? cl_expected_generation cas then None else
  u ← cas_lease_update (mkCasLease (cl_lease_id cas) (cl_expected_state cas) (cl_expected_generation cas)
        (cl_expected_version cas) (cl_new_state cas) (cl_new_generation cas) (cl_now_wall_ms cas) false) d;
  match u with
  | None => Some (d, None)
  | Some d1 =>
      d2 ← insert_transfer row d1;
      lease ← get_lease d2 (cl_lease_id cas);
      transfer ← get_transfer d2 (wt_transfer_id row);
      Some (d2, Some (lease, transfer))
  end.

(** The row [attach_write_scope_transfer_ownership] writes. *)
Definition attach_row (containment_id containment_generation execution_permit_id : Z)
    (publication_identity : option Z) (now : Z) (r : WriteScopeTransferRow) : WriteScopeTransferRow :=
  mkTransferRow (wt_transfer_id r) (wt_session_id r) (wt_parent_lease_id r) (wt_child_lease_id r)
    (wt_sub_scope_path r) (wt_phase r) (wt_prepare_parent_generation r) (wt_parent_generation r)
    (wt_child_generation r) (wt_restored_parent_generation r) (wt_backend_kind r) (wt_capability r)
    (Some containment_id) (Some containment_generation) publication_identity (Some execution_permit_id)
    (wt_recovery_phase r) (wt_version r) (wt_created_at_wall_ms r) now.
(** write_scope_leases.rs:657-692 Db::attach_write_scope_transfer_ownership. *)
Definition attach_write_scope_transfer_ownership (transfer_id containment_id containment_generation
    execution_permit_id : Z) (publication_identity : option Z) (now : Z)
    : DbOp (option WriteScopeTransferRow) := fun d =>
  match db_transfers d !! transfer_id with
  | Some r =>
      if bool_decide (wt_phase r = Prepared) then
        d' ← update_transfer r
               (attach_row containment_id containment_generation execution_permit_id publication_identity now r) d;
        Some (d', get_transfer d' transfer_id)
      else Some (d, None)
  | None => Some (d, None)
  end.

(** The row [activate_write_scope_child] writes to the transfer. *)
Definition activate_row (cas : CasWriteScopeTransfer) (child : Z) (r : WriteScopeTransferRow)
    : WriteScopeTransferRow :=
  mkTransferRow (wt_transfer_id r) (wt_session_id r) (wt_parent_lease_id r) (Some child)
    (wt_sub_scope_path r) (ct_new_phase cas) (wt_prepare_parent_generation r) (wt_parent_generation r)
    (ct_child_generation cas) (wt_restored_parent_generation r) (wt_backend_kind r) (wt_capability r)
    (wt_containment_id r) (wt_containment_generation r) (wt_publication_identity r) (wt_execution_permit_id r)
    (wt_recovery_phase r) (wt_version r + 1) (wt_created_at_wall_ms r) (ct_now_wall_ms cas).
Definition cas_transfer_matches (cas : CasWriteScopeTransfer) (r : WriteScopeTransferRow) : bool :=
  bool_decide (wt_phase r = ct_expected_phase cas) && (wt_version r =? ct_expected_version cas).
(** write_scope_leases.rs:703-714 Db::activate_write_scope_child. *)
Definition activate_write_scope_child (child : WriteScopeLeaseRow) (transfer_cas : CasWriteScopeTransfer)
    (parent_cas : CasWriteScopeLease)
    : DbOp (option (WriteScopeLeaseRow * WriteScopeTransferRow * WriteScopeLeaseRow)) := fun d =>
  if negb (is_legal_lease_transition (cl_expected_state parent_cas) (cl_new_state parent_cas)) then None else
  d1 ← insert_lease child d;
  match db_transfers d1 !! ct_transfer_id transfer_cas with
  | Some r =>
      if cas_transfer_matches transfer_cas r then
        d2 ← update_transfer r (activate_row transfer_cas (wl_lease_id child) r) d1;
        u ← cas_lease_update (mkCasLease (cl_lease_id parent_cas) (cl_expected_state parent_cas)
              (cl_expected_generation parent_cas) (cl_expected_version parent_cas) (cl_new_state parent_cas)
              (cl_new_generation parent_cas) (cl_now_wall_ms parent_cas) false) d2;
        match u with
        | None => Some (d, None)
        | Some d3 =>
            child_row ← get_lease d3 (wl_lease_id child);
            transfer_row ← get_transfer d3 (ct_transfer_id transfer_cas);
            parent_row ← get_lease d3 (cl_lease_id parent_cas);
            Some (d3, Some (child_row, transfer_row, parent_row))
        end
      else Some (d, None)
  | None => Some (d, None)
  end.

(** The row [abandon_write_scope_transfer] writes. *)
Definition abandon_row (now : Z) (r : WriteScopeTransferRow) : WriteScopeTransferRow :=
  mkTransferRow (wt_transfer_id r) (wt_session_id r) (wt_parent_lease_id r) (wt_child_lease_id r)
    (wt_sub_scope_path r) TfCommitted (wt_prepare_parent_generation r) (wt_parent_generation r)
    (wt_child_generation r) (wt_restored_parent_generation r) (wt_backend_kind r) (wt_capability r)
    (wt_containment_id r) (wt_containment_generation r) (wt_publication_identity r) (wt_execution_permit_id r)
    (Some RpReconciled) (wt_version r + 1) (wt_created_at_wall_ms r) now.
(** write_scope_leases.rs:816-853 Db::abandon_write_scope_transfer. *)
Definition abandon_write_scope_transfer (transfer_id : Z) (expected_phase : TransferPhase)
    (expected_version now : Z) : DbOp (option WriteScopeTransferRow) := fun d =>
  match db_transfers d !! transfer_id with
  | Some r =>
      if bool_decide (wt_phase r = expected_phase) && (wt_version r =? expected_version)
         && bool_decide (wt_child_lease_id r = None) then
        d' ← update_transfer r (abandon_row now r) d; Some (d', get_transfer d' transfer_id)
      else Some (d, None)
  | None => Some (d, None)
  end.

(** write_scope_leases.rs:855-861 Db::get_write_scope_transfer. *)
Definition get_write_scope_transfer (id : Z) : DbOp (option WriteScopeTransferRow) := fun d =>
  Some (d, get_transfer d id).

(** The row [cas_write_scope_transfer_phase] writes: a patched column keeps its value when the
    patch is absent. *)
Definition cas_transfer_row (cas : CasWriteScopeTransfer) (r : WriteScopeTransferRow) : WriteScopeTransferRow :=
  mkTransferRow (wt_transfer_id r) (wt_session_id r) (wt_parent_lease_id r)
    (match ct_child_lease_id cas with Some id => Some id | None => wt_child_lease_id r end)
    (wt_sub_scope_path r) (ct_new_phase cas) (wt_prepare_parent_generation r)
    (default (wt_parent_generation r) (ct_parent_generation cas))
    (match ct_child_generation cas with Some g => Some g | None => wt_child_generation r end)
    (match ct_restored_parent_generation cas with Some g => Some g | None => wt_restored_parent_generation r end)
    (wt_backend_kind r) (wt_capability r)
    (match ct_containment_id cas with Some id => Some id | None => wt_containment_id r end)
    (match ct_containment_generation cas with Some g => Some g | None => wt_containment_generation r end)
    (default (wt_publication_identity r) (ct_publication_identity cas))
    (match ct_execution_permit_id cas with Some id => Some id | None => wt_execution_permit_id r end)
    (default (wt_recovery_phase r) (ct_recovery_phase cas))
    (wt_version r + 1) (wt_created_at_wall_ms r) (ct_now_wall_ms cas).
(** write_scope_leases.rs:34-41 TRANSFER_PHASES. *)
Definition TRANSFER_PHASES : list TransferPhase :=
  [Prepared; ParentExcluded; ChildActivated; ChildTerminal; ParentRestored; TfCommitted].
(** write_scope_leases.rs:47-49 transfer_phase_ordinal. *)
Definition transfer_phase_ordinal (p : TransferPhase) : option Z :=
  (fun x => Z.of_nat x.1) <$> list_find (fun q => q = p) TRANSFER_PHASES.
(** write_scope_leases.rs:866-965 Db::cas_write_scope_transfer_phase. *)
Definition cas_write_scope_transfer_phase (cas : CasWriteScopeTransfer)
    : DbOp (option WriteScopeTransferRow) := fun d =>
  from_ord ← transfer_phase_ordinal (ct_expected_phase cas);
  to_ord ← transfer_phase_ordinal (ct_new_phase cas);
  if negb (to_ord =? from_ord + 1) then None else
  match get_transfer d (ct_transfer_id cas) with
  | None => Some (d, None)
  | Some current =>
      if negb (cas_transfer_matches cas current) then Some (d, None) else
      d' ← update_transfer current (cas_transfer_row cas current) d;
      Some (d', get_transfer d' (ct_transfer_id cas))
  end.

(** write_scope_leases.rs:969-1010 Db::list_open_write_scope_transfers. *)
Definition list_open_write_scope_transfers (session_id : option Z) : DbOp (list WriteScopeTransferRow) := fun d =>
  Some (d, select wt_created_at_wall_ms wt_transfer_id
             (fun r => match session_id with Some s => wt_session_id r =? s | None => true end
                       && negb (bool_decide (wt_phase r = TfCommitted))) (db_transfers d)).
(** write_scope_leases.rs:1017-1034 Db::get_write_scope_transfer_by_execution_permit. The query has no
    order; the row of a permit is unique. *)
Definition get_write_scope_transfer_by_execution_permit (permit_id : Z)
    : DbOp (option WriteScopeTransferRow) := fun d =>
  Some (d, head (select wt_created_at_wall_ms wt_transfer_id
             (fun r => bool_decide (wt_execution_permit_id r = Some permit_id)) (db_transfers d))).
(** write_scope_leases.rs:1038-1060 Db::list_open_write_scope_transfers_for_parent. *)
Definition list_open_write_scope_transfers_for_parent (parent : Z) : DbOp (list WriteScopeTransferRow) := fun d =>
  Some (d, select wt_created_at_wall_ms wt_transfer_id
             (fun r => (wt_parent_lease_id r =? parent) && negb (bool_decide (wt_phase r = TfCommitted)))
             (db_transfers d)).
(** write_scope_leases.rs:1065-1087 Db::list_write_scope_transfers_for_parent. *)
Definition list_write_scope_transfers_for_parent (parent : Z) : DbOp (list WriteScopeTransferRow) := fun d =>
  Some (d, select wt_created_at_wall_ms wt_transfer_id (fun r => wt_parent_lease_id r =? parent) (db_transfers d)).

(** ** Permits *)

(** write_scope_leases.rs:1091-1125 Db::insert_write_scope_permit. *)
Definition insert_write_scope_permit (row : WriteScopePermitRow) : DbOp WriteScopePermitRow := fun d =>
  if bool_decide (is_Some (db_permits d !! wp_permit_id row)) then None else
  if permit_keys_ok d row then Some (set_permits (<[wp_permit_id row := row]> (db_permits d)) d, row) else None.
(** write_scope_leases.rs:1127-1133 Db::get_write_scope_permit. *)
Definition get_write_scope_permit (id : Z) : DbOp (option WriteScopePermitRow) := fun d =>
  Some (d, get_permit d id).
Definition release_row (now : Z) (r : WriteScopePermitRow) : WriteScopePermitRow :=
  mkPermitRow (wp_permit_id r) (wp_session_id r) (wp_lease_id r) (wp_generation r) (wp_kind r)
    (wp_influence_kind r) (wp_influence_root r) (wp_target_path r) PsReleased (wp_containment_id r)
    (wp_acquired_at_wall_ms r) (Some now).
(** write_scope_leases.rs:1137-1156 Db::release_write_scope_permit. *)
Definition release_write_scope_permit (permit_id now : Z) : DbOp (option WriteScopePermitRow) := fun d =>
  match db_permits d !! permit_id with
  | Some r =>
      if bool_decide (wp_state r = PsHeld)
      then Some (set_permits (<[permit_id := release_row now r]> (db_permits d)) d, Some (release_row now r))
      else Some (d, None)
  | None => Some (d, None)
  end.
(** write_scope_leases.rs:1160-1201 Db::list_held_write_scope_permits. *)
Definition list_held_write_scope_permits (session_id : option Z) : DbOp (list WriteScopePermitRow) := fun d =>
  Some (d, select wp_acquired_at_wall_ms wp_permit_id
             (fun r => match session_id with Some s => wp_session_id r =? s | None => true end
                       && bool_decide (wp_state r = PsHeld)) (db_permits d)).
(** write_scope_leases.rs:1204-1226 Db::list_held_write_scope_permits_for_lease. *)
Definition list_held_write_scope_permits_for_lease (lease : Z) : DbOp (list WriteScopePermitRow) := fun d =>
  Some (d, select wp_acquired_at_wall_ms wp_permit_id
             (fun r => (wp_lease_id r =? lease) && bool_decide (wp_state r = PsHeld)) (db_permits d)).

(** ** Sessions *)

(** execution_containments.rs:353-365 Db::mark_session_deleting. *)
Definition mark_session_deleting (session_id : Z) : DbOp bool := fun d =>
  match db_sessions d !! session_id with
  | Some SlActive => Some (set_sessions (<[session_id := SlDeleting]> (db_sessions d)) d, true)
  | _ => Some (d, false)
  end.
(** execution_containments.rs:367-378 Db::session_lifecycle. *)
Definition session_lifecycle (session_id : Z) : DbOp (option SessionLifecycle) := fun d =>
  Some (d, db_sessions d !! session_id).
(** execution_containments.rs:380-382 Db::is_session_deleting. *)
Definition is_session_deleting (session_id : Z) : DbOp bool := fun d =>
  r ← session_lifecycle session_id d; Some (r.1, bool_decide (r.2 = Some SlDeleting)).
