(* ===== verification/WriteScopeStorage.v ===== *)
(** What the write-scope tables guarantee by themselves, whoever calls the storage
    operations and in whatever order: generations and phases only move forward, released
    and committed are final, scopes never change, a child is recorded once. *)

From S2P Require Import Prelude.
From S2P Require Import WriteScopeDb.
From stdpp Require Import options.
Set Warnings "-clear-no-such-hyp".

(** ** Calls *)

Inductive StorageOp :=
| StInsertLease (row : WriteScopeLeaseRow)
| StCasLease (cas : CasWriteScopeLease)
| StInsertTransfer (row : WriteScopeTransferRow)
| StPrepare (cas : CasWriteScopeLease) (row : WriteScopeTransferRow)
| StAttach (transfer_id containment_id containment_generation permit_id : Z) (identity : option Z) (now : Z)
| StActivate (child : WriteScopeLeaseRow) (transfer_cas : CasWriteScopeTransfer) (parent_cas : CasWriteScopeLease)
| StAbandon (transfer_id : Z) (phase : TransferPhase) (version now : Z)
| StCasTransfer (cas : CasWriteScopeTransfer)
| StInsertPermit (row : WriteScopePermitRow)
| StReleasePermit (permit_id now : Z)
| StMarkDeleting (session_id : Z).
Definition run_storage (op : StorageOp) (d : Db) : option Db :=
  match op with
  | StInsertLease row => fst <$> insert_write_scope_lease row d
  | StCasLease cas => fst <$> cas_write_scope_lease cas d
  | StInsertTransfer row => fst <$> insert_write_scope_transfer row d
  | StPrepare cas row => fst <$> prepare_write_scope_transfer cas row d
  | StAttach i c g p ident now => fst <$> attach_write_scope_transfer_ownership i c g p ident now d
  | StActivate child tc pc => fst <$> activate_write_scope_child child tc pc d
  | StAbandon i ph v now => fst <$> abandon_write_scope_transfer i ph v now d
  | StCasTransfer cas => fst <$> cas_write_scope_transfer_phase cas d
  | StInsertPermit row => fst <$> insert_write_scope_permit row d
  | StReleasePermit i now => fst <$> release_write_scope_permit i now d
  | StMarkDeleting s => fst <$> mark_session_deleting s d
  end.
Definition storage_step (d d' : Db) : Prop := exists op, run_storage op d = Some d'.

(** Rows are stored under their own ids. *)
Definition keyed (d : Db) : Prop :=
  (forall i r, db_leases d !! i = Some r -> wl_lease_id r = i) /\
  (forall i t, db_transfers d !! i = Some t -> wt_transfer_id t = i).

(** ** What later rows keep *)

Record lease_later (r r' : WriteScopeLeaseRow) : Prop := {
  ll_generation : wl_generation r <= wl_generation r';
  ll_scope : wl_scope_path r' = wl_scope_path r;
  ll_released : wl_state r = LsReleased -> wl_state r' = LsReleased }.
Record transfer_later (t t' : WriteScopeTransferRow) : Prop := {
  tl_phase : phase_ordinal (wt_phase t) <= phase_ordinal (wt_phase t');
  tl_scope : wt_sub_scope_path t' = wt_sub_scope_path t;
  tl_child : forall c, wt_child_lease_id t = Some c -> wt_child_lease_id t' = Some c }.
Definition later (d d' : Db) : Prop :=
  (forall i r, db_leases d !! i = Some r -> exists r', db_leases d' !! i = Some r' /\ lease_later r r') /\
  (forall i t, db_transfers d !! i = Some t -> exists t', db_transfers d' !! i = Some t' /\ transfer_later t t').

#[local] Instance lease_later_preorder : PreOrder lease_later.
Proof. split; [intros a; split; [lia|done|auto]|]. intros a b c [] []. split; [lia|congruence|auto]. Qed.
#[local] Instance transfer_later_preorder : PreOrder transfer_later.
Proof. split; [intros a; split; [lia|done|auto]|]. intros a b c [] []. split; [lia|congruence|auto]. Qed.
#[local] Instance later_preorder : PreOrder later.
Proof.
  split; [intros a; split; intros i r Hr; exists r; by split|]. intros a b c [Hl Ht] [Hl' Ht']. split.
  - intros i r Hr. destruct (Hl i r Hr) as (r1 & Hr1 & H1). destruct (Hl' i r1 Hr1) as (r2 & Hr2 & H2).
    exists r2. split; [done|]. by etrans.
  - intros i r Hr. destruct (Ht i r Hr) as (r1 & Hr1 & H1). destruct (Ht' i r1 Hr1) as (r2 & Hr2 & H2).
    exists r2. split; [done|]. by etrans.
Qed.

(** One statement's effect: the invariant kept and every row later. *)
Definition good (d : Db) (o : option Db) : Prop := forall d', o = Some d' -> keyed d' /\ later d d'.
Lemma good_none d : good d None.
Proof. by intros d' [=]. Qed.
Lemma good_some d d' : keyed d' -> later d d' -> good d (Some d').
Proof. by intros ? ? ? [= <-]. Qed.
Lemma good_refl d : keyed d -> good d (Some d).
Proof. intros. by apply good_some. Qed.

(** Rows of other tables. *)
Lemma good_other d d' :
  keyed d -> db_leases d' = db_leases d -> db_transfers d' = db_transfers d -> good d (Some d').
Proof.
  intros [Hk Hkt] El Et. apply good_some; split; rewrite ?El, ?Et; try done; intros i r Hr; exists r; by split.
Qed.

Lemma trigger_lease_later o n : lease_triggers o n = true -> lease_later o n.
Proof.
  unfold lease_triggers. rewrite !andb_true_iff. intros [[[[Hg _] _] Hr] Hs]. split.
  - unfold leases_generation_monotonic in Hg. apply negb_true_iff, Z.ltb_ge in Hg. done.
  - by apply bool_decide_eq_true in Hs.
  - intros E. unfold leases_released_is_final in Hr. rewrite bool_decide_true in Hr by done.
    cbn in Hr. by apply negb_true_iff, negb_false_iff, bool_decide_eq_true in Hr.
Qed.
Lemma trigger_transfer_later o n : transfer_triggers o n = true -> transfer_later o n.
Proof.
  unfold transfer_triggers. rewrite !andb_true_iff. intros [[[[[_ Hf] _] Hc] Hs] _]. split.
  - unfold transfers_phase_forward_only in Hf. apply negb_true_iff, Z.ltb_ge in Hf. done.
  - by apply bool_decide_eq_true in Hs.
  - intros c E. unfold transfers_child_lease_write_once in Hc. apply orb_true_iff in Hc as [Hc|Hc];
      apply bool_decide_eq_true in Hc; congruence.
Qed.

Lemma good_update_lease d o n :
  keyed d -> db_leases d !! wl_lease_id o = Some o -> wl_lease_id n = wl_lease_id o -> good d (update_lease o n d).
Proof.
  intros [Hk Hkt] Ho Hid. unfold update_lease. destruct (lease_triggers o n) eqn:E; [|apply good_none].
  apply trigger_lease_later in E. apply good_some.
  - split; [|done]. cbn. intros i r [[<- <-]|[? ?]]%lookup_insert_Some; auto.
  - split; [|intros j x Hx; exists x; by split]. cbn. intros i r Hr. destruct (decide (i = wl_lease_id o)) as [->|Hne].
    + exists n. rewrite lookup_insert_eq. split; [done|]. by simplify_eq.
    + exists r. by rewrite lookup_insert_ne.
Qed.
Lemma good_update_transfer d o n :
  keyed d -> db_transfers d !! wt_transfer_id o = Some o -> wt_transfer_id n = wt_transfer_id o ->
  good d (update_transfer o n d).
Proof.
  intros [Hk Hkt] Ho Hid. unfold update_transfer. destruct (_ && _) eqn:E; [|apply good_none].
  apply andb_true_iff in E as [E _]. apply trigger_transfer_later in E. apply good_some.
  - split; [done|]. cbn. intros i r [[<- <-]|[? ?]]%lookup_insert_Some; auto.
  - split; [intros j x Hx; exists x; by split|]. cbn. intros i r Hr. destruct (decide (i = wt_transfer_id o)) as [->|Hne].
    + exists n. rewrite lookup_insert_eq. split; [done|]. by simplify_eq.
    + exists r. by rewrite lookup_insert_ne.
Qed.
Lemma good_insert_lease d r : keyed d -> good d (insert_lease r d).
Proof.
  intros [Hk Hkt]. unfold insert_lease. case_bool_decide as Hn; [apply good_none|]. case_match; [|apply good_none].
  apply eq_None_not_Some in Hn. apply good_some.
  - split; [|done]. cbn. intros i x [[<- <-]|[? ?]]%lookup_insert_Some; auto.
  - split; [|intros j x Hx; exists x; by split]. cbn. intros i x Hx. exists x. rewrite lookup_insert_ne; [done|congruence].
Qed.
Lemma good_insert_transfer d r : keyed d -> good d (insert_transfer r d).
Proof.
  intros [Hk Hkt]. unfold insert_transfer. case_bool_decide as Hn; [apply good_none|]. case_match; [|apply good_none].
  apply eq_None_not_Some in Hn. apply good_some.
  - split; [done|]. cbn. intros i x [[<- <-]|[? ?]]%lookup_insert_Some; auto.
  - split; [intros j x Hx; exists x; by split|]. cbn. intros i x Hx. exists x. rewrite lookup_insert_ne; [done|congruence].
Qed.
(** A lease compare-and-swap, and what comes after one statement. *)
Lemma good_cas_lease d cas u : keyed d -> cas_lease_update cas d = Some (Some u) -> keyed u /\ later d u.
Proof.
  intros HK. unfold cas_lease_update. destruct (db_leases d !! cl_lease_id cas) as [r|] eqn:Hr; [|done].
  destruct (cas_lease_matches cas r); [|done]. destruct (update_lease _ _ d) as [d'|] eqn:E; [|done].
  cbn. intros [= <-]. apply (good_update_lease d r (cas_lease_row cas r)); [done| |done|exact E]. by rewrite (proj1 HK _ _ Hr).
Qed.
Lemma good_bind {A} d (o : option Db) (f : Db -> option (Db * A)) :
  good d o -> (forall d1, keyed d1 -> later d d1 -> good d1 (fst <$> f d1)) -> good d (fst <$> (o ≫= f)).
Proof.
  intros Ho Hf. destruct o as [d1|]; [|apply good_none]. destruct (Ho d1 eq_refl) as [HK HL].
  intros d' Hd'. destruct (Hf d1 HK HL d' Hd'). split; [done|]. by etrans.
Qed.

Lemma good_keep {A} d (x : A) : keyed d -> good d (fst <$> Some (d, x)).
Proof. apply good_refl. Qed.
Lemma activate_good child tc pc d : keyed d -> good d (fst <$> activate_write_scope_child child tc pc d).
Proof.
  intros HK. unfold activate_write_scope_child. case_match; [apply good_none|].
  destruct (insert_lease child d) as [d1|] eqn:E1; cbn [mbind option_bind]; [|apply good_none].
  destruct (good_insert_lease d child HK d1 E1) as [HK1 HL1].
  destruct (db_transfers d1 !! ct_transfer_id tc) as [r|] eqn:Hr; [|by apply good_keep].
  destruct (cas_transfer_matches tc r); [|by apply good_keep].
  destruct (update_transfer r _ d1) as [d2|] eqn:E2; cbn [mbind option_bind]; [|apply good_none].
  apply good_update_transfer in E2 as [HK2 HL2]; [|done|by rewrite (proj2 HK1 _ _ Hr)|done].
  destruct (cas_lease_update _ d2) as [[d3|]|] eqn:E3; cbn [mbind option_bind]; [|by apply good_keep|apply good_none].
  destruct (good_cas_lease _ _ _ HK2 E3) as [HK3 HL3].
  destruct (get_lease d3 (wl_lease_id child)); [|apply good_none]. cbn [mbind option_bind].
  destruct (get_transfer d3 _); [|apply good_none]. cbn [mbind option_bind].
  destruct (get_lease d3 (cl_lease_id pc)); [|apply good_none]. apply good_some; [done|].
  transitivity d1; [done|]. by transitivity d2.
Qed.
Lemma run_storage_good op d : keyed d -> good d (run_storage op d).
Proof.
  intros HK. destruct op as [row|cas|row|cas row|i c g p ident now|child tc pc|i ph v now|cas|row|i now|s]; cbn [run_storage].
  - apply good_bind; [by apply good_insert_lease|]. intros d1 HK1 _. destruct (get_lease _ _); [by apply good_keep|apply good_none].
  - unfold cas_write_scope_lease. do 2 (case_match; [apply good_none|]).
    destruct (cas_lease_update cas d) as [[u|]|] eqn:E; cbn; [|by apply good_refl|apply good_none].
    apply good_some; by eapply good_cas_lease.
  - apply good_bind; [by apply good_insert_transfer|]. intros d1 HK1 _. destruct (get_transfer _ _); [by apply good_keep|apply good_none].
  - unfold prepare_write_scope_transfer. do 2 (case_match; [apply good_none|]).
    destruct (cas_lease_update _ d) as [[u|]|] eqn:E; cbn [mbind option_bind]; [|by apply good_refl|apply good_none].
    destruct (good_cas_lease _ _ _ HK E) as [HKu HLu]. intros d' Hd'.
    destruct (good_bind u (insert_transfer row u) (fun d2 => lease ← get_lease d2 (cl_lease_id cas);
      transfer ← get_transfer d2 (wt_transfer_id row); Some (d2, Some (lease, transfer)))
      (good_insert_transfer u row HKu)) with (d' := d') as [HKd HLd]; [|exact Hd'|split; [done|by etrans]].
    intros d1 HK1 _. destruct (get_lease _ _); [|apply good_none]. cbn. destruct (get_transfer _ _); [by apply good_keep|apply good_none].
  - unfold attach_write_scope_transfer_ownership. destruct (db_transfers d !! i) as [r|] eqn:Hr; [|by apply good_keep].
    case_bool_decide; [|by apply good_keep]. apply good_bind.
    + apply good_update_transfer; [done| |done]. by rewrite (proj2 HK _ _ Hr).
    + intros d1 HK1 _. by apply good_keep.
  - by apply activate_good.
  - unfold abandon_write_scope_transfer. destruct (db_transfers d !! i) as [r|] eqn:Hr; [|by apply good_keep].
    case_match; [|by apply good_keep]. apply good_bind.
    + apply good_update_transfer; [done| |done]. by rewrite (proj2 HK _ _ Hr).
    + intros d1 HK1 _. by apply good_keep.
  - unfold cas_write_scope_transfer_phase. destruct (transfer_phase_ordinal (ct_expected_phase cas)); [|apply good_none].
    cbn [mbind option_bind]. destruct (transfer_phase_ordinal (ct_new_phase cas)); [|apply good_none]. cbn [mbind option_bind]. case_match; [apply good_none|].
    unfold get_transfer. destruct (db_transfers d !! ct_transfer_id cas) as [r|] eqn:Hr; [|by apply good_keep].
    case_match; [by apply good_keep|]. apply good_bind.
    + apply good_update_transfer; [done| |done]. by rewrite (proj2 HK _ _ Hr).
    + intros d1 HK1 _. by apply good_keep.
  - unfold insert_write_scope_permit. case_match; [apply good_none|]. case_match; [by apply good_other|apply good_none].
  - unfold release_write_scope_permit. destruct (db_permits d !! i); [|by apply good_keep].
    case_match; [by apply good_other|by apply good_keep].
  - unfold mark_session_deleting. destruct (db_sessions d !! s) as [[]|]; [by apply good_other|by apply good_keep..].
Qed.
Lemma storage_steps_good d d' : keyed d -> rtc storage_step d d' -> keyed d' /\ later d d'.
Proof.
  intros HK Hs. revert HK. induction Hs as [d|d d1 d2 [op Hop] _ IH]; intros HK; [done|].
  destruct (run_storage_good op d HK d1 Hop) as [HK1 HL1]. destruct (IH HK1). split; [done|]. by etrans.
Qed.

(** whoever calls the storage operations and in whatever order, a lease's generation
    never goes back, a released lease stays released, a transfer's phase never goes back, a
    recorded child is never replaced, and no scope ever changes. *)
Theorem storage_only_moves_forward d d' i r j t :
  keyed d -> rtc storage_step d d' -> db_leases d !! i = Some r -> db_transfers d !! j = Some t ->
  exists r' t', db_leases d' !! i = Some r' /\ db_transfers d' !! j = Some t' /\
    wl_generation r <= wl_generation r' /\ (wl_state r = LsReleased -> wl_state r' = LsReleased) /\
    wl_scope_path r' = wl_scope_path r /\ phase_ordinal (wt_phase t) <= phase_ordinal (wt_phase t') /\
    (forall c, wt_child_lease_id t = Some c -> wt_child_lease_id t' = Some c) /\
    wt_sub_scope_path t' = wt_sub_scope_path t.
Proof.
  intros HK Hs Hr Ht. destruct (storage_steps_good d d' HK Hs) as [_ [Hl Htr]].
  destruct (Hl i r Hr) as (r' & Hr' & [? ? ?]). destruct (Htr j t Ht) as (t' & Ht' & [? ? ?]).
  exists r', t'. auto 10.
Qed.

(** A parent delegating and its transfer, about to go child-terminal. *)
Definition st_parent : WriteScopeLeaseRow := mkLeaseRow 1 None 7 None [] 2 LsDelegated [] 3 0 0 None.
Definition st_child : WriteScopeLeaseRow := mkLeaseRow 2 (Some 1) 7 None [[97]] 3 LsActive [] 1 0 0 None.
Definition st_transfer : WriteScopeTransferRow :=
  mkTransferRow 5 7 1 (Some 2) [[97]] ChildActivated 1 2 (Some 3) None "cow" CapProven (Some 9) (Some 1) (Some 4)
    (Some 6) None 3 0 0.
Definition st_db : Db := mkDb {[1 := st_parent; 2 := st_child]} {[5 := st_transfer]} ∅ {[7 := SlActive]}.
Definition st_cas : StorageOp :=
  StCasTransfer (mkCasTransfer 5 ChildActivated 3 ChildTerminal 10 None None None None None None None None None).
Lemma storage_only_moves_forward_witness : exists d',
  run_storage st_cas st_db = Some d' /\
  exists r' t', db_leases d' !! 1 = Some r' /\ db_transfers d' !! 5 = Some t' /\
    wl_generation st_parent <= wl_generation r' /\ phase_ordinal (wt_phase st_transfer) <= phase_ordinal (wt_phase t').
Proof.
  eexists. split; [vm_compute; reflexivity|].
  match goal with |- exists r' t', db_leases ?d' !! _ = _ /\ _ =>
    destruct (storage_only_moves_forward st_db d' 1 st_parent 5 st_transfer) as (r' & t' & Hr & Ht & Hg & _ & _ & Hp & _) end.
  - split; intros i r Hr; cbn in Hr.
    + apply lookup_insert_Some in Hr as [[<- <-]|[_ Hr]]; [reflexivity|].
      apply lookup_singleton_Some in Hr as [<- <-]. reflexivity.
    + apply lookup_singleton_Some in Hr as [<- <-]. reflexivity.
  - apply rtc_once. exists st_cas. vm_compute. reflexivity.
  - reflexivity.
  - reflexivity.
  - exists r', t'. repeat (split; [assumption|]). assumption.
Defined.

(** ** The state machines, written three times *)

(** the coordinator's transition function, the storage layer's table and the SQL
    trigger admit the same lease transitions, the two phase orders agree, [next] is the
    adjacent phase, and the stored texts parse back to their state and phase. *)
Theorem state_machines_agree :
  (forall s s', can_transition_to s s' = is_legal_lease_transition s s' /\
     (s <> s' -> forall r, leases_legal_transition
        (mkLeaseRow 0 None 0 None [] 0 s [] 0 0 0 None) (mkLeaseRow 0 None 0 None [] 0 s' [] r 0 0 None) =
        can_transition_to s s')) /\
  (forall p, transfer_phase_ordinal p = Some (phase_ordinal p)) /\
  (forall p q, phase_next p = Some q <-> phase_ordinal q = phase_ordinal p + 1) /\
  (forall s, lease_state_parse (lease_state_as_str s) = Some s) /\
  (forall p, phase_parse (phase_as_str p) = Some p).
Proof.
  split; [|split; [|split; [|split]]].
  - intros s s'. split; [by destruct s, s'|]. intros Hne r. by destruct s, s'.
  - by intros [].
  - intros p q. split; destruct p, q; cbn; intros; (congruence || lia).
  - by intros [].
  - by intros [].
Qed.
