(* ===== verification/WriteScope.v ===== *)
(** Hierarchical write-scope authority ([cockpit-core/src/write_scope/]): canonical scopes
    and effective authority ([scope.rs]), permit footprints ([permits.rs]), the filesystem
    backend and the containment barrier as interfaces ([backend.rs], [containment.rs]),
    and the coordinator with its transfer barrier, return barrier and recovery
    ([coordinator.rs]).

    The coordinator's methods are computations over a [World]: the tables, the tokens it
    has issued, the events and barrier calls it has made.  Every database access and
    every call of an interface takes a tick, and the interfaces answer as functions of
    the tick, so their answers may change from call to call.  [host_fault] says what
    happens at each tick: nothing, the database access fails, or the process dies there.
    Dying is [Panic]; the tables keep what was written up to that point.

    Methods that hold the [serial] lock for their whole body are one computation.  The
    rendered text of an error is left out; reasons that interfaces give are kept. *)

From S2P Require Import Prelude.
From S2P Require Import WriteScopeDb.
From stdpp Require Import options.
Set Warnings "-clear-no-such-hyp".

(** ** Errors *)

(** Why scoped writes are unsupported: a backend's or the containment's own reason, the
    missing clauses of an attestation, or the absence of an inode identity. *)
Inductive UnsupportedReason :=
| Because (reason : string)
| AttestationIncomplete (missing : list string)
| IdentityUnbound
| IdentityUnrecorded.

(** write_scope/types.rs:247-355 WriteScopeError. *)
Inductive WriteScopeError :=
| ScopedWritesUnsupported (reason : UnsupportedReason)
| InvalidScope (requested : Path)
| ScopeEscapesWorkspace (resolved workspace_root : Path)
| NotStrictSubscope (candidate base : Path)
| IntersectsDelegatedExclusion (candidate exclusion : Path)
| TransferRaceLost (scope : Path)
| StaleGeneration (lease_id token_generation current_generation : Z)
| DeniedInsideDelegatedSubscope (path exclusion : Path)
| OutsideScope (path scope : Path)
| EffectivePathChanged (path : Path)
| IllegalTransition (from to : LeaseState)
| IllegalPhaseAdvance (from to : TransferPhase)
| LeaseNotFound (lease_id : Z)
| TransferNotFound (transfer_id : Z)
| ContainmentNotProvenEmpty (transfer_id : Z) (reason : string)
| PermitsNotDrained (count : Z)
| ConflictingMutationPermits (count : Z) (path : Path)
| DescendantStillDelegated (transfer_id count : Z)
| ContainmentGenerationMismatch (expected got : Z)
| PublicationConflict (reason : string)
| WsSessionDeleting
| WsShutdownIntakeClosed
| RecoveryMismatch (subject : string)
| WsInternal.

(** ** Scopes *)

(** The order of [PathBuf]: components, each by its text. *)
Fixpoint lex_leb {A} (leb : A -> A -> bool) (l k : list A) : bool :=
  match l, k with
  | [], _ => true
  | _ :: _, [] => false
  | x :: l, y :: k => if leb x y then if leb y x then lex_leb leb l k else true else false
  end.
Definition path_leb : Path -> Path -> bool := lex_leb (lex_leb Z.leb).
Fixpoint dedup (l : list Path) : list Path :=
  match l with
  | a :: ((b :: _) as l') => if bool_decide (a = b) then dedup l' else a :: dedup l'
  | _ => l
  end.

(** write_scope/scope.rs:20-21 CanonicalScope. *)
Definition CanonicalScope : Type := Path.
(** write_scope/scope.rs:108-110 CanonicalScope::is_strict_subscope_of. *)
Definition is_strict_subscope_of (s other : CanonicalScope) : bool :=
  negb (bool_decide (s = other)) && path_contains other s.
(** write_scope/scope.rs:114-116 CanonicalScope::is_disjoint_from. *)
Definition is_disjoint_from (s other : CanonicalScope) : bool :=
  negb (path_contains s other) && negb (path_contains other s).

(** Unicode [White_Space], as [str::trim] strips it. *)
Definition is_white_space (c : Z) : bool :=
  ((9 <=? c) && (c <=? 13)) || ((8192 <=? c) && (c <=? 8202)) ||
  bool_decide (c ∈ [32; 133; 160; 5760; 8232; 8233; 8239; 8287; 12288]).
Fixpoint trim_start (l : bytes) : bytes :=
  match l with c :: l' => if is_white_space c then trim_start l' else l | [] => [] end.
Definition trim (l : bytes) : bytes := reverse (trim_start (reverse (trim_start l))).
(** The components of a textual path: split at slashes, without empty and current-directory ones. *)
Fixpoint split_slash (acc l : bytes) : list bytes :=
  match l with
  | [] => [reverse acc]
  | c :: l => if c =? 47 then reverse acc :: split_slash [] l else split_slash (c :: acc) l
  end.
Definition path_components (text : bytes) : Path :=
  filter (fun c => c <> [] /\ c <> [46]) (split_slash [] text).
(** write_scope/scope.rs:31-66 CanonicalScope::resolve_under. [effective_path] resolves a path on the
    host's filesystem. *)
Definition resolve_under (effective_path : Path -> option Path) (workspace_root : Path) (requested : bytes)
    : result WriteScopeError CanonicalScope :=
  let trimmed := trim requested in
  if bool_decide (trimmed = []) then Err (InvalidScope [requested]) else
  root ← ok_or (effective_path workspace_root) (InvalidScope [requested]);
  let joined := if bool_decide (head trimmed = Some 47) then path_components trimmed
                else root ++ path_components trimmed in
  resolved ← ok_or (effective_path joined) (InvalidScope [requested]);
  if negb (path_contains root resolved) then Err (ScopeEscapesWorkspace resolved root)
  else Ok resolved.

(** write_scope/scope.rs:131-135 EffectiveAuthority. *)
Record EffectiveAuthority := mkAuthority { ea_base : CanonicalScope; ea_exclusions : list CanonicalScope }.
(** write_scope/scope.rs:138-142 EffectiveAuthority::new. *)
Definition authority_new (base : CanonicalScope) (exclusions : list CanonicalScope) : EffectiveAuthority :=
  mkAuthority base (dedup (merge_sort path_leb exclusions)).
(** write_scope/scope.rs:154-162 EffectiveAuthority::allows_path. *)
Definition allows_path (a : EffectiveAuthority) (path : Path) : bool :=
  if negb (path_contains (ea_base a) path) then false
  else negb (existsb (fun excluded => path_contains excluded path) (ea_exclusions a)).
(** write_scope/scope.rs:170-186 EffectiveAuthority::admits_subscope. *)
Definition admits_subscope (a : EffectiveAuthority) (candidate : CanonicalScope) : result WriteScopeError unit :=
  if negb (is_strict_subscope_of candidate (ea_base a)) then Err (NotStrictSubscope candidate (ea_base a)) else
  match List.find (fun excluded => negb (is_disjoint_from candidate excluded)) (ea_exclusions a) with
  | Some excluded => Err (IntersectsDelegatedExclusion candidate excluded)
  | None => Ok tt
  end.
(** write_scope/scope.rs:189-193 EffectiveAuthority::with_exclusion. *)
Definition with_exclusion (a : EffectiveAuthority) (scope : CanonicalScope) : EffectiveAuthority :=
  authority_new (ea_base a) (ea_exclusions a ++ [scope]).
(** write_scope/scope.rs:196-204 EffectiveAuthority::without_exclusion. *)
Definition without_exclusion (a : EffectiveAuthority) (scope : CanonicalScope) : EffectiveAuthority :=
  authority_new (ea_base a) (filter (fun e => e <> scope) (ea_exclusions a)).

(** ** Permit footprints *)

(** write_scope/permits.rs:80-83 influence_root. *)
Definition influence_root (target : Path) (kind : MutationKind) : Path := target.
(** write_scope/permits.rs:86-91 PermitFootprint. *)
Record PermitFootprint := mkFootprint { fp_influence_root : Path; fp_target : Path; fp_kind : MutationKind }.
(** write_scope/permits.rs:94-101 PermitFootprint::for_mutation. *)
Definition for_mutation (target : Path) (kind : MutationKind) : PermitFootprint :=
  mkFootprint (influence_root target kind) target kind.
(** write_scope/permits.rs:110-120 PermitFootprint::for_execution. *)
Definition for_execution (effective_write_root reachable_ancestor : Path) : PermitFootprint :=
  mkFootprint reachable_ancestor effective_write_root MkRename.
(** write_scope/permits.rs:123-126 PermitFootprint::overlaps. *)
Definition overlaps (a b : PermitFootprint) : bool :=
  path_contains (fp_influence_root a) (fp_influence_root b) ||
  path_contains (fp_influence_root b) (fp_influence_root a).
(** write_scope/permits.rs:134-142 PermitFootprint::conflicts_with. *)
Definition conflicts_with (a b : PermitFootprint) : bool :=
  if negb (overlaps a b) then false else
  if influences_namespace (fp_kind a) || influences_namespace (fp_kind b) then true else
  bool_decide (fp_target a = fp_target b).
(** write_scope/permits.rs:146-148 PermitFootprint::overlaps_scope. *)
Definition overlaps_scope (a : PermitFootprint) (scope : Path) : bool :=
  path_contains (fp_influence_root a) scope || path_contains scope (fp_influence_root a).

(** ** The filesystem backend *)

(** write_scope/backend.rs:35-43 ExecutionMode. *)
Inductive ExecutionMode := EmNative | EmZerobox | EmDocker | EmPodman.
(** write_scope/backend.rs:64-81 ProvenScopedWriteAttestation. *)
Record ProvenScopedWriteAttestation := mkAttestation {
  private_inode_view : bool; backing_tree_unreachable : bool; other_uppers_unreachable : bool;
  cross_owner_hard_link_denied : bool; broker_only_replace_publication : bool; crash_cleanup : bool }.
(** write_scope/backend.rs:85-94 ProvenScopedWriteAttestation::complete. *)
Definition attestation_complete : ProvenScopedWriteAttestation := mkAttestation true true true true true true.
(** write_scope/backend.rs:97-104 ProvenScopedWriteAttestation::is_complete. *)
Definition is_complete (a : ProvenScopedWriteAttestation) : bool :=
  private_inode_view a && backing_tree_unreachable a && other_uppers_unreachable a &&
  cross_owner_hard_link_denied a && broker_only_replace_publication a && crash_cleanup a.
(** write_scope/backend.rs:107-128 ProvenScopedWriteAttestation::missing_clauses. *)
Definition missing_clauses (a : ProvenScopedWriteAttestation) : list string :=
  (if negb (private_inode_view a) then ["private_inode_view"%string] else []) ++
  (if negb (backing_tree_unreachable a) then ["backing_tree_unreachable"%string] else []) ++
  (if negb (other_uppers_unreachable a) then ["other_uppers_unreachable"%string] else []) ++
  (if negb (cross_owner_hard_link_denied a) then ["cross_owner_hard_link_denied"%string] else []) ++
  (if negb (broker_only_replace_publication a) then ["broker_only_replace_publication"%string] else []) ++
  (if negb (crash_cleanup a) then ["crash_cleanup"%string] else []).
(** write_scope/backend.rs:132-136 ScopedWriteCapability. *)
Inductive ScopedWriteCapability :=
| CapabilityProven (attestation : ProvenScopedWriteAttestation)
| CapabilityUnsupported (reason : string).
(** write_scope/backend.rs:139-141 ScopedWriteCapability::is_proven. *)
Definition is_proven (c : ScopedWriteCapability) : bool :=
  match c with CapabilityProven a => is_complete a | CapabilityUnsupported _ => false end.
(** write_scope/backend.rs:156-162 PublishRequest. *)
Record PublishRequest := mkPublish { pr_scope : CanonicalScope; pr_expected_target_identity : option Z }.
(** write_scope/backend.rs:165-174 PublishOutcome. *)
Inductive PublishOutcome := Published (identity : Z) | PublishConflict (reason : string) | PublishUnsupported (reason : string).
(** write_scope/backend.rs:178-204 ScopedWriteBackend. *)
Class ScopedWriteBackend := {
  bk_kind : string;
  capability_for : nat -> CanonicalScope -> ExecutionMode -> ScopedWriteCapability;
  target_identity : nat -> CanonicalScope -> option Z;
  bk_publish : nat -> PublishRequest -> PublishOutcome }.

(** write_scope/backend.rs:209-214 DIRECT_WORKSPACE_UNSUPPORTED_REASON. *)
Definition DIRECT_WORKSPACE_UNSUPPORTED_REASON : string :=
  ("the direct workspace shares inode identity across owners: an arbitrary child process " +:+
   "can create or open a hard link (link/linkat/CreateHardLinkW) to a file inside another " +:+
   "owner's write scope, or race another same-user process, without passing through any " +:+
   "Cockpit check. Descriptor walks, nlink preflights, shell filters, and pre-syscall " +:+
   "rechecks are defense-in-depth only and cannot mediate arbitrary child syscalls. " +:+
   "Strict writable delegation requires a Proven MediatedCowWorkspace backend, which is " +:+
   "not available")%string.
(** write_scope/backend.rs:224-252 DirectWorkspaceBackend. *)
Definition DirectWorkspaceBackend : ScopedWriteBackend := {|
  bk_kind := "direct_workspace";
  capability_for := fun _ _ _ => CapabilityUnsupported DIRECT_WORKSPACE_UNSUPPORTED_REASON;
  target_identity := fun _ _ => None;
  bk_publish := fun _ _ => PublishUnsupported DIRECT_WORKSPACE_UNSUPPORTED_REASON |}.

(** ** The containment barrier *)

(** write_scope/coordinator.rs:63-65 write_scope_containment_operation_id. The text is a fixed prefix
    and the transfer id, so it is represented by the id. *)
Definition write_scope_containment_operation_id (transfer_id : Z) : Z := transfer_id.
(** write_scope/coordinator.rs:85-89 OwnershipReserved. *)
Record OwnershipReserved := mkReserved { or_transfer_id : Z; or_session_id : Z }.
(** write_scope/coordinator.rs:95-100 OwnershipReserved::from_prepared. *)
Definition from_prepared (row : WriteScopeTransferRow) : OwnershipReserved :=
  mkReserved (wt_transfer_id row) (wt_session_id row).
(** write_scope/coordinator.rs:134-139 OwnershipRecorded. *)
Record OwnershipRecorded := mkRecorded {
  oc_transfer_id : Z; oc_containment_id : Z; oc_containment_generation : Z }.
(** write_scope/coordinator.rs:149-174 OwnershipRecorded::from_reserved_and_persisted. *)
Definition from_reserved_and_persisted (reserved : OwnershipReserved) (row : WriteScopeTransferRow)
    : result WriteScopeError OwnershipRecorded :=
  if negb (or_transfer_id reserved =? wt_transfer_id row) then Err WsInternal else
  match wt_containment_id row, wt_containment_generation row with
  | Some containment_id, Some generation => Ok (mkRecorded (wt_transfer_id row) containment_id generation)
  | _, _ => Err WsInternal
  end.
(** write_scope/containment.rs:23-38 ExecutionLaunch. *)
Inductive ExecutionLaunch :=
| LaunchNative (program : Path) (args : list bytes) (cwd : Path)
| LaunchContainer (image : bytes) (command : list bytes) (installation_id nonce : bytes).
(** write_scope/containment.rs:66-70 ContainmentTicket. *)
Record ContainmentTicket := mkTicket { tk_containment_id : Z; tk_generation : Z }.
(** write_scope/containment.rs:73-82 ProvenEmptyOutcome. *)
Inductive ProvenEmptyOutcome :=
| ProvenEmpty (generation : Z)
| EmptyUncertain (generation : Z) (reason : string)
| EmptyUnsupported (reason : string).
(** write_scope/containment.rs:91-135 ContainmentBarrier. [cb_nonempty] is the containments table
    the barrier keeps, read with
    [list_nonempty_execution_containments_for_operation]. *)
Class ContainmentBarrier := {
  cb_create : nat -> OwnershipReserved -> ExecutionMode -> ExecutionLaunch ->
    WriteScopeError + ContainmentTicket;
  cb_prove_membership_and_release_user_code : nat -> OwnershipRecorded -> WriteScopeError + unit;
  cb_await_proven_empty : nat -> ContainmentTicket -> ProvenEmptyOutcome;
  cb_terminate : nat -> ContainmentTicket -> WriteScopeError + unit;
  cb_nonempty : nat -> Z -> list Z }.

(** ** The world *)

(** write_scope/types.rs:183-190 WriteScopeToken. [ws_core] is the location of the shared liveness flag. *)
Record WriteScopeToken := mkToken {
  ws_lease_id : Z; ws_session_id : Z; ws_generation : Z; ws_scope : CanonicalScope; ws_core : nat }.
(** write_scope/events.rs:11-44 WriteScopeEvent. *)
Inductive WriteScopeEvent :=
| EvLeaseOpened (lease_id generation : Z)
| EvTransferPrepared (transfer_id parent_lease_id : Z)
| EvParentExcluded (transfer_id parent_generation : Z)
| EvChildActivated (transfer_id child_lease_id child_generation : Z)
| EvChildTerminal (transfer_id : Z)
| EvParentRestored (transfer_id parent_generation : Z)
| EvTransferCommitted (transfer_id : Z)
| EvTransferUnwound (parent_lease_id : Z).
(** What the coordinator asked of the barrier, with the answer. *)
Inductive BarrierCall :=
| CallCreate (reserved : OwnershipReserved) (ticket : option ContainmentTicket)
| CallRelease (recorded : OwnershipRecorded) (released : bool)
| CallAwait (ticket : ContainmentTicket) (answer : ProvenEmptyOutcome)
| CallTerminate (ticket : ContainmentTicket).

(** The host: faults, the clock, random identifiers, path resolution. *)
Inductive Fault := Fine | Fails | Dies.
Class Host := {
  host_fault : nat -> Fault;
  host_clock : nat -> Z;
  host_uuid : nat -> Z;
  host_effective_path : nat -> Path -> option Path }.

(** write_scope/coordinator.rs:293-306 WriteScopeCoordinator. The database with the coordinator's own
    state: issued tokens and their flags, shutdown; and the logs of its effects. *)
Record World := mkWorld {
  w_db : Db;
  w_tokens : gmap Z (list (Z * nat));
  w_cores : list bool;
  w_shutting_down : bool;
  w_events : list WriteScopeEvent;
  w_calls : list BarrierCall;
  w_tick : nat }.
Definition set_db (d : Db) (w : World) : World :=
  mkWorld d (w_tokens w) (w_cores w) (w_shutting_down w) (w_events w) (w_calls w) (w_tick w).
Definition set_tokens (t : gmap Z (list (Z * nat))) (c : list bool) (w : World) : World :=
  mkWorld (w_db w) t c (w_shutting_down w) (w_events w) (w_calls w) (w_tick w).
Definition set_shutting_down (b : bool) (w : World) : World :=
  mkWorld (w_db w) (w_tokens w) (w_cores w) b (w_events w) (w_calls w) (w_tick w).
Definition log_event (e : WriteScopeEvent) (w : World) : World :=
  mkWorld (w_db w) (w_tokens w) (w_cores w) (w_shutting_down w) (w_events w ++ [e]) (w_calls w) (w_tick w).
Definition log_call (c : BarrierCall) (w : World) : World :=
  mkWorld (w_db w) (w_tokens w) (w_cores w) (w_shutting_down w) (w_events w) (w_calls w ++ [c]) (w_tick w).
Definition next_tick (w : World) : World :=
  mkWorld (w_db w) (w_tokens w) (w_cores w) (w_shutting_down w) (w_events w) (w_calls w) (S (w_tick w)).

(** Computations: the state survives an error and a death. *)
Definition WS (A : Type) : Type := World -> World * result WriteScopeError A.
#[export] Instance WS_ret : MRet WS := fun A a w => (w, Ok a).
#[export] Instance WS_bind : MBind WS := fun A B f m w =>
  match m w with
  | (w', Ok a) => f a w'
  | (w', Err e) => (w', Err e)
  | (w', Panic) => (w', Panic)
  end.
Definition throw {A} (e : WriteScopeError) : WS A := fun w => (w, Err e).
Definition of_result {A} (r : result WriteScopeError A) : WS A := fun w => (w, r).
Definition asks {A} (f : World -> A) : WS A := fun w => (w, Ok (f w)).
Definition modifies (f : World -> World) : WS unit := fun w => (f w, Ok tt).
(** A [Result] kept as a value, and [let _ = ...]. *)
Definition attempt {A} (m : WS A) : WS (result WriteScopeError A) := fun w =>
  match m w with (w', Panic) => (w', Panic) | (w', r) => (w', Ok r) end.
Definition ignoring {A} (m : WS A) : WS unit := attempt m ≫= fun _ => mret tt.
Definition emit (e : WriteScopeEvent) : WS unit := modifies (log_event e).

Section coordinator.
Context `{Host} `{ScopedWriteBackend} `{ContainmentBarrier}.

(** One tick, at which the process may die. *)
Definition tick : WS nat := fun w =>
  (next_tick w, match host_fault (w_tick w) with Dies => Panic | _ => Ok (w_tick w) end).
(** A database access, its failure mapped to [WriteScopeError::Internal]. *)
Definition db {A} (op : DbOp A) : WS A :=
  n ← tick;
  match host_fault n with
  | Fine => fun w => match op (w_db w) with Some (d, a) => (set_db d w, Ok a) | None => (w, Err WsInternal) end
  | _ => throw WsInternal
  end.
Definition lift_sum {A} (r : WriteScopeError + A) : WS A :=
  match r with inl e => throw e | inr a => mret a end.
Definition uuid : WS Z := asks (fun w => host_uuid (w_tick w)).
(** write_scope/coordinator.rs:337-339 WriteScopeCoordinator::now. *)
Definition now : WS Z := asks (fun w => host_clock (w_tick w)).
Definition effective_path (target : Path) : WS (option Path) := n ← tick; mret (host_effective_path n target).

(** ** Tokens *)

Definition invalidate (cores : list nat) (flags : list bool) : list bool :=
  foldr (fun i fl => <[i := false]> fl) flags cores.
Definition older_cores (generation : Z) (entry : list (Z * nat)) : list nat :=
  snd <$> filter (fun e => e.1 < generation) entry.

(** write_scope/coordinator.rs:341-361 WriteScopeCoordinator::issue_token. *)
Definition issue_token (row : WriteScopeLeaseRow) : WS WriteScopeToken := fun w =>
  let core := length (w_cores w) in
  let flags := w_cores w ++ [true] in
  let entry := default [] (w_tokens w !! wl_lease_id row) in
  let flags := invalidate (older_cores (wl_generation row) entry) flags in
  (set_tokens (<[wl_lease_id row := entry ++ [(wl_generation row, core)]]> (w_tokens w)) flags w,
   Ok (mkToken (wl_lease_id row) (wl_session_id row) (wl_generation row) (wl_scope_path row) core)).
(** write_scope/coordinator.rs:365-373 WriteScopeCoordinator::invalidate_all_tokens. *)
Definition invalidate_all_tokens (lease_id : Z) : WS unit := modifies (fun w =>
  set_tokens (w_tokens w) (invalidate (snd <$> default [] (w_tokens w !! lease_id)) (w_cores w)) w).
(** write_scope/coordinator.rs:794-804 WriteScopeCoordinator::invalidate_older_tokens. *)
Definition invalidate_older_tokens (row : WriteScopeLeaseRow) : WS unit := modifies (fun w =>
  set_tokens (w_tokens w)
    (invalidate (older_cores (wl_generation row) (default [] (w_tokens w !! wl_lease_id row))) (w_cores w)) w).
(** write_scope/types.rs:230-232 WriteScopeToken::is_valid. *)
Definition token_is_valid (w : World) (token : WriteScopeToken) : bool :=
  default false (w_cores w !! ws_core token).

(** write_scope/coordinator.rs:375-381 WriteScopeCoordinator::lease. *)
Definition lease (lease_id : Z) : WS WriteScopeLeaseRow :=
  r ← db (get_write_scope_lease lease_id); of_result (ok_or r (LeaseNotFound lease_id)).
(** write_scope/coordinator.rs:383-389 WriteScopeCoordinator::transfer. *)
Definition transfer (transfer_id : Z) : WS WriteScopeTransferRow :=
  r ← db (get_write_scope_transfer transfer_id); of_result (ok_or r (TransferNotFound transfer_id)).

(** ** Root leases *)

(** write_scope/coordinator.rs:404-435 WriteScopeCoordinator::open_root_lease_locked. *)
Definition open_root_lease_locked (session_id : Z) (owner_id : bytes) (scope : CanonicalScope)
    : WS WriteScopeToken :=
  time ← now; id ← uuid;
  row ← db (insert_write_scope_lease
    (mkLeaseRow id None session_id None scope 1 LsActive owner_id 1 time time None));
  emit (EvLeaseOpened (wl_lease_id row) (wl_generation row)) ;;
  issue_token row.
(** write_scope/coordinator.rs:392-400 WriteScopeCoordinator::open_root_lease. *)
Definition open_root_lease := open_root_lease_locked.
(** write_scope/coordinator.rs:441-454 WriteScopeCoordinator::session_root_lease. *)
Definition session_root_lease (session_id : Z) : WS (option Z) :=
  leases ← db (list_write_scope_leases_for_session session_id);
  mret (wl_lease_id <$> List.find (fun l => bool_decide (wl_parent_lease_id l = None)
                              && negb (bool_decide (wl_state l = LsReleased))) leases).
(** write_scope/coordinator.rs:458-472 WriteScopeCoordinator::ensure_session_root_lease. *)
Definition ensure_session_root_lease (session_id : Z) (owner_id : bytes) (scope : CanonicalScope) : WS Z :=
  existing ← session_root_lease session_id;
  match existing with
  | Some id => mret id
  | None => token ← open_root_lease_locked session_id owner_id scope; mret (ws_lease_id token)
  end.

(** write_scope/coordinator.rs:479-502 WriteScopeCoordinator::effective_authority. *)
Definition effective_authority (lease_id : Z) : WS EffectiveAuthority :=
  l ← lease lease_id;
  transfers ← db (list_write_scope_transfers_for_parent lease_id);
  mret (authority_new (wl_scope_path l)
    (wt_sub_scope_path <$> filter (fun t => parent_denied_in_subscope (wt_phase t) = true) transfers)).
(** write_scope/coordinator.rs:506-516 WriteScopeCoordinator::validate_token. *)
Definition validate_token (token : WriteScopeToken) : WS unit :=
  l ← lease (ws_lease_id token);
  valid ← asks (fun w => token_is_valid w token);
  if negb valid || negb (wl_generation l =? ws_generation token)
  then throw (StaleGeneration (ws_lease_id token) (ws_generation token) (wl_generation l)) else mret tt.

(** ** Mutation permits *)

(** write_scope/coordinator.rs:239-247 MutationPermit. *)
Record MutationPermit := mkMutationPermit {
  mp_permit_id : Z; mp_requested : Path; mp_effective_target : Path; mp_footprint : PermitFootprint }.

(** The held mutation permits that conflict with a footprint. *)
Definition conflicting (footprint : PermitFootprint) (held : list WriteScopePermitRow) : list WriteScopePermitRow :=
  filter (fun p => conflicts_with footprint (for_mutation (wp_target_path p) (wp_influence_kind p)) = true)
    (filter (fun p => wp_kind p = PkMutation) held).

(** write_scope/coordinator.rs:526-642 WriteScopeCoordinator::acquire_mutation_permit. *)
Definition acquire_mutation_permit (token : WriteScopeToken) (target : Path) (kind : MutationKind)
    : WS MutationPermit :=
  validate_token token ;;
  authority ← effective_authority (ws_lease_id token);
  resolved ← effective_path target;
  effective ← of_result (ok_or resolved (EffectivePathChanged target));
  let footprint := for_mutation effective kind in
  if negb (path_contains (ea_base authority) effective)
  then throw (OutsideScope effective (ea_base authority)) else
  match List.find (fun e => path_contains e effective) (ea_exclusions authority) with
  | Some excluded => throw (DeniedInsideDelegatedSubscope effective excluded)
  | None =>
      held ← db (list_held_write_scope_permits (Some (ws_session_id token)));
      let conflicts := zlen (conflicting footprint held) in
      if 0 <? conflicts then throw (ConflictingMutationPermits conflicts effective) else
      time ← now; id ← uuid;
      row ← db (insert_write_scope_permit
        (mkPermitRow id (ws_session_id token) (ws_lease_id token) (ws_generation token) PkMutation kind
          (fp_influence_root footprint) effective PsHeld None time None));
      again ← effective_path target;
      revalidated ← of_result (ok_or again (EffectivePathChanged target));
      if negb (bool_decide (revalidated = effective)) then
        (time' ← now; ignoring (db (release_write_scope_permit (wp_permit_id row) time'))) ;;
        throw (EffectivePathChanged target)
      else mret (mkMutationPermit (wp_permit_id row) target revalidated footprint)
  end.

(** write_scope/coordinator.rs:651-677 WriteScopeCoordinator::revalidate_mutation_permit. *)
Definition revalidate_mutation_permit (token : WriteScopeToken) (permit : MutationPermit) : WS unit :=
  validate_token token ;;
  resolved ← effective_path (mp_requested permit);
  current ← of_result (ok_or resolved (EffectivePathChanged (mp_requested permit)));
  if negb (bool_decide (current = mp_effective_target permit))
  then throw (EffectivePathChanged (mp_requested permit)) else
  authority ← effective_authority (ws_lease_id token);
  if negb (allows_path authority current) then throw (OutsideScope current (ea_base authority)) else mret tt.

(** write_scope/coordinator.rs:680-689 WriteScopeCoordinator::release_mutation_permit. *)
Definition release_mutation_permit (permit : MutationPermit) : WS unit :=
  time ← now; db (release_write_scope_permit (mp_permit_id permit) time) ;; mret tt.

(** ** Compare-and-swap helpers *)

(** write_scope/coordinator.rs:1988-1999 CasPatch. *)
Record CasPatch := mkPatch {
  cp_child_lease_id : option Z; cp_parent_generation : option Z; cp_child_generation : option Z;
  cp_restored_parent_generation : option Z; cp_containment_id : option Z; cp_containment_generation : option Z;
  cp_publication_identity : option (option Z); cp_execution_permit_id : option Z;
  cp_recovery_phase : option (option RecoveryPhase) }.
Definition no_patch : CasPatch := mkPatch None None None None None None None None None.
Definition reconciled_patch : CasPatch :=
  mkPatch None None None None None None None None (Some (Some RpReconciled)).

(** write_scope/coordinator.rs:1504-1549 WriteScopeCoordinator::cas_lease. *)
Definition cas_lease (current : WriteScopeLeaseRow) (next : LeaseState) (new_generation : Z) (released : bool)
    : WS (option WriteScopeLeaseRow) :=
  if negb (can_transition_to (wl_state current) next) then throw (IllegalTransition (wl_state current) next) else
  time ← now;
  row ← db (cas_write_scope_lease (mkCasLease (wl_lease_id current) (wl_state current) (wl_generation current)
               (wl_version current) next new_generation time released));
  match row with
  | Some r => if wl_generation current <? wl_generation r then invalidate_older_tokens r else mret tt
  | None => mret tt
  end ;;
  mret row.
(** write_scope/coordinator.rs:1551-1586 WriteScopeCoordinator::cas_transfer. *)
Definition cas_transfer (current : WriteScopeTransferRow) (next : TransferPhase) (patch : CasPatch)
    : WS WriteScopeTransferRow :=
  if negb (bool_decide (phase_next (wt_phase current) = Some next))
  then throw (IllegalPhaseAdvance (wt_phase current) next) else
  time ← now;
  r ← db (cas_write_scope_transfer_phase (mkCasTransfer (wt_transfer_id current) (wt_phase current)
            (wt_version current) next time (cp_child_lease_id patch) (cp_parent_generation patch)
            (cp_child_generation patch) (cp_restored_parent_generation patch) (cp_containment_id patch)
            (cp_containment_generation patch) (cp_publication_identity patch) (cp_execution_permit_id patch)
            (cp_recovery_phase patch)));
  of_result (ok_or r (TransferNotFound (wt_transfer_id current))).

(** ** The transfer barrier *)

(** The loop of [lease_ancestry]; the fuel covers every lease and one missing parent. *)
Fixpoint ancestry_loop (fuel : nat) (chain : gset Z) (current : option Z) : WS (gset Z) :=
  match fuel, current with
  | S fuel, Some id =>
      if bool_decide (id ∈ chain) then mret chain else
      row ← db (get_write_scope_lease id);
      ancestry_loop fuel ({[id]} ∪ chain) (row ≫= wl_parent_lease_id)
  | _, _ => mret chain
  end.
(** write_scope/coordinator.rs:747-765 WriteScopeCoordinator::lease_ancestry. *)
Definition lease_ancestry (lease_id : Z) : WS (gset Z) :=
  fuel ← asks (fun w => S (S (size (db_leases (w_db w)))));
  ancestry_loop fuel ∅ (Some lease_id).

(** The loop of [blocking_permits]. *)
Fixpoint blocking_loop (own_chain : gset Z) (scope : CanonicalScope) (held : list WriteScopePermitRow)
    : WS (list WriteScopePermitRow) :=
  match held with
  | [] => mret []
  | permit :: rest =>
      if negb (path_contains (wp_influence_root permit) scope || path_contains scope (wp_influence_root permit))
      then blocking_loop own_chain scope rest else
      own ← (if bool_decide (wp_kind permit = PkExecution) then
               handover ← db (get_write_scope_transfer_by_execution_permit (wp_permit_id permit));
               mret match handover ≫= wt_child_lease_id with
                    | Some child => bool_decide (child ∈ own_chain)
                    | None => false
                    end
             else mret false);
      blocking ← blocking_loop own_chain scope rest;
      mret (if (own : bool) then blocking else permit :: blocking)
  end.
(** write_scope/coordinator.rs:706-744 WriteScopeCoordinator::blocking_permits. *)
Definition blocking_permits (session_id parent_lease_id : Z) (scope : CanonicalScope)
    : WS (list WriteScopePermitRow) :=
  held ← db (list_held_write_scope_permits (Some session_id));
  own_chain ← lease_ancestry parent_lease_id;
  blocking_loop own_chain scope held.

(** write_scope/coordinator.rs:1270-1282 WriteScopeCoordinator::unwind_to_active. *)
Definition unwind_to_active (parent : WriteScopeLeaseRow) : WS unit :=
  r ← attempt (db (get_write_scope_lease (wl_lease_id parent)));
  match r with
  | Ok (Some current) =>
      if bool_decide (wl_state current = LsTransferring)
      then ignoring (cas_lease current LsActive (wl_generation current + 1) false) else mret tt
  | _ => mret tt
  end ;;
  emit (EvTransferUnwound (wl_lease_id parent)).
(** write_scope/coordinator.rs:769-791 WriteScopeCoordinator::abandon_and_unwind. *)
Definition abandon_and_unwind (parent : WriteScopeLeaseRow) (t : WriteScopeTransferRow) : WS unit :=
  r ← attempt (db (get_write_scope_transfer (wt_transfer_id t)));
  match r with
  | Ok (Some current) =>
      if bool_decide (wt_child_lease_id current = None) && negb (bool_decide (wt_phase current = TfCommitted))
      then time ← now;
           ignoring (db (abandon_write_scope_transfer (wt_transfer_id current) (wt_phase current)
                           (wt_version current) time))
      else mret tt
  | _ => mret tt
  end ;;
  unwind_to_active parent.

(** write_scope/coordinator.rs:202-224 TransferRequest. *)
Record TransferRequest := mkRequest {
  rq_parent_lease_id : Z; rq_session_id : Z; rq_sub_scope : CanonicalScope; rq_child_owner_id : bytes;
  rq_task_id : option bytes; rq_mode : ExecutionMode; rq_launch : ExecutionLaunch;
  rq_reachable_ancestor : option Path }.
(** write_scope/coordinator.rs:227-235 DelegationHandle. *)
Record DelegationHandle := mkDelegation {
  dh_transfer_id : Z; dh_child_token : WriteScopeToken; dh_parent_token : WriteScopeToken;
  dh_containment : ContainmentTicket; dh_execution_permit_id : Z }.
(** write_scope/coordinator.rs:1981-1986 AcquiredExecution. *)
Record AcquiredExecution := mkAcquired {
  aq_execution_permit_id : Z; aq_containment : ContainmentTicket; aq_publication_identity : Z }.

(** The refusal for a capability that is not proven. *)
Definition unproven (c : ScopedWriteCapability) : WriteScopeError :=
  match c with
  | CapabilityUnsupported reason => ScopedWritesUnsupported (Because reason)
  | CapabilityProven a => ScopedWritesUnsupported (AttestationIncomplete (missing_clauses a))
  end.

(** The barrier's operations, logged. *)
Definition create (reserved : OwnershipReserved) (mode : ExecutionMode) (launch : ExecutionLaunch)
    : WS ContainmentTicket :=
  n ← tick;
  let r := cb_create n reserved mode launch in
  modifies (log_call (CallCreate reserved (match r with inr t => Some t | inl _ => None end))) ;;
  lift_sum r.
Definition prove_membership_and_release_user_code (recorded : OwnershipRecorded) : WS unit :=
  n ← tick;
  let r := cb_prove_membership_and_release_user_code n recorded in
  modifies (log_call (CallRelease recorded (match r with inr _ => true | inl _ => false end))) ;;
  lift_sum r.
Definition await_proven_empty (ticket : ContainmentTicket) : WS ProvenEmptyOutcome :=
  n ← tick;
  let r := cb_await_proven_empty n ticket in
  modifies (log_call (CallAwait ticket r)) ;; mret r.
Definition terminate (ticket : ContainmentTicket) : WS unit :=
  n ← tick;
  modifies (log_call (CallTerminate ticket)) ;; lift_sum (cb_terminate n ticket).

(** [let _ = release_write_scope_permit(..)], then the error. *)
Definition release_and_throw {A} (permit_id : Z) (e : WriteScopeError) : WS A :=
  (time ← now; ignoring (db (release_write_scope_permit permit_id time))) ;; throw e.
(** [let _ = terminate(..)] first. *)
Definition terminate_and_throw {A} (ticket : ContainmentTicket) (permit_id : Z) (e : WriteScopeError) : WS A :=
  ignoring (terminate ticket) ;; release_and_throw permit_id e.

(** write_scope/coordinator.rs:975-1153 WriteScopeCoordinator::acquire_capability_permit_and_containment. *)
Definition acquire_capability_permit_and_containment (request : TransferRequest) (t : WriteScopeTransferRow)
    (parent : WriteScopeLeaseRow) : WS AcquiredExecution :=
  reachable_ancestor ← match rq_reachable_ancestor request with
    | Some ancestor => p ← effective_path ancestor; of_result (ok_or p (InvalidScope ancestor))
    | None => mret (rq_sub_scope request)
    end;
  let footprint := for_execution (rq_sub_scope request) reachable_ancestor in
  time ← now; id ← uuid;
  permit ← db (insert_write_scope_permit
    (mkPermitRow id (rq_session_id request) (wl_lease_id parent) (wl_generation parent) PkExecution
       (fp_kind footprint) (fp_influence_root footprint) (fp_target footprint) PsHeld None time None));
  n ← tick;
  let capability := capability_for n (rq_sub_scope request) (rq_mode request) in
  if negb (is_proven capability) then release_and_throw (wp_permit_id permit) (unproven capability) else
  n ← tick;
  match target_identity n (rq_sub_scope request) with
  | None => release_and_throw (wp_permit_id permit) (ScopedWritesUnsupported IdentityUnbound)
  | Some identity =>
      let reserved := from_prepared t in
      created ← attempt (create reserved (rq_mode request) (rq_launch request));
      match created with
      | Err err => release_and_throw (wp_permit_id permit) err
      | Panic => of_result Panic
      | Ok ticket =>
          time ← now;
          attached ← attempt (db (attach_write_scope_transfer_ownership (wt_transfer_id t)
                       (tk_containment_id ticket) (tk_generation ticket) (wp_permit_id permit) (Some identity) time));
          match attached with
          | Err _ | Ok None => terminate_and_throw ticket (wp_permit_id permit) WsInternal
          | Panic => of_result Panic
          | Ok (Some row) =>
              match from_reserved_and_persisted reserved row with
              | Err err => terminate_and_throw ticket (wp_permit_id permit) err
              | Panic => of_result Panic
              | Ok recorded =>
                  released ← attempt (prove_membership_and_release_user_code recorded);
                  match released with
                  | Err err => terminate_and_throw ticket (wp_permit_id permit) err
                  | Panic => of_result Panic
                  | Ok _ => mret (mkAcquired (wp_permit_id permit) ticket identity)
                  end
              end
          end
      end
  end.

(** write_scope/coordinator.rs:1155-1266 WriteScopeCoordinator::finish_transfer. *)
Definition finish_transfer (request : TransferRequest) (t : WriteScopeTransferRow) (parent : WriteScopeLeaseRow)
    (acquired : AcquiredExecution) : WS DelegationHandle :=
  t ← cas_transfer t ParentExcluded
    (mkPatch None None None None (Some (tk_containment_id (aq_containment acquired)))
       (Some (tk_generation (aq_containment acquired))) (Some (Some (aq_publication_identity acquired)))
       (Some (aq_execution_permit_id acquired)) None);
  emit (EvParentExcluded (wt_transfer_id t) (wl_generation parent)) ;;
  parent_token ← issue_token parent;
  let child_generation := wt_prepare_parent_generation t + 2 in
  time ← now; id ← uuid;
  activated ← db (activate_write_scope_child
    (mkLeaseRow id (Some (wl_lease_id parent)) (rq_session_id request) (rq_task_id request) (rq_sub_scope request)
       child_generation LsActive (rq_child_owner_id request) 1 time time None)
    (mkCasTransfer (wt_transfer_id t) (wt_phase t) (wt_version t) ChildActivated time None None
       (Some child_generation) None None None None None None)
    (mkCasLease (wl_lease_id parent) (wl_state parent) (wl_generation parent) (wl_version parent) LsDelegated
       (wl_generation parent) time false));
  activated ← of_result (ok_or activated (TransferRaceLost (rq_sub_scope request)));
  let child := activated.1.1 in
  let t := activated.1.2 in
  emit (EvChildActivated (wt_transfer_id t) (wl_lease_id child) child_generation) ;;
  child_token ← issue_token child;
  mret (mkDelegation (wt_transfer_id t) child_token parent_token (aq_containment acquired)
          (aq_execution_permit_id acquired)).

(** write_scope/coordinator.rs:809-970 WriteScopeCoordinator::begin_transfer. *)
Definition begin_transfer (request : TransferRequest) : WS DelegationHandle :=
  down ← asks w_shutting_down;
  if (down : bool) then throw WsShutdownIntakeClosed else
  deleting ← db (is_session_deleting (rq_session_id request));
  if (deleting : bool) then throw WsSessionDeleting else
  parent ← lease (rq_parent_lease_id request);
  if negb (can_transition_to (wl_state parent) LsTransferring)
  then throw (IllegalTransition (wl_state parent) LsTransferring) else
  authority ← effective_authority (rq_parent_lease_id request);
  of_result (admits_subscope authority (rq_sub_scope request)) ;;
  n ← tick;
  let capability := capability_for n (rq_sub_scope request) (rq_mode request) in
  if negb (is_proven capability) then throw (unproven capability) else
  let g := wl_generation parent in
  time ← now; id ← uuid;
  let transfer_row := mkTransferRow id (rq_session_id request) (wl_lease_id parent) None (rq_sub_scope request)
    Prepared g (g + 1) None None bk_kind CapProven None None None None (Some RpPending) 1 time time in
  prepared ← db (prepare_write_scope_transfer
    (mkCasLease (wl_lease_id parent) (wl_state parent) (wl_generation parent) (wl_version parent) LsTransferring
       (g + 1) time false) transfer_row);
  prepared ← of_result (ok_or prepared (TransferRaceLost (rq_sub_scope request)));
  let prepared_parent := prepared.1 in
  let t := prepared.2 in
  invalidate_older_tokens prepared_parent ;;
  emit (EvTransferPrepared (wt_transfer_id t) (wl_lease_id parent)) ;;
  let fail err := abandon_and_unwind prepared_parent t ;; throw err in
  blocked ← attempt (blocking_permits (rq_session_id request) (wl_lease_id parent) (rq_sub_scope request));
  match blocked with
  | Panic => of_result Panic
  | Err err => fail err
  | Ok ((_ :: _) as blocking) => fail (PermitsNotDrained (zlen blocking))
  | Ok [] =>
      acquired ← attempt (acquire_capability_permit_and_containment request t prepared_parent);
      match acquired with
      | Panic => of_result Panic
      | Err err => fail err
      | Ok acquired =>
          finished ← attempt (finish_transfer request t prepared_parent acquired);
          match finished with
          | Panic => of_result Panic
          | Err err => fail err
          | Ok handle => mret handle
          end
      end
  end.

(** ** The return barrier *)

(** write_scope/coordinator.rs:1285-1296 WriteScopeCoordinator::child_terminal. *)
Definition child_terminal (transfer_id : Z) : WS unit :=
  t ← transfer transfer_id;
  match wt_child_lease_id t with Some child => invalidate_all_tokens child | None => mret tt end ;;
  cas_transfer t ChildTerminal no_patch ;;
  emit (EvChildTerminal transfer_id).

Definition denied (t : WriteScopeTransferRow) : bool := parent_denied_in_subscope (wt_phase t).

(** write_scope/coordinator.rs:1311-1500 WriteScopeCoordinator::complete_return_locked. *)
Definition complete_return_locked (transfer_id : Z) : WS WriteScopeToken :=
  t ← transfer transfer_id;
  if negb (bool_decide (wt_phase t = ChildTerminal))
  then throw (IllegalPhaseAdvance (wt_phase t) ParentRestored) else
  match wt_child_lease_id t with
  | Some child =>
      open ← db (list_open_write_scope_transfers_for_parent child);
      let live_descendants := zlen (filter (fun t => denied t = true) open) in
      if 0 <? live_descendants then throw (DescendantStillDelegated transfer_id live_descendants) else mret tt
  | None => mret tt
  end ;;
  containment_id ← of_result (ok_or (wt_containment_id t) WsInternal);
  expected ← of_result (ok_or (wt_containment_generation t) WsInternal);
  answer ← await_proven_empty (mkTicket containment_id expected);
  match answer with
  | ProvenEmpty generation =>
      if negb (generation =? expected) then throw (ContainmentGenerationMismatch expected generation) else mret tt
  | EmptyUncertain _ reason | EmptyUnsupported reason => throw (ContainmentNotProvenEmpty transfer_id reason)
  end ;;
  identity ← of_result (ok_or (wt_publication_identity t) (ScopedWritesUnsupported IdentityUnrecorded));
  n ← tick;
  match bk_publish n (mkPublish (wt_sub_scope_path t) (Some identity)) with
  | Published _ => mret tt
  | PublishConflict reason => throw (PublicationConflict reason)
  | PublishUnsupported reason => throw (ScopedWritesUnsupported (Because reason))
  end ;;
  match wt_execution_permit_id t with
  | Some permit_id => time ← now; db (release_write_scope_permit permit_id time) ;; mret tt
  | None => mret tt
  end ;;
  match wt_child_lease_id t with
  | Some child_lease_id =>
      child ← lease child_lease_id;
      invalidate_all_tokens child_lease_id ;;
      cas_lease child LsReleased (wl_generation child + 1) true ;; mret tt
  | None => mret tt
  end ;;
  parent ← lease (wt_parent_lease_id t);
  returning ← cas_lease parent LsReturning (wl_generation parent) false;
  returning ← of_result (ok_or returning WsInternal);
  siblings ← db (list_write_scope_transfers_for_parent (wt_parent_lease_id t));
  let siblings_still_delegated :=
    existsb (fun s => negb (wt_transfer_id s =? transfer_id) && denied s) siblings in
  let restored_state := if siblings_still_delegated then LsDelegated else LsActive in
  let restored_generation := wl_generation returning + 1 in
  restored ← cas_lease returning restored_state restored_generation false;
  restored ← of_result (ok_or restored WsInternal);
  t ← cas_transfer t ParentRestored
        (mkPatch None None None (Some restored_generation) None None None None None);
  emit (EvParentRestored transfer_id restored_generation) ;;
  cas_transfer t TfCommitted reconciled_patch ;;
  emit (EvTransferCommitted transfer_id) ;;
  issue_token restored.
(** write_scope/coordinator.rs:1300-1306 WriteScopeCoordinator::complete_return. *)
Definition complete_return := complete_return_locked.

(** ** Recovery *)

(** write_scope/coordinator.rs:1979-1979 POPULATED_MARKER. *)
Definition POPULATED_MARKER : string := "proven_populated".
(** write_scope/coordinator.rs:271-286 RecoveryOutcome. *)
Inductive RecoveryOutcome :=
| ChildResumedOwnership (transfer_id child_lease_id : Z)
| ReturnAdvanced (transfer_id : Z)
| RetainedNotProvenEmpty (transfer_id : Z)
| RecoveryDenied (transfer_id : Z)
| AlreadyCommitted (transfer_id : Z).

(** write_scope/coordinator.rs:1823-1846 WriteScopeCoordinator::retire_unactivated. *)
Definition retire_unactivated (t : WriteScopeTransferRow) : WS unit :=
  time ← now;
  db (abandon_write_scope_transfer (wt_transfer_id t) (wt_phase t) (wt_version t) time) ;;
  parent ← lease (wt_parent_lease_id t);
  (if bool_decide (wl_state parent = LsTransferring)
   then cas_lease parent LsActive (wl_generation parent + 1) false ;; mret tt
   else mret tt) ;;
  emit (EvTransferCommitted (wt_transfer_id t)).

(** How recovery reports the return barrier. *)
Definition report_return (transfer_id : Z) (r : result WriteScopeError WriteScopeToken) : WS RecoveryOutcome :=
  match r with
  | Ok _ => mret (ReturnAdvanced transfer_id)
  | Err (ContainmentNotProvenEmpty _ _) => mret (RetainedNotProvenEmpty transfer_id)
  | Err _ => mret (RecoveryDenied transfer_id)
  | Panic => of_result Panic
  end.

(** write_scope/coordinator.rs:1850-1882 WriteScopeCoordinator::drive_return_from_activated. *)
Definition drive_return_from_activated (t : WriteScopeTransferRow) : WS RecoveryOutcome :=
  let transfer_id := wt_transfer_id t in
  match wt_child_lease_id t with Some child => invalidate_all_tokens child | None => mret tt end ;;
  r ← attempt (cas_transfer t ChildTerminal no_patch);
  match r with
  | Panic => of_result Panic
  | Err _ => mret (RecoveryDenied transfer_id)
  | Ok _ =>
      emit (EvChildTerminal transfer_id) ;;
      r ← attempt (complete_return_locked transfer_id); report_return transfer_id r
  end.

(** The empty check of a transfer that never activated a child: [None] lets the retirement go on. *)
Definition unactivated_blocked (t : WriteScopeTransferRow) : WS (option RecoveryOutcome) :=
  let transfer_id := wt_transfer_id t in
  match wt_containment_id t, wt_containment_generation t with
  | Some containment_id, Some generation =>
      answer ← await_proven_empty (mkTicket containment_id generation);
      mret match answer with
           | ProvenEmpty got => if got =? generation then None else Some (RecoveryDenied transfer_id)
           | EmptyUncertain _ _ => Some (RetainedNotProvenEmpty transfer_id)
           | EmptyUnsupported _ => Some (RecoveryDenied transfer_id)
           end
  | _, _ =>
      n ← asks w_tick;
      rows ← attempt (db (fun d => Some (d, cb_nonempty n (write_scope_containment_operation_id transfer_id))));
      match rows with
      | Ok [] => mret None
      | Panic => of_result Panic
      | _ => mret (Some (RetainedNotProvenEmpty transfer_id))
      end
  end.

(** write_scope/coordinator.rs:1609-1819 WriteScopeCoordinator::recover_one. *)
Definition recover_one (t : WriteScopeTransferRow) : WS RecoveryOutcome :=
  let transfer_id := wt_transfer_id t in
  match wt_phase t with
  | Prepared | ParentExcluded =>
      blocked ← unactivated_blocked t;
      match blocked with
      | Some outcome => mret outcome
      | None =>
          match wt_execution_permit_id t with
          | Some permit_id => time ← now; ignoring (db (release_write_scope_permit permit_id time))
          | None => mret tt
          end ;;
          r ← attempt (retire_unactivated t);
          match r with
          | Panic => of_result Panic
          | Err _ => mret (RecoveryDenied transfer_id)
          | Ok _ => mret (ReturnAdvanced transfer_id)
          end
      end
  | ChildActivated =>
      match wt_child_lease_id t with
      | None => mret (RecoveryDenied transfer_id)
      | Some child_lease_id =>
          match wt_containment_id t, wt_containment_generation t with
          | Some containment_id, Some expected =>
              answer ← await_proven_empty (mkTicket containment_id expected);
              match answer with
              | EmptyUncertain _ reason =>
                  mret (if bool_decide (reason = POPULATED_MARKER)
                        then ChildResumedOwnership transfer_id child_lease_id
                        else RetainedNotProvenEmpty transfer_id)
              | ProvenEmpty generation =>
                  if negb (generation =? expected) then mret (RecoveryDenied transfer_id)
                  else drive_return_from_activated t
              | EmptyUnsupported _ => mret (RecoveryDenied transfer_id)
              end
          | _, _ => mret (RecoveryDenied transfer_id)
          end
      end
  | ChildTerminal => r ← attempt (complete_return_locked transfer_id); report_return transfer_id r
  | ParentRestored =>
      r ← attempt (cas_transfer t TfCommitted reconciled_patch);
      match r with
      | Panic => of_result Panic
      | Err _ => mret (RecoveryDenied transfer_id)
      | Ok _ => emit (EvTransferCommitted transfer_id) ;; mret (ReturnAdvanced transfer_id)
      end
  | TfCommitted => mret (AlreadyCommitted transfer_id)
  end.

Fixpoint recover_loop (open : list WriteScopeTransferRow) : WS (list RecoveryOutcome) :=
  match open with
  | [] => mret []
  | t :: rest => o ← recover_one t; out ← recover_loop rest; mret (o :: out)
  end.
(** write_scope/coordinator.rs:1592-1607 WriteScopeCoordinator::recover. *)
Definition recover (session_id : option Z) : WS (list RecoveryOutcome) :=
  open ← db (list_open_write_scope_transfers session_id); recover_loop open.

(** ** Session deletion and shutdown *)

Definition is_delegated_lease (l : WriteScopeLeaseRow) : bool := bool_decide (is_Some (wl_parent_lease_id l)).

(** write_scope/coordinator.rs:1908-1936 WriteScopeCoordinator::deletion_blockers_inner. *)
Definition deletion_blockers_inner (session_id : Z) : WS (list Z) :=
  leases ← db (list_live_write_scope_leases (Some session_id));
  permits ← db (list_held_write_scope_permits (Some session_id));
  mret ((wl_lease_id <$> filter (fun l => is_delegated_lease l = true) leases) ++ (wp_permit_id <$> permits)).
(** write_scope/coordinator.rs:1902-1905 WriteScopeCoordinator::deletion_blockers. *)
Definition deletion_blockers := deletion_blockers_inner.
(** write_scope/coordinator.rs:1886-1899 WriteScopeCoordinator::begin_session_deletion. *)
Definition begin_session_deletion (session_id : Z) : WS (list Z) :=
  db (mark_session_deleting session_id) ;; deletion_blockers_inner session_id.
(** write_scope/coordinator.rs:1942-1947 WriteScopeCoordinator::begin_shutdown. *)
Definition begin_shutdown : WS unit := modifies (set_shutting_down true).
(** write_scope/coordinator.rs:1950-1974 WriteScopeCoordinator::assert_shutdown_clean. *)
Definition assert_shutdown_clean : WS unit :=
  leases ← db (list_live_write_scope_leases None);
  let delegated := zlen (filter (fun l => is_delegated_lease l = true) leases) in
  permits ← db (list_held_write_scope_permits None);
  if (delegated =? 0) && (zlen permits =? 0) then mret tt
  else throw (PermitsNotDrained (delegated + zlen permits)).
End coordinator.
