(* ===== verification/WriteScopeInv.v ===== *)
(** The invariant of write-scope authority and its preservation: a small program logic for
    the coordinator's computations, the invariant of the tables and of the issued tokens,
    one preservation lemma per kind of database update, and one per coordinator method. *)

From S2P Require Import Prelude.
From S2P Require Import WriteScopeDb.
From S2P Require Import WriteScope.
From stdpp Require Import options.
Set Warnings "-clear-no-such-hyp".

(** ** Paths *)

Lemma path_contains_spec a b : path_contains a b = true <-> a `prefix_of` b.
Proof. unfold path_contains. apply bool_decide_eq_true. Qed.
Lemma path_contains_trans a b c :
  path_contains a b = true -> path_contains b c = true -> path_contains a c = true.
Proof. rewrite !path_contains_spec. apply transitivity. Qed.
Lemma path_contains_refl a : path_contains a a = true.
Proof. by apply path_contains_spec. Qed.
(** Two scopes that share a path are nested. *)
Lemma path_contains_comparable a b p :
  path_contains a p = true -> path_contains b p = true -> path_contains a b = true \/ path_contains b a = true.
Proof. rewrite !path_contains_spec. intros. by apply (prefix_weak_total a b p). Qed.
Lemma disjoint_no_path a b p :
  is_disjoint_from a b = true -> path_contains a p = true -> path_contains b p = true -> False.
Proof.
  unfold is_disjoint_from. rewrite andb_true_iff, !negb_true_iff. intros [Ha Hb] H1 H2.
  destruct (path_contains_comparable _ _ _ H1 H2); congruence.
Qed.
Lemma is_disjoint_from_sym a b : is_disjoint_from a b = is_disjoint_from b a.
Proof. unfold is_disjoint_from. by rewrite andb_comm. Qed.

Lemma dedup_elem l x : x ∈ dedup l <-> x ∈ l.
Proof.
  induction l as [|a [|b l] IH]; [done|done|]. cbn [dedup]. case_bool_decide as Hab.
  - subst b. rewrite IH. set_solver.
  - rewrite !elem_of_cons, IH. set_solver.
Qed.
Lemma authority_exclusions base l x : x ∈ ea_exclusions (authority_new base l) <-> x ∈ l.
Proof. cbn. by rewrite dedup_elem, merge_sort_Permutation. Qed.

Lemma allows_path_new base l p :
  allows_path (authority_new base l) p = true <->
  path_contains base p = true /\ forall e, e ∈ l -> path_contains e p = false.
Proof.
  unfold allows_path. cbn [ea_base authority_new]. destruct (path_contains base p); cbn [negb]; [|naive_solver].
  rewrite negb_true_iff, <- not_true_iff_false, existsb_elem.
  setoid_rewrite (authority_exclusions base). setoid_rewrite <- not_true_iff_false. naive_solver.
Qed.
Lemma admits_subscope_new base l s :
  admits_subscope (authority_new base l) s = Ok tt ->
  path_contains base s = true /\ s <> base /\ forall e, e ∈ l -> is_disjoint_from s e = true.
Proof.
  unfold admits_subscope, is_strict_subscope_of. cbn [ea_base authority_new].
  case_bool_decide; [done|]. destruct (path_contains base s); [|done]. cbn [negb andb].
  destruct (List.find _ _) eqn:E; [done|]. intros _. split; [done|]. split; [done|]. intros e He.
  apply negb_false_iff. apply (proj1 (find_none_elem _ _) E). by apply authority_exclusions.
Qed.

(** ** Queries *)

Lemma select_elem {A} created ident (f : A -> bool) (m : gmap Z A) x :
  x ∈ select created ident f m <-> f x = true /\ exists i, m !! i = Some x.
Proof.
  unfold select. rewrite merge_sort_Permutation, list_elem_of_filter, list_elem_of_fmap.
  split; intros [Hf Hx]; (split; [done|]).
  - destruct Hx as ([i y] & -> & Hi). exists i. by apply elem_of_map_to_list in Hi.
  - destruct Hx as [i Hi]. exists (i, x). split; [done|]. by apply elem_of_map_to_list.
Qed.

(** ** A program logic for the coordinator *)

Definition wp {A} (m : WS A) (Q : World -> result WriteScopeError A -> Prop) (w : World) : Prop :=
  Q (m w).1 (m w).2.

Section logic.
Context `{Host} `{ScopedWriteBackend} `{ContainmentBarrier}.

Lemma wp_mono {A} (m : WS A) (P Q : World -> result WriteScopeError A -> Prop) w :
  (forall w' r, P w' r -> Q w' r) -> wp m P w -> wp m Q w.
Proof using Type. unfold wp. auto. Qed.
Lemma wp_ret {A} (a : A) (Q : World -> result WriteScopeError A -> Prop) w : Q w (Ok a) -> wp (mret a) Q w.
Proof using Type. done. Qed.
Lemma wp_throw {A} e (Q : World -> result WriteScopeError A -> Prop) w : Q w (Err e) -> wp (throw e) Q w.
Proof using Type. done. Qed.
Lemma wp_of_result {A} r (Q : World -> result WriteScopeError A -> Prop) w : Q w r -> wp (of_result r) Q w.
Proof using Type. done. Qed.
Lemma wp_asks {A} (f : World -> A) Q w : Q w (Ok (f w)) -> wp (asks f) Q w.
Proof using Type. done. Qed.
Lemma wp_modifies f Q w : Q (f w) (Ok tt) -> wp (modifies f) Q w.
Proof using Type. done. Qed.
Lemma wp_bind {A B} (m : WS A) (f : A -> WS B) Q w :
  wp m (fun w' r => match r with Ok a => wp (f a) Q w' | Err e => Q w' (Err e) | Panic => Q w' Panic end) w ->
  wp (m ≫= f) Q w.
Proof using Type. unfold wp, mbind, WS_bind. destruct (m w) as [w' [a|e|]]; done. Qed.
Lemma wp_attempt {A} (m : WS A) Q w :
  wp m (fun w' r => match r with Panic => Q w' Panic | r => Q w' (Ok r) end) w -> wp (attempt m) Q w.
Proof using Type. unfold wp, attempt. destruct (m w) as [w' [a|e|]]; done. Qed.
Lemma wp_ignoring {A} (m : WS A) Q w :
  wp m (fun w' r => match r with Panic => Q w' Panic | _ => Q w' (Ok tt) end) w -> wp (ignoring m) Q w.
Proof using Type. intros Hm. apply wp_bind, wp_attempt. eapply wp_mono, Hm. by intros w' [|e|]. Qed.
Lemma wp_tick Q w : Q (next_tick w) Panic -> Q (next_tick w) (Ok (w_tick w)) -> wp tick Q w.
Proof using Type. unfold wp, tick. cbn. destruct (host_fault _); done. Qed.
Lemma wp_db {A} (op : DbOp A) Q w :
  Q (next_tick w) Panic -> Q (next_tick w) (Err WsInternal) ->
  (forall d a, op (w_db w) = Some (d, a) -> Q (set_db d (next_tick w)) (Ok a)) ->
  wp (db op) Q w.
Proof using Type.
  intros Hp He Ho. apply wp_bind, wp_tick; [done|].
  destruct (host_fault _); [|done..]. unfold wp.
  change (w_db (next_tick w)) with (w_db w). destruct (op (w_db w)) as [[d a]|] eqn:E; [|done]. by apply Ho.
Qed.
End logic.

(** Walk through a computation, leaving a goal at each outcome. *)
Ltac wp_step :=
  lazymatch goal with
  | |- wp (mbind _ _) _ _ => apply wp_bind
  | |- wp (mret _) _ _ => apply wp_ret
  | |- wp (throw _) _ _ => apply wp_throw
  | |- wp (of_result _) _ _ => apply wp_of_result
  | |- wp (asks _) _ _ => apply wp_asks
  | |- wp (modifies _) _ _ => apply wp_modifies
  | |- wp (emit _) _ _ => apply wp_modifies
  | |- wp (attempt _) _ _ => apply wp_attempt
  | |- wp (ignoring _) _ _ => apply wp_ignoring
  | |- wp tick _ _ => apply wp_tick
  | |- wp (db _) _ _ => apply wp_db
  end.

(** ** The invariant of the tables *)

(** No child before activation, one from then on; an abandoned transfer has none. *)
Definition phase_child_ok (t : WriteScopeTransferRow) : Prop :=
  match wt_phase t with
  | Prepared | ParentExcluded => wt_child_lease_id t = None
  | ChildActivated | ChildTerminal | ParentRestored => is_Some (wt_child_lease_id t)
  | TfCommitted => True
  end.

Record DbInv (d : Db) : Prop := {
  di_lease_key i r : db_leases d !! i = Some r -> wl_lease_id r = i;
  di_transfer_key i t : db_transfers d !! i = Some t -> wt_transfer_id t = i;
  di_parent i t : db_transfers d !! i = Some t -> is_Some (db_leases d !! wt_parent_lease_id t);
  di_strict i t p : db_transfers d !! i = Some t -> denied t = true ->
    db_leases d !! wt_parent_lease_id t = Some p ->
    path_contains (wl_scope_path p) (wt_sub_scope_path t) = true /\ wt_sub_scope_path t <> wl_scope_path p;
  di_disjoint i j t u : db_transfers d !! i = Some t -> db_transfers d !! j = Some u -> i <> j ->
    denied t = true -> denied u = true -> wt_parent_lease_id t = wt_parent_lease_id u ->
    is_disjoint_from (wt_sub_scope_path t) (wt_sub_scope_path u) = true;
  di_child i t c : db_transfers d !! i = Some t -> wt_child_lease_id t = Some c ->
    exists l, db_leases d !! c = Some l /\ wl_parent_lease_id l = Some (wt_parent_lease_id t) /\
      wl_scope_path l = wt_sub_scope_path t;
  di_phase i t : db_transfers d !! i = Some t -> phase_child_ok t;
  di_child_inj i j t u c : db_transfers d !! i = Some t -> db_transfers d !! j = Some u ->
    wt_child_lease_id t = Some c -> wt_child_lease_id u = Some c -> i = j;
  di_owner c l p : db_leases d !! c = Some l -> wl_parent_lease_id l = Some p ->
    exists i t, db_transfers d !! i = Some t /\ wt_child_lease_id t = Some c;
  di_live c l i t : db_leases d !! c = Some l -> wl_state l <> LsReleased ->
    db_transfers d !! i = Some t -> wt_child_lease_id t = Some c -> denied t = true;
  di_released p l i t : db_leases d !! p = Some l -> wl_state l = LsReleased ->
    db_transfers d !! i = Some t -> denied t = true -> wt_parent_lease_id t <> p }.

(** The columns of a lease the invariant reads, apart from its state. *)
Definition same_lease (r r' : WriteScopeLeaseRow) : Prop :=
  wl_lease_id r' = wl_lease_id r /\ wl_parent_lease_id r' = wl_parent_lease_id r /\
  wl_session_id r' = wl_session_id r /\ wl_scope_path r' = wl_scope_path r.

Lemma DbInv_root_lease d r :
  DbInv d -> db_leases d !! wl_lease_id r = None -> wl_parent_lease_id r = None -> wl_state r <> LsReleased ->
  DbInv (set_leases (<[wl_lease_id r := r]> (db_leases d)) d).
Proof.
  intros [] Hn Hp Hs. split; cbn; try done.
  - intros i r' [[<- <-]|[? ?]]%lookup_insert_Some; eauto.
  - intros i t Ht. apply lookup_insert_is_Some'. eauto.
  - intros i t p Ht Hd [[Hi <-]|[? ?]]%lookup_insert_Some; [|eauto].
    apply di_parent0 in Ht as [x Hx]. rewrite <- Hi, Hn in Hx. done.
  - intros i t c Ht Hc. destruct (di_child0 i t c Ht Hc) as (l & Hl & ? & ?). exists l.
    rewrite lookup_insert_ne; [done|]. congruence.
  - intros c l p [[<- <-]|[? ?]]%lookup_insert_Some; [congruence|]. eauto.
  - intros c l i t [[<- <-]|[? ?]]%lookup_insert_Some Hs' Ht Hc; [|eauto].
    destruct (di_child0 i t _ Ht Hc) as (l & Hl & _). congruence.
  - intros p l i t [[<- <-]|[? ?]]%lookup_insert_Some Hs' Ht Hd; [congruence|]. eauto.
Qed.

Lemma DbInv_lease_update d i r r' :
  DbInv d -> db_leases d !! i = Some r -> same_lease r r' ->
  (wl_state r = LsReleased -> wl_state r' = LsReleased) ->
  (wl_state r' = LsReleased -> forall j t, db_transfers d !! j = Some t -> denied t = true ->
     wt_parent_lease_id t <> i) ->
  DbInv (set_leases (<[i := r']> (db_leases d)) d).
Proof.
  intros [] Hi (Hid & Hpar & _ & Hsc) Hfin Hrel. split; cbn; try done.
  - intros k x [[<- <-]|[? ?]]%lookup_insert_Some; [|eauto]. rewrite Hid. eauto.
  - intros k t Ht. apply lookup_insert_is_Some'. eauto.
  - intros k t p Ht Hd [[E <-]|[? ?]]%lookup_insert_Some; [|eauto]. subst i. rewrite Hsc. eauto.
  - intros k t c Ht Hc. destruct (di_child0 k t c Ht Hc) as (l & Hl & Hlp & Hls).
    destruct (decide (c = i)) as [->|Hne].
    + exists r'. rewrite lookup_insert_eq. split; [done|]. rewrite Hpar, Hsc. by simplify_eq.
    + exists l. by rewrite lookup_insert_ne.
  - intros c l p [[<- <-]|[? ?]]%lookup_insert_Some Hp; [|eauto]. rewrite Hpar in Hp. eauto.
  - intros c l k t [[<- <-]|[? ?]]%lookup_insert_Some Hs Ht Hc; [|eauto].
    eapply di_live0; eauto.
  - intros p l k t [[<- <-]|[? ?]]%lookup_insert_Some Hs Ht Hd; [|eauto]. by eapply Hrel.
Qed.

(** The columns of a transfer that never change. *)
Definition same_transfer (t t' : WriteScopeTransferRow) : Prop :=
  wt_transfer_id t' = wt_transfer_id t /\ wt_parent_lease_id t' = wt_parent_lease_id t /\
  wt_sub_scope_path t' = wt_sub_scope_path t /\ wt_session_id t' = wt_session_id t.

(** What a new exclusion needs. *)
Definition excludable (d : Db) (i : Z) (t : WriteScopeTransferRow) : Prop :=
  (forall p, db_leases d !! wt_parent_lease_id t = Some p ->
     path_contains (wl_scope_path p) (wt_sub_scope_path t) = true /\ wt_sub_scope_path t <> wl_scope_path p /\
     wl_state p <> LsReleased) /\
  (forall j u, db_transfers d !! j = Some u -> j <> i -> denied u = true ->
     wt_parent_lease_id u = wt_parent_lease_id t ->
     is_disjoint_from (wt_sub_scope_path t) (wt_sub_scope_path u) = true).

Lemma DbInv_excludable d i t : DbInv d -> db_transfers d !! i = Some t -> denied t = true -> excludable d i t.
Proof.
  intros HI Ht Hd. split.
  - intros p Hp. destruct (di_strict _ HI _ _ _ Ht Hd Hp) as [? ?]. split; [done|]. split; [done|].
    intros Hr. by apply (di_released _ HI _ _ _ _ Hp Hr Ht Hd).
  - intros j u Hu Hne Hud Hp. apply (di_disjoint _ HI i j); done.
Qed.

Lemma DbInv_transfer_update d i t t' :
  DbInv d -> db_transfers d !! i = Some t -> same_transfer t t' ->
  wt_child_lease_id t' = wt_child_lease_id t -> phase_child_ok t' ->
  (denied t' = true -> excludable d i t) ->
  (denied t' = false -> forall c l, wt_child_lease_id t = Some c -> db_leases d !! c = Some l -> wl_state l = LsReleased) ->
  DbInv (set_transfers (<[i := t']> (db_transfers d)) d).
Proof.
  intros HI Hi (Hid & Hpar & Hsub & _) Hch Hph Hex Hrel. pose proof HI as []. split; cbn; try done.
  - intros k x [[<- <-]|[? ?]]%lookup_insert_Some; [|eauto]. rewrite Hid. eauto.
  - intros k x [[<- <-]|[? ?]]%lookup_insert_Some; [|eauto]. rewrite Hpar. eauto.
  - intros k x p [[<- <-]|[? ?]]%lookup_insert_Some Hd Hp; [|eauto].
    rewrite Hpar in Hp. rewrite Hsub. by destruct (proj1 (Hex Hd) p Hp) as (? & ? & ?).
  - intros k j x u [[<- <-]|[? Hx]]%lookup_insert_Some [[<- <-]|[? Hu]]%lookup_insert_Some Hne Hdx Hdu Hpp; try done.
    + rewrite Hsub. apply (proj2 (Hex Hdx) j u); [done|done|done|congruence].
    + rewrite Hsub, is_disjoint_from_sym. apply (proj2 (Hex Hdu) k x); [done|done|done|congruence].
    + eauto.
  - intros k x c [[<- <-]|[? ?]]%lookup_insert_Some Hc; [|eauto]. rewrite Hpar, Hsub. eapply di_child0; [done|congruence].
  - intros k x [[<- <-]|[? ?]]%lookup_insert_Some; eauto.
  - intros k j x u c [[<- <-]|[? Hx]]%lookup_insert_Some [[<- <-]|[? Hu]]%lookup_insert_Some Hc Hc';
      rewrite ?Hch in *; eauto.
  - intros c l p Hl Hp. destruct (di_owner0 c l p Hl Hp) as (k & x & Hx & Hc).
    destruct (decide (k = i)) as [->|Hne].
    + exists i, t'. rewrite lookup_insert_eq. split; [done|]. rewrite Hch. by simplify_eq.
    + exists k, x. by rewrite lookup_insert_ne.
  - intros c l k x Hl Hs [[<- <-]|[? ?]]%lookup_insert_Some Hc; [|eauto].
    destruct (denied t') eqn:Hd; [done|]. rewrite Hch in Hc. by destruct Hs; eapply Hrel.
  - intros p l k x Hl Hs [[<- <-]|[? ?]]%lookup_insert_Some Hd; [|eauto]. rewrite Hpar. intros <-.
    by destruct (proj1 (Hex Hd) l Hl) as (_ & _ & ?).
Qed.

Lemma DbInv_transfer_insert d t :
  DbInv d -> db_transfers d !! wt_transfer_id t = None -> is_Some (db_leases d !! wt_parent_lease_id t) ->
  wt_phase t = Prepared -> wt_child_lease_id t = None ->
  DbInv (set_transfers (<[wt_transfer_id t := t]> (db_transfers d)) d).
Proof.
  intros [] Hn Hp Hph Hc.
  assert (denied t = false) as Hd by (unfold denied; by rewrite Hph).
  split; cbn; try done.
  - intros k x [[<- <-]|[? ?]]%lookup_insert_Some; eauto.
  - intros k x [[<- <-]|[? ?]]%lookup_insert_Some; eauto.
  - intros k x p [[<- <-]|[? ?]]%lookup_insert_Some; [congruence|]. eauto.
  - intros k j x u [[<- <-]|[? Hx]]%lookup_insert_Some [[<- <-]|[? Hu]]%lookup_insert_Some; try done; eauto; congruence.
  - intros k x c [[<- <-]|[? ?]]%lookup_insert_Some; [congruence|]. eauto.
  - intros k x [[<- <-]|[? ?]]%lookup_insert_Some; [|eauto]. unfold phase_child_ok. by rewrite Hph.
  - intros k j x u c [[<- <-]|[? Hx]]%lookup_insert_Some [[<- <-]|[? Hu]]%lookup_insert_Some; try congruence; eauto.
  - intros c l p Hl Hpar. destruct (di_owner0 c l p Hl Hpar) as (k & x & Hx & Hxc). exists k, x.
    rewrite lookup_insert_ne; [done|]. congruence.
  - intros c l k x Hl Hs [[<- <-]|[? ?]]%lookup_insert_Some; [congruence|]. eauto.
  - intros p l k x Hl Hs [[<- <-]|[? ?]]%lookup_insert_Some; [congruence|]. eauto.
Qed.

(** The child lease and its transfer, in one transaction. *)
Lemma DbInv_activate d i t t' child :
  DbInv d -> db_transfers d !! i = Some t -> wt_phase t = ParentExcluded ->
  same_transfer t t' -> wt_phase t' = ChildActivated -> wt_child_lease_id t' = Some (wl_lease_id child) ->
  db_leases d !! wl_lease_id child = None -> wl_parent_lease_id child = Some (wt_parent_lease_id t) ->
  wl_scope_path child = wt_sub_scope_path t -> wl_state child <> LsReleased ->
  DbInv (mkDb (<[wl_lease_id child := child]> (db_leases d)) (<[i := t']> (db_transfers d))
           (db_permits d) (db_sessions d)).
Proof.
  intros HI Hi Hph (Hid & Hpar & Hsub & _) Hph' Hch Hnew Hcp Hcs Hst. pose proof HI as [].
  assert (denied t = true) as Hd by (unfold denied; by rewrite Hph).
  assert (wt_child_lease_id t = None) as Hcn.
  { specialize (di_phase0 i t Hi). unfold phase_child_ok in di_phase0. by rewrite Hph in di_phase0. }
  assert (forall k x c, db_transfers d !! k = Some x -> wt_child_lease_id x = Some c -> c <> wl_lease_id child) as Hfresh.
  { intros k x c Hx Hc ->. destruct (di_child0 k x _ Hx Hc) as (l & Hl & _). congruence. }
  assert (forall k x, db_transfers d !! k = Some x -> wt_parent_lease_id x <> wl_lease_id child) as Hpf.
  { intros k x Hx E. apply di_parent0 in Hx as [y Hy]. rewrite E, Hnew in Hy. done. }
  split; cbn.
  - intros k r [[<- <-]|[? ?]]%lookup_insert_Some; eauto.
  - intros k x [[<- <-]|[? ?]]%lookup_insert_Some; [|eauto]. rewrite Hid. eauto.
  - intros k x [[<- <-]|[? ?]]%lookup_insert_Some; apply lookup_insert_is_Some'; right; [rewrite Hpar|]; eauto.
  - intros k x p [[<- <-]|[? ?]]%lookup_insert_Some Hdx [[E <-]|[? Hp]]%lookup_insert_Some.
    + rewrite Hpar in E. by destruct (Hpf _ _ Hi).
    + rewrite Hpar in Hp. rewrite Hsub. eauto.
    + by destruct (Hpf k x).
    + eauto.
  - intros k j x u [[<- <-]|[? Hx]]%lookup_insert_Some [[<- <-]|[? Hu]]%lookup_insert_Some Hne Hdx Hdu Hpp; try done.
    + rewrite Hsub. apply (di_disjoint0 i j); try done. congruence.
    + rewrite Hsub. apply (di_disjoint0 k i); try done. congruence.
    + eauto.
  - intros k x c [[<- <-]|[? Hx]]%lookup_insert_Some Hc.
    + assert (c = wl_lease_id child) as -> by congruence. exists child. rewrite lookup_insert_eq.
      split; [done|]. by rewrite Hpar, Hsub.
    + destruct (di_child0 k x c Hx Hc) as (l & Hl & ? & ?). exists l. rewrite lookup_insert_ne; [done|].
      intros <-. by eapply Hfresh.
  - intros k x [[<- <-]|[? ?]]%lookup_insert_Some; [|eauto]. unfold phase_child_ok. rewrite Hph', Hch. eauto.
  - intros k j x u c [[<- <-]|[? Hx]]%lookup_insert_Some [[<- <-]|[? Hu]]%lookup_insert_Some Hc Hc'; try done.
    + by destruct (Hfresh j u c); try done; congruence.
    + by destruct (Hfresh k x c); try done; congruence.
    + eauto.
  - intros c l p [[<- <-]|[Hne Hl]]%lookup_insert_Some Hp.
    + exists i, t'. by rewrite lookup_insert_eq.
    + destruct (di_owner0 c l p Hl Hp) as (k & x & Hx & Hc). exists k, x. rewrite lookup_insert_ne; [done|].
      intros <-. congruence.
  - intros c l k x [[<- <-]|[? Hl]]%lookup_insert_Some Hs [[<- <-]|[? Hx]]%lookup_insert_Some Hc.
    + unfold denied. by rewrite Hph'.
    + by destruct (Hfresh k x _ Hx Hc).
    + unfold denied. by rewrite Hph'.
    + eauto.
  - intros p l k x [[<- <-]|[? Hl]]%lookup_insert_Some Hs [[<- <-]|[? Hx]]%lookup_insert_Some Hdx; try done.
    + rewrite Hpar. eauto.
    + eauto.
Qed.

(** ** Authority steps

    The abstract specification of the coordinator: what may happen to the tables and the
    tokens, one change at a time, each with the condition under which it is safe. *)

Definition put_lease (i : Z) (r : WriteScopeLeaseRow) (w : World) : World :=
  set_db (set_leases (<[i := r]> (db_leases (w_db w))) (w_db w)) w.
Definition put_transfer (i : Z) (t : WriteScopeTransferRow) (w : World) : World :=
  set_db (set_transfers (<[i := t]> (db_transfers (w_db w))) (w_db w)) w.
Definition put_permit (i : Z) (p : WriteScopePermitRow) (w : World) : World :=
  set_db (set_permits (<[i := p]> (db_permits (w_db w))) (w_db w)) w.

(** The authority of a lease, read off the tables. *)
Definition authority_of (d : Db) (i : Z) (r : WriteScopeLeaseRow) : EffectiveAuthority :=
  authority_new (wl_scope_path r)
    (wt_sub_scope_path <$> filter (fun t => denied t = true)
       (select wt_created_at_wall_ms wt_transfer_id (fun t => wt_parent_lease_id t =? i) (db_transfers d))).

Definition held_mutation (d : Db) (session : Z) (p : WriteScopePermitRow) : Prop :=
  (exists i, db_permits d !! i = Some p) /\ wp_session_id p = session /\ wp_state p = PsHeld /\ wp_kind p = PkMutation.
Definition permit_footprint (p : WriteScopePermitRow) : PermitFootprint :=
  for_mutation (wp_target_path p) (wp_influence_kind p).

Definition stored_footprint (p : WriteScopePermitRow) : PermitFootprint :=
  mkFootprint (wp_influence_root p) (wp_target_path p) (wp_influence_kind p).

(** The containment barrier proved this transfer's child gone. *)
Definition proven_gone (w : World) (t : WriteScopeTransferRow) : Prop :=
  exists c g, wt_containment_id t = Some c /\ wt_containment_generation t = Some g /\
    CallAwait (mkTicket c g) (ProvenEmpty g) ∈ w_calls w.

(** A token this process has issued and not lost. *)
Definition issued (w : World) (tk : WriteScopeToken) : Prop :=
  exists entry r, w_tokens w !! ws_lease_id tk = Some entry /\ (ws_generation tk, ws_core tk) ∈ entry /\
    db_leases (w_db w) !! ws_lease_id tk = Some r /\ wl_session_id r = ws_session_id tk /\
    wl_scope_path r = ws_scope tk.

Section steps.
(** The transfers whose parent may be restored: all of them, unless a statement is about a
    transfer that never is. *)
Context {restorable : Z -> Prop}.

Inductive astep : World -> World -> Prop :=
| as_tick w : astep w (next_tick w)
| as_event w e : astep w (log_event e w)
| as_call w c : astep w (log_call c w)
| as_kill w l : astep w (set_tokens (w_tokens w) (invalidate l (w_cores w)) w)
| as_shutdown w : astep w (set_shutting_down true w)
| as_issue w row row' :
    db_leases (w_db w) !! wl_lease_id row = Some row' -> same_lease row' row ->
    wl_generation row = wl_generation row' -> wl_state row' <> LsReleased ->
    astep w (issue_token row w).1
| as_root w r :
    db_leases (w_db w) !! wl_lease_id r = None -> wl_parent_lease_id r = None -> wl_state r = LsActive ->
    astep w (put_lease (wl_lease_id r) r w)
| as_lease w i r r' :
    db_leases (w_db w) !! i = Some r -> same_lease r r' ->
    is_legal_lease_transition (wl_state r) (wl_state r') = true ->
    wl_generation r <= wl_generation r' ->
    (wl_state r' = LsReleased -> wl_generation r < wl_generation r' /\
       forall j t, db_transfers (w_db w) !! j = Some t -> denied t = true -> wt_parent_lease_id t <> i) ->
    astep w (put_lease i r' w)
| as_prepare w t p :
    db_transfers (w_db w) !! wt_transfer_id t = None ->
    db_leases (w_db w) !! wt_parent_lease_id t = Some p -> wl_state p = LsTransferring ->
    wt_phase t = Prepared -> wt_child_lease_id t = None -> wt_containment_id t = None ->
    wt_execution_permit_id t = None ->
    astep w (put_transfer (wt_transfer_id t) t w)
| as_attach w i t c g permit identity time :
    db_transfers (w_db w) !! i = Some t -> wt_phase t = Prepared ->
    astep w (put_transfer i (attach_row c g permit identity time t) w)
| as_exclude w i t t' :
    db_transfers (w_db w) !! i = Some t -> same_transfer t t' -> wt_child_lease_id t' = wt_child_lease_id t ->
    wt_phase t = Prepared -> wt_phase t' = ParentExcluded -> excludable (w_db w) i t ->
    (forall p, held_mutation (w_db w) (wt_session_id t) p -> overlaps_scope (stored_footprint p) (wt_sub_scope_path t) = false) ->
    astep w (put_transfer i t' w)
| as_activate w i t t' child :
    db_transfers (w_db w) !! i = Some t -> wt_phase t = ParentExcluded -> same_transfer t t' ->
    wt_phase t' = ChildActivated -> wt_child_lease_id t' = Some (wl_lease_id child) ->
    db_leases (w_db w) !! wl_lease_id child = None ->
    wl_parent_lease_id child = Some (wt_parent_lease_id t) -> wl_scope_path child = wt_sub_scope_path t ->
    wl_session_id child = wt_session_id t -> wl_state child = LsActive ->
    wt_containment_id t' = wt_containment_id t -> wt_containment_generation t' = wt_containment_generation t ->
    astep w (set_db (mkDb (<[wl_lease_id child := child]> (db_leases (w_db w)))
                      (<[i := t']> (db_transfers (w_db w))) (db_permits (w_db w)) (db_sessions (w_db w))) w)
| as_abandon w i t t' :
    db_transfers (w_db w) !! i = Some t -> same_transfer t t' -> wt_child_lease_id t = None ->
    wt_child_lease_id t' = None -> wt_phase t' = TfCommitted ->
    wt_containment_id t' = wt_containment_id t -> wt_containment_generation t' = wt_containment_generation t ->
    astep w (put_transfer i t' w)
| as_terminal w i t t' :
    db_transfers (w_db w) !! i = Some t -> same_transfer t t' -> wt_child_lease_id t' = wt_child_lease_id t ->
    wt_phase t = ChildActivated -> wt_phase t' = ChildTerminal ->
    wt_containment_id t' = wt_containment_id t -> wt_containment_generation t' = wt_containment_generation t ->
    astep w (put_transfer i t' w)
| as_restore w i t t' c l :
    db_transfers (w_db w) !! i = Some t -> same_transfer t t' -> wt_child_lease_id t' = wt_child_lease_id t ->
    wt_phase t = ChildTerminal -> wt_phase t' = ParentRestored ->
    wt_containment_id t' = wt_containment_id t -> wt_containment_generation t' = wt_containment_generation t ->
    wt_child_lease_id t = Some c -> db_leases (w_db w) !! c = Some l -> wl_state l = LsReleased ->
    proven_gone w t -> restorable i ->
    astep w (put_transfer i t' w)
| as_commit w i t t' :
    db_transfers (w_db w) !! i = Some t -> same_transfer t t' -> wt_child_lease_id t' = wt_child_lease_id t ->
    wt_phase t = ParentRestored -> wt_phase t' = TfCommitted ->
    wt_containment_id t' = wt_containment_id t -> wt_containment_generation t' = wt_containment_generation t ->
    astep w (put_transfer i t' w)
| as_acquire w p l :
    db_permits (w_db w) !! wp_permit_id p = None -> wp_kind p = PkMutation -> wp_state p = PsHeld ->
    wp_influence_root p = wp_target_path p ->
    db_leases (w_db w) !! wp_lease_id p = Some l -> wl_generation l = wp_generation p ->
    wl_session_id l = wp_session_id p ->
    (exists entry core, w_tokens w !! wp_lease_id p = Some entry /\ (wp_generation p, core) ∈ entry) ->
    allows_path (authority_of (w_db w) (wp_lease_id p) l) (wp_target_path p) = true ->
    (forall q, held_mutation (w_db w) (wp_session_id p) q -> conflicts_with (permit_footprint p) (permit_footprint q) = false) ->
    astep w (put_permit (wp_permit_id p) p w)
| as_reserve w p :
    db_permits (w_db w) !! wp_permit_id p = None -> wp_kind p = PkExecution ->
    astep w (put_permit (wp_permit_id p) p w)
| as_release w i p time :
    db_permits (w_db w) !! i = Some p -> astep w (put_permit i (release_row time p) w)
| as_deleting w s :
    db_sessions (w_db w) !! s = Some SlActive ->
    astep w (set_db (set_sessions (<[s := SlDeleting]> (db_sessions (w_db w))) (w_db w)) w).

(** ** The invariant *)

(** Every issued token is of a lease that exists and not of a later generation; a released
    lease has moved past all of its tokens. *)
Definition TokInv (w : World) : Prop :=
  forall i entry g core, w_tokens w !! i = Some entry -> (g, core) ∈ entry ->
    (core < length (w_cores w))%nat /\
    exists r, db_leases (w_db w) !! i = Some r /\ g <= wl_generation r /\
      (wl_state r = LsReleased -> g < wl_generation r).
Definition Inv (w : World) : Prop := DbInv (w_db w) /\ TokInv w.

Lemma length_invalidate l flags : length (invalidate l flags) = length flags.
Proof using Type. induction l as [|i l IH]; cbn; [done|]. by rewrite length_insert. Qed.

(** The tables do not change, nor do the tokens but for their flags. *)
Lemma TokInv_same w w' :
  w_tokens w' = w_tokens w -> length (w_cores w') = length (w_cores w) ->
  db_leases (w_db w') = db_leases (w_db w) -> TokInv w -> TokInv w'.
Proof using Type. intros Ht Hc Hl HT i entry g core. rewrite Ht, Hc, Hl. apply HT. Qed.

Lemma TokInv_lease w i r r' :
  TokInv w -> db_leases (w_db w) !! i = Some r -> wl_generation r <= wl_generation r' ->
  (wl_state r = LsReleased -> wl_state r' = LsReleased) ->
  (wl_state r' = LsReleased -> wl_generation r < wl_generation r') ->
  TokInv (put_lease i r' w).
Proof using Type.
  intros HT Hi Hg Hf Hr k entry g core Hk Hin. destruct (HT k entry g core Hk Hin) as (Hc & x & Hx & Hle & Hlt).
  split; [done|]. cbn. destruct (decide (k = i)) as [->|Hne].
  - exists r'. rewrite lookup_insert_eq. split; [done|]. simplify_eq. split; [lia|]. intros H. specialize (Hr H). lia.
  - exists x. by rewrite lookup_insert_ne.
Qed.

Lemma TokInv_new_lease w d i r :
  TokInv w -> db_leases d = <[i := r]> (db_leases (w_db w)) -> db_leases (w_db w) !! i = None ->
  TokInv (set_db d w).
Proof using Type.
  intros HT Hd Hi k entry g core Hk Hin. destruct (HT k entry g core Hk Hin) as (Hc & x & Hx & Hr).
  split; [done|]. exists x. cbn. rewrite Hd, lookup_insert_ne; [done|]. congruence.
Qed.

Lemma TokInv_issue w row row' :
  TokInv w -> db_leases (w_db w) !! wl_lease_id row = Some row' -> wl_generation row = wl_generation row' ->
  wl_state row' <> LsReleased -> TokInv (issue_token row w).1.
Proof using Type.
  intros HT Hr Hg Hs k entry g core. cbn. rewrite length_invalidate, length_app. cbn [length].
  intros [[<- <-]|[Hne Hk]]%lookup_insert_Some Hin.
  - apply elem_of_app in Hin as [Hin|Hin].
    + destruct (w_tokens w !! wl_lease_id row) as [e|] eqn:He; [|set_solver].
      destruct (HT _ _ _ _ He Hin) as (Hc & x & Hx). split; [lia|]. by exists x.
    + apply list_elem_of_singleton in Hin as [= -> ->]. split; [lia|]. exists row'. split; [done|]. split; [lia|done].
  - destruct (HT _ _ _ _ Hk Hin) as (Hc & x & Hx). split; [lia|]. by exists x.
Qed.

Lemma legal_not_from_released s s' : is_legal_lease_transition s s' = true -> s <> LsReleased.
Proof using Type. by destruct s, s'. Qed.

Lemma Inv_put_transfer w i t t' :
  Inv w -> db_transfers (w_db w) !! i = Some t -> same_transfer t t' ->
  wt_child_lease_id t' = wt_child_lease_id t -> (phase_child_ok t -> phase_child_ok t') ->
  (denied t' = true -> excludable (w_db w) i t) ->
  (denied t' = false -> forall c l, wt_child_lease_id t = Some c -> db_leases (w_db w) !! c = Some l ->
     wl_state l = LsReleased) ->
  Inv (put_transfer i t' w).
Proof using Type.
  intros [HI HT] Hi Hs Hc Hp He Hr. split; [|by apply (TokInv_same w)].
  apply (DbInv_transfer_update _ _ t); try done. apply Hp, (di_phase _ HI i t Hi).
Qed.

(** Phases in a goal or hypothesis about a transfer row. *)
Ltac by_phase :=
  unfold denied, phase_child_ok in *;
  repeat match goal with H : wt_phase _ = _ |- _ => rewrite H in *; clear H end;
  repeat match goal with H : wt_child_lease_id ?t' = wt_child_lease_id _ |- context [wt_child_lease_id ?t'] => rewrite H end;
  try done; try congruence.

Lemma astep_inv w w' : astep w w' -> Inv w -> Inv w'.
Proof using Type.
  intros Hs HInv. pose proof HInv as [HI HT].
  destruct Hs; try (split; [by destruct HI|by apply (TokInv_same w)]).
  - split; [exact HI|]. apply (TokInv_same w); [done| |done|done]. apply length_invalidate.
  - split; [done|]. by eapply TokInv_issue.
  - split; [apply DbInv_root_lease; try done; congruence|]. by eapply TokInv_new_lease.
  - apply legal_not_from_released in H1 as Hn. split.
    + apply (DbInv_lease_update _ _ r); try done. intros Hr. by apply H3.
    + apply (TokInv_lease _ _ r); try done. intros Hr. by apply H3.
  - split; [|by apply (TokInv_same w)]. by apply DbInv_transfer_insert.
  - pose proof (di_phase _ HI i t H) as Hp. apply (Inv_put_transfer _ _ t); try done.
    + intros Hd. by apply DbInv_excludable.
    + intros _ c' l Hc. by_phase.
  - apply (Inv_put_transfer _ _ t); try done; by_phase.
  - split; [|by eapply TokInv_new_lease]. eapply DbInv_activate; eauto. congruence.
  - apply (Inv_put_transfer _ _ t); try done; by_phase.
  - apply (Inv_put_transfer _ _ t); try done; [by_phase| |by_phase].
    intros _. apply DbInv_excludable; try done. by_phase.
  - apply (Inv_put_transfer _ _ t); try done; by_phase.
  - apply (Inv_put_transfer _ _ t); try done; [by_phase..|].
    intros _ c l Hc Hl. destruct (decide (wl_state l = LsReleased)) as [|Hn]; [done|].
    pose proof (di_live _ HI c l i t Hl Hn H Hc) as Hd. by_phase.
Qed.
Lemma asteps_inv w w' : rtc astep w w' -> Inv w -> Inv w'.
Proof using Type. induction 1; eauto using astep_inv. Qed.
End steps.
