(* ===== verification/WriteScopeRefine.v ===== *)
(** Every coordinator method, whatever the database, the backend, the barrier and the host
    answer and wherever it fails or dies, is a sequence of authority steps. *)

From S2P Require Import Prelude.
From S2P Require Import WriteScopeDb.
From S2P Require Import WriteScope.
From S2P Require Import WriteScopeInv.
From stdpp Require Import options.
Set Warnings "-clear-no-such-hyp".

Section refine.
Context `{Host} `{ScopedWriteBackend} `{ContainmentBarrier} {restorable : Z -> Prop}.
Local Abbreviation astep := (WriteScopeInv.astep (restorable := restorable)).

(** A computation that makes authority steps and ends, if it returns, in [Q]. *)
Definition safe {A} (m : WS A) (w : World) (Q : World -> A -> Prop) : Prop :=
  wp m (fun w' r => rtc astep w w' /\ match r with Ok a => Q w' a | _ => True end) w.

Lemma safe_mono {A} (m : WS A) w (P Q : World -> A -> Prop) :
  safe m w P -> (forall w' a, rtc astep w w' -> P w' a -> Q w' a) -> safe m w Q.
Proof using Type.
  intros Hm HPQ. eapply wp_mono, Hm. intros w' [a|e|] [Hs Ha]; split; auto.
Qed.
Lemma safe_ret {A} (a : A) w (Q : World -> A -> Prop) : Q w a -> safe (mret a) w Q.
Proof using Type. intros. by split. Qed.
Lemma safe_throw {A} e w (Q : World -> A -> Prop) : safe (throw e) w Q.
Proof using Type. by split. Qed.
Lemma safe_of_result {A} (r : result WriteScopeError A) w (Q : World -> A -> Prop) :
  (forall a, r = Ok a -> Q w a) -> safe (of_result r) w Q.
Proof using Type. intros HQ. split; [done|]. cbn. destruct r; auto. Qed.
Lemma safe_asks {A} (f : World -> A) w (Q : World -> A -> Prop) : Q w (f w) -> safe (asks f) w Q.
Proof using Type. by split. Qed.
Lemma safe_step f w (Q : World -> unit -> Prop) : astep w (f w) -> Q (f w) tt -> safe (modifies f) w Q.
Proof using Type. split; [by apply rtc_once|done]. Qed.
Lemma safe_bind {A B} (m : WS A) (f : A -> WS B) w P (Q : World -> B -> Prop) :
  safe m w P -> (forall w' a, rtc astep w w' -> P w' a -> safe (f a) w' Q) -> safe (m ≫= f) w Q.
Proof using Type.
  intros Hm Hf. apply wp_bind. eapply wp_mono, Hm. intros w' [a|e|] [Hs Ha]; try done.
  eapply wp_mono, Hf; [|done..]. intros w'' r [Hs' Hr]. split; [by etrans|done].
Qed.
Lemma safe_attempt {A} (m : WS A) w (Q : World -> A -> Prop) :
  safe m w Q -> safe (attempt m) w (fun w' r => match r with Ok a => Q w' a | Err _ => True | Panic => False end).
Proof using Type. intros Hm. apply wp_attempt. eapply wp_mono, Hm. by intros w' [a|e|] []. Qed.
Lemma safe_ignoring {A} (m : WS A) w (Q : World -> A -> Prop) :
  safe m w Q -> safe (ignoring m) w (fun _ _ => True).
Proof using Type. intros Hm. eapply safe_bind; [by apply safe_attempt|]. intros. by apply safe_ret. Qed.
Lemma safe_emit e w (Q : World -> unit -> Prop) : Q (log_event e w) tt -> safe (emit e) w Q.
Proof using Type. intros. apply safe_step; [constructor|done]. Qed.
Lemma safe_tick w : safe tick w (fun w' _ => w' = next_tick w).
Proof using Type.
  unfold safe. apply wp_tick; split; try done; apply rtc_once; constructor.
Qed.

(** A database access: one step from the ticked world, or none. *)
Lemma safe_db {A} (op : DbOp A) w (Q : World -> A -> Prop) :
  (forall d a, op (w_db w) = Some (d, a) -> rtc astep (next_tick w) (set_db d (next_tick w)) /\ Q (set_db d (next_tick w)) a) ->
  safe (db op) w Q.
Proof using Type.
  intros Ho. assert (rtc astep w (next_tick w)) as Ht by (apply rtc_once; constructor).
  apply wp_db; [done..|]. intros d a Hd. destruct (Ho d a Hd) as [Hs HQ]. split; [by etrans|done].
Qed.
Lemma set_db_tick w : set_db (w_db w) (next_tick w) = next_tick w.
Proof using Type. by destruct w. Qed.

(** Nothing but time has passed. *)
Definition quiet (w w' : World) : Prop :=
  w_db w' = w_db w /\ w_tokens w' = w_tokens w /\ w_cores w' = w_cores w /\ w_calls w' = w_calls w.
#[global] Instance quiet_preorder : PreOrder quiet.
Proof using Type. split; [done|]. intros a b c (?&?&?&?) (?&?&?&?). repeat split; congruence. Qed.

Lemma safe_read {A} (f : Db -> A) w :
  safe (db (fun d => Some (d, f d))) w (fun w' a => quiet w w' /\ a = f (w_db w)).
Proof using Type.
  apply safe_db. intros d a [= <- <-].
  rewrite set_db_tick. by split.
Qed.

(** ** Reads *)

Lemma safe_lease i w : safe (lease i) w (fun w' r => quiet w w' /\ db_leases (w_db w) !! i = Some r).
Proof using Type.
  eapply safe_bind; [apply safe_read|]. cbn. intros w' r _ [Hd ->].
  apply safe_of_result. intros a Ha. by apply ok_or_Ok in Ha.
Qed.
Lemma safe_transfer i w : safe (transfer i) w (fun w' r => quiet w w' /\ db_transfers (w_db w) !! i = Some r).
Proof using Type.
  eapply safe_bind; [apply safe_read|]. cbn. intros w' r _ [Hd ->].
  apply safe_of_result. intros a Ha. by apply ok_or_Ok in Ha.
Qed.
Lemma safe_effective_authority i w :
  safe (effective_authority i) w (fun w' a => quiet w w' /\
    exists r, db_leases (w_db w) !! i = Some r /\ a = authority_of (w_db w) i r).
Proof using Type.
  eapply safe_bind; [apply safe_lease|]. cbn. intros w1 r _ [Hq Hr].
  eapply safe_bind; [apply safe_read|].
  cbn. intros w2 l _ [Hq2 ->]. apply safe_ret. split; [by etrans|]. exists r. split; [done|].
  destruct Hq as [-> _]. done.
Qed.
Lemma safe_effective_path p w : safe (effective_path p) w (fun w' _ => quiet w w').
Proof using Type.
  eapply safe_bind; [apply safe_tick|]. cbn. intros w' n _ ->. by apply safe_ret.
Qed.

(** ** Database updates *)

Lemma safe_release_permit i time w :
  safe (db (release_write_scope_permit i time)) w (fun w' _ =>
    db_leases (w_db w') = db_leases (w_db w) /\ db_transfers (w_db w') = db_transfers (w_db w) /\
    w_tokens w' = w_tokens w /\ w_calls w' = w_calls w).
Proof using Type.
  apply safe_db. intros d a. unfold release_write_scope_permit.
  destruct (db_permits (w_db w) !! i) as [p|] eqn:Hp.
  - case_bool_decide; intros [= <- <-].
    + split; [|done]. apply rtc_once. by apply (as_release (next_tick w) i p time).
    + rewrite set_db_tick. by split.
  - intros [= <- <-]. rewrite set_db_tick. by split.
Qed.

(** The database's own part of a lease compare-and-swap. *)
Lemma cas_lease_update_row cas d r :
  db_leases d !! cl_lease_id cas = Some r -> cas_lease_matches cas r = true ->
  forall u, cas_lease_update cas d = Some u ->
  u = Some (set_leases (<[wl_lease_id r := cas_lease_row cas r]> (db_leases d)) d).
Proof using Type.
  intros Hr Hm u. unfold cas_lease_update. rewrite Hr, Hm. unfold update_lease.
  destruct (lease_triggers _ _); [|done]. by intros [= <-].
Qed.
Lemma cas_lease_row_same cas r : same_lease r (cas_lease_row cas r).
Proof using Type. done. Qed.
Lemma legal_transitions_agree s s' : is_legal_lease_transition s s' = can_transition_to s s'.
Proof using Type. by destruct s, s'. Qed.

(** A lease compare-and-swap from the row that is in the table. *)
Lemma safe_cas_lease current next g rel w :
  Inv w -> db_leases (w_db w) !! wl_lease_id current = Some current -> wl_generation current <= g ->
  (next = LsReleased -> wl_generation current < g /\
     forall j t, db_transfers (w_db w) !! j = Some t -> denied t = true -> wt_parent_lease_id t <> wl_lease_id current) ->
  safe (cas_lease current next g rel) w (fun w' o => exists row, o = Some row /\
    same_lease current row /\ wl_state row = next /\ wl_generation row = g /\
    w_db w' = w_db (put_lease (wl_lease_id current) row w) /\ w_tokens w' = w_tokens w /\ w_calls w' = w_calls w).
Proof using Type.
  intros HI Hcur Hg Hrel. unfold cas_lease.
  destruct (can_transition_to (wl_state current) next) eqn:Hcan; [|by apply safe_throw]. cbn [negb].
  eapply safe_bind; [by apply (safe_asks _ _ (fun w' _ => w' = w))|]. intros w1 time _ ->.
  set (cas := mkCasLease _ _ _ _ _ _ _ _).
  eapply (safe_bind _ _ _ (fun w' o => o = Some (cas_lease_row cas current) /\
    w_db w' = w_db (put_lease (wl_lease_id current) (cas_lease_row cas current) w) /\
    w_tokens w' = w_tokens w /\ w_calls w' = w_calls w)).
  - apply safe_db. intros d a. unfold cas_write_scope_lease.
    case_match; [done|]. case_match; [done|]. cbn [mbind option_bind].
    destruct (cas_lease_update cas (w_db w)) as [u|] eqn:Hu; [|done]. cbn.
    eapply cas_lease_update_row in Hu; [|exact Hcur|].
    2: { unfold cas_lease_matches. cbn. rewrite bool_decide_true by done. by rewrite !Z.eqb_refl. }
    subst u. intros [= <- <-]. cbn. rewrite lookup_insert_eq. split; [|done].
    apply rtc_once. apply (as_lease (next_tick w) _ current); cbn; try done.
    by rewrite legal_transitions_agree.
  - intros w2 o _ (-> & Hd & Ht & Hc). eapply safe_bind.
    + instantiate (1 := fun w' _ => w_db w' = w_db w2 /\ w_tokens w' = w_tokens w2 /\ w_calls w' = w_calls w2).
      case_match; [|by apply safe_ret]. apply safe_step; [constructor|done].
    + intros w3 [] _ (Hd' & Ht' & Hc'). apply safe_ret. exists (cas_lease_row cas current).
      repeat split; congruence.
Qed.
(** What a phase advance writes. *)
Definition patched (cur : WriteScopeTransferRow) (next : TransferPhase) (patch : CasPatch)
    (row : WriteScopeTransferRow) : Prop :=
  same_transfer cur row /\ wt_phase row = next /\
  wt_child_lease_id row = (match cp_child_lease_id patch with Some id => Some id | None => wt_child_lease_id cur end) /\
  wt_containment_id row = (match cp_containment_id patch with Some id => Some id | None => wt_containment_id cur end) /\
  wt_containment_generation row =
    (match cp_containment_generation patch with Some g => Some g | None => wt_containment_generation cur end) /\
  wt_version row = wt_version cur + 1 /\ wt_prepare_parent_generation row = wt_prepare_parent_generation cur.

Lemma safe_cas_transfer current next patch w :
  Inv w ->
  (forall cur row, db_transfers (w_db w) !! wt_transfer_id current = Some cur -> wt_phase cur = wt_phase current ->
     phase_next (wt_phase cur) = Some next -> patched cur next patch row ->
     astep (next_tick w) (put_transfer (wt_transfer_id current) row (next_tick w))) ->
  safe (cas_transfer current next patch) w (fun w' row => exists cur,
    db_transfers (w_db w) !! wt_transfer_id current = Some cur /\ wt_phase cur = wt_phase current /\
    phase_next (wt_phase cur) = Some next /\ patched cur next patch row /\
    w_db w' = w_db (put_transfer (wt_transfer_id current) row w) /\ w_tokens w' = w_tokens w /\ w_calls w' = w_calls w).
Proof using Type.
  intros [HI _] Hstep. unfold cas_transfer. case_bool_decide as Hn; [|by apply safe_throw]. cbn [negb].
  eapply safe_bind; [by apply (safe_asks _ _ (fun w' _ => w' = w))|]. intros w1 time _ ->.
  set (cas := mkCasTransfer _ _ _ _ _ _ _ _ _ _ _ _ _ _).
  eapply (safe_bind _ _ _ (fun w' o => forall row, o = Some row -> exists cur,
    db_transfers (w_db w) !! wt_transfer_id current = Some cur /\ wt_phase cur = wt_phase current /\
    phase_next (wt_phase cur) = Some next /\ patched cur next patch row /\
    w_db w' = w_db (put_transfer (wt_transfer_id current) row w) /\ w_tokens w' = w_tokens w /\ w_calls w' = w_calls w)).
  - apply safe_db. intros d a. unfold cas_write_scope_transfer_phase.
    destruct (transfer_phase_ordinal (ct_expected_phase cas)) as [from|]; cbn [mbind option_bind]; [|done].
    destruct (transfer_phase_ordinal (ct_new_phase cas)) as [to|]; cbn [mbind option_bind]; [|done].
    case_match; [done|]. unfold get_transfer. cbn [ct_transfer_id cas].
    destruct (db_transfers (w_db w) !! wt_transfer_id current) as [cur|] eqn:Hcur.
    2: { intros [= <- <-]. rewrite set_db_tick. split; [done|by intros ? [=]]. }
    destruct (cas_transfer_matches cas cur) eqn:Hm; cbn [negb].
    2: { intros [= <- <-]. rewrite set_db_tick. split; [done|by intros ? [=]]. }
    unfold update_transfer. destruct (transfer_triggers _ _ && _); [|done]. cbn [mbind option_bind].
    apply andb_true_iff in Hm as [Hph _]. apply bool_decide_eq_true in Hph. cbn in Hph.
    rewrite (di_transfer_key _ HI _ _ Hcur). intros [= <- <-]. cbn. rewrite lookup_insert_eq.
    assert (patched cur next patch (cas_transfer_row cas cur)) as Hpatch by done.
    split.
    + apply rtc_once. apply (Hstep cur); [done|done|congruence|done].
    + intros row [= <-]. exists cur. repeat split; congruence.
  - intros w2 o _ Ho. apply safe_of_result. intros row Hrow. apply Ho. by apply ok_or_Ok in Hrow.
Qed.

(** ** Tokens and root leases *)

Lemma safe_issue_token row row' w :
  db_leases (w_db w) !! wl_lease_id row = Some row' -> same_lease row' row ->
  wl_generation row = wl_generation row' -> wl_state row' <> LsReleased ->
  safe (issue_token row) w (fun w' tk => w' = (issue_token row w).1 /\ ws_lease_id tk = wl_lease_id row /\
    ws_generation tk = wl_generation row).
Proof using Type.
  intros. split; [|by cbn]. apply rtc_once. by eapply as_issue.
Qed.
Lemma safe_invalidate_all i w : safe (invalidate_all_tokens i) w
  (fun w' _ => w_db w' = w_db w /\ w_tokens w' = w_tokens w /\ w_calls w' = w_calls w).
Proof using Type. apply safe_step; [constructor|done]. Qed.

Lemma safe_open_root_lease s o sc w :
  safe (open_root_lease_locked s o sc) w (fun _ _ => True).
Proof using Type.
  eapply safe_bind; [by apply (safe_asks _ _ (fun w' _ => w' = w))|]. intros w1 time _ ->.
  eapply safe_bind; [by apply (safe_asks _ _ (fun w' _ => w' = w))|]. intros w1 id _ ->.
  set (r := mkLeaseRow _ _ _ _ _ _ _ _ _ _ _ _).
  eapply (safe_bind _ _ _ (fun w' row => row = r /\ db_leases (w_db w') !! id = Some r)).
  - apply safe_db. intros d a. unfold insert_write_scope_lease, insert_lease. cbn [wl_lease_id r].
    case_bool_decide as Hn; [done|]. destruct (lease_keys_ok _ _); [|done]. cbn [mbind option_bind]. unfold get_lease.
    cbn [db_leases set_leases wl_lease_id r]. rewrite lookup_insert_eq. intros [= <- <-]. split; [|split; [done|apply lookup_insert_eq]].
    apply rtc_once. apply (as_root (next_tick w) r); [|done..]. by apply eq_None_not_Some.
  - intros w2 row _ [-> Hr]. eapply safe_bind; [by apply (safe_emit _ _ (fun w' _ => w_db w' = w_db w2))|].
    intros w3 [] _ Hd. eapply safe_mono; [by apply (safe_issue_token r r); rewrite ?Hd|done].
Qed.
Lemma safe_ensure_root s o sc w : safe (ensure_session_root_lease s o sc) w (fun _ _ => True).
Proof using Type.
  eapply safe_bind; [eapply safe_bind; [apply safe_read|]; intros; by apply (safe_ret _ _ (fun _ _ => True))|].
  intros w1 [id|] _ _; [by apply safe_ret|].
  eapply safe_bind; [apply safe_open_root_lease|]. intros. by apply safe_ret.
Qed.
(** ** Mutation permits *)

Lemma safe_validate_token tk w :
  safe (validate_token tk) w (fun w' _ => quiet w w' /\ token_is_valid w tk = true /\
    exists l, db_leases (w_db w) !! ws_lease_id tk = Some l /\ wl_generation l = ws_generation tk).
Proof using Type.
  eapply safe_bind; [apply safe_lease|]. cbn. intros w1 l _ [Hq Hl].
  eapply safe_bind; [by apply (safe_asks _ _ (fun w' v => w' = w1 /\ v = token_is_valid w1 tk))|].
  intros w2 v _ [-> ->].
  assert (token_is_valid w1 tk = token_is_valid w tk) as Hv.
  { unfold token_is_valid. by destruct Hq as (_&_&->&_). }
  rewrite Hv. destruct (token_is_valid w tk); [|by apply safe_throw]. cbn [negb orb].
  destruct (Z.eqb_spec (wl_generation l) (ws_generation tk)); [|by apply safe_throw].
  apply safe_ret. repeat split; try apply Hq. eauto.
Qed.

Lemma allows_path_find a p :
  path_contains (ea_base a) p = true -> List.find (fun e => path_contains e p) (ea_exclusions a) = None ->
  allows_path a p = true.
Proof using Type.
  intros Hb Hf. unfold allows_path. rewrite Hb. cbn [negb]. rewrite negb_true_iff, <- not_true_iff_false, existsb_elem.
  intros (x & Hx & Hc). rewrite (proj1 (find_none_elem _ _) Hf x Hx) in Hc. done.
Qed.

Lemma conflicting_none fp session d p :
  (0 <? zlen (conflicting fp (select wp_acquired_at_wall_ms wp_permit_id
     (fun r => (wp_session_id r =? session) && bool_decide (wp_state r = PsHeld)) (db_permits d)))) = false ->
  held_mutation d session p -> conflicts_with fp (permit_footprint p) = false.
Proof using Type.
  intros Hz ([i Hi] & Hs & Hst & Hk). apply not_true_is_false. intros Hc.
  assert (p ∈ conflicting fp (select wp_acquired_at_wall_ms wp_permit_id
     (fun r => (wp_session_id r =? session) && bool_decide (wp_state r = PsHeld)) (db_permits d))) as Hin.
  { apply list_elem_of_filter. split; [done|]. apply list_elem_of_filter. split; [done|].
    apply select_elem. rewrite bool_decide_true by done. split; [|eauto]. by rewrite Hs, Z.eqb_refl. }
  apply list_elem_of_split in Hin as (l1 & l2 & E). rewrite E in Hz. unfold zlen in Hz. rewrite length_app in Hz.
  cbn [length] in Hz. apply Z.ltb_ge in Hz. lia.
Qed.

(** The insertion of a mutation permit, once it has been authorized. *)
Lemma safe_insert_mutation_permit w p l :
  wp_kind p = PkMutation -> wp_state p = PsHeld -> wp_influence_root p = wp_target_path p ->
  db_leases (w_db w) !! wp_lease_id p = Some l -> wl_generation l = wp_generation p ->
  wl_session_id l = wp_session_id p ->
  (exists entry core, w_tokens w !! wp_lease_id p = Some entry /\ (wp_generation p, core) ∈ entry) ->
  allows_path (authority_of (w_db w) (wp_lease_id p) l) (wp_target_path p) = true ->
  (forall q, held_mutation (w_db w) (wp_session_id p) q -> conflicts_with (permit_footprint p) (permit_footprint q) = false) ->
  safe (db (insert_write_scope_permit p)) w (fun w' r => r = p).
Proof using Type.
  intros. apply safe_db. intros d a. unfold insert_write_scope_permit. case_bool_decide as Hn; [done|].
  destruct (permit_keys_ok _ _); [|done]. intros [= <- <-]. split; [|done]. apply rtc_once.
  eapply (as_acquire (next_tick w) p l); try done. by apply eq_None_not_Some.
Qed.

Lemma safe_acquire tk target kind w :
  issued w tk ->
  safe (acquire_mutation_permit tk target kind) w (fun _ mp =>
    exists l, db_leases (w_db w) !! ws_lease_id tk = Some l /\ wl_generation l = ws_generation tk /\
      token_is_valid w tk = true /\
      allows_path (authority_of (w_db w) (ws_lease_id tk) l) (mp_effective_target mp) = true).
Proof using Type.
  intros (entry & r & He & Hin & Hr & Hses & _).
  eapply safe_bind; [apply safe_validate_token|]. cbn. intros w1 [] _ (Hq1 & Hv & l & Hl & Hg).
  assert (l = r) as -> by congruence.
  eapply safe_bind; [apply safe_effective_authority|]. cbn. intros w2 a _ (Hq2 & r' & Hr' & ->).
  assert (r' = r) as -> by (destruct Hq1; congruence).
  eapply safe_bind; [apply safe_effective_path|]. intros w3 res _ Hq3.
  eapply safe_bind.
  { apply (safe_of_result _ _ (fun w' _ => w' = w3)). done. }
  intros w4 eff _ ->.
  assert (quiet w w3) as Hq by (by transitivity w1; [|transitivity w2]).
  destruct Hq1 as [Hd1 _]. rewrite Hd1. clear w1 w2 Hd1 Hr' Hq2 Hq3.
  destruct (path_contains _ eff) eqn:Hb; [|by apply safe_throw]. cbn [negb].
  destruct (List.find _ _) eqn:Hf; [by apply safe_throw|].
  pose proof (allows_path_find _ _ Hb Hf) as Hal.
  eapply safe_bind; [apply safe_read|]. cbn. intros w4 held _ [Hq4 ->].
  destruct (0 <? _) eqn:Hz; [by apply safe_throw|].
  eapply safe_bind; [by apply (safe_asks _ _ (fun w' _ => w' = w4))|]. intros w5 time _ ->.
  eapply safe_bind; [by apply (safe_asks _ _ (fun w' _ => w' = w4))|]. intros w5 id _ ->.
  assert (quiet w w4) as (Hd4 & Ht4 & _) by (by etrans).
  eapply safe_bind; [apply (safe_insert_mutation_permit w4 _ r); cbn; rewrite ?Hd4, ?Ht4; try done; eauto|].
  { intros q Hqm. eapply conflicting_none; [|exact Hqm]. destruct Hq as [<- _]. exact Hz. }
  intros w5 row _ ->. eapply safe_bind; [apply safe_effective_path|]. intros w6 again _ _.
  eapply safe_bind; [by apply (safe_of_result _ _ (fun w' _ => w' = w6))|]. intros w7 eff' _ ->.
  case_bool_decide as Heq; cbn [negb].
  - apply safe_ret. exists r. subst eff'. done.
  - eapply safe_bind; [|intros; apply safe_throw].
    eapply safe_bind; [by apply (safe_asks _ _ (fun w' _ => w' = w6))|]. intros w7 time' _ ->.
    eapply safe_mono; [eapply safe_ignoring, safe_release_permit|]. by instantiate (1 := fun _ _ => True).
Qed.

Lemma safe_revalidate tk mp w :
  safe (revalidate_mutation_permit tk mp) w (fun _ _ =>
    exists l, db_leases (w_db w) !! ws_lease_id tk = Some l /\ wl_generation l = ws_generation tk /\
      token_is_valid w tk = true /\
      allows_path (authority_of (w_db w) (ws_lease_id tk) l) (mp_effective_target mp) = true).
Proof using Type.
  eapply safe_bind; [apply safe_validate_token|]. cbn. intros w1 [] _ (Hq1 & Hv & l & Hl & Hg).
  eapply safe_bind; [apply safe_effective_path|]. intros w2 res _ Hq2.
  eapply safe_bind; [by apply (safe_of_result _ _ (fun w' _ => w' = w2))|]. intros w3 cur _ ->.
  case_bool_decide as Hc; [|by apply safe_throw]. cbn [negb]. subst cur.
  eapply safe_bind; [apply safe_effective_authority|]. cbn. intros w3 a _ (_ & r' & Hr' & ->).
  assert (w_db w2 = w_db w) as Hd by (destruct Hq1, Hq2; congruence). rewrite Hd in *.
  assert (r' = l) as -> by congruence.
  destruct (allows_path _ _) eqn:Ha; [|by apply safe_throw]. apply safe_ret. eauto.
Qed.
Lemma safe_release_mutation mp w : safe (release_mutation_permit mp) w (fun _ _ => True).
Proof using Type.
  eapply safe_bind; [by apply (safe_asks _ _ (fun w' _ => w' = w))|]. intros w1 time _ ->.
  eapply safe_bind; [apply safe_release_permit|]. intros. by apply safe_ret.
Qed.
(** ** The transfer barrier *)

Lemma safe_ancestry fuel : forall chain cur w,
  safe (ancestry_loop fuel chain cur) w (fun w' _ => quiet w w').
Proof using Type.
  induction fuel as [|fuel IH]; intros chain cur w; [by apply safe_ret|].
  destruct cur as [id|]; [|by apply safe_ret]. cbn [ancestry_loop]. case_match; [by apply safe_ret|].
  eapply safe_bind; [apply safe_read|]. intros w1 r _ [Hq _].
  eapply safe_mono; [apply IH|]. intros w2 c _ Hq2. by etrans.
Qed.

(** What does not block a transfer of [scope]: mutation permits elsewhere. *)
Definition clear_of (scope : CanonicalScope) (p : WriteScopePermitRow) : Prop :=
  wp_kind p = PkMutation -> overlaps_scope (stored_footprint p) scope = false.

Lemma safe_blocking_loop chain scope held : forall w,
  safe (blocking_loop chain scope held) w (fun w' l => quiet w w' /\ (l = [] -> Forall (clear_of scope) held)).
Proof using Type.
  induction held as [|p held IH]; intros w; [apply safe_ret; by split|]. cbn [blocking_loop].
  destruct (path_contains (wp_influence_root p) scope || path_contains scope (wp_influence_root p)) eqn:Ho; cbn [negb].
  - eapply (safe_bind _ _ _ (fun w' (own : bool) => quiet w w' /\ (own = true -> wp_kind p = PkExecution))).
    + case_bool_decide as Hk; [|by apply safe_ret].
      eapply safe_bind; [apply safe_read|]. intros w1 h _ [Hq _]. by apply safe_ret.
    + intros w1 own _ [Hq Hown]. eapply safe_bind; [apply IH|]. intros w2 l _ [Hq2 Hl]. apply safe_ret.
      split; [by etrans|]. destruct own; [|done]. intros E. constructor; [|by apply Hl].
      intros Hk. rewrite Hown in Hk by done. done.
  - eapply safe_mono; [apply IH|]. intros w1 l _ [Hq Hl]. split; [done|]. intros E. constructor; [|by apply Hl].
    by intros _.
Qed.

Lemma safe_blocking session parent scope w :
  safe (blocking_permits session parent scope) w (fun w' l => quiet w w' /\
    (l = [] -> forall p, held_mutation (w_db w) session p -> overlaps_scope (stored_footprint p) scope = false)).
Proof using Type.
  eapply safe_bind; [apply safe_read|]. intros w1 held _ [Hq ->].
  eapply safe_bind.
  { eapply safe_bind; [by apply (safe_asks _ _ (fun w' _ => w' = w1))|]. intros w2 fuel _ ->. apply safe_ancestry. }
  intros w2 chain _ Hq2. eapply safe_mono; [apply safe_blocking_loop|]. intros w3 l _ [Hq3 Hl].
  split; [by transitivity w1; [|transitivity w2]|]. intros E p ([i Hi] & Hs & Hst & Hk). specialize (Hl E).
  rewrite Forall_forall in Hl. apply Hl; [|done]. apply select_elem. rewrite Hs, Z.eqb_refl, bool_decide_true by done. eauto.
Qed.

Lemma safe_update_abandon w i phase version time :
  Inv w ->
  safe (db (abandon_write_scope_transfer i phase version time)) w (fun w' o =>
    db_leases (w_db w') = db_leases (w_db w)).
Proof using Type.
  intros [HI _]. apply safe_db. intros d a. unfold abandon_write_scope_transfer.
  destruct (db_transfers (w_db w) !! i) as [t|] eqn:Ht; [|intros [= <- <-]; rewrite set_db_tick; by split].
  case_match eqn:Hm; [|intros [= <- <-]; rewrite set_db_tick; by split].
  apply andb_true_iff in Hm as [_ Hc]. apply bool_decide_eq_true in Hc.
  unfold update_transfer. destruct (_ && _); [|done]. cbn [mbind option_bind]. intros [= <- <-]. split; [|done].
  rewrite (di_transfer_key _ HI _ _ Ht). apply rtc_once. by apply (as_abandon (next_tick w) i t).
Qed.

Lemma safe_unwind p w : Inv w -> safe (unwind_to_active p) w (fun _ _ => True).
Proof using Type.
  intros HI. eapply safe_bind; [eapply safe_attempt, safe_read|]. intros w1 r Hs1 Hr.
  eapply (safe_bind _ _ _ (fun _ _ => True)); [|intros; by apply safe_emit].
  destruct r as [[cur|]|e|]; try by apply safe_ret. case_bool_decide as Hst; [|by apply safe_ret].
  destruct Hr as [(Hd & _) Hcur]. unfold get_lease in Hcur.
  assert (Inv w1) as HI1 by (by eapply asteps_inv).
  assert (wl_lease_id cur = wl_lease_id p) as Hid by (eapply (di_lease_key _ (proj1 HI)); eauto).
  eapply safe_ignoring, safe_cas_lease; [done| |lia|done]. rewrite Hd, Hid. done.
Qed.

Lemma safe_abandon_and_unwind p t w : Inv w -> safe (abandon_and_unwind p t) w (fun _ _ => True).
Proof using Type.
  intros HI. eapply safe_bind; [eapply safe_attempt, safe_read|]. intros w1 r Hs1 Hr.
  assert (Inv w1) as HI1 by (by eapply asteps_inv).
  eapply (safe_bind _ _ _ (fun _ _ => True)).
  2: { intros w2 [] Hs2 _. apply safe_unwind. by eapply asteps_inv. }
  destruct r as [[cur|]|e|]; try by apply safe_ret. destruct (_ && _) eqn:Hc; [|by apply safe_ret].
  eapply safe_bind; [by apply (safe_asks _ _ (fun w' _ => w' = w1))|]. intros w2 time _ ->.
  by eapply safe_ignoring, safe_update_abandon.
Qed.
(** Leases, tokens and transfers unchanged, and no new mutation permit. *)
Definition undisturbed (w w' : World) : Prop :=
  db_leases (w_db w') = db_leases (w_db w) /\ db_transfers (w_db w') = db_transfers (w_db w) /\
  w_tokens w' = w_tokens w /\ (forall s p, held_mutation (w_db w') s p -> held_mutation (w_db w) s p).
#[global] Instance undisturbed_preorder : PreOrder undisturbed.
Proof using Type.
  split; [done|]. intros a b c (?&?&?&?) (?&?&?&?). split; [congruence|]. split; [congruence|].
  split; [congruence|auto].
Qed.
Lemma quiet_undisturbed w w' : quiet w w' -> undisturbed w w'.
Proof using Type. intros (E & Ht & _). unfold undisturbed. rewrite E. done. Qed.

Lemma safe_reserve_permit p w :
  wp_kind p = PkExecution ->
  safe (db (insert_write_scope_permit p)) w (fun w' r => r = p /\ undisturbed w w').
Proof using Type.
  intros Hk. apply safe_db. intros d a. unfold insert_write_scope_permit. case_bool_decide as Hn; [done|].
  destruct (permit_keys_ok _ _); [|done]. intros [= <- <-]. split.
  - apply rtc_once. apply (as_reserve (next_tick w)); [|done]. by apply eq_None_not_Some.
  - split; [done|]. split; [done|]. split; [done|]. split; [done|].
    intros s q ([i Hi] & ? & ? & Hq). cbn in Hi. apply lookup_insert_Some in Hi as [[_ <-]|[_ Hi]]; [congruence|].
    split; [eauto|done].
Qed.

Lemma safe_release_and_throw {A} permit e w (Q : World -> A -> Prop) : safe (release_and_throw permit e) w Q.
Proof using Type.
  eapply (safe_bind _ _ _ (fun _ _ => True)); [|intros; apply safe_throw].
  eapply safe_bind; [by apply (safe_asks _ _ (fun w' _ => w' = w))|]. intros w1 time _ ->.
  eapply safe_ignoring, safe_release_permit.
Qed.
Lemma safe_logged_call {A} (n : nat) c (r : WriteScopeError + A) w (Q : World -> A -> Prop) :
  (forall a, r = inr a -> Q (log_call c w) a) ->
  safe (modifies (log_call c) ;; lift_sum r) w Q.
Proof using Type.
  intros HQ. eapply safe_bind; [apply (safe_step _ _ (fun w' _ => w' = log_call c w)); [constructor|done]|].
  intros w1 [] _ ->. destruct r as [e|a]; [apply safe_throw|]. by apply safe_ret, HQ.
Qed.
Lemma safe_terminate_and_throw {A} ticket permit e w (Q : World -> A -> Prop) :
  safe (terminate_and_throw ticket permit e) w Q.
Proof using Type.
  eapply (safe_bind _ _ _ (fun _ _ => True)); [|intros; apply safe_release_and_throw].
  eapply safe_ignoring, safe_bind; [apply safe_tick|]. intros w1 n _ ->.
  by apply (safe_logged_call n _ _ _ (fun _ _ => True)).
Qed.
Lemma safe_create r m l w : safe (create r m l) w (fun w' _ => undisturbed w w').
Proof using Type.
  eapply safe_bind; [apply safe_tick|]. intros w1 n _ ->. by apply (safe_logged_call n).
Qed.
Lemma safe_release_code r w : safe (prove_membership_and_release_user_code r) w (fun w' _ => undisturbed w w').
Proof using Type.
  eapply safe_bind; [apply safe_tick|]. intros w1 n _ ->. by apply (safe_logged_call n).
Qed.

(** The transfer row once its ownership is attached. *)
Definition attached (t t' : WriteScopeTransferRow) : Prop :=
  exists c g permit identity time, t' = attach_row c g permit identity time t.

Lemma safe_attach w i t c g permit identity time :
  Inv w -> db_transfers (w_db w) !! i = Some t -> wt_phase t = Prepared ->
  safe (db (attach_write_scope_transfer_ownership i c g permit identity time)) w (fun w' o => exists t',
    o = Some t' /\ attached t t' /\ db_leases (w_db w') = db_leases (w_db w) /\
    db_transfers (w_db w') = <[i := t']> (db_transfers (w_db w)) /\ w_tokens w' = w_tokens w /\
    forall s p, held_mutation (w_db w') s p -> held_mutation (w_db w) s p).
Proof using Type.
  intros [HI _] Ht Hp. apply safe_db. intros d a. unfold attach_write_scope_transfer_ownership. rewrite Ht.
  rewrite bool_decide_true by done. unfold update_transfer. destruct (_ && _); [|done]. cbn [mbind option_bind].
  rewrite (di_transfer_key _ HI _ _ Ht). unfold get_transfer. cbn [db_transfers set_transfers].
  rewrite lookup_insert_eq. intros [= <- <-]. split.
  - apply rtc_once. by apply (as_attach (next_tick w) i t c g permit identity time).
  - eexists. split; [done|]. split; [by do 5 eexists|]. done.
Qed.

Lemma safe_acquire_execution rq t p w :
  Inv w -> db_transfers (w_db w) !! wt_transfer_id t = Some t -> wt_phase t = Prepared ->
  safe (acquire_capability_permit_and_containment rq t p) w (fun w' _ => exists t', attached t t' /\
    db_leases (w_db w') = db_leases (w_db w) /\
    db_transfers (w_db w') = <[wt_transfer_id t := t']> (db_transfers (w_db w)) /\ w_tokens w' = w_tokens w /\
    forall s p, held_mutation (w_db w') s p -> held_mutation (w_db w) s p).
Proof using Type.
  intros HI Ht Hp. unfold acquire_capability_permit_and_containment.
  eapply (safe_bind _ _ _ (fun w' _ => undisturbed w w')).
  { destruct (rq_reachable_ancestor rq); [|by apply safe_ret].
    eapply safe_bind; [apply safe_effective_path|]. intros w1 r _ Hq. apply safe_of_result. intros.
    by apply quiet_undisturbed. }
  intros w1 anc Hs1 Hu1. eapply safe_bind; [by apply (safe_asks _ _ (fun w' _ => w' = w1))|]. intros w2 time _ ->.
  eapply safe_bind; [by apply (safe_asks _ _ (fun w' _ => w' = w1))|]. intros w2 id _ ->.
  eapply safe_bind; [by apply safe_reserve_permit|]. cbv beta. intros w2 permit Hs2 [-> Hu2].
  eapply safe_bind; [apply safe_tick|]. intros w3 n Hs3 ->.
  case_match; [apply safe_release_and_throw|].
  eapply safe_bind; [apply safe_tick|]. intros w4 n2 Hs4 ->.
  destruct (target_identity _ _) as [ident|]; [|apply safe_release_and_throw].
  eapply safe_bind; [eapply safe_attempt, safe_create|]. intros w5 [ticket|e|] Hs5 Hu5; [|apply safe_release_and_throw|done].
  eapply safe_bind; [by apply (safe_asks _ _ (fun w' _ => w' = w5))|]. intros w6 time' _ ->.
  assert (undisturbed w w5) as Hu by (transitivity w1; [done|]; by transitivity w2).
  assert (Inv w5) as HI5.
  { eapply asteps_inv; [|exact HI]. do 4 (etrans; [eassumption|]). done. }
  destruct Hu as (Hl & Htr & Htk & Hm).
  eapply safe_bind; [eapply safe_attempt, (safe_attach _ _ t); [done|by rewrite Htr|done]|].
  intros w6 [o|e|] Hs6 Ha; [|apply safe_terminate_and_throw|done].
  destruct Ha as (t' & -> & Hat & Hl6 & Htr6 & Htk6 & Hm6).
  destruct (from_reserved_and_persisted _ _) as [rec|e|]; [|apply safe_terminate_and_throw|by apply safe_of_result].
  eapply safe_bind; [eapply safe_attempt, safe_release_code|].
  intros w7 [[]|e|] Hs7 Hu7; [|apply safe_terminate_and_throw|done].
  apply safe_ret. exists t'. destruct Hu7 as (-> & -> & -> & Hm7). rewrite Hl6, Htr6, Htk6, Hl, Htr, Htk.
  split; [done|]. do 3 (split; [done|]). intros s q Hq. by apply Hm, Hm6, Hm7.
Qed.
(** The Prepared step, from the row that is in the table. *)
Lemma safe_prepare p t time w :
  Inv w -> db_leases (w_db w) !! wl_lease_id p = Some p -> wt_parent_lease_id t = wl_lease_id p ->
  wt_phase t = Prepared -> wt_child_lease_id t = None -> wt_containment_id t = None -> wt_execution_permit_id t = None ->
  safe (db (prepare_write_scope_transfer (mkCasLease (wl_lease_id p) (wl_state p) (wl_generation p) (wl_version p)
          LsTransferring (wl_generation p + 1) time false) t)) w (fun w' o => exists p', o = Some (p', t) /\
    same_lease p p' /\ wl_state p' = LsTransferring /\ wl_generation p' = wl_generation p + 1 /\
    db_leases (w_db w') = <[wl_lease_id p := p']> (db_leases (w_db w)) /\
    db_transfers (w_db w') = <[wt_transfer_id t := t]> (db_transfers (w_db w)) /\
    db_transfers (w_db w) !! wt_transfer_id t = None /\ w_tokens w' = w_tokens w /\
    forall s q, held_mutation (w_db w') s q -> held_mutation (w_db w) s q).
Proof using Type.
  intros HI Hp Htp Hph Hch Hco Hex. apply safe_db. intros d a. unfold prepare_write_scope_transfer.
  destruct (negb _) eqn:Hleg; [done|]. apply negb_false_iff in Hleg. cbn in Hleg. case_match; [done|].
  set (cas := mkCasLease _ _ _ _ _ _ _ _). destruct (cas_lease_update cas (w_db w)) as [u|] eqn:Hu; [|done].
  cbn [mbind option_bind]. eapply cas_lease_update_row in Hu; [|exact Hp|].
  2: { unfold cas_lease_matches. cbn. rewrite bool_decide_true by done. by rewrite !Z.eqb_refl. }
  subst u. set (p' := cas_lease_row cas p). unfold insert_transfer. cbn [db_transfers set_leases].
  case_bool_decide as Hn; [done|]. destruct (transfer_keys_ok _ _); [|done]. cbn [mbind option_bind].
  unfold get_lease, get_transfer. cbn [db_leases set_leases db_transfers set_transfers cl_lease_id].
  rewrite !lookup_insert_eq. cbn [mbind option_bind]. intros [= <- <-].
  apply eq_None_not_Some in Hn. split.
  - eapply rtc_l; [apply (as_lease (next_tick w) (wl_lease_id p) p p'); cbn; try done; lia|].
    apply rtc_once.
    apply (as_prepare (put_lease (wl_lease_id p) p' (next_tick w)) t p'); cbn; try done.
    rewrite Htp. apply lookup_insert_eq.
  - exists p'. done.
Qed.

(** The activation transaction. *)
Lemma safe_activate w row p child tcas time :
  db_leases (w_db w) !! wl_lease_id p = Some p -> wl_state p = LsTransferring ->
  db_transfers (w_db w) !! wt_transfer_id row = Some row -> wt_phase row = ParentExcluded ->
  wl_parent_lease_id child = Some (wt_parent_lease_id row) -> wl_scope_path child = wt_sub_scope_path row ->
  wl_session_id child = wt_session_id row -> wl_state child = LsActive ->
  ct_transfer_id tcas = wt_transfer_id row -> ct_new_phase tcas = ChildActivated ->
  safe (db (activate_write_scope_child child tcas (mkCasLease (wl_lease_id p) (wl_state p) (wl_generation p)
          (wl_version p) LsDelegated (wl_generation p) time false))) w
    (fun w' o => forall c t1 p1, o = Some (c, t1, p1) -> c = child /\ db_leases (w_db w') !! wl_lease_id child = Some child).
Proof using Type.
  intros Hp Hst Hrow Hph Hcp Hcs Hcse Hcst Htid Hnph. apply safe_db. intros d a. unfold activate_write_scope_child.
  case_match; [done|]. unfold insert_lease. case_bool_decide as Hn; [done|]. apply eq_None_not_Some in Hn.
  destruct (lease_keys_ok _ _); [|done]. cbn [mbind option_bind db_transfers set_leases]. rewrite Htid, Hrow.
  destruct (cas_transfer_matches tcas row);
    [|intros [= <- <-]; rewrite set_db_tick; split; [done|by intros ? ? ? [=]]].
  unfold update_transfer. destruct (_ && _); [|done]. cbn [mbind option_bind].
  set (row' := activate_row tcas (wl_lease_id child) row). set (d2 := set_transfers _ _).
  match goal with |- context [cas_lease_update ?cas d2] => set (pcas := cas) end.
  assert (wl_lease_id child <> wl_lease_id p) as Hne by congruence.
  assert (db_leases d2 !! cl_lease_id pcas = Some p) as Hp2 by (cbn; by rewrite lookup_insert_ne).
  destruct (cas_lease_update pcas d2) as [u|] eqn:Hu; [|done]. cbn [mbind option_bind].
  eapply cas_lease_update_row in Hu; [|exact Hp2|].
  2: { unfold cas_lease_matches. cbn. rewrite bool_decide_true by done. by rewrite !Z.eqb_refl. }
  subst u. unfold get_lease, get_transfer. cbn [db_leases set_leases db_transfers set_transfers d2 cl_lease_id pcas].
  rewrite (lookup_insert_ne _ (wl_lease_id p) (wl_lease_id child)) by congruence.
  rewrite !lookup_insert_eq. cbn [mbind option_bind]. intros [= <- <-]. split.
  - eapply rtc_l.
    { by apply (as_activate (next_tick w) (wt_transfer_id row) row row' child). }
    apply rtc_once. apply (as_lease (set_db d2 (next_tick w)) (wl_lease_id p) p (cas_lease_row pcas p)); try done.
    cbn. by rewrite Hst.
  - intros c t1 p1 [= <- <- <-]. split; [done|]. cbn. rewrite lookup_insert_ne by congruence. apply lookup_insert_eq.
Qed.

(** From the Prepared row with its ownership attached to the handle. *)
Lemma safe_finish rq t t' p acq w :
  Inv w -> db_leases (w_db w) !! wl_lease_id p = Some p -> wl_state p = LsTransferring ->
  db_transfers (w_db w) !! wt_transfer_id t = Some t' -> attached t t' -> wt_phase t = Prepared ->
  wt_parent_lease_id t = wl_lease_id p -> wt_sub_scope_path t = rq_sub_scope rq -> wt_session_id t = rq_session_id rq ->
  excludable (w_db w) (wt_transfer_id t) t' ->
  (forall q, held_mutation (w_db w) (wt_session_id t) q -> overlaps_scope (stored_footprint q) (wt_sub_scope_path t) = false) ->
  safe (finish_transfer rq t p acq) w (fun _ _ => True).
Proof using Type.
  intros HI Hp Hst Ht (c0 & g0 & pm & ident & tm & ->) Hph Htp Hsub Hses Hex Hno. unfold finish_transfer.
  eapply safe_bind; [apply safe_cas_transfer; [done|]|].
  { intros cur row Hcur Hcp Hnext (Hsame & Hrp & Hrc & _). cbn in Hrc. rewrite Ht in Hcur. injection Hcur as <-.
    by apply (as_exclude (next_tick w) _ (attach_row c0 g0 pm ident tm t)). }
  cbv beta. intros w1 row Hs1 (cur & Hcur & _ & _ & (Hsame & Hrp & Hrc & _) & Hd1 & Ht1 & _).
  rewrite Ht in Hcur. injection Hcur as <-.
  destruct Hsame as (Hid & Hpar & Hscope & Hsess). cbn in Hid, Hpar, Hscope, Hsess.
  eapply safe_bind; [by apply (safe_emit _ _ (fun w' _ => w_db w' = w_db w1))|]. intros w2 [] Hs2 Hd2.
  eapply safe_bind; [apply (safe_issue_token p p); try done; [by rewrite Hd2, Hd1|congruence]|].
  intros w3 ptk Hs3 (Hw3 & _). assert (w_db w3 = w_db w1) as Hd3 by (rewrite Hw3; exact Hd2). clear Hw3.
  eapply safe_bind; [by apply (safe_asks _ _ (fun w' _ => w' = w3))|]. intros w4 time _ ->.
  eapply safe_bind; [by apply (safe_asks _ _ (fun w' _ => w' = w3))|]. intros w4 id _ ->.
  eapply safe_bind.
  { apply (safe_activate w3 row p); rewrite ?Hd3, ?Hd1; cbn; try done; try congruence. rewrite Hid. apply lookup_insert_eq. }
  cbv beta. intros w5 o _ Ho.
  eapply safe_bind; [apply (safe_of_result _ _ (fun w' a => w' = w5 /\ o = Some a)); intros a Ha; by apply ok_or_Ok in Ha|].
  intros w6 [[c t1] p1] _ [-> ->]. destruct (Ho c t1 p1 eq_refl) as [-> Hc]. cbn [fst snd].
  eapply safe_bind; [by apply (safe_emit _ _ (fun w' _ => w_db w' = w_db w5))|]. intros w7 [] _ Hd7.
  eapply safe_bind; [eapply safe_issue_token; try done; by rewrite Hd7|]. intros. by apply safe_ret.
Qed.
Lemma authority_admits d i r scope :
  admits_subscope (authority_of d i r) scope = Ok tt ->
  path_contains (wl_scope_path r) scope = true /\ scope <> wl_scope_path r /\
  forall j u, db_transfers d !! j = Some u -> denied u = true -> wt_parent_lease_id u = i ->
    is_disjoint_from scope (wt_sub_scope_path u) = true.
Proof using Type.
  intros (Hc & Hne & Hd)%admits_subscope_new. split; [done|]. split; [done|]. intros j u Hu Hden Hp. apply Hd.
  apply list_elem_of_fmap. exists u. split; [done|]. apply list_elem_of_filter. split; [done|].
  apply select_elem. rewrite Hp, Z.eqb_refl. eauto.
Qed.

Lemma safe_fail {A} p t e w (Q : World -> A -> Prop) : Inv w -> safe (abandon_and_unwind p t ;; throw e) w Q.
Proof using Type. intros HI. eapply safe_bind; [by apply safe_abandon_and_unwind|]. intros. apply safe_throw. Qed.

(** After the Prepared step: drain, acquire, finish, or unwind. *)
Lemma safe_after_prepare rq p t w :
  Inv w -> db_leases (w_db w) !! wl_lease_id p = Some p -> wl_state p = LsTransferring ->
  db_transfers (w_db w) !! wt_transfer_id t = Some t -> wt_phase t = Prepared ->
  wt_parent_lease_id t = wl_lease_id p -> wt_sub_scope_path t = rq_sub_scope rq -> wt_session_id t = rq_session_id rq ->
  excludable (w_db w) (wt_transfer_id t) t ->
  safe (blocked ← attempt (blocking_permits (rq_session_id rq) (wl_lease_id p) (rq_sub_scope rq));
        match blocked with
        | Panic => of_result Panic
        | Err err => abandon_and_unwind p t ;; throw err
        | Ok ((_ :: _) as blocking) => abandon_and_unwind p t ;; throw (PermitsNotDrained (zlen blocking))
        | Ok [] =>
            acquired ← attempt (acquire_capability_permit_and_containment rq t p);
            match acquired with
            | Panic => of_result Panic
            | Err err => abandon_and_unwind p t ;; throw err
            | Ok acquired =>
                finished ← attempt (finish_transfer rq t p acquired);
                match finished with
                | Panic => of_result Panic
                | Err err => abandon_and_unwind p t ;; throw err
                | Ok handle => mret handle
                end
            end
        end) w (fun _ _ => True).
Proof using Type.
  intros HI Hp Hst Ht Hph Htp Hsub Hses Hex.
  eapply safe_bind; [eapply safe_attempt, safe_blocking|]. intros w1 r Hs1 Hr.
  assert (Inv w1) as HI1 by (by eapply asteps_inv).
  destruct r as [[|b bs]|e|]; [|by apply safe_fail..|done]. destruct Hr as [(Hd1 & Ht1 & _) Hclear].
  specialize (Hclear eq_refl).
  eapply safe_bind; [eapply safe_attempt, safe_acquire_execution; [done|by rewrite Hd1|done]|].
  intros w2 r Hs2 Hr. assert (Inv w2) as HI2 by (by eapply asteps_inv).
  destruct r as [acq|e|]; [|by apply safe_fail|done].
  destruct Hr as (t' & Hat & Hl & Htr & Htk & Hm). rewrite Hd1 in *.
  eapply safe_bind.
  { eapply safe_attempt, (safe_finish rq t t'); try done.
    - by rewrite Hl.
    - rewrite Htr. apply lookup_insert_eq.
    - destruct Hat as (c0 & g0 & pm & ident & tm & ->). destruct Hex as [Hex1 Hex2]. split; cbn.
      + rewrite Hl. exact Hex1.
      + rewrite Htr. intros j u Hu Hne. rewrite lookup_insert_ne in Hu by done. intros Hden Hpar. by apply (Hex2 j u Hu Hne).
    - intros q Hq. rewrite Hsub. apply Hclear. rewrite <- Hses. by apply Hm. }
  intros w3 r Hs3 Hr. assert (Inv w3) as HI3 by (by eapply asteps_inv).
  destruct r as [h|e|]; [by apply safe_ret|by apply safe_fail|done].
Qed.

Lemma safe_begin_transfer rq w : Inv w -> safe (begin_transfer rq) w (fun _ _ => True).
Proof using Type.
  intros HI. unfold begin_transfer.
  eapply safe_bind; [by apply (safe_asks _ _ (fun w' _ => w' = w))|]. intros w1 down _ ->.
  destruct down; [apply safe_throw|].
  eapply safe_bind; [apply (safe_read (fun d => bool_decide (db_sessions d !! rq_session_id rq = Some SlDeleting)))|].
  intros w1 del Hs1 [Hq1 _]. destruct del; [apply safe_throw|].
  eapply safe_bind; [apply safe_lease|]. intros w2 p Hs2 [Hq2 Hp].
  case_match; [apply safe_throw|].
  eapply safe_bind; [apply safe_effective_authority|]. intros w3 a Hs3 (Hq3 & r & Hr & ->).
  eapply safe_bind; [by apply (safe_of_result _ _ (fun w' x => w' = w3 /\ admits_subscope (authority_of (w_db w2) (rq_parent_lease_id rq) r) (rq_sub_scope rq) = Ok x))|].
  intros w4 [] _ [-> Hadm]. apply authority_admits in Hadm as (Hcon & Hne & Hdis).
  eapply safe_bind; [apply safe_tick|]. intros w4 n Hs4 ->. case_match; [apply safe_throw|].
  eapply safe_bind; [by apply (safe_asks _ _ (fun w' _ => w' = next_tick w3))|]. intros w5 time _ ->.
  eapply safe_bind; [by apply (safe_asks _ _ (fun w' _ => w' = next_tick w3))|]. intros w5 id _ ->.
  set (t := mkTransferRow _ _ _ _ _ _ _ _ _ _ _ _ _ _ _ _ _ _ _ _).
  assert (Inv (next_tick w3)) as HI4.
  { eapply asteps_inv; [|exact HI]. do 3 (etrans; [eassumption|]). done. }
  assert (w_db w2 = w_db w1) as Hd2 by apply Hq2. assert (w_db w3 = w_db w2) as Hd3 by apply Hq3.
  assert (r = p) as -> by (rewrite Hd2 in Hr; congruence).
  assert (wl_lease_id p = rq_parent_lease_id rq) as Hid.
  { eapply (di_lease_key _ (proj1 HI4)). cbn. rewrite Hd3. done. }
  eapply safe_bind; [apply (safe_prepare p t time); try done; cbn; rewrite Hd3, Hid; done|].
  cbv beta. intros w5 o Hs5 (p' & -> & Hsl & Hst & Hg & Hl5 & Ht5 & Hfresh & Htk5 & Hm5).
  eapply safe_bind; [by apply (safe_of_result _ _ (fun w' x => w' = w5 /\ x = (p', t))); intros x [= <-]|].
  intros w6 x _ [-> ->]. cbn [fst snd].
  eapply safe_bind; [apply (safe_step _ _ (fun w' _ => w_db w' = w_db w5)); [constructor|done]|].
  intros w6 [] Hs6 Hd6.
  eapply safe_bind; [by apply (safe_emit _ _ (fun w' _ => w_db w' = w_db w6))|]. intros w7 [] Hs7 Hd7.
  assert (wl_lease_id p' = wl_lease_id p) as Hid' by apply Hsl.
  rewrite <- Hid'.
  apply safe_after_prepare; rewrite ?Hd7, ?Hd6; try done.
  - eapply asteps_inv; [|exact HI4]. do 2 (etrans; [eassumption|]). done.
  - rewrite Hl5, Hid'. apply lookup_insert_eq.
  - rewrite Ht5. apply lookup_insert_eq.
  - split.
    + rewrite Hl5. cbn. rewrite lookup_insert_eq. intros q [= <-]. destruct Hsl as (_&_&_&->). by rewrite Hst.
    + rewrite Ht5. intros j u Hu Hj. rewrite lookup_insert_ne in Hu by done. cbn. intros Hden Hpar.
      apply (Hdis j u); [|done|by rewrite Hpar]. cbn in Hu. by rewrite <- Hd3.
Qed.
End refine.
