(* ===== verification/WriteScopeReturn.v ===== *)
(** The return barrier, recovery, session deletion and shutdown as authority steps. *)

From S2P Require Import Prelude.
From S2P Require Import WriteScopeDb.
From S2P Require Import WriteScope.
From S2P Require Import WriteScopeInv.
From S2P Require Import WriteScopeRefine.
From stdpp Require Import options.
Set Warnings "-clear-no-such-hyp".

Section return_barrier.
Context `{Host} `{ScopedWriteBackend} `{ContainmentBarrier} {restorable : Z -> Prop}.
Local Abbreviation astep := (WriteScopeInv.astep (restorable := restorable)).
Local Abbreviation safe := (WriteScopeRefine.safe (restorable := restorable)).

Lemma safe_terminal_cas t w :
  Inv w -> wt_phase t = ChildActivated -> safe (cas_transfer t ChildTerminal no_patch) w (fun _ _ => True).
Proof using Type.
  intros HI Hp. eapply safe_mono; [apply safe_cas_transfer; [done|]|done].
  intros cur row Hcur Hph Hn (Hs & Hrp & Hrc & Hco & Hcg & _). cbn in Hrc, Hco, Hcg.
  apply (as_terminal (next_tick w) _ cur row); try done. congruence.
Qed.
Lemma safe_child_terminal i w : Inv w -> safe (child_terminal i) w (fun _ _ => True).
Proof using Type.
  intros HI. eapply safe_bind; [apply safe_transfer|]. intros w1 t Hs1 [Hq Ht].
  eapply (safe_bind _ _ _ (fun _ _ => True)).
  { case_match; [eapply safe_mono; [apply safe_invalidate_all|done]|by apply safe_ret]. }
  intros w2 [] Hs2 _.
  assert (Inv w2) as HI2 by (eapply asteps_inv; [|exact HI]; by etrans).
  destruct (decide (wt_phase t = ChildActivated)) as [Hp|Hp].
  - eapply safe_bind; [by apply safe_terminal_cas|]. intros. by apply safe_emit.
  - eapply (safe_bind _ _ _ (fun _ _ => False)); [|done]. unfold cas_transfer.
    case_bool_decide as Hn; [|apply safe_throw]. destruct Hp. by destruct (wt_phase t).
Qed.

(** Every return that still has its child to release is of a restorable transfer. *)
Definition restore_ok (w : World) : Prop :=
  forall i t c l, db_transfers (w_db w) !! i = Some t -> wt_child_lease_id t = Some c ->
    db_leases (w_db w) !! c = Some l -> wl_state l <> LsReleased -> restorable i.
Definition always_ok (w : World) : Prop := forall w', rtc astep w w' -> restore_ok w'.
Lemma always_ok_later w w' : rtc astep w w' -> always_ok w -> always_ok w'.
Proof using Type. intros Hs Ha w'' Hs'. apply Ha. by etrans. Qed.

(** What the return barrier leaves alone while it works on leases and permits. *)
Definition transfers_kept (w w' : World) : Prop :=
  db_transfers (w_db w') = db_transfers (w_db w) /\ w_calls w' = w_calls w.
#[local] Instance transfers_kept_preorder : PreOrder transfers_kept.
Proof using Type. split; [done|]. intros a b c [] []. split; congruence. Qed.
Lemma quiet_transfers_kept w w' : quiet w w' -> transfers_kept w w'.
Proof using Type. intros (Hd & _ & _ & Hc). split; [by rewrite Hd|done]. Qed.

Lemma safe_release_child c w :
  Inv w -> (forall j u, db_transfers (w_db w) !! j = Some u -> denied u = true -> wt_parent_lease_id u <> c) ->
  safe (child ← lease c; invalidate_all_tokens c ;; cas_lease child LsReleased (wl_generation child + 1) true ;; mret tt) w
    (fun w' _ => transfers_kept w w' /\ (exists l, db_leases (w_db w') !! c = Some l /\ wl_state l = LsReleased) /\
       exists l, db_leases (w_db w) !! c = Some l /\ wl_state l <> LsReleased).
Proof using Type.
  intros HI Hno. eapply safe_bind; [apply safe_lease|]. intros w1 r Hs1 [Hq1 Hr].
  eapply safe_bind; [apply safe_invalidate_all|]. intros w2 [] Hs2 (Hd2 & Ht2 & Hc2).
  assert (Inv w2) as HI2 by (eapply asteps_inv; [|exact HI]; by etrans).
  assert (w_db w2 = w_db w) as Hd by (destruct Hq1; congruence).
  assert (wl_lease_id r = c) as Hid by (eapply (di_lease_key _ (proj1 HI)); eauto).
  destruct (decide (wl_state r = LsReleased)) as [Hrel|Hrel].
  { eapply (safe_bind _ _ _ (fun _ _ => False)); [|done]. unfold cas_lease. rewrite Hrel. apply safe_throw. }
  eapply safe_bind; [apply safe_cas_lease; [done|by rewrite Hd, Hid|lia|]|].
  - intros _. split; [lia|]. rewrite Hd, Hid. exact Hno.
  - intros w3 o _ (row & -> & _ & Hst & _ & Hd3 & _ & Hc3). apply safe_ret. split.
    + transitivity w1; [by apply quiet_transfers_kept|]. split; [rewrite Hd3; cbn|]; congruence.
    + split; [|eauto]. exists row. rewrite Hd3, Hid. cbn. by rewrite lookup_insert_eq.
Qed.

(** The parent, through Returning, to Active or Delegated. *)
Lemma safe_restore_parent {A} i p w (k : Z -> WriteScopeLeaseRow -> WS A) (Q : World -> A -> Prop) :
  Inv w ->
  (forall w' g row, rtc astep w w' -> transfers_kept w w' -> db_leases (w_db w') !! p = Some row -> wl_lease_id row = p ->
     wl_state row <> LsReleased -> (forall c, c <> p -> db_leases (w_db w') !! c = db_leases (w_db w) !! c) ->
     safe (k g row) w' Q) ->
  safe (parent ← lease p;
        returning ← cas_lease parent LsReturning (wl_generation parent) false;
        returning ← of_result (ok_or returning WsInternal);
        siblings ← db (list_write_scope_transfers_for_parent p);
        restored ← cas_lease returning
          (if existsb (fun s => negb (wt_transfer_id s =? i) && denied s) siblings then LsDelegated else LsActive)
          (wl_generation returning + 1) false;
        restored ← of_result (ok_or restored WsInternal);
        k (wl_generation returning + 1) restored) w Q.
Proof using Type.
  intros HI Hk. eapply safe_bind; [apply safe_lease|]. intros w1 r Hs1 [Hq1 Hr].
  assert (Inv w1) as HI1 by (by eapply asteps_inv).
  assert (w_db w1 = w_db w) as Hd1 by apply Hq1.
  assert (wl_lease_id r = p) as Hid by (eapply (di_lease_key _ (proj1 HI)); eauto).
  eapply safe_bind; [apply safe_cas_lease; [done|by rewrite Hd1, Hid|lia|done]|].
  intros w2 o Hs2 (row & -> & Hsl & Hst & Hg & Hd2 & Ht2 & Hc2).
  eapply safe_bind; [by apply (safe_of_result _ _ (fun w' x => w' = w2 /\ x = row)); intros x [= ->]|].
  intros w3 x _ [-> ->].
  assert (Inv w2) as HI2 by (by eapply asteps_inv).
  eapply safe_bind; [apply safe_read|]. intros w3 sib Hs3 [Hq3 _].
  assert (Inv w3) as HI3 by (by eapply asteps_inv).
  assert (wl_lease_id row = p) as Hid2 by (rewrite <- Hid; apply Hsl).
  assert (w_db w3 = w_db w2) as Hd3 by apply Hq3.
  eapply safe_bind.
  { apply safe_cas_lease; [done| |lia|by case_match].
    rewrite Hd3, Hd2, Hid, Hid2. cbn. apply lookup_insert_eq. }
  intros w4 o Hs4 (row' & -> & Hsl' & Hst' & Hg' & Hd4 & Ht4 & Hc4).
  eapply safe_bind; [by apply (safe_of_result _ _ (fun w' x => w' = w4 /\ x = row')); intros x [= ->]|].
  intros w5 x _ [-> ->]. apply Hk.
  - do 3 (etrans; [eassumption|]). done.
  - destruct Hq1 as (_ & _ & _ & Hc1), Hq3 as (_ & _ & _ & Hc3).
    split; [rewrite Hd4; cbn; rewrite Hd3, Hd2; cbn; by rewrite Hd1|congruence].
  - rewrite Hd4, Hid2. apply lookup_insert_eq.
  - rewrite <- Hid2. apply Hsl'.
  - rewrite Hst'. by case_match.
  - intros c Hc. rewrite Hd4, Hid2, <- Hd1. cbn. rewrite lookup_insert_ne by done. rewrite Hd3, Hd2, Hid. cbn.
    by rewrite lookup_insert_ne.
Qed.

(** The transfer, through ParentRestored, to Committed, and the restored token. *)
Lemma safe_close_return i t c l restored g w :
  Inv w -> db_transfers (w_db w) !! i = Some t -> wt_phase t = ChildTerminal -> wt_child_lease_id t = Some c ->
  db_leases (w_db w) !! c = Some l -> wl_state l = LsReleased -> proven_gone w t ->
  db_leases (w_db w) !! wl_lease_id restored = Some restored -> wl_state restored <> LsReleased -> restorable i ->
  safe (t ← cas_transfer t ParentRestored (mkPatch None None None (Some g) None None None None None);
        emit (EvParentRestored i g) ;; cas_transfer t TfCommitted reconciled_patch ;;
        emit (EvTransferCommitted i) ;; issue_token restored) w (fun _ _ => True).
Proof using Type.
  intros HI Ht Hp Hc Hl Hrel Hgone Hres Hns Hrb.
  assert (wt_transfer_id t = i) as Hid by (eapply (di_transfer_key _ (proj1 HI)); eauto).
  eapply safe_bind; [apply safe_cas_transfer; [done|]|].
  { intros cur row Hcur Hph Hn (Hs & Hrp & Hrc & Hco & Hcg & _). cbn in Hrc, Hco, Hcg.
    rewrite Hid, Ht in Hcur. injection Hcur as <-. rewrite Hid. by apply (as_restore (next_tick w) i t row c l). }
  intros w1 row Hs1 (cur & Hcur & _ & _ & (Hsame & Hrp & Hrc & _) & Hd1 & _).
  rewrite Hid, Ht in Hcur. injection Hcur as <-.
  assert (Inv w1) as HI1 by (by eapply asteps_inv).
  eapply safe_bind; [by apply (safe_emit _ _ (fun w' _ => w_db w' = w_db w1))|]. intros w2 [] Hs2 Hd2.
  assert (Inv w2) as HI2 by (by eapply asteps_inv).
  eapply safe_bind; [apply safe_cas_transfer; [done|]|].
  { intros cur row' Hcur Hph Hn (Hs & Hrp' & Hrc' & Hco' & Hcg' & _). cbn in Hrc', Hco', Hcg'.
    apply (as_commit (next_tick w2) _ cur row'); try done. congruence. }
  intros w3 row' Hs3 (cur' & _ & _ & _ & _ & Hd3 & _).
  eapply safe_bind; [by apply (safe_emit _ _ (fun w' _ => w_db w' = w_db w3))|]. intros w4 [] Hs4 Hd4.
  eapply safe_mono; [by apply (safe_issue_token restored restored); rewrite ?Hd4, ?Hd3; cbn; rewrite ?Hd2, ?Hd1|done].
Qed.

Lemma no_live_descendants l :
  (0 <? zlen (filter (fun t => denied t = true) l)) = false -> forall u, u ∈ l -> denied u = true -> False.
Proof using Type.
  intros Hz u Hu Hd. assert (u ∈ filter (fun t => denied t = true) l) as Hin by (by apply list_elem_of_filter).
  apply list_elem_of_split in Hin as (l1 & l2 & E). rewrite E in Hz. unfold zlen in Hz. rewrite length_app in Hz.
  cbn [length] in Hz. apply Z.ltb_ge in Hz. lia.
Qed.
Lemma denied_open t : denied t = true -> wt_phase t <> TfCommitted.
Proof using Type. by destruct t as [? ? ? ? ? []]. Qed.

(** The query that every descendant of the child has returned. *)
Lemma safe_descendants c i w :
  safe (open ← db (list_open_write_scope_transfers_for_parent c);
        let live_descendants := zlen (filter (fun t => denied t = true) open) in
        if 0 <? live_descendants then throw (DescendantStillDelegated i live_descendants) else mret tt) w
    (fun w' _ => quiet w w' /\
       forall j u, db_transfers (w_db w) !! j = Some u -> denied u = true -> wt_parent_lease_id u <> c).
Proof using Type.
  eapply safe_bind; [apply safe_read|]. intros w1 l _ [Hq ->]. cbv zeta.
  case_match eqn:Hz; [apply safe_throw|].
  apply safe_ret. split; [done|]. intros j u Hu Hd Hp. eapply no_live_descendants; [exact Hz| |exact Hd].
  apply select_elem. split; [|eauto]. apply andb_true_iff. split; [by apply Z.eqb_eq|].
  apply negb_true_iff, bool_decide_eq_false. by apply denied_open.
Qed.

(** The barrier's proof that the child is gone. *)
Lemma safe_proof_of_gone i t c g w :
  wt_containment_id t = Some c -> wt_containment_generation t = Some g ->
  safe (answer ← await_proven_empty (mkTicket c g);
        match answer with
        | ProvenEmpty generation =>
            if negb (generation =? g) then throw (ContainmentGenerationMismatch g generation) else mret tt
        | EmptyUncertain _ reason | EmptyUnsupported reason => throw (ContainmentNotProvenEmpty i reason)
        end) w (fun w' _ => w_db w' = w_db w /\ proven_gone w' t).
Proof using Type.
  intros Hc Hg. eapply (safe_bind _ _ _ (fun w' a => w_db w' = w_db w /\ CallAwait (mkTicket c g) a ∈ w_calls w')).
  - eapply safe_bind; [apply safe_tick|]. intros w1 n _ ->.
    eapply safe_bind; [apply (safe_step _ _ (fun w' _ => w_db w' = w_db w /\
      CallAwait (mkTicket c g) (cb_await_proven_empty n (mkTicket c g)) ∈ w_calls w')); [constructor|]|].
    + split; [done|]. cbn. set_solver.
    + intros w2 [] _ Hw. by apply safe_ret.
  - intros w1 [got|got reason|reason] _ [Hd Hin]; try apply safe_throw.
    destruct (Z.eqb_spec got g) as [->|]; [|apply safe_throw]. apply safe_ret. split; [done|]. by exists c, g.
Qed.
Lemma proven_gone_kept w w' t : w_calls w' = w_calls w -> proven_gone w t -> proven_gone w' t.
Proof using Type. intros E (c & g & Hc & Hg & Hin). exists c, g. by rewrite E. Qed.

(** A transfer's child is not its parent. *)
Lemma child_not_parent d i t c :
  DbInv d -> db_transfers d !! i = Some t -> denied t = true -> wt_child_lease_id t = Some c ->
  c <> wt_parent_lease_id t.
Proof using Type.
  intros HI Ht Hd Hc ->. destruct (di_child _ HI _ _ _ Ht Hc) as (l & Hl & _ & Hs).
  by destruct (di_strict _ HI _ _ _ Ht Hd Hl) as [_ []].
Qed.

Lemma safe_assoc {A B C} (m : WS A) (f : A -> WS B) (k : B -> WS C) w Q :
  safe ((m ≫= f) ≫= k) w Q -> safe (m ≫= fun a => f a ≫= k) w Q.
Proof using Type. unfold safe, wp, mbind, WS_bind. destruct (m w) as [w' [a|e|]]; done. Qed.

Lemma safe_complete_return i w : Inv w -> always_ok w -> safe (complete_return_locked i) w (fun _ _ => True).
Proof using Type.
  intros HI Hok. unfold complete_return_locked. eapply safe_bind; [apply safe_transfer|]. intros w1 t Hs1 [Hq1 Ht].
  case_bool_decide as Hp; [|apply safe_throw]. cbn [negb].
  assert (Inv w1) as HI1 by (by eapply asteps_inv).
  assert (db_transfers (w_db w1) !! i = Some t) as Ht1 by (by destruct Hq1 as [-> _]).
  pose proof (di_phase _ (proj1 HI1) _ _ Ht1) as Hch. unfold phase_child_ok in Hch. rewrite Hp in Hch.
  destruct Hch as [c Hc]. rewrite Hc.
  eapply safe_bind; [apply safe_descendants|]. intros w2 [] Hs2 [Hq2 Hdesc].
  eapply safe_bind; [apply (safe_of_result _ _ (fun w' x => w' = w2 /\ wt_containment_id t = Some x)); intros a Ha; by apply ok_or_Ok in Ha|].
  intros w3 co _ [-> Hco].
  eapply safe_bind; [apply (safe_of_result _ _ (fun w' x => w' = w2 /\ wt_containment_generation t = Some x)); intros a Ha; by apply ok_or_Ok in Ha|].
  intros w3 cg _ [-> Hcg].
  apply safe_assoc. eapply safe_bind; [by apply safe_proof_of_gone|]. intros w3 [] Hs3 [Hd3 Hgone].
  eapply safe_bind; [by apply (safe_of_result _ _ (fun w' _ => w' = w3))|]. intros w4 ident _ ->.
  eapply safe_bind; [apply safe_tick|]. intros w4 n Hs4 ->.
  eapply (safe_bind _ _ _ (fun w' _ => w' = next_tick w3)).
  { case_match; [by apply safe_ret|apply safe_throw..]. }
  intros w4 [] _ ->.
  eapply (safe_bind _ _ _ (fun w' _ => transfers_kept w3 w')).
  { case_match; [|by apply safe_ret]. eapply safe_bind; [by apply (safe_asks _ _ (fun w' _ => w' = next_tick w3))|].
    intros w5 time _ ->. eapply safe_bind; [apply safe_release_permit|]. intros w5 o _ (_ & Hdt & _ & Hca).
    by apply safe_ret. }
  intros w5 [] Hs5 Hk5.
  assert (rtc astep w w5) as Hs by (do 4 (etrans; [eassumption|]); done).
  assert (Inv w5) as HI5 by (by eapply asteps_inv).
  assert (db_transfers (w_db w5) = db_transfers (w_db w1)) as Hdt.
  { destruct Hk5 as [-> _]. rewrite Hd3. by destruct Hq2 as [-> _]. }
  eapply safe_bind; [apply safe_release_child; [done|by rewrite Hdt]|]. intros w6 [] Hs6 ([Hdt6 Hca6] & (l & Hl & Hrel) & (l0 & Hl0 & Hnrel)).
  assert (Inv w6) as HI6 by (by eapply asteps_inv).
  eapply (safe_restore_parent i (wt_parent_lease_id t) _ (fun g restored =>
    t ← cas_transfer t ParentRestored (mkPatch None None None (Some g) None None None None None);
    emit (EvParentRestored i g) ;; cas_transfer t TfCommitted reconciled_patch ;;
    emit (EvTransferCommitted i) ;; issue_token restored)); [done|].
  intros w7 g row Hs7 [Hdt7 Hca7] Hrow Hid Hnr Hothers.
  apply (safe_close_return i t c l).
  - by eapply asteps_inv.
  - by rewrite Hdt7, Hdt6, Hdt.
  - done.
  - done.
  - rewrite Hothers; [done|]. eapply child_not_parent; [apply HI1|done| |done]. unfold denied. by rewrite Hp.
  - done.
  - eapply proven_gone_kept, Hgone. destruct Hk5. congruence.
  - by rewrite Hid.
  - done.
  - by apply (Hok w5 Hs i t c l0); rewrite ?Hdt.
Qed.

(** ** Recovery *)

Lemma safe_retire t w : Inv w -> safe (retire_unactivated t) w (fun _ _ => True).
Proof using Type.
  intros HI. eapply safe_bind; [by apply (safe_asks _ _ (fun w' _ => w' = w))|]. intros w1 time _ ->.
  eapply safe_bind; [by apply safe_update_abandon|]. intros w1 o Hs1 Hl.
  eapply safe_bind; [apply safe_lease|]. intros w2 p Hs2 [Hq Hp].
  assert (Inv w1) as HI1 by (by eapply asteps_inv).
  assert (Inv w2) as HI2 by (by eapply asteps_inv).
  assert (wl_lease_id p = wt_parent_lease_id t) as Hid by (eapply (di_lease_key _ (proj1 HI1)); eauto).
  eapply (safe_bind _ _ _ (fun _ _ => True)); [|intros; by apply safe_emit].
  case_match; [|by apply safe_ret].
  eapply safe_bind; [apply safe_cas_lease; [done| |lia|done]|intros; by apply safe_ret].
  destruct Hq as [-> _]. by rewrite Hid.
Qed.
Lemma safe_report i r w : r <> Panic -> safe (report_return i r) w (fun _ _ => True).
Proof using Type. destruct r as [|[]|]; intros; by apply safe_ret || done. Qed.
Lemma safe_reported_return i w :
  Inv w -> always_ok w -> safe (r ← attempt (complete_return_locked i); report_return i r) w (fun _ _ => True).
Proof using Type.
  intros HI Hok. eapply safe_bind; [by eapply safe_attempt, safe_complete_return|]. intros w1 r _ Hr.
  apply safe_report. by intros ->.
Qed.
Lemma safe_drive t w : Inv w -> always_ok w -> wt_phase t = ChildActivated -> safe (drive_return_from_activated t) w (fun _ _ => True).
Proof using Type.
  intros HI Hok Hp. eapply (safe_bind _ _ _ (fun _ _ => True)).
  { case_match; [eapply safe_mono; [apply safe_invalidate_all|done]|by apply safe_ret]. }
  intros w1 [] Hs1 _. assert (Inv w1) as HI1 by (by eapply asteps_inv).
  eapply safe_bind; [by eapply safe_attempt, safe_terminal_cas|]. intros w2 r Hs2 Hr.
  assert (Inv w2) as HI2 by (by eapply asteps_inv).
  destruct r as [row|e|]; [|by apply safe_ret|done].
  eapply safe_bind; [by apply (safe_emit _ _ (fun _ _ => True))|]. intros w3 [] Hs3 _.
  apply safe_reported_return; [by eapply asteps_inv|]. eapply always_ok_later, Hok. by do 2 (etrans; [eassumption|]).
Qed.
Lemma safe_await k w : safe (await_proven_empty k) w (fun _ _ => True).
Proof using Type.
  eapply safe_bind; [apply safe_tick|]. intros w1 n _ ->.
  eapply safe_bind; [apply (safe_step _ _ (fun _ _ => True)); [constructor|done]|]. intros. by apply safe_ret.
Qed.
Lemma safe_unactivated t w : safe (unactivated_blocked t) w (fun _ _ => True).
Proof using Type.
  unfold unactivated_blocked.
  assert (forall m k, safe (answer ← await_proven_empty m; mret (k answer) : WS (option RecoveryOutcome)) w (fun _ _ => True))
    as Haw by (intros; eapply safe_bind; [apply safe_await|intros; by apply safe_ret]).
  assert (forall o, safe (n ← asks w_tick;
      rows ← attempt (db (fun d => Some (d, cb_nonempty n o)));
      match rows with Ok [] => mret None | Panic => of_result Panic
      | _ => mret (Some (RetainedNotProvenEmpty (wt_transfer_id t))) end : WS (option RecoveryOutcome)) w (fun _ _ => True)) as Hq.
  { intros o. eapply safe_bind; [by apply (safe_asks _ _ (fun w' _ => w' = w))|]. intros w1 n _ ->.
    eapply safe_bind; [eapply safe_attempt, safe_read|]. intros w1 [[]|e|] _ Hr; by apply safe_ret || done. }
  destruct (wt_containment_id t); [|apply Hq]. destruct (wt_containment_generation t); [apply Haw|apply Hq].
Qed.

Lemma safe_recover_one t w : Inv w -> always_ok w -> safe (recover_one t) w (fun _ _ => True).
Proof using Type.
  intros HI Hok. unfold recover_one.
  assert (safe (blocked ← unactivated_blocked t;
      match blocked with
      | Some outcome => mret outcome
      | None =>
          match wt_execution_permit_id t with
          | Some permit_id => time ← now; ignoring (db (release_write_scope_permit permit_id time))
          | None => mret tt
          end ;;
          r ← attempt (retire_unactivated t);
          match r with
          | Panic => of_result Panic
          | Err _ => mret (RecoveryDenied (wt_transfer_id t))
          | Ok _ => mret (ReturnAdvanced (wt_transfer_id t))
          end
      end) w (fun _ _ => True)) as Hun.
  { eapply safe_bind; [apply safe_unactivated|]. intros w1 [o|] Hs1 _; [by apply safe_ret|].
    eapply (safe_bind _ _ _ (fun _ _ => True)).
    { case_match; [|by apply safe_ret]. eapply safe_bind; [by apply (safe_asks _ _ (fun w' _ => w' = w1))|].
      intros w2 time _ ->. eapply safe_ignoring, safe_release_permit. }
    intros w2 [] Hs2 _. eapply safe_bind; [eapply safe_attempt, safe_retire|].
    - eapply asteps_inv; [|exact HI]. by etrans.
    - intros w3 [[]|e|] _ Hr; by apply safe_ret || done. }
  destruct (wt_phase t) eqn:Hp; [exact Hun|exact Hun| | | |by apply safe_ret].
  - destruct (wt_child_lease_id t); [|by apply safe_ret].
    destruct (wt_containment_id t); [|by apply safe_ret]. destruct (wt_containment_generation t); [|by apply safe_ret].
    eapply safe_bind; [apply safe_await|]. intros w1 [g'|g' reason|reason] Hs1 _; try by apply safe_ret.
    destruct (negb _); [by apply safe_ret|]. apply safe_drive; [by eapply asteps_inv|by eapply always_ok_later|done].
  - by apply safe_reported_return.
  - eapply safe_bind; [eapply safe_attempt, safe_cas_transfer; [done|]|].
    + intros cur row Hcur Hph Hn (Hs & Hrp & Hrc & Hco & Hcg & _). cbn in Hrc, Hco, Hcg.
      apply (as_commit (next_tick w) _ cur row); try done. congruence.
    + intros w1 [row|e|] _ Hr; [|by apply safe_ret|done].
      eapply safe_bind; [by apply (safe_emit _ _ (fun _ _ => True))|]. intros. by apply safe_ret.
Qed.
Lemma safe_recover_loop open : forall w, Inv w -> always_ok w -> safe (recover_loop open) w (fun _ _ => True).
Proof using Type.
  induction open as [|t open IH]; intros w HI Hok; [by apply safe_ret|]. cbn [recover_loop].
  eapply safe_bind; [by apply safe_recover_one|]. intros w1 o Hs1 _.
  eapply safe_bind; [apply IH; [by eapply asteps_inv|by eapply always_ok_later]|]. intros. by apply safe_ret.
Qed.
Lemma safe_recover session w : Inv w -> always_ok w -> safe (recover session) w (fun _ _ => True).
Proof using Type.
  intros HI Hok. eapply safe_bind; [apply safe_read|]. intros w1 l Hs1 _.
  apply safe_recover_loop; [by eapply asteps_inv|by eapply always_ok_later].
Qed.

(** ** Session deletion and shutdown *)

Lemma safe_blockers s w : safe (deletion_blockers s) w (fun _ _ => True).
Proof using Type.
  eapply safe_bind; [apply safe_read|]. intros w1 l _ _. eapply safe_bind; [apply safe_read|]. intros. by apply safe_ret.
Qed.
Lemma safe_begin_session_deletion s w : safe (begin_session_deletion s) w (fun _ _ => True).
Proof using Type.
  eapply (safe_bind _ _ _ (fun _ _ => True)); [|intros; apply safe_blockers].
  apply safe_db. intros d a. unfold mark_session_deleting.
  destruct (db_sessions (w_db w) !! s) as [[]|] eqn:Hs; intros [= <- <-]; rewrite ?set_db_tick; split; try done.
  apply rtc_once. by apply (as_deleting (next_tick w) s).
Qed.
Lemma safe_begin_shutdown w : safe begin_shutdown w (fun _ _ => True).
Proof using Type. apply safe_step; [constructor|done]. Qed.
Lemma safe_shutdown_clean w : safe assert_shutdown_clean w (fun _ _ => True).
Proof using Type.
  eapply safe_bind; [apply safe_read|]. intros w1 l _ _. eapply safe_bind; [apply safe_read|]. intros w2 p _ _.
  case_match; [by apply safe_ret|apply safe_throw].
Qed.
End return_barrier.
