(* ===== verification/WriteScopeTree.v ===== *)
(** The lease tree: who may write where.  Live leases of one tree never share a path, and
    the writers inside a delegated sub-scope are the delegate and its descendants. *)

From S2P Require Import Prelude.
From S2P Require Import WriteScopeDb.
From S2P Require Import WriteScope.
From S2P Require Import WriteScopeInv.
From stdpp Require Import options.
Set Warnings "-clear-no-such-hyp".

(** [child_of d i j]: lease [j] delegated to lease [i]. *)
Definition child_of (d : Db) (i j : Z) : Prop :=
  exists r, db_leases d !! i = Some r /\ wl_parent_lease_id r = Some j.
(** [same_tree d i j]: some lease is an ancestor of both. *)
Definition same_tree (d : Db) (i j : Z) : Prop :=
  exists root, rtc (child_of d) i root /\ rtc (child_of d) j root.
Definition live_lease (d : Db) (i : Z) : Prop :=
  exists r, db_leases d !! i = Some r /\ wl_state r <> LsReleased.
(** The paths the authority of a live lease allows. *)
Definition lease_allows (d : Db) (i : Z) (p : Path) : Prop :=
  exists r, db_leases d !! i = Some r /\ wl_state r <> LsReleased /\ allows_path (authority_of d i r) p = true.
(** The paths a lease covers, its delegated ones included. *)
Definition lease_covers (d : Db) (i : Z) (p : Path) : Prop :=
  exists r, db_leases d !! i = Some r /\ path_contains (wl_scope_path r) p = true.

(** A sub-scope held back from its parent, with its delegate. *)
Definition delegation (d : Db) (i : Z) (t : WriteScopeTransferRow) : Prop :=
  db_transfers d !! i = Some t /\ denied t = true.
Definition delegated (d : Db) (p c : Z) : Prop :=
  exists i t, delegation d i t /\ wt_parent_lease_id t = p /\ wt_child_lease_id t = Some c.

Lemma allows_spec d i r p :
  allows_path (authority_of d i r) p = true <->
  path_contains (wl_scope_path r) p = true /\
  forall j t, delegation d j t -> wt_parent_lease_id t = i -> path_contains (wt_sub_scope_path t) p = false.
Proof.
  unfold authority_of. rewrite allows_path_new. apply and_iff_compat_l. split.
  - intros He j t [Ht Hd] Hp. apply He, list_elem_of_fmap. exists t. split; [done|]. apply list_elem_of_filter.
    split; [done|]. apply select_elem. rewrite Hp, Z.eqb_refl. eauto.
  - intros He e. rewrite list_elem_of_fmap. intros (t & -> & [Hd Ht]%list_elem_of_filter).
    apply select_elem in Ht as [Hp [j Ht]]. apply Z.eqb_eq in Hp. by apply (He j t).
Qed.

Section tree.
Context (d : Db) (HI : DbInv d).

Lemma parent_live i t : delegation d i t -> live_lease d (wt_parent_lease_id t).
Proof using HI.
  intros [Ht Hd]. destruct (di_parent _ HI _ _ Ht) as [r Hr]. exists r. split; [done|]. intros Hs.
  by apply (di_released _ HI _ _ _ _ Hr Hs Ht Hd).
Qed.
(** A live lease was delegated to by a live lease. *)
Lemma live_parent c p : live_lease d c -> child_of d c p -> delegated d p c /\ live_lease d p.
Proof using HI.
  intros (r & Hr & Hs) (r' & Hr' & Hp). rewrite Hr in Hr'. injection Hr' as <-. destruct (di_owner _ HI _ _ _ Hr Hp) as (i & t & Ht & Hc).
  destruct (di_child _ HI _ _ _ Ht Hc) as (l & Hl & Hlp & _). rewrite Hr in Hl. injection Hl as <-.
  assert (delegation d i t) as Hd by (split; [done|]; by eapply di_live).
  assert (wt_parent_lease_id t = p) as Htp by congruence.
  split; [by exists i, t|]. rewrite <- Htp. by eapply parent_live.
Qed.
Lemma live_chain i root : rtc (child_of d) i root -> live_lease d i -> rtc (delegated d) root i.
Proof using HI.
  induction 1 as [i|i p root Hip _ IH]; [done|]. intros Hl. destruct (live_parent _ _ Hl Hip) as [Hd Hlp].
  eapply rtc_r; eauto.
Qed.

(** Coverage shrinks along delegations. *)
Lemma delegated_covers p c q : delegated d p c -> lease_covers d c q ->
  lease_covers d p q /\ forall i t, delegation d i t -> wt_child_lease_id t = Some c ->
    path_contains (wt_sub_scope_path t) q = true.
Proof using HI.
  intros (i & t & [Ht Hd] & Hp & Hc) (l & Hl & Hq). destruct (di_child _ HI _ _ _ Ht Hc) as (l' & Hl' & _ & Hs).
  simplify_eq. destruct (di_parent _ HI _ _ Ht) as [r Hr].
  destruct (di_strict _ HI _ _ _ Ht Hd Hr) as [Hin _]. split.
  - exists r. split; [done|]. eapply path_contains_trans; [exact Hin|]. by rewrite <- Hs.
  - intros j u [Hu _] Huc. assert (j = i) as -> by (eapply di_child_inj; eauto). simplify_eq. by rewrite <- Hs.
Qed.
Lemma chain_covers p c q : rtc (delegated d) p c -> lease_covers d c q -> lease_covers d p q.
Proof using HI.
  induction 1 as [|p m c Hpm _ IH]; [done|]. intros Hc. by destruct (delegated_covers p m q Hpm (IH Hc)).
Qed.
(** The first delegation on the way to a lease that covers a path. *)
Lemma first_delegation p m c q :
  delegated d p m -> rtc (delegated d) m c -> lease_covers d c q ->
  exists i t, delegation d i t /\ wt_parent_lease_id t = p /\ wt_child_lease_id t = Some m /\
    path_contains (wt_sub_scope_path t) q = true.
Proof using HI.
  intros Hpm Hmc Hq. pose proof Hpm as (i & t & Ht & Hp & Hc). exists i, t. repeat (split; [done|]).
  destruct (delegated_covers p m q Hpm) as [_ Hsub]; [by eapply chain_covers|]. by apply (Hsub i).
Qed.
(** Two sub-scopes delegated by one lease share no path. *)
Lemma delegations_exclusive i j t u q :
  delegation d i t -> delegation d j u -> wt_parent_lease_id t = wt_parent_lease_id u ->
  path_contains (wt_sub_scope_path t) q = true -> path_contains (wt_sub_scope_path u) q = true -> i = j /\ t = u.
Proof using HI.
  intros [Ht Hdt] [Hu Hdu] Hp Hqt Hqu. destruct (decide (i = j)) as [->|Hne]; [by simplify_eq|].
  destruct (disjoint_no_path (wt_sub_scope_path t) (wt_sub_scope_path u) q); [|done..].
  by eapply (di_disjoint _ HI i j).
Qed.
Lemma allows_covers i q : lease_allows d i q -> lease_covers d i q.
Proof using Type. intros (r & Hr & _ & [Hb _]%allows_spec). by exists r. Qed.
Lemma allows_not_delegated i q j t :
  lease_allows d i q -> delegation d j t -> wt_parent_lease_id t = i -> path_contains (wt_sub_scope_path t) q = true -> False.
Proof using Type. intros (r & Hr & _ & [_ He]%allows_spec) Ht Hp Hq. by rewrite (He j t Ht Hp) in Hq. Qed.

(** The writer of a path delegated away below [root] is below the delegate. *)
Lemma writer_below root i k t q :
  rtc (delegated d) root (wt_parent_lease_id t) -> delegation d k t -> path_contains (wt_sub_scope_path t) q = true ->
  rtc (delegated d) root i -> lease_allows d i q ->
  exists c, wt_child_lease_id t = Some c /\ rtc (delegated d) c i.
Proof using HI.
  intros Hroot Ht Hq. remember (wt_parent_lease_id t) as x eqn:Hx. revert i.
  assert (lease_covers d x q) as Hcov.
  { destruct Ht as [Ht Hd]. destruct (di_parent _ HI _ _ Ht) as [r Hr].
    destruct (di_strict _ HI _ _ _ Ht Hd Hr) as [Hin _]. exists r. rewrite Hx. split; [done|]. by eapply path_contains_trans. }
  induction Hroot as [x|root m x Hrm Hmx IH]; intros i Hi Hal.
  - inversion Hi as [|? m ? Hxm Hmi]; subst.
    + by destruct (allows_not_delegated _ q k t Hal).
    + destruct (first_delegation _ _ _ q Hxm Hmi) as (j & u & Hu & Hup & Huc & Huq); [by apply allows_covers|].
      destruct (delegations_exclusive k j t u q) as [-> ->]; try done. eauto.
  - destruct (first_delegation _ _ _ q Hrm Hmx Hcov) as (j & u & Hu & Hup & Huc & Huq).
    inversion Hi as [|? m' ? Hxm Hmi]; subst.
    + by destruct (allows_not_delegated _ q j u Hal).
    + destruct (first_delegation _ _ _ q Hxm Hmi) as (j' & u' & Hu' & Hup' & Huc' & Huq'); [by apply allows_covers|].
      destruct (delegations_exclusive j j' u u' q) as [-> ->]; [done|done|congruence|done|done|].
      assert (m' = m) as -> by congruence. by apply IH.
Qed.

(** Live leases of one tree never share a path. *)
Lemma writers_exclusive root i j q :
  rtc (delegated d) root i -> rtc (delegated d) root j -> lease_allows d i q -> lease_allows d j q -> i = j.
Proof using HI.
  intros Hi. revert j. induction Hi as [i|root m i Hrm Hmi IH]; intros j Hj Hai Haj.
  - inversion Hj as [|? m ? Hxm Hmj]; subst; [done|].
    destruct (first_delegation _ _ _ q Hxm Hmj) as (k & u & Hu & Hup & Huc & Huq); [by apply allows_covers|].
    by destruct (allows_not_delegated i q k u).
  - destruct (first_delegation _ _ _ q Hrm Hmi) as (k & u & Hu & Hup & Huc & Huq); [by apply allows_covers|].
    inversion Hj as [|? m' ? Hxm Hmj]; subst; [by destruct (allows_not_delegated _ q k u Haj)|].
    destruct (first_delegation _ _ _ q Hxm Hmj) as (k' & u' & Hu' & Hup' & Huc' & Huq'); [by apply allows_covers|].
    destruct (delegations_exclusive k k' u u' q) as [-> ->]; [done|done|congruence|done|done|].
    assert (m' = m) as -> by congruence. by apply IH.
Qed.

Lemma delegated_child p c : delegated d p c -> child_of d c p.
Proof using HI.
  intros (i & t & [Ht _] & Hp & Hc). destruct (di_child _ HI _ _ _ Ht Hc) as (l & Hl & Hlp & _).
  exists l. by rewrite Hlp, Hp.
Qed.
Lemma chain_child p c : rtc (delegated d) p c -> rtc (child_of d) c p.
Proof using HI. induction 1 as [|p m c Hpm _ IH]; [done|]. eapply rtc_r; [done|]. by apply delegated_child. Qed.
Lemma allows_live i q : lease_allows d i q -> live_lease d i.
Proof using Type. intros (r & Hr & Hs & _). by exists r. Qed.
Lemma tree_exclusive i j q : same_tree d i j -> lease_allows d i q -> lease_allows d j q -> i = j.
Proof using HI.
  intros (root & Hi & Hj) Hai Haj. apply (writers_exclusive root i j q); try done;
    (eapply live_chain; [done|by eapply allows_live]).
Qed.
Lemma tree_writer_below i k t q :
  same_tree d i (wt_parent_lease_id t) -> delegation d k t -> path_contains (wt_sub_scope_path t) q = true ->
  lease_allows d i q -> exists c, wt_child_lease_id t = Some c /\ rtc (child_of d) i c.
Proof using HI.
  intros (root & Hi & Hp) Ht Hq Hal. destruct (writer_below root i k t q) as (c & Hc & Hci); try done.
  - eapply live_chain; [done|]. by eapply parent_live.
  - eapply live_chain; [done|]. by eapply allows_live.
  - exists c. split; [done|]. by apply chain_child.
Qed.
End tree.

(** ** How the tree grows *)

(** Leases keep their parent, and a new lease is nobody's ancestor yet. *)
Definition tree_extends (d d' : Db) : Prop :=
  (forall i r, db_leases d !! i = Some r ->
     exists r', db_leases d' !! i = Some r' /\ wl_parent_lease_id r' = wl_parent_lease_id r).
Lemma parent_exists d i p : DbInv d -> child_of d i p -> is_Some (db_leases d !! p).
Proof.
  intros HI (r & Hr & Hp). destruct (di_owner _ HI _ _ _ Hr Hp) as (k & t & Ht & Hc).
  destruct (di_child _ HI _ _ _ Ht Hc) as (l & Hl & Hlp & _). rewrite Hr in Hl. injection Hl as <-.
  rewrite Hlp in Hp. injection Hp as <-. by eapply di_parent.
Qed.
Lemma ancestors_extend d d' i root :
  DbInv d -> tree_extends d d' -> is_Some (db_leases d !! i) ->
  rtc (child_of d') i root <-> rtc (child_of d) i root.
Proof.
  intros HI He Hi. split.
  - intros Hr. revert Hi. induction Hr as [i|i p root (r' & Hr' & Hp) _ IH]; [done|]. intros [r Hr].
    destruct (He i r Hr) as (r'' & Hr'' & Hpp). rewrite Hr' in Hr''. injection Hr'' as <-.
    assert (child_of d i p) as Hc by (exists r; split; [done|congruence]).
    eapply rtc_l; [exact Hc|]. apply IH. by eapply parent_exists.
  - induction 1 as [i|i p root (r & Hr & Hp) Hpr IH]; [done|].
    destruct (He i r Hr) as (r' & Hr' & Hpp). assert (child_of d' i p) as Hc; [exists r'; split; [done|by rewrite Hpp]|]. eapply rtc_l; [exact Hc|].
    apply IH. eapply parent_exists; [done|]. by exists r.
Qed.
