(* ===== verification/WriteScopeSystem.v ===== *)
(** The write-scope coordinator as a system: calls of its methods in any order, with any
    host, backend and barrier behind each call, process deaths and restarts; every run is
    a run of authority steps, and the invariants that hold in every reachable world.

    The calls of the coordinator are the only writers of the tables here.  The worktree
    orchestration also inserts child lease rows of its own
    ([worktree_orchestration/capability.rs]); it issues no token for them, and they are not
    modelled.  Nor is a call whose future is dropped at an await while the process lives on
    (a death of the process there is). *)

From S2P Require Import Prelude.
From S2P Require Import WriteScopeDb.
From S2P Require Import WriteScope.
From S2P Require Import WriteScopeInv.
From S2P Require Import WriteScopeRefine.
From S2P Require Import WriteScopeReturn.
From stdpp Require Import options.
Set Warnings "-clear-no-such-hyp".

(** ** Runs *)

Inductive Op :=
| OpOpenRoot (session : Z) (owner : bytes) (scope : CanonicalScope)
| OpEnsureRoot (session : Z) (owner : bytes) (scope : CanonicalScope)
| OpEffectiveAuthority (lease_id : Z)
| OpValidate (token : WriteScopeToken)
| OpAcquire (token : WriteScopeToken) (target : Path) (kind : MutationKind)
| OpRevalidate (token : WriteScopeToken) (permit : MutationPermit)
| OpReleaseMutation (permit : MutationPermit)
| OpBeginTransfer (request : TransferRequest)
| OpChildTerminal (transfer_id : Z)
| OpCompleteReturn (transfer_id : Z)
| OpRecover (session : option Z)
| OpBeginSessionDeletion (session : Z)
| OpDeletionBlockers (session : Z)
| OpBeginShutdown
| OpShutdownClean.

Definition run_op `{Host} `{ScopedWriteBackend} `{ContainmentBarrier} (op : Op) : WS unit :=
  match op with
  | OpOpenRoot s o sc => open_root_lease s o sc ;; mret tt
  | OpEnsureRoot s o sc => ensure_session_root_lease s o sc ;; mret tt
  | OpEffectiveAuthority l => effective_authority l ;; mret tt
  | OpValidate tk => validate_token tk
  | OpAcquire tk target kind => acquire_mutation_permit tk target kind ;; mret tt
  | OpRevalidate tk mp => revalidate_mutation_permit tk mp
  | OpReleaseMutation mp => release_mutation_permit mp
  | OpBeginTransfer rq => begin_transfer rq ;; mret tt
  | OpChildTerminal i => child_terminal i
  | OpCompleteReturn i => complete_return i ;; mret tt
  | OpRecover s => recover s ;; mret tt
  | OpBeginSessionDeletion s => begin_session_deletion s ;; mret tt
  | OpDeletionBlockers s => deletion_blockers s ;; mret tt
  | OpBeginShutdown => begin_shutdown
  | OpShutdownClean => assert_shutdown_clean
  end.
(** Only the coordinator makes tokens. *)
Definition op_allowed (w : World) (op : Op) : Prop :=
  match op with
  | OpValidate tk | OpAcquire tk _ _ | OpRevalidate tk _ => issued w tk
  | _ => True
  end.

(** The tables outlive the process; its tokens and flags do not. *)
Definition restart (w : World) : World :=
  mkWorld (w_db w) ∅ [] false (w_events w) (w_calls w) (w_tick w).
Definition add_session (s : Z) (w : World) : World :=
  set_db (set_sessions (<[s := SlActive]> (db_sessions (w_db w))) (w_db w)) w.

(** One process: a call that returns, or a session created elsewhere. *)
Inductive proc_step (w : World) : World -> Prop :=
| ps_call (h : Host) (b : ScopedWriteBackend) (c : ContainmentBarrier) op w' r :
    op_allowed w op -> run_op op w = (w', r) -> r <> Panic -> proc_step w w'
| ps_session s : db_sessions (w_db w) !! s = None -> proc_step w (add_session s w).
(** The system: one process after another. *)
Inductive sys_step (w : World) : World -> Prop :=
| sys_proc w' : proc_step w w' -> sys_step w w'
| sys_death (h : Host) (b : ScopedWriteBackend) (c : ContainmentBarrier) op w' :
    op_allowed w op -> run_op op w = (w', Panic) -> sys_step w (restart w')
| sys_restart : sys_step w (restart w).

Definition initial (w : World) : Prop :=
  db_leases (w_db w) = ∅ /\ db_transfers (w_db w) = ∅ /\ db_permits (w_db w) = ∅ /\ w_tokens w = ∅ /\ w_cores w = [].
Definition reachable (w : World) : Prop := exists w0, initial w0 /\ rtc sys_step w0 w.

(** ** Refinement *)

Section refinement.
Context {restorable : Z -> Prop}.
Local Abbreviation astep := (WriteScopeInv.astep (restorable := restorable)).

(** Authority steps, and what lies outside the coordinator. *)
Inductive env_step (w : World) : World -> Prop :=
| env_authority w' : astep w w' -> env_step w w'
| env_session s : db_sessions (w_db w) !! s = None -> env_step w (add_session s w)
| env_restart : env_step w (restart w).

Lemma safe_runs `{Host} `{ScopedWriteBackend} `{ContainmentBarrier} {A} (m : WS A) w Q :
  safe (restorable := restorable) m w Q -> rtc astep w (m w).1.
Proof using Type. by intros [Hs _]. Qed.
Lemma safe_discard `{Host} `{ScopedWriteBackend} `{ContainmentBarrier} {A} (m : WS A) w Q :
  safe (restorable := restorable) m w Q -> safe (restorable := restorable) (m ;; mret tt) w (fun _ _ => True).
Proof using Type. intros Hm. eapply safe_bind; [exact Hm|]. intros. by apply safe_ret. Qed.

Lemma run_op_safe `{Host} `{ScopedWriteBackend} `{ContainmentBarrier} op w :
  Inv w -> always_ok (restorable := restorable) w -> op_allowed w op -> rtc astep w (run_op op w).1.
Proof using Type.
  intros HI Hok Ha. destruct op; cbn [run_op op_allowed] in *.
  - eapply safe_runs, safe_discard, safe_open_root_lease.
  - eapply safe_runs, safe_discard, safe_ensure_root.
  - eapply safe_runs, safe_discard, safe_effective_authority.
  - eapply safe_runs, safe_validate_token.
  - by eapply safe_runs, safe_discard, safe_acquire.
  - eapply safe_runs, safe_revalidate.
  - eapply safe_runs, safe_release_mutation.
  - by eapply safe_runs, safe_discard, safe_begin_transfer.
  - by eapply safe_runs, safe_child_terminal.
  - by eapply safe_runs, safe_discard, safe_complete_return.
  - by eapply safe_runs, safe_discard, safe_recover.
  - eapply safe_runs, safe_discard, safe_begin_session_deletion.
  - eapply safe_runs, safe_discard, safe_blockers.
  - eapply safe_runs, safe_begin_shutdown.
  - eapply safe_runs, safe_shutdown_clean.
Qed.

Lemma env_authorities w w' : rtc astep w w' -> rtc env_step w w'.
Proof using Type. apply rtc_subrel. intros a b. apply env_authority. Qed.
Lemma sys_step_refines w w' : Inv w -> always_ok (restorable := restorable) w -> sys_step w w' -> rtc env_step w w'.
Proof using Type.
  intros HI Hok [w1 [h b c op w2 r Ha Hr _|s Hs]|h b c op w2 Ha Hr|].
  - apply env_authorities. replace w2 with (run_op op w).1 by (by rewrite Hr). by apply run_op_safe.
  - apply rtc_once. by apply env_session.
  - eapply rtc_r; [|apply env_restart]. apply env_authorities.
    replace w2 with (run_op op w).1 by (by rewrite Hr). by apply run_op_safe.
  - apply rtc_once. apply env_restart.
Qed.
Lemma env_step_inv w w' : env_step w w' -> Inv w -> Inv w'.
Proof using Type.
  intros [w1 Hs|s Hs|] HI; [by eapply astep_inv| |].
  - destruct HI as [HD HT]. split; [by destruct HD|by apply (TokInv_same w)].
  - destruct HI as [HD HT]. split; [done|]. by intros i e g c.
Qed.
Lemma env_steps_inv w w' : rtc env_step w w' -> Inv w -> Inv w'.
Proof using Type. induction 1; eauto using env_step_inv. Qed.
End refinement.
Arguments env_step : clear implicits.

Lemma always_ok_all w : always_ok (restorable := fun _ => True) w.
Proof. by intros w' _ i t c l. Qed.
Lemma initial_inv w : initial w -> Inv w.
Proof.
  intros (Hl & Ht & Hp & Htk & Hc). split.
  - split; intros *; rewrite ?Hl, ?Ht, ?lookup_empty; done.
  - intros i e g c. rewrite Htk, lookup_empty. done.
Qed.

(** Invariants of the system are the invariants of authority steps. *)
Lemma sys_invariant (P : World -> Prop) w0 w :
  (forall w w', Inv w -> P w -> env_step (fun _ => True) w w' -> P w') ->
  Inv w0 -> P w0 -> rtc sys_step w0 w -> Inv w /\ P w.
Proof.
  intros HP HI Hw0 Hs. induction Hs as [w|w w1 w2 H1 _ IH]; [done|].
  apply (sys_step_refines (restorable := fun _ => True)) in H1; [|done|apply always_ok_all].
  assert (Inv w -> P w -> Inv w1 /\ P w1) as Hgo.
  { clear -HP H1. induction H1 as [w|w wa wb Ha _ IH]; [done|]. intros HI HPw.
    apply IH; [by eapply env_step_inv|by eapply HP]. }
  destruct (Hgo HI Hw0). by apply IH.
Qed.
Lemma reachable_invariant (P : World -> Prop) w :
  (forall w w', Inv w -> P w -> env_step (fun _ => True) w w' -> P w') ->
  (forall w, initial w -> P w) -> reachable w -> Inv w /\ P w.
Proof. intros HP Hi (w0 & Hw0 & Hs). eapply sys_invariant; eauto using initial_inv. Qed.
Lemma reachable_inv w : reachable w -> Inv w.
Proof. intros Hr. by apply (reachable_invariant (fun _ => True)). Qed.
