(* ===== verification/WriteScopeSafety.v ===== *)
(** Invariants of write-scope authority in every reachable world: held permits do not
    conflict, writers inside a delegated sub-scope are the delegate's, a restored transfer's
    child is proven gone, stale tokens stay stale, and an interrupted return stays
    interrupted. *)

From S2P Require Import Prelude.
From S2P Require Import WriteScopeDb.
From S2P Require Import WriteScope.
From S2P Require Import WriteScopeInv.
From S2P Require Import WriteScopeRefine.
From S2P Require Import WriteScopeReturn.
From S2P Require Import WriteScopeTree.
From S2P Require Import WriteScopeSystem.
From stdpp Require Import options.
Set Warnings "-clear-no-such-hyp".

(** ** Held permits do not conflict *)

Definition mutation_held (p : WriteScopePermitRow) : Prop := wp_state p = PsHeld /\ wp_kind p = PkMutation.
Definition PermInv (w : World) : Prop :=
  forall i j p q, db_permits (w_db w) !! i = Some p -> db_permits (w_db w) !! j = Some q -> i <> j ->
    mutation_held p -> mutation_held q -> wp_session_id p = wp_session_id q ->
    conflicts_with (permit_footprint p) (permit_footprint q) = false.

Lemma conflicts_with_sym a b : conflicts_with a b = conflicts_with b a.
Proof.
  unfold conflicts_with, overlaps. rewrite (orb_comm (path_contains (fp_influence_root b) _)).
  rewrite (orb_comm (influences_namespace (fp_kind b))). do 2 (case_match; [done|]).
  apply bool_decide_ext. by split.
Qed.

Lemma PermInv_same w w' : db_permits (w_db w') = db_permits (w_db w) -> PermInv w -> PermInv w'.
Proof. unfold PermInv. by intros ->. Qed.
(** A row that does not hold a mutation permit disturbs nothing. *)
Lemma PermInv_put w i r : ~ mutation_held r -> PermInv w -> PermInv (put_permit i r w).
Proof.
  intros Hr HP k j p q. cbn [put_permit w_db set_db set_permits db_permits].
  intros [[<- <-]|[? Hp]]%lookup_insert_Some [[<- <-]|[? Hq]]%lookup_insert_Some; try done. eauto.
Qed.
(** Apply the premise of an acquisition about the permits held. *)
Ltac apply_held :=
  match goal with Hno : forall q, held_mutation _ _ q -> conflicts_with _ _ = false |- _ => apply Hno end.
Lemma PermInv_step w w' : Inv w -> PermInv w -> env_step (fun _ => True) w w' -> PermInv w'.
Proof.
  intros _ HP [w1 Hs|s Hs|]; try by apply (PermInv_same w).
  destruct Hs; try by apply (PermInv_same w).
  - intros i j q r. cbn [put_permit w_db set_db set_permits db_permits].
    intros [[<- <-]|[? Hq]]%lookup_insert_Some [[<- <-]|[? Hr]]%lookup_insert_Some Hne Hq' Hr' Hse; try done.
    + apply_held. split; [eauto|]. by destruct Hr'.
    + rewrite conflicts_with_sym. apply_held. split; [eauto|]. by destruct Hq'.
    + eauto.
  - apply PermInv_put; [|done]. intros [_ ?]. congruence.
  - apply PermInv_put; [|done]. by intros [? _].
Qed.
Lemma initial_PermInv w : initial w -> PermInv w.
Proof. intros (_ & _ & Hp & _) i j p q. by rewrite Hp, lookup_empty. Qed.

(** ** Writers inside a delegated sub-scope *)

Record BarrierInv (w : World) : Prop := {
  bi_lease i p : db_permits (w_db w) !! i = Some p -> wp_kind p = PkMutation ->
    is_Some (db_leases (w_db w) !! wp_lease_id p) /\ wp_influence_root p = wp_target_path p;
  bi_inside k t p : delegation (w_db w) k t -> held_mutation (w_db w) (wt_session_id t) p ->
    path_contains (wt_sub_scope_path t) (wp_target_path p) = true ->
    same_tree (w_db w) (wp_lease_id p) (wt_parent_lease_id t) ->
    exists c, wt_child_lease_id t = Some c /\ rtc (child_of (w_db w)) (wp_lease_id p) c }.

(** No new permit and no new delegation. *)
Lemma BarrierInv_frame w w' :
  DbInv (w_db w) -> tree_extends (w_db w) (w_db w') ->
  (forall i p, db_permits (w_db w') !! i = Some p -> wp_kind p = PkMutation ->
     exists q, db_permits (w_db w) !! i = Some q /\ wp_kind q = PkMutation /\ wp_lease_id q = wp_lease_id p /\
       wp_target_path q = wp_target_path p /\ wp_influence_root q = wp_influence_root p /\
       wp_session_id q = wp_session_id p /\ (wp_state p = PsHeld -> wp_state q = PsHeld)) ->
  (forall k t', delegation (w_db w') k t' -> exists t, delegation (w_db w) k t /\ same_transfer t t' /\
     forall c, wt_child_lease_id t = Some c -> wt_child_lease_id t' = Some c) ->
  BarrierInv w -> BarrierInv w'.
Proof.
  intros HI Hext Hperm Htr [Hl Hin]. split.
  - intros i p Hp Hk. destruct (Hperm i p Hp Hk) as (q & Hq & Hqk & Hql & Hqt & Hqi & _).
    destruct (Hl i q Hq Hqk) as [[r Hr] Hi]. rewrite <- Hql, <- Hqt, <- Hqi. split; [|done].
    destruct (Hext _ r Hr) as (r' & -> & _). done.
  - intros k t' p Hd ([i Hi] & Hs & Hst & Hk) Hsub Htree.
    destruct (Hperm i p Hi Hk) as (q & Hq & Hqk & Hql & Hqt & _ & Hqs & Hqh).
    destruct (Htr k t' Hd) as (t & Ht & (_ & Hpar & Hscope & Hses) & Hch).
    destruct (Hl i q Hq Hqk) as [Hlq _].
    destruct (Hin k t q) as (c & Hc & Hdesc); [done| | | |].
    + split; [eauto|]. split; [congruence|]. auto.
    + congruence.
    + destruct Htree as (root & H1 & H2). exists root. rewrite Hpar in H2. rewrite <- Hql in H1.
      split; (apply (ancestors_extend (w_db w) (w_db w')); [exact HI|exact Hext| |assumption]); [done|].
      eapply di_parent; [done|apply Ht].
    + exists c. split; [by apply Hch|]. rewrite <- Hql. by apply (ancestors_extend (w_db w)).
Qed.

Lemma tree_extends_same d d' : db_leases d' = db_leases d -> tree_extends d d'.
Proof. intros E i r Hr. rewrite E. eauto. Qed.
Lemma tree_extends_fresh d d' i r :
  db_leases d !! i = None -> db_leases d' = <[i := r]> (db_leases d) -> tree_extends d d'.
Proof. intros Hn E j x Hx. exists x. rewrite E, lookup_insert_ne; [done|congruence]. Qed.
Lemma tree_extends_update d d' i r r' :
  db_leases d !! i = Some r -> same_lease r r' -> db_leases d' = <[i := r']> (db_leases d) -> tree_extends d d'.
Proof.
  intros Hr (_ & Hp & _) E j x Hx. rewrite E. destruct (decide (j = i)) as [->|Hne].
  - exists r'. rewrite lookup_insert_eq. split; [done|]. congruence.
  - exists x. by rewrite lookup_insert_ne.
Qed.

(** Delegations after one transfer row changed. *)
Lemma delegations_put w i t t' d' :
  db_transfers (w_db w) !! i = Some t -> db_transfers d' = <[i := t']> (db_transfers (w_db w)) ->
  (denied t' = true -> denied t = true /\ same_transfer t t' /\
     forall c, wt_child_lease_id t = Some c -> wt_child_lease_id t' = Some c) ->
  forall k u', delegation d' k u' -> exists u, delegation (w_db w) k u /\ same_transfer u u' /\
    forall c, wt_child_lease_id u = Some c -> wt_child_lease_id u' = Some c.
Proof.
  intros Ht E Hd k u' [Hu Hdu]. rewrite E in Hu. apply lookup_insert_Some in Hu as [[<- <-]|[_ Hu]].
  - destruct (Hd Hdu) as (? & ? & ?). by exists t.
  - exists u'. repeat split; auto.
Qed.
Lemma delegations_same w d' :
  db_transfers d' = db_transfers (w_db w) ->
  forall k u', delegation d' k u' -> exists u, delegation (w_db w) k u /\ same_transfer u u' /\
    forall c, wt_child_lease_id u = Some c -> wt_child_lease_id u' = Some c.
Proof. intros E k u' [Hu Hd]. rewrite E in Hu. exists u'. repeat split; auto. Qed.
Lemma permits_same w w' :
  db_permits (w_db w') = db_permits (w_db w) ->
  forall i p, db_permits (w_db w') !! i = Some p -> wp_kind p = PkMutation ->
     exists q, db_permits (w_db w) !! i = Some q /\ wp_kind q = PkMutation /\ wp_lease_id q = wp_lease_id p /\
       wp_target_path q = wp_target_path p /\ wp_influence_root q = wp_influence_root p /\
       wp_session_id q = wp_session_id p /\ (wp_state p = PsHeld -> wp_state q = PsHeld).
Proof. intros E i p Hp Hk. rewrite E in Hp. exists p. repeat split; auto. Qed.

(** A new exclusion finds no permit inside. *)
Lemma BarrierInv_exclude w i t t' :
  db_transfers (w_db w) !! i = Some t -> same_transfer t t' ->
  (forall p, held_mutation (w_db w) (wt_session_id t) p -> overlaps_scope (stored_footprint p) (wt_sub_scope_path t) = false) ->
  BarrierInv w -> BarrierInv (put_transfer i t' w).
Proof.
  intros Ht (_ & Hpar & Hsub & Hses) Hno [Hl Hin]. split; [exact Hl|].
  intros k u p [Hu Hd] Hh Hc Htree. cbn in Hu. apply lookup_insert_Some in Hu as [[<- <-]|[_ Hu]]; [|by apply (Hin k u)].
  rewrite Hses in Hh. specialize (Hno p Hh). destruct Hh as ([j Hj] & _ & _ & Hk). destruct (Hl j p Hj Hk) as [_ Hroot].
  unfold overlaps_scope in Hno. cbn in Hno. rewrite Hroot in Hno. rewrite Hsub in Hc. rewrite Hc, orb_true_r in Hno. done.
Qed.
(** A new permit is of a live lease whose authority allows its target. *)
Lemma BarrierInv_acquire w p :
  DbInv (w_db w) -> wp_influence_root p = wp_target_path p -> lease_allows (w_db w) (wp_lease_id p) (wp_target_path p) ->
  BarrierInv w -> BarrierInv (put_permit (wp_permit_id p) p w).
Proof.
  intros HI Hroot Hal [Hl Hin]. split.
  - intros i q Hq Hk. cbn in Hq |- *. apply lookup_insert_Some in Hq as [[_ <-]|[_ Hq]]; [|by apply (Hl i)].
    split; [|done]. destruct Hal as (r & -> & _). done.
  - intros k t q Hd ([j Hj] & Hs & Hst & Hk) Hc Htree. cbn in Hj.
    apply lookup_insert_Some in Hj as [[_ <-]|[_ Hj]]; [by apply (tree_writer_below (w_db w) HI _ k t (wp_target_path p))|].
    apply (Hin k t q); try done. split; [eauto|done].
Qed.

Lemma live_token_not_released w i entry g core r :
  TokInv w -> w_tokens w !! i = Some entry -> (g, core) ∈ entry -> db_leases (w_db w) !! i = Some r ->
  wl_generation r = g -> wl_state r <> LsReleased.
Proof.
  intros HT He Hin Hr Hg Hs. destruct (HT _ _ _ _ He Hin) as (_ & r' & Hr' & _ & Hlt). simplify_eq.
  specialize (Hlt Hs). lia.
Qed.

Lemma BarrierInv_leases w w' :
  DbInv (w_db w) -> tree_extends (w_db w) (w_db w') -> db_transfers (w_db w') = db_transfers (w_db w) ->
  db_permits (w_db w') = db_permits (w_db w) -> BarrierInv w -> BarrierInv w'.
Proof.
  intros HI He Ht Hp. apply BarrierInv_frame; [done|done|by apply permits_same|by apply delegations_same].
Qed.
Lemma BarrierInv_same w w' : w_db w' = w_db w -> BarrierInv w -> BarrierInv w'.
Proof. intros E [Hl Hin]. split; rewrite E; done. Qed.
Lemma BarrierInv_transfer w w' i t t' :
  DbInv (w_db w) -> tree_extends (w_db w) (w_db w') -> db_permits (w_db w') = db_permits (w_db w) ->
  db_transfers (w_db w) !! i = Some t -> db_transfers (w_db w') = <[i := t']> (db_transfers (w_db w)) ->
  (denied t' = true -> denied t = true /\ same_transfer t t' /\
     forall c, wt_child_lease_id t = Some c -> wt_child_lease_id t' = Some c) ->
  BarrierInv w -> BarrierInv w'.
Proof.
  intros HI He Hp Ht Htr Hd. apply BarrierInv_frame; [done|done|by apply permits_same|by eapply delegations_put].
Qed.
(** A row that does not newly hold a mutation permit. *)
Lemma BarrierInv_permit w i r :
  (wp_kind r = PkMutation -> wp_state r <> PsHeld /\ exists q, db_permits (w_db w) !! i = Some q /\
     wp_kind q = PkMutation /\ wp_lease_id q = wp_lease_id r /\ wp_target_path q = wp_target_path r /\
     wp_influence_root q = wp_influence_root r) ->
  BarrierInv w -> BarrierInv (put_permit i r w).
Proof.
  intros Hr [Hl Hin]. split.
  - intros j p Hp Hk. cbn in Hp |- *. apply lookup_insert_Some in Hp as [[<- <-]|[_ Hp]]; [|by apply (Hl j)].
    destruct (Hr Hk) as (_ & q & Hq & Hqk & <- & <- & <-). by apply (Hl i).
  - intros k t p Hd ([j Hj] & Hs & Hst & Hk) Hc Htree. cbn in Hj.
    apply lookup_insert_Some in Hj as [[<- <-]|[_ Hj]]; [by destruct (Hr Hk)|].
    apply (Hin k t p); try done. split; [eauto|done].
Qed.

Lemma BarrierInv_step w w' : Inv w -> BarrierInv w -> env_step (fun _ => True) w w' -> BarrierInv w'.
Proof.
  intros [HI HT] HB [w1 Hs|s Hs|]; [|by destruct HB; split|by apply (BarrierInv_same w)].
  destruct Hs as [w|w e|w c|w l|w|w row row' Hr _ _ _|w r Hn Hp _|w i r r' Hr Hsl _ _ _|w t p Hn Hp _ Hph Hc _ _
    |w i t c g pm ident time Ht Hph|w i t t' Ht Hsame Hc _ _ _ Hno|w i t t' child Ht Hph Hsame Hph' Hc Hn Hcp _ _ _ _ _
    |w i t t' Ht Hsame Hc Hc' Hph _ _|w i t t' Ht Hsame Hc Hph Hph' _ _|w i t t' c l Ht Hsame Hc Hph Hph' _ _ _ _ _ _ _
    |w i t t' Ht Hsame Hc Hph Hph' _ _|w p l Hn Hk Hst Hroot Hl Hg _ Htok Hal _|w p Hn Hk|w i p time Hp|w s Hs];
    try by apply (BarrierInv_same w).
  - apply (BarrierInv_leases w); try done. by eapply tree_extends_fresh.
  - apply (BarrierInv_leases w); try done. by eapply tree_extends_update.
  - apply (BarrierInv_frame w); [done|by apply tree_extends_same|by apply permits_same| |done].
    intros k u' [Hu Hd]. cbn in Hu. apply lookup_insert_Some in Hu as [[<- <-]|[_ Hu]]; [|by exists u'].
    unfold denied in Hd. by rewrite Hph in Hd.
  - apply (BarrierInv_transfer w _ i t (attach_row c g pm ident time t)); try done. by apply tree_extends_same.
  - by apply (BarrierInv_exclude w i t t').
  - apply (BarrierInv_transfer w _ i t t'); try done; [by eapply tree_extends_fresh|]. intros _.
    pose proof (di_phase _ HI _ _ Ht) as Hok. unfold phase_child_ok in Hok. rewrite Hph in Hok.
    unfold denied. rewrite Hph. split; [done|]. split; [done|]. by rewrite Hok.
  - apply (BarrierInv_transfer w _ i t t'); try done; [by apply tree_extends_same|]. unfold denied. by rewrite Hph.
  - apply (BarrierInv_transfer w _ i t t'); try done; [by apply tree_extends_same|]. unfold denied. rewrite Hph, Hc. done.
  - apply (BarrierInv_transfer w _ i t t'); try done; [by apply tree_extends_same|]. unfold denied. by rewrite Hph'.
  - apply (BarrierInv_transfer w _ i t t'); try done; [by apply tree_extends_same|]. unfold denied. by rewrite Hph'.
  - apply BarrierInv_acquire; try done. destruct Htok as (entry & core & He & Hin). exists l. split; [done|].
    split; [|done]. by eapply live_token_not_released.
  - apply BarrierInv_permit; [|done]. intros. congruence.
  - apply BarrierInv_permit; [|done]. intros Hk. cbn in Hk |- *. split; [done|]. by exists p.
  - by destruct HB; split.
Qed.
Lemma initial_BarrierInv w : initial w -> BarrierInv w.
Proof.
  intros (_ & Ht & Hp & _). split; [intros i p; by rewrite Hp, lookup_empty|].
  intros k t p [Hk _]. by rewrite Ht, lookup_empty in Hk.
Qed.

(** ** Restored transfers *)

(** Past the child's return, the child is gone for good. *)
Definition past_return (t : WriteScopeTransferRow) : Prop := wt_phase t = ParentRestored \/ wt_phase t = TfCommitted.
Definition returned (w : World) (t : WriteScopeTransferRow) : Prop :=
  forall c, wt_child_lease_id t = Some c ->
    proven_gone w t /\ exists l, db_leases (w_db w) !! c = Some l /\ wl_state l = LsReleased.
Definition ReturnInv (w : World) : Prop :=
  forall k t, db_transfers (w_db w) !! k = Some t -> past_return t -> returned w t.

(** Released leases stay released, proofs stay logged. *)
Definition remembers (w w' : World) : Prop :=
  (forall c l, db_leases (w_db w) !! c = Some l -> wl_state l = LsReleased ->
     exists l', db_leases (w_db w') !! c = Some l' /\ wl_state l' = LsReleased) /\
  (forall x, x ∈ w_calls w -> x ∈ w_calls w').
Lemma returned_remembers w w' t : remembers w w' -> returned w t -> returned w' t.
Proof.
  intros [Hl Hc] Hr c Ht. destruct (Hr c Ht) as [(k & g & Hk & Hg & Hin) (l & Hlc & Hs)]. split; [|by eapply Hl].
  exists k, g. auto.
Qed.
Lemma remembers_same w w' : db_leases (w_db w') = db_leases (w_db w) -> (forall x, x ∈ w_calls w -> x ∈ w_calls w') ->
  remembers w w'.
Proof. intros E Hc. split; [|done]. intros c l Hl Hs. exists l. by rewrite E. Qed.
Lemma remembers_fresh w d i r : db_leases (w_db w) !! i = None -> db_leases d = <[i := r]> (db_leases (w_db w)) ->
  remembers w (set_db d w).
Proof.
  intros Hn E. split; [|done]. intros c l Hl Hs. exists l. cbn. rewrite E, lookup_insert_ne; [done|congruence].
Qed.
Lemma remembers_update w i r r' :
  db_leases (w_db w) !! i = Some r -> wl_state r <> LsReleased -> remembers w (put_lease i r' w).
Proof.
  intros Hr Hn. split; [|done]. intros c l Hl Hs. exists l. cbn. rewrite lookup_insert_ne; [done|congruence].
Qed.
Lemma ReturnInv_put w w' i t' :
  remembers w w' -> db_transfers (w_db w') = <[i := t']> (db_transfers (w_db w)) -> (past_return t' -> returned w' t') ->
  ReturnInv w -> ReturnInv w'.
Proof.
  intros Hm E Ht HR k u Hu Hp. rewrite E in Hu. apply lookup_insert_Some in Hu as [[<- <-]|[_ Hu]]; [by apply Ht|].
  eapply returned_remembers; [done|]. by apply (HR k).
Qed.
Lemma ReturnInv_same w w' :
  remembers w w' -> db_transfers (w_db w') = db_transfers (w_db w) -> ReturnInv w -> ReturnInv w'.
Proof. intros Hm E HR k u Hu Hp. rewrite E in Hu. eapply returned_remembers; [done|]. by apply (HR k). Qed.

Ltac not_past := let Hp := fresh in intros Hp; unfold past_return in Hp;
  repeat match goal with H : wt_phase _ = _ |- _ => rewrite H in Hp; clear H end; by destruct Hp.

Lemma ReturnInv_step w w' : Inv w -> ReturnInv w -> env_step (fun _ => True) w w' -> ReturnInv w'.
Proof.
  intros [HI HT] HR [w1 Hs|s Hs|]; try (by apply (ReturnInv_same w); [apply remembers_same| |]).
  destruct Hs as [w|w e|w c|w l|w|w row row' Hr _ _ _|w r Hn Hp _|w i r r' Hr Hsl Hleg _ _|w t p Hn Hp _ Hph Hc _ _
    |w i t c g pm ident time Ht Hph|w i t t' Ht Hsame Hc _ Hph' _ Hno|w i t t' child Ht Hph Hsame Hph' Hc Hn Hcp _ _ _ _ _
    |w i t t' Ht Hsame Hc Hc' Hph _ _|w i t t' Ht Hsame Hc Hph Hph' _ _|w i t t' c l Ht Hsame Hc Hph Hph' Hco Hcg Hch Hl Hrel Hgone _
    |w i t t' Ht Hsame Hc Hph Hph' Hco Hcg|w p l Hn Hk Hst Hroot Hl Hg _ Htok Hal _|w p Hn Hk|w i p time Hp|w s Hs];
    try (by apply (ReturnInv_same w); [apply remembers_same| |]).
  - apply (ReturnInv_same w); [|done|done]. apply remembers_same; [done|]. cbn. set_solver.
  - apply (ReturnInv_same w); [by eapply remembers_fresh|done|done].
  - apply (ReturnInv_same w); [|done|done]. eapply remembers_update; [done|]. by eapply legal_not_from_released.
  - apply (ReturnInv_put w _ (wt_transfer_id t) t); try done; [by apply remembers_same|not_past].
  - apply (ReturnInv_put w _ i (attach_row c g pm ident time t)); try done; [by apply remembers_same|].
    change (past_return (attach_row c g pm ident time t)) with (past_return t). not_past.
  - apply (ReturnInv_put w _ i t'); try done; [by apply remembers_same|not_past].
  - apply (ReturnInv_put w _ i t'); try done; [by eapply remembers_fresh|not_past].
  - apply (ReturnInv_put w _ i t'); try done; [by apply remembers_same|]. intros _ c. by rewrite Hc'.
  - apply (ReturnInv_put w _ i t'); try done; [by apply remembers_same|not_past].
  - apply (ReturnInv_put w _ i t'); try done; [by apply remembers_same|]. intros _ c'. rewrite Hc, Hch.
    intros [= <-]. split; [|eauto]. destruct Hgone as (k & g & ? & ? & ?). exists k, g. by rewrite Hco, Hcg.
  - apply (ReturnInv_put w _ i t'); try done; [by apply remembers_same|]. intros _ c'. rewrite Hc. intros Hch.
    destruct (HR i t Ht (or_introl Hph) c' Hch) as [(k & g & ? & ? & ?) Hl]. split; [|done].
    exists k, g. by rewrite Hco, Hcg.
Qed.
Lemma initial_ReturnInv w : initial w -> ReturnInv w.
Proof. intros (_ & Ht & _) k t Hk. by rewrite Ht, lookup_empty in Hk. Qed.

(** ** Tokens *)

(** What [validate_token] checks. *)
Definition live_token (w : World) (tk : WriteScopeToken) : Prop :=
  token_is_valid w tk = true /\
  exists r, db_leases (w_db w) !! ws_lease_id tk = Some r /\ wl_generation r = ws_generation tk.
(** A token that may write to a path now. *)
Definition may_write (w : World) (tk : WriteScopeToken) (p : Path) : Prop :=
  token_is_valid w tk = true /\
  exists r, db_leases (w_db w) !! ws_lease_id tk = Some r /\ wl_generation r = ws_generation tk /\
    allows_path (authority_of (w_db w) (ws_lease_id tk) r) p = true.

Definition stale (tk : WriteScopeToken) (w : World) : Prop :=
  (ws_core tk < length (w_cores w))%nat /\
  (w_cores w !! ws_core tk = Some false \/
   exists r, db_leases (w_db w) !! ws_lease_id tk = Some r /\ ws_generation tk < wl_generation r).

Lemma stale_not_live tk w : stale tk w -> ~ live_token w tk.
Proof.
  intros [_ [Hf|(r & Hr & Hlt)]] [Hv (r' & Hr' & Hg)].
  - unfold token_is_valid in Hv. by rewrite Hf in Hv.
  - rewrite Hr in Hr'. injection Hr' as <-. lia.
Qed.
Lemma not_live_stale tk w : Inv w -> issued w tk -> ~ live_token w tk -> stale tk w.
Proof.
  intros [_ HT] (entry & r & He & Hin & Hr & _) Hn. destruct (HT _ _ _ _ He Hin) as (Hc & r' & Hr' & Hle & _).
  assert (r' = r) as -> by congruence. split; [done|].
  apply lookup_lt_is_Some in Hc as [[] Hf]; [|by left]. right. exists r. split; [done|].
  destruct (decide (wl_generation r = ws_generation tk)) as [E|]; [|lia]. destruct Hn. split; [|eauto].
  unfold token_is_valid. by rewrite Hf.
Qed.

(** Flags are only ever cleared. *)
Lemma invalidate_false l flags i : flags !! i = Some false -> invalidate l flags !! i = Some false.
Proof.
  intros Hf. induction l as [|j l IH]; [done|]. cbn. destruct (decide (j = i)) as [->|Hne].
  - rewrite list_lookup_insert_eq; [done|]. by eapply lookup_lt_Some.
  - by rewrite list_lookup_insert_ne.
Qed.
Lemma stale_flags tk w w' :
  db_leases (w_db w') = db_leases (w_db w) -> (length (w_cores w) <= length (w_cores w'))%nat ->
  (w_cores w !! ws_core tk = Some false -> w_cores w' !! ws_core tk = Some false) -> stale tk w -> stale tk w'.
Proof.
  intros E Hlen Hf [Hc [H|H]]; (split; [lia|]); [left; auto|right]. by rewrite E.
Qed.
Lemma stale_leases tk w w' :
  w_cores w' = w_cores w ->
  (forall i r, db_leases (w_db w) !! i = Some r -> exists r', db_leases (w_db w') !! i = Some r' /\
     wl_generation r <= wl_generation r') -> stale tk w -> stale tk w'.
Proof.
  intros E Hg [Hc [H|(r & Hr & Hlt)]]; (split; [by rewrite E|]); [left; by rewrite E|right].
  destruct (Hg _ _ Hr) as (r' & Hr' & Hle). exists r'. split; [done|lia].
Qed.
Lemma astep_stale tk w w' : astep (restorable := fun _ => True) w w' -> stale tk w -> stale tk w'.
Proof.
  intros Hs. destruct Hs as [| | |w l| |w row row' Hr _ _ _|w r Hn _ _|w i r r' Hr _ _ Hg _| | | |w i t t' child _ _ _ _ _ Hn|
    | | | | | | |]; try by apply stale_flags.
  - apply stale_flags; cbn; [done|by rewrite length_invalidate|apply invalidate_false].
  - apply stale_flags; cbn; [done|rewrite length_invalidate, length_app; lia|]. intros Hf. apply invalidate_false.
    apply lookup_app_l_Some, Hf.
  - apply stale_leases; cbn; [done|]. intros i x Hx. exists x. rewrite lookup_insert_ne; [|congruence]. split; [done|lia].
  - apply stale_leases; cbn; [done|]. intros j x Hx. destruct (decide (j = i)) as [->|Hne].
    + exists r'. rewrite lookup_insert_eq. split; [done|]. by simplify_eq.
    + exists x. rewrite lookup_insert_ne; [|done]. split; [done|lia].
  - apply stale_leases; cbn; [done|]. intros j x Hx. exists x. rewrite lookup_insert_ne; [|congruence]. split; [done|lia].
Qed.
Lemma proc_steps_stale tk w w' : Inv w -> rtc proc_step w w' -> stale tk w -> stale tk w'.
Proof.
  intros HI Hs. induction Hs as [|w w1 w2 H1 _ IH]; [done|]. intros Hst.
  assert (Inv w1 /\ stale tk w1) as [HI1 Hst1]; [|by apply IH].
  destruct H1 as [h b c op w1 r Ha Hr _|s Hs].
  - assert (rtc (astep (restorable := fun _ => True)) w w1) as Hsteps.
    { replace w1 with (run_op op w).1 by (by rewrite Hr). apply run_op_safe; [done|apply always_ok_all|done]. }
    split; [by eapply asteps_inv|]. clear -Hsteps Hst. induction Hsteps; eauto using astep_stale.
  - split; [|done]. eapply env_step_inv; [|exact HI]. by apply (env_session (restorable := fun _ => True)).
Qed.

(** ** Interrupted returns *)

(** A return whose child is released but whose transfer is not yet restored. *)
Definition interrupted (i : Z) (w : World) : Prop :=
  exists t c l, db_transfers (w_db w) !! i = Some t /\ wt_phase t = ChildTerminal /\ wt_child_lease_id t = Some c /\
    db_leases (w_db w) !! c = Some l /\ wl_state l = LsReleased.

Lemma interrupted_leases i w w' :
  db_transfers (w_db w') = db_transfers (w_db w) ->
  (forall c l, db_leases (w_db w) !! c = Some l -> wl_state l = LsReleased ->
     exists l', db_leases (w_db w') !! c = Some l' /\ wl_state l' = LsReleased) ->
  interrupted i w -> interrupted i w'.
Proof.
  intros E Hl (t & c & l & Ht & Hp & Hc & Hlc & Hs). destruct (Hl c l Hlc Hs) as (l' & Hl' & Hs').
  exists t, c, l'. by rewrite E.
Qed.
(** Another transfer's row. *)
Lemma interrupted_transfer i j w w' t' :
  db_transfers (w_db w') = <[j := t']> (db_transfers (w_db w)) -> i <> j ->
  (forall c l, db_leases (w_db w) !! c = Some l -> wl_state l = LsReleased ->
     exists l', db_leases (w_db w') !! c = Some l' /\ wl_state l' = LsReleased) ->
  interrupted i w -> interrupted i w'.
Proof.
  intros E Hne Hl (t & c & l & Ht & Hp & Hc & Hlc & Hs). destruct (Hl c l Hlc Hs) as (l' & Hl' & Hs').
  exists t, c, l'. by rewrite E, lookup_insert_ne.
Qed.
Lemma interrupted_is i w t :
  interrupted i w -> db_transfers (w_db w) !! i = Some t -> wt_phase t = ChildTerminal /\ is_Some (wt_child_lease_id t).
Proof. intros (t' & c & l & Ht & Hp & Hc & _) Ht'. assert (t' = t) as -> by congruence. eauto. Qed.

Section interrupted.
Context (i : Z).
Local Abbreviation others := (fun j : Z => j <> i).

(** A step on a transfer in another phase, or without a child, is on another transfer. *)
Lemma interrupted_other w j t :
  interrupted i w -> db_transfers (w_db w) !! j = Some t -> (wt_phase t = ChildTerminal -> wt_child_lease_id t = None) ->
  i <> j.
Proof using Type.
  intros Hi Ht Hn <-. destruct (interrupted_is i w t Hi Ht) as [Hp [c Hc]]. rewrite Hn in Hc by done. done.
Qed.
Lemma astep_interrupted w w' : astep (restorable := others) w w' -> interrupted i w -> interrupted i w'.
Proof using Type.
  intros Hs HW. assert (forall c l, db_leases (w_db w) !! c = Some l -> wl_state l = LsReleased ->
     exists l', db_leases (w_db w) !! c = Some l' /\ wl_state l' = LsReleased) as Hid by eauto.
  destruct Hs as [| | |w l| |w row row' Hr _ _ _|w r Hn _ _|w k r r' Hr _ Hleg _ _|w t p Hn|w k t c g pm ident time Ht Hph
    |w k t t' Ht _ _ Hph|w k t t' child Ht Hph _ _ _ Hn|w k t t' Ht _ Hc _ _|w k t t' Ht _ _ Hph
    |w k t t' c l Ht _ _ _ _ _ _ _ _ _ _ Hrest|w k t t' Ht _ _ Hph| | | |]; try by apply (interrupted_leases i w).
  - apply (interrupted_leases i w); [done| |done]. by apply (remembers_fresh w _ (wl_lease_id r) r).
  - apply (interrupted_leases i w); [done| |done]. apply (remembers_update w k r r'); [done|].
    by eapply legal_not_from_released.
  - apply (interrupted_transfer i (wt_transfer_id t) w _ t); try done. intros ->.
    destruct HW as (u & _ & _ & Hu & _). congruence.
  - eapply (interrupted_transfer i k w); try done. eapply interrupted_other; [done..|by rewrite Hph].
  - eapply (interrupted_transfer i k w); try done. eapply interrupted_other; [done..|by rewrite Hph].
  - eapply (interrupted_transfer i k w); try done; [eapply interrupted_other; [done..|by rewrite Hph]|].
    by apply (remembers_fresh w _ (wl_lease_id child) child).
  - eapply (interrupted_transfer i k w); try done. by eapply interrupted_other.
  - eapply (interrupted_transfer i k w); try done. eapply interrupted_other; [done..|by rewrite Hph].
  - eapply (interrupted_transfer i k w); try done.
  - eapply (interrupted_transfer i k w); try done. eapply interrupted_other; [done..|by rewrite Hph].
Qed.
Lemma asteps_interrupted w w' : rtc (astep (restorable := others)) w w' -> interrupted i w -> interrupted i w'.
Proof using Type. induction 1; eauto using astep_interrupted. Qed.
Lemma interrupted_ok w : interrupted i w -> always_ok (restorable := others) w.
Proof using Type.
  intros HW w' Hs j t c l Ht Hc Hl Hn E. subst j.
  destruct (asteps_interrupted _ _ Hs HW) as (t' & c' & l' & Ht' & _ & Hc' & Hl' & Hr). congruence.
Qed.
Lemma sys_steps_interrupted w w' : Inv w -> rtc sys_step w w' -> interrupted i w -> interrupted i w'.
Proof using Type.
  intros HI Hs. induction Hs as [|w w1 w2 H1 _ IH]; [done|]. intros HW.
  apply (sys_step_refines (restorable := others)) in H1; [|done|by apply interrupted_ok].
  assert (Inv w1 /\ interrupted i w1) as [HI1 HW1]; [|by apply IH].
  split; [by eapply env_steps_inv|]. clear -H1 HW. induction H1 as [|w wa wb Ha _ IH]; [done|]. apply IH.
  destruct Ha as [wa Ha|s Hs|]; [by eapply astep_interrupted|by apply (interrupted_leases i w); eauto..].
Qed.
End interrupted.
