(* ===== verification/WriteScopeLive.v ===== *)
(** Progress of the write-scope coordinator: with a database that answers, a containment
    proven empty and a publication that succeeds, the return barrier completes and the
    parent may write to the whole sub-scope again. *)

From S2P Require Import Prelude.
From S2P Require Import WriteScopeDb.
From S2P Require Import WriteScope.
From S2P Require Import WriteScopeInv.
From S2P Require Import WriteScopeRefine.
From S2P Require Import WriteScopeTree.
From S2P Require Import WriteScopeSystem.
From S2P Require Import WriteScopeSafety.
From stdpp Require Import options.
Set Warnings "-clear-no-such-hyp".

(** A computation that returns, in [Q]. *)
Definition total {A} (m : WS A) (w : World) (Q : World -> A -> Prop) : Prop :=
  exists w' a, m w = (w', Ok a) /\ Q w' a.

Section live.
Context `{Host} `{ScopedWriteBackend} `{ContainmentBarrier}.
Hypothesis Hfine : forall n, host_fault n = Fine.

Lemma total_mono {A} (m : WS A) w (P Q : World -> A -> Prop) :
  total m w P -> (forall w' a, P w' a -> Q w' a) -> total m w Q.
Proof using Type. intros (w' & a & Hm & HP) HPQ. exists w', a. auto. Qed.
Lemma total_ret {A} (a : A) w (Q : World -> A -> Prop) : Q w a -> total (mret a) w Q.
Proof using Type. by exists w, a. Qed.
Lemma total_ok {A} (a : A) w (Q : World -> A -> Prop) : Q w a -> total (of_result (Ok a)) w Q.
Proof using Type. by exists w, a. Qed.
Lemma total_asks {A} (f : World -> A) w (Q : World -> A -> Prop) : Q w (f w) -> total (asks f) w Q.
Proof using Type. by exists w, (f w). Qed.
Lemma total_modifies f w (Q : World -> unit -> Prop) : Q (f w) tt -> total (modifies f) w Q.
Proof using Type. by exists (f w), tt. Qed.
Lemma total_bind {A B} (m : WS A) (f : A -> WS B) w P (Q : World -> B -> Prop) :
  total m w P -> (forall w' a, P w' a -> total (f a) w' Q) -> total (m ≫= f) w Q.
Proof using Type.
  intros (w1 & a & Hm & HP) Hf. destruct (Hf w1 a HP) as (w2 & b & Hfb & HQ). exists w2, b. split; [|done].
  unfold mbind, WS_bind. by rewrite Hm.
Qed.
Lemma total_tick w (Q : World -> nat -> Prop) : Q (next_tick w) (w_tick w) -> total tick w Q.
Proof using Hfine. intros HQ. exists (next_tick w), (w_tick w). split; [|done]. unfold tick. by rewrite Hfine. Qed.
Lemma total_db {A} (op : DbOp A) d a w (Q : World -> A -> Prop) :
  op (w_db w) = Some (d, a) -> Q (set_db d (next_tick w)) a -> total (db op) w Q.
Proof using Hfine.
  intros Ho HQ. eapply (total_bind _ _ _ (fun w' n => w' = next_tick w)); [by apply total_tick|]. intros w1 n ->.
  rewrite Hfine. exists (set_db d (next_tick w)), a. split; [|done].
  change (w_db (next_tick w)) with (w_db w). by rewrite Ho.
Qed.

(** The tables are [d] and no token was issued since [w]. *)
Definition now_at (d : Db) (w w' : World) : Prop :=
  w_db w' = d /\ w_tokens w' = w_tokens w /\ length (w_cores w') = length (w_cores w).
Lemma now_at_trans d d' w w' w'' : now_at d w w' -> now_at d' w' w'' -> now_at d' w w''.
Proof using Type. intros (_&?&?) (?&?&?). repeat split; congruence. Qed.
Lemma now_at_tick d w : now_at d w (set_db d (next_tick w)).
Proof using Type. done. Qed.

Lemma total_read {A} (f : Db -> A) w :
  total (db (fun d => Some (d, f d))) w (fun w' a => now_at (w_db w) w w' /\ a = f (w_db w)).
Proof using Hfine. by eapply total_db. Qed.
Lemma total_lease i r w :
  db_leases (w_db w) !! i = Some r -> total (lease i) w (fun w' a => now_at (w_db w) w w' /\ a = r).
Proof using Hfine.
  intros Hr. eapply total_bind; [apply total_read|]. cbn. intros w1 a [Hn ->]. unfold get_lease. rewrite Hr.
  by apply total_ok.
Qed.
Lemma total_transfer i t w :
  db_transfers (w_db w) !! i = Some t -> total (transfer i) w (fun w' a => now_at (w_db w) w w' /\ a = t).
Proof using Hfine.
  intros Hr. eapply total_bind; [apply total_read|]. cbn. intros w1 a [Hn ->]. unfold get_transfer. rewrite Hr.
  by apply total_ok.
Qed.

Lemma lease_triggers_ok cas r :
  can_transition_to (wl_state r) (cl_new_state cas) = true -> wl_generation r <= cl_new_generation cas ->
  lease_triggers r (cas_lease_row cas r) = true.
Proof using Type.
  intros Hc Hg. unfold lease_triggers, leases_generation_monotonic, leases_version_monotonic, leases_scope_immutable.
  cbn [cas_lease_row wl_generation wl_version wl_scope_path]. rewrite (bool_decide_true (wl_scope_path r = _)) by done.
  rewrite (proj2 (Z.ltb_ge _ _) Hg). rewrite (proj2 (Z.leb_gt (wl_version r + 1) (wl_version r))) by lia.
  unfold leases_legal_transition, leases_released_is_final. cbn [cas_lease_row wl_state].
  destruct (wl_state r), (cl_new_state cas); try done.
Qed.

Lemma total_cas_lease r next g rel w :
  db_leases (w_db w) !! wl_lease_id r = Some r -> can_transition_to (wl_state r) next = true -> wl_generation r <= g ->
  total (cas_lease r next g rel) w (fun w' o => exists row, o = Some row /\ same_lease r row /\ wl_state row = next /\
    wl_generation row = g /\ now_at (set_leases (<[wl_lease_id r := row]> (db_leases (w_db w))) (w_db w)) w w').
Proof using Hfine.
  intros Hr Hc Hg. unfold cas_lease. rewrite Hc. cbn [negb].
  eapply (total_bind _ _ _ (fun w' _ => w' = w)); [by apply total_asks|]. intros w1 time ->.
  set (cas := mkCasLease _ _ _ _ _ _ _ _).
  eapply (total_bind _ _ _ (fun w' o => o = Some (cas_lease_row cas r) /\
    now_at (set_leases (<[wl_lease_id r := cas_lease_row cas r]> (db_leases (w_db w))) (w_db w)) w w')).
  - eapply total_db; [|by split; [reflexivity|apply now_at_tick]].
    unfold cas_write_scope_lease. cbn [cl_new_generation cl_expected_generation cl_expected_state cl_new_state cas].
    rewrite (proj2 (Z.ltb_ge _ _) Hg), legal_transitions_agree, Hc, andb_false_r. unfold cas_lease_update.
    cbn [cl_lease_id cas]. rewrite Hr. unfold cas_lease_matches.
    cbn [cl_expected_state cl_expected_generation cl_expected_version cas].
    rewrite bool_decide_true by done. rewrite !Z.eqb_refl. cbn [andb]. unfold update_lease.
    rewrite lease_triggers_ok by done. cbn [mbind option_bind fmap option_fmap option_map]. unfold get_lease. cbn [db_leases set_leases]. by rewrite lookup_insert_eq.
  - intros w1 o [-> Hn].
    eapply (total_bind _ _ _ (fun w' _ => now_at (w_db w1) w1 w')).
    + case_match; [|by apply total_ret]. apply total_modifies. split; [done|]. split; [done|]. apply length_invalidate.
    + intros w2 [] Hn2. apply total_ret. exists (cas_lease_row cas r). repeat (split; [done|]).
      destruct Hn as (Hd & Hrest). eapply now_at_trans; [split; [exact Hd|exact Hrest]|]. by rewrite <- Hd.
Qed.

Lemma transfer_triggers_ok cas t :
  phase_next (wt_phase t) = Some (ct_new_phase cas) -> ct_child_lease_id cas = None -> wt_capability t = CapProven ->
  transfer_triggers t (cas_transfer_row cas t) = true.
Proof using Type.
  intros Hn Hc Hcap. unfold transfer_triggers, transfers_phase_adjacent, transfers_phase_forward_only,
    transfers_committed_is_final, transfers_child_lease_write_once, transfers_subscope_immutable,
    transfers_requires_proven_backend.
  cbn [cas_transfer_row wt_phase wt_child_lease_id wt_sub_scope_path wt_capability]. rewrite Hc, Hcap.
  rewrite (bool_decide_true (wt_sub_scope_path t = _)), (bool_decide_true (wt_child_lease_id t = wt_child_lease_id t)) by done.
  rewrite orb_true_r. by destruct (wt_phase t), (ct_new_phase cas).
Qed.

Lemma total_cas_transfer t next patch w :
  db_transfers (w_db w) !! wt_transfer_id t = Some t -> phase_next (wt_phase t) = Some next ->
  wt_capability t = CapProven -> cp_child_lease_id patch = None -> transfer_keys_ok (w_db w) t = true ->
  total (cas_transfer t next patch) w (fun w' row => patched t next patch row /\ wt_capability row = CapProven /\
    now_at (set_transfers (<[wt_transfer_id t := row]> (db_transfers (w_db w))) (w_db w)) w w').
Proof using Hfine.
  intros Ht Hn Hcap Hpc Hk. unfold cas_transfer. rewrite bool_decide_true by done. cbn [negb].
  eapply (total_bind _ _ _ (fun w' _ => w' = w)); [by apply total_asks|]. intros w1 time ->.
  set (cas := mkCasTransfer _ _ _ _ _ _ _ _ _ _ _ _ _ _).
  assert (transfer_keys_ok (w_db w) (cas_transfer_row cas t) = true) as Hk'.
  { unfold transfer_keys_ok in *. cbn. by rewrite Hpc. }
  eapply (total_bind _ _ _ (fun w' o => o = Some (cas_transfer_row cas t) /\
    now_at (set_transfers (<[wt_transfer_id t := cas_transfer_row cas t]> (db_transfers (w_db w))) (w_db w)) w w')).
  - eapply total_db; [|by split; [reflexivity|apply now_at_tick]].
    unfold cas_write_scope_transfer_phase. cbn [ct_expected_phase ct_new_phase ct_transfer_id cas].
    replace (transfer_phase_ordinal (wt_phase t)) with (Some (phase_ordinal (wt_phase t))) by (by destruct (wt_phase t)).
    replace (transfer_phase_ordinal next) with (Some (phase_ordinal next)) by (by destruct next).
    cbn [mbind option_bind].
    replace (phase_ordinal next =? phase_ordinal (wt_phase t) + 1) with true by (by destruct (wt_phase t), next).
    cbn [negb]. unfold get_transfer. rewrite Ht. unfold cas_transfer_matches. cbn [ct_expected_phase ct_expected_version cas].
    rewrite bool_decide_true by done. rewrite Z.eqb_refl. cbn [andb negb]. unfold update_transfer.
    rewrite transfer_triggers_ok, Hk' by done. cbn [andb mbind option_bind]. unfold get_transfer. cbn [db_transfers set_transfers].
    by rewrite lookup_insert_eq.
  - intros w1 o [-> Hn1]. cbn [ok_or]. apply total_ok. done.
Qed.

(** ** The return barrier *)

Lemma total_release_permit o w :
  total (match o with
         | Some permit_id => time ← now; db (release_write_scope_permit permit_id time) ;; mret tt
         | None => mret tt
         end) w (fun w' _ => exists ps, now_at (set_permits ps (w_db w)) w w').
Proof using Hfine.
  destruct o as [i|]; [|apply total_ret; exists (db_permits (w_db w)); by destruct w as [[]]].
  eapply (total_bind _ _ _ (fun w' _ => w' = w)); [by apply total_asks|]. intros w1 time ->.
  eapply (total_bind _ _ _ (fun w' _ => exists ps, now_at (set_permits ps (w_db w)) w w')); [|intros; by apply total_ret].
  assert (exists ps o, release_write_scope_permit i time (w_db w) = Some (set_permits ps (w_db w), o)) as (ps & o & Ho).
  { unfold release_write_scope_permit. destruct (db_permits (w_db w) !! i) as [p|]; [case_bool_decide; eauto|].
    all: exists (db_permits (w_db w)), None; by destruct (w_db w). }
  eapply total_db; [exact Ho|]. by exists ps.
Qed.

Lemma no_descendants_count c d :
  (forall k u, delegation d k u -> wt_parent_lease_id u <> c) ->
  (0 <? zlen (filter (fun t => denied t = true)
    (select wt_created_at_wall_ms wt_transfer_id
      (fun r => (wt_parent_lease_id r =? c) && negb (bool_decide (wt_phase r = TfCommitted))) (db_transfers d)))) = false.
Proof using Type.
  intros Hno. set (l := filter _ _). assert (l = []) as ->; [|done].
  destruct l as [|u l'] eqn:E; [done|]. assert (u ∈ l) as Hu by (rewrite E; apply list_elem_of_here).
  subst l. apply list_elem_of_filter in Hu as [Hd Hu]. apply select_elem in Hu as [Hc [k Hk]].
  apply andb_true_iff in Hc as [Hp _]. apply Z.eqb_eq in Hp. by destruct (Hno k u).
Qed.

(** Up to the child's release. *)
Lemma total_release_child c l w :
  db_leases (w_db w) !! c = Some l -> wl_lease_id l = c -> can_transition_to (wl_state l) LsReleased = true ->
  total (child ← lease c; invalidate_all_tokens c ;; cas_lease child LsReleased (wl_generation child + 1) true ;; mret tt) w
    (fun w' _ => exists l', now_at (set_leases (<[c := l']> (db_leases (w_db w))) (w_db w)) w w').
Proof using Hfine.
  intros Hl Hid Hc. eapply total_bind; [by apply total_lease|]. intros w1 a [Hn1 ->].
  eapply (total_bind _ _ _ (fun w' _ => now_at (w_db w1) w1 w')).
  { apply total_modifies. split; [done|]. split; [done|]. apply length_invalidate. }
  intros w2 [] Hn2. assert (now_at (w_db w) w w2) as Hn.
  { eapply now_at_trans; [exact Hn1|]. by destruct Hn1 as [<- _]. }
  eapply total_bind; [apply total_cas_lease; [|done|lia]|].
  { destruct Hn as [-> _]. by rewrite Hid. }
  intros w3 o (row & -> & _ & _ & _ & Hn3). apply total_ret. exists row. rewrite Hid in Hn3.
  destruct Hn as (Hd & Hrest). rewrite Hd in Hn3. eapply now_at_trans; [split; [exact Hd|exact Hrest]|done].
Qed.

(** The fresh token: no older flag is its own. *)
Lemma total_issue row w :
  (forall i entry g core, w_tokens w !! i = Some entry -> (g, core) ∈ entry -> (core < length (w_cores w))%nat) ->
  total (issue_token row) w (fun w' tk => w_db w' = w_db w /\ token_is_valid w' tk = true /\
    ws_lease_id tk = wl_lease_id row /\ ws_generation tk = wl_generation row).
Proof using Type.
  intros Hb. eexists _, _. split; [reflexivity|]. cbn. split; [done|]. split; [|done].
  unfold token_is_valid. cbn [ws_core w_cores set_tokens].
  assert (forall l, (forall j, j ∈ l -> (j < length (w_cores w))%nat) ->
    invalidate l (w_cores w ++ [true]) !! length (w_cores w) = Some true) as Hkeep.
  { intros l. induction l as [|j l IH]; intros Hj; cbn; [by rewrite lookup_app_r, Nat.sub_diag|].
    rewrite list_lookup_insert_ne; [apply IH; intros k Hk; by apply Hj, list_elem_of_further|].
    specialize (Hj j (list_elem_of_here _ _)). lia. }
  rewrite Hkeep; [done|]. intros j (e & -> & [_ He]%list_elem_of_filter)%list_elem_of_fmap.
  destruct (w_tokens w !! wl_lease_id row) as [entry|] eqn:E; [|by apply not_elem_of_nil in He].
  destruct e as [g core]. by eapply Hb.
Qed.

Lemma total_restore_parent {A} i p w (k : Z -> WriteScopeLeaseRow -> WS A) (Q : World -> A -> Prop) :
  db_leases (w_db w) !! wl_lease_id p = Some p -> wl_state p = LsDelegated ->
  (forall w' g row, same_lease p row -> g = wl_generation row ->
     now_at (set_leases (<[wl_lease_id p := row]> (db_leases (w_db w))) (w_db w)) w w' -> total (k g row) w' Q) ->
  total (parent ← lease (wl_lease_id p);
        returning ← cas_lease parent LsReturning (wl_generation parent) false;
        returning ← of_result (ok_or returning WsInternal);
        siblings ← db (list_write_scope_transfers_for_parent (wl_lease_id p));
        restored ← cas_lease returning
          (if existsb (fun s => negb (wt_transfer_id s =? i) && denied s) siblings then LsDelegated else LsActive)
          (wl_generation returning + 1) false;
        restored ← of_result (ok_or restored WsInternal);
        k (wl_generation returning + 1) restored) w Q.
Proof using Hfine.
  intros Hp Hst Hk. eapply total_bind; [by apply total_lease|]. intros w1 r [Hn1 ->].
  eapply total_bind; [apply total_cas_lease; [by destruct Hn1 as [-> _]|by rewrite Hst|lia]|].
  intros w2 o (row & -> & Hsl & Hrs & _ & Hn2).
  eapply (total_bind _ _ _ (fun w' r => w' = w2 /\ r = row)); [by apply total_ok|]. intros w3 r [-> ->].
  eapply total_bind; [apply total_read|]. intros w3 sib [Hn3 _].
  assert (wl_lease_id row = wl_lease_id p) as Hid by apply Hsl.
  eapply total_bind; [apply total_cas_lease; [|by rewrite Hrs; case_match|lia]|].
  { destruct Hn3 as [-> _]. destruct Hn2 as [-> _]. cbn. rewrite Hid. apply lookup_insert_eq. }
  intros w4 o (row' & -> & Hsl' & _ & Hg' & Hn4).
  eapply (total_bind _ _ _ (fun w' r => w' = w4 /\ r = row')); [by apply total_ok|]. intros w5 r [-> ->].
  apply Hk; [|by rewrite Hg'|].
  - destruct Hsl as (?&?&?&?), Hsl' as (?&?&?&?). repeat split; congruence.
  - assert (now_at (w_db w4) w w4) as (_ & Htk & Hco).
    { eapply now_at_trans; [exact Hn1|]. eapply now_at_trans; [exact Hn2|]. eapply now_at_trans; [exact Hn3|].
      split; [done|]. apply Hn4. }
    split; [|done]. destruct Hn4 as [-> _], Hn3 as [-> _], Hn2 as [-> _], Hn1 as [-> _].
    rewrite Hid. unfold set_leases. cbn. by rewrite insert_insert_eq.
Qed.

Lemma total_close_return i t row g w :
  db_transfers (w_db w) !! i = Some t -> wt_transfer_id t = i -> wt_phase t = ChildTerminal ->
  wt_capability t = CapProven -> transfer_keys_ok (w_db w) t = true ->
  (forall j entry g core, w_tokens w !! j = Some entry -> (g, core) ∈ entry -> (core < length (w_cores w))%nat) ->
  total (t ← cas_transfer t ParentRestored (mkPatch None None None (Some g) None None None None None);
        emit (EvParentRestored i g) ;; cas_transfer t TfCommitted reconciled_patch ;;
        emit (EvTransferCommitted i) ;; issue_token row) w (fun w' tk => exists t',
    wt_phase t' = TfCommitted /\ w_db w' = set_transfers (<[i := t']> (db_transfers (w_db w))) (w_db w) /\
    token_is_valid w' tk = true /\ ws_lease_id tk = wl_lease_id row /\ ws_generation tk = wl_generation row).
Proof using Hfine.
  intros Ht Hid Hp Hcap Hk Hb.
  eapply total_bind; [apply total_cas_transfer; rewrite ?Hid, ?Hp; done|].
  intros w1 t1 ((Hsame & Hp1 & Hc1 & _) & Hcap1 & Hn1). rewrite Hid in Hn1.
  eapply (total_bind _ _ _ (fun w' _ => now_at (w_db w1) w1 w')); [by apply total_modifies|]. intros w2 [] Hn2.
  assert (wt_transfer_id t1 = i) as Hid1 by (rewrite <- Hid; apply Hsame).
  assert (w_db w2 = set_transfers (<[i := t1]> (db_transfers (w_db w))) (w_db w)) as Hd2.
  { destruct Hn2 as [-> _]. by destruct Hn1 as [-> _]. }
  eapply total_bind; [apply total_cas_transfer; rewrite ?Hid1, ?Hp1, ?Hd2; try done|].
  { cbn. apply lookup_insert_eq. }
  { unfold transfer_keys_ok in *. cbn in Hc1 |- *. destruct Hsame as (_ & -> & _ & ->). by rewrite Hc1. }
  intros w3 t2 ((_ & Hp2 & _) & _ & Hn3). rewrite Hid1, Hd2 in Hn3.
  eapply (total_bind _ _ _ (fun w' _ => now_at (w_db w3) w3 w')); [by apply total_modifies|]. intros w4 [] Hn4.
  eapply total_mono; [apply total_issue|].
  - assert (now_at (w_db w4) w w4) as (_ & -> & ->); [|done].
    eapply now_at_trans; [exact Hn1|]. eapply now_at_trans; [exact Hn2|]. eapply now_at_trans; [exact Hn3|].
    split; [done|]. apply Hn4.
  - intros w5 tk (Hd5 & Hv & Hl & Hg). exists t2. split; [done|]. split; [|done]. rewrite Hd5.
    destruct Hn4 as [-> _], Hn3 as [-> _]. unfold set_transfers. cbn. by rewrite insert_insert_eq.
Qed.

(** What the return needs of its transfer, child, parent, barrier and backend. *)
Record Returnable (w : World) (i : Z) (t : WriteScopeTransferRow) (p : WriteScopeLeaseRow) : Prop := {
  rt_transfer : db_transfers (w_db w) !! i = Some t;
  rt_phase : wt_phase t = ChildTerminal;
  rt_capability : wt_capability t = CapProven;
  rt_session : is_Some (db_sessions (w_db w) !! wt_session_id t);
  rt_child : exists c l, wt_child_lease_id t = Some c /\ db_leases (w_db w) !! c = Some l /\
    can_transition_to (wl_state l) LsReleased = true /\
    forall k u, delegation (w_db w) k u -> wt_parent_lease_id u <> c;
  rt_parent : db_leases (w_db w) !! wt_parent_lease_id t = Some p;
  rt_delegated : wl_state p = LsDelegated;
  rt_gone : exists containment generation, wt_containment_id t = Some containment /\
    wt_containment_generation t = Some generation /\
    forall n, cb_await_proven_empty n (mkTicket containment generation) = ProvenEmpty generation;
  rt_published : exists identity, wt_publication_identity t = Some identity /\
    forall n, exists x, bk_publish n (mkPublish (wt_sub_scope_path t) (Some identity)) = Published x }.

(** Descendants, the barrier's proof and the publication. *)
Lemma total_past_barrier {A} w i t c co cg id (k : WS A) (Q : World -> A -> Prop) :
  (forall k u, delegation (w_db w) k u -> wt_parent_lease_id u <> c) ->
  (forall n, cb_await_proven_empty n (mkTicket co cg) = ProvenEmpty cg) ->
  (forall n, exists x, bk_publish n (mkPublish (wt_sub_scope_path t) (Some id)) = Published x) ->
  (forall w', now_at (w_db w) w w' -> total k w' Q) ->
  total ((open ← db (list_open_write_scope_transfers_for_parent c);
          let live_descendants := zlen (filter (fun t => denied t = true) open) in
          if 0 <? live_descendants then throw (DescendantStillDelegated i live_descendants) else mret tt) ;;
         containment_id ← of_result (ok_or (Some co) WsInternal);
         expected ← of_result (ok_or (Some cg) WsInternal);
         answer ← await_proven_empty (mkTicket containment_id expected);
         match answer with
         | ProvenEmpty generation =>
             if negb (generation =? expected) then throw (ContainmentGenerationMismatch expected generation) else mret tt
         | EmptyUncertain _ reason | EmptyUnsupported reason => throw (ContainmentNotProvenEmpty i reason)
         end ;;
         identity ← of_result (ok_or (Some id) (ScopedWritesUnsupported IdentityUnrecorded));
         n ← tick;
         match bk_publish n (mkPublish (wt_sub_scope_path t) (Some identity)) with
         | Published _ => mret tt
         | PublishConflict reason => throw (PublicationConflict reason)
         | PublishUnsupported reason => throw (ScopedWritesUnsupported (Because reason))
         end ;; k) w Q.
Proof using Hfine.
  intros Hdesc Hgone Hpub Hk. eapply (total_bind _ _ _ (fun w' _ => now_at (w_db w) w w')).
  { eapply total_bind; [apply total_read|]. intros w1 open [Hn ->]. cbv zeta.
    rewrite (no_descendants_count c (w_db w)) by done. by apply total_ret. }
  intros w1 [] Hn1. eapply (total_bind _ _ _ (fun w' x => w' = w1 /\ x = co)); [by apply total_ok|]. intros w2 x [-> ->].
  eapply (total_bind _ _ _ (fun w' x => w' = w1 /\ x = cg)); [by apply total_ok|]. intros w2 x [-> ->].
  eapply (total_bind _ _ _ (fun w' x => now_at (w_db w) w w' /\ x = ProvenEmpty cg)).
  { eapply (total_bind _ _ _ (fun w' _ => now_at (w_db w) w w')); [by apply total_tick|]. intros w2 n Hn2.
    eapply (total_bind _ _ _ (fun w' _ => now_at (w_db w) w w')); [by apply total_modifies|].
    intros w3 [] Hn3. apply total_ret. split; [done|]. apply Hgone. }
  intros w2 x [Hn2 ->]. rewrite Z.eqb_refl. cbn [negb].
  eapply (total_bind _ _ _ (fun w' x => w' = w2)); [by apply total_ret|]. intros w3 [] ->.
  eapply (total_bind _ _ _ (fun w' x => w' = w2 /\ x = id)); [by apply total_ok|]. intros w3 x [-> ->].
  eapply (total_bind _ _ _ (fun w' _ => now_at (w_db w) w w')); [by apply total_tick|]. intros w3 n Hn3.
  destruct (Hpub n) as [x ->]. eapply (total_bind _ _ _ (fun w' x => w' = w3)); [by apply total_ret|]. intros w4 [] ->.
  by apply Hk.
Qed.

Lemma total_complete_return w i t p :
  Inv w -> Returnable w i t p ->
  total (complete_return_locked i) w (fun w' tk => exists t' c l' row ps,
    wt_phase t' = TfCommitted /\ same_lease p row /\ wt_child_lease_id t = Some c /\
    w_db w' = mkDb (<[wl_lease_id p := row]> (<[c := l']> (db_leases (w_db w)))) (<[i := t']> (db_transfers (w_db w)))
      ps (db_sessions (w_db w)) /\
    token_is_valid w' tk = true /\ ws_lease_id tk = wl_lease_id p /\ ws_generation tk = wl_generation row).
Proof using Hfine.
  intros [HI HT] [Ht Hp Hcap [s Hs] (c & l & Hc & Hl & Hcan & Hdesc) Hpar Hst (co & cg & Hco & Hcg & Hgone) (id & Hident & Hpub)].
  assert (wt_transfer_id t = i) as Hid by (by apply (di_transfer_key _ HI)).
  assert (wl_lease_id l = c) as Hlid by (by apply (di_lease_key _ HI)).
  assert (wl_lease_id p = wt_parent_lease_id t) as Hpid by (by apply (di_lease_key _ HI)).
  assert (c <> wl_lease_id p) as Hne.
  { rewrite Hpid. intros ->. destruct (di_child _ HI _ _ _ Ht Hc) as (l' & Hl' & _ & Hsc).
    destruct (di_strict _ HI _ _ l' Ht) as [_ []]; [unfold denied; by rewrite Hp|done|done]. }
  unfold complete_return_locked. eapply total_bind; [by apply total_transfer|]. intros w1 a [Hn1 ->].
  rewrite bool_decide_true by done. cbn [negb]. rewrite Hc, Hco, Hcg, Hident.
  apply (total_past_barrier _ i t c co cg id); rewrite ?(proj1 Hn1); try done.
  intros w4 Hn4. assert (now_at (w_db w) w w4) as Hn by (by eapply now_at_trans).
  eapply total_bind; [apply total_release_permit|]. intros w5 [] [ps Hn5]. destruct Hn as (Hd4 & Htk4 & Hco4).
  rewrite Hd4 in Hn5.
  eapply total_bind; [apply (total_release_child c l); by rewrite ?(proj1 Hn5)|]. intros w6 [] [l' Hn6].
  destruct Hn5 as (Hd5 & Htk5 & Hco5), Hn6 as (Hd6 & Htk6 & Hco6). rewrite Hd5 in Hd6. rewrite <- Hpid.
  eapply (total_restore_parent i p _ (fun g restored =>
    t ← cas_transfer t ParentRestored (mkPatch None None None (Some g) None None None None None);
    emit (EvParentRestored i g) ;; cas_transfer t TfCommitted reconciled_patch ;;
    emit (EvTransferCommitted i) ;; issue_token restored)); [|done|].
  { rewrite Hd6. cbn. rewrite lookup_insert_ne by done. by rewrite Hpid. }
  intros w7 g row Hsl -> (Hd7 & Htk7 & Hco7). rewrite Hd6 in Hd7.
  eapply total_mono; [apply (total_close_return i t row); try done; rewrite ?Hd7; try done|].
  - unfold transfer_keys_ok. cbn. rewrite Hs, bool_decide_true by done. rewrite <- Hpid, Hc, lookup_insert_eq.
    rewrite bool_decide_true by done. rewrite lookup_insert_ne, lookup_insert_eq by done. by rewrite bool_decide_true.
  - intros j entry g core. rewrite Htk7, Htk6, Htk5, Htk4, Hco7, Hco6, Hco5, Hco4. intros He Hin.
    by destruct (HT j entry g core He Hin).
  - intros w8 tk (t' & Hp' & Hd8 & Hv & Hlid' & Hg). exists t', c, l', row, ps. split; [done|]. split; [done|]. split; [done|].
    split; [by rewrite Hd8, Hd7|]. split; [done|]. split; [|done]. rewrite Hlid'. apply Hsl.
Qed.
End live.
