(* ===== verification/WriteScopeProps.v ===== *)
(** What write-scope authority guarantees, over every host, backend and barrier, every
    failure and every process death: one writer per path, no revived tokens, permits that
    do not conflict, a drained barrier, restoration only after proof, refusal without a
    proven backend; that an undisturbed return completes; and where the coordinator does
    not do what it means to, as closed runs. *)

From S2P Require Import Prelude.
From S2P Require Import WriteScopeDb.
From S2P Require Import WriteScope.
From S2P Require Import WriteScopeInv.
From S2P Require Import WriteScopeRefine.
From S2P Require Import WriteScopeReturn.
From S2P Require Import WriteScopeTree.
From S2P Require Import WriteScopeSystem.
From S2P Require Import WriteScopeSafety.
From S2P Require Import WriteScopeLive.
From stdpp Require Import options.
Set Warnings "-clear-no-such-hyp".

(** ** A concrete system

    One session; identifiers and times are the tick; a mediated backend that proves every
    scope; a barrier that reports every containment empty. *)
Module Demo.
Definition path (l : list Z) : Path := (fun z => [z]) <$> l.
Definition host (faults : nat -> Fault) (resolve : nat -> Path -> option Path) : Host := {|
  host_fault := faults; host_clock := fun n => 1000 + Z.of_nat n; host_uuid := Z.of_nat;
  host_effective_path := resolve |}.
Definition quiet_host : Host := host (fun _ => Fine) (fun _ => Some).
Definition cow : ScopedWriteBackend := {|
  bk_kind := "mediated_cow"; capability_for := fun _ _ _ => CapabilityProven attestation_complete;
  target_identity := fun _ _ => Some 7; bk_publish := fun _ _ => Published 8 |}.
Definition barrier : ContainmentBarrier := {|
  cb_create := fun n _ _ _ => inr (mkTicket (Z.of_nat n) 1);
  cb_prove_membership_and_release_user_code := fun _ _ => inr tt;
  cb_await_proven_empty := fun _ t => ProvenEmpty (tk_generation t);
  cb_terminate := fun _ _ => inr tt; cb_nonempty := fun _ _ => [] |}.

Definition w0 : World := mkWorld (mkDb ∅ ∅ ∅ {[1 := SlActive]}) ∅ [] false [] [] 0.
Definition request (parent : Z) (sub : list Z) : TransferRequest :=
  mkRequest parent 1 (path sub) [] None EmNative (LaunchNative [] [] []) None.
#[export] Existing Instances quiet_host cow barrier.

Lemma w0_initial : initial w0.
Proof. done. Qed.
Lemma w0_reachable : reachable w0.
Proof. exists w0. split; [apply w0_initial|done]. Qed.

(** One more call. *)
Definition call (op : Op) (w : World) : World := (run_op op w).1.
Lemma call_step op w : op_allowed w op -> (run_op op w).2 <> Panic -> sys_step w (call op w).
Proof.
  intros Ha Hp. apply sys_proc. apply (ps_call w quiet_host cow barrier op _ (run_op op w).2 Ha); [|done].
  unfold call. by destruct (run_op op w).
Qed.
Lemma call_reachable op w : reachable w -> op_allowed w op -> (run_op op w).2 <> Panic -> reachable (call op w).
Proof. intros (v & Hv & Hs) Ha Hp. exists v. split; [done|]. eapply rtc_r; [done|]. by apply call_step. Qed.

(** Solve a closed goal about issued tokens, tables or reachability. *)
Ltac closed := vm_compute; first [reflexivity | discriminate | exact I].
Ltac issued_token := do 2 eexists; split; [vm_compute; reflexivity|]; split;
  [apply list_elem_of_In; vm_compute; tauto|]; split; [vm_compute; reflexivity|]; split; vm_compute; reflexivity.

(** The root lease 0 of scope [1]; lease 16 is delegated [1;2] by transfer 6. *)
Definition w1 : World := call (OpOpenRoot 1 [] (path [1])) w0.
Definition w2 : World := call (OpBeginTransfer (request 0 [1; 2])) w1.
Definition parent_token : WriteScopeToken := mkToken 0 1 2 (path [1]) 1.
Definition child_token : WriteScopeToken := mkToken 16 1 3 (path [1; 2]) 2.
Lemma w1_reachable : reachable w1.
Proof. apply call_reachable; [apply w0_reachable|exact I|closed]. Qed.
Lemma w2_reachable : reachable w2.
Proof. apply call_reachable; [apply w1_reachable|exact I|closed]. Qed.
Lemma parent_token_issued : issued w2 parent_token.
Proof. issued_token. Qed.
Lemma child_token_issued : issued w2 child_token.
Proof. issued_token. Qed.
Lemma w2_tree : same_tree (w_db w2) 0 16.
Proof.
  exists 0. split; [done|]. eapply rtc_l; [|done]. eexists. split; [vm_compute; reflexivity|]. reflexivity.
Qed.
(** A token whose checks evaluate. *)
Ltac writes := split; [vm_compute; reflexivity|]; eexists; split; [vm_compute; reflexivity|]; split; vm_compute; reflexivity.
Lemma parent_writes : may_write w2 parent_token (path [1; 3]).
Proof. writes. Qed.

(** A mutation by the child, and one by the parent beside the sub-scope. *)
Definition w3 : World := call (OpAcquire child_token (path [1; 2; 5]) WriteContent) w2.
Definition w4 : World := call (OpAcquire parent_token (path [1; 3]) WriteContent) w3.
Lemma w3_step : proc_step w2 w3.
Proof.
  apply (ps_call w2 quiet_host cow barrier (OpAcquire child_token (path [1; 2; 5]) WriteContent) _ (Ok tt)).
  - apply child_token_issued.
  - vm_compute. reflexivity.
  - discriminate.
Qed.
Lemma parent_token_issued3 : issued w3 parent_token.
Proof. issued_token. Qed.
Lemma w4_reachable : reachable w4.
Proof.
  apply call_reachable; [|apply parent_token_issued3|closed].
  apply call_reachable; [apply w2_reachable|apply child_token_issued|closed].
Qed.

(** The child returns. *)
Definition w5 : World := call (OpChildTerminal 6) w4.
Definition w6 : World := call (OpCompleteReturn 6) w5.
Lemma w5_reachable : reachable w5.
Proof. apply call_reachable; [apply w4_reachable|exact I|closed]. Qed.
Lemma w6_reachable : reachable w6.
Proof. apply call_reachable; [apply w5_reachable|exact I|closed]. Qed.

(** Beside the delegation and a write at [1;3], a second transfer, of [1;3], fails; then
    the child's return is interrupted. *)
Definition v5 : World := call (OpBeginTransfer (request 0 [1; 3])) w4.
Definition v6 : World := call (OpChildTerminal 6) v5.
Definition v7 : World := call (OpCompleteReturn 6) v6.
Lemma v7_reachable : reachable v7.
Proof. do 3 (apply call_reachable; [|exact I|closed]). apply w4_reachable. Qed.
Lemma v7_interrupted : interrupted 6 v7.
Proof. do 3 eexists. repeat (split; [vm_compute; reflexivity|]). vm_compute; reflexivity. Qed.
End Demo.

(** ** Exclusive authority *)

Lemma may_write_allows w tk p : Inv w -> issued w tk -> may_write w tk p -> lease_allows (w_db w) (ws_lease_id tk) p.
Proof.
  intros [_ HT] (entry & r & He & Hin & Hr & _) (_ & r' & Hr' & Hg & Ha). assert (r' = r) as -> by congruence.
  exists r. split; [done|]. split; [|done]. by eapply live_token_not_released.
Qed.

(** C2: at any moment at most one lease of a tree may write to a path: of two issued
    tokens of different leases under a common ancestor, if one may write to a path the
    other may not. *)
Theorem one_writer_per_path w tk tk' p :
  reachable w -> issued w tk -> issued w tk' -> same_tree (w_db w) (ws_lease_id tk) (ws_lease_id tk') ->
  ws_lease_id tk <> ws_lease_id tk' -> may_write w tk p -> ~ may_write w tk' p.
Proof.
  intros Hr Hi Hi' Ht Hne Hw Hw'. apply reachable_inv in Hr as HI. apply Hne.
  apply (tree_exclusive (w_db w) (proj1 HI) _ _ p Ht); by apply may_write_allows.
Qed.
Lemma one_writer_per_path_witness : ~ may_write Demo.w2 Demo.child_token (Demo.path [1; 3]).
Proof.
  apply (one_writer_per_path Demo.w2 Demo.parent_token Demo.child_token (Demo.path [1; 3])
    Demo.w2_reachable Demo.parent_token_issued Demo.child_token_issued Demo.w2_tree).
  - discriminate.
  - apply Demo.parent_writes.
Defined.

(** a permit is only granted or revalidated for a target the token may write to. *)
Theorem permits_require_authority (h : Host) (b : ScopedWriteBackend) (c : ContainmentBarrier) w tk target kind mp mp' w' :
  issued w tk ->
  (acquire_mutation_permit tk target kind w = (w', Ok mp) -> may_write w tk (mp_effective_target mp)) /\
  (revalidate_mutation_permit tk mp' w = (w', Ok tt) -> may_write w tk (mp_effective_target mp')).
Proof.
  intros Hi. split; intros Hrun.
  - destruct (safe_acquire (restorable := fun _ => True) tk target kind w Hi) as [_ Hq]. rewrite Hrun in Hq.
    destruct Hq as (l & Hl & Hg & Hv & Ha). split; [done|]. by exists l.
  - destruct (safe_revalidate (restorable := fun _ => True) tk mp' w) as [_ Hq]. rewrite Hrun in Hq.
    destruct Hq as (l & Hl & Hg & Hv & Ha). split; [done|]. by exists l.
Qed.
Lemma permits_require_authority_witness : may_write Demo.w2 Demo.child_token (Demo.path [1; 2; 5]).
Proof.
  refine (proj1 (permits_require_authority Demo.quiet_host Demo.cow Demo.barrier Demo.w2 Demo.child_token
    (Demo.path [1; 2; 5]) WriteContent (mkMutationPermit 22 (Demo.path [1; 2; 5]) (Demo.path [1; 2; 5])
      (for_mutation (Demo.path [1; 2; 5]) WriteContent)) (mkMutationPermit 0 [] [] (for_mutation [] WriteContent)) Demo.w3
    Demo.child_token_issued) _).
  vm_compute. reflexivity.
Defined.

(** a token that has stopped being valid never becomes valid again while the process
    lives, whatever calls are made. *)
Theorem stale_token_stays_stale w w' tk :
  reachable w -> issued w tk -> ~ live_token w tk -> rtc proc_step w w' -> ~ live_token w' tk.
Proof.
  intros Hr Hi Hn Hs. apply reachable_inv in Hr as HI. apply stale_not_live.
  eapply proc_steps_stale; [done|done|]. by apply not_live_stale.
Qed.
Lemma stale_token_stays_stale_witness : ~ live_token Demo.w3 (mkToken 0 1 1 (Demo.path [1]) 0).
Proof.
  apply (stale_token_stays_stale Demo.w2 Demo.w3 (mkToken 0 1 1 (Demo.path [1]) 0)).
  - apply Demo.w2_reachable.
  - Demo.issued_token.
  - intros [Hv _]. vm_compute in Hv. discriminate Hv.
  - apply rtc_once, Demo.w3_step.
Defined.

(** ** Permits and the transfer barrier *)

(** two mutation permits held in one session never conflict: neither can change what
    the other's path means, and they are not for the same path. *)
Theorem held_permits_conflict_free w i j p q :
  reachable w -> db_permits (w_db w) !! i = Some p -> db_permits (w_db w) !! j = Some q -> i <> j ->
  mutation_held p -> mutation_held q -> wp_session_id p = wp_session_id q ->
  conflicts_with (permit_footprint p) (permit_footprint q) = false.
Proof.
  intros Hr. destruct (reachable_invariant PermInv w PermInv_step initial_PermInv Hr) as [_ HP]. apply HP.
Qed.
Lemma held_permits_conflict_free_witness : exists p q,
  db_permits (w_db Demo.w4) !! 22 = Some p /\ db_permits (w_db Demo.w4) !! 29 = Some q /\
  conflicts_with (permit_footprint p) (permit_footprint q) = false.
Proof.
  eexists. eexists. split; [vm_compute; reflexivity|]. split; [vm_compute; reflexivity|].
  apply (held_permits_conflict_free Demo.w4 22 29); [apply Demo.w4_reachable|vm_compute; reflexivity..|discriminate| | |reflexivity];
    split; reflexivity.
Defined.

(** C7: while a sub-scope is held back from its parent, every mutation permit of its
    session and tree that is held inside it belongs to the delegate or to a lease below
    the delegate; before there is a delegate there is none. *)
Theorem delegated_subscope_is_the_delegates w k t i p :
  reachable w -> db_transfers (w_db w) !! k = Some t -> parent_denied_in_subscope (wt_phase t) = true ->
  db_permits (w_db w) !! i = Some p -> mutation_held p -> wp_session_id p = wt_session_id t ->
  path_contains (wt_sub_scope_path t) (wp_target_path p) = true ->
  same_tree (w_db w) (wp_lease_id p) (wt_parent_lease_id t) ->
  exists c, wt_child_lease_id t = Some c /\ rtc (child_of (w_db w)) (wp_lease_id p) c.
Proof.
  intros Hr Ht Hd Hp [Hst Hk] Hs Hc Htree.
  destruct (reachable_invariant BarrierInv w BarrierInv_step initial_BarrierInv Hr) as [_ [_ Hin]].
  apply (Hin k t p); [done| |done|done]. split; [eauto|done].
Qed.
Lemma delegated_subscope_is_the_delegates_witness : exists t p c,
  db_transfers (w_db Demo.w4) !! 6 = Some t /\ db_permits (w_db Demo.w4) !! 22 = Some p /\
  wt_child_lease_id t = Some c /\ rtc (child_of (w_db Demo.w4)) (wp_lease_id p) c.
Proof.
  eexists. eexists. exists 16. split; [vm_compute; reflexivity|]. split; [vm_compute; reflexivity|].
  match goal with |- wt_child_lease_id ?t = _ /\ rtc _ (wp_lease_id ?p) _ =>
    destruct (delegated_subscope_is_the_delegates Demo.w4 6 t 22 p Demo.w4_reachable) as (c & Hc & H) end;
    [vm_compute; reflexivity|reflexivity|vm_compute; reflexivity|split; reflexivity|reflexivity|reflexivity| |].
  - exists 0. split; [|done]. eapply rtc_l; [|done]. eexists. split; [vm_compute; reflexivity|]. reflexivity.
  - split; [reflexivity|]. injection Hc as <-. exact H.
Defined.

(** a transfer with a child only gets past the return (its parent restored, or
    committed) after the barrier answered, for the recorded containment at its recorded
    generation, that it is empty, and with the child's lease released. *)
Theorem restored_only_after_proof w k t c :
  reachable w -> db_transfers (w_db w) !! k = Some t -> wt_phase t = ParentRestored \/ wt_phase t = TfCommitted ->
  wt_child_lease_id t = Some c ->
  (exists containment generation, wt_containment_id t = Some containment /\
     wt_containment_generation t = Some generation /\
     CallAwait (mkTicket containment generation) (ProvenEmpty generation) ∈ w_calls w) /\
  exists l, db_leases (w_db w) !! c = Some l /\ wl_state l = LsReleased.
Proof.
  intros Hr Ht Hp. destruct (reachable_invariant ReturnInv w ReturnInv_step initial_ReturnInv Hr) as [_ HR].
  by apply (HR k t Ht Hp).
Qed.
Lemma restored_only_after_proof_witness : exists l, db_leases (w_db Demo.w6) !! 16 = Some l /\ wl_state l = LsReleased.
Proof.
  assert (exists t, db_transfers (w_db Demo.w6) !! 6 = Some t /\ wt_phase t = TfCommitted /\ wt_child_lease_id t = Some 16)
    as (t & Ht & Hp & Hc) by (eexists; split; [vm_compute; reflexivity|split; reflexivity]).
  exact (proj2 (restored_only_after_proof Demo.w6 6 t 16 Demo.w6_reachable Ht (or_intror Hp) Hc)).
Defined.

(** ** The abstract specification *)

(** C3: every call of the coordinator, whatever its host, backend and barrier answer and
    wherever it fails or dies, and every restart, is a sequence of authority steps: each
    lease, transfer, permit and token changes only under the condition stated for it. *)
Theorem coordinator_refines_authority w w' :
  reachable w -> sys_step w w' -> rtc (env_step (fun _ => True)) w w'.
Proof. intros Hr Hs. apply sys_step_refines; [by apply reachable_inv|apply always_ok_all|done]. Qed.
Lemma coordinator_refines_authority_witness : rtc (env_step (fun _ => True)) Demo.w1 Demo.w2.
Proof.
  apply (coordinator_refines_authority Demo.w1 Demo.w2 Demo.w1_reachable).
  apply Demo.call_step; [exact I|Demo.closed].
Defined.

(** ** Interrupted returns *)

(** C36: once a return has released the child's lease without restoring the parent, no
    sequence of calls, deaths, restarts and recoveries ever completes it: the transfer
    stays child-terminal and the parent stays denied the whole sub-scope. *)
Theorem interrupted_return_never_completes w w' i :
  reachable w -> interrupted i w -> rtc sys_step w w' ->
  exists t, db_transfers (w_db w') !! i = Some t /\ wt_phase t = ChildTerminal /\
    forall p r, path_contains (wt_sub_scope_path t) p = true ->
      allows_path (authority_of (w_db w') (wt_parent_lease_id t) r) p = false.
Proof.
  intros Hr Hi Hs. destruct (sys_steps_interrupted i w w') as (t & c & l & Ht & Hp & _); [by apply reachable_inv|done|done|].
  exists t. split; [done|]. split; [done|]. intros p r Hc. apply not_true_is_false. intros [_ Hno]%allows_spec.
  rewrite (Hno i t) in Hc; [done| |done]. split; [done|]. unfold denied. by rewrite Hp.
Qed.
(** The run of [Demo.v7]: a transfer beside a delegation fails for a held permit, and the
    delegate's return, without any fault, releases the child and stops. *)
Lemma interrupted_return_never_completes_witness : exists t,
  db_transfers (w_db (Demo.call (OpRecover None) Demo.v7)) !! 6 = Some t /\ wt_phase t = ChildTerminal.
Proof.
  destruct (interrupted_return_never_completes Demo.v7 (Demo.call (OpRecover None) Demo.v7) 6
    Demo.v7_reachable Demo.v7_interrupted) as (t & Ht & Hp & _).
  - apply rtc_once, Demo.call_step; [exact I|Demo.closed].
  - exists t. split; assumption.
Defined.

(** ** Refusals *)

Definition untouched (w w' : World) : Prop :=
  w_db w' = w_db w /\ w_tokens w' = w_tokens w /\ w_cores w' = w_cores w /\ w_shutting_down w' = w_shutting_down w /\
  w_events w' = w_events w /\ w_calls w' = w_calls w.
#[local] Instance untouched_preorder : PreOrder untouched.
Proof. split; [done|]. intros a b c (?&?&?&?&?&?) (?&?&?&?&?&?). repeat split; congruence. Qed.

Section refusals.
Context `{Host} `{ScopedWriteBackend} `{ContainmentBarrier}.

(** A computation that changes nothing, and one that changes nothing and fails. *)
Definition still {A} (m : WS A) : Prop := forall w, untouched w (m w).1.
Definition refuses {A} (m : WS A) : Prop := forall w, untouched w (m w).1 /\ forall a, (m w).2 <> Ok a.

Lemma still_bind {A B} (m : WS A) (f : A -> WS B) : still m -> (forall a, still (f a)) -> still (m ≫= f).
Proof using Type.
  intros Hm Hf w. specialize (Hm w). unfold mbind, WS_bind. destruct (m w) as [w1 [a|e|]]; [|done..].
  etrans; [exact Hm|apply Hf].
Qed.
Lemma refuses_bind {A B} (m : WS A) (f : A -> WS B) : still m -> (forall a, refuses (f a)) -> refuses (m ≫= f).
Proof using Type.
  intros Hm Hf w. specialize (Hm w). unfold mbind, WS_bind. destruct (m w) as [w1 [a|e|]]; [|by split..].
  destruct (Hf a w1) as [Hs Hn]. split; [by etrans|done].
Qed.
Lemma refuses_throw {A} e : refuses (A := A) (throw e).
Proof using Type. intros w. by split. Qed.
Lemma still_ret {A} (a : A) : still (mret a).
Proof using Type. done. Qed.
Lemma still_of_result {A} (r : result WriteScopeError A) : still (of_result r).
Proof using Type. done. Qed.
Lemma still_asks {A} (f : World -> A) : still (asks f).
Proof using Type. done. Qed.
Lemma still_tick : still tick.
Proof using Type. done. Qed.
Lemma still_read {A} (f : Db -> A) : still (db (fun d => Some (d, f d))).
Proof using Type.
  apply still_bind; [apply still_tick|]. intros n w. destruct (host_fault n); [|done..]. by destruct w.
Qed.
Lemma still_lease i : still (lease i).
Proof using Type. apply still_bind; [apply still_read|]. intros. apply still_of_result. Qed.
Lemma still_effective_authority i : still (effective_authority i).
Proof using Type.
  apply still_bind; [apply still_lease|]. intros l. apply still_bind; [apply still_read|]. intros. apply still_ret.
Qed.

(** with a backend that does not prove the scope, a transfer is refused before
    anything is written, issued, emitted or asked of the containment barrier. *)
Theorem unproven_backend_refuses rq :
  (forall n, is_proven (capability_for n (rq_sub_scope rq) (rq_mode rq)) = false) ->
  forall w, untouched w (begin_transfer rq w).1 /\ forall handle, (begin_transfer rq w).2 <> Ok handle.
Proof using Type.
  intros Hn. change (refuses (begin_transfer rq)).
  apply refuses_bind; [apply still_asks|]. intros []; [apply refuses_throw|].
  apply refuses_bind; [apply (still_read (fun d => bool_decide (db_sessions d !! rq_session_id rq = Some SlDeleting)))|].
  intros []; [apply refuses_throw|].
  apply refuses_bind; [apply still_lease|]. intros p. destruct (negb _); [apply refuses_throw|].
  apply refuses_bind; [apply still_effective_authority|]. intros a.
  apply refuses_bind; [apply still_of_result|]. intros [].
  apply refuses_bind; [apply still_tick|]. intros n. cbv zeta. rewrite Hn. apply refuses_throw.
Qed.
End refusals.
(** The shipped backend. *)
Definition direct_begin (w : World) : World * result WriteScopeError DelegationHandle :=
  begin_transfer (H := Demo.quiet_host) (H0 := DirectWorkspaceBackend) (H1 := Demo.barrier) (Demo.request 0 [1; 2]) w.
Lemma unproven_backend_refuses_witness :
  untouched Demo.w1 (direct_begin Demo.w1).1 /\ forall handle, (direct_begin Demo.w1).2 <> Ok handle.
Proof.
  apply (unproven_backend_refuses (H := Demo.quiet_host) (H0 := DirectWorkspaceBackend) (H1 := Demo.barrier)
    (Demo.request 0 [1; 2])).
  reflexivity.
Defined.

(** Closing intake is final: shutdown within the process, deletion for good. *)
Definition closed_to (s : Z) (w : World) : Prop := db_sessions (w_db w) !! s = Some SlDeleting.
Lemma astep_down w w' : astep (restorable := fun _ => True) w w' -> w_shutting_down w = true -> w_shutting_down w' = true.
Proof. by destruct 1. Qed.
Lemma env_step_closed s w w' : env_step (fun _ => True) w w' -> closed_to s w -> closed_to s w'.
Proof.
  unfold closed_to. intros [w1 Hs|s' Hs|]; [|cbn; intros; rewrite lookup_insert_ne; [done|congruence]|done].
  destruct Hs; try done. cbn. intros Hc. rewrite lookup_insert_ne; [done|congruence].
Qed.
Lemma proc_steps_down w w' : Inv w -> rtc proc_step w w' -> w_shutting_down w = true -> w_shutting_down w' = true.
Proof.
  intros HI Hs. induction Hs as [|w w1 w2 H1 _ IH]; [done|]. intros Hd. apply IH.
  - apply (env_steps_inv (restorable := fun _ => True) w); [|done].
    apply sys_step_refines; [done|apply always_ok_all|by constructor].
  - destruct H1 as [h b c op w1 r Ha Hr _|s Hs]; [|done].
    assert (rtc (astep (restorable := fun _ => True)) w w1) as Hst.
    { replace w1 with (run_op op w).1 by (by rewrite Hr). apply run_op_safe; [done|apply always_ok_all|done]. }
    clear -Hst Hd. induction Hst; eauto using astep_down.
Qed.

(** after [begin_shutdown] every transfer of this process is refused at once, and
    after [begin_session_deletion] every transfer of that session is refused for good,
    restarts included, with the tables unchanged. *)
Theorem closed_intake_refuses w rq :
  reachable w ->
  (w_shutting_down w = true -> forall w' (h : Host) (b : ScopedWriteBackend) (c : ContainmentBarrier),
     rtc proc_step w w' -> begin_transfer rq w' = (w', Err WsShutdownIntakeClosed)) /\
  (closed_to (rq_session_id rq) w -> forall w' (h : Host) (b : ScopedWriteBackend) (c : ContainmentBarrier),
     rtc sys_step w w' -> w_db (begin_transfer rq w').1 = w_db w' /\ forall handle, (begin_transfer rq w').2 <> Ok handle).
Proof.
  intros Hr. apply reachable_inv in Hr as HI. split.
  - intros Hd w' h b c Hs. unfold begin_transfer, mbind, WS_bind. cbn.
    by rewrite (proc_steps_down w w' HI Hs Hd).
  - intros Hc w' h b c Hs.
    assert (closed_to (rq_session_id rq) w') as Hc'.
    { eapply (sys_invariant (closed_to (rq_session_id rq)) w w'); [|done..]. intros; by eapply env_step_closed. }
    change (wp (begin_transfer rq) (fun w'' r => w_db w'' = w_db w' /\ forall handle, r <> Ok handle) w').
    apply wp_bind, wp_asks. destruct (w_shutting_down w'); [by apply wp_throw|].
    apply wp_bind, wp_db; [done..|]. intros d a [= <- <-]. rewrite bool_decide_true by done. by apply wp_throw.
Qed.
Lemma closed_intake_refuses_witness :
  begin_transfer (H := Demo.quiet_host) (H0 := Demo.cow) (H1 := Demo.barrier) (Demo.request 0 [1; 2])
    (Demo.call OpBeginShutdown Demo.w1) =
    (Demo.call OpBeginShutdown Demo.w1, Err WsShutdownIntakeClosed).
Proof.
  apply (proj1 (closed_intake_refuses (Demo.call OpBeginShutdown Demo.w1) (Demo.request 0 [1; 2])
    (Demo.call_reachable OpBeginShutdown Demo.w1 Demo.w1_reachable I ltac:(Demo.closed))) eq_refl).
  apply rtc_refl.
Defined.

(** ** Progress *)

(** After the return nothing of the sub-scope is held back from the parent. *)
Lemma returned_authority d d' i t t' p row r q :
  DbInv d -> db_transfers d !! i = Some t -> denied t = true -> db_leases d !! wt_parent_lease_id t = Some p ->
  db_transfers d' = <[i := t']> (db_transfers d) -> wt_phase t' = TfCommitted -> same_lease p row ->
  r = row -> path_contains (wt_sub_scope_path t) q = true ->
  allows_path (authority_of d' (wt_parent_lease_id t) r) q = true.
Proof.
  intros HI Ht Hd Hp Htr Hph (_ & _ & _ & Hsc) -> Hq. apply allows_spec. split.
  - rewrite Hsc. eapply path_contains_trans; [|exact Hq]. by apply (di_strict _ HI i t p).
  - intros j u [Hu Hdu] Hpar. rewrite Htr in Hu. apply lookup_insert_Some in Hu as [[<- <-]|[Hne Hu]].
    + unfold denied in Hdu. by rewrite Hph in Hdu.
    + apply not_true_is_false. intros Hc. apply (disjoint_no_path (wt_sub_scope_path t) (wt_sub_scope_path u) q); try done.
      by apply (di_disjoint _ HI i j).
Qed.

(** *** What a completed return needed *)

Section needs.
Context `{Host} `{ScopedWriteBackend} `{ContainmentBarrier}.
Lemma zlen_le_0 {A} (l : list A) : zlen l <= 0 -> l = [].
Proof using Type. destruct l as [|x l]; [done|]. rewrite zlen_cons. pose proof (zlen_nonneg l). lia. Qed.
Lemma ws_bind_inv {A B} (m : WS A) (f : A -> WS B) w w' b :
  (m ≫= f) w = (w', Ok b) -> exists w1 a, m w = (w1, Ok a) /\ f a w1 = (w', Ok b).
Proof using Type. unfold mbind, WS_bind. destruct (m w) as [w1 [a|e|]]; [|done..]. by exists w1, a. Qed.
Lemma ws_db_inv {A} (op : DbOp A) w w1 a : db op w = (w1, Ok a) -> exists d, op (w_db w) = Some (d, a) /\ w_db w1 = d.
Proof using Type.
  intros (w2 & n & Hn & Hop)%ws_bind_inv. assert (w_db w2 = w_db w) as Hd by (by injection Hn as <- _).
  destruct (host_fault n); [|done..]. rewrite Hd in Hop. destruct (op (w_db w)) as [[d x]|]; [|done]. injection Hop as <- <-. by exists d.
Qed.
Lemma ws_result_inv {A} (r : result WriteScopeError A) w w1 a : of_result r w = (w1, Ok a) -> w1 = w /\ r = Ok a.
Proof using Type. by intros [= -> ->]. Qed.
Lemma ws_tick_inv w w1 n : tick w = (w1, Ok n) -> w_db w1 = w_db w.
Proof using Type. by intros [= <- _]. Qed.
Lemma ws_lease_inv i w w1 r : lease i w = (w1, Ok r) -> db_leases (w_db w) !! i = Some r /\ w_db w1 = w_db w.
Proof using Type.
  intros (w2 & x & (d & [= <- <-] & Hd)%ws_db_inv & [-> Hx%ok_or_Ok]%ws_result_inv)%ws_bind_inv. done.
Qed.
Lemma ws_transfer_inv i w w1 r : transfer i w = (w1, Ok r) -> db_transfers (w_db w) !! i = Some r /\ w_db w1 = w_db w.
Proof using Type.
  intros (w2 & x & (d & [= <- <-] & Hd)%ws_db_inv & [-> Hx%ok_or_Ok]%ws_result_inv)%ws_bind_inv. done.
Qed.
Lemma wp_await k w :
  wp (await_proven_empty k) (fun w' r => w_db w' = w_db w /\
    match r with Ok a => exists n, a = cb_await_proven_empty n k | _ => True end) w.
Proof using Type.
  apply wp_bind, wp_tick; [done|]. apply wp_bind, wp_modifies, wp_ret. split; [done|]. by eexists.
Qed.
Lemma ws_await_inv k w w1 a : await_proven_empty k w = (w1, Ok a) -> w_db w1 = w_db w /\ exists n, a = cb_await_proven_empty n k.
Proof using Type. intros Hw. pose proof (wp_await k w) as Ha. unfold wp in Ha. by rewrite Hw in Ha. Qed.
Lemma ws_cas_lease_can r next g rel w w1 x : cas_lease r next g rel w = (w1, Ok x) -> can_transition_to (wl_state r) next = true.
Proof using Type. unfold cas_lease. by destruct (can_transition_to _ _). Qed.
Lemma ws_cas_lease_frame r next g rel w w1 x i : cas_lease r next g rel w = (w1, Ok x) ->
  (forall k r', db_leases (w_db w) !! k = Some r' -> wl_lease_id r' = k) -> i <> wl_lease_id r ->
  db_leases (w_db w1) !! i = db_leases (w_db w) !! i.
Proof using Type.
  unfold cas_lease. destruct (can_transition_to _ _); cbn [negb]; [|done]. intros Hw Hkey Hi.
  apply ws_bind_inv in Hw as (w2 & time & Ht & Hw). assert (w_db w2 = w_db w) as E by (by injection Ht as <- _). clear Ht.
  apply ws_bind_inv in Hw as (w3 & row & (d & Hop & Hd)%ws_db_inv & Hw).
  apply ws_bind_inv in Hw as (w4 & [] & Hinv & [= <- _]).
  assert (w_db w4 = w_db w3) as ->.
  { destruct row as [r'|]; [|by injection Hinv as <-]. destruct (_ <? _); by injection Hinv as <-. }
  rewrite Hd. rewrite E in Hop. clear -Hop Hkey Hi. unfold cas_write_scope_lease in Hop. destruct (_ <? _); [done|]. destruct (_ && _); [done|].
  unfold cas_lease_update in Hop. cbn [cl_lease_id] in Hop.
  destruct (db_leases (w_db w) !! wl_lease_id r) as [r'|] eqn:Hr; [|by injection Hop as <- _].
  destruct (cas_lease_matches _ _); [|by injection Hop as <- _]. unfold update_lease in Hop.
  destruct (lease_triggers _ _); [|done]. injection Hop as <- _. cbn. apply lookup_insert_ne. by rewrite (Hkey _ _ Hr).
Qed.

(** What the tables, the barrier and the backend said when a return completes. *)
Record return_needed (w : World) (i : Z) (t : WriteScopeTransferRow) (p : WriteScopeLeaseRow) : Prop := {
  rn_transfer : db_transfers (w_db w) !! i = Some t;
  rn_phase : wt_phase t = ChildTerminal;
  rn_child : forall c, wt_child_lease_id t = Some c -> exists l, db_leases (w_db w) !! c = Some l /\
    can_transition_to (wl_state l) LsReleased = true /\ forall k u, delegation (w_db w) k u -> wt_parent_lease_id u <> c;
  rn_parent : db_leases (w_db w) !! wt_parent_lease_id t = Some p;
  rn_delegated : wl_state p = LsDelegated;
  rn_gone : exists containment generation, wt_containment_id t = Some containment /\
    wt_containment_generation t = Some generation /\
    exists n, cb_await_proven_empty n (mkTicket containment generation) = ProvenEmpty generation;
  rn_published : exists identity, wt_publication_identity t = Some identity /\
    exists n x, bk_publish n (mkPublish (wt_sub_scope_path t) (Some identity)) = Published x }.
Lemma completed_return_needed w i w' tk : Inv w -> complete_return i w = (w', Ok tk) -> exists t p, return_needed w i t p.
Proof using Type.
  intros [HI _] Hw. unfold complete_return, complete_return_locked in Hw.
  apply ws_bind_inv in Hw as (w1 & t & [Ht Hd1]%ws_transfer_inv & Hw). case_bool_decide as Hph; cbn [negb] in Hw; [|done].
  apply ws_bind_inv in Hw as (w2 & [] & Hdesc & Hw).
  assert (w_db w2 = w_db w /\ forall c, wt_child_lease_id t = Some c -> forall k u, delegation (w_db w) k u -> wt_parent_lease_id u <> c) as [Hd2 Hno].
  { destruct (wt_child_lease_id t) as [c|]; [|by injection Hdesc as <-].
    apply ws_bind_inv in Hdesc as (w2' & open & (d & [= <- <-] & Hd)%ws_db_inv & Hz). rewrite Hd1 in *. cbv zeta in Hz.
    destruct (0 <? _) eqn:Hlt in Hz; [done|]. injection Hz as <-. split; [done|]. intros c' [= <-] k u [Hu Hden] Hpar.
    apply Z.ltb_ge in Hlt. assert (u ∈ ([] : list WriteScopeTransferRow)) as Hin; [|by apply not_elem_of_nil in Hin].
    apply zlen_le_0 in Hlt. rewrite <- Hlt.
    apply list_elem_of_filter. split; [done|]. apply select_elem. split; [|by exists k].
    apply andb_true_iff. split; [by apply Z.eqb_eq|]. unfold denied in Hden. destruct (wt_phase u); done. }
  apply ws_bind_inv in Hw as (w3 & co & [-> Hco%ok_or_Ok]%ws_result_inv & Hw).
  apply ws_bind_inv in Hw as (w4 & cg & [-> Hcg%ok_or_Ok]%ws_result_inv & Hw).
  apply ws_bind_inv in Hw as (w5 & ans & [Hd5 [na ->]]%ws_await_inv & Hw).
  apply ws_bind_inv in Hw as (w6 & [] & Hans & Hw).
  destruct (cb_await_proven_empty na _) as [generation| |] eqn:Hgone; [|done..].
  destruct (generation =? cg) eqn:Hg in Hans; cbn [negb] in Hans; [|done]. apply Z.eqb_eq in Hg as ->. injection Hans as <-.
  apply ws_bind_inv in Hw as (w6 & ident & [-> Hid%ok_or_Ok]%ws_result_inv & Hw).
  apply ws_bind_inv in Hw as (w7 & np & Hd7%ws_tick_inv & Hw). apply ws_bind_inv in Hw as (w8 & [] & Hpub & Hw).
  destruct (bk_publish np _) as [px| |] eqn:Hpx; [|done..]. injection Hpub as <-.
  apply ws_bind_inv in Hw as (w9 & [] & Hperm & Hw). assert (db_leases (w_db w9) = db_leases (w_db w)) as Hd9.
  { destruct (wt_execution_permit_id t); [|injection Hperm as <-; congruence].
    apply ws_bind_inv in Hperm as (w8' & time & Htime & Hperm). assert (w_db w8' = w_db w7) as E by (by injection Htime as <- _).
    apply ws_bind_inv in Hperm as (w8'' & y & (d & Hrel & Hd)%ws_db_inv & [= <-]). rewrite Hd. rewrite E, Hd7, Hd5, Hd2 in Hrel.
    unfold release_write_scope_permit in Hrel. destruct (db_permits (w_db w) !! _); [|by injection Hrel as <- _].
    destruct (bool_decide _); by injection Hrel as <- _. }
  apply ws_bind_inv in Hw as (w10 & [] & Hchild & Hw). apply ws_bind_inv in Hw as (w11 & p & [Hp Hd11]%ws_lease_inv & Hw).
  apply ws_bind_inv in Hw as (w12 & ret & Hcan%ws_cas_lease_can & _).
  assert (wl_state p = LsDelegated) as Hst by (by destruct (wl_state p)).
  assert ((forall c, wt_child_lease_id t = Some c -> exists l, db_leases (w_db w) !! c = Some l /\ can_transition_to (wl_state l) LsReleased = true) /\
          db_leases (w_db w10) !! wt_parent_lease_id t = db_leases (w_db w) !! wt_parent_lease_id t) as [Hrel Hpar].
  { destruct (wt_child_lease_id t) as [c|] eqn:Hc; [|injection Hchild as <-; by rewrite Hd9].
    apply ws_bind_inv in Hchild as (w9' & l & [Hl Hd9']%ws_lease_inv & Hchild).
    apply ws_bind_inv in Hchild as (w9'' & [] & Hinv & Hchild). assert (w_db w9'' = w_db w9') as E by (by injection Hinv as <-).
    apply ws_bind_inv in Hchild as (w9''' & x & Hcas & [= <-]). rewrite Hd9 in Hl. split.
    - intros c' [= <-]. exists l. split; [done|]. by eapply ws_cas_lease_can.
    - rewrite (ws_cas_lease_frame _ _ _ _ _ _ _ (wt_parent_lease_id t) Hcas); [by rewrite E, Hd9', Hd9| |].
      { rewrite E, Hd9', Hd9. apply (di_lease_key _ HI). }
      rewrite (di_lease_key _ HI _ _ Hl). intros <-.
      destruct (di_child _ HI _ _ _ Ht Hc) as (l' & Hl' & _ & Hsc).
      destruct (di_strict _ HI _ _ l' Ht) as [_ []]; [unfold denied; by rewrite Hph|done|done]. }
  rewrite Hp in Hpar. exists t, p. split; [done|done| |done|done| |].
  - intros c Hc. destruct (Hrel c Hc) as (l & Hl & Hcl). exists l. split; [done|]. split; [done|]. by apply Hno.
  - exists co, cg. split; [done|]. split; [done|]. by exists na.
  - exists ident. split; [done|]. by exists np, px.
Qed.
End needs.

(** C25: A return completes when and only when it may.  In every reachable state: let the database answer
    every statement, and let a transfer be in phase [ChildTerminal] with a proven capability and a
    session row; let its child lease be releasable and itself have no live delegation, its parent lease be in state
    [Delegated], its containment proven empty by the barrier at the recorded generation, and its
    recorded publication identity be published by the backend.  Then the return completes: the
    transfer is committed and the parent gets a token that may write to the whole sub-scope again.
    Conversely a return that hands out a token, whatever faults there were, found the
    transfer in that phase, the child releasable and without live delegations, the parent in state
    [Delegated], the containment proven empty and the publication done. *)
Theorem return_completes (h : Host) (b : ScopedWriteBackend) (c : ContainmentBarrier) w i :
  reachable w ->
  (forall t p, (forall n, host_fault n = Fine) -> Returnable w i t p ->
    exists w' tk t', complete_return i w = (w', Ok tk) /\ ws_lease_id tk = wt_parent_lease_id t /\
      db_transfers (w_db w') !! i = Some t' /\ wt_phase t' = TfCommitted /\
      forall q, path_contains (wt_sub_scope_path t) q = true -> may_write w' tk q) /\
  (forall w' tk, complete_return i w = (w', Ok tk) -> exists t p, return_needed w i t p).
Proof.
  intros Hr. apply reachable_inv in Hr as HI. split; [|intros w' tk; by apply completed_return_needed].
  intros t p Hf Hret. destruct (total_complete_return Hf w i t p HI Hret)
    as (w' & tk & Hrun & t' & k & l' & row & ps & Hph & Hsl & _ & Hd & Hv & Hlid & Hg).
  assert (wl_lease_id p = wt_parent_lease_id t) as Hpid by (eapply (di_lease_key _ (proj1 HI)), rt_parent; eauto).
  exists w', tk, t'. rewrite Hd. cbn. split; [exact Hrun|]. split; [congruence|]. split; [apply lookup_insert_eq|].
  split; [done|]. intros q Hq. split; [done|]. exists row. rewrite Hlid, Hd. cbn. rewrite lookup_insert_eq.
  split; [done|]. split; [done|]. rewrite Hpid.
  eapply (returned_authority (w_db w) _ i t t' p row); try done; [apply HI| | |]; [apply Hret| |apply Hret].
  unfold denied. by rewrite (rt_phase _ _ _ _ Hret).
Qed.
Lemma return_completes_witness : exists w' tk,
  complete_return (H := Demo.quiet_host) (H0 := Demo.cow) (H1 := Demo.barrier) 6 Demo.w5 = (w', Ok tk) /\
  may_write w' tk (Demo.path [1; 2; 5]).
Proof.
  assert (exists t p, Returnable (H0 := Demo.cow) (H1 := Demo.barrier) Demo.w5 6 t p /\
    wt_sub_scope_path t = Demo.path [1; 2]) as (t & p & Hret & Hsub).
  { eexists. eexists. split.
    - split; [vm_compute; reflexivity|reflexivity|reflexivity|eexists; vm_compute; reflexivity| |vm_compute; reflexivity|
        reflexivity|do 2 eexists; split; [reflexivity|split; [reflexivity|reflexivity]]|
        eexists; split; [reflexivity|intros n; eexists; reflexivity]].
      do 2 eexists. split; [reflexivity|]. split; [vm_compute; reflexivity|]. split; [reflexivity|].
      intros k u [Hu _]. assert (u ∈ (map_to_list (db_transfers (w_db Demo.w5))).*2) as Hin.
      { apply list_elem_of_fmap. exists (k, u). split; [reflexivity|]. by apply elem_of_map_to_list. }
      vm_compute in Hin. apply list_elem_of_singleton in Hin as ->. discriminate.
    - reflexivity. }
  destruct (proj1 (return_completes Demo.quiet_host Demo.cow Demo.barrier Demo.w5 6 Demo.w5_reachable) t p)
    as (w' & tk & t' & Hrun & _ & _ & _ & Hw).
  - reflexivity.
  - exact Hret.
  - exists w', tk. split; [exact Hrun|]. apply Hw. rewrite Hsub. reflexivity.
Defined.

(** ** Recovery without proof *)

Section unproven.
Context `{Host} `{ScopedWriteBackend} `{ContainmentBarrier}.

(** The barrier gives no proof that the transfer's execution is gone. *)
Definition unproven_gone (t : WriteScopeTransferRow) : Prop :=
  match wt_containment_id t, wt_containment_generation t with
  | Some c, Some g => forall n, cb_await_proven_empty n (mkTicket c g) <> ProvenEmpty g
  | _, _ => forall n, cb_nonempty n (write_scope_containment_operation_id (wt_transfer_id t)) <> []
  end.
(** The tables are as they were. *)
Definition keeps {A} (m : WS A) (w : World) : Prop := w_db (m w).1 = w_db w.
Lemma keeps_bind {A B} (m : WS A) (f : A -> WS B) w (P : A -> Prop) :
  wp m (fun w' r => w_db w' = w_db w /\ match r with Ok a => P a | _ => True end) w ->
  (forall a w', P a -> w_db w' = w_db w -> keeps (f a) w') -> keeps (m ≫= f) w.
Proof using Type.
  unfold wp, keeps, mbind, WS_bind. destruct (m w) as [w1 [a|e|]]; cbn; intros [Hd Ha] Hf; [|done..].
  rewrite (Hf a w1 Ha Hd). done.
Qed.
Lemma keeps_attempt {A} (m : WS A) w :
  keeps m w -> wp (attempt m) (fun w' r => w_db w' = w_db w /\ match r with Ok x => x <> Panic | _ => True end) w.
Proof using Type. unfold keeps, wp, attempt. by destruct (m w) as [w' [a|e|]]. Qed.
Lemma wp_of_result_value {A} (r : result WriteScopeError A) w :
  wp (of_result r) (fun w' x => w_db w' = w_db w /\ match x with Ok a => r = Ok a | _ => True end) w.
Proof using Type. split; [done|]. cbn. by destruct r. Qed.

(** The return barrier stops at the proof. *)
Lemma complete_return_keeps i t w :
  db_transfers (w_db w) !! i = Some t -> unproven_gone t -> keeps (complete_return_locked i) w.
Proof using Type.
  intros Ht Hun. unfold complete_return_locked.
  apply (keeps_bind _ _ _ (fun a => a = t)).
  { apply wp_bind, wp_db; [done..|]. intros d a [= <- <-]. unfold get_transfer. rewrite Ht. by apply wp_of_result. }
  intros a w1 -> Hd1. destruct (negb _); [done|].
  apply (keeps_bind _ _ _ (fun _ => True)).
  { destruct (wt_child_lease_id t); [|done]. apply wp_bind, wp_db; [done..|]. intros d a [= <- <-]. cbv zeta. by case_match. }
  intros [] w2 _ Hd2. eapply (keeps_bind _ _ _ _ (wp_of_result_value _ _)). intros co w3 Hco%ok_or_Ok Hd3.
  eapply (keeps_bind _ _ _ _ (wp_of_result_value _ _)). intros cg w4 Hcg%ok_or_Ok Hd4.
  eapply (keeps_bind _ _ _ _ (wp_await _ _)). intros ans w5 [n ->] Hd5.
  unfold unproven_gone in Hun. rewrite Hco, Hcg in Hun. specialize (Hun n).
  destruct (cb_await_proven_empty n _) as [g|g r|r]; [|done..].
  destruct (Z.eqb_spec g cg) as [->|]; [done|]. done.
Qed.
Lemma report_keeps i r w : r <> Panic -> keeps (report_return i r) w.
Proof using Type. by destruct r as [|[]|]. Qed.

Lemma unactivated_retains t w :
  unproven_gone t ->
  wp (unactivated_blocked t) (fun w' r => w_db w' = w_db w /\ match r with Ok a => is_Some a | _ => True end) w.
Proof using Type.
  unfold unactivated_blocked, unproven_gone.
  assert ((forall n, cb_nonempty n (write_scope_containment_operation_id (wt_transfer_id t)) <> []) ->
    wp (n ← asks w_tick;
      rows ← attempt (db (fun d => Some (d, cb_nonempty n (write_scope_containment_operation_id (wt_transfer_id t)))));
      match rows with Ok [] => mret None | Panic => of_result Panic
      | _ => mret (Some (RetainedNotProvenEmpty (wt_transfer_id t))) end)
      (fun w' r => w_db w' = w_db w /\ match r with Ok a => is_Some a | _ => True end) w) as Hq.
  { intros Hun. apply wp_bind, wp_asks, wp_bind, wp_attempt, wp_db; [done|by split; [|eexists]|].
    intros d a [= <- <-]. destruct (cb_nonempty _ _) eqn:E; [by destruct (Hun (w_tick w))|]. by split; [|eexists]. }
  destruct (wt_containment_id t) as [c|]; [|exact Hq]. destruct (wt_containment_generation t) as [g|]; [|exact Hq].
  intros Hun. apply wp_bind. eapply wp_mono, wp_await. intros w' [a|e|] [Hd Ha]; [|done..]. destruct Ha as [n ->].
  split; [done|]. specialize (Hun n). destruct (cb_await_proven_empty n _) as [x|x r|r]; [|by eexists..].
  destruct (Z.eqb_spec x g) as [->|]; [done|]. by eexists.
Qed.

(** without a proof that a transfer's execution is gone, recovery changes no table
    whichever phase the crash left the transfer in, until its parent is restored: an open
    transfer stays open and its parent stays excluded. *)
Theorem recovery_fails_closed w t :
  db_transfers (w_db w) !! wt_transfer_id t = Some t -> phase_ordinal (wt_phase t) < phase_ordinal ParentRestored ->
  unproven_gone t -> w_db (recover_one t w).1 = w_db w.
Proof using Type.
  intros Ht Hp Hun. change (keeps (recover_one t) w). unfold recover_one.
  assert (keeps (blocked ← unactivated_blocked t;
      match blocked with
      | Some outcome => mret outcome
      | None =>
          match wt_execution_permit_id t with
          | Some permit_id => time ← now; ignoring (db (release_write_scope_permit permit_id time))
          | None => mret tt
          end ;;
          r ← attempt (retire_unactivated t);
          match r with
          | Panic => of_result Panic
          | Err _ => mret (RecoveryDenied (wt_transfer_id t))
          | Ok _ => mret (ReturnAdvanced (wt_transfer_id t))
          end
      end) w) as Hblocked.
  { apply (keeps_bind _ _ _ is_Some); [by apply unactivated_retains|by intros a w' [o ->]]. }
  destruct (wt_phase t) eqn:Hph; [exact Hblocked|exact Hblocked| | |done..].
  - destruct (wt_child_lease_id t); [|done]. unfold unproven_gone in Hun.
    destruct (wt_containment_id t), (wt_containment_generation t); try done.
    eapply (keeps_bind _ _ _ _ (wp_await _ _)). intros ans w1 [n ->] Hd. specialize (Hun n).
    destruct (cb_await_proven_empty n _) as [x|x r|r]; [|done..].
    match goal with |- context [x =? ?g] => destruct (Z.eqb_spec x g) as [->|]; [done|] end. done.
  - eapply (keeps_bind _ _ _ _ (keeps_attempt _ _ (complete_return_keeps _ t _ Ht Hun))).
    intros r w1 Hr Hd. by apply report_keeps.
Qed.
End unproven.
(** Containments that cannot be proven empty. *)
Definition uncertain : ContainmentBarrier := {|
  cb_create := fun n _ _ _ => inr (mkTicket (Z.of_nat n) 1);
  cb_prove_membership_and_release_user_code := fun _ _ => inr tt;
  cb_await_proven_empty := fun _ t => EmptyUncertain (tk_generation t) "probe failed";
  cb_terminate := fun _ _ => inr tt; cb_nonempty := fun _ _ => [1] |}.
Lemma recovery_fails_closed_witness : exists t,
  db_transfers (w_db Demo.w2) !! 6 = Some t /\
  w_db (recover_one (H := Demo.quiet_host) (H0 := Demo.cow) (H1 := uncertain) t Demo.w2).1 = w_db Demo.w2.
Proof.
  eexists. split; [vm_compute; reflexivity|].
  apply (recovery_fails_closed (H := Demo.quiet_host) (H0 := Demo.cow) (H1 := uncertain) Demo.w2).
  - vm_compute. reflexivity.
  - reflexivity.
  - intros n. discriminate.
Defined.

(** ** Closed runs that do not end as intended *)

Module Runs.
Import Demo.
Definition root_token : WriteScopeToken := mkToken 0 1 1 (path [1]) 0.
(** A root lease with one write in flight at [1;2;5]; a transfer of [1;2] does not drain. *)
Definition u2 : World := call (OpAcquire root_token (path [1; 2; 5]) WriteContent) w1.
Definition u3 := begin_transfer (request 0 [1; 2]) u2.

(** a transfer that fails to drain gives the parent its lease back but no valid
    token: every token issued for it is dead, and the run made no fault. *)
Theorem failed_transfer_strands_parent :
  u3.2 = Err (PermitsNotDrained 1) /\
  (wl_state <$> db_leases (w_db u3.1) !! 0) = Some LsActive /\
  (token_is_valid w1 root_token = true) /\
  forall tk, issued u3.1 tk -> ~ live_token u3.1 tk.
Proof.
  split; [vm_compute; reflexivity|]. split; [vm_compute; reflexivity|]. split; [vm_compute; reflexivity|].
  intros tk (entry & r & He & Hin & _) [Hv _].
  assert (w_cores u3.1 = [false]) as Hc by (vm_compute; reflexivity).
  unfold token_is_valid in Hv. rewrite Hc in Hv. clear -Hv. destruct (ws_core tk) as [|[]]; discriminate Hv.
Qed.

(** One database write fails, after user code was released: the phase advance at tick 15. *)
Definition one_failure : Host := host (fun n => if Nat.eqb n 15 then Fails else Fine) (fun _ => Some).
Definition x2 := begin_transfer (H := one_failure) (request 0 [1; 2]) w1.

(** when the database fails once after the child's code was released, the transfer is
    retired and the parent is allowed the sub-scope again, while the code is neither
    terminated nor proven gone, and its execution permit stays held with no open transfer
    left to release it, so the sub-scope cannot be delegated again. *)
Theorem failed_finish_leaves_code_running :
  x2.2 = Err WsInternal /\
  CallRelease (mkRecorded 6 12 1) true ∈ w_calls x2.1 /\
  (forall k, CallTerminate k ∉ w_calls x2.1) /\
  (wt_phase <$> db_transfers (w_db x2.1) !! 6) = Some TfCommitted /\
  (exists r, db_leases (w_db x2.1) !! 0 = Some r /\ wl_state r = LsActive /\
     allows_path (authority_of (w_db x2.1) 0 r) (path [1; 2; 5]) = true) /\
  (wp_state <$> db_permits (w_db x2.1) !! 9) = Some PsHeld /\
  (begin_transfer (request 0 [1; 2]) x2.1).2 = Err (PermitsNotDrained 1).
Proof.
  assert (w_calls x2.1 = [CallCreate (mkReserved 6 1) (Some (mkTicket 12 1)); CallRelease (mkRecorded 6 12 1) true])
    as Hcalls by (vm_compute; reflexivity).
  rewrite Hcalls. split; [vm_compute; reflexivity|]. split; [right; left|].
  split. { intros k. rewrite !elem_of_cons. intros [E|[E|E%not_elem_of_nil]]; [discriminate E..|done]. }
  split; [vm_compute; reflexivity|].
  split. { eexists. split; [vm_compute; reflexivity|]. split; vm_compute; reflexivity. }
  split; vm_compute; reflexivity.
Qed.

(** The root delegates [1;2;3]. *)
Definition y2 := begin_transfer (request 0 [1; 2; 3]) w1.
Definition y3 := acquire_mutation_permit parent_token (path [1; 2]) MkRename y2.1.

(** while [1;2;3] is delegated the parent is granted a permit to rename [1;2], which
    changes what every path of the delegate means: the grant only looks at sub-scopes that
    contain the target, not at those the target contains.  The same permit, held first,
    would have blocked the transfer. *)
Theorem ancestor_rename_granted_over_delegation :
  (exists handle, y2.2 = Ok handle) /\ (exists permit, y3.2 = Ok permit) /\
  overlaps_scope (for_mutation (path [1; 2]) MkRename) (path [1; 2; 3]) = true /\
  (begin_transfer (request 0 [1; 2; 3]) (call (OpAcquire root_token (path [1; 2]) MkRename) w1)).2 =
    Err (PermitsNotDrained 1).
Proof.
  split; [eexists; vm_compute; reflexivity|]. split; [eexists; vm_compute; reflexivity|].
  split; vm_compute; reflexivity.
Qed.

(** The path cannot be resolved the second time, after the permit was recorded. *)
Definition vanishing : Host := host (fun _ => Fine) (fun n p => if Nat.eqb n 7 then None else Some p).
Definition z2 := acquire_mutation_permit (H := vanishing) root_token (path [1; 2; 5]) WriteContent w1.

(** when the second resolution of a permit's target fails, acquisition fails but the
    permit stays held with no handle to release it: it blocks transfers and the deletion
    of the session. *)
Theorem failed_resolution_leaks_permit :
  z2.2 = Err (EffectivePathChanged (path [1; 2; 5])) /\
  (wp_state <$> db_permits (w_db z2.1) !! 6) = Some PsHeld /\
  (begin_transfer (request 0 [1; 2]) z2.1).2 = Err (PermitsNotDrained 1) /\
  (deletion_blockers 1 z2.1).2 = Ok [6].
Proof. repeat split; vm_compute; reflexivity. Qed.
End Runs.
