(* ===== verification/LocksDb.v ===== *)
(** The crash-recovery mirror of the file-lock manager ([cockpit-db/src/db/locks.rs]): the
    [lock_state] and [lock_reads] tables and the statements on them.

    A statement is a function of the time it runs at and of the tables; [None] is an
    error (a foreign key, or the owner guard of an acquire) and leaves the tables as they
    were.  Sessions are integers; a path is its bytes, without repeated or trailing separators
    (two spellings of one path are not told apart by the code's path comparison), and is
    stored as the text [path_string] makes of them. *)

From S2P Require Import Prelude.
From stdpp Require Import options.
Set Warnings "-clear-no-such-hyp".

(** A path, an agent's name, and who holds a lock: [(session_id, agent_id)]. *)
Definition LockPath : Type := bytes.
Definition AgentId : Type := string.
Definition Owner : Type := Z * AgentId.

(** [Path::to_string_lossy]: how many bytes the conversion looks at from the first of [s], and
    whether they are one well-formed UTF-8 character; a byte past the end counts as zero. *)
Definition utf8_next (s : bytes) : nat * bool :=
  let at_ i := default 0 (s !! i) in
  let cont i := (128 <=? at_ i) && (at_ i <=? 191) in
  let within a b := (a <=? at_ 1%nat) && (at_ 1%nat <=? b) in
  let x := at_ 0%nat in
  if x <? 128 then (1, true)%nat else
  if (194 <=? x) && (x <=? 223) then (if cont 1%nat then (2, true)%nat else (1, false)%nat) else
  if (224 <=? x) && (x <=? 239) then
    let second := if x =? 224 then within 160 191 else if x =? 237 then within 128 159 else within 128 191 in
    if negb second then (1, false)%nat else if negb (cont 2%nat) then (2, false)%nat else (3, true)%nat
  else if (240 <=? x) && (x <=? 244) then
    let second := if x =? 240 then within 144 191 else if x =? 244 then within 128 143 else within 128 191 in
    if negb second then (1, false)%nat else if negb (cont 2%nat) then (2, false)%nat else
    if negb (cont 3%nat) then (3, false)%nat else (4, true)%nat
  else (1, false)%nat.
(** Each ill-formed part becomes one replacement character, U+FFFD; the fuel is one turn per byte. *)
Fixpoint lossy_loop (fuel : nat) (s : bytes) : bytes :=
  match fuel, s with
  | S fuel, _ :: _ =>
      let '(n, ok) := utf8_next s in
      (if (ok : bool) then take n s else [239; 191; 189]) ++ lossy_loop fuel (drop n s)
  | _, _ => []
  end.
Definition to_string_lossy (s : bytes) : bytes := lossy_loop (length s) s.
(** db/locks.rs:422-424 path_string. *)
Definition path_string (path : LockPath) : LockPath := to_string_lossy path.

(** db/locks.rs:16-24 LockStateRow. Without the path, which is the key. *)
Record LockStateRow := mkLockRow { lr_agent_id : AgentId; lr_session_id : Z; lr_acquired_at : Z }.
(** db/locks.rs:27-32 LockReadRow. Without the key; [read_hash] as it is stored, signed. *)
Record LockReadRow := mkReadRow { rr_read_at : Z; rr_read_hash : option Z }.
(** The tables, by primary key, and the ids of the session rows they refer to. *)
Record LockDb := mkLockDb {
  lock_state : gmap LockPath LockStateRow;
  lock_reads : gmap (Owner * LockPath) LockReadRow;
  lock_sessions : gset Z }.

Definition set_lock_state (m : gmap LockPath LockStateRow) (d : LockDb) : LockDb :=
  mkLockDb m (lock_reads d) (lock_sessions d).
Definition set_lock_reads (m : gmap (Owner * LockPath) LockReadRow) (d : LockDb) : LockDb :=
  mkLockDb (lock_state d) m (lock_sessions d).

(** [hash as i64] and back. *)
Definition hash_as_i64 (h : Z) : Z := if h <? 2 ^ 63 then h else h - 2 ^ 64.
Definition hash_as_u64 (h : Z) : Z := if h <? 0 then h + 2 ^ 64 else h.

(** A statement, run at a time. *)
Definition LockOp : Type := Z -> LockDb -> option LockDb.

Definition row_owner (r : LockStateRow) : Owner := (lr_session_id r, lr_agent_id r).
(** The foreign key of both tables. *)
Definition session_known (d : LockDb) (session : Z) : bool := bool_decide (session ∈ lock_sessions d).

(** db/locks.rs:426-468 guarded_lock_acquire. The row of another owner is left alone and refused. *)
Definition guarded_lock_acquire (path : LockPath) (agent_id : AgentId) (session_id : Z) : LockOp := fun now d =>
  if negb (session_known d session_id) then None else
  match lock_state d !! path with
  | Some r =>
      if bool_decide (row_owner r = (session_id, agent_id))
      then Some (set_lock_state (<[path := mkLockRow agent_id session_id now]> (lock_state d)) d) else None
  | None => Some (set_lock_state (<[path := mkLockRow agent_id session_id now]> (lock_state d)) d)
  end.
(** db/locks.rs:37-46 Db::lock_acquire. *)
Definition lock_acquire (path : LockPath) (agent_id : AgentId) (session_id : Z) : LockOp :=
  guarded_lock_acquire (path_string path) agent_id session_id.
(** db/locks.rs:53-72 Db::lock_touch. *)
Definition lock_touch (path : LockPath) (agent_id : AgentId) (session_id now : Z) : LockOp := fun _ d =>
  let path := path_string path in
  match lock_state d !! path with
  | Some r =>
      if bool_decide (row_owner r = (session_id, agent_id))
      then Some (set_lock_state (<[path := mkLockRow agent_id session_id now]> (lock_state d)) d) else Some d
  | None => Some d
  end.
(** The delete of one owner's row. *)
Definition delete_lock_row (path : LockPath) (o : Owner) (d : LockDb) : LockDb :=
  match lock_state d !! path with
  | Some r => if bool_decide (row_owner r = o) then set_lock_state (delete path (lock_state d)) d else d
  | None => d
  end.
(** db/locks.rs:77-90 Db::lock_release. *)
Definition lock_release (path : LockPath) (agent_id : AgentId) (session_id : Z) : LockOp := fun _ d =>
  Some (delete_lock_row (path_string path) (session_id, agent_id) d).
(** db/locks.rs:104-114 Db::lock_note_read. The statement, on the stored text; of [lock_acquire_with_read] and [lock_force_acquire_with_read] too. *)
Definition note_read_row (path : LockPath) (agent_id : AgentId) (session_id : Z) (read_hash : option Z) : LockOp :=
  fun now d =>
  if negb (session_known d session_id) then None else
  Some (set_lock_reads (<[((session_id, agent_id), path) := mkReadRow now (hash_as_i64 <$> read_hash)]>
                          (lock_reads d)) d).
(** db/locks.rs:93-117 Db::lock_note_read. *)
Definition lock_note_read (path : LockPath) (agent_id : AgentId) (session_id : Z) (read_hash : option Z) : LockOp :=
  note_read_row (path_string path) agent_id session_id read_hash.
(** db/locks.rs:120-145 Db::lock_acquire_with_read. One transaction. *)
Definition lock_acquire_with_read (path : LockPath) (agent_id : AgentId) (session_id : Z) (read_hash : option Z)
    : LockOp := fun now d =>
  let path := path_string path in
  d ← guarded_lock_acquire path agent_id session_id now d; note_read_row path agent_id session_id read_hash now d.
(** db/locks.rs:199-211 Db::lock_force_acquire. The statement, on the stored text; of [lock_force_acquire_with_read] too. *)
Definition force_row (path : LockPath) (agent_id : AgentId) (session_id : Z) : LockOp := fun now d =>
  if negb (session_known d session_id) then None else
  Some (set_lock_state (<[path := mkLockRow agent_id session_id now]> (lock_state d)) d).
(** db/locks.rs:190-213 Db::lock_force_acquire. *)
Definition lock_force_acquire (path : LockPath) (agent_id : AgentId) (session_id : Z) : LockOp :=
  force_row (path_string path) agent_id session_id.
(** db/locks.rs:151-185 Db::lock_force_acquire_with_read. *)
Definition lock_force_acquire_with_read (path : LockPath) (agent_id : AgentId) (session_id : Z)
    (read_hash : option Z) : LockOp := fun now d =>
  let path := path_string path in
  d ← force_row path agent_id session_id now d; note_read_row path agent_id session_id read_hash now d.
(** db/locks.rs:217-235 Db::lock_delete_read. *)
Definition lock_delete_read (path : LockPath) (agent_id : AgentId) (session_id : Z) : LockOp := fun _ d =>
  Some (set_lock_reads (delete ((session_id, agent_id), path_string path) (lock_reads d)) d).
(** db/locks.rs:238-265 Db::lock_release_and_delete_reads. One transaction. *)
Definition lock_release_and_delete_reads (entries : list (LockPath * Owner)) : LockOp := fun _ d =>
  Some (foldl (fun d e => let d := delete_lock_row (path_string e.1) e.2 d in
                          set_lock_reads (delete (e.2, path_string e.1) (lock_reads d)) d) d entries).
(** The read rows of an owner moved to another, over the other's own. *)
Definition move_reads (from to : Owner) (m : gmap (Owner * LockPath) LockReadRow) : gmap (Owner * LockPath) LockReadRow :=
  let moved := filter (fun kv => kv.1.1 = from) (map_to_list m) in
  filter (fun kv => kv.1.1 <> from)
    (list_to_map ((fun kv => ((to, kv.1.2), kv.2)) <$> moved) ∪ m).
(** db/locks.rs:269-305 Db::lock_transfer_agent. One transaction. *)
Definition lock_transfer_agent (session_id : Z) (from_agent to_agent : AgentId) : LockOp := fun _ d =>
  if bool_decide (from_agent = to_agent) then Some d else
  let state := (fun r => if bool_decide (row_owner r = (session_id, from_agent))
                         then mkLockRow to_agent session_id (lr_acquired_at r) else r) <$> lock_state d in
  Some (set_lock_reads (move_reads (session_id, from_agent) (session_id, to_agent) (lock_reads d))
          (set_lock_state state d)).
(** db/locks.rs:308-323 Db::lock_cleanup_session. One transaction. *)
Definition lock_cleanup_session (session_id : Z) : LockOp := fun _ d =>
  Some (set_lock_reads (filter (fun kv => kv.1.1.1 <> session_id) (lock_reads d))
          (set_lock_state (filter (fun kv => lr_session_id kv.2 <> session_id) (lock_state d)) d)).

(** db/locks.rs:327-357 Db::list_held_locks. *)
Definition list_held_locks (d : LockDb) : list (LockPath * LockStateRow) := map_to_list (lock_state d).
(** db/locks.rs:386-419 Db::list_lock_reads. *)
Definition list_lock_reads (d : LockDb) : list (Owner * LockPath * option Z) :=
  (fun kv => (kv.1, hash_as_u64 <$> rr_read_hash kv.2)) <$> map_to_list (lock_reads d).

(** ** The stored text *)

(** A path whose text names it again: the conversion changes nothing. *)
Definition is_text (p : LockPath) : Prop := path_string p = p.
#[export] Instance is_text_dec p : Decision (is_text p) := decide (path_string p = p).

Lemma utf8_next_pos s : (1 <= (utf8_next s).1)%nat.
Proof. unfold utf8_next. repeat case_match; cbn; lia. Qed.
(** One turn per byte is enough: more fuel changes nothing. *)
Lemma lossy_loop_fuel n m s : (length s <= n)%nat -> (length s <= m)%nat -> lossy_loop n s = lossy_loop m s.
Proof.
  revert m s. induction n as [|n IH]; intros [|m] [|x s] Hn Hm; cbn in Hn, Hm; try done; try lia.
  cbn [lossy_loop]. pose proof (utf8_next_pos (x :: s)) as Hpos. destruct (utf8_next (x :: s)) as [k ok]. cbn in Hpos.
  f_equal. apply IH; rewrite length_drop; cbn; lia.
Qed.
(** The conversion, character by character. *)
Lemma to_string_lossy_cons x s :
  to_string_lossy (x :: s) =
  (if (utf8_next (x :: s)).2 then take (utf8_next (x :: s)).1 (x :: s) else [239; 191; 189]) ++
  to_string_lossy (drop (utf8_next (x :: s)).1 (x :: s)).
Proof.
  unfold to_string_lossy at 1. cbn [length lossy_loop]. pose proof (utf8_next_pos (x :: s)) as Hpos.
  destruct (utf8_next (x :: s)) as [k ok]. cbn [fst snd] in *. f_equal. apply lossy_loop_fuel; rewrite length_drop; cbn; lia.
Qed.
(** ASCII is text. *)
Lemma ascii_is_text p : Forall (fun x => x < 128) p -> is_text p.
Proof.
  unfold is_text, path_string. intros Hp. induction Hp as [|x p Hx _ IH]; [done|]. rewrite to_string_lossy_cons.
  assert (utf8_next (x :: p) = (1, true)%nat) as ->
    by (unfold utf8_next; cbn [lookup list_lookup default from_option id]; by rewrite (proj2 (Z.ltb_lt x 128))).
  cbn [fst snd take drop app]. rewrite drop_0. f_equal. exact IH.
Qed.
