(* ===== verification/Locks.v ===== *)
(** The daemon-wide file-lock manager ([cockpit-core/src/locks/]): exclusive holds, read
    and authorship records, the waiting acquire with its wait graph, idle expiry, write
    guards, and the suspension of agents and sessions.

    The manager's methods are asynchronous: they hold the state mutex for short sections
    and release it across every database call.  A method is a program ([Prog]) of such
    sections: each [PSync] runs with no other task in between (its continuation sees the
    state the section found), each [PDb] is an awaited
    database statement that commits or fails, [PWait] is the [select!] of the waiting
    acquire.  Other tasks run between any two of them; the interleaving is a step
    relation.  The filesystem and the clock may change between any two steps too. *)

From S2P Require Import Prelude.
From S2P Require Import LocksDb.
From stdpp Require Import options.
Set Warnings "-clear-no-such-hyp".

(** ** State *)

(** locks/mod.rs:69-69 LOCK_IDLE_TIMEOUT. In seconds. *)
Definition LOCK_IDLE_TIMEOUT : Z := 5 * 60.
(** locks/mod.rs:73-81 AcquireWait. *)
Inductive AcquireWait := Acquired | AcqCancelled.
(** locks/mod.rs:151-156 WaitingOn. *)
Record WaitingOn := mkWaitingOn { wo_path : LockPath; wo_holder_session : Z; wo_holder_agent : AgentId }.
Definition wo_holder (e : WaitingOn) : Owner := (wo_holder_session e, wo_holder_agent e).
(** locks/mod.rs:102-149 LockState. *)
Record LockState := mkLockState {
  held : gmap LockPath Owner;
  touched : gmap LockPath Z;
  read_tracker : gmap Owner (gmap LockPath (option Z));
  authored_tracker : gmap Owner (gmap LockPath Z);
  forced_released : gset LockPath;
  suspended : gmap Owner (gmap LockPath Z);
  session_released : gmap Z (gmap LockPath (AgentId * Z));
  waiting : gmap Owner WaitingOn }.
Definition empty_state : LockState := mkLockState ∅ ∅ ∅ ∅ ∅ ∅ ∅ ∅.

Definition set_held (h : gmap LockPath Owner) (t : gmap LockPath Z) (st : LockState) : LockState :=
  mkLockState h t (read_tracker st) (authored_tracker st) (forced_released st) (suspended st) (session_released st) (waiting st).
Definition set_read_tracker (m : gmap Owner (gmap LockPath (option Z))) (st : LockState) : LockState :=
  mkLockState (held st) (touched st) m (authored_tracker st) (forced_released st) (suspended st) (session_released st) (waiting st).
Definition set_authored_tracker (m : gmap Owner (gmap LockPath Z)) (st : LockState) : LockState :=
  mkLockState (held st) (touched st) (read_tracker st) m (forced_released st) (suspended st) (session_released st) (waiting st).
Definition set_forced_released (f : gset LockPath) (st : LockState) : LockState :=
  mkLockState (held st) (touched st) (read_tracker st) (authored_tracker st) f (suspended st) (session_released st) (waiting st).
Definition set_suspended (m : gmap Owner (gmap LockPath Z)) (st : LockState) : LockState :=
  mkLockState (held st) (touched st) (read_tracker st) (authored_tracker st) (forced_released st) m (session_released st) (waiting st).
Definition set_session_released (m : gmap Z (gmap LockPath (AgentId * Z))) (st : LockState) : LockState :=
  mkLockState (held st) (touched st) (read_tracker st) (authored_tracker st) (forced_released st) (suspended st) m (waiting st).
Definition set_waiting (m : gmap Owner WaitingOn) (st : LockState) : LockState :=
  mkLockState (held st) (touched st) (read_tracker st) (authored_tracker st) (forced_released st) (suspended st) (session_released st) m.

(** Take or drop a hold together with its timestamp. *)
Definition hold (p : LockPath) (o : Owner) (now : Z) (st : LockState) : LockState :=
  set_held (<[p := o]> (held st)) (<[p := now]> (touched st)) st.
Definition unhold (p : LockPath) (st : LockState) : LockState :=
  set_held (delete p (held st)) (delete p (touched st)) st.
Definition holds (st : LockState) (p : LockPath) (o : Owner) : bool := bool_decide (held st !! p = Some o).
(** [if matches!(held.get(p), owner) { held.remove(p); touched.remove(p) }]. *)
Definition unhold_if (p : LockPath) (o : Owner) (st : LockState) : LockState :=
  if holds st p o then unhold p st else st.
(** [entry(owner).or_default().insert(p, h)], and removal with and without dropping an empty map. *)
Definition note_in (o : Owner) (p : LockPath) (h : option Z) (st : LockState) : LockState :=
  set_read_tracker (<[o := <[p := h]> (default ∅ (read_tracker st !! o))]> (read_tracker st)) st.
Definition forget_read (o : Owner) (p : LockPath) (st : LockState) : LockState :=
  match read_tracker st !! o with
  | Some reads => set_read_tracker (<[o := delete p reads]> (read_tracker st)) st
  | None => st
  end.
Definition drop_read (o : Owner) (p : LockPath) (st : LockState) : LockState :=
  match read_tracker st !! o with
  | Some reads =>
      let reads := delete p reads in
      set_read_tracker (if bool_decide (reads = ∅) then delete o (read_tracker st)
                        else <[o := reads]> (read_tracker st)) st
  | None => st
  end.
Definition read_of (st : LockState) (o : Owner) (p : LockPath) : option (option Z) :=
  read_tracker st !! o ≫= (.!! p).

(** What the methods see: the manager's memory, its database, the files, the clock, and the
    number of [notify_waiters] calls so far. *)
Record Files := mkFiles { fs_resolve : LockPath -> option LockPath; fs_hash : LockPath -> option Z }.
Record Shared := mkShared {
  sh_state : LockState; sh_db : LockDb; sh_files : Files; sh_now : Z; sh_epoch : nat }.
Definition set_sh_state (st : LockState) (s : Shared) : Shared :=
  mkShared st (sh_db s) (sh_files s) (sh_now s) (sh_epoch s).
Definition set_sh_db (d : LockDb) (s : Shared) : Shared :=
  mkShared (sh_state s) d (sh_files s) (sh_now s) (sh_epoch s).

(** ** Programs *)

(** Why an operation fails. *)
Inductive LockError :=
| LeHeld (path : LockPath) (holder : Owner)
| LeDb
| LeCycle (edges : list (Owner * WaitingOn))
| LeTimeout (waiting_on : option WaitingOn)
| LeHeldElsewhere (path : LockPath)
| LeNotHolder (path : LockPath) (holder : Owner)
| LeWriteHeld (path : LockPath) (holder : Owner)
| LeRequiresRead (path : LockPath)
| LeStaleRead (path : LockPath)
| LeNotAcquired (path : LockPath).

(** The arguments of a waiting acquire, and whether it has announced that it waits. *)
Record WaitArgs := mkWaitArgs {
  wa_canon : LockPath; wa_agent : AgentId; wa_session : Z; wa_record_read : bool; wa_records : bool;
  wa_waiting : bool }.
Inductive Wake := WkNotified | WkCancelled | WkTimeout.

Inductive Prog (A : Type) : Type :=
| PRet (a : A)
| PSync (f : Shared -> Shared) (k : Shared -> Prog A)
| PDb (op : LockOp) (k : bool -> Prog A)
| PWait (epoch : nat) (k : Wake -> Prog A)
| PLoop (args : WaitArgs) (k : LockError + AcquireWait -> Prog A).
Arguments PRet {A} a.
Arguments PSync {A} f k.
Arguments PDb {A} op k.
Arguments PWait {A} epoch k.
Arguments PLoop {A} args k.

#[export] Instance Prog_ret : MRet Prog := @PRet.
Fixpoint prog_bind {A B} (k : A -> Prog B) (p : Prog A) : Prog B :=
  match p with
  | PRet a => k a
  | PSync f k' => PSync f (fun s => prog_bind k (k' s))
  | PDb op k' => PDb op (fun b => prog_bind k (k' b))
  | PWait n k' => PWait n (fun w => prog_bind k (k' w))
  | PLoop l k' => PLoop l (fun r => prog_bind k (k' r))
  end.
#[export] Instance Prog_bind : MBind Prog := @prog_bind.

(** One section: what it leaves and, from the state it found, how it goes on. *)
Definition sync {A} (f : Shared -> Shared * A) : Prog A := PSync (fun s => (f s).1) (fun s => PRet (f s).2).
(** A section under the state mutex. *)
Definition section {A} (f : LockState -> LockState * A) : Prog A :=
  sync (fun s => let '(st, a) := f (sh_state s) in (set_sh_state st s, a)).
Definition section_at {A} (f : Z -> LockState -> LockState * A) : Prog A :=
  sync (fun s => let '(st, a) := f (sh_now s) (sh_state s) in (set_sh_state st s, a)).
Definition update (f : LockState -> LockState) : Prog unit := section (fun st => (f st, tt)).
(** A section that also hashes files while it holds the mutex. *)
Definition section_files {A} (f : Z -> Files -> LockState -> LockState * A) : Prog A :=
  sync (fun s => let '(st, a) := f (sh_now s) (sh_files s) (sh_state s) in (set_sh_state st s, a)).
Definition dbcall (op : LockOp) : Prog bool := PDb op PRet.
Definition notify_waiters : Prog unit :=
  sync (fun s => (mkShared (sh_state s) (sh_db s) (sh_files s) (sh_now s) (S (sh_epoch s)), tt)).
(** locks/mod.rs:394-396 now_secs. *)
Definition now_secs : Prog Z := sync (fun s => (s, sh_now s)).
(** locks/mod.rs:403-420 file_hash. *)
Definition file_hash (path : LockPath) : Prog (option Z) := sync (fun s => (s, fs_hash (sh_files s) path)).
(** locks/mod.rs:290-292 canonicalize. *)
Definition canonicalize (path : LockPath) : Prog LockPath :=
  sync (fun s => (s, default path (fs_resolve (sh_files s) path))).
(** [for x in l]. *)
Fixpoint for_each {A} (l : list A) (f : A -> Prog unit) : Prog unit :=
  match l with [] => mret tt | x :: l => f x ;; for_each l f end.
(** [for x in l { f(x)? }]. *)
Fixpoint try_each {A} (l : list A) (f : A -> Prog bool) : Prog bool :=
  match l with
  | [] => mret true
  | x :: l => ok ← f x; if (ok : bool) then try_each l f else mret false
  end.

(** The order in which a map is iterated. *)
Class LockOrder := {
  lock_iter : forall A, gmap LockPath A -> list (LockPath * A);
  lock_iter_perm : forall A (m : gmap LockPath A), lock_iter A m ≡ₚ map_to_list m }.
Arguments lock_iter {_ A} m.

Section manager.
Context `{LockOrder}.

(** The paths whose holder satisfies a test. *)
Definition paths_held (f : Owner -> bool) (st : LockState) : list (LockPath * Owner) :=
  filter (fun po => f po.2 = true) (lock_iter (held st)).
Definition is_owner (o : Owner) (x : Owner) : bool := bool_decide (x = o).
Definition in_session (session : Z) (x : Owner) : bool := bool_decide (x.1 = session).

(** ** The wait graph *)

(** locks/waitgraph.rs:4-7 LockManager::clear_waiter. *)
Definition clear_waiter (waiter : Owner) : Prog unit := update (fun st => set_waiting (delete waiter (waiting st)) st).
(** locks/waitgraph.rs:9-20 LockManager::wait_context. *)
Definition wait_context (waiter : Owner) : Prog (option WaitingOn) := section (fun st => (st, waiting st !! waiter)).

(** locks/mod.rs:298-312 wait_cycle. The walk: one edge per waiter, each waiter at most once. *)
Fixpoint wait_cycle_loop (fuel : nat) (w : gmap Owner WaitingOn) (start : Owner) (seen : gset Owner)
    (current : Owner) (parts : list (Owner * WaitingOn)) : option (list (Owner * WaitingOn)) :=
  match fuel with
  | O => None
  | S fuel =>
      if bool_decide (current ∈ seen) then None else
      match w !! current with
      | None => None
      | Some edge =>
          let parts := parts ++ [(current, edge)] in
          if bool_decide (wo_holder edge = start) then Some parts
          else wait_cycle_loop fuel w start ({[current]} ∪ seen) (wo_holder edge) parts
      end
  end.
(** locks/mod.rs:294-314 wait_cycle. The fuel is one step per waiter and one more. *)
Definition wait_cycle (st : LockState) (start : Owner) : option (list (Owner * WaitingOn)) :=
  wait_cycle_loop (S (size (waiting st))) (waiting st) start ∅ start [].

(** locks/waitgraph.rs:22-42 LockManager::record_wait_or_cycle. *)
Definition record_wait_or_cycle (waiter : Owner) (path : LockPath) (holder : Owner) : Prog (option LockError) :=
  section (fun st =>
    let st := set_waiting (<[waiter := mkWaitingOn path holder.1 holder.2]> (waiting st)) st in
    match wait_cycle st waiter with
    | Some cycle => (set_waiting (delete waiter (waiting st)) st, Some (LeCycle cycle))
    | None => (st, None)
    end).

(** ** Acquiring *)

(** The handle: [records] is its [records_lock_reads]. *)

(** locks/acquire.rs:90-159 LockManager::try_acquire. *)
Definition try_acquire (records : bool) (canon : LockPath) (agent : AgentId) (session : Z) (record_read : bool)
    : Prog (LockError + option Owner) :=
  let record_read := record_read && records in
  let me := (session, agent) in
  read_hash ← (if record_read then file_hash canon else mret None);
  taken ← section_at (fun now st =>
    match held st !! canon with
    | Some o => if bool_decide (o = me) then (st, inl None) else (st, inl (Some o))
    | None =>
        let st := hold canon me now st in
        ((if record_read then note_in me canon read_hash st else st), inr (bool_decide (canon ∈ forced_released st)))
    end);
  match taken with
  | inl holder => mret (inr holder)
  | inr was_forced_released =>
      ok ← dbcall
        (if record_read && was_forced_released then lock_force_acquire_with_read canon agent session read_hash else
         if was_forced_released then lock_force_acquire canon agent session else
         if record_read then lock_acquire_with_read canon agent session read_hash else
         lock_acquire canon agent session);
      if (ok : bool) then
        update (fun st => set_forced_released (forced_released st ∖ {[canon]}) st) ;; mret (inr None)
      else
        update (fun st => let st := unhold_if canon me st in if record_read then drop_read me canon st else st) ;;
        mret (inl LeDb)
  end.

(** locks/acquire.rs:71-81 LockManager::acquire. *)
Definition acquire (records : bool) (path : LockPath) (agent : AgentId) (session : Z) : Prog (option LockError) :=
  canon ← canonicalize path;
  r ← try_acquire records canon agent session true;
  mret match r with
       | inl e => Some e
       | inr (Some holder) => Some (LeHeld canon holder)
       | inr None => None
       end.

(** locks/acquire.rs:240-300 LockManager::acquire_wait_inner. One turn of the loop: registered for the next wake-up before the
    holder is looked at again. *)
Definition acquire_wait_turn (l : WaitArgs) : Prog (LockError + AcquireWait) :=
  let waiter := (wa_session l, wa_agent l) in
  epoch ← sync (fun s => (s, sh_epoch s));
  r ← try_acquire (wa_records l) (wa_canon l) (wa_agent l) (wa_session l) (wa_record_read l);
  match r with
  | inl e => clear_waiter waiter ;; mret (inl e)
  | inr None => clear_waiter waiter ;; mret (inr Acquired)
  | inr (Some holder) =>
      cycle ← record_wait_or_cycle waiter (wa_canon l) holder;
      match cycle with
      | Some e => mret (inl e)
      | None =>
          (if wa_waiting l then mret tt else section (fun st => (st, tt))) ;;
          PWait epoch (fun wake =>
            match wake with
            | WkCancelled => clear_waiter waiter ;; mret (inr AcqCancelled)
            | WkTimeout => context ← wait_context waiter; clear_waiter waiter ;; mret (inl (LeTimeout context))
            | WkNotified => PLoop (mkWaitArgs (wa_canon l) (wa_agent l) (wa_session l) (wa_record_read l) (wa_records l) true) PRet
            end)
      end
  end.
(** locks/acquire.rs:215-301 LockManager::acquire_wait_inner. *)
Definition acquire_wait_inner (records : bool) (path : LockPath) (agent : AgentId) (session : Z) (record_read : bool)
    : Prog (LockError + AcquireWait) :=
  canon ← canonicalize path;
  r ← try_acquire records canon agent session record_read;
  match r with
  | inl e => mret (inl e)
  | inr None => clear_waiter (session, agent) ;; mret (inr Acquired)
  | inr (Some _) => PLoop (mkWaitArgs canon agent session record_read records false) PRet
  end.
(** locks/acquire.rs:181-194 LockManager::acquire_wait. *)
Definition acquire_wait (records : bool) (path : LockPath) (agent : AgentId) (session : Z) :=
  acquire_wait_inner records path agent session true.
(** locks/acquire.rs:200-213 LockManager::acquire_wait_without_read. *)
Definition acquire_wait_without_read (records : bool) (path : LockPath) (agent : AgentId) (session : Z) :=
  acquire_wait_inner records path agent session false.

(** ** Liveness *)

(** locks/acquire.rs:308-328 LockManager::touch_holder. *)
Definition touch_holder (agent : AgentId) (session : Z) : Prog unit :=
  now ← now_secs;
  paths ← section (fun st =>
    let paths := (paths_held (is_owner (session, agent)) st).*1 in
    (set_held (held st) (foldl (fun t p => <[p := now]> t) (touched st) paths) st, paths));
  for_each paths (fun p => dbcall (lock_touch p agent session now) ;; mret tt).

(** locks/acquire.rs:399-399 LockManager::sweep_expired_with_hook. Idle past the cutoff; a lock without a timestamp counts as just touched. *)
Definition is_idle (st : LockState) (now cutoff : Z) (p : LockPath) : bool :=
  default now (touched st !! p) <=? cutoff.
(** locks/acquire.rs:386-422 LockManager::sweep_expired_with_hook. What the second look of the sweep does with one lock it has released on disk. *)
Definition sweep_one (now cutoff : Z) (po : LockPath * Owner)
    (acc : LockState * list LockPath * list (LockPath * Owner * option (option Z)))
    : LockState * list LockPath * list (LockPath * Owner * option (option Z)) :=
  let '(st, reclaimed, to_restore) := acc in
  let '(p, o) := po in
  if negb (holds st p o) then acc else
  if negb (is_idle st now cutoff p) then (st, reclaimed, to_restore ++ [(p, o, read_of st o p)]) else
  (forget_read o p (unhold p st), reclaimed ++ [p], to_restore).
(** locks/acquire.rs:339-451 LockManager::sweep_expired. With the body of [sweep_expired_with_hook], whose hook is a test's. *)
Definition sweep_expired (now : Z) : Prog (LockError + list LockPath) :=
  let cutoff := now - LOCK_IDLE_TIMEOUT in
  reclaimed ← section (fun st => (st, filter (fun po => is_idle st now cutoff po.1 = true) (lock_iter (held st))));
  if bool_decide (reclaimed = []) then mret (inr []) else
  ok ← dbcall (lock_release_and_delete_reads reclaimed);
  if negb ok then mret (inl LeDb) else
  out ← section (fun st =>
    let '(st, gone, to_restore) := foldl (fun acc po => sweep_one now cutoff po acc) (st, [], []) reclaimed in
    (st, (gone, to_restore)));
  for_each out.2 (fun x =>
    let '(p, o, read_grant) := x in
    dbcall (match read_grant with
            | Some read_hash => lock_acquire_with_read p o.2 o.1 read_hash
            | None => lock_acquire p o.2 o.1
            end) ;; mret tt) ;;
  (if bool_decide (out.1 = []) then mret tt else notify_waiters) ;;
  mret (inr out.1).

(** ** Releasing *)

(** locks/acquire.rs:455-492 LockManager::release. *)
Definition release (path : LockPath) (agent : AgentId) (session : Z) : Prog (option LockError) :=
  canon ← canonicalize path;
  let me := (session, agent) in
  seen ← section (fun st => (st, held st !! canon));
  match seen with
  | None => mret None
  | Some o =>
      if bool_decide (o = me) then
        ok ← dbcall (lock_release canon agent session);
        if negb ok then mret (Some LeDb) else
        update (fun st => let st := unhold_if canon me st in set_forced_released (forced_released st ∖ {[canon]}) st) ;;
        notify_waiters ;; mret None
      else if bool_decide (o.2 = agent) then mret (Some (LeHeldElsewhere canon))
      else mret (Some (LeNotHolder canon o))
  end.
(** locks/acquire.rs:497-530 LockManager::release_and_drop_read. *)
Definition release_and_drop_read (path : LockPath) (agent : AgentId) (session : Z) : Prog (option LockError) :=
  canon ← canonicalize path;
  let me := (session, agent) in
  ok ← dbcall (lock_release_and_delete_reads [(canon, me)]);
  if negb ok then mret (Some LeDb) else
  released ← section (fun st =>
    let released := holds st canon me in
    let st := drop_read me canon (unhold_if canon me st) in
    (set_forced_released (forced_released st ∖ {[canon]}) st, released));
  (if (released : bool) then notify_waiters else mret tt) ;; mret None.
(** locks/acquire.rs:542-578 LockManager::release_force_memory. *)
Definition release_force_memory (path : LockPath) (agent : AgentId) (session : Z) : Prog bool :=
  canon ← canonicalize path;
  let me := (session, agent) in
  mine ← section (fun st => (st, holds st canon me));
  if negb mine then mret true else
  persist_ok ← dbcall (lock_release canon agent session);
  update (fun st =>
    let st := unhold_if canon me st in
    set_forced_released (if (persist_ok : bool) then forced_released st ∖ {[canon]} else {[canon]} ∪ forced_released st) st) ;;
  notify_waiters ;; mret persist_ok.

(** ** Read and authorship records *)

(** locks/acquire.rs:587-609 LockManager::note_read. *)
Definition note_read (records : bool) (path : LockPath) (agent : AgentId) (session : Z) : Prog unit :=
  if negb records then mret tt else
  canon ← canonicalize path;
  read_hash ← file_hash canon;
  ok ← dbcall (lock_note_read canon agent session read_hash);
  if negb ok then mret tt else update (note_in (session, agent) canon read_hash).
(** locks/acquire.rs:614-623 LockManager::has_read. *)
Definition has_read (path : LockPath) (agent : AgentId) (session : Z) : Prog bool :=
  canon ← canonicalize path;
  section (fun st => (st, bool_decide (is_Some (read_of st (session, agent) canon)))).
(** locks/acquire.rs:638-652 LockManager::note_authored. *)
Definition note_authored (records : bool) (path : LockPath) (agent : AgentId) (session : Z) : Prog unit :=
  if negb records then mret tt else
  canon ← canonicalize path;
  h ← file_hash canon;
  match h with
  | None => mret tt
  | Some authored_hash =>
      update (fun st => set_authored_tracker
        (<[(session, agent) := <[canon := authored_hash]> (default ∅ (authored_tracker st !! (session, agent)))]>
           (authored_tracker st)) st)
  end.
(** locks/acquire.rs:656-661 LockManager::holder. *)
Definition holder (path : LockPath) : Prog (option Owner) :=
  canon ← canonicalize path; section (fun st => (st, held st !! canon)).

(** ** Guards *)

(** locks/mod.rs:342-350 WriteGuard. *)
Record WriteGuard := mkWriteGuard {
  wg_path : LockPath; wg_agent : AgentId; wg_session : Z; wg_acquired_by_guard : bool; wg_active : bool }.
(** locks/mod.rs:316-323 TransientLockGuard. *)
Record TransientLockGuard := mkTransient {
  tg_path : LockPath; tg_agent : AgentId; tg_session : Z; tg_active : bool }.

(** locks/acquire.rs:728-741 LockManager::begin_write. The freshness check of a write: a recorded hash that the file still has. *)
Definition fresh_read (files : Files) (canon : LockPath) (record : option (option Z)) : option LockError :=
  match record with
  | None => Some (LeRequiresRead canon)
  | Some (Some expected) =>
      if bool_decide (fs_hash files canon = Some expected) then None else Some (LeStaleRead canon)
  | Some None => Some (LeStaleRead canon)
  end.

(** locks/acquire.rs:703-774 LockManager::begin_write. *)
Definition begin_write (path : LockPath) (agent : AgentId) (session : Z) : Prog (LockError + WriteGuard) :=
  canon ← canonicalize path;
  let me := (session, agent) in
  r ← section_files (fun now files st =>
    match held st !! canon with
    | Some o => if bool_decide (o = me) then (st, inr false) else (st, inl (LeWriteHeld canon o))
    | None =>
        match fresh_read files canon (read_of st me canon) with
        | Some e => (st, inl e)
        | None => (hold canon me now st, inr true)
        end
    end);
  match r with
  | inl e => mret (inl e)
  | inr acquired_by_guard =>
      ok ← (if (acquired_by_guard : bool) then dbcall (lock_acquire canon agent session) else mret true);
      if negb ok then update (unhold_if canon me) ;; mret (inl LeDb)
      else mret (inr (mkWriteGuard canon agent session acquired_by_guard true))
  end.

(** locks/acquire.rs:827-909 LockManager::begin_guard_after_wait. *)
Definition begin_guard_after_wait (path : LockPath) (agent : AgentId) (session : Z)
    (acquired_by_wait require_fresh_read accept_authored_content : bool) : Prog (LockError + WriteGuard) :=
  canon ← canonicalize path;
  let me := (session, agent) in
  result ← section_files (fun _ files st => (st,
    match held st !! canon with
    | Some o =>
        if bool_decide (o = me) then
          if (require_fresh_read : bool) then
            match read_of st me canon with
            | None =>
                let authored_fresh := accept_authored_content &&
                  match authored_tracker st !! me ≫= (.!! canon) with
                  | Some expected => bool_decide (fs_hash files canon = Some expected)
                  | None => false
                  end in
                if (authored_fresh : bool) then None else Some (LeRequiresRead canon)
            | record => fresh_read files canon record
            end
          else None
        else Some (LeWriteHeld canon o)
    | None => Some (LeNotAcquired canon)
    end));
  match result with
  | Some e =>
      (if (acquired_by_wait : bool) then release_force_memory canon agent session ;; mret tt else mret tt) ;; mret (inl e)
  | None => mret (inr (mkWriteGuard canon agent session acquired_by_wait true))
  end.
(** locks/acquire.rs:780-799 LockManager::begin_write_after_wait. *)
Definition begin_write_after_wait (path : LockPath) (agent : AgentId) (session : Z)
    (acquired_by_wait require_fresh_read : bool) :=
  begin_guard_after_wait path agent session acquired_by_wait require_fresh_read false.
(** locks/acquire.rs:807-825 LockManager::begin_anchored_edit_after_wait. *)
Definition begin_anchored_edit_after_wait (path : LockPath) (agent : AgentId) (session : Z) (acquired_by_wait : bool) :=
  begin_guard_after_wait path agent session acquired_by_wait true true.

(** locks/acquire.rs:915-943 LockManager::acquire_transient. The nil session is 0. *)
Definition acquire_transient (path : LockPath) (agent : AgentId) : Prog (LockError + TransientLockGuard) :=
  canon ← canonicalize path;
  let me := (0, agent) in
  section_at (fun now st =>
    match held st !! canon with
    | Some o =>
        if bool_decide (o = me) then (st, inr (mkTransient canon agent 0 true)) else (st, inl (LeHeld canon o))
    | None => (hold canon me now st, inr (mkTransient canon agent 0 true))
    end).
(** locks/acquire.rs:953-986 LockManager::check_write_permitted_for_tool. *)
Definition check_write_permitted (path : LockPath) (agent : AgentId) (session : Z) : Prog (option LockError) :=
  canon ← canonicalize path;
  section_files (fun _ files st => (st,
    match held st !! canon with
    | Some o => if bool_decide (o = (session, agent)) then None else Some (LeWriteHeld canon o)
    | None => fresh_read files canon (read_of st (session, agent) canon)
    end)).

(** locks/mod.rs:159-176 LockManager::release_abandoned_write_guard_memory. *)
Definition release_abandoned_write_guard_memory (path : LockPath) (agent : AgentId) (session : Z) : Prog bool :=
  canon ← canonicalize path;
  let me := (session, agent) in
  released ← section (fun st =>
    if negb (holds st canon me) then (st, false) else
    let st := unhold canon st in
    (set_forced_released ({[canon]} ∪ forced_released st) st, true));
  (if (released : bool) then notify_waiters else mret tt) ;; mret released.
(** locks/mod.rs:178-197 LockManager::persist_abandoned_write_guard_release. *)
Definition persist_abandoned_write_guard_release (path : LockPath) (agent : AgentId) (session : Z) : Prog unit :=
  ok ← dbcall (lock_release path agent session);
  if (ok : bool) then update (fun st => set_forced_released (forced_released st ∖ {[path]}) st) else mret tt.
(** locks/mod.rs:210-214 LockManager::abandon_held_paths. The releases, collecting what to persist. *)
Fixpoint abandon_each (canonical : bool) (paths : list LockPath) (agent : AgentId) (session : Z) : Prog (list LockPath) :=
  match paths with
  | [] => mret []
  | path :: rest =>
      released ← release_abandoned_write_guard_memory path agent session;
      recorded ← (if (canonical : bool) then canonicalize path else mret path);
      more ← abandon_each canonical rest agent session;
      mret (if (released : bool) then recorded :: more else more)
  end.
(** locks/mod.rs:203-252 LockManager::abandon_held_paths. [runtime] is whether a runtime is there to
    persist the releases; the persisting task is the rest of the program. *)
Definition abandon_held_paths (runtime : bool) (paths : list LockPath) (agent : AgentId) (session : Z) : Prog unit :=
  first ← abandon_each true paths agent session;
  extras ← section (fun st => (st, (paths_held (is_owner (session, agent)) st).*1));
  second ← abandon_each false extras agent session;
  let to_persist := first ++ second in
  if bool_decide (to_persist = []) || negb runtime then mret tt else
  for_each to_persist (fun p => persist_abandoned_write_guard_release p agent session).

(** locks/mod.rs:353-362 WriteGuard::release_after_write. *)
Definition release_after_write (g : WriteGuard) : Prog bool :=
  if wg_acquired_by_guard g then release_force_memory (wg_path g) (wg_agent g) (wg_session g) else mret true.
(** locks/mod.rs:365-391 WriteGuard. Its [Drop]; the persisting task is the rest of the program. *)
Definition write_guard_drop (runtime : bool) (g : WriteGuard) : Prog unit :=
  if negb (wg_active g) || negb (wg_acquired_by_guard g) then mret tt else
  released ← release_abandoned_write_guard_memory (wg_path g) (wg_agent g) (wg_session g);
  if negb released || negb runtime then mret tt else
  persist_abandoned_write_guard_release (wg_path g) (wg_agent g) (wg_session g).
(** locks/mod.rs:325-340 TransientLockGuard. Its [Drop]. *)
Definition transient_guard_drop (g : TransientLockGuard) : Prog unit :=
  if negb (tg_active g) then mret tt else
  update (unhold_if (tg_path g) (tg_session g, tg_agent g)) ;; notify_waiters.

(** ** Suspension *)

(** locks/suspension.rs:31-39 LockManager::suspend_agent. The hashes of the paths that can be read, path by path. *)
Fixpoint hash_each {A} (l : list (LockPath * A)) : Prog (list (LockPath * (A * option Z))) :=
  match l with
  | [] => mret []
  | (p, x) :: l => h ← file_hash p; rest ← hash_each l; mret ((p, (x, h)) :: rest)
  end.
Definition snapshot_of {A} (l : list (LockPath * (A * option Z))) : gmap LockPath (A * Z) :=
  list_to_map (omap (fun e => h ← e.2.2; Some (e.1, (e.2.1, h))) l).

(** locks/suspension.rs:15-59 LockManager::suspend_agent. *)
Definition suspend_agent (agent : AgentId) (session : Z) : Prog (LockError + list LockPath) :=
  let key := (session, agent) in
  to_release ← section (fun st => (st, paths_held (is_owner key) st));
  if bool_decide (to_release = []) then mret (inr []) else
  hashes ← hash_each to_release;
  ok ← try_each to_release (fun po => dbcall (lock_release po.1 agent session));
  if negb ok then mret (inl LeDb) else
  update (fun st =>
    let st := foldl (fun st po => unhold po.1 st) st to_release in
    set_suspended (<[key := snd <$> snapshot_of hashes]> (suspended st)) st) ;;
  notify_waiters ;; mret (inr to_release.*1).

(** locks/suspension.rs:81-96 LockManager::resume_agent. The first loop of a resume: unchanged paths, and changed ones whose read record is dropped. *)
Fixpoint split_drifted {A} (key_of : A -> Owner) (l : list (LockPath * (A * Z)))
    : Prog (list (LockPath * A) * list (LockPath * A)) :=
  match l with
  | [] => mret ([], [])
  | (p, (x, expected)) :: l =>
      h ← file_hash p;
      if bool_decide (h = Some expected) then
        rest ← split_drifted key_of l; mret ((p, x) :: rest.1, rest.2)
      else
        update (forget_read (key_of x) p) ;;
        rest ← split_drifted key_of l; mret (rest.1, (p, x) :: rest.2)
  end.
(** locks/suspension.rs:98-113 LockManager::resume_agent. Take back the free paths; [on_taken] is what happens to a path someone else took. *)
Definition take_back {A} (key_of : A -> Owner) (on_taken : LockPath -> A -> LockState -> LockState) (now : Z)
    (l : list (LockPath * A)) (st : LockState) : LockState * (list (LockPath * A) * list (LockPath * A)) :=
  foldl (fun acc px =>
    let '(st, (back, taken)) := acc in
    match held st !! px.1 with
    | Some _ => (on_taken px.1 px.2 st, (back, taken ++ [px]))
    | None => (hold px.1 (key_of px.2) now st, (back ++ [px], taken))
    end) (st, ([], [])) l.

(** locks/suspension.rs:68-132 LockManager::resume_agent. *)
Definition resume_agent (agent : AgentId) (session : Z) : Prog (LockError + list LockPath) :=
  let key := (session, agent) in
  snapshot ← section (fun st => (set_suspended (delete key (suspended st)) st, suspended st !! key));
  match snapshot with
  | None => mret (inr [])
  | Some snapshot =>
      parts ← split_drifted (fun _ => key) ((fun ph => (ph.1, (tt, ph.2))) <$> lock_iter snapshot);
      back ← section_at (fun now st =>
        let '(st, (back, _)) := take_back (fun _ => key) (fun _ _ st => st) now parts.1 st in (st, back));
      ok ← try_each back (fun px => dbcall (lock_acquire px.1 agent session));
      if negb ok then mret (inl LeDb) else
      ok ← try_each parts.2 (fun px => dbcall (lock_delete_read px.1 agent session));
      if negb ok then mret (inl LeDb) else mret (inr back.*1)
  end.

(** locks/suspension.rs:177-183 LockManager::transfer_agent_locks. The records of one owner moved into another's, over the other's own. *)
Definition move_records {B} (from to : Owner) (m : gmap Owner (gmap LockPath B)) : gmap Owner (gmap LockPath B) :=
  match m !! from with
  | Some records => let m := delete from m in <[to := records ∪ default ∅ (m !! to)]> m
  | None => m
  end.
(** locks/suspension.rs:138-194 LockManager::transfer_agent_locks. *)
Definition transfer_agent_locks (from_agent to_agent : AgentId) (session : Z) : Prog (LockError + list LockPath) :=
  if bool_decide (from_agent = to_agent) then mret (inr []) else
  let from := (session, from_agent) in
  let to := (session, to_agent) in
  transferred ← section (fun st => (st, (paths_held (is_owner from) st).*1));
  if bool_decide (transferred = []) then mret (inr []) else
  ok ← dbcall (lock_transfer_agent session from_agent to_agent);
  if negb ok then mret (inl LeDb) else
  update (fun st =>
    let st := foldl (fun st p => if holds st p from then set_held (<[p := to]> (held st)) (touched st) st else st)
                st transferred in
    let st := set_read_tracker (move_records from to (read_tracker st)) st in
    set_authored_tracker (move_records from to (authored_tracker st)) st) ;;
  mret (inr transferred).

(** locks/suspension.rs:209-252 LockManager::suspend_session. *)
Definition suspend_session (session : Z) : Prog (LockError + list LockPath) :=
  to_release ← section (fun st => (st, (fun po => (po.1, po.2.2)) <$> paths_held (in_session session) st));
  if bool_decide (to_release = []) then mret (inr []) else
  hashes ← hash_each to_release;
  ok ← try_each to_release (fun pa => dbcall (lock_release pa.1 pa.2 session));
  if negb ok then mret (inl LeDb) else
  update (fun st =>
    let st := foldl (fun st pa => unhold pa.1 st) st to_release in
    set_session_released (<[session := snapshot_of hashes]> (session_released st)) st) ;;
  notify_waiters ;; mret (inr to_release.*1).

(** locks/suspension.rs:258-281 LockManager::end_session. *)
Definition end_session (session : Z) : Prog (option LockError) :=
  ok ← dbcall (lock_cleanup_session session);
  if negb ok then mret (Some LeDb) else
  released_any ← section (fun st =>
    let held' := filter (fun po => po.2.1 <> session) (held st) in
    let touched' := filter (fun pt => is_Some (held' !! pt.1)) (touched st) in
    let st' := set_held held' touched' st in
    let st' := set_read_tracker (filter (fun kv => kv.1.1 <> session) (read_tracker st')) st' in
    let st' := set_authored_tracker (filter (fun kv => kv.1.1 <> session) (authored_tracker st')) st' in
    let st' := set_suspended (filter (fun kv => kv.1.1 <> session) (suspended st')) st' in
    let st' := set_session_released (delete session (session_released st')) st' in
    (st', negb (bool_decide (size held' = size (held st)))));
  (if (released_any : bool) then notify_waiters else mret tt) ;; mret None.

(** locks/suspension.rs:296-367 LockManager::resume_session. *)
Definition resume_session (session : Z) : Prog (LockError + list LockPath) :=
  snapshot ← section (fun st => (set_session_released (delete session (session_released st)) st, session_released st !! session));
  match snapshot with
  | None => mret (inr [])
  | Some snapshot =>
      let key_of := fun agent : AgentId => (session, agent) in
      parts ← split_drifted key_of (lock_iter snapshot);
      out ← section_at (fun now st =>
        let '(st, (back, taken)) := take_back key_of (fun p agent st => forget_read (key_of agent) p st) now parts.1 st in
        (st, (back, taken)));
      ok ← try_each out.1 (fun pa => dbcall (lock_acquire pa.1 pa.2 session));
      if negb ok then mret (inl LeDb) else
      ok ← try_each (parts.2 ++ out.2) (fun pa => dbcall (lock_delete_read pa.1 pa.2 session));
      if negb ok then mret (inl LeDb) else mret (inr out.1.*1)
  end.
End manager.

(** ** Startup *)

(** locks/acquire.rs:6-33 LockManager::from_db. The state part of the manager. *)
Definition from_db (d : LockDb) : LockState :=
  let st := foldl (fun st row => hold row.1 (row_owner row.2) (lr_acquired_at row.2) st) empty_state (list_held_locks d) in
  foldl (fun st row => note_in row.1.1 row.1.2 row.2 st) st (list_lock_reads d).
