(* ===== verification/LocksSystem.v ===== *)
(** The file-lock manager as a concurrent system.

    [prog_step] runs one section, database statement or wake-up of a method; [sys_step]
    interleaves any number of method calls, drops a call at any await, lets the
    filesystem, the clock and the session rows change, and restarts the daemon.  The
    abstract lock machine ([Act], [apply_act]) has one guarded action per change of the
    manager's memory: each method performs only the actions of its owner
    ([call_refines]), whatever runs in between. *)

From S2P Require Import Prelude.
From S2P Require Import LocksDb.
From S2P Require Import Locks.
From stdpp Require Import options.
Set Warnings "-clear-no-such-hyp".

(** ** Steps of a program *)

Inductive prog_step {A} : Shared -> Prog A -> Shared -> Prog A -> Prop :=
| ps_sync s f k : prog_step s (PSync f k) (f s) (k s)
| ps_db_ok s (op : LockOp) k d :
    op (sh_now s) (sh_db s) = Some d -> prog_step s (PDb op k) (set_sh_db d s) (k true)
| ps_db_err s op k : prog_step s (PDb op k) s (k false)
| ps_notified s n k : (n < sh_epoch s)%nat -> prog_step s (PWait n k) s (k WkNotified)
| ps_cancelled s n k : prog_step s (PWait n k) s (k WkCancelled)
| ps_timeout s n k : prog_step s (PWait n k) s (k WkTimeout)
| ps_loop s l k : prog_step s (PLoop l k) s (prog_bind k (acquire_wait_turn l)).

(** ** The abstract lock machine *)

Inductive Act :=
| ATake (o : Owner) (p : LockPath) (now : Z)
| AGive (o : Owner) (p : LockPath)
| ATouch (o : Owner) (p : LockPath) (now : Z)
| AReads (o : Owner) (m : option (gmap LockPath (option Z)))
| AAuthored (o : Owner) (m : option (gmap LockPath Z))
| ASuspended (o : Owner) (m : option (gmap LockPath Z))
| AWait (o : Owner) (e : WaitingOn)
| AUnwait (o : Owner)
| AForced (f : gset LockPath)
| ASessionReleased (session : Z) (m : option (gmap LockPath (AgentId * Z)))
| AMove (from to : Owner) (p : LockPath)
| ASeize (p : LockPath)
| AEnd (session : Z).

(** The state part of [end_session]. *)
Definition end_state (session : Z) (st : LockState) : LockState :=
  let held' := filter (fun po => po.2.1 <> session) (held st) in
  let touched' := filter (fun pt => is_Some (held' !! pt.1)) (touched st) in
  mkLockState held' touched'
    (filter (fun kv => kv.1.1 <> session) (read_tracker st))
    (filter (fun kv => kv.1.1 <> session) (authored_tracker st))
    (forced_released st)
    (filter (fun kv => kv.1.1 <> session) (suspended st))
    (delete session (session_released st)) (waiting st).

(** An action and its guard: a free path is taken, a holder gives its own path back, a wait is
    recorded only when it closes no cycle. *)
Definition apply_act (a : Act) (st : LockState) : option LockState :=
  match a with
  | ATake o p now => if held st !! p is None then Some (hold p o now st) else None
  | AGive o p => if holds st p o then Some (unhold p st) else None
  | ATouch o p now => if holds st p o then Some (set_held (held st) (<[p := now]> (touched st)) st) else None
  | AReads o m => Some (set_read_tracker (partial_alter (fun _ => m) o (read_tracker st)) st)
  | AAuthored o m => Some (set_authored_tracker (partial_alter (fun _ => m) o (authored_tracker st)) st)
  | ASuspended o m => Some (set_suspended (partial_alter (fun _ => m) o (suspended st)) st)
  | AWait o e =>
      let st := set_waiting (<[o := e]> (waiting st)) st in
      if wait_cycle st o is None then Some st else None
  | AUnwait o => Some (set_waiting (delete o (waiting st)) st)
  | AForced f => Some (set_forced_released f st)
  | ASessionReleased session m => Some (set_session_released (partial_alter (fun _ => m) session (session_released st)) st)
  | AMove from to p => if holds st p from then Some (set_held (<[p := to]> (held st)) (touched st) st) else None
  | ASeize p => Some (unhold p st)
  | AEnd session => Some (end_state session st)
  end.

(** The state is reached by some actions out of a set. *)
Definition acts (ok : Act -> Prop) : LockState -> LockState -> Prop :=
  rtc (fun st st' => exists a, ok a /\ apply_act a st = Some st').

(** ** What every section of a program does *)

(** [guar Q L p]: every section of [p], whatever state it finds, relates it to what it leaves
    by [Q], and every wait loop it enters satisfies [L]. *)
Fixpoint guar (Q : LockState -> LockState -> Prop) (L : WaitArgs -> Prop) {A} (p : Prog A) : Prop :=
  match p with
  | PRet _ => True
  | PSync f k => forall s, Q (sh_state s) (sh_state (f s)) /\ guar Q L (k s)
  | PDb _ k => forall b, guar Q L (k b)
  | PWait _ k => forall w, guar Q L (k w)
  | PLoop l k => L l /\ forall r, guar Q L (k r)
  end.

Section guarantees.
Context (Q : LockState -> LockState -> Prop) `{!Reflexive Q} (L : WaitArgs -> Prop).

Lemma guar_bind {A B} (p : Prog A) (k : A -> Prog B) :
  guar Q L p -> (forall a, guar Q L (k a)) -> guar Q L (p ≫= k).
Proof using Type.
  intros Hp Hk. unfold mbind, Prog_bind. induction p as [a|f k' IH|op k' IH|n k' IH|l k' IH]; cbn in *.
  - apply Hk.
  - intros s. destruct (Hp s) as [HQ Hg]. split; [exact HQ|]. apply IH, Hg.
  - intros b. apply IH, Hp.
  - intros w. apply IH, Hp.
  - destruct Hp as [HL Hp]. split; [exact HL|]. intros r. apply IH, Hp.
Qed.
Lemma guar_ret {A} (a : A) : guar Q L (mret a).
Proof using Type. exact I. Qed.
Lemma guar_section {A} (f : LockState -> LockState * A) :
  (forall st, Q st (f st).1) -> guar Q L (section f).
Proof using Type.
  intros Hf s. split; [|exact I]. specialize (Hf (sh_state s)). cbn. destruct (f (sh_state s)). exact Hf.
Qed.
Lemma guar_section_at {A} (f : Z -> LockState -> LockState * A) :
  (forall now st, Q st (f now st).1) -> guar Q L (section_at f).
Proof using Type.
  intros Hf s. split; [|exact I]. specialize (Hf (sh_now s) (sh_state s)). cbn.
  destruct (f (sh_now s) (sh_state s)). exact Hf.
Qed.
Lemma guar_section_files {A} (f : Z -> Files -> LockState -> LockState * A) :
  (forall now files st, Q st (f now files st).1) -> guar Q L (section_files f).
Proof using Type.
  intros Hf s. split; [|exact I]. specialize (Hf (sh_now s) (sh_files s) (sh_state s)). cbn.
  destruct (f (sh_now s) (sh_files s) (sh_state s)). exact Hf.
Qed.
Lemma guar_update (f : LockState -> LockState) : (forall st, Q st (f st)) -> guar Q L (update f).
Proof using Type. intros Hf. apply guar_section. intros st. apply Hf. Qed.
Lemma guar_look {A} (f : LockState -> A) : guar Q L (section (fun st => (st, f st))).
Proof using All. apply guar_section. intros st. reflexivity. Qed.
Lemma guar_dbcall op : guar Q L (dbcall op).
Proof using Type. intros b. exact I. Qed.
Lemma guar_notify : guar Q L notify_waiters.
Proof using All. intros s. split; [reflexivity|exact I]. Qed.
Lemma guar_now : guar Q L now_secs.
Proof using All. intros s. split; [reflexivity|exact I]. Qed.
Lemma guar_file_hash p : guar Q L (file_hash p).
Proof using All. intros s. split; [reflexivity|exact I]. Qed.
Lemma guar_canonicalize p : guar Q L (canonicalize p).
Proof using All. intros s. split; [reflexivity|exact I]. Qed.
Lemma guar_epoch : guar Q L (sync (fun s => (s, sh_epoch s))).
Proof using All. intros s. split; [reflexivity|exact I]. Qed.
Lemma guar_wait {A} n (k : Wake -> Prog A) : (forall w, guar Q L (k w)) -> guar Q L (PWait n k).
Proof using Type. intros Hk. exact Hk. Qed.
Lemma guar_loop l : L l -> guar Q L (PLoop l PRet).
Proof using Type. intros HL. split; [exact HL|]. intros r. exact I. Qed.
Lemma guar_for_each {A} (l : list A) f : (forall x, guar Q L (f x)) -> guar Q L (for_each l f).
Proof using Type.
  intros Hf. induction l as [|x l IH]; [exact I|]. cbn [for_each]. apply guar_bind; [apply Hf|]. intros _. exact IH.
Qed.
Lemma guar_try_each {A} (l : list A) f : (forall x, guar Q L (f x)) -> guar Q L (try_each l f).
Proof using Type.
  intros Hf. induction l as [|x l IH]; [exact I|]. cbn [try_each]. apply guar_bind; [apply Hf|].
  intros [|]; [exact IH|exact I].
Qed.

(** A step of a program keeps its guarantee and respects it. *)
Lemma guar_step {A} s (p : Prog A) s' p' :
  (forall l, L l -> guar Q L (acquire_wait_turn l)) ->
  prog_step s p s' p' -> guar Q L p -> Q (sh_state s) (sh_state s') /\ guar Q L p'.
Proof using All.
  intros Hturn Hstep Hp. destruct Hstep; cbn in Hp; try (split; [reflexivity|apply Hp]).
  - apply Hp.
  - split; [reflexivity|]. destruct Hp as [HL Hp]. apply (guar_bind _ _ (Hturn _ HL) Hp).
Qed.
End guarantees.

(** ** Sections as actions *)

(** The actions on an owner's own locks and records. *)
Definition act_of (o : Owner) (a : Act) : Prop :=
  match a with
  | ATake o' _ _ | AGive o' _ | ATouch o' _ _ | AReads o' _ | AAuthored o' _ | ASuspended o' _ | AWait o' _
  | AUnwait o' => o' = o
  | AForced _ => True
  | _ => False
  end.
Definition may (ok : Act -> Prop) (o : Owner) : Prop := forall a, act_of o a -> ok a.
Definition may_wait (ok : Act -> Prop) (l : WaitArgs) : Prop := may ok (wa_session l, wa_agent l).

Section acts.
Context (ok : Act -> Prop).

#[export] Instance acts_preorder : PreOrder (acts ok).
Proof using Type. unfold acts. apply _. Qed.
Lemma act1 a st st' : ok a -> apply_act a st = Some st' -> acts ok st st'.
Proof using Type. intros Hok Ha. apply rtc_once. by exists a. Qed.
Lemma acts_then a st st' : ok a -> acts ok st st' -> forall st'', apply_act a st' = Some st'' -> acts ok st st''.
Proof using Type. intros Hok Hs st'' Ha. etrans; [exact Hs|]. by apply (act1 a). Qed.
Lemma acts_foldl {X} (f : LockState -> X -> LockState) l st :
  (forall st x, x ∈ l -> acts ok st (f st x)) -> acts ok st (foldl f st l).
Proof using Type.
  revert st. induction l as [|x l IH]; intros st Hf; cbn; [reflexivity|].
  etrans; [apply Hf; left|]. apply IH. intros st' y Hy. apply Hf. by right.
Qed.

Context (o : Owner) (Ho : may ok o).

Lemma acts_hold p now st : held st !! p = None -> acts ok st (hold p o now st).
Proof using Ho. intros Hp. apply (act1 (ATake o p now)); [by apply Ho|]. cbn. by rewrite Hp. Qed.
Lemma acts_unhold_if p st : acts ok st (unhold_if p o st).
Proof using Ho.
  unfold unhold_if. destruct (holds st p o) eqn:Hh; [|reflexivity].
  apply (act1 (AGive o p)); [by apply Ho|]. cbn. by rewrite Hh.
Qed.
Lemma acts_give p st : holds st p o = true -> acts ok st (unhold p st).
Proof using Ho. intros Hh. apply (act1 (AGive o p)); [by apply Ho|]. cbn. by rewrite Hh. Qed.
Lemma acts_note p h st : acts ok st (note_in o p h st).
Proof using Ho.
  apply (act1 (AReads o (Some (<[p := h]> (default ∅ (read_tracker st !! o)))))); [by apply Ho|]. reflexivity.
Qed.
Lemma acts_forget p st : acts ok st (forget_read o p st).
Proof using Ho.
  unfold forget_read. destruct (read_tracker st !! o) as [m|]; [|reflexivity].
  apply (act1 (AReads o (Some (delete p m)))); [by apply Ho|]. reflexivity.
Qed.
Lemma acts_drop p st : acts ok st (drop_read o p st).
Proof using Ho.
  unfold drop_read. destruct (read_tracker st !! o) as [m|]; [|reflexivity]. cbv zeta.
  case_bool_decide; [apply (act1 (AReads o None))|apply (act1 (AReads o (Some (delete p m))))];
    (by apply Ho) || reflexivity.
Qed.
Lemma acts_forced f st : acts ok st (set_forced_released f st).
Proof using Ho. apply (act1 (AForced f)); [by apply Ho|reflexivity]. Qed.
Lemma acts_authored m st : acts ok st (set_authored_tracker (<[o := m]> (authored_tracker st)) st).
Proof using Ho. apply (act1 (AAuthored o (Some m))); [by apply Ho|reflexivity]. Qed.
Lemma acts_suspended m st : acts ok st (set_suspended (<[o := m]> (suspended st)) st).
Proof using Ho. apply (act1 (ASuspended o (Some m))); [by apply Ho|reflexivity]. Qed.
Lemma acts_resumed st : acts ok st (set_suspended (delete o (suspended st)) st).
Proof using Ho. apply (act1 (ASuspended o None)); [by apply Ho|reflexivity]. Qed.
Lemma acts_unwait st : acts ok st (set_waiting (delete o (waiting st)) st).
Proof using Ho. apply (act1 (AUnwait o)); [by apply Ho|reflexivity]. Qed.
Lemma acts_touch now ps st : Forall (fun p => held st !! p = Some o) ps ->
  acts ok st (set_held (held st) (foldl (fun t p => <[p := now]> t) (touched st) ps) st).
Proof using Ho.
  revert st. induction ps as [|p ps IH]; intros st Hps; cbn [foldl].
  - destruct st. reflexivity.
  - apply Forall_cons in Hps as [Hp Hps].
    transitivity (set_held (held st) (<[p := now]> (touched st)) st).
    + apply (act1 (ATouch o p now)); [by apply Ho|]. cbn. unfold holds. by rewrite bool_decide_true.
    + exact (IH (set_held (held st) (<[p := now]> (touched st)) st) Hps).
Qed.
(** A recorded wait closes no cycle; a refused one leaves no edge. *)
Lemma acts_record_wait path h : guar (acts ok) (may_wait ok) (record_wait_or_cycle o path h).
Proof using Ho.
  apply guar_section. intros st. cbv zeta.
  destruct (wait_cycle _ _) eqn:Hc; cbn [fst].
  - apply (act1 (AUnwait o)); [by apply Ho|]. unfold apply_act, set_waiting; cbn [waiting]. by rewrite delete_insert_eq.
  - apply (act1 (AWait o (mkWaitingOn path h.1 h.2))); [by apply Ho|]. cbn [apply_act]. cbv zeta. by rewrite Hc.
Qed.
End acts.
Arguments acts_unhold_if {ok} o Ho p st.
Arguments acts_forget {ok} o Ho p st.
Arguments acts_hold {ok} o Ho p now st.

(** ** The methods refine the lock machine *)

(** Walk through a program; what is left is one goal per section that changes the state. *)
Ltac guars :=
  repeat (cbv zeta; match goal with
    | |- guar _ _ (mret _) => exact I
    | |- guar _ _ (mbind _ _) => apply guar_bind; [|intros ?]
    | |- guar _ _ (dbcall _) => apply guar_dbcall
    | |- guar _ _ notify_waiters => apply guar_notify, _
    | |- guar _ _ now_secs => apply guar_now, _
    | |- guar _ _ (file_hash _) => apply guar_file_hash, _
    | |- guar _ _ (canonicalize _) => apply guar_canonicalize, _
    | |- guar _ _ (sync (fun s => (s, sh_epoch s))) => apply guar_epoch, _
    | |- guar _ _ (section (fun st => (st, _))) => apply guar_look, _
    | |- guar _ _ (section _) => apply guar_section; intros ?st
    | |- guar _ _ (update _) => apply guar_update; intros ?st
    | |- guar _ _ (section_at _) => apply guar_section_at; intros ?now ?st
    | |- guar _ _ (section_files _) => apply guar_section_files; intros ?now ?files ?st
    | |- guar _ _ (for_each _ _) => apply guar_for_each; intros ?
    | |- guar _ _ (try_each _ _) => apply guar_try_each; intros ?
    | |- guar _ _ (if ?b then _ else _) => destruct b
    | |- guar _ _ (match ?x with _ => _ end) => destruct x
    end).

(** A section that only does actions of an owner. *)
Ltac acts_by Ho :=
  cbv zeta; repeat (case_match; cbn [fst snd]; try reflexivity);
  cbn [fst snd];
  repeat first
    [ reflexivity
    | by apply (acts_hold _ Ho)
    | etrans; [|first [ apply (acts_unhold_if _ Ho) | apply (acts_forget _ Ho) | apply (acts_drop _ _ Ho)
                      | apply (acts_note _ _ Ho) | apply (acts_forced _ _ Ho) | apply (acts_unwait _ _ Ho)
                      | apply (acts_authored _ _ Ho) | apply (acts_suspended _ _ Ho) | apply (acts_resumed _ _ Ho)
                      | by apply (acts_give _ _ Ho) ]] ].

Section owned.
Context `{LockOrder} (ok : Act -> Prop).
Local Abbreviation G := (guar (acts ok) (may_wait ok)).

Lemma clear_waiter_ok o : may ok o -> G (clear_waiter o).
Proof using Type. intros Ho. unfold clear_waiter. guars. acts_by Ho. Qed.
Lemma try_acquire_ok records p agent session rr : may ok (session, agent) -> G (try_acquire records p agent session rr).
Proof using Type. intros Ho. unfold try_acquire. guars. all: acts_by Ho. Qed.
Lemma acquire_ok records p agent session : may ok (session, agent) -> G (acquire records p agent session).
Proof using Type. intros Ho. unfold acquire. guars. by apply try_acquire_ok. Qed.
Lemma acquire_wait_turn_ok l : may_wait ok l -> G (acquire_wait_turn l).
Proof using Type.
  intros Ho. unfold acquire_wait_turn. guars.
  all: try by apply try_acquire_ok.
  all: try by apply clear_waiter_ok.
  all: try by apply acts_record_wait.
  all: apply guar_wait; intros [| |]; unfold wait_context; guars; try by apply clear_waiter_ok.
  all: by apply guar_loop.
Qed.
Lemma acquire_wait_inner_ok records p agent session rr :
  may ok (session, agent) -> G (acquire_wait_inner records p agent session rr).
Proof using Type.
  intros Ho. unfold acquire_wait_inner. guars; first [by apply try_acquire_ok|by apply guar_loop|by apply clear_waiter_ok].
Qed.
Lemma paths_held_by o st : Forall (fun p => held st !! p = Some o) (paths_held (is_owner o) st).*1.
Proof using Type.
  apply Forall_fmap, Forall_forall. intros [p x] [Hx Hin]%list_elem_of_filter. cbn in *.
  apply bool_decide_eq_true in Hx as ->. rewrite lock_iter_perm in Hin. by apply elem_of_map_to_list.
Qed.
Lemma touch_holder_ok agent session : may ok (session, agent) -> G (touch_holder agent session).
Proof using Type.
  intros Ho. unfold touch_holder. guars. cbn [fst]. by apply (acts_touch ok _ Ho), paths_held_by.
Qed.
Lemma release_ok p agent session : may ok (session, agent) -> G (release p agent session).
Proof using Type. intros Ho. unfold release. guars. all: acts_by Ho. Qed.
Lemma release_and_drop_read_ok p agent session : may ok (session, agent) -> G (release_and_drop_read p agent session).
Proof using Type. intros Ho. unfold release_and_drop_read. guars. all: acts_by Ho. Qed.
Lemma release_force_memory_ok p agent session : may ok (session, agent) -> G (release_force_memory p agent session).
Proof using Type. intros Ho. unfold release_force_memory. guars. all: acts_by Ho. Qed.
Lemma note_read_ok records p agent session : may ok (session, agent) -> G (note_read records p agent session).
Proof using Type. intros Ho. unfold note_read. guars. all: acts_by Ho. Qed.
Lemma note_authored_ok records p agent session : may ok (session, agent) -> G (note_authored records p agent session).
Proof using Type. intros Ho. unfold note_authored. guars. all: acts_by Ho. Qed.
Lemma begin_write_ok p agent session : may ok (session, agent) -> G (begin_write p agent session).
Proof using Type. intros Ho. unfold begin_write. guars. all: acts_by Ho. Qed.
Lemma begin_guard_after_wait_ok p agent session b1 b2 b3 :
  may ok (session, agent) -> G (begin_guard_after_wait p agent session b1 b2 b3).
Proof using Type.
  intros Ho. unfold begin_guard_after_wait. guars; try by apply release_force_memory_ok. all: acts_by Ho.
Qed.
Lemma acquire_transient_ok p agent : may ok (0, agent) -> G (acquire_transient p agent).
Proof using Type. intros Ho. unfold acquire_transient. guars. all: acts_by Ho. Qed.
Lemma release_abandoned_ok p agent session :
  may ok (session, agent) -> G (release_abandoned_write_guard_memory p agent session).
Proof using Type.
  intros Ho. unfold release_abandoned_write_guard_memory. guars.
  destruct (holds st a (session, agent)) eqn:Hh; cbn [negb fst]; acts_by Ho.
Qed.
Lemma persist_abandoned_ok p agent session :
  may ok (session, agent) -> G (persist_abandoned_write_guard_release p agent session).
Proof using Type. intros Ho. unfold persist_abandoned_write_guard_release. guars. all: acts_by Ho. Qed.
Lemma abandon_each_ok canonical ps agent session :
  may ok (session, agent) -> G (abandon_each canonical ps agent session).
Proof using Type.
  intros Ho. induction ps as [|p ps IH]; [exact I|]. cbn [abandon_each].
  guars; first [by apply release_abandoned_ok|exact IH].
Qed.
Lemma abandon_held_paths_ok rt ps agent session :
  may ok (session, agent) -> G (abandon_held_paths rt ps agent session).
Proof using Type.
  intros Ho. unfold abandon_held_paths. guars; first [by apply abandon_each_ok|by apply persist_abandoned_ok].
Qed.
Lemma release_after_write_ok g : may ok (wg_session g, wg_agent g) -> G (release_after_write g).
Proof using Type. intros Ho. unfold release_after_write. guars. by apply release_force_memory_ok. Qed.
Lemma write_guard_drop_ok rt g : may ok (wg_session g, wg_agent g) -> G (write_guard_drop rt g).
Proof using Type.
  intros Ho. unfold write_guard_drop. guars; first [by apply release_abandoned_ok|by apply persist_abandoned_ok].
Qed.
Lemma transient_guard_drop_ok g : may ok (tg_session g, tg_agent g) -> G (transient_guard_drop g).
Proof using Type. intros Ho. unfold transient_guard_drop. guars. all: acts_by Ho. Qed.
End owned.

(** The methods that act for a whole session, or on other owners' locks. *)
Section managed.
Context `{LockOrder} (ok : Act -> Prop).
Local Abbreviation G := (guar (acts ok) (may_wait ok)).

Lemma foldl_sweep_acts now cutoff l st a b :
  (forall o, may ok o) ->
  acts ok st (foldl (fun acc po => sweep_one now cutoff po acc) (st, a, b) l).1.1.
Proof using Type.
  intros Hok. revert st a b. induction l as [|[p o] l IH]; intros st a b; cbn [foldl]; [reflexivity|].
  unfold sweep_one at 2. destruct (holds st p o) eqn:Hh; cbn [negb]; [|apply IH].
  destruct (is_idle st now cutoff p); cbn [negb]; [|apply IH].
  etrans; [|apply IH]. etrans; [by apply (acts_give _ _ (Hok o))|]. apply (acts_forget _ (Hok o)).
Qed.
Lemma sweep_expired_ok now : (forall o, may ok o) -> G (sweep_expired now).
Proof using Type.
  intros Hok. unfold sweep_expired. guars.
  pose proof (foldl_sweep_acts now (now - LOCK_IDLE_TIMEOUT) a st [] [] Hok) as Hf.
  destruct (foldl _ _ _) as [[??]?]. exact Hf.
Qed.
Lemma hash_each_ok {A} (l : list (LockPath * A)) : G (hash_each l).
Proof using Type. induction l as [|[p x] l IH]; [exact I|]. cbn [hash_each]. guars. exact IH. Qed.
Lemma seize_acts {X} (l : list (LockPath * X)) st :
  (forall p, ok (ASeize p)) -> acts ok st (foldl (fun st po => unhold po.1 st) st l).
Proof using Type.
  intros Hok. apply acts_foldl. intros st' x _. by apply (act1 ok (ASeize x.1)).
Qed.
Lemma suspend_agent_ok agent session :
  may ok (session, agent) -> (forall p, ok (ASeize p)) -> G (suspend_agent agent session).
Proof using Type.
  intros Ho Hp. unfold suspend_agent. guars; first [apply hash_each_ok|idtac].
  acts_by Ho. by apply seize_acts.
Qed.
Lemma suspend_session_ok session :
  (forall m, ok (ASessionReleased session m)) -> (forall p, ok (ASeize p)) -> G (suspend_session session).
Proof using Type.
  intros Hs Hp. unfold suspend_session. guars; first [apply hash_each_ok|idtac].
  etrans; [apply (seize_acts a st Hp)|]. eapply (act1 ok (ASessionReleased session (Some _))); [apply Hs|reflexivity].
Qed.
Lemma split_drifted_ok {A} (key_of : A -> Owner) l : (forall x, may ok (key_of x)) -> G (split_drifted key_of l).
Proof using Type.
  intros Hk. induction l as [|[p [x e]] l IH]; [exact I|]. cbn [split_drifted]. guars; try exact IH.
  apply (acts_forget _ (Hk x)).
Qed.
Lemma take_back_acts {A} (key_of : A -> Owner) on_taken now l st :
  (forall x, may ok (key_of x)) -> (forall p x st, acts ok st (on_taken p x st)) ->
  acts ok st (take_back key_of on_taken now l st).1.
Proof using Type.
  intros Hk Ht. unfold take_back. match goal with |- context [foldl ?f _ _] => set (F := f) end.
  enough (forall b t, acts ok st (foldl F (st, (b, t)) l).1) as Hall by apply Hall.
  revert st. induction l as [|[p x] l IH]; intros st b t; cbn [foldl]; [reflexivity|].
  unfold F at 2. cbn [fst snd]. destruct (held st !! p) eqn:Hh.
  - etrans; [apply (Ht p x)|]. apply IH.
  - etrans; [by apply (acts_hold _ (Hk x) p now)|]. apply IH.
Qed.
Lemma resume_agent_ok agent session : may ok (session, agent) -> G (resume_agent agent session).
Proof using Type.
  intros Ho. unfold resume_agent. guars; try (by apply split_drifted_ok); cbn [fst].
  - acts_by Ho.
  - match goal with |- context [take_back ?k ?t ?n ?l ?st] => pose proof (take_back_acts k t n l st) as Hb end.
    destruct (take_back _ _ _ _ _) as [? [??]]. apply Hb; [done|reflexivity].
Qed.
Lemma resume_session_ok session :
  (forall agent, may ok (session, agent)) -> (forall m, ok (ASessionReleased session m)) -> G (resume_session session).
Proof using Type.
  intros Ho Hs. unfold resume_session. guars; try (by apply split_drifted_ok); cbn [fst].
  - eapply (act1 ok (ASessionReleased session None)); [apply Hs|reflexivity].
  - match goal with |- context [take_back ?k ?t ?n ?l ?st] => pose proof (take_back_acts k t n l st Ho) as Hb end.
    destruct (take_back _ _ _ _ _) as [? [??]]. apply Hb. intros p x st'. apply (acts_forget _ (Ho x)).
Qed.
Lemma end_session_ok session : ok (AEnd session) -> G (end_session session).
Proof using Type. intros Hs. unfold end_session. guars. by apply (act1 ok (AEnd session)). Qed.
Lemma move_read_acts from to st : may ok from -> may ok to ->
  acts ok st (set_read_tracker (move_records from to (read_tracker st)) st).
Proof using Type.
  intros Hf Ht. unfold move_records. destruct (read_tracker st !! from); [|destruct st; reflexivity].
  etrans; [apply (act1 ok (AReads from None)); [by apply Hf|reflexivity]|].
  eapply (act1 ok (AReads to (Some _))); [by apply Ht|reflexivity].
Qed.
Lemma move_authored_acts from to st : may ok from -> may ok to ->
  acts ok st (set_authored_tracker (move_records from to (authored_tracker st)) st).
Proof using Type.
  intros Hf Ht. unfold move_records. destruct (authored_tracker st !! from); [|destruct st; reflexivity].
  etrans; [apply (act1 ok (AAuthored from None)); [by apply Hf|reflexivity]|].
  eapply (act1 ok (AAuthored to (Some _))); [by apply Ht|reflexivity].
Qed.
Lemma transfer_agent_locks_ok from to session :
  may ok (session, from) -> may ok (session, to) -> (forall p, ok (AMove (session, from) (session, to) p)) ->
  G (transfer_agent_locks from to session).
Proof using Type.
  intros Hf Ht Hm. unfold transfer_agent_locks. guars.
  etrans; [|by apply move_authored_acts]. etrans; [|by apply move_read_acts].
  apply acts_foldl. intros st' p _. destruct (holds st' p (session, from)) eqn:Hh; [|reflexivity].
  apply (act1 ok (AMove (session, from) (session, to) p)); [apply Hm|]. cbn. by rewrite Hh.
Qed.
End managed.

(** ** The system *)

Inductive LockCall :=
| CAcquire (records : bool) (p : LockPath) (agent : AgentId) (session : Z)
| CAcquireWait (records : bool) (p : LockPath) (agent : AgentId) (session : Z) (record_read : bool)
| CTouch (agent : AgentId) (session : Z)
| CSweep (now : Z)
| CRelease (p : LockPath) (agent : AgentId) (session : Z)
| CReleaseDrop (p : LockPath) (agent : AgentId) (session : Z)
| CReleaseForce (p : LockPath) (agent : AgentId) (session : Z)
| CNoteRead (records : bool) (p : LockPath) (agent : AgentId) (session : Z)
| CNoteAuthored (records : bool) (p : LockPath) (agent : AgentId) (session : Z)
| CBeginWrite (p : LockPath) (agent : AgentId) (session : Z)
| CBeginGuard (p : LockPath) (agent : AgentId) (session : Z) (by_wait fresh authored : bool)
| CTransient (p : LockPath) (agent : AgentId)
| CAbandon (runtime : bool) (ps : list LockPath) (agent : AgentId) (session : Z)
| CReleaseAfterWrite (g : WriteGuard)
| CDropWrite (runtime : bool) (g : WriteGuard)
| CDropTransient (g : TransientLockGuard)
| CSuspendAgent (agent : AgentId) (session : Z)
| CResumeAgent (agent : AgentId) (session : Z)
| CTransfer (from to : AgentId) (session : Z)
| CSuspendSession (session : Z)
| CResumeSession (session : Z)
| CEndSession (session : Z).

Section system.
Context `{LockOrder}.

Definition run_call (c : LockCall) : Prog unit :=
  match c with
  | CAcquire r p a s => acquire r p a s ;; mret tt
  | CAcquireWait r p a s rr => acquire_wait_inner r p a s rr ;; mret tt
  | CTouch a s => touch_holder a s
  | CSweep now => sweep_expired now ;; mret tt
  | CRelease p a s => release p a s ;; mret tt
  | CReleaseDrop p a s => release_and_drop_read p a s ;; mret tt
  | CReleaseForce p a s => release_force_memory p a s ;; mret tt
  | CNoteRead r p a s => note_read r p a s
  | CNoteAuthored r p a s => note_authored r p a s
  | CBeginWrite p a s => begin_write p a s ;; mret tt
  | CBeginGuard p a s w f u => begin_guard_after_wait p a s w f u ;; mret tt
  | CTransient p a => acquire_transient p a ;; mret tt
  | CAbandon rt ps a s => abandon_held_paths rt ps a s
  | CReleaseAfterWrite g => release_after_write g ;; mret tt
  | CDropWrite rt g => write_guard_drop rt g
  | CDropTransient g => transient_guard_drop g
  | CSuspendAgent a s => suspend_agent a s ;; mret tt
  | CResumeAgent a s => resume_agent a s ;; mret tt
  | CTransfer f t s => transfer_agent_locks f t s ;; mret tt
  | CSuspendSession s => suspend_session s ;; mret tt
  | CResumeSession s => resume_session s ;; mret tt
  | CEndSession s => end_session s ;; mret tt
  end.

(** What a call may do to the memory. *)
Definition call_may (c : LockCall) (a : Act) : Prop :=
  match c with
  | CAcquire _ _ ag s | CAcquireWait _ _ ag s _ | CTouch ag s | CRelease _ ag s | CReleaseDrop _ ag s
  | CReleaseForce _ ag s | CNoteRead _ _ ag s | CNoteAuthored _ _ ag s | CBeginWrite _ ag s
  | CBeginGuard _ ag s _ _ _ | CAbandon _ _ ag s | CResumeAgent ag s => act_of (s, ag) a
  | CTransient _ ag => act_of (0, ag) a
  | CReleaseAfterWrite g | CDropWrite _ g => act_of (wg_session g, wg_agent g) a
  | CDropTransient g => act_of (tg_session g, tg_agent g) a
  | CSweep _ => exists o, act_of o a
  | CSuspendAgent ag s => act_of (s, ag) a \/ exists p, a = ASeize p
  | CTransfer f t s => act_of (s, f) a \/ act_of (s, t) a \/ exists p, a = AMove (s, f) (s, t) p
  | CSuspendSession s => (exists m, a = ASessionReleased s m) \/ exists p, a = ASeize p
  | CResumeSession s => (exists m, a = ASessionReleased s m) \/ exists ag, act_of (s, ag) a
  | CEndSession s => a = AEnd s
  end.

Lemma call_guar c : guar (acts (call_may c)) (may_wait (call_may c)) (run_call c).
Proof using Type.
  destruct c; cbn [run_call]; guars.
  - apply acquire_ok; exact (fun _ Ha => Ha).
  - apply acquire_wait_inner_ok; exact (fun _ Ha => Ha).
  - apply touch_holder_ok; exact (fun _ Ha => Ha).
  - apply sweep_expired_ok. intros o a Ha. by exists o.
  - apply release_ok; exact (fun _ Ha => Ha).
  - apply release_and_drop_read_ok; exact (fun _ Ha => Ha).
  - apply release_force_memory_ok; exact (fun _ Ha => Ha).
  - apply note_read_ok; exact (fun _ Ha => Ha).
  - apply note_authored_ok; exact (fun _ Ha => Ha).
  - apply begin_write_ok; exact (fun _ Ha => Ha).
  - apply begin_guard_after_wait_ok; exact (fun _ Ha => Ha).
  - apply acquire_transient_ok; exact (fun _ Ha => Ha).
  - apply abandon_held_paths_ok; exact (fun _ Ha => Ha).
  - apply release_after_write_ok; exact (fun _ Ha => Ha).
  - apply write_guard_drop_ok; exact (fun _ Ha => Ha).
  - apply transient_guard_drop_ok; exact (fun _ Ha => Ha).
  - apply suspend_agent_ok; [intros a Ha; by left|intros p; right; by exists p].
  - apply resume_agent_ok; exact (fun _ Ha => Ha).
  - apply transfer_agent_locks_ok; [intros a Ha; by left|intros a Ha; by right; left|intros p; right; right; by exists p].
  - apply suspend_session_ok; [intros m; left; by exists m|intros p; right; by exists p].
  - apply resume_session_ok; [intros ag a Ha; right; by exists ag|intros m; left; by exists m].
  - apply end_session_ok; reflexivity.
Qed.

(** The running calls, and everything they share. *)
Record Sys := mkSys { sys_shared : Shared; sys_tasks : gmap nat (LockCall * Prog unit) }.

(** What the rest of the world may change between two steps: files, clock, session rows. *)
Definition outside (s s' : Shared) : Prop :=
  sh_state s' = sh_state s /\ sh_epoch s' = sh_epoch s.

Inductive sys_step : Sys -> Sys -> Prop :=
| sys_call s ts i c : ts !! i = None -> sys_step (mkSys s ts) (mkSys s (<[i := (c, run_call c)]> ts))
| sys_run s ts i c p s' p' :
    ts !! i = Some (c, p) -> prog_step s p s' p' -> sys_step (mkSys s ts) (mkSys s' (<[i := (c, p')]> ts))
| sys_drop s ts i : sys_step (mkSys s ts) (mkSys s (delete i ts))
| sys_outside s s' ts : outside s s' -> sys_step (mkSys s ts) (mkSys s' ts)
| sys_restart s ts :
    sys_step (mkSys s ts) (mkSys (mkShared (from_db (sh_db s)) (sh_db s) (sh_files s) (sh_now s) 0) ∅).
End system.
