(* ===== verification/LocksInv.v ===== *)
(** What holds of the file-lock manager under every interleaving: the wait graph has no
    cycle, every hold has a timestamp, and a call of one owner leaves the holds and records
    of every other owner as they were. *)

From S2P Require Import Prelude.
From S2P Require Import LocksDb.
From S2P Require Import Locks.
From S2P Require Import LocksSystem.
From stdpp Require Import options.
Set Warnings "-clear-no-such-hyp".

(** ** The wait graph *)

(** One waiter waits for one holder. *)
Definition waits_for (w : gmap Owner WaitingOn) (a b : Owner) : Prop :=
  exists e, w !! a = Some e /\ wo_holder e = b.
Definition acyclic (w : gmap Owner WaitingOn) : Prop := forall o, ~ tc (waits_for w) o o.

Lemma waits_for_fun w a b c : waits_for w a b -> waits_for w a c -> b = c.
Proof. intros (e & He & <-) (e' & He' & <-). congruence. Qed.

(** Edges that do not lead back to the start. *)
Definition waits_past (w : gmap Owner WaitingOn) (start a b : Owner) : Prop :=
  waits_for w a b /\ b <> start.
Lemma tc_first {A} (R : relation A) x z : tc R x z -> exists y, R x y /\ rtc R y z.
Proof. intros Hxz. destruct Hxz as [x z Hs|x y z Hs Hyz]; eexists; (split; [exact Hs|]); [reflexivity|by apply tc_rtc]. Qed.
(** A walk that has come round without meeting the start never meets it. *)
Lemma round_misses_start w start x z :
  tc (waits_past w start) x x -> tc (waits_for w) x z -> z <> start.
Proof.
  intros Hround Hxz. revert Hround. induction Hxz as [x z Hs|x y z Hs Hyz IH]; intros Hround.
  - destruct (tc_first _ _ _ Hround) as (y & [Hy Hne] & _). by rewrite (waits_for_fun w x z y).
  - apply IH. destruct (tc_first _ _ _ Hround) as (y' & [Hy Hne] & Hback).
    rewrite (waits_for_fun w x y y'); [|done|done]. eapply tc_rtc_l; [exact Hback|]. by apply tc_once.
Qed.

(** The recorded edges of a walk from one owner to another. *)
Fixpoint wait_chain (w : gmap Owner WaitingOn) (a : Owner) (parts : list (Owner * WaitingOn)) (b : Owner) : Prop :=
  match parts with
  | [] => a = b
  | (x, e) :: parts => x = a /\ w !! a = Some e /\ wait_chain w (wo_holder e) parts b
  end.
Lemma wait_chain_snoc w a parts b e : wait_chain w a parts b -> w !! b = Some e ->
  wait_chain w a (parts ++ [(b, e)]) (wo_holder e).
Proof.
  revert a. induction parts as [|[x e'] parts IH]; intros a; cbn; [by intros ->|].
  intros (-> & He' & Hc) He. split; [done|]. split; [exact He'|]. by apply IH.
Qed.
Lemma wait_chain_tc w a parts b : wait_chain w a parts b -> parts <> [] -> tc (waits_for w) a b.
Proof.
  revert a. induction parts as [|[x e] parts IH]; intros a; [done|]. intros (-> & He & Hc) _.
  destruct parts as [|y parts]; [cbn in Hc; subst b; apply tc_once; by exists e|].
  eapply tc_l; [by exists e|]. by apply IH.
Qed.
Lemma wait_cycle_loop_sound w start fuel seen current parts out :
  wait_cycle_loop fuel w start seen current parts = Some out ->
  wait_chain w start parts current -> wait_chain w start out start /\ out <> [].
Proof.
  revert seen current parts. induction fuel as [|fuel IH]; intros seen current parts; cbn [wait_cycle_loop]; [done|].
  case_bool_decide; [done|]. destruct (w !! current) as [e|] eqn:He; [|done]. cbv zeta.
  case_bool_decide as Hs; intros Hout Hreach.
  - injection Hout as <-. split; [rewrite <- Hs at 2; by apply wait_chain_snoc|]. by destruct parts.
  - eapply IH; [exact Hout|]. by apply wait_chain_snoc.
Qed.
Lemma wait_cycle_loop_complete w start fuel seen current parts :
  tc (waits_for w) current start ->
  (forall y, y ∈ seen -> tc (waits_past w start) y current) ->
  seen ⊆ dom w -> (size w < fuel + size seen)%nat ->
  is_Some (wait_cycle_loop fuel w start seen current parts).
Proof.
  revert seen current parts. induction fuel as [|fuel IH]; intros seen current parts Hcur Hseen Hdom Hfuel; cbn [wait_cycle_loop].
  - apply subseteq_size in Hdom. rewrite size_dom in Hdom. lia.
  - case_bool_decide as Hin.
    { exfalso. by eapply round_misses_start; [apply Hseen, Hin|exact Hcur|]. }
    destruct (tc_first _ _ _ Hcur) as (y & (e & He & <-) & Hrest). rewrite He. cbv zeta.
    case_bool_decide as Hs; [by eexists|].
    assert (waits_past w start current (wo_holder e)) as Hpast by (split; [by exists e|done]).
    apply IH.
    + apply rtc_tc in Hrest as [Heq|Hrest]; [congruence|exact Hrest].
    + intros x [->%elem_of_singleton|Hx]%elem_of_union; [by apply tc_once|]. eapply tc_r; [by apply Hseen|exact Hpast].
    + apply union_subseteq. split; [|exact Hdom]. apply singleton_subseteq_l, elem_of_dom. by exists e.
    + rewrite size_union; [|set_solver]. rewrite size_singleton. lia.
Qed.
(** The walk finds a cycle through the start exactly when there is one. *)
Lemma wait_cycle_spec st start :
  is_Some (wait_cycle st start) <-> tc (waits_for (waiting st)) start start.
Proof.
  split.
  - intros [out Hout]. destruct (wait_cycle_loop_sound _ _ _ _ _ _ _ Hout) as [Hc Hne]; [reflexivity|]. by eapply wait_chain_tc.
  - intros Hc. apply wait_cycle_loop_complete; [exact Hc|set_solver|set_solver|lia].
Qed.

Lemma acyclic_delete w o : acyclic w -> acyclic (delete o w).
Proof.
  intros Hw x Hx. apply (Hw x). revert Hx. generalize x at 2 4 as z. intros z Hx.
  induction Hx as [x z (e & He & <-)|x y z (e & He & <-) _ IH].
  - apply lookup_delete_Some in He as [_ He]. apply tc_once. by exists e.
  - apply lookup_delete_Some in He as [_ He]. eapply tc_l; [by exists e|exact IH].
Qed.
Lemma waits_insert w o e x z :
  tc (waits_for (<[o := e]> w)) x z ->
  tc (waits_for w) x z \/ (rtc (waits_for (<[o := e]> w)) x o /\ tc (waits_for (<[o := e]> w)) o z).
Proof.
  intros Hx. induction Hx as [x z Hs|x y z Hs Hyz IH].
  - destruct (decide (x = o)) as [->|Hne]; [right; split; [reflexivity|by apply tc_once]|].
    left. apply tc_once. destruct Hs as (e' & He & <-). rewrite lookup_insert_ne in He by done. by exists e'.
  - destruct (decide (x = o)) as [->|Hne]; [right; split; [reflexivity|by eapply tc_l]|].
    destruct IH as [IH|[Hyo Hoz]]; [left|right; split; [by eapply rtc_l|exact Hoz]].
    destruct Hs as (e' & He & <-). rewrite lookup_insert_ne in He by done. eapply tc_l; [by exists e'|exact IH].
Qed.
Lemma acyclic_insert w o e : acyclic w -> ~ tc (waits_for (<[o := e]> w)) o o -> acyclic (<[o := e]> w).
Proof.
  intros Hw Ho x Hx. apply waits_insert in Hx as [Hx|[Hxo Hox]]; [by apply (Hw x)|].
  apply Ho. eapply tc_rtc_r; [exact Hox|exact Hxo].
Qed.

(** ** Invariants of the memory *)

Record lock_inv (st : LockState) : Prop := mkLockInv {
  li_touched : dom (touched st) = dom (held st);
  li_acyclic : acyclic (waiting st) }.

Lemma act_keeps_inv a st st' : apply_act a st = Some st' -> lock_inv st -> lock_inv st'.
Proof.
  intros Ha [Ht Hc]. destruct a; cbn [apply_act] in Ha; cbv zeta in Ha; repeat case_match; simplify_eq; split; cbn; try done.
  - rewrite !dom_insert_L. by rewrite Ht.
  - rewrite !dom_delete_L. by rewrite Ht.
  - rewrite dom_insert_L, Ht. unfold holds in *. case_bool_decide as Hh; [|done].
    apply elem_of_dom_2 in Hh. set_solver.
  - apply acyclic_insert; [exact Hc|]. intros Hloop.
    match goal with Hn : wait_cycle ?st o = None |- _ => destruct (proj2 (wait_cycle_spec st o) Hloop); congruence end.
  - by apply acyclic_delete.
  - rewrite dom_insert_L, Ht. unfold holds in *. case_bool_decide as Hh; [|done].
    apply elem_of_dom_2 in Hh. set_solver.
  - rewrite !dom_delete_L. by rewrite Ht.
  - apply set_eq. intros p. rewrite !elem_of_dom. split.
    + intros [t Htp]. apply map_lookup_filter_Some in Htp as [_ Hp]. exact Hp.
    + intros Hp. destruct Hp as [o Ho]. pose proof Ho as Ho'. apply map_lookup_filter_Some in Ho as [Ho _].
      assert (p ∈ dom (touched st)) as [t Htp]%elem_of_dom by (rewrite Ht; by eapply elem_of_dom_2).
      exists t. apply map_lookup_filter_Some. split; [exact Htp|]. by exists o.
Qed.
Lemma acts_keep_inv ok st st' : acts ok st st' -> lock_inv st -> lock_inv st'.
Proof. intros Hs. induction Hs as [|st st1 st2 (a & _ & Ha) _ IH]; [done|]. intros Hi. by eapply IH, act_keeps_inv. Qed.

Lemma from_db_inv d : lock_inv (from_db d).
Proof.
  unfold from_db. cbv zeta.
  set (st0 := foldl _ empty_state _).
  assert (lock_inv st0 /\ waiting st0 = ∅) as [H0 Hw].
  { unfold st0. generalize (list_held_locks d) as rows.
    assert (lock_inv empty_state /\ waiting empty_state = ∅) as Hi.
    { split; [split; [done|]|done]. intros o Ho. destruct (tc_first _ _ _ Ho) as (y & (e & He & _) & _).
      change (waiting empty_state) with (∅ : gmap Owner WaitingOn) in He. by rewrite lookup_empty in He. }
    revert Hi. generalize empty_state as st. intros st Hi rows. revert st Hi.
    induction rows as [|row rows IH]; intros st [[Ht Hc] Hw]; cbn [foldl]; [done|].
    apply IH. split; [split; [cbn; by rewrite !dom_insert_L, Ht|exact Hc]|exact Hw]. }
  clearbody st0. revert st0 H0 Hw. generalize (list_lock_reads d) as rows.
  induction rows as [|row rows IH]; intros st [Ht Hc] Hw; cbn [foldl]; [done|]. apply IH; [by split|exact Hw].
Qed.

(** ** Runs of the system *)

Section runs.
Context `{LockOrder}.

(** Every running call keeps to its actions. *)
Definition tasks_ok (x : Sys) : Prop :=
  forall i c p, sys_tasks x !! i = Some (c, p) -> guar (acts (call_may c)) (may_wait (call_may c)) p.

Lemma task_step c s (p : Prog unit) s' p' :
  prog_step s p s' p' -> guar (acts (call_may c)) (may_wait (call_may c)) p ->
  acts (call_may c) (sh_state s) (sh_state s') /\ guar (acts (call_may c)) (may_wait (call_may c)) p'.
Proof using Type. intros Hs Hp. eapply guar_step; [apply _|apply acquire_wait_turn_ok|exact Hs|exact Hp]. Qed.

Lemma tasks_ok_step x y : sys_step x y -> tasks_ok x -> tasks_ok y.
Proof using Type.
  intros Hs Hx. destruct Hs as [s ts i c Hi|s ts i c p s' p' Hi Hp|s ts i|s s' ts Ho|s ts]; intros j c' q Hj; cbn in *.
  - apply lookup_insert_Some in Hj as [[_ [= <- <-]]|[_ Hj]]; [apply call_guar|by eapply Hx].
  - apply lookup_insert_Some in Hj as [[_ [= <- <-]]|[_ Hj]]; [|by eapply Hx].
    by eapply task_step; [exact Hp|apply (Hx i)].
  - apply lookup_delete_Some in Hj as [_ Hj]. by eapply Hx.
  - by eapply Hx.
  - by rewrite lookup_empty in Hj.
Qed.
Lemma sys_inv_step x y : sys_step x y -> tasks_ok x -> lock_inv (sh_state (sys_shared x)) -> lock_inv (sh_state (sys_shared y)).
Proof using Type.
  intros Hs Hx Hi. destruct Hs as [s ts i c Hn|s ts i c p s' p' Hn Hp|s ts i|s s' ts [Ho _]|s ts]; cbn in *; try done.
  - destruct (task_step c s p s' p' Hp (Hx _ _ _ Hn)) as [Ha _]. by eapply acts_keep_inv.
  - by rewrite Ho.
  - apply from_db_inv.
Qed.
(** A daemon just started. *)
Definition sys_start (s : Shared) : Sys := mkSys (mkShared (from_db (sh_db s)) (sh_db s) (sh_files s) (sh_now s) 0) ∅.
Lemma locks_reachable_inv s x : rtc sys_step (sys_start s) x -> tasks_ok x /\ lock_inv (sh_state (sys_shared x)).
Proof using Type.
  intros Hs. assert (tasks_ok (sys_start s) /\ lock_inv (sh_state (sys_shared (sys_start s)))) as Hi.
  { split; [|apply from_db_inv]. intros i c p Hi. cbn in Hi. by rewrite lookup_empty in Hi. }
  induction Hs as [x|x y z Hxy _ IH]; [done|]. apply IH. destruct Hi as [Ht Hi].
  split; [by eapply tasks_ok_step|by eapply sys_inv_step].
Qed.
End runs.

(** ** Other owners are left alone *)

(** Everything the memory has of an owner. *)
Record same_owner (o : Owner) (st st' : LockState) : Prop := mkSameOwner {
  so_held : forall p, held st !! p = Some o <-> held st' !! p = Some o;
  so_reads : read_tracker st' !! o = read_tracker st !! o;
  so_authored : authored_tracker st' !! o = authored_tracker st !! o;
  so_suspended : suspended st' !! o = suspended st !! o;
  so_waiting : waiting st' !! o = waiting st !! o }.
#[export] Instance same_owner_preorder o : PreOrder (same_owner o).
Proof.
  split; [intros st; by split|]. intros st1 st2 st3 [H1 H2 H3 H4 H5] [G1 G2 G3 G4 G5]. split; [|congruence..].
  intros p. by rewrite H1, G1.
Qed.

(** The actions that leave an owner alone. *)
Definition spares (o : Owner) (a : Act) : Prop :=
  match a with
  | ATake o' _ _ | AGive o' _ | ATouch o' _ _ | AReads o' _ | AAuthored o' _ | ASuspended o' _ | AWait o' _
  | AUnwait o' => o' <> o
  | AForced _ | ASessionReleased _ _ => True
  | AMove from to _ => from <> o /\ to <> o
  | ASeize _ => False
  | AEnd session => session <> o.1
  end.

Lemma filter_keeps {B} (session : Z) (m : gmap Owner B) o : session <> o.1 ->
  filter (fun kv : Owner * B => kv.1.1 <> session) m !! o = m !! o.
Proof.
  intros Hne. destruct (m !! o) as [x|] eqn:Hx.
  - apply map_lookup_filter_Some. split; [exact Hx|]. cbn. congruence.
  - apply map_lookup_filter_None. by left.
Qed.
Lemma insert_other_holder (m : gmap LockPath Owner) p q o o' : o' <> o -> m !! p <> Some o ->
  (m !! q = Some o <-> <[p := o']> m !! q = Some o).
Proof.
  intros Ho Hp. rewrite lookup_insert_Some. split; [|intros [[_ ?]|[_ ?]]; [congruence|done]].
  intros Hq. right. split; [congruence|exact Hq].
Qed.
Lemma delete_other_holder (m : gmap LockPath Owner) p q o : m !! p <> Some o ->
  (m !! q = Some o <-> delete p m !! q = Some o).
Proof.
  intros Hp. rewrite lookup_delete_Some. split; [|by intros [_ ?]]. intros Hq. split; [congruence|exact Hq].
Qed.
Lemma act_spares o a st st' : apply_act a st = Some st' -> spares o a -> same_owner o st st'.
Proof.
  intros Ha Hs. destruct a; cbn [apply_act] in Ha; cbv zeta in Ha; cbn [spares] in Hs; unfold holds in *;
    repeat case_match; simplify_eq; repeat case_bool_decide; simplify_eq; split; cbn; intros;
    try done; try (by rewrite lookup_partial_alter_ne); try (by rewrite lookup_insert_ne);
    try (by rewrite lookup_delete_ne); try (by apply filter_keeps).
  - apply insert_other_holder; [done|congruence].
  - apply delete_other_holder. congruence.
  - destruct Hs. apply insert_other_holder; [done|congruence].
  - rewrite map_lookup_filter_Some. cbn. split; [|by intros [? _]]. intros Hp. split; [exact Hp|]. congruence.
Qed.
Lemma acts_spare o ok st st' : (forall a, ok a -> spares o a) -> acts ok st st' -> same_owner o st st'.
Proof.
  intros Hok Hs. induction Hs as [st|st st1 st2 (a & Hoka & Ha) _ IH]; [reflexivity|].
  transitivity st1; [by eapply act_spares, Hok|exact IH].
Qed.

(** The calls that leave an owner alone: any call of another owner, and the session calls of
    other sessions that do not take locks away blindly. *)
Definition call_spares (o : Owner) (c : LockCall) : Prop :=
  match c with
  | CAcquire _ _ ag s | CAcquireWait _ _ ag s _ | CTouch ag s | CRelease _ ag s | CReleaseDrop _ ag s
  | CReleaseForce _ ag s | CNoteRead _ _ ag s | CNoteAuthored _ _ ag s | CBeginWrite _ ag s
  | CBeginGuard _ ag s _ _ _ | CAbandon _ _ ag s | CResumeAgent ag s => (s, ag) <> o
  | CTransient _ ag => (0, ag) <> o
  | CReleaseAfterWrite g | CDropWrite _ g => (wg_session g, wg_agent g) <> o
  | CDropTransient g => (tg_session g, tg_agent g) <> o
  | CTransfer f t s => (s, f) <> o /\ (s, t) <> o
  | CResumeSession s | CEndSession s => s <> o.1
  | CSweep _ | CSuspendAgent _ _ | CSuspendSession _ => False
  end.
Lemma act_of_spares o o' a : o' <> o -> act_of o' a -> spares o a.
Proof. intros Hne Ha. destruct a; cbn in *; (done || congruence). Qed.
Lemma call_spares_acts o c a : call_spares o c -> call_may c a -> spares o a.
Proof.
  intros Hc Ha. destruct c; cbn in *; try done; try (by eapply act_of_spares).
  - destruct Hc, Ha as [Ha|[Ha|[p ->]]]; [(eapply act_of_spares; [|exact Ha]; done)..|done].
  - destruct Ha as [[m ->]|[ag Ha]]; [done|]. eapply act_of_spares; [|exact Ha]. intros <-. by apply Hc.
  - by subst a.
Qed.

Section sparing.
Context `{LockOrder} (o : Owner).
(** Steps of a system in which every call made leaves [o] alone, and the daemon runs on. *)
Inductive sparing_step : Sys -> Sys -> Prop :=
| spare_call s ts i c : ts !! i = None -> call_spares o c ->
    sparing_step (mkSys s ts) (mkSys s (<[i := (c, run_call c)]> ts))
| spare_run s ts i c p s' p' :
    ts !! i = Some (c, p) -> prog_step s p s' p' -> sparing_step (mkSys s ts) (mkSys s' (<[i := (c, p')]> ts))
| spare_drop s ts i : sparing_step (mkSys s ts) (mkSys s (delete i ts))
| spare_outside s s' ts : outside s s' -> sparing_step (mkSys s ts) (mkSys s' ts).
Definition all_spare (x : Sys) : Prop := forall i c p, sys_tasks x !! i = Some (c, p) -> call_spares o c.

Lemma sparing_is_step x y : sparing_step x y -> sys_step x y.
Proof using Type. intros Hs. destruct Hs; [by apply sys_call|by eapply sys_run|by apply sys_drop|by apply sys_outside]. Qed.
Lemma sparing_step_spec x y : sparing_step x y -> tasks_ok x -> all_spare x ->
  same_owner o (sh_state (sys_shared x)) (sh_state (sys_shared y)) /\ all_spare y.
Proof using Type.
  intros Hs Hx Ha. destruct Hs as [s ts i c Hi Hc|s ts i c p s' p' Hi Hp|s ts i|s s' ts [Ho _]]; cbn [sys_shared].
  - split; [reflexivity|]. intros j c' q Hj. cbn in Hj.
    apply lookup_insert_Some in Hj as [[_ [= <- <-]]|[_ Hj]]; [exact Hc|by eapply Ha].
  - split.
    + destruct (task_step c s p s' p' Hp (Hx _ _ _ Hi)) as [Hacts _].
      eapply acts_spare; [|exact Hacts]. intros a. apply call_spares_acts. by eapply Ha.
    + intros j c' q Hj. cbn in Hj.
      apply lookup_insert_Some in Hj as [[_ [= <- <-]]|[_ Hj]]; by eapply Ha.
  - split; [reflexivity|]. intros j c' q Hj. cbn in Hj. apply lookup_delete_Some in Hj as [_ Hj]. by eapply Ha.
  - split; [by rewrite Ho|exact Ha].
Qed.
Lemma sparing_run x y : rtc sparing_step x y -> tasks_ok x -> all_spare x ->
  same_owner o (sh_state (sys_shared x)) (sh_state (sys_shared y)).
Proof using Type.
  intros Hs. induction Hs as [x|x y z Hxy _ IH]; intros Hx Ha; [reflexivity|].
  destruct (sparing_step_spec x y Hxy Hx Ha) as [Hsame Hay].
  transitivity (sh_state (sys_shared y)); [exact Hsame|]. apply IH; [|exact Hay].
  eapply tasks_ok_step; [by apply sparing_is_step|exact Hx].
Qed.
End sparing.
