(* ===== verification/LocksMirror.v ===== *)
(** Crash recovery of the file locks: a call that runs undisturbed leaves the database rows
    mirroring the memory, and the startup code rebuilds the memory from such rows. *)

From S2P Require Import Prelude.
From S2P Require Import LocksDb.
From S2P Require Import Locks.
From S2P Require Import LocksSystem.
From stdpp Require Import options.
Set Warnings "-clear-no-such-hyp".

(** ** Undisturbed runs *)

(** A program run with nothing in between, up to its result, a wait that is not woken, or the
    next turn of a wait loop; a statement fails only when the database refuses it. *)
Fixpoint exec {A} (p : Prog A) (s : Shared) : Shared * Prog A :=
  match p with
  | PRet a => (s, PRet a)
  | PSync f k => exec (k s) (f s)
  | PDb op k =>
      match op (sh_now s) (sh_db s) with
      | Some d => exec (k true) (set_sh_db d s)
      | None => exec (k false) s
      end
  | PWait n k => if (n <? sh_epoch s)%nat then exec (k WkNotified) s else (s, PWait n k)
  | PLoop l k => (s, PLoop l k)
  end.

Lemma exec_steps {A} (p : Prog A) s :
  rtc (fun x y => prog_step x.1 x.2 y.1 y.2) (s, p) (exec p s).
Proof.
  revert s. induction p as [a|f k IH|op k IH|n k IH|l k IH]; intros s; cbn [exec].
  - reflexivity.
  - apply (rtc_l _ _ (f s, k s)); [exact (ps_sync s f k)|apply IH].
  - destruct (op (sh_now s) (sh_db s)) as [d|] eqn:Hop.
    + apply (rtc_l _ _ (set_sh_db d s, k true)); [exact (ps_db_ok s op k d Hop)|apply IH].
    + apply (rtc_l _ _ (s, k false)); [exact (ps_db_err s op k)|apply IH].
  - destruct (n <? sh_epoch s)%nat eqn:Hn; [|reflexivity]. apply (rtc_l _ _ (s, k WkNotified)); [exact (ps_notified s n k (proj1 (Nat.ltb_lt _ _) Hn))|apply IH].
  - reflexivity.
Qed.
Lemma exec_bind {A B} (p : Prog A) (k : A -> Prog B) s :
  exec (p ≫= k) s = match exec p s with (s', PRet a) => exec (k a) s' | (s', p') => (s', p' ≫= k) end.
Proof.
  unfold mbind, Prog_bind. revert s. induction p as [a|f k' IH|op k' IH|n k' IH|l k' IH]; intros s; cbn [exec prog_bind]; try done.
  - by destruct (op (sh_now s) (sh_db s)).
  - by destruct (n <? sh_epoch s)%nat.
Qed.

(** ** The mirror *)

(** The owner a row should name: transient locks, of the nil session, are not stored. *)
Definition stored_owner (o : option Owner) : option Owner :=
  match o with Some o => if o.1 =? 0 then None else Some o | None => None end.
Definition stored_hash (r : LockReadRow) : option Z := hash_as_u64 <$> rr_read_hash r.

(** The paths a memory holds, or remembers for a resumption, are text. *)
Record text_paths (st : LockState) : Prop := mkTextPaths {
  tx_held : forall p o, held st !! p = Some o -> is_text p;
  tx_suspended : forall k m p h, suspended st !! k = Some m -> m !! p = Some h -> is_text p;
  tx_released : forall k m p h, session_released st !! k = Some m -> m !! p = Some h -> is_text p }.
Lemma text_same st st' : held st' ⊆ held st -> suspended st' = suspended st -> session_released st' = session_released st ->
  text_paths st -> text_paths st'.
Proof.
  intros Hh Hs Hr [H1 H2 H3]. split; [|by rewrite Hs|by rewrite Hr]. intros p o Hp. apply (H1 p o).
  by apply (lookup_weaken _ _ _ _ Hp).
Qed.
Lemma text_hold st p o now : is_text p -> text_paths st -> text_paths (hold p o now st).
Proof.
  intros Hp [H1 H2 H3]. split; [|exact H2|exact H3]. intros q x Hq. cbn in Hq.
  apply lookup_insert_Some in Hq as [[<- _]|[_ Hq]]; [exact Hp|by apply (H1 q x)].
Qed.
Lemma text_unhold st p : text_paths st -> text_paths (unhold p st).
Proof. apply text_same; [apply delete_subseteq|done|done]. Qed.

Record mirrors (st : LockState) (d : LockDb) : Prop := mkMirrors {
  mi_held : forall p, row_owner <$> lock_state d !! p = stored_owner (held st !! p);
  mi_reads : forall o p, stored_hash <$> lock_reads d !! (o, p) = read_of st o p;
  mi_forced : forced_released st = ∅;
  mi_text : text_paths st }.

Definition u64_hash (h : option Z) : Prop := forall x, h = Some x -> 0 <= x < 2 ^ 64.
Lemma hash_roundtrip h : u64_hash h -> (hash_as_u64 <$> (hash_as_i64 <$> h)) = h.
Proof.
  intros Hh. destruct h as [x|]; [|done]. specialize (Hh x eq_refl). cbn. f_equal.
  unfold hash_as_i64, hash_as_u64. destruct (x <? 2 ^ 63) eqn:Hx.
  - destruct (x <? 0) eqn:H0; [apply Z.ltb_lt in H0; lia|done].
  - apply Z.ltb_ge in Hx. assert ((x - 2 ^ 64 <? 0) = true) as -> by (apply Z.ltb_lt; lia). lia.
Qed.

(** A row of the path exactly when a session holds it. *)
Lemma mirror_row st d p : mirrors st d ->
  lock_state d !! p = None <-> stored_owner (held st !! p) = None.
Proof. intros [Hh _ _ _]. rewrite <- Hh. by rewrite fmap_None. Qed.
Lemma stored_owner_Some o o' : stored_owner o = Some o' -> o = Some o'.
Proof. destruct o as [o|]; cbn; [|done]. destruct (o.1 =? 0); [done|]. congruence. Qed.

Lemma mirrors_hold st d p o now r :
  mirrors st d -> o.1 <> 0 -> row_owner r = o -> is_text p ->
  mirrors (hold p o now st) (set_lock_state (<[p := r]> (lock_state d)) d).
Proof.
  intros [Hh Hr Hf Hx] Ho Hro Hp. split; [|exact Hr|exact Hf|by apply text_hold]. intros q. cbn.
  destruct (decide (p = q)) as [<-|Hne].
  - rewrite !lookup_insert_eq. cbn. apply Z.eqb_neq in Ho. by rewrite Ho, Hro.
  - rewrite !lookup_insert_ne by done. apply Hh.
Qed.
Lemma mirrors_transient st d p a now : mirrors st d -> held st !! p = None -> is_text p ->
  mirrors (hold p (0, a) now st) d.
Proof.
  intros Hm Hp Htx. pose proof Hm as [Hh Hr Hf Hx]. split; [|exact Hr|exact Hf|by apply text_hold]. intros q. cbn.
  destruct (decide (p = q)) as [<-|Hne]; [|rewrite lookup_insert_ne by done; apply Hh].
  rewrite lookup_insert_eq. cbn. rewrite fmap_None. apply (mirror_row _ _ _ Hm). by rewrite Hp.
Qed.
Lemma mirrors_unhold_if st d p o : mirrors st d -> mirrors (unhold_if p o st) (delete_lock_row p o d).
Proof.
  intros Hm. pose proof Hm as [Hh Hr Hf Hx]. pose proof (Hh p) as Hp. unfold unhold_if, delete_lock_row, holds.
  case_bool_decide as Hheld.
  - rewrite Hheld in Hp. cbn in Hp. destruct (lock_state d !! p) as [r|] eqn:Hrow; cbn in Hp.
    + destruct (o.1 =? 0); [done|]. injection Hp as Hp. rewrite bool_decide_true by done.
      split; [|exact Hr|exact Hf|by apply text_unhold]. intros q. cbn.
      destruct (decide (p = q)) as [<-|Hne]; [by rewrite !lookup_delete_eq|rewrite !lookup_delete_ne by done; apply Hh].
    + split; [|exact Hr|exact Hf|by apply text_unhold]. intros q. cbn.
      destruct (decide (p = q)) as [<-|Hne]; [by rewrite lookup_delete_eq, Hrow|rewrite lookup_delete_ne by done; apply Hh].
  - destruct (lock_state d !! p) as [r|] eqn:Hrow; [|exact Hm].
    rewrite bool_decide_false; [exact Hm|]. cbn in Hp. intros Hro. apply Hheld.
    apply stored_owner_Some. by rewrite <- Hp, Hro.
Qed.
Lemma read_of_note st o p h o' q :
  read_of (note_in o p h st) o' q = if bool_decide ((o, p) = (o', q)) then Some h else read_of st o' q.
Proof.
  unfold read_of, note_in. cbn. destruct (decide (o = o')) as [<-|Hne].
  - rewrite lookup_insert_eq. cbn. destruct (decide (p = q)) as [<-|Hpq].
    + by rewrite lookup_insert_eq, bool_decide_true.
    + rewrite lookup_insert_ne by done. rewrite bool_decide_false by congruence.
      destruct (read_tracker st !! o); cbn; [done|by rewrite lookup_empty].
  - rewrite lookup_insert_ne by done. by rewrite bool_decide_false by congruence.
Qed.
Lemma mirrors_note st d o p h now :
  mirrors st d -> u64_hash h ->
  mirrors (note_in o p h st) (set_lock_reads (<[(o, p) := mkReadRow now (hash_as_i64 <$> h)]> (lock_reads d)) d).
Proof.
  intros [Hh Hr Hf Hx] Hhash. split; [exact Hh| |exact Hf|by apply (text_same st)]. intros o' q. rewrite read_of_note. cbn.
  case_bool_decide as Heq.
  - rewrite Heq, lookup_insert_eq. cbn. unfold stored_hash. cbn. by rewrite hash_roundtrip.
  - rewrite lookup_insert_ne by done. apply Hr.
Qed.
Lemma read_of_forget st o p o' q :
  read_of (forget_read o p st) o' q = if bool_decide ((o, p) = (o', q)) then None else read_of st o' q.
Proof.
  unfold read_of, forget_read. destruct (read_tracker st !! o) as [m|] eqn:Hm; cbn.
  - destruct (decide (o = o')) as [<-|Hne].
    + rewrite lookup_insert_eq, Hm. cbn. destruct (decide (p = q)) as [<-|Hpq].
      * by rewrite lookup_delete_eq, bool_decide_true.
      * rewrite lookup_delete_ne by done. by rewrite bool_decide_false by congruence.
    + rewrite lookup_insert_ne by done. by rewrite bool_decide_false by congruence.
  - case_bool_decide as Heq; [|done]. injection Heq as <- <-. by rewrite Hm.
Qed.
Lemma read_of_drop st o p o' q : read_of (drop_read o p st) o' q = read_of (forget_read o p st) o' q.
Proof.
  unfold read_of, drop_read, forget_read. destruct (read_tracker st !! o) as [m|] eqn:Hm; [|done]. cbn.
  case_bool_decide as Hempty; [|done]. destruct (decide (o = o')) as [<-|Hne].
  - rewrite lookup_delete_eq, lookup_insert_eq. cbn. by rewrite Hempty, lookup_empty.
  - by rewrite lookup_delete_ne, lookup_insert_ne by done.
Qed.
Lemma mirrors_forget st d o p :
  mirrors st d -> mirrors (forget_read o p st) (set_lock_reads (delete (o, p) (lock_reads d)) d).
Proof.
  intros [Hh Hr Hf Hx]. split; [|intros o' q; rewrite read_of_forget; cbn| |].
  - intros q. cbn. rewrite Hh. unfold forget_read. by destruct (read_tracker st !! o).
  - case_bool_decide as Heq; [by rewrite Heq, lookup_delete_eq|]. rewrite lookup_delete_ne by done. apply Hr.
  - unfold forget_read. by destruct (read_tracker st !! o).
  - unfold forget_read. destruct (read_tracker st !! o); [|exact Hx]. by apply (text_same st).
Qed.
Lemma mirrors_same st st' d : held st' = held st -> (forall o p, read_of st' o p = read_of st o p) ->
  forced_released st' = forced_released st -> suspended st' = suspended st -> session_released st' = session_released st ->
  mirrors st d -> mirrors st' d.
Proof.
  intros Hh Hr Hf Hs Hl [H1 H2 H3 H4].
  split; [intros p; by rewrite Hh|intros o p; by rewrite Hr|congruence|by apply (text_same st); rewrite ?Hh].
Qed.
Lemma mirrors_drop st d o p :
  mirrors st d -> mirrors (drop_read o p st) (set_lock_reads (delete (o, p) (lock_reads d)) d).
Proof.
  intros Hm. eapply mirrors_same; [| | | | |by apply mirrors_forget].
  - unfold drop_read, forget_read. by destruct (read_tracker st !! o).
  - intros o' q. apply read_of_drop.
  - unfold drop_read, forget_read. by destruct (read_tracker st !! o).
  - unfold drop_read, forget_read. by destruct (read_tracker st !! o).
  - unfold drop_read, forget_read. by destruct (read_tracker st !! o).
Qed.
Lemma mirrors_unforce st d p : mirrors st d -> mirrors (set_forced_released (forced_released st ∖ {[p]}) st) d.
Proof. intros [Hh Hr Hf Hx]. split; [exact Hh|exact Hr| |by apply (text_same st)]. cbn. rewrite Hf. set_solver. Qed.

(** ** Undisturbed calls keep the mirror *)

(** Files whose hashes fit 64 bits, and in which text resolves to text. *)
Record calm_files (files : Files) : Prop := mkCalmFiles {
  cf_hash : forall p, u64_hash (fs_hash files p);
  cf_text : forall p, is_text p -> is_text (default p (fs_resolve files p)) }.
(** The mirror, with such files and the known session rows. *)
Record calm_inv (ids : gset Z) (s : Shared) : Prop := mkCalm {
  ci_mirrors : mirrors (sh_state s) (sh_db s);
  ci_files : calm_files (sh_files s);
  ci_sessions : lock_sessions (sh_db s) = ids }.
Definition calm (ids : gset Z) {A} (p : Prog A) : Prop :=
  forall s, calm_inv ids s -> calm_inv ids (exec p s).1.

Lemma calm_bind ids {A B} (p : Prog A) (k : A -> Prog B) : calm ids p -> (forall a, calm ids (k a)) -> calm ids (p ≫= k).
Proof.
  intros Hp Hk s Hs. rewrite exec_bind. specialize (Hp s Hs). destruct (exec p s) as [s' [a|f k'|op k'|n k'|l k']]; cbn [fst] in *;
    [by apply Hk|exact Hp..].
Qed.
Lemma calm_ret ids {A} (a : A) : calm ids (mret a).
Proof. intros s Hs. exact Hs. Qed.
Lemma calm_look ids {A} (f : LockState -> A) : calm ids (section (fun st => (st, f st))).
Proof. intros s [Hm Hh Hs]. by split. Qed.
(** A part with what its result satisfies, and a resolved path. *)
Lemma calm_bind_post ids {A B} (Q : A -> Prop) (p : Prog A) (k : A -> Prog B) :
  (forall s, calm_inv ids s -> calm_inv ids (exec p s).1 /\ forall a, (exec p s).2 = PRet a -> Q a) ->
  (forall a, Q a -> calm ids (k a)) -> calm ids (p ≫= k).
Proof.
  intros Hp Hk s Hs. rewrite exec_bind. destruct (Hp s Hs) as [Hc HQ].
  destruct (exec p s) as [s' [a|f k'|op k'|n k'|l k']]; cbn [fst snd] in *; [by apply Hk; [apply HQ|]|exact Hc..].
Qed.
Lemma calm_canon ids {A} p (k : LockPath -> Prog A) : is_text p ->
  (forall canon, is_text canon -> calm ids (k canon)) -> calm ids (canonicalize p ≫= k).
Proof.
  intros Hp. apply calm_bind_post. intros s Hs. split; [exact Hs|]. intros a [= <-]. by apply (cf_text _ (ci_files _ _ Hs)).
Qed.
Lemma calm_notify ids : calm ids notify_waiters.
Proof. intros s [Hm Hh Hs]. by split. Qed.
Lemma calm_loop ids l : calm ids (PLoop l PRet).
Proof. intros s Hs. exact Hs. Qed.
Lemma calm_update ids f : (forall st d, mirrors st d -> mirrors (f st) d) -> calm ids (update f).
Proof. intros Hf s [Hm Hh Hs]. split; [by apply Hf|exact Hh|exact Hs]. Qed.
Create HintDb calm.
#[export] Hint Resolve calm_ret calm_look calm_notify calm_loop : calm.

(** Reduce a run to its sections and statements. *)
Ltac run :=
  cbn [exec mbind Prog_bind prog_bind section section_at section_files sync dbcall update mret Prog_ret file_hash
       canonicalize now_secs notify_waiters sh_state sh_db sh_files sh_now sh_epoch set_sh_state set_sh_db fst snd
       andb orb negb].
(** Walk through a program of calm parts. *)
Ltac calms :=
  repeat (cbv zeta; match goal with
    | |- calm _ (mbind _ (canonicalize _)) => apply calm_canon; [assumption|intros ? ?]
    | |- calm _ (mbind _ _) => apply calm_bind; [|intros ?]
    | |- calm _ (if ?b then _ else _) => destruct b
    | |- calm _ (match ?x with _ => _ end) => destruct x
    | |- calm _ _ => solve [auto with calm]
    end).

Section calm_calls.
Context `{LockOrder} (ids : gset Z).

Lemma clear_waiter_calm o : calm ids (clear_waiter o).
Proof using Type. apply calm_update. intros st d. by apply mirrors_same. Qed.
Lemma record_wait_calm o p h : calm ids (record_wait_or_cycle o p h).
Proof using Type.
  intros s [Hm Hh Hs]. unfold record_wait_or_cycle. run. destruct (wait_cycle _ _); run; split; try done;
    by eapply mirrors_same; [| | | | |exact Hm].
Qed.
(** The database takes a path that memory has free. *)
Lemma acquire_free_row st d p agent session now :
  mirrors st d -> held st !! p = None -> session ∈ lock_sessions d ->
  guarded_lock_acquire p agent session now d = Some (set_lock_state (<[p := mkLockRow agent session now]> (lock_state d)) d).
Proof using Type.
  intros Hm Hp Hs. unfold guarded_lock_acquire, session_known. rewrite bool_decide_true by done. cbn.
  by rewrite (proj2 (mirror_row st d p Hm)) by (by rewrite Hp).
Qed.
Lemma note_row d p agent session h now : session ∈ lock_sessions d ->
  note_read_row p agent session h now d =
  Some (set_lock_reads (<[((session, agent), p) := mkReadRow now (hash_as_i64 <$> h)]> (lock_reads d)) d).
Proof using Type. intros Hs. unfold note_read_row, session_known. by rewrite bool_decide_true. Qed.
Lemma try_acquire_calm records p agent session rr :
  session ∈ ids -> session <> 0 -> is_text p -> calm ids (try_acquire records p agent session rr).
Proof using Type.
  intros Hin Hnz Hp0 s [Hm Hh Hs]. unfold try_acquire. rewrite <- Hs in Hin.
  destruct (rr && records) eqn:Hrr; run.
  all: destruct (held (sh_state s) !! p) as [o|] eqn:Hp; [case_bool_decide; run; by split|].
  all: rewrite bool_decide_false by (cbn; rewrite (mi_forced _ _ Hm); set_solver); run.
  - unfold lock_acquire_with_read. rewrite Hp0. erewrite acquire_free_row by done. cbn [mbind option_bind].
    rewrite note_row by done. run.
    split; [|exact Hh|exact Hs]. run. apply mirrors_unforce.
    apply (mirrors_note (hold p (session, agent) (sh_now s) (sh_state s))); [|apply (cf_hash _ Hh)].
    by apply mirrors_hold.
  - unfold lock_acquire. rewrite Hp0. erewrite acquire_free_row by done. run.
    split; [|exact Hh|exact Hs]. run. by apply mirrors_unforce, mirrors_hold.
Qed.
Hint Resolve clear_waiter_calm record_wait_calm try_acquire_calm : calm.
Lemma acquire_calm records p agent session : session ∈ ids -> session <> 0 -> is_text p ->
  calm ids (acquire records p agent session).
Proof using Type. intros Hin Hnz Hp. unfold acquire. calms. Qed.
Lemma acquire_wait_calm records p agent session rr :
  session ∈ ids -> session <> 0 -> is_text p -> calm ids (acquire_wait_inner records p agent session rr).
Proof using Type. intros Hin Hnz Hp. unfold acquire_wait_inner. calms. Qed.
Lemma calm_wait {A} n (k : Wake -> Prog A) : (forall w, calm ids (k w)) -> calm ids (PWait n k).
Proof using Type. intros Hk s Hs. cbn [exec]. destruct (n <? sh_epoch s)%nat; [by apply Hk|exact Hs]. Qed.
Lemma acquire_wait_turn_calm l : wa_session l ∈ ids -> wa_session l <> 0 -> is_text (wa_canon l) ->
  calm ids (acquire_wait_turn l).
Proof using Type.
  intros Hin Hnz Hp. unfold acquire_wait_turn. apply calm_bind; [by intros s Hs|intros n]. calms.
  all: apply calm_wait; intros [| |]; unfold wait_context; calms.
Qed.
Lemma release_calm p agent session : is_text p -> calm ids (release p agent session).
Proof using Type.
  intros Hpx. unfold release. apply calm_canon; [done|intros canon Hcx].
  intros s [Hm Hh Hs]. run. destruct (held (sh_state s) !! canon) as [o|] eqn:Hp; [|run; by split].
  case_bool_decide; [|case_bool_decide; run; by split]. unfold lock_release. rewrite Hcx. run. split; [|exact Hh|].
  - run. by apply mirrors_unforce, mirrors_unhold_if.
  - run. unfold delete_lock_row. by repeat case_match.
Qed.
Lemma release_and_drop_read_calm p agent session : is_text p -> calm ids (release_and_drop_read p agent session).
Proof using Type.
  intros Hpx. unfold release_and_drop_read. apply calm_canon; [done|intros canon Hcx]. intros s [Hm Hh Hs].
  cbv zeta. rewrite exec_bind. unfold lock_release_and_delete_reads. cbn [foldl fst snd]. rewrite Hcx. run.
  assert (calm_inv ids (set_sh_state (set_forced_released (forced_released (drop_read (session, agent) canon (unhold_if canon (session, agent) (sh_state s))) ∖ {[canon]})
             (drop_read (session, agent) canon (unhold_if canon (session, agent) (sh_state s))))
            (set_sh_db (set_lock_reads (delete (session, agent, canon) (lock_reads (delete_lock_row canon (session, agent) (sh_db s))))
                 (delete_lock_row canon (session, agent) (sh_db s))) s))) as Hend.
  { split; [|exact Hh|].
    - run. by apply mirrors_unforce, mirrors_drop, mirrors_unhold_if.
    - run. unfold delete_lock_row. by repeat case_match. }
  destruct (holds _ _ _); run; [|exact Hend]. destruct Hend as [H1 H2 H3]. by split.
Qed.
Lemma release_force_memory_calm p agent session : is_text p -> calm ids (release_force_memory p agent session).
Proof using Type.
  intros Hpx. unfold release_force_memory. apply calm_canon; [done|intros canon Hcx].
  intros s [Hm Hh Hs]. run. destruct (holds _ _ _); run; [|by split]. unfold lock_release. rewrite Hcx. run. split; [|exact Hh|].
  - run. by apply mirrors_unforce, mirrors_unhold_if.
  - run. unfold delete_lock_row. by repeat case_match.
Qed.
Lemma note_read_calm records p agent session : session ∈ ids -> is_text p -> calm ids (note_read records p agent session).
Proof using Type.
  intros Hin Hpx. unfold note_read. destruct records; cbn [negb]; [|apply calm_ret].
  apply calm_canon; [done|intros canon Hcx]. intros s [Hm Hh Hs]. run.
  unfold lock_note_read. rewrite Hcx, note_row by (by rewrite Hs). run.
  split; [|exact Hh|exact Hs]. by apply mirrors_note; [|apply (cf_hash _ Hh)].
Qed.
Lemma note_authored_calm records p agent session : is_text p -> calm ids (note_authored records p agent session).
Proof using Type.
  intros Hpx. unfold note_authored. destruct records; cbn [negb]; [|apply calm_ret].
  apply calm_canon; [done|intros canon Hcx]. intros s [Hm Hh Hs]. run.
  destruct (fs_hash (sh_files s) canon); run; split; try done. by eapply mirrors_same; [| | | | |exact Hm].
Qed.
Lemma begin_write_calm p agent session : session ∈ ids -> session <> 0 -> is_text p -> calm ids (begin_write p agent session).
Proof using Type.
  intros Hin Hnz Hpx. unfold begin_write. apply calm_canon; [done|intros canon Hcx].
  intros s [Hm Hh Hs]. rewrite <- Hs in Hin. run.
  destruct (held (sh_state s) !! canon) as [o|] eqn:Hp; [case_bool_decide; run; by split|].
  destruct (fresh_read _ _ _); run; [by split|]. unfold lock_acquire. rewrite Hcx. erewrite acquire_free_row by done. run.
  split; [|exact Hh|exact Hs]. by apply mirrors_hold.
Qed.
Hint Resolve release_force_memory_calm : calm.
Lemma begin_guard_calm p agent session b1 b2 b3 : is_text p -> calm ids (begin_guard_after_wait p agent session b1 b2 b3).
Proof using Type.
  intros Hpx. unfold begin_guard_after_wait. apply calm_canon; [done|intros canon Hcx].
  apply calm_bind; [intros s [Hm Hh Hs]; run; by split|intros r]. calms.
Qed.
Lemma acquire_transient_calm p agent : is_text p -> calm ids (acquire_transient p agent).
Proof using Type.
  intros Hpx. unfold acquire_transient. apply calm_canon; [done|intros canon Hcx]. intros s [Hm Hh Hs]. run.
  destruct (held (sh_state s) !! canon) as [o|] eqn:Hp; [case_bool_decide; run; by split|]. run.
  split; [by apply mirrors_transient|exact Hh|exact Hs].
Qed.
Lemma delete_row_sessions p o d : lock_sessions (delete_lock_row p o d) = lock_sessions d.
Proof using Type. unfold delete_lock_row. by repeat case_match. Qed.
Lemma mirrors_abandon st d p o : mirrors st d -> holds st p o = true ->
  mirrors (set_forced_released (({[p]} ∪ forced_released (unhold p st)) ∖ {[p]}) (unhold p st)) (delete_lock_row p o d).
Proof using Type.
  intros Hm Hh. pose proof (mirrors_unhold_if st d p o Hm) as Hu. unfold unhold_if in Hu. rewrite Hh in Hu.
  eapply mirrors_same; [| | | | |exact Hu]; [done|done| |done|done]. cbn. rewrite (mi_forced _ _ Hm). set_solver.
Qed.
(** A dropped guard of a path that still resolves to itself, with a runtime to persist it. *)
Lemma write_guard_drop_calm g s : calm_inv ids s -> is_text (wg_path g) ->
  default (wg_path g) (fs_resolve (sh_files s) (wg_path g)) = wg_path g ->
  calm_inv ids (exec (write_guard_drop true g) s).1.
Proof using Type.
  intros [Hm Hh Hs] Htx Hp. unfold write_guard_drop. destruct (negb _ || negb _); [run; by split|].
  unfold release_abandoned_write_guard_memory, persist_abandoned_write_guard_release. run. rewrite Hp.
  destruct (holds _ _ _) eqn:Hheld; run; [|by split]. unfold lock_release. rewrite Htx. run. split; [|exact Hh|].
  - run. by apply mirrors_abandon.
  - run. by rewrite delete_row_sessions.
Qed.
Lemma release_after_write_calm g : is_text (wg_path g) -> calm ids (release_after_write g).
Proof using Type. intros Htx. unfold release_after_write. calms. Qed.
Lemma transient_guard_drop_calm g : tg_session g = 0 -> calm ids (transient_guard_drop g).
Proof using Type.
  intros Hz. unfold transient_guard_drop. calms. apply calm_update. intros st d Hm.
  pose proof (mirrors_unhold_if st d (tg_path g) (tg_session g, tg_agent g) Hm) as Hu.
  unfold delete_lock_row in Hu. destruct (lock_state d !! tg_path g) as [r|] eqn:Hr; [|exact Hu].
  rewrite bool_decide_false in Hu; [exact Hu|]. intros Heq. pose proof (mi_held _ _ Hm (tg_path g)) as Hp.
  rewrite Hr in Hp. cbn in Hp. rewrite Heq, Hz in Hp. destruct (held st !! tg_path g) as [o|]; cbn in Hp; [|done].
  destruct (o.1 =? 0) eqn:H0; [done|]. apply Z.eqb_neq in H0. injection Hp as <-. by destruct H0.
Qed.
Lemma calm_dbcall op : (forall now st d d', op now d = Some d' -> mirrors st d -> mirrors st d' /\ lock_sessions d' = lock_sessions d) ->
  calm ids (dbcall op).
Proof using Type.
  intros Hop s [Hm Hh Hs]. run. destruct (op (sh_now s) (sh_db s)) as [d'|] eqn:Hd; run; [|by split].
  destruct (Hop _ _ _ _ Hd Hm) as [Hm' Hs']. split; [exact Hm'|exact Hh|]. run. congruence.
Qed.
Lemma calm_for_each {A} (l : list A) f : Forall (fun x => calm ids (f x)) l -> calm ids (for_each l f).
Proof using Type.
  intros Hf. induction Hf as [|x l Hx _ IH]; [apply calm_ret|]. cbn [for_each]. apply calm_bind; [apply Hx|]. intros _. exact IH.
Qed.
Lemma paths_held_spec f st p o : (p, o) ∈ paths_held f st <-> held st !! p = Some o /\ f o = true.
Proof using Type.
  unfold paths_held. rewrite list_elem_of_filter, lock_iter_perm, elem_of_map_to_list. cbn. tauto.
Qed.
Lemma paths_held_text f st : text_paths st -> Forall (fun po => is_text po.1) (paths_held f st).
Proof using Type. intros Hx. apply Forall_forall. intros [p o] [Hp _]%paths_held_spec. by apply (tx_held _ Hx p o). Qed.
Lemma foldl_ext_in {A B} (f g : A -> B -> A) (l : list B) a :
  (forall a x, x ∈ l -> f a x = g a x) -> foldl f a l = foldl g a l.
Proof using Type.
  revert a. induction l as [|x l IH]; intros a Hfg; [done|]. cbn [foldl]. rewrite (Hfg a x) by left.
  apply IH. intros b y Hy. apply Hfg. by right.
Qed.
Lemma touch_holder_calm agent session : calm ids (touch_holder agent session).
Proof using Type.
  unfold touch_holder. apply calm_bind; [by intros s Hs|intros now].
  apply (calm_bind_post _ (Forall is_text)).
  { intros s [Hm Hh Hs]. run. split; [split; [|exact Hh|exact Hs]; by eapply mirrors_same; [| | | | |exact Hm]|].
    intros a [= <-]. by apply Forall_fmap, paths_held_text, (mi_text _ _ Hm). }
  intros paths Hpaths. apply calm_for_each. eapply Forall_impl; [exact Hpaths|]. intros p Hpx.
  calms. apply calm_dbcall. intros now' st d d' Hd Hm. unfold lock_touch in Hd. rewrite Hpx in Hd. cbv zeta in Hd.
  destruct (lock_state d !! p) as [r|] eqn:Hr; [|by simplify_eq]. case_bool_decide as Ho; simplify_eq; [|done].
  split; [|done]. destruct Hm as [H1 H2 H3 H4]. split; [|exact H2|exact H3|exact H4]. intros q. cbn.
  destruct (decide (p = q)) as [<-|Hne]; [|rewrite lookup_insert_ne by done; apply H1].
  rewrite lookup_insert_eq. specialize (H1 p). rewrite Hr in H1. rewrite <- H1. change (Some (session, agent) = Some (row_owner r)). by rewrite Ho.
Qed.
(** Releasing a list of holds in memory and on disk. *)
Lemma mirrors_unhold_list (l : list (LockPath * Owner)) st d : mirrors st d ->
  mirrors (foldl (fun st po => unhold_if po.1 po.2 st) st l) (foldl (fun d po => delete_lock_row po.1 po.2 d) d l).
Proof using Type.
  revert st d. induction l as [|[p o] l IH]; intros st d Hm; [exact Hm|]. cbn [foldl fst snd]. by apply IH, mirrors_unhold_if.
Qed.
Lemma unhold_list_if (l : list (LockPath * Owner)) st :
  NoDup l.*1 -> (forall p o, (p, o) ∈ l -> held st !! p = Some o) ->
  foldl (fun st po => unhold po.1 st) st l = foldl (fun st po => unhold_if po.1 po.2 st) st l.
Proof using Type.
  revert st. induction l as [|[p o] l IH]; intros st Hnd Hl; [done|]. cbn [foldl fst snd].
  apply NoDup_cons in Hnd as [Hp Hnd]. unfold unhold_if at 2, holds.
  rewrite bool_decide_true by (apply Hl; left). apply IH; [exact Hnd|]. intros q x Hq. cbn.
  rewrite lookup_delete_ne; [apply Hl; by right|]. intros ->. apply Hp. by apply (list_elem_of_fmap_2 fst _ _ Hq).
Qed.
Lemma exec_hash_each {A} (l : list (LockPath * A)) s : exists h, exec (hash_each l) s = (s, PRet h) /\ h.*1 = l.*1.
Proof using Type.
  induction l as [|[p x] l (h & IH & Hf)]; [by exists []|]. cbn [hash_each]. eexists. run. rewrite exec_bind, IH.
  split; [reflexivity|]. cbn. by rewrite Hf.
Qed.
(** What is remembered of released paths names only those. *)
Lemma snapshot_text {A} (h : list (LockPath * (A * option Z))) p x :
  Forall is_text h.*1 -> snapshot_of h !! p = Some x -> is_text p.
Proof using Type.
  intros Hh Hp. unfold snapshot_of in Hp. apply elem_of_list_to_map_2 in Hp. apply list_elem_of_omap in Hp as ([q y] & Hq & He).
  cbn in He. destruct y.2; simplify_eq/=. rewrite Forall_forall in Hh. apply Hh. by apply (list_elem_of_fmap_2 fst _ _ Hq).
Qed.
Lemma mirrors_suspended st d key m : (forall p x, m !! p = Some x -> is_text p) -> mirrors st d ->
  mirrors (set_suspended (<[key := m]> (suspended st)) st) d.
Proof using Type.
  intros Hm [H1 H2 H3 [T1 T2 T3]]. split; [exact H1|exact H2|exact H3|]. split; [exact T1| |exact T3]. cbn. intros k m' p h Hk.
  apply lookup_insert_Some in Hk as [[_ <-]|[_ Hk]]; [apply Hm|by apply (T2 k)].
Qed.
Lemma mirrors_released st d key m : (forall p x, m !! p = Some x -> is_text p) -> mirrors st d ->
  mirrors (set_session_released (<[key := m]> (session_released st)) st) d.
Proof using Type.
  intros Hm [H1 H2 H3 [T1 T2 T3]]. split; [exact H1|exact H2|exact H3|]. split; [exact T1|exact T2|]. cbn. intros k m' p h Hk.
  apply lookup_insert_Some in Hk as [[_ <-]|[_ Hk]]; [apply Hm|by apply (T3 k)].
Qed.
Lemma exec_try_each {A} (F : A -> LockDb -> LockDb) (l : list A) s :
  exec (try_each l (fun x => dbcall (fun _ d => Some (F x d)))) s =
  (set_sh_db (foldl (fun d x => F x d) (sh_db s) l) s, PRet true).
Proof using Type.
  revert s. induction l as [|x l IH]; intros s; [by destruct s|]. cbn [try_each foldl]. run. by rewrite IH.
Qed.
Lemma NoDup_filter_fst {A B} (P : A * B -> Prop) `{!forall x, Decision (P x)} (l : list (A * B)) :
  NoDup l.*1 -> NoDup (filter P l).*1.
Proof using Type.
  intros Hl. eapply sublist_NoDup; [exact Hl|]. apply fmap_sublist, sublist_filter.
Qed.
Lemma lock_iter_NoDup {A} (m : gmap LockPath A) : NoDup (lock_iter m).*1.
Proof using Type. rewrite lock_iter_perm. apply NoDup_fst_map_to_list. Qed.
Lemma foldl_delete_sessions (l : list (LockPath * Owner)) d :
  lock_sessions (foldl (fun d po => delete_lock_row po.1 po.2 d) d l) = lock_sessions d.
Proof using Type. revert d. induction l as [|x l IH]; intros d; [done|]. cbn [foldl]. by rewrite IH, delete_row_sessions. Qed.
(** Holds given up on disk and in memory, whoever they are of. *)
Lemma suspend_mirrors f st d : mirrors st d ->
  mirrors (foldl (fun st po => unhold po.1 st) st (paths_held f st))
          (foldl (fun d po => delete_lock_row po.1 po.2 d) d (paths_held f st)).
Proof using Type.
  intros Hm. rewrite unhold_list_if.
  - by apply mirrors_unhold_list.
  - apply NoDup_filter_fst, lock_iter_NoDup.
  - intros p o [Hp _]%paths_held_spec. exact Hp.
Qed.
Lemma release_rows_agent o (l : list (LockPath * Owner)) d : Forall (fun po => is_text po.1) l -> Forall (fun po => po.2 = o) l ->
  foldl (fun d po => delete_lock_row (path_string po.1) o d) d l = foldl (fun d po => delete_lock_row po.1 po.2 d) d l.
Proof using Type.
  intros Htx Hl. apply foldl_ext_in. intros d' x Hx. rewrite Forall_forall in Htx, Hl. by rewrite (Htx x Hx), (Hl x Hx).
Qed.
Lemma release_rows_session session (l : list (LockPath * Owner)) d :
  Forall (fun po => is_text po.1) l -> Forall (fun po => po.2.1 = session) l ->
  foldl (fun d pa => delete_lock_row (path_string pa.1) (session, pa.2) d) d ((fun po => (po.1, po.2.2)) <$> l) =
  foldl (fun d po => delete_lock_row po.1 po.2 d) d l.
Proof using Type.
  intros Htx Hl. revert d. induction Hl as [|[p [x a]] l Hx _ IH]; intros d; [done|]. cbn in Hx. subst x.
  apply Forall_cons in Htx as [Hp Htx]. cbn [fmap list_fmap foldl fst snd]. rewrite Hp. by apply IH.
Qed.
Lemma suspend_agent_calm agent session : calm ids (suspend_agent agent session).
Proof using Type.
  intros s [Hm Hh Hs]. unfold suspend_agent. run. case_bool_decide; [run; by split|].
  pose proof (paths_held_text (is_owner (session, agent)) _ (mi_text _ _ Hm)) as Htx.
  rewrite exec_bind. match goal with |- context [exec (hash_each ?l) ?s] => destruct (exec_hash_each l s) as (h & -> & Hf) end.
  rewrite exec_bind. unfold lock_release.
  rewrite (exec_try_each (fun po => delete_lock_row (path_string po.1) (session, agent))). run.
  rewrite release_rows_agent by
    first [exact Htx|apply Forall_forall; intros [p o] [_ Ho]%paths_held_spec; by apply bool_decide_eq_true in Ho].
  split; run; [|exact Hh|by rewrite foldl_delete_sessions].
  apply mirrors_suspended; [|by apply suspend_mirrors].
  intros p x Hp. apply lookup_fmap_Some in Hp as (y & _ & Hp). apply (snapshot_text h p y); [|exact Hp].
  rewrite Hf. by apply Forall_fmap.
Qed.
Lemma foldl_unhold_fmap {X Y} (g : LockPath * X -> LockPath * Y) l st : (forall x, (g x).1 = x.1) ->
  foldl (fun st po => unhold po.1 st) st (g <$> l) = foldl (fun st po => unhold po.1 st) st l.
Proof using Type.
  intros Hg. revert st. induction l as [|x l IH]; intros st; [done|]. cbn [fmap list_fmap foldl]. by rewrite Hg, IH.
Qed.
Lemma suspend_session_calm session : calm ids (suspend_session session).
Proof using Type.
  intros s [Hm Hh Hs]. unfold suspend_session. run. case_bool_decide; [run; by split|].
  pose proof (paths_held_text (in_session session) _ (mi_text _ _ Hm)) as Htx.
  rewrite exec_bind. match goal with |- context [exec (hash_each ?l) ?s] => destruct (exec_hash_each l s) as (h & -> & Hf) end.
  rewrite exec_bind. unfold lock_release.
  rewrite (exec_try_each (fun pa => delete_lock_row (path_string pa.1) (session, pa.2))). run.
  rewrite release_rows_session by
    first [exact Htx|apply Forall_forall; intros [p o] [_ Ho]%paths_held_spec; by apply bool_decide_eq_true in Ho].
  rewrite foldl_unhold_fmap by done. split; run; [|exact Hh|by rewrite foldl_delete_sessions].
  apply mirrors_released; [|by apply suspend_mirrors]. intros p x Hp. apply (snapshot_text h p x); [|exact Hp].
  rewrite Hf, <- list_fmap_compose. by apply Forall_fmap.
Qed.
(** The rows and read rows of idle holds, dropped on disk and in memory alike. *)
Lemma sweep_mirrors now cutoff (l : list (LockPath * Owner)) st d a b :
  mirrors st d -> NoDup l.*1 ->
  (forall p o, (p, o) ∈ l -> held st !! p = Some o /\ is_idle st now cutoff p = true) ->
  mirrors (foldl (fun acc po => sweep_one now cutoff po acc) (st, a, b) l).1.1
          (foldl (fun d e => let d := delete_lock_row e.1 e.2 d in set_lock_reads (delete (e.2, e.1) (lock_reads d)) d) d l) /\
  (foldl (fun acc po => sweep_one now cutoff po acc) (st, a, b) l).2 = b.
Proof using Type.
  revert st d a. induction l as [|[p o] l IH]; intros st d a Hm Hnd Hl; [done|]. cbn [foldl fst snd].
  apply NoDup_cons in Hnd as [Hp Hnd]. destruct (Hl p o ltac:(left)) as [Hheld Hidle].
  assert (holds st p o = true) as Hholds by (by apply bool_decide_eq_true).
  assert (sweep_one now cutoff (p, o) (st, a, b) = (forget_read o p (unhold p st), a ++ [p], b)) as ->
    by (unfold sweep_one; by rewrite Hholds, Hidle).
  apply IH; [|exact Hnd|].
  - pose proof (mirrors_unhold_if st d p o Hm) as Hu. unfold unhold_if in Hu. rewrite Hholds in Hu. by apply mirrors_forget.
  - intros q x Hq. destruct (Hl q x ltac:(by right)) as [Hqh Hqi].
    assert (p <> q) as Hne by (intros ->; apply Hp; by apply (list_elem_of_fmap_2 fst _ _ Hq)).
    assert (held (forget_read o p (unhold p st)) = delete p (held st)
            /\ touched (forget_read o p (unhold p st)) = delete p (touched st)) as [E1 E2]
      by (unfold forget_read; by destruct (read_tracker (unhold p st) !! o)).
    unfold is_idle. by rewrite E1, E2, !lookup_delete_ne.
Qed.
Lemma foldl_sweep_sessions (l : list (LockPath * Owner)) d :
  lock_sessions (foldl (fun d e => let d := delete_lock_row e.1 e.2 d in set_lock_reads (delete (e.2, e.1) (lock_reads d)) d) d l)
  = lock_sessions d.
Proof using Type.
  revert d. induction l as [|x l IH]; intros d; [done|]. cbn [foldl]. rewrite IH. cbn. apply delete_row_sessions.
Qed.
Lemma sweep_expired_calm now : calm ids (sweep_expired now).
Proof using Type.
  intros s [Hm Hh Hs]. unfold sweep_expired. run. case_bool_decide; [run; by split|].
  unfold lock_release_and_delete_reads. run.
  rewrite (foldl_ext_in _ (fun d e => let d := delete_lock_row e.1 e.2 d in set_lock_reads (delete (e.2, e.1) (lock_reads d)) d))
    by (intros d [p o] [_ Hp]%list_elem_of_filter; rewrite lock_iter_perm in Hp; apply elem_of_map_to_list in Hp;
        cbn [fst snd]; by rewrite (tx_held _ (mi_text _ _ Hm) p o Hp)).
  match goal with |- context [foldl ?F (sh_state s, [], []) ?l] =>
    destruct (sweep_mirrors now (now - LOCK_IDLE_TIMEOUT) l (sh_state s) (sh_db s) [] [] Hm) as [Hmir Hnone] end.
  { apply NoDup_filter_fst, lock_iter_NoDup. }
  { intros p o Hpo. apply list_elem_of_filter in Hpo as [Hi Hpo]. rewrite lock_iter_perm in Hpo.
    apply elem_of_map_to_list in Hpo. done. }
  destruct (foldl _ (sh_state s, [], []) _) as [[st' gone] restore]. cbn in Hmir, Hnone. subst restore. run.
  match goal with |- calm_inv _ (exec _ ?s').1 => assert (calm_inv ids s') as Hend end.
  { split; run; [exact Hmir|exact Hh|by rewrite foldl_sweep_sessions]. }
  cbn [for_each]. run. case_bool_decide; run; [exact Hend|]. by destruct Hend; split.
Qed.
(** Ending a session filters rows and memory alike. *)
Lemma end_mirrors session st d d' now : mirrors st d -> lock_cleanup_session session now d = Some d' ->
  mirrors (end_state session st) d'.
Proof using Type.
  intros [H1 H2 H3 [T1 T2 T3]] [= <-]. split; [| |exact H3|split].
  - intros p. cbn. specialize (H1 p). rewrite !map_lookup_filter.
    destruct (lock_state d !! p) as [r|] eqn:Hr; cbn in *.
    + symmetry in H1. apply stored_owner_Some in H1 as Hheld. rewrite Hheld in *. cbn in *.
      case_guard; cbn; [by rewrite H1|done].
    + destruct (held st !! p) as [o|] eqn:Ho; cbn in *; [|done]. case_guard; cbn; [exact H1|done].
  - intros o p. cbn. specialize (H2 o p). unfold read_of in *. cbn. rewrite !map_lookup_filter.
    destruct (lock_reads d !! (o, p)) as [r|] eqn:Hr; cbn in *;
      destruct (read_tracker st !! o) as [m|] eqn:Hm; cbn in *; try done; case_guard; cbn; done.
  - intros p o [Hp _]%map_lookup_filter_Some. by apply (T1 p o).
  - intros k m p h [Hk _]%map_lookup_filter_Some. by apply (T2 k m p h).
  - intros k m p h Hk. cbn in Hk. apply lookup_delete_Some in Hk as [_ Hk]. by apply (T3 k m p h).
Qed.
Lemma end_session_calm session : calm ids (end_session session).
Proof using Type.
  intros s [Hm Hh Hs]. unfold end_session. cbv zeta. rewrite exec_bind. run.
  destruct (lock_cleanup_session session (sh_now s) (sh_db s)) as [d|] eqn:Hd; [|done].
  pose proof (end_mirrors _ _ _ _ _ Hm Hd) as Hend. injection Hd as <-. run.
  match goal with |- context [negb ?b] => destruct b end; run; split; run; try done; exact Hend.
Qed.
End calm_calls.

(** ** Resumption *)

(** The two halves of the mirror, which the steps of a resumption restore one after the other. *)
Definition held_mirror (st : LockState) (d : LockDb) : Prop :=
  forall p, row_owner <$> lock_state d !! p = stored_owner (held st !! p).
Definition reads_mirror (st : LockState) (m : gmap (Owner * LockPath) LockReadRow) : Prop :=
  forall o p, stored_hash <$> m !! (o, p) = read_of st o p.
Lemma reads_forget st m o p : reads_mirror st m -> reads_mirror (forget_read o p st) (delete (o, p) m).
Proof.
  intros Hr o' q. rewrite read_of_forget. case_bool_decide as Heq; [by rewrite Heq, lookup_delete_eq|].
  rewrite lookup_delete_ne by done. apply Hr.
Qed.
Lemma forget_keeps o p st :
  held (forget_read o p st) = held st /\ forced_released (forget_read o p st) = forced_released st /\
  suspended (forget_read o p st) = suspended st /\ session_released (forget_read o p st) = session_released st.
Proof. unfold forget_read. by destruct (read_tracker st !! o). Qed.
Lemma text_forget o p st : text_paths st -> text_paths (forget_read o p st).
Proof. destruct (forget_keeps o p st) as (Hh & _ & Hs & Hr). intros Hx. by apply (text_same st); rewrite ?Hh. Qed.

Section resumption.
Context `{LockOrder} (ids : gset Z) {A : Type} (session : Z) (agent_of : A -> AgentId).
Let key_of := (fun x => (session, agent_of x)).

Definition forget_each (st : LockState) (l : list (LockPath * A)) : LockState :=
  foldl (fun st px => forget_read (key_of px.2) px.1 st) st l.
Definition delete_each (m : gmap (Owner * LockPath) LockReadRow) (l : list (LockPath * A)) :=
  foldl (fun m px => delete (key_of px.2, px.1) m) m l.
Lemma forget_each_mirror l st m : reads_mirror st m -> reads_mirror (forget_each st l) (delete_each m l).
Proof using Type.
  revert st m. induction l as [|[p x] l IH]; intros st m Hr; [exact Hr|]. cbn [forget_each delete_each foldl fst snd].
  by apply IH, reads_forget.
Qed.
Lemma forget_each_keeps l st :
  held (forget_each st l) = held st /\ forced_released (forget_each st l) = forced_released st /\
  (text_paths st -> text_paths (forget_each st l)).
Proof using Type.
  revert st. induction l as [|[p x] l IH]; intros st; [done|]. unfold forget_each. cbn [foldl fst snd].
  destruct (IH (forget_read (key_of x) p st)) as (E1 & E2 & E3). destruct (forget_keeps (key_of x) p st) as (F1 & F2 & _).
  unfold forget_each in *. rewrite E1, E2. split_and!; [done|done|]. intros Hx. by apply E3, text_forget.
Qed.
Lemma delete_each_app m l1 l2 : delete_each m (l1 ++ l2) = delete_each (delete_each m l1) l2.
Proof using Type. apply foldl_app. Qed.

Lemma exec_split (l : list (LockPath * (A * Z))) s : exists same drifted,
  exec (split_drifted key_of l) s = (set_sh_state (forget_each (sh_state s) drifted) s, PRet (same, drifted)) /\
  forall P, Forall P l.*1 -> Forall P same.*1 /\ Forall P drifted.*1.
Proof using Type.
  revert s. induction l as [|[p [x e]] l IH]; intros s.
  { exists [], []. by destruct s. }
  cbn [split_drifted]. run. case_bool_decide.
  - destruct (IH s) as (a & b & E & HP). exists ((p, x) :: a), b. rewrite exec_bind, E. split; [reflexivity|].
    intros P [Hp Hl]%Forall_cons. destruct (HP P Hl) as [Ha Hb]. split; [by constructor|exact Hb].
  - run. destruct (IH (set_sh_state (forget_read (key_of x) p (sh_state s)) s)) as (a & b & E & HP).
    exists a, ((p, x) :: b). rewrite exec_bind, E. split; [reflexivity|].
    intros P [Hp Hl]%Forall_cons. destruct (HP P Hl) as [Ha Hb]. split; [exact Ha|by constructor].
Qed.
Lemma exec_delete_each (l : list (LockPath * A)) s : Forall is_text l.*1 ->
  exec (try_each l (fun px => dbcall (lock_delete_read px.1 (agent_of px.2) session))) s =
  (set_sh_db (set_lock_reads (delete_each (lock_reads (sh_db s)) l) (sh_db s)) s, PRet true).
Proof using Type.
  revert s. induction l as [|[p x] l IH]; intros s Hl; [by destruct s as [? [] ? ? ?]|].
  apply Forall_cons in Hl as [Hp Hl]. cbn in Hp. cbn [try_each fst snd]. run.
  assert (lock_delete_read p (agent_of x) session (sh_now s) (sh_db s) =
          Some (set_lock_reads (delete (key_of x, p) (lock_reads (sh_db s))) (sh_db s))) as -> by (unfold lock_delete_read; by rewrite Hp).
  run. by rewrite IH.
Qed.

(** Taking back paths: every free one gets its row, and the memory's holds are mirrored again. *)
Lemma take_back_acc (forget : bool) now t (l : list (LockPath * A)) st d b k :
  let on_taken p x st := if forget then forget_read (key_of x) p st else st in
  held_mirror st d -> text_paths st -> session ∈ lock_sessions d -> session <> 0 -> Forall is_text l.*1 ->
  exists st' back taken d',
    foldl (fun acc px => let '(st, (back, taken)) := acc in
             match held st !! px.1 with
             | Some _ => (on_taken px.1 px.2 st, (back, taken ++ [px]))
             | None => (hold px.1 (key_of px.2) now st, (back ++ [px], taken))
             end) (st, (b, k)) l = (st', (b ++ back, k ++ taken)) /\
    held_mirror st' d' /\ text_paths st' /\ lock_reads d' = lock_reads d /\ lock_sessions d' = lock_sessions d /\
    forced_released st' = forced_released st /\ Forall is_text taken.*1 /\
    (forall m, reads_mirror st m -> reads_mirror st' (if forget then delete_each m taken else m)) /\
    (forall s, sh_db s = d -> sh_now s = t ->
       exec (try_each back (fun px => dbcall (lock_acquire px.1 (agent_of px.2) session))) s = (set_sh_db d' s, PRet true)).
Proof using Type.
  intros on_taken Hm Htx Hin Hnz Hl. revert st d b k Hm Htx Hin.
  induction l as [|[p x] l IH]; intros st d b k Hm Htx Hin; cbn [foldl fst snd].
  { exists st, [], [], d. rewrite !app_nil_r. split_and!; try done; [by intros m; destruct forget|]. intros s <- _. by destruct s. }
  apply Forall_cons in Hl as [Hp Hl]. cbn in Hp. destruct (held st !! p) as [o|] eqn:Hheld.
  - destruct (IH Hl (on_taken p x st) d b (k ++ [(p, x)])) as (st' & back & taken & d' & E & H1 & H2 & H3 & H4 & H5 & H6 & H7 & H8).
    { unfold on_taken. destruct forget; [|exact Hm]. intros q. rewrite (proj1 (forget_keeps _ _ _)). apply Hm. }
    { unfold on_taken. destruct forget; [by apply text_forget|exact Htx]. }
    { exact Hin. }
    exists st', back, ((p, x) :: taken), d'. rewrite E, <- app_assoc. split_and!; try done.
    + rewrite H5. unfold on_taken. destruct forget; [|done]. by destruct (forget_keeps (key_of x) p st) as (_ & ? & _).
    + by constructor.
    + intros m Hr. unfold on_taken in H7. destruct forget; [|by apply H7]. by apply H7, reads_forget.
  - set (d1 := set_lock_state (<[p := mkLockRow (agent_of x) session t]> (lock_state d)) d).
    destruct (IH Hl (hold p (key_of x) now st) d1 (b ++ [(p, x)]) k) as (st' & back & taken & d' & E & H1 & H2 & H3 & H4 & H5 & H6 & H7 & H8).
    { intros q. cbn. destruct (decide (p = q)) as [<-|Hne]; [|rewrite !lookup_insert_ne by done; apply Hm].
      rewrite !lookup_insert_eq. cbn. apply Z.eqb_neq in Hnz. by rewrite Hnz. }
    { by apply text_hold. }
    { exact Hin. }
    exists st', ((p, x) :: back), taken, d'. rewrite E, <- app_assoc. split_and!; try done.
    intros s Hs Ht. cbn [try_each fst snd]. run. rewrite Hs, Ht.
    assert (lock_acquire p (agent_of x) session t d = Some d1) as ->; [|run; by rewrite (H8 (set_sh_db d1 s) eq_refl Ht)].
    unfold lock_acquire. rewrite Hp. unfold guarded_lock_acquire, session_known. rewrite bool_decide_true by done. cbn [negb].
    assert (lock_state d !! p = None) as ->; [|done]. apply (fmap_None row_owner). rewrite Hm, Hheld. done.
Qed.
End resumption.

Section resumptions.
Context `{LockOrder} (ids : gset Z).

Lemma resume_agent_calm agent session : session ∈ ids -> session <> 0 -> calm ids (resume_agent agent session).
Proof using Type.
  intros Hin Hnz s [Hm Hh Hs]. unfold resume_agent. cbv zeta. rewrite exec_bind. run.
  set (s0 := set_sh_state _ s). assert (mirrors (sh_state s0) (sh_db s0)) as Hm0.
  { destruct Hm as [H1 H2 H3 [T1 T2 T3]]. split; [exact H1|exact H2|exact H3|]. split; [exact T1| |exact T3].
    cbn. intros k m p h [_ Hk]%lookup_delete_Some. by apply (T2 k m p h). }
  destruct (suspended (sh_state s) !! (session, agent)) as [snap|] eqn:Hsnap; [|by split].
  match goal with |- context [split_drifted _ ?l] => set (l0 := l) end.
  assert (Forall is_text l0.*1) as Htx.
  { unfold l0. rewrite <- list_fmap_compose, Forall_fmap. apply Forall_forall. intros [p h] Hp. rewrite lock_iter_perm in Hp.
    apply elem_of_map_to_list in Hp. by apply (tx_suspended _ (mi_text _ _ Hm) _ _ p h Hsnap). }
  destruct (exec_split session (fun _ : unit => agent) l0 s0) as (same & drifted & E & HP).
  destruct (HP is_text Htx) as [Hsame Hdr]. rewrite exec_bind, E. clear E. run.
  destruct (forget_each_keeps session (fun _ : unit => agent) drifted (sh_state s0)) as (K1 & K2 & K3).
  destruct (take_back_acc session (fun _ : unit => agent) false (sh_now s0) (sh_now s) same
              (forget_each session (fun _ => agent) (sh_state s0) drifted) (sh_db s) [] [])
    as (st' & back & taken & d' & E & H1 & H2 & H3 & H4 & H5 & H6 & H7 & H8); try done.
  { intros p. rewrite K1. apply (mi_held _ _ Hm). }
  { apply K3, (mi_text _ _ Hm0). }
  { by rewrite Hs. }
  unfold take_back. cbn [app] in E. rewrite E. run. rewrite exec_bind, H8 by done. run.
  rewrite exec_bind, (exec_delete_each session (fun _ : unit => agent)) by done. run. split; [|exact Hh|by cbn; rewrite H4].
  split; [exact H1| |by run; rewrite H5, K2; apply (mi_forced _ _ Hm)|exact H2].
  run. intros o p. cbn [lock_reads set_lock_reads]. rewrite H3. apply H7, forget_each_mirror. exact (mi_reads _ _ Hm0).
Qed.
Lemma resume_session_calm session : session ∈ ids -> session <> 0 -> calm ids (resume_session session).
Proof using Type.
  intros Hin Hnz s [Hm Hh Hs]. unfold resume_session. cbv zeta. rewrite exec_bind. run.
  set (s0 := set_sh_state _ s). assert (mirrors (sh_state s0) (sh_db s0)) as Hm0.
  { destruct Hm as [H1 H2 H3 [T1 T2 T3]]. split; [exact H1|exact H2|exact H3|]. split; [exact T1|exact T2|].
    cbn. intros k m p h [_ Hk]%lookup_delete_Some. by apply (T3 k m p h). }
  destruct (session_released (sh_state s) !! session) as [snap|] eqn:Hsnap; [|by split].
  match goal with |- context [split_drifted _ ?l] => set (l0 := l) end.
  assert (Forall is_text l0.*1) as Htx.
  { unfold l0. rewrite Forall_fmap. apply Forall_forall. intros [p h] Hp. rewrite lock_iter_perm in Hp.
    apply elem_of_map_to_list in Hp. by apply (tx_released _ (mi_text _ _ Hm) _ _ p h Hsnap). }
  destruct (exec_split session (fun a : AgentId => a) l0 s0) as (same & drifted & E & HP).
  destruct (HP is_text Htx) as [Hsame Hdr]. rewrite exec_bind, E. clear E. run.
  destruct (forget_each_keeps session (fun a : AgentId => a) drifted (sh_state s0)) as (K1 & K2 & K3).
  destruct (take_back_acc session (fun a : AgentId => a) true (sh_now s0) (sh_now s) same
              (forget_each session (fun a => a) (sh_state s0) drifted) (sh_db s) [] [])
    as (st' & back & taken & d' & E & H1 & H2 & H3 & H4 & H5 & H6 & H7 & H8); try done.
  { intros p. rewrite K1. apply (mi_held _ _ Hm). }
  { apply K3, (mi_text _ _ Hm0). }
  { by rewrite Hs. }
  unfold take_back. cbn [app] in E. rewrite E. run. rewrite exec_bind, H8 by done. run.
  rewrite exec_bind, (exec_delete_each session (fun a : AgentId => a)) by (rewrite fmap_app; by apply Forall_app). run.
  split; [|exact Hh|by cbn; rewrite H4].
  split; [exact H1| |by run; rewrite H5, K2; apply (mi_forced _ _ Hm)|exact H2].
  run. intros o p. cbn [lock_reads set_lock_reads]. rewrite H3, delete_each_app. apply (H7 (delete_each _ _ _ _)), forget_each_mirror. exact (mi_reads _ _ Hm0).
Qed.
End resumptions.

(** ** Transfer *)

Lemma read_of_move (from to : Owner) st o p : from <> to ->
  read_of (set_read_tracker (move_records from to (read_tracker st)) st) o p =
  if bool_decide (o = from) then None
  else if bool_decide (o = to) then (match read_of st from p with Some h => Some h | None => read_of st to p end)
  else read_of st o p.
Proof.
  intros Hne. unfold read_of, move_records. cbn. destruct (read_tracker st !! from) as [m|] eqn:Hf; cbn.
  - case_bool_decide as H1; [subst o; by rewrite lookup_insert_ne, lookup_delete_eq by done|].
    case_bool_decide as H2; [subst o|by rewrite lookup_insert_ne, lookup_delete_ne by done].
    rewrite lookup_insert_eq. cbn. rewrite lookup_union, lookup_delete_ne by done.
    destruct (m !! p) as [h|]; cbn; [by destruct (default ∅ _ !! p)|]. destruct (read_tracker st !! to); cbn; [|by rewrite lookup_empty].
    by rewrite (left_id_L None _).
  - case_bool_decide as H1; [subst o; by rewrite Hf|]. by case_bool_decide; [subst o|].
Qed.
Lemma move_reads_lookup (from to : Owner) (m : gmap (Owner * LockPath) LockReadRow) (o : Owner) (p : LockPath) : from <> to ->
  move_reads from to m !! (o, p) =
  if bool_decide (o = from) then None
  else if bool_decide (o = to) then (match m !! (from, p) with Some r => Some r | None => m !! (to, p) end)
  else m !! (o, p).
Proof.
  intros Hne. unfold move_reads. cbv zeta. rewrite map_lookup_filter, lookup_union.
  set (moved := list_to_map _ : gmap _ _).
  assert (forall r, moved !! (o, p) = Some r <-> o = to /\ m !! (from, p) = Some r) as Hmoved.
  { intros r. unfold moved. rewrite <- elem_of_list_to_map.
    - rewrite list_elem_of_fmap. setoid_rewrite list_elem_of_filter. split.
      + intros ([[o' q] r'] & [= -> -> ->] & Ho & Hin%elem_of_map_to_list). cbn in Ho. by subst o'.
      + intros [-> Hm]. exists ((from, p), r). split; [done|]. split; [done|]. by apply elem_of_map_to_list.
    - rewrite <- list_fmap_compose. apply NoDup_fmap_2_strong.
      + intros [[o1 q1] r1] [[o2 q2] r2] [Ho1 H1]%list_elem_of_filter [Ho2 H2]%list_elem_of_filter [= ->]. cbn in Ho1, Ho2. subst.
        apply elem_of_map_to_list in H1, H2. congruence.
      + apply NoDup_filter, NoDup_map_to_list. }
  case_bool_decide as H1.
  { subst o. destruct (moved !! (from, p) ∪ m !! (from, p)); cbn; [|done]. by rewrite option_guard_False by (cbn; tauto). }
  assert (forall x : option LockReadRow, (x ≫= fun r => guard ((o, p, r).1.1 <> from);; Some r) = x) as Hguard
    by (intros [r|]; cbn; [by rewrite option_guard_True|done]).
  rewrite Hguard. destruct (moved !! (o, p)) as [r|].
  - destruct (proj1 (Hmoved r) eq_refl) as [-> Hr]. rewrite bool_decide_true, Hr by done. by destruct (m !! (to, p)).
  - rewrite (left_id_L None _). case_bool_decide as H2; [|done]. subst o.
    destruct (m !! (from, p)) as [r|] eqn:Hm; [|done]. discriminate (proj2 (Hmoved r) (conj eq_refl eq_refl)).
Qed.

Section transfers.
Context `{LockOrder} (ids : gset Z).

(** The holds of one owner given to another. *)
Lemma transfer_held (from to : Owner) (l : list LockPath) st (p : LockPath) : from <> to ->
  let st' := foldl (fun st p => if holds st p from then set_held (<[p := to]> (held st)) (touched st) st else st) st l in
  (held st' !! p = if bool_decide (held st !! p = Some from /\ p ∈ l) then Some to else held st !! p) /\
  read_tracker st' = read_tracker st /\ forced_released st' = forced_released st /\
  suspended st' = suspended st /\ session_released st' = session_released st.
Proof using Type.
  intros Hne. cbv zeta. revert st. induction l as [|q l IH]; intros st; cbn [foldl].
  { rewrite bool_decide_false by (intros [_ Hin]; by apply not_elem_of_nil in Hin). done. }
  match goal with |- context [foldl _ ?x l] => destruct (IH x) as (E1 & E2 & E3 & E4 & E5); rewrite E1, E2, E3, E4, E5; clear IH E1 E2 E3 E4 E5 end.
  unfold holds. destruct (decide (held st !! q = Some from)) as [Hq|Hq].
  - assert (bool_decide (held st !! q = Some from) = true) as -> by (by apply bool_decide_eq_true). cbn.
    split; [|done]. destruct (decide (q = p)) as [<-|Hqp].
    + rewrite lookup_insert_eq, bool_decide_false by naive_solver. rewrite bool_decide_true; [done|]. split; [done|left].
    + rewrite lookup_insert_ne by done. assert (p ∈ q :: l <-> p ∈ l) as Hiff by (rewrite elem_of_cons; naive_solver).
      case_bool_decide as H1; case_bool_decide as H2; tauto.
  - assert (bool_decide (held st !! q = Some from) = false) as -> by (by apply bool_decide_eq_false). split; [|done].
    assert (held st !! p = Some from /\ p ∈ q :: l <-> held st !! p = Some from /\ p ∈ l) as Hiff by (rewrite elem_of_cons; naive_solver).
    case_bool_decide as H1; case_bool_decide as H2; tauto.
Qed.
Lemma transfer_calm from to session : calm ids (transfer_agent_locks from to session).
Proof using Type.
  intros s [Hm Hh Hs]. unfold transfer_agent_locks. case_bool_decide as Hft; [run; by split|]. cbv zeta. run.
  case_bool_decide as Hnone; [run; by split|]. unfold lock_transfer_agent. rewrite bool_decide_false by done. run.
  assert ((session, from) <> (session, to)) as Hne by congruence.
  set (l := (paths_held (is_owner (session, from)) (sh_state s)).*1).
  assert (forall p, held (sh_state s) !! p = Some (session, from) -> p ∈ l) as Hl.
  { intros p Hp. apply (list_elem_of_fmap_2 fst _ (p, (session, from))), paths_held_spec. split; [done|]. by apply bool_decide_eq_true. }
  match goal with |- context [foldl ?f (sh_state s) l] => set (st' := foldl f (sh_state s) l) end.
  assert (forall p : LockPath,
    ((held st' !! p : option Owner) = if bool_decide ((held (sh_state s) !! p : option Owner) = Some (session, from) /\ p ∈ l) then Some ((session, to) : Owner) else held (sh_state s) !! p) /\
    read_tracker st' = read_tracker (sh_state s) /\ forced_released st' = forced_released (sh_state s) /\
    suspended st' = suspended (sh_state s) /\ session_released st' = session_released (sh_state s)) as Ht
    by (intros p; by apply transfer_held).
  clearbody st'.
  split; [|exact Hh|exact Hs]. run. destruct Hm as [H1 H2 H3 [T1 T2 T3]]. split.
  - intros p. destruct (Ht p) as [E _]. cbn. rewrite E. specialize (H1 p). rewrite lookup_fmap.
    destruct (lock_state (sh_db s) !! p) as [r|] eqn:Hr; cbn in *.
    + symmetry in H1. pose proof (stored_owner_Some _ _ H1) as Hheld. rewrite Hheld in H1 |- *. cbn in H1.
      destruct (decide (row_owner r = (session, from))) as [Ho|Ho].
      * assert (p ∈ l) as Hpl by (apply Hl; exact (eq_trans Hheld (f_equal Some Ho))). rewrite Ho, !bool_decide_true by done. cbn. rewrite Ho in H1. cbn in H1.
        assert (lr_session_id r = session) as Hsid by (by injection Ho). rewrite Hsid in H1. by destruct (session =? 0).
      * rewrite (bool_decide_false (row_owner r = (session, from))) by done. rewrite bool_decide_false by (intros [Hx _]; apply Ho; exact (Some_inj _ _ Hx)).
        cbn. by rewrite H1.
    + case_bool_decide as Hp; [|exact H1]. destruct Hp as [Hp _]. rewrite Hp in H1. cbn in *. by destruct (session =? 0).
  - intros o p. change (stored_hash <$> move_reads (session, from) (session, to) (lock_reads (sh_db s)) !! (o, p) =
      read_of (set_read_tracker (move_records (session, from) (session, to) (read_tracker st')) st') o p).
    rewrite move_reads_lookup, read_of_move by done. destruct (Ht p) as (_ & Er & _).
    assert (forall o q, read_of st' o q = read_of (sh_state s) o q) as E by (intros; unfold read_of; by rewrite Er).
    rewrite !E, <- !H2. repeat case_bool_decide; try done. by match goal with |- context [match ?x with Some r => Some r | None => lock_reads _ !! _ end] => destruct x end.
  - destruct (Ht []) as (_ & _ & E & _). exact (eq_trans E H3).
  - destruct (Ht []) as (_ & _ & _ & E1 & E2). split; cbn; [|by rewrite E1|by rewrite E2].
    intros p o Hp. destruct (Ht p) as [E _]. rewrite E in Hp. case_bool_decide as Hx; [|by apply (T1 p o)].
    by apply (T1 p _ (proj1 Hx)).
Qed.
End transfers.

(** ** Abandoned paths *)

(** The mirror while some rows are still to be deleted: the paths [todo] of an owner are gone from memory. *)
Record abandoning (o : Owner) (d : LockDb) (todo : list LockPath) (st : LockState) : Prop := mkAbandoning {
  ab_mirrors : mirrors (set_forced_released ∅ st) (foldl (fun d p => delete_lock_row p o d) d todo);
  ab_forced : forced_released st ⊆ list_to_set todo;
  ab_text : Forall is_text todo }.
Lemma abandon_one o d todo st p : abandoning o d todo st -> holds st p o = true -> is_text p ->
  abandoning o d (todo ++ [p]) (set_forced_released ({[p]} ∪ forced_released (unhold p st)) (unhold p st)).
Proof.
  intros [Hm Hf Ht] Hh Hp. split.
  - rewrite foldl_app. cbn [foldl]. pose proof (mirrors_unhold_if _ _ p o Hm) as Hu.
    unfold unhold_if, holds in Hu. unfold holds in Hh. cbn [held set_forced_released] in Hu. rewrite Hh in Hu. exact Hu.
  - cbn. rewrite list_to_set_app_L. set_solver.
  - by apply Forall_app; split; [|constructor].
Qed.

Section abandonment.
Context `{LockOrder} (ids : gset Z).

Lemma exec_abandon_each (canonical : bool) paths agent session s d todo :
  calm_files (sh_files s) -> abandoning (session, agent) d todo (sh_state s) -> Forall is_text paths ->
  (canonical = true \/ Forall (fun p => default p (fs_resolve (sh_files s) p) = p) paths) ->
  exists s' more,
    exec (abandon_each canonical paths agent session) s = (s', PRet more) /\
    abandoning (session, agent) d (todo ++ more) (sh_state s') /\
    held (sh_state s') ⊆ held (sh_state s) /\ sh_db s' = sh_db s /\ sh_files s' = sh_files s.
Proof using Type.
  intros Hf. revert s todo Hf. induction paths as [|p paths IH]; intros s todo Hf Hab Htx Hself.
  { exists s, []. by rewrite app_nil_r. }
  apply Forall_cons in Htx as [Hp Htx].
  assert (canonical = true \/ Forall (fun p => default p (fs_resolve (sh_files s) p) = p) paths) as Hself'
    by (destruct Hself as [?|?%Forall_cons]; [by left|right; tauto]).
  set (c := default p (fs_resolve (sh_files s) p)).
  assert ((if canonical then c else p) = c) as Hrec by (destruct canonical, Hself as [?|[? _]%Forall_cons]; done).
  cbn [abandon_each]. unfold release_abandoned_write_guard_memory. run. fold c.
  destruct (holds (sh_state s) c (session, agent)) eqn:Hh; run.
  - set (st1 := set_forced_released _ _).
    assert (abandoning (session, agent) d (todo ++ [c]) st1) as Hab1 by (apply abandon_one; [done|done|by apply (cf_text _ Hf)]).
    set (s1 := mkShared st1 (sh_db s) (sh_files s) (sh_now s) (S (sh_epoch s))).
    destruct (IH s1 (todo ++ [c]) Hf Hab1 Htx Hself') as (s' & more & E & H1 & H2 & H3 & H4).
    exists s', (c :: more). rewrite <- app_assoc in H1. split_and!; [|exact H1| |exact H3|exact H4].
    + destruct canonical; run; fold c; rewrite exec_bind; [by rewrite E|]. fold s1. rewrite E. by rewrite Hrec.
    + etrans; [exact H2|]. apply delete_subseteq.
  - destruct (IH (set_sh_state (sh_state s) s) todo Hf Hab Htx Hself') as (s' & more & E & H1 & H2 & H3 & H4).
    exists s', more. split_and!; [|exact H1|exact H2|exact H3|exact H4].
    destruct canonical; run; rewrite exec_bind; by rewrite E.
Qed.
Lemma exec_persist l agent session s : Forall is_text l ->
  exec (for_each l (fun p => persist_abandoned_write_guard_release p agent session)) s =
  (set_sh_state (foldl (fun st p => set_forced_released (forced_released st ∖ {[p]}) st) (sh_state s) l)
     (set_sh_db (foldl (fun d p => delete_lock_row p (session, agent) d) (sh_db s) l) s), PRet tt).
Proof using Type.
  revert s. induction l as [|p l IH]; intros s Hl; [by destruct s|]. apply Forall_cons in Hl as [Hp Hl].
  assert (forall now d, lock_release p agent session now d = Some (delete_lock_row p (session, agent) d)) as Hrel
    by (intros; unfold lock_release; by rewrite Hp).
  cbn [for_each foldl]. rewrite exec_bind. unfold persist_abandoned_write_guard_release at 1. run. rewrite Hrel. run. by rewrite IH.
Qed.
Lemma unforce_each l st : forced_released st ⊆ list_to_set l ->
  foldl (fun st p => set_forced_released (forced_released st ∖ {[p]}) st) st l = set_forced_released ∅ st.
Proof using Type.
  revert st. induction l as [|p l IH]; intros st Hf; cbn [foldl].
  - rewrite list_to_set_nil in Hf. assert (forced_released st = ∅) as E by set_solver. rewrite <- E. by destruct st.
  - rewrite IH; [done|]. rewrite list_to_set_cons in Hf. cbn [forced_released set_forced_released]. set_solver.
Qed.
(** Every path of the owner resolves to itself. *)
Definition own_paths_resolve (s : Shared) (o : Owner) : Prop :=
  forall p, held (sh_state s) !! p = Some o -> default p (fs_resolve (sh_files s) p) = p.
Lemma abandon_calm paths agent session s : calm_inv ids s -> Forall is_text paths -> own_paths_resolve s (session, agent) ->
  calm_inv ids (exec (abandon_held_paths true paths agent session) s).1.
Proof using Type.
  intros [Hm Hh Hs] Htx Hown. unfold abandon_held_paths. rewrite exec_bind.
  assert (abandoning (session, agent) (sh_db s) [] (sh_state s)) as Hab.
  { split; [|by rewrite (mi_forced _ _ Hm)|constructor]. cbn [foldl].
    eapply mirrors_same; [| | | | |exact Hm]; try done. symmetry. apply (mi_forced _ _ Hm). }
  destruct (exec_abandon_each true paths agent session s (sh_db s) [] Hh Hab Htx (or_introl eq_refl))
    as (s1 & first & E & H1 & H2 & H3 & H4). rewrite E. run. rewrite exec_bind.
  set (extras := (paths_held _ _).*1).
  assert (forall p, p ∈ extras -> held (sh_state s) !! p = Some (session, agent)) as Hex.
  { intros p Hp. apply list_elem_of_fmap in Hp as ([q o] & -> & [Hq Ho]%paths_held_spec). apply bool_decide_eq_true in Ho. subst o.
    by apply (lookup_weaken _ _ _ _ Hq). }
  destruct (exec_abandon_each false extras agent session (set_sh_state (sh_state s1) s1) (sh_db s) first)
    as (s2 & second & E2 & H5 & H6 & H7 & H8).
  { run. by rewrite H4. }
  { exact H1. }
  { apply Forall_forall. intros p Hp. by apply (tx_held _ (mi_text _ _ Hm) p (session, agent)), Hex. }
  { right. apply Forall_forall. intros p Hp. run. rewrite H4. by apply Hown, Hex. }
  rewrite E2. cbv zeta. cbn [negb orb]. destruct H5 as [M F T].
  assert (sh_db s2 = sh_db s) as Hdb by exact (eq_trans H7 H3). assert (sh_files s2 = sh_files s) as Hfl by exact (eq_trans H8 H4).
  case_bool_decide as Hnil; run.
  - rewrite Hnil in M, F. split; [|by rewrite Hfl|by rewrite Hdb]. rewrite Hdb. cbn [foldl] in M.
    eapply mirrors_same; [| | | | |exact M]; try done. cbn. set_solver.
  - rewrite exec_persist by done. run. rewrite unforce_each by done. split; run; [by rewrite Hdb|by rewrite Hfl|].
    rewrite Hdb. clear -Hs. revert Hs. generalize (sh_db s). induction (first ++ second) as [|p l IH]; intros d Hs; [done|].
    cbn [foldl]. apply IH. by rewrite delete_row_sessions.
Qed.
End abandonment.

(** ** Startup *)

Lemma foldl_hold_lookup (rows : list (LockPath * LockStateRow)) st p : NoDup rows.*1 ->
  held (foldl (fun st row => hold row.1 (row_owner row.2) (lr_acquired_at row.2) st) st rows) !! p =
  match (list_to_map rows : gmap LockPath LockStateRow) !! p with Some r => Some (row_owner r) | None => held st !! p end.
Proof.
  revert st. induction rows as [|[q r] rows IH]; intros st Hnd; cbn [foldl list_to_map foldr].
  - by rewrite lookup_empty.
  - apply NoDup_cons in Hnd as [Hq Hnd]. rewrite IH by done. cbn. destruct (decide (q = p)) as [<-|Hne].
    + rewrite (not_elem_of_list_to_map_1 rows q Hq). by rewrite !lookup_insert_eq.
    + by rewrite !lookup_insert_ne.
Qed.
Lemma foldl_note_held (rows : list (Owner * LockPath * option Z)) st :
  held (foldl (fun st row => note_in row.1.1 row.1.2 row.2 st) st rows) = held st.
Proof. revert st. induction rows as [|r rows IH]; intros st; [done|]. cbn [foldl]. by rewrite IH. Qed.
Lemma foldl_note_reads (rows : list (Owner * LockPath * option Z)) st o p : NoDup rows.*1 ->
  read_of (foldl (fun st row => note_in row.1.1 row.1.2 row.2 st) st rows) o p =
  match (list_to_map rows : gmap (Owner * LockPath) (option Z)) !! (o, p) with Some h => Some h | None => read_of st o p end.
Proof.
  revert st. induction rows as [|[[o' q] h] rows IH]; intros st Hnd; cbn [foldl list_to_map foldr fst snd].
  - by rewrite lookup_empty.
  - apply NoDup_cons in Hnd as [Hq Hnd]. rewrite IH by done. rewrite read_of_note. case_bool_decide as Heq.
    + injection Heq as -> ->. rewrite (not_elem_of_list_to_map_1 rows (o, p) Hq). by rewrite lookup_insert_eq.
    + by rewrite lookup_insert_ne by done.
Qed.
Lemma from_db_held d p : held (from_db d) !! p = row_owner <$> lock_state d !! p.
Proof.
  unfold from_db. cbv zeta. rewrite foldl_note_held. unfold list_held_locks.
  rewrite foldl_hold_lookup by apply NoDup_fst_map_to_list. rewrite list_to_map_to_list.
  destruct (lock_state d !! p); [done|]. apply lookup_empty.
Qed.
Lemma foldl_hold_reads (rows : list (LockPath * LockStateRow)) st o p :
  read_of (foldl (fun st row => hold row.1 (row_owner row.2) (lr_acquired_at row.2) st) st rows) o p = read_of st o p.
Proof. revert st. induction rows as [|r rows IH]; intros st; [done|]. cbn [foldl]. by rewrite IH. Qed.
Lemma from_db_reads d o p : read_of (from_db d) o p = stored_hash <$> lock_reads d !! (o, p).
Proof.
  unfold from_db. cbv zeta. unfold list_lock_reads. rewrite foldl_note_reads.
  - rewrite foldl_hold_reads. unfold read_of at 1, empty_state at 1. cbn [read_tracker]. rewrite lookup_empty. cbn [mbind option_bind].
    replace (list_to_map _) with (stored_hash <$> lock_reads d).
    + rewrite lookup_fmap. by destruct (lock_reads d !! (o, p)).
    + rewrite <- (list_to_map_to_list (lock_reads d)) at 1. rewrite <- list_to_map_fmap. reflexivity.
  - rewrite <- list_fmap_compose. apply NoDup_fst_map_to_list.
Qed.
(** What the startup code rebuilds from rows that mirror a memory. *)
Lemma from_db_restores st d : mirrors st d ->
  (forall p, held (from_db d) !! p = stored_owner (held st !! p)) /\
  (forall o p, read_of (from_db d) o p = read_of st o p).
Proof. intros [H1 H2 _ _]. split; intros; [by rewrite from_db_held|by rewrite from_db_reads]. Qed.

(** ** Calls that keep the mirror *)

Section calm_system.
Context `{LockOrder}.

(** The paths a call names. *)
Definition call_paths (c : LockCall) : list LockPath :=
  match c with
  | CAcquire _ p _ _ | CAcquireWait _ p _ _ _ | CRelease p _ _ | CReleaseDrop p _ _ | CReleaseForce p _ _
  | CNoteRead _ p _ _ | CNoteAuthored _ p _ _ | CBeginWrite p _ _ | CBeginGuard p _ _ _ _ _ | CTransient p _ => [p]
  | CAbandon _ ps _ _ => ps
  | CReleaseAfterWrite g | CDropWrite _ g => [wg_path g]
  | CDropTransient g => [tg_path g]
  | CTouch _ _ | CSweep _ | CSuspendAgent _ _ | CResumeAgent _ _ | CTransfer _ _ _ | CSuspendSession _ | CResumeSession _
  | CEndSession _ => []
  end.
(** The calls with text for paths: those that insert rows are of a session with a row, which is not the nil
    one; a transient guard is of the nil session; and where a dropped guard or an abandoned agent gives paths
    up, there is a runtime to persist it and the paths resolve to themselves. *)
Definition calm_call (ids : gset Z) (s : Shared) (c : LockCall) : Prop :=
  Forall is_text (call_paths c) /\
  match c with
  | CAcquire _ _ _ session | CAcquireWait _ _ _ session _ | CBeginWrite _ _ session
  | CResumeAgent _ session | CResumeSession session => session ∈ ids /\ session <> 0
  | CNoteRead _ _ _ session => session ∈ ids
  | CDropTransient g => tg_session g = 0
  | CDropWrite runtime g => runtime = true /\ default (wg_path g) (fs_resolve (sh_files s) (wg_path g)) = wg_path g
  | CAbandon runtime _ agent session => runtime = true /\ own_paths_resolve s (session, agent)
  | CTouch _ _ | CSweep _ | CRelease _ _ _ | CReleaseDrop _ _ _ | CReleaseForce _ _ _ | CNoteAuthored _ _ _ _
  | CBeginGuard _ _ _ _ _ _ | CTransient _ _ | CReleaseAfterWrite _ | CSuspendAgent _ _ | CTransfer _ _ _
  | CSuspendSession _ | CEndSession _ => True
  end.
Lemma calm_call_inv ids c s : calm_inv ids s -> calm_call ids s c -> calm_inv ids (exec (run_call c) s).1.
Proof using Type.
  intros Hs [Ht Hc]. destruct c; cbn [call_paths] in Ht, Hc; cbn [run_call];
    try (rewrite Forall_singleton in Ht); try (match goal with |- context [exec (mbind _ _) _] => rewrite exec_bind end).
  all: match goal with Hi : calm_inv _ ?x |- context [exec ?p ?x] =>
    enough (calm_inv ids (exec p x).1) as Hend;
      [first [exact Hend|destruct (exec p x) as [s' [a|f k|op k|n k|l k]]; exact Hend]|]
  end.
  - destruct Hc. by apply acquire_calm.
  - destruct Hc. by apply acquire_wait_calm.
  - by apply touch_holder_calm.
  - by apply sweep_expired_calm.
  - by apply release_calm.
  - by apply release_and_drop_read_calm.
  - by apply release_force_memory_calm.
  - by apply note_read_calm.
  - by apply note_authored_calm.
  - destruct Hc. by apply begin_write_calm.
  - by apply begin_guard_calm.
  - by apply acquire_transient_calm.
  - destruct Hc as [-> Hown]. by apply abandon_calm.
  - by apply release_after_write_calm.
  - destruct Hc as [-> Hp]. by apply write_guard_drop_calm.
  - by apply transient_guard_drop_calm.
  - by apply suspend_agent_calm.
  - destruct Hc. by apply resume_agent_calm.
  - by apply transfer_calm.
  - by apply suspend_session_calm.
  - destruct Hc. by apply resume_session_calm.
  - by apply end_session_calm.
Qed.
(** What can happen while calls run undisturbed: a call, up to its result or a wait; a turn of a waiting
    acquire that was woken, and the end of one that gives up; other files, another time, another count of
    wake-ups; and a restart, which rebuilds the memory from the rows. *)
Inductive calm_step (ids : gset Z) (s : Shared) : Shared -> Prop :=
| cst_call c : calm_call ids s c -> calm_step ids s (exec (run_call c) s).1
| cst_turn l : wa_session l ∈ ids -> wa_session l <> 0 -> is_text (wa_canon l) ->
    calm_step ids s (exec (acquire_wait_turn l) s).1
| cst_give_up waiter : calm_step ids s (exec (clear_waiter waiter) s).1
| cst_outside files now epoch : calm_files files ->
    calm_step ids s (mkShared (sh_state s) (sh_db s) files now epoch)
| cst_restart : calm_step ids s (set_sh_state (from_db (sh_db s)) s).
Lemma from_db_plain d : forced_released (from_db d) = ∅ /\ suspended (from_db d) = ∅ /\ session_released (from_db d) = ∅.
Proof using Type.
  unfold from_db. cbv zeta.
  assert (forall (rows : list (Owner * LockPath * option Z)) st,
    let st' := foldl (fun st row => note_in row.1.1 row.1.2 row.2 st) st rows in
    forced_released st' = forced_released st /\ suspended st' = suspended st /\ session_released st' = session_released st) as Hn
    by (intros rows; induction rows as [|r rows IH]; intros st; [done|]; apply (IH (note_in _ _ _ st))).
  assert (forall (rows : list (LockPath * LockStateRow)) st,
    let st' := foldl (fun st row => hold row.1 (row_owner row.2) (lr_acquired_at row.2) st) st rows in
    forced_released st' = forced_released st /\ suspended st' = suspended st /\ session_released st' = session_released st) as Hh
    by (intros rows; induction rows as [|r rows IH]; intros st; [done|]; apply (IH (hold _ _ _ st))).
  match goal with |- context [foldl _ ?st (list_lock_reads d)] => destruct (Hn (list_lock_reads d) st) as (-> & -> & ->) end.
  apply (Hh (list_held_locks d) empty_state).
Qed.
Lemma restart_mirrors st d : mirrors st d -> mirrors (from_db d) d.
Proof using Type.
  intros Hm. destruct (from_db_restores st d Hm) as [Hh Hr]. destruct (from_db_plain d) as (F & S & L).
  destruct Hm as [H1 H2 H3 [T1 T2 T3]]. split; [|intros o p; by rewrite H2, Hr|exact F|].
  - intros p. rewrite Hh, H1. destruct (held st !! p) as [o|]; [|done]. cbn. destruct (o.1 =? 0) eqn:Ho; cbn; [done|by rewrite Ho].
  - split; [|by rewrite S; intros ???? Hk; rewrite lookup_empty in Hk|by rewrite L; intros ???? Hk; rewrite lookup_empty in Hk].
    intros p o Hp. rewrite Hh in Hp. apply (T1 p o). by apply stored_owner_Some.
Qed.
Lemma calm_step_inv ids s s' : calm_step ids s s' -> calm_inv ids s -> calm_inv ids s'.
Proof using Type.
  intros Hstep Hs. destruct Hstep as [c Hc|l H1 H2 H3|w|files now epoch Hf|].
  - by apply calm_call_inv.
  - by apply acquire_wait_turn_calm.
  - by apply clear_waiter_calm.
  - destruct Hs as [Hm _ Hi]. by split.
  - destruct Hs as [Hm Hf Hi]. split; [|exact Hf|exact Hi]. by apply (restart_mirrors (sh_state s)).
Qed.
End calm_system.
