(* ===== verification/LocksProps.v ===== *)
(** Properties of the file-lock manager: exclusion under every interleaving, the wait graph,
    what a write guard proves, the idle sweep, wake-ups, crash recovery, and concrete runs
    in which the manager's guarantees fail. *)

From S2P Require Import Prelude.
From S2P Require Import LocksDb.
From S2P Require Import Locks.
From S2P Require Import LocksSystem.
From S2P Require Import LocksInv.
From S2P Require Import LocksMirror.
From stdpp Require Import options.
Set Warnings "-clear-no-such-hyp".

(** ** One call among others *)

(** A run of one program while others change everything between its steps; [tr] has the state
    each of its own steps found and left. *)
Inductive irun {A} : Shared -> Prog A -> list (Shared * Shared) -> Shared -> Prog A -> Prop :=
| ir_refl s p : irun s p [] s p
| ir_step s p s1 p1 tr s' p' : prog_step s p s1 p1 -> irun s1 p1 tr s' p' -> irun s p ((s, s1) :: tr) s' p'
| ir_others s p s1 tr s' p' : irun s1 p tr s' p' -> irun s p tr s' p'.

(** Every result satisfying [ok] comes after a section that found a state satisfying [G]. *)
Fixpoint only_after {A} (G : Shared -> Shared -> Prop) (ok : A -> Prop) (p : Prog A) : Prop :=
  match p with
  | PRet a => ~ ok a
  | PSync f k => forall s, G s (f s) \/ only_after G ok (k s)
  | PDb _ k => forall b, only_after G ok (k b)
  | PWait _ k => forall w, only_after G ok (k w)
  | PLoop _ k => forall r, only_after G ok (k r)
  end.
Lemma only_after_bind {A B} G ok (p : Prog A) (k : A -> Prog B) :
  (forall a, only_after G ok (k a)) -> only_after G ok (p ≫= k).
Proof.
  intros Hk. unfold mbind, Prog_bind. induction p as [a|f k' IH|op k' IH|n k' IH|l k' IH]; cbn; try (by intros; apply IH).
  - apply Hk.
  - intros s. right. apply IH.
Qed.
Lemma only_after_step {A} G ok s (p : Prog A) s' p' :
  prog_step s p s' p' -> only_after G ok p -> G s s' \/ only_after G ok p'.
Proof.
  intros Hs Hp. destruct Hs as [s f k|s op k d Hd|s op k|s n k Hn|s n k|s n k|s l k]; cbn in Hp; try (right; apply Hp).
  - apply Hp.
  - right. apply (only_after_bind G ok (acquire_wait_turn l) k), Hp.
Qed.
Lemma only_after_run {A} G (ok : A -> Prop) s p tr s' a :
  irun s p tr s' (PRet a) -> only_after G ok p -> ok a -> exists x, x ∈ tr /\ G x.1 x.2.
Proof.
  intros Hr. remember (PRet a) as q eqn:Hq. revert Hq.
  induction Hr as [s p|s p s1 p1 tr s' p' Hs Hr IH|s p s1 tr s' p' Hr IH]; intros -> Hp Ha.
  - by destruct (Hp Ha).
  - destruct (only_after_step _ _ _ _ _ _ Hs Hp) as [HG|Hp1]; [exists (s, s1); split; [left|exact HG]|].
    destruct (IH eq_refl Hp1 Ha) as (x & Hx & HG). exists x. split; [by right|exact HG].
  - by apply IH.
Qed.
Lemma guar_run {A} Q `{!Reflexive Q} L s (p : Prog A) tr s' p' :
  (forall l, L l -> guar Q L (acquire_wait_turn l)) -> irun s p tr s' p' -> guar Q L p ->
  Forall (fun x => Q (sh_state x.1) (sh_state x.2)) tr.
Proof.
  intros Hturn Hr. induction Hr as [s p|s p s1 p1 tr s' p' Hs Hr IH|s p s1 tr s' p' Hr IH]; intros Hp.
  - constructor.
  - destruct (guar_step Q L _ _ _ _ Hturn Hs Hp) as [HQ Hp1]. constructor; [exact HQ|by apply IH].
  - by apply IH.
Qed.

(** ** Write guards *)

#[export] Instance WriteGuard_eq_dec : EqDecision WriteGuard.
Proof. solve_decision. Defined.
(** What a section of [begin_write] found when it granted the guard, and left. *)
Definition write_granted (g : WriteGuard) (s s' : Shared) : Prop :=
  let me := (wg_session g, wg_agent g) in
  held (sh_state s') !! wg_path g = Some me /\
  if wg_acquired_by_guard g then
    held (sh_state s) !! wg_path g = None /\
    exists h, read_of (sh_state s) me (wg_path g) = Some (Some h) /\ fs_hash (sh_files s) (wg_path g) = Some h
  else held (sh_state s) !! wg_path g = Some me.
(** The same for a guard taken after a waiting acquire: held, and fresh where that is asked. *)
Definition guard_granted (fresh authored : bool) (g : WriteGuard) (s : Shared) : Prop :=
  let me := (wg_session g, wg_agent g) in
  held (sh_state s) !! wg_path g = Some me /\
  (fresh = true -> exists h, fs_hash (sh_files s) (wg_path g) = Some h /\
    (read_of (sh_state s) me (wg_path g) = Some (Some h) \/
     authored = true /\ authored_tracker (sh_state s) !! me ≫= (.!! wg_path g) = Some h)).

Lemma fresh_read_None files p r : fresh_read files p r = None -> exists h, r = Some (Some h) /\ fs_hash files p = Some h.
Proof. destruct r as [[h|]|]; cbn; try done. case_bool_decide; [|done]. intros _. by exists h. Qed.

Lemma begin_write_grant path agent session g :
  only_after (write_granted g) (fun r => r = inr g) (begin_write path agent session).
Proof.
  unfold begin_write. apply only_after_bind. intros canon. cbv zeta. unfold section_files, sync.
  cbn [only_after mbind Prog_bind prog_bind]. intros s. unfold write_granted.
  destruct (held (sh_state s) !! canon) as [o|] eqn:Hp.
  - case_bool_decide as Ho; [|right; cbn; congruence].
    destruct (decide (g = mkWriteGuard canon agent session false true)) as [->|Hne]; [|right; cbn; congruence].
    left. cbn. split; [by rewrite Hp, Ho|by rewrite Hp, Ho].
  - destruct (fresh_read _ _ _) as [e|] eqn:Hf; [right; cbn; congruence|].
    destruct (decide (g = mkWriteGuard canon agent session true true)) as [->|Hne].
    + left. cbn. split; [by rewrite lookup_insert_eq|]. split; [exact Hp|]. by apply fresh_read_None in Hf.
    + right. cbn. intros [|]; cbn; [congruence|]. intros s'. right. cbn. congruence.
Qed.
Lemma begin_guard_grant path agent session by_wait fresh authored g :
  only_after (fun s _ => guard_granted fresh authored g s) (fun r => r = inr g)
    (begin_guard_after_wait path agent session by_wait fresh authored).
Proof.
  unfold begin_guard_after_wait. apply only_after_bind. intros canon. cbv zeta. unfold section_files, sync.
  cbn [only_after mbind Prog_bind prog_bind]. intros s. unfold guard_granted. cbn [fst snd].
  match goal with |- _ \/ only_after _ _ (match ?r with _ => _ end) => destruct r as [e|] eqn:Hr end.
  { right. apply only_after_bind. intros _. cbn. congruence. }
  destruct (decide (g = mkWriteGuard canon agent session by_wait true)) as [->|Hne]; [|right; cbn; congruence].
  left. cbn [wg_session wg_agent wg_path].
  destruct (held (sh_state s) !! canon) as [o|]; [|done]. case_bool_decide as Ho; [|done]. subst o. split; [done|].
  intros ->. destruct (read_of (sh_state s) (session, agent) canon) as [r|] eqn:Hread.
  - apply fresh_read_None in Hr as (h & Hh & Hf). exists h. split; [exact Hf|]. by left.
  - destruct authored; [|done]. cbn [andb] in Hr.
    destruct (authored_tracker (sh_state s) !! (session, agent) ≫= (.!! canon)) as [h|] eqn:Ha; [|done].
    case_bool_decide as Hf; [|done]. exists h. split; [exact Hf|]. right. by split.
Qed.

Lemma exec_irun {A} (p : Prog A) s : exists tr, irun s p tr (exec p s).1 (exec p s).2.
Proof.
  pose proof (exec_steps p s) as Hs. change s with (s, p).1 at 1. change p with (s, p).2 at 2.
  induction Hs as [x|x y z Hxy _ [tr IH]]; [exists []; apply ir_refl|]. exists ((x.1, y.1) :: tr). by eapply ir_step.
Qed.

(** C9: A write guard is an exclusive and fresh claim, whatever other calls do in between.
    When [begin_write] returns a guard, one of its sections found the path free with a recorded
    read whose hash is the file's hash at that moment (or found the caller already holding the
    path) and left it held by the caller.  When [begin_write_after_wait] or
    [begin_anchored_edit_after_wait] return a guard, a section found the caller holding the
    path and, where freshness is required, the file's hash equal to the recorded one, which
    for an anchored edit may be that of content the caller wrote itself. *)
Theorem write_guards_exclusive_and_fresh path agent session by_wait fresh authored g s s' :
  (forall tr, irun s (begin_write path agent session) tr s' (PRet (inr g)) ->
     exists x, x ∈ tr /\ write_granted g x.1 x.2) /\
  (forall tr, irun s (begin_guard_after_wait path agent session by_wait fresh authored) tr s' (PRet (inr g)) ->
     exists x, x ∈ tr /\ guard_granted fresh authored g x.1).
Proof.
  split; intros tr Hr.
  - by eapply only_after_run; [exact Hr|apply begin_write_grant|].
  - by eapply (only_after_run (fun s _ => guard_granted fresh authored g s)); [exact Hr|apply begin_guard_grant|].
Qed.

(** ** The idle sweep *)

(** A hold is kept, or it was idle and its owner must read again. *)
Definition idle_only (now : Z) (st st' : LockState) : Prop :=
  forall p o, held st !! p = Some o ->
    held st' !! p = Some o \/
    (held st' !! p = None /\ read_of st' o p = None /\
     exists t, touched st !! p = Some t /\ t <= now - LOCK_IDLE_TIMEOUT).
#[export] Instance idle_only_refl now : Reflexive (idle_only now).
Proof. intros st p o Hp. by left. Qed.

Lemma is_idle_touched st now p : is_idle st now (now - LOCK_IDLE_TIMEOUT) p = true ->
  exists t, touched st !! p = Some t /\ t <= now - LOCK_IDLE_TIMEOUT.
Proof.
  unfold is_idle. intros Hi%Z.leb_le. destruct (touched st !! p) as [t|]; cbn in Hi; [by exists t|].
  unfold LOCK_IDLE_TIMEOUT in Hi. lia.
Qed.
Lemma forget_unhold_fields o p st :
  held (forget_read o p (unhold p st)) = delete p (held st) /\
  touched (forget_read o p (unhold p st)) = delete p (touched st).
Proof. unfold forget_read. by destruct (read_tracker (unhold p st) !! o). Qed.
Lemma sweep_fold_idle now l st0 st a b :
  (forall p o, held st0 !! p = Some o ->
     (held st !! p = Some o /\ touched st !! p = touched st0 !! p) \/
     (held st !! p = None /\ read_of st o p = None /\
      exists t, touched st0 !! p = Some t /\ t <= now - LOCK_IDLE_TIMEOUT)) ->
  idle_only now st0 (foldl (fun acc po => sweep_one now (now - LOCK_IDLE_TIMEOUT) po acc) (st, a, b) l).1.1.
Proof.
  revert st a b. induction l as [|[q o'] l IH]; intros st a b Hst; cbn [foldl].
  { intros p o Hp. destruct (Hst p o Hp) as [[Hh _]|Hgone]; [by left|by right]. }
  unfold sweep_one at 2. destruct (holds st q o') eqn:Hh; cbn [negb]; [|by apply IH].
  apply bool_decide_eq_true in Hh. destruct (is_idle _ _ _ q) eqn:Hi; cbn [negb]; [|by apply IH].
  apply IH. intros p o Hp. destruct (forget_unhold_fields o' q st) as [-> ->]. rewrite read_of_forget.
  destruct (decide (q = p)) as [<-|Hne].
  - right. rewrite lookup_delete_eq. destruct (Hst q o Hp) as [[Hheld Ht]|[Hnone _]]; [|congruence].
    rewrite Hheld in Hh. injection Hh as <-. rewrite bool_decide_true by done. rewrite <- Ht. by repeat split; [apply is_idle_touched].
  - rewrite !lookup_delete_ne by done. rewrite bool_decide_false by congruence. by apply Hst.
Qed.
Lemma sweep_guar `{LockOrder} now : guar (idle_only now) (fun _ => False) (sweep_expired now).
Proof.
  unfold sweep_expired. guars. cbn [fst].
  match goal with |- context [foldl ?F (?st, [], []) ?l] => pose proof (sweep_fold_idle now l st st [] []) as Hf end.
  destruct (foldl _ _ _) as [[st' gone] rest]. apply Hf. intros p o Hp. by left.
Qed.

(** The idle sweep takes a lock only from an owner that has been idle.  Whatever runs
    between its steps, every step of [sweep_expired(now)] keeps each hold it finds, or drops one
    whose last touch, at that very step, was at least the idle timeout before [now]; the
    owner of a dropped hold has no read record of the path left, so it must read again before
    it writes. *)
Theorem sweep_takes_only_idle_locks `{LockOrder} now s tr s' p' :
  irun s (sweep_expired now) tr s' p' ->
  Forall (fun x => idle_only now (sh_state x.1) (sh_state x.2)) tr.
Proof. intros Hr. eapply (guar_run _ (fun _ => False)); [done|exact Hr|apply sweep_guar]. Qed.

(** ** The system *)

(** C8: One owner cannot touch another's locks.  From any state the daemon can reach, along any
    interleaving of calls that are not an owner's own (any acquire, wait, release, guard,
    touch, note, abandonment, resumption and transfer of other agents, and the ends and
    resumptions of other sessions), with calls dropped half way, failing statements and
    changing files, that owner's holds, read and authorship records, suspension snapshot and
    wait stay exactly as they are. *)
Theorem other_owners_cannot_touch `{LockOrder} o s x y :
  rtc sys_step (sys_start s) x -> all_spare o x -> rtc (sparing_step o) x y ->
  same_owner o (sh_state (sys_shared x)) (sh_state (sys_shared y)).
Proof. intros Hx Ha Hxy. destruct (locks_reachable_inv s x Hx) as [Ht _]. by apply (sparing_run o x y). Qed.

(** C10: The wait graph never has a cycle.  In every state the daemon can reach, no chain of
    recorded waits leads from a waiter back to itself, and exactly the held paths have an idle
    timestamp. *)
Theorem wait_graph_never_cyclic `{LockOrder} s x :
  rtc sys_step (sys_start s) x ->
  acyclic (waiting (sh_state (sys_shared x))) /\
  dom (touched (sh_state (sys_shared x))) = dom (held (sh_state (sys_shared x))).
Proof. intros Hx. by destruct (locks_reachable_inv s x Hx) as [_ [Ht Ha]]. Qed.

(** C31: The deadlock check is exact.  In any state of the manager, the walk of [wait_cycle] from an
    owner reports a cycle if and only if some chain of recorded waits leads from that owner back
    to itself, and the edges it reports are the edges of such a chain, in order; the walk
    always ends, whatever cycles the graph has elsewhere. *)
Theorem wait_cycle_exact st o :
  (is_Some (wait_cycle st o) <-> tc (waits_for (waiting st)) o o) /\
  (forall parts, wait_cycle st o = Some parts -> wait_chain (waiting st) o parts o /\ parts <> []).
Proof.
  split; [apply wait_cycle_spec|]. intros parts Hp. by eapply wait_cycle_loop_sound; [exact Hp|].
Qed.

(** ** Crash recovery *)

(** C11: A restart restores the locks.  Let the rows mirror the memory: every hold but the transient ones of the
    nil session has its row, every read record its row, nothing else is stored, no forced release is
    pending, the paths held or remembered for a resumption are UTF-8 text and file hashes fit 64 bits.  Then the
    rows mirror the memory again after any sequence of undisturbed calls (any call of the manager, run up to
    its result or a wait, with no other call in between and no statement failing but those the tables
    refuse), turns and ends of waiting acquires, changes of files and clock, and restarts; and the startup code
    rebuilds from those rows exactly the stored holds and every read record with its 64-bit hash, through the
    signed column.  The calls meet the conditions of [calm_call]: the paths they name are UTF-8 text and
    resolve to such text (any other path is stored under another name); a call that can insert a row (an
    acquire, a waiting acquire, [begin_write], [note_read], a resumption) is of a session that has a session row, and but for [note_read] not
    the nil one; a dropped transient guard is of the nil session; a dropped write guard and an abandoned agent have a
    runtime to persist their releases, and the paths they give up still resolve to themselves. *)
Theorem restart_restores_locks `{LockOrder} ids s s' :
  calm_inv ids s -> rtc (calm_step ids) s s' ->
  calm_inv ids s' /\
  (forall p, held (from_db (sh_db s')) !! p = stored_owner (held (sh_state s') !! p)) /\
  (forall o p, read_of (from_db (sh_db s')) o p = read_of (sh_state s') o p).
Proof.
  intros Hs Hrun. assert (calm_inv ids s') as Hend by (induction Hrun; eauto using calm_step_inv).
  split; [exact Hend|]. apply from_db_restores, Hend.
Qed.

(** ** Waking up *)

(** The branch of a run that a known lookup selects. *)
Ltac look Hp :=
  match type of Hp with ?t = _ =>
    match goal with |- context [match ?h with Some _ => _ | None => _ end] => change h with t end end; rewrite Hp.
(** The turn of a waiter that finds its path free. *)
Lemma turn_on_free_path ids l s :
  calm_inv ids s -> wa_session l ∈ ids -> is_text (wa_canon l) -> held (sh_state s) !! wa_canon l = None ->
  exists s', exec (acquire_wait_turn l) s = (s', PRet (inr Acquired)) /\
    held (sh_state s') !! wa_canon l = Some (wa_session l, wa_agent l) /\
    waiting (sh_state s') !! (wa_session l, wa_agent l) = None.
Proof.
  intros [Hm Hh Hs] Hin Htx Hp. rewrite <- Hs in Hin. unfold acquire_wait_turn, try_acquire.
  destruct (wa_record_read l && wa_records l) eqn:Hrr; unfold clear_waiter; run;
    look Hp; rewrite bool_decide_false by (cbn; rewrite (mi_forced _ _ Hm); set_solver); run.
  - unfold lock_acquire_with_read. rewrite Htx. erewrite acquire_free_row by done. cbn [mbind option_bind].
    rewrite note_row by done. run. eexists. split; [reflexivity|]. split; cbn; [by rewrite lookup_insert_eq|by rewrite lookup_delete_eq].
  - unfold lock_acquire. rewrite Htx. erewrite acquire_free_row by done. run. eexists. split; [reflexivity|].
    split; cbn; [by rewrite lookup_insert_eq|by rewrite lookup_delete_eq].
Qed.

(** A release wakes whoever waits, and a woken waiter gets a free path.  A waiter is registered
    before it looks at the holder: after [notify_waiters] any wait registered before it can go
    on, and the next turn of the loop, when it finds the path free and runs undisturbed, returns
    [Acquired] with the path held by the waiter and no edge of it left in the wait graph. *)
Theorem woken_waiter_acquires ids l n (k : Wake -> Prog (LockError + AcquireWait)) s0 s :
  (n <= sh_epoch s0)%nat ->
  prog_step (exec notify_waiters s0).1 (PWait n k) (exec notify_waiters s0).1 (k WkNotified) /\
  (calm_inv ids s -> wa_session l ∈ ids -> is_text (wa_canon l) -> held (sh_state s) !! wa_canon l = None ->
   exists s', exec (acquire_wait_turn l) s = (s', PRet (inr Acquired)) /\
     held (sh_state s') !! wa_canon l = Some (wa_session l, wa_agent l) /\
     waiting (sh_state s') !! (wa_session l, wa_agent l) = None).
Proof. intros Hn. split; [apply ps_notified; cbn; lia|apply turn_on_free_path]. Qed.

(** ** Concrete runs *)

Module LockRuns.

(** One step of a program, with the outcome the database gives. *)
Definition pstep {A} (p : Prog A) (s : Shared) : option (Shared * Prog A) :=
  match p with
  | PRet _ => None
  | PSync f k => Some (f s, k s)
  | PDb op k => match op (sh_now s) (sh_db s) with Some d => Some (set_sh_db d s, k true) | None => Some (s, k false) end
  | PWait n k => if (n <? sh_epoch s)%nat then Some (s, k WkNotified) else None
  | PLoop l k => Some (s, prog_bind k (acquire_wait_turn l))
  end.
Lemma pstep_sound {A} (p : Prog A) s s' p' : pstep p s = Some (s', p') -> prog_step s p s' p'.
Proof.
  destruct p as [a|f k|op k|n k|l k]; cbn [pstep]; intros Hp; simplify_eq.
  - apply ps_sync.
  - destruct (op _ _) eqn:Hd; simplify_eq; [by apply ps_db_ok|apply ps_db_err].
  - destruct (n <? sh_epoch s)%nat eqn:Hn; simplify_eq. apply ps_notified. by apply Nat.ltb_lt.
  - apply ps_loop.
Qed.

#[export] Instance plain_order : LockOrder :=
  {| lock_iter A m := map_to_list m; lock_iter_perm A m := reflexivity (R := (≡ₚ)) (map_to_list m) |}.

Inductive Move := MCall (i : nat) (c : LockCall) | MStep (i n : nat) | MDrop (i : nat).
Fixpoint step_task (i n : nat) (x : Sys) : option Sys :=
  match n with
  | O => Some x
  | S n =>
      match sys_tasks x !! i with
      | Some (c, p) =>
          match pstep p (sys_shared x) with
          | Some (s', p') => step_task i n (mkSys s' (<[i := (c, p')]> (sys_tasks x)))
          | None => None
          end
      | None => None
      end
  end.
Fixpoint drive (ms : list Move) (x : Sys) : option Sys :=
  match ms with
  | [] => Some x
  | MCall i c :: ms =>
      if sys_tasks x !! i is None then drive ms (mkSys (sys_shared x) (<[i := (c, run_call c)]> (sys_tasks x))) else None
  | MStep i n :: ms => match step_task i n x with Some y => drive ms y | None => None end
  | MDrop i :: ms => drive ms (mkSys (sys_shared x) (delete i (sys_tasks x)))
  end.
(** A script whose moves are all steps of a relation is a run of it. *)
Section scripts.
Context (R : Sys -> Sys -> Prop) (ok : Move -> Prop).
Hypothesis run_ok : forall s ts i c p s' p',
  ts !! i = Some (c, p) -> prog_step s p s' p' -> R (mkSys s ts) (mkSys s' (<[i := (c, p')]> ts)).
Hypothesis call_ok : forall s ts i c, ok (MCall i c) -> ts !! i = None -> R (mkSys s ts) (mkSys s (<[i := (c, run_call c)]> ts)).
Hypothesis drop_ok : forall s ts i, ok (MDrop i) -> R (mkSys s ts) (mkSys s (delete i ts)).
Lemma step_task_in i n x y : step_task i n x = Some y -> rtc R x y.
Proof using run_ok.
  revert x. induction n as [|n IH]; intros [s ts]; cbn [step_task sys_tasks sys_shared]; [intros [= <-]; reflexivity|].
  destruct (ts !! i) as [[c p]|] eqn:Hi; [|done]. destruct (pstep p s) as [[s' p']|] eqn:Hp; [|done].
  intros Hy. eapply rtc_l; [|by apply IH]. eapply run_ok; [exact Hi|by apply pstep_sound].
Qed.
Lemma drive_in ms x y : Forall ok ms -> drive ms x = Some y -> rtc R x y.
Proof using run_ok call_ok drop_ok.
  intros Hms. revert x. induction Hms as [|[i c|i n|i] ms Hm _ IH]; intros [s ts]; cbn [drive sys_tasks sys_shared]; [intros [= <-]; reflexivity|..].
  - destruct (ts !! i) eqn:Hi; [done|]. intros Hy. eapply rtc_l; [|by apply IH]. by apply call_ok.
  - destruct (step_task i n (mkSys s ts)) as [x'|] eqn:Hx; [|done]. intros Hy.
    etrans; [by eapply step_task_in|by apply IH].
  - intros Hy. eapply rtc_l; [|by apply IH]. by apply drop_ok.
Qed.
End scripts.
Lemma drive_sound ms x y : drive ms x = Some y -> rtc sys_step x y.
Proof.
  apply (drive_in sys_step (fun _ => True)); [exact sys_run|by intros; apply sys_call|by intros; apply sys_drop|].
  by apply Forall_forall.
Qed.

(** The steps of the calls themselves: no call is dropped and nothing else changes, so every call ever
    made stays among the tasks. *)
Inductive call_step : Sys -> Sys -> Prop :=
| cs_call s ts i c : ts !! i = None -> call_step (mkSys s ts) (mkSys s (<[i := (c, run_call c)]> ts))
| cs_run s ts i c p s' p' :
    ts !! i = Some (c, p) -> prog_step s p s' p' -> call_step (mkSys s ts) (mkSys s' (<[i := (c, p')]> ts)).
Definition no_drop (m : Move) : bool := if m is MDrop _ then false else true.
Lemma drive_calls ms x y : forallb no_drop ms = true -> drive ms x = Some y -> rtc call_step x y.
Proof.
  intros Hms. apply (drive_in call_step (fun m => no_drop m = true)); [exact cs_run|by intros; apply cs_call|by intros|].
  apply Forall_forall. intros m Hm. rewrite forallb_forall in Hms. apply Hms. by apply list_elem_of_In.
Qed.
(** A script of calls that spare an owner. *)
Lemma drive_spares o ms x y : Forall (fun m => if m is MCall _ c then call_spares o c else True) ms ->
  drive ms x = Some y -> rtc (sparing_step o) x y.
Proof.
  apply drive_in; [exact (spare_run o)|by intros; apply spare_call|by intros; apply spare_drop].
Qed.

(** Whether a task has returned, or at which registration it waits. *)
Definition task_done (x : Sys) (i : nat) : bool :=
  match sys_tasks x !! i with Some (_, PRet _) => true | _ => false end.
Definition task_waits (x : Sys) (i : nat) : option nat :=
  match sys_tasks x !! i with Some (_, PWait n _) => Some n | _ => None end.

(** A path that exists, two sessions, and a clock. *)
Definition the_path : LockPath := [47; 97].
Definition the_files : Files := mkFiles (fun p => Some p) (fun _ => Some 7).
Definition start_with (ids : gset Z) : Sys := sys_start (mkShared empty_state (mkLockDb ∅ ∅ ids) the_files 1000 0).
Definition end_of (ms : list Move) (x : Sys) : Sys := default x (drive ms x).
Lemma end_of_reachable ms x : bool_decide (is_Some (drive ms x)) = true -> rtc sys_step x (end_of ms x).
Proof. intros [y Hy]%bool_decide_eq_true. apply (drive_sound ms). unfold end_of. by rewrite Hy. Qed.

(** A waiter's view of a failed acquire: session 1 has no row, so the database refuses it. *)
Definition lost_wakeup : list Move :=
  [MCall 0 (CAcquire true the_path "b" 1); MStep 0 3;
   MCall 1 (CAcquireWait true the_path "a" 2 true); MStep 1 9;
   MStep 0 2].
(** An agent's locks are suspended while its last write releases one of them and another session
    takes it; a transient guard follows. *)
Definition suspension_race : list Move :=
  [MCall 0 (CAcquire true the_path "a" 1); MStep 0 5;
   MCall 1 (CSuspendAgent "a" 1); MStep 1 3;
   MCall 2 (CReleaseForce the_path "a" 1); MStep 2 5;
   MCall 3 (CAcquire true the_path "b" 2); MStep 3 5;
   MStep 1 2;
   MCall 4 (CTransient the_path "remote"); MStep 4 2].
(** Two remote file operations on one path, and an agent. *)
Definition shared_transient : list Move :=
  [MCall 0 (CTransient the_path "remote"); MStep 0 2;
   MCall 1 (CTransient the_path "remote"); MStep 1 2;
   MCall 2 (CDropTransient (mkTransient the_path "remote" 0 true)); MStep 2 2;
   MCall 3 (CAcquire true the_path "b" 2); MStep 3 5].

(** C37: A failed acquire loses a wake-up.  The waiting acquire promises that no wake-up is lost,
    but [try_acquire] rolls a refused hold back without [notify_waiters].  From the empty manager, when
    the only two calls ever made are an acquire of a path that the database refuses (its session has no row) and a
    waiting acquire of the same path by another session, there is an interleaving of their steps after which
    the refused call has returned, the path is free, and the waiter still waits for that path and
    that holder, at a registration no notification has passed, so that only its cancellation or
    the 30 second timeout ends the wait. *)
Theorem failed_acquire_loses_wakeup : exists x,
  rtc call_step (start_with {[2]}) x /\
  fst <$> sys_tasks x = {[0%nat := CAcquire true the_path "b" 1; 1%nat := CAcquireWait true the_path "a" 2 true]} /\
  task_done x 0 = true /\
  held (sh_state (sys_shared x)) !! the_path = None /\
  waiting (sh_state (sys_shared x)) !! (2, "a") = Some (mkWaitingOn the_path 1 "b") /\
  task_waits x 1 = Some (sh_epoch (sys_shared x)).
Proof.
  exists (end_of lost_wakeup (start_with {[2]})). split.
  { apply (drive_calls lost_wakeup); [reflexivity|]. vm_compute. reflexivity. }
  split_and!; vm_compute; reflexivity.
Qed.

(** A suspension can drop another session's lock.  [suspend_agent] lists the agent's holds,
    persists the releases, and then removes those paths from memory without looking at who holds
    them now: there is a reachable state in which session 2 acquired the path and never released
    it, its row is still stored, and a transient guard holds the same path in memory. *)
Theorem suspension_drops_foreign_hold : exists s x,
  rtc sys_step (sys_start s) x /\
  fst <$> (sys_tasks x !! 3%nat) = Some (CAcquire true the_path "b" 2) /\ task_done x 3 = true /\
  (forall i c, fst <$> (sys_tasks x !! i) = Some c -> i <> 3%nat -> call_spares (2, "b") c \/ c = CSuspendAgent "a" 1) /\
  row_owner <$> lock_state (sh_db (sys_shared x)) !! the_path = Some (2, "b") /\
  held (sh_state (sys_shared x)) !! the_path = Some (0, "remote").
Proof.
  exists (mkShared empty_state (mkLockDb ∅ ∅ {[1; 2]}) the_files 1000 0), (end_of suspension_race (start_with {[1; 2]})).
  split; [apply end_of_reachable; vm_compute; reflexivity|].
  split; [vm_compute; reflexivity|]. split; [vm_compute; reflexivity|].
  split; [|split; vm_compute; reflexivity].
  intros i c Hc Hi.
  assert (fst <$> sys_tasks (end_of suspension_race (start_with {[1; 2]})) =
          {[0%nat := CAcquire true the_path "a" 1; 1%nat := CSuspendAgent "a" 1; 2%nat := CReleaseForce the_path "a" 1;
            3%nat := CAcquire true the_path "b" 2; 4%nat := CTransient the_path "remote"]}) as Hcalls
    by (vm_compute; reflexivity).
  rewrite <- lookup_fmap, Hcalls in Hc. clear Hcalls.
  repeat (apply lookup_insert_Some in Hc as [[<- <-]|[_ Hc]]; [first [by destruct Hi|right; reflexivity|by left; cbn]|]).
  apply lookup_singleton_Some in Hc as [<- <-]. by left; cbn.
Qed.

(** Two transient guards of one name share a hold: dropping the first frees the path under the
    second. *)
Theorem transient_guards_share_a_hold : exists s x,
  rtc sys_step (sys_start s) x /\
  fst <$> (sys_tasks x !! 1%nat) = Some (CTransient the_path "remote") /\ task_done x 1 = true /\
  fst <$> (sys_tasks x !! 2%nat) = Some (CDropTransient (mkTransient the_path "remote" 0 true)) /\
  held (sh_state (sys_shared x)) !! the_path = Some (2, "b").
Proof.
  exists (mkShared empty_state (mkLockDb ∅ ∅ {[1; 2]}) the_files 1000 0), (end_of shared_transient (start_with {[1; 2]})).
  split; [apply end_of_reachable; vm_compute; reflexivity|]. repeat split; vm_compute; reflexivity.
Qed.
End LockRuns.

(** ** Stale rows *)

(** A path released in memory only, whose row of another owner is still stored: the acquire
    overwrites the row, [begin_write] is refused by it. *)
Theorem forced_release_blocks_begin_write path agent session s r h :
  fs_resolve (sh_files s) path = None -> is_text path -> session ∈ lock_sessions (sh_db s) ->
  held (sh_state s) !! path = None -> path ∈ forced_released (sh_state s) ->
  lock_state (sh_db s) !! path = Some r -> row_owner r <> (session, agent) ->
  read_of (sh_state s) (session, agent) path = Some (Some h) -> fs_hash (sh_files s) path = Some h ->
  (exec (begin_write path agent session) s).2 = PRet (inl LeDb) /\
  (exec (acquire true path agent session) s).2 = PRet None.
Proof.
  intros Hres Htx Hin Hp Hf Hr Hne Hread Hh.
  assert (bool_decide (session ∈ lock_sessions (sh_db s)) = true) as Hknown by (by apply bool_decide_eq_true). split.
  - unfold begin_write. run. rewrite Hres. cbn [default from_option id]. look Hp. rewrite Hread.
    unfold fresh_read. rewrite bool_decide_true by done. run.
    unfold lock_acquire. rewrite Htx. unfold guarded_lock_acquire, session_known. rewrite Hknown. cbn [negb]. rewrite Hr, bool_decide_false by done. done.
  - unfold acquire, try_acquire. run. rewrite Hres. cbn [default from_option id]. look Hp.
    rewrite bool_decide_true by exact Hf. run. unfold lock_force_acquire_with_read. rewrite Htx. unfold force_row, session_known.
    rewrite Hknown. cbn [negb mbind option_bind]. by rewrite note_row.
Qed.

(** A path that is not UTF-8 is stored under another name: an acquire of such a free path succeeds and holds it
    in memory, and a restart at that point finds no hold of it.  Two such paths can share a row, so that the
    acquire of one is refused while the other is held. *)
Theorem non_text_lock_not_restored path agent session s :
  fs_resolve (sh_files s) path = None -> ~ is_text path -> session ∈ lock_sessions (sh_db s) ->
  held (sh_state s) !! path = None -> path ∉ forced_released (sh_state s) ->
  lock_state (sh_db s) !! path = None -> lock_state (sh_db s) !! path_string path = None ->
  let r := exec (acquire false path agent session) s in
  r.2 = PRet None /\ held (sh_state r.1) !! path = Some (session, agent) /\ held (from_db (sh_db r.1)) !! path = None.
Proof.
  intros Hres Htx Hin Hp Hf Hrow Hrow'.
  assert (bool_decide (session ∈ lock_sessions (sh_db s)) = true) as Hknown by (by apply bool_decide_eq_true).
  unfold acquire, try_acquire. run. rewrite Hres. cbn [default from_option id]. look Hp.
  rewrite bool_decide_false by exact Hf. run. unfold lock_acquire, guarded_lock_acquire, session_known.
  rewrite Hknown, Hrow'. run. split; [done|]. split; [apply lookup_insert_eq|]. rewrite from_db_held.
  cbn [lock_state set_lock_state]. by rewrite lookup_insert_ne, Hrow.
Qed.
(** The two paths [/\xff] and [/\xfe], of two sessions. *)
Theorem non_text_paths_share_a_row :
  let s := (exec (acquire false [47; 255] "a" 1) (mkShared empty_state (mkLockDb ∅ ∅ {[1; 2]}) LockRuns.the_files 1000 0)).1 in
  held (sh_state s) !! [47; 254] = None /\
  (exec (acquire false [47; 254] "b" 2) s).2 = PRet (Some LeDb).
Proof. split; vm_compute; reflexivity. Qed.

(** ** Witnesses *)

Module LockWitnesses.
Import LockRuns.

(** A path read by an agent, free. *)
Definition read_state : LockState := note_in (1, "a") the_path (Some 7) empty_state.
Definition read_shared : Shared :=
  mkShared read_state (mkLockDb ∅ {[((1, "a"), the_path) := mkReadRow 1000 (Some 7)]} {[1; 2]}) the_files 1000 0.
Definition the_guard : WriteGuard := mkWriteGuard the_path "a" 1 true true.

Lemma write_guards_exclusive_and_fresh_witness : exists tr s',
  irun read_shared (begin_write the_path "a" 1) tr s' (PRet (inr the_guard)) /\
  exists x, x ∈ tr /\ write_granted the_guard x.1 x.2.
Proof.
  destruct (exec_irun (begin_write the_path "a" 1) read_shared) as [tr Htr].
  assert ((exec (begin_write the_path "a" 1) read_shared).2 = PRet (inr the_guard)) as Hend by (vm_compute; reflexivity).
  rewrite Hend in Htr. exists tr, (exec (begin_write the_path "a" 1) read_shared).1. split; [exact Htr|].
  apply (proj1 (write_guards_exclusive_and_fresh the_path "a" 1 true true true the_guard read_shared _) tr Htr).
Defined.

(** A lock not touched for an hour. *)
Definition idle_shared : Shared :=
  mkShared (hold the_path (1, "a") 1000 read_state) (mkLockDb ∅ ∅ {[1]}) the_files 5000 0.
Lemma sweep_takes_only_idle_locks_witness :
  held (sh_state (exec (sweep_expired 5000) idle_shared).1) !! the_path = None /\
  exists tr s' p', irun idle_shared (sweep_expired 5000) tr s' p' /\
    Forall (fun x => idle_only 5000 (sh_state x.1) (sh_state x.2)) tr.
Proof.
  split; [vm_compute; reflexivity|]. destruct (exec_irun (sweep_expired 5000) idle_shared) as [tr Htr].
  exists tr. do 2 eexists. split; [exact Htr|]. apply (sweep_takes_only_idle_locks 5000 idle_shared tr _ _ Htr).
Defined.

(** A waiter behind a held path. *)
Definition blocked : list Move :=
  [MCall 0 (CAcquire true the_path "a" 1); MStep 0 5; MCall 1 (CAcquireWait true the_path "b" 2 true); MStep 1 9].
Lemma wait_graph_never_cyclic_witness : exists x,
  is_Some (waiting (sh_state (sys_shared x)) !! (2, "b")) /\ acyclic (waiting (sh_state (sys_shared x))).
Proof.
  exists (end_of blocked (start_with {[1; 2]})).
  split; [apply (bool_decide_eq_true _); vm_compute; reflexivity|].
  refine (proj1 (wait_graph_never_cyclic (mkShared empty_state (mkLockDb ∅ ∅ {[1; 2]}) the_files 1000 0) _ _)).
  apply end_of_reachable. vm_compute. reflexivity.
Defined.

(** Two owners that would wait for each other. *)
Definition ring : LockState :=
  set_waiting {[(1, "a") := mkWaitingOn the_path 2 "b"; (2, "b") := mkWaitingOn the_path 1 "a"]} empty_state.
Definition ring_edges : list (Owner * WaitingOn) :=
  [((1, "a"), mkWaitingOn the_path 2 "b"); ((2, "b"), mkWaitingOn the_path 1 "a")].
Lemma wait_cycle_exact_witness : wait_chain (waiting ring) (1, "a") ring_edges (1, "a") /\ ring_edges <> [].
Proof. apply (proj2 (wait_cycle_exact ring (1, "a"))). vm_compute. reflexivity. Defined.

(** An agent with a lock, and another that tries to release it. *)
Definition a_holds : list Move := [MCall 0 (CAcquire true the_path "a" 1); MStep 0 5; MDrop 0].
Definition b_tries : list Move :=
  [MCall 1 (CReleaseForce the_path "b" 2); MStep 1 2;
   MCall 2 (CAcquire true the_path "b" 2); MStep 2 3;
   MCall 3 (CBeginWrite the_path "b" 2); MStep 3 2;
   MCall 4 (CEndSession 2); MStep 4 2].
Lemma other_owners_cannot_touch_witness :
  let x := end_of a_holds (start_with {[1; 2]}) in
  let y := end_of b_tries x in
  held (sh_state (sys_shared x)) !! the_path = Some (1, "a") /\
  forallb (task_done y) [1; 2; 3; 4]%nat = true /\
  same_owner (1, "a") (sh_state (sys_shared x)) (sh_state (sys_shared y)).
Proof.
  split; [vm_compute; reflexivity|]. split; [vm_compute; reflexivity|].
  assert (sys_tasks (end_of a_holds (start_with {[1; 2]})) = ∅) as Hnone by (vm_compute; reflexivity).
  refine (other_owners_cannot_touch (1, "a") (mkShared empty_state (mkLockDb ∅ ∅ {[1; 2]}) the_files 1000 0) _ _ _ _ _).
  - apply end_of_reachable. vm_compute. reflexivity.
  - intros i c p Hi. rewrite Hnone in Hi. by rewrite lookup_empty in Hi.
  - apply (drive_spares (1, "a") b_tries); [|vm_compute; reflexivity]. unfold b_tries. repeat (apply Forall_cons_2; [cbn; first [exact I|congruence]|]). apply Forall_nil_2.
Defined.

Lemma calm_start : calm_inv {[1; 2]} read_shared.
Proof.
  split; [split| |reflexivity].
  - intros p. cbn [read_shared sh_db lock_state sh_state read_state note_in set_read_tracker held empty_state]. by rewrite !lookup_empty.
  - intros o p. unfold read_shared, read_state. cbn [sh_db sh_state lock_reads]. rewrite read_of_note.
    case_bool_decide as Heq; [injection Heq as <- <-; by rewrite lookup_singleton_eq|].
    rewrite lookup_singleton_ne by congruence. unfold read_of, empty_state. cbn [read_tracker]. by rewrite lookup_empty.
  - reflexivity.
  - split; intros; exfalso; match goal with Hk : _ = Some _ |- _ => cbn in Hk; by rewrite lookup_empty in Hk end.
  - split; [intros p x [= <-]; lia|done].
Qed.
(** A path taken, given up with its session and taken back, and handed to another agent; then the daemon restarts. *)
Definition eventful : list LockCall :=
  [CAcquire true the_path "a" 1; CSuspendSession 1; CResumeSession 1; CTransfer "a" "b" 1].
Definition after_calls (cs : list LockCall) (s : Shared) : Shared := foldl (fun s c => (exec (run_call c) s).1) s cs.
Lemma restart_restores_locks_witness :
  held (from_db (sh_db (after_calls eventful read_shared))) !! the_path = Some (1, "b") /\
  read_of (from_db (sh_db (after_calls eventful read_shared))) (1, "b") the_path
  = read_of (sh_state (after_calls eventful read_shared)) (1, "b") the_path.
Proof.
  assert (is_text the_path) as Htx by reflexivity.
  destruct (restart_restores_locks {[1; 2]} read_shared (after_calls eventful read_shared) calm_start) as (_ & Hh & Hr).
  - unfold after_calls, eventful. cbn [foldl].
    do 4 (eapply rtc_r; [|apply cst_call; split; [repeat constructor; exact Htx|cbn [calm_call];
      first [exact I|split; [set_solver|lia]]]]).
    reflexivity.
  - split; [rewrite Hh; vm_compute; reflexivity|apply Hr].
Defined.

Lemma woken_waiter_acquires_witness : exists s',
  exec (acquire_wait_turn (mkWaitArgs the_path "a" 1 true true true)) read_shared = (s', PRet (inr Acquired)).
Proof.
  destruct (proj2 (woken_waiter_acquires {[1; 2]} (mkWaitArgs the_path "a" 1 true true true) 0
              (fun _ => PRet (inr Acquired)) read_shared read_shared ltac:(lia)) calm_start ltac:(cbn; set_solver)
              ltac:(reflexivity) ltac:(vm_compute; reflexivity)) as (s' & Hs & _).
  by exists s'.
Defined.
End LockWitnesses.
