(* ===== verification/Staging.v ===== *)
(** The daemon's staging area for bulk transfers ([cockpit-core/src/daemon/bulk_staging.rs],
    with the transfer references of [cockpit-proto/src/bulk_transfer.rs]): entries keyed by
    transfer id and owner, global and per-client reservations, leases, chunks pushed by a
    peer, chunks pulled by a peer, and the daemon's own consumption.

    Every operation holds the store's mutex throughout and reads the clock before it takes
    it, so it is one function of the time and the store; the store it returns is the one left
    behind, also when it fails. *)

From S2P Require Import Prelude.
From S2P Require Import ProtocolId.
From S2P Require Import Bulk.
From stdpp Require Import options.
Set Warnings "-clear-no-such-hyp".

(** ** References *)

(** bulk_transfer.rs:57-66 BulkMimeClass. *)
Inductive BulkMimeClass := BmImage | BmImageSet | BmArchive | BmExport | BmOpaque | BmRedactedExport.
#[export] Instance BulkMimeClass_eq_dec : EqDecision BulkMimeClass.
Proof. solve_decision. Defined.
(** bulk_transfer.rs:9-9 MAX_TRANSFER_BYTES. *)
Definition BULK_TRANSFER_MAX_BYTES : Z := 512 * 1024 * 1024.
(** bulk_transfer.rs:69-77 BulkMimeClass::max_total_length. *)
Definition class_max_total_length (c : BulkMimeClass) : Z :=
  match c with
  | BmImage => MAX_SINGLE_IMAGE_BYTES
  | BmImageSet => MAX_TOTAL_IMAGE_BYTES
  | BmArchive | BmExport | BmOpaque | BmRedactedExport => BULK_TRANSFER_MAX_BYTES
  end.
(** bulk_transfer.rs:15-20 BulkTransferId::from_bytes. *)
Definition transfer_id_from_bytes (b : bytes) : option bytes := if is_all_zero b then None else Some b.
(** bulk_transfer.rs:89-97 BulkTransferRef. *)
Record BulkTransferRef := mkBulkRef {
  br_transfer_id : bytes; br_total_length : Z; br_sha256 : bytes; br_mime_class : BulkMimeClass }.
(** bulk_transfer.rs:112-127 BulkTransferRef::new. *)
Definition bulk_ref_new (id : bytes) (total_length : Z) (digest : bytes) (c : BulkMimeClass) : option BulkTransferRef :=
  if class_max_total_length c <? total_length then None else Some (mkBulkRef id total_length digest c).

(** ** Limits *)

(** resource_limits.rs:129-129 ResourceLimits::defaults. *)
Definition MAX_STAGED_BYTES : Z := 1024 * 1024 * 1024.
(** resource_limits.rs:130-130 ResourceLimits::defaults. *)
Definition MAX_STAGED_BYTES_PER_CLIENT : Z := 512 * (1024 * 1024).
(** resource_limits.rs:131-131 ResourceLimits::defaults. *)
Definition MAX_STAGED_TRANSFERS : Z := 256.
(** resource_limits.rs:132-132 ResourceLimits::defaults. *)
Definition MAX_STAGED_TRANSFERS_PER_CLIENT : Z := 32.
(** resource_limits.rs:133-133 ResourceLimits::defaults. *)
Definition STAGED_TRANSFER_TTL_MS : Z := 5 * 60 * 1000.
(** proto/lib.rs:1622-1622 MAX_ATTACHMENT_CHUNK_BASE64_BYTES. *)
Definition MAX_ATTACHMENT_CHUNK_BASE64_BYTES : Z := 256 * 1024.
(** bulk_staging.rs:50-50 STAGED_CHUNK_BYTES. *)
Definition STAGED_CHUNK_BYTES : Z := 3 * (MAX_ATTACHMENT_CHUNK_BASE64_BYTES / 4).

(** ** The store *)

(** bulk_staging.rs:77-106 BulkStagingError. *)
Inductive BulkStagingError :=
| UnknownTransfer | ChunkIndexGap | ChunkReplayMismatch | LengthOverrun | StagedDigestMismatch | StagedIncomplete
| CapacityExceeded | ChunkTooLarge | ClassLimit | WrongKind | DuplicateTransfer | OwnerMismatch.
#[export] Instance BulkStagingError_eq_dec : EqDecision BulkStagingError.
Proof. solve_decision. Defined.

(** The digest an owner is bound to, and a client's quota key. *)
Abbreviation OwnerBinding := bytes.
Abbreviation ClientQuotaKey := bytes.

(** bulk_staging.rs:140-162 StagedTransfer. *)
Record StagedTransfer := mkStaged {
  sg_total_length : Z; sg_sha256 : bytes; sg_mime_class : BulkMimeClass; sg_bytes : bytes; sg_chunk_ends : list Z;
  sg_next_chunk_index : Z; sg_complete : bool; sg_created_ms : Z; sg_owner : option OwnerBinding;
  sg_quota : ClientQuotaKey }.
(** [StagedTransferKey]: the transfer id and the owner's binding. *)
Abbreviation StagedTransferKey := (bytes * option OwnerBinding)%type.
(** bulk_staging.rs:183-187 Store. *)
Record Store := mkStore { st_transfers : gmap StagedTransferKey StagedTransfer; st_staged_bytes : Z }.
Definition empty_store : Store := mkStore ∅ 0.
Definition put_transfer (k : StagedTransferKey) (t : StagedTransfer) (s : Store) : Store :=
  mkStore (<[k := t]> (st_transfers s)) (st_staged_bytes s).

Section staging.
Context `{Sha256}.

(** The answer of an operation and the store it leaves. *)
Local Abbreviation res := (result BulkStagingError).
Local Abbreviation Reply A := (Store * result BulkStagingError A)%type.

(** Whether the lease of an entry has run out. *)
Definition stale (now : Z) (t : StagedTransfer) : bool :=
  STAGED_TRANSFER_TTL_MS <=? saturating_sub now (sg_created_ms t).
(** bulk_staging.rs:194-206 Store::expire. The freed lengths are added up in a plain [u64]. *)
Definition expire (now : Z) (s : Store) : res (Store * Z) :=
  let freed := map_sum (fun _ t => if stale now t then sg_total_length t else 0) (st_transfers s) in
  if U64_MAX <? freed then Panic else
  let kept := filter (fun kt => stale now kt.2 = false) (st_transfers s) in
  Ok (mkStore kept (saturating_sub (st_staged_bytes s) freed),
      Z.of_nat (size (st_transfers s)) - Z.of_nat (size kept)).
(** bulk_staging.rs:209-213 Store::remove. *)
Definition store_remove (k : StagedTransferKey) (s : Store) : option (StagedTransfer * Store) :=
  t ← st_transfers s !! k;
  Some (t, mkStore (delete k (st_transfers s)) (saturating_sub (st_staged_bytes s) (sg_total_length t))).
(** bulk_staging.rs:215-225 Store::client_reserved. The saturating sum over all entries. *)
Definition client_reserved (quota : ClientQuotaKey) (s : Store) : Z * Z :=
  (Z.min U64_MAX (map_sum (fun _ t => if bool_decide (sg_quota t = quota) then sg_total_length t else 0) (st_transfers s)),
   map_sum (fun _ t => if bool_decide (sg_quota t = quota) then 1 else 0) (st_transfers s)).
(** bulk_staging.rs:227-246 Store::can_reserve. *)
Definition can_reserve (total_length : Z) (quota : ClientQuotaKey) (s : Store) : res unit :=
  if MAX_STAGED_TRANSFERS <=? Z.of_nat (size (st_transfers s)) then Err CapacityExceeded else
  all ← add_in U64_MAX (st_staged_bytes s) total_length;
  if MAX_STAGED_BYTES <? all then Err CapacityExceeded else
  let '(b, count) := client_reserved quota s in
  if MAX_STAGED_TRANSFERS_PER_CLIENT <=? count then Err CapacityExceeded else
  mine ← add_in U64_MAX b total_length;
  if MAX_STAGED_BYTES_PER_CLIENT <? mine then Err CapacityExceeded else Ok tt.
(** bulk_staging.rs:249-251 lease_remaining_ms. *)
Definition lease_remaining_ms (created now : Z) : Z :=
  saturating_sub STAGED_TRANSFER_TTL_MS (saturating_sub now created).
(** bulk_staging.rs:316-323 digest_of. *)
Definition digest_of (b : bytes) : bytes := hasher_finalize (hasher_update hasher_new b).
(** bulk_staging.rs:326-331 chunk_count. *)
Definition chunk_count (total_length : Z) : Z :=
  if total_length =? 0 then 1 else div_ceil total_length STAGED_CHUNK_BYTES mod 2 ^ 32.

(** Opaque transfers have an owner and no others do. *)
Definition check_owner (c : BulkMimeClass) (owner : option OwnerBinding) : res unit :=
  match c, owner with
  | BmOpaque, None => Err OwnerMismatch
  | BmOpaque, Some _ | _, None => Ok tt
  | _, Some _ => Err WrongKind
  end.
(** Add an entry and its reservation. *)
Definition reserve (k : StagedTransferKey) (t : StagedTransfer) (s : Store) : Store :=
  mkStore (<[k := t]> (st_transfers s)) (st_staged_bytes s + sg_total_length t).

(** ** Staging what the daemon produced *)

(** bulk_staging.rs:371-424 stage_with_owner. *)
Definition stage_with_owner (now : Z) (b : bytes) (c : BulkMimeClass) (id : bytes) (owner : option OwnerBinding)
    (quota : ClientQuotaKey) (s : Store) : Reply BulkTransferRef :=
  match check_owner c owner with
  | Err e => (s, Err e)
  | Panic => (s, Panic)
  | Ok _ =>
      let total_length := zlen b in
      if (class_max_total_length c <? total_length) || (BULK_TRANSFER_MAX_BYTES <? total_length) then (s, Err ClassLimit) else
      let digest := digest_of b in
      match expire now s with
      | Err e => (s, Err e)
      | Panic => (s, Panic)
      | Ok (s, _) =>
          let k := (id, owner) in
          match st_transfers s !! k with
          | Some _ => (s, Err DuplicateTransfer)
          | None =>
              match can_reserve total_length quota s with
              | Err e => (s, Err e)
              | Panic => (s, Panic)
              | Ok _ =>
                  let ends := (fun i => Z.min ((i + 1) * STAGED_CHUNK_BYTES) (zlen b)) <$> seqZ 0 (chunk_count total_length) in
                  let s := reserve k (mkStaged total_length digest c b ends (chunk_count total_length) true now owner quota) s in
                  match transfer_id_from_bytes id with
                  | None => (s, Err UnknownTransfer)
                  | Some id => (s, ok_or (bulk_ref_new id total_length digest c) ClassLimit)
                  end
              end
          end
      end
  end.
(** bulk_staging.rs:342-349 stage. *)
Definition stage (now : Z) (b : bytes) (c : BulkMimeClass) (id : bytes) (quota : ClientQuotaKey) :=
  stage_with_owner now b c id None quota.
(** bulk_staging.rs:356-369 stage_owned. *)
Definition stage_owned (now : Z) (b : bytes) (owner : OwnerBinding) (id : bytes) (quota : ClientQuotaKey) :=
  stage_with_owner now b BmOpaque id (Some owner) quota.

(** ** Chunks pushed by a peer *)

(** bulk_staging.rs:427-433 ChunkAccepted. *)
Record ChunkAccepted := mkAccepted {
  ca_next_chunk_index : Z; ca_received_bytes : Z; ca_complete : bool; ca_lease_remaining_ms : Z }.
Definition accepted (now : Z) (t : StagedTransfer) : ChunkAccepted :=
  mkAccepted (sg_next_chunk_index t) (zlen (sg_bytes t)) (sg_complete t) (lease_remaining_ms (sg_created_ms t) now).
(** [slice::get] of a range. *)
Definition get_range (b : bytes) (start end_ : Z) : option bytes :=
  if (start <=? end_) && (end_ <=? zlen b) then Some (take (Z.to_nat (end_ - start)) (drop (Z.to_nat start) b)) else None.

(** bulk_staging.rs:510-577 write_chunk_with_owner. What happens to the entry once there is one:
    a retried chunk is compared with the one accepted, the next one is appended, and the last one is
    checked against the digest. *)
Definition write_entry (now : Z) (k : StagedTransferKey) (reference : BulkTransferRef) (owner : option OwnerBinding)
    (chunk_index : Z) (chunk : bytes) (t : StagedTransfer) (s : Store) : Reply ChunkAccepted :=
  if negb (bool_decide (sg_owner t = owner)) then (s, Err OwnerMismatch) else
  if negb (bool_decide (sg_total_length t = br_total_length reference)) ||
     negb (bool_decide (sg_sha256 t = br_sha256 reference)) ||
     negb (bool_decide (sg_mime_class t = br_mime_class reference)) then (s, Err DuplicateTransfer) else
  if chunk_index <? sg_next_chunk_index t then
    match sg_chunk_ends t !! Z.to_nat chunk_index with
    | None => (s, Err ChunkIndexGap)
    | Some end_ =>
        let start := if chunk_index =? 0 then 0 else default 0 (sg_chunk_ends t !! Z.to_nat (chunk_index - 1)) in
        if negb (bool_decide (get_range (sg_bytes t) start end_ = Some chunk)) then (s, Err ChunkReplayMismatch)
        else (s, Ok (accepted now t))
    end
  else if sg_complete t then (s, Err ChunkIndexGap)
  else if negb (chunk_index =? sg_next_chunk_index t) then (s, Err ChunkIndexGap)
  else if sg_total_length t <? zlen (sg_bytes t) + zlen chunk then (s, Err LengthOverrun)
  else
    let b := sg_bytes t ++ chunk in
    let ends := sg_chunk_ends t ++ [zlen b] in
    match add_in (E:=BulkStagingError) U32_MAX (sg_next_chunk_index t) 1 with
    | Ok next =>
        if zlen b =? sg_total_length t then
          if negb (bool_decide (digest_of b = sg_sha256 t)) then
            let t := mkStaged (sg_total_length t) (sg_sha256 t) (sg_mime_class t) b ends next false (sg_created_ms t)
                       (sg_owner t) (sg_quota t) in
            match store_remove k (put_transfer k t s) with
            | Some (_, s) => (s, Err StagedDigestMismatch)
            | None => (s, Panic)
            end
          else
            let t := mkStaged (sg_total_length t) (sg_sha256 t) (sg_mime_class t) b ends next true (sg_created_ms t)
                       (sg_owner t) (sg_quota t) in
            (put_transfer k t s, Ok (accepted now t))
        else
          let t := mkStaged (sg_total_length t) (sg_sha256 t) (sg_mime_class t) b ends next (sg_complete t) (sg_created_ms t)
                     (sg_owner t) (sg_quota t) in
          (put_transfer k t s, Ok (accepted now t))
    | _ => (put_transfer k (mkStaged (sg_total_length t) (sg_sha256 t) (sg_mime_class t) b ends (sg_next_chunk_index t)
                              (sg_complete t) (sg_created_ms t) (sg_owner t) (sg_quota t)) s, Panic)
    end.
(** bulk_staging.rs:459-578 write_chunk_with_owner. *)
Definition write_chunk_with_owner (now : Z) (reference : BulkTransferRef) (owner : option OwnerBinding)
    (quota : ClientQuotaKey) (chunk_index : Z) (chunk : bytes) (s : Store) : Reply ChunkAccepted :=
  match check_owner (br_mime_class reference) owner with
  | Err e => (s, Err e)
  | Panic => (s, Panic)
  | Ok _ =>
      if STAGED_CHUNK_BYTES <? zlen chunk then (s, Err ChunkTooLarge) else
      let total_length := br_total_length reference in
      if class_max_total_length (br_mime_class reference) <? total_length then (s, Err ClassLimit) else
      let k := (br_transfer_id reference, owner) in
      match expire now s with
      | Err e => (s, Err e)
      | Panic => (s, Panic)
      | Ok (s, _) =>
          match st_transfers s !! k with
          | Some t => write_entry now k reference owner chunk_index chunk t s
          | None =>
              if negb (chunk_index =? 0) then (s, Err ChunkIndexGap) else
              match can_reserve total_length quota s with
              | Err e => (s, Err e)
              | Panic => (s, Panic)
              | Ok _ =>
                  let t := mkStaged total_length (br_sha256 reference) (br_mime_class reference) [] [] 0 false now owner quota in
                  write_entry now k reference owner chunk_index chunk t (reserve k t s)
              end
          end
      end
  end.
(** bulk_staging.rs:436-443 write_chunk. *)
Definition write_chunk (now : Z) (reference : BulkTransferRef) (chunk_index : Z) (chunk : bytes) (quota : ClientQuotaKey) :=
  write_chunk_with_owner now reference None quota chunk_index chunk.
(** bulk_staging.rs:449-457 write_chunk_owned. *)
Definition write_chunk_owned (now : Z) (reference : BulkTransferRef) (owner : OwnerBinding) (quota : ClientQuotaKey)
    (chunk_index : Z) (chunk : bytes) :=
  write_chunk_with_owner now reference (Some owner) quota chunk_index chunk.

(** ** Chunks pulled by a peer *)

(** bulk_staging.rs:636-674 read_chunk_of_kind. [expected] is the required kind; without one it is
    [read_chunk]. *)
Definition read_chunk_gen (now : Z) (id : bytes) (chunk_index : Z) (expected : option BulkMimeClass) (s : Store)
    : Reply (bytes * bool) :=
  match expire now s with
  | Err e => (s, Err e)
  | Panic => (s, Panic)
  | Ok (s, _) =>
      let k := (id, None) in
      match st_transfers s !! k with
      | None => (s, Err UnknownTransfer)
      | Some t =>
          if bool_decide (sg_mime_class t = BmOpaque) then (s, Err OwnerMismatch) else
          if match expected with Some e => negb (bool_decide (sg_mime_class t = e)) | None => false end
          then (s, Err WrongKind) else
          if negb (sg_complete t) then (s, Err StagedIncomplete) else
          let total_chunks := chunk_count (sg_total_length t) in
          if total_chunks <=? chunk_index then (s, Err ChunkIndexGap) else
          let start := chunk_index * STAGED_CHUNK_BYTES in
          let end_ := Z.min (start + STAGED_CHUNK_BYTES) (zlen (sg_bytes t)) in
          match slice (sg_bytes t) start end_ with
          | Ok chunk =>
              let last := chunk_index + 1 =? total_chunks in
              (if last then match store_remove k s with Some (_, s) => s | None => s end else s, Ok (chunk, last))
          | Err e => (s, Err e)
          | Panic => (s, Panic)
          end
      end
  end.
(** bulk_staging.rs:587-620 read_chunk. *)
Definition read_chunk (now : Z) (id : bytes) (chunk_index : Z) := read_chunk_gen now id chunk_index None.
(** bulk_staging.rs:636-674 read_chunk_of_kind. *)
Definition read_chunk_of_kind (now : Z) (id : bytes) (chunk_index : Z) (expected : BulkMimeClass) :=
  read_chunk_gen now id chunk_index (Some expected).

(** ** Consuming *)

(** bulk_staging.rs:707-738 take_all_with_owner. The check of one reference. *)
Definition take_check (owner : option OwnerBinding) (s : Store) (keys : list StagedTransferKey) (r : BulkTransferRef)
    : res StagedTransferKey :=
  _ ← check_owner (br_mime_class r) owner;
  let k := (br_transfer_id r, owner) in
  if bool_decide (k ∈ keys) then Err DuplicateTransfer else
  t ← ok_or (st_transfers s !! k) UnknownTransfer;
  if negb (bool_decide (sg_owner t = owner)) then Err OwnerMismatch else
  if negb (sg_complete t) then Err StagedIncomplete else
  if negb (bool_decide (sg_total_length t = br_total_length r)) then Err LengthOverrun else
  if negb (bool_decide (sg_sha256 t = br_sha256 r)) || negb (bool_decide (digest_of (sg_bytes t) = br_sha256 r))
  then Err StagedDigestMismatch else
  if negb (bool_decide (sg_mime_class t = br_mime_class r)) then Err ClassLimit else Ok k.
(** bulk_staging.rs:705-740 take_all_with_owner. The loop over the references. *)
Fixpoint take_keys (owner : option OwnerBinding) (s : Store) (keys : list StagedTransferKey) (rs : list BulkTransferRef)
    : res (list StagedTransferKey) :=
  match rs with
  | [] => Ok keys
  | r :: rs => k ← take_check owner s keys r; take_keys owner s (keys ++ [k]) rs
  end.
(** bulk_staging.rs:741-744 take_all_with_owner. The removal of the validated entries. *)
Fixpoint take_remove (keys : list StagedTransferKey) (s : Store) : Reply (list bytes) :=
  match keys with
  | [] => (s, Ok [])
  | k :: keys =>
      match store_remove k s with
      | None => (s, Panic)
      | Some (t, s) =>
          match take_remove keys s with
          | (s, Ok rest) => (s, Ok (sg_bytes t :: rest))
          | (s, Err e) => (s, Err e)
          | (s, Panic) => (s, Panic)
          end
      end
  end.
(** bulk_staging.rs:698-745 take_all_with_owner. *)
Definition take_all_with_owner (now : Z) (rs : list BulkTransferRef) (owner : option OwnerBinding) (s : Store)
    : Reply (list bytes) :=
  match expire now s with
  | Err e => (s, Err e)
  | Panic => (s, Panic)
  | Ok (s, _) =>
      match take_keys owner s [] rs with
      | Err e => (s, Err e)
      | Panic => (s, Panic)
      | Ok keys => take_remove keys s
      end
  end.
(** bulk_staging.rs:683-685 take_all. *)
Definition take_all (now : Z) (rs : list BulkTransferRef) := take_all_with_owner now rs None.
(** bulk_staging.rs:691-696 take_all_owned. *)
Definition take_all_owned (now : Z) (rs : list BulkTransferRef) (owner : OwnerBinding) := take_all_with_owner now rs (Some owner).
(** [bodies.pop().expect(..)]. *)
Definition pop_one (r : Reply (list bytes)) : Reply bytes :=
  let '(s, r) := r in
  (s, bodies ← r; match last bodies with Some b => Ok b | None => Panic end).
(** bulk_staging.rs:748-751 take. *)
Definition take_transfer (now : Z) (r : BulkTransferRef) (s : Store) : Reply bytes := pop_one (take_all now [r] s).
(** bulk_staging.rs:754-760 take_owned. *)
Definition take_owned (now : Z) (r : BulkTransferRef) (owner : OwnerBinding) (s : Store) : Reply bytes :=
  pop_one (take_all_owned now [r] owner s).
(** bulk_staging.rs:763-766 discard. *)
Definition discard (id : bytes) (s : Store) : Store :=
  match store_remove (id, None) s with Some (_, s) => s | None => s end.
(** bulk_staging.rs:769-772 discard_owned. *)
Definition discard_owned (id : bytes) (owner : OwnerBinding) (s : Store) : Store :=
  match store_remove (id, Some owner) s with Some (_, s) => s | None => s end.
End staging.
