(* ===== verification/StagingProps.v ===== *)
(** What the staging area guarantees: exact accounting within the global and per-client
    limits, integrity of what is read, isolation of owners, round trips in both directions,
    and the one quantity it does not bound. *)

From S2P Require Import Prelude.
From S2P Require Import ProtocolId.
From S2P Require Import Bulk.
From S2P Require Import Staging.
From stdpp Require Import options.
Set Warnings "-clear-no-such-hyp".

(** ** Sums *)

Lemma map_sum_subseteq {K A} `{Countable K} (f : K -> A -> Z) (m' m : gmap K A) :
  (forall k x, m !! k = Some x -> 0 <= f k x) -> m' ⊆ m -> map_sum f m' <= map_sum f m.
Proof.
  revert m. induction m' as [|k x m' Hk IH] using map_ind; intros m Hf Hsub.
  - rewrite map_sum_empty. by apply map_sum_nonneg.
  - assert (m !! k = Some x) as Hm by (eapply lookup_weaken; [apply lookup_insert_eq|exact Hsub]).
    rewrite map_sum_insert, (map_sum_delete f m k x Hm) by done.
    assert (map_sum f m' <= map_sum f (delete k m)); [|lia]. apply IH.
    + intros k' x' Hk'. apply lookup_delete_Some in Hk' as [_ Hk']. by apply (Hf k').
    + apply map_subseteq_spec. intros k' x' Hk'. rewrite lookup_delete_ne by congruence.
      eapply lookup_weaken; [|exact Hsub]. rewrite lookup_insert_ne by congruence. exact Hk'.
Qed.
Lemma map_sum_zero {K A} `{Countable K} (f : K -> A -> Z) (m : gmap K A) :
  (forall k x, m !! k = Some x -> f k x = 0) -> map_sum f m = 0.
Proof.
  intros Hf. rewrite (map_sum_ext _ (fun _ _ => 0)) by exact Hf. clear Hf.
  induction m as [|k x m Hk IH] using map_ind; [apply map_sum_empty|]. rewrite map_sum_insert by done. lia.
Qed.
Lemma map_sum_size {K A} `{Countable K} (m : gmap K A) : map_sum (fun _ _ => 1) m = Z.of_nat (size m).
Proof.
  induction m as [|k x m Hk IH] using map_ind; [by rewrite map_sum_empty, map_size_empty|].
  rewrite map_sum_insert, map_size_insert_None by done. lia.
Qed.

(** ** The invariant *)

(** The accepted chunks of an entry and where each ends. *)
Fixpoint ends_of (from : Z) (chunks : list bytes) : list Z :=
  match chunks with [] => [] | c :: chunks => (from + zlen c) :: ends_of (from + zlen c) chunks end.
Definition has_chunks (t : StagedTransfer) (chunks : list bytes) : Prop :=
  sg_bytes t = concat chunks /\ sg_chunk_ends t = ends_of 0 chunks.

Definition client_bytes (q : ClientQuotaKey) (s : Store) : Z :=
  map_sum (fun _ t => if bool_decide (sg_quota t = q) then sg_total_length t else 0) (st_transfers s).
Definition client_count (q : ClientQuotaKey) (s : Store) : Z :=
  map_sum (fun _ t => if bool_decide (sg_quota t = q) then 1 else 0) (st_transfers s).
Definition staged_sum (s : Store) : Z := map_sum (fun _ t => sg_total_length t) (st_transfers s).

Section inv.
Context `{Sha256}.

Record entry_wf (k : StagedTransferKey) (t : StagedTransfer) : Prop := mkEntryWf {
  ew_total : 0 <= sg_total_length t <= class_max_total_length (sg_mime_class t);
  ew_len : zlen (sg_bytes t) <= sg_total_length t;
  ew_next : sg_next_chunk_index t = zlen (sg_chunk_ends t);
  ew_next_u32 : sg_next_chunk_index t <= U32_MAX;
  ew_chunks : exists chunks, has_chunks t chunks;
  ew_complete : sg_complete t = true -> zlen (sg_bytes t) = sg_total_length t /\ sg_sha256 t = digest_of (sg_bytes t);
  ew_owner : sg_owner t = k.2;
  ew_opaque : sg_mime_class t = BmOpaque <-> is_Some (sg_owner t) }.

(** Everything is booked, within every limit. *)
Record store_inv (s : Store) : Prop := mkStoreInv {
  si_bytes : st_staged_bytes s = staged_sum s;
  si_cap : st_staged_bytes s <= MAX_STAGED_BYTES;
  si_count : Z.of_nat (size (st_transfers s)) <= MAX_STAGED_TRANSFERS;
  si_client : forall q, client_bytes q s <= MAX_STAGED_BYTES_PER_CLIENT;
  si_clients : forall q, client_count q s <= MAX_STAGED_TRANSFERS_PER_CLIENT;
  si_entries : forall k t, st_transfers s !! k = Some t -> entry_wf k t }.

Lemma empty_store_inv : store_inv empty_store.
Proof using Type.
  split; cbn; try (intros; apply Z.leb_le; reflexivity); [done|..]; intros k t Hk; by rewrite lookup_empty in Hk.
Qed.

Lemma entries_total_nonneg s : store_inv s -> forall k t, st_transfers s !! k = Some t -> 0 <= sg_total_length t.
Proof using Type. intros Hs k t Hk. apply (ew_total _ _ (si_entries _ Hs _ _ Hk)). Qed.

(** Losing entries keeps the invariant. *)
Lemma store_inv_shrink s m :
  store_inv s -> m ⊆ st_transfers s -> store_inv (mkStore m (map_sum (fun _ t => sg_total_length t) m)).
Proof using Type.
  intros Hs Hsub. pose proof (entries_total_nonneg s Hs) as Hnn. destruct Hs as [Hb Hc Hn Hq Hqc He].
  split; cbn; [done|..].
  - etrans; [|exact Hc]. rewrite Hb. by apply map_sum_subseteq.
  - etrans; [|exact Hn]. rewrite <- !map_sum_size. by apply map_sum_subseteq; [lia|].
  - intros q. etrans; [|apply (Hq q)]. apply map_sum_subseteq; [|exact Hsub]. intros k t Hk.
    case_bool_decide; [by eapply Hnn|done].
  - intros q. etrans; [|apply (Hqc q)]. apply map_sum_subseteq; [|exact Hsub]. intros k t Hk. by case_bool_decide.
  - intros k t Hk. apply He. by eapply lookup_weaken.
Qed.

(** What an operation finds once it has swept the store. *)
Definition swept (now : Z) (s : Store) : Store :=
  let kept := filter (fun kt : StagedTransferKey * StagedTransfer => stale now kt.2 = false) (st_transfers s) in
  mkStore kept (map_sum (fun _ t => sg_total_length t) kept).
Lemma expire_ok now s : store_inv s -> exists n, expire now s = Ok (swept now s, n).
Proof using Type.
  intros Hs. pose proof (entries_total_nonneg s Hs) as Hnn. unfold expire, swept. cbv zeta.
  set (kept := filter _ (st_transfers s)). set (freed := map_sum (fun _ t => if stale now t then _ else _) _).
  assert (staged_sum s = map_sum (fun _ t => sg_total_length t) kept + freed) as Hsum.
  { apply map_sum_filter; intros k t Ht; cbn in Ht; by destruct (stale now t). }
  assert (0 <= map_sum (fun _ t => sg_total_length t) kept) as Hkept.
  { apply map_sum_nonneg. intros k t Hk. apply map_lookup_filter_Some in Hk as [Hk _]. by eapply Hnn. }
  assert (0 <= freed) as Hfreed.
  { apply map_sum_nonneg. intros k t Hk. destruct (stale now t); [by eapply Hnn|done]. }
  pose proof (si_cap _ Hs) as Hcap. pose proof (si_bytes _ Hs) as Hb. unfold MAX_STAGED_BYTES in Hcap.
  assert ((U64_MAX <? freed) = false) as -> by (apply Z.ltb_ge; unfold U64_MAX; lia).
  eexists. f_equal. f_equal. f_equal. unfold saturating_sub. lia.
Qed.
Lemma swept_inv now s : store_inv s -> store_inv (swept now s).
Proof using Type. intros Hs. apply (store_inv_shrink s); [exact Hs|]. apply map_filter_subseteq. Qed.
Lemma swept_lookup now s k t : st_transfers (swept now s) !! k = Some t <-> st_transfers s !! k = Some t /\ stale now t = false.
Proof using Type. unfold swept. cbn. rewrite map_lookup_filter_Some. done. Qed.

Lemma remove_spec k s : store_inv s ->
  store_remove k s = match st_transfers s !! k with
                     | Some t => Some (t, mkStore (delete k (st_transfers s)) (map_sum (fun _ t => sg_total_length t) (delete k (st_transfers s))))
                     | None => None
                     end.
Proof using Type.
  intros Hs. unfold store_remove. destruct (st_transfers s !! k) as [t|] eqn:Hk; [|done]. cbn [mbind option_bind].
  do 3 f_equal. rewrite (si_bytes _ Hs). unfold staged_sum. rewrite (map_sum_delete _ _ _ _ Hk).
  unfold saturating_sub. assert (0 <= map_sum (fun _ t => sg_total_length t) (delete k (st_transfers s))); [|lia].
  apply map_sum_nonneg. intros k' t' Hk'. apply lookup_delete_Some in Hk' as [_ Hk']. by eapply entries_total_nonneg.
Qed.
Lemma removed_inv k s : store_inv s ->
  store_inv (mkStore (delete k (st_transfers s)) (map_sum (fun _ t => sg_total_length t) (delete k (st_transfers s)))).
Proof using Type. intros Hs. apply (store_inv_shrink s); [exact Hs|]. apply delete_subseteq. Qed.

(** A reservation that fits keeps the invariant. *)
Lemma can_reserve_ok n q s : can_reserve n q s = Ok tt ->
  Z.of_nat (size (st_transfers s)) < MAX_STAGED_TRANSFERS /\ st_staged_bytes s + n <= MAX_STAGED_BYTES /\
  client_count q s < MAX_STAGED_TRANSFERS_PER_CLIENT /\ Z.min U64_MAX (client_bytes q s) + n <= MAX_STAGED_BYTES_PER_CLIENT.
Proof using Type.
  unfold can_reserve, client_reserved. intros Hr.
  destruct (MAX_STAGED_TRANSFERS <=? _) eqn:H1; [done|]. apply Z.leb_gt in H1. split; [exact H1|].
  destruct (add_in _ (st_staged_bytes s) n) as [all|e|] eqn:Ha; cbn [mbind result_bind] in Hr; try done.
  apply add_in_Ok in Ha as [_ ->]. destruct (MAX_STAGED_BYTES <? _) eqn:H2; [done|]. apply Z.ltb_ge in H2. split; [exact H2|].
  destruct (MAX_STAGED_TRANSFERS_PER_CLIENT <=? _) eqn:H3; [done|]. apply Z.leb_gt in H3. split; [exact H3|].
  destruct (add_in _ (Z.min _ _) n) as [mine|e|] eqn:Hm; cbn [mbind result_bind] in Hr; try done.
  apply add_in_Ok in Hm as [_ ->]. destruct (MAX_STAGED_BYTES_PER_CLIENT <? _) eqn:H4; [done|]. by apply Z.ltb_ge in H4.
Qed.
Lemma reserve_inv k t s : store_inv s -> st_transfers s !! k = None -> can_reserve (sg_total_length t) (sg_quota t) s = Ok tt ->
  entry_wf k t -> store_inv (reserve k t s).
Proof using Type.
  intros Hs Hk Hr Ht. apply can_reserve_ok in Hr as (H1 & H2 & H3 & H4). pose proof (ew_total _ _ Ht) as Htot.
  pose proof (si_client _ Hs (sg_quota t)) as Hq. destruct Hs as [Hb Hc Hn Hcl Hcc He].
  rewrite Z.min_r in H4 by (unfold U64_MAX, MAX_STAGED_BYTES_PER_CLIENT in *; lia).
  split; cbn.
  - unfold staged_sum. cbn. rewrite map_sum_insert by done. rewrite Hb. unfold staged_sum. lia.
  - exact H2.
  - rewrite map_size_insert_None by done. lia.
  - intros q. unfold client_bytes. cbn. rewrite map_sum_insert by done. case_bool_decide as Eq.
    + subst q. fold (client_bytes (sg_quota t) s). lia.
    + fold (client_bytes q s). specialize (Hcl q). lia.
  - intros q. unfold client_count. cbn. rewrite map_sum_insert by done. case_bool_decide as Eq.
    + subst q. fold (client_count (sg_quota t) s). lia.
    + fold (client_count q s). specialize (Hcc q). lia.
  - intros k' t' Hk'. apply lookup_insert_Some in Hk' as [[<- <-]|[_ Hk']]; [exact Ht|by apply He].
Qed.
(** An entry that keeps its reservation can change. *)
Lemma put_inv k t t' s : store_inv s -> st_transfers s !! k = Some t ->
  sg_total_length t' = sg_total_length t -> sg_quota t' = sg_quota t -> entry_wf k t' -> store_inv (put_transfer k t' s).
Proof using Type.
  intros [Hb Hc Hn Hcl Hcc He] Hk Htot Hq Ht.
  assert (forall f : Z -> ClientQuotaKey -> Z,
    map_sum (fun _ x => f (sg_total_length x) (sg_quota x)) (<[k := t']> (st_transfers s))
    = map_sum (fun _ x => f (sg_total_length x) (sg_quota x)) (st_transfers s)) as Hsum.
  { intros f. rewrite (map_sum_update _ _ _ _ _ Hk). rewrite Htot, Hq. lia. }
  split; cbn.
  - rewrite Hb. symmetry. apply (Hsum (fun n _ => n)).
  - exact Hc.
  - rewrite map_size_insert_Some by (by exists t). exact Hn.
  - intros q. etrans; [|apply (Hcl q)]. apply Z.eq_le_incl. exact (Hsum (fun (n : Z) (c : ClientQuotaKey) => if bool_decide (c = q) then n else 0)).
  - intros q. etrans; [|apply (Hcc q)]. apply Z.eq_le_incl. exact (Hsum (fun (_ : Z) (c : ClientQuotaKey) => if bool_decide (c = q) then 1 else 0)).
  - intros k' x Hk'. apply lookup_insert_Some in Hk' as [[<- <-]|[_ Hk']]; [exact Ht|by apply He].
Qed.
End inv.

(** ** Pieces of a byte string *)

Section pieces.
Context (C : nat).
(** The first [n] pieces of [C] bytes. *)
Fixpoint pieces (n : nat) (b : bytes) : list bytes :=
  match n with O => [] | S n => take C b :: pieces n (drop C b) end.
Lemma concat_pieces n b : (length b <= n * C)%nat -> concat (pieces n b) = b.
Proof using Type.
  revert b. induction n as [|n IH]; intros b Hb; cbn [pieces concat].
  - by destruct b; [|cbn in Hb; lia].
  - rewrite IH; [apply take_drop|]. rewrite length_drop. lia.
Qed.
Lemma length_pieces n b : length (pieces n b) = n.
Proof using Type. revert b. induction n as [|n IH]; intros b; cbn; [done|]. by rewrite IH. Qed.
Lemma ends_pieces n b from :
  ends_of from (pieces n b) = (fun i => from + Z.min ((i + 1) * Z.of_nat C) (zlen b)) <$> seqZ 0 (Z.of_nat n).
Proof using Type.
  revert b from. induction n as [|n IH]; intros b from; [done|]. cbn [pieces ends_of].
  rewrite Nat2Z.inj_succ, seqZ_cons by lia. cbn [fmap list_fmap].
  assert (zlen (take C b) = Z.min (Z.of_nat C) (zlen b)) as Hlen by (unfold zlen; rewrite length_take; lia).
  rewrite Hlen, IH. f_equal; [f_equal; f_equal; lia|].
  rewrite Z.pred_succ, <- (fmap_add_seqZ 1 0), <- list_fmap_compose. apply list_fmap_ext. intros j i Hi. cbn.
  assert (zlen (drop C b) = zlen b - Z.min (Z.of_nat C) (zlen b)) as -> by (unfold zlen; rewrite length_drop; lia).
  apply list_elem_of_lookup_2, elem_of_seqZ in Hi. pose proof (zlen_nonneg b). nia.
Qed.
Lemma pieces_lookup n b i : (i < n)%nat -> pieces n b !! i = Some (take C (drop (i * C) b)).
Proof using Type.
  revert b i. induction n as [|n IH]; intros b i Hi; [lia|]. destruct i as [|i]; cbn [pieces lookup list_lookup].
  - done.
  - rewrite IH by lia. rewrite drop_drop. done.
Qed.
End pieces.

Lemma zlen_ends from chunks : zlen (ends_of from chunks) = zlen chunks.
Proof. revert from. induction chunks as [|c chunks IH]; intros from; [done|]. cbn [ends_of]. by rewrite !zlen_cons, IH. Qed.
Lemma ends_snoc from chunks c :
  ends_of from (chunks ++ [c]) = ends_of from chunks ++ [from + zlen (concat chunks) + zlen c].
Proof.
  revert from. induction chunks as [|d chunks IH]; intros from; cbn; [by rewrite zlen_nil, Z.add_0_r|].
  rewrite IH. do 3 f_equal. rewrite zlen_app. lia.
Qed.
Lemma chunk_count_bounds n : 0 <= n <= BULK_TRANSFER_MAX_BYTES ->
  1 <= chunk_count n <= U32_MAX /\ n <= chunk_count n * STAGED_CHUNK_BYTES /\ (0 < n -> (chunk_count n - 1) * STAGED_CHUNK_BYTES < n).
Proof.
  intros Hn. unfold chunk_count, BULK_TRANSFER_MAX_BYTES in *. destruct (n =? 0) eqn:H0.
  - apply Z.eqb_eq in H0 as ->. change STAGED_CHUNK_BYTES with 196608. unfold U32_MAX. lia.
  - apply Z.eqb_neq in H0. change STAGED_CHUNK_BYTES with 196608. unfold div_ceil.
    assert (0 <= (n + 196608 - 1) / 196608 <= 3000) as Hd.
    { split; [apply Z.div_pos; lia|]. apply Z.div_le_upper_bound; lia. }
    rewrite Z.mod_small by lia. pose proof (Z.div_mod (n + 196608 - 1) 196608 ltac:(lia)) as Hdm.
    pose proof (Z.mod_pos_bound (n + 196608 - 1) 196608 ltac:(lia)). unfold U32_MAX. lia.
Qed.
Lemma class_max_le c : class_max_total_length c <= BULK_TRANSFER_MAX_BYTES.
Proof. destruct c; vm_compute; discriminate. Qed.

Section ops.
Context `{Sha256}.

Lemma check_owner_ok c owner : check_owner c owner = Ok tt -> (c = BmOpaque <-> is_Some owner).
Proof using Type. destruct c, owner; cbn; try done; intros _; split; try done; intros [? ?]; done. Qed.
Lemma check_owner_no_panic c owner : check_owner c owner <> Panic.
Proof using Type. by destruct c, owner. Qed.

(** The entry the daemon stages. *)
Definition staged_entry (now : Z) (b : bytes) (c : BulkMimeClass) (owner : option OwnerBinding) (quota : ClientQuotaKey) : StagedTransfer :=
  mkStaged (zlen b) (digest_of b) c b
    ((fun i => Z.min ((i + 1) * STAGED_CHUNK_BYTES) (zlen b)) <$> seqZ 0 (chunk_count (zlen b))) (chunk_count (zlen b)) true now owner quota.
Lemma staged_chunks now b c owner quota : zlen b <= BULK_TRANSFER_MAX_BYTES ->
  has_chunks (staged_entry now b c owner quota) (pieces (Z.to_nat STAGED_CHUNK_BYTES) (Z.to_nat (chunk_count (zlen b))) b).
Proof using Type.
  intros Hb. destruct (chunk_count_bounds (zlen b)) as (H1 & H2 & _); [pose proof (zlen_nonneg b); lia|]. split; cbn.
  - symmetry. apply concat_pieces. unfold zlen in *. change STAGED_CHUNK_BYTES with 196608 in *. lia.
  - rewrite ends_pieces. rewrite !Z2Nat.id by (change STAGED_CHUNK_BYTES with 196608; lia). apply list_fmap_ext. by intros.
Qed.
Lemma staged_entry_wf now b c id owner quota :
  zlen b <= class_max_total_length c -> (c = BmOpaque <-> is_Some owner) -> entry_wf (id, owner) (staged_entry now b c owner quota).
Proof using Type.
  intros Hb Ho. pose proof (class_max_le c) as Hc. pose proof (zlen_nonneg b) as Hnn.
  destruct (chunk_count_bounds (zlen b)) as (H1 & H2 & _); [lia|]. split; cbn; try done; try lia.
  - unfold zlen at 2. rewrite length_fmap, length_seqZ. lia.
  - eexists. apply staged_chunks. lia.
Qed.

(** An entry with one more chunk. *)
Definition appended (t : StagedTransfer) (chunk : bytes) (done : bool) : StagedTransfer :=
  mkStaged (sg_total_length t) (sg_sha256 t) (sg_mime_class t) (sg_bytes t ++ chunk)
    (sg_chunk_ends t ++ [zlen (sg_bytes t ++ chunk)]) (sg_next_chunk_index t + 1) done (sg_created_ms t) (sg_owner t) (sg_quota t).
Lemma appended_wf k t chunk done : entry_wf k t -> zlen (sg_bytes t ++ chunk) <= sg_total_length t ->
  sg_next_chunk_index t + 1 <= U32_MAX ->
  (done = true -> zlen (sg_bytes t ++ chunk) = sg_total_length t /\ sg_sha256 t = digest_of (sg_bytes t ++ chunk)) ->
  entry_wf k (appended t chunk done).
Proof using Type.
  intros Ht Hlen Hnext Hdone. destruct Ht as [H1 H2 H3 H4 (chunks & Hb & He) H6 H7 H8]. split; cbn; try done.
  - rewrite zlen_app, zlen_cons, zlen_nil. lia.
  - exists (chunks ++ [chunk]). split; cbn; [rewrite concat_app, Hb; cbn; by rewrite app_nil_r|].
    rewrite ends_snoc, He, Hb. do 2 f_equal. rewrite zlen_app. lia.
Qed.

(** What a write does to the entry it finds: a replay is answered, an error leaves the store, and an
    append is exact. *)
Inductive wrote (now : Z) (k : StagedTransferKey) (r : BulkTransferRef) (owner : option OwnerBinding) (idx : Z)
    (chunk : bytes) (t : StagedTransfer) (s : Store) : Store * result BulkStagingError ChunkAccepted -> Prop :=
| wrote_err e : e <> StagedDigestMismatch -> wrote now k r owner idx chunk t s (s, Err e)
| wrote_replay : idx < sg_next_chunk_index t -> wrote now k r owner idx chunk t s (s, Ok (accepted now t))
| wrote_next done : sg_complete t = false -> idx = sg_next_chunk_index t -> zlen (sg_bytes t ++ chunk) <= sg_total_length t ->
    sg_next_chunk_index t + 1 <= U32_MAX ->
    (done = true <-> zlen (sg_bytes t ++ chunk) = sg_total_length t) ->
    (done = true -> digest_of (sg_bytes t ++ chunk) = sg_sha256 t) ->
    wrote now k r owner idx chunk t s (put_transfer k (appended t chunk done) s, Ok (accepted now (appended t chunk done)))
| wrote_mismatch : sg_complete t = false -> idx = sg_next_chunk_index t -> zlen (sg_bytes t ++ chunk) = sg_total_length t ->
    digest_of (sg_bytes t ++ chunk) <> sg_sha256 t ->
    wrote now k r owner idx chunk t s
      (mkStore (delete k (st_transfers s)) (map_sum (fun _ t => sg_total_length t) (delete k (st_transfers s))), Err StagedDigestMismatch)
| wrote_panic t' : sg_next_chunk_index t = U32_MAX -> wrote now k r owner idx chunk t s (put_transfer k t' s, Panic).
Lemma write_entry_spec now k r owner idx chunk t s : store_inv s -> st_transfers s !! k = Some t ->
  wrote now k r owner idx chunk t s (write_entry now k r owner idx chunk t s).
Proof using Type.
  intros Hs Hk. pose proof (si_entries _ Hs _ _ Hk) as Ht. unfold write_entry.
  destruct (negb (bool_decide (sg_owner t = owner))); [by apply wrote_err|].
  destruct (negb _ || negb _ || negb _); [by apply wrote_err|].
  destruct (idx <? sg_next_chunk_index t) eqn:Hidx.
  { apply Z.ltb_lt in Hidx. destruct (sg_chunk_ends t !! Z.to_nat idx); [|by apply wrote_err]. cbv zeta.
    destruct (negb _); [by apply wrote_err|by apply wrote_replay]. }
  destruct (sg_complete t) eqn:Hc; [by apply wrote_err|].
  destruct (idx =? sg_next_chunk_index t) eqn:Heq; cbn [negb]; [|by apply wrote_err]. apply Z.eqb_eq in Heq.
  destruct (sg_total_length t <? zlen (sg_bytes t) + zlen chunk) eqn:Hov; [by apply wrote_err|]. apply Z.ltb_ge in Hov.
  rewrite <- zlen_app in Hov. cbv zeta.
  destruct (add_in U32_MAX (sg_next_chunk_index t) 1) as [next|e|] eqn:Hadd.
  - apply add_in_Ok in Hadd as [Hmax ->].
    assert (forall done, (done = true -> zlen (sg_bytes t ++ chunk) = sg_total_length t /\ sg_sha256 t = digest_of (sg_bytes t ++ chunk)) ->
            entry_wf k (appended t chunk done)) as Hwf by (intros done Hd; by apply appended_wf).
    destruct (zlen (sg_bytes t ++ chunk) =? sg_total_length t) eqn:Hfull.
    + apply Z.eqb_eq in Hfull. case_bool_decide as Hdig; cbn [negb].
      * by apply (wrote_next now k r owner idx chunk t s true).
      * change (mkStaged _ _ _ _ _ _ false _ _ _) with (appended t chunk false).
        assert (store_inv (put_transfer k (appended t chunk false) s)) as Hput by (apply (put_inv k t); try done; by apply Hwf).
        rewrite remove_spec by done. unfold put_transfer. cbn [st_transfers]. rewrite lookup_insert_eq, delete_insert_eq.
        by apply wrote_mismatch.
    + apply Z.eqb_neq in Hfull. by apply (wrote_next now k r owner idx chunk t s false).
  - unfold add_in in Hadd. by case_match.
  - unfold add_in in Hadd. destruct (sg_next_chunk_index t + 1 <=? U32_MAX) eqn:Hm; [done|]. apply Z.leb_gt in Hm.
    apply wrote_panic. pose proof (ew_next_u32 _ _ Ht). lia.
Qed.
Lemma wrote_inv now k r owner idx chunk t s out : store_inv s -> st_transfers s !! k = Some t ->
  wrote now k r owner idx chunk t s out -> out.2 <> Panic -> store_inv out.1.
Proof using Type.
  intros Hs Hk Hw Hp. destruct Hw as [e He|Hidx|fin Hc Hi Hlen Hmax Hd Hdig|Hc Hi Hlen Hdig|s' Hmax]; cbn [fst snd] in *; try done.
  - apply (put_inv k t); try done. apply appended_wf; [by apply (si_entries _ Hs)|done|done|].
    intros Hdone. split; [by apply Hd|symmetry; by apply Hdig].
  - by apply removed_inv.
Qed.

(** ** Operations *)

Inductive StagingOp :=
| SStage (now : Z) (b : bytes) (c : BulkMimeClass) (id : bytes) (owner : option OwnerBinding) (quota : ClientQuotaKey)
| SWrite (now : Z) (r : BulkTransferRef) (owner : option OwnerBinding) (quota : ClientQuotaKey) (idx : Z) (chunk : bytes)
| SRead (now : Z) (id : bytes) (idx : Z) (expected : option BulkMimeClass)
| STake (now : Z) (rs : list BulkTransferRef) (owner : option OwnerBinding)
| SDiscard (id : bytes) (owner : option OwnerBinding)
| SExpire (now : Z).
Definition outcome {A} (r : Store * result BulkStagingError A) : Store * bool :=
  (r.1, match r.2 with Panic => true | _ => false end).
(** The store an operation leaves, and whether it panicked. *)
Definition staging_step (op : StagingOp) (s : Store) : Store * bool :=
  match op with
  | SStage now b c id owner quota => outcome (stage_with_owner now b c id owner quota s)
  | SWrite now r owner quota idx chunk => outcome (write_chunk_with_owner now r owner quota idx chunk s)
  | SRead now id idx expected => outcome (read_chunk_gen now id idx expected s)
  | STake now rs owner => outcome (take_all_with_owner now rs owner s)
  | SDiscard id owner => (match owner with None => discard id s | Some o => discard_owned id o s end, false)
  | SExpire now => match expire now s with Ok (s, _) => (s, false) | Err _ => (s, false) | Panic => (s, true) end
  end.
(** Arguments within their types: an unsigned length and chunk index. *)
Definition op_ok (op : StagingOp) : Prop :=
  match op with SWrite _ r _ _ idx _ => 0 <= br_total_length r /\ 0 <= idx | SRead _ _ idx _ => 0 <= idx | _ => True end.
(** The entries an operation names, and its clock. *)
Definition op_names (op : StagingOp) (k : StagedTransferKey) : Prop :=
  match op with
  | SStage _ _ _ id owner _ => k = (id, owner)
  | SWrite _ r owner _ _ _ => k = (br_transfer_id r, owner)
  | SRead _ id _ _ => k = (id, None)
  | STake _ rs owner => exists r, r ∈ rs /\ k = (br_transfer_id r, owner)
  | SDiscard id owner => k = (id, owner)
  | SExpire _ => False
  end.
Definition op_now (op : StagingOp) : option Z :=
  match op with
  | SStage now _ _ _ _ _ | SWrite now _ _ _ _ _ | SRead now _ _ _ | STake now _ _ | SExpire now => Some now
  | SDiscard _ _ => None
  end.

Lemma can_reserve_no_panic n q s : store_inv s -> 0 <= n <= BULK_TRANSFER_MAX_BYTES -> can_reserve n q s <> Panic.
Proof using Type.
  intros Hs Hn. unfold can_reserve, client_reserved. pose proof (si_cap _ Hs). pose proof (si_client _ Hs q) as Hq.
  unfold MAX_STAGED_BYTES, BULK_TRANSFER_MAX_BYTES, MAX_STAGED_BYTES_PER_CLIENT, client_bytes in *.
  destruct (_ <=? Z.of_nat _); [done|].
  assert (forall x, x <= 1024 * 1024 * 1024 -> add_in (E:=BulkStagingError) U64_MAX x n = Ok (x + n)) as Hadd.
  { intros x Hx. apply add_in_Ok. unfold U64_MAX. lia. }
  rewrite (Hadd (st_staged_bytes s)) by lia. cbn [mbind result_bind].
  destruct (_ <? st_staged_bytes s + n); [done|]. destruct (_ <=? map_sum _ _); [done|].
  rewrite Hadd by lia. cbn [mbind result_bind]. by destruct (_ <? _).
Qed.

(** How a pushed chunk is received: refused before there is an entry, or written to the entry there
    is or a fresh one. *)
Definition fresh_entry (now : Z) (r : BulkTransferRef) (owner : option OwnerBinding) (quota : ClientQuotaKey) : StagedTransfer :=
  mkStaged (br_total_length r) (br_sha256 r) (br_mime_class r) [] [] 0 false now owner quota.
Inductive received (now : Z) (r : BulkTransferRef) (owner : option OwnerBinding) (quota : ClientQuotaKey) (idx : Z)
    (chunk : bytes) (s : Store) : Store * result BulkStagingError ChunkAccepted -> Prop :=
| rec_refused e : received now r owner quota idx chunk s (s, Err e)
| rec_swept e : received now r owner quota idx chunk s (swept now s, Err e)
| rec_entry t out : st_transfers (swept now s) !! (br_transfer_id r, owner) = Some t ->
    wrote now (br_transfer_id r, owner) r owner idx chunk t (swept now s) out -> received now r owner quota idx chunk s out
| rec_fresh out : st_transfers (swept now s) !! (br_transfer_id r, owner) = None -> idx = 0 ->
    store_inv (reserve (br_transfer_id r, owner) (fresh_entry now r owner quota) (swept now s)) ->
    wrote now (br_transfer_id r, owner) r owner idx chunk (fresh_entry now r owner quota)
      (reserve (br_transfer_id r, owner) (fresh_entry now r owner quota) (swept now s)) out ->
    received now r owner quota idx chunk s out.
Lemma write_chunk_spec now r owner quota idx chunk s : store_inv s -> 0 <= br_total_length r ->
  received now r owner quota idx chunk s (write_chunk_with_owner now r owner quota idx chunk s).
Proof using Type.
  intros Hs Hr. unfold write_chunk_with_owner. pose proof (check_owner_no_panic (br_mime_class r) owner) as Hnp.
  destruct (check_owner _ _) as [[]|e|] eqn:Ho; [|apply rec_refused|done]. apply check_owner_ok in Ho.
  destruct (STAGED_CHUNK_BYTES <? zlen chunk); [apply rec_refused|]. cbv zeta.
  destruct (class_max_total_length _ <? _) eqn:Hmax; [apply rec_refused|]. apply Z.ltb_ge in Hmax.
  destruct (expire_ok now s Hs) as [n ->]. pose proof (swept_inv now s Hs) as Hsw.
  destruct (st_transfers (swept now s) !! _) as [t|] eqn:Hk.
  - apply (rec_entry _ _ _ _ _ _ _ t); [exact Hk|by apply write_entry_spec].
  - destruct (idx =? 0) eqn:Hi; cbn [negb]; [|apply rec_swept]. apply Z.eqb_eq in Hi.
    pose proof (class_max_le (br_mime_class r)) as Hcl.
    pose proof (can_reserve_no_panic (br_total_length r) quota _ Hsw ltac:(lia)) as Hnp2.
    destruct (can_reserve _ _ _) as [[]|e|] eqn:Hres; [|apply rec_swept|done].
    assert (store_inv (reserve (br_transfer_id r, owner) (fresh_entry now r owner quota) (swept now s))) as Hri.
    { apply reserve_inv; try done. split; cbn; try done.
      all: rewrite ?zlen_nil; unfold U32_MAX; try lia. by exists []. }
    apply rec_fresh; try done. apply write_entry_spec; [exact Hri|]. cbn. apply lookup_insert_eq.
Qed.

(** The store without one entry. *)
Definition without (k : StagedTransferKey) (s : Store) : Store :=
  mkStore (delete k (st_transfers s)) (map_sum (fun _ t => sg_total_length t) (delete k (st_transfers s))).
Lemma remove_at k t s : store_inv s -> st_transfers s !! k = Some t -> store_remove k s = Some (t, without k s).
Proof using Type. intros Hs Hk. by rewrite remove_spec, Hk. Qed.
Definition piece (i : Z) (b : bytes) : bytes := take (Z.to_nat STAGED_CHUNK_BYTES) (drop (Z.to_nat (i * STAGED_CHUNK_BYTES)) b).

Inductive served (now : Z) (id : bytes) (idx : Z) (expected : option BulkMimeClass) (s : Store)
    : Store * result BulkStagingError (bytes * bool) -> Prop :=
| served_err e : served now id idx expected s (swept now s, Err e)
| served_ok t last : st_transfers (swept now s) !! (id, None) = Some t -> sg_complete t = true ->
    (forall e, expected = Some e -> sg_mime_class t = e) -> idx < chunk_count (sg_total_length t) ->
    last = (idx + 1 =? chunk_count (sg_total_length t)) ->
    served now id idx expected s
      (if last then without (id, None) (swept now s) else swept now s, Ok (piece idx (sg_bytes t), last)).
Lemma slice_piece (b : bytes) idx : zlen b <= BULK_TRANSFER_MAX_BYTES -> 0 <= idx < chunk_count (zlen b) ->
  slice (E:=BulkStagingError) b (idx * STAGED_CHUNK_BYTES) (Z.min (idx * STAGED_CHUNK_BYTES + STAGED_CHUNK_BYTES) (zlen b)) = Ok (piece idx b).
Proof using Type.
  intros Hb Hi. pose proof (zlen_nonneg b) as Hnn. destruct (chunk_count_bounds (zlen b)) as (H1 & H2 & H3); [lia|].
  assert (idx * STAGED_CHUNK_BYTES <= zlen b) as Hstart.
  { destruct (decide (zlen b = 0)) as [E|E]; [|specialize (H3 ltac:(lia)); change STAGED_CHUNK_BYTES with 196608 in *; nia].
    rewrite E in *. change (chunk_count 0) with 1 in *. lia. }
  change STAGED_CHUNK_BYTES with 196608 in *. rewrite slice_ok by lia. f_equal. unfold piece.
  change STAGED_CHUNK_BYTES with 196608.
  destruct (decide (idx * 196608 + 196608 <= zlen b)) as [Hle|Hgt].
  - rewrite Z.min_l by lia. do 2 f_equal. lia.
  - rewrite Z.min_r by lia. rewrite !take_ge; [done|..]; rewrite length_drop; unfold zlen in *; lia.
Qed.
Lemma read_chunk_spec now id idx expected s : store_inv s -> 0 <= idx ->
  served now id idx expected s (read_chunk_gen now id idx expected s).
Proof using Type.
  intros Hs Hi. unfold read_chunk_gen. destruct (expire_ok now s Hs) as [n ->]. pose proof (swept_inv now s Hs) as Hsw. cbv zeta.
  destruct (st_transfers (swept now s) !! (id, None)) as [t|] eqn:Hk; [|apply served_err].
  pose proof (si_entries _ Hsw _ _ Hk) as Ht. case_bool_decide; [apply served_err|].
  destruct (match expected with Some _ => _ | None => _ end) eqn:Hexp; [apply served_err|].
  destruct (sg_complete t) eqn:Hc; cbn [negb]; [|apply served_err].
  destruct (chunk_count _ <=? idx) eqn:Hlt; [apply served_err|]. apply Z.leb_gt in Hlt.
  destruct (ew_complete _ _ Ht Hc) as [Hlen _]. pose proof (ew_total _ _ Ht) as Htot. pose proof (class_max_le (sg_mime_class t)).
  rewrite slice_piece by (rewrite Hlen; lia).
  rewrite (remove_at (id, None) t) by done. apply (served_ok now id idx expected s t); try done.
  intros e ->. by case_bool_decide.
Qed.

(** What a consumer may take: the entries, complete and exactly as referenced. *)
Definition takeable (owner : option OwnerBinding) (s : Store) (r : BulkTransferRef) (t : StagedTransfer) : Prop :=
  st_transfers s !! (br_transfer_id r, owner) = Some t /\ sg_complete t = true /\ sg_total_length t = br_total_length r /\
  sg_sha256 t = br_sha256 r /\ digest_of (sg_bytes t) = br_sha256 r /\ sg_mime_class t = br_mime_class r.
Lemma take_check_spec owner s keys r : store_inv s ->
  match take_check owner s keys r with
  | Ok k => k = (br_transfer_id r, owner) /\ (k ∉ keys) /\ exists t, takeable owner s r t
  | Err _ => True
  | Panic => False
  end.
Proof using Type.
  intros Hs. unfold take_check. pose proof (check_owner_no_panic (br_mime_class r) owner) as Hnp.
  destruct (check_owner _ _) as [[]|e|]; cbn [mbind result_bind]; [|done|done].
  case_bool_decide as Hin; [done|]. destruct (st_transfers s !! _) as [t|] eqn:Hk; cbn [ok_or mbind result_bind]; [|done].
  case_bool_decide; cbn [negb]; [|done]. destruct (sg_complete t) eqn:Hc; cbn [negb]; [|done].
  case_bool_decide; cbn [negb]; [|done]. case_bool_decide; cbn [negb orb]; [|done]. case_bool_decide; cbn [negb orb]; [|done].
  case_bool_decide; cbn [negb]; [|done]. split; [done|]. split; [done|]. by exists t.
Qed.
Lemma take_keys_spec owner s keys rs : store_inv s -> NoDup keys ->
  match take_keys owner s keys rs with
  | Ok ks => ks = keys ++ ((fun r => (br_transfer_id r, owner)) <$> rs) /\ NoDup ks /\ Forall (fun r => exists t, takeable owner s r t) rs
  | Err _ => True
  | Panic => False
  end.
Proof using Type.
  intros Hs. revert keys. induction rs as [|r rs IH]; intros keys Hnd; cbn [take_keys].
  - rewrite app_nil_r. done.
  - pose proof (take_check_spec owner s keys r Hs) as Hc. destruct (take_check _ _ _ _) as [k|e|]; cbn [mbind result_bind]; [|done..].
    destruct Hc as (-> & Hni & Ht). specialize (IH (keys ++ [(br_transfer_id r, owner)])).
    destruct (take_keys _ _ _ rs) as [ks|e|]; [|done|]; [|apply IH; apply NoDup_app; split; [done|split; [set_solver|apply NoDup_singleton]]].
    destruct IH as (-> & Hnd' & Hrs); [apply NoDup_app; split; [done|split; [set_solver|apply NoDup_singleton]]|].
    rewrite <- app_assoc. split; [done|]. split; [by rewrite <- app_assoc in Hnd'|]. by constructor.
Qed.

Fixpoint without_all (ks : list StagedTransferKey) (s : Store) : Store :=
  match ks with [] => s | k :: ks => without_all ks (without k s) end.
Lemma without_inv k s : store_inv s -> store_inv (without k s).
Proof using Type. apply removed_inv. Qed.
Lemma without_all_inv ks s : store_inv s -> store_inv (without_all ks s).
Proof using Type. revert s. induction ks as [|k ks IH]; intros s Hs; [done|]. by apply IH, without_inv. Qed.
Lemma without_all_lookup ks s k : st_transfers (without_all ks s) !! k = if bool_decide (k ∈ ks) then None else st_transfers s !! k.
Proof using Type.
  revert s. induction ks as [|k' ks IH]; intros s; cbn [without_all]; [done|]. rewrite IH. cbn.
  destruct (decide (k = k')) as [->|Hne].
  - rewrite lookup_delete_eq. rewrite (bool_decide_true (k' ∈ k' :: ks)) by left. by case_bool_decide.
  - rewrite lookup_delete_ne by done. do 2 case_bool_decide; set_solver.
Qed.
Lemma take_remove_spec ks s : store_inv s -> NoDup ks -> Forall (fun k => is_Some (st_transfers s !! k)) ks ->
  take_remove ks s = (without_all ks s, Ok (omap (fun k => sg_bytes <$> st_transfers s !! k) ks)).
Proof using Type.
  revert s. induction ks as [|k ks IH]; intros s Hs Hnd Hks; [done|]. apply NoDup_cons in Hnd as [Hk Hnd].
  apply Forall_cons in Hks as [[t Ht] Hks]. cbn [take_remove without_all omap list_omap].
  rewrite (remove_at k t) by done.
  assert (forall k', k' ∈ ks -> st_transfers (without k s) !! k' = st_transfers s !! k') as Hsame.
  { intros k' Hk'. cbn. apply lookup_delete_ne. by intros ->. }
  rewrite IH; [|by apply without_inv|done|].
  - rewrite Ht. cbn. do 3 f_equal. clear IH Hks Hnd Hk. induction ks as [|k' ks IH]; [done|]. cbn.
    rewrite Hsame by left. rewrite IH by (intros; apply Hsame; by right). done.
  - apply Forall_forall. intros k' Hk'. rewrite Hsame by done. by eapply (proj1 (Forall_forall _ _) Hks).
Qed.
(** Taking is all or nothing: an error leaves the swept store, success removes exactly the entries. *)
Inductive taken (now : Z) (rs : list BulkTransferRef) (owner : option OwnerBinding) (s : Store)
    : Store * result BulkStagingError (list bytes) -> Prop :=
| taken_err e : taken now rs owner s (swept now s, Err e)
| taken_ok ts : Forall2 (takeable owner (swept now s)) rs ts -> NoDup ((fun r => (br_transfer_id r, owner)) <$> rs) ->
    taken now rs owner s (without_all ((fun r => (br_transfer_id r, owner)) <$> rs) (swept now s), Ok (sg_bytes <$> ts)).
Lemma take_all_spec now rs owner s : store_inv s -> taken now rs owner s (take_all_with_owner now rs owner s).
Proof using Type.
  intros Hs. unfold take_all_with_owner. destruct (expire_ok now s Hs) as [n ->]. pose proof (swept_inv now s Hs) as Hsw.
  pose proof (take_keys_spec owner (swept now s) [] rs Hsw (NoDup_nil_2)) as Hk.
  destruct (take_keys _ _ _ _) as [ks|e|]; [|apply taken_err|done]. destruct Hk as (-> & Hnd & Hrs). cbn [app] in *.
  apply Forall_exists_Forall2_l in Hrs as [ts Hts]. rewrite take_remove_spec; [|done|done|].
  - replace (omap _ _) with (sg_bytes <$> ts); [by apply taken_ok|]. clear Hnd.
    induction Hts as [|r t rs ts Ht _ IH]; [done|]. cbn [fmap list_fmap omap list_omap]. rewrite (proj1 Ht). cbn [fmap option_fmap option_map]. by f_equal.
  - apply Forall_fmap, Forall_forall. intros r Hr. cbn.
    apply list_elem_of_lookup in Hr as [j Hj]. destruct (Forall2_lookup_l _ _ _ _ _ Hts Hj) as (t & _ & Ht & _). by exists t.
Qed.

(** The check passes for every entry a consumer may take. *)
Lemma check_owner_entry k t : entry_wf k t -> check_owner (sg_mime_class t) k.2 = Ok tt.
Proof using Type.
  intros Ht. pose proof (ew_opaque _ _ Ht) as Ho. rewrite (ew_owner _ _ Ht) in Ho.
  destruct (sg_mime_class t), (k.2); try done; exfalso;
    first [by destruct (proj1 Ho eq_refl)|by discriminate (proj2 Ho (mk_is_Some _ _ eq_refl))].
Qed.
Lemma take_check_pass owner s keys r t : store_inv s -> takeable owner s r t -> (br_transfer_id r, owner) ∉ keys ->
  take_check owner s keys r = Ok (br_transfer_id r, owner).
Proof using Type.
  intros Hs (Hk & Hc & Hlen & Hsha & Hdig & Hm) Hni. pose proof (si_entries _ Hs _ _ Hk) as Ht. unfold take_check.
  rewrite <- Hm. pose proof (check_owner_entry _ _ Ht) as Ho. cbn in Ho. rewrite Ho. cbn [mbind result_bind].
  rewrite bool_decide_false by done. rewrite Hk. cbn [ok_or mbind result_bind].
  pose proof (ew_owner _ _ Ht) as Hown. cbn in Hown. rewrite Hc, !bool_decide_true by done. done.
Qed.
Lemma take_keys_pass owner s keys rs ts : store_inv s -> Forall2 (takeable owner s) rs ts ->
  NoDup (keys ++ ((fun r => (br_transfer_id r, owner)) <$> rs)) ->
  exists ks, take_keys owner s keys rs = Ok ks.
Proof using Type.
  intros Hs Hts. revert keys. induction Hts as [|r t rs ts Ht _ IH]; intros keys Hnd; [by eexists|]. cbn [take_keys].
  rewrite fmap_cons in Hnd. rewrite (take_check_pass owner s keys r t); [|done..|].
  - apply IH. by rewrite <- app_assoc.
  - intros Hin. apply NoDup_app in Hnd as (_ & Hd & _). apply (Hd _ Hin). left.
Qed.
Lemma taken_keys (owner : option OwnerBinding) (rs : list BulkTransferRef) :
  ((fun r => (br_transfer_id r, owner)) <$> rs) = (fun i => (i, owner)) <$> (br_transfer_id <$> rs).
Proof using Type. exact (list_fmap_compose br_transfer_id (fun i => (i, owner)) rs). Qed.
Lemma take_all_pass now rs owner s ts e : store_inv s -> Forall2 (takeable owner (swept now s)) rs ts ->
  NoDup (br_transfer_id <$> rs) -> (take_all_with_owner now rs owner s).2 <> Err e.
Proof using Type.
  intros Hs Hts Hnd. unfold take_all_with_owner. destruct (expire_ok now s Hs) as [n ->].
  assert (NoDup ([] ++ ((fun r => (br_transfer_id r, owner)) <$> rs))) as Hnd'.
  { cbn [app]. rewrite taken_keys. apply NoDup_fmap_2; [|done]. by intros ? ? [= ->]. }
  destruct (take_keys_pass owner (swept now s) [] rs ts (swept_inv now s Hs) Hts Hnd') as [ks ->].
  clear. generalize (swept now s) as s'. induction ks as [|k ks IH]; intros s'; [done|]. cbn [take_remove].
  destruct (store_remove k s') as [[t s1]|]; [|done]. specialize (IH s1). by destruct (take_remove ks s1) as [? []].
Qed.

(** Staging the daemon's bytes. *)
Inductive staged (now : Z) (b : bytes) (c : BulkMimeClass) (id : bytes) (owner : option OwnerBinding) (quota : ClientQuotaKey) (s : Store)
    : Store * result BulkStagingError BulkTransferRef -> Prop :=
| staged_refused e : staged now b c id owner quota s (s, Err e)
| staged_swept e : staged now b c id owner quota s (swept now s, Err e)
| staged_in res : res <> Panic -> zlen b <= class_max_total_length c ->
    st_transfers (swept now s) !! (id, owner) = None ->
    store_inv (reserve (id, owner) (staged_entry now b c owner quota) (swept now s)) ->
    (forall r, res = Ok r -> r = mkBulkRef id (zlen b) (digest_of b) c) ->
    staged now b c id owner quota s (reserve (id, owner) (staged_entry now b c owner quota) (swept now s), res).
Lemma stage_spec now b c id owner quota s : store_inv s -> staged now b c id owner quota s (stage_with_owner now b c id owner quota s).
Proof using Type.
  intros Hs. unfold stage_with_owner. pose proof (check_owner_no_panic c owner) as Hnp.
  destruct (check_owner _ _) as [[]|e|] eqn:Ho; [|apply staged_refused|done]. apply check_owner_ok in Ho. cbv zeta.
  destruct (_ || _) eqn:Hmax; [apply staged_refused|]. apply orb_false_iff in Hmax as [Hmax _]. apply Z.ltb_ge in Hmax.
  destruct (expire_ok now s Hs) as [n ->]. pose proof (swept_inv now s Hs) as Hsw.
  destruct (st_transfers (swept now s) !! (id, owner)) as [t|] eqn:Hk; [apply staged_swept|].
  pose proof (zlen_nonneg b). pose proof (class_max_le c).
  pose proof (can_reserve_no_panic (zlen b) quota _ Hsw ltac:(lia)) as Hnp2.
  destruct (can_reserve _ _ _) as [[]|e|] eqn:Hres; [|apply staged_swept|done].
  assert (store_inv (reserve (id, owner) (staged_entry now b c owner quota) (swept now s))) as Hri.
  { apply reserve_inv; try done. by apply staged_entry_wf. }
  change (mkStaged _ _ _ _ _ _ _ _ _ _) with (staged_entry now b c owner quota).
  unfold transfer_id_from_bytes. destruct (is_all_zero id); [by apply staged_in|].
  unfold bulk_ref_new. assert ((class_max_total_length c <? zlen b) = false) as -> by (by apply Z.ltb_ge).
  apply staged_in; try done. by intros r [= <-].
Qed.

Lemma reserved_lookup k t s : st_transfers (reserve k t s) !! k = Some t.
Proof using Type. apply lookup_insert_eq. Qed.
(** Any operation keeps the invariant, and panics only at the end of an entry's chunk counter. *)
Lemma step_inv op s : store_inv s -> op_ok op ->
  if (staging_step op s).2 then exists k t, st_transfers s !! k = Some t /\ sg_next_chunk_index t = U32_MAX
  else store_inv (staging_step op s).1.
Proof using Type.
  intros Hs Hok. pose proof (fun now => swept_inv now s Hs) as Hsw.
  destruct op as [now b c id owner quota|now r owner quota idx chunk|now id idx expected|now rs owner|id owner|now]; cbn [staging_step].
  - destruct (stage_spec now b c id owner quota s Hs) as [e|e|res Hnp Hlen Hk Hri Hres]; cbn; [done|apply Hsw|by destruct res].
  - destruct Hok as [Hr Hi]. destruct (write_chunk_spec now r owner quota idx chunk s Hs Hr) as [e|e|t out Hk Hw|out Hk Hi0 Hri Hw]; cbn.
    + done.
    + apply Hsw.
    + destruct out as [s' [a|e|]]; cbn.
      * by apply (wrote_inv _ _ _ _ _ _ _ _ _ (Hsw now) Hk Hw).
      * by apply (wrote_inv _ _ _ _ _ _ _ _ _ (Hsw now) Hk Hw).
      * apply swept_lookup in Hk as [Hk _]. exists (br_transfer_id r, owner), t. split; [done|]. by inversion Hw.
    + destruct out as [s' [a|e|]]; cbn.
      * by apply (wrote_inv _ _ _ _ _ _ _ _ _ Hri (reserved_lookup _ _ _) Hw).
      * by apply (wrote_inv _ _ _ _ _ _ _ _ _ Hri (reserved_lookup _ _ _) Hw).
      * inversion Hw as [| | | |s0 Hmax]. discriminate Hmax.
  - destruct (read_chunk_spec now id idx expected s Hs Hok) as [e|t last Hk Hc He Hi ->]; cbn; [apply Hsw|].
    destruct (_ =? _); [apply without_inv|]; apply Hsw.
  - destruct (take_all_spec now rs owner s Hs) as [e|ts Hts Hnd]; cbn; [apply Hsw|apply without_all_inv, Hsw].
  - assert (forall k, store_inv (match store_remove k s with Some (_, s) => s | None => s end)) as Hrm.
    { intros k. destruct (st_transfers s !! k) as [t|] eqn:Hk.
      - rewrite (remove_at k t) by done. by apply without_inv.
      - unfold store_remove. rewrite Hk. done. }
    destruct owner; apply Hrm.
  - destruct (expire_ok now s Hs) as [n ->]. apply Hsw.
Qed.

(** An entry an operation does not name is kept, unless its lease has run out. *)
Definition kept_or_expired (now : option Z) (x y : option StagedTransfer) : Prop :=
  y = x \/ exists t n, x = Some t /\ y = None /\ now = Some n /\ stale n t = true.
Lemma kept_swept now s k : kept_or_expired (Some now) (st_transfers s !! k) (st_transfers (swept now s) !! k).
Proof using Type.
  destruct (st_transfers s !! k) as [t|] eqn:Hk.
  - destruct (stale now t) eqn:Hst; [right|left].
    + exists t, now. repeat split; try done. apply eq_None_not_Some. intros [t' Ht']. apply swept_lookup in Ht' as [Hk' Hf]. congruence.
    + by apply swept_lookup.
  - left. apply eq_None_not_Some. intros [t' Ht']. apply swept_lookup in Ht' as [Hk' _]. congruence.
Qed.
Lemma wrote_frame now k r owner idx chunk t s out k' : wrote now k r owner idx chunk t s out -> k' <> k ->
  st_transfers out.1 !! k' = st_transfers s !! k'.
Proof using Type.
  intros Hw Hk. destruct Hw; cbn in *; try done; by rewrite ?lookup_insert_ne, ?lookup_delete_ne.
Qed.
Lemma step_frame op s k : store_inv s -> op_ok op -> ~ op_names op k ->
  kept_or_expired (op_now op) (st_transfers s !! k) (st_transfers (staging_step op s).1 !! k).
Proof using Type.
  intros Hs Hok Hk. pose proof (fun now => kept_swept now s k) as Hsw.
  destruct op as [now b c id owner quota|now r owner quota idx chunk|now id idx expected|now rs owner|id owner|now];
    cbn [staging_step op_now op_names] in *.
  - destruct (stage_spec now b c id owner quota s Hs) as [e|e|res Hn Hlen Hk' Hri Hres]; cbn; [by left|apply Hsw|].
    rewrite lookup_insert_ne by congruence. apply Hsw.
  - destruct Hok as [Hr Hi]. destruct (write_chunk_spec now r owner quota idx chunk s Hs Hr) as [e|e|t out Hk' Hw|out Hk' Hi0 Hri Hw]; cbn in *.
    + by left.
    + apply Hsw.
    + rewrite (wrote_frame _ _ _ _ _ _ _ _ _ k Hw); [apply Hsw|congruence].
    + rewrite (wrote_frame _ _ _ _ _ _ _ _ _ k Hw); [|congruence].
      cbn. rewrite lookup_insert_ne by congruence. apply Hsw.
  - destruct (read_chunk_spec now id idx expected s Hs Hok) as [e|t last Hk' Hc He Hi ->]; cbn in *; [apply Hsw|].
    destruct (_ =? _); [cbn; rewrite lookup_delete_ne by congruence|]; apply Hsw.
  - destruct (take_all_spec now rs owner s Hs) as [e|ts Hts Hnd]; cbn in *; [apply Hsw|].
    rewrite without_all_lookup. rewrite bool_decide_false; [apply Hsw|].
    intros (r & -> & Hr)%list_elem_of_fmap. apply Hk. by exists r.
  - left. destruct owner as [o|]; cbn; [unfold discard_owned|unfold discard]; unfold store_remove.
    + destruct (st_transfers s !! (id, Some o)); [|done]. cbn. by rewrite lookup_delete_ne by congruence.
    + destruct (st_transfers s !! (id, None)); [|done]. cbn. by rewrite lookup_delete_ne by congruence.
  - destruct (expire_ok now s Hs) as [n E]. rewrite E in *. apply Hsw.
Qed.

(** ** Uploads *)

Lemma ends_lookup from cs i c : cs !! i = Some c -> ends_of from cs !! i = Some (from + zlen (concat (take i cs)) + zlen c).
Proof using Type.
  revert from i. induction cs as [|d cs IH]; intros from i Hi; [done|]. destruct i as [|i]; cbn in *.
  - injection Hi as ->. rewrite zlen_nil. do 2 f_equal. lia.
  - rewrite (IH _ _ Hi). rewrite zlen_app. f_equal. lia.
Qed.
Lemma concat_take_S (cs : list bytes) i c : cs !! i = Some c -> concat (take (S i) cs) = concat (take i cs) ++ c.
Proof using Type. intros Hi. rewrite (take_S_r _ _ _ Hi), concat_app. cbn. by rewrite app_nil_r. Qed.
(** The accepted chunk is found again between its neighbours' ends. *)
Lemma replay_range cs i c : cs !! i = Some c ->
  get_range (concat cs) (if Z.of_nat i =? 0 then 0 else default 0 (ends_of 0 cs !! Z.to_nat (Z.of_nat i - 1)))
    (zlen (concat (take i cs)) + zlen c) = Some c.
Proof using Type.
  intros Hi.
  assert ((if Z.of_nat i =? 0 then 0 else default 0 (ends_of 0 cs !! Z.to_nat (Z.of_nat i - 1))) = zlen (concat (take i cs))) as ->.
  { destruct i as [|j]; [done|]. assert ((Z.of_nat (S j) =? 0) = false) as -> by (apply Z.eqb_neq; lia).
    replace (Z.to_nat (Z.of_nat (S j) - 1)) with j by lia.
    destruct (lookup_lt_is_Some_2 cs j) as [d Hd]; [apply lookup_lt_Some in Hi; lia|].
    rewrite (ends_lookup 0 cs j d Hd). cbn [default from_option id]. rewrite (concat_take_S _ _ _ Hd), zlen_app. lia. }
  assert (concat cs = (concat (take i cs) ++ c) ++ concat (drop (S i) cs)) as ->.
  { rewrite <- (concat_take_S cs i c Hi), <- concat_app. by rewrite take_drop. }
  unfold get_range. pose proof (zlen_nonneg c). rewrite (proj2 (Z.leb_le _ _)) by lia.
  rewrite (proj2 (Z.leb_le _ _)) by (rewrite !zlen_app; pose proof (zlen_nonneg (concat (drop (S i) cs))); lia). cbn [andb]. f_equal.
  rewrite <- app_assoc, drop_app_ge by (unfold zlen; lia).
  replace (Z.to_nat (zlen (concat (take i cs))) - length (concat (take i cs)))%nat with 0%nat by (unfold zlen; lia).
  rewrite drop_0. rewrite take_app_le by (unfold zlen; lia). apply take_ge. unfold zlen. lia.
Qed.

Section upload.
Context (r : BulkTransferRef) (owner : option OwnerBinding) (quota : ClientQuotaKey) (chunks : list bytes).
Local Abbreviation k := (br_transfer_id r, owner).

(** A body split into chunks no larger than allowed, and a reference that describes it.  Every proper
    prefix but the empty one is shorter than the whole. *)
Record upload_ok : Prop := mkUploadOk {
  uo_owner : check_owner (br_mime_class r) owner = Ok tt;
  uo_total : br_total_length r = zlen (concat chunks);
  uo_class : br_total_length r <= class_max_total_length (br_mime_class r);
  uo_digest : br_sha256 r = digest_of (concat chunks);
  uo_chunks : forall i c, chunks !! i = Some c -> zlen c <= STAGED_CHUNK_BYTES;
  uo_prefix : forall n, (0 < n < length chunks)%nat -> zlen (concat (take n chunks)) < zlen (concat chunks);
  uo_count : zlen chunks <= U32_MAX }.

(** The first [n] chunks are in, under a lease that began at [c0]. *)
Definition uploading (c0 : Z) (n : nat) (s : Store) : Prop :=
  exists t, st_transfers s !! k = Some t /\ has_chunks t (take n chunks) /\ sg_next_chunk_index t = Z.of_nat n /\
    sg_complete t = bool_decide (n = length chunks) /\ sg_created_ms t = c0 /\ sg_owner t = owner /\
    sg_total_length t = br_total_length r /\ sg_sha256 t = br_sha256 r /\ sg_mime_class t = br_mime_class r.
Definition in_lease (c0 now : Z) : Prop := now - c0 < STAGED_TRANSFER_TTL_MS.

Lemma in_lease_not_stale c0 now t : in_lease c0 now -> sg_created_ms t = c0 -> stale now t = false.
Proof using Type.
  intros Hl Hc. unfold stale, saturating_sub, in_lease in *. apply Z.leb_gt. rewrite Hc.
  assert (0 < STAGED_TRANSFER_TTL_MS) by (vm_compute; reflexivity). lia.
Qed.
Lemma write_entry_replay now i c t s : upload_ok -> chunks !! i = Some c -> (i < Z.to_nat (sg_next_chunk_index t))%nat ->
  has_chunks t (take (Z.to_nat (sg_next_chunk_index t)) chunks) -> sg_owner t = owner -> sg_total_length t = br_total_length r ->
  sg_sha256 t = br_sha256 r -> sg_mime_class t = br_mime_class r ->
  write_entry now k r owner (Z.of_nat i) c t s = (s, Ok (accepted now t)).
Proof using Type.
  intros Hu Hi Hlt [Hb He] Ho Ht Hsha Hc. unfold write_entry. rewrite !bool_decide_true by done. cbn [negb orb].
  assert ((Z.of_nat i <? sg_next_chunk_index t) = true) as -> by (apply Z.ltb_lt; lia).
  set (cs := take (Z.to_nat (sg_next_chunk_index t)) chunks) in *.
  assert (cs !! i = Some c) as Hcs by (unfold cs; by rewrite lookup_take_lt).
  rewrite Nat2Z.id, He, (ends_lookup 0 cs i c Hcs). cbv zeta. rewrite Hb, Z.add_0_l.
  pose proof (replay_range cs i c Hcs) as Hr. by rewrite bool_decide_true by exact Hr.
Qed.
Lemma write_entry_next now c t s n : upload_ok -> chunks !! n = Some c -> sg_next_chunk_index t = Z.of_nat n ->
  has_chunks t (take n chunks) -> sg_owner t = owner -> sg_total_length t = br_total_length r ->
  sg_sha256 t = br_sha256 r -> sg_mime_class t = br_mime_class r -> sg_complete t = false ->
  write_entry now k r owner (Z.of_nat n) c t s =
  (put_transfer k (appended t c (bool_decide (S n = length chunks))) s,
   Ok (accepted now (appended t c (bool_decide (S n = length chunks))))).
Proof using Type.
  intros Hu Hn Hnext [Hb He] Ho Ht Hsha Hc Hcomp. unfold write_entry. rewrite !bool_decide_true by done. cbn [negb orb].
  rewrite Hnext, Z.ltb_irrefl, Hcomp, Z.eqb_refl. cbn [negb].
  pose proof (lookup_lt_Some _ _ _ Hn) as Hlt.
  assert (sg_bytes t ++ c = concat (take (S n) chunks)) as Hbc by (by rewrite Hb, (concat_take_S chunks n c Hn)).
  assert (zlen (concat (take (S n) chunks)) <= zlen (concat chunks)) as Hle.
  { rewrite <- (take_drop (S n) chunks) at 2. rewrite concat_app, zlen_app. pose proof (zlen_nonneg (concat (drop (S n) chunks))). lia. }
  rewrite <- zlen_app, Hbc, Ht, (uo_total Hu). rewrite (proj2 (Z.ltb_ge _ _)) by lia. cbv zeta.
  pose proof (uo_count Hu) as Hcount. unfold zlen in Hcount.
  rewrite (proj2 (add_in_Ok U32_MAX (Z.of_nat n) 1 (Z.of_nat n + 1))) by lia.
  unfold appended. rewrite Hbc, Hnext, Ht, (uo_total Hu).
  destruct (bool_decide (S n = length chunks)) eqn:Hlast; [apply bool_decide_eq_true in Hlast|apply bool_decide_eq_false in Hlast].
  - assert (take (S n) chunks = chunks) as -> by (apply take_ge; lia). rewrite Z.eqb_refl.
    rewrite bool_decide_true by (by rewrite Hsha, (uo_digest Hu)). done.
  - assert (zlen (concat (take (S n) chunks)) < zlen (concat chunks)) as Hshort by (apply (uo_prefix Hu); lia).
    rewrite (proj2 (Z.eqb_neq _ _)) by lia. done.
Qed.
Lemma uploading_appended c0 n c t s : upload_ok -> chunks !! n = Some c -> st_transfers s !! k = Some t -> sg_next_chunk_index t = Z.of_nat n ->
  has_chunks t (take n chunks) -> sg_created_ms t = c0 -> sg_owner t = owner -> sg_total_length t = br_total_length r ->
  sg_sha256 t = br_sha256 r -> sg_mime_class t = br_mime_class r ->
  uploading c0 (S n) (put_transfer k (appended t c (bool_decide (S n = length chunks))) s).
Proof using Type.
  intros Hu Hn Hk Hnext [Hb He] Hc0 Ho Ht Hsha Hc. eexists. split; [apply lookup_insert_eq|]. repeat split; cbn; try done; try lia.
  - by rewrite Hb, (concat_take_S chunks n c Hn).
  - rewrite (take_S_r _ _ _ Hn), ends_snoc, He, Hb. do 2 f_equal. rewrite zlen_app. lia.
Qed.
(** A chunk sent in turn or again is acknowledged. *)
Lemma upload_write c0 n i c now s : store_inv s -> upload_ok -> uploading c0 n s -> in_lease c0 now ->
  chunks !! i = Some c -> (i <= n)%nat -> (n <= length chunks)%nat ->
  let s' := (write_chunk_with_owner now r owner quota (Z.of_nat i) c s).1 in
  exists t, write_chunk_with_owner now r owner quota (Z.of_nat i) c s = (s', Ok (accepted now t)) /\
    st_transfers s' !! k = Some t /\ uploading c0 (Nat.max n (S i)) s'.
Proof using Type.
  intros Hs Hu (t & Hk & Hch & Hnext & Hcomp & Hc0 & Ho & Ht & Hsha & Hc) Hl Hi Hle Hn. cbv zeta. unfold write_chunk_with_owner.
  rewrite (uo_owner Hu). rewrite (proj2 (Z.ltb_ge _ _)) by (by apply (uo_chunks Hu i)). cbv zeta.
  rewrite (proj2 (Z.ltb_ge _ _)) by apply (uo_class Hu). destruct (expire_ok now s Hs) as [m ->].
  assert (st_transfers (swept now s) !! k = Some t) as Hsw by (apply swept_lookup; split; [done|by eapply in_lease_not_stale]).
  rewrite Hsw. destruct (decide (i = n)) as [->|Hne].
  - pose proof (lookup_lt_Some _ _ _ Hi) as Hlt. rewrite bool_decide_false in Hcomp by lia.
    rewrite (write_entry_next now c t (swept now s) n) by done. eexists. split; [reflexivity|]. cbn [fst].
    split; [apply lookup_insert_eq|]. rewrite Nat.max_r by lia. by apply (uploading_appended c0 n c t).
  - rewrite (write_entry_replay now i c t) by (done || (rewrite Hnext, ?Nat2Z.id; (done || lia))).
    eexists. split; [reflexivity|]. cbn [fst]. split; [exact Hsw|]. rewrite Nat.max_l by lia. exists t. done.
Qed.
End upload.
End ops.

(** ** What runs of the store guarantee *)

Section theorems.
Context `{Sha256}.

(** The stores that sequences of operations lead to. *)
Inductive staging_reach : Store -> Prop :=
| reach_empty : staging_reach empty_store
| reach_step op s : staging_reach s -> op_ok op -> (staging_step op s).2 = false -> staging_reach (staging_step op s).1.
Lemma staging_reach_inv s : staging_reach s -> store_inv s.
Proof using Type.
  intros Hr. induction Hr as [|op s Hr IH Hok Hnp]; [apply empty_store_inv|].
  pose proof (step_inv op s IH Hok) as Hs. by rewrite Hnp in Hs.
Qed.

(** C15: The staging area stays within its limits.  Whatever peers push, pull, take, discard or let
    expire, in any order and at any times, the reserved bytes are exactly the sum of the
    declared lengths and at most 1 GiB, there are at most 256 transfers, every client has at most
    512 MiB and 32 transfers reserved, and every entry holds at most the bytes it declared, under a
    class limit; an entry marked complete has its declared length and digest.  No
    operation panics unless an entry's 32-bit chunk counter is at its end. *)
Theorem staging_stays_within_limits s : staging_reach s ->
  store_inv s /\
  forall op, op_ok op -> (staging_step op s).2 = true ->
    exists k t, st_transfers s !! k = Some t /\ sg_next_chunk_index t = U32_MAX.
Proof using Type.
  intros Hr. apply staging_reach_inv in Hr as Hs. split; [exact Hs|]. intros op Hok Hp.
  pose proof (step_inv op s Hs Hok) as Hi. by rewrite Hp in Hi.
Qed.

(** Reading and taking look only at the entries they name. *)
Lemma swept_agree now s1 s2 k : st_transfers s1 !! k = st_transfers s2 !! k ->
  st_transfers (swept now s1) !! k = st_transfers (swept now s2) !! k.
Proof using Type.
  intros Hk. apply option_eq. intros t. by rewrite !swept_lookup, Hk.
Qed.
Lemma read_chunk_local now id idx expected s1 s2 : store_inv s1 -> store_inv s2 ->
  st_transfers s1 !! (id, None) = st_transfers s2 !! (id, None) ->
  (read_chunk_gen now id idx expected s1).2 = (read_chunk_gen now id idx expected s2).2.
Proof using Type.
  intros H1 H2 Hk. unfold read_chunk_gen. destruct (expire_ok now s1 H1) as [n1 ->], (expire_ok now s2 H2) as [n2 ->].
  cbv zeta. rewrite (swept_agree now s1 s2 _ Hk). destruct (st_transfers (swept now s2) !! _) as [t|]; [|done].
  by repeat case_match.
Qed.
Lemma take_keys_local owner s1 s2 keys rs :
  (forall r, r ∈ rs -> st_transfers s1 !! (br_transfer_id r, owner) = st_transfers s2 !! (br_transfer_id r, owner)) ->
  take_keys owner s1 keys rs = take_keys owner s2 keys rs.
Proof using Type.
  revert keys. induction rs as [|r rs IH]; intros keys Hk; [done|]. cbn [take_keys].
  assert (take_check owner s1 keys r = take_check owner s2 keys r) as -> by (unfold take_check; by rewrite Hk by left).
  destruct (take_check owner s2 keys r); [|done..]. cbn [mbind result_bind]. apply IH. intros r' Hr'. apply Hk. by right.
Qed.
Lemma take_all_local now rs owner s1 s2 : store_inv s1 -> store_inv s2 ->
  (forall r, r ∈ rs -> st_transfers s1 !! (br_transfer_id r, owner) = st_transfers s2 !! (br_transfer_id r, owner)) ->
  (take_all_with_owner now rs owner s1).2 = (take_all_with_owner now rs owner s2).2.
Proof using Type.
  intros H1 H2 Hk. pose proof (fun r Hr => swept_agree now s1 s2 _ (Hk r Hr)) as Hsw.
  pose proof (take_keys_local owner (swept now s1) (swept now s2) [] rs Hsw) as Hkeys.
  pose proof (take_keys_spec owner (swept now s2) [] rs (swept_inv now s2 H2) NoDup_nil_2) as Hspec.
  unfold take_all_with_owner. destruct (expire_ok now s1 H1) as [n1 ->], (expire_ok now s2 H2) as [n2 ->]. rewrite Hkeys.
  destruct (take_keys owner (swept now s2) [] rs) as [ks|e|]; [|done..]. destruct Hspec as (-> & Hnd & Hrs). cbn [app] in *.
  rewrite !take_remove_spec; try done; try by apply swept_inv.
  - cbn [snd]. f_equal. clear Hnd Hrs Hkeys. induction rs as [|r rs IH]; [done|]. rewrite fmap_cons. cbn [omap list_omap].
    rewrite Hsw by left. rewrite IH by (intros r' Hr'; (apply Hk || apply Hsw); by right). done.
  - apply Forall_fmap. eapply Forall_impl; [exact Hrs|]. intros r (t & Ht & _). by exists t.
  - apply Forall_fmap, Forall_forall. intros r Hr. cbn. rewrite Hsw by done.
    rewrite Forall_forall in Hrs. destruct (Hrs r Hr) as (t & Ht & _). by exists t.
Qed.

(** Where a chunk that is read comes from. *)
Lemma read_ok_spec now id idx expected s chunk last : store_inv s -> 0 <= idx ->
  (read_chunk_gen now id idx expected s).2 = Ok (chunk, last) ->
  exists t, st_transfers s !! (id, None) = Some t /\ stale now t = false /\ sg_complete t = true /\
    chunk = piece idx (sg_bytes t) /\ forall e, expected = Some e -> sg_mime_class t = e.
Proof using Type.
  intros Hs Hi Hread. destruct (read_chunk_spec now id idx expected s Hs Hi) as [e|t l Hk Hc He Hidx Hl]; [done|].
  cbn [snd] in Hread. apply (f_equal (fun x => match x with Ok (c, _) => c | _ => [] end)) in Hread.
  change (piece idx (sg_bytes t) = chunk) in Hread. apply swept_lookup in Hk as [Hk Hst]. by exists t.
Qed.

(** The owner an operation presents. *)
Definition op_owner (op : StagingOp) : option OwnerBinding :=
  match op with
  | SStage _ _ _ _ owner _ | SWrite _ _ owner _ _ _ | STake _ _ owner | SDiscard _ owner => owner
  | SRead _ _ _ _ | SExpire _ => None
  end.
Lemma op_names_owner op k : op_names op k -> k.2 = op_owner op.
Proof using Type. destruct op; cbn; try (by intros ->); [by intros (r & _ & ->)|done]. Qed.

(** C17: An owner's transfers are its own.  An operation that does not present the owner's binding
    (an unscoped read, write, take or discard, or another owner's, even one that knows the
    transfer id) leaves the owner's entry exactly as it is, but for the sweep of an expired lease, also
    when the operation panics; what such a read or take answers is the same in any other reachable store
    that differs only in the owner's entries; and every chunk an unscoped read returns is the piece of that
    index of an entry without an owner, which is not of the opaque class. *)
Theorem owned_transfers_are_isolated s o : staging_reach s ->
  (forall op id, op_ok op -> op_owner op <> Some o ->
    kept_or_expired (op_now op) (st_transfers s !! (id, Some o)) (st_transfers (staging_step op s).1 !! (id, Some o))) /\
  (forall s', staging_reach s' -> (forall k, k.2 <> Some o -> st_transfers s' !! k = st_transfers s !! k) ->
    (forall now id idx expected, (read_chunk_gen now id idx expected s').2 = (read_chunk_gen now id idx expected s).2) /\
    (forall now rs owner, owner <> Some o -> (take_all_with_owner now rs owner s').2 = (take_all_with_owner now rs owner s).2)) /\
  (forall now id idx expected chunk last, 0 <= idx -> (read_chunk_gen now id idx expected s).2 = Ok (chunk, last) ->
    exists t, st_transfers s !! (id, None) = Some t /\ sg_owner t = None /\ sg_mime_class t <> BmOpaque /\
      chunk = piece idx (sg_bytes t)).
Proof using Type.
  intros Hr%staging_reach_inv. split; [|split].
  - intros op id Hok Ho. apply step_frame; try done. intros Hn. by apply op_names_owner in Hn.
  - intros s' Hr'%staging_reach_inv Hag. split.
    + intros now id idx expected. by apply read_chunk_local, Hag.
    + intros now rs owner Ho. apply take_all_local; try done. intros r _. by apply Hag.
  - intros now id idx expected chunk last Hi Hread.
    destruct (read_ok_spec now id idx expected s chunk last Hr Hi Hread) as (t & Hk & _ & _ & -> & _). exists t.
    pose proof (si_entries _ Hr _ _ Hk) as Ht. pose proof (ew_owner _ _ Ht) as Hown. cbn in Hown. split_and!; try done.
    intros Hop. apply (ew_opaque _ _ Ht) in Hop. rewrite Hown in Hop. by destruct Hop.
Qed.

(** C16: Only verified bytes come out, and taking is all or nothing.  When several transfers are taken
    together, either all of them are there, distinct, unexpired, complete and of the declared class,
    length and digest, and then exactly those entries are removed and their bytes, of that
    length and digest, are returned in order; or that is not so, and nothing but expired
    entries is removed.  A chunk pulled by a peer is the piece of that index of an unexpired complete entry
    whose digest is the recorded one, of the kind the reader asked for. *)
Theorem only_verified_bytes_leave s : staging_reach s ->
  (forall now rs owner,
    match take_all_with_owner now rs owner s with
    | (s', Ok bodies) =>
        exists ts, Forall2 (takeable owner (swept now s)) rs ts /\ NoDup (br_transfer_id <$> rs) /\ bodies = sg_bytes <$> ts /\
          Forall2 (fun r b => digest_of b = br_sha256 r /\ zlen b = br_total_length r) rs bodies /\
          s' = without_all ((fun r => (br_transfer_id r, owner)) <$> rs) (swept now s)
    | (s', Err _) =>
        s' = swept now s /\ ~ (NoDup (br_transfer_id <$> rs) /\ exists ts, Forall2 (takeable owner (swept now s)) rs ts)
    | (_, Panic) => False
    end) /\
  (forall now id idx expected chunk last, 0 <= idx -> (read_chunk_gen now id idx expected s).2 = Ok (chunk, last) ->
    exists t, st_transfers s !! (id, None) = Some t /\ stale now t = false /\ sg_complete t = true /\
      chunk = piece idx (sg_bytes t) /\ sg_sha256 t = digest_of (sg_bytes t) /\ zlen (sg_bytes t) = sg_total_length t /\
      forall e, expected = Some e -> sg_mime_class t = e).
Proof using Type.
  intros Hr%staging_reach_inv. split.
  - intros now rs owner. pose proof (fun ts e => take_all_pass now rs owner s ts e Hr) as Hpass.
    destruct (take_all_spec now rs owner s Hr) as [e|ts Hts Hnd].
    + split; [done|]. intros (Hnd & ts & Hts). by apply (Hpass ts e Hts Hnd).
    + exists ts. split; [done|]. split; [|split; [done|split; [|done]]].
      * rewrite taken_keys in Hnd. by apply NoDup_fmap_1 in Hnd.
      * apply Forall2_fmap_r. eapply Forall2_impl; [exact Hts|]. intros r t (Hk & Hc & Hlen & Hsha & Hdig & _). split; [done|].
        destruct (ew_complete _ _ (si_entries _ (swept_inv now s Hr) _ _ Hk) Hc) as [Hl _]. congruence.
  - intros now id idx expected chunk last Hi Hread.
    destruct (read_ok_spec now id idx expected s chunk last Hr Hi Hread) as (t & Hk & Hst & Hc & -> & He). exists t.
    destruct (ew_complete _ _ (si_entries _ Hr _ _ Hk) Hc) as [Hlen Hsha]. done.
Qed.

(** *** Uploads *)

(** Chunks sent in turn or again, and other clients' operations, within the lease. *)
Inductive upload_run (r : BulkTransferRef) (owner : option OwnerBinding) (quota : ClientQuotaKey) (chunks : list bytes) (c0 : Z)
    : nat -> Store -> nat -> Store -> Prop :=
| ur_refl n s : upload_run r owner quota chunks c0 n s n s
| ur_write n s i c now n' s' : chunks !! i = Some c -> (i <= n)%nat -> in_lease c0 now ->
    upload_run r owner quota chunks c0 (Nat.max n (S i)) (staging_step (SWrite now r owner quota (Z.of_nat i) c) s).1 n' s' ->
    upload_run r owner quota chunks c0 n s n' s'
| ur_other n s op n' s' : op_ok op -> (staging_step op s).2 = false -> ~ op_names op (br_transfer_id r, owner) ->
    (forall now, op_now op = Some now -> in_lease c0 now) ->
    upload_run r owner quota chunks c0 n (staging_step op s).1 n' s' -> upload_run r owner quota chunks c0 n s n' s'.

Lemma uploading_other r owner chunks c0 n s op : store_inv s -> op_ok op -> (staging_step op s).2 = false ->
  ~ op_names op (br_transfer_id r, owner) -> (forall now, op_now op = Some now -> in_lease c0 now) ->
  uploading r owner chunks c0 n s -> uploading r owner chunks c0 n (staging_step op s).1.
Proof using Type.
  intros Hs Hok Hnp Hn Hl (t & Hk & Hrest). exists t. split; [|exact Hrest].
  destruct (step_frame op s (br_transfer_id r, owner) Hs Hok Hn) as [Heq|(t' & now & Ht' & _ & Hnow & Hst)]; [congruence|].
  rewrite Hk in Ht'. injection Ht' as <-. destruct Hrest as (_ & _ & _ & Hc0 & _).
  rewrite (in_lease_not_stale c0 now t) in Hst; [done|by apply Hl|done].
Qed.
Lemma upload_run_uploading r owner quota chunks c0 n s n' s' : upload_ok r owner chunks ->
  upload_run r owner quota chunks c0 n s n' s' -> store_inv s -> (n <= length chunks)%nat -> uploading r owner chunks c0 n s ->
  store_inv s' /\ uploading r owner chunks c0 n' s'.
Proof using Type.
  intros Hu Hrun. induction Hrun as [n s|n s i c now n' s' Hi Hle Hl Hrun IH|n s op n' s' Hok Hnp Hn Hl Hrun IH]; intros Hs Hlen Hup.
  - done.
  - destruct (upload_write r owner quota chunks c0 n i c now s Hs Hu Hup Hl Hi Hle Hlen) as (a & Heq & _ & Hup').
    pose proof (step_inv (SWrite now r owner quota (Z.of_nat i) c) s Hs) as Hinv. cbn [staging_step op_ok] in Hinv.
    rewrite Heq in Hinv. cbn [outcome fst snd] in Hinv. apply lookup_lt_Some in Hi as Hlt.
    apply IH; cbn [staging_step outcome fst]; [apply Hinv|lia|exact Hup'].
    rewrite (uo_total _ _ _ Hu). split; [apply zlen_nonneg|lia].
  - pose proof (step_inv op s Hs Hok) as Hinv. rewrite Hnp in Hinv. apply IH; [exact Hinv|exact Hlen|by apply uploading_other].
Qed.

(** The first chunk opens the entry. *)
Lemma upload_opens r owner quota chunks c0 c s : store_inv s -> upload_ok r owner chunks -> chunks !! 0%nat = Some c ->
  st_transfers s !! (br_transfer_id r, owner) = None -> can_reserve (br_total_length r) quota (swept c0 s) = Ok tt ->
  (exists t, write_chunk_with_owner c0 r owner quota 0 c s = ((write_chunk_with_owner c0 r owner quota 0 c s).1, Ok (accepted c0 t)) /\
     st_transfers (write_chunk_with_owner c0 r owner quota 0 c s).1 !! (br_transfer_id r, owner) = Some t) /\
  uploading r owner chunks c0 1 (staging_step (SWrite c0 r owner quota 0 c) s).1 /\ store_inv (staging_step (SWrite c0 r owner quota 0 c) s).1.
Proof using Type.
  intros Hs Hu Hc Hk Hres.
  assert (0 <= br_total_length r) as Htot by (rewrite (uo_total _ _ _ Hu); apply zlen_nonneg).
  pose proof (step_inv (SWrite c0 r owner quota 0 c) s Hs ltac:(split; [exact Htot|lia])) as Hinv.
  cbn [staging_step] in *. unfold write_chunk_with_owner in *.
  rewrite (uo_owner _ _ _ Hu) in *. rewrite (proj2 (Z.ltb_ge _ _)) in * by (by apply (uo_chunks _ _ _ Hu 0)). cbv zeta in *.
  rewrite (proj2 (Z.ltb_ge _ _)) in * by apply (uo_class _ _ _ Hu). destruct (expire_ok c0 s Hs) as [m Hm]. rewrite Hm in *. clear Hm.
  assert (st_transfers (swept c0 s) !! (br_transfer_id r, owner) = None) as Hsw.
  { apply eq_None_not_Some. intros [t Ht]. apply swept_lookup in Ht as [Ht _]. congruence. }
  rewrite Hsw in *. change (negb (0 =? 0)) with false in *. cbn iota in *. rewrite Hres in *.
  change 0 with (Z.of_nat 0) in *. change (mkStaged _ _ _ [] [] _ false c0 owner quota) with (fresh_entry c0 r owner quota) in *.
  rewrite (write_entry_next r owner chunks c0 c (fresh_entry c0 r owner quota) _ 0) in * by done.
  cbn [outcome fst snd] in *. split; [eexists; split; [reflexivity|apply lookup_insert_eq]|]. split; [|exact Hinv].
  by apply (uploading_appended r owner chunks c0 0 c (fresh_entry c0 r owner quota)); [..|apply lookup_insert_eq| | | | | | |].
Qed.

(** A complete upload is taken whole. *)
Lemma uploaded_take r owner chunks c0 s now : store_inv s -> upload_ok r owner chunks -> uploading r owner chunks c0 (length chunks) s ->
  in_lease c0 now ->
  take_all_with_owner now [r] owner s = (without (br_transfer_id r, owner) (swept now s), Ok [concat chunks]).
Proof using Type.
  intros Hs Hu (t & Ht & [Hb He] & Hnext & Hcomp & Hc0 & Ho & Htot & Hsha & Hcl) Hl.
  rewrite take_ge in Hb by lia. rewrite bool_decide_true in Hcomp by done.
  unfold take_all_with_owner. destruct (expire_ok now s Hs) as [m ->].
  assert (st_transfers (swept now s) !! (br_transfer_id r, owner) = Some t) as Hsw
    by (apply swept_lookup; split; [done|by eapply in_lease_not_stale]).
  cbn [take_keys]. unfold take_check. rewrite (uo_owner _ _ _ Hu). cbn [mbind result_bind].
  rewrite bool_decide_false by set_solver. rewrite Hsw. cbn [ok_or mbind result_bind].
  rewrite Hcomp. cbn [negb]. rewrite Hb, <- (uo_digest _ _ _ Hu), !bool_decide_true by done.
  cbn [negb orb mbind result_bind take_keys app take_remove]. rewrite (remove_at _ t) by (done || by apply swept_inv). by rewrite Hb.
Qed.

(** An upload arrives.  A body is pushed in chunks under a reference that describes it, the first
    of which finds room; the others are sent in order, each any number of times (a lost
    acknowledgement is answered by sending the same chunk again), between any operations on
    other entries, all within the lease.  Then the daemon takes exactly the body, once, and the entry is
    gone. *)
Theorem upload_roundtrip r owner quota chunks c0 c s s' now : staging_reach s -> upload_ok r owner chunks ->
  chunks !! 0%nat = Some c -> st_transfers s !! (br_transfer_id r, owner) = None ->
  can_reserve (br_total_length r) quota (swept c0 s) = Ok tt ->
  upload_run r owner quota chunks c0 1 (staging_step (SWrite c0 r owner quota 0 c) s).1 (length chunks) s' ->
  in_lease c0 now ->
  take_all_with_owner now [r] owner s' = (without (br_transfer_id r, owner) (swept now s'), Ok [concat chunks]).
Proof using Type.
  intros Hs%staging_reach_inv Hu Hc Hk Hres Hrun Hl.
  destruct (upload_opens r owner quota chunks c0 c s Hs Hu Hc Hk Hres) as (_ & Hup & Hinv).
  destruct (upload_run_uploading _ _ _ _ _ _ _ _ _ Hu Hrun Hinv) as [Hs' Hup']; [apply lookup_lt_Some in Hc; lia|exact Hup|].
  by apply (uploaded_take r owner chunks c0).
Qed.

(** *** Downloads *)

(** Pulling one piece of what the daemon staged. *)
Lemma read_staged s id b cl quota c0 now i : store_inv s ->
  st_transfers s !! (id, None) = Some (staged_entry c0 b cl None quota) -> in_lease c0 now -> 0 <= i < chunk_count (zlen b) ->
  st_transfers (swept now s) !! (id, None) = Some (staged_entry c0 b cl None quota) /\
  read_chunk now id i s =
    (if i + 1 =? chunk_count (zlen b) then without (id, None) (swept now s) else swept now s,
     Ok (piece i b, i + 1 =? chunk_count (zlen b))).
Proof using Type.
  intros Hs Hk Hl Hi. pose proof (si_entries _ Hs _ _ Hk) as Ht.
  pose proof (ew_total _ _ Ht) as Htot. cbn [sg_total_length sg_mime_class staged_entry] in Htot. pose proof (class_max_le cl).
  assert (st_transfers (swept now s) !! (id, None) = Some (staged_entry c0 b cl None quota)) as Hsw
    by (apply swept_lookup; split; [done|by eapply in_lease_not_stale]).
  split; [exact Hsw|]. unfold read_chunk, read_chunk_gen. destruct (expire_ok now s Hs) as [m ->].
  cbv zeta. rewrite Hsw. cbn [sg_mime_class staged_entry sg_complete negb sg_total_length sg_bytes].
  rewrite bool_decide_false by (intros Hop; apply (ew_opaque _ _ Ht) in Hop as [o Hop]; done).
  rewrite (proj2 (Z.leb_gt _ _)) by lia. rewrite slice_piece by lia.
  by rewrite (remove_at (id, None) (staged_entry c0 b cl None quota)) by (done || by apply swept_inv).
Qed.
Lemma pieces_seq n b : (fun i => piece i b) <$> seqZ 0 (Z.of_nat n) = pieces (Z.to_nat STAGED_CHUNK_BYTES) n b.
Proof using Type.
  apply list_eq. intros j. destruct (decide (j < n)%nat) as [Hj|Hj].
  - rewrite list_lookup_fmap, lookup_seqZ_lt by lia. cbn [fmap option_fmap option_map].
    rewrite pieces_lookup by done. unfold piece. do 3 f_equal. change STAGED_CHUNK_BYTES with 196608. lia.
  - rewrite !lookup_ge_None_2; [done|rewrite length_pieces; lia|rewrite length_fmap, length_seqZ; lia].
Qed.

(** A download is the body.  While an entry the daemon staged is within its lease, no operation
    that does not name it changes it; the peer that pulls chunk [i] gets the [i]-th piece of the
    body, told that it is the last exactly at the last; a piece that is not the last leaves the entry,
    the last one releases it; and the pieces in order are the body. *)
Theorem download_roundtrip s id b cl quota c0 : staging_reach s ->
  st_transfers s !! (id, None) = Some (staged_entry c0 b cl None quota) ->
  (forall op, op_ok op -> (staging_step op s).2 = false -> ~ op_names op (id, None) ->
     (forall now, op_now op = Some now -> in_lease c0 now) ->
     st_transfers (staging_step op s).1 !! (id, None) = Some (staged_entry c0 b cl None quota)) /\
  (forall now i, in_lease c0 now -> 0 <= i < chunk_count (zlen b) ->
     let last := (i + 1 =? chunk_count (zlen b)) in
     read_chunk now id i s =
       (if last then without (id, None) (swept now s) else swept now s, Ok (piece i b, last)) /\
     st_transfers (read_chunk now id i s).1 !! (id, None)
       = if last then None else Some (staged_entry c0 b cl None quota)) /\
  concat ((fun i => piece i b) <$> seqZ 0 (chunk_count (zlen b))) = b.
Proof using Type.
  intros Hs%staging_reach_inv Hk. pose proof (si_entries _ Hs _ _ Hk) as Ht.
  pose proof (ew_total _ _ Ht) as Htot. cbn [sg_total_length sg_mime_class staged_entry] in Htot. pose proof (class_max_le cl).
  split; [|split].
  - intros op Hok Hnp Hn Hl. destruct (step_frame op s (id, None) Hs Hok Hn) as [Heq|(t' & now & Ht' & _ & Hnow & Hst)]; [congruence|].
    rewrite Hk in Ht'. injection Ht' as <-. rewrite (in_lease_not_stale c0 now) in Hst; [done|by apply Hl|done].
  - intros now i Hl Hi. cbv zeta. destruct (read_staged s id b cl quota c0 now i Hs Hk Hl Hi) as [Hsw Hread].
    split; [exact Hread|]. rewrite Hread. cbn [fst]. destruct (_ =? _); [|exact Hsw]. cbn. apply lookup_delete_eq.
  - destruct (chunk_count_bounds (zlen b)) as (H1 & H2 & _); [lia|].
    rewrite <- (Z2Nat.id (chunk_count (zlen b))), pieces_seq by lia. apply concat_pieces.
    unfold zlen in *. change STAGED_CHUNK_BYTES with 196608 in *. lia.
Qed.

(** *** Empty chunks *)

(** A reference to one byte that never comes. *)
Definition hole : BulkTransferRef := mkBulkRef [1] 1 [] BmArchive.
Definition hole_entry (n : nat) : StagedTransfer := mkStaged 1 [] BmArchive [] (replicate n 0) (Z.of_nat n) false 0 None [].
Definition hole_store (n : nat) : Store := mkStore {[([1], None) := hole_entry n]} 1.
Lemma swept_hole n : swept 0 (hole_store n) = hole_store n.
Proof using Type.
  unfold swept, hole_store. cbn [st_transfers]. rewrite map_filter_singleton_True by (vm_compute; reflexivity).
  reflexivity.
Qed.
Lemma hole_inv n : Z.of_nat n <= U32_MAX -> store_inv (hole_store n).
Proof using Type.
  intros Hn. apply (reserve_inv ([1], None) (hole_entry n) empty_store); [apply empty_store_inv|apply lookup_empty|vm_compute; reflexivity|].
  split; cbn; try done; try lia.
  - unfold zlen. by rewrite length_replicate.
  - exists (replicate n []). clear Hn. split; cbn [hole_entry sg_bytes sg_chunk_ends]; induction n as [|n IH]; try done.
    cbn [replicate ends_of]. change (0 + zlen []) with 0. by rewrite <- IH.
Qed.
Lemma hole_step n : Z.of_nat n + 1 <= U32_MAX ->
  staging_step (SWrite 0 hole None [] (Z.of_nat n) []) (hole_store n) = (hole_store (S n), false).
Proof using Type.
  intros Hn. cbn [staging_step]. unfold write_chunk_with_owner. cbn [br_mime_class hole check_owner].
  change (STAGED_CHUNK_BYTES <? zlen []) with false. cbv zeta iota. cbn [br_total_length br_transfer_id br_mime_class hole].
  change (class_max_total_length BmArchive <? 1) with false. cbv iota. destruct (expire_ok 0 (hole_store n) (hole_inv n ltac:(lia))) as [m ->].
  rewrite swept_hole. cbn [st_transfers hole_store]. rewrite lookup_singleton_eq. unfold write_entry.
  cbn [sg_owner sg_total_length sg_sha256 sg_mime_class sg_next_chunk_index sg_complete sg_bytes sg_chunk_ends hole_entry hole
       br_total_length br_sha256 br_mime_class].
  rewrite !bool_decide_true by done. cbn [negb orb]. rewrite Z.ltb_irrefl, Z.eqb_refl. cbn [negb app].
  change (1 <? zlen [] + zlen []) with false. cbv zeta iota.
  rewrite (proj2 (add_in_Ok U32_MAX (Z.of_nat n) 1 (Z.of_nat n + 1))) by lia. change (zlen [] =? 1) with false. cbv iota.
  unfold outcome, put_transfer, hole_store, hole_entry. cbn [fst snd st_transfers st_staged_bytes sg_created_ms sg_quota]. rewrite insert_singleton_eq.
  change (zlen []) with 0. rewrite <- replicate_S_end. do 4 f_equal. lia.
Qed.

(** C39: The bookkeeping of a transfer is not bounded by its length.  Every entry is said to be bounded by
    its declared length, but an empty chunk is accepted as the next one and its end is recorded: a peer
    that has declared a single byte, and is charged one byte, can make its entry hold any
    number of recorded chunk ends up to 2^32 - 1, eight bytes of memory each. *)
Theorem empty_chunks_are_not_bounded n : (1 <= n)%nat -> Z.of_nat n <= U32_MAX ->
  exists s k t, staging_reach s /\ st_transfers s !! k = Some t /\ st_staged_bytes s = 1 /\ sg_total_length t = 1 /\
    sg_bytes t = [] /\ zlen (sg_chunk_ends t) = Z.of_nat n.
Proof using Type.
  intros Hn Hmax. exists (hole_store n), ([1], None), (hole_entry n).
  assert (staging_reach (hole_store n)) as Hr.
  { induction n as [|n IH]; [lia|]. destruct (decide (n = 0%nat)) as [->|Hne].
    - replace (hole_store 1) with (staging_step (SWrite 0 hole None [] 0 []) empty_store).1; [|vm_compute; reflexivity].
      apply reach_step; [apply reach_empty|cbn; lia|vm_compute; reflexivity].
    - pose proof (hole_step n ltac:(lia)) as Hs. replace (hole_store (S n)) with (staging_step (SWrite 0 hole None [] (Z.of_nat n) []) (hole_store n)).1
        by (by rewrite Hs). apply reach_step; [apply IH; lia|cbn; lia|by rewrite Hs]. }
  split; [exact Hr|]. split; [apply lookup_singleton_eq|]. repeat split. cbn. unfold zlen. by rewrite length_replicate.
Qed.
End theorems.

(** ** Concrete runs *)

Module StagingWitnesses.
#[local] Existing Instance Toy_sha256.

(** An archive of three bytes pushed in two chunks, and an opaque transfer of owner [[5]]. *)
Definition chunks3 : list bytes := [[7; 8]; [9]].
Definition ref3 : BulkTransferRef := mkBulkRef [1] 3 (digest_of [7; 8; 9]) BmArchive.
Definition begun : Store := (staging_step (SWrite 10 ref3 None [4] 0 [7; 8]) empty_store).1.
Definition owned : Store := (staging_step (SStage 20 [3; 4] BmOpaque [2] (Some [5]) [6]) begun).1.
Definition replayed : Store := (staging_step (SWrite 30 ref3 None [4] 0 [7; 8]) owned).1.
Definition finished : Store := (staging_step (SWrite 40 ref3 None [4] 1 [9]) replayed).1.

Lemma begun_reach : staging_reach begun.
Proof. apply reach_step; [apply reach_empty|cbn; lia|vm_compute; reflexivity]. Qed.
Lemma owned_reach : staging_reach owned.
Proof. apply reach_step; [exact begun_reach|exact I|vm_compute; reflexivity]. Qed.
Lemma chunks3_ok : upload_ok ref3 None chunks3.
Proof.
  split; try (vm_compute; reflexivity); try (vm_compute; discriminate).
  - intros i c Hi. apply list_elem_of_lookup_2 in Hi. set_unfold in Hi. destruct Hi as [->|[->|[]]]; vm_compute; discriminate.
  - intros n Hn. assert (n = 1%nat) as -> by (cbn in Hn; lia). vm_compute. reflexivity.
Qed.
Lemma chunks3_run : upload_run ref3 None [4] chunks3 10 1 begun 2 finished.
Proof.
  apply (ur_other _ _ _ _ _ _ _ (SStage 20 [3; 4] BmOpaque [2] (Some [5]) [6]));
    [exact I|vm_compute; reflexivity|cbn; congruence|intros now [= <-]; vm_compute; reflexivity|].
  apply (ur_write _ _ _ _ _ _ _ 0 [7; 8] 30); [done|lia|vm_compute; reflexivity|].
  apply (ur_write _ _ _ _ _ _ _ 1 [9] 40); [done|lia|vm_compute; reflexivity|]. apply ur_refl.
Qed.

Lemma staging_stays_within_limits_witness : store_inv owned /\ size (st_transfers owned) = 2%nat /\ st_staged_bytes owned = 5.
Proof.
  split; [|split; vm_compute; reflexivity].
  apply (staging_stays_within_limits owned). exact owned_reach.
Defined.
(** The store with the owner's bytes and the one with others in their place. *)
Definition owned2 : Store := (staging_step (SStage 20 [9; 9; 9] BmOpaque [2] (Some [5]) [6]) begun).1.
Lemma owned2_reach : staging_reach owned2.
Proof. apply reach_step; [exact begun_reach|exact I|vm_compute; reflexivity]. Qed.
Lemma owned_agree k : k.2 <> Some [5] -> st_transfers owned2 !! k = st_transfers owned !! k.
Proof.
  intros Hk.
  assert (st_transfers owned = <[([2], Some [5]) := staged_entry 20 [3; 4] BmOpaque (Some [5]) [6]]> (st_transfers begun)) as ->
    by (vm_compute; reflexivity).
  assert (st_transfers owned2 = <[([2], Some [5]) := staged_entry 20 [9; 9; 9] BmOpaque (Some [5]) [6]]> (st_transfers begun)) as ->
    by (vm_compute; reflexivity).
  by rewrite !lookup_insert_ne by (intros <-; by apply Hk).
Qed.
Lemma owned_transfers_are_isolated_witness :
  kept_or_expired None (st_transfers owned !! ([2], Some [5]))
    (st_transfers (staging_step (SDiscard [2] None) owned).1 !! ([2], Some [5])) /\
  (read_chunk_gen 30 [1] 0 None owned2).2 = (read_chunk_gen 30 [1] 0 None owned).2.
Proof.
  destruct (owned_transfers_are_isolated owned [5] owned_reach) as (H1 & H2 & _). split.
  - apply (H1 (SDiscard [2] None) [2]); [exact I|discriminate].
  - apply (H2 owned2 owned2_reach). exact owned_agree.
Defined.
Lemma finished_reach : staging_reach finished.
Proof. apply reach_step; [apply reach_step; [exact owned_reach|cbn; lia|vm_compute; reflexivity]|cbn; lia|vm_compute; reflexivity]. Qed.
Lemma only_verified_bytes_leave_witness :
  (exists s' bodies ts, take_all_with_owner 50 [ref3] None finished = (s', Ok bodies) /\ bodies = [[7; 8; 9]] /\
     Forall2 (takeable None (swept 50 finished)) [ref3] ts /\ s' = without ([1], None) (swept 50 finished)) /\
  (exists s' e, take_all_with_owner 50 [ref3] None owned = (s', Err e) /\ s' = swept 50 owned).
Proof.
  split.
  - pose proof (proj1 (only_verified_bytes_leave finished finished_reach) 50 [ref3] None) as H.
    destruct (take_all_with_owner 50 [ref3] None finished) as [s' [b|e|]] eqn:E.
    + destruct H as (ts & H1 & _ & _ & _ & H2). exists s', b, ts. split; [reflexivity|]. split; [|split; [exact H1|exact H2]].
      apply (f_equal (fun x => match x.2 with Ok b => b | _ => [] end)) in E. vm_compute in E. by symmetry.
    + apply (f_equal (fun x => match x.2 with Ok _ => true | _ => false end)) in E. vm_compute in E. discriminate.
    + destruct H.
  - pose proof (proj1 (only_verified_bytes_leave owned owned_reach) 50 [ref3] None) as H.
    destruct (take_all_with_owner 50 [ref3] None owned) as [s' [b|e|]] eqn:E.
    + apply (f_equal (fun x => match x.2 with Ok _ => true | _ => false end)) in E. vm_compute in E. discriminate.
    + exists s', e. split; [reflexivity|]. apply H.
    + destruct H.
Defined.
Lemma upload_roundtrip_witness :
  take_all_with_owner 50 [ref3] None finished = (without ([1], None) (swept 50 finished), Ok [[7; 8; 9]]).
Proof.
  apply (upload_roundtrip ref3 None [4] chunks3 10 [7; 8] empty_store finished 50);
    [apply reach_empty|exact chunks3_ok|reflexivity|reflexivity|vm_compute; reflexivity|exact chunks3_run|vm_compute; reflexivity].
Defined.
(** The archive as the daemon stages it. *)
Definition exported : Store := (staging_step (SStage 10 [7; 8; 9] BmArchive [1] None [4]) empty_store).1.
Lemma download_roundtrip_witness :
  concat ((fun i => piece i [7; 8; 9]) <$> seqZ 0 (chunk_count (zlen [7; 8; 9]))) = [7; 8; 9].
Proof.
  refine (proj2 (proj2 (download_roundtrip exported [1] [7; 8; 9] BmArchive [4] 10 _ _))).
  - apply reach_step; [apply reach_empty|exact I|vm_compute; reflexivity].
  - vm_compute. reflexivity.
Defined.
Lemma empty_chunks_are_not_bounded_witness :
  exists s k t, staging_reach s /\ st_transfers s !! k = Some t /\ st_staged_bytes s = 1 /\ sg_total_length t = 1 /\
    sg_bytes t = [] /\ zlen (sg_chunk_ends t) = 3.
Proof. apply (empty_chunks_are_not_bounded 3); [lia|vm_compute; discriminate]. Defined.
End StagingWitnesses.
