(* ===== verification/BulkUpload.v ===== *)
(** The clients of the staging area: the upload of a long user message
    ([cockpit-core/src/daemon/bulk_upload.rs]) and the daemon's handlers of the bulk requests
    ([cockpit-core/src/daemon/server/dispatch.rs]), composed with it.  The text of errors is
    not modelled; the standard base64 alphabet of the [base64] crate is a parameter. *)

From S2P Require Import Prelude.
From S2P Require Import ProtocolId.
From S2P Require Import Bulk.
From S2P Require Import Staging.
From S2P Require Import StagingProps.
From stdpp Require Import options.
Set Warnings "-clear-no-such-hyp".

(** The padded base64 codec of the [base64] crate: decoding inverts encoding, and three bytes take
    four characters. *)
Class Base64Standard := mkBase64 {
  b64_encode : bytes -> bytes;
  b64_decode : bytes -> option bytes;
  b64_decode_encode : forall b, b64_decode (b64_encode b) = Some b;
  b64_encode_length : forall b, zlen (b64_encode b) = 4 * div_ceil (zlen b) 3 }.

(** ** The daemon's handlers *)

(** Which refusal an [ErrorPayload] carries, and its code. *)
Inductive ErrorPayload := ChunkBoundExceeded | InvalidChunkEncoding | TransferUnavailable | TransferRejected (e : BulkStagingError).
Inductive ErrorCode := BadRequest | OtherErrorCode.
Definition error_code (e : ErrorPayload) : ErrorCode := BadRequest.
(** The responses the bulk requests give; any other one is [OtherResponse]. *)
Inductive Response :=
| BulkTransferChunkAccepted (next_chunk_index received_bytes : Z) (complete : bool) (idle_timeout_ms : Z)
| BulkTransferChunk (chunk_index : Z) (data_base64 : bytes) (last : bool)
| OtherResponse.

Section handlers.
Context `{Sha256} `{Base64Standard}.
Local Abbreviation Reply A := (Store * result ErrorPayload A)%type.

(** dispatch.rs:4776-4781 unavailable_bulk_user_message_transfer. *)
Definition unavailable_bulk_user_message_transfer : ErrorPayload := TransferUnavailable.
(** dispatch.rs:33602-33607 staging_error. *)
Definition staging_error (e : BulkStagingError) : ErrorPayload := TransferRejected e.
(** The answer with its error translated. *)
Definition map_reply {A B} (f : A -> B) (g : BulkStagingError -> ErrorPayload) (r : Store * result BulkStagingError A) : Reply B :=
  (r.1, match r.2 with Ok a => Ok (f a) | Err e => Err (g e) | Panic => Panic end).
(** dispatch.rs:33610-33659 write_bulk_transfer_chunk. *)
Definition write_bulk_transfer_chunk (now : Z) (transfer : BulkTransferRef) (chunk_index : Z) (data_base64 : bytes)
    (owner : option OwnerBinding) (quota : ClientQuotaKey) (s : Store) : Reply Response :=
  if MAX_ATTACHMENT_CHUNK_BASE64_BYTES <? zlen data_base64 then (s, Err ChunkBoundExceeded) else
  match b64_decode data_base64 with
  | None => (s, Err InvalidChunkEncoding)
  | Some chunk =>
      let accepted a := BulkTransferChunkAccepted (ca_next_chunk_index a) (ca_received_bytes a) (ca_complete a)
                          (Z.min U32_MAX (ca_lease_remaining_ms a)) in
      match br_mime_class transfer with
      | BmOpaque =>
          match owner with
          | None => (s, Err unavailable_bulk_user_message_transfer)
          | Some o =>
              map_reply accepted
                (fun e => match e with OwnerMismatch => unavailable_bulk_user_message_transfer | other => staging_error other end)
                (write_chunk_owned now transfer o quota chunk_index chunk s)
          end
      | _ => map_reply accepted staging_error (write_chunk now transfer chunk_index chunk quota s)
      end
  end.
(** dispatch.rs:33667-33682 read_bulk_transfer_chunk. *)
Definition read_bulk_transfer_chunk (now : Z) (id : bytes) (chunk_index : Z) (s : Store) : Reply Response :=
  map_reply (fun cl => BulkTransferChunk chunk_index (b64_encode cl.1) cl.2) staging_error
    (read_chunk_of_kind now id chunk_index BmExport s).
(** dispatch.rs:33755-33770 read_redacted_export_chunk. *)
Definition read_redacted_export_chunk (now : Z) (id : bytes) (chunk_index : Z) (s : Store) : Reply Response :=
  map_reply (fun cl => BulkTransferChunk chunk_index (b64_encode cl.1) cl.2) staging_error
    (read_chunk_of_kind now id chunk_index BmRedactedExport s).
(** A random 16-byte id, never all zero. *)
Definition fix_transfer_id (random : bytes) : bytes := if is_all_zero random then <[0%nat := 1]> random else random.
(** dispatch.rs:33732-33745 stage_export_bytes. *)
Definition stage_export_bytes (now : Z) (b : bytes) (c : BulkMimeClass) (random : bytes) (quota : ClientQuotaKey) (s : Store)
    : Reply BulkTransferRef :=
  map_reply id staging_error (stage now b c (fix_transfer_id random) quota s).
End handlers.

(** ** The upload client *)

(** bulk_upload.rs:21-21 INLINE_USER_MESSAGE_TEXT_BYTES. *)
Definition INLINE_USER_MESSAGE_TEXT_BYTES : Z := 64 * 1024.
(** send_user_message.rs:21-21 MAX_MESSAGE_TEXT_BYTES. *)
Definition MAX_MESSAGE_TEXT_BYTES : Z := 8388608.
(** bulk_upload.rs:23-31 BulkUserMessageUploadError. *)
Inductive BulkUserMessageUploadError := UploadUsage | UploadDaemon | UploadTransport.
(** bulk_upload.rs:37-40 user_message_needs_bulk. *)
Definition user_message_needs_bulk (text : bytes) (display_text : option bytes) : bool :=
  (INLINE_USER_MESSAGE_TEXT_BYTES <? zlen text) ||
  match display_text with Some d => INLINE_USER_MESSAGE_TEXT_BYTES <? zlen d | None => false end.

(** [slice::chunks]. *)
Fixpoint slice_chunks (fuel n : nat) (b : bytes) : list bytes :=
  match fuel, b with
  | S fuel, _ :: _ => take n b :: slice_chunks fuel n (drop n b)
  | _, _ => []
  end.

(** What comes back from a request. *)
Inductive ClientReply := TransportFailed | Replied (r : Response) | Refused (code : ErrorCode).

Section client.
Context `{Sha256} `{Base64Standard}.
(** The daemon, as the client sees it: each [WriteBulkTransferChunk] request changes its state. *)
Context {W : Type} (request : BulkTransferRef -> Z -> bytes -> W -> W * ClientReply).

(** bulk_upload.rs:86-143 stage_opaque_user_text. The loop over the chunks: every acknowledgement must
    be exactly the expected one. *)
Fixpoint upload_loop (transfer : BulkTransferRef) (total index : Z) (chunks : list bytes) (w : W)
    : W * result BulkUserMessageUploadError BulkTransferRef :=
  match chunks with
  | [] => (w, Ok transfer)
  | chunk :: chunks =>
      if U32_MAX <? index then (w, Err UploadUsage) else
      if U32_MAX <? index + 1 then (w, Err UploadUsage) else
      if U64_MAX <? (index + 1) * STAGED_CHUNK_BYTES then (w, Err UploadUsage) else
      let expected_received := Z.min ((index + 1) * STAGED_CHUNK_BYTES) total in
      let expected_complete := expected_received =? total in
      let '(w, reply) := request transfer index (b64_encode chunk) w in
      match reply with
      | TransportFailed => (w, Err UploadTransport)
      | Replied (BulkTransferChunkAccepted next_chunk_index received_bytes complete _) =>
          if (next_chunk_index =? index + 1) && (received_bytes =? expected_received) && Bool.eqb complete expected_complete
          then upload_loop transfer total (index + 1) chunks w
          else (w, Err UploadDaemon)
      | Replied _ => (w, Err UploadDaemon)
      | Refused BadRequest => (w, Err UploadUsage)
      | Refused OtherErrorCode => (w, Err UploadDaemon)
      end
  end.
(** bulk_upload.rs:49-145 stage_opaque_user_text. [random] is the id drawn. *)
Definition stage_opaque_user_text (random text : bytes) (w : W) : W * result BulkUserMessageUploadError BulkTransferRef :=
  if zlen text =? 0 then (w, Err UploadUsage) else
  if MAX_MESSAGE_TEXT_BYTES <? zlen text then (w, Err UploadUsage) else
  match transfer_id_from_bytes (fix_transfer_id random) with
  | None => (w, Err UploadDaemon)
  | Some id =>
      match bulk_ref_new id (zlen text) (digest_of text) BmOpaque with
      | None => (w, Err UploadUsage)
      | Some transfer =>
          upload_loop transfer (zlen text) 0 (slice_chunks (length text) (Z.to_nat STAGED_CHUNK_BYTES) text) w
      end
  end.
End client.

(** ** The chunks of a slice *)

Section slices.
Context (n : nat) (Hn : (0 < n)%nat).
Lemma slice_chunks_concat fuel b : (length b <= fuel)%nat -> concat (slice_chunks fuel n b) = b.
Proof using Hn.
  revert b. induction fuel as [|fuel IH]; intros [|x b] Hb; try done; cbn [length] in Hb; [lia|].
  cbn [slice_chunks concat]. rewrite IH; [apply take_drop|]. rewrite length_drop. cbn [length]. lia.
Qed.
Lemma slice_chunks_small fuel b c : c ∈ slice_chunks fuel n b -> (length c <= n)%nat.
Proof using Type.
  revert b. induction fuel as [|fuel IH]; intros [|x b] Hc; try (by apply not_elem_of_nil in Hc).
  cbn [slice_chunks] in Hc. apply elem_of_cons in Hc as [->|Hc]; [rewrite length_take; apply Nat.le_min_l|by eapply IH].
Qed.
Lemma slice_chunks_prefix fuel b i : (length b <= fuel)%nat ->
  length (concat (take i (slice_chunks fuel n b))) = Nat.min (i * n) (length b).
Proof using Hn.
  revert b i. induction fuel as [|fuel IH]; intros [|x b] [|i] Hb; try (cbn in *; lia).
  cbn [slice_chunks firstn concat]. rewrite length_app, IH by (rewrite length_drop; cbn [length] in *; lia).
  rewrite length_take, length_drop. cbn [length] in *. lia.
Qed.
Lemma slice_chunks_index fuel b i : (length b <= fuel)%nat -> (i < length (slice_chunks fuel n b))%nat -> (i * n < length b)%nat.
Proof using Hn.
  revert b i. induction fuel as [|fuel IH]; intros [|x b] [|i] Hb Hi; try (cbn in *; lia).
  cbn [slice_chunks length] in Hi. apply Nat.succ_lt_mono, IH in Hi; [|rewrite length_drop; cbn [length] in *; lia].
  rewrite length_drop in Hi. lia.
Qed.
End slices.

(** ** A user message uploaded *)

Section upload_user_text.
Context `{Sha256} `{Base64Standard}.

(** The chunks of a text and its reference. *)
Definition text_chunks (text : bytes) : list bytes := slice_chunks (length text) (Z.to_nat STAGED_CHUNK_BYTES) text.
Definition text_ref (id text : bytes) : BulkTransferRef := mkBulkRef id (zlen text) (digest_of text) BmOpaque.

Lemma chunk_bytes_pos : (0 < Z.to_nat STAGED_CHUNK_BYTES)%nat.
Proof using Type. change STAGED_CHUNK_BYTES with 196608. lia. Qed.
Lemma text_chunks_prefix text i :
  zlen (concat (take i (text_chunks text))) = Z.min (Z.of_nat i * STAGED_CHUNK_BYTES) (zlen text).
Proof using Type.
  unfold zlen, text_chunks. rewrite slice_chunks_prefix by (apply chunk_bytes_pos || done).
  change STAGED_CHUNK_BYTES with 196608. lia.
Qed.
Lemma text_chunks_index text i : (i < length (text_chunks text))%nat -> Z.of_nat i * STAGED_CHUNK_BYTES < zlen text.
Proof using Type.
  intros Hi. apply slice_chunks_index in Hi; [|apply chunk_bytes_pos|done]. unfold zlen. change STAGED_CHUNK_BYTES with 196608 in *. lia.
Qed.
Lemma text_chunks_concat text : concat (text_chunks text) = text.
Proof using Type. by apply slice_chunks_concat; [apply chunk_bytes_pos|]. Qed.
Lemma text_chunks_small text i c : text_chunks text !! i = Some c -> zlen c <= STAGED_CHUNK_BYTES.
Proof using Type.
  intros Hc%list_elem_of_lookup_2%slice_chunks_small. unfold zlen. change STAGED_CHUNK_BYTES with 196608 in *. lia.
Qed.
Lemma text_chunks_count text : zlen text <= MAX_MESSAGE_TEXT_BYTES -> Z.of_nat (length (text_chunks text)) <= 43.
Proof using Type.
  intros Ht. destruct (length (text_chunks text)) as [|m] eqn:Hl; [lia|].
  assert (Z.of_nat m * STAGED_CHUNK_BYTES < zlen text) as Hm by (apply text_chunks_index; lia).
  unfold MAX_MESSAGE_TEXT_BYTES in Ht. change STAGED_CHUNK_BYTES with 196608 in Hm. lia.
Qed.
Lemma text_upload_ok id text o : zlen text <= MAX_MESSAGE_TEXT_BYTES -> upload_ok (text_ref id text) (Some o) (text_chunks text).
Proof using Type.
  intros Ht. pose proof (text_chunks_count text Ht) as Hcount.
  split; cbn [text_ref br_mime_class br_total_length br_sha256]; rewrite ?text_chunks_concat; try done.
  - unfold class_max_total_length, BULK_TRANSFER_MAX_BYTES. unfold MAX_MESSAGE_TEXT_BYTES in Ht. lia.
  - apply text_chunks_small.
  - intros i Hi. rewrite text_chunks_prefix. apply Z.min_lt_iff. left. apply text_chunks_index. lia.
  - unfold zlen, U32_MAX. lia.
Qed.
(** A full chunk fits the bound on its base64 form. *)
Lemma chunk_encoding_fits chunk : zlen chunk <= STAGED_CHUNK_BYTES -> zlen (b64_encode chunk) <= MAX_ATTACHMENT_CHUNK_BASE64_BYTES.
Proof using Type.
  intros Hc. rewrite b64_encode_length. unfold div_ceil. change STAGED_CHUNK_BYTES with 196608 in Hc.
  unfold MAX_ATTACHMENT_CHUNK_BASE64_BYTES. assert ((zlen chunk + 3 - 1) / 3 < 65537); [|lia]. apply Z.div_lt_upper_bound; lia.
Qed.

(** ** The daemon between requests *)

(** Before each request other clients' operations run, at the given times; a daemon with no request left
    to serve is unreachable. *)
Definition World : Type := Store * list (list StagingOp * Z).
Definition run_ops (ops : list StagingOp) (s : Store) : Store := fold_left (fun s op => (staging_step op s).1) ops s.
Definition daemon_request (owner : OwnerBinding) (quota : ClientQuotaKey) (transfer : BulkTransferRef) (index : Z)
    (data : bytes) (w : World) : World * ClientReply :=
  match w with
  | (s, []) => ((s, []), TransportFailed)
  | (s, (ops, now) :: rest) =>
      match write_bulk_transfer_chunk now transfer index data (Some owner) quota (run_ops ops s) with
      | (s, Ok r) => ((s, rest), Replied r)
      | (s, Err e) => ((s, rest), Refused (error_code e))
      | (s, Panic) => ((s, rest), TransportFailed)
      end
  end.

(** The others' operations do not name the entry and fall within its lease. *)
Fixpoint quiet (k : StagedTransferKey) (c0 : Z) (ops : list StagingOp) (s : Store) : Prop :=
  match ops with
  | [] => True
  | op :: ops =>
      op_ok op /\ (staging_step op s).2 = false /\ ~ op_names op k /\ (forall now, op_now op = Some now -> in_lease c0 now) /\
      quiet k c0 ops (staging_step op s).1
  end.
Fixpoint quiet_run (transfer : BulkTransferRef) (owner : OwnerBinding) (quota : ClientQuotaKey) (c0 index : Z)
    (chunks : list bytes) (rounds : list (list StagingOp * Z)) (s : Store) : Prop :=
  match chunks, rounds with
  | [], _ => True
  | _ :: _, [] => False
  | chunk :: chunks, (ops, now) :: rounds =>
      quiet (br_transfer_id transfer, Some owner) c0 ops s /\ in_lease c0 now /\
      quiet_run transfer owner quota c0 (index + 1) chunks rounds
        (staging_step (SWrite now transfer (Some owner) quota index chunk) (run_ops ops s)).1
  end.

Section run.
Context (id text : bytes) (owner : OwnerBinding) (quota : ClientQuotaKey) (c0 : Z).
Context (Htext : zlen text <= MAX_MESSAGE_TEXT_BYTES).
Local Abbreviation r := (text_ref id text).
Local Abbreviation cs := (text_chunks text).
Local Abbreviation k := (id, Some owner).

Lemma quiet_uploading ops s n : store_inv s -> quiet k c0 ops s -> uploading r (Some owner) cs c0 n s ->
  store_inv (run_ops ops s) /\ uploading r (Some owner) cs c0 n (run_ops ops s).
Proof using Type.
  revert s. induction ops as [|op ops IH]; intros s Hs Hq Hup; [done|].
  destruct Hq as (Hok & Hnp & Hn & Hl & Hq). pose proof (step_inv op s Hs Hok) as Hinv. rewrite Hnp in Hinv.
  apply IH; [exact Hinv|exact Hq|]. by apply uploading_other.
Qed.
(** The acknowledgement of a chunk is the one the client expects. *)
Lemma handled_chunk now i chunk s t : cs !! i = Some chunk ->
  write_chunk_with_owner now r (Some owner) quota (Z.of_nat i) chunk s
    = ((write_chunk_with_owner now r (Some owner) quota (Z.of_nat i) chunk s).1, Ok (accepted now t)) ->
  sg_bytes t = concat (take (S i) cs) -> sg_next_chunk_index t = Z.of_nat (S i) -> sg_complete t = bool_decide (S i = length cs) ->
  let received := Z.min ((Z.of_nat i + 1) * STAGED_CHUNK_BYTES) (zlen text) in
  exists idle, write_bulk_transfer_chunk now r (Z.of_nat i) (b64_encode chunk) (Some owner) quota s
    = ((staging_step (SWrite now r (Some owner) quota (Z.of_nat i) chunk) s).1,
       Ok (BulkTransferChunkAccepted (Z.of_nat i + 1) received (received =? zlen text) idle)).
Proof using Type.
  intros Hi Hw Hb Hnext Hcomp received. unfold write_bulk_transfer_chunk.
  rewrite (proj2 (Z.ltb_ge _ _)) by (by eapply chunk_encoding_fits, text_chunks_small).
  rewrite b64_decode_encode. cbn [br_mime_class text_ref]. unfold write_chunk_owned, map_reply. cbn [staging_step]. unfold outcome.
  fold r. rewrite Hw. cbn [fst snd]. eexists. do 2 f_equal.
  unfold accepted. cbn [ca_next_chunk_index ca_received_bytes ca_complete]. rewrite Hb, Hnext, Hcomp, text_chunks_prefix.
  apply lookup_lt_Some in Hi as Hlt. fold received.
  replace (Z.of_nat (S i)) with (Z.of_nat i + 1) by lia. fold received. f_equal.
  apply eq_true_iff_eq. rewrite bool_decide_eq_true, Z.eqb_eq. split.
  - intros Hl. pose proof (text_chunks_prefix text (S i)) as Hp. rewrite Hl, take_ge, text_chunks_concat in Hp by done.
    unfold received. lia.
  - intros Hr. destruct (decide (S i = length cs)) as [|Hne]; [done|].
    pose proof (text_chunks_index text (S i) ltac:(lia)). unfold received in Hr. lia.
Qed.
Lemma upload_loop_runs i rounds s : (i <= length cs)%nat -> store_inv s -> uploading r (Some owner) cs c0 i s ->
  quiet_run r owner quota c0 (Z.of_nat i) (drop i cs) rounds s ->
  exists s' rest, upload_loop (daemon_request owner quota) r (zlen text) (Z.of_nat i) (drop i cs) (s, rounds) = ((s', rest), Ok r) /\
    store_inv s' /\ uploading r (Some owner) cs c0 (length cs) s'.
Proof using Htext.
  intros Hle. remember (length cs - i)%nat as m eqn:Hm. revert i rounds s Hle Hm.
  induction m as [|m IH]; intros i rounds s Hle Hm Hs Hup Hq.
  - rewrite drop_ge by lia. exists s, rounds. by replace i with (length cs) in Hup by lia.
  - destruct (lookup_lt_is_Some_2 cs i) as [chunk Hi]; [lia|]. pose proof (text_chunks_count text Htext) as Hcount.
    rewrite (drop_S _ _ _ Hi) in *. destruct rounds as [|[ops now] rounds]; [done|]. destruct Hq as (Hqu & Hl & Hq).
    destruct (quiet_uploading ops s i Hs Hqu Hup) as [Hs1 Hup1].
    pose proof (text_upload_ok id text owner Htext) as Hu.
    destruct (upload_write r (Some owner) quota cs c0 i i chunk now _ Hs1 Hu Hup1 Hl Hi ltac:(lia) ltac:(lia)) as (t & Hw & Ht & Hup2).
    rewrite Nat.max_r in Hup2 by lia. pose proof Hup2 as (t' & Ht' & [Hb _] & Hnext & Hcomp & _).
    cbn [br_transfer_id text_ref] in *. rewrite Ht in Ht'. injection Ht' as <-.
    destruct (handled_chunk now i chunk _ t Hi Hw Hb Hnext Hcomp) as [idle Hh].
    pose proof (step_inv (SWrite now r (Some owner) quota (Z.of_nat i) chunk) _ Hs1) as Hinv. cbn [staging_step op_ok] in Hinv.
    rewrite Hw in Hinv. cbn [outcome fst snd] in Hinv.
    destruct (IH (S i) rounds (staging_step (SWrite now r (Some owner) quota (Z.of_nat i) chunk) (run_ops ops s)).1) as (s' & rest & Hrest).
    + lia. + lia.
    + cbn [staging_step]. unfold outcome. cbn [fst]. apply Hinv. split; [apply zlen_nonneg|lia].
    + exact Hup2.
    + by replace (Z.of_nat (S i)) with (Z.of_nat i + 1) by lia.
    + exists s', rest. replace (Z.of_nat (S i)) with (Z.of_nat i + 1) in Hrest by lia. cbn [upload_loop daemon_request].
      rewrite !(proj2 (Z.ltb_ge _ _)) by (unfold U32_MAX, U64_MAX; change STAGED_CHUNK_BYTES with 196608; lia).
      cbv zeta. rewrite Hh. rewrite !Z.eqb_refl, eqb_reflx. exact Hrest.
Qed.
End run.

Lemma fix_transfer_id_ok random : zlen random = 16 -> transfer_id_from_bytes (fix_transfer_id random) = Some (fix_transfer_id random).
Proof using Type.
  intros Hr. unfold transfer_id_from_bytes, fix_transfer_id. destruct (is_all_zero random) eqn:Hz; [|by rewrite Hz].
  destruct random as [|x random]; [done|]. done.
Qed.

(** C14: A long user message arrives.  A text of at most 8 MiB is uploaded by the client in chunks of
    192 KiB, encoded in base64, through the daemon's request handler; between the requests other clients
    use the staging area as they like, but for this entry, within its lease.  When the first chunk
    finds room, every acknowledgement is the one the client insists on, the upload succeeds, and the
    daemon takes exactly the text from the owner's entry. *)
Theorem user_text_arrives random text owner quota c0 rounds s :
  let id := fix_transfer_id random in let r := text_ref id text in
  staging_reach s -> zlen random = 16 -> 0 < zlen text <= MAX_MESSAGE_TEXT_BYTES ->
  st_transfers s !! (id, Some owner) = None -> can_reserve (zlen text) quota (swept c0 s) = Ok tt ->
  quiet_run r owner quota c0 0 (text_chunks text) (([], c0) :: rounds) s ->
  exists s' rest,
    stage_opaque_user_text (daemon_request owner quota) random text (s, ([], c0) :: rounds) = ((s', rest), Ok r) /\
    forall now, in_lease c0 now ->
      take_owned now r owner s' = (without (id, Some owner) (swept now s'), Ok text).
Proof using Type.
  intros id r Hs%staging_reach_inv Hrand [Hpos Hmax] Hk Hres Hq. unfold stage_opaque_user_text.
  rewrite (fix_transfer_id_ok random Hrand). fold id. clearbody id. subst r.
  pose proof (text_upload_ok id text owner Hmax) as Hu. pose proof (text_chunks_count text Hmax) as Hcount.
  destruct (text_chunks text) as [|chunk cs] eqn:Hcs.
  { pose proof (text_chunks_concat text) as Hc. rewrite Hcs in Hc. cbn in Hc. subst text. done. }
  assert (text_chunks text !! 0%nat = Some chunk) as Hfst by (by rewrite Hcs). rewrite <- Hcs in *.
  destruct (upload_opens (text_ref id text) (Some owner) quota (text_chunks text) c0 chunk s Hs Hu Hfst Hk Hres) as ((t & Hw & Ht) & Hup & Hinv).
  pose proof Hup as (t' & Ht' & [Hb _] & Hnext & Hcomp & _). cbn [staging_step] in Ht'. unfold outcome in Ht'. cbn [fst] in Ht'.
  rewrite Ht in Ht'. injection Ht' as <-.
  destruct (handled_chunk id text owner quota c0 0 chunk s t Hfst Hw Hb Hnext Hcomp) as [idle Hh].
  rewrite Hcs in Hq. destruct Hq as (_ & _ & Hq).
  destruct (upload_loop_runs id text owner quota c0 Hmax 1 rounds (staging_step (SWrite c0 (text_ref id text) (Some owner) quota 0 chunk) s).1)
    as (s' & rest & Hrun & Hs' & Hup'); [rewrite Hcs; cbn; lia|exact Hinv|exact Hup|by rewrite Hcs|].
  exists s', rest. split.
  - rewrite (proj2 (Z.eqb_neq _ _)) by lia. rewrite (proj2 (Z.ltb_ge _ _)) by lia.
    unfold bulk_ref_new.
    rewrite (proj2 (Z.ltb_ge _ _)) by (change (zlen text <= BULK_TRANSFER_MAX_BYTES); unfold BULK_TRANSFER_MAX_BYTES, MAX_MESSAGE_TEXT_BYTES in *; lia).
    fold (text_chunks text) (text_ref id text). rewrite Hcs in *. cbn [upload_loop daemon_request].
    change (run_ops [] s) with s. rewrite !(proj2 (Z.ltb_ge _ _)) by (unfold U32_MAX, U64_MAX; change STAGED_CHUNK_BYTES with 196608; lia).
    cbv zeta. change (Z.of_nat 0) with 0 in Hh. rewrite Hh. rewrite !Z.eqb_refl, eqb_reflx. exact Hrun.
  - intros now Hl. unfold take_owned, pop_one, take_all_owned.
    rewrite (uploaded_take (text_ref id text) (Some owner) (text_chunks text) c0 s' now Hs' Hu Hup' Hl). by rewrite text_chunks_concat.
Qed.
End upload_user_text.

(** ** A concrete upload *)

Module UploadWitnesses.
(** A codec with the two laws: groups of three bytes and a mark of how many count. *)
Fixpoint toy_b64_encode (b : bytes) : bytes :=
  match b with
  | x :: y :: z :: b => x :: y :: z :: 3 :: toy_b64_encode b
  | [x; y] => [x; y; 0; 2]
  | [x] => [x; 0; 0; 1]
  | [] => []
  end.
Fixpoint toy_b64_decode (t : bytes) : option bytes :=
  match t with
  | x :: y :: z :: m :: t =>
      if m =? 3 then b ← toy_b64_decode t; Some (x :: y :: z :: b) else if m =? 2 then Some [x; y] else Some [x]
  | [] => Some []
  | _ => None
  end.
(** Lists by groups of three. *)
Lemma thirds_ind (P : bytes -> Prop) : P [] -> (forall x, P [x]) -> (forall x y, P [x; y]) ->
  (forall x y z b, P b -> P (x :: y :: z :: b)) -> forall b, P b.
Proof.
  intros H0 H1 H2 H3. assert (forall n b, (length b <= n)%nat -> P b) as Hall; [|intros b; by apply (Hall (length b))].
  induction n as [|n IH]; intros b Hb.
  - by destruct b; [|cbn in Hb; lia].
  - destruct b as [|x [|y [|z b]]]; try done. apply H3, IH. cbn in Hb. lia.
Qed.
Lemma toy_b64_roundtrip b : toy_b64_decode (toy_b64_encode b) = Some b.
Proof. induction b as [| | |x y z b IH] using thirds_ind; try done. cbn. by rewrite IH. Qed.
Lemma toy_b64_length b : zlen (toy_b64_encode b) = 4 * div_ceil (zlen b) 3.
Proof.
  induction b as [| | |x y z b IH] using thirds_ind; try done. cbn [toy_b64_encode]. rewrite !zlen_cons, IH. unfold div_ceil.
  replace (1 + (1 + (1 + zlen b)) + 3 - 1) with (zlen b + 3 - 1 + 1 * 3) by lia. rewrite Z.div_add by lia. lia.
Qed.
Definition Toy_base64 : Base64Standard := mkBase64 toy_b64_encode toy_b64_decode toy_b64_roundtrip toy_b64_length.
#[local] Existing Instance Toy_sha256.
#[local] Existing Instance Toy_base64.

Lemma chunks_of_three : text_chunks [7; 8; 9] = [[7; 8; 9]].
Proof.
  unfold text_chunks. cbn [slice_chunks length].
  rewrite take_ge, drop_ge by (cbn [length]; change STAGED_CHUNK_BYTES with 196608; lia). done.
Qed.
Lemma user_text_arrives_witness :
  let r := text_ref (1 :: replicate 15 0) [7; 8; 9] in
  exists s' rest,
    stage_opaque_user_text (daemon_request [5] [6]) (replicate 16 0) [7; 8; 9] (empty_store, [([], 10)]) = ((s', rest), Ok r) /\
    forall now, in_lease 10 now ->
      take_owned now r [5] s' = (without (1 :: replicate 15 0, Some [5]) (swept now s'), Ok [7; 8; 9]).
Proof.
  apply (user_text_arrives (replicate 16 0) [7; 8; 9] [5] [6] 10 [] empty_store);
    [apply reach_empty|reflexivity|split; vm_compute; congruence|reflexivity|vm_compute; reflexivity|].
  rewrite chunks_of_three. split; [exact I|]. split; [vm_compute; reflexivity|exact I].
Defined.
End UploadWitnesses.
