(* ===== verification/Ceiling.v ===== *)
(** Capabilities and the permission ceiling a remote client is granted
    ([cockpit-proto/src/capability_ceiling.rs]): the two capability enumerations, the
    canonical binary form of a ceiling and its digest.  The decoder's position into the slice
    is the list of bytes still to be read; the text of errors is not modelled. *)

From S2P Require Import Prelude.
From S2P Require Import ProtocolId.
From stdpp Require Import options.
Set Warnings "-clear-no-such-hyp".

(** capability_ceiling.rs:11-11 PERMISSION_CEILING_MAX_BYTES. *)
Definition PERMISSION_CEILING_MAX_BYTES : Z := 512.
(** capability_ceiling.rs:13-19 CapabilityCeilingError. *)
Inductive CapabilityCeilingError := CeilingInvalid | CapabilityUnknown.
Local Abbreviation res := (result CapabilityCeilingError).

(** ** Capabilities *)

(** capability_ceiling.rs:33-55 RemoteProjectCapabilityV1. *)
Inductive RemoteProjectCapabilityV1 :=
| ProjectRead | ProjectWrite | FilesystemRead | FilesystemWrite | TerminalRead | TerminalControl | SessionRead | SessionWrite
| NotesRead | NotesWrite | SchedulerRead | SchedulerWrite | ResourcePromote | LspControl | ImageGenerationAdmin.
#[export] Instance RemoteProjectCapabilityV1_eq_dec : EqDecision RemoteProjectCapabilityV1.
Proof. solve_decision. Defined.
(** capability_ceiling.rs:58-60 RemoteProjectCapabilityV1::ordinal. *)
Definition project_ordinal (c : RemoteProjectCapabilityV1) : Z :=
  match c with
  | ProjectRead => 1 | ProjectWrite => 2 | FilesystemRead => 3 | FilesystemWrite => 4 | TerminalRead => 5
  | TerminalControl => 6 | SessionRead => 7 | SessionWrite => 8 | NotesRead => 9 | NotesWrite => 10
  | SchedulerRead => 11 | SchedulerWrite => 12 | ResourcePromote => 13 | LspControl => 14 | ImageGenerationAdmin => 15
  end.
(** capability_ceiling.rs:61-82 RemoteProjectCapabilityV1::from_ordinal. *)
Definition project_from_ordinal (v : Z) : res RemoteProjectCapabilityV1 :=
  match v with
  | 1 => Ok ProjectRead | 2 => Ok ProjectWrite | 3 => Ok FilesystemRead | 4 => Ok FilesystemWrite | 5 => Ok TerminalRead
  | 6 => Ok TerminalControl | 7 => Ok SessionRead | 8 => Ok SessionWrite | 9 => Ok NotesRead | 10 => Ok NotesWrite
  | 11 => Ok SchedulerRead | 12 => Ok SchedulerWrite | 13 => Ok ResourcePromote | 14 => Ok LspControl
  | 15 => Ok ImageGenerationAdmin
  | _ => Err CapabilityUnknown
  end.
(** capability_ceiling.rs:83-101 RemoteProjectCapabilityV1::all. *)
Definition project_all : list RemoteProjectCapabilityV1 :=
  [ProjectRead; ProjectWrite; FilesystemRead; FilesystemWrite; TerminalRead; TerminalControl; SessionRead; SessionWrite;
   NotesRead; NotesWrite; SchedulerRead; SchedulerWrite; ResourcePromote; LspControl; ImageGenerationAdmin].

(** capability_ceiling.rs:106-123 RemoteAttachmentCapabilityV1. *)
Inductive RemoteAttachmentCapabilityV1 :=
| AttachmentRead | AttachmentManageChildren | SessionCreate | SessionImport | SessionArchive | SessionDelete | ModelConfigure
| AgentConfigure | ApprovalConfigure | SandboxConfigure | CredentialManage | DaemonManage | UsageRecord.
#[export] Instance RemoteAttachmentCapabilityV1_eq_dec : EqDecision RemoteAttachmentCapabilityV1.
Proof. solve_decision. Defined.
(** capability_ceiling.rs:126-128 RemoteAttachmentCapabilityV1::ordinal. *)
Definition attachment_ordinal (c : RemoteAttachmentCapabilityV1) : Z :=
  match c with
  | AttachmentRead => 1 | AttachmentManageChildren => 2 | SessionCreate => 3 | SessionImport => 4 | SessionArchive => 5
  | SessionDelete => 6 | ModelConfigure => 7 | AgentConfigure => 8 | ApprovalConfigure => 9 | SandboxConfigure => 10
  | CredentialManage => 11 | DaemonManage => 12 | UsageRecord => 13
  end.
(** capability_ceiling.rs:129-148 RemoteAttachmentCapabilityV1::from_ordinal. *)
Definition attachment_from_ordinal (v : Z) : res RemoteAttachmentCapabilityV1 :=
  match v with
  | 1 => Ok AttachmentRead | 2 => Ok AttachmentManageChildren | 3 => Ok SessionCreate | 4 => Ok SessionImport
  | 5 => Ok SessionArchive | 6 => Ok SessionDelete | 7 => Ok ModelConfigure | 8 => Ok AgentConfigure
  | 9 => Ok ApprovalConfigure | 10 => Ok SandboxConfigure | 11 => Ok CredentialManage | 12 => Ok DaemonManage
  | 13 => Ok UsageRecord
  | _ => Err CapabilityUnknown
  end.
(** capability_ceiling.rs:149-165 RemoteAttachmentCapabilityV1::all. *)
Definition attachment_all : list RemoteAttachmentCapabilityV1 :=
  [AttachmentRead; AttachmentManageChildren; SessionCreate; SessionImport; SessionArchive; SessionDelete; ModelConfigure;
   AgentConfigure; ApprovalConfigure; SandboxConfigure; CredentialManage; DaemonManage; UsageRecord].

(** ** The ceiling *)

(** capability_ceiling.rs:177-183 RemotePermissionCeilingV1. *)
Record RemotePermissionCeilingV1 := mkCeiling {
  pc_attachment_capabilities : list RemoteAttachmentCapabilityV1;
  pc_projects : list (bytes * list RemoteProjectCapabilityV1) }.
#[export] Instance RemotePermissionCeilingV1_eq_dec : EqDecision RemotePermissionCeilingV1.
Proof. solve_decision. Defined.
(** capability_ceiling.rs:187-192 RemotePermissionCeilingV1::empty. *)
Definition ceiling_empty : RemotePermissionCeilingV1 := mkCeiling [] [].

(** The order of byte arrays. *)
Fixpoint bytes_lt (a b : bytes) : bool :=
  match a, b with
  | _, [] => false
  | [], _ :: _ => true
  | x :: a, y :: b => if x <? y then true else if y <? x then false else bytes_lt a b
  end.

(** capability_ceiling.rs:387-395 validate_sorted_unique_ordinals. The loop; [first] says that no ordinal
    came before. *)
Fixpoint check_ordinals (first : bool) (prev : Z) (ords : list Z) : res unit :=
  match ords with
  | [] => Ok tt
  | o :: ords =>
      if o =? 0 then Err CeilingInvalid else
      if negb first && (o <=? prev) then Err CeilingInvalid else check_ordinals false o ords
  end.
(** capability_ceiling.rs:382-397 validate_sorted_unique_ordinals. *)
Definition validate_sorted_unique_ordinals (ords : list Z) (max : Z) : res unit :=
  if max <? zlen ords then Err CeilingInvalid else check_ordinals true 0 ords.
(** capability_ceiling.rs:218-236 RemotePermissionCeilingV1::encode. The loop over the projects. *)
Fixpoint check_projects (prev_id : option bytes) (projects : list (bytes * list RemoteProjectCapabilityV1)) : res unit :=
  match projects with
  | [] => Ok tt
  | (pid, caps) :: projects =>
      if is_all_zero pid then Err CeilingInvalid else
      if match prev_id with Some prev => negb (bytes_lt prev pid) | None => false end then Err CeilingInvalid else
      if (zlen caps =? 0) || (16 <? zlen caps) then Err CeilingInvalid else
      _ ← validate_sorted_unique_ordinals (map project_ordinal caps) 16;
      check_projects (Some pid) projects
  end.
(** capability_ceiling.rs:261-267 RemotePermissionCeilingV1::encode. The bytes of one project. *)
Definition encode_project (p : bytes * list RemoteProjectCapabilityV1) : bytes :=
  p.1 ++ [zlen p.2] ++ map project_ordinal p.2.
(** capability_ceiling.rs:197-270 RemotePermissionCeilingV1::encode. The counts are at most 16, so the
    casts to [u8] lose nothing. *)
Definition ceiling_encode (c : RemotePermissionCeilingV1) : res bytes :=
  _ ← validate_sorted_unique_ordinals (map attachment_ordinal (pc_attachment_capabilities c)) 16;
  if 16 <? zlen (pc_attachment_capabilities c) then Err CeilingInvalid else
  if 16 <? zlen (pc_projects c) then Err CeilingInvalid else
  _ ← check_projects None (pc_projects c);
  let total := 1 + 1 + zlen (pc_attachment_capabilities c) + 1
    + foldr (fun p n => 16 + 1 + zlen p.2 + n) 0 (pc_projects c) in
  if PERMISSION_CEILING_MAX_BYTES <? total then Err CeilingInvalid else
  Ok ([1; zlen (pc_attachment_capabilities c)] ++ map attachment_ordinal (pc_attachment_capabilities c)
        ++ [zlen (pc_projects c)] ++ concat (map encode_project (pc_projects c))).

(** capability_ceiling.rs:350-360 RemotePermissionCeilingV1::decode. The loop over the ordinals of one
    set, for either kind of capability. *)
Fixpoint decode_ordinals {C} (from_ordinal : Z -> res C) (first : bool) (prev : Z) (b : bytes) : res (list C) :=
  match b with
  | [] => Ok []
  | ord :: b =>
      if ord =? 0 then Err CeilingInvalid else
      if negb first && (ord <=? prev) then Err CeilingInvalid else
      c ← from_ordinal ord;
      cs ← decode_ordinals from_ordinal false ord b;
      Ok (c :: cs)
  end.
(** capability_ceiling.rs:321-363 RemotePermissionCeilingV1::decode. The loop over the projects. *)
Fixpoint decode_projects (count : nat) (prev_pid : option bytes) (b : bytes)
    : res (list (bytes * list RemoteProjectCapabilityV1) * bytes) :=
  match count with
  | O => Ok ([], b)
  | S count =>
      if zlen b <? 16 then Err CeilingInvalid else
      let pid := take 16 b in let b := drop 16 b in
      if is_all_zero pid then Err CeilingInvalid else
      if match prev_pid with Some prev => negb (bytes_lt prev pid) | None => false end then Err CeilingInvalid else
      match b with
      | [] => Err CeilingInvalid
      | cap_count :: b =>
          if (cap_count =? 0) || (16 <? cap_count) then Err CeilingInvalid else
          if zlen b <? cap_count then Err CeilingInvalid else
          caps ← decode_ordinals project_from_ordinal true 0 (take (Z.to_nat cap_count) b);
          '(projects, b) ← decode_projects count (Some pid) (drop (Z.to_nat cap_count) b);
          Ok ((pid, caps) :: projects, b)
      end
  end.
(** capability_ceiling.rs:275-379 RemotePermissionCeilingV1::decode. *)
Definition ceiling_decode (b : bytes) : res RemotePermissionCeilingV1 :=
  match b with
  | [] => Err CeilingInvalid
  | version :: r =>
      if negb (version =? 1) then Err CeilingInvalid else
      match r with
      | [] => Err CeilingInvalid
      | att_count :: r =>
          if 16 <? att_count then Err CeilingInvalid else
          if zlen r <? att_count then Err CeilingInvalid else
          att_caps ← decode_ordinals attachment_from_ordinal true 0 (take (Z.to_nat att_count) r);
          match drop (Z.to_nat att_count) r with
          | [] => Err CeilingInvalid
          | proj_count :: r =>
              if 16 <? proj_count then Err CeilingInvalid else
              '(projects, r) ← decode_projects (Z.to_nat proj_count) None r;
              if negb (zlen r =? 0) then Err CeilingInvalid else
              let ceiling := mkCeiling att_caps projects in
              re ← ceiling_encode ceiling;
              if negb (bool_decide (re = b)) then Err CeilingInvalid else Ok ceiling
          end
      end
  end.
(** capability_ceiling.rs:430-438 permission_ceiling_digest. *)
Definition permission_ceiling_digest `{Sha256} (c : RemotePermissionCeilingV1) : res bytes :=
  b ← ceiling_encode c; Ok (sha256 b).

(** ** Canonical ceilings *)

Lemma project_ordinal_inv c : project_from_ordinal (project_ordinal c) = Ok c.
Proof. by destruct c. Qed.
Lemma project_from_ordinal_inv v c : project_from_ordinal v = Ok c -> v = project_ordinal c.
Proof. unfold project_from_ordinal. repeat (case_match; try done); by intros [= <-]. Qed.
Lemma attachment_ordinal_inv c : attachment_from_ordinal (attachment_ordinal c) = Ok c.
Proof. by destruct c. Qed.
Lemma attachment_from_ordinal_inv v c : attachment_from_ordinal v = Ok c -> v = attachment_ordinal c.
Proof. unfold attachment_from_ordinal. repeat (case_match; try done); by intros [= <-]. Qed.

(** Strictly ascending, and above [prev] if something came before. *)
Fixpoint ascending (prev : option Z) (ords : list Z) : Prop :=
  match ords with [] => True | o :: ords => match prev with Some p => p < o | None => True end /\ ascending (Some o) ords end.
Fixpoint ids_ascending (prev : option bytes) (ids : list bytes) : Prop :=
  match ids with
  | [] => True
  | i :: ids => match prev with Some p => bytes_lt p i = true | None => True end /\ ids_ascending (Some i) ids
  end.
(** What a canonical ceiling is: both kinds of sets strictly ascending, nonzero project ids strictly
    ascending, no empty project, and every bound on counts and size. *)
Record canonical_ceiling (c : RemotePermissionCeilingV1) : Prop := mkCanonical {
  cc_attachment : ascending None (map attachment_ordinal (pc_attachment_capabilities c));
  cc_ids : ids_ascending None (map fst (pc_projects c));
  cc_projects : forall pid caps, (pid, caps) ∈ pc_projects c ->
    is_all_zero pid = false /\ caps <> [] /\ ascending None (map project_ordinal caps);
  cc_count : zlen (pc_projects c) <= 16;
  cc_size : 1 + 1 + zlen (pc_attachment_capabilities c) + 1 + foldr (fun p n => 16 + 1 + zlen p.2 + n) 0 (pc_projects c) <= PERMISSION_CEILING_MAX_BYTES }.
(** Project ids are sixteen bytes, by their type. *)
Definition ceiling_typed (c : RemotePermissionCeilingV1) : Prop := Forall (fun p => length p.1 = 16%nat) (pc_projects c).

Lemma check_ordinals_ok first prev ords : (forall o, o ∈ ords -> 0 < o) ->
  check_ordinals first prev ords = Ok tt <-> ascending (if first then None else Some prev) ords.
Proof.
  revert first prev. induction ords as [|o ords IH]; intros first prev Hpos; cbn [check_ordinals ascending]; [done|].
  rewrite (proj2 (Z.eqb_neq _ _)) by (assert (0 < o) by (apply Hpos; set_solver); lia).
  specialize (IH false o ltac:(set_solver)). cbn iota in IH.
  destruct first; cbn [negb andb].
  - rewrite IH. tauto.
  - destruct (Z.leb_spec o prev); [split; [done|lia]|]. rewrite IH. intuition lia.
Qed.
Lemma project_ordinals_pos caps o : o ∈ map project_ordinal caps -> 0 < o <= 15.
Proof. intros (c & -> & _)%list_elem_of_fmap. destruct c; cbn; lia. Qed.
Lemma attachment_ordinals_pos caps o : o ∈ map attachment_ordinal caps -> 0 < o <= 13.
Proof. intros (c & -> & _)%list_elem_of_fmap. destruct c; cbn; lia. Qed.
(** A strictly ascending list of numbers up to [m] has at most [m] elements, so the bound of 16 on a
    set never binds. *)
Lemma ascending_length m p ords : 0 <= p -> (forall o, o ∈ ords -> o <= m) -> ascending (Some p) ords -> p <= m -> zlen ords <= m - p.
Proof.
  revert p. induction ords as [|o ords IH]; intros p Hp Hm Hasc Hpm; [rewrite zlen_nil; lia|].
  destruct Hasc as [Ho Hasc]. rewrite zlen_cons. assert (o <= m) by (apply Hm; set_solver).
  assert (zlen ords <= m - o); [|lia]. apply IH; [lia|intros x Hx; apply Hm; set_solver|done|lia].
Qed.
Lemma ascending_short m ords : (forall o, o ∈ ords -> 0 < o <= m) -> ascending None ords -> 0 <= m -> zlen ords <= m.
Proof.
  destruct ords as [|o ords]; intros Hm Hasc H0; [rewrite zlen_nil; lia|]. destruct Hasc as [_ Hasc]. rewrite zlen_cons.
  assert (0 < o <= m) by (apply Hm; set_solver).
  assert (zlen ords <= m - o); [|lia]. apply ascending_length; [lia|intros x Hx; apply Hm; set_solver|done|lia].
Qed.
Lemma zlen_map {A B} (f : A -> B) l : zlen (map f l) = zlen l.
Proof. unfold zlen. by rewrite length_map. Qed.
Lemma validate_ordinals_ok m ords : (forall o, o ∈ ords -> 0 < o <= m) -> 0 <= m <= 16 ->
  validate_sorted_unique_ordinals ords 16 = Ok tt <-> ascending None ords.
Proof.
  intros Hm Hb. unfold validate_sorted_unique_ordinals.
  pose proof (check_ordinals_ok true 0 ords) as Hc. cbn iota in Hc. rewrite <- Hc by (intros o Ho; by apply Hm).
  split.
  - destruct (16 <? zlen ords); done.
  - intros H. rewrite H. rewrite (proj2 (Z.ltb_ge _ _)); [done|]. etrans; [apply (ascending_short m)|lia]; [done| |lia].
    apply Hc; [intros o Ho; by apply Hm|done].
Qed.
Lemma check_projects_ok prev ps :
  check_projects prev ps = Ok tt <->
  ids_ascending prev (map fst ps) /\
  forall pid caps, (pid, caps) ∈ ps -> is_all_zero pid = false /\ caps <> [] /\ ascending None (map project_ordinal caps).
Proof.
  revert prev. induction ps as [|[pid caps] ps IH]; intros prev; cbn [check_projects map fst ids_ascending]; [set_solver|].
  pose proof (validate_ordinals_ok 15 (map project_ordinal caps) (project_ordinals_pos caps) ltac:(lia)) as Hv.
  assert (forall P : bytes -> list RemoteProjectCapabilityV1 -> Prop,
    (forall p c, (p, c) ∈ (pid, caps) :: ps -> P p c) <-> P pid caps /\ (forall p c, (p, c) ∈ ps -> P p c)) as Hall by set_solver.
  rewrite (Hall (fun p c => is_all_zero p = false /\ c <> [] /\ ascending None (map project_ordinal c))). clear Hall.
  destruct (is_all_zero pid) eqn:Hz; [split; [done|intros (_ & (Hf & _) & _); done]|].
  destruct (match prev with Some prev => negb (bytes_lt prev pid) | None => false end) eqn:Hp.
  { split; [done|]. intros ([Hlt _] & _). destruct prev; [by rewrite Hlt in Hp|done]. }
  assert (match prev with Some p => bytes_lt p pid = true | None => True end) as Hprev
    by (destruct prev; [by apply negb_false_iff|done]).
  destruct ((zlen caps =? 0) || (16 <? zlen caps)) eqn:Hlen.
  - split; [done|]. intros (_ & (_ & Hne & Hasc) & _). apply orb_true_iff in Hlen as [Hl|Hl].
    + apply Z.eqb_eq in Hl. by destruct caps; [|rewrite zlen_cons in Hl; pose proof (zlen_nonneg caps); lia].
    + apply Z.ltb_lt in Hl. pose proof (ascending_short 15 _ (project_ordinals_pos caps) Hasc). rewrite zlen_map in *. lia.
  - apply orb_false_iff in Hlen as [Hl _]. apply Z.eqb_neq in Hl.
    assert (caps <> []) as Hne by (intros ->; by apply Hl). specialize (IH (Some pid)).
    destruct (validate_sorted_unique_ordinals _ 16) as [[]| |] eqn:E; cbn [mbind result_bind].
    + rewrite IH. rewrite <- Hv. tauto.
    + split; [done|]. intros (_ & (_ & _ & Hasc) & _). apply Hv in Hasc. done.
    + split; [done|]. intros (_ & (_ & _ & Hasc) & _). apply Hv in Hasc. done.
Qed.

(** The bytes of a ceiling. *)
Definition ceiling_bytes (c : RemotePermissionCeilingV1) : bytes :=
  [1; zlen (pc_attachment_capabilities c)] ++ map attachment_ordinal (pc_attachment_capabilities c)
    ++ [zlen (pc_projects c)] ++ concat (map encode_project (pc_projects c)).
Lemma ceiling_encode_spec c b : ceiling_encode c = Ok b <-> canonical_ceiling c /\ b = ceiling_bytes c.
Proof.
  unfold ceiling_encode.
  pose proof (validate_ordinals_ok 13 (map attachment_ordinal (pc_attachment_capabilities c)) (attachment_ordinals_pos _) ltac:(lia)) as Hv.
  pose proof (check_projects_ok None (pc_projects c)) as Hp.
  split.
  - intros He. apply bind_Ok in He as ([] & Ha & He). apply Hv in Ha.
    destruct (16 <? zlen (pc_attachment_capabilities c)); [done|].
    destruct (16 <? zlen (pc_projects c)) eqn:Hc; [done|]. apply bind_Ok in He as ([] & Hps & He). apply Hp in Hps as [Hids Hps].
    cbv zeta in He. destruct (PERMISSION_CEILING_MAX_BYTES <? _) eqn:Hs; [done|]. injection He as <-. split; [|done].
    apply Z.ltb_ge in Hc, Hs. by split.
  - intros [[Ha Hids Hps Hc Hs] ->]. rewrite (proj2 Hv Ha). cbn [mbind result_bind].
    pose proof (ascending_short 13 _ (attachment_ordinals_pos _) Ha ltac:(lia)) as Hshort. rewrite zlen_map in Hshort.
    rewrite (proj2 (Z.ltb_ge _ _)), (proj2 (Z.ltb_ge _ _)) by lia. rewrite (proj2 Hp (conj Hids Hps)). cbn [mbind result_bind]. cbv zeta.
    by rewrite (proj2 (Z.ltb_ge _ _)).
Qed.

Lemma decode_ordinals_ok {C} (from : Z -> res C) (ord : C -> Z) first prev cs : (forall c, from (ord c) = Ok c) ->
  check_ordinals first prev (map ord cs) = Ok tt -> decode_ordinals from first prev (map ord cs) = Ok cs.
Proof.
  intros Hf. revert first prev. induction cs as [|c cs IH]; intros first prev; cbn [map check_ordinals decode_ordinals]; [done|].
  destruct (ord c =? 0); [done|]. destruct (negb first && (ord c <=? prev)); [done|]. intros Hc.
  rewrite Hf. cbn [mbind result_bind]. by rewrite IH.
Qed.
Lemma ordinals_check m ords : (forall o, o ∈ ords -> 0 < o <= m) -> ascending None ords -> check_ordinals true 0 ords = Ok tt.
Proof. intros Hm Ha. apply (check_ordinals_ok true 0); [intros o Ho; by apply Hm|done]. Qed.
Lemma take_drop_app {A} (l k : list A) n : n = length l -> take n (l ++ k) = l /\ drop n (l ++ k) = k.
Proof. intros ->. by rewrite take_app_length, drop_app_length. Qed.
Lemma decode_projects_ok prev ps rest : Forall (fun p => length p.1 = 16%nat) ps ->
  ids_ascending prev (map fst ps) ->
  (forall pid caps, (pid, caps) ∈ ps -> is_all_zero pid = false /\ caps <> [] /\ ascending None (map project_ordinal caps)) ->
  decode_projects (length ps) prev (concat (map encode_project ps) ++ rest) = Ok (ps, rest).
Proof.
  revert prev. induction ps as [|[pid caps] ps IH]; intros prev Hty Hids Hps; [done|].
  apply Forall_cons in Hty as [Hlen Hty]. destruct Hids as [Hprev Hids]. destruct (Hps pid caps) as (Hz & Hne & Hasc); [set_solver|].
  cbn [length decode_projects map concat fst] in *. change (encode_project (pid, caps)) with (pid ++ [zlen caps] ++ map project_ordinal caps). rewrite <- !app_assoc.
  pose proof (ascending_short 15 _ (project_ordinals_pos caps) Hasc ltac:(lia)) as Hs. rewrite zlen_map in Hs.
  assert (0 < zlen caps) as Hpos by (destruct caps; [done|rewrite zlen_cons; pose proof (zlen_nonneg caps); lia]).
  rewrite (proj2 (Z.ltb_ge _ _)) by (rewrite zlen_app; assert (zlen pid = 16) by (unfold zlen; by rewrite Hlen); pose proof (zlen_nonneg ([zlen caps] ++ map project_ordinal caps ++ concat (map encode_project ps) ++ rest)); lia).
  cbv zeta. destruct (take_drop_app pid ([zlen caps] ++ map project_ordinal caps ++ concat (map encode_project ps) ++ rest) 16) as [-> ->]; [done|].
  rewrite Hz. assert (match prev with Some p => negb (bytes_lt p pid) | None => false end = false) as ->
    by (destruct prev; [by rewrite Hprev|done]).
  cbn [app]. rewrite (proj2 (Z.eqb_neq _ _)), (proj2 (Z.ltb_ge 16 _)) by lia. cbn [orb].
  rewrite (proj2 (Z.ltb_ge _ _)) by (rewrite zlen_app, zlen_map; pose proof (zlen_nonneg (concat (map encode_project ps) ++ rest)); lia).
  destruct (take_drop_app (map project_ordinal caps) (concat (map encode_project ps) ++ rest) (Z.to_nat (zlen caps))) as [-> ->];
    [rewrite length_map; unfold zlen; lia|].
  rewrite (decode_ordinals_ok _ project_ordinal); [|apply project_ordinal_inv|by eapply ordinals_check; [apply project_ordinals_pos|]].
  cbn [mbind result_bind]. rewrite IH; [done|done|done|set_solver].
Qed.
Lemma decode_projects_typed n prev b ps rest : decode_projects n prev b = Ok (ps, rest) ->
  Forall (fun p => length p.1 = 16%nat) ps.
Proof.
  revert prev b ps rest. induction n as [|n IH]; intros prev b ps rest; cbn [decode_projects].
  { intros [= <- _]. constructor. }
  destruct (zlen b <? 16) eqn:Hl; [done|]. apply Z.ltb_ge in Hl. cbv zeta.
  destruct (is_all_zero _); [done|]. destruct (match prev with Some _ => _ | None => _ end); [done|].
  destruct (drop 16 b) as [|cap r]; [done|]. destruct (_ || _); [done|]. destruct (_ <? _); [done|].
  intros (caps & _ & H)%bind_Ok. apply bind_Ok in H as ([ps' r'] & H & [= <- _]).
  constructor; [cbn; rewrite length_take; unfold zlen in Hl; lia|by eapply IH].
Qed.

Lemma ceiling_decode_encode c b : ceiling_decode b = Ok c <-> ceiling_typed c /\ ceiling_encode c = Ok b.
Proof.
  split.
  - unfold ceiling_decode. destruct b as [|v r] eqn:Hb; [done|]. rewrite <- Hb. destruct (negb (v =? 1)); [done|].
    destruct r as [|n r']; [done|]. destruct (16 <? n); [done|]. destruct (_ <? n); [done|].
    intros (atts & _ & H)%bind_Ok. destruct (drop _ _) as [|pn r'']; [done|]. destruct (16 <? pn); [done|].
    apply bind_Ok in H as ([ps rr] & Hps & H). destruct (negb (zlen rr =? 0)); [done|]. cbv zeta in H.
    apply bind_Ok in H as (re & Hre & H). case_bool_decide as Heq; [|done]. cbn [negb] in H. injection H as <-. subst re.
    split; [by eapply decode_projects_typed|done].
  - intros [Hty He]. pose proof He as [[Ha Hids Hps Hc Hs] Hb]%ceiling_encode_spec. subst b.
    assert (forall x, ceiling_encode c = Ok x -> x = ceiling_bytes c) as Huniq by (intros x Hx; congruence).
    pose proof (ascending_short 13 _ (attachment_ordinals_pos _) Ha ltac:(lia)) as Hshort. rewrite zlen_map in Hshort.
    pose proof (zlen_nonneg (pc_attachment_capabilities c)). pose proof (zlen_nonneg (pc_projects c)).
    set (atts := map attachment_ordinal (pc_attachment_capabilities c)) in *.
    set (tail := [zlen (pc_projects c)] ++ concat (map encode_project (pc_projects c))).
    assert (ceiling_bytes c = 1 :: zlen (pc_attachment_capabilities c) :: atts ++ tail) as Hbytes by done.
    unfold ceiling_decode. rewrite Hbytes at 1. cbn [negb Z.eqb Pos.eqb].
    rewrite (proj2 (Z.ltb_ge _ _)) by lia.
    rewrite (proj2 (Z.ltb_ge _ _)) by (rewrite zlen_app; unfold atts; rewrite zlen_map; pose proof (zlen_nonneg tail); lia).
    destruct (take_drop_app atts tail (Z.to_nat (zlen (pc_attachment_capabilities c)))) as [-> ->];
      [unfold atts; rewrite length_map; unfold zlen; lia|].
    unfold atts. rewrite (decode_ordinals_ok _ attachment_ordinal); [|apply attachment_ordinal_inv|by eapply ordinals_check; [apply attachment_ordinals_pos|]].
    cbn [mbind result_bind]. unfold tail. cbn [app]. rewrite (proj2 (Z.ltb_ge _ _)) by lia.
    replace (Z.to_nat (zlen (pc_projects c))) with (length (pc_projects c)) by (unfold zlen; lia).
    rewrite <- (app_nil_r (concat _)), decode_projects_ok by done. cbn [mbind result_bind]. change (negb (zlen [] =? 0)) with false.
    cbv iota zeta. destruct c as [ac ps]. cbn [pc_attachment_capabilities pc_projects] in *. rewrite He. cbn [mbind result_bind].
    by rewrite bool_decide_true.
Qed.

(** C30: The binary form of a permission ceiling is exact.  A byte string is accepted exactly when it is
    the encoding of the ceiling returned; a ceiling is encodable exactly when both kinds of sets
    and the project ids are strictly ascending, no id is zero, no project is empty, there are at
    most 16 projects and the whole takes at most 512 bytes; so a ceiling has one encoding and an
    encoding one ceiling, and two encodable ceilings with equal digests are equal unless their
    two encodings are a SHA-256 collision. *)
Theorem ceiling_codec_exact `{Sha256} c b :
  (ceiling_decode b = Ok c <-> ceiling_typed c /\ ceiling_encode c = Ok b) /\
  (is_ok (ceiling_encode c) = true <-> canonical_ceiling c) /\
  (forall c' d, ceiling_typed c -> ceiling_typed c' ->
     permission_ceiling_digest c = Ok d -> permission_ceiling_digest c' = Ok d ->
     c = c' \/ exists x y, ceiling_encode c = Ok x /\ ceiling_encode c' = Ok y /\ x <> y /\ sha256 x = sha256 y).
Proof.
  split; [apply ceiling_decode_encode|]. split.
  - split.
    + destruct (ceiling_encode c) as [x| |] eqn:E; try done. intros _. by apply ceiling_encode_spec in E as [].
    + intros Hc. by rewrite (proj2 (ceiling_encode_spec c _) (conj Hc eq_refl)).
  - intros c' d Hty Hty' (x & Hx & [= <-])%bind_Ok (y & Hy & Heq)%bind_Ok.
    destruct (decide (x = y)) as [->|Hne].
    + left. assert (Ok (E:=CapabilityCeilingError) c = Ok c') as [= ->]; [|done]. rewrite <- (proj2 (ceiling_decode_encode c y) (conj Hty Hx)).
      apply ceiling_decode_encode. done.
    + right. exists x, y. split_and!; [done|done|done|]. congruence.
Qed.
