(* ===== verification/Reader.v ===== *)
(** Reading a byte string field by field at a moving offset: when a reader accepts exactly the
    encodings of a set of values, and how such readers compose.  Shared by the codecs whose
    decoders carry an offset ([Signaling], [Version]). *)

From S2P Require Import Prelude.
From S2P Require Import NoiseRecord.
From S2P Require Import NoisePrologue.
From stdpp Require Import options.

Section Reader.
Context {E : Type}.
(** [rest] is what is left of [b] at the offset. *)
Definition rest_at (b : bytes) (o : Z) (rest : bytes) : Prop := 0 <= o /\ slice (E:=E) b o (zlen b) = Ok rest.
(** A reader takes exactly the encodings of the values it accepts. *)
Definition reads {A} (p : bytes -> Z -> result E (A * Z)) (enc : A -> bytes) (ok : A -> Prop) : Prop :=
  forall b o a o', all_u8 b -> zlen b <= U64_MAX -> 0 <= o <= zlen b ->
    (p b o = Ok (a, o') <-> ok a /\ o' = o + zlen (enc a) /\ slice (E:=E) b o (o + zlen (enc a)) = Ok (enc a)).

Lemma slice_app_inv {E' A} (b s1 s2 : list A) o e : slice (E:=E') b o e = Ok (s1 ++ s2) ->
  slice (E:=E') b o (o + zlen s1) = Ok s1 /\ slice (E:=E') b (o + zlen s1) e = Ok s2.
Proof using Type.
  intros Hs. apply slice_inv in Hs as Hi. destruct Hi as (Hl & Ho & He & _). rewrite zlen_app in Hl.
  pose proof (zlen_nonneg s1). pose proof (zlen_nonneg s2).
  unfold slice in *. rewrite decide_True in Hs by lia. rewrite !decide_True by lia.
  assert (take (Z.to_nat (e - o)) (drop (Z.to_nat o) b) = s1 ++ s2) as Heq by congruence. clear Hs.
  split; f_equal.
  - replace (Z.to_nat (o + zlen s1 - o)) with (length s1) by (unfold zlen; lia).
    transitivity (take (length s1) (take (Z.to_nat (e - o)) (drop (Z.to_nat o) b))).
    + rewrite take_take. f_equal. unfold zlen in *. lia.
    + rewrite Heq. apply take_app_length.
  - replace (Z.to_nat (o + zlen s1)) with (Z.to_nat o + length s1)%nat by (unfold zlen; lia). rewrite <- drop_drop.
    transitivity (drop (length s1) (take (Z.to_nat (e - o)) (drop (Z.to_nat o) b))).
    + rewrite (take_drop_commute (drop (Z.to_nat o) b)). do 2 f_equal. unfold zlen in *. lia.
    + rewrite Heq. apply drop_app_length.
Qed.
(** The rule for one field and what follows it. *)
Lemma read_then {A B} (p : bytes -> Z -> result E (A * Z)) enc ok (k : A -> Z -> result E B) b o rest r : reads p enc ok ->
  all_u8 b -> zlen b <= U64_MAX -> rest_at b o rest ->
  ('(a, o') ← p b o; k a o') = Ok r <->
  exists a rest', ok a /\ rest = enc a ++ rest' /\ rest_at b (o + zlen (enc a)) rest' /\ k a (o + zlen (enc a)) = Ok r.
Proof using Type.
  intros Hp Hu Hb [Ho Hr].
  assert (0 <= o <= zlen b) as Hbo by (apply slice_inv in Hr; lia). split.
  - intros ([a o'] & H & Hk)%bind_Ok. apply Hp in H as (Hok & -> & Hs); [|done..].
    apply slice_inv in Hs as Hi. destruct Hi as (_ & _ & Hle & _). pose proof (zlen_nonneg (enc a)).
    destruct (slice (E:=E) b (o + zlen (enc a)) (zlen b)) as [rest'| |] eqn:Hs';
      [|by apply slice_not_err in Hs'|by apply slice_no_panic in Hs'; lia].
    exists a, rest'. split; [done|]. pose proof (slice_split _ _ _ _ _ _ Hs Hs') as Hcat.
    split; [rewrite Hr in Hcat; congruence|]. split; [|done]. split; [lia|done].
  - intros (a & rest' & Hok & -> & [Ho' Hr'] & Hk). apply bind_Ok. exists (a, o + zlen (enc a)). split; [|done].
    apply Hp; [done..|]. split; [done|]. split; [done|]. by apply slice_app_inv in Hr as [].
Qed.
Lemma rest_at_length b o rest : rest_at b o rest -> o + zlen rest = zlen b.
Proof using Type. intros [Ho Hs]. apply slice_inv in Hs as (Hl & _ & _ & _). lia. Qed.

(** A reader whose value is checked. *)
Lemma reads_check {A} (p : bytes -> Z -> result E (A * Z)) enc ok (c : A -> bool) e : reads p enc ok ->
  reads (fun b o => '(a, o) ← p b o; if c a then Err e else Ok (a, o)) enc (fun a => ok a /\ c a = false).
Proof using Type.
  intros Hp b o a o' Hu Hb Hbo. split.
  - intros ([x o1] & H & Hk)%bind_Ok. destruct (c x) eqn:Hc; [done|]. injection Hk as <- <-. apply Hp in H; [|done..]. tauto.
  - intros ((Hok & Hc) & Ho & Hs). apply bind_Ok. exists (a, o'). rewrite Hc. split; [|done]. by apply Hp.
Qed.
Lemma reads_ext {A} (p q : bytes -> Z -> result E (A * Z)) enc (ok ok' : A -> Prop) :
  (forall b o, p b o = q b o) -> (forall a, ok a <-> ok' a) -> reads p enc ok -> reads q enc ok'.
Proof using Type. intros Hpq Hok Hp b o a o' Hu Hb Hbo. rewrite <- Hpq, <- Hok. by apply Hp. Qed.
Lemma reads_enc {A} (p : bytes -> Z -> result E (A * Z)) enc enc' (ok : A -> Prop) :
  (forall a, ok a -> enc a = enc' a) -> reads p enc ok -> reads p enc' ok.
Proof using Type.
  intros He Hp b o a o' Hu Hb Hbo. rewrite (Hp b o a o' Hu Hb Hbo). split; intros (Hok & H); [rewrite <- (He a Hok)|rewrite (He a Hok)]; done.
Qed.
(** Two fields in turn, as the parts of one value. *)
Lemma reads_both {A B C} (p : bytes -> Z -> result E (A * Z)) enc ok (q : bytes -> Z -> result E (B * Z)) enc' ok' (mk : A -> B -> C) fst_ snd_ :
  (forall a b, fst_ (mk a b) = a /\ snd_ (mk a b) = b) -> (forall c, mk (fst_ c) (snd_ c) = c) -> reads p enc ok -> reads q enc' ok' ->
  reads (fun b o => '(x, o) ← p b o; '(y, o) ← q b o; Ok (mk x y, o)) (fun c => enc (fst_ c) ++ enc' (snd_ c)) (fun c => ok (fst_ c) /\ ok' (snd_ c)).
Proof using Type.
  intros Hmk Hc Hp Hq b o c o' Hu Hb Hbo. rewrite zlen_app. pose proof (zlen_nonneg (enc (fst_ c))). pose proof (zlen_nonneg (enc' (snd_ c))). split.
  - intros ([x o1] & H1 & Hk)%bind_Ok. apply bind_Ok in Hk as ([y o2] & H2 & [= <- <-]). destruct (Hmk x y) as [-> ->].
    apply Hp in H1 as (Hx & -> & S1); [|done..]. apply slice_inv in S1 as Hi. pose proof (zlen_nonneg (enc x)).
    apply Hq in H2 as (Hy & -> & S2); [|done|done|lia]. split; [done|]. split; [lia|]. rewrite Z.add_assoc. exact (slice_split _ _ _ _ _ _ S1 S2).
  - intros ([Hx Hy] & -> & Hs). apply slice_inv in Hs as Hi. apply slice_app_inv in Hs as [S1 S2]. rewrite zlen_app in *.
    apply bind_Ok. exists (fst_ c, o + zlen (enc (fst_ c))). split; [by apply Hp|].
    apply bind_Ok. exists (snd_ c, o + zlen (enc (fst_ c)) + zlen (enc' (snd_ c))). split; [|rewrite Hc; do 2 f_equal; lia].
    apply Hq; [done|done|lia|]. split; [done|]. split; [done|]. by rewrite <- Z.add_assoc.
Qed.
(** Running a reader over an encoding. *)
Lemma read_fwd {A B} (p : bytes -> Z -> result E (A * Z)) enc ok (k : A -> Z -> result E B) b o a rest' r : reads p enc ok ->
  all_u8 b -> zlen b <= U64_MAX -> rest_at b o (enc a ++ rest') -> ok a ->
  (rest_at b (o + zlen (enc a)) rest' -> k a (o + zlen (enc a)) = r) -> ('(a, o') ← p b o; k a o') = r.
Proof using Type.
  intros Hp Hu Hb [Ho Hr] Hok Hk. apply slice_inv in Hr as Hi. apply slice_app_inv in Hr as [H1 H2]. pose proof (zlen_nonneg (enc a)).
  rewrite <- Hk by (split; [lia|done]). by rewrite (proj2 (Hp b o a (o + zlen (enc a)) Hu Hb ltac:(lia))).
Qed.

Lemma rest_end b o rest : rest_at b o rest -> negb (o =? zlen b) = false -> rest = [].
Proof using Type.
  intros HR Ho. apply rest_at_length in HR. apply negb_false_iff, Z.eqb_eq in Ho. destruct rest as [|x rest]; [done|].
  rewrite zlen_cons in HR. pose proof (zlen_nonneg rest). lia.
Qed.
(** ** Fixed-width fields *)

(** What [take] of the codecs does: a slice at the offset, or an error. *)
Definition takes (take : bytes -> Z -> Z -> result E (bytes * Z)) : Prop :=
  forall b o n v o', zlen b <= U64_MAX -> take b o n = Ok (v, o') <-> o' = o + n /\ slice (E:=E) b o (o + n) = Ok v.
(** The body of [take], over the error of the codec. *)
Definition take_at (e : E) (b : bytes) (offset size : Z) : result E (bytes * Z) :=
  end_ ← ok_or (checked_add offset size) e;
  value ← ok_or (get_range b offset end_) e;
  Ok (value, end_).
Lemma take_at_takes e : takes (take_at e).
Proof using Type.
  intros b o n v o' Hb. unfold take_at, checked_add, get_range. split.
  - destruct (_ <=? _); [|done]. cbn [ok_or mbind result_bind].
    unfold slice. case_decide; cbn; [|done]. by intros [= <- <-].
  - intros [-> Hs]. apply slice_inv in Hs as Hi. destruct Hi as (_ & _ & Hle & _). rewrite (proj2 (Z.leb_le _ _)) by lia.
    cbn [ok_or mbind result_bind]. unfold slice in *. case_decide; [|done]. cbn. congruence.
Qed.
Lemma take_at_no_panic e b o n : take_at e b o n <> Panic.
Proof using Type. unfold take_at, checked_add, get_range. destruct (_ <=? _); [|done]. cbn [ok_or mbind result_bind]. unfold slice. by case_decide. Qed.

Section Fields.
Variable take : bytes -> Z -> Z -> result E (bytes * Z).
Hypothesis Htake : takes take.
Lemma field_reads n : reads (fun b o => take b o n) id (fun v => zlen v = n).
Proof using Htake.
  intros b o a o' Hu Hb Hbo. rewrite (Htake b o n a o' Hb). split.
  - intros [-> Hs]. apply slice_inv in Hs as Hi. unfold id. replace (zlen a) with n by lia. done.
  - intros (<- & -> & Hs). done.
Qed.
Lemma be_reads n : reads (fun b o => '(v, o) ← take b o (Z.of_nat n); Ok (from_be v, o)) (to_be n)
  (fun v => 0 <= v < 256 ^ Z.of_nat n).
Proof using Htake.
  intros b o a o' Hu Hb Hbo. rewrite zlen_to_be. split.
  - intros ([v o1] & H & [= <- <-])%bind_Ok. apply Htake in H as [-> Hs]; [|done].
    destruct (be_field _ _ _ n _ Hu Hs ltac:(lia)) as [F R]. by rewrite F.
  - intros (R & -> & Hs). apply bind_Ok. exists (to_be n a, o + Z.of_nat n). split; [by apply Htake|].
    by rewrite from_be_to_be_small.
Qed.
Lemma u64_reads : reads (fun b o => '(v, o) ← take b o 8; Ok (from_be v, o)) (to_be 8) is_u64.
Proof using Htake. eapply reads_ext; [| |apply (be_reads 8)]; [done|]. intros a. unfold is_u64, U64_MAX. change (256 ^ Z.of_nat 8) with 18446744073709551616. lia. Qed.
Lemma u16_reads : reads (fun b o => '(v, o) ← take b o 2; Ok (from_be v, o)) (to_be 2) is_u16.
Proof using Htake. eapply reads_ext; [| |apply (be_reads 2)]; [done|]. intros a. unfold is_u16, U16_MAX. change (256 ^ Z.of_nat 2) with 65536. lia. Qed.
Lemma u8_reads : reads (fun b o => '(v, o) ← take b o 1; x ← index v 0; Ok (x, o)) (fun v => [v]) is_u8.
Proof using Htake.
  intros b o a o' Hu Hb Hbo. split.
  - intros ([v o1] & H & Hx)%bind_Ok. apply Htake in H as [-> Hs]; [|done].
    destruct (slice_one_inv _ _ _ Hs) as [x ->]. cbn in Hx. injection Hx as <- <-. split; [|done].
    apply slice_u8 in Hs; [|done]. by apply Forall_cons in Hs as [].
  - intros (_ & -> & Hs). apply bind_Ok. exists ([a], o + 1). split; [by apply Htake|]. done.
Qed.
End Fields.

(** ** Counted lists *)

(** Read elements, checking each against the one before it. *)
Fixpoint list_loop {A} (p : bytes -> Z -> result E (A * Z)) (c : option A -> A -> option E) (n : nat) (last : option A) (b : bytes) (o : Z)
  : result E (list A * Z) :=
  match n with
  | O => Ok ([], o)
  | S n =>
      '(v, o) ← p b o;
      match c last v with
      | Some e => Err e
      | None => '(vs, o) ← list_loop p c n (Some v) b o; Ok (v :: vs, o)
      end
  end.
Fixpoint chained {A} (c : option A -> A -> option E) (ok : A -> Prop) (last : option A) (l : list A) : Prop :=
  match l with [] => True | x :: l => ok x /\ c last x = None /\ chained c ok (Some x) l end.
Lemma reads_list_loop {A} (p : bytes -> Z -> result E (A * Z)) enc ok c n last : reads p enc ok ->
  reads (list_loop p c n last) (fun l => concat (map enc l)) (fun l => length l = n /\ chained c ok last l).
Proof using Type.
  intros Hp. revert last. induction n as [|n IH]; intros last b o vs o' Hu Hb Hbo; cbn [list_loop].
  - split.
    + intros [= <- <-]. split; [done|]. change (zlen (concat (map enc []))) with 0. rewrite Z.add_0_r. split; [done|].
      rewrite slice_ok by lia. by rewrite Z.sub_diag.
    + intros ([Hl _] & -> & _). destruct vs; [|done]. change (zlen (concat (map enc []))) with 0. by rewrite Z.add_0_r.
  - split.
    + intros ([v o1] & H & Hk)%bind_Ok. apply Hp in H as (Hv & -> & Hs); [|done..].
      destruct (c last v) eqn:Hlast; [done|]. pose proof (zlen_nonneg (enc v)).
      apply bind_Ok in Hk as ([vs' o2] & H' & [= <- <-]). apply slice_inv in Hs as Hi.
      apply IH in H' as ([Hl Ha] & -> & Hs2); [|done|done|lia]. cbn [map concat]. rewrite zlen_app.
      split; [split; [cbn; lia|by split]|]. split; [lia|].
      rewrite Z.add_assoc. exact (slice_split _ _ _ _ _ _ Hs Hs2).
    + intros ([Hl Ha] & -> & Hs). destruct vs as [|v vs]; [done|]. destruct Ha as (Hv & Hlast & Ha). injection Hl as Hl.
      cbn [map concat] in *. apply slice_inv in Hs as Hi. apply slice_app_inv in Hs as [H1 H2].
      rewrite zlen_app in *. pose proof (zlen_nonneg (concat (map enc vs))). pose proof (zlen_nonneg (enc v)).
      apply bind_Ok. exists (v, o + zlen (enc v)). split; [by apply Hp|]. rewrite Hlast.
      apply bind_Ok. exists (vs, o + zlen (enc v) + zlen (concat (map enc vs))). split; [|do 2 f_equal; lia].
      apply IH; [done|done|lia|]. split; [done|]. split; [done|]. by rewrite <- Z.add_assoc.
Qed.
Lemma list_loop_no_panic {A} (p : bytes -> Z -> result E (A * Z)) c n last b o : (forall b o, p b o <> Panic) -> list_loop p c n last b o <> Panic.
Proof using Type.
  intros Hp. revert last o. induction n as [|n IH]; intros last o; [done|]. cbn [list_loop]. specialize (Hp b o).
  destruct (p b o) as [[v o']| |]; [|done|done]. cbn [mbind result_bind]. destruct (c last v); [done|]. specialize (IH (Some v) o').
  by destruct (list_loop p c n (Some v) b o') as [[]| |].
Qed.
(** The count byte in front. *)
Lemma reads_counted {A} (q : bytes -> Z -> result E (Z * Z)) (p : nat -> bytes -> Z -> result E (list A * Z)) enc
    (ok : nat -> list A -> Prop) (bad : Z -> bool) e :
  reads q (fun v => [v]) is_u8 -> (forall n, reads (p n) enc (ok n)) -> (forall n l, ok n l -> length l = n) ->
  (forall l : list A, bad (zlen l) = false -> is_u8 (zlen l)) ->
  reads (fun b o => '(n, o) ← q b o; if bad n then Err e else p (Z.to_nat n) b o) (fun l => zlen l :: enc l)
    (fun l => bad (zlen l) = false /\ ok (length l) l).
Proof using Type.
  intros Hq Hp Hlen Hbad b o l o' Hu Hb Hbo. split.
  - intros ([n o1] & H & Hk)%bind_Ok. apply Hq in H as (Hn & -> & Hs); [|done..]. change (zlen [n]) with 1 in *.
    destruct (bad n) eqn:G; [done|]. apply slice_inv in Hs as Hi. apply Hp in Hk as (Ho & -> & Hs2); [|done|done|lia].
    unfold is_u8 in Hn. pose proof (Hlen _ _ Ho) as Hl. assert (zlen l = n) as Hz by (unfold zlen; lia). rewrite zlen_cons, Hz.
    split; [split; [done|by rewrite Hl]|]. split; [lia|].
    replace (o + (1 + zlen (enc l))) with (o + 1 + zlen (enc l)) by lia. exact (slice_split _ _ _ _ _ _ Hs Hs2).
  - intros ((Hn & Ho) & -> & Hs). apply slice_inv in Hs as Hi. apply (slice_app_inv b [zlen l] (enc l)) in Hs as [H1 H2].
    rewrite (zlen_cons (zlen l) (enc l)) in *. change (zlen [zlen l]) with 1 in *. pose proof (zlen_nonneg (enc l)).
    apply bind_Ok. exists (zlen l, o + 1). split; [apply Hq; [done..|]; split; [by apply Hbad|done]|]. rewrite Hn.
    unfold zlen at 1. rewrite Nat2Z.id. apply Hp; [done|done|lia|]. split; [done|]. split; [lia|].
    replace (o + 1 + zlen (enc l)) with (o + (1 + zlen (enc l))) by lia. exact H2.
Qed.
End Reader.

(** Read the next field of what is left, of which the value is [a]. *)
Ltac rd lem H a Hok :=
  lazymatch goal with HR : rest_at ?bd _ _, Hu : all_u8 ?bd, Hb : zlen ?bd <= U64_MAX |- _ =>
    let rest' := fresh "rest" in let HR' := fresh "HR" in
    eapply (read_then _ _ _ _ _ _ _ _ lem Hu Hb HR) in H; destruct H as (a & rest' & Hok & -> & HR' & H); clear HR; cbv beta in *
  end.
(** Write it. *)
Ltac wr lem a :=
  lazymatch goal with HR : rest_at ?bd ?o _, Hu : all_u8 ?bd, Hb : zlen ?bd <= U64_MAX |- _ =>
    eapply (read_fwd _ _ _ _ _ _ a _ _ lem Hu Hb HR); [|clear HR; intros HR; cbv beta in *]
  end.
