(* ===== verification/Signaling.v ===== *)
(** Canonical signaling records ([cockpit-proto/src/remote_signaling_attempt_store.rs]): the
    event request and the commit acknowledgement, the admission bundle, offer and proof, the
    endpoints' final proofs with the digest of the pair, and the WebRTC and fallback payloads. *)

From S2P Require Import Prelude.
From S2P Require Import ProtocolId.
From S2P Require Import NoisePrologue.
From stdpp Require Import options.
Set Warnings "-clear-no-such-hyp".

(** remote_signaling_attempt_store.rs:4-4 REQUEST_MAGIC. *)
Definition REQUEST_MAGIC : bytes := Eval vm_compute in (ascii_bytes "FCSE").
(** remote_signaling_attempt_store.rs:5-5 ACK_MAGIC. *)
Definition ACK_MAGIC : bytes := Eval vm_compute in (ascii_bytes "FCAK").
(** remote_signaling_attempt_store.rs:6-6 HEADER_BYTES. *)
Definition HEADER_BYTES : Z := 44.
(** remote_signaling_attempt_store.rs:7-7 MAX_REQUEST_BYTES. *)
Definition MAX_REQUEST_BYTES : Z := 131072.
(** remote_signaling_attempt_store.rs:8-8 MAX_PAYLOAD_BYTES. *)
Definition MAX_PAYLOAD_BYTES : Z := MAX_REQUEST_BYTES - HEADER_BYTES.

(** remote_signaling_attempt_store.rs:376-388 SignalingCodecError. *)
Inductive SignalingCodecError := SigLength | SigPreamble | SigDiscriminant | SigZeroId | SigCombination.
#[export] Instance SignalingCodecError_eq_dec : EqDecision SignalingCodecError.
Proof. solve_decision. Defined.
Local Abbreviation res := (result SignalingCodecError).
(** A check that fails with an error. *)
Definition ensure (c : bool) (e : SignalingCodecError) : res unit := if c then Ok tt else Err e.

(** remote_signaling_attempt_store.rs:389-393 nonzero. *)
Definition nonzero (id : bytes) : res unit := ensure (negb (is_all_zero id)) SigZeroId.
(** remote_signaling_attempt_store.rs:10-15 preamble. *)
Definition preamble (b magic : bytes) : res unit :=
  if zlen b <? 5 then Err SigPreamble else
  m ← slice b 0 4;
  if negb (bool_decide (m = magic)) then Err SigPreamble else
  v ← index b 4;
  if negb (v =? 1) then Err SigPreamble else Ok tt.

(** ** Reading fields in turn: the offset after the field is returned with it *)

(** remote_signaling_attempt_store.rs:16-27 take. *)
Definition take_field (b : bytes) (offset size : Z) : res (bytes * Z) :=
  end_ ← ok_or (checked_add offset size) SigLength;
  value ← ok_or (get_range b offset end_) SigLength;
  Ok (value, end_).
(** remote_signaling_attempt_store.rs:28-30 take_u8. *)
Definition take_u8 (b : bytes) (offset : Z) : res (Z * Z) :=
  '(v, offset) ← take_field b offset 1; x ← index v 0; Ok (x, offset).
(** remote_signaling_attempt_store.rs:31-35 take_u16. *)
Definition take_u16 (b : bytes) (offset : Z) : res (Z * Z) :=
  '(v, offset) ← take_field b offset 2; Ok (from_be v, offset).
(** remote_signaling_attempt_store.rs:36-40 take_u64. *)
Definition take_u64 (b : bytes) (offset : Z) : res (Z * Z) :=
  '(v, offset) ← take_field b offset 8; Ok (from_be v, offset).
(** remote_signaling_attempt_store.rs:41-45 take_id. *)
Definition take_id (b : bytes) (offset : Z) : res (bytes * Z) :=
  '(id, offset) ← take_field b offset 16; _ ← nonzero id; Ok (id, offset).
(** remote_signaling_attempt_store.rs:52-58 tuples. The loop. *)
Fixpoint tuples_loop (count : nat) (last : option Z) (b : bytes) (offset : Z) : res (list Z * Z) :=
  match count with
  | O => Ok ([], offset)
  | S count =>
      '(value, offset) ← take_u16 b offset;
      if match last with Some last => value <=? last | None => false end then Err SigCombination else
      '(values, offset) ← tuples_loop count (Some value) b offset;
      Ok (value :: values, offset)
  end.
(** remote_signaling_attempt_store.rs:46-60 tuples. *)
Definition tuples (b : bytes) (offset : Z) : res (list Z * Z) :=
  '(count, offset) ← take_u8 b offset;
  if negb ((1 <=? count) && (count <=? 16)) then Err SigLength else tuples_loop (Z.to_nat count) None b offset.
(** remote_signaling_attempt_store.rs:61-76 signed_body. *)
Definition signed_body (b : bytes) (cap : Z) (magic : bytes) : res bytes :=
  if (zlen b <? 66) || (cap + 66 <? zlen b) then Err SigLength else
  l ← slice b 0 2;
  let length := from_be l in
  if (cap <? length) || negb (length + 66 =? zlen b) then Err SigLength else
  body ← slice b 2 (2 + length);
  _ ← preamble body magic;
  Ok body.
(** A field that may be absent: a zero byte, or a one and 32 bytes. *)
Definition take_optional_digest (b : bytes) (offset : Z) : res (option bytes * Z) :=
  '(tag, offset) ← take_u8 b offset;
  if tag =? 0 then Ok (None, offset) else
  if tag =? 1 then '(d, offset) ← take_field b offset 32; Ok (Some d, offset) else Err SigDiscriminant.
(** A positive counter. *)
Definition take_positive (b : bytes) (offset : Z) : res (Z * Z) :=
  '(v, offset) ← take_u64 b offset; if v =? 0 then Err SigCombination else Ok (v, offset).
(** [u64 as i64]. *)
Definition as_i64 (v : Z) : Z := if v <? 2 ^ 63 then v else v - 2 ^ 64.

(** ** Admission *)

(** A nonempty segment of at most [cap] bytes behind its length. *)
Definition take_segment (cap : Z) (b : bytes) (offset : Z) : res (bytes * Z) :=
  '(n, offset) ← take_u16 b offset;
  if (n =? 0) || (cap <? n) then Err SigLength else take_field b offset n.
(** remote_signaling_attempt_store.rs:85-91 validate_fcab. The five segments. *)
Fixpoint take_segments (caps : list Z) (b : bytes) (offset : Z) : res Z :=
  match caps with
  | [] => Ok offset
  | cap :: caps => '(_, offset) ← take_segment cap b offset; take_segments caps b offset
  end.
(** remote_signaling_attempt_store.rs:78-107 validate_fcab. *)
Definition validate_fcab (b : bytes) : res bytes :=
  if 98304 <? zlen b then Err SigLength else
  _ ← preamble b (ascii_bytes "FCAB");
  '(child, o) ← take_id b 5;
  o ← take_segments [8192; 4096; 4096; 16384; 16384] b o;
  '(tag, o) ← take_u8 b o;
  o ← (if tag =? 0 then Ok o else
       if tag =? 1 then '(_, o) ← take_segment 16384 b o; Ok o else Err SigDiscriminant);
  if negb (o =? zlen b) then Err SigLength else Ok child.
(** remote_signaling_attempt_store.rs:108-148 validate_fcdo. *)
Definition validate_fcdo (b : bytes) : res bytes :=
  body ← signed_body b 328 (ascii_bytes "FCDO");
  '(_, o) ← take_id body 5;
  '(_, o) ← take_id body o;
  '(_, o) ← take_positive body o;
  '(_, o) ← take_id body o;
  '(_, o) ← take_positive body o;
  '(_, o) ← take_id body o;
  '(child, o) ← take_id body o;
  '(_, o) ← take_id body o;
  '(_, o) ← take_field body o 32;
  '(_, o) ← take_field body o 32;
  '(_, o) ← take_positive body o;
  '(_, o) ← take_positive body o;
  '(_, o) ← take_field body o 32;
  '(_, o) ← take_optional_digest body o;
  '(bits, o) ← take_u8 body o;
  if (bits =? 0) || (3 <? bits) then Err SigDiscriminant else
  '(_, o) ← tuples body o;
  '(_, o) ← take_id body o;
  '(issued, o) ← take_u64 body o;
  '(expires, o) ← take_u64 body o;
  if (as_i64 expires <=? as_i64 issued) || negb (o =? zlen body) then Err SigCombination else Ok child.
(** remote_signaling_attempt_store.rs:149-152 daemon_admission_offer_digest. *)
Definition daemon_admission_offer_digest `{Sha256} (b : bytes) : res bytes := _ ← validate_fcdo b; Ok (sha256 b).
(** remote_signaling_attempt_store.rs:153-198 validate_fccp. *)
Definition validate_fccp (b : bytes) : res bytes :=
  body ← signed_body b 443 (ascii_bytes "FCCP");
  '(_, o) ← take_id body 5;
  '(_, o) ← take_id body o;
  '(_, o) ← take_id body o;
  '(_, o) ← take_positive body o;
  '(_, o) ← take_id body o;
  '(_, o) ← take_positive body o;
  '(_, o) ← take_id body o;
  '(child, o) ← take_id body o;
  '(_, o) ← take_id body o;
  '(_, o) ← take_field body o 32;
  '(_, o) ← take_field body o 32;
  '(_, o) ← take_id body o;
  '(t, o) ← take_u8 body o;
  if negb ((t =? 1) || (t =? 2)) then Err SigDiscriminant else
  '(client, o) ← tuples body o;
  '(daemon, o) ← tuples body o;
  '(selected, o) ← take_u16 body o;
  if negb (bool_decide (selected ∈ client)) || negb (bool_decide (selected ∈ daemon)) then Err SigCombination else
  '(_, o) ← take_field body o 32;
  '(_, o) ← take_optional_digest body o;
  '(_, o) ← take_field body o 32;
  '(_, o) ← take_field body o 32;
  '(issued, o) ← take_u64 body o;
  '(expires, o) ← take_u64 body o;
  '(_, o) ← take_id body o;
  if (as_i64 expires <=? as_i64 issued) || negb (o =? zlen body) then Err SigCombination else Ok child.

(** ** Final proofs *)

(** remote_signaling_attempt_store.rs:200-207 RemoteEndpointFinalProofV1. *)
Record RemoteEndpointFinalProofV1 := mkFinalProof {
  fp_role : Z; fp_transport : Z; fp_child_attempt_id : bytes; fp_proof_jti : bytes; fp_agreement : bytes }.
#[export] Instance RemoteEndpointFinalProofV1_eq_dec : EqDecision RemoteEndpointFinalProofV1.
Proof. solve_decision. Defined.
(** A discriminant that is one or two. *)
Definition one_or_two (x : Z) : bool := (x =? 1) || (x =? 2).
(** remote_signaling_attempt_store.rs:209-244 RemoteEndpointFinalProofV1::decode. *)
Definition final_proof_decode (b : bytes) : res RemoteEndpointFinalProofV1 :=
  if negb (zlen b =? 313) then Err SigLength else
  _ ← preamble b (ascii_bytes "FCFP");
  role ← index b 5;
  transport ← index b 6;
  if negb (one_or_two role) || negb (one_or_two transport) then Err SigDiscriminant else
  child ← slice b 7 23;
  _ ← nonzero child;
  epoch ← slice b 23 39;
  _ ← nonzero epoch;
  sequence ← slice b 39 47;
  binding_length ← slice b 111 113;
  if (from_be sequence =? 0) || negb (from_be binding_length =? 96) then Err SigCombination else
  proof_jti ← slice b 209 225;
  _ ← nonzero proof_jti;
  cert ← slice b 225 241;
  _ ← nonzero cert;
  generation ← slice b 241 249;
  if from_be generation =? 0 then Err SigCombination else
  a1 ← slice b 7 111;
  a2 ← slice b 113 209;
  Ok (mkFinalProof role transport child proof_jti ([transport] ++ a1 ++ a2)).

(** ** WebRTC and fallback payloads *)

(** [str::from_utf8]: well-formed UTF-8, by the length and the allowed second byte of each lead byte. *)
Definition is_cont (x : Z) : bool := (128 <=? x) && (x <=? 191).
Fixpoint utf8_valid (fuel : nat) (b : bytes) : bool :=
  match fuel, b with
  | _, [] => true
  | O, _ => false
  | S fuel, x :: r =>
      if x <? 128 then utf8_valid fuel r else
      match r with
      | y :: r2 =>
          if (194 <=? x) && (x <=? 223) then is_cont y && utf8_valid fuel r2 else
          match r2 with
          | z :: r3 =>
              if (224 <=? x) && (x <=? 239) then
                is_cont y && is_cont z && negb ((x =? 224) && (y <? 160)) && negb ((x =? 237) && (159 <? y)) && utf8_valid fuel r3
              else
                match r3 with
                | w :: r4 =>
                    (240 <=? x) && (x <=? 244) && is_cont y && is_cont z && is_cont w && negb ((x =? 240) && (y <? 144)) &&
                    negb ((x =? 244) && (143 <? y)) && utf8_valid fuel r4
                | [] => false
                end
          | [] => false
          end
      | [] => false
      end
  end.
Definition from_utf8 (b : bytes) : bool := utf8_valid (length b) b.
(** [replace("\r\n", "")]. *)
Fixpoint without_crlf (b : bytes) : bytes :=
  match b with
  | 13 :: ((10 :: r) as _) => without_crlf r
  | x :: r => x :: without_crlf r
  | [] => []
  end.
(** [contains("  ")]. *)
Fixpoint has_double_space (b : bytes) : bool :=
  match b with 32 :: ((32 :: _) as _) => true | _ :: r => has_double_space r | [] => false end.
(** [starts_with] and [ends_with]. *)
Definition starts_with (p b : bytes) : bool := bool_decide (take (length p) b = p).
Definition ends_with (p b : bytes) : bool := bool_decide (drop (length b - length p) b = p).

(** remote_signaling_attempt_store.rs:247-276 validate_webrtc_description. *)
Definition validate_webrtc_description (b : bytes) (answer : bool) : res bytes :=
  if (zlen b <? 59) || (122938 <? zlen b) then Err SigLength else
  _ ← preamble b (if answer then ascii_bytes "FCWN" else ascii_bytes "FCWO");
  role ← index b 5;
  if negb (role =? (if answer then 2 else 1)) then Err SigCombination else
  child ← slice b 6 22;
  _ ← nonzero child;
  a ← slice b 22 38; _ ← nonzero a;
  c ← slice b 38 54; _ ← nonzero c;
  l ← slice b 54 58;
  let length := from_be l in
  if negb ((1 <=? length) && (length <=? 122880)) || negb (58 + length =? zlen b) then Err SigLength else
  sdp ← slice_from b 58;
  if negb (from_utf8 sdp) then Err SigCombination else
  if starts_with [239; 187; 191] sdp || bool_decide (0 ∈ sdp) || negb (ends_with [13; 10] sdp)
     || bool_decide (13 ∈ without_crlf sdp) || bool_decide (10 ∈ without_crlf sdp)
  then Err SigCombination else Ok child.
(** remote_signaling_attempt_store.rs:278-314 validate_webrtc_candidate. *)
Definition validate_webrtc_candidate (b : bytes) : res bytes :=
  if negb ((61 <=? zlen b) && (zlen b <=? 4096)) then Err SigLength else
  _ ← preamble b (ascii_bytes "FCWC");
  role ← index b 5;
  if negb (one_or_two role) then Err SigDiscriminant else
  child ← slice b 6 22;
  _ ← nonzero child;
  a ← slice b 22 38; _ ← nonzero a;
  c ← slice b 38 54; _ ← nonzero c;
  mid_len ← index b 54;
  if (mid_len =? 0) || (zlen b <? 59 + mid_len) then Err SigLength else
  mid ← slice b 55 (55 + mid_len);
  if negb (forallb (fun x => (33 <=? x) && (x <=? 126)) mid) then Err SigCombination else
  l ← slice b (57 + mid_len) (59 + mid_len);
  let candidate_len := from_be l in
  if negb (59 + mid_len + candidate_len =? zlen b) then Err SigLength else
  candidate ← slice_from b (59 + mid_len);
  if negb (from_utf8 candidate) then Err SigCombination else
  if negb (starts_with (ascii_bytes "candidate:") candidate) || starts_with [32] candidate || ends_with [32] candidate
     || has_double_space candidate || negb (forallb (fun x => (32 <=? x) && (x <=? 126)) candidate)
  then Err SigCombination else Ok child.
(** remote_signaling_attempt_store.rs:315-327 validate_webrtc_ice_complete. *)
Definition validate_webrtc_ice_complete (b : bytes) : res bytes :=
  if negb (zlen b =? 38) then Err SigLength else
  _ ← preamble b (ascii_bytes "FCWE");
  role ← index b 5;
  if negb (one_or_two role) then Err SigDiscriminant else
  child ← slice b 6 22;
  _ ← nonzero child;
  a ← slice b 22 38; _ ← nonzero a;
  Ok child.
(** remote_signaling_attempt_store.rs:333-337 validate_fallback_pair. The five counters. *)
Fixpoint check_counters (n : nat) (b : bytes) : res unit :=
  match n with
  | O => Ok tt
  | S n => if from_be (take 8 b) =? 0 then Err SigCombination else check_counters n (drop 8 b)
  end.
(** remote_signaling_attempt_store.rs:328-339 validate_fallback_pair. *)
Definition validate_fallback_pair (b : bytes) : res unit :=
  if negb (zlen b =? 88) then Err SigLength else
  id ← slice b 0 16; _ ← nonzero id;
  counters ← slice b 16 56;
  check_counters 5 counters.
(** remote_signaling_attempt_store.rs:340-352 validate_fallback_noise. *)
Definition validate_fallback_noise (b : bytes) : res unit :=
  if negb (zlen b =? 121) then Err SigLength else
  role ← index b 0;
  if negb (one_or_two role) then Err SigDiscriminant else
  id ← slice b 1 17; _ ← nonzero id;
  c ← slice b 17 25;
  if from_be c =? 0 then Err SigCombination else Ok tt.
(** remote_signaling_attempt_store.rs:353-359 validate_ready. *)
Definition validate_ready (b : bytes) : res unit :=
  if negb (zlen b =? 48) then Err SigLength else
  id ← slice b 0 16; _ ← nonzero id; Ok tt.

(** ** Event requests and acknowledgements *)

(** remote_signaling_attempt_store.rs:361-369 RemoteSignalingEventRequestV1. *)
Record RemoteSignalingEventRequestV1 := mkEventRequest {
  er_transport : Z; er_producer_role : Z; er_event_kind : Z; er_child_attempt_id : bytes; er_event_id : bytes; er_payload : bytes }.
(** remote_signaling_attempt_store.rs:370-375 RemoteSignalingCommitAckV1. *)
Record RemoteSignalingCommitAckV1 := mkCommitAck { ka_event_id : bytes; ka_sequence : Z; ka_event_digest : bytes }.
(** remote_signaling_attempt_store.rs:394-412 combination. *)
Definition combination (transport role kind : Z) : res unit :=
  ensure
    match kind with
    | 1 => role =? 1
    | 2 => role =? 3
    | 3 => role =? 2
    | 4 => (transport =? 1) && (role =? 2)
    | 5 => (transport =? 1) && (role =? 3)
    | 8 => (transport =? 2) && (role =? 1)
    | 9 => (transport =? 2) && ((role =? 2) || (role =? 3))
    | 10 => role =? 2
    | 11 => role =? 3
    | 6 | 7 => (transport =? 1) && ((role =? 2) || (role =? 3))
    | 12 | 14 => (role =? 2) || (role =? 3)
    | 13 => (role =? 1) || (role =? 3)
    | 15 => role =? 1
    | _ => true
    end SigCombination.
(** remote_signaling_attempt_store.rs:413-442 terminal_payload. *)
Definition terminal_payload (r : RemoteSignalingEventRequestV1) : res unit :=
  match er_event_kind r with
  | 13 | 14 =>
      if negb (zlen (er_payload r) =? 2) then Err SigLength else
      v ← index (er_payload r) 0;
      if negb (v =? 1) then Err SigLength else
      reason ← index (er_payload r) 1;
      let allowed := if er_event_kind r =? 13 then [1; 2; 3; 4; 6; 7; 9; 10; 11] else [4; 5; 7; 8; 9; 10; 11] in
      if negb (bool_decide (reason ∈ allowed)) then Err SigCombination else Ok tt
  | 15 =>
      if negb (zlen (er_payload r) =? 16) then Err SigLength else
      _ ← nonzero (er_payload r);
      if bool_decide (er_payload r = er_child_attempt_id r) then Err SigCombination else Ok tt
  | _ => Ok tt
  end.
(** The ranges of the three discriminants. *)
Definition discriminants_ok (r : RemoteSignalingEventRequestV1) : bool :=
  (1 <=? er_transport r) && (er_transport r <=? 2) && (1 <=? er_producer_role r) && (er_producer_role r <=? 3) &&
  (1 <=? er_event_kind r) && (er_event_kind r <=? 15).
(** remote_signaling_attempt_store.rs:444-469 RemoteSignalingEventRequestV1::encode. *)
Definition request_encode (r : RemoteSignalingEventRequestV1) : res bytes :=
  if negb (discriminants_ok r) then Err SigDiscriminant else
  _ ← nonzero (er_child_attempt_id r);
  _ ← nonzero (er_event_id r);
  _ ← combination (er_transport r) (er_producer_role r) (er_event_kind r);
  _ ← terminal_payload r;
  if MAX_PAYLOAD_BYTES <? zlen (er_payload r) then Err SigLength else
  Ok (REQUEST_MAGIC ++ [1; er_transport r; er_producer_role r; er_event_kind r] ++ er_child_attempt_id r ++ er_event_id r
        ++ to_be 4 (zlen (er_payload r)) ++ er_payload r).
(** remote_signaling_attempt_store.rs:470-500 RemoteSignalingEventRequestV1::decode. *)
Definition request_decode (b : bytes) : res RemoteSignalingEventRequestV1 :=
  if (zlen b <? HEADER_BYTES) || (MAX_REQUEST_BYTES <? zlen b) then Err SigLength else
  m ← slice b 0 4;
  v ← index b 4;
  if negb (bool_decide (m = REQUEST_MAGIC)) || negb (v =? 1) then Err SigPreamble else
  l ← slice b 40 44;
  let length := from_be l in
  if (MAX_PAYLOAD_BYTES <? length) || negb (HEADER_BYTES + length =? zlen b) then Err SigLength else
  transport ← index b 5;
  producer_role ← index b 6;
  event_kind ← index b 7;
  child_attempt_id ← slice b 8 24;
  event_id ← slice b 24 40;
  payload ← slice_from b 44;
  let r := mkEventRequest transport producer_role event_kind child_attempt_id event_id payload in
  if negb (discriminants_ok r) then Err SigDiscriminant else
  _ ← nonzero (er_child_attempt_id r);
  _ ← nonzero (er_event_id r);
  _ ← combination (er_transport r) (er_producer_role r) (er_event_kind r);
  _ ← terminal_payload r;
  Ok r.
(** remote_signaling_attempt_store.rs:501-507 RemoteSignalingEventRequestV1::digest. *)
Definition request_digest `{Sha256} (b : bytes) : res bytes :=
  _ ← request_decode b;
  Ok (hasher_finalize (hasher_update (hasher_update hasher_new (ascii_bytes "flycockpit.remote.signaling-event-request.v1" ++ [0])) b)).
(** remote_signaling_attempt_store.rs:510-522 RemoteSignalingCommitAckV1::encode. *)
Definition commit_ack_encode (a : RemoteSignalingCommitAckV1) : res bytes :=
  _ ← nonzero (ka_event_id a);
  if ka_sequence a =? 0 then Err SigLength else
  Ok (ACK_MAGIC ++ [1] ++ ka_event_id a ++ to_be 8 (ka_sequence a) ++ ka_event_digest a).
(** remote_signaling_attempt_store.rs:523-540 RemoteSignalingCommitAckV1::decode. *)
Definition commit_ack_decode (b : bytes) : res RemoteSignalingCommitAckV1 :=
  if negb (zlen b =? 61) then Err SigLength else
  m ← slice b 0 4;
  v ← index b 4;
  if negb (bool_decide (m = ACK_MAGIC)) || negb (v =? 1) then Err SigPreamble else
  event_id ← slice b 5 21;
  sequence ← slice b 21 29;
  event_digest ← slice b 29 61;
  _ ← nonzero event_id;
  if from_be sequence =? 0 then Err SigLength else
  Ok (mkCommitAck event_id (from_be sequence) event_digest).

(** The bytes the digest of a pair of proofs is taken of, in the order they are fed. *)
Definition final_proof_set_parts (client daemon : bytes) : list bytes :=
  [ascii_bytes "flycockpit.remote.endpoint-final-proof-set.v1" ++ [0]; to_be 2 (zlen client); client; to_be 2 (zlen daemon); daemon].
(** remote_signaling_attempt_store.rs:543-565 final_proof_set_digest. *)
Definition final_proof_set_digest `{Sha256} (client daemon : bytes) : res bytes :=
  if (zlen client =? 0) || (512 <? zlen client) || (zlen daemon =? 0) || (512 <? zlen daemon) then Err SigLength else
  c ← final_proof_decode client;
  d ← final_proof_decode daemon;
  if negb (fp_role c =? 1) || negb (fp_role d =? 2) || negb (bool_decide (fp_agreement c = fp_agreement d))
  then Err SigCombination else
  Ok (hasher_finalize (foldl hasher_update hasher_new (final_proof_set_parts client daemon))).
