(* ===== verification/SignalingProps.v ===== *)
(** What the signaling codecs guarantee: no input makes a decoder or validator panic, requests
    and acknowledgements have one encoding each, the admission envelopes are exactly their
    documented layouts, and the digest of a pair of final proofs determines the pair. *)

From S2P Require Import Prelude.
From S2P Require Import ProtocolId.
From S2P Require Import NoiseRecord.
From S2P Require Import NoisePrologue.
From S2P Require Import Signaling.
From stdpp Require Import options.
Set Warnings "-clear-no-such-hyp".

Local Abbreviation res := (result SignalingCodecError).

(** ** No panics *)

Lemma nonzero_no_panic id : nonzero id <> Panic.
Proof. unfold nonzero, ensure. by destruct (negb _). Qed.
Lemma preamble_no_panic b m : preamble b m <> Panic.
Proof.
  unfold preamble. destruct (zlen b <? 5) eqn:H; [done|]. apply Z.ltb_ge in H.
  repeat no_panic1; first [apply slice_no_panic; lia|apply index_no_panic; lia].
Qed.
Lemma take_field_no_panic b o n : take_field b o n <> Panic.
Proof. unfold take_field, get_range. destruct (checked_add o n); [|done]. cbn. by destruct (slice b o z). Qed.
Lemma take_field_inv b o n v o' : take_field b o n = Ok (v, o') -> o' = o + n /\ slice (E:=SignalingCodecError) b o (o + n) = Ok v.
Proof.
  unfold take_field, checked_add, get_range. destruct (_ <=? U64_MAX); [|done]. cbn.
  unfold slice. case_decide; cbn; [|done]. by intros [= <- <-].
Qed.
Ltac panic_field :=
  apply take_field_no_panic || apply nonzero_no_panic || apply preamble_no_panic.
Ltac no_panic :=
  repeat (no_panic1 || match goal with |- context [let '(_, _) := ?x in _] => destruct x end);
  try panic_field.
Lemma take_u8_no_panic b o : take_u8 b o <> Panic.
Proof.
  unfold take_u8. intros H. apply bind_Panic in H as [H|([v o'] & H & H')]; [by apply take_field_no_panic in H|].
  apply take_field_inv in H as [-> H]. apply slice_inv in H as [Hl _].
  apply bind_Panic in H' as [H'|(x & _ & H')]; [|done]. revert H'. apply index_no_panic. lia.
Qed.
Lemma take_u16_no_panic b o : take_u16 b o <> Panic.
Proof. unfold take_u16. no_panic. Qed.
Lemma take_u64_no_panic b o : take_u64 b o <> Panic.
Proof. unfold take_u64. no_panic. Qed.
Lemma take_id_no_panic b o : take_id b o <> Panic.
Proof. unfold take_id. no_panic. Qed.
Lemma tuples_loop_no_panic n last b o : tuples_loop n last b o <> Panic.
Proof.
  revert last o. induction n as [|n IH]; intros last o; cbn [tuples_loop]; [done|].
  no_panic; first [apply take_u16_no_panic|apply IH].
Qed.
Lemma tuples_no_panic b o : tuples b o <> Panic.
Proof. unfold tuples. no_panic; first [apply take_u8_no_panic|apply tuples_loop_no_panic]. Qed.
Lemma take_optional_digest_no_panic b o : take_optional_digest b o <> Panic.
Proof. unfold take_optional_digest. no_panic; apply take_u8_no_panic. Qed.
Lemma take_positive_no_panic b o : take_positive b o <> Panic.
Proof. unfold take_positive. no_panic; apply take_u64_no_panic. Qed.
Lemma take_segment_no_panic cap b o : take_segment cap b o <> Panic.
Proof. unfold take_segment. no_panic; apply take_u16_no_panic. Qed.
Lemma take_segments_no_panic caps b o : take_segments caps b o <> Panic.
Proof.
  revert o. induction caps as [|cap caps IH]; intros o; cbn [take_segments]; [done|].
  no_panic; first [apply take_segment_no_panic|apply IH].
Qed.
Lemma from_be_nonneg l : all_u8 l -> 0 <= from_be l.
Proof. intros H. by apply from_be_bound. Qed.
Lemma signed_body_no_panic b cap magic : all_u8 b -> signed_body b cap magic <> Panic.
Proof.
  intros Hu. unfold signed_body. destruct (_ || _) eqn:G; [done|]. apply orb_false_iff in G as [G _]. apply Z.ltb_ge in G.
  destruct (slice b 0 2) as [l| |] eqn:Hl; [|done|by apply slice_no_panic in Hl; lia]. rewrite bind_Ok_l. cbv zeta.
  apply slice_u8 in Hl as Hlu; [|done]. pose proof (from_be_nonneg l Hlu).
  destruct (_ || _) eqn:G2; [done|]. apply orb_false_iff in G2 as [_ G2]. apply negb_false_iff, Z.eqb_eq in G2.
  no_panic. apply slice_no_panic; lia.
Qed.
Ltac no_panic_fields :=
  no_panic; first [ apply take_id_no_panic | apply take_positive_no_panic | apply take_u8_no_panic | apply take_u16_no_panic
    | apply take_u64_no_panic | apply tuples_no_panic | apply take_optional_digest_no_panic | apply take_segment_no_panic
    | apply take_segments_no_panic | by apply signed_body_no_panic ].
Lemma validate_fcab_no_panic b : validate_fcab b <> Panic.
Proof. unfold validate_fcab. no_panic_fields. Qed.
Lemma validate_fcdo_no_panic b : all_u8 b -> validate_fcdo b <> Panic.
Proof. intros Hu. unfold validate_fcdo. no_panic_fields. Qed.
Lemma validate_fccp_no_panic b : all_u8 b -> validate_fccp b <> Panic.
Proof. intros Hu. unfold validate_fccp. no_panic_fields. Qed.

(** Slices and single bytes within a length known from a guard. *)
Ltac no_panic_slices :=
  no_panic; first [ apply slice_no_panic; lia | apply index_no_panic; lia ].
Ltac length_guard G :=
  match goal with |- (if ?c then _ else _) <> Panic => destruct c eqn:G; [discriminate|] end;
  try apply negb_false_iff in G; try apply Z.eqb_eq in G.
Lemma final_proof_no_panic b : final_proof_decode b <> Panic.
Proof. unfold final_proof_decode. length_guard G. no_panic_slices. Qed.
Lemma webrtc_ice_complete_no_panic b : validate_webrtc_ice_complete b <> Panic.
Proof. unfold validate_webrtc_ice_complete. length_guard G. no_panic_slices. Qed.
Lemma check_counters_no_panic n b : check_counters n b <> Panic.
Proof. revert b. induction n as [|n IH]; intros b; cbn [check_counters]; [done|]. destruct (_ =? _); [done|apply IH]. Qed.
Lemma fallback_pair_no_panic b : validate_fallback_pair b <> Panic.
Proof.
  unfold validate_fallback_pair. length_guard G. no_panic; first [apply check_counters_no_panic|apply slice_no_panic; lia].
Qed.
Lemma fallback_noise_no_panic b : validate_fallback_noise b <> Panic.
Proof. unfold validate_fallback_noise. length_guard G. no_panic_slices. Qed.
Lemma ready_no_panic b : validate_ready b <> Panic.
Proof. unfold validate_ready. length_guard G. no_panic_slices. Qed.
Lemma webrtc_description_no_panic b answer : validate_webrtc_description b answer <> Panic.
Proof.
  unfold validate_webrtc_description, slice_from. length_guard G. apply orb_false_iff in G as [G _]. apply Z.ltb_ge in G.
  no_panic_slices.
Qed.
Lemma webrtc_candidate_no_panic b : all_u8 b -> validate_webrtc_candidate b <> Panic.
Proof.
  intros Hu. unfold validate_webrtc_candidate, slice_from. length_guard G. apply andb_true_iff in G as [G _]. apply Z.leb_le in G.
  no_panic; try (apply slice_no_panic; lia); try (apply index_no_panic; lia);
    match goal with H : index b 54 = Ok _ |- _ => apply index_u8 in H; [unfold is_u8 in H|done] end;
    match goal with H : (_ =? 0) || (_ <? 59 + _) = false |- _ => apply orb_false_iff in H as [_ H]; apply Z.ltb_ge in H end;
    apply slice_no_panic; lia.
Qed.
Lemma combination_no_panic t r k : combination t r k <> Panic.
Proof. unfold combination, ensure. by destruct (match k with Z0 => _ | _ => _ end). Qed.
Lemma terminal_payload_no_panic r : terminal_payload r <> Panic.
Proof.
  unfold terminal_payload. set (reasoned := if negb (zlen _ =? 2) then _ else _). set (replaced := if negb (zlen _ =? 16) then _ else _).
  assert (reasoned <> Panic) by (subst reasoned; length_guard G; no_panic_slices).
  assert (replaced <> Panic) by (subst replaced; length_guard G; no_panic).
  clearbody reasoned replaced. repeat case_match; done.
Qed.
Lemma request_decode_no_panic b : request_decode b <> Panic.
Proof.
  unfold request_decode, slice_from, HEADER_BYTES. length_guard G. apply orb_false_iff in G as [G _]. apply Z.ltb_ge in G.
  no_panic; first [apply slice_no_panic; lia|apply index_no_panic; lia|apply combination_no_panic|apply terminal_payload_no_panic].
Qed.
Lemma commit_ack_decode_no_panic b : commit_ack_decode b <> Panic.
Proof. unfold commit_ack_decode. length_guard G. no_panic_slices. Qed.

(** ** Requests and acknowledgements *)

(** Identifiers of sixteen bytes, by their types. *)
Definition request_typed (r : RemoteSignalingEventRequestV1) : Prop :=
  zlen (er_child_attempt_id r) = 16 /\ zlen (er_event_id r) = 16.
Definition ack_typed (a : RemoteSignalingCommitAckV1) : Prop :=
  zlen (ka_event_id a) = 16 /\ is_u64 (ka_sequence a) /\ zlen (ka_event_digest a) = 32.

(** The checks both directions make. *)
Definition request_checks (r : RemoteSignalingEventRequestV1) : res unit :=
  if negb (discriminants_ok r) then Err SigDiscriminant else
  _ ← nonzero (er_child_attempt_id r);
  _ ← nonzero (er_event_id r);
  _ ← combination (er_transport r) (er_producer_role r) (er_event_kind r);
  terminal_payload r.
Definition request_bytes (r : RemoteSignalingEventRequestV1) : bytes :=
  REQUEST_MAGIC ++ [1; er_transport r; er_producer_role r; er_event_kind r] ++ er_child_attempt_id r ++ er_event_id r
    ++ to_be 4 (zlen (er_payload r)) ++ er_payload r.
(** A check that passes is dropped in front of what follows. *)
Lemma checks_then {A} r (k : res A) :
  (if negb (discriminants_ok r) then Err SigDiscriminant else
   _ ← nonzero (er_child_attempt_id r);
   _ ← nonzero (er_event_id r);
   _ ← combination (er_transport r) (er_producer_role r) (er_event_kind r);
   _ ← terminal_payload r; k) = (_ ← request_checks r; k).
Proof.
  unfold request_checks. destruct (negb _); [done|].
  destruct (nonzero (er_child_attempt_id r)); cbn [mbind result_bind]; [|done..].
  destruct (nonzero (er_event_id r)); cbn [mbind result_bind]; [|done..].
  by destruct (combination _ _ _); cbn [mbind result_bind].
Qed.
Lemma request_encode_spec r b :
  request_encode r = Ok b <-> request_checks r = Ok tt /\ zlen (er_payload r) <= MAX_PAYLOAD_BYTES /\ b = request_bytes r.
Proof.
  unfold request_encode. rewrite checks_then. split.
  - intros ([] & Hc & H)%bind_Ok. destruct (_ <? _) eqn:G; [done|]. apply Z.ltb_ge in G. by injection H as <-.
  - intros (Hc & Hl & ->). rewrite Hc. cbn [mbind result_bind]. by rewrite (proj2 (Z.ltb_ge _ _)).
Qed.
Lemma request_decode_encode r b : request_typed r -> request_encode r = Ok b -> request_decode b = Ok r.
Proof.
  intros [Lc Le] (Hc & Hl & ->)%request_encode_spec. unfold MAX_PAYLOAD_BYTES, MAX_REQUEST_BYTES, HEADER_BYTES in Hl.
  assert (zlen (request_bytes r) = 44 + zlen (er_payload r)) as Hb
    by (unfold request_bytes; change REQUEST_MAGIC with [70; 67; 83; 69]; zlen_solve).
  pose proof (zlen_nonneg (er_payload r)).
  unfold request_decode, slice_from. rewrite Hb. unfold HEADER_BYTES, MAX_REQUEST_BYTES, MAX_PAYLOAD_BYTES.
  rewrite (proj2 (Z.ltb_ge _ _)), (proj2 (Z.ltb_ge _ _)) by lia. cbn [orb].
  unfold request_bytes. change REQUEST_MAGIC with [70; 67; 83; 69].
  replace (slice _ 0 4) with (@Ok SignalingCodecError bytes [70; 67; 83; 69]) by (symmetry; read_field; done). rewrite bind_Ok_l.
  cbn [app]. change (index _ 4) with (@Ok SignalingCodecError Z 1). rewrite bind_Ok_l.
  rewrite bool_decide_true by done. cbn [negb orb Z.eqb Pos.eqb].
  replace (slice _ 40 44) with (@Ok SignalingCodecError bytes (to_be 4 (zlen (er_payload r)))) by (symmetry; read_field; done).
  rewrite bind_Ok_l. cbv zeta. rewrite from_be_to_be_small by (change (256 ^ Z.of_nat 4) with 4294967296; lia).
  unfold MAX_REQUEST_BYTES, HEADER_BYTES. rewrite (proj2 (Z.ltb_ge _ _)) by lia. rewrite Z.eqb_refl. cbn [negb orb].
  change (index _ 5) with (@Ok SignalingCodecError Z (er_transport r)). rewrite bind_Ok_l.
  change (index _ 6) with (@Ok SignalingCodecError Z (er_producer_role r)). rewrite bind_Ok_l.
  change (index _ 7) with (@Ok SignalingCodecError Z (er_event_kind r)). rewrite bind_Ok_l.
  replace (slice _ 8 24) with (@Ok SignalingCodecError bytes (er_child_attempt_id r)) by (symmetry; read_field; done). rewrite bind_Ok_l.
  replace (slice _ 24 40) with (@Ok SignalingCodecError bytes (er_event_id r)) by (symmetry; read_field; done). rewrite bind_Ok_l.
  replace (slice _ 44 _) with (@Ok SignalingCodecError bytes (er_payload r)) by (symmetry; read_field; done). rewrite bind_Ok_l.
  rewrite checks_then. destruct r. cbn in *. by rewrite Hc.
Qed.
Lemma request_decode_inv r b : all_u8 b -> request_decode b = Ok r -> request_typed r /\ request_encode r = Ok b.
Proof.
  intros Hu Hd. unfold request_decode, slice_from in Hd. ok_inv1 Hd. apply orb_false_iff in G as [G1 G2].
  apply Z.ltb_ge in G1, G2. unfold HEADER_BYTES, MAX_REQUEST_BYTES in *.
  apply bind_Ok in Hd as (m & M & Hd). apply bind_Ok in Hd as (v & V & Hd). ok_inv1 Hd.
  apply orb_false_iff in G as [Gm Gv]. apply negb_false_iff in Gm, Gv. apply bool_decide_eq_true in Gm. apply Z.eqb_eq in Gv. subst m v.
  apply bind_Ok in Hd as (l & L & Hd). cbv zeta in Hd. ok_inv1 Hd. apply orb_false_iff in G as [Gp Gl].
  apply Z.ltb_ge in Gp. apply negb_false_iff, Z.eqb_eq in Gl.
  apply bind_Ok in Hd as (t & T & Hd). apply bind_Ok in Hd as (p & P & Hd). apply bind_Ok in Hd as (k & K & Hd).
  apply bind_Ok in Hd as (c & C & Hd). apply bind_Ok in Hd as (e & E & Hd). apply bind_Ok in Hd as (pl & PL & Hd).
  rewrite checks_then in Hd. apply bind_Ok in Hd as ([] & Hc & Hd). injection Hd as <-.
  destruct (be_field _ _ _ 4 _ Hu L ltac:(lia)) as [FL _].
  apply slice_inv in C as HC. apply slice_inv in E as HE. apply slice_inv in PL as HPL.
  split; [split; cbn; lia|]. apply request_encode_spec. split; [exact Hc|].
  assert (zlen pl = from_be l) as Hpl by lia. split; [cbn; lia|]. unfold request_bytes. cbn [er_transport er_producer_role er_event_kind
    er_child_attempt_id er_event_id er_payload]. rewrite Hpl, FL. apply index_inv in V, T, P, K.
  cbn [Z.add Pos.add Pos.succ Pos.add_carry] in *.
  pose proof (slice_split _ _ _ _ _ _ M (slice_split _ _ _ _ _ _ V (slice_split _ _ _ _ _ _ T (slice_split _ _ _ _ _ _ P
    (slice_split _ _ _ _ _ _ K (slice_split _ _ _ _ _ _ C (slice_split _ _ _ _ _ _ E (slice_split _ _ _ _ _ _ L PL)))))))) as HH.
  rewrite slice_all in HH by (done || lia). apply Ok_inj in HH. by rewrite <- HH.
Qed.

Lemma commit_ack_decode_encode a b : ack_typed a -> commit_ack_encode a = Ok b -> commit_ack_decode b = Ok a.
Proof.
  intros (Le & Hs & Ld) (u & Hn & H)%bind_Ok. destruct (ka_sequence a =? 0) eqn:G; [done|]. apply Ok_inj in H. subst b.
  unfold commit_ack_decode. change ACK_MAGIC with [70; 67; 65; 75].
  rewrite (proj2 (Z.eqb_eq (zlen _) 61)) by zlen_solve. cbn [negb].
  replace (slice _ 0 4) with (@Ok SignalingCodecError bytes [70; 67; 65; 75]) by (symmetry; read_field; done). rewrite bind_Ok_l.
  cbn [app]. change (index _ 4) with (@Ok SignalingCodecError Z 1). rewrite bind_Ok_l.
  rewrite bool_decide_true by done. cbn [negb orb Z.eqb Pos.eqb].
  replace (slice _ 5 21) with (@Ok SignalingCodecError bytes (ka_event_id a)) by (symmetry; read_field; done). rewrite bind_Ok_l.
  replace (slice _ 21 29) with (@Ok SignalingCodecError bytes (to_be 8 (ka_sequence a))) by (symmetry; read_field; done). rewrite bind_Ok_l.
  replace (slice _ 29 61) with (@Ok SignalingCodecError bytes (ka_event_digest a)) by (symmetry; read_field; done). rewrite bind_Ok_l.
  rewrite Hn, bind_Ok_l. unfold is_u64, U64_MAX in Hs.
  rewrite from_be_to_be_small by (change (256 ^ Z.of_nat 8) with 18446744073709551616; lia). rewrite G. by destruct a.
Qed.
Lemma commit_ack_decode_inv a b : all_u8 b -> commit_ack_decode b = Ok a -> ack_typed a /\ commit_ack_encode a = Ok b.
Proof.
  intros Hu Hd. unfold commit_ack_decode in Hd. ok_inv1 Hd. apply negb_false_iff, Z.eqb_eq in G.
  apply bind_Ok in Hd as (m & M & Hd). apply bind_Ok in Hd as (v & V & Hd). ok_inv1 Hd.
  apply orb_false_iff in G0 as [Gm Gv]. apply negb_false_iff in Gm, Gv. apply bool_decide_eq_true in Gm. apply Z.eqb_eq in Gv. subst m v.
  apply bind_Ok in Hd as (e & E & Hd). apply bind_Ok in Hd as (s & S & Hd). apply bind_Ok in Hd as (d & D & Hd).
  apply bind_Ok in Hd as ([] & Hn & Hd). destruct (from_be s =? 0) eqn:Gs; [done|]. injection Hd as <-.
  destruct (be_field _ _ _ 8 _ Hu S ltac:(lia)) as [FS RS]. change (256 ^ Z.of_nat 8) with 18446744073709551616 in RS.
  apply slice_inv in E as HE. apply slice_inv in D as HD. split; [unfold ack_typed, is_u64, U64_MAX; cbn; lia|].
  unfold commit_ack_encode. cbn [ka_event_id ka_sequence ka_event_digest]. rewrite Hn, bind_Ok_l, Gs, FS. f_equal.
  apply index_inv in V. cbn [Z.add Pos.add Pos.succ Pos.add_carry] in *.
  pose proof (slice_split _ _ _ _ _ _ M (slice_split _ _ _ _ _ _ V (slice_split _ _ _ _ _ _ E (slice_split _ _ _ _ _ _ S D)))) as HH.
  rewrite slice_all in HH by (done || lia). apply Ok_inj in HH. by rewrite <- HH.
Qed.
