(* ===== verification/SignalingPeer.v ===== *)
(** The other end of the admission records: the encoders of
    [packages/cockpit-protocol/src/remote-signaling-payloads.ts], and that the validators of
    [Signaling] accept exactly what they produce.  A [Uint8Array] is a list of bytes, a [bigint]
    or an integral [number] is a [Z], and a thrown error is [None]. *)

From S2P Require Import Prelude.
From S2P Require Import ProtocolId.
From S2P Require Import NoiseRecord.
From S2P Require Import NoisePrologue.
From S2P Require Import Signaling.
From S2P Require Import SignalingProps.
From S2P Require Import Reader.
From Stdlib Require Import ZifyBool.
From stdpp Require Import options.
Set Warnings "-clear-no-such-hyp".

Local Abbreviation res := (result SignalingCodecError).

(** ** The writer *)

Definition guard (c : bool) : option unit := if c then Some tt else None.
(** remote-signaling-payloads.ts:8-11 id16. *)
Definition id16 (v : bytes) : option unit := guard ((zlen v =? 16) && negb (is_all_zero v)).
(** remote-signaling-payloads.ts:25-30 Writer.u64. *)
Definition w_u64 (v : Z) : option bytes := if (v <? 0) || (U64_MAX <? v) then None else Some (to_be 8 v).
(** remote-signaling-payloads.ts:31-36 Writer.i64. Two's complement. *)
Definition w_i64 (v : Z) : option bytes :=
  if (v <? - 2 ^ 63) || (2 ^ 63 - 1 <? v) then None else Some (to_be 8 (v mod 2 ^ 64)).
(** remote-signaling-payloads.ts:73-76 preamble. *)
Definition w_preamble (magic : bytes) : bytes := magic ++ [1].
(** remote-signaling-payloads.ts:81-85 counted. *)
Definition counted (v : bytes) (cap : Z) : option bytes :=
  if (zlen v =? 0) || (cap <? zlen v) then None else Some (to_be 2 (zlen v) ++ v).
(** remote-signaling-payloads.ts:152-157 tupleList. The loop. *)
Fixpoint tuple_list_loop (prior : Z) (tuples : list Z) : option bytes :=
  match tuples with
  | [] => Some []
  | t :: tuples =>
      if (t <? 0) || (65535 <? t) || (t <=? prior) then None else
      r ← tuple_list_loop t tuples; Some (to_be 2 t ++ r)
  end.
(** remote-signaling-payloads.ts:148-158 tupleList. *)
Definition tuple_list (tuples : list Z) : option bytes :=
  if (zlen tuples <? 1) || (16 <? zlen tuples) then None else
  r ← tuple_list_loop (-1) tuples; Some ([zlen tuples] ++ r).
(** remote-signaling-payloads.ts:170-184 signedEnvelope. *)
Definition signed_envelope (body signature : bytes) (body_cap total_cap : Z) : option bytes :=
  if (body_cap <? zlen body) || negb (zlen signature =? 64) then None else
  let out := to_be 2 (zlen body) ++ body ++ signature in
  if total_cap <? zlen out then None else Some out.
(** An optional digest behind its presence byte. *)
Definition w_optional (d : option bytes) : bytes := match d with None => [0] | Some d => 1 :: d end.
Definition digest_fits (d : option bytes) : bool := match d with None => true | Some d => zlen d =? 32 end.

(** ** Records *)

(** remote-signaling-payloads.ts:92-100 RemoteChildAuthenticationBundleV1. *)
Record RemoteChildAuthenticationBundleV1 := mkBundle {
  cb_childAttemptId : bytes; cb_grantJws : bytes; cb_clientCertificateJws : bytes; cb_daemonCertificateJws : bytes;
  cb_authorityStatusJws : bytes; cb_servicePolicyJws : bytes; cb_tenantStatementJws : option bytes }.
(** remote-signaling-payloads.ts:101-116 encodeRemoteChildAuthenticationBundleV1. *)
Definition bundle_encode (v : RemoteChildAuthenticationBundleV1) : option bytes :=
  _ ← id16 (cb_childAttemptId v);
  g ← counted (cb_grantJws v) 8192;
  cc ← counted (cb_clientCertificateJws v) 4096;
  dc ← counted (cb_daemonCertificateJws v) 4096;
  st ← counted (cb_authorityStatusJws v) 16384;
  po ← counted (cb_servicePolicyJws v) 16384;
  te ← match cb_tenantStatementJws v with None => Some [0] | Some t => c ← counted t 16384; Some (1 :: c) end;
  let out := w_preamble (ascii_bytes "FCAB") ++ cb_childAttemptId v ++ g ++ cc ++ dc ++ st ++ po ++ te in
  if 98304 <? zlen out then None else Some out.

(** remote-signaling-payloads.ts:196-217 DaemonAdmissionOfferV1. *)
Record DaemonAdmissionOfferV1 := mkOffer {
  do_instanceId : bytes; do_daemonDeviceId : bytes; do_daemonDeviceGeneration : Z; do_daemonCertificateId : bytes;
  do_daemonCertificateGeneration : Z; do_logicalAttachmentId : bytes; do_childAttemptId : bytes; do_grantJti : bytes;
  do_grantDigest : bytes; do_serverNonce : bytes; do_serviceVersion : Z; do_policyEpoch : Z; do_policyDigest : bytes;
  do_tenantAuthorizationDigest : option bytes; do_authorizedTransportBits : Z; do_daemonTupleIds : list Z; do_offerJti : bytes;
  do_issuedAt : Z; do_expiresAt : Z; do_signature : bytes }.
(** remote-signaling-payloads.ts:218-266 encodeDaemonAdmissionOfferV1. *)
Definition offer_encode (v : DaemonAdmissionOfferV1) : option bytes :=
  _ ← id16 (do_instanceId v); _ ← id16 (do_daemonDeviceId v); _ ← id16 (do_daemonCertificateId v);
  _ ← id16 (do_logicalAttachmentId v); _ ← id16 (do_childAttemptId v); _ ← id16 (do_grantJti v); _ ← id16 (do_offerJti v);
  if (do_daemonDeviceGeneration v =? 0) || (do_daemonCertificateGeneration v =? 0) || (do_serviceVersion v =? 0)
     || (do_policyEpoch v =? 0) || negb (zlen (do_grantDigest v) =? 32) || negb (zlen (do_serverNonce v) =? 32)
     || negb (zlen (do_policyDigest v) =? 32) || negb (digest_fits (do_tenantAuthorizationDigest v))
     || (do_authorizedTransportBits v <? 1) || (3 <? do_authorizedTransportBits v) || (do_expiresAt v <=? do_issuedAt v)
  then None else
  dg ← w_u64 (do_daemonDeviceGeneration v);
  cg ← w_u64 (do_daemonCertificateGeneration v);
  sv ← w_u64 (do_serviceVersion v);
  pe ← w_u64 (do_policyEpoch v);
  tl ← tuple_list (do_daemonTupleIds v);
  ia ← w_i64 (do_issuedAt v);
  ea ← w_i64 (do_expiresAt v);
  signed_envelope
    (w_preamble (ascii_bytes "FCDO") ++ do_instanceId v ++ do_daemonDeviceId v ++ dg ++ do_daemonCertificateId v ++ cg
       ++ do_logicalAttachmentId v ++ do_childAttemptId v ++ do_grantJti v ++ do_grantDigest v ++ do_serverNonce v ++ sv ++ pe
       ++ do_policyDigest v ++ w_optional (do_tenantAuthorizationDigest v) ++ [do_authorizedTransportBits v] ++ tl
       ++ do_offerJti v ++ ia ++ ea)
    (do_signature v) 328 394.

(** remote-signaling-payloads.ts:325-350 ClientAdmissionProofV1. *)
Record ClientAdmissionProofV1 := mkProof {
  cp_tenantId : bytes; cp_accountId : bytes; cp_clientDeviceId : bytes; cp_clientDeviceGeneration : Z; cp_clientCertificateId : bytes;
  cp_clientCertificateGeneration : Z; cp_logicalAttachmentId : bytes; cp_childAttemptId : bytes; cp_grantJti : bytes;
  cp_grantDigest : bytes; cp_daemonOfferDigest : bytes; cp_daemonOfferJti : bytes; cp_chosenTransport : Z;
  cp_clientTupleIds : list Z; cp_daemonTupleIds : list Z; cp_selectedTupleId : Z; cp_policyDigest : bytes;
  cp_tenantAuthorizationDigest : option bytes; cp_serverNonce : bytes; cp_clientNonce : bytes; cp_issuedAt : Z; cp_expiresAt : Z;
  cp_proofJti : bytes; cp_signature : bytes }.
(** remote-signaling-payloads.ts:351-406 encodeClientAdmissionProofV1. The selected tuple is a member of
    two lists of [u16] values when it is written. *)
Definition proof_encode (v : ClientAdmissionProofV1) : option bytes :=
  _ ← id16 (cp_tenantId v); _ ← id16 (cp_accountId v); _ ← id16 (cp_clientDeviceId v); _ ← id16 (cp_clientCertificateId v);
  _ ← id16 (cp_logicalAttachmentId v); _ ← id16 (cp_childAttemptId v); _ ← id16 (cp_grantJti v); _ ← id16 (cp_daemonOfferJti v);
  _ ← id16 (cp_proofJti v);
  if (cp_clientDeviceGeneration v =? 0) || (cp_clientCertificateGeneration v =? 0) || negb (one_or_two (cp_chosenTransport v))
     || negb (zlen (cp_grantDigest v) =? 32) || negb (zlen (cp_daemonOfferDigest v) =? 32) || negb (zlen (cp_policyDigest v) =? 32)
     || negb (zlen (cp_serverNonce v) =? 32) || negb (zlen (cp_clientNonce v) =? 32)
     || negb (digest_fits (cp_tenantAuthorizationDigest v)) || negb (bool_decide (cp_selectedTupleId v ∈ cp_clientTupleIds v))
     || negb (bool_decide (cp_selectedTupleId v ∈ cp_daemonTupleIds v)) || (cp_expiresAt v <=? cp_issuedAt v)
  then None else
  dg ← w_u64 (cp_clientDeviceGeneration v);
  cg ← w_u64 (cp_clientCertificateGeneration v);
  ct ← tuple_list (cp_clientTupleIds v);
  dt ← tuple_list (cp_daemonTupleIds v);
  ia ← w_i64 (cp_issuedAt v);
  ea ← w_i64 (cp_expiresAt v);
  signed_envelope
    (w_preamble (ascii_bytes "FCCP") ++ cp_tenantId v ++ cp_accountId v ++ cp_clientDeviceId v ++ dg ++ cp_clientCertificateId v ++ cg
       ++ cp_logicalAttachmentId v ++ cp_childAttemptId v ++ cp_grantJti v ++ cp_grantDigest v ++ cp_daemonOfferDigest v
       ++ cp_daemonOfferJti v ++ [cp_chosenTransport v] ++ ct ++ dt ++ to_be 2 (cp_selectedTupleId v) ++ cp_policyDigest v
       ++ w_optional (cp_tenantAuthorizationDigest v) ++ cp_serverNonce v ++ cp_clientNonce v ++ ia ++ ea ++ cp_proofJti v)
    (cp_signature v) 443 509.

(** remote-signaling-payloads.ts:573-586 RemoteEndpointFinalProofV1. *)
Record EndpointFinalProof := mkEndpointProof {
  ep_role : Z; ep_transport : Z; ep_childAttemptId : bytes; ep_transportEpoch : bytes; ep_admissionSequence : Z; ep_grantDigest : bytes;
  ep_negotiationDigest : bytes; ep_binding : bytes; ep_proofJti : bytes; ep_certificateId : bytes; ep_certificateGeneration : Z;
  ep_signature : bytes }.
(** remote-signaling-payloads.ts:659-669 remoteEndpointFinalProofAgreementBytes. *)
Definition agreement_bytes (v : EndpointFinalProof) : option bytes :=
  sq ← w_u64 (ep_admissionSequence v);
  Some ([ep_transport v] ++ ep_childAttemptId v ++ ep_transportEpoch v ++ sq ++ ep_grantDigest v ++ ep_negotiationDigest v ++ ep_binding v).
(** remote-signaling-payloads.ts:587-620 encodeRemoteEndpointFinalProofV1. *)
Definition final_proof_encode (v : EndpointFinalProof) : option bytes :=
  _ ← guard (one_or_two (ep_role v) && one_or_two (ep_transport v));
  _ ← id16 (ep_childAttemptId v); _ ← id16 (ep_transportEpoch v); _ ← id16 (ep_proofJti v); _ ← id16 (ep_certificateId v);
  if negb (zlen (ep_grantDigest v) =? 32) || negb (zlen (ep_negotiationDigest v) =? 32) || negb (zlen (ep_binding v) =? 96)
     || negb (zlen (ep_signature v) =? 64) || (ep_admissionSequence v =? 0) || (ep_certificateGeneration v =? 0)
  then None else
  sq ← w_u64 (ep_admissionSequence v);
  cg ← w_u64 (ep_certificateGeneration v);
  let out := w_preamble (ascii_bytes "FCFP") ++ [ep_role v; ep_transport v] ++ ep_childAttemptId v ++ ep_transportEpoch v ++ sq
               ++ ep_grantDigest v ++ ep_negotiationDigest v ++ to_be 2 (zlen (ep_binding v)) ++ ep_binding v ++ ep_proofJti v
               ++ ep_certificateId v ++ cg ++ ep_signature v in
  if 512 <? zlen out then None else Some out.

Lemma take_field_takes : takes take_field.
Proof. exact (take_at_takes SigLength). Qed.
Lemma take_field_spec b o n v o' : zlen b <= U64_MAX ->
  take_field b o n = Ok (v, o') <-> o' = o + n /\ slice (E:=SignalingCodecError) b o (o + n) = Ok v.
Proof. apply take_field_takes. Qed.
Definition reads_field := field_reads take_field take_field_takes.
Definition reads_u64 : reads take_u64 (to_be 8) is_u64 := u64_reads take_field take_field_takes.
Definition reads_u16 : reads take_u16 (to_be 2) is_u16 := u16_reads take_field take_field_takes.
Definition reads_u8 : reads take_u8 (fun v => [v]) is_u8 := u8_reads take_field take_field_takes.
Lemma reads_positive : reads take_positive (to_be 8) (fun v => is_u64 v /\ (v =? 0) = false).
Proof. exact (reads_check _ _ _ (fun v => v =? 0) SigCombination reads_u64). Qed.
Lemma reads_id : reads take_id id (fun v => zlen v = 16 /\ is_all_zero v = false).
Proof.
  eapply reads_ext; [| |exact (reads_check _ _ _ is_all_zero SigZeroId (reads_field 16))]; [|done].
  intros b o. unfold take_id, nonzero, ensure. destruct (take_field b o 16) as [[v o']| |]; [|done..].
  cbn [mbind result_bind]. by destruct (is_all_zero v).
Qed.
Lemma reads_optional : reads take_optional_digest w_optional (fun d => digest_fits d = true).
Proof.
  intros b o a o' Hu Hb Hbo. unfold take_optional_digest. split.
  - intros ([t o1] & H & Hk)%bind_Ok. apply reads_u8 in H as (_ & -> & Hs); [|done..].
    destruct (t =? 0) eqn:E0; [apply Z.eqb_eq in E0 as ->; by injection Hk as <- <-|].
    destruct (t =? 1) eqn:E1; [apply Z.eqb_eq in E1 as ->|done].
    apply bind_Ok in Hk as ([d o2] & H & [= <- <-]). apply take_field_spec in H as [-> Hd]; [|done].
    change (zlen [1]) with 1 in *. apply slice_inv in Hd as Hi. cbn [digest_fits w_optional]. rewrite zlen_cons.
    split; [apply Z.eqb_eq; lia|]. split; [lia|].
    replace (o + (1 + zlen d)) with (o + 1 + 32) by lia. exact (slice_split _ _ _ _ _ _ Hs Hd).
  - intros (Hd & -> & Hs). destruct a as [d|]; cbn [w_optional digest_fits] in *.
    + apply Z.eqb_eq in Hd. apply (slice_app_inv b [1] d) in Hs as [H1 H2]. rewrite (zlen_cons 1 d), Hd in *.
      change (zlen [1]) with 1 in *. apply bind_Ok. exists (1, o + 1). split; [by apply reads_u8|]. cbn [Z.eqb Pos.eqb].
      apply bind_Ok. exists (d, o + 1 + 32). replace (o + (1 + 32)) with (o + 1 + 32) in * by lia.
      split; [by apply take_field_spec|done].
    + apply bind_Ok. exists (0, o + zlen [0]). split; [by apply reads_u8|]. done.
Qed.

(** Lists of tuples. *)
Definition tuples_bytes (ts : list Z) : bytes := concat (map (to_be 2) ts).
Fixpoint tuples_above (last : option Z) (ts : list Z) : Prop :=
  match ts with
  | [] => True
  | t :: ts => is_u16 t /\ match last with Some l => l < t | None => True end /\ tuples_above (Some t) ts
  end.
Definition tuples_ok (ts : list Z) : Prop := 1 <= zlen ts <= 16 /\ tuples_above None ts.
Definition tuple_check (last : option Z) (t : Z) : option SignalingCodecError :=
  match last with Some l => if t <=? l then Some SigCombination else None | None => None end.
Lemma tuples_loop_eq n last b o : tuples_loop n last b o = list_loop take_u16 tuple_check n last b o.
Proof.
  revert last o. induction n as [|n IH]; intros last o; [done|]. cbn [tuples_loop list_loop].
  destruct (take_u16 b o) as [[v o']| |]; [|done|done]. cbn [mbind result_bind]. unfold tuple_check.
  destruct last as [l|]; [destruct (v <=? l); [done|]|]; by rewrite IH.
Qed.
Lemma chained_tuples last ts : chained tuple_check is_u16 last ts <-> tuples_above last ts.
Proof.
  revert last. induction ts as [|t ts IH]; intros last; [done|]. cbn [chained tuples_above]. rewrite IH.
  assert (tuple_check last t = None <-> match last with Some l => l < t | None => True end) as ->; [|done].
  unfold tuple_check. destruct last as [l|]; [|done]. destruct (Z.leb_spec t l); [split; [done|lia]|done].
Qed.
Lemma reads_tuples : reads tuples (fun ts => zlen ts :: tuples_bytes ts) tuples_ok.
Proof.
  eapply reads_ext; [| |eapply (reads_counted take_u8 (fun n => tuples_loop n None) tuples_bytes
    (fun n ts => length ts = n /\ tuples_above None ts) (fun n => negb ((1 <=? n) && (n <=? 16))) SigLength reads_u8)].
  - done.
  - intros ts. unfold tuples_ok. rewrite negb_false_iff, andb_true_iff, !Z.leb_le. tauto.
  - intros n. eapply reads_ext; [| |exact (reads_list_loop take_u16 (to_be 2) is_u16 tuple_check n None reads_u16)].
    + intros b o. symmetry. apply tuples_loop_eq.
    + intros ts. cbv beta. by rewrite chained_tuples.
  - by intros n l [].
  - intros ts. rewrite negb_false_iff, andb_true_iff, !Z.leb_le. unfold is_u8, U8_MAX. lia.
Qed.
Lemma reads_segment cap : 0 <= cap <= U16_MAX ->
  reads (take_segment cap) (fun v => to_be 2 (zlen v) ++ v) (fun v => ((zlen v =? 0) || (cap <? zlen v)) = false).
Proof.
  intros Hcap b o v o' Hu Hb Hbo. unfold take_segment. rewrite zlen_app, zlen_to_be. split.
  - intros ([n o1] & H & Hk)%bind_Ok. apply reads_u16 in H as (_ & -> & Hs); [|done..]. rewrite zlen_to_be in *.
    destruct (_ || _) eqn:G; [done|]. apply take_field_spec in Hk as [-> Hd]; [|done]. apply slice_inv in Hd as Hi.
    assert (zlen v = n) as -> by lia. split; [done|]. split; [lia|]. rewrite Z.add_assoc. exact (slice_split _ _ _ _ _ _ Hs Hd).
  - intros (G & -> & Hs). apply orb_false_iff in G as Hg. destruct Hg as [_ G2]. apply Z.ltb_ge in G2. pose proof (zlen_nonneg v).
    apply slice_app_inv in Hs as [H1 H2]. rewrite zlen_to_be in *.
    apply bind_Ok. exists (zlen v, o + Z.of_nat 2). split; [apply reads_u16; [done..|]; rewrite zlen_to_be; split; [unfold is_u16; lia|done]|].
    rewrite G. apply take_field_spec; [done|]. split; [lia|]. by rewrite <- Z.add_assoc.
Qed.
(** ** Writer and reader agree on each field *)

Lemma id16_ok v : id16 v = Some tt <-> zlen v = 16 /\ is_all_zero v = false.
Proof.
  unfold id16, guard. destruct (_ && _) eqn:G.
  - apply andb_true_iff in G as [G1 G2]. apply Z.eqb_eq in G1. apply negb_true_iff in G2. tauto.
  - split; [done|]. intros [H1 H2]. rewrite H1, H2 in G. done.
Qed.
Lemma w_u64_ok v s : w_u64 v = Some s <-> is_u64 v /\ s = to_be 8 v.
Proof.
  unfold w_u64, is_u64. destruct (_ || _) eqn:G.
  - split; [done|]. intros [H _]. apply orb_true_iff in G as [G|G]; apply Z.ltb_lt in G; lia.
  - apply orb_false_iff in G as [G1 G2]. apply Z.ltb_ge in G1, G2. split; [intros [= <-]; split; [lia|done]|by intros [_ ->]].
Qed.
Definition i64_range (v : Z) : Prop := - 9223372036854775808 <= v <= 9223372036854775807.
Lemma w_i64_ok v s : w_i64 v = Some s <-> i64_range v /\ s = to_be 8 (v mod 2 ^ 64).
Proof.
  unfold w_i64, i64_range. change (2 ^ 63) with 9223372036854775808. destruct (_ || _) eqn:G.
  - split; [done|]. intros [H _]. apply orb_true_iff in G as [G|G]; apply Z.ltb_lt in G; lia.
  - apply orb_false_iff in G as [G1 G2]. apply Z.ltb_ge in G1, G2. split; [intros [= <-]; split; [lia|done]|by intros [_ ->]].
Qed.
Lemma as_i64_of_u64 u : is_u64 u -> i64_range (as_i64 u) /\ as_i64 u mod 2 ^ 64 = u.
Proof.
  unfold is_u64, U64_MAX, as_i64, i64_range. change (2 ^ 63) with 9223372036854775808. change (2 ^ 64) with 18446744073709551616.
  intros Hu. destruct (u <? 9223372036854775808) eqn:G; [apply Z.ltb_lt in G|apply Z.ltb_ge in G]; split; try lia.
  - apply Z.mod_small. lia.
  - rewrite <- (Z_mod_plus_full _ 1). replace (u - 18446744073709551616 + 1 * 18446744073709551616) with u by lia. apply Z.mod_small. lia.
Qed.
Lemma as_i64_mod v : i64_range v -> is_u64 (v mod 2 ^ 64) /\ as_i64 (v mod 2 ^ 64) = v.
Proof.
  unfold is_u64, U64_MAX, as_i64, i64_range. change (2 ^ 63) with 9223372036854775808. change (2 ^ 64) with 18446744073709551616.
  intros Hv. pose proof (Z.mod_pos_bound v 18446744073709551616 ltac:(lia)). split; [lia|].
  destruct (Z.ltb_spec (v mod 18446744073709551616) 9223372036854775808);
    pose proof (Z.div_mod v 18446744073709551616 ltac:(lia));
    assert (v / 18446744073709551616 = 0 \/ v / 18446744073709551616 = -1) by (assert (-1 <= v / 18446744073709551616 < 1); [split; [apply Z.div_le_lower_bound|apply Z.div_lt_upper_bound]; lia|lia]); lia.
Qed.
Lemma counted_ok v cap s : counted v cap = Some s <-> ((zlen v =? 0) || (cap <? zlen v)) = false /\ s = to_be 2 (zlen v) ++ v.
Proof. unfold counted. destruct (_ || _); [split; [done|by intros [? _]]|]. split; [by intros [= <-]|by intros [_ ->]]. Qed.
Lemma tuple_list_loop_ok prior last ts s : match last with Some l => prior = l | None => prior = -1 end ->
  tuple_list_loop prior ts = Some s <-> tuples_above last ts /\ s = tuples_bytes ts.
Proof.
  revert prior last s. induction ts as [|t ts IH]; intros prior last s Hp; cbn [tuple_list_loop tuples_above]; [split; [by intros [= <-]|by intros [_ ->]]|].
  unfold is_u16, U16_MAX. destruct (_ || _) eqn:G.
  - split; [done|]. intros [((H1 & H2) & H3 & _) _]. apply orb_true_iff in G as [G|G]; [apply orb_true_iff in G as [G|G]; apply Z.ltb_lt in G; lia|].
    apply Z.leb_le in G. destruct last; lia.
  - apply orb_false_iff in G as [G G3]. apply orb_false_iff in G as [G1 G2]. apply Z.ltb_ge in G1, G2. apply Z.leb_gt in G3.
    pose proof (fun s => IH t (Some t) s eq_refl) as IH'. split.
    + destruct (tuple_list_loop t ts) as [r|]; [|done]. intros [= <-]. destruct (proj1 (IH' r) eq_refl) as [Ha ->].
      split; [|done]. split; [lia|]. split; [|done]. destruct last; [lia|done].
    + intros [(_ & _ & Ha) ->]. by rewrite (proj2 (IH' (tuples_bytes ts)) (conj Ha eq_refl)).
Qed.
Lemma tuple_list_ok ts s : tuple_list ts = Some s <-> tuples_ok ts /\ s = zlen ts :: tuples_bytes ts.
Proof.
  unfold tuple_list, tuples_ok. destruct (_ || _) eqn:G.
  - split; [done|]. intros [[H _] _]. apply orb_true_iff in G as [G|G]; apply Z.ltb_lt in G; lia.
  - apply orb_false_iff in G as [G1 G2]. apply Z.ltb_ge in G1, G2. split.
    + destruct (tuple_list_loop (-1) ts) as [r|] eqn:E; [|done]. intros [= <-].
      by apply (tuple_list_loop_ok (-1) None) in E as [Ha ->].
    + intros [[_ Ha] ->]. by rewrite (proj2 (tuple_list_loop_ok (-1) None ts _ eq_refl) (conj Ha eq_refl)).
Qed.
Lemma preamble_ok b magic : zlen magic = 4 -> preamble b magic = Ok tt <-> exists rest, b = magic ++ [1] ++ rest.
Proof.
  intros Hm. unfold preamble. split.
  - destruct (zlen b <? 5) eqn:G; [done|]. apply Z.ltb_ge in G. intros (m & M & H)%bind_Ok. case_bool_decide; [|done]. subst m.
    cbn [negb] in H. apply bind_Ok in H as (v & V & H). destruct (v =? 1) eqn:E; [|done]. apply Z.eqb_eq in E. subst v.
    apply index_inv in V. pose proof (slice_split _ _ _ _ _ _ M V) as HH. change (4 + 1) with 5 in HH.
    exists (drop 5 b). unfold slice in HH. rewrite decide_True in HH by lia. apply Ok_inj in HH. rewrite app_assoc, HH.
    change (Z.to_nat 0) with 0%nat. rewrite drop_0. by rewrite take_drop.
  - intros [rest ->]. pose proof (zlen_nonneg rest). rewrite (proj2 (Z.ltb_ge _ _)) by (rewrite !zlen_app, Hm; change (zlen [1]) with 1; lia).
    rewrite (slice_head magic) by lia. rewrite bind_Ok_l, bool_decide_true by done. cbn [negb].
    rewrite index_skip by lia. rewrite Hm. done.
Qed.
(** A signed envelope holds the body behind its length, and a signature. *)
Lemma signed_body_ok b cap magic body : all_u8 b -> 0 <= cap <= 65535 -> zlen magic = 4 ->
  signed_body b cap magic = Ok body <->
  exists signature, signed_envelope body signature cap (cap + 66) = Some b /\ preamble body magic = Ok tt.
Proof.
  intros Hu Hcap Hm. unfold signed_body, signed_envelope. split.
  - destruct (_ || _) eqn:G; [done|]. apply orb_false_iff in G as [G1 G2]. apply Z.ltb_ge in G1, G2.
    intros (l & L & H)%bind_Ok. destruct (be_field _ _ _ 2 _ Hu L ltac:(lia)) as [FL RL]. cbv zeta in H.
    destruct (_ || _) eqn:G; [done|]. apply orb_false_iff in G as [G3 G4]. apply Z.ltb_ge in G3. apply negb_false_iff, Z.eqb_eq in G4.
    apply bind_Ok in H as (bd & B & H). apply bind_Ok in H as ([] & P & H). injection H as <-.
    apply slice_inv in B as HB. assert (zlen bd = from_be l) as Hl by lia.
    destruct (slice (E:=SignalingCodecError) b (2 + from_be l) (zlen b)) as [sg| |] eqn:S; [|by apply slice_not_err in S|by apply slice_no_panic in S; lia].
    apply slice_inv in S as HS. exists sg. rewrite (proj2 (Z.ltb_ge _ _)), (proj2 (Z.eqb_eq _ 64)) by lia. cbn [orb negb]. cbv zeta.
    pose proof (slice_split _ _ _ _ _ _ L (slice_split _ _ _ _ _ _ B S)) as HH. rewrite slice_all in HH by (done || lia). apply Ok_inj in HH.
    rewrite Hl, FL, HH. by rewrite (proj2 (Z.ltb_ge _ _)) by lia.
  - intros (sg & H & P). destruct (_ || _) eqn:G; [done|]. apply orb_false_iff in G as [G1 G2]. apply Z.ltb_ge in G1.
    apply negb_false_iff, Z.eqb_eq in G2. cbv zeta in H. destruct (_ <? _); [done|]. apply (inj Some) in H. subst b.
    pose proof (zlen_nonneg body). rewrite !zlen_app, zlen_to_be, G2.
    rewrite (proj2 (Z.ltb_ge _ _)), (proj2 (Z.ltb_ge _ _)) by lia. cbn [orb].
    rewrite slice_head by (rewrite ?zlen_to_be; lia). rewrite bind_Ok_l. cbv zeta.
    rewrite from_be_to_be_small by (change (256 ^ Z.of_nat 2) with 65536; lia).
    rewrite (proj2 (Z.ltb_ge _ _)) by lia. rewrite (proj2 (Z.eqb_eq _ _)) by lia. cbn [orb negb].
    rewrite slice_skip by (rewrite zlen_to_be; lia). rewrite slice_head by (rewrite ?zlen_to_be; lia). rewrite bind_Ok_l, P. done.
Qed.
Lemma rest_after_preamble magic rest : zlen magic = 4 -> rest_at (E:=SignalingCodecError) (w_preamble magic ++ rest) 5 rest.
Proof.
  intros Hm. split; [lia|]. unfold w_preamble. rewrite slice_skip by (autorewrite with bytes; lia).
  apply slice_all; autorewrite with bytes; lia.
Qed.


(** ** What each encoder accepts *)

Definition is_id (v : bytes) : Prop := zlen v = 16 /\ is_all_zero v = false.
Definition positive (v : Z) : Prop := is_u64 v /\ (v =? 0) = false.
(** Peel off the checks of an encoder. *)
Ltac enc_inv H :=
  repeat lazymatch type of H with
  | (_ ← id16 ?x; _) = Some _ =>
      let E := fresh "I" in destruct (id16 x) as [[]|] eqn:E; [apply id16_ok in E; cbn [mbind option_bind] in H|discriminate H]
  | (_ ← guard ?x; _) = Some _ =>
      let E := fresh "C" in unfold guard in H; destruct x eqn:E; [cbn [mbind option_bind] in H|discriminate H]
  | (if ?c then None else _) = Some _ => let E := fresh "G" in destruct c eqn:E; [discriminate H|]
  | (s ← w_u64 ?x; _) = Some _ =>
      let E := fresh "U" in destruct (w_u64 x) as [|] eqn:E; [apply w_u64_ok in E as [E ->]; cbn [mbind option_bind] in H|discriminate H]
  | (s ← w_i64 ?x; _) = Some _ =>
      let E := fresh "S" in destruct (w_i64 x) as [|] eqn:E; [apply w_i64_ok in E as [E ->]; cbn [mbind option_bind] in H|discriminate H]
  | (s ← tuple_list ?x; _) = Some _ =>
      let E := fresh "T" in destruct (tuple_list x) as [|] eqn:E; [apply tuple_list_ok in E as [E ->]; cbn [mbind option_bind] in H|discriminate H]
  | (s ← counted ?x ?c; _) = Some _ =>
      let E := fresh "K" in destruct (counted x c) as [|] eqn:E; [apply counted_ok in E as [E ->]; cbn [mbind option_bind] in H|discriminate H]
  end.
(** Run them when they hold. *)
Lemma id16_run v : is_id v -> id16 v = Some tt.
Proof. apply id16_ok. Qed.
Lemma w_u64_run v : is_u64 v -> w_u64 v = Some (to_be 8 v).
Proof. intros H. by apply w_u64_ok. Qed.
Lemma w_i64_run v : i64_range v -> w_i64 v = Some (to_be 8 (v mod 2 ^ 64)).
Proof. intros H. by apply w_i64_ok. Qed.
Lemma tuple_list_run ts : tuples_ok ts -> tuple_list ts = Some (zlen ts :: tuples_bytes ts).
Proof. intros H. by apply tuple_list_ok. Qed.
Lemma counted_run v cap : ((zlen v =? 0) || (cap <? zlen v)) = false -> counted v cap = Some (to_be 2 (zlen v) ++ v).
Proof. intros H. by apply counted_ok. Qed.

Record offer_ok (v : DaemonAdmissionOfferV1) : Prop := mkOfferOk {
  oo_instance : is_id (do_instanceId v); oo_device : is_id (do_daemonDeviceId v); oo_cert : is_id (do_daemonCertificateId v);
  oo_attachment : is_id (do_logicalAttachmentId v); oo_child : is_id (do_childAttemptId v); oo_grant : is_id (do_grantJti v);
  oo_jti : is_id (do_offerJti v); oo_devgen : positive (do_daemonDeviceGeneration v);
  oo_certgen : positive (do_daemonCertificateGeneration v); oo_service : positive (do_serviceVersion v);
  oo_policy : positive (do_policyEpoch v); oo_gd : zlen (do_grantDigest v) = 32; oo_nonce : zlen (do_serverNonce v) = 32;
  oo_pd : zlen (do_policyDigest v) = 32; oo_tenant : digest_fits (do_tenantAuthorizationDigest v) = true;
  oo_bits : 1 <= do_authorizedTransportBits v <= 3; oo_tuples : tuples_ok (do_daemonTupleIds v);
  oo_issued : i64_range (do_issuedAt v); oo_expires : i64_range (do_expiresAt v); oo_order : do_issuedAt v < do_expiresAt v }.
Definition offer_body (v : DaemonAdmissionOfferV1) : bytes :=
  w_preamble (ascii_bytes "FCDO") ++ do_instanceId v ++ do_daemonDeviceId v ++ to_be 8 (do_daemonDeviceGeneration v)
    ++ do_daemonCertificateId v ++ to_be 8 (do_daemonCertificateGeneration v) ++ do_logicalAttachmentId v ++ do_childAttemptId v
    ++ do_grantJti v ++ do_grantDigest v ++ do_serverNonce v ++ to_be 8 (do_serviceVersion v) ++ to_be 8 (do_policyEpoch v)
    ++ do_policyDigest v ++ w_optional (do_tenantAuthorizationDigest v) ++ [do_authorizedTransportBits v]
    ++ (zlen (do_daemonTupleIds v) :: tuples_bytes (do_daemonTupleIds v)) ++ do_offerJti v
    ++ to_be 8 (do_issuedAt v mod 2 ^ 64) ++ to_be 8 (do_expiresAt v mod 2 ^ 64).
Lemma offer_encode_ok v b :
  offer_encode v = Some b <-> offer_ok v /\ signed_envelope (offer_body v) (do_signature v) 328 394 = Some b.
Proof.
  split.
  - intros H. unfold offer_encode in H. enc_inv H. rewrite !orb_false_iff in G. destruct_and! G.
    rewrite ?negb_false_iff in *. split; [|exact H].
    split; try done; first [by apply Z.eqb_eq|by apply Z.leb_gt|split; by apply Z.ltb_ge|by split].
  - intros [[] H]. unfold offer_encode, positive in *. destruct_and?.
    rewrite !id16_run by done. cbn [mbind option_bind].
    assert (forall P Q, P = false -> Q = false -> P || Q = false) as Ho by (by intros [] []).
    match goal with |- (if ?c then None else _) = _ => assert (c = false) as -> end.
    { repeat apply Ho; try done; lia. }
    rewrite !w_u64_run by done. cbn [mbind option_bind]. rewrite tuple_list_run by done. cbn [mbind option_bind].
    rewrite !w_i64_run by done. cbn [mbind option_bind]. exact H.
Qed.

(** ** Agreement *)

(** The bytes of the body of an envelope. *)
Lemma envelope_body_u8 body sg cap total b : signed_envelope body sg cap total = Some b -> 0 <= cap <= 65535 -> all_u8 b ->
  all_u8 body /\ zlen body <= U64_MAX.
Proof.
  unfold signed_envelope. intros H Hcap Hu. destruct (_ || _) eqn:G; [done|]. cbv zeta in H. destruct (total <? _); [done|].
  apply (inj Some) in H. subst b. apply Forall_app in Hu as [_ Hu]. apply Forall_app in Hu as [Hu _]. split; [exact Hu|].
  unfold U64_MAX. lia.
Qed.
Lemma fcdo_read b child : all_u8 b -> validate_fcdo b = Ok child -> exists v, offer_encode v = Some b /\ do_childAttemptId v = child.
Proof.
  intros Hub H. unfold validate_fcdo in H. apply bind_Ok in H as (body & Hs & H).
  apply signed_body_ok in Hs as (sg & Henv & Hp); [|done|lia|done]. apply preamble_ok in Hp as [rest Hbody]; [|done].
  rewrite app_assoc in Hbody. fold (w_preamble (ascii_bytes "FCDO")) in Hbody.
  pose proof (rest_after_preamble (ascii_bytes "FCDO") rest eq_refl) as HR. rewrite <- Hbody in HR.
  destruct (envelope_body_u8 _ _ _ _ _ Henv ltac:(lia) Hub) as [Hu Hb].
  rd reads_id H xi Hxi. rd reads_id H xd Hxd. rd reads_positive H dg Hdg. rd reads_id H xc Hxc.
  rd reads_positive H cg Hcg. rd reads_id H xa Hxa. rd reads_id H ch Hch. rd reads_id H gj Hgj.
  rd (reads_field 32) H gd Hgd. rd (reads_field 32) H nc Hnc. rd reads_positive H sv Hsv. rd reads_positive H pe Hpe.
  rd (reads_field 32) H pd Hpd. rd reads_optional H td Htd. rd reads_u8 H bits Hbits.
  destruct (_ || _) eqn:Gb in H; [done|].
  assert (1 <= bits <= 3) as Hbr by (unfold is_u8 in Hbits; clear -Hbits Gb; lia).
  rd reads_tuples H ts Hts. rd reads_id H oj Hoj. rd reads_u64 H ia Hia. rd reads_u64 H ea Hea.
  destruct (_ || _) eqn:Ge in H; [done|]. injection H as <-. apply orb_false_iff in Ge as [Ge Gl].
  eapply rest_end in Gl; [|eassumption]. subst. destruct (as_i64_of_u64 ia Hia) as [Ri Mi]. destruct (as_i64_of_u64 ea Hea) as [Re Me].
  exists (mkOffer xi xd dg xc cg xa ch gj gd nc sv pe pd td bits ts oj (as_i64 ia) (as_i64 ea) sg). split; [|done].
  apply offer_encode_ok. split; [split; try done; by apply Z.leb_gt|]. unfold offer_body. cbn [do_instanceId do_daemonDeviceId
    do_daemonDeviceGeneration do_daemonCertificateId do_daemonCertificateGeneration do_logicalAttachmentId do_childAttemptId
    do_grantJti do_grantDigest do_serverNonce do_serviceVersion do_policyEpoch do_policyDigest do_tenantAuthorizationDigest
    do_authorizedTransportBits do_daemonTupleIds do_offerJti do_issuedAt do_expiresAt do_signature].
  rewrite Mi, Me. unfold id in Henv. rewrite app_nil_r in Henv. exact Henv.
Qed.
Lemma fcdo_write b v : all_u8 b -> offer_encode v = Some b -> validate_fcdo b = Ok (do_childAttemptId v).
Proof.
  intros Hub [Hok Henv]%offer_encode_ok. destruct (envelope_body_u8 _ _ _ _ _ Henv ltac:(lia) Hub) as [Hu Hb].
  unfold validate_fcdo. rewrite (proj2 (signed_body_ok b 328 (ascii_bytes "FCDO") (offer_body v) Hub ltac:(lia) eq_refl)).
  2:{ exists (do_signature v). split; [exact Henv|]. apply preamble_ok; [done|]. eexists. unfold offer_body, w_preamble. by rewrite <- app_assoc. }
  rewrite bind_Ok_l. pose proof (rest_after_preamble (ascii_bytes "FCDO") _ eq_refl : rest_at (offer_body v) 5 _) as HR.
  destruct (as_i64_mod _ (oo_issued v Hok)) as [Ui Mi]. destruct (as_i64_mod _ (oo_expires v Hok)) as [Ue Me].
  destruct Hok. rewrite <- (app_nil_r (to_be 8 (do_expiresAt v mod 2 ^ 64))) in HR.
  wr reads_id (do_instanceId v); [done|]. wr reads_id (do_daemonDeviceId v); [done|].
  wr reads_positive (do_daemonDeviceGeneration v); [done|]. wr reads_id (do_daemonCertificateId v); [done|].
  wr reads_positive (do_daemonCertificateGeneration v); [done|]. wr reads_id (do_logicalAttachmentId v); [done|].
  wr reads_id (do_childAttemptId v); [done|]. wr reads_id (do_grantJti v); [done|]. wr (reads_field 32) (do_grantDigest v); [done|].
  wr (reads_field 32) (do_serverNonce v); [done|]. wr reads_positive (do_serviceVersion v); [done|].
  wr reads_positive (do_policyEpoch v); [done|]. wr (reads_field 32) (do_policyDigest v); [done|].
  wr reads_optional (do_tenantAuthorizationDigest v); [done|].
  wr reads_u8 (do_authorizedTransportBits v); [unfold is_u8, U8_MAX; lia|].
  replace ((_ =? 0) || (3 <? _)) with false by lia.
  wr reads_tuples (do_daemonTupleIds v); [done|]. wr reads_id (do_offerJti v); [done|].
  wr reads_u64 (do_issuedAt v mod 2 ^ 64); [done|]. wr reads_u64 (do_expiresAt v mod 2 ^ 64); [done|].
  apply rest_at_length in HR. rewrite zlen_nil, Z.add_0_r in HR. rewrite HR, Mi, Me, Z.eqb_refl.
  by rewrite (proj2 (Z.leb_gt _ _)).
Qed.

Record proof_ok (v : ClientAdmissionProofV1) : Prop := mkProofOk {
  po_tenant : is_id (cp_tenantId v); po_account : is_id (cp_accountId v); po_device : is_id (cp_clientDeviceId v);
  po_cert : is_id (cp_clientCertificateId v); po_attachment : is_id (cp_logicalAttachmentId v); po_child : is_id (cp_childAttemptId v);
  po_grant : is_id (cp_grantJti v); po_offer : is_id (cp_daemonOfferJti v); po_jti : is_id (cp_proofJti v);
  po_devgen : positive (cp_clientDeviceGeneration v); po_certgen : positive (cp_clientCertificateGeneration v);
  po_transport : one_or_two (cp_chosenTransport v) = true; po_gd : zlen (cp_grantDigest v) = 32;
  po_od : zlen (cp_daemonOfferDigest v) = 32; po_pd : zlen (cp_policyDigest v) = 32; po_nonce : zlen (cp_serverNonce v) = 32;
  po_cnonce : zlen (cp_clientNonce v) = 32; po_td : digest_fits (cp_tenantAuthorizationDigest v) = true;
  po_ctuples : tuples_ok (cp_clientTupleIds v); po_dtuples : tuples_ok (cp_daemonTupleIds v);
  po_selected : cp_selectedTupleId v ∈ cp_clientTupleIds v /\ cp_selectedTupleId v ∈ cp_daemonTupleIds v;
  po_issued : i64_range (cp_issuedAt v); po_expires : i64_range (cp_expiresAt v); po_order : cp_issuedAt v < cp_expiresAt v }.
Definition proof_body (v : ClientAdmissionProofV1) : bytes :=
  w_preamble (ascii_bytes "FCCP") ++ cp_tenantId v ++ cp_accountId v ++ cp_clientDeviceId v ++ to_be 8 (cp_clientDeviceGeneration v)
    ++ cp_clientCertificateId v ++ to_be 8 (cp_clientCertificateGeneration v) ++ cp_logicalAttachmentId v ++ cp_childAttemptId v
    ++ cp_grantJti v ++ cp_grantDigest v ++ cp_daemonOfferDigest v ++ cp_daemonOfferJti v ++ [cp_chosenTransport v]
    ++ (zlen (cp_clientTupleIds v) :: tuples_bytes (cp_clientTupleIds v)) ++ (zlen (cp_daemonTupleIds v) :: tuples_bytes (cp_daemonTupleIds v))
    ++ to_be 2 (cp_selectedTupleId v) ++ cp_policyDigest v ++ w_optional (cp_tenantAuthorizationDigest v) ++ cp_serverNonce v
    ++ cp_clientNonce v ++ to_be 8 (cp_issuedAt v mod 2 ^ 64) ++ to_be 8 (cp_expiresAt v mod 2 ^ 64) ++ cp_proofJti v.
Lemma proof_encode_ok v b :
  proof_encode v = Some b <-> proof_ok v /\ signed_envelope (proof_body v) (cp_signature v) 443 509 = Some b.
Proof.
  split.
  - intros H. unfold proof_encode in H. enc_inv H. rewrite !orb_false_iff in G. destruct_and! G.
    rewrite ?negb_false_iff, ?bool_decide_eq_true in *. split; [|exact H].
    split; try done; first [by apply Z.eqb_eq|by apply Z.leb_gt|by split].
  - intros [[] H]. unfold proof_encode, positive in *. destruct_and?.
    rewrite !id16_run by done. cbn [mbind option_bind].
    assert (forall P Q, P = false -> Q = false -> P || Q = false) as Ho by (by intros [] []).
    match goal with |- (if ?c then None else _) = _ => assert (c = false) as -> end.
    { repeat apply Ho; try done; rewrite ?negb_false_iff, ?bool_decide_eq_true; done || lia. }
    rewrite !w_u64_run by done. cbn [mbind option_bind]. rewrite (tuple_list_run (cp_clientTupleIds v)) by done. cbn [mbind option_bind].
    rewrite (tuple_list_run (cp_daemonTupleIds v)) by done. cbn [mbind option_bind].
    rewrite !w_i64_run by done. cbn [mbind option_bind]. exact H.
Qed.
Lemma tuples_u16 last ts t : tuples_above last ts -> t ∈ ts -> is_u16 t.
Proof.
  revert last. induction ts as [|x ts IH]; intros last; [by intros _ ?%not_elem_of_nil|].
  intros (Hx & _ & Ha) [->|Ht]%elem_of_cons; [done|by eapply IH].
Qed.
Lemma fccp_read b child : all_u8 b -> validate_fccp b = Ok child -> exists v, proof_encode v = Some b /\ cp_childAttemptId v = child.
Proof.
  intros Hub H. unfold validate_fccp in H. apply bind_Ok in H as (body & Hs & H).
  apply signed_body_ok in Hs as (sg & Henv & Hp); [|done|lia|done]. apply preamble_ok in Hp as [rest Hbody]; [|done].
  rewrite app_assoc in Hbody. fold (w_preamble (ascii_bytes "FCCP")) in Hbody.
  pose proof (rest_after_preamble (ascii_bytes "FCCP") rest eq_refl) as HR. rewrite <- Hbody in HR.
  destruct (envelope_body_u8 _ _ _ _ _ Henv ltac:(lia) Hub) as [Hu Hb].
  rd reads_id H xt Hxt. rd reads_id H xu Hxu. rd reads_id H xd Hxd. rd reads_positive H dg Hdg. rd reads_id H xc Hxc.
  rd reads_positive H cg Hcg. rd reads_id H xa Hxa. rd reads_id H ch Hch. rd reads_id H gj Hgj.
  rd (reads_field 32) H gd Hgd. rd (reads_field 32) H od Hod. rd reads_id H oj Hoj. rd reads_u8 H tr Htr.
  destruct (negb _) eqn:Gt in H; [done|]. rd reads_tuples H ct Hct. rd reads_tuples H dt Hdt. rd reads_u16 H se Hse.
  destruct (_ || _) eqn:Gs in H; [done|]. apply orb_false_iff in Gs as [Gs1 Gs2].
  rewrite negb_false_iff, bool_decide_eq_true in Gs1, Gs2.
  rd (reads_field 32) H pd Hpd. rd reads_optional H td Htd. rd (reads_field 32) H svn Hsvn. rd (reads_field 32) H cn Hcn.
  rd reads_u64 H ia Hia. rd reads_u64 H ea Hea. rd reads_id H pj Hpj.
  destruct (_ || _) eqn:Ge in H; [done|]. injection H as <-. apply orb_false_iff in Ge as [Ge Gl].
  eapply rest_end in Gl; [|eassumption]. subst. destruct (as_i64_of_u64 ia Hia) as [Ri Mi]. destruct (as_i64_of_u64 ea Hea) as [Re Me].
  exists (mkProof xt xu xd dg xc cg xa ch gj gd od oj tr ct dt se pd td svn cn (as_i64 ia) (as_i64 ea) pj sg). split; [|done].
  apply proof_encode_ok. split; [split; try done; [by apply negb_false_iff in Gt|by apply Z.leb_gt]|]. unfold proof_body. cbn [cp_tenantId cp_accountId
    cp_clientDeviceId cp_clientDeviceGeneration cp_clientCertificateId cp_clientCertificateGeneration cp_logicalAttachmentId
    cp_childAttemptId cp_grantJti cp_grantDigest cp_daemonOfferDigest cp_daemonOfferJti cp_chosenTransport cp_clientTupleIds
    cp_daemonTupleIds cp_selectedTupleId cp_policyDigest cp_tenantAuthorizationDigest cp_serverNonce cp_clientNonce cp_issuedAt
    cp_expiresAt cp_proofJti cp_signature].
  rewrite Mi, Me. unfold id in Henv. rewrite app_nil_r in Henv. exact Henv.
Qed.
Lemma fccp_write b v : all_u8 b -> proof_encode v = Some b -> validate_fccp b = Ok (cp_childAttemptId v).
Proof.
  intros Hub [Hok Henv]%proof_encode_ok. destruct (envelope_body_u8 _ _ _ _ _ Henv ltac:(lia) Hub) as [Hu Hb].
  unfold validate_fccp. rewrite (proj2 (signed_body_ok b 443 (ascii_bytes "FCCP") (proof_body v) Hub ltac:(lia) eq_refl)).
  2:{ exists (cp_signature v). split; [exact Henv|]. apply preamble_ok; [done|]. eexists. unfold proof_body, w_preamble. by rewrite <- app_assoc. }
  rewrite bind_Ok_l. pose proof (rest_after_preamble (ascii_bytes "FCCP") _ eq_refl : rest_at (proof_body v) 5 _) as HR.
  destruct (as_i64_mod _ (po_issued v Hok)) as [Ui Mi]. destruct (as_i64_mod _ (po_expires v Hok)) as [Ue Me].
  destruct (po_selected v Hok) as [Sc Sd]. pose proof (tuples_u16 _ _ _ (proj2 (po_ctuples v Hok)) Sc) as Us.
  destruct Hok. rewrite <- (app_nil_r (cp_proofJti v)) in HR.
  wr reads_id (cp_tenantId v); [done|]. wr reads_id (cp_accountId v); [done|]. wr reads_id (cp_clientDeviceId v); [done|].
  wr reads_positive (cp_clientDeviceGeneration v); [done|]. wr reads_id (cp_clientCertificateId v); [done|].
  wr reads_positive (cp_clientCertificateGeneration v); [done|]. wr reads_id (cp_logicalAttachmentId v); [done|].
  wr reads_id (cp_childAttemptId v); [done|]. wr reads_id (cp_grantJti v); [done|]. wr (reads_field 32) (cp_grantDigest v); [done|].
  wr (reads_field 32) (cp_daemonOfferDigest v); [done|]. wr reads_id (cp_daemonOfferJti v); [done|].
  wr reads_u8 (cp_chosenTransport v); [unfold one_or_two in *; unfold is_u8, U8_MAX; lia|].
  fold (one_or_two (cp_chosenTransport v)). rewrite po_transport0. cbn [negb].
  wr reads_tuples (cp_clientTupleIds v); [done|]. wr reads_tuples (cp_daemonTupleIds v); [done|]. wr reads_u16 (cp_selectedTupleId v); [done|].
  rewrite !bool_decide_true by done. cbn [negb orb].
  wr (reads_field 32) (cp_policyDigest v); [done|]. wr reads_optional (cp_tenantAuthorizationDigest v); [done|].
  wr (reads_field 32) (cp_serverNonce v); [done|]. wr (reads_field 32) (cp_clientNonce v); [done|].
  wr reads_u64 (cp_issuedAt v mod 2 ^ 64); [done|]. wr reads_u64 (cp_expiresAt v mod 2 ^ 64); [done|]. wr reads_id (cp_proofJti v); [done|].
  apply rest_at_length in HR. rewrite zlen_nil, Z.add_0_r in HR. rewrite HR, Mi, Me, Z.eqb_refl.
  by rewrite (proj2 (Z.leb_gt _ _)).
Qed.
