(* ===== verification/SignalingAgree.v ===== *)
(** The admission records of [Signaling] and [SignalingPeer], continued: the authentication bundle
    and the final proofs, and that the two implementations agree on all four. *)

From S2P Require Import Prelude.
From S2P Require Import ProtocolId.
From S2P Require Import NoiseRecord.
From S2P Require Import NoisePrologue.
From S2P Require Import Signaling.
From S2P Require Import SignalingProps.
From S2P Require Import Reader.
From S2P Require Import SignalingPeer.
From Stdlib Require Import ZifyBool.
From stdpp Require Import options.

Local Abbreviation res := (result SignalingCodecError).

(** *** The bundle *)

Definition seg (v : bytes) : bytes := to_be 2 (zlen v) ++ v.
Definition seg_ok (cap : Z) (v : bytes) : Prop := ((zlen v =? 0) || (cap <? zlen v)) = false.
(** The optional tenant statement, as written. *)
Definition w_statement (t : option bytes) : bytes := match t with None => [0] | Some t => 1 :: seg t end.
Definition statement_ok (t : option bytes) : Prop := match t with None => True | Some t => seg_ok 16384 t end.
Record bundle_ok (v : RemoteChildAuthenticationBundleV1) : Prop := mkBundleOk {
  bo_child : is_id (cb_childAttemptId v); bo_grant : seg_ok 8192 (cb_grantJws v); bo_client : seg_ok 4096 (cb_clientCertificateJws v);
  bo_daemon : seg_ok 4096 (cb_daemonCertificateJws v); bo_status : seg_ok 16384 (cb_authorityStatusJws v);
  bo_policy : seg_ok 16384 (cb_servicePolicyJws v); bo_tenant : statement_ok (cb_tenantStatementJws v) }.
Definition bundle_bytes (v : RemoteChildAuthenticationBundleV1) : bytes :=
  w_preamble (ascii_bytes "FCAB") ++ cb_childAttemptId v ++ seg (cb_grantJws v) ++ seg (cb_clientCertificateJws v)
    ++ seg (cb_daemonCertificateJws v) ++ seg (cb_authorityStatusJws v) ++ seg (cb_servicePolicyJws v)
    ++ w_statement (cb_tenantStatementJws v).
Lemma bundle_encode_ok v b : bundle_encode v = Some b <-> bundle_ok v /\ zlen b <= 98304 /\ b = bundle_bytes v.
Proof.
  split.
  - intros H. unfold bundle_encode in H. enc_inv H.
    destruct (cb_tenantStatementJws v) as [t|] eqn:Et.
    + destruct (counted t 16384) as [c|] eqn:Ec; [|done]. apply counted_ok in Ec as [Ec ->]. cbn [mbind option_bind] in H.
      cbv zeta in H. destruct (98304 <? _) eqn:G; [done|]. apply Z.ltb_ge in G. apply (inj Some) in H. subst b.
      split; [split; try done; by rewrite Et|]. unfold bundle_bytes. by rewrite Et.
    + cbn [mbind option_bind] in H. cbv zeta in H. destruct (98304 <? _) eqn:G; [done|]. apply Z.ltb_ge in G.
      apply (inj Some) in H. subst b. split; [split; try done; by rewrite Et|]. unfold bundle_bytes. by rewrite Et.
  - intros ([] & Hl & ->). unfold bundle_encode. rewrite id16_run by done. cbn [mbind option_bind].
    rewrite !counted_run by done. cbn [mbind option_bind]. unfold bundle_bytes in *.
    destruct (cb_tenantStatementJws v) as [t|]; cbn [statement_ok w_statement] in *;
      [rewrite counted_run by done|]; cbn [mbind option_bind]; cbv zeta; fold (seg (cb_grantJws v)) (seg (cb_clientCertificateJws v))
        (seg (cb_daemonCertificateJws v)) (seg (cb_authorityStatusJws v)) (seg (cb_servicePolicyJws v)); try fold (seg t);
      by rewrite (proj2 (Z.ltb_ge _ _)).
Qed.
Lemma fcab_read b child : all_u8 b -> validate_fcab b = Ok child -> exists v, bundle_encode v = Some b /\ cb_childAttemptId v = child.
Proof.
  intros Hu H. unfold validate_fcab in H. destruct (98304 <? zlen b) eqn:Hlen; [done|]. apply Z.ltb_ge in Hlen.
  apply bind_Ok in H as ([] & Hp & H). apply preamble_ok in Hp as [rest Hbody]; [|done].
  rewrite app_assoc in Hbody. fold (w_preamble (ascii_bytes "FCAB")) in Hbody.
  pose proof (rest_after_preamble (ascii_bytes "FCAB") rest eq_refl) as HR. rewrite <- Hbody in HR.
  assert (zlen b <= U64_MAX) as Hb by (unfold U64_MAX; lia).
  rd reads_id H ch Hch. apply bind_Ok in H as (o & Hs & H). cbn [take_segments] in Hs.
  rd (reads_segment 8192 ltac:(unfold U16_MAX; lia)) Hs g Hg. rd (reads_segment 4096 ltac:(unfold U16_MAX; lia)) Hs cc Hcc.
  rd (reads_segment 4096 ltac:(unfold U16_MAX; lia)) Hs dc Hdc. rd (reads_segment 16384 ltac:(unfold U16_MAX; lia)) Hs st Hst.
  rd (reads_segment 16384 ltac:(unfold U16_MAX; lia)) Hs po Hpo. apply Ok_inj in Hs. subst o.
  rd reads_u8 H tg Htg. apply bind_Ok in H as (o & Hs & H).
  destruct (negb (o =? zlen b)) eqn:Ho in H; [done|]. injection H as <-.
  assert (exists t, statement_ok t /\ [tg] ++ rest0 = w_statement t) as (t & Ht & Htail).
  { destruct (tg =? 0) eqn:E0.
    - apply Z.eqb_eq in E0 as ->. apply Ok_inj in Hs. subst o. eapply rest_end in Ho; [|eassumption]. subst. by exists None.
    - destruct (tg =? 1) eqn:E1; [|done]. apply Z.eqb_eq in E1 as ->.
      rd (reads_segment 16384 ltac:(unfold U16_MAX; lia)) Hs te Hte. apply Ok_inj in Hs. subst o.
      eapply rest_end in Ho; [|eassumption]. subst. exists (Some te). split; [done|]. by rewrite app_nil_r. }
  rewrite Htail in Hbody. exists (mkBundle ch g cc dc st po t). split; [|done]. apply bundle_encode_ok.
  split; [by split|]. split; [done|]. exact Hbody.
Qed.
Lemma take_segments_run caps vs b o rest : all_u8 b -> zlen b <= U64_MAX ->
  Forall2 (fun cap v => 0 <= cap <= U16_MAX /\ seg_ok cap v) caps vs -> rest_at (E:=SignalingCodecError) b o (concat (map seg vs) ++ rest) ->
  exists o', take_segments caps b o = Ok o' /\ rest_at (E:=SignalingCodecError) b o' rest.
Proof.
  intros Hu Hb Hall. revert o. induction Hall as [|cap v caps vs [Hcap Hv] Hall IH]; intros o HR; [by exists o|].
  cbn [map concat take_segments] in *. rewrite <- app_assoc in HR.
  pose proof (rest_at_length _ _ _ HR) as Hlen. rewrite zlen_app in Hlen.
  destruct HR as [Ho Hs]. apply slice_inv in Hs as Hi. apply slice_app_inv in Hs as [H1 H2]. pose proof (zlen_nonneg (seg v)).
  destruct (IH (o + zlen (seg v))) as (o' & Ho' & HR'); [split; [lia|done]|].
  exists o'. split; [|done]. apply bind_Ok. exists (v, o + zlen (seg v)). split; [|done].
  apply (reads_segment cap Hcap); [done|done|lia|]. done.
Qed.
Lemma fcab_write b v : all_u8 b -> bundle_encode v = Some b -> validate_fcab b = Ok (cb_childAttemptId v).
Proof.
  intros Hu ([] & Hl & Hbody)%bundle_encode_ok. assert (zlen b <= U64_MAX) as Hb by (unfold U64_MAX; lia).
  unfold validate_fcab. rewrite (proj2 (Z.ltb_ge _ _)) by done.
  rewrite (proj2 (preamble_ok b (ascii_bytes "FCAB") eq_refl))
    by (eexists; rewrite Hbody; unfold bundle_bytes, w_preamble; by rewrite <- app_assoc).
  rewrite bind_Ok_l. pose proof (rest_after_preamble (ascii_bytes "FCAB") _ eq_refl : rest_at (bundle_bytes v) 5 _) as HR.
  rewrite <- Hbody in HR. wr reads_id (cb_childAttemptId v); [done|].
  edestruct (take_segments_run [8192; 4096; 4096; 16384; 16384] [cb_grantJws v; cb_clientCertificateJws v; cb_daemonCertificateJws v;
    cb_authorityStatusJws v; cb_servicePolicyJws v] b (5 + zlen (id (cb_childAttemptId v))) (w_statement (cb_tenantStatementJws v))) as (o' & -> & HR'); [done|done| | |].
  { unfold U16_MAX. repeat constructor; done || lia. }
  { cbn [map concat]. rewrite app_nil_r. rewrite <- ?app_assoc. exact HR. }
  clear HR. rewrite bind_Ok_l. destruct (cb_tenantStatementJws v) as [t|]; cbn [w_statement statement_ok] in *.
  - change (1 :: seg t) with ([1] ++ seg t) in HR'. rewrite <- (app_nil_r (seg t)) in HR'.
    wr reads_u8 1; [done|]. cbn [Z.eqb Pos.eqb].
    destruct (take_segments_run [16384] [t] b (o' + zlen [1]) []) as (o2 & Ho2 & HR2); [done|done| | |].
    { unfold U16_MAX. repeat constructor; done || lia. }
    { cbn [map concat]. rewrite !app_nil_r. by rewrite app_nil_r in HR'. }
    cbn [take_segments] in Ho2. apply bind_Ok in Ho2 as ([x o3] & Hseg & [= ->]). rewrite Hseg. cbn [mbind result_bind].
    apply rest_at_length in HR2. change (zlen []) with 0 in HR2. rewrite Z.add_0_r in HR2. by rewrite HR2, Z.eqb_refl.
  - rewrite <- (app_nil_r [0]) in HR'. wr reads_u8 0; [done|]. cbn [Z.eqb mbind result_bind].
    apply rest_at_length in HR'. change (zlen []) with 0 in HR'. rewrite Z.add_0_r in HR'. by rewrite HR', Z.eqb_refl.
Qed.

(** *** Final proofs *)

Record endpoint_ok (v : EndpointFinalProof) : Prop := mkEndpointOk {
  eo_role : one_or_two (ep_role v) = true; eo_transport : one_or_two (ep_transport v) = true; eo_child : is_id (ep_childAttemptId v);
  eo_epoch : is_id (ep_transportEpoch v); eo_jti : is_id (ep_proofJti v); eo_cert : is_id (ep_certificateId v);
  eo_gd : zlen (ep_grantDigest v) = 32; eo_nd : zlen (ep_negotiationDigest v) = 32; eo_binding : zlen (ep_binding v) = 96;
  eo_sig : zlen (ep_signature v) = 64; eo_seq : positive (ep_admissionSequence v); eo_gen : positive (ep_certificateGeneration v) }.
Definition endpoint_agreement (v : EndpointFinalProof) : bytes :=
  [ep_transport v] ++ ep_childAttemptId v ++ ep_transportEpoch v ++ to_be 8 (ep_admissionSequence v) ++ ep_grantDigest v
    ++ ep_negotiationDigest v ++ ep_binding v.
Definition endpoint_bytes (v : EndpointFinalProof) : bytes :=
  w_preamble (ascii_bytes "FCFP") ++ [ep_role v; ep_transport v] ++ ep_childAttemptId v ++ ep_transportEpoch v
    ++ to_be 8 (ep_admissionSequence v) ++ ep_grantDigest v ++ ep_negotiationDigest v ++ to_be 2 96 ++ ep_binding v
    ++ ep_proofJti v ++ ep_certificateId v ++ to_be 8 (ep_certificateGeneration v) ++ ep_signature v.
(** What the daemon keeps of a proof. *)
Definition endpoint_summary (v : EndpointFinalProof) : RemoteEndpointFinalProofV1 :=
  mkFinalProof (ep_role v) (ep_transport v) (ep_childAttemptId v) (ep_proofJti v) (endpoint_agreement v).
Lemma endpoint_bytes_length v : endpoint_ok v -> zlen (endpoint_bytes v) = 313.
Proof.
  intros [_ _ [H1 _] [H2 _] [H3 _] [H4 _] H5 H6 H7 H8 _ _]. unfold endpoint_bytes, w_preamble. change (ascii_bytes "FCFP") with [70; 67; 70; 80].
  autorewrite with bytes. lia.
Qed.
Lemma final_proof_encode_ok v b : final_proof_encode v = Some b <-> endpoint_ok v /\ b = endpoint_bytes v.
Proof.
  split.
  - intros H. unfold final_proof_encode in H. enc_inv H. rewrite !orb_false_iff in G. destruct_and! G.
    rewrite ?negb_false_iff in *. apply andb_true_iff in C as [C1 C2].
    assert (endpoint_ok v) as Hok by (split; try done; first [by apply Z.eqb_eq|by split]). split; [exact Hok|].
    apply (inj Some) in H. rewrite (eo_binding v Hok) in H. symmetry. exact H.
  - intros [Hok ->]. unfold final_proof_encode. destruct (Hok). unfold positive in *. destruct_and?. unfold guard.
    rewrite eo_role0, eo_transport0. cbn [andb mbind option_bind]. rewrite !id16_run by done. cbn [mbind option_bind].
    assert (forall P Q, P = false -> Q = false -> P || Q = false) as Ho by (by intros [] []).
    match goal with |- (if ?c then None else _) = _ => assert (c = false) as -> end.
    { repeat apply Ho; try done; rewrite negb_false_iff; by apply Z.eqb_eq. }
    rewrite !w_u64_run by done. cbn [mbind option_bind]. cbv zeta. rewrite eo_binding0.
    fold (endpoint_bytes v).
    by rewrite endpoint_bytes_length.
Qed.
Local Ltac rf i j v := replace (slice _ i j) with (@Ok SignalingCodecError bytes v) by (symmetry; read_field; done); rewrite bind_Ok_l.
(** The decoder on a record cut into its fields. *)
Lemma final_proof_fields m r t ch ep sq gd nd bl bi pj ce ge sg :
  zlen m = 5 -> zlen ch = 16 -> zlen ep = 16 -> zlen sq = 8 -> zlen gd = 32 -> zlen nd = 32 -> zlen bl = 2 -> zlen bi = 96 ->
  zlen pj = 16 -> zlen ce = 16 -> zlen ge = 8 -> zlen sg = 64 ->
  let b := m ++ [r; t] ++ ch ++ ep ++ sq ++ gd ++ nd ++ bl ++ bi ++ pj ++ ce ++ ge ++ sg in
  final_proof_decode b =
  (_ ← preamble b (ascii_bytes "FCFP");
   if negb (one_or_two r) || negb (one_or_two t) then Err SigDiscriminant else
   _ ← nonzero ch; _ ← nonzero ep;
   if (from_be sq =? 0) || negb (from_be bl =? 96) then Err SigCombination else
   _ ← nonzero pj; _ ← nonzero ce;
   if from_be ge =? 0 then Err SigCombination else
   Ok (mkFinalProof r t ch pj ([t] ++ ch ++ ep ++ sq ++ gd ++ nd ++ bi))).
Proof.
  intros Hm Hch Hep Hsq Hgd Hnd Hbl Hbi Hpj Hce Hge Hsg b. unfold final_proof_decode.
  assert (zlen b = 313) as Hlen by (unfold b; autorewrite with bytes; lia). rewrite Hlen. cbn [Z.eqb Pos.eqb negb].
  destruct (preamble b _) as [[]| |]; [|done|done]. rewrite !bind_Ok_l. unfold b. clear Hlen b.
  replace (index _ 5) with (@Ok SignalingCodecError Z r) by (symmetry; cbn [app]; read_byte; done). rewrite bind_Ok_l.
  replace (index _ 6) with (@Ok SignalingCodecError Z t) by (symmetry; cbn [app]; read_byte; done). rewrite bind_Ok_l.
  destruct (_ || _); [done|].
  rf 7 23 ch. destruct (nonzero ch) as [[]| |]; [|done|done]. rewrite !bind_Ok_l.
  rf 23 39 ep. destruct (nonzero ep) as [[]| |]; [|done|done]. rewrite !bind_Ok_l. rf 39 47 sq. rf 111 113 bl.
  destruct (_ || _); [done|]. rf 209 225 pj. destruct (nonzero pj) as [[]| |]; [|done|done]. rewrite !bind_Ok_l.
  rf 225 241 ce. destruct (nonzero ce) as [[]| |]; [|done|done]. rewrite !bind_Ok_l. rf 241 249 ge.
  destruct (_ =? 0); [done|].
  replace (slice _ 7 111) with (@Ok SignalingCodecError bytes (ch ++ ep ++ sq ++ gd ++ nd)).
  2:{ symmetry. repeat first [rewrite slice_cons by zlen_solve|rewrite slice_skip by zlen_solve].
      rewrite !(app_assoc _ _ (bl ++ _)). rewrite <- !app_assoc. replace (ch ++ ep ++ sq ++ gd ++ nd ++ bl ++ bi ++ pj ++ ce ++ ge ++ sg)
        with ((ch ++ ep ++ sq ++ gd ++ nd) ++ bl ++ bi ++ pj ++ ce ++ ge ++ sg) by by rewrite <- !app_assoc. read_field. done. }
  rewrite bind_Ok_l. rf 113 209 bi. by rewrite <- !app_assoc.
Qed.
Lemma zlen_one (l : bytes) : zlen l = 1 -> exists x, l = [x].
Proof. intros H. destruct l as [|x [|y l]]; [done|by exists x|]. unfold zlen in H. cbn in H. lia. Qed.
Lemma be_of_slice n (l : bytes) : all_u8 l -> zlen l = Z.of_nat n -> l = to_be n (from_be l) /\ 0 <= from_be l < 256 ^ Z.of_nat n.
Proof.
  intros Hu Hl. split; [symmetry; apply to_be_from_be_n; [done|unfold zlen in Hl; lia]|].
  pose proof (from_be_bound l Hu) as Hb. unfold zlen in *. by rewrite Hl in Hb.
Qed.
Lemma nonzero_bind {B} v (k : unit -> res B) r : (u ← nonzero v; k u) = Ok r -> is_all_zero v = false /\ k tt = Ok r.
Proof. unfold nonzero. by destruct (is_all_zero v). Qed.
Lemma cut n (b : bytes) : 0 <= n <= zlen b -> exists x y, b = x ++ y /\ zlen x = n /\ zlen y = zlen b - n.
Proof.
  intros Hn. exists (take (Z.to_nat n) b), (drop (Z.to_nat n) b). rewrite take_drop. unfold zlen in *.
  rewrite length_take, length_drop. split; [done|]. lia.
Qed.
Local Ltac cut_field n b x Hx := let y := fresh "y" in destruct (cut n b) as (x & y & -> & Hx & ?); [lia|].
Lemma final_proof_write v : endpoint_ok v -> final_proof_decode (endpoint_bytes v) = Ok (endpoint_summary v).
Proof.
  intros [Hr Ht [L1 Z1] [L2 Z2] [L3 Z3] [L4 Z4] L5 L6 L7 L8 [U1 P1] [U2 P2]]. unfold endpoint_bytes.
  rewrite final_proof_fields by (first [done|by rewrite zlen_to_be]).
  rewrite (proj2 (preamble_ok _ (ascii_bytes "FCFP") eq_refl)) by (eexists; unfold w_preamble; by rewrite <- app_assoc).
  rewrite bind_Ok_l, Hr, Ht. cbn [negb orb]. unfold nonzero. rewrite Z1, Z2, Z3, Z4. cbn [mbind result_bind].
  unfold is_u64, U64_MAX in *. rewrite !from_be_to_be_small by (change (256 ^ Z.of_nat 8) with 18446744073709551616; lia).
  rewrite P1, P2. done.
Qed.
Lemma final_proof_read b p : all_u8 b -> final_proof_decode b = Ok p -> exists v, endpoint_ok v /\ b = endpoint_bytes v /\ p = endpoint_summary v.
Proof.
  intros Hu H. assert (zlen b = 313) as Hlen.
  { unfold final_proof_decode in H. destruct (zlen b =? 313) eqn:E; [by apply Z.eqb_eq|done]. }
  cut_field 5 b m Hm. cut_field 1 y r1 Hr. cut_field 1 y0 t1 Ht. cut_field 16 y ch Hch. cut_field 16 y0 ep Hep. cut_field 8 y sq Hsq.
  cut_field 32 y0 gd Hgd. cut_field 32 y nd Hnd. cut_field 2 y0 bl Hbl. cut_field 96 y bi Hbi. cut_field 16 y0 pj Hpj.
  cut_field 16 y ce Hce. cut_field 8 y0 gn Hgn.
  assert (zlen y = 64) as Hsg by lia. clear Hlen H0 H1 H2 H3 H4 H5 H6 H7 H8 H9 H10 H11 H12.
  apply zlen_one in Hr as [r ->]. apply zlen_one in Ht as [t ->].
  change ([r] ++ [t] ++ ?k) with ([r; t] ++ k) in *. rewrite final_proof_fields in H by done.
  apply bind_Ok in H as ([] & Hp & H). apply preamble_ok in Hp as [tail Hp]; [|done].
  rewrite (app_assoc (ascii_bytes "FCFP") [1]) in Hp.
  apply app_inj_1 in Hp as [-> _]; [|by apply Nat2Z.inj]. clear tail Hm.
  apply Forall_app in Hu as [_ Hu]. apply Forall_app in Hu as [_ Hu]. apply Forall_app in Hu as [_ Hu]. apply Forall_app in Hu as [_ Hu].
  apply Forall_app in Hu as [Usq Hu]. apply Forall_app in Hu as [_ Hu]. apply Forall_app in Hu as [_ Hu].
  apply Forall_app in Hu as [Ubl Hu]. apply Forall_app in Hu as [_ Hu]. apply Forall_app in Hu as [_ Hu].
  apply Forall_app in Hu as [_ Hu]. apply Forall_app in Hu as [Ugn _].
  destruct (_ || _) eqn:G1 in H; [done|]. apply orb_false_iff in G1 as [Gr Gt]. apply negb_false_iff in Gr, Gt.
  apply nonzero_bind in H as [Z1 H]. apply nonzero_bind in H as [Z2 H].
  destruct (_ || _) eqn:G2 in H; [done|]. apply orb_false_iff in G2 as [P1 G2]. apply negb_false_iff, Z.eqb_eq in G2.
  apply nonzero_bind in H as [Z3 H]. apply nonzero_bind in H as [Z4 H]. destruct (_ =? 0) eqn:P2 in H; [done|]. apply Ok_inj in H. subst p.
  destruct (be_of_slice 8 sq Usq Hsq) as [Esq Bsq]. destruct (be_of_slice 8 gn Ugn Hgn) as [Egn Bgn].
  destruct (be_of_slice 2 bl Ubl Hbl) as [Ebl _]. rewrite G2 in Ebl. change (256 ^ Z.of_nat 8) with 18446744073709551616 in *.
  exists (mkEndpointProof r t ch ep (from_be sq) gd nd bi pj ce (from_be gn) y). split; [|split].
  - unfold is_u64, U64_MAX. split; cbn; try done; split; try done; unfold is_u64, U64_MAX; lia.
  - unfold endpoint_bytes. cbn [ep_role ep_transport ep_childAttemptId ep_transportEpoch ep_admissionSequence ep_grantDigest
      ep_negotiationDigest ep_binding ep_proofJti ep_certificateId ep_certificateGeneration ep_signature].
    by rewrite <- Esq, <- Egn, <- Ebl.
  - unfold endpoint_summary, endpoint_agreement. cbn [ep_role ep_transport ep_childAttemptId ep_transportEpoch ep_admissionSequence ep_grantDigest
      ep_negotiationDigest ep_binding ep_proofJti]. by rewrite <- Esq.
Qed.

(** ** What the records promise *)

(** C18: The daemon and the TypeScript peer agree on the four admission records. On any bytes, the
    daemon's validator of the authentication bundle, of the signed daemon offer, of the signed
    client proof and of the endpoint final proof accepts exactly the byte strings the peer's
    encoder can produce; the child attempt it returns is the one that was encoded, and a final
    proof keeps the role, transport, proof id and the agreement bytes the peer computes. *)
Theorem admission_records_agree b : all_u8 b ->
  (forall child, validate_fcab b = Ok child <-> exists v, bundle_encode v = Some b /\ cb_childAttemptId v = child) /\
  (forall child, validate_fcdo b = Ok child <-> exists v, offer_encode v = Some b /\ do_childAttemptId v = child) /\
  (forall child, validate_fccp b = Ok child <-> exists v, proof_encode v = Some b /\ cp_childAttemptId v = child) /\
  (forall p, final_proof_decode b = Ok p <-> exists v, final_proof_encode v = Some b /\ agreement_bytes v = Some (fp_agreement p) /\
     fp_role p = ep_role v /\ fp_transport p = ep_transport v /\ fp_child_attempt_id p = ep_childAttemptId v /\ fp_proof_jti p = ep_proofJti v).
Proof.
  intros Hu. split; [|split; [|split]].
  - intros child. split; [by apply fcab_read|]. intros (v & Hv & <-). by apply fcab_write.
  - intros child. split; [by apply fcdo_read|]. intros (v & Hv & <-). by apply fcdo_write.
  - intros child. split; [by apply fccp_read|]. intros (v & Hv & <-). by apply fccp_write.
  - intros p. split.
    + intros (v & Hok & Hb & ->)%final_proof_read; [|done]. exists v. split; [by apply final_proof_encode_ok|].
      split; [|done]. unfold agreement_bytes. destruct (eo_seq v Hok) as [Hs _]. by rewrite w_u64_run.
    + intros (v & (Hok & ->)%final_proof_encode_ok & Ha & E1 & E2 & E3 & E4). rewrite final_proof_write by done. f_equal.
      unfold agreement_bytes in Ha. destruct (eo_seq v Hok) as [Hs _]. rewrite w_u64_run in Ha by done. cbn [mbind option_bind] in Ha.
      apply (inj Some) in Ha. unfold endpoint_summary, endpoint_agreement. rewrite Ha. destruct p; cbn in *. congruence.
Qed.

(** C29: Signaling events and their acknowledgements survive the wire and have one encoding. A byte
    string decodes to an event exactly when encoding that event produces those bytes, so every
    check the sender makes (transport, role and kind combination, payload shape, nonzero ids) is
    made by the receiver too; the same holds of acknowledgements; and no byte string makes either
    decoder, or any payload validator, panic. *)
Theorem signaling_codec_exact b : all_u8 b ->
  (forall r, request_decode b = Ok r <-> request_typed r /\ request_encode r = Ok b) /\
  (forall a, commit_ack_decode b = Ok a <-> ack_typed a /\ commit_ack_encode a = Ok b) /\
  request_decode b <> Panic /\ commit_ack_decode b <> Panic /\ validate_fcab b <> Panic /\ validate_fcdo b <> Panic /\
  validate_fccp b <> Panic /\ final_proof_decode b <> Panic /\ (forall answer, validate_webrtc_description b answer <> Panic) /\
  validate_webrtc_candidate b <> Panic /\ validate_webrtc_ice_complete b <> Panic /\ validate_fallback_pair b <> Panic /\
  validate_fallback_noise b <> Panic /\ validate_ready b <> Panic.
Proof.
  intros Hu. split.
  { intros r. split; [by apply request_decode_inv|]. intros []. by apply request_decode_encode. }
  split; [intros a; split; [by apply commit_ack_decode_inv|]; intros []; by apply commit_ack_decode_encode|].
  auto 20 using request_decode_no_panic, commit_ack_decode_no_panic, validate_fcab_no_panic, validate_fcdo_no_panic,
    validate_fccp_no_panic, final_proof_no_panic, webrtc_description_no_panic, webrtc_candidate_no_panic, webrtc_ice_complete_no_panic,
    fallback_pair_no_panic, fallback_noise_no_panic, ready_no_panic.
Qed.

Section Digest.
Context `{Sha256}.

Lemma final_proof_length b p : final_proof_decode b = Ok p -> zlen b = 313.
Proof. unfold final_proof_decode. destruct (zlen b =? 313) eqn:E; [|done]. intros _. by apply Z.eqb_eq. Qed.
Lemma proof_set_digest_ok c d x : final_proof_set_digest c d = Ok x ->
  x = sha256 (concat (final_proof_set_parts c d)) /\ exists pc pd, final_proof_decode c = Ok pc /\ final_proof_decode d = Ok pd /\
    fp_role pc = 1 /\ fp_role pd = 2 /\ fp_agreement pc = fp_agreement pd.
Proof.
  unfold final_proof_set_digest. intros Hd. destruct (_ || _) eqn:G in Hd; [done|]. clear G.
  apply bind_Ok in Hd as (pc & Hc & Hd). apply bind_Ok in Hd as (pd & Hd' & Hd). destruct (_ || _) eqn:G in Hd; [done|].
  apply orb_false_iff in G as [G Ga]. apply orb_false_iff in G as [G1 G2]. rewrite negb_false_iff in G1, G2, Ga.
  apply Z.eqb_eq in G1, G2. apply bool_decide_eq_true in Ga. apply Ok_inj in Hd. subst x. split; [by rewrite hasher_spec|].
  by exists pc, pd.
Qed.
Lemma proof_set_parts_inj c d c' d' : zlen c = 313 -> zlen d = 313 -> zlen c' = 313 -> zlen d' = 313 ->
  concat (final_proof_set_parts c d) = concat (final_proof_set_parts c' d') -> c = c' /\ d = d'.
Proof.
  intros Hc Hd Hc' Hd'. unfold final_proof_set_parts. rewrite Hc, Hd, Hc', Hd'. cbn [concat]. rewrite !app_nil_r.
  intros E%(inj _)%(inj _). apply app_inj_1 in E as [-> E]; [|by apply Nat2Z.inj; etrans; [apply Hc|symmetry; apply Hc']].
  split; [done|]. by apply (inj _) in E.
Qed.

(** The digest of a pair of final proofs binds the pair. When it exists, one proof is the
    client's and the other the daemon's, and they agree on transport, child, epoch, sequence,
    grant, negotiation and channel binding; two pairs with the same digest are the same pair,
    byte for byte, unless two different messages with the same SHA-256 are exhibited. *)
Theorem proof_set_digest_binds c d c' d' x : final_proof_set_digest c d = Ok x -> final_proof_set_digest c' d' = Ok x ->
  (exists pc pd, final_proof_decode c = Ok pc /\ final_proof_decode d = Ok pd /\ fp_role pc = 1 /\ fp_role pd = 2 /\
     fp_agreement pc = fp_agreement pd) /\
  ((c = c' /\ d = d') \/ exists m m', m <> m' /\ sha256 m = sha256 m').
Proof using Type.
  intros (E & pc & pd & Hc & Hd & Hr)%proof_set_digest_ok (E' & pc' & pd' & Hc' & Hd' & _)%proof_set_digest_ok.
  split; [by exists pc, pd|]. apply final_proof_length in Hc, Hd, Hc', Hd'.
  destruct (decide (concat (final_proof_set_parts c d) = concat (final_proof_set_parts c' d'))) as [Heq|Hne].
  - left. by apply proof_set_parts_inj in Heq.
  - right. eexists _, _. split; [exact Hne|]. congruence.
Qed.
End Digest.

(** ** Concrete records *)

Module SignalingWitnesses.
#[local] Existing Instance Toy_sha256.
Definition an_id (x : Z) : bytes := repeat x 16.
Definition a_digest (x : Z) : bytes := repeat x 32.
Definition sample_offer : DaemonAdmissionOfferV1 :=
  mkOffer (an_id 1) (an_id 2) 3 (an_id 4) 5 (an_id 6) (an_id 7) (an_id 8) (a_digest 9) (a_digest 10) 1 1 (a_digest 11) (Some (a_digest 12))
    3 [1; 2] (an_id 13) (-5) 20 (repeat 14 64).
Definition sample_final (role : Z) : EndpointFinalProof :=
  mkEndpointProof role 1 (an_id 7) (an_id 20) 1 (a_digest 21) (a_digest 22) (repeat 23 96) (an_id (24 + role)) (an_id (26 + role)) 1 (repeat 30 64).
Definition offer_wire : bytes := Eval vm_compute in default [] (offer_encode sample_offer).
Definition client_wire : bytes := Eval vm_compute in default [] (final_proof_encode (sample_final 1)).
Definition daemon_wire : bytes := Eval vm_compute in default [] (final_proof_encode (sample_final 2)).
Local Ltac compute_decide := refine (bool_decide_unpack _ _); vm_compute; exact I.

Lemma admission_records_agree_witness :
  offer_encode sample_offer = Some offer_wire /\ validate_fcdo offer_wire = Ok (an_id 7) /\
  exists v, final_proof_encode v = Some daemon_wire /\ ep_role v = 2 /\ ep_transportEpoch v = an_id 20.
Proof.
  split; [vm_compute; reflexivity|]. split.
  - assert (all_u8 offer_wire) as Hu by compute_decide.
    apply (proj1 (proj2 (admission_records_agree offer_wire Hu))). exists sample_offer. split; vm_compute; reflexivity.
  - exists (sample_final 2). split; [vm_compute; reflexivity|]. split; reflexivity.
Defined.

Lemma signaling_codec_exact_witness :
  exists r, request_encode r = Ok (REQUEST_MAGIC ++ [1; 1; 1; 1] ++ an_id 7 ++ an_id 8 ++ to_be 4 0) /\
    request_decode (REQUEST_MAGIC ++ [1; 1; 1; 1] ++ an_id 7 ++ an_id 8 ++ to_be 4 0) = Ok r.
Proof.
  exists (mkEventRequest 1 1 1 (an_id 7) (an_id 8) []). split; [vm_compute; reflexivity|].
  refine (proj2 (proj1 (signaling_codec_exact _ _) _) _); [compute_decide|]. split; [by split|]. vm_compute. reflexivity.
Defined.

Lemma proof_set_digest_binds_witness : exists x, final_proof_set_digest client_wire daemon_wire = Ok x /\
  exists pc pd, final_proof_decode client_wire = Ok pc /\ final_proof_decode daemon_wire = Ok pd /\ fp_agreement pc = fp_agreement pd.
Proof.
  eexists. split; [vm_compute; reflexivity|].
  destruct (proj1 (proof_set_digest_binds client_wire daemon_wire client_wire daemon_wire _ eq_refl eq_refl))
    as (pc & pd & Hc & Hd & _ & _ & Ha).
  exists pc, pd. by split.
Defined.
End SignalingWitnesses.
