(* ===== verification/Version.v ===== *)
(** Protocol tuple negotiation ([cockpit-proto/src/remote_version.rs]): the registry of compatible
    tuples, selection, the upgrade advice, and the negotiation transcript with its digest.  The
    functions take the enabled registry as an argument where the source calls
    [enabled_registry()], so that what is proved does not depend on its single entry. *)

From S2P Require Import Prelude.
From S2P Require Import ProtocolId.
From S2P Require Import NoisePrologue.
From S2P Require Import Reader.
From stdpp Require Import options.

(** ** Registry *)

(** remote_version.rs:67-79 RemoteVersionError. *)
Inductive RemoteVersionError := VLength | VPreamble | VDiscriminant | VCombination | VInvalid.
#[export] Instance RemoteVersionError_eq_dec : EqDecision RemoteVersionError.
Proof. solve_decision. Defined.
Local Abbreviation res := (result RemoteVersionError).

(** remote_version.rs:86-90 CriticalFeature. *)
Record CriticalFeature := mkFeature { cf_id : Z; cf_version : Z }.
#[export] Instance CriticalFeature_eq_dec : EqDecision CriticalFeature.
Proof. solve_decision. Defined.
(** remote_version.rs:93-103 CompatibleTuple. *)
Record CompatibleTuple := mkTuple {
  ct_tuple_id : Z; ct_signaling : Z; ct_authorization : Z; ct_transport : Z; ct_application : Z; ct_security_rank : Z;
  ct_critical_features : list CriticalFeature }.

(** remote_version.rs:26-26 TRANSCRIPT_MAGIC. *)
Definition TRANSCRIPT_MAGIC : bytes := Eval vm_compute in (ascii_bytes "FCRN").
(** remote_version.rs:28-28 TRANSCRIPT_VERSION. *)
Definition TRANSCRIPT_VERSION : Z := 1.
(** remote_version.rs:32-32 TRANSCRIPT_FIXED_BYTES. *)
Definition TRANSCRIPT_FIXED_BYTES : Z := 140.
(** remote_version.rs:34-34 TRANSCRIPT_MAX_BYTES. *)
Definition TRANSCRIPT_MAX_BYTES : Z := 364.
(** remote_version.rs:38-38 TRANSCRIPT_MIN_BYTES. *)
Definition TRANSCRIPT_MIN_BYTES : Z := 146.
(** remote_version.rs:46-46 TUPLE_LIST_MIN. *)
Definition TUPLE_LIST_MIN : Z := 1.
(** remote_version.rs:47-47 TUPLE_LIST_MAX. *)
Definition TUPLE_LIST_MAX : Z := 16.
(** remote_version.rs:49-49 FEATURE_LIST_MAX. *)
Definition FEATURE_LIST_MAX : Z := 32.
(** remote_version.rs:41-41 TRANSPORT_WEBRTC. *)
Definition TRANSPORT_WEBRTC : Z := 1.
(** remote_version.rs:43-43 TRANSPORT_WEBSOCKET_DATA. *)
Definition TRANSPORT_WEBSOCKET_DATA : Z := 2.
(** remote_version.rs:52-52 V1_TUPLE_ID. *)
Definition V1_TUPLE_ID : Z := 1.
(** remote_version.rs:54-54 V1_SECURITY_RANK. *)
Definition V1_SECURITY_RANK : Z := 100.
(** proto/lib.rs:1539-1539 PROTOCOL_VERSION. *)
Definition PROTOCOL_VERSION : Z := 1.
(** remote_version.rs:61-61 REGISTRY_DIGEST_DOMAIN. *)
Definition REGISTRY_DIGEST_DOMAIN : bytes := Eval vm_compute in (ascii_bytes "flycockpit.remote.version-registry.v1" ++ [0]).
(** remote_version.rs:109-122 v1_tuple. *)
Definition v1_tuple : CompatibleTuple := mkTuple V1_TUPLE_ID 1 1 1 PROTOCOL_VERSION V1_SECURITY_RANK [].
(** remote_version.rs:125-127 enabled_registry. *)
Definition enabled_registry : list CompatibleTuple := [v1_tuple].

(** [expect]. *)
Definition expect {E A} (o : option A) : result E A := match o with Some a => Ok a | None => Panic end.
(** [Ordering::then_with]. *)
Definition then_with (c d : comparison) : comparison := match c with Eq => d | _ => c end.
(** [Iterator::max_by]: the last of the greatest elements. *)
Definition max_by {A} (cmp : A -> A -> comparison) (l : list A) : option A :=
  match l with
  | [] => None
  | x :: l => Some (fold_left (fun m y => match cmp m y with Gt => m | _ => y end) l x)
  end.
(** [map] of a closure that may panic. *)
Fixpoint traverse {E A B} (f : A -> result E B) (l : list A) : result E (list B) :=
  match l with [] => Ok [] | x :: l => y ← f x; ys ← traverse f l; Ok (y :: ys) end.
(** [Vec::dedup]. *)
Fixpoint dedup (l : list Z) : list Z :=
  match l with
  | x :: ((y :: _) as r) => if x =? y then dedup r else x :: dedup r
  | _ => l
  end.

(** remote_version.rs:179-187 SelectionInputs. *)
Record SelectionInputs := mkSelection { si_client : list Z; si_daemon : list Z; si_server_allowed : list Z; si_revoked : list Z }.
(** remote_version.rs:190-195 SelectedTuple. *)
Record SelectedTuple := mkSelected { st_tuple_id : Z; st_security_rank : Z; st_critical_features : list CriticalFeature }.
(** remote_version.rs:271-277 UpgradeSide. *)
Inductive UpgradeSide := UsClient | UsDaemon | UsServerPolicy | UsMultiple.
(** remote_version.rs:260-269 UpgradeRequired. The fixed [code] is a flag: whether the input was valid. *)
Record UpgradeRequired := mkUpgrade {
  ur_valid_code : bool; ur_protocol_version : Z; ur_upgrade_side : UpgradeSide; ur_client_supported : list Z;
  ur_daemon_supported : list Z; ur_server_allowed : list Z; ur_recommended_tuple_id : option Z }.

(** ** Selection *)

(** remote_version.rs:145-154 validate_tuple_list. The loop. *)
Fixpoint validate_tuple_loop (previous : Z) (ids : list Z) : res unit :=
  match ids with
  | [] => Ok tt
  | id :: ids =>
      if id =? 0 then Err VInvalid else
      if id <=? previous then Err VCombination else validate_tuple_loop id ids
  end.
(** remote_version.rs:141-156 validate_tuple_list. *)
Definition validate_tuple_list (ids : list Z) : res unit :=
  if negb ((TUPLE_LIST_MIN <=? zlen ids) && (zlen ids <=? TUPLE_LIST_MAX)) then Err VLength else validate_tuple_loop 0 ids.

Section Registry.
Variable registry : list CompatibleTuple.

(** remote_version.rs:130-134 registry_tuple. *)
Definition registry_tuple (tuple_id : Z) : option CompatibleTuple := List.find (fun t => ct_tuple_id t =? tuple_id) registry.
(** remote_version.rs:160-171 enabled_ids. *)
Definition enabled_ids (revoked : list Z) : list Z :=
  map ct_tuple_id (filter (fun t => ct_tuple_id t ∉ revoked) registry).

(** The checks both selection and advice begin with. *)
Definition validate_inputs (i : SelectionInputs) : res unit :=
  _ ← validate_tuple_list (si_client i);
  _ ← validate_tuple_list (si_daemon i);
  _ ← validate_tuple_list (si_server_allowed i);
  if bool_decide (0 ∈ si_revoked i) then Err VInvalid else Ok tt.
(** remote_version.rs:237-239 select. Its comparator, on ids with their ranks. *)
Definition compare_ranked (a b : Z * Z) : comparison := then_with (Z.compare a.2 b.2) (Z.compare b.1 a.1).
(** remote_version.rs:203-252 select. *)
Definition select (i : SelectionInputs) : res (option SelectedTuple) :=
  _ ← validate_inputs i;
  let enabled := enabled_ids (si_revoked i) in
  let candidates := filter (fun id => id ∈ enabled)
    (filter (fun id => id ∈ si_server_allowed i) (filter (fun id => id ∈ si_daemon i) (si_client i))) in
  match candidates with
  | [] => Ok None
  | _ =>
      ranked ← traverse (fun id => entry ← expect (registry_tuple id); Ok (id, ct_security_rank entry)) candidates;
      best ← expect (max_by compare_ranked ranked);
      entry ← expect (registry_tuple best.1);
      Ok (Some (mkSelected best.1 best.2 (ct_critical_features entry)))
  end.

(** remote_version.rs:334-340 upgrade_required. [rank_of]. *)
Definition rank_of (id : Z) : Z := match registry_tuple id with Some t => ct_security_rank t | None => 0 end.
Definition compare_ids (a b : Z) : comparison := then_with (Z.compare (rank_of a) (rank_of b)) (Z.compare b a).
(** remote_version.rs:342-346 upgrade_required. [best_in]. *)
Definition best_in (ids : list Z) : option Z := max_by compare_ids ids.
Definition support (i : SelectionInputs) (id : Z) : Z :=
  (if bool_decide (id ∈ si_client i) then 1 else 0) + (if bool_decide (id ∈ si_daemon i) then 1 else 0).
(** remote_version.rs:363-370 upgrade_required. The comparator of the last branch. *)
Definition compare_supported (i : SelectionInputs) (a b : Z) : comparison :=
  then_with (Z.compare (support i a) (support i b)) (compare_ids a b).
(** remote_version.rs:389-398 upgrade_required. [filter_sort]. *)
Definition filter_sort (enabled ids : list Z) : list Z := dedup (merge_sort Z.le (filter (fun id => id ∈ enabled) ids)).
(** remote_version.rs:317-385 upgrade_required. The side and the recommendation. *)
Definition upgrade_advice (i : SelectionInputs) : res (UpgradeSide * option Z) :=
  let enabled := enabled_ids (si_revoked i) in
  let p := filter (fun id => id ∈ enabled) (filter (fun id => id ∈ si_daemon i) (si_client i)) in
  let s := filter (fun id => id ∈ enabled) (si_server_allowed i) in
  if negb (bool_decide (p = [])) && forallb (fun id => negb (bool_decide (id ∈ si_server_allowed i))) p
  then Ok (UsServerPolicy, best_in p)
  else if bool_decide (s = []) then Ok (UsServerPolicy, None)
  else
    best ← expect (max_by (compare_supported i) s);
    match bool_decide (best ∈ si_client i), bool_decide (best ∈ si_daemon i) with
    | true, true => Err VCombination
    | false, true => Ok (UsClient, Some best)
    | true, false => Ok (UsDaemon, Some best)
    | false, false => Ok (UsMultiple, Some best)
    end.
(** remote_version.rs:304-412 upgrade_required. *)
Definition upgrade_required (i : SelectionInputs) : res UpgradeRequired :=
  _ ← validate_inputs i;
  '(side, recommended) ← upgrade_advice i;
  let enabled := enabled_ids (si_revoked i) in
  Ok (mkUpgrade true TRANSCRIPT_VERSION side (filter_sort enabled (si_client i)) (filter_sort enabled (si_daemon i))
        (filter_sort enabled (si_server_allowed i)) recommended).
(** remote_version.rs:416-428 invalid_input_error. *)
Definition invalid_input_error : UpgradeRequired := mkUpgrade false TRANSCRIPT_VERSION UsServerPolicy [] [] [] None.

(** ** Transcript *)

(** remote_version.rs:435-448 RemoteNegotiationTranscriptV1. *)
Record RemoteNegotiationTranscriptV1 := mkTranscript {
  nt_transport : Z; nt_child_attempt_id : bytes; nt_grant_jti : bytes; nt_server_nonce : bytes; nt_client_nonce : bytes;
  nt_policy_digest : bytes; nt_client_tuple_ids : list Z; nt_daemon_tuple_ids : list Z; nt_server_allowed_tuple_ids : list Z;
  nt_selected_tuple_id : Z; nt_critical_features : list CriticalFeature }.

(** remote_version.rs:450-459 take. *)
Definition v_take (b : bytes) (offset size : Z) : res (bytes * Z) := take_at VLength b offset size.
(** remote_version.rs:461-463 take_u8. *)
Definition v_take_u8 (b : bytes) (offset : Z) : res (Z * Z) := '(v, o) ← v_take b offset 1; x ← index v 0; Ok (x, o).
(** remote_version.rs:465-469 take_u16. *)
Definition v_take_u16 (b : bytes) (offset : Z) : res (Z * Z) := '(v, o) ← v_take b offset 2; Ok (from_be v, o).
(** remote_version.rs:486-495 take_tuple_list. The checks of one element. *)
Definition tuple_element (last : option Z) (value : Z) : option RemoteVersionError :=
  if value =? 0 then Some VInvalid else
  match last with Some l => if value <=? l then Some VCombination else None | None => None end.
(** remote_version.rs:480-497 take_tuple_list. *)
Definition take_tuple_list (b : bytes) (offset : Z) : res (list Z * Z) :=
  '(count, o) ← v_take_u8 b offset;
  if negb ((TUPLE_LIST_MIN <=? count) && (count <=? TUPLE_LIST_MAX)) then Err VLength else
  list_loop v_take_u16 tuple_element (Z.to_nat count) None b o.
(** remote_version.rs:509-510 take_feature_list. One pair. *)
Definition take_feature (b : bytes) (offset : Z) : res (CriticalFeature * Z) :=
  '(id, o) ← v_take_u16 b offset; '(version, o) ← v_take_u16 b o; Ok (mkFeature id version, o).
(** remote_version.rs:511-520 take_feature_list. The checks of one pair. *)
Definition feature_element (last : option CriticalFeature) (f : CriticalFeature) : option RemoteVersionError :=
  if cf_id f =? 0 then Some VInvalid else
  match last with Some l => if cf_id f <=? cf_id l then Some VCombination else None | None => None end.
(** remote_version.rs:499-523 take_feature_list. *)
Definition take_feature_list (b : bytes) (offset : Z) : res (list CriticalFeature * Z) :=
  '(count, o) ← v_take_u8 b offset;
  if FEATURE_LIST_MAX <? count then Err VLength else list_loop take_feature feature_element (Z.to_nat count) None b o.

(** remote_version.rs:551-555 RemoteNegotiationTranscriptV1::encode. [windows(2)]. *)
Fixpoint features_ordered (fs : list CriticalFeature) : bool :=
  match fs with
  | f :: ((g :: _) as r) => (cf_id f <? cf_id g) && features_ordered r
  | _ => true
  end.
Definition selected_in_all (t : RemoteNegotiationTranscriptV1) : bool :=
  bool_decide (nt_selected_tuple_id t ∈ nt_client_tuple_ids t) && bool_decide (nt_selected_tuple_id t ∈ nt_daemon_tuple_ids t)
  && bool_decide (nt_selected_tuple_id t ∈ nt_server_allowed_tuple_ids t).
Definition tuple_ids_bytes (ids : list Z) : bytes := (zlen ids mod 256) :: concat (map (to_be 2) ids).
Definition feature_bytes (f : CriticalFeature) : bytes := to_be 2 (cf_id f) ++ to_be 2 (cf_version f).
Definition features_bytes (fs : list CriticalFeature) : bytes := (zlen fs mod 256) :: concat (map feature_bytes fs).
(** remote_version.rs:527-609 RemoteNegotiationTranscriptV1::encode. *)
Definition transcript_encode (t : RemoteNegotiationTranscriptV1) : res bytes :=
  if negb (nt_transport t =? TRANSPORT_WEBRTC) && negb (nt_transport t =? TRANSPORT_WEBSOCKET_DATA) then Err VDiscriminant else
  _ ← validate_tuple_list (nt_client_tuple_ids t);
  _ ← validate_tuple_list (nt_daemon_tuple_ids t);
  _ ← validate_tuple_list (nt_server_allowed_tuple_ids t);
  if nt_selected_tuple_id t =? 0 then Err VInvalid else
  if negb (selected_in_all t) then Err VCombination else
  if FEATURE_LIST_MAX <? zlen (nt_critical_features t) then Err VLength else
  if negb (features_ordered (nt_critical_features t)) then Err VCombination else
  if negb (forallb (fun f => negb (cf_id f =? 0)) (nt_critical_features t)) then Err VInvalid else
  match registry_tuple (nt_selected_tuple_id t) with
  | None => Err VInvalid
  | Some entry =>
      if negb (bool_decide (ct_critical_features entry = nt_critical_features t)) then Err VCombination else
      if TRANSCRIPT_MAX_BYTES <? TRANSCRIPT_FIXED_BYTES + zlen (nt_client_tuple_ids t) * 2 + zlen (nt_daemon_tuple_ids t) * 2
           + zlen (nt_server_allowed_tuple_ids t) * 2 + zlen (nt_critical_features t) * 4
      then Err VLength else
      Ok (TRANSCRIPT_MAGIC ++ [TRANSCRIPT_VERSION] ++ [nt_transport t] ++ nt_child_attempt_id t ++ nt_grant_jti t ++ nt_server_nonce t
            ++ nt_client_nonce t ++ nt_policy_digest t ++ tuple_ids_bytes (nt_client_tuple_ids t) ++ tuple_ids_bytes (nt_daemon_tuple_ids t)
            ++ tuple_ids_bytes (nt_server_allowed_tuple_ids t) ++ to_be 2 (nt_selected_tuple_id t) ++ features_bytes (nt_critical_features t))
  end.
Definition known (id : Z) : bool := match registry_tuple id with Some _ => true | None => false end.
(** remote_version.rs:615-689 RemoteNegotiationTranscriptV1::decode. *)
Definition transcript_decode (b : bytes) : res RemoteNegotiationTranscriptV1 :=
  if (zlen b <? TRANSCRIPT_MIN_BYTES) || (TRANSCRIPT_MAX_BYTES <? zlen b) then Err VLength else
  m ← slice b 0 4;
  if negb (bool_decide (m = TRANSCRIPT_MAGIC)) then Err VPreamble else
  '(version, o) ← v_take_u8 b 4;
  if negb (version =? TRANSCRIPT_VERSION) then Err VPreamble else
  '(transport, o) ← v_take_u8 b o;
  if negb (transport =? TRANSPORT_WEBRTC) && negb (transport =? TRANSPORT_WEBSOCKET_DATA) then Err VDiscriminant else
  '(child, o) ← v_take b o 16;
  '(jti, o) ← v_take b o 16;
  '(server_nonce, o) ← v_take b o 32;
  '(client_nonce, o) ← v_take b o 32;
  '(policy, o) ← v_take b o 32;
  '(client, o) ← take_tuple_list b o;
  '(daemon, o) ← take_tuple_list b o;
  '(server, o) ← take_tuple_list b o;
  '(selected, o) ← v_take_u16 b o;
  if selected =? 0 then Err VInvalid else
  if negb (bool_decide (selected ∈ client)) || negb (bool_decide (selected ∈ daemon)) || negb (bool_decide (selected ∈ server))
  then Err VCombination else
  '(features, o) ← take_feature_list b o;
  if negb (o =? zlen b) then Err VLength else
  match registry_tuple selected with
  | None => Err VInvalid
  | Some entry =>
      if negb (bool_decide (ct_critical_features entry = features)) then Err VCombination else
      if negb (forallb known (client ++ daemon ++ server)) then Err VInvalid else
      Ok (mkTranscript transport child jti server_nonce client_nonce policy client daemon server selected features)
  end.

(** ** Digests *)

Context `{Sha256}.
(** remote_version.rs:697-701 transcript_digest. *)
Definition transcript_digest (b : bytes) : res bytes := _ ← transcript_decode b; Ok (sha256 b).
(** remote_version.rs:735-744 verify_transcript_digest. *)
Definition verify_transcript_digest (b expected : bytes) : res unit :=
  computed ← transcript_digest b;
  if negb (bool_decide (computed = expected)) then Err VCombination else Ok tt.
(** One entry of the registry, as it is hashed. *)
Definition tuple_parts (t : CompatibleTuple) : list bytes :=
  [to_be 2 (ct_tuple_id t); to_be 2 (ct_signaling t); to_be 2 (ct_authorization t); to_be 2 (ct_transport t);
   to_be 2 (ct_application t); to_be 2 (ct_security_rank t); [zlen (ct_critical_features t) mod 256]]
  ++ concat (map (fun f => [to_be 2 (cf_id f); to_be 2 (cf_version f)]) (ct_critical_features t)).
Definition tuple_le (a b : CompatibleTuple) : Prop := ct_tuple_id a <= ct_tuple_id b.
#[local] Instance tuple_le_dec : RelDecision tuple_le := fun a b => decide (ct_tuple_id a <= ct_tuple_id b).
(** remote_version.rs:709-730 enabled_registry_digest. *)
Definition enabled_registry_digest : bytes :=
  let sorted := merge_sort tuple_le registry in
  hasher_finalize (foldl hasher_update hasher_new
    ([REGISTRY_DIGEST_DOMAIN; [zlen sorted mod 256]] ++ concat (map tuple_parts sorted))).
End Registry.
