(* ===== verification/VersionProps.v ===== *)
(** What negotiation promises: the two ends select the same best tuple, the upgrade advice can be
    followed, and a transcript has one encoding. *)

From S2P Require Import Prelude.
From S2P Require Import ProtocolId.
From S2P Require Import NoiseRecord.
From S2P Require Import Reader.
From S2P Require Import Version.
From stdpp Require Import options.
Set Warnings "-clear-no-such-hyp".

Local Abbreviation res := (result RemoteVersionError).

(** ** The greatest element *)

Section MaxBy.
Context {A : Type} (cmp : A -> A -> comparison) (le : A -> A -> Prop).
Hypothesis cmp_le : forall a b, (cmp a b = Gt -> le b a) /\ (cmp a b <> Gt -> le a b).
Context `{!PreOrder le}.
Lemma max_fold l x : let m := fold_left (fun m y => match cmp m y with Gt => m | _ => y end) l x in
  m ∈ x :: l /\ forall y, y ∈ x :: l -> le y m.
Proof using Type*.
  revert x. induction l as [|y l IH]; intros x; cbn [fold_left].
  - split; [by left|]. intros z ->%list_elem_of_singleton. done.
  - set (m := match cmp x y with Gt => x | _ => y end). specialize (IH m) as [Hin Hle].
    assert (m ∈ [x; y] /\ le x m /\ le y m) as (Hm & Hx & Hy).
    { destruct (cmp_le x y) as [H1 H2]. unfold m. destruct (cmp x y); (split; [set_solver|split; [done||by apply H2|done||by apply H1]]). }
    clearbody m. rewrite !elem_of_cons, elem_of_nil in Hm. split.
    { apply elem_of_cons in Hin as [->|Hin]; [|by do 2 right]. destruct Hm as [->|[->|[]]]; [by left|by right; left]. }
    intros z [->|[->|Hl]%elem_of_cons]%elem_of_cons.
    + etrans; [exact Hx|]. apply Hle. by left.
    + etrans; [exact Hy|]. apply Hle. by left.
    + apply Hle. by right.
Qed.
Lemma max_by_greatest l m : max_by cmp l = Some m -> m ∈ l /\ forall y, y ∈ l -> le y m.
Proof using Type*. destruct l as [|x l]; [done|]. intros [= <-]. apply max_fold. Qed.
Lemma max_by_some l : l <> [] -> exists m, max_by cmp l = Some m.
Proof using Type. destruct l as [|x l]; [done|]. intros _. by eexists. Qed.
End MaxBy.

(** ** Selection *)

Fixpoint rising (previous : Z) (ids : list Z) : Prop := match ids with [] => True | id :: ids => previous < id /\ rising id ids end.
Definition valid_list (ids : list Z) : Prop := 1 <= zlen ids <= 16 /\ rising 0 ids.
Definition valid_inputs (i : SelectionInputs) : Prop :=
  valid_list (si_client i) /\ valid_list (si_daemon i) /\ valid_list (si_server_allowed i) /\ 0 ∉ si_revoked i.

Lemma validate_loop_ok p ids : 0 <= p -> validate_tuple_loop p ids = Ok tt <-> rising p ids.
Proof.
  revert p. induction ids as [|id ids IH]; intros p Hp; [done|]. cbn [validate_tuple_loop rising].
  destruct (Z.eqb_spec id 0); [split; [done|lia]|]. destruct (Z.leb_spec id p); [split; [done|lia]|]. rewrite IH by lia. tauto.
Qed.
Lemma validate_loop_no_panic p ids : validate_tuple_loop p ids <> Panic.
Proof. revert p. induction ids as [|id ids IH]; intros p; [done|]. cbn. destruct (_ =? _); [done|]. by destruct (_ <=? _). Qed.
Lemma validate_list_ok ids : validate_tuple_list ids = Ok tt <-> valid_list ids.
Proof.
  unfold validate_tuple_list, valid_list, TUPLE_LIST_MIN, TUPLE_LIST_MAX.
  destruct (Z.leb_spec 1 (zlen ids)), (Z.leb_spec (zlen ids) 16); cbn [andb negb]; try (split; [done|lia]).
  rewrite validate_loop_ok by lia. tauto.
Qed.
Lemma validate_list_no_panic ids : validate_tuple_list ids <> Panic.
Proof. unfold validate_tuple_list. destruct (negb _); [done|apply validate_loop_no_panic]. Qed.
Lemma validate_inputs_ok i : validate_inputs i = Ok tt <-> valid_inputs i.
Proof.
  unfold validate_inputs, valid_inputs. rewrite <- !validate_list_ok. split.
  - intros ([] & H1 & H)%bind_Ok. apply bind_Ok in H as ([] & H2 & H). apply bind_Ok in H as ([] & H3 & H).
    case_bool_decide; [done|]. done.
  - intros (-> & -> & -> & H). cbn [mbind result_bind]. by rewrite bool_decide_false.
Qed.
Lemma validate_inputs_no_panic i : validate_inputs i <> Panic.
Proof.
  unfold validate_inputs. pose proof (validate_list_no_panic (si_client i)). destruct (validate_tuple_list (si_client i)); [|done|done].
  pose proof (validate_list_no_panic (si_daemon i)). cbn [mbind result_bind]. destruct (validate_tuple_list (si_daemon i)); [|done|done].
  pose proof (validate_list_no_panic (si_server_allowed i)). cbn [mbind result_bind]. destruct (validate_tuple_list (si_server_allowed i)); [|done|done].
  cbn [mbind result_bind]. by case_bool_decide.
Qed.

Section Select.
Variable registry : list CompatibleTuple.
Abbreviation entry_of id := (registry_tuple registry id).
Abbreviation rank id := (rank_of registry id).

(** A tuple both ends and the policy can use. *)
Definition usable (revoked : list Z) (id : Z) : Prop := (id ∉ revoked) /\ is_Some (entry_of id).
Definition candidate (i : SelectionInputs) (id : Z) : Prop :=
  id ∈ si_client i /\ id ∈ si_daemon i /\ id ∈ si_server_allowed i /\ usable (si_revoked i) id.
(** Higher rank, then lower id. *)
Definition better (a b : Z) : Prop := rank a < rank b \/ rank a = rank b /\ b <= a.
Definition best_candidate (i : SelectionInputs) (t : SelectedTuple) : Prop :=
  candidate i (st_tuple_id t) /\
  (exists e, entry_of (st_tuple_id t) = Some e /\ st_security_rank t = ct_security_rank e /\ st_critical_features t = ct_critical_features e) /\
  forall id, candidate i id -> better id (st_tuple_id t).

Lemma entry_of_some id : is_Some (entry_of id) <-> exists t, t ∈ registry /\ ct_tuple_id t = id.
Proof using Type.
  unfold registry_tuple. induction registry as [|t l IH]; cbn [List.find].
  - split; [by intros [? ?]|]. by intros (t & ?%not_elem_of_nil & _).
  - destruct (Z.eqb_spec (ct_tuple_id t) id) as [E|E].
    + split; [|by eexists]. intros _. exists t. split; [by left|done].
    + rewrite IH. split.
      * intros (u & Hu & Hid). exists u. split; [by right|done].
      * intros (u & [->|Hu]%elem_of_cons & Hid); [done|]. by exists u.
Qed.
Lemma enabled_spec revoked id : id ∈ enabled_ids registry revoked <-> usable revoked id.
Proof using Type.
  unfold enabled_ids, usable. rewrite entry_of_some, list_elem_of_fmap. split.
  - intros (t & -> & [Hr Ht]%list_elem_of_filter). split; [done|]. by exists t.
  - intros (Hr & t & Ht & <-). exists t. split; [done|]. by apply list_elem_of_filter.
Qed.
#[local] Instance better_preorder : PreOrder better.
Proof using Type. unfold better. split; [intros a; right; lia|intros a b c; lia]. Qed.
Lemma compare_ids_le a b : (compare_ids registry a b = Gt -> better b a) /\ (compare_ids registry a b <> Gt -> better a b).
Proof using Type.
  unfold compare_ids, then_with, better. destruct (Z.compare_spec (rank a) (rank b)); [|split; [done|by left]|split; [by left|done]].
  destruct (Z.compare_spec b a); (split; [done || (intros _; lia)|done || (intros _; lia)]).
Qed.

Lemma traverse_ranked ids : (forall id, id ∈ ids -> is_Some (entry_of id)) ->
  traverse (E:=RemoteVersionError) (fun id => entry ← expect (entry_of id); Ok (id, ct_security_rank entry)) ids = Ok (map (fun id => (id, rank id)) ids).
Proof using Type.
  induction ids as [|id ids IH]; intros Hall; [done|]. cbn [traverse map].
  destruct (Hall id ltac:(by left)) as [e He]. unfold rank_of at 1. rewrite He. cbn [expect mbind result_bind].
  rewrite IH by (intros x Hx; apply Hall; by right). done.
Qed.
Lemma compare_ranked_max ids m : max_by compare_ranked (map (fun id => (id, rank id)) ids) = Some m ->
  m.2 = rank m.1 /\ m.1 ∈ ids /\ forall id, id ∈ ids -> better id m.1.
Proof using Type.
  intros Hm.
  assert (PreOrder (fun a b : Z * Z => a.2 < b.2 \/ a.2 = b.2 /\ b.1 <= a.1)) as Hpre
    by (split; [intros a; right; lia|intros a b c; lia]).
  destruct (max_by_greatest compare_ranked (fun a b => a.2 < b.2 \/ a.2 = b.2 /\ b.1 <= a.1)) with (l := map (fun id => (id, rank id)) ids) (m := m)
    as [Hin Hle]; [|exact Hpre|exact Hm|].
  { intros a b. unfold compare_ranked, then_with. destruct (Z.compare_spec a.2 b.2); [|split; [done|by left]|split; [by left|done]].
    destruct (Z.compare_spec b.1 a.1); (split; [done || (intros _; lia)|done || (intros _; lia)]). }
  apply list_elem_of_fmap in Hin as (id & -> & Hid). split; [done|]. split; [done|].
  intros id' Hid'. apply (Hle (id', rank id')). apply list_elem_of_fmap. by exists id'.
Qed.
Lemma candidates_spec i id :
  id ∈ filter (fun id => id ∈ enabled_ids registry (si_revoked i)) (filter (fun id => id ∈ si_server_allowed i)
         (filter (fun id => id ∈ si_daemon i) (si_client i))) <-> candidate i id.
Proof using Type. rewrite !list_elem_of_filter, enabled_spec. unfold candidate. tauto. Qed.

(** What selection computes on valid inputs. *)
Lemma select_valid i : valid_inputs i ->
  (exists t, select registry i = Ok (Some t) /\ best_candidate i t) \/ (select registry i = Ok None /\ forall id, ~ candidate i id).
Proof using Type.
  intros Hv%validate_inputs_ok. unfold select. rewrite Hv. cbn [mbind result_bind]. cbv zeta.
  set (cs := filter _ _). assert (forall id, id ∈ cs <-> candidate i id) as Hcs by apply candidates_spec. clearbody cs.
  destruct cs as [|c cs]; [right; split; [done|]; intros id Hid%Hcs; by apply not_elem_of_nil in Hid|left].
  rewrite traverse_ranked by (intros id Hid%Hcs; apply Hid). cbn [mbind result_bind].
  destruct (max_by_some compare_ranked (map (fun id => (id, rank id)) (c :: cs))) as [m Hm]; [done|].
  rewrite Hm. cbn [expect mbind result_bind]. apply compare_ranked_max in Hm as (Hr & Hin & Hle).
  apply Hcs in Hin as Hc. destruct Hc as (_ & _ & _ & _ & e & He). rewrite He. cbn [expect mbind result_bind].
  eexists. split; [done|]. split; [by apply Hcs|]. split.
  - exists e. split; [done|]. cbn. split; [|done]. rewrite Hr. unfold rank_of. by rewrite He.
  - intros id Hid%Hcs. by apply Hle.
Qed.
Lemma best_candidate_unique i t u : best_candidate i t -> best_candidate i u -> t = u.
Proof using Type.
  intros (Ct & (e & He & Hr & Hf) & Bt) (Cu & (e' & He' & Hr' & Hf') & Bu).
  assert (st_tuple_id t = st_tuple_id u) as Hid.
  { specialize (Bt _ Cu). specialize (Bu _ Ct). unfold better in *. lia. }
  destruct t, u; cbn in *. subst. rewrite He in He'. by injection He' as ->.
Qed.
Lemma select_invalid i : ~ valid_inputs i -> exists e, select registry i = Err e.
Proof using Type.
  intros Hv. unfold select. pose proof (validate_inputs_no_panic i) as Hp. destruct (validate_inputs i) as [[]|e|] eqn:E; [|by exists e|done].
  apply validate_inputs_ok in E. done.
Qed.

Lemma select_some_iff i t : select registry i = Ok (Some t) <-> valid_inputs i /\ best_candidate i t.
Proof using Type.
  split.
  - intros H. destruct (decide (validate_inputs i = Ok tt)) as [Hv%validate_inputs_ok|Hv].
    + destruct (select_valid i Hv) as [(u & Hu & Hb)|[Hu _]]; rewrite Hu in H; [by injection H as ->|done].
    + destruct (select_invalid i) as [e He]; [by rewrite <- validate_inputs_ok|]. by rewrite He in H.
  - intros [Hv Hb]. destruct (select_valid i Hv) as [(u & Hu & Hb')|[_ Hn]]; [|destruct Hb as [Hc _]; by apply Hn in Hc].
    rewrite Hu. by rewrite (best_candidate_unique i u t).
Qed.
Lemma select_none_iff i : select registry i = Ok None <-> valid_inputs i /\ forall id, ~ candidate i id.
Proof using Type.
  split.
  - intros H. destruct (decide (validate_inputs i = Ok tt)) as [Hv%validate_inputs_ok|Hv].
    + destruct (select_valid i Hv) as [(u & Hu & Hb)|[Hu ?]]; [by rewrite Hu in H|done].
    + destruct (select_invalid i) as [e He]; [by rewrite <- validate_inputs_ok|]. by rewrite He in H.
  - intros [Hv Hno]. destruct (select_valid i Hv) as [(u & _ & Hb & _)|[Hu _]]; [by apply Hno in Hb|done].
Qed.

(** The same negotiation seen from the other end. *)
Definition swap_ends (i : SelectionInputs) : SelectionInputs := mkSelection (si_daemon i) (si_client i) (si_server_allowed i) (si_revoked i).

(** C26: Negotiation selects the best tuple both ends and the policy can use. For any registry: a
    tuple is selected exactly when the inputs are well formed and it is the one, among those the
    client, the daemon and the grant list, that are enabled and not revoked, of highest security
    rank and then of lowest id, with the rank and features its registry entry has; nothing is
    selected exactly when no such tuple exists; malformed inputs are an error and nothing panics.
    The two ends, each with the roles swapped, select the same. *)
Theorem selection_is_best i :
  (forall t, select registry i = Ok (Some t) <-> valid_inputs i /\ best_candidate i t) /\
  (select registry i = Ok None <-> valid_inputs i /\ forall id, ~ candidate i id) /\
  select registry i <> Panic /\
  (forall r, select registry i = Ok r -> select registry (swap_ends i) = Ok r).
Proof using Type.
  assert (forall id, candidate (swap_ends i) id <-> candidate i id) as Hc by (intros id; unfold candidate; cbn; tauto).
  assert (valid_inputs (swap_ends i) <-> valid_inputs i) as Hv by (unfold valid_inputs; cbn; tauto).
  split; [apply select_some_iff|]. split; [apply select_none_iff|]. split.
  - destruct (decide (validate_inputs i = Ok tt)) as [Hi%validate_inputs_ok|Hi].
    + by destruct (select_valid i Hi) as [(u & -> & _)|[-> _]].
    + destruct (select_invalid i) as [e ->]; [by rewrite <- validate_inputs_ok|done].
  - intros [t|] H.
    + apply select_some_iff in H as [Hi (Ct & He & Bt)]. apply select_some_iff. split; [by apply Hv|]. split; [by apply Hc|]. split; [done|].
      intros id Hid%Hc. by apply Bt.
    + apply select_none_iff in H as [Hi Hno]. apply select_none_iff. split; [by apply Hv|]. intros id Hid%Hc. by apply Hno in Hid.
Qed.

(** ** Upgrade advice *)

Lemma dedup_same_elements l x : x ∈ dedup l <-> x ∈ l.
Proof using Type.
  induction l as [|a l IH]; [done|]. destruct l as [|b l]; [done|]. cbn [dedup]. destruct (Z.eqb_spec a b) as [->|Hne].
  - rewrite IH, !elem_of_cons. tauto.
  - rewrite elem_of_cons, IH, !elem_of_cons. done.
Qed.
Lemma dedup_sorted l : Sorted Z.le l -> Sorted Z.lt (dedup l).
Proof using Type.
  intros Hs%Sorted_StronglySorted; [|intros ? ? ?; lia]. apply StronglySorted_Sorted. induction Hs as [|a l Hs IH Ha]; [constructor|].
  destruct l as [|b l]; [repeat constructor|]. cbn [dedup]. destruct (Z.eqb_spec a b) as [->|Hne]; [done|]. constructor; [done|].
  apply Forall_forall. intros x Hx. apply (proj1 (dedup_same_elements (b :: l) x)) in Hx. apply Forall_cons in Ha as [Hab _].
  apply elem_of_cons in Hx as [->|Hx]; [lia|]. apply StronglySorted_inv in Hs as [_ Hb].
  rewrite Forall_forall in Hb. specialize (Hb x Hx). lia.
Qed.
Lemma filter_sort_spec revoked ids :
  Sorted Z.lt (filter_sort (enabled_ids registry revoked) ids) /\
  forall x, x ∈ filter_sort (enabled_ids registry revoked) ids <-> x ∈ ids /\ usable revoked x.
Proof using Type.
  unfold filter_sort. split.
  - apply dedup_sorted, (Sorted_merge_sort Z.le).
  - intros x. rewrite dedup_same_elements, (merge_sort_Permutation Z.le), list_elem_of_filter, enabled_spec. tauto.
Qed.
(** Greater support, then better. *)
Definition better_supported (i : SelectionInputs) (a b : Z) : Prop :=
  support i a < support i b \/ support i a = support i b /\ better a b.
#[local] Instance better_supported_preorder i : PreOrder (better_supported i).
Proof using Type. unfold better_supported, better. split; [intros a; right; lia|intros a b c; lia]. Qed.
Lemma compare_supported_le i a b :
  (compare_supported registry i a b = Gt -> better_supported i b a) /\ (compare_supported registry i a b <> Gt -> better_supported i a b).
Proof using Type.
  destruct (compare_ids_le a b) as [H1 H2]. unfold compare_supported, then_with, better_supported.
  destruct (Z.compare_spec (support i a) (support i b)); [|split; [done|by left]|split; [by left|done]].
  split; [intros Hg; right; split; [done|by apply H1]|intros Hg; right; split; [done|by apply H2]].
Qed.
(** The parties the advice names, and who has the tuple already. *)
Definition advice_sound (i : SelectionInputs) (side : UpgradeSide) (r : Z) : Prop :=
  usable (si_revoked i) r /\
  match side with
  | UsClient => (r ∉ si_client i) /\ r ∈ si_daemon i /\ r ∈ si_server_allowed i
  | UsDaemon => r ∈ si_client i /\ (r ∉ si_daemon i) /\ r ∈ si_server_allowed i
  | UsMultiple => (r ∉ si_client i) /\ (r ∉ si_daemon i) /\ r ∈ si_server_allowed i
  | UsServerPolicy => r ∈ si_client i /\ r ∈ si_daemon i /\ (r ∉ si_server_allowed i)
  end.
Definition advice_best (i : SelectionInputs) (side : UpgradeSide) (r : Z) : Prop :=
  match side with
  | UsServerPolicy => forall id, id ∈ si_client i -> id ∈ si_daemon i -> usable (si_revoked i) id -> better id r
  | _ => forall id, id ∈ si_server_allowed i -> usable (si_revoked i) id -> better_supported i id r
  end.
Definition hopeless (i : SelectionInputs) : Prop :=
  forall id, usable (si_revoked i) id -> (id ∉ si_server_allowed i) /\ ~ (id ∈ si_client i /\ id ∈ si_daemon i).

Lemma advice_spec i : (forall id, ~ candidate i id) ->
  exists side r, upgrade_advice registry i = Ok (side, r) /\
    match r with
    | Some r => advice_sound i side r /\ advice_best i side r
    | None => side = UsServerPolicy /\ hopeless i
    end.
Proof using Type.
  intros Hno. unfold upgrade_advice. cbv zeta. set (p := filter _ (filter _ _)). set (s := filter _ (si_server_allowed i)).
  assert (forall id, id ∈ p <-> id ∈ si_client i /\ id ∈ si_daemon i /\ usable (si_revoked i) id) as Hp
    by (intros id; unfold p; rewrite !list_elem_of_filter, enabled_spec; tauto).
  assert (forall id, id ∈ s <-> id ∈ si_server_allowed i /\ usable (si_revoked i) id) as Hs
    by (intros id; unfold s; rewrite list_elem_of_filter, enabled_spec; tauto). clearbody p s.
  assert (forallb (fun id => negb (bool_decide (id ∈ si_server_allowed i))) p = true) as ->.
  { apply forallb_forall. intros id Hid. apply list_elem_of_In, Hp in Hid. rewrite bool_decide_false; [done|]. intros Hin. apply (Hno id). unfold candidate. tauto. }
  rewrite andb_true_r. case_bool_decide as Ep; cbn [negb].
  2:{ destruct (max_by_some (compare_ids registry) p Ep) as [r Hr]. exists UsServerPolicy, (Some r). unfold best_in. rewrite Hr. split; [done|].
      apply (max_by_greatest _ better compare_ids_le) in Hr as [Hr Hb]. apply Hp in Hr as (H1 & H2 & H3). split.
      - split; [done|]. split; [done|]. split; [done|]. intros Hin. by apply (Hno r).
      - intros id Hc Hd Hu. apply Hb, Hp. done. }
  subst p. case_bool_decide as Es.
  { exists UsServerPolicy, None. split; [done|]. split; [done|]. intros id Hu. subst s. split.
    - intros Hin. by apply (not_elem_of_nil id), Hs.
    - intros [Hc Hd]. by apply (not_elem_of_nil id), Hp. }
  destruct (max_by_some (compare_supported registry i) s Es) as [r Hr]. rewrite Hr. cbn [expect mbind result_bind].
  apply (max_by_greatest _ (better_supported i) (compare_supported_le i)) in Hr as [Hr Hb]. apply Hs in Hr as [Hsr Hu].
  assert (forall side, side <> UsServerPolicy -> advice_best i side r) as Hbest
    by (intros [] Hside; try done; intros id Hid Hiu; by apply Hb, Hs).
  repeat case_bool_decide; [by destruct (Hno r)|exists UsDaemon, (Some r)|exists UsClient, (Some r)|exists UsMultiple, (Some r)];
    (split; [done|]; split; [split; [exact Hu|done]|by apply Hbest]).
Qed.

(** Later inputs in which nobody lost a tuple and the named parties have the recommended one. *)
Definition advice_followed (i i' : SelectionInputs) (side : UpgradeSide) (r : Z) : Prop :=
  valid_inputs i' /\ si_revoked i' = si_revoked i /\ si_client i ⊆ si_client i' /\ si_daemon i ⊆ si_daemon i' /\
  si_server_allowed i ⊆ si_server_allowed i' /\
  match side with
  | UsClient => r ∈ si_client i'
  | UsDaemon => r ∈ si_daemon i'
  | UsMultiple => r ∈ si_client i' /\ r ∈ si_daemon i'
  | UsServerPolicy => r ∈ si_server_allowed i'
  end.

(** C27: The upgrade advice can be followed. When negotiation selects nothing, the advice is always
    produced, never an internal error; if it recommends a tuple, that tuple is enabled and not
    revoked, exactly the named parties lack it, none better fits the documented order, and once
    the named parties have it negotiation succeeds; if it recommends none, no tuple the policy
    allows and none the two ends share is usable. The lists it discloses are the callers' own
    tuples that are enabled and not revoked, ascending. *)
Theorem upgrade_advice_works i : select registry i = Ok None ->
  exists u, upgrade_required registry i = Ok u /\
    match ur_recommended_tuple_id u with
    | Some r => advice_sound i (ur_upgrade_side u) r /\ advice_best i (ur_upgrade_side u) r /\
        forall i', advice_followed i i' (ur_upgrade_side u) r -> exists t, select registry i' = Ok (Some t)
    | None => ur_upgrade_side u = UsServerPolicy /\ hopeless i
    end /\
    Sorted Z.lt (ur_client_supported u) /\ Sorted Z.lt (ur_daemon_supported u) /\ Sorted Z.lt (ur_server_allowed u) /\
    forall x, (x ∈ ur_client_supported u <-> x ∈ si_client i /\ usable (si_revoked i) x) /\
              (x ∈ ur_daemon_supported u <-> x ∈ si_daemon i /\ usable (si_revoked i) x) /\
              (x ∈ ur_server_allowed u <-> x ∈ si_server_allowed i /\ usable (si_revoked i) x).
Proof using Type.
  intros (Hv%validate_inputs_ok & Hno)%select_none_iff. destruct (advice_spec i Hno) as (side & r & Ha & Hr).
  unfold upgrade_required. rewrite Hv, Ha. cbn [mbind result_bind]. cbv zeta. eexists. split; [done|]. cbn.
  pose proof (filter_sort_spec (si_revoked i)) as Hf.
  split; [|do 3 (split; [apply Hf|]); intros x; split; [apply Hf|split; apply Hf]]. destruct r as [r|]; [|done]. destruct Hr as [Hs Hb]. split; [done|]. split; [done|].
  intros i' (Hv' & Hrev & H1 & H2 & H3 & Hside).
  destruct (select_valid i' Hv') as [(t & Ht & _)|[_ Hn]]; [by exists t|]. destruct (Hn r). destruct Hs as [Hu Hs].
  unfold candidate. rewrite Hrev. destruct side; set_solver.
Qed.
End Select.

(** ** The transcript *)

Definition u16_list (ids : list Z) : Prop := Forall is_u16 ids.
Definition features_u16 (fs : list CriticalFeature) : Prop := Forall (fun f => is_u16 (cf_id f) /\ is_u16 (cf_version f)) fs.
(** What the types of the fields say. *)
Record transcript_typed (t : RemoteNegotiationTranscriptV1) : Prop := mkTyped {
  tt_child : zlen (nt_child_attempt_id t) = 16; tt_jti : zlen (nt_grant_jti t) = 16; tt_snonce : zlen (nt_server_nonce t) = 32;
  tt_cnonce : zlen (nt_client_nonce t) = 32; tt_policy : zlen (nt_policy_digest t) = 32; tt_client : u16_list (nt_client_tuple_ids t);
  tt_daemon : u16_list (nt_daemon_tuple_ids t); tt_server : u16_list (nt_server_allowed_tuple_ids t);
  tt_features : features_u16 (nt_critical_features t) }.

Definition v_takes : takes v_take := take_at_takes VLength.
Definition reads_vfield n := field_reads v_take v_takes n.
Definition reads_vu8 : reads v_take_u8 (fun v => [v]) is_u8 := u8_reads v_take v_takes.
Definition reads_vu16 : reads v_take_u16 (to_be 2) is_u16 := u16_reads v_take v_takes.

Definition tuple_list_fits (ids : list Z) : Prop := valid_list ids /\ u16_list ids.
Lemma chained_rising last ids :
  chained tuple_element is_u16 last ids <-> rising (match last with Some l => Z.max 0 l | None => 0 end) ids /\ u16_list ids.
Proof.
  revert last. induction ids as [|id ids IH]; intros last; [split; [intros _; split; [done|constructor]|done]|]. cbn [chained rising]. rewrite IH.
  unfold u16_list. rewrite Forall_cons, <- !(and_assoc _ _ _). unfold is_u16, tuple_element. clear IH.
  destruct (Z.eqb_spec id 0) as [->|Hne]; [split; [by intros (_ & ? & _)|intros (H & _); destruct last; lia]|].
  destruct last as [l|]; [destruct (Z.leb_spec id l)|]; split; intros Hyp; destruct_and? Hyp; try done; repeat split; try done; try lia;
    by rewrite Z.max_r in * by lia.
Qed.
Lemma reads_tuple_list : reads take_tuple_list tuple_ids_bytes tuple_list_fits.
Proof.
  eapply reads_enc; [|eapply reads_ext; [| |eapply (reads_counted v_take_u8 (fun n => list_loop v_take_u16 tuple_element n None)
    (fun l => concat (map (to_be 2) l)) (fun n ids => length ids = n /\ chained tuple_element is_u16 None ids)
    (fun n => negb ((TUPLE_LIST_MIN <=? n) && (n <=? TUPLE_LIST_MAX))) VLength reads_vu8)]].
  - intros ids [[Hl _] _]. unfold tuple_ids_bytes. by rewrite Z.mod_small by lia.
  - done.
  - intros ids. unfold tuple_list_fits, valid_list, TUPLE_LIST_MIN, TUPLE_LIST_MAX.
    rewrite negb_false_iff, andb_true_iff, !Z.leb_le, chained_rising. tauto.
  - intros n. apply reads_list_loop, reads_vu16.
  - by intros n l [].
  - intros n. unfold TUPLE_LIST_MIN, TUPLE_LIST_MAX. rewrite negb_false_iff, andb_true_iff, !Z.leb_le. unfold is_u8, U8_MAX. lia.
Qed.
Lemma reads_feature : reads take_feature feature_bytes (fun f => is_u16 (cf_id f) /\ is_u16 (cf_version f)).
Proof. apply (reads_both _ _ _ _ _ _ mkFeature cf_id cf_version); [done|by intros []|exact reads_vu16|exact reads_vu16]. Qed.

Definition features_fit (fs : list CriticalFeature) : Prop :=
  zlen fs <= 32 /\ features_ordered fs = true /\ forallb (fun f => negb (cf_id f =? 0)) fs = true /\ features_u16 fs.
Lemma chained_features last fs :
  chained feature_element (fun f => is_u16 (cf_id f) /\ is_u16 (cf_version f)) last fs <->
  features_ordered (match last with Some l => l :: fs | None => fs end) = true /\ forallb (fun f => negb (cf_id f =? 0)) fs = true /\ features_u16 fs.
Proof.
  revert last. induction fs as [|f fs IH]; intros last; [split; [intros _; split; [by destruct last|split; [done|constructor]]|done]|]. cbn [chained forallb]. rewrite IH.
  unfold features_u16. rewrite Forall_cons, andb_true_iff. unfold feature_element. clear IH.
  destruct (Z.eqb_spec (cf_id f) 0) as [E|Hne]; cbn [negb]; [split; [by intros (_ & ? & _)|by intros (_ & [? _] & _)]|].
  destruct last as [l|].
  - change (features_ordered (l :: f :: fs)) with ((cf_id l <? cf_id f) && features_ordered (f :: fs)). rewrite andb_true_iff, Z.ltb_lt.
    destruct (Z.leb_spec (cf_id f) (cf_id l)); [split; [by intros (_ & ? & _)|intros ((? & _) & _); lia]|]. tauto.
  - tauto.
Qed.
Lemma reads_features : reads take_feature_list features_bytes features_fit.
Proof.
  eapply reads_enc; [|eapply reads_ext; [| |eapply (reads_counted v_take_u8 (fun n => list_loop take_feature feature_element n None)
    (fun l => concat (map feature_bytes l))
    (fun n fs => length fs = n /\ chained feature_element (fun f => is_u16 (cf_id f) /\ is_u16 (cf_version f)) None fs)
    (fun n => FEATURE_LIST_MAX <? n) VLength reads_vu8)]].
  - intros fs [Hl _]. unfold features_bytes. pose proof (zlen_nonneg fs). by rewrite Z.mod_small by lia.
  - done.
  - intros fs. unfold features_fit, FEATURE_LIST_MAX. rewrite Z.ltb_ge, chained_features. tauto.
  - intros n. apply reads_list_loop, reads_feature.
  - by intros n l [].
  - intros fs Hl%Z.ltb_ge. unfold FEATURE_LIST_MAX in Hl. pose proof (zlen_nonneg fs). unfold is_u8, U8_MAX. lia.
Qed.

Section Transcript.
Variable registry : list CompatibleTuple.

(** What the encoder accepts, and what it writes. *)
Record transcript_ok (t : RemoteNegotiationTranscriptV1) : Prop := mkTranscriptOk {
  to_transport : nt_transport t = 1 \/ nt_transport t = 2;
  to_client : valid_list (nt_client_tuple_ids t); to_daemon : valid_list (nt_daemon_tuple_ids t);
  to_server : valid_list (nt_server_allowed_tuple_ids t); to_selected : (nt_selected_tuple_id t =? 0) = false;
  to_member : selected_in_all t = true; to_count : zlen (nt_critical_features t) <= 32;
  to_order : features_ordered (nt_critical_features t) = true;
  to_nonzero : forallb (fun f => negb (cf_id f =? 0)) (nt_critical_features t) = true;
  to_entry : exists e, registry_tuple registry (nt_selected_tuple_id t) = Some e /\ ct_critical_features e = nt_critical_features t }.
Definition transcript_bytes (t : RemoteNegotiationTranscriptV1) : bytes :=
  TRANSCRIPT_MAGIC ++ [TRANSCRIPT_VERSION] ++ [nt_transport t] ++ nt_child_attempt_id t ++ nt_grant_jti t ++ nt_server_nonce t
    ++ nt_client_nonce t ++ nt_policy_digest t ++ tuple_ids_bytes (nt_client_tuple_ids t) ++ tuple_ids_bytes (nt_daemon_tuple_ids t)
    ++ tuple_ids_bytes (nt_server_allowed_tuple_ids t) ++ to_be 2 (nt_selected_tuple_id t) ++ features_bytes (nt_critical_features t).
Lemma transcript_encode_ok t b : transcript_encode registry t = Ok b <-> transcript_ok t /\ b = transcript_bytes t.
Proof using Type.
  unfold transcript_encode, TRANSPORT_WEBRTC, TRANSPORT_WEBSOCKET_DATA, FEATURE_LIST_MAX, TRANSCRIPT_MAX_BYTES, TRANSCRIPT_FIXED_BYTES. split.
  - destruct (_ && _) eqn:Gt; [done|]. intros ([] & H1%validate_list_ok & H)%bind_Ok. apply bind_Ok in H as ([] & H2%validate_list_ok & H).
    apply bind_Ok in H as ([] & H3%validate_list_ok & H). destruct (_ =? 0) eqn:Gs in H; [done|].
    destruct (selected_in_all t) eqn:Gm in H; [cbn [negb] in H|done]. destruct (32 <? _) eqn:Gc in H; [done|]. apply Z.ltb_ge in Gc.
    destruct (features_ordered _) eqn:Go in H; [cbn [negb] in H|done]. destruct (forallb _ _) eqn:Gz in H; [cbn [negb] in H|done].
    destruct (registry_tuple _ _) as [e|] eqn:Ge in H; [|done]. case_bool_decide as Gf; [cbn [negb] in H|done].
    destruct (364 <? _) eqn:Gl in H; [done|]. apply Ok_inj in H. subst b. split; [|done]. split; try done.
    + apply andb_false_iff in Gt as [Gt|Gt]; apply negb_false_iff, Z.eqb_eq in Gt; tauto.
    + by exists e.
  - intros [[Ht H1 H2 H3 Hs Hm Hc Ho Hz (e & He & Hf)] ->].
    assert (negb (nt_transport t =? 1) && negb (nt_transport t =? 2) = false) as -> by (by destruct Ht as [-> | ->]).
    rewrite !(proj2 (validate_list_ok _)) by done. cbn [mbind result_bind]. rewrite Hs, Hm. cbn [negb]. rewrite (proj2 (Z.ltb_ge _ _)) by done.
    rewrite Ho, Hz, He. cbn [negb]. rewrite bool_decide_true by done. cbn [negb].
    destruct H1 as [H1 _], H2 as [H2 _], H3 as [H3 _]. rewrite (proj2 (Z.ltb_ge _ _)) by lia. done.
Qed.
Lemma transcript_length t : transcript_typed t -> transcript_ok t -> 146 <= zlen (transcript_bytes t) <= 364.
Proof using Type.
  intros [L1 L2 L3 L4 L5 _ _ _ _] [_ [C1 _] [C2 _] [C3 _] _ _ Hc _ _ _].
  assert (forall l, zlen (tuple_ids_bytes l) = 1 + 2 * zlen l) as Ht.
  { intros l. unfold tuple_ids_bytes. rewrite zlen_cons. f_equal. induction l as [|x l IH]; [done|].
    cbn [map concat]. rewrite zlen_app, zlen_to_be, zlen_cons, IH. lia. }
  assert (forall l, zlen (features_bytes l) = 1 + 4 * zlen l) as Hf.
  { intros l. unfold features_bytes. rewrite zlen_cons. f_equal. induction l as [|x l IH]; [done|].
    cbn [map concat]. unfold feature_bytes at 1. rewrite !zlen_app, !zlen_to_be, zlen_cons, IH. lia. }
  pose proof (zlen_nonneg (nt_critical_features t)). unfold transcript_bytes. rewrite !zlen_app, !Ht, Hf, zlen_to_be, L1, L2, L3, L4, L5.
  change (zlen TRANSCRIPT_MAGIC) with 4. change (zlen [TRANSCRIPT_VERSION]) with 1. change (zlen [nt_transport t]) with 1. lia.
Qed.
Definition all_known (t : RemoteNegotiationTranscriptV1) : bool :=
  forallb (known registry) (nt_client_tuple_ids t ++ nt_daemon_tuple_ids t ++ nt_server_allowed_tuple_ids t).
Lemma selected_three t : selected_in_all t = true <-> (nt_selected_tuple_id t ∈ nt_client_tuple_ids t) /\ (nt_selected_tuple_id t ∈ nt_daemon_tuple_ids t)
  /\ (nt_selected_tuple_id t ∈ nt_server_allowed_tuple_ids t).
Proof using Type. unfold selected_in_all. rewrite !andb_true_iff, !bool_decide_eq_true. tauto. Qed.
Lemma transcript_rest b : zlen b <= 364 -> all_u8 b -> forall m, slice (E:=RemoteVersionError) b 0 4 = Ok m ->
  exists rest, b = m ++ rest /\ rest_at (E:=RemoteVersionError) b 4 rest.
Proof using Type.
  intros Hl Hu m Hm. apply slice_inv in Hm as Hi. destruct Hi as (Hz & _ & H4 & _).
  destruct (slice (E:=RemoteVersionError) b 4 (zlen b)) as [rest| |] eqn:Hr; [|by apply slice_not_err in Hr|by apply slice_no_panic in Hr; lia].
  exists rest. split; [|by split]. pose proof (slice_split _ _ _ _ _ _ Hm Hr) as HH. rewrite slice_all in HH by done. by apply Ok_inj in HH.
Qed.
Lemma transcript_decode_inv b t : all_u8 b -> transcript_decode registry b = Ok t ->
  transcript_typed t /\ transcript_ok t /\ b = transcript_bytes t /\ all_known t = true.
Proof using Type.
  intros Hu H. unfold transcript_decode, TRANSCRIPT_MIN_BYTES, TRANSCRIPT_MAX_BYTES, TRANSPORT_WEBRTC, TRANSPORT_WEBSOCKET_DATA in H.
  destruct (_ || _) eqn:Gl in H; [done|]. apply orb_false_iff in Gl as [Gl1 Gl2]. apply Z.ltb_ge in Gl1, Gl2.
  assert (zlen b <= U64_MAX) as Hb by (unfold U64_MAX; lia).
  apply bind_Ok in H as (m & Hm & H). case_bool_decide as Em; [cbn [negb] in H|done]. subst m.
  destruct (transcript_rest b Gl2 Hu _ Hm) as (rest & Hbody & HR).
  rd reads_vu8 H ver Hver. destruct (negb _) eqn:Gv in H; [done|]. apply negb_false_iff, Z.eqb_eq in Gv. subst ver.
  rd reads_vu8 H tr Htr. destruct (_ && _) eqn:Gt in H; [done|].
  rd (reads_vfield 16) H ch Hch. rd (reads_vfield 16) H jt Hjt. rd (reads_vfield 32) H sno Hsno. rd (reads_vfield 32) H cno Hcno.
  rd (reads_vfield 32) H pd Hpd. rd reads_tuple_list H cl Hcl. rd reads_tuple_list H da Hda. rd reads_tuple_list H se Hse.
  rd reads_vu16 H sel Hsel. destruct (_ =? 0) eqn:Gs in H; [done|]. destruct (_ || _) eqn:Gm in H; [done|].
  rewrite !orb_false_iff, !negb_false_iff, !bool_decide_eq_true in Gm. destruct Gm as [[Gm1 Gm2] Gm3].
  rd reads_features H fs Hfs. destruct (negb _) eqn:Go in H; [done|]. eapply rest_end in Go; [|eassumption]. subst.
  destruct (registry_tuple _ _) as [e|] eqn:Ge in H; [|done]. case_bool_decide as Gf; [cbn [negb] in H|done].
  destruct (forallb _ _) eqn:Gk in H; [cbn [negb] in H|done]. apply Ok_inj in H. subst t. unfold id in *.
  destruct Hcl, Hda, Hse, Hfs as (F1 & F2 & F3 & F4). split; [by split|]. split; [split; try done|].
  - apply andb_false_iff in Gt as [Gt|Gt]; apply negb_false_iff, Z.eqb_eq in Gt; [by left|by right].
  - by apply selected_three.
  - by exists e.
  - split; [|done]. unfold transcript_bytes. cbn [nt_transport nt_child_attempt_id nt_grant_jti nt_server_nonce nt_client_nonce
      nt_policy_digest nt_client_tuple_ids nt_daemon_tuple_ids nt_server_allowed_tuple_ids nt_selected_tuple_id nt_critical_features].
    by rewrite (app_nil_r (features_bytes _)).
Qed.
Lemma transcript_decode_run t : transcript_typed t -> transcript_ok t -> all_known t = true -> all_u8 (transcript_bytes t) ->
  transcript_decode registry (transcript_bytes t) = Ok t.
Proof using Type.
  intros Hty Hok Hk Hu. pose proof (transcript_length t Hty Hok) as Hl. unfold transcript_decode, TRANSCRIPT_MIN_BYTES, TRANSCRIPT_MAX_BYTES.
  rewrite (proj2 (Z.ltb_ge _ _)), (proj2 (Z.ltb_ge _ _)) by lia. cbn [orb].
  assert (zlen (transcript_bytes t) <= U64_MAX) as Hb by (unfold U64_MAX; lia).
  assert (slice (E:=RemoteVersionError) (transcript_bytes t) 0 4 = Ok TRANSCRIPT_MAGIC) as Hm by (unfold transcript_bytes; by rewrite slice_head).
  rewrite Hm, bind_Ok_l, bool_decide_true by done. cbn [negb].
  destruct (transcript_rest _ (proj2 Hl) Hu _ Hm) as (rest & Hbody & HR). apply (inj (TRANSCRIPT_MAGIC ++.)) in Hbody. subst rest.
  destruct Hty, Hok as [Htr C1 C2 C3 Hs Hm3 Hc Ho Hz (e & He & Hf)]. apply selected_three in Hm3 as (M1 & M2 & M3).
  assert (is_u16 (nt_selected_tuple_id t)) as Hsel by (by eapply Forall_forall in tt_client0).
  rewrite <- (app_nil_r (features_bytes _)) in HR.
  wr reads_vu8 TRANSCRIPT_VERSION; [done|]. cbn [Z.eqb Pos.eqb negb]. wr reads_vu8 (nt_transport t); [by destruct Htr as [-> | ->]|].
  assert (negb (nt_transport t =? TRANSPORT_WEBRTC) && negb (nt_transport t =? TRANSPORT_WEBSOCKET_DATA) = false) as -> by (by destruct Htr as [-> | ->]).
  wr (reads_vfield 16) (nt_child_attempt_id t); [done|]. wr (reads_vfield 16) (nt_grant_jti t); [done|].
  wr (reads_vfield 32) (nt_server_nonce t); [done|]. wr (reads_vfield 32) (nt_client_nonce t); [done|]. wr (reads_vfield 32) (nt_policy_digest t); [done|].
  wr reads_tuple_list (nt_client_tuple_ids t); [done|]. wr reads_tuple_list (nt_daemon_tuple_ids t); [done|].
  wr reads_tuple_list (nt_server_allowed_tuple_ids t); [done|]. wr reads_vu16 (nt_selected_tuple_id t); [done|].
  rewrite Hs, !bool_decide_true by done. cbn [negb orb]. wr reads_features (nt_critical_features t); [done|].
  apply rest_at_length in HR. change (zlen []) with 0 in HR. rewrite Z.add_0_r in HR. rewrite HR, Z.eqb_refl, He. cbn [negb].
  rewrite bool_decide_true by done. cbn [negb]. unfold all_known in Hk. rewrite Hk. by destruct t.
Qed.

Lemma v_take_u8_no_panic b o : v_take_u8 b o <> Panic.
Proof using Type.
  unfold v_take_u8. destruct (v_take b o 1) as [[v o']| |] eqn:E; [|done|by apply take_at_no_panic in E]. cbn [mbind result_bind].
  assert (zlen v = 1) as Hv.
  { unfold v_take, take_at in E. destruct (checked_add o 1) as [e|] eqn:Ea; [|done]. cbn [ok_or mbind result_bind] in E.
    destruct (NoisePrologue.get_range b o e) as [r|] eqn:Er; [|done]. injection E as <- <-. unfold NoisePrologue.get_range in Er.
    destruct (slice _ _ _) as [x| |] eqn:Es in Er; [|done|done]. injection Er as <-. apply slice_inv in Es as (Hz & _).
    unfold checked_add in Ea. destruct (_ <=? _); [|done]. injection Ea as <-. lia. }
  pose proof (index_no_panic (E:=RemoteVersionError) v 0 ltac:(lia)). by destruct (index v 0).
Qed.
Lemma v_take_u16_no_panic b o : v_take_u16 b o <> Panic.
Proof using Type. unfold v_take_u16. destruct (v_take b o 2) as [[v o']| |] eqn:E; [done|done|by apply take_at_no_panic in E]. Qed.
Lemma take_tuple_list_no_panic b o : take_tuple_list b o <> Panic.
Proof using Type.
  unfold take_tuple_list. pose proof (v_take_u8_no_panic b o). destruct (v_take_u8 b o) as [[n o']| |]; [|done|done]. cbn [mbind result_bind].
  destruct (negb _); [done|]. apply list_loop_no_panic. apply v_take_u16_no_panic.
Qed.
Lemma take_feature_list_no_panic b o : take_feature_list b o <> Panic.
Proof using Type.
  unfold take_feature_list. pose proof (v_take_u8_no_panic b o). destruct (v_take_u8 b o) as [[n o']| |]; [|done|done]. cbn [mbind result_bind].
  destruct (_ <? n); [done|]. apply list_loop_no_panic. intros b' o2. unfold take_feature.
  pose proof (v_take_u16_no_panic b' o2). destruct (v_take_u16 b' o2) as [[x o3]| |]; [|done|done]. cbn [mbind result_bind].
  pose proof (v_take_u16_no_panic b' o3). by destruct (v_take_u16 b' o3) as [[y o4]| |].
Qed.
Lemma transcript_decode_no_panic b : transcript_decode registry b <> Panic.
Proof using Type.
  unfold transcript_decode. destruct (_ || _) eqn:G; [done|]. apply orb_false_iff in G as [G _]. apply Z.ltb_ge in G. unfold TRANSCRIPT_MIN_BYTES in G.
  repeat first
    [ no_panic1
    | match goal with |- (match ?p with (x, y) => _ end) <> Panic => destruct p end
    | match goal with |- (match registry_tuple ?r ?i with _ => _ end) <> Panic => destruct (registry_tuple r i); [|discriminate] end
    | apply slice_no_panic; lia
    | apply v_take_u8_no_panic | apply v_take_u16_no_panic | apply take_tuple_list_no_panic | apply take_feature_list_no_panic
    | apply take_at_no_panic ].
Qed.

(** C28: A negotiation transcript has one encoding, and decoding is exact. For any registry and any
    bytes, the decoder returns a transcript exactly when that transcript encodes to those bytes
    and every tuple id in its three lists is in the registry; so the selected tuple is in all
    three lists, its features are the registry's, and no trailing or malformed byte is accepted.
    Revocation plays no part: the decoder has no set of revoked ids, so a tuple of the registry is
    accepted whatever policy has revoked ([revoked_tuple_decodes]), although its comment promises a rejection.
    The decoder never panics, and two byte strings that verify against one digest are equal
    unless they are a SHA-256 collision. *)
Theorem transcript_codec_exact `{Sha256} b : all_u8 b ->
  (forall t, transcript_decode registry b = Ok t <-> transcript_typed t /\ transcript_encode registry t = Ok b /\ all_known t = true) /\
  transcript_decode registry b <> Panic /\
  forall b' d, verify_transcript_digest registry b d = Ok tt -> verify_transcript_digest registry b' d = Ok tt ->
    b = b' \/ (b <> b' /\ sha256 b = sha256 b').
Proof using Type.
  intros Hu. split; [|split; [apply transcript_decode_no_panic|]].
  - intros t. rewrite transcript_encode_ok. split.
    + intros (H1 & H2 & H3 & H4)%transcript_decode_inv; [|done]. done.
    + intros (H1 & (H2 & ->) & H3). by apply transcript_decode_run.
  - intros b' d H1 H2. destruct (decide (b = b')); [by left|right]. split; [done|].
    assert (forall x, verify_transcript_digest registry x d = Ok tt -> sha256 x = d) as Hx; [|by rewrite !Hx].
    intros x (c & Hc & Hd)%bind_Ok. apply bind_Ok in Hc as (t & _ & [= <-]). by case_bool_decide.
Qed.
End Transcript.

Module VersionWitnesses.
#[local] Existing Instance Toy_sha256.
(** A registry with a second tuple of higher rank. *)
Definition two_tuples : list CompatibleTuple := [v1_tuple; mkTuple 2 1 1 1 1 200 [mkFeature 3 1]].
Lemma selection_is_best_run :
  select two_tuples (mkSelection [1; 2] [1; 2] [1; 2] []) = Ok (Some (mkSelected 2 200 [mkFeature 3 1])) /\
  select two_tuples (mkSelection [1; 2] [1; 2] [1; 2] [2]) = Ok (Some (mkSelected 1 100 [])).
Proof. by vm_compute. Qed.

Lemma upgrade_advice_works_witness : exists u, upgrade_required two_tuples (mkSelection [1] [2] [1; 2] []) = Ok u /\
  ur_upgrade_side u = UsClient /\ ur_recommended_tuple_id u = Some 2 /\
  exists t, select two_tuples (mkSelection [1; 2] [2] [1; 2] []) = Ok (Some t).
Proof.
  destruct (upgrade_advice_works two_tuples (mkSelection [1] [2] [1; 2] []) eq_refl) as (u & Hu & Hr & _). exists u.
  split; [exact Hu|]. vm_compute in Hu. injection Hu as <-. split; [reflexivity|]. split; [reflexivity|].
  destruct Hr as (_ & _ & Hf). apply Hf. split; [apply validate_inputs_ok; reflexivity|]. split; [reflexivity|].
  cbn. set_solver.
Defined.

Definition sample (client : list Z) : RemoteNegotiationTranscriptV1 :=
  mkTranscript 1 (repeat 7 16) (repeat 8 16) (repeat 9 32) (repeat 10 32) (repeat 11 32) client [1] [1] 1 [].
Definition sample_wire : bytes := Eval vm_compute in match transcript_encode enabled_registry (sample [1]) with Ok b => b | _ => [] end.
Lemma transcript_codec_exact_witness : all_u8 sample_wire /\ zlen sample_wire = 146 /\ transcript_decode enabled_registry sample_wire = Ok (sample [1]).
Proof.
  assert (all_u8 sample_wire) as Hu by (refine (bool_decide_unpack _ _); vm_compute; exact I). split; [exact Hu|]. split; [vm_compute; reflexivity|].
  apply (proj1 (transcript_codec_exact enabled_registry sample_wire Hu)). split; [|split; vm_compute; reflexivity].
  split; try reflexivity; repeat constructor; unfold U16_MAX; cbn; lia.
Defined.

(** A transcript that is agreed on can be one that nobody can decode. When the client offers a
    tuple this build does not know besides one it does, selection succeeds and the encoder
    accepts the transcript, but the decoder refuses its bytes, so the digest both ends must
    compare is an error. *)
Theorem agreed_transcript_not_decodable :
  select enabled_registry (mkSelection [1; 2] [1] [1] []) = Ok (Some (mkSelected 1 100 [])) /\
  exists b, transcript_encode enabled_registry (sample [1; 2]) = Ok b /\ transcript_decode enabled_registry b = Err VInvalid /\
    transcript_digest enabled_registry b = Err VInvalid.
Proof. split; [by vm_compute|]. eexists. split; [vm_compute; reflexivity|]. split; vm_compute; reflexivity. Qed.
(** A revoked tuple is not selected, but a transcript that names it is decoded. *)
Theorem revoked_tuple_decodes :
  select enabled_registry (mkSelection [1] [1] [1] [1]) = Ok None /\
  transcript_decode enabled_registry sample_wire = Ok (sample [1]) /\ nt_selected_tuple_id (sample [1]) = 1.
Proof. split; [by vm_compute|]. split; vm_compute; reflexivity. Qed.
End VersionWitnesses.
