(* ===== verification/Principal.v ===== *)
(** Daemon principals ([cockpit-core/src/daemon/principal.rs]): who a client is and what it may do,
    for the in-process owner, local socket peers, legacy relay principals and principals built from
    a verified attempt grant.  Strings are their UTF-8 bytes; [Path::canonicalize] is a parameter. *)

From S2P Require Import Prelude.
From S2P Require Import NoisePrologue.
From S2P Require Import Ceiling.
From stdpp Require Import options.

(** principal.rs:13-22 LocalClientRole. *)
Inductive LocalClientRole := Tui | Cli | Acp | AgentChild | Unauthenticated.
#[export] Instance LocalClientRole_eq_dec : EqDecision LocalClientRole.
Proof. solve_decision. Defined.
(** principal.rs:25-27 is_owner_class. *)
Definition is_owner_class (r : LocalClientRole) : bool := match r with Tui | Cli | Acp => true | _ => false end.

(** principal.rs:169-191 PrincipalScope. *)
Inductive PrincipalScope := ScTerminal | ScAgent | ScAgentReadonly | ScProjectFiles | ScImageGenerationAdmin.
#[export] Instance PrincipalScope_eq_dec : EqDecision PrincipalScope.
Proof. solve_decision. Defined.
(** principal.rs:163-167 PrincipalGrant. *)
Record PrincipalGrant := mkGrant { pg_scope : PrincipalScope; pg_project_root : option bytes }.
(** The two words of a process start identity. *)
Record ProcessStartIdentity := mkStart { ps_primary : Z; ps_secondary : Z }.
(** Peer credentials of a socket. *)
Record PeerIdentity := mkPeer { pi_pid : Z; pi_uid : Z; pi_gid : Z; pi_process_start : ProcessStartIdentity }.
(** principal.rs:30-40 LocalPrincipal. *)
Record LocalPrincipal := mkLocal {
  lo_role : LocalClientRole; lo_peer_pid : Z; lo_peer_uid : Z; lo_peer_gid : Z; lo_peer_process_start : ProcessStartIdentity;
  lo_grants : list PrincipalGrant }.
(** principal.rs:76-83 ClientActorBindingV1. *)
Record ClientActorBindingV1 := mkActorBinding {
  ab_schema_version : Z; ab_device_id : bytes; ab_device_generation : Z; ab_logical_attachment_id : bytes }.
(** principal.rs:123-128 RemoteCeilingAuthorization. *)
Record RemoteCeilingAuthorization := mkCeilingAuthorization {
  ca_attachment_capabilities : list RemoteAttachmentCapabilityV1; ca_projects : list (bytes * list RemoteProjectCapabilityV1) }.
(** principal.rs:153-161 GrantDeviceBinding. *)
Record GrantDeviceBinding := mkDeviceBinding {
  db_client_device_id : bytes; db_client_certificate_id : bytes; db_client_generation : Z; db_logical_attachment_id : bytes;
  db_child_attempt_id : bytes }.
(** principal.rs:107-118 AttemptGrantAuthorization. *)
Record AttemptGrantAuthorization := mkAuthorization {
  ag_account_alias : bytes; ag_ceiling : RemoteCeilingAuthorization; ag_device_binding : GrantDeviceBinding }.
(** principal.rs:93-101 RemoteAuthorization. *)
Inductive RemoteAuthorization := LegacyRelayScopes (grants : list PrincipalGrant) | AttemptGrant (auth : AttemptGrantAuthorization).
(** principal.rs:60-71 RemotePrincipal. *)
Record RemotePrincipal := mkRemote {
  rp_user_id : bytes; rp_authorization : RemoteAuthorization; rp_actor_binding : option ClientActorBindingV1 }.
(** principal.rs:51-58 ClientPrincipal. *)
Inductive ClientPrincipal := Owner | Local_ (local : LocalPrincipal) | Remote (remote : RemotePrincipal).

(** principal.rs:133-135 has_attachment_capability. *)
Definition has_attachment_capability (c : RemoteCeilingAuthorization) (cap : RemoteAttachmentCapabilityV1) : bool :=
  bool_decide (cap ∈ ca_attachment_capabilities c).
(** principal.rs:139-147 project_has_capability. *)
Definition project_has_capability (c : RemoteCeilingAuthorization) (project_id : bytes) (cap : RemoteProjectCapabilityV1) : bool :=
  existsb (fun p => bool_decide (p.1 = project_id) && bool_decide (cap ∈ p.2)) (ca_projects c).

(** ** Constructors and views *)

(** principal.rs:206-215 local_unauthenticated. *)
Definition local_unauthenticated (peer : PeerIdentity) : ClientPrincipal :=
  Local_ (mkLocal Unauthenticated (pi_pid peer) (pi_uid peer) (pi_gid peer) (pi_process_start peer) []).
(** principal.rs:217-230 local_authenticated. *)
Definition local_authenticated (peer : PeerIdentity) (role : LocalClientRole) (grants : list PrincipalGrant) : ClientPrincipal :=
  Local_ (mkLocal role (pi_pid peer) (pi_uid peer) (pi_gid peer) (pi_process_start peer) grants).
(** principal.rs:232-237 as_local. *)
Definition as_local (p : ClientPrincipal) : option LocalPrincipal := match p with Local_ l => Some l | _ => None end.
(** principal.rs:239-247 peer_identity. *)
Definition peer_identity (p : ClientPrincipal) : option PeerIdentity :=
  option_map (fun l => mkPeer (lo_peer_pid l) (lo_peer_uid l) (lo_peer_gid l) (lo_peer_process_start l)) (as_local p).
(** principal.rs:288-299 from_verified_remote. *)
Definition from_verified_remote (user_id : bytes) (grants : list PrincipalGrant) (actor : option ClientActorBindingV1) : ClientPrincipal :=
  Remote (mkRemote user_id (LegacyRelayScopes grants) actor).
(** principal.rs:305-316 from_attempt_grant. *)
Definition from_attempt_grant (user_id : bytes) (auth : AttemptGrantAuthorization) (actor : option ClientActorBindingV1) : ClientPrincipal :=
  Remote (mkRemote user_id (AttemptGrant auth) actor).
(** principal.rs:320-330 attempt_grant_authorization. *)
Definition attempt_grant_authorization (p : ClientPrincipal) : option AttemptGrantAuthorization :=
  match p with
  | Remote r => match rp_authorization r with AttemptGrant auth => Some auth | LegacyRelayScopes _ => None end
  | Owner => None
  | Local_ _ => None
  end.
(** principal.rs:332-334 is_owner. *)
Definition is_owner (p : ClientPrincipal) : bool := match p with Owner => true | _ => false end.
(** principal.rs:249-256 has_owner_level_authority. *)
Definition has_owner_level_authority (p : ClientPrincipal) : bool :=
  match p with Owner => true | Local_ l => is_owner_class (lo_role l) | Remote _ => false end.
(** [to_le_bytes]. *)
Definition to_le (n : nat) (v : Z) : bytes := reverse (to_be n v).
(** principal.rs:259-275 coverage_identity_material. *)
Definition coverage_identity_material (p : ClientPrincipal) : bytes :=
  match p with
  | Owner => ascii_bytes "owner"
  | Local_ l =>
      [0] ++ to_le 4 (lo_peer_pid l) ++ to_le 4 (lo_peer_uid l) ++ to_le 4 (lo_peer_gid l) ++ to_le 8 (ps_primary (lo_peer_process_start l))
        ++ to_le 8 (ps_secondary (lo_peer_process_start l)) ++ [if is_owner_class (lo_role l) then 1 else 0]
  | Remote r => rp_user_id r
  end.

(** ** Scopes *)

(** [Path::components]: whether the path is absolute, whether it is relative and starts with [.], and the
    other components; empty ones and later [.] ones do not count. *)
Fixpoint path_parts (cur s : bytes) : list bytes :=
  match s with
  | [] => [cur]
  | c :: s => if c =? 47 then cur :: path_parts [] s else path_parts (cur ++ [c]) s
  end.
Definition path_components (p : bytes) : bool * bool * list bytes :=
  let parts := path_parts [] p in
  let has_root := bool_decide (head p = Some 47) in
  (has_root, negb has_root && bool_decide (head parts = Some [46]), filter (fun c => c <> [] /\ c <> [46]) parts).
(** [PathBuf] equality. *)
Definition path_eq (a b : bytes) : bool := bool_decide (path_components a = path_components b).
Lemma path_eq_examples :
  path_eq (ascii_bytes "/a//b/./c/") (ascii_bytes "/a/b/c") = true /\ path_eq (ascii_bytes "./a") (ascii_bytes "a") = false /\
  path_eq (ascii_bytes "/a/../b") (ascii_bytes "/b") = false /\ path_eq (ascii_bytes "a/.") (ascii_bytes "a") = true.
Proof. split_and!; vm_compute; reflexivity. Qed.

Section Scopes.
Variable canonicalize : bytes -> option bytes.

(** principal.rs:498-503 canonical_if_exists. *)
Definition canonical_if_exists (path : bytes) : bytes := match canonicalize path with Some p => p | None => path end.
(** principal.rs:490-496 roots_equal. The [remote] build. *)
Definition roots_equal (a b : bytes) : bool :=
  bool_decide (a = b) || path_eq (canonical_if_exists a) (canonical_if_exists b).
(** principal.rs:450-460 matches_project. *)
Definition matches_project (g : PrincipalGrant) (project_root : bytes) : bool :=
  match pg_project_root g with
  | None => negb (bool_decide (pg_scope g = ScImageGenerationAdmin))
  | Some root => roots_equal root project_root
  end.
(** principal.rs:389-414 has_project_scope. *)
Definition has_project_scope (p : ClientPrincipal) (scope : PrincipalScope) (project_root : bytes) : bool :=
  match p with
  | Owner => true
  | Local_ l =>
      if is_owner_class (lo_role l) then true else
      existsb (fun g => bool_decide (pg_scope g = scope) && matches_project g project_root) (lo_grants l)
  | Remote r =>
      match rp_authorization r with
      | LegacyRelayScopes grants => existsb (fun g => bool_decide (pg_scope g = scope) && matches_project g project_root) grants
      | AttemptGrant _ => false
      end
  end.
(** principal.rs:416-434 has_scope. *)
Definition has_scope (p : ClientPrincipal) (scope : PrincipalScope) : bool :=
  match p with
  | Owner => true
  | Local_ l =>
      if is_owner_class (lo_role l) then true else existsb (fun g => bool_decide (pg_scope g = scope)) (lo_grants l)
  | Remote r =>
      match rp_authorization r with
      | LegacyRelayScopes grants => existsb (fun g => bool_decide (pg_scope g = scope)) grants
      | AttemptGrant _ => false
      end
  end.
(** principal.rs:370-373 can_agent_write_project. *)
Definition can_agent_write_project (p : ClientPrincipal) (project_root : bytes) : bool :=
  has_owner_level_authority p || has_project_scope p ScAgent project_root.
(** principal.rs:375-378 can_agent_read_project. *)
Definition can_agent_read_project (p : ClientPrincipal) (project_root : bytes) : bool :=
  can_agent_write_project p project_root || has_project_scope p ScAgentReadonly project_root.
(** principal.rs:380-383 has_project_files. *)
Definition has_project_files (p : ClientPrincipal) (project_root : bytes) : bool :=
  has_owner_level_authority p || has_project_scope p ScProjectFiles project_root.
(** principal.rs:385-387 has_terminal. *)
Definition has_terminal (p : ClientPrincipal) : bool := has_owner_level_authority p || has_scope p ScTerminal.

(** A local peer that has not authenticated, and a principal from an attempt grant, have no scope. *)
Lemma unauthenticated_has_nothing peer scope root : has_project_scope (local_unauthenticated peer) scope root = false /\
  has_scope (local_unauthenticated peer) scope = false /\ has_owner_level_authority (local_unauthenticated peer) = false.
Proof using Type. done. Qed.
Lemma attempt_grant_has_no_scope user auth actor scope root : has_project_scope (from_attempt_grant user auth actor) scope root = false /\
  has_scope (from_attempt_grant user auth actor) scope = false /\ has_owner_level_authority (from_attempt_grant user auth actor) = false.
Proof using Type. done. Qed.
(** An image-generation grant without a root matches no project and gives none of the four accesses. *)
Lemma image_grant_is_inert g root : pg_scope g = ScImageGenerationAdmin ->
  (pg_project_root g = None -> matches_project g root = false) /\
  forall scope user actor, scope <> ScImageGenerationAdmin -> has_project_scope (from_verified_remote user [g] actor) scope root = false /\
    has_scope (from_verified_remote user [g] actor) scope = false.
Proof using Type.
  intros Hg. split; [intros Hr; unfold matches_project; by rewrite Hr, Hg, bool_decide_true|]. intros scope user actor Hs. cbn. rewrite Hg.
  by rewrite bool_decide_false.
Qed.
End Scopes.
