(* ===== verification/Attempt.v ===== *)
(** Remote attempt grants ([cockpit-core/src/daemon/remote_attempt.rs], with the verifier of
    [cockpit-proto/src/es256.rs] and the tuple set of [remote_public_service_policy.rs]): the
    compact-JWS grant and its claims, the gate on the endpoints' final proofs, and the principal the
    daemon builds from both.  Strings are their UTF-8 bytes and the text of an error message is left
    out.  The [p256] crate, the base64 engine and the deserializers of [serde_json] are parameters. *)

From S2P Require Import Prelude.
From S2P Require Import ProtocolId.
From S2P Require Import WireScalar.
From S2P Require Import NoisePrologue.
From S2P Require Import Ceiling.
From S2P Require Import Signaling.
From S2P Require Import Version.
From S2P Require Import Principal.
From S2P Require Import Continuity.
From stdpp Require Import options.
Set Warnings "-register-all".

(** ** The ES256 verifier *)

(** es256.rs:23-27 Es256PublicKey. *)
Record Es256PublicKey := mkKey { ek_x : bytes; ek_y : bytes }.
#[export] Instance Es256PublicKey_eq_dec : EqDecision Es256PublicKey.
Proof. solve_decision. Defined.
(** es256.rs:31-45 Es256Error. *)
Inductive Es256Error := EsSignatureLength | EsZeroScalar | EsMalformedSignature | EsHighS | EsInvalidKey | EsVerificationFailed.
(** The [p256] crate: parsing a signature and a key, the low-[s] test and the verification. *)
Class P256 := mkP256 {
  signature_well_formed : bytes -> bool;
  signature_high_s : bytes -> bool;
  point_valid : bytes -> bool;
  ecdsa_verify : bytes -> bytes -> bytes -> bool }.
(** es256.rs:49-55 to_sec1_uncompressed. *)
Definition to_sec1_uncompressed (k : Es256PublicKey) : bytes := [4] ++ ek_x k ++ ek_y k.
(** es256.rs:66-97 verify_es256_p1363. *)
Definition verify_es256_p1363 `{P256} (key : Es256PublicKey) (signing_input signature : bytes) : result Es256Error unit :=
  if negb (zlen signature =? 64) then Err EsSignatureLength else
  r ← slice signature 0 32;
  s ← slice signature 32 64;
  if forallb (fun b => b =? 0) r || forallb (fun b => b =? 0) s then Err EsZeroScalar else
  if negb (signature_well_formed signature) then Err EsMalformedSignature else
  if signature_high_s signature then Err EsHighS else
  let sec1 := to_sec1_uncompressed key in
  if negb (point_valid sec1) then Err EsInvalidKey else
  if negb (ecdsa_verify sec1 signing_input signature) then Err EsVerificationFailed else Ok tt.

(** [URL_SAFE_NO_PAD] of the base64 crate. *)
Class Base64Url := mkBase64Url {
  url_encode : bytes -> bytes;
  url_decode : bytes -> option bytes;
  url_decode_encode : forall b, url_decode (url_encode b) = Some b }.

(** ** Constants and data *)

(** remote_attempt.rs:68-68 GRANT_JWS_TYP. *)
Definition GRANT_JWS_TYP : bytes := Eval vm_compute in (ascii_bytes "flycockpit-remote-attempt+jwt").
(** remote_attempt.rs:70-70 GRANT_JWS_ALG. *)
Definition GRANT_JWS_ALG : bytes := Eval vm_compute in (ascii_bytes "ES256").
(** remote_attempt.rs:72-72 GRANT_MAX_BYTES. *)
Definition GRANT_MAX_BYTES : Z := 8192.
(** remote_attempt.rs:74-74 GRANT_LIFETIME_SECONDS. *)
Definition GRANT_LIFETIME_SECONDS : Z := 300.
(** remote_attempt.rs:76-76 GRANT_SKEW_SECONDS. *)
Definition GRANT_SKEW_SECONDS : Z := 60.
(** remote_attempt.rs:78-78 FCDO_DOMAIN. *)
Definition FCDO_DOMAIN : bytes := Eval vm_compute in (ascii_bytes "flycockpit.remote.daemon-admission-offer.v1" ++ [0]).
(** remote_attempt.rs:80-80 FCCP_DOMAIN. *)
Definition FCCP_DOMAIN : bytes := Eval vm_compute in (ascii_bytes "flycockpit.remote.client-admission-proof.v1" ++ [0]).
(** remote_attempt.rs:85-85 FCFP_DOMAIN. *)
Definition FCFP_DOMAIN : bytes := Eval vm_compute in (ascii_bytes "flycockpit.remote.endpoint-final-proof.v1" ++ [0]).
(** remote_attempt.rs:87-87 GRANT_SCHEMA_VERSION. *)
Definition GRANT_SCHEMA_VERSION : Z := 1.
(** remote_public_service_policy.rs:129-129 TRANSPORT_BITS_VALID. *)
Definition TRANSPORT_BITS_VALID : list Z := [1; 2; 3].

(** remote_attempt.rs:108-132 AttemptGrantError. The variants, without their messages. *)
Inductive AttemptGrantError :=
| AgJws | AgSignature | AgClaims | AgCeiling | AgTransport | AgTupleSet | AgOffer | AgProof | AgFinalProof | AgCertificate | AgTime.
#[export] Instance AttemptGrantError_eq_dec : EqDecision AttemptGrantError.
Proof. solve_decision. Defined.
Local Abbreviation res := (result AttemptGrantError).

(** remote_attempt.rs:141-147 GrantDeviceIdentity. *)
Record GrantDeviceIdentity := mkIdentity { gi_device_id : bytes; gi_certificate_id : bytes; gi_generation : Z; gi_p256_thumbprint : bytes }.
#[export] Instance GrantDeviceIdentity_eq_dec : EqDecision GrantDeviceIdentity.
Proof. solve_decision. Defined.
(** remote_attempt.rs:150-154 GrantPermissionCeiling. *)
Record GrantPermissionCeiling := mkGrantCeiling {
  gc_attachment_capabilities : list RemoteAttachmentCapabilityV1; gc_projects : list (bytes * list RemoteProjectCapabilityV1) }.
(** remote_attempt.rs:159-188 RemoteAttemptGrantV1. *)
Record RemoteAttemptGrantV1 := mkAttemptGrant {
  ra_schema_version : Z; ra_issuer : bytes; ra_audience : bytes; ra_tenant_id : bytes; ra_account_id : bytes; ra_instance_id : bytes;
  ra_logical_attachment_id : bytes; ra_child_attempt_id : bytes; ra_jti : bytes; ra_client : GrantDeviceIdentity; ra_daemon : GrantDeviceIdentity;
  ra_server_nonce : bytes; ra_service_version : Z; ra_service_policy_digest : bytes; ra_policy_epoch : Z; ra_policy_digest : bytes;
  ra_authority_epoch : Z; ra_permission_ceiling : GrantPermissionCeiling; ra_permission_ceiling_digest : bytes; ra_authorized_transports : Z;
  ra_compatible_tuple_ids : list Z; ra_tenant_authorization_digest : option bytes; ra_iat : Z; ra_nbf : Z; ra_exp : Z; ra_compact_jws : bytes }.

(** ** Semantic claims *)

(** The plain [+] on [i64]. *)
Definition add_i64 {E} (a b : Z) : result E Z :=
  if (- 2 ^ 63 <=? a + b) && (a + b <? 2 ^ 63) then Ok (a + b) else Panic.
(** remote_attempt.rs:198-220 validate_time. *)
Definition validate_time (g : RemoteAttemptGrantV1) (now : Z) : res unit :=
  if (ra_nbf g <? ra_iat g) || (ra_exp g <? ra_nbf g) then Err AgTime else
  lifetime ← sub_i64 (ra_exp g) (ra_iat g);
  if GRANT_LIFETIME_SECONDS <? lifetime then Err AgTime else
  latest ← add_i64 now GRANT_SKEW_SECONDS;
  if latest <? ra_nbf g then Err AgTime else
  if ra_exp g <? now then Err AgTime else Ok tt.
(** remote_attempt.rs:224-232 validate_transport_bits. *)
Definition validate_transport_bits (g : RemoteAttemptGrantV1) : res unit :=
  if negb (bool_decide (ra_authorized_transports g ∈ TRANSPORT_BITS_VALID)) then Err AgTransport else Ok tt.
(** remote_public_service_policy.rs:180-195 RemoteAuthorizedTupleSetV1::encode. The loop; [prev] is absent at the first id. *)
Fixpoint check_tuple_ids (prev : option Z) (revoked ids : list Z) : option unit :=
  match ids with
  | [] => Some tt
  | id :: ids =>
      if id =? 0 then None else
      if match prev with Some p => id <=? p | None => false end then None else
      if negb (known enabled_registry id) then None else
      if bool_decide (id ∈ revoked) then None else check_tuple_ids (Some id) revoked ids
  end.
(** remote_public_service_policy.rs:172-202 RemoteAuthorizedTupleSetV1::encode. Any refusal is [None]. *)
Definition tuple_set_encode (ids revoked : list Z) : option bytes :=
  if bool_decide (0 ∈ revoked) then None else
  if negb ((1 <=? zlen ids) && (zlen ids <=? 16)) then None else
  _ ← check_tuple_ids None revoked ids;
  Some ([zlen ids] ++ concat (map (to_be 2) ids)).
(** remote_attempt.rs:237-245 validate_tuple_set. *)
Definition validate_tuple_set (g : RemoteAttemptGrantV1) (revoked : list Z) : res unit :=
  match tuple_set_encode (ra_compatible_tuple_ids g) revoked with Some _ => Ok tt | None => Err AgTupleSet end.

Section Grant.
Context `{Sha256}.
(** remote_attempt.rs:192-194 digest. *)
Definition grant_digest_of (g : RemoteAttemptGrantV1) : bytes := sha256 (ra_compact_jws g).
(** remote_attempt.rs:252-265 validate_permission_ceiling. *)
Definition validate_permission_ceiling (g : RemoteAttemptGrantV1) : res unit :=
  let ceiling := Ceiling.mkCeiling (gc_attachment_capabilities (ra_permission_ceiling g)) (gc_projects (ra_permission_ceiling g)) in
  match permission_ceiling_digest ceiling with
  | Ok digest => if negb (bool_decide (digest = ra_permission_ceiling_digest g)) then Err AgCeiling else Ok tt
  | Err _ => Err AgCeiling
  | Panic => Panic
  end.
(** remote_attempt.rs:272-284 validate_claims. *)
Definition validate_claims (g : RemoteAttemptGrantV1) (now : Z) (revoked : list Z) : res unit :=
  if negb (ra_schema_version g =? GRANT_SCHEMA_VERSION) then Err AgClaims else
  _ ← validate_time g now;
  _ ← validate_transport_bits g;
  _ ← validate_tuple_set g revoked;
  validate_permission_ceiling g.
End Grant.

(** remote_attempt.rs:318-324 TenantAuthorizationExpectation. *)
Inductive TenantAuthorizationExpectation := ControlPlane | Enterprise (digest : bytes).
(** remote_attempt.rs:328-346 GrantVerificationExpectations. *)
Record GrantVerificationExpectations := mkExpectations {
  gx_issuer : bytes; gx_audience : bytes; gx_tenant_id : bytes; gx_account_id : bytes; gx_instance_id : bytes;
  gx_logical_attachment_id : bytes; gx_child_attempt_id : bytes; gx_client : GrantDeviceIdentity; gx_daemon : GrantDeviceIdentity;
  gx_server_nonce : bytes; gx_service_version : Z; gx_service_policy_digest : bytes; gx_policy_epoch : Z; gx_policy_digest : bytes;
  gx_authority_epoch : Z; gx_tenant_authorization : TenantAuthorizationExpectation }.
(** The [bind!] macro. *)
Definition bind_claim {A} `{EqDecision A} (x y : A) : res unit := if negb (bool_decide (x = y)) then Err AgClaims else Ok tt.
(** remote_attempt.rs:851-914 bind_expectations. *)
Definition bind_expectations (g : RemoteAttemptGrantV1) (e : GrantVerificationExpectations) : res unit :=
  _ ← bind_claim (ra_issuer g) (gx_issuer e);
  _ ← bind_claim (ra_audience g) (gx_audience e);
  _ ← bind_claim (ra_tenant_id g) (gx_tenant_id e);
  _ ← bind_claim (ra_account_id g) (gx_account_id e);
  _ ← bind_claim (ra_instance_id g) (gx_instance_id e);
  _ ← bind_claim (ra_logical_attachment_id g) (gx_logical_attachment_id e);
  _ ← bind_claim (ra_child_attempt_id g) (gx_child_attempt_id e);
  _ ← bind_claim (ra_client g) (gx_client e);
  _ ← bind_claim (ra_daemon g) (gx_daemon e);
  _ ← bind_claim (ra_server_nonce g) (gx_server_nonce e);
  _ ← bind_claim (ra_service_version g) (gx_service_version e);
  _ ← bind_claim (ra_service_policy_digest g) (gx_service_policy_digest e);
  _ ← bind_claim (ra_policy_epoch g) (gx_policy_epoch e);
  _ ← bind_claim (ra_policy_digest g) (gx_policy_digest e);
  _ ← bind_claim (ra_authority_epoch g) (gx_authority_epoch e);
  match gx_tenant_authorization e with
  | ControlPlane => bind_claim (ra_tenant_authorization_digest g) None
  | Enterprise digest => bind_claim (ra_tenant_authorization_digest g) (Some digest)
  end.

(** ** Decoding the claims *)

(** remote_attempt.rs:399-405 RawHeader. *)
Record RawHeader := mkRawHeader { rh_alg : bytes; rh_kid : bytes; rh_typ : bytes }.
(** remote_attempt.rs:407-417 RawIdentity. *)
Record RawIdentity := mkRawIdentity { ri_device_id : bytes; ri_certificate_id : bytes; ri_generation : bytes; ri_p256_thumbprint : bytes }.
(** remote_attempt.rs:419-425 RawProjectCap. *)
Record RawProjectCap := mkRawProject { rj_project_id : bytes; rj_capabilities : list Z }.
(** remote_attempt.rs:427-474 RawClaims. *)
Record RawClaims := mkRawClaims {
  rc_schema_version : Z; rc_iss : bytes; rc_aud : bytes; rc_tenant_id : bytes; rc_account_id : bytes; rc_instance_id : bytes;
  rc_logical_attachment_id : bytes; rc_child_attempt_id : bytes; rc_jti : bytes; rc_client : RawIdentity; rc_daemon : RawIdentity;
  rc_server_nonce : bytes; rc_service_version : bytes; rc_service_policy_digest : bytes; rc_policy_epoch : bytes; rc_policy_digest : bytes;
  rc_authority_epoch : bytes; rc_attachment_capabilities : list Z; rc_project_capabilities : list RawProjectCap;
  rc_permission_ceiling_digest : bytes; rc_authorized_transports : Z; rc_compatible_tuple_ids : list Z;
  rc_tenant_authorization_digest : option bytes; rc_iat : bytes; rc_nbf : bytes; rc_exp : bytes }.

(** remote_attempt.rs:476-482 hex_val. *)
Definition hex_val (c : Z) : option Z :=
  if (48 <=? c) && (c <=? 57) then Some (c - 48) else
  if (97 <=? c) && (c <=? 102) then Some (c - 97 + 10) else None.
(** remote_attempt.rs:491-497 decode_hex32. The loop. *)
Fixpoint hex_pairs (s : bytes) : option bytes :=
  match s with
  | [] => Some []
  | h :: l :: s =>
      hi ← hex_val h;
      lo ← hex_val l;
      rest ← hex_pairs s;
      Some (Z.lor (Z.shiftl hi 4) lo :: rest)
  | _ => None
  end.
(** remote_attempt.rs:486-498 decode_hex32. *)
Definition decode_hex32 (s : bytes) : option bytes := if negb (zlen s =? 64) then None else hex_pairs s.
(** remote_attempt.rs:837-849 decode_hex_id16. *)
Definition decode_hex_id16 (s : bytes) : option bytes := if negb (zlen s =? 32) then None else hex_pairs s.
(** remote_attempt.rs:524-529 parse_decimal_u64. *)
Definition parse_decimal_u64 (s : bytes) : option Z :=
  if bool_decide (s = []) || existsb (fun b => negb (is_ascii_digit b)) s then None else
  if digits_value s <=? U64_MAX then Some (digits_value s) else None.
(** remote_attempt.rs:532-537 parse_decimal_i64. *)
Definition parse_decimal_i64 (s : bytes) : option Z :=
  if bool_decide (s = []) || existsb (fun b => negb (is_ascii_digit b)) s then None else
  if digits_value s <? 2 ^ 63 then Some (digits_value s) else None.
(** remote_attempt.rs:539-544 is_base64url_segment. *)
Definition is_base64url_segment (seg : bytes) : bool :=
  negb (bool_decide (seg = [])) &&
  forallb (fun b => is_ascii_digit b || ((65 <=? b) && (b <=? 90)) || ((97 <=? b) && (b <=? 122)) || (b =? 45) || (b =? 95)) seg.
Fixpoint from_ordinals {E C} (from : Z -> result E C) (ords : list Z) : option (list C) :=
  match ords with
  | [] => Some []
  | o :: ords => match from o with Ok c => cs ← from_ordinals from ords; Some (c :: cs) | _ => None end
  end.

Section Claims.
Context `{Base64Url}.
(** remote_attempt.rs:502-516 decode_alias16. *)
Definition decode_alias16 (s : bytes) : option bytes :=
  if negb (zlen s =? 22) then None else
  b ← url_decode s;
  if negb (zlen b =? 16) then None else
  if negb (bool_decide (url_encode b = s)) then None else Some b.
(** remote_attempt.rs:519-521 account_alias. *)
Definition account_alias (b : bytes) : bytes := url_encode b.
Definition claim {A} (o : option A) : res A := ok_or o AgClaims.
(** remote_attempt.rs:716-731 decode_identity. *)
Definition decode_identity (raw : RawIdentity) : res GrantDeviceIdentity :=
  device_id ← claim (decode_alias16 (ri_device_id raw));
  certificate_id ← claim (decode_alias16 (ri_certificate_id raw));
  generation ← claim (parse_decimal_u64 (ri_generation raw));
  p256_thumbprint ← claim (decode_hex32 (ri_p256_thumbprint raw));
  Ok (mkIdentity device_id certificate_id generation p256_thumbprint).
(** remote_attempt.rs:772-786 decode_claims. The loop over the projects. *)
Fixpoint decode_raw_projects (ps : list RawProjectCap) : res (list (bytes * list RemoteProjectCapabilityV1)) :=
  match ps with
  | [] => Ok []
  | p :: ps =>
      pid ← claim (decode_hex_id16 (rj_project_id p));
      caps ← claim (from_ordinals project_from_ordinal (rj_capabilities p));
      rest ← decode_raw_projects ps;
      Ok ((pid, caps) :: rest)
  end.
(** remote_attempt.rs:733-834 decode_claims. *)
Definition decode_claims (raw : RawClaims) (compact_jws : bytes) : res RemoteAttemptGrantV1 :=
  tenant_id ← claim (decode_alias16 (rc_tenant_id raw));
  account_id ← claim (decode_alias16 (rc_account_id raw));
  instance_id ← claim (decode_alias16 (rc_instance_id raw));
  logical_attachment_id ← claim (decode_alias16 (rc_logical_attachment_id raw));
  child_attempt_id ← claim (decode_alias16 (rc_child_attempt_id raw));
  jti ← claim (decode_alias16 (rc_jti raw));
  client ← decode_identity (rc_client raw);
  daemon ← decode_identity (rc_daemon raw);
  server_nonce ← claim (decode_hex32 (rc_server_nonce raw));
  service_version ← claim (parse_decimal_u64 (rc_service_version raw));
  service_policy_digest ← claim (decode_hex32 (rc_service_policy_digest raw));
  policy_epoch ← claim (parse_decimal_u64 (rc_policy_epoch raw));
  policy_digest ← claim (decode_hex32 (rc_policy_digest raw));
  authority_epoch ← claim (parse_decimal_u64 (rc_authority_epoch raw));
  attachment ← claim (from_ordinals attachment_from_ordinal (rc_attachment_capabilities raw));
  projects ← decode_raw_projects (rc_project_capabilities raw);
  ceiling_digest ← claim (decode_hex32 (rc_permission_ceiling_digest raw));
  tenant_digest ← match rc_tenant_authorization_digest raw with
                  | None => Ok None
                  | Some s => d ← claim (decode_hex32 s); Ok (Some d)
                  end;
  iat ← claim (parse_decimal_i64 (rc_iat raw));
  nbf ← claim (parse_decimal_i64 (rc_nbf raw));
  exp ← claim (parse_decimal_i64 (rc_exp raw));
  Ok (mkAttemptGrant (rc_schema_version raw) (rc_iss raw) (rc_aud raw) tenant_id account_id instance_id logical_attachment_id child_attempt_id
        jti client daemon server_nonce service_version service_policy_digest policy_epoch policy_digest authority_epoch
        (mkGrantCeiling attachment projects) ceiling_digest (rc_authorized_transports raw) (rc_compatible_tuple_ids raw) tenant_digest
        iat nbf exp compact_jws).
End Claims.

(** ** Canonical JSON *)

(** The number and value types of [serde_json]; an object is the list of its members. *)
Inductive json_number := PosInt (u : Z) | NegInt (i : Z) | Float.
Inductive json := JNull | JBool (b : bool) | JNumber (n : json_number) | JString (s : bytes) | JArray (items : list json)
| JObject (members : list (bytes * json)).
Definition hex_digit (v : Z) : Z := if v <? 10 then 48 + v else 87 + v.
(** remote_attempt.rs:550-563 canonical_json_string. One character; the bytes of a character outside ASCII are
    copied. *)
Definition canonical_char (c : Z) : bytes :=
  if c =? 34 then [92; 34] else if c =? 92 then [92; 92] else if c =? 8 then [92; 98] else if c =? 12 then [92; 102] else
  if c =? 10 then [92; 110] else if c =? 13 then [92; 114] else if c =? 9 then [92; 116] else
  if c <? 32 then [92; 117; 48; 48; hex_digit (c / 16); hex_digit (c mod 16)] else [c].
(** remote_attempt.rs:548-564 canonical_json_string. *)
Definition canonical_json_string (s : bytes) : bytes := [34] ++ concat (map canonical_char s) ++ [34].
(** Sequencing of the parts, the first error in front. *)
Fixpoint collect {A} (l : list (res A)) : res (list A) := match l with [] => Ok [] | x :: l => y ← x; ys ← collect l; Ok (y :: ys) end.
Fixpoint join (sep : bytes) (parts : list bytes) : bytes :=
  match parts with [] => [] | [p] => p | p :: parts => p ++ sep ++ join sep parts end.
Definition key_le (a b : bytes * res bytes) : Prop := bytes_lt b.1 a.1 = false.
#[export] Instance key_le_dec : RelDecision key_le.
Proof. intros a b. unfold key_le. apply _. Defined.
(** remote_attempt.rs:572-614 canonical_json. *)
Fixpoint canonical_json (v : json) : res bytes :=
  match v with
  | JNull => Ok (ascii_bytes "null")
  | JBool true => Ok (ascii_bytes "true")
  | JBool false => Ok (ascii_bytes "false")
  | JNumber (PosInt u) => Ok (to_string u)
  | JNumber _ => Err AgJws
  | JString s => Ok (canonical_json_string s)
  | JArray items => parts ← collect (map canonical_json items); Ok ([91] ++ join [44] parts ++ [93])
  | JObject members =>
      let entries := merge_sort key_le (map (fun m => (m.1, canonical_json m.2)) members) in
      parts ← collect (map (fun e => text ← e.2; Ok (canonical_json_string e.1 ++ [58] ++ text)) entries);
      Ok ([123] ++ join [44] parts ++ [125])
  end.

(** ** Verifying a grant *)

(** The deserializers of [serde_json]: a value, and the strict records of the header and the claims. *)
Class GrantJson := mkGrantJson {
  json_value : bytes -> option json;
  json_header : bytes -> option RawHeader;
  json_claims : bytes -> option RawClaims }.
(** remote_attempt.rs:294-297 AttemptGrantKeyRing. *)
Definition AttemptGrantKeyRing : Type := gmap bytes Es256PublicKey.
(** remote_attempt.rs:307-310 with_key. *)
Definition with_key (ring : AttemptGrantKeyRing) (kid : bytes) (key : Es256PublicKey) : AttemptGrantKeyRing := <[kid := key]> ring.
(** remote_attempt.rs:356-359 VerifiedAttemptGrant. *)
Record VerifiedAttemptGrant := mkVerified { va_grant : RemoteAttemptGrantV1 }.
(** [str::split] on a byte. *)
Fixpoint split_on (sep : Z) (s : bytes) : list bytes :=
  match s with
  | [] => [[]]
  | c :: s => if c =? sep then [] :: split_on sep s else match split_on sep s with [] => [[c]] | seg :: segs => (c :: seg) :: segs end
  end.

Section Verify.
Context `{Sha256, P256, Base64Url, GrantJson}.

(** remote_attempt.rs:618-714 verify_attempt_grant. *)
Definition verify_attempt_grant (compact_jws : bytes) (keys : AttemptGrantKeyRing) (expected : GrantVerificationExpectations) (now : Z)
  : res VerifiedAttemptGrant :=
  if GRANT_MAX_BYTES <? zlen compact_jws then Err AgJws else
  if negb (from_utf8 compact_jws) then Err AgJws else
  if negb (forallb (fun b => b <? 128) compact_jws) then Err AgJws else
  match split_on 46 compact_jws with
  | [header_seg; payload_seg; signature_seg] =>
      if negb (forallb is_base64url_segment [header_seg; payload_seg; signature_seg]) then Err AgJws else
      header_bytes ← ok_or (url_decode header_seg) AgJws;
      header ← ok_or (json_header header_bytes) AgJws;
      if negb (bool_decide (rh_alg header = GRANT_JWS_ALG)) then Err AgJws else
      if negb (bool_decide (rh_typ header = GRANT_JWS_TYP)) then Err AgJws else
      if bool_decide (rh_kid header = []) then Err AgJws else
      payload_bytes ← ok_or (url_decode payload_seg) AgJws;
      payload_value ← ok_or (json_value payload_bytes) AgJws;
      canonical ← canonical_json payload_value;
      if negb (bool_decide (canonical = payload_bytes)) then Err AgJws else
      raw ← ok_or (json_claims payload_bytes) AgClaims;
      grant ← decode_claims raw compact_jws;
      key ← ok_or (keys !! rh_kid header) AgSignature;
      signature ← ok_or (url_decode signature_seg) AgSignature;
      let signing_input := header_seg ++ [46] ++ payload_seg in
      match verify_es256_p1363 key signing_input signature with
      | Ok _ =>
          _ ← validate_claims grant now [];
          _ ← bind_expectations grant expected;
          Ok (mkVerified grant)
      | Err _ => Err AgSignature
      | Panic => Panic
      end
  | _ => Err AgJws
  end.

(** ** Admission *)

(** remote_attempt.rs:921-926 VerifiedDaemonAdmissionOffer. *)
Record VerifiedDaemonAdmissionOffer := mkVerifiedOffer { vo_child_attempt_id : bytes; vo_offer_digest : bytes; vo_offer_bytes : bytes }.
Definition map_error {A} (e : AttemptGrantError) (r : result SignalingCodecError A) : res A :=
  match r with Ok a => Ok a | Err _ => Err e | Panic => Panic end.
(** remote_attempt.rs:931-943 verify_daemon_admission_offer. *)
Definition verify_daemon_admission_offer (fcdo_bytes : bytes) : res VerifiedDaemonAdmissionOffer :=
  child ← map_error AgOffer (validate_fcdo fcdo_bytes);
  digest ← map_error AgOffer (daemon_admission_offer_digest fcdo_bytes);
  Ok (mkVerifiedOffer child digest fcdo_bytes).
(** remote_attempt.rs:946-950 VerifiedClientAdmissionProof. *)
Record VerifiedClientAdmissionProof := mkVerifiedProof { vp_child_attempt_id : bytes; vp_proof_bytes : bytes }.
(** remote_attempt.rs:953-962 verify_client_admission_proof. *)
Definition verify_client_admission_proof (fccp_bytes : bytes) : res VerifiedClientAdmissionProof :=
  child ← map_error AgProof (validate_fccp fccp_bytes);
  Ok (mkVerifiedProof child fccp_bytes).
Definition domain_hash (domain body : bytes) : bytes := hasher_finalize (hasher_update (hasher_update hasher_new domain) body).
(** remote_attempt.rs:965-970 fcdo_signature_hash. *)
Definition fcdo_signature_hash (body : bytes) : bytes := domain_hash FCDO_DOMAIN body.
(** remote_attempt.rs:973-978 fccp_signature_hash. *)
Definition fccp_signature_hash (body : bytes) : bytes := domain_hash FCCP_DOMAIN body.
(** remote_attempt.rs:982-987 fcfp_signature_hash. *)
Definition fcfp_signature_hash (signed_prefix : bytes) : bytes := domain_hash FCFP_DOMAIN signed_prefix.

(** remote_attempt.rs:997-1024 FinalProofExpectations. *)
Record FinalProofExpectations := mkProofExpectations {
  px_grant_digest : bytes; px_child_attempt_id : bytes; px_transport_tag : Z; px_authorized_transports : Z; px_transport_epoch : bytes;
  px_negotiation_digest : bytes; px_transport_binding : bytes; px_client_key : Es256PublicKey; px_daemon_key : Es256PublicKey;
  px_client_certificate_id : bytes; px_client_certificate_generation : Z; px_daemon_certificate_id : bytes;
  px_daemon_certificate_generation : Z }.
(** remote_attempt.rs:1030-1038 EndpointProofGate. *)
Record EndpointProofGate := mkGate {
  eg_client_proof : RemoteEndpointFinalProofV1; eg_daemon_proof : RemoteEndpointFinalProofV1; eg_set_digest : bytes;
  eg_client_grant_digest : bytes; eg_child_attempt_id : bytes; eg_transport_epoch : bytes }.
(** remote_attempt.rs:1187-1215 check_certificate. *)
Definition check_certificate (proof : bytes) (expected_id : bytes) (expected_generation : Z) : res unit :=
  if negb (zlen proof =? 313) then Err AgFinalProof else
  cert_id ← slice proof 225 241;
  if negb (bool_decide (cert_id = expected_id)) then Err AgFinalProof else
  generation ← slice proof 241 249;
  if negb (from_be generation =? expected_generation) then Err AgFinalProof else Ok tt.
(** remote_attempt.rs:1217-1232 verify_fcfp_signature. *)
Definition verify_fcfp_signature (proof : bytes) (key : Es256PublicKey) : res unit :=
  if negb (zlen proof =? 313) then Err AgFinalProof else
  prefix ← slice proof 0 249;
  signature ← slice proof 249 313;
  match verify_es256_p1363 key (fcfp_signature_hash prefix) signature with
  | Ok _ => Ok tt
  | Err _ => Err AgFinalProof
  | Panic => Panic
  end.
(** remote_attempt.rs:1044-1168 consume. *)
Definition gate_consume (client daemon : bytes) (x : FinalProofExpectations) : res EndpointProofGate :=
  if negb (px_transport_tag x =? 1) && negb (px_transport_tag x =? 2) then Err AgFinalProof else
  if negb (Z.land (px_authorized_transports x) (px_transport_tag x) =? px_transport_tag x) then Err AgFinalProof else
  set_digest ← map_error AgFinalProof (final_proof_set_digest client daemon);
  c ← map_error AgFinalProof (final_proof_decode client);
  d ← map_error AgFinalProof (final_proof_decode daemon);
  if negb (fp_role c =? 1) then Err AgFinalProof else
  if negb (fp_role d =? 2) then Err AgFinalProof else
  if negb (bool_decide (fp_agreement c = fp_agreement d)) then Err AgFinalProof else
  if negb (bool_decide (fp_child_attempt_id c = fp_child_attempt_id d)) then Err AgFinalProof else
  if negb (fp_transport c =? px_transport_tag x) then Err AgFinalProof else
  let agr := fp_agreement c in
  grant_digest ← slice agr 41 73;
  transport_epoch ← slice agr 17 33;
  negotiation_digest ← slice agr 73 105;
  binding ← slice agr 105 201;
  if negb (bool_decide (grant_digest = px_grant_digest x)) then Err AgFinalProof else
  if negb (bool_decide (fp_child_attempt_id c = px_child_attempt_id x)) then Err AgFinalProof else
  if negb (bool_decide (transport_epoch = px_transport_epoch x)) then Err AgFinalProof else
  if negb (bool_decide (negotiation_digest = px_negotiation_digest x)) then Err AgFinalProof else
  if negb (bool_decide (binding = px_transport_binding x)) then Err AgFinalProof else
  _ ← check_certificate client (px_client_certificate_id x) (px_client_certificate_generation x);
  _ ← check_certificate daemon (px_daemon_certificate_id x) (px_daemon_certificate_generation x);
  _ ← verify_fcfp_signature client (px_client_key x);
  _ ← verify_fcfp_signature daemon (px_daemon_key x);
  Ok (mkGate c d set_digest grant_digest (px_child_attempt_id x) transport_epoch).

(** remote_attempt.rs:1249-1289 construct_principal_from_grant. *)
Definition construct_principal_from_grant (v : VerifiedAttemptGrant) (gate : EndpointProofGate) : res ClientPrincipal :=
  let g := va_grant v in
  if negb (bool_decide (eg_client_grant_digest gate = grant_digest_of g)) then Err AgFinalProof else
  if negb (bool_decide (eg_child_attempt_id gate = ra_child_attempt_id g)) then Err AgFinalProof else
  let alias := account_alias (ra_account_id g) in
  let ceiling := mkCeilingAuthorization (gc_attachment_capabilities (ra_permission_ceiling g)) (gc_projects (ra_permission_ceiling g)) in
  let binding := mkDeviceBinding (gi_device_id (ra_client g)) (gi_certificate_id (ra_client g)) (gi_generation (ra_client g))
                   (ra_logical_attachment_id g) (ra_child_attempt_id g) in
  Ok (from_attempt_grant alias (mkAuthorization alias ceiling binding) None).
End Verify.
