(* ===== verification/AttemptProps.v ===== *)
(** What admission promises: an accepted grant is signed by the key its header names, alive, and
    bound to every value the daemon expects; an open gate means both endpoints signed the agreement
    the daemon expects; and the principal built from them has the authority of the signed ceiling
    and no other. *)

From S2P Require Import Prelude.
From S2P Require Import ProtocolId.
From S2P Require Import WireScalar.
From S2P Require Import NoiseRecord.
From S2P Require Import NoisePrologue.
From S2P Require Import Ceiling.
From S2P Require Import Signaling.
From S2P Require Import SignalingProps.
From S2P Require Import SignalingPeer.
From S2P Require Import SignalingAgree.
From S2P Require Import Version.
From S2P Require Import Principal.
From S2P Require Import Continuity.
From S2P Require Import Attempt.
From stdpp Require Import options.

Local Abbreviation res := (result AttemptGrantError).

(** ** Claims *)

Lemma bind_claim_ok {A} `{EqDecision A} (x y : A) : bind_claim x y = Ok tt -> x = y.
Proof. unfold bind_claim. by case_bool_decide. Qed.
Definition tenant_digest_expected (e : GrantVerificationExpectations) : option bytes :=
  match gx_tenant_authorization e with ControlPlane => None | Enterprise d => Some d end.
(** Every claim the caller pins. *)
Record bound_to (g : RemoteAttemptGrantV1) (e : GrantVerificationExpectations) : Prop := mkBound {
  bt_issuer : ra_issuer g = gx_issuer e; bt_audience : ra_audience g = gx_audience e; bt_tenant : ra_tenant_id g = gx_tenant_id e;
  bt_account : ra_account_id g = gx_account_id e; bt_instance : ra_instance_id g = gx_instance_id e;
  bt_attachment : ra_logical_attachment_id g = gx_logical_attachment_id e; bt_child : ra_child_attempt_id g = gx_child_attempt_id e;
  bt_client : ra_client g = gx_client e; bt_daemon : ra_daemon g = gx_daemon e; bt_nonce : ra_server_nonce g = gx_server_nonce e;
  bt_service : ra_service_version g = gx_service_version e; bt_service_policy : ra_service_policy_digest g = gx_service_policy_digest e;
  bt_epoch : ra_policy_epoch g = gx_policy_epoch e; bt_policy : ra_policy_digest g = gx_policy_digest e;
  bt_authority : ra_authority_epoch g = gx_authority_epoch e; bt_tenant_digest : ra_tenant_authorization_digest g = tenant_digest_expected e }.
Lemma bind_expectations_ok g e : bind_expectations g e = Ok tt -> bound_to g e.
Proof.
  intros H. unfold bind_expectations in H.
  do 15 (apply bind_Ok in H as ([] & ?%bind_claim_ok & H)). split; try done.
  unfold tenant_digest_expected. destruct (gx_tenant_authorization e); by apply bind_claim_ok in H.
Qed.
(** The times of an accepted grant. *)
Definition alive (g : RemoteAttemptGrantV1) (now : Z) : Prop :=
  ra_iat g <= ra_nbf g <= ra_exp g /\ ra_exp g <= ra_iat g + 300 /\ ra_nbf g - 60 <= now <= ra_exp g.
Lemma validate_time_ok g now : validate_time g now = Ok tt -> alive g now.
Proof.
  unfold validate_time, alive, GRANT_LIFETIME_SECONDS, GRANT_SKEW_SECONDS. destruct (_ || _) eqn:G; [done|].
  apply orb_false_iff in G as [G1 G2]. apply Z.ltb_ge in G1, G2. intros (l & Hl & H)%bind_Ok.
  unfold sub_i64 in Hl. destruct (_ && _); [|done]. injection Hl as <-. destruct (300 <? _) eqn:G3 in H; [done|]. apply Z.ltb_ge in G3.
  apply bind_Ok in H as (n & Hn & H). unfold add_i64 in Hn. destruct (_ && _) in Hn; [|done]. injection Hn as <-.
  destruct (_ <? ra_nbf g) eqn:G4 in H; [done|]. destruct (_ <? now) eqn:G5 in H; [done|]. apply Z.ltb_ge in G4, G5. lia.
Qed.
Lemma check_tuple_ids_ok prev revoked ids : check_tuple_ids prev revoked ids = Some tt ->
  Forall (fun id => 0 <> id /\ known enabled_registry id = true /\ id ∉ revoked) ids.
Proof.
  revert prev. induction ids as [|id ids IH]; intros prev; [constructor|]. cbn [check_tuple_ids]. destruct (Z.eqb_spec id 0); [done|].
  destruct (match prev with Some _ => _ | None => _ end); [done|]. destruct (known _ id) eqn:Hk; [cbn [negb]|done].
  case_bool_decide; [done|]. intros Hr. constructor; [done|by eapply IH].
Qed.
Definition ceiling_of (g : RemoteAttemptGrantV1) : RemotePermissionCeilingV1 :=
  Ceiling.mkCeiling (gc_attachment_capabilities (ra_permission_ceiling g)) (gc_projects (ra_permission_ceiling g)).
(** The claims hold together. *)
Record claims_hold `{Sha256} (g : RemoteAttemptGrantV1) (now : Z) : Prop := mkClaimsHold {
  ch_schema : ra_schema_version g = 1; ch_alive : alive g now; ch_transports : 1 <= ra_authorized_transports g <= 3;
  ch_tuples : 1 <= zlen (ra_compatible_tuple_ids g) <= 16 /\ Forall (fun id => known enabled_registry id = true) (ra_compatible_tuple_ids g);
  ch_ceiling : canonical_ceiling (ceiling_of g) /\ permission_ceiling_digest (ceiling_of g) = Ok (ra_permission_ceiling_digest g) }.
Lemma validate_claims_ok `{HSha : Sha256} g now revoked : validate_claims g now revoked = Ok tt -> claims_hold g now.
Proof.
  unfold validate_claims. destruct (Z.eqb_spec (ra_schema_version g) GRANT_SCHEMA_VERSION) as [E|]; [cbn [negb]|done].
  intros ([] & H1%validate_time_ok & H)%bind_Ok. apply bind_Ok in H as ([] & H2 & H). apply bind_Ok in H as ([] & H3 & H4). split; [done|done|..].
  - unfold validate_transport_bits in H2. case_bool_decide as Hin; [|done]. unfold TRANSPORT_BITS_VALID in Hin. set_unfold in Hin. lia.
  - unfold validate_tuple_set, tuple_set_encode in H3. case_bool_decide; [done|].
    destruct (Z.leb_spec 1 (zlen (ra_compatible_tuple_ids g))), (Z.leb_spec (zlen (ra_compatible_tuple_ids g)) 16); cbn [andb negb] in H3; try done.
    split; [done|]. destruct (check_tuple_ids _ _ _) as [[]|] eqn:Hc; [|done]. apply check_tuple_ids_ok in Hc.
    eapply Forall_impl; [exact Hc|]. by intros x (_ & ? & _).
  - unfold validate_permission_ceiling in H4. change (Ceiling.mkCeiling _ _) with (ceiling_of g) in H4.
    destruct (permission_ceiling_digest (ceiling_of g)) as [d| |] eqn:Hd; [|done|done]. case_bool_decide as He; [|done]. subst d. split; [|done].
    apply bind_Ok in Hd as (x & Hx & _). by apply ceiling_encode_spec in Hx as [].
Qed.

(** ** The compact form *)

Lemma split_on_join sep s : join [sep] (split_on sep s) = s.
Proof.
  induction s as [|c s IH]; [done|]. cbn [split_on]. destruct (Z.eqb_spec c sep) as [->|Hne].
  - destruct (split_on sep s) as [|seg segs] eqn:E; [by destruct s; cbn in E; repeat case_match|]. cbn [join] in *. by rewrite IH.
  - destruct (split_on sep s) as [|seg segs]; [cbn in *; by subst|]. destruct segs; cbn [join] in *; by subst.
Qed.
Lemma segments_of sep s a b c : split_on sep s = [a; b; c] -> s = a ++ [sep] ++ b ++ [sep] ++ c.
Proof. intros H. rewrite <- (split_on_join sep s), H. cbn. by rewrite <- ?app_assoc. Qed.
Lemma verify_es256_ok `{HP : P256} key m sig : verify_es256_p1363 key m sig = Ok tt ->
  zlen sig = 64 /\ signature_high_s sig = false /\ point_valid (to_sec1_uncompressed key) = true /\
  ecdsa_verify (to_sec1_uncompressed key) m sig = true.
Proof.
  unfold verify_es256_p1363. destruct (Z.eqb_spec (zlen sig) 64); [cbn [negb]|done]. intros (r & Hr & H')%bind_Ok. apply bind_Ok in H' as (s & Hs & H').
  destruct (_ || _); [done|]. destruct (signature_well_formed sig); [cbn [negb] in H'|done]. destruct (signature_high_s sig); [done|].
  cbv zeta in H'. destruct (point_valid _); [cbn [negb] in H'|done]. by destruct (ecdsa_verify _ _ _).
Qed.
Lemma verify_es256_no_panic `{HP : P256} key m sig : verify_es256_p1363 key m sig <> Panic.
Proof.
  unfold verify_es256_p1363. destruct (Z.eqb_spec (zlen sig) 64); [cbn [negb]|done]. no_panic1; [no_panic1|apply slice_no_panic; lia].
  - repeat no_panic1.
  - apply slice_no_panic; lia.
Qed.

(** ** Accepted grants *)

Section Verify.
Context `{HSha : Sha256, HP : P256, HB : Base64Url, HJ : GrantJson}.

(** The grant is the signed payload of the compact form, under the key its header names. *)
Definition signed_by_named_key (jws : bytes) (keys : AttemptGrantKeyRing) (g : RemoteAttemptGrantV1) : Prop :=
  exists header payload sigseg hb hd pb value raw key sig,
    jws = header ++ [46] ++ payload ++ [46] ++ sigseg /\
    (url_decode header = Some hb /\ json_header hb = Some hd /\ rh_alg hd = GRANT_JWS_ALG /\ rh_typ hd = GRANT_JWS_TYP /\ keys !! rh_kid hd = Some key) /\
    (url_decode payload = Some pb /\ json_value pb = Some value /\ canonical_json value = Ok pb /\ json_claims pb = Some raw /\
     decode_claims raw jws = Ok g) /\
    url_decode sigseg = Some sig /\ zlen sig = 64 /\ signature_high_s sig = false /\
    ecdsa_verify (to_sec1_uncompressed key) (header ++ [46] ++ payload) sig = true.

Lemma ok_or_inv {E A} (o : option A) (e : E) a : ok_or o e = Ok a -> o = Some a.
Proof using Type. destruct o; [by intros [= ->]|done]. Qed.
Lemma verify_inv jws keys e now v : verify_attempt_grant jws keys e now = Ok v ->
  zlen jws <= 8192 /\ signed_by_named_key jws keys (va_grant v) /\ validate_claims (va_grant v) now [] = Ok tt /\ bind_expectations (va_grant v) e = Ok tt.
Proof using Type.
  unfold verify_attempt_grant, GRANT_MAX_BYTES. intros H. destruct (8192 <? _) eqn:Gl in H; [done|]. apply Z.ltb_ge in Gl.
  destruct (negb (from_utf8 _)) in H; [done|]. destruct (negb (forallb _ _)) in H; [done|].
  destruct (split_on 46 jws) as [|h [|p [|s [|]]]] eqn:Hsp; try done. apply segments_of in Hsp. destruct (negb _) in H; [done|].
  apply bind_Ok in H as (hb & Hhb%ok_or_inv & H). apply bind_Ok in H as (hd & Hhd%ok_or_inv & H).
  case_bool_decide as Ea; [cbn [negb] in H|done]. case_bool_decide as Et; [cbn [negb] in H|done]. case_bool_decide as Ek; [done|].
  apply bind_Ok in H as (pb & Hpb%ok_or_inv & H). apply bind_Ok in H as (value & Hv%ok_or_inv & H). apply bind_Ok in H as (cj & Hcj & H).
  case_bool_decide as Ec; [cbn [negb] in H|done]. subst cj.
  apply bind_Ok in H as (raw & Hraw%ok_or_inv & H). apply bind_Ok in H as (g & Hg & H). apply bind_Ok in H as (key & Hkey%ok_or_inv & H).
  apply bind_Ok in H as (sig & Hsig%ok_or_inv & H). cbv zeta in H.
  destruct (verify_es256_p1363 key _ sig) as [[]| |] eqn:Hver; [|done|done]. apply verify_es256_ok in Hver as (Hz & Hlow & _ & Hver).
  apply bind_Ok in H as ([] & Hcl & H). apply bind_Ok in H as ([] & Hbd & H). apply Ok_inj in H. subst v. split; [done|]. split; [|done].
  exists h, p, s, hb, hd, pb, value, raw, key, sig. done.
Qed.
Lemma claim_no_panic {A} (o : option A) : claim o <> Panic.
Proof using Type. by destruct o. Qed.
Lemma decode_identity_no_panic raw : decode_identity raw <> Panic.
Proof using Type. unfold decode_identity. repeat (no_panic1 || apply claim_no_panic). Qed.
Lemma decode_raw_projects_no_panic ps : decode_raw_projects ps <> Panic.
Proof using Type. induction ps as [|p ps IH]; [done|]. cbn [decode_raw_projects]. repeat (no_panic1 || apply claim_no_panic || by destruct (IH eq_refl)). Qed.
Lemma decode_claims_no_panic raw jws : decode_claims raw jws <> Panic.
Proof using Type.
  unfold decode_claims. destruct (rc_tenant_authorization_digest raw);
    repeat (no_panic1 || apply claim_no_panic || apply decode_identity_no_panic || apply decode_raw_projects_no_panic).
Qed.
(** Decoded times are those of a digit string that fits. *)
Lemma decode_claims_times raw jws g : decode_claims raw jws = Ok g ->
  ra_compact_jws g = jws /\ 0 <= ra_iat g < 2 ^ 63 /\ 0 <= ra_nbf g < 2 ^ 63 /\ 0 <= ra_exp g < 2 ^ 63.
Proof using Type.
  intros H. unfold decode_claims in H. do 18 (apply bind_Ok in H as (? & _ & H)).
  apply bind_Ok in H as (iat & Hi%ok_or_inv & H). apply bind_Ok in H as (nbf & Hn%ok_or_inv & H). apply bind_Ok in H as (exp & He%ok_or_inv & H).
  apply Ok_inj in H. subst g. cbn [ra_compact_jws ra_iat ra_nbf ra_exp]. split; [done|].
  assert (forall s v, parse_decimal_i64 s = Some v -> 0 <= v < 2 ^ 63) as Hd; [|split; [by eapply Hd|split; by eapply Hd]].
  intros s v. unfold parse_decimal_i64. destruct (_ || _) eqn:G; [done|]. apply orb_false_iff in G as [_ G].
  destruct (Z.ltb_spec (digits_value s) (2 ^ 63)) as [Hlt|]; [intros [= <-]|done]. split; [|done].
  clear -G. unfold digits_value. assert (forall acc, 0 <= acc -> 0 <= foldl (fun a b => a * 10 + (b - ZERO)) acc s) as Hf; [|by apply Hf].
  induction s as [|c s IH]; intros acc Ha; [done|]. cbn [foldl existsb] in *. apply orb_false_iff in G as [Gc G].
  apply IH; [done|]. apply negb_false_iff in Gc. unfold is_ascii_digit, ZERO in *. lia.
Qed.

Lemma validate_ordinals_no_panic ords m : validate_sorted_unique_ordinals ords m <> Panic.
Proof using Type.
  unfold validate_sorted_unique_ordinals. destruct (m <? _); [done|]. generalize true, 0. induction ords as [|o ords IH]; intros f p; [done|].
  cbn. destruct (o =? 0); [done|]. destruct (negb f && (o <=? p)); [done|apply IH].
Qed.
Lemma check_projects_no_panic prev ps : check_projects prev ps <> Panic.
Proof using Type.
  revert prev. induction ps as [|[pid caps] ps IH]; intros prev; [done|]. cbn [check_projects]. destruct (is_all_zero pid); [done|].
  destruct (match prev with Some _ => _ | None => _ end); [done|]. destruct (_ || _); [done|].
  pose proof (validate_ordinals_no_panic (map project_ordinal caps) 16) as Hp. destruct (validate_sorted_unique_ordinals _ _); [apply IH|done|done].
Qed.
Lemma ceiling_encode_no_panic c : ceiling_encode c <> Panic.
Proof using Type. unfold ceiling_encode. repeat (no_panic1 || apply validate_ordinals_no_panic || apply check_projects_no_panic). Qed.
Lemma collect_no_panic {A} (l : list (res A)) : Forall (fun r => r <> Panic) l -> collect l <> Panic.
Proof using Type. induction 1 as [|r l Hr Hl IH]; [done|]. cbn [collect]. destruct r; [|done|done]. cbn [mbind result_bind]. by destruct (collect l). Qed.
Fixpoint json_size (v : json) : nat :=
  match v with
  | JArray items => S (foldr Nat.add 0%nat (map json_size items))
  | JObject members => S (foldr Nat.add 0%nat (map (fun m => json_size m.2) members))
  | _ => 1
  end.
Lemma canonical_json_no_panic v : canonical_json v <> Panic.
Proof using Type.
  remember (json_size v) as n eqn:Hn. revert v Hn. induction (lt_wf n) as [n _ IH]. intros v ->.
  assert (forall x l, x ∈ l -> (json_size x <= foldr Nat.add 0%nat (map json_size l))%nat) as Hl.
  { clear. intros x l Hx. induction Hx as [|x y l Hx IHx]; cbn [map foldr]; lia. }
  destruct v as [|[]|[]| |items|members]; cbn [canonical_json]; try done.
  - assert (collect (map canonical_json items) <> Panic) as Hc.
    { apply collect_no_panic, Forall_forall. intros r (x & -> & Hx)%list_elem_of_fmap. eapply IH; [|done]. specialize (Hl x items Hx). cbn [json_size]. lia. }
    by destruct (collect _).
  - cbv zeta. match goal with |- context [collect ?l] => assert (collect l <> Panic) as Hc end; [|by destruct (collect _)].
    apply collect_no_panic, Forall_forall. intros r (e & -> & He)%list_elem_of_fmap. rewrite (merge_sort_Permutation key_le) in He.
    apply list_elem_of_fmap in He as (m & -> & Hm). cbn.
    assert (canonical_json m.2 <> Panic) as Hp; [|by destruct (canonical_json m.2)]. eapply IH; [|done].
    assert (m.2 ∈ map snd members) as Hm2 by (apply list_elem_of_fmap; by exists m). specialize (Hl _ _ Hm2). rewrite map_map in Hl. cbn [json_size]. lia.
Qed.
Lemma validate_claims_no_panic raw jws g now : decode_claims raw jws = Ok g -> - 2 ^ 63 <= now < 2 ^ 63 - 60 -> validate_claims g now [] <> Panic.
Proof using Type.
  intros (_ & Hi & Hn & He)%decode_claims_times Hnow. unfold validate_claims. no_panic1. no_panic1.
  - unfold validate_transport_bits, validate_tuple_set, validate_permission_ceiling, permission_ceiling_digest. cbv zeta.
    pose proof (ceiling_encode_no_panic (Ceiling.mkCeiling (gc_attachment_capabilities (ra_permission_ceiling g)) (gc_projects (ra_permission_ceiling g)))) as Hc.
    destruct (negb (bool_decide (_ ∈ _))); [done|]. cbn [mbind result_bind]. destruct (tuple_set_encode _ _); [|done]. cbn [mbind result_bind].
    destruct (ceiling_encode _); [|done|done]. cbn [mbind result_bind]. cbv iota. by case_bool_decide.
  - unfold validate_time, sub_i64, add_i64, GRANT_SKEW_SECONDS. change (2 ^ 63) with 9223372036854775808 in *.
    destruct (_ || _) eqn:G1; [done|]. apply orb_false_iff in G1 as [G1 G2]. apply Z.ltb_ge in G1, G2.
    match goal with |- context [(?a <=? ra_exp g - ra_iat g) && ?c] => assert ((a <=? ra_exp g - ra_iat g) && c = true) as -> by lia end.
    cbn [mbind result_bind]. destruct (_ <? _); [done|].
    match goal with |- context [(?a <=? now + 60) && ?c] => assert ((a <=? now + 60) && c = true) as -> by lia end.
    cbn [mbind result_bind]. destruct (_ <? ra_nbf g); [done|]. by destruct (_ <? now).
Qed.
Lemma bind_expectations_no_panic g e : bind_expectations g e <> Panic.
Proof using Type.
  assert (forall A (HE : EqDecision A) (x y : A), bind_claim x y <> Panic) as Hb by (intros; unfold bind_claim; by case_bool_decide).
  unfold bind_expectations. repeat (no_panic1 || apply Hb). destruct (gx_tenant_authorization e); apply Hb.
Qed.

(** C5: An accepted attempt grant is authentic, alive and bound. Whatever bytes, key ring,
    expectations and clock: if verification accepts, the compact form is at most 8192 bytes of
    three dot-separated segments, the last decodes to a 64-byte low-S signature that the key
    registered under the header's key id verifies over exactly the first two, the payload is its
    own canonical JSON and decodes to the grant; the grant lives at most 300 seconds, now is no
    later than its expiry and at most 60 seconds before its start; its transports, tuples and
    canonical ceiling with its digest are valid; and each of the sixteen values the daemon
    expects is the one claimed. With a clock more than a minute below the top of its type,
    verification never panics. *)
Theorem accepted_grant_is_authentic jws keys e now :
  (forall v, verify_attempt_grant jws keys e now = Ok v ->
     zlen jws <= 8192 /\ ra_compact_jws (va_grant v) = jws /\ signed_by_named_key jws keys (va_grant v) /\
     claims_hold (va_grant v) now /\ bound_to (va_grant v) e) /\
  (- 2 ^ 63 <= now < 2 ^ 63 - 60 -> verify_attempt_grant jws keys e now <> Panic).
Proof using Type.
  split.
  - intros v (Hl & Hs & Hc%validate_claims_ok & Hb%bind_expectations_ok)%verify_inv. split; [done|]. split; [|done].
    destruct Hs as (? & ? & ? & ? & ? & ? & ? & raw & ? & ? & _ & _ & (_ & _ & _ & _ & Hd) & _). by apply decode_claims_times in Hd as [].
  - intros Hnow. unfold verify_attempt_grant. destruct (_ <? _); [done|]. destruct (negb _); [done|]. destruct (negb _); [done|].
    destruct (split_on 46 jws) as [|h [|p [|s [|]]]]; try done.
    repeat (no_panic1 || apply canonical_json_no_panic || apply decode_claims_no_panic).
    cbv zeta. match goal with |- context [verify_es256_p1363 ?k ?m ?sg] => pose proof (verify_es256_no_panic k m sg) as Hv; destruct (verify_es256_p1363 k m sg); [|done|done] end.
    no_panic1; [no_panic1; [done|apply bind_expectations_no_panic]|by eapply validate_claims_no_panic].
Qed.

(** ** The gate *)

(** A final proof without its signature: what the endpoint signs. *)
Definition signed_part (v : EndpointFinalProof) : bytes :=
  w_preamble (ascii_bytes "FCFP") ++ [ep_role v; ep_transport v] ++ ep_childAttemptId v ++ ep_transportEpoch v
    ++ to_be 8 (ep_admissionSequence v) ++ ep_grantDigest v ++ ep_negotiationDigest v ++ to_be 2 96 ++ ep_binding v
    ++ ep_proofJti v ++ ep_certificateId v ++ to_be 8 (ep_certificateGeneration v).
Lemma endpoint_bytes_signed v : endpoint_bytes v = signed_part v ++ ep_signature v.
Proof using Type. unfold endpoint_bytes, signed_part. by rewrite <- !app_assoc. Qed.
Lemma signed_part_length v : endpoint_ok v -> zlen (signed_part v) = 249.
Proof using Type.
  intros Hok. pose proof (endpoint_bytes_length v Hok) as Hl. rewrite endpoint_bytes_signed, zlen_app, (eo_sig v Hok) in Hl. lia.
Qed.
Local Ltac field := repeat first [rewrite slice_cons by zlen_solve|rewrite slice_skip by zlen_solve]; first [rewrite slice_head by zlen_solve|rewrite slice_all by zlen_solve].
Lemma proof_slices v : endpoint_ok v ->
  slice (E:=AttemptGrantError) (endpoint_bytes v) 225 241 = Ok (ep_certificateId v) /\
  slice (E:=AttemptGrantError) (endpoint_bytes v) 241 249 = Ok (to_be 8 (ep_certificateGeneration v)) /\
  slice (E:=AttemptGrantError) (endpoint_bytes v) 0 249 = Ok (signed_part v) /\
  slice (E:=AttemptGrantError) (endpoint_bytes v) 249 313 = Ok (ep_signature v).
Proof using Type.
  intros Hok. pose proof (signed_part_length v Hok) as Hs. pose proof Hok as [_ _ [L1 _] [L2 _] [L3 _] [L4 _] L5 L6 L7 L8 _ _].
  split; [|split; [|split]].
  - unfold endpoint_bytes, w_preamble. change (ascii_bytes "FCFP") with [70; 67; 70; 80]. cbn [app]. by field.
  - unfold endpoint_bytes, w_preamble. change (ascii_bytes "FCFP") with [70; 67; 70; 80]. cbn [app]. by field.
  - rewrite endpoint_bytes_signed. by rewrite slice_head by lia.
  - rewrite endpoint_bytes_signed. rewrite slice_skip by lia. by rewrite slice_all by lia.
Qed.
Lemma agreement_slices v : endpoint_ok v ->
  slice (E:=AttemptGrantError) (endpoint_agreement v) 41 73 = Ok (ep_grantDigest v) /\
  slice (E:=AttemptGrantError) (endpoint_agreement v) 17 33 = Ok (ep_transportEpoch v) /\
  slice (E:=AttemptGrantError) (endpoint_agreement v) 73 105 = Ok (ep_negotiationDigest v) /\
  slice (E:=AttemptGrantError) (endpoint_agreement v) 105 201 = Ok (ep_binding v).
Proof using Type.
  intros [_ _ [L1 _] [L2 _] _ _ L5 L6 L7 _ _ _]. unfold endpoint_agreement. cbn [app]. split; [|split; [|split]]; by field.
Qed.
Lemma agreement_inj v w : endpoint_ok v -> endpoint_ok w -> endpoint_agreement v = endpoint_agreement w ->
  ep_transport v = ep_transport w /\ ep_childAttemptId v = ep_childAttemptId w /\ ep_transportEpoch v = ep_transportEpoch w /\
  ep_admissionSequence v = ep_admissionSequence w /\ ep_grantDigest v = ep_grantDigest w /\
  ep_negotiationDigest v = ep_negotiationDigest w /\ ep_binding v = ep_binding w.
Proof using Type.
  intros [_ _ [L1 _] [L2 _] _ _ L5 L6 L7 _ [U _] _] [_ _ [M1 _] [M2 _] _ _ M5 M6 M7 _ [V _] _]. unfold endpoint_agreement.
  assert (forall a b c d : bytes, zlen a = zlen c -> a ++ b = c ++ d -> a = c /\ b = d) as Hinj.
  { intros a b c d Hz He. apply app_inj_1 in He; [done|]. by apply Nat2Z.inj. }
  intros E. apply Hinj in E as [[= ->] E]; [|done]. apply Hinj in E as [-> E]; [|lia]. apply Hinj in E as [-> E]; [|lia]. apply Hinj in E as [Es E]; [|by rewrite !zlen_to_be].
  apply Hinj in E as [-> E]; [|lia]. apply Hinj in E as [-> ->]; [|lia]. do 3 (split; [done|]). split; [|done].
  apply (f_equal from_be) in Es. unfold is_u64, U64_MAX in *.
  by rewrite !from_be_to_be_small in Es by (change (256 ^ Z.of_nat 8) with 18446744073709551616; lia).
Qed.
Lemma domain_hash_eq d b : domain_hash d b = sha256 (d ++ b).
Proof using Type. unfold domain_hash. pose proof (hasher_spec [d; b]) as Hs. cbn in Hs. rewrite Hs. by rewrite app_nil_r. Qed.
Lemma check_certificate_ok v id gen : endpoint_ok v -> check_certificate (endpoint_bytes v) id gen = Ok tt ->
  ep_certificateId v = id /\ ep_certificateGeneration v = gen.
Proof using Type.
  intros Hok. unfold check_certificate. rewrite endpoint_bytes_length by done. cbn [Z.eqb Pos.eqb negb]. destruct (proof_slices v Hok) as (-> & -> & _).
  rewrite !bind_Ok_l. case_bool_decide; [cbn [negb]|done]. rewrite ?bind_Ok_l. destruct (eo_gen v Hok) as [U _]. unfold is_u64, U64_MAX in U.
  rewrite from_be_to_be_small by (change (256 ^ Z.of_nat 8) with 18446744073709551616; lia).
  by destruct (Z.eqb_spec (ep_certificateGeneration v) gen).
Qed.
(** The endpoint's key verifies its signature over the separated hash of what it signs. *)
Definition endpoint_signed (key : Es256PublicKey) (v : EndpointFinalProof) : Prop :=
  signature_high_s (ep_signature v) = false /\
  ecdsa_verify (to_sec1_uncompressed key) (sha256 (FCFP_DOMAIN ++ signed_part v)) (ep_signature v) = true.
Lemma verify_fcfp_ok v key : endpoint_ok v -> verify_fcfp_signature (endpoint_bytes v) key = Ok tt -> endpoint_signed key v.
Proof using Type.
  intros Hok. unfold verify_fcfp_signature. rewrite endpoint_bytes_length by done. cbn [Z.eqb Pos.eqb negb].
  destruct (proof_slices v Hok) as (_ & _ & -> & ->). rewrite !bind_Ok_l. unfold fcfp_signature_hash. rewrite domain_hash_eq.
  destruct (verify_es256_p1363 _ _ _) as [[]| |] eqn:Hv; [|done|done]. intros _. by apply verify_es256_ok in Hv as (_ & ? & _ & ?).
Qed.
(** What a proof must carry. *)
Record proof_binds (x : FinalProofExpectations) (v : EndpointFinalProof) : Prop := mkProofBinds {
  pb_transport : ep_transport v = px_transport_tag x; pb_child : ep_childAttemptId v = px_child_attempt_id x;
  pb_epoch : ep_transportEpoch v = px_transport_epoch x; pb_grant : ep_grantDigest v = px_grant_digest x;
  pb_negotiation : ep_negotiationDigest v = px_negotiation_digest x; pb_channel : ep_binding v = px_transport_binding x }.

Lemma map_error_inv {A} e (r : result SignalingCodecError A) a : map_error e r = Ok a -> r = Ok a.
Proof using Type. destruct r; cbn; [by intros [= ->]|done|done]. Qed.
Lemma negb_if {A} (c : bool) (e : AttemptGrantError) (k : res A) r : (if negb c then Err e else k) = Ok r -> c = true /\ k = Ok r.
Proof using Type. by destruct c. Qed.

(** C6: An open gate means both endpoints signed the agreement the daemon expects. If the gate
    accepts two byte strings, they are the encodings of a client's and a daemon's final proof;
    both carry the expected transport (authorized by the grant's bits), child attempt, epoch,
    grant digest, negotiation digest and channel binding, and the same admission sequence; each
    names the expected certificate and generation, and each is signed, low-S, by the expected
    endpoint key over the domain-separated hash of everything in it but the signature. The gate
    keeps the grant digest, the child attempt and the epoch that were expected. *)
Theorem open_gate_is_signed client daemon x g : all_u8 client -> all_u8 daemon -> gate_consume client daemon x = Ok g ->
  exists vc vd, final_proof_encode vc = Some client /\ final_proof_encode vd = Some daemon /\ ep_role vc = 1 /\ ep_role vd = 2 /\
    proof_binds x vc /\ proof_binds x vd /\ ep_admissionSequence vc = ep_admissionSequence vd /\
    (px_transport_tag x = 1 \/ px_transport_tag x = 2) /\ Z.land (px_authorized_transports x) (px_transport_tag x) = px_transport_tag x /\
    ep_certificateId vc = px_client_certificate_id x /\ ep_certificateGeneration vc = px_client_certificate_generation x /\
    ep_certificateId vd = px_daemon_certificate_id x /\ ep_certificateGeneration vd = px_daemon_certificate_generation x /\
    endpoint_signed (px_client_key x) vc /\ endpoint_signed (px_daemon_key x) vd /\
    eg_client_grant_digest g = px_grant_digest x /\ eg_child_attempt_id g = px_child_attempt_id x /\ eg_transport_epoch g = px_transport_epoch x /\
    eg_set_digest g = sha256 (concat (final_proof_set_parts client daemon)).
Proof using Type.
  intros Uc Ud H. unfold gate_consume in H. destruct (_ && _) eqn:Gt in H; [done|]. apply negb_if in H as [Gb%Z.eqb_eq H].
  apply bind_Ok in H as (sd & Hsd%map_error_inv & H). apply proof_set_digest_ok in Hsd as [Hsd _].
  apply bind_Ok in H as (c & Hc%map_error_inv & H). apply bind_Ok in H as (d & Hd%map_error_inv & H).
  apply final_proof_read in Hc as (vc & Oc & -> & ->); [|done]. apply final_proof_read in Hd as (vd & Od & -> & ->); [|done].
  apply negb_if in H as [Rc%Z.eqb_eq H]. apply negb_if in H as [Rd%Z.eqb_eq H]. apply negb_if in H as [Ha%bool_decide_eq_true H].
  apply negb_if in H as [_ H]. apply negb_if in H as [Ht%Z.eqb_eq H]. cbv zeta in H. cbn [fp_agreement endpoint_summary fp_role fp_transport
    fp_child_attempt_id] in *. destruct (agreement_slices vc Oc) as (S1 & S2 & S3 & S4).
  rewrite S1, bind_Ok_l, S2, bind_Ok_l, S3, bind_Ok_l, S4, bind_Ok_l in H.
  apply negb_if in H as [Eg%bool_decide_eq_true H]. apply negb_if in H as [Ec%bool_decide_eq_true H]. apply negb_if in H as [Ee%bool_decide_eq_true H].
  apply negb_if in H as [En%bool_decide_eq_true H]. apply negb_if in H as [Eb%bool_decide_eq_true H].
  apply bind_Ok in H as ([] & [C1 C2]%(check_certificate_ok vc _ _ Oc) & H). apply bind_Ok in H as ([] & [D1 D2]%(check_certificate_ok vd _ _ Od) & H).
  apply bind_Ok in H as ([] & F1%(verify_fcfp_ok vc _ Oc) & H). apply bind_Ok in H as ([] & F2%(verify_fcfp_ok vd _ Od) & H). apply Ok_inj in H. subst g.
  destruct (agreement_inj vc vd Oc Od Ha) as (A1 & A2 & A3 & A4 & A5 & A6 & A7).
  exists vc, vd. split; [by apply final_proof_encode_ok|]. split; [by apply final_proof_encode_ok|]. split; [done|]. split; [done|].
  split; [by split|]. split; [split; congruence|]. split; [done|]. split.
  { apply andb_false_iff in Gt as [Gt|Gt]; apply negb_false_iff, Z.eqb_eq in Gt; tauto. }
  cbn [eg_client_grant_digest eg_child_attempt_id eg_transport_epoch eg_set_digest]. done.
Qed.

(** *** What the gate leaves open *)

(** A proof with another admission sequence, signed again. *)
Definition resequenced (n : Z) (signature : bytes) (v : EndpointFinalProof) : EndpointFinalProof :=
  mkEndpointProof (ep_role v) (ep_transport v) (ep_childAttemptId v) (ep_transportEpoch v) n (ep_grantDigest v)
    (ep_negotiationDigest v) (ep_binding v) (ep_proofJti v) (ep_certificateId v) (ep_certificateGeneration v) signature.
Lemma resequenced_ok n sg v : endpoint_ok v -> positive n -> zlen sg = 64 -> endpoint_ok (resequenced n sg v).
Proof using Type. by intros []. Qed.
Lemma check_certificate_resequenced n sg v id gen : endpoint_ok v -> endpoint_ok (resequenced n sg v) ->
  check_certificate (endpoint_bytes (resequenced n sg v)) id gen = check_certificate (endpoint_bytes v) id gen.
Proof using Type.
  intros H1 H2. unfold check_certificate. rewrite !endpoint_bytes_length by done.
  destruct (proof_slices _ H1) as (-> & -> & _), (proof_slices _ H2) as (-> & -> & _). done.
Qed.
Lemma set_digest_runs vc vd : endpoint_ok vc -> endpoint_ok vd -> ep_role vc = 1 -> ep_role vd = 2 ->
  endpoint_agreement vc = endpoint_agreement vd -> exists d, final_proof_set_digest (endpoint_bytes vc) (endpoint_bytes vd) = Ok d.
Proof using Type.
  intros Oc Od Rc Rd Ha. unfold final_proof_set_digest. rewrite !endpoint_bytes_length by done. cbn [Z.eqb Z.ltb Z.compare Pos.compare Pos.compare_cont orb].
  rewrite !final_proof_write by done. rewrite !bind_Ok_l. unfold endpoint_summary. cbn [fp_role fp_agreement].
  rewrite Rc, Rd, bool_decide_true by done. by eexists.
Qed.
Lemma agreement_resequenced n sc sd vc vd : endpoint_ok vc -> endpoint_ok vd -> endpoint_agreement vc = endpoint_agreement vd ->
  endpoint_agreement (resequenced n sc vc) = endpoint_agreement (resequenced n sd vd).
Proof using Type.
  intros Oc Od Ha. destruct (agreement_inj vc vd Oc Od Ha) as (E1 & E2 & E3 & _ & E5 & E6 & E7).
  unfold endpoint_agreement. cbn [resequenced ep_transport ep_childAttemptId ep_transportEpoch ep_admissionSequence ep_grantDigest
    ep_negotiationDigest ep_binding]. by rewrite E1, E2, E3, E5, E6, E7.
Qed.

(** C40: The gate does not bind the admission sequence. It is documented to bind every agreement field, but
    the sequence is compared between the two proofs only: whenever the gate opens for
    two proofs, then for every other admission sequence whatsoever it opens, under the very
    same expectations, for the same two proofs with that sequence once each endpoint has signed its own,
    and yields the same grant, child attempt and epoch. The daemon compares the sequence with nothing
    it knows, so both endpoints' keys can admit one child attempt under any number of sequences. *)
Theorem admission_sequence_unbound vc vd x g n sc sd : endpoint_ok vc -> endpoint_ok vd ->
  gate_consume (endpoint_bytes vc) (endpoint_bytes vd) x = Ok g ->
  positive n -> zlen sc = 64 -> zlen sd = 64 ->
  verify_fcfp_signature (endpoint_bytes (resequenced n sc vc)) (px_client_key x) = Ok tt ->
  verify_fcfp_signature (endpoint_bytes (resequenced n sd vd)) (px_daemon_key x) = Ok tt ->
  exists g', gate_consume (endpoint_bytes (resequenced n sc vc)) (endpoint_bytes (resequenced n sd vd)) x = Ok g' /\
    eg_client_grant_digest g' = eg_client_grant_digest g /\ eg_child_attempt_id g' = eg_child_attempt_id g /\
    eg_transport_epoch g' = eg_transport_epoch g.
Proof using Type.
  intros Oc Od H Hn Hsc Hsd Vc Vd. pose proof (resequenced_ok n sc vc Oc Hn Hsc) as Oc'. pose proof (resequenced_ok n sd vd Od Hn Hsd) as Od'.
  unfold gate_consume in H |- *. destruct (_ && _); [done|]. destruct (negb (_ =? _)); [done|].
  apply bind_Ok in H as (sd0 & _ & H). rewrite !final_proof_write in H by done. cbn [map_error] in H. rewrite !bind_Ok_l in H.
  rewrite (final_proof_write (resequenced n sc vc)), (final_proof_write (resequenced n sd vd)) by done.
  apply negb_if in H as [Rc%Z.eqb_eq H]. apply negb_if in H as [Rd%Z.eqb_eq H]. apply negb_if in H as [Ha%bool_decide_eq_true H].
  cbn [endpoint_summary fp_role fp_agreement fp_child_attempt_id fp_transport] in *.
  pose proof (agreement_resequenced n sc sd vc vd Oc Od Ha) as Ha'.
  destruct (set_digest_runs _ _ Oc' Od' Rc Rd Ha') as [dg Hdg]. rewrite Hdg. cbn [map_error]. rewrite !bind_Ok_l.
  cbn [endpoint_summary fp_role fp_agreement fp_child_attempt_id fp_transport].
  rewrite (proj2 (Z.eqb_eq (ep_role (resequenced n sc vc)) 1)) by exact Rc. rewrite (proj2 (Z.eqb_eq (ep_role (resequenced n sd vd)) 2)) by exact Rd.
  rewrite (bool_decide_true (endpoint_agreement _ = _)) by exact Ha'. cbn [negb].
  change (ep_childAttemptId (resequenced n sc vc)) with (ep_childAttemptId vc). change (ep_childAttemptId (resequenced n sd vd)) with (ep_childAttemptId vd).
  change (ep_transport (resequenced n sc vc)) with (ep_transport vc).
  destruct (negb (bool_decide (ep_childAttemptId vc = _))); [done|]. destruct (negb (_ =? _)); [done|]. cbv zeta in H |- *.
  destruct (agreement_slices vc Oc) as (S1 & S2 & S3 & S4). destruct (agreement_slices _ Oc') as (S1' & S2' & S3' & S4').
  rewrite S1, bind_Ok_l, S2, bind_Ok_l, S3, bind_Ok_l, S4, bind_Ok_l in H.
  rewrite S1', bind_Ok_l, S2', bind_Ok_l, S3', bind_Ok_l, S4', bind_Ok_l. cbn [resequenced ep_grantDigest ep_transportEpoch ep_negotiationDigest ep_binding].
  do 5 (destruct (negb (bool_decide _)); [done|]).
  apply bind_Ok in H as ([] & Cc & H). apply bind_Ok in H as ([] & Cd & H). apply bind_Ok in H as ([] & _ & H). apply bind_Ok in H as ([] & _ & H).
  apply Ok_inj in H. subst g. rewrite !check_certificate_resequenced by done. rewrite Cc, Cd, Vc, Vd. cbn [mbind result_bind].
  eexists. split; [reflexivity|]. done.
Qed.

(** ** The principal *)

Lemma gate_kept client daemon x g : gate_consume client daemon x = Ok g ->
  eg_client_grant_digest g = px_grant_digest x /\ eg_child_attempt_id g = px_child_attempt_id x.
Proof using Type.
  intros H. unfold gate_consume in H. destruct (_ && _) in H; [done|]. apply negb_if in H as [_ H].
  do 3 (apply bind_Ok in H as (? & _ & H)). do 5 (apply negb_if in H as [_ H]). cbv zeta in H.
  apply bind_Ok in H as (gd & _ & H). do 3 (apply bind_Ok in H as (? & _ & H)). apply negb_if in H as [Eg%bool_decide_eq_true H].
  do 4 (apply negb_if in H as [_ H]). do 4 (apply bind_Ok in H as ([] & _ & H)). apply Ok_inj in H. by subst.
Qed.
(** Authority: no legacy scope and no owner level, whatever the file system says. *)
Definition only_ceiling_authority (p : ClientPrincipal) : Prop :=
  has_owner_level_authority p = false /\ is_owner p = false /\ as_local p = None /\
  forall canonicalize root, can_agent_write_project canonicalize p root = false /\ can_agent_read_project canonicalize p root = false /\
    has_project_files canonicalize p root = false /\ has_terminal p = false.
(** The capabilities of a ceiling. *)
Definition grants_exactly (c : RemotePermissionCeilingV1) (a : RemoteCeilingAuthorization) : Prop :=
  (forall cap, has_attachment_capability a cap = true <-> cap ∈ pc_attachment_capabilities c) /\
  forall project cap, project_has_capability a project cap = true <-> exists caps, (project, caps) ∈ pc_projects c /\ cap ∈ caps.

(** C4: The principal of an admitted connection has the authority of the signed ceiling and no
    other. When a grant is verified, a gate opened and a principal built from the two: the gate's
    proofs were checked against the digest of exactly this grant and its child attempt; the
    principal is the expected account and client device; its attachment and project capabilities
    are exactly those of the ceiling whose digest the grant carries; and it is never the owner,
    never a local client, and has no terminal, agent or file access through the legacy scopes,
    for any project. *)
Theorem admitted_principal_has_signed_authority jws keys e now v client daemon x g p :
  verify_attempt_grant jws keys e now = Ok v -> gate_consume client daemon x = Ok g -> construct_principal_from_grant v g = Ok p ->
  px_grant_digest x = sha256 jws /\ px_child_attempt_id x = gx_child_attempt_id e /\
  exists auth, attempt_grant_authorization p = Some auth /\ p = from_attempt_grant (ag_account_alias auth) auth None /\
    ag_account_alias auth = url_encode (gx_account_id e) /\
    ag_device_binding auth = mkDeviceBinding (gi_device_id (gx_client e)) (gi_certificate_id (gx_client e)) (gi_generation (gx_client e))
      (gx_logical_attachment_id e) (gx_child_attempt_id e) /\
    (exists ceiling, grants_exactly ceiling (ag_ceiling auth) /\ canonical_ceiling ceiling /\
       permission_ceiling_digest ceiling = Ok (ra_permission_ceiling_digest (va_grant v))) /\
    only_ceiling_authority p.
Proof using Type.
  intros (_ & Hs & Hc%validate_claims_ok & Hb%bind_expectations_ok)%verify_inv [Kd Kc]%gate_kept H.
  destruct Hs as (? & ? & ? & ? & ? & ? & ? & raw & ? & ? & _ & _ & (_ & _ & _ & _ & Hd) & _). apply decode_claims_times in Hd as [Hj _].
  unfold construct_principal_from_grant in H. cbv zeta in H. apply negb_if in H as [Ed%bool_decide_eq_true H].
  apply negb_if in H as [Ec%bool_decide_eq_true H]. apply Ok_inj in H. subst p. unfold grant_digest_of in Ed. rewrite Hj in Ed.
  destruct Hb. split; [congruence|]. split; [congruence|]. eexists. split; [done|]. split; [done|]. cbn [ag_account_alias ag_device_binding ag_ceiling].
  split; [unfold account_alias; by rewrite bt_account0|]. split; [congruence|]. split; [|done].
  exists (ceiling_of (va_grant v)). split; [|exact (ch_ceiling _ _ Hc)]. split.
  - intros cap. unfold has_attachment_capability. by rewrite bool_decide_eq_true.
  - intros project cap. unfold project_has_capability. cbn [ca_projects]. rewrite existsb_exists. split.
    + intros ([pid caps] & Hin%list_elem_of_In & [E1%bool_decide_eq_true E2%bool_decide_eq_true]%andb_true_iff). cbn in *. subst. by exists caps.
    + intros (caps & Hin & Hcap). exists (project, caps). split; [by apply list_elem_of_In|]. cbn. by rewrite !bool_decide_true.
Qed.
End Verify.

(** ** A concrete admission *)

Module AttemptWitnesses.
#[local] Existing Instance Toy_sha256.
(** An encoding with the lengths and the law the code relies on: a block of one repeated byte has an
    alias of 22 characters, anything else is marked and copied. *)
Definition toy_encode (b : bytes) : bytes :=
  if bool_decide (b = repeat (hd 0 b) 16) then repeat 65 21 ++ [hd 0 b] else 66 :: b.
Definition toy_decode (s : bytes) : option bytes :=
  match s with
  | 66 :: b => Some b
  | _ => if zlen s =? 22 then Some (repeat (List.last s 0) 16) else None
  end.
#[local] Instance Toy_base64url : Base64Url.
Proof.
  refine (mkBase64Url toy_encode toy_decode _). intros b. unfold toy_encode. case_bool_decide as Hb; [|done].
  rewrite Hb at 2. cbn. done.
Defined.
(** A keyed checksum in place of a signature. *)
Definition toy_sign (k m : bytes) : bytes := map (fun d => 97 + d mod 26) (toy_digest (k ++ m) ++ toy_digest (m ++ k)).
#[local] Instance Toy_p256 : P256 :=
  mkP256 (fun _ => true) (fun _ => false) (fun _ => true) (fun k m s => bool_decide (s = toy_sign k m)).
Definition hex_of (b : bytes) : bytes := concat (map (fun x => [hex_digit (x / 16); hex_digit (x mod 16)]) b).
Definition block (x : Z) : bytes := repeat x 16.
Definition wide (x : Z) : bytes := repeat x 32.
Definition sample_ceiling : RemotePermissionCeilingV1 :=
  Ceiling.mkCeiling (take 1 attachment_all) [(block 9, take 2 project_all)].
Definition ceiling_digest : bytes := Eval vm_compute in match permission_ceiling_digest sample_ceiling with Ok d => d | _ => [] end.
Definition raw_identity (x : Z) : RawIdentity := mkRawIdentity (toy_encode (block x)) (toy_encode (block (x + 1))) [51] (hex_of (wide x)).
Definition sample_claims : RawClaims :=
  mkRawClaims 1 (ascii_bytes "iss") (ascii_bytes "aud") (toy_encode (block 97)) (toy_encode (block 98)) (toy_encode (block 99))
    (toy_encode (block 100)) (toy_encode (block 101)) (toy_encode (block 102)) (raw_identity 103) (raw_identity 105) (hex_of (wide 1)) [49]
    (hex_of (wide 2)) [50] (hex_of (wide 3)) [52] (map attachment_ordinal (take 1 attachment_all))
    [mkRawProject (hex_of (block 9)) (map project_ordinal (take 2 project_all))] (hex_of ceiling_digest) 3 [1] None
    (ascii_bytes "1000") (ascii_bytes "1000") (ascii_bytes "1300").
#[local] Instance Toy_json : GrantJson :=
  mkGrantJson (fun _ => Some JNull) (fun _ => Some (mkRawHeader GRANT_JWS_ALG [107] GRANT_JWS_TYP)) (fun _ => Some sample_claims).
Definition authority_key : Es256PublicKey := mkKey (wide 11) (wide 12).
Definition ring : AttemptGrantKeyRing := with_key ∅ [107] authority_key.
Definition signing_input : bytes := ascii_bytes "Bh.Bnull".
Definition jws : bytes := Eval vm_compute in signing_input ++ [46] ++ 66 :: toy_sign (to_sec1_uncompressed authority_key) signing_input.
Definition identity (x : Z) : GrantDeviceIdentity := mkIdentity (block x) (block (x + 1)) 3 (wide x).
Definition expectations : GrantVerificationExpectations :=
  mkExpectations (ascii_bytes "iss") (ascii_bytes "aud") (block 97) (block 98) (block 99) (block 100) (block 101) (identity 103) (identity 105)
    (wide 1) 1 (wide 2) 2 (wide 3) 4 ControlPlane.
(** The two proofs, at an admission sequence. *)
Definition endpoint (role sequence : Z) (key : Es256PublicKey) : EndpointFinalProof :=
  let unsigned := mkEndpointProof role 1 (block 101) (block 20) sequence (sha256 jws) (wide 22) (repeat 23 96) (block (24 + role))
                    (block (102 + 2 * role)) 3 (repeat 1 64) in
  mkEndpointProof role 1 (block 101) (block 20) sequence (sha256 jws) (wide 22) (repeat 23 96) (block (24 + role)) (block (102 + 2 * role)) 3
    (toy_sign (to_sec1_uncompressed key) (sha256 (FCFP_DOMAIN ++ signed_part unsigned))).
Definition client_key : Es256PublicKey := mkKey (wide 13) (wide 14).
Definition daemon_key : Es256PublicKey := mkKey (wide 15) (wide 16).
Definition proofs (sequence : Z) : bytes * bytes :=
  (default [] (final_proof_encode (endpoint 1 sequence client_key)), default [] (final_proof_encode (endpoint 2 sequence daemon_key))).
Definition gate_expectations : FinalProofExpectations :=
  mkProofExpectations (sha256 jws) (block 101) 1 3 (block 20) (wide 22) (repeat 23 96) client_key daemon_key (block 104) 3 (block 106) 3.
Definition proofs_one : bytes * bytes := Eval vm_compute in proofs 1.

Lemma open_gate_is_signed_witness : exists g, gate_consume proofs_one.1 proofs_one.2 gate_expectations = Ok g /\
  eg_transport_epoch g = block 20.
Proof.
  assert (all_u8 proofs_one.1) as Hc by (refine (bool_decide_unpack _ _); vm_compute; exact I).
  assert (all_u8 proofs_one.2) as Hd by (refine (bool_decide_unpack _ _); vm_compute; exact I).
  assert (exists g, gate_consume proofs_one.1 proofs_one.2 gate_expectations = Ok g) as [g Hg] by (eexists; vm_compute; reflexivity).
  exists g. split; [exact Hg|]. destruct (open_gate_is_signed proofs_one.1 proofs_one.2 gate_expectations g Hc Hd Hg) as (vc & vd & H).
  apply H.
Defined.

Lemma admitted_principal_has_signed_authority_witness : exists v g p, verify_attempt_grant jws ring expectations 1100 = Ok v /\
  gate_consume proofs_one.1 proofs_one.2 gate_expectations = Ok g /\ construct_principal_from_grant v g = Ok p /\
  only_ceiling_authority p /\ px_grant_digest gate_expectations = sha256 jws.
Proof.
  assert (exists v g p, verify_attempt_grant jws ring expectations 1100 = Ok v /\ gate_consume proofs_one.1 proofs_one.2 gate_expectations = Ok g /\
    construct_principal_from_grant v g = Ok p) as (v & g & p & H1 & H2 & H3).
  { eexists _, _, _. split; [vm_compute; reflexivity|]. split; vm_compute; reflexivity. }
  exists v, g, p. split; [exact H1|]. split; [exact H2|]. split; [exact H3|].
  destruct (admitted_principal_has_signed_authority jws ring expectations 1100 v proofs_one.1 proofs_one.2 gate_expectations g p H1 H2 H3)
    as (Hg & _ & auth & _ & _ & _ & _ & _ & Ha).
  split; [exact Ha|exact Hg].
Defined.

(** Refusals: an expired grant, a foreign key, one changed expectation. *)
Lemma grant_refusals :
  verify_attempt_grant jws ring expectations 1301 = Err AgTime /\
  verify_attempt_grant jws (with_key ∅ [107] client_key) expectations 1100 = Err AgSignature /\
  verify_attempt_grant jws ∅ expectations 1100 = Err AgSignature.
Proof. split; [|split]; vm_compute; reflexivity. Qed.

(** The same proofs signed again under admission sequence 2. *)
Lemma endpoint_is_ok v : final_proof_encode v = Some (endpoint_bytes v) -> endpoint_ok v.
Proof. by intros []%final_proof_encode_ok. Qed.
Lemma admission_sequence_unbound_witness : exists g g',
  gate_consume (endpoint_bytes (endpoint 1 1 client_key)) (endpoint_bytes (endpoint 2 1 daemon_key)) gate_expectations = Ok g /\
  gate_consume (endpoint_bytes (endpoint 1 2 client_key)) (endpoint_bytes (endpoint 2 2 daemon_key)) gate_expectations = Ok g' /\
  eg_client_grant_digest g' = eg_client_grant_digest g.
Proof.
  assert (exists g, gate_consume (endpoint_bytes (endpoint 1 1 client_key)) (endpoint_bytes (endpoint 2 1 daemon_key))
    gate_expectations = Ok g) as [g Hg] by (eexists; vm_compute; reflexivity).
  destruct (admission_sequence_unbound (endpoint 1 1 client_key) (endpoint 2 1 daemon_key) gate_expectations g 2
    (ep_signature (endpoint 1 2 client_key)) (ep_signature (endpoint 2 2 daemon_key))) as (g' & Hg' & Hd & _);
    [apply endpoint_is_ok; vm_compute; reflexivity|apply endpoint_is_ok; vm_compute; reflexivity|exact Hg|split; vm_compute; (reflexivity || (split; discriminate))|reflexivity|reflexivity
    |vm_compute; reflexivity|vm_compute; reflexivity|].
  exists g, g'. split; [exact Hg|]. split; [exact Hg'|exact Hd].
Defined.
End AttemptWitnesses.
